(* ===== verification/_CoqProject ===== *)
-Q . S2P
Prelude.v
JsString.v
JsNumber.v
Json.v
Chunk.v
Driver.v
Reconcile.v
Worker.v
Scheduler.v
CommandLine.v
SshTool.v
KubectlTool.v
GithubTool.v
UrlGuard.v
JsMap.v
Registry.v
Query.v
Auth.v
Broker.v
BrokerSafety.v
HttpSource.v
Fetch.v
CorpusResource.v
CrdRegistry.v
Writer.v
EventValues.v
JsList.v
JsonText.v
EventTrigger.v
AgentRuntime.v
AgentChannel.v
AgentLink.v
AgentConfig.v
KnowledgeBase.v
KbProbe.v
KbSearch.v
KbCite.v
KbBroker.v
KbSearcher.v
KbQuery.v
KbLive.v
KbHop.v
IdentityLink.v
Authorization.v
AuthSafety.v
AuthBatch.v
Rbac.v
Session.v
Approval.v
Catalog.v
Planner.v
Dispatch.v
GraphState.v
GraphNodes.v
GraphTools.v
GraphRun.v
GraphSafety.v
GraphPolicy.v
GraphTurn.v
CatalogStores.v
CatalogSync.v
CallerTools.v
ChatApi.v
ChatServer.v
ChatTurn.v
TriggerRegistry.v
InvokeServer.v
RecordStore.v
OAuthLink.v
LinkApi.v
McpTool.v
McpServer.v
GatewayAuth.v
GatewaySource.v
GatewayIdentity.v
SessionPage.v
GatewayRelay.v
GatewayEvents.v
GatewayServer.v
