(* ===== verification/Prelude.v ===== *)
(** * Verification library for agent-controller

    ** The program

    agent-controller runs assistants and tools on Kubernetes.  The parts this
    library models are the ones that decide something on behalf of a caller:

    - the connection broker (src/apps/connection-broker/src): the service that
      holds provider credentials, answers the orchestrator's reads with the
      calling user's token, and serves the sync workers that keep a vector
      index of each corpus up to date;
    - the command tools (src/tools/ssh, kubectl-readonly, github) and the URL
      guard of the fetching tools (src/tools/web-fetch): what a line or an
      address written by a language model may do;
    - the event triggers (src/packages/event-triggers): which trigger an
      incoming event selects, and what is dispatched;
    - the agent runtime (src/packages/agent-runtime, over the protocol of
      src/packages/messaging): the process side of a sub-agent's run, which
      must neither lose nor repeat what it tells the orchestrator;
    - the agent orchestrator (src/apps/agent-orchestrator/src): its HTTP
      interface (chat completions, streamed or not, with the caller's own tools;
      accept-then-poll; the routes to a live run), the catalog of tools, skills
      and agents that it keeps from the cluster's resources and searches under
      the caller's roles, the graph that
      takes a turn of a conversation from the caller to an answer (which tools
      and agents it may run, with whose roles and after which approval), its
      side of the runs of sub-agents, its knowledge bases (what a search may
      show a caller, and under which credential each source is asked), the
      authorization of a launch (which credentials of a person a run is given),
      the resolvers of identities, and the sessions that carry a conversation
      from one turn to the next;
    - the integration gateway (src/apps/integration-gateway/src, over
      src/packages/credential-store and src/packages/github-app-auth): which
      deliveries and ticks it takes as events, whom it says sent them, the run
      that an accepted event starts and the replies that settle it, the pages on
      which a session is followed, and the links from a person to the accounts
      of providers, with the credential records that hold them;
    - the MCP broker (src/apps/mcp-broker/src): the discovery that writes a
      server's tools into the cluster as resources, and the calls of those tools
      that it proxies.

    A turn is the program's main path.  A request reaches [handleInvoke]
    (InvokeServer, with the trigger that TriggerRegistry selects for an event) or
    [handleChatCompletions] (ChatServer, over the messages that ChatApi reads and
    the tools that CallerTools takes); either reads what the last turn left
    (Session) and runs the graph ([run_turn] of
    GraphTools) from [resolveIdentity] (GraphNodes, over Rbac): the checks of
    what the turn continues (an approval, an identity link, a skill, an agent
    run), the knowledge base gate, the retrieval of candidates (Catalog; its
    stores are CatalogStores, kept current by CatalogSync), the
    selection of a delegate (Planner), and then either an agent's launch
    ([delegateToAgent], under the credentials that Authorization clears, over
    AgentChannel) or the tool loop [planAction] / [runTool] (Planner, Approval,
    Dispatch), until an answer is composed or the turn pauses.

    A sync pass shows how the parts meet.  The scheduler (Scheduler) starts
    [syncConnection] (Worker), which lists and fetches through an HTTP client
    (HttpSource) that talks to the broker's handler (Broker), which
    authenticates (Auth), finds the binding (Registry; CrdRegistry fed by
    CorpusResource) and calls a driver (Driver).  The documents are chunked
    (Chunk), compared with the index (Reconcile), and the plan is carried out
    by the writer (Writer).

    A search shows the other half.  A tool call reaches [search] (KbSearcher),
    which keeps the members the caller's roles admit, takes a credential per
    provider through the identity links (IdentityLink), queries the index that
    the writer filled and prunes the passages (KbSearch), asks each passage's
    source as the caller (KbProbe) through the broker (KbBroker, over Broker and
    Driver), and renders what is left with its sources and caveats; the answer
    of the model is linked to those sources (KbCite).  The live tools (KbLive)
    ask the broker at once, with a query that the planner wrote (KbQuery); KbHop
    composes them with the broker's handler.  A launch goes through
    [resolveIdentity] and [authorize] (Authorization), for an identity that a
    resolver (Rbac) read off the request, and what a turn leaves to the next is
    a session record (Session).

    An event comes in through the gateway.  [handleWebhook] (GatewayServer) reads
    the body under its bound, verifies the delivery with the secret of its source
    (GatewayAuth), chooses among the sources (GatewaySource) and matches its
    triggers (EventTrigger); [resolveSender] (GatewayIdentity) says under which
    subject and roles the sender acts; [relayEvent] and [runAcceptedEvent]
    (GatewayEvents) then post the turn to /invoke and poll it (GatewayRelay),
    keep its page (SessionPage), and answer to the place the event came from.  The
    accounts that an event or a turn acts with are linked through LinkApi, over
    the flows of OAuthLink and the records of RecordStore.

    ** The files

    - Prelude: results, the state-and-error monad [SM], their notation, the
      tactics [inv_result] and [to_prop], shared list lemmas.
    - JsString, JsNumber, Json, JsMap: what the modelled code uses of the
      language.  Strings are lists of 8-bit code units, so the models are exact
      on Latin-1 text; numbers are NaN, the infinities, or m * 2^e, with the
      32-bit operators and the printing of integers and doubles written out;
      a Map or an object is an association list in insertion order.
    - Driver (drivers/types.ts), Registry (registry.ts), Query
      (drivers/query.ts), Auth (auth.ts, drivers/webhook-signature.ts), Broker
      (server.ts), BrokerSafety (theorems over Broker), HttpSource
      (sync/http-source.ts), CorpusResource (corpus-resource.ts), CrdRegistry
      (crd-corpus-registry.ts).
    - Chunk (sync/chunk.ts), Reconcile (sync/reconcile.ts), Worker
      (sync/worker.ts), Writer (sync/corpus-writer.ts, sync/point-id.ts),
      Scheduler (sync/scheduler.ts).
    - CommandLine (the tokenizer the three tools share), SshTool, KubectlTool,
      GithubTool (their allowlist.ts), UrlGuard (security/url-guard.ts).
    - EventValues (values.ts, template.ts), EventTrigger (trigger.ts, types.ts,
      cel.ts, the headers of envelope.ts).
    - AgentRuntime (runtime.ts, messaging/src/agent-protocol.ts), AgentConfig
      (config.ts).
    - Fetch (the request and response of fetch(), shared by the clients),
      JsList (array operations and concurrent maps).
    - KnowledgeBase (knowledge-base/types.ts, crd.ts, crd-registry.ts,
      derive.ts, index-derivation.ts, exec.ts), KbProbe (probe.ts,
      prefilter.ts), KbSearch (search.ts, rerank.ts, qdrant-corpus-store.ts, the
      composition of retrieve.ts), KbBroker (the prober of retrieve.ts),
      KbSearcher (searcher.ts, render.ts, linked-credentials.ts), KbCite
      (cite.ts), KbQuery (query.ts: the query and its answer), KbLive
      (reader.ts, lookup.ts and query.ts: the tools), KbHop (both ends of the
      live tools composed).
    - IdentityLink (identity-link/: the port, its three gateway clients, the
      catalog, the subjects), Authorization (agent/authorization-service.ts and
      the resolveIdentity node of agent/graph.ts), AuthSafety and AuthBatch
      (theorems over Authorization), Rbac (rbac/: the resolvers and the sender
      assertion; principal-recording-resolver.ts), Session (session/,
      continuation.ts, and the writers of records in server.ts).
    - AgentChannel (agents/nats-agent-channel.ts, reply-store.ts), AgentLink
      (AgentRuntime and AgentChannel joined by a network).
    - Approval (agent/approval.ts), Catalog (tool-descriptor.ts,
      skills/types.ts, agents/types.ts), Planner (agent/action-planner.ts, the
      selectors, the fit checkers, the composer and the best-effort responder),
      Dispatch (agent/dispatch-tool.ts and the ports that run a tool).
    - agent/graph.ts: GraphState (the annotation, its reducers and the
      dependencies), GraphNodes (the nodes before the tool loop), GraphTools
      (the tool loop, the edges, [run_turn]); over them GraphRun (termination),
      GraphSafety (the policy of a turn), GraphPolicy (every node keeps to it),
      GraphTurn (the theorems about turns).
    - JsonText (JSON.stringify), CatalogStores (vector-store/qdrant-store.ts and
      the stores of skills and agents, skills/derive-access.ts), CatalogSync (the
      registries of tools, skills and agents and the handlers of index.ts),
      CallerTools (caller-tools/), ChatApi (openai/, messaging/src/turn-event.ts),
      ChatServer (the chat handlers of server.ts), ChatTurn (theorems over the
      stream and the graph), TriggerRegistry
      (routing/crd-event-trigger-registry.ts), InvokeServer (/invoke, the
      invocation store, the live routes and the dispatch of server.ts).
    - RecordStore (credential-store/src, the gateway's
      identity-link/k8s-secret-store.ts and connections/principal-directory.ts),
      OAuthLink (packages/github-app-auth, and the gateway's
      device-flow-linker.ts, oauth-authcode-linker.ts and providers.ts), LinkApi
      (identity-link/api.ts, the routes of linking).
    - McpTool (the broker's mcp-server-resource.ts, mcptool-writer.ts,
      mcpserver-status.ts and discovery.ts), McpServer (server.ts, auth.ts,
      crd-mcpserver-registry.ts, mcp-client.ts).
    - GatewayAuth (webhooks/verify.ts, tick-auth.ts,
      connections/signed-token.ts), GatewaySource (event-sources.ts,
      event-triggers.ts, and the building of an envelope in
      packages/event-triggers/src/envelope.ts), GatewayIdentity (identity.ts),
      SessionPage (session-page-store.ts, session-page.ts), GatewayRelay
      (orchestrator-client.ts, github-client.ts, label-reconciler.ts),
      GatewayEvents and GatewayServer (server.ts: an accepted event, then the
      request handlers in front of it).

Definitions keep the names of the source.  A function that throws returns a
[result]; one that awaits runs in [SM W E A], a function of a world [W] to
an outcome and a world.  Where two operations of the source interleave at
an await (Scheduler, CrdRegistry, AgentRuntime, AgentChannel, the wait of
RecordStore, the registry of McpServer, the key cache of GatewayAuth) the
operation is split at the await and the component is a step relation; the
reports of an accepted turn, which nobody awaits, go on at the awaits of
InvokeServer's [Loop] in an order that is an argument.  A node of the graph
returns the list of the state's keys it sets ([Update]), merged as the
annotation's reducers do.  Requests that the source
sends concurrently and then awaits together are made in order
([all_settled]); what they answer does not depend on each other.

    ** Interfaces

    - [Registry.RegistryLaws]: every binding a registry lists is the one it
      looks up under that name.  The broker's theorems are proved against it;
      the static registry and the CRD registry (in every reachable state)
      satisfy it.
    - The laws of a resource source and of a corpus writer in Worker: the
      theorems on a sync pass are proved against them, and [Worker.MemWorld]
      satisfies them.  [Writer.QdrantLaws] and [Writer.EmbedderLaws] are what the
      writer asks of the vector database and of the embedding service, as
      their documentation has it; [Writer.MemQdrant] satisfies them.
    - [AuthSafety.contract]: what authorization relies on from its gateways (an
      invariant of the world that every call keeps, the tokens and grants each
      may hand out, the logins it may name); the theorems of AuthSafety hold
      against any implementation of it, and [AuthSafety.alice_contract]
      instantiates it.  [IdentityLink.IdentityLinkPort], the session store, the
      corpus store and the probers are Records of functions, as the source has
      them as interfaces; the gateway clients, the store in memory, the Qdrant
      store and the broker's prober are their implementations.
    - [Rbac.Base64Laws]: decoding gives back what was encoded, and the encoding
      has no dot.
    - [ensures] (Prelude): the triple of the monad, with a rule per combinator;
      the theorems on credentials are proved with it.
    - [GraphState.AgentGraphDeps]: the stores, model calls, launchers and the
      channel that the nodes use, as the source injects them; a node's theorem
      holds for any of them, under the laws of [GraphSafety] where it needs
      one (an authorization of credentials runs nothing).
    - [CatalogStores.client_lawful]: a vector store that honours the filters of a
      search; [CatalogStores.MemCatalog] is one.  [ChatServer.AgentGraphLike] is
      the graph as the server sees it, [InvokeServer.InvocationStore] its records.
    - [RecordStore.SecretApiLaws]: what the credential records ask of the
      Kubernetes API, and [RecordStore.FieldCodec] of the coding of a Secret's
      fields; [OAuthLink.LinkStoreLaws] is what the link flows ask of the records,
      [McpTool.ToolApiLaws] and [McpTool.ToolApiWorks] what discovery asks of the
      cluster, which [McpTool.mem_cluster], a cluster in memory, satisfies.
    - [GatewayIdentity.CacheLaws]: the caches and the token of the sender's
      resolution; [GatewayRelay.TimeLaws]: a clock that a wait of n
      milliseconds advances by n at least; [SessionPage.RedisPages]: the
      operations of Redis that the second store of pages uses;
      [GatewayEvents.EventLaws]: what settling an event asks of the services
      around it.
    - Code that is not in the repository is an argument: SHA-256, SHA-1, HMAC,
      the URL parser, the JSON parser, net.isIP, DNS, the CEL library, the
      embedding service, the vector store, the Kubernetes API,
      JWT verification, fetch().

    ** The theorems

    - Broker: over the whole request handler and whatever the request, each
      call to a driver is for the corpus the request named and with the
      credential its caller may use; unauthenticated requests and closed
      webhook routes change nothing; a verified notification reaches exactly
      the corpora it concerns.  Authentication is exact.
    - HttpSource: composed with the broker's handler, the client is the driver,
      errors included (a refinement).
    - Sync: a full pass converges, no pass deletes what it did not read, every
      point written is role-gated, what is written is what is read back,
      passes of a corpus never overlap, and stop quiesces.
    - Registry: in any interleaving a registry; without interleaving, exactly
      the bindings the resources describe.
    - Chunk: splitting loses nothing, terminates and respects its cap; the hash
      ignores reflow.
    - Tools: accepted lines are the ones the policy describes, hold no shell
      metacharacter, and reach the program as the words that were validated; an accepted URL resolves
      only to addresses the guard admits; the bit masks of the guard are the
      ranges it lists.
    - Query: calendar dates are the Gregorian calendar's, resolved queries are
      safe to splice into a provider's query.
    - Events: selection never throws, does not depend on the order of arrival,
      and names the best matching trigger; rendering is a single pass;
      canonical JSON does not depend on key order; headers are exactly those
      sent less the dropped ones.
    - Agent runtime: over any handler and any interleaving, sequence numbers
      arrive without gaps, a repeated number repeats its message, a spent
      message is never sent again, tool calls settle once, re-offers are
      bounded, and a conclusion is waited on and always released.
    - Knowledge bases: a passage reaches the model only if its source answered,
      to a probe that carries the caller's own credential of that member, that
      the caller may read it; a search or live tool never uses a member the
      caller's roles exclude nor another person's credential; the probe through
      the broker is the driver's answer, errors included (a refinement), and so
      is the planner's query; what the writer wrote is what the search reads;
      the derived skills and tools refer to each other and to members that
      exist; citations are replaced in one pass, and the caveats of a
      search are in every answer.
    - The graph: a turn ends within 31 nodes, of the 36 that the compiled
      graph's recursion limit admits; whatever the models answer, it runs only
      tools and agents that the stores gave for the caller's own roles (or that
      a stored pause of this conversation names), a gated tool only after an
      approval of that very call, and nothing that writes in a read-only turn
      (GraphSafety has the policy, a predicate on each step of the world's log,
      GraphPolicy its proof node by node); a paused call is taken up as it was;
      what the planner's answer becomes is a decision the loop can take.
    - The catalog: what a store gives was indexed and is open to a role of the
      caller; a skill is open exactly to the roles that open all it names; without
      failures or reordering the index ends as the cluster's catalog.
    - The HTTP interface: the request that the graph is asked with is the window
      of the conversation that the code promises; a streamed answer persists and
      says what the answer given at once does, and any stream is well formed; an
      accepted turn always ends by writing the record that is polled; an event starts its
      trigger's turn, whose trigger is as the cluster last described it, or none;
      a live run is reached only through its own session; a request's tools are
      bounded and their hash names one definition.
    - Agent channel: a wait returns the first conclusion with the narration
      before it; the idle clock measures only silence the agent answers for; a
      run's answer and its turn agree whatever the network does, and a held
      answer can always be collected.
    - Authorization: every credential of an authorized launch was asked of the
      gateway of a provider that the request declared (or that is the principal
      provider or one to adopt from), under a subject of the caller; all that
      the request requires is either injected or reported; adoption only
      happens for subjects that are one person; without a live channel the
      decision is the batch of all providers, over the Connections page and
      without it; the credentials of a tool are the ones a launch would get.
    - Identities and sessions: only a forwarded user is one person's subject; a
      signed sender is accepted until its expiry and not after; the store in
      memory is bounded and evicts the least recently used; every record that a
      turn writes satisfies the record's invariant.
    - The gateway: a delivery is accepted only with a proof (a signature over
      its bytes, or the token itself) of a secret of its source; a rotated secret
      is honoured by a fresh reading; only the service account of a cron source
      ticks it; no body is kept past its bound;
      the sender's roles are those that the provider vouched for; an event that
      was accepted is settled once, whatever fails on the way; polling ends
      within one round for each interval of its budget and one more, and the label
      sweep takes off only the labels of runs that have ended, older than the
      grace; the two stores of pages give the same answers.
    - Links and records: a link that is stored is read back whole and no other
      changes; through a callback one is stored only under the subject of a state
      that the gateway signed; the routes of linking compose, from the start in
      the chat to the token.
    - MCP broker: after a pass of discovery without failures the names of the
      server's tools are exactly those that the resource exposes and the server
      has, each desired field is as desired (one no longer desired stays), and
      other servers' tools are as they were; a call is proxied only for the engine, to a
      server of the registry and a tool that its map grants, and with the user's
      token wherever the server runs as the user; a tool that discovery wrote can
      be called.

    Some theorems state where the code does not keep a promise: a heading
    paragraph above the cap, a timer leaked by a restart, a deleted corpus
    served for good, a Secret named by a later positional, a mapped address in
    hexadecimal, a question stranded by the next one; the person who first
    links an account through a shared subject answers for everyone on it
    ([AuthBatch.shared_subject_inherits]), continuation tokens that outlive their
    caller ([Session.continuations_cross_callers]), the streamed path that drops
    the anchor of a resumable run ([Session.streaming_drops_resume]), the
    approval that /invoke does not record, a duplicate that hides a readable
    passage, principals of one provider that hide the passages of another; an
    index that loses a tool's approval policy ([CatalogStores.catalog_loses_policy])
    and keeps what was deleted while the process was down
    ([CatalogSync.stale_entry_survives]), a stream that forgets a pending link
    ([ChatTurn.stream_forgets_link]), a housekeeping request that reaches the
    graph once it has a history ([ChatApi.housekeeping_needs_no_history]), a
    late report that reopens a finished record
    ([InvokeServer.late_report_reopens]), live routes that take any token
    ([InvokeServer.live_routes_take_any_token]); a failed write that a link
    reports as done ([RecordStore.link_set_swallows]), a wait that takes the
    record of an expired link ([RecordStore.wait_takes_any_record]), providers and
    tools whose names collide ([RecordStore.slugs_collide],
    [McpTool.catalogIds_collide]), an approval that stays after it was withdrawn
    ([McpTool.withdrawn_approval_stays]), a list of one server's tools that
    fails and ends the pass over all ([McpTool.one_failure_stops_all]), a deleted server that comes back
    ([McpServer.deleted_server_returns]), a scan that misses the sender that an
    expression reads ([GatewaySource.scan_misses_sender]), one failed poll reported
    as three ([GatewayRelay.one_failure_reported_as_three]), and a page that Redis
    loses for want of a name ([SessionPage.nameless_page_lost]).

    ** Fuel

    [forceSplit] recurses over its three separators, so fuel three is enough
    for any text.  [tokenize] and [renderTemplate] use the length of their text,
    and each step consumes a character.  [walk] has the page limit of the
    source, which throws when it is reached.  The scroll of [indexed] has no
    limit in the source; the model's is an argument, and the round trip is
    proved for every limit above the number of pages.  [upsert_loop] has one
    round per chunk, more than the number of batches.  The scan for citations
    has the length of the text, and each round consumes a character; [evict]
    has the number of sessions, and each round removes one; the start of a link
    flow is tried as often as the source tries it.  [run_turn] has the recursion
    limit of the compiled graph, which the source's runtime enforces, and
    [GraphTurn.turn_terminates] shows that it is never reached; the tool loop
    has MAX_TOOL_STEPS of the source.  [poll_fuel] has one round for each interval
    of the budget, and [GatewayRelay.poll_ends] shows that the poll has ended
    by then; the scan of an event's text for its fields has the length of the
    text and one, and each round moves on ([GatewaySource.scan_fuel]).

    ** Not modelled

    Text outside Latin-1 (surrogate pairs, Unicode case and space), logging,
    sockets and processes, the provider drivers (Confluence, Slack, Drive), the
    clients of Kubernetes, Qdrant and the embedding service; the model calls
    themselves, whose answers are arguments; the Kubernetes launchers and the NATS and Redis
    adapters of the orchestrator, and its start-up; a
    change of the provider catalog while an authorization runs (the model reads
    the catalog of its start); of the gateway, the Claude logins with
    their refresher and sweeper, the OIDC login and the pages of connections, the
    tables that a watch keeps, the labels owed in Redis, and the live stream that
    is only piped through; the start-up of the services; the coding agents; the Go
    controllers and the Temporal engine.  Each is listed
    with its reason in the manifest of components. *)

From stdpp Require Import base gmap strings list sorting.
From Stdlib Require Import ZArith Lia.

(** ** Results: code that returns or throws *)

(** [result E A] is a computation of the program that either returns an [A] or
    throws an [E] (a [throw] of the source, or a rejected promise that the
    caller awaits). *)
Inductive result (E A : Type) : Type :=
| Ok (a : A)
| Err (e : E).

Arguments Ok {E A} a.
Arguments Err {E A} e.

Definition result_bind {E A B : Type} (f : A -> result E B) (r : result E A) : result E B :=
  match r with
  | Ok a => f a
  | Err e => Err e
  end.

Definition is_ok {E A : Type} (r : result E A) : bool :=
  match r with
  | Ok _ => true
  | Err _ => false
  end.

(** The [try { .. } catch] form. *)
Definition result_catch {E A : Type} (r : result E A) (h : E -> A) : A :=
  match r with
  | Ok a => a
  | Err e => h e
  end.

#[export] Instance result_mret (E : Type) : MRet (result E) := fun A a => Ok a.
#[export] Instance result_mbind (E : Type) : MBind (result E) := fun A B f r => result_bind f r.
#[export] Instance result_fmap (E : Type) : FMap (result E) :=
  fun A B f r => result_bind (fun a => Ok (f a)) r.

#[export] Instance result_eq_dec (E A : Type) `{EqDecision E, EqDecision A} : EqDecision (result E A).
Proof. solve_decision. Defined.

Declare Scope result_scope.
Delimit Scope result_scope with result.

(** [let? x := r in k]: the code after a call that may throw. *)
Notation "'let?' x ':=' r 'in' k" := (result_bind (fun x => k) r)
  (at level 10, x name, r at level 100, k at level 200) : result_scope.
Notation "'throw_if' b 'with' e ';;' k" := (if (b : bool) then Err e else k)
  (at level 10, b at level 99, e at level 99, k at level 200) : result_scope.

Open Scope result_scope.

(** Runs [f] over a list from the left and stops at the first throw, as a
    [for] loop whose body may throw. *)
Fixpoint mapM_result {E A B : Type} (f : A -> result E B) (l : list A) : result E (list B) :=
  match l with
  | [] => Ok []
  | x :: xs => let? y := f x in let? ys := mapM_result f xs in Ok (y :: ys)
  end.

(** A [for] loop over a list that threads a state and may throw. *)
Fixpoint foldM_result {E A S : Type} (f : S -> A -> result E S) (s : S) (l : list A) : result E S :=
  match l with
  | [] => Ok s
  | x :: xs => let? s' := f s x in foldM_result f s' xs
  end.

(** ** Computations that change a state and may throw

    [SM W E A] runs in a world [W] (what the code talks to: an HTTP service, a
    store, its own mutable fields); changes made before a throw stay. *)

Definition SM (W E A : Type) : Type := W -> result E A * W.

Definition sret {W E A : Type} (a : A) : SM W E A := fun w => (Ok a, w).
Definition sthrow {W E A : Type} (e : E) : SM W E A := fun w => (Err e, w).

Definition sbind {W E A B : Type} (f : A -> SM W E B) (m : SM W E A) : SM W E B :=
  fun w => match m w with
           | (Ok a, w') => f a w'
           | (Err e, w') => (Err e, w')
           end.

(** [try { m } catch (e) { h(e) }] *)
Definition scatch {W E A : Type} (m : SM W E A) (h : E -> SM W E A) : SM W E A :=
  fun w => match m w with
           | (Ok a, w') => (Ok a, w')
           | (Err e, w') => h e w'
           end.

Notation "'do!' x '<-' m ';;' k" := (sbind (fun x => k) m)
  (at level 10, x name, m at level 99, k at level 200) : result_scope.
Notation "'do!' '_' '<-' m ';;' k" := (sbind (fun _ => k) m)
  (at level 10, m at level 99, k at level 200) : result_scope.

(** A [for] loop with a state of its own in the monad. *)
Fixpoint sfold {W E A S : Type} (f : S -> A -> SM W E S) (s : S) (l : list A) : SM W E S :=
  match l with
  | [] => sret s
  | x :: xs => do! s' <- f s x ;; sfold f s' xs
  end.

(** [Promise.allSettled]: every computation is run, each in the world the ones
    before it left, and the outcomes are collected in order. *)
Fixpoint all_settled {W E E' A : Type} (ms : list (SM W E A)) : SM W E' (list (result E A)) :=
  match ms with
  | [] => sret []
  | m :: ms' => fun w =>
      let '(outcome, w1) := m w in
      (do! outcomes <- all_settled ms' ;; sret (outcome :: outcomes)) w1
  end.

(** ** Options *)

(** JavaScript's [a ?? b] and [o?.f]. *)
Definition nullish {A : Type} (o : option A) (d : A) : A :=
  match o with
  | Some a => a
  | None => d
  end.

Definition nullish_or {A : Type} (o p : option A) : option A :=
  match o with
  | Some a => Some a
  | None => p
  end.

Infix "??" := nullish (at level 60, right associativity) : result_scope.
Infix "???" := nullish_or (at level 60, right associativity) : result_scope.

(** ** Tactics *)

(** Splits every [if] and [match] of the goal, simplifying the equations. *)
Ltac split_matches :=
  repeat (case_match; simplify_eq/=).

(** Inverts equations between results. *)
Ltac inv_result :=
  repeat match goal with
    | H : Ok _ = Ok _ |- _ => injection H as H; subst
    | H : Err _ = Err _ |- _ => injection H as H; subst
    | H : Ok _ = Err _ |- _ => discriminate H
    | H : Err _ = Ok _ |- _ => discriminate H
    | H : result_bind _ ?r = Ok _ |- _ =>
        let E := fresh "E" in destruct r eqn:E; simpl in H
    | H : result_bind _ ?r = Err _ |- _ =>
        let E := fresh "E" in destruct r eqn:E; simpl in H
    end.

(** Turns boolean tests in the context into propositions. *)
Ltac to_prop :=
  repeat match goal with
    | H : (_ && _)%bool = true |- _ => apply andb_true_iff in H as [? ?]
    | H : (_ || _)%bool = false |- _ => apply orb_false_iff in H as [? ?]
    | H : negb _ = true |- _ => apply negb_true_iff in H
    | H : negb _ = false |- _ => apply negb_false_iff in H
    | H : (_ <=? _)%Z = true |- _ => apply Z.leb_le in H
    | H : (_ <=? _)%Z = false |- _ => apply Z.leb_gt in H
    | H : (_ <? _)%Z = true |- _ => apply Z.ltb_lt in H
    | H : (_ <? _)%Z = false |- _ => apply Z.ltb_ge in H
    | H : (_ =? _)%Z = true |- _ => apply Z.eqb_eq in H
    | H : (_ =? _)%Z = false |- _ => apply Z.eqb_neq in H
    | H : bool_decide _ = true |- _ => apply bool_decide_eq_true in H
    | H : bool_decide _ = false |- _ => apply bool_decide_eq_false in H
    end.

(** ** Lemmas on results *)

Section results.
Context {E A B : Type}.
Implicit Types (r : result E A).

Lemma result_bind_Ok (f : A -> result E B) r b :
  result_bind f r = Ok b <-> exists a, r = Ok a /\ f a = Ok b.
Proof. destruct r; simpl; naive_solver. Qed.

Lemma result_bind_Err (f : A -> result E B) r e :
  result_bind f r = Err e <-> r = Err e \/ exists a, r = Ok a /\ f a = Err e.
Proof. destruct r; simpl; naive_solver. Qed.

Lemma is_ok_true r : is_ok r = true <-> exists a, r = Ok a.
Proof. destruct r; simpl; naive_solver. Qed.

End results.

Section mapM.
Context {E A B : Type}.

Lemma mapM_result_Forall2 (f : A -> result E B) l l' :
  mapM_result f l = Ok l' <-> Forall2 (fun x y => f x = Ok y) l l'.
Proof.
  revert l'. induction l as [|x l IH]; intros l'; simpl.
  - split; [intros [= <-]; constructor | by intros ->%Forall2_nil_inv_l].
  - rewrite result_bind_Ok. split.
    + intros (y & Hy & (ys & Hys & [= <-])%result_bind_Ok). constructor; [done|]. by apply IH.
    + intros (y & ys & Hy & Hys & ->)%Forall2_cons_inv_l. exists y. split; [done|].
      apply result_bind_Ok. exists ys. split; [by apply IH | done].
Qed.
End mapM.

Section folds.
Context {E A S : Type}.

Lemma foldM_result_app (f : S -> A -> result E S) s l1 l2 :
  foldM_result f s (l1 ++ l2) = let? s' := foldM_result f s l1 in foldM_result f s' l2.
Proof. revert s. induction l1 as [|x l1 IH]; intros s; simpl; [done|]. by destruct (f s x); simpl. Qed.

(** The loop rule: an invariant that every successful iteration preserves
    holds when the loop ends. *)
Lemma foldM_result_inv (I : S -> Prop) (f : S -> A -> result E S) s l s' :
  (forall s x s', x ∈ l -> I s -> f s x = Ok s' -> I s') ->
  I s -> foldM_result f s l = Ok s' -> I s'.
Proof.
  revert s. induction l as [|x l IH]; intros s Hstep HI Hf; simpl in Hf; [by simplify_eq|].
  apply result_bind_Ok in Hf as (s1 & Hs1 & Hf). eapply IH; [|by eapply Hstep; [left|..]|done].
  intros; eapply Hstep; [by right|..]; eauto.
Qed.

Lemma foldM_result_ok (f : S -> A -> result E S) s l :
  (forall s x, x ∈ l -> exists s', f s x = Ok s') ->
  exists s', foldM_result f s l = Ok s'.
Proof.
  revert s. induction l as [|x l IH]; intros s Hf; simpl; [by eexists|].
  destruct (Hf s x) as [s1 ->]; [by left|]. simpl. apply IH. intros; apply Hf. by right.
Qed.
End folds.

(** ** Lemmas on the state monad *)

Lemma sbind_Ok {W E A B : Type} (f : A -> SM W E B) (m : SM W E A) (w w' : W) (b : B) :
  sbind f m w = (Ok b, w') <-> exists a w1, m w = (Ok a, w1) /\ f a w1 = (Ok b, w').
Proof. unfold sbind. destruct (m w) as [[a|e] w1]; naive_solver. Qed.

Lemma sbind_Err {W E A B : Type} (f : A -> SM W E B) (m : SM W E A) (w w' : W) (e : E) :
  sbind f m w = (Err e, w') <->
  m w = (Err e, w') \/ exists a w1, m w = (Ok a, w1) /\ f a w1 = (Err e, w').
Proof. unfold sbind. destruct (m w) as [[a|e'] w1]; naive_solver. Qed.

(** [m] keeps [I], whether it returns or throws. *)
Definition keeps {W E A : Type} (I : W -> Prop) (m : SM W E A) : Prop :=
  forall w, I w -> I (m w).2.

Section keeps.
Context {W E : Type} (I : W -> Prop).

Lemma keeps_sret {A : Type} (a : A) : keeps I (sret (E := E) a).
Proof. by intros w Hw. Qed.

Lemma keeps_sthrow {A : Type} (e : E) : keeps I (sthrow (A := A) e).
Proof. by intros w Hw. Qed.

Lemma keeps_sbind {A B : Type} (f : A -> SM W E B) (m : SM W E A) :
  keeps I m -> (forall a, keeps I (f a)) -> keeps I (sbind f m).
Proof.
  intros Hm Hf w Hw. unfold sbind. specialize (Hm w Hw).
  destruct (m w) as [[a|e] w1]; simpl in *; [by apply Hf | done].
Qed.

Lemma keeps_scatch {A : Type} (m : SM W E A) (h : E -> SM W E A) :
  keeps I m -> (forall e, keeps I (h e)) -> keeps I (scatch m h).
Proof.
  intros Hm Hh w Hw. unfold scatch. specialize (Hm w Hw).
  destruct (m w) as [[a|e] w1]; simpl in *; [done | by apply Hh].
Qed.

Lemma keeps_sfold {A S : Type} (f : S -> A -> SM W E S) l s :
  (forall s x, x ∈ l -> keeps I (f s x)) -> keeps I (sfold f s l).
Proof.
  revert s. induction l as [|x l IH]; intros s Hf; simpl; [by intros w Hw|].
  apply keeps_sbind; [apply Hf; by left|]. intros s'. apply IH. intros; apply Hf. by right.
Qed.
End keeps.

(** What [m] returns, when it does, satisfies [P]. *)
Definition yields {W E A : Type} (P : A -> Prop) (m : SM W E A) : Prop := forall w a w', m w = (Ok a, w') -> P a.

Lemma keeps_sbind_yields {W E A B : Type} (I : W -> Prop) (P : A -> Prop) (f : A -> SM W E B) (m : SM W E A) :
  keeps I m -> yields P m -> (forall a, P a -> keeps I (f a)) -> keeps I (sbind f m).
Proof.
  intros Hm HP Hf w Hw. unfold sbind. specialize (Hm w Hw).
  destruct (m w) as [[a|e] w1] eqn:E'; simpl in *; [|done]. apply Hf; [|done]. by eapply HP.
Qed.

Lemma yields_sfold {W E A S : Type} (P : S -> Prop) (f : S -> A -> SM W E S) l s :
  P s -> (forall s x, x ∈ l -> P s -> yields P (f s x)) -> yields P (sfold f s l).
Proof.
  revert s. induction l as [|x l IH]; intros s Hs Hf w a w' Hrun; simpl in Hrun; [by injection Hrun as <- _|].
  apply sbind_Ok in Hrun as (s1 & w1 & H1 & Hrun). eapply IH; [| |exact Hrun].
  - eapply Hf; [by left|exact Hs|exact H1].
  - intros; apply Hf; [by right|done].
Qed.

(** A triple: from a world in [I], [m] ends in one, and what it returns, when it
    does, satisfies [P]. *)
Definition ensures {W E A : Type} (I : W -> Prop) (P : A -> Prop) (m : SM W E A) : Prop :=
  forall w, I w -> I (m w).2 /\ forall a, (m w).1 = Ok a -> P a.

Section ensures.
Context {W E : Type} (I : W -> Prop).

Lemma ensures_sret {A : Type} (P : A -> Prop) (a : A) : P a -> ensures I P (sret (E := E) a).
Proof. intros Ha w Hw. split; [done|]. by intros a' [= <-]. Qed.

Lemma ensures_sthrow {A : Type} (P : A -> Prop) (e : E) : ensures I P (sthrow e).
Proof. intros w Hw. by split. Qed.

Lemma ensures_keeps {A : Type} (m : SM W E A) : keeps I m <-> ensures I (fun _ => True) m.
Proof.
  split; intros Hm w Hw.
  - split; [by apply Hm|done].
  - by destruct (Hm w Hw).
Qed.

Lemma ensures_weaken {A : Type} (P Q : A -> Prop) (m : SM W E A) :
  ensures I P m -> (forall a, P a -> Q a) -> ensures I Q m.
Proof. intros Hm HPQ w Hw. destruct (Hm w Hw) as [H1 H2]. split; [done|]. intros a Ha. by apply HPQ, H2. Qed.

Lemma ensures_sbind {A B : Type} (P : A -> Prop) (Q : B -> Prop) (f : A -> SM W E B) (m : SM W E A) :
  ensures I P m -> (forall a, P a -> ensures I Q (f a)) -> ensures I Q (sbind f m).
Proof.
  intros Hm Hf w Hw. unfold sbind. destruct (Hm w Hw) as [H1 H2].
  destruct (m w) as [[a|e] w1]; simpl in *; [|done]. by apply Hf; [apply H2|].
Qed.

(** [sbind] after a computation whose result does not matter. *)
Lemma ensures_after {A B : Type} (Q : B -> Prop) (f : A -> SM W E B) (m : SM W E A) :
  keeps I m -> (forall a, ensures I Q (f a)) -> ensures I Q (sbind f m).
Proof. intros Hm Hf. eapply ensures_sbind; [by apply ensures_keeps|]. auto. Qed.

Lemma ensures_scatch {A : Type} (P : A -> Prop) (m : SM W E A) (h : E -> SM W E A) :
  ensures I P m -> (forall e, ensures I P (h e)) -> ensures I P (scatch m h).
Proof.
  intros Hm Hh w Hw. unfold scatch. destruct (Hm w Hw) as [H1 H2].
  destruct (m w) as [[a|e] w1]; simpl in *; [done|]. by apply Hh.
Qed.
End ensures.

(** What a computation can give, in some world. *)
Definition gave {W E A : Type} (m : SM W E A) (a : A) : Prop := exists w w', m w = (Ok a, w').

Lemma ensures_gave {W E A : Type} (I : W -> Prop) (m : SM W E A) : keeps I m -> ensures I (gave m) m.
Proof. intros Hk%ensures_keeps w Hw. destruct (Hk w Hw) as [H _]. split; [done|]. intros a Ha. exists w, (m w).2. by destruct (m w); cbn in *; subst. Qed.

Lemma keeps_all_settled {W E E' A : Type} (I : W -> Prop) (ms : list (SM W E A)) :
  Forall (keeps I) ms -> keeps I (all_settled (E' := E') ms).
Proof.
  induction 1 as [|m ms Hm _ IH]; intros w Hw; simpl; [done|].
  specialize (Hm w Hw). destruct (m w) as [o w1]. simpl in Hm. specialize (IH w1 Hm). unfold sbind.
  by destruct (all_settled ms w1) as [[] w2].
Qed.

(** One of the computations [ms] is run. *)
Definition runs {W E A : Type} (ms : list (SM W E A)) (w w' : W) : Prop := exists m, m ∈ ms /\ w' = (m w).2.

(** Each outcome is that of its computation, in a world reached by running the
    ones before, from which the rest reach the last world. *)
Lemma all_settled_spec {W E E' A : Type} (ms : list (SM W E A)) (w : W) :
  exists outcomes w', all_settled (E' := E') ms w = (Ok outcomes, w') /\ rtc (runs ms) w w' /\
    Forall2 (fun m o => exists w1 w2, m w1 = (o, w2) /\ rtc (runs ms) w w1 /\ rtc (runs ms) w2 w') ms outcomes.
Proof.
  revert w. induction ms as [|m ms IH]; intros w; cbn; [by exists [], w|].
  destruct (m w) as [o w1] eqn:Hm. destruct (IH w1) as (os & w' & Hall & Hr & Hos).
  assert (forall a b, rtc (runs ms) a b -> rtc (runs (m :: ms)) a b) as Hmono.
  { intros a b. apply rtc_subrel. intros x y (m' & Hin & ->). exists m'. split; [by right|done]. }
  assert (rtc (runs (m :: ms)) w w1) as Hfirst.
  { apply rtc_once. exists m. split; [by left|by rewrite Hm]. }
  exists (o :: os), w'. unfold sbind. rewrite Hall. split_and!; [done| |].
  - etransitivity; [exact Hfirst|by apply Hmono].
  - constructor.
    + exists w, w1. split_and!; [done|reflexivity|by apply Hmono].
    + eapply Forall2_impl; [exact Hos|]. intros m' o' (a & b & Ha & Hwa & Hb). exists a, b.
      split_and!; [done| |by apply Hmono]. etransitivity; [exact Hfirst|by apply Hmono].
Qed.

(** Computations whose outcome does not depend on the world they run in. *)
Lemma all_settled_stable {W E E' A : Type} (ms : list (SM W E A)) (outs : list (result E A)) (w : W) :
  Forall2 (fun m o => forall w, (m w).1 = o) ms outs ->
  exists w', all_settled (E' := E') ms w = (Ok outs, w').
Proof.
  intros H. revert w. induction H as [|m o ms os Hm _ IH]; intros w; cbn; [by exists w|].
  specialize (Hm w). destruct (m w) as [o' w1]. cbn in Hm. subst o'. destruct (IH w1) as [w' Hw'].
  unfold sbind. rewrite Hw'. by exists w'.
Qed.

(** ** Lemmas on lists *)

Section lists.
Context {A B : Type}.
Implicit Types (l : list A).

Lemma foldl_inv {S : Type} (I : S -> Prop) (f : S -> A -> S) s l :
  (forall s x, x ∈ l -> I s -> I (f s x)) -> I s -> I (foldl f s l).
Proof.
  revert s. induction l as [|x l IH]; intros s Hstep HI; simpl; [done|].
  apply IH; [intros; apply Hstep; [by right|done] | apply Hstep; [by left|done]].
Qed.

Lemma filter_all (P : A -> Prop) `{!forall x, Decision (P x)} l :
  (forall x, x ∈ l -> P x) -> filter P l = l.
Proof.
  induction l as [|x l IH]; intros Hl; [done|].
  rewrite filter_cons_True by (apply Hl; by left). f_equal. apply IH. intros y Hy; apply Hl. by right.
Qed.

Lemma filter_none (P : A -> Prop) `{!forall x, Decision (P x)} l :
  (forall x, x ∈ l -> ~ P x) -> filter P l = [].
Proof.
  induction l as [|x l IH]; intros Hl; [done|].
  rewrite filter_cons_False by (apply Hl; by left). apply IH. intros y Hy; apply Hl. by right.
Qed.

Lemma existsb_elem_of (p : A -> bool) l : existsb p l = true <-> exists x, x ∈ l /\ p x = true.
Proof. rewrite existsb_exists. by setoid_rewrite <- list_elem_of_In. Qed.

Lemma forallb_elem_of (p : A -> bool) l : forallb p l = true <-> forall x, x ∈ l -> p x = true.
Proof. rewrite forallb_forall. by setoid_rewrite <- list_elem_of_In. Qed.
End lists.

(** Related elements of the second list are elements of it. *)
Lemma Forall2_elem_r {A B : Type} (R : A -> B -> Prop) l k :
  Forall2 R l k -> Forall2 (fun x y => R x y /\ y ∈ k) l k.
Proof.
  induction 1 as [|x y l k Hxy Hlk IH]; constructor; [split; [done|by left]|].
  eapply Forall2_impl; [exact IH|]. intros a b [Hab Hb]. split; [done|by right].
Qed.

(** ** The library's hint database *)

Create HintDb agentdb.
#[export] Hint Resolve keeps_sret keeps_sthrow keeps_sbind keeps_scatch : agentdb.
#[export] Hint Resolve list_elem_of_here list_elem_of_further : agentdb.
#[export] Hint Rewrite @result_bind_Ok @existsb_elem_of @forallb_elem_of : agentdb.
