(* ===== verification/JsString.v ===== *)
(** * JavaScript strings

    The string operations of the language that the modelled code uses
    ([trim], [split], [join], [indexOf], [slice], [toLowerCase], ...), on
    Stdlib [string]s.  One [ascii] stands for one UTF-16 code unit below 256:
    the models range over strings whose code units are Latin-1, and every
    definition below agrees with the language on those (white space includes
    U+00A0, lower-casing covers the accented capitals). *)

From stdpp Require Import base gmap strings list sorting.
From Stdlib Require Import ZArith Lia Ascii.
From S2P Require Import Prelude.

Notation slen := Stdlib.Strings.String.length (only parsing).

#[global] Arguments String.append !_ _ / : simpl nomatch.
#[global] Arguments Ascii.eqb : simpl never.

(** ** Characters *)

Definition code (c : ascii) : N := N_of_ascii c.

Definition in_range (lo hi : N) (c : ascii) : bool := (lo <=? code c)%N && (code c <=? hi)%N.

Definition is_digit (c : ascii) : bool := in_range 48 57 c.
Definition is_upper (c : ascii) : bool := in_range 65 90 c.
Definition is_lower (c : ascii) : bool := in_range 97 122 c.
Definition is_alnum (c : ascii) : bool := is_digit c || is_upper c || is_lower c.

(** [\s] and the characters [String.prototype.trim] removes. *)
Definition is_ws (c : ascii) : bool := in_range 9 13 c || (code c =? 32)%N || (code c =? 160)%N.

Definition nl : ascii := "010"%char.
Definition nl_s : string := String nl EmptyString.
Definition dquote : ascii := "034"%char.
Definition char_in (cs : string) (c : ascii) : bool :=
  existsb (Ascii.eqb c) (String.list_ascii_of_string cs).

Definition lower_char (c : ascii) : ascii :=
  if is_upper c || (in_range 192 222 c && negb (code c =? 215)%N)
  then ascii_of_N (code c + 32) else c.

(** ** Strings *)

Fixpoint str_map (f : ascii -> ascii) (s : string) : string :=
  match s with
  | EmptyString => EmptyString
  | String c s' => String (f c) (str_map f s')
  end.

Fixpoint str_forall (p : ascii -> bool) (s : string) : bool :=
  match s with
  | EmptyString => true
  | String c s' => p c && str_forall p s'
  end.

Fixpoint str_filter (p : ascii -> bool) (s : string) : string :=
  match s with
  | EmptyString => EmptyString
  | String c s' => if p c then String c (str_filter p s') else str_filter p s'
  end.

Definition toLowerCase (s : string) : string := str_map lower_char s.

Definition str_empty (s : string) : bool :=
  match s with
  | EmptyString => true
  | String _ _ => false
  end.

(** JavaScript truthiness of an optional string. *)
Definition truthy_str (o : option string) : bool :=
  match o with
  | Some s => negb (str_empty s)
  | None => false
  end.

(** An optional text that is not empty. *)
Definition if_set (o : option string) : option string := if truthy_str o then o else None.

(** [text.includes(p)] *)
Fixpoint str_includes (p s : string) : bool :=
  String.prefix p s ||
  match s with
  | EmptyString => false
  | String _ s' => str_includes p s'
  end.

Fixpoint str_take (n : nat) (s : string) : string :=
  match n, s with
  | S n', String c s' => String c (str_take n' s')
  | _, _ => EmptyString
  end.

Fixpoint str_drop (n : nat) (s : string) : string :=
  match n, s with
  | S n', String _ s' => str_drop n' s'
  | _, _ => s
  end.

(** [s.indexOf(c)] and [s.lastIndexOf(c)] for a one-character needle, [None]
    for -1; [str_search] is [s.search(/[..]/)] for a character class. *)
Fixpoint str_search (p : ascii -> bool) (s : string) : option nat :=
  match s with
  | EmptyString => None
  | String c s' => if p c then Some 0 else S <$> str_search p s'
  end.

Definition indexOf (c : ascii) (s : string) : option nat := str_search (Ascii.eqb c) s.

Fixpoint lastIndexOf (c : ascii) (s : string) : option nat :=
  match s with
  | EmptyString => None
  | String d s' =>
      match lastIndexOf c s' with
      | Some n => Some (S n)
      | None => if Ascii.eqb c d then Some 0 else None
      end
  end.

Definition includes_char (c : ascii) (s : string) : bool :=
  match indexOf c s with
  | Some _ => true
  | None => false
  end.

Definition startsWith (p s : string) : bool := String.prefix p s.

(** Removes the leading characters that satisfy [p]. *)
Fixpoint drop_while (p : ascii -> bool) (s : string) : string :=
  match s with
  | EmptyString => EmptyString
  | String c s' => if p c then drop_while p s' else s
  end.

Fixpoint take_while (p : ascii -> bool) (s : string) : string :=
  match s with
  | EmptyString => EmptyString
  | String c s' => if p c then String c (take_while p s') else EmptyString
  end.

(** Removes the trailing characters that satisfy [p]. *)
Fixpoint drop_while_end (p : ascii -> bool) (s : string) : string :=
  match s with
  | EmptyString => EmptyString
  | String c s' =>
      match drop_while_end p s' with
      | EmptyString => if p c then EmptyString else String c EmptyString
      | t => String c t
      end
  end.

Definition trim (s : string) : string := drop_while_end is_ws (drop_while is_ws s).

(** [s.split(c)] for a one-character separator. *)
Fixpoint split_char (c : ascii) (s : string) : list string :=
  match s with
  | EmptyString => [EmptyString]
  | String d s' =>
      if Ascii.eqb c d then EmptyString :: split_char c s'
      else match split_char c s' with
           | [] => [String d EmptyString]
           | h :: t => String d h :: t
           end
  end.

(** [parts.join(sep)]. *)
Fixpoint join (sep : string) (parts : list string) : string :=
  match parts with
  | [] => EmptyString
  | [p] => p
  | p :: ps => p +:+ sep +:+ join sep ps
  end.

Fixpoint str_concat (parts : list string) : string :=
  match parts with
  | [] => EmptyString
  | p :: ps => p +:+ str_concat ps
  end.

(** [a < b] on strings: comparison of code units. *)
Definition str_ltb (a b : string) : bool := String.ltb a b.

(** ** Objects used as maps

    [o[k]] on an object literal also finds what the literal inherits from
    [Object.prototype]; every such value is truthy. *)

Definition object_prototype_keys : list string :=
  ["constructor"; "__defineGetter__"; "__defineSetter__"; "hasOwnProperty"; "__lookupGetter__";
   "__lookupSetter__"; "isPrototypeOf"; "propertyIsEnumerable"; "toString"; "valueOf"; "__proto__";
   "toLocaleString"].

Inductive prop (A : Type) : Type :=
| Own (a : A)
| Inherited
| Absent.

Arguments Own {A} a.
Arguments Inherited {A}.
Arguments Absent {A}.

Fixpoint own_get {A : Type} (k : string) (o : list (string * A)) : option A :=
  match o with
  | [] => None
  | (k', a) :: o' => if decide (k' = k) then Some a else own_get k o'
  end.

Definition obj_get {A : Type} (k : string) (o : list (string * A)) : prop A :=
  match own_get k o with
  | Some a => Own a
  | None => if bool_decide (k ∈ object_prototype_keys) then Inherited else Absent
  end.

(** [new Set(xs).has(x)] *)
Definition has (xs : list string) (x : string) : bool := bool_decide (x ∈ xs).

(** ** Lemmas *)

Lemma has_true xs x : has xs x = true <-> x ∈ xs.
Proof. apply bool_decide_eq_true. Qed.

Lemma obj_get_Own {A : Type} k (o : list (string * A)) a : obj_get k o = Own a <-> own_get k o = Some a.
Proof. unfold obj_get. destruct (own_get k o); [naive_solver|]. case_bool_decide; naive_solver. Qed.

Lemma slen_app s t : slen (s +:+ t) = slen s + slen t.
Proof. induction s as [|c s IH]; simpl; [done|]. by rewrite IH. Qed.

Lemma app_empty_r s : s +:+ EmptyString = s.
Proof. induction s as [|c s IH]; simpl; [done|]. by rewrite IH. Qed.

Lemma app_assoc_s s t u : (s +:+ t) +:+ u = s +:+ (t +:+ u).
Proof. induction s as [|c s IH]; simpl; [done|]. by rewrite IH. Qed.

Lemma slen_zero s : slen s = 0 -> s = EmptyString.
Proof. by destruct s. Qed.

Lemma str_empty_true s : str_empty s = true <-> s = EmptyString.
Proof. by destruct s. Qed.

Lemma str_forall_app p s t : str_forall p (s +:+ t) = str_forall p s && str_forall p t.
Proof. induction s as [|c s IH]; simpl; [done|]. by rewrite IH, andb_assoc. Qed.

Lemma str_forall_impl (p q : ascii -> bool) s :
  (forall c, p c = true -> q c = true) -> str_forall p s = true -> str_forall q s = true.
Proof.
  intros Hpq. induction s as [|c s IH]; simpl; [done|]. intros [Hc Hs]%andb_true_iff.
  by rewrite (Hpq _ Hc), IH.
Qed.

Lemma str_filter_app p s t : str_filter p (s +:+ t) = str_filter p s +:+ str_filter p t.
Proof. induction s as [|c s IH]; simpl; [done|]. rewrite IH. by destruct (p c). Qed.

Lemma str_drop_app s t : str_drop (slen s) (s +:+ t) = t.
Proof. induction s as [|c s IH]; [by destruct t|exact IH]. Qed.

Lemma str_take_app s t : str_take (slen s) (s +:+ t) = s.
Proof. induction s as [|c s IH]; [by destruct t|]. cbn. by rewrite IH. Qed.

Lemma str_take_drop n s : str_take n s +:+ str_drop n s = s.
Proof. revert s. induction n as [|n IH]; intros [|c s]; simpl; rewrite ?IH; done. Qed.

Lemma slen_take n s : slen (str_take n s) = n `min` slen s.
Proof. revert s. induction n as [|n IH]; intros [|c s]; simpl; rewrite ?IH; done. Qed.

Lemma slen_drop n s : slen (str_drop n s) = slen s - n.
Proof. revert s. induction n as [|n IH]; intros [|c s]; simpl; rewrite ?IH; done. Qed.

Lemma str_search_None p s : str_search p s = None <-> str_forall (fun c => negb (p c)) s = true.
Proof.
  induction s as [|c s IH]; simpl; [done|]. destruct (p c); simpl; [done|].
  rewrite <- IH. by destruct (str_search p s).
Qed.

Lemma includes_char_false c s :
  includes_char c s = false <-> str_forall (fun d => negb (Ascii.eqb c d)) s = true.
Proof.
  unfold includes_char, indexOf. rewrite <- str_search_None. by destruct (str_search _ s).
Qed.

(** What precedes the first separator, and what follows it, are determined. *)
Lemma sep_inj c n1 n2 f1 f2 :
  includes_char c n1 = false -> includes_char c n2 = false ->
  n1 +:+ String c f1 = n2 +:+ String c f2 -> n1 = n2 /\ f1 = f2.
Proof.
  rewrite !includes_char_false. revert n2.
  induction n1 as [|d n1 IH]; intros [|d' n2] H1 H2 Heq; cbn in H1, H2, Heq.
  - by injection Heq as ->.
  - injection Heq as <- Heq. by rewrite Ascii.eqb_refl in H2.
  - injection Heq as -> Heq. by rewrite Ascii.eqb_refl in H1.
  - injection Heq as -> Heq. apply andb_true_iff in H1 as [_ H1], H2 as [_ H2].
    by destruct (IH n2 H1 H2 Heq) as [-> ->].
Qed.

Lemma split_char_not_nil c s : split_char c s <> [].
Proof. destruct s as [|d s]; simpl; [done|]. destruct (Ascii.eqb c d); [done|]. by destruct (split_char c s). Qed.

Lemma join_cons sep p ps : ps <> [] -> join sep (p :: ps) = p +:+ sep +:+ join sep ps.
Proof. by destruct ps. Qed.

(** Splitting and joining with the same separator is the identity. *)
Lemma join_split_char c s : join (String c EmptyString) (split_char c s) = s.
Proof.
  induction s as [|d s IH]; simpl; [done|].
  destruct (Ascii.eqb_spec c d) as [<-|Hne].
  - rewrite join_cons by apply split_char_not_nil. simpl. by rewrite IH.
  - destruct (split_char c s) as [|h t] eqn:E; [by apply split_char_not_nil in E|].
    destruct t as [|h' t]; simpl in *; by rewrite IH.
Qed.

Lemma split_char_no_sep c s :
  Forall (fun p => str_forall (fun d => negb (Ascii.eqb c d)) p = true) (split_char c s).
Proof.
  induction s as [|d s IH]; simpl; [by repeat constructor|].
  destruct (Ascii.eqb c d) eqn:E; [by constructor|].
  destruct (split_char c s) as [|h t]; inversion IH; subst; constructor; simpl; try done; by rewrite E.
Qed.

Lemma split_char_forall (p : ascii -> bool) c s :
  str_forall p s = true -> Forall (fun q => str_forall p q = true) (split_char c s).
Proof.
  induction s as [|d s IH]; simpl; [by repeat constructor|]. intros [Hd Hs]%andb_true_iff.
  specialize (IH Hs). destruct (Ascii.eqb c d); [by constructor|].
  destruct (split_char c s) as [|h t]; inversion IH; subst; constructor; simpl; rewrite ?Hd; auto.
Qed.

Lemma split_char_elem_no_sep c s p : p ∈ split_char c s -> includes_char c p = false.
Proof.
  intros Hp. apply includes_char_false.
  by apply (proj1 (Forall_forall _ _) (split_char_no_sep c s)).
Qed.

Lemma split_char_elem_forall (q : ascii -> bool) c s p :
  str_forall q s = true -> p ∈ split_char c s -> str_forall q p = true.
Proof. intros Hs Hp. by apply (proj1 (Forall_forall _ _) (split_char_forall q c s Hs)). Qed.

Lemma split_char_app_sep c p s :
  str_forall (fun d => negb (Ascii.eqb c d)) p = true -> split_char c (p +:+ String c s) = p :: split_char c s.
Proof.
  induction p as [|d p IH]; cbn; [by rewrite Ascii.eqb_refl|].
  intros [Hd Hp]%andb_true_iff. apply negb_true_iff in Hd. rewrite Hd. by rewrite IH.
Qed.

Lemma split_char_nosep c p : str_forall (fun d => negb (Ascii.eqb c d)) p = true -> split_char c p = [p].
Proof.
  induction p as [|d p IH]; cbn; [done|]. intros [Hd Hp]%andb_true_iff. apply negb_true_iff in Hd.
  by rewrite Hd, IH.
Qed.

Lemma join_app sep ps qs :
  ps <> [] -> qs <> [] -> join sep (ps ++ qs) = join sep ps +:+ sep +:+ join sep qs.
Proof.
  intros Hp Hq. induction ps as [|p ps IH]; [done|].
  destruct ps as [|p' ps]; simpl app.
  - by apply join_cons.
  - rewrite (join_cons sep p (p' :: ps ++ qs)), (join_cons sep p (p' :: ps)) by done.
    change (p' :: ps ++ qs) with ((p' :: ps) ++ qs). rewrite IH by done. by rewrite !app_assoc_s.
Qed.

Lemma drop_while_head p s c s' : drop_while p s = String c s' -> p c = false.
Proof.
  induction s as [|d s IH]; simpl; [done|]. destruct (p d) eqn:E; [done|]. by intros [= <- <-].
Qed.

Lemma drop_while_id p s : match s with String c _ => p c = false | _ => True end -> drop_while p s = s.
Proof. destruct s as [|c s]; simpl; [done|]. by intros ->. Qed.

Lemma drop_while_end_head p c s s' :
  drop_while_end p (String c s) = s' -> s' = EmptyString \/ exists s'', s' = String c s''.
Proof.
  simpl. destruct (drop_while_end p s); [destruct (p c)|]; intros <-; eauto.
Qed.

Lemma drop_while_end_idem p s : drop_while_end p (drop_while_end p s) = drop_while_end p s.
Proof.
  induction s as [|c s IH]; simpl; [done|].
  destruct (drop_while_end p s) as [|d t] eqn:E.
  - destruct (p c) eqn:Ec; simpl; [done|]. by rewrite Ec.
  - change (drop_while_end p (String c (String d t)))
      with (match drop_while_end p (String d t) with
            | EmptyString => if p c then EmptyString else String c EmptyString
            | u => String c u end).
    by rewrite IH.
Qed.

Lemma trim_idem s : trim (trim s) = trim s.
Proof.
  unfold trim. destruct (drop_while is_ws s) as [|c t] eqn:E; [done|].
  pose proof (drop_while_head _ _ _ _ E) as Hc.
  destruct (drop_while_end_head is_ws c t _ eq_refl) as [->|[t' Ht']]; [done|].
  rewrite (drop_while_id _ (drop_while_end _ _)) by by rewrite Ht'.
  apply drop_while_end_idem.
Qed.

Lemma slen_drop_while p s : slen (drop_while p s) <= slen s.
Proof. induction s as [|c s IH]; simpl; [done|]. destruct (p c); simpl; lia. Qed.

Lemma slen_drop_while_end p s : slen (drop_while_end p s) <= slen s.
Proof.
  induction s as [|c s IH]; simpl; [done|].
  destruct (drop_while_end p s) as [|d t]; [destruct (p c)|]; simpl in *; lia.
Qed.

Lemma slen_trim s : slen (trim s) <= slen s.
Proof.
  unfold trim. etransitivity; [apply slen_drop_while_end | apply slen_drop_while].
Qed.

Lemma str_forall_drop_while q p t : str_forall q t = true -> str_forall q (drop_while p t) = true.
Proof. induction t as [|c t IH]; cbn; [done|]. intros [Hc Ht]%andb_true_iff. destruct (p c); [by apply IH|]. cbn. by rewrite Hc. Qed.

Lemma str_concat_app ps qs : str_concat (ps ++ qs) = str_concat ps +:+ str_concat qs.
Proof. induction ps as [|p ps IH]; simpl; [done|]. by rewrite IH, app_assoc_s. Qed.

#[global] Arguments is_ws : simpl never.
#[global] Arguments lower_char : simpl never.
#[global] Arguments own_get {A} k o : simpl never.
#[export] Hint Rewrite slen_app slen_take slen_drop app_empty_r app_assoc_s : agentdb.
#[export] Hint Resolve split_char_not_nil : agentdb.
