(* ===== verification/JsNumber.v ===== *)
(** * JavaScript numbers

    The bit operators of the language ([ToInt32] and [ToUint32] wrap-around)
    and decimal notation. *)

From stdpp Require Import base gmap strings list sorting.
From Stdlib Require Import ZArith Lia Ascii.
From S2P Require Import Prelude JsString.

#[local] Open Scope Z_scope.

(** ** 32-bit integers *)

Definition two32 : Z := 2 ^ 32.

Definition to_uint32 (z : Z) : Z := z mod two32.
Definition to_int32 (z : Z) : Z := let u := z mod two32 in if u <? 2 ^ 31 then u else u - two32.

(** [a << n], [a >>> 0], [a & b] and [~a]; a shift count is taken modulo 32. *)
Definition shl32 (a n : Z) : Z := to_int32 (to_int32 a * 2 ^ (n mod 32)).
Definition ushr0 (a : Z) : Z := to_uint32 a.
Definition and32 (a b : Z) : Z := to_int32 (Z.land (to_int32 a) (to_int32 b)).
Definition not32 (a : Z) : Z := - to_int32 a - 1.

(** ** Decimal digits *)

Definition digit_value (c : ascii) : Z := Z.of_N (code c) - 48.

(** The value of a string of digits. *)
Fixpoint digits_value_acc (s : string) (acc : Z) : Z :=
  match s with
  | EmptyString => acc
  | String c s' => digits_value_acc s' (10 * acc + digit_value c)
  end.
Definition digits_value (s : string) : Z := digits_value_acc s 0.

Definition all_digits (s : string) : bool := str_forall is_digit s.

(** ** Lemmas *)

Lemma two32_pos : 0 < two32.
Proof. reflexivity. Qed.

Lemma to_int32_mod z : to_int32 z mod two32 = z mod two32.
Proof.
  unfold to_int32. pose proof (Z.mod_pos_bound z two32 two32_pos) as Hb.
  destruct (_ <? _); [by apply Z.mod_small|].
  replace (z mod two32 - two32) with (z mod two32 + (-1) * two32) by lia.
  rewrite Z.mod_add by done. by apply Z.mod_small.
Qed.

Lemma to_int32_inj a b : to_int32 a = to_int32 b <-> a mod two32 = b mod two32.
Proof.
  split; [|intros H; unfold to_int32; by rewrite H].
  intros H. by rewrite <- (to_int32_mod a), H, to_int32_mod.
Qed.

Lemma shl32_mod a n : 0 <= n < 32 -> shl32 a n mod two32 = (a * 2 ^ n) mod two32.
Proof.
  intros Hn. unfold shl32. rewrite to_int32_mod, (Z.mod_small n) by lia.
  rewrite Z.mul_mod, to_int32_mod, <- Z.mul_mod by done. done.
Qed.

(** On residues, [&] is the bitwise conjunction. *)
Lemma land_mod_two32 a b : Z.land a b mod two32 = Z.land (a mod two32) (b mod two32).
Proof.
  unfold two32. rewrite <- !Z.land_ones by lia. apply Z.bits_inj'. intros n Hn.
  rewrite !Z.land_spec. destruct (Z.testbit a n), (Z.testbit b n), (Z.testbit (Z.ones 32) n); done.
Qed.

Lemma and32_mod a b : and32 a b mod two32 = Z.land (a mod two32) (b mod two32).
Proof. unfold and32. by rewrite to_int32_mod, land_mod_two32, !to_int32_mod. Qed.

Lemma and32_eq a b c d :
  and32 a b = and32 c d <-> Z.land (a mod two32) (b mod two32) = Z.land (c mod two32) (d mod two32).
Proof.
  unfold and32. rewrite to_int32_inj, !land_mod_two32, !to_int32_mod. done.
Qed.

(** A prefix mask keeps the high part of a 32-bit value. *)
Lemma land_prefix_mask u k : 0 <= k <= 32 -> 0 <= u < two32 -> Z.land u (two32 - 2 ^ k) = u / 2 ^ k * 2 ^ k.
Proof.
  intros Hk Hu.
  assert (two32 - 2 ^ k = Z.shiftl (Z.ones (32 - k)) k) as ->.
  { rewrite Z.shiftl_mul_pow2 by lia. rewrite Z.ones_equiv.
    replace two32 with (2 ^ (32 - k) * 2 ^ k) by (rewrite <- Z.pow_add_r by lia; f_equal; lia). lia. }
  rewrite <- Z.shiftl_mul_pow2, <- Z.shiftr_div_pow2 by lia.
  apply Z.bits_inj'. intros n Hn. rewrite Z.land_spec.
  destruct (Z.ltb_spec n k).
  - rewrite !Z.shiftl_spec_low by lia. by rewrite andb_false_r.
  - rewrite !Z.shiftl_spec_high by lia. rewrite Z.shiftr_spec by lia.
    replace (n - k + k) with n by lia.
    destruct (Z.ltb_spec n 32).
    + rewrite Z.ones_spec_low by lia. by rewrite andb_true_r.
    + rewrite Z.ones_spec_high by lia. rewrite andb_false_r. symmetry.
      destruct (Z.eq_dec u 0) as [->|]; [apply Z.bits_0|]. apply Z.bits_above_log2; [lia|].
      assert (Z.log2 u < 32) by (apply Z.log2_lt_pow2; unfold two32 in *; lia). lia.
Qed.

Lemma is_digit_value c : is_digit c = true -> 0 <= digit_value c <= 9.
Proof.
  unfold is_digit, in_range, digit_value. intros [H1%N.leb_le H2%N.leb_le]%andb_true_iff. lia.
Qed.

Lemma digits_value_acc_nonneg s acc : all_digits s = true -> 0 <= acc -> 0 <= digits_value_acc s acc.
Proof.
  revert acc. induction s as [|c s IH]; intros acc; simpl; [done|]. intros [Hc Hs]%andb_true_iff Ha.
  apply IH; [done|]. apply is_digit_value in Hc. lia.
Qed.
