(* ===== verification/Json.v ===== *)
(** * JSON values and JavaScript numbers as data

    [number] is a Number of the language: every finite double is a dyadic
    [m * 2^e].  [json] is what [JSON.parse] returns; an object is the list of
    its own properties, in order. *)

From stdpp Require Import base gmap strings list sorting.
From Stdlib Require Import ZArith Lia Ascii.
From S2P Require Import Prelude JsString JsNumber.

#[local] Open Scope Z_scope.

(** ** Numbers *)

Inductive number :=
| NaN
| Infinity (negative : bool)
| Finite (m e : Z).

Definition num_of_Z (z : Z) : number := Finite z 0.

(** [Number.isFinite], [Number.isInteger], [Math.floor] on a finite number. *)
Definition isFinite (x : number) : bool :=
  match x with
  | Finite _ _ => true
  | _ => false
  end.

Definition isInteger (x : number) : bool :=
  match x with
  | Finite m e => (0 <=? e) || (m mod 2 ^ (- e) =? 0)
  | _ => false
  end.

Definition floor_dyadic (m e : Z) : Z := if 0 <=? e then m * 2 ^ e else m / 2 ^ (- e).

(** [z <= x] and [x <= z] for an integer [z]. *)
Definition num_ge (x : number) (z : Z) : bool :=
  match x with
  | NaN => false
  | Infinity negative => negb negative
  | Finite m e => if 0 <=? e then z <=? m * 2 ^ e else z * 2 ^ (- e) <=? m
  end.

Definition num_le (x : number) (z : Z) : bool :=
  match x with
  | NaN => false
  | Infinity negative => negative
  | Finite m e => if 0 <=? e then m * 2 ^ e <=? z else m <=? z * 2 ^ (- e)
  end.

(** [x > z], false on [NaN]. *)
Definition num_gt (x : number) (z : Z) : bool :=
  match x with
  | NaN => false
  | _ => negb (num_le x z)
  end.

(** [Math.min(x, z)] and [Math.floor(x)]. *)
Definition num_min (x : number) (z : Z) : number :=
  match x with
  | NaN => NaN
  | _ => if num_le x z then x else num_of_Z z
  end.

Definition num_floor (x : number) : number :=
  match x with
  | Finite m e => num_of_Z (floor_dyadic m e)
  | _ => x
  end.

(** ** Rounding to a double *)

(** The double nearest to [n / d] for [0 <= n], [0 < d], ties to even: 53 bits
    of mantissa, exponent at least -1074, infinity from [2^1024] on. *)
Definition scaled (n d e : Z) : Z * Z := if 0 <=? e then (n, d * 2 ^ e) else (n * 2 ^ (- e), d).

Definition double_exp (n d : Z) : Z :=
  let e := Z.log2 n - Z.log2 d - 53 in
  let '(a, b) := scaled n d e in
  Z.max (-1074) (if 2 ^ 53 <=? a / b then e + 1 else e).

Definition round_even (a b : Z) : Z :=
  let q := a / b in
  let r := 2 * (a mod b) in
  if r <? b then q else if b <? r then q + 1 else if Z.even q then q else q + 1.

Definition round_ratio (n d : Z) : number :=
  if n =? 0 then Finite 0 0
  else
    let e := double_exp n d in
    let '(a, b) := scaled n d e in
    let m := round_even a b in
    if (0 <=? e) && (2 ^ 1024 <=? m * 2 ^ e) then Infinity false else Finite m e.

(** [x * k] for a non-negative [x] and an integer [k > 0]. *)
Definition num_times (x : number) (k : Z) : number :=
  match x with
  | Finite m e => if 0 <=? e then round_ratio (m * 2 ^ e * k) 1 else round_ratio (m * k) (2 ^ (- e))
  | _ => x
  end.

(** [Number(s)] for digits with an optional fraction: [whole] and [fraction]. *)
Definition num_of_decimal (whole fraction : string) : number :=
  round_ratio (digits_value (whole +:+ fraction)) (10 ^ Z.of_nat (slen fraction)).

(** ** [Number.prototype.toString] *)

(** The decimal digits of a natural number. *)
Fixpoint decimal_fuel (fuel : nat) (n : Z) (acc : string) : string :=
  match fuel with
  | O => acc
  | S fuel' =>
      let acc := String (ascii_of_N (Z.to_N (48 + n mod 10))) acc in
      if n <? 10 then acc else decimal_fuel fuel' (n / 10) acc
  end.

Definition decimal (n : Z) : string := decimal_fuel (S (Z.to_nat (Z.log2 n))) n EmptyString.

Definition Z_to_string (z : Z) : string := if z <? 0 then "-" +:+ decimal (- z) else decimal z.

(** [a/b] against [m * 2^e], all positive. *)
Definition ratio_of (m e : Z) : Z * Z := if 0 <=? e then (m * 2 ^ e, 1) else (m, 2 ^ (- e)).

Definition same_value (x : number) (a b : Z) : bool :=
  match x with
  | Finite m e => let '(c, d) := ratio_of m e in c * b =? a * d
  | _ => false
  end.

Definition times_pow10 (s p : Z) : Z * Z := if 0 <=? p then (s * 10 ^ p, 1) else (s, 10 ^ (- p)).

(** The [n] with [10^(n-1) <= a/b < 10^n], searched upward from below. *)
Fixpoint decimal_point (fuel : nat) (a b n : Z) : Z :=
  match fuel with
  | O => n
  | S fuel' => let '(c, d) := times_pow10 1 n in if a * d <? c * b then n else decimal_point fuel' a b (n + 1)
  end.

(** A [k]-digit [s] such that [s * 10^(n-k)] is read back as [a/b]; of two, the
    closer one. *)
Definition digits_for (a b n k : Z) : option Z :=
  let '(c, d) := times_pow10 1 (n - k) in
  let s := (a * d) / (b * c) in
  let good := fun s => let '(u, v) := times_pow10 s (n - k) in same_value (round_ratio u v) a b in
  let closer := 2 * ((a * d) mod (b * c)) <=? b * c in
  if good s && good (s + 1) then Some (if closer then s else s + 1)
  else if good s then Some s else if good (s + 1) then Some (s + 1) else None.

Fixpoint shortest (fuel : nat) (a b n k : Z) : Z * Z :=
  match fuel with
  | O => (a / b, k)
  | S fuel' => match digits_for a b n k with
               | Some s => (s, k)
               | None => shortest fuel' a b n (k + 1)
               end
  end.

Fixpoint zeros (n : nat) : string :=
  match n with
  | O => EmptyString
  | S n' => String "0" (zeros n')
  end.

(** Number::toString of ECMA-262, from the digits [s] ([k] of them) and [n]. *)
Definition format_digits (s k n : Z) : string :=
  let digits := decimal s in
  if (k <=? n) && (n <=? 21) then digits +:+ zeros (Z.to_nat (n - k))
  else if (0 <? n) && (n <=? 21) then str_take (Z.to_nat n) digits +:+ "." +:+ str_drop (Z.to_nat n) digits
  else if (-6 <? n) && (n <=? 0) then "0." +:+ zeros (Z.to_nat (- n)) +:+ digits
  else
    let exponent := (if 0 <? n - 1 then "+" else "-") +:+ decimal (Z.abs (n - 1)) in
    if k =? 1 then digits +:+ "e" +:+ exponent
    else str_take 1 digits +:+ "." +:+ str_drop 1 digits +:+ "e" +:+ exponent.

Definition positive_toString (m e : Z) : string :=
  let '(a, b) := ratio_of m e in
  let guess := (Z.log2 a - Z.log2 b) * 30102 / 100000 - 2 in
  let n := decimal_point 8 a b guess in
  let '(s, k) := shortest 17 a b n 1 in
  if s =? 10 ^ k then format_digits (s / 10) k (n + 1) else format_digits s k n.

Definition number_toString (x : number) : string :=
  match x with
  | NaN => "NaN"
  | Infinity negative => if negative then "-Infinity" else "Infinity"
  | Finite m e =>
      if m =? 0 then "0" else if m <? 0 then "-" +:+ positive_toString (- m) e else positive_toString m e
  end.

(** ** JSON values *)

Inductive json :=
| JNull
| JBool (b : bool)
| JNum (x : number)
| JStr (s : string)
| JArr (l : list json)
| JObj (fields : list (string * json)).

(** [o[k]]: the own property, [None] for [undefined]. *)
Definition jget (k : string) (o : list (string * json)) : option json := own_get k o.

Definition jkeys (o : list (string * json)) : list string := o.*1.

(** A field of an object literal that is left out when it is undefined. *)
Definition opt_field {A : Type} (k : string) (f : A -> json) (o : option A) : list (string * json) :=
  match o with
  | Some a => [(k, f a)]
  | None => []
  end.

(** A value the code treats as absent: [undefined] or [null]. *)
Definition is_nullish (o : option json) : bool :=
  match o with
  | None | Some JNull => true
  | Some _ => false
  end.

(** ** Lemmas *)

Lemma num_floor_ge x z : num_ge x z = true -> num_ge (num_floor x) z = true.
Proof.
  destruct x as [|n|m e]; simpl; [done|done|]. unfold floor_dyadic. rewrite Z.pow_0_r, Z.mul_1_r.
  destruct (Z.leb_spec 0 e); [done|]. rewrite !Z.leb_le. intros H1.
  apply Z.div_le_lower_bound; [apply Z.pow_pos_nonneg; lia|]. lia.
Qed.

Lemma num_min_le x z : isFinite x = true -> num_le (num_min x z) z = true.
Proof.
  destruct x as [|n|m e]; simpl; [done|done|]. intros _.
  destruct (if 0 <=? e then m * 2 ^ e <=? z else m <=? z * 2 ^ - e) eqn:E; [done|].
  simpl. apply Z.leb_le. lia.
Qed.

Lemma num_min_ge x z y : z <= y -> num_ge x z = true -> num_ge (num_min x y) z = true.
Proof.
  intros Hzy. destruct x as [|n|m e]; simpl; [done| |].
  - destruct n; simpl; [done|]. intros _. apply Z.leb_le. lia.
  - destruct (if 0 <=? e then m * 2 ^ e <=? y else m <=? y * 2 ^ - e); [done|].
    intros _. simpl. apply Z.leb_le. lia.
Qed.

Lemma isFinite_min x z : isFinite x = true -> isFinite (num_min x z) = true.
Proof. destruct x; simpl; try done. by destruct (if _ <=? _ then _ else _). Qed.

Lemma isInteger_Finite x : isInteger x = true -> isFinite x = true.
Proof. by destruct x. Qed.
