(* ===== verification/Chunk.v ===== *)
(** * Connection broker: chunking (apps/connection-broker/src/sync/chunk.ts)

    [chunkDocument] and its helpers, character for character on Latin-1 text.
    The SHA-256 of node's crypto module is a parameter of the definitions that
    use it. *)

From stdpp Require Import base gmap strings list sorting.
From Stdlib Require Import ZArith Lia Ascii.
From S2P Require Import Prelude JsString.

#[local] Open Scope Z_scope.

(** ** Data *)

Record Acl := mkAcl {
  acl_principals : list string;
  acl_permissive : option bool
}.

(** One resource the driver knows about, before its body is fetched. *)
Record ResourceRef := mkResourceRef {
  ref_id : string;
  ref_title : string;
  ref_url : string;
  ref_version : option string;
  ref_updatedAt : option string;
  ref_acl : option Acl
}.

(** A resource with its body, normalized to Markdown. *)
Record Document := mkDocument {
  doc_ref : ResourceRef;
  doc_markdown : string
}.

Record ChunkOptions := mkChunkOptions {
  opt_maxTokens : option Z;
  opt_overlap : option Z
}.

Record Chunk := mkChunk {
  connectionId : string;
  connectionLabel : string;
  sourceId : string;
  sourceUrl : string;
  title : string;
  updatedAt : option string;
  version : option string;
  contentHash : string;
  aclPrincipals : option (list string);
  aclPermissive : option bool;
  text : string
}.

#[export] Instance Acl_eq_dec : EqDecision Acl.
Proof. solve_decision. Defined.
#[export] Instance Chunk_eq_dec : EqDecision Chunk.
Proof. solve_decision. Defined.

(** ** Sizes *)

Definition DEFAULT_MAX_TOKENS : Z := 800.
Definition DEFAULT_OVERLAP : Z := 100.
Definition MAX_CHUNK_TOKENS : Z := 6000.

(** [Math.ceil(text.length / 4)] *)
Definition approxTokens (t : string) : Z := (Z.of_nat (slen t) + 3) / 4.

(** ** Headings *)

(** [/^#{1,6}\s/.test(line)]: one to six hashes and then white space. *)
Fixpoint hashes_then_ws (n : nat) (s : string) : bool :=
  match s with
  | EmptyString => false
  | String c s' =>
      if Ascii.eqb c "#"%char then
        match n with
        | O => false
        | S n' => hashes_then_ws n' s'
        end
      else is_ws c
  end.

Definition is_heading (line : string) : bool :=
  match line with
  | String c s' => Ascii.eqb c "#"%char && hashes_then_ws 5 s'
  | EmptyString => false
  end.

(** One iteration of the loop over the lines of [splitOnHeadings]. *)
Definition heading_step (st : list string * list string) (line : string) : list string * list string :=
  let '(sections, current) := st in
  if is_heading line && existsb (fun l => negb (str_empty (trim l))) current
  then (sections ++ [join nl_s current], [line])
  else (sections, current ++ [line]).

Definition splitOnHeadings (markdown : string) : list string :=
  let '(sections, current) := foldl heading_step ([], []) (split_char nl markdown) in
  let sections := match current with [] => sections | _ => sections ++ [join nl_s current] end in
  match sections with [] => [markdown] | _ => sections end.

(** ** The last-resort split *)

(** The windows of the character cut: [fuel] bounds the number of windows. *)
Fixpoint windows (fuel : nat) (w : nat) (t : string) : list string :=
  match fuel, t with
  | S fuel', String _ _ => str_take w t :: windows fuel' w (str_drop w t)
  | _, _ => []
  end.

Definition charCut (t : string) (maxTokens : Z) : list string :=
  windows (slen t) (Z.to_nat (Z.max 1 (maxTokens * 4))) t.

(** The loop over the parts of one separator; [rec] is the recursive call. *)
Fixpoint pack_parts (rec : string -> option (list string)) (maxTokens : Z) (sep : string)
    (parts : list string) (out : list string) (buf : string) : option (list string) :=
  match parts with
  | [] => Some (if str_empty buf then out else out ++ [buf])
  | part :: parts' =>
      if maxTokens <? approxTokens part then
        let out1 := if str_empty buf then out else out ++ [buf] in
        match rec part with
        | Some ps => pack_parts rec maxTokens sep parts' (out1 ++ ps) EmptyString
        | None => None
        end
      else
        let candidate := if str_empty buf then part else buf +:+ sep +:+ part in
        if negb (str_empty buf) && (maxTokens <? approxTokens candidate)
        then pack_parts rec maxTokens sep parts' (out ++ [buf]) part
        else pack_parts rec maxTokens sep parts' out candidate
  end.

(** [forceSplit], with [None] for exhausted fuel (see [forceSplit_fuel_total]). *)
Fixpoint forceSplit_fuel (fuel : nat) (t : string) (maxTokens : Z) : option (list string) :=
  match fuel with
  | O => None
  | S fuel' =>
      let rec := fun p => forceSplit_fuel fuel' p maxTokens in
      if approxTokens t <=? maxTokens then Some [t]
      else if includes_char nl t && (2 <=? Z.of_nat (length (split_char nl t)))
      then pack_parts rec maxTokens nl_s (split_char nl t) [] EmptyString
      else if includes_char " "%char t && (2 <=? Z.of_nat (length (split_char " "%char t)))
      then pack_parts rec maxTokens " " (split_char " "%char t) [] EmptyString
      else Some (charCut t maxTokens)
  end.

(** Three levels suffice: lines, words, characters. *)
Definition forceSplit (t : string) (maxTokens : Z) : list string :=
  nullish (forceSplit_fuel 3 t maxTokens) [t].

(** ** Paragraphs *)

(** [section.split(/\n{2,}/)]: [pend] counts the newlines just read. *)
Fixpoint split_blank (s : string) (pend : nat) (cur : string) : list string :=
  match s with
  | EmptyString =>
      match pend with
      | O => [cur]
      | S O => [cur +:+ nl_s]
      | _ => [cur; EmptyString]
      end
  | String c s' =>
      if Ascii.eqb c nl then split_blank s' (S pend) cur
      else
        match pend with
        | O => split_blank s' O (cur +:+ String c EmptyString)
        | S O => split_blank s' O (cur +:+ nl_s +:+ String c EmptyString)
        | _ => cur :: split_blank s' O (String c EmptyString)
        end
  end.

(** The trailing paragraphs of a chunk, up to roughly [overlap] tokens: the
    loop runs from the end while the budget is positive. *)
Fixpoint tail_rev (rev_paragraphs : list string) (budget : Z) (kept : list string) : list string :=
  match rev_paragraphs with
  | [] => kept
  | p :: ps => if 0 <? budget then tail_rev ps (budget - approxTokens p) (p :: kept) else kept
  end.

Definition tail (paragraphs : list string) (overlap : Z) : list string :=
  tail_rev (reverse paragraphs) overlap [].

Definition para_sep : string := nl_s +:+ nl_s.

Definition withHeading (heading : option string) (t : string) : string :=
  match heading with
  | Some h => h +:+ para_sep +:+ t
  | None => t
  end.

(** [flush]: the state is the chunks so far and the current paragraphs. *)
Definition flush (heading : option string) (overlap : Z) (st : list string * list string)
    : list string * list string :=
  let '(chunks, current) := st in
  match current with
  | [] => (chunks, current)
  | _ => (chunks ++ [withHeading heading (join para_sep current)],
          if 0 <? overlap then tail current overlap else [])
  end.

Definition unit_step (heading : option string) (maxTokens overlap : Z)
    (st : list string * list string) (unit : string) : list string * list string :=
  let candidate := join para_sep (snd st ++ [unit]) in
  let st := if negb (bool_decide (snd st = [])) && (maxTokens <? approxTokens candidate)
            then flush heading overlap st else st in
  (fst st, snd st ++ [unit]).

Definition paragraph_units (maxTokens : Z) (paragraph : string) : list string :=
  if maxTokens <? approxTokens paragraph then forceSplit paragraph maxTokens else [paragraph].

(** The heading a section's pieces repeat, and the paragraphs below it. An
    empty first paragraph is never a heading, so the truthiness test of the
    source and [None] agree. *)
Definition section_heading (paragraphs : list string) : option string :=
  match paragraphs with
  | p :: _ => if is_heading (trim p) then Some p else None
  | [] => None
  end.

Definition splitOnParagraphs (section : string) (maxTokens overlap : Z) : list string :=
  let paragraphs := split_blank section 0 EmptyString in
  let heading := section_heading paragraphs in
  let body := match heading with Some _ => drop 1 paragraphs | None => paragraphs end in
  let '(chunks, current) :=
    foldl (unit_step heading maxTokens overlap) ([], []) (mjoin (paragraph_units maxTokens <$> body)) in
  let chunks := match current with
                | [] => chunks
                | _ => chunks ++ [withHeading heading (join para_sep current)]
                end in
  match chunks with [] => [section] | _ => chunks end.

(** ** Hashing and the whole pass *)

(** [text.replace(/\s+/g, " ").trim()]: [in_ws] is whether the previous
    character was white space. *)
Fixpoint collapse_ws (s : string) (in_ws : bool) : string :=
  match s with
  | EmptyString => EmptyString
  | String c s' =>
      if is_ws c
      then if in_ws then collapse_ws s' true else String " "%char (collapse_ws s' true)
      else String c (collapse_ws s' false)
  end.

Definition normalizeText (t : string) : string := trim (collapse_ws t false).

Definition nul_s : string := String "000"%char EmptyString.

Section Hashing.
(** The hex digest of node's [createHash("sha256")]. *)
Variable sha256_hex : string -> string.

Definition hashChunk (connectionId sourceId t : string) : string :=
  sha256_hex (connectionId +:+ nul_s +:+ sourceId +:+ nul_s +:+ normalizeText t).

Definition mkDocumentChunk (connId connLabel : string) (document : Document) (t : string) : Chunk :=
  let r := doc_ref document in
  {| connectionId := connId;
     connectionLabel := connLabel;
     sourceId := ref_id r;
     sourceUrl := ref_url r;
     title := ref_title r;
     updatedAt := ref_updatedAt r;
     version := ref_version r;
     contentHash := hashChunk connId (ref_id r) t;
     aclPrincipals := acl_principals <$> ref_acl r;
     aclPermissive := (ref_acl r) ≫= acl_permissive;
     text := t |}.

Definition effective_maxTokens (options : ChunkOptions) : Z :=
  Z.min (opt_maxTokens options ?? DEFAULT_MAX_TOKENS) MAX_CHUNK_TOKENS.

Definition section_pieces (maxTokens overlap : Z) (section : string) : list string :=
  if approxTokens section <=? maxTokens then [section]
  else splitOnParagraphs section maxTokens overlap.

Definition document_pieces (markdown : string) (options : ChunkOptions) : list string :=
  let maxTokens := effective_maxTokens options in
  let overlap := opt_overlap options ?? DEFAULT_OVERLAP in
  mjoin (section_pieces maxTokens overlap <$> splitOnHeadings markdown).

Definition chunkDocument (connId connLabel : string) (document : Document) (options : ChunkOptions)
    : list Chunk :=
  mkDocumentChunk connId connLabel document <$>
    filter (fun t => 0 < Z.of_nat (slen t)) (trim <$> document_pieces (doc_markdown document) options).
End Hashing.

(** ** Lemmas: sizes *)

Lemma approxTokens_mono s t : (slen s <= slen t)%nat -> approxTokens s <= approxTokens t.
Proof. intros H. unfold approxTokens. apply Z.div_le_mono; lia. Qed.

Lemma approxTokens_empty : approxTokens EmptyString = 0.
Proof. reflexivity. Qed.

Lemma approxTokens_nonneg s : 0 <= approxTokens s.
Proof. unfold approxTokens. apply Z.div_pos; lia. Qed.

Lemma approxTokens_chars s m : Z.of_nat (slen s) <= 4 * m -> approxTokens s <= m.
Proof. intros H. unfold approxTokens. apply Z.lt_succ_r, Z.div_lt_upper_bound; lia. Qed.

Lemma approxTokens_lower s m : 4 * m < Z.of_nat (slen s) -> m < approxTokens s.
Proof. intros H. unfold approxTokens. apply Z.le_succ_l, Z.div_le_lower_bound; lia. Qed.

(** The characters that are no separator of [forceSplit]: what its pieces keep. *)
Definition solid (c : ascii) : bool := negb (Ascii.eqb c nl) && negb (Ascii.eqb c " "%char).
Definition content (s : string) : string := str_filter solid s.

Lemma content_app s t : content (s +:+ t) = content s +:+ content t.
Proof. apply str_filter_app. Qed.

Lemma content_concat_snoc ps p : content (str_concat (ps ++ [p])) = content (str_concat ps) +:+ content p.
Proof. rewrite str_concat_app, content_app. simpl. by rewrite app_empty_r. Qed.

Lemma content_split_char c s : solid c = false -> content (str_concat (split_char c s)) = content s.
Proof.
  intros Hc. induction s as [|d s IH]; simpl; [done|].
  destruct (Ascii.eqb_spec c d) as [<-|Hne]; simpl.
  - unfold content in *. simpl. by rewrite Hc.
  - destruct (split_char c s) as [|h t] eqn:E; [by apply split_char_not_nil in E|].
    unfold content in *. simpl in *. by rewrite IH.
Qed.

(** ** Lemmas: the character cut *)

Lemma windows_bounded fuel w t : Forall (fun p => slen p <= w)%nat (windows fuel w t).
Proof.
  revert t. induction fuel as [|fuel IH]; intros [|c t]; simpl; try constructor; [|apply IH].
  rewrite slen_take. lia.
Qed.

Lemma windows_concat fuel w t : (slen t <= fuel)%nat -> (1 <= w)%nat -> str_concat (windows fuel w t) = t.
Proof.
  revert t. induction fuel as [|fuel IH]; intros [|c t] Hf Hw; simpl windows; simpl in Hf; try done; [lia|].
  simpl str_concat. rewrite IH; [apply str_take_drop| |done]. rewrite slen_drop. simpl. lia.
Qed.

Lemma charCut_bounded t m : 1 <= m -> Forall (fun p => approxTokens p <= m) (charCut t m).
Proof.
  intros Hm. unfold charCut. eapply Forall_impl; [apply windows_bounded|].
  intros p Hp. apply approxTokens_chars. simpl in Hp. lia.
Qed.

Lemma charCut_concat t m : str_concat (charCut t m) = t.
Proof. apply windows_concat; lia. Qed.

(** ** Lemmas: the loop over the parts *)

Section pack_parts.
Variables (rec : string -> option (list string)) (m : Z) (sep : string).

Lemma pack_parts_total parts out buf :
  (forall p, p ∈ parts -> is_Some (rec p)) -> is_Some (pack_parts rec m sep parts out buf).
Proof.
  revert out buf. induction parts as [|p parts IH]; intros out buf Hrec; simpl; [by eexists|].
  assert (forall q, q ∈ parts -> is_Some (rec q)) by (intros q Hq; apply Hrec; by right).
  destruct (Hrec p) as [ps ->]; [by left|]. repeat case_match; eauto.
Qed.

Lemma pack_parts_bounded parts out buf r :
  0 <= m ->
  (forall p ps, p ∈ parts -> rec p = Some ps -> Forall (fun q => approxTokens q <= m) ps) ->
  Forall (fun q => approxTokens q <= m) out -> approxTokens buf <= m ->
  pack_parts rec m sep parts out buf = Some r -> Forall (fun q => approxTokens q <= m) r.
Proof.
  intros Hm. revert out buf.
  induction parts as [|p parts IH]; intros out buf Hrec Hout Hbuf Hr; simpl in Hr.
  { case_match; simplify_eq; [done|]. by apply Forall_app; repeat constructor. }
  assert (forall q ps, q ∈ parts -> rec q = Some ps -> Forall (fun q => approxTokens q <= m) ps) as Hrec'
    by (intros q ps Hq; apply Hrec; by right).
  destruct (m <? approxTokens p) eqn:Hp.
  - destruct (rec p) as [ps|] eqn:Eps; [|done].
    eapply IH; [exact Hrec'| | |exact Hr]; [|by rewrite approxTokens_empty].
    apply Forall_app; split; [|eapply Hrec; [by left|done]].
    case_match; [done|]. apply Forall_app; by repeat constructor.
  - destruct (negb (str_empty buf) && _) eqn:Hc.
    + eapply IH; [exact Hrec'| | |exact Hr]; [|by to_prop]. apply Forall_app; by repeat constructor.
    + eapply IH; [exact Hrec'|exact Hout| |exact Hr].
      destruct (str_empty buf) eqn:Eb; simpl in *; by to_prop.
Qed.

Lemma pack_parts_content parts out buf r :
  content sep = EmptyString ->
  (forall p ps, p ∈ parts -> rec p = Some ps -> content (str_concat ps) = content p) ->
  pack_parts rec m sep parts out buf = Some r ->
  content (str_concat r) = content (str_concat out) +:+ content buf +:+ content (str_concat parts).
Proof.
  intros Hsep. revert out buf.
  induction parts as [|p parts IH]; intros out buf Hrec Hr; simpl in Hr.
  { destruct buf; simpl in Hr; simplify_eq; simpl; [by rewrite app_empty_r|].
    by rewrite content_concat_snoc, app_empty_r. }
  assert (forall q ps, q ∈ parts -> rec q = Some ps -> content (str_concat ps) = content q) as Hrec'
    by (intros q ps Hq; apply Hrec; by right).
  simpl str_concat. rewrite content_app.
  destruct (m <? approxTokens p) eqn:Hp.
  - destruct (rec p) as [ps|] eqn:Eps; [|done]. apply IH in Hr; [|done]. rewrite Hr.
    rewrite str_concat_app, content_app, (Hrec p ps); [|by left|done].
    destruct buf; simpl; [by rewrite app_assoc_s|]. by rewrite content_concat_snoc, !app_assoc_s.
  - destruct (negb (str_empty buf) && _) eqn:Hc; apply IH in Hr; try done; rewrite Hr.
    + by rewrite content_concat_snoc, !app_assoc_s.
    + destruct buf; simpl str_empty; cbv iota; [done|].
      by rewrite !content_app, Hsep, !app_assoc_s.
Qed.
End pack_parts.

Lemma pack_parts_mono (rec rec' : string -> option (list string)) m sep parts out buf r :
  (forall p ps, rec p = Some ps -> rec' p = Some ps) ->
  pack_parts rec m sep parts out buf = Some r -> pack_parts rec' m sep parts out buf = Some r.
Proof.
  intros Hrec. revert out buf. induction parts as [|p parts IH]; intros out buf; simpl; [done|].
  destruct (m <? approxTokens p).
  - destruct (rec p) as [ps|] eqn:E; [|done]. rewrite (Hrec _ _ E). apply IH.
  - case_match; apply IH.
Qed.

(** ** Lemmas: the last-resort split *)

Lemma forceSplit_fuel_mono fuel fuel' t m r :
  (fuel <= fuel')%nat -> forceSplit_fuel fuel t m = Some r -> forceSplit_fuel fuel' t m = Some r.
Proof.
  revert fuel' t r. induction fuel as [|fuel IH]; intros fuel' t r Hle; [done|].
  destruct fuel' as [|fuel']; [lia|]. simpl. repeat case_match; try done.
  all: apply pack_parts_mono; intros; eapply IH; [lia|done].
Qed.

(** [n] separators are left to split on. *)
Definition seps_left (n : nat) (t : string) : Prop :=
  match n with
  | O => includes_char nl t = false /\ includes_char " "%char t = false
  | S O => includes_char nl t = false
  | _ => True
  end.

Lemma seps_left_split_space t : seps_left 1 t -> forall p, p ∈ split_char " "%char t -> seps_left 0 p.
Proof.
  simpl. rewrite includes_char_false. intros Ht p Hp. split.
  - apply includes_char_false. by eapply split_char_elem_forall.
  - by eapply split_char_elem_no_sep.
Qed.

Lemma split_char_length c t : includes_char c t = true -> (2 <= length (split_char c t))%nat.
Proof.
  unfold includes_char, indexOf. induction t as [|d t IH]; simpl; [done|].
  pose proof (split_char_not_nil c t) as Hnil.
  destruct (Ascii.eqb c d); simpl; [destruct (split_char c t); simpl; [done|lia]|].
  destruct (str_search _ t); simpl; [|done]. intros _. specialize (IH eq_refl).
  destruct (split_char c t); simpl in *; lia.
Qed.

(** The length test of the source never fails: an included separator splits. *)
Lemma split_test c t :
  includes_char c t && (2 <=? Z.of_nat (length (split_char c t))) = includes_char c t.
Proof.
  destruct (includes_char c t) eqn:E; [|done]. apply split_char_length in E. simpl. apply Z.leb_le. lia.
Qed.

Lemma forceSplit_fuel_total n t m : seps_left n t -> is_Some (forceSplit_fuel (S n) t m).
Proof.
  revert t. induction n as [|n IH]; intros t Ht; [simpl | change (forceSplit_fuel (S (S n)) t m) with
    (if approxTokens t <=? m then Some [t]
     else if includes_char nl t && (2 <=? Z.of_nat (length (split_char nl t)))
     then pack_parts (fun p => forceSplit_fuel (S n) p m) m nl_s (split_char nl t) [] EmptyString
     else if includes_char " "%char t && (2 <=? Z.of_nat (length (split_char " "%char t)))
     then pack_parts (fun p => forceSplit_fuel (S n) p m) m " " (split_char " "%char t) [] EmptyString
     else Some (charCut t m))]; rewrite !split_test; case_match; try by eexists.
  { destruct Ht as [-> ->]. by eexists. }
  destruct (includes_char nl t) eqn:Hnl.
  - apply pack_parts_total. intros p Hp. apply IH. destruct n as [|[|n]]; [by rewrite Ht in Hnl| |done].
    by eapply split_char_elem_no_sep.
  - destruct (includes_char " "%char t); [|by eexists].
    apply pack_parts_total. intros p Hp. apply IH.
    destruct (seps_left_split_space t Hnl p Hp) as [? ?]. by destruct n as [|[|n]].
Qed.

Lemma forceSplit_spec t m : forceSplit_fuel 3 t m = Some (forceSplit t m).
Proof. unfold forceSplit. by destruct (forceSplit_fuel_total 2 t m I) as [r ->]. Qed.

Lemma forceSplit_fuel_bounded fuel t m r :
  1 <= m -> forceSplit_fuel fuel t m = Some r -> Forall (fun p => approxTokens p <= m) r.
Proof.
  intros Hm. revert t r. induction fuel as [|fuel IH]; intros t r; [done|]. simpl.
  destruct (approxTokens t <=? m) eqn:E; [intros [= <-]; repeat constructor; by to_prop|].
  repeat case_match; intros Hr; simplify_eq; try by apply charCut_bounded.
  all: refine (pack_parts_bounded _ _ _ _ [] EmptyString r _ _ _ _ Hr);
    [lia | intros; by eapply IH | by apply Forall_nil | rewrite approxTokens_empty; lia].
Qed.

Lemma forceSplit_fuel_content fuel t m r :
  forceSplit_fuel fuel t m = Some r -> content (str_concat r) = content t.
Proof.
  revert t r. induction fuel as [|fuel IH]; intros t r; [done|]. simpl.
  repeat case_match; intros Hr; simplify_eq; try (simpl; by rewrite ?app_empty_r);
    try by rewrite charCut_concat.
  all: apply pack_parts_content in Hr; [|done|intros; eauto];
    rewrite Hr; simpl; by apply content_split_char.
Qed.

(** ** Lemmas: headings and paragraphs *)

Lemma split_char_single c s : includes_char c s = false -> split_char c s = [s].
Proof.
  rewrite includes_char_false. induction s as [|d s IH]; simpl; [done|]. intros [Hd Hs]%andb_true_iff.
  apply negb_true_iff in Hd. by rewrite Hd, IH.
Qed.

Lemma splitOnHeadings_single s : includes_char nl s = false -> splitOnHeadings s = [s].
Proof.
  intros Hs. unfold splitOnHeadings. rewrite split_char_single by done. simpl.
  by rewrite andb_false_r.
Qed.

(** What the loop of [splitOnHeadings] has read so far. *)
Definition headings_inv (read : list string) (st : list string * list string) : Prop :=
  match st.2 with
  | [] => st.1 = [] /\ read = []
  | _ => join nl_s (st.1 ++ [join nl_s st.2]) = join nl_s read /\ read <> []
  end.

Lemma join_snoc sep ps p : ps <> [] -> join sep (ps ++ [p]) = join sep ps +:+ sep +:+ p.
Proof. intros H. by rewrite join_app. Qed.

Lemma heading_step_inv read st line :
  headings_inv read st -> headings_inv (read ++ [line]) (heading_step st line).
Proof.
  destruct st as [sections current]. unfold headings_inv, heading_step.
  destruct current as [|l current]; cbn [fst snd].
  - intros [-> ->]. simpl. by rewrite andb_false_r.
  - intros [Hj Hr]. destruct (is_heading line && _); cbn [fst snd app].
    + split; [|by destruct read]. rewrite (join_snoc _ (_ ++ _)) by (by destruct sections).
      rewrite Hj, join_snoc by done. done.
    + split; [|by destruct read].
      change (l :: current ++ [line]) with ((l :: current) ++ [line]).
      rewrite (join_snoc _ (l :: current)), (join_snoc _ read) by done. rewrite <- Hj.
      destruct sections as [|s sections]; [done|].
      rewrite !(join_snoc _ (s :: sections)) by done. by rewrite !app_assoc_s.
Qed.

Lemma split_blank_no_nl s cur : includes_char nl s = false -> split_blank s 0 cur = [cur +:+ s].
Proof.
  rewrite includes_char_false. revert cur. induction s as [|c s IH]; intros cur; simpl.
  { intros _. by rewrite app_empty_r. }
  intros [Hc Hs]%andb_true_iff. apply negb_true_iff in Hc. rewrite Ascii.eqb_sym, Hc.
  rewrite IH by done. by rewrite app_assoc_s.
Qed.

Lemma split_blank_two s t cur :
  includes_char nl s = false -> includes_char nl t = false -> str_empty t = false ->
  split_blank (s +:+ para_sep +:+ t) 0 cur = [cur +:+ s; t].
Proof.
  rewrite (includes_char_false nl s). revert cur. induction s as [|c s IH]; intros cur; simpl.
  - intros _ Ht Hne. destruct t as [|c t]; [done|]. simpl.
    pose proof (proj1 (includes_char_false _ _) Ht) as Ht'. simpl in Ht'.
    apply andb_true_iff in Ht' as [Hc Ht']. apply negb_true_iff in Hc. rewrite Ascii.eqb_sym, Hc.
    rewrite split_blank_no_nl by (by apply includes_char_false). by rewrite app_empty_r.
  - intros [Hc Hs]%andb_true_iff Ht Hne. apply negb_true_iff in Hc. rewrite Ascii.eqb_sym, Hc.
    rewrite IH by done. by rewrite app_assoc_s.
Qed.

(** ** Lemmas: white space *)

(** The words of a text: its maximal runs of non-white-space. [cur] is the run
    being read. *)
Fixpoint words_from (s : string) (cur : string) : list string :=
  match s with
  | EmptyString => if str_empty cur then [] else [cur]
  | String c s' =>
      if is_ws c
      then (if str_empty cur then [] else [cur]) ++ words_from s' EmptyString
      else words_from s' (cur +:+ String c EmptyString)
  end.

Definition words (s : string) : list string := words_from s EmptyString.

Definition not_ws (c : ascii) : bool := negb (is_ws c).

Lemma drop_while_end_app p s t :
  drop_while_end p (s +:+ t) =
  if str_empty (drop_while_end p t) then drop_while_end p s else s +:+ drop_while_end p t.
Proof.
  induction s as [|c s IH]; simpl; [by destruct (drop_while_end p t)|]. rewrite IH.
  destruct (drop_while_end p t); simpl; [done|]. by destruct s.
Qed.

Lemma drop_while_end_none p s : str_forall (fun c => negb (p c)) s = true -> drop_while_end p s = s.
Proof.
  induction s as [|c s IH]; simpl; [done|]. intros [Hc Hs]%andb_true_iff. apply negb_true_iff in Hc.
  rewrite IH by done. destruct s; [by rewrite Hc|done].
Qed.

Lemma words_from_nonempty s cur : Forall (fun w => str_empty w = false) (words_from s cur).
Proof.
  revert cur. induction s as [|c s IH]; intros cur; simpl.
  - destruct cur; by repeat constructor.
  - destruct (is_ws c); [|done]. apply Forall_app; split; [|done]. destruct cur; by repeat constructor.
Qed.

Lemma join_words_empty s : str_empty (join " " (words s)) = true -> words s = [].
Proof.
  pose proof (words_from_nonempty s EmptyString) as Hw. unfold words in *.
  destruct Hw as [|w ws Hw Hws]; [done|]. destruct ws; by destruct w.
Qed.

Lemma collapse_words s :
  drop_while_end is_ws (collapse_ws s true) = join " " (words s) /\
  forall cur, str_empty cur = false -> str_forall not_ws cur = true ->
    drop_while_end is_ws (cur +:+ collapse_ws s false) = join " " (words_from s cur).
Proof.
  induction s as [|c s [IHa IHb]]; split; simpl; [done| | |].
  - intros cur Hne Hcur. rewrite app_empty_r, drop_while_end_none by done. by rewrite Hne.
  - unfold words. simpl. destruct (is_ws c) eqn:Hc; [exact IHa|].
    change (String c (collapse_ws s false)) with (String c EmptyString +:+ collapse_ws s false).
    apply IHb; [done|]. simpl. unfold not_ws. by rewrite Hc.
  - intros cur Hne Hcur. destruct (is_ws c) eqn:Hc.
    + rewrite Hne. change (words_from s EmptyString) with (words s).
      change (String " " (collapse_ws s true)) with (" " +:+ collapse_ws s true).
      rewrite <- app_assoc_s, drop_while_end_app, IHa. cbn [app].
      destruct (str_empty (join " " (words s))) eqn:Hj.
      * rewrite (join_words_empty _ Hj). rewrite drop_while_end_app. simpl.
        by apply drop_while_end_none.
      * rewrite (join_cons " " cur) by (intros Hw; by rewrite Hw in Hj). by rewrite app_assoc_s.
    + change (String c (collapse_ws s false)) with (String c EmptyString +:+ collapse_ws s false).
      rewrite <- app_assoc_s. apply IHb; [by destruct cur|].
      rewrite str_forall_app, Hcur. simpl. unfold not_ws. by rewrite Hc.
Qed.

Lemma drop_while_collapse s : drop_while is_ws (collapse_ws s true) = collapse_ws s true.
Proof.
  induction s as [|c s IH]; simpl; [done|]. destruct (is_ws c) eqn:Hc; [done|]. simpl. by rewrite Hc.
Qed.

(** Normalized text is the words of the text, one space apart. *)
Lemma normalizeText_words t : normalizeText t = join " " (words t).
Proof.
  rewrite <- (proj1 (collapse_words t)). unfold normalizeText, trim.
  destruct t as [|c t]; simpl; [done|]. destruct (is_ws c) eqn:Hc; simpl.
  - change (is_ws " "%char) with true. by rewrite drop_while_collapse.
  - rewrite Hc. simpl. by rewrite Hc.
Qed.

(** ** Properties *)

(** [forceSplit] terminates at its third level whatever the text, and
    every piece it returns is at most [maxTokens] (the guarantee its comment
    states), for a positive cap. *)
Theorem forceSplit_bounded (t : string) (maxTokens : Z) :
  1 <= maxTokens ->
  (forall fuel, (3 <= fuel)%nat -> forceSplit_fuel fuel t maxTokens = Some (forceSplit t maxTokens)) /\
  Forall (fun p => approxTokens p <= maxTokens) (forceSplit t maxTokens).
Proof.
  intros Hm. split.
  - intros fuel Hf. by eapply forceSplit_fuel_mono, forceSplit_spec.
  - by eapply forceSplit_fuel_bounded, forceSplit_spec.
Qed.

Lemma forceSplit_bounded_witness :
  1 <= 2 /\ Forall (fun p => approxTokens p <= 2) (forceSplit "aaaa bbbb ccccccccccccccc" 2).
Proof.
  split; [lia|].
  exact (proj2 (forceSplit_bounded "aaaa bbbb ccccccccccccccc" 2 ltac:(lia))).
Defined.

(** [forceSplit] loses no text: apart from the newlines and spaces it may
    split on, its pieces hold exactly the characters of the input, in order. *)
Theorem forceSplit_content (t : string) (maxTokens : Z) :
  str_filter solid (str_concat (forceSplit t maxTokens)) = str_filter solid t.
Proof. by eapply forceSplit_fuel_content, forceSplit_spec. Qed.

(** Splitting on headings loses nothing: the sections joined with newlines
    are the Markdown again. *)
Theorem splitOnHeadings_lossless (markdown : string) :
  join nl_s (splitOnHeadings markdown) = markdown.
Proof.
  unfold splitOnHeadings.
  assert (headings_inv (split_char nl markdown)
            (foldl heading_step ([], []) (split_char nl markdown))) as Hinv.
  { generalize (split_char nl markdown). intros l. induction l as [|x l IH] using rev_ind; [done|].
    rewrite foldl_snoc. by apply heading_step_inv. }
  destruct (foldl _ _ _) as [sections current].
  destruct current as [|l current]; destruct Hinv as [H1 H2]; cbn [fst snd] in *.
  { by destruct (split_char_not_nil nl markdown). }
  unfold nl_s in *. rewrite join_split_char in H1. by destruct sections.
Qed.

(** The content hash of a chunk depends on its text only through the
    text's words: a reflowed passage keeps its hash, so an incremental re-sync
    does not re-embed it. *)
Theorem hashChunk_reflow (sha256_hex : string -> string) (conn src s t : string) :
  words s = words t -> hashChunk sha256_hex conn src s = hashChunk sha256_hex conn src t.
Proof. intros H. unfold hashChunk. by rewrite !normalizeText_words, H. Qed.

Lemma hashChunk_reflow_witness :
  words " a  b" = words "a b " /\
  hashChunk (fun x => x) "c" "d" " a  b" = hashChunk (fun x => x) "c" "d" "a b ".
Proof. split; [reflexivity|]. apply hashChunk_reflow. reflexivity. Defined.

Fixpoint str_repeat (c : ascii) (n : nat) : string :=
  match n with
  | O => EmptyString
  | S n' => String c (str_repeat c n')
  end.

Lemma str_repeat_forall p c n : p c = true -> str_forall p (str_repeat c n) = true.
Proof. intros Hc. induction n as [|n IH]; simpl; [done|]. by rewrite Hc. Qed.

Lemma slen_repeat c n : slen (str_repeat c n) = n.
Proof. induction n as [|n IH]; simpl; [done|]. by rewrite IH. Qed.

(** A section that is one heading paragraph: [body] is empty, no chunk is
    produced and the section is returned as it is. *)
Lemma heading_paragraph_unsplit s m o :
  includes_char nl s = false -> is_heading (trim s) = true -> splitOnParagraphs s m o = [s].
Proof.
  intros Hnl Hh. unfold splitOnParagraphs. rewrite split_blank_no_nl by done. simpl. by rewrite Hh.
Qed.

Definition heading_blob (n : nat) : string := "# " +:+ str_repeat "a"%char n.

Lemma heading_blob_trim n : trim (heading_blob (S n)) = heading_blob (S n).
Proof.
  unfold trim, heading_blob. rewrite drop_while_id by reflexivity.
  rewrite drop_while_end_app, drop_while_end_none by by apply str_repeat_forall. done.
Qed.

Lemma heading_blob_no_nl n : includes_char nl (heading_blob n) = false.
Proof.
  apply includes_char_false. unfold heading_blob. rewrite str_forall_app. simpl.
  by apply str_repeat_forall.
Qed.

(** The cap on a chunk's size is not kept for a section that is a single
    heading paragraph: whatever the chunking options, some document yields a
    chunk above [MAX_CHUNK_TOKENS]. *)
Theorem heading_section_exceeds_cap (sha256_hex : string -> string) (conn label : string) (options : ChunkOptions) :
  exists (document : Document) (c : Chunk),
    c ∈ chunkDocument sha256_hex conn label document options /\ MAX_CHUNK_TOKENS < approxTokens (text c).
Proof.
  assert (exists n, Z.of_nat n = 30000) as [n Hn] by (exists (Z.to_nat 30000); by rewrite Z2Nat.id).
  exists (mkDocument (mkResourceRef "d" "t" "u" None None None) (heading_blob (S n))).
  assert (MAX_CHUNK_TOKENS < approxTokens (heading_blob (S n))) as Hbig.
  { apply approxTokens_lower. unfold heading_blob. rewrite slen_app, slen_repeat. unfold MAX_CHUNK_TOKENS. simpl slen. lia. }
  exists (mkDocumentChunk sha256_hex conn label
            (mkDocument (mkResourceRef "d" "t" "u" None None None) (heading_blob (S n))) (heading_blob (S n))).
  split; [|exact Hbig]. apply list_elem_of_fmap_2. apply list_elem_of_filter. split.
  { unfold heading_blob. rewrite slen_app. simpl. lia. }
  unfold document_pieces. cbn [doc_markdown].
  rewrite splitOnHeadings_single by apply heading_blob_no_nl. simpl.
  unfold section_pieces. destruct (_ <=? _) eqn:E.
  { unfold effective_maxTokens in E. to_prop. lia. }
  rewrite heading_paragraph_unsplit; [| apply heading_blob_no_nl | by rewrite heading_blob_trim].
  simpl. rewrite heading_blob_trim. by left.
Qed.

(** The overlap carries whole paragraphs: two paragraphs that each fit the
    budget, but not together, give a second chunk that holds both and so is
    over budget. *)
Theorem overlap_exceeds_budget (p1 p2 : string) (maxTokens overlap : Z) :
  includes_char nl p1 = false -> includes_char nl p2 = false -> str_empty p2 = false ->
  is_heading (trim p1) = false -> approxTokens p1 <= maxTokens -> approxTokens p2 <= maxTokens ->
  maxTokens < approxTokens (p1 +:+ para_sep +:+ p2) -> 0 < overlap ->
  splitOnParagraphs (p1 +:+ para_sep +:+ p2) maxTokens overlap = [p1; p1 +:+ para_sep +:+ p2].
Proof.
  intros H1 H2 Hne Hh Hp1 Hp2 Hbig Ho. unfold splitOnParagraphs.
  rewrite split_blank_two by done. simpl. rewrite Hh. simpl. unfold paragraph_units.
  rewrite (proj2 (Z.ltb_ge _ _) Hp1), (proj2 (Z.ltb_ge _ _) Hp2). simpl.
  change (p1 +:+ String nl (String nl p2)) with (p1 +:+ para_sep +:+ p2).
  rewrite (proj2 (Z.ltb_lt _ _) Hbig). simpl.
  rewrite (proj2 (Z.ltb_lt _ _) Ho). unfold tail. simpl.
  by rewrite (proj2 (Z.ltb_lt _ _) Ho).
Qed.

Lemma overlap_exceeds_budget_witness :
  splitOnParagraphs ("aaaaaaaa" +:+ para_sep +:+ "bbbbbbbb") 3 1
  = ["aaaaaaaa"; "aaaaaaaa" +:+ para_sep +:+ "bbbbbbbb"].
Proof. apply overlap_exceeds_budget; reflexivity || (vm_compute; discriminate). Defined.
