(* ===== verification/Driver.v ===== *)
(** * Connection broker: the driver contract (apps/connection-broker/src/drivers/types.ts)

    What the broker, the sync pass and the drivers exchange, and the [Driver]
    interface as a record of operations in a world [W]: an optional method of
    the interface is an [option]. *)

From stdpp Require Import base gmap strings list sorting.
From Stdlib Require Import ZArith Lia.
From S2P Require Import Prelude JsString JsNumber Json Chunk.

(** ** Data *)

Record Scope := mkScope {
  scope_space : option string;
  scope_channel : option string;
  scope_folderID : option string
}.

Definition Cursor : Type := option string.

Record ListPage := mkListPage {
  page_resources : list ResourceRef;
  page_cursor : Cursor
}.

Inductive ProbeGranularity := per_resource | per_connection.

Record ProbeResult := mkProbeResult {
  probe_allowed : bool;
  probe_title : string;
  probe_url : string;
  probe_version : option string
}.

Inductive QueryError :=
| NotAnObject
| UnknownFields (fields : list string)
| NotAString (field : string)
| BadDate (field : string)
| BadSort
| BadLimit.

(** What a driver call may reject with; [OtherError] is an error of no class
    the server knows. *)
Inductive DriverError :=
| PermissionDeniedError (message : string)
| TransientError (message : string)
| PermanentError (message : string)
| QueryValidationError (e : QueryError)
| OtherError (message : string).

Record Credentials := mkCredentials {
  cred_service : option string;
  cred_delegated : option string
}.

Record WebhookEvent := mkWebhookEvent {
  event_scopeKey : option string;
  event_sourceIds : list string
}.

(** A header as node gives it: one value, or an array of them. *)
Inductive HeaderValue :=
| OneValue (s : string)
| ManyValues (l : list string).

Record WebhookRequest := mkWebhookRequest {
  webhook_headers : list (string * HeaderValue);
  webhook_rawBody : string
}.

Inductive QuerySort := relevance | newest | oldest.

Record SourceQuery := mkSourceQuery {
  q_text : option string;
  q_title : option string;
  q_author : option string;
  q_after : option string;
  q_before : option string;
  q_type : option string;
  q_sort : option QuerySort;
  q_limit : option number
}.

Record SearchHit := mkSearchHit {
  hit_ref : ResourceRef;
  hit_excerpt : option string
}.

Record QueryResult := mkQueryResult {
  result_hits : list SearchHit;
  result_unsupported : option (list string)
}.

(** ** The interface *)

Record Driver (W : Type) := mkDriver {
  provider : string;
  validateScope : Scope -> result DriverError unit;
  list_resources : Scope -> Credentials -> Cursor -> SM W DriverError ListPage;
  fetch : Scope -> Credentials -> string -> SM W DriverError Document;
  probeGranularity : ProbeGranularity;
  probe : Scope -> Credentials -> option string -> SM W DriverError ProbeResult;
  parseWebhook : option (WebhookRequest -> string -> SM W DriverError (option WebhookEvent));
  readAsUser : option (Credentials -> string -> SM W DriverError Document);
  searchAsUser : option (Credentials -> Scope -> string -> number -> SM W DriverError (list SearchHit));
  queryAsUser : option (Credentials -> Scope -> SourceQuery -> SM W DriverError QueryResult)
}.

Arguments mkDriver {W}.
Arguments provider {W} d.
Arguments validateScope {W} d.
Arguments list_resources {W} d.
Arguments fetch {W} d.
Arguments probeGranularity {W} d.
Arguments probe {W} d.
Arguments parseWebhook {W} d.
Arguments readAsUser {W} d.
Arguments searchAsUser {W} d.
Arguments queryAsUser {W} d.

#[export] Instance QuerySort_eq_dec : EqDecision QuerySort.
Proof. solve_decision. Defined.
#[export] Instance Scope_eq_dec : EqDecision Scope.
Proof. solve_decision. Defined.
#[export] Instance Credentials_eq_dec : EqDecision Credentials.
Proof. solve_decision. Defined.
