(* ===== verification/Reconcile.v ===== *)
(** * Connection broker: reconciliation (apps/connection-broker/src/sync/reconcile.ts)

    What a sync pass writes and deletes, as a function of the chunks it made,
    of the chunks already indexed and of how much of the source it examined. *)

From stdpp Require Import base gmap strings list sorting.
From Stdlib Require Import ZArith Lia.
From S2P Require Import Prelude JsString Chunk.

(** ** Data *)

Record IndexedChunk := mkIndexedChunk {
  ix_contentHash : string;
  ix_sourceId : string
}.

Inductive ReconcileScope :=
| Full
| Partial (sourceIds : list string).

Record ReconcilePlan := mkReconcilePlan {
  plan_upsert : list Chunk;
  plan_remove : list string;
  plan_unchanged : nat
}.

#[export] Instance IndexedChunk_eq_dec : EqDecision IndexedChunk.
Proof. solve_decision. Defined.

(** ** Operations *)

Definition deletionScope (scope : ReconcileScope) (srcId : string) : bool :=
  match scope with
  | Full => true
  | Partial sourceIds => bool_decide (srcId ∈ (list_to_set sourceIds : gset string))
  end.

(** The state of the loop over the current chunks: upsert, unchanged, seen. *)
Definition reconcile_state : Type := list Chunk * nat * gset string.

Definition reconcile_step (indexedHashes : gset string) (st : reconcile_state) (chunk : Chunk)
    : reconcile_state :=
  let '(upsert, unchanged, seen) := st in
  if decide (contentHash chunk ∈ seen) then st
  else
    let seen := {[contentHash chunk]} ∪ seen in
    if decide (contentHash chunk ∈ indexedHashes)
    then (upsert, S unchanged, seen)
    else (upsert ++ [chunk], unchanged, seen).

Definition reconcile (current : list Chunk) (indexed : list IndexedChunk) (scope : ReconcileScope)
    : ReconcilePlan :=
  let indexedHashes : gset string := list_to_set (ix_contentHash <$> indexed) in
  let '(upsert, unchanged, seen) := foldl (reconcile_step indexedHashes) ([], 0, ∅) current in
  let inScope := deletionScope scope in
  let remove := ix_contentHash <$>
    filter (fun c => inScope (ix_sourceId c) = true /\ ix_contentHash c ∉ seen) indexed in
  mkReconcilePlan upsert remove unchanged.

(** ** The store a plan is applied to

    The index as the plan leaves it: removals by hash, then the new points. *)

Definition to_indexed (c : Chunk) : IndexedChunk := mkIndexedChunk (contentHash c) (sourceId c).

Definition apply_plan (plan : ReconcilePlan) (indexed : list IndexedChunk) : list IndexedChunk :=
  filter (fun c => ix_contentHash c ∉ plan_remove plan) indexed ++ (to_indexed <$> plan_upsert plan).

Definition hashes (indexed : list IndexedChunk) : list string := ix_contentHash <$> indexed.
Definition chunk_hashes (current : list Chunk) : list string := contentHash <$> current.

(** ** Lemmas *)

(** What the loop has computed after the chunks [read]. *)
Definition reconcile_inv (ix : gset string) (read : list Chunk) (st : reconcile_state) : Prop :=
  let '(upsert, unchanged, seen) := st in
  (forall h, h ∈ seen <-> h ∈ chunk_hashes read) /\
  (forall h, h ∈ chunk_hashes upsert <-> h ∈ chunk_hashes read /\ h ∉ ix) /\
  NoDup (chunk_hashes upsert) /\
  (forall c, c ∈ upsert -> c ∈ read) /\
  length upsert + unchanged = size seen.

Lemma reconcile_step_inv ix read st c :
  reconcile_inv ix read st -> reconcile_inv ix (read ++ [c]) (reconcile_step ix st c).
Proof.
  destruct st as [[upsert unchanged] seen]. unfold reconcile_inv, reconcile_step, chunk_hashes.
  intros (Hseen & Hup & Hnd & Hin & Hlen).
  assert (forall h, h ∈ contentHash <$> read ++ [c] <-> h ∈ contentHash <$> read \/ h = contentHash c) as Hread.
  { intros h. rewrite fmap_app, elem_of_app. simpl. rewrite list_elem_of_singleton. done. }
  assert (forall c', c' ∈ upsert -> c' ∈ read ++ [c]) as Hin' by (intros c' Hc'; rewrite elem_of_app; auto).
  case_decide as Hc; [|case_decide as Hix].
  - apply Hseen in Hc as Hc'. split_and!; try done; intros h; rewrite Hread; naive_solver.
  - split_and!; try done.
    + intros h. rewrite Hread, elem_of_union, elem_of_singleton, Hseen. naive_solver.
    + intros h. rewrite Hread, Hup. naive_solver.
    + rewrite size_union by set_solver. rewrite size_singleton. lia.
  - assert (contentHash c ∉ contentHash <$> read) as Hnew by (by rewrite <- Hseen).
    split_and!.
    + intros h. rewrite Hread, elem_of_union, elem_of_singleton, Hseen. naive_solver.
    + intros h. rewrite Hread, fmap_app, elem_of_app. simpl. rewrite list_elem_of_singleton, Hup. naive_solver.
    + rewrite fmap_app. apply NoDup_app. simpl. split; [done|]. split; [|apply NoDup_singleton].
      intros h Hh. rewrite list_elem_of_singleton. intros ->. apply Hup in Hh. by destruct Hh.
    + intros c'. rewrite elem_of_app, list_elem_of_singleton. intros [?| ->]; [auto|].
      rewrite elem_of_app. right. by left.
    + rewrite length_app, size_union by set_solver. rewrite size_singleton. simpl. lia.
Qed.

Lemma reconcile_loop_inv ix current :
  reconcile_inv ix current (foldl (reconcile_step ix) ([], 0, ∅) current).
Proof.
  induction current as [|c current IH] using rev_ind.
  - unfold reconcile_inv. simpl. split_and!; try set_solver; constructor.
  - rewrite foldl_snoc. by apply reconcile_step_inv.
Qed.

(** The plan, described by membership. *)
Lemma reconcile_plan_spec current indexed scope :
  let plan := reconcile current indexed scope in
  (forall h, h ∈ chunk_hashes (plan_upsert plan) <-> h ∈ chunk_hashes current /\ h ∉ hashes indexed) /\
  NoDup (chunk_hashes (plan_upsert plan)) /\
  (forall c, c ∈ plan_upsert plan -> c ∈ current) /\
  length (plan_upsert plan) + plan_unchanged plan = size (list_to_set (chunk_hashes current) : gset string) /\
  (forall h, h ∈ plan_remove plan <->
     exists c, c ∈ indexed /\ ix_contentHash c = h /\ deletionScope scope (ix_sourceId c) = true /\
               h ∉ chunk_hashes current).
Proof.
  unfold reconcile.
  pose proof (reconcile_loop_inv (list_to_set (hashes indexed)) current) as Hinv. unfold hashes in *.
  destruct (foldl _ _ current) as [[upsert unchanged] seen].
  destruct Hinv as (Hseen & Hup & Hnd & Hin & Hlen). simpl. split_and!; try done.
  - intros h. rewrite Hup. by rewrite elem_of_list_to_set.
  - rewrite Hlen. f_equal. apply set_eq. intros h. by rewrite Hseen, elem_of_list_to_set.
  - intros h. rewrite list_elem_of_fmap. setoid_rewrite list_elem_of_filter. setoid_rewrite Hseen.
    naive_solver.
Qed.

Lemma hashes_app l1 l2 : hashes (l1 ++ l2) = hashes l1 ++ hashes l2.
Proof. apply fmap_app. Qed.

Lemma hashes_to_indexed l : hashes (to_indexed <$> l) = chunk_hashes l.
Proof. unfold hashes, chunk_hashes. rewrite <- list_fmap_compose. done. Qed.

Lemma elem_of_apply_plan plan indexed h :
  h ∈ hashes (apply_plan plan indexed) <->
  (h ∈ hashes indexed /\ h ∉ plan_remove plan) \/ h ∈ chunk_hashes (plan_upsert plan).
Proof.
  unfold apply_plan. rewrite hashes_app, elem_of_app, hashes_to_indexed.
  unfold hashes. rewrite !list_elem_of_fmap. setoid_rewrite list_elem_of_filter. naive_solver.
Qed.

(** ** Properties *)

(** A full pass converges: applied to any index, its plan leaves exactly
    the hashes of the chunks the source has now; and a second pass over the
    same chunks plans no write and no deletion. *)
Theorem reconcile_full_converges (current : list Chunk) (indexed : list IndexedChunk) :
  let after := apply_plan (reconcile current indexed Full) indexed in
  (forall h, h ∈ hashes after <-> h ∈ chunk_hashes current) /\
  reconcile current after Full =
    mkReconcilePlan [] [] (size (list_to_set (chunk_hashes current) : gset string)).
Proof.
  intros after.
  assert (forall h, h ∈ hashes after <-> h ∈ chunk_hashes current) as Hafter.
  { intros h. unfold after. rewrite elem_of_apply_plan.
    pose proof (reconcile_plan_spec current indexed Full) as (Hup & _ & _ & _ & Hrem).
    rewrite Hup, Hrem. split.
    - intros [[Hix Hno]|[? _]]; [|done]. destruct (decide (h ∈ chunk_hashes current)) as [|Hn]; [done|].
      destruct Hno. apply list_elem_of_fmap in Hix as (c & -> & Hc). by exists c.
    - intros Hc. destruct (decide (h ∈ hashes indexed)) as [Hix|Hix]; [left|by right].
      split; [done|]. intros (c & _ & _ & _ & Hn). done. }
  split; [exact Hafter|].
  pose proof (reconcile_plan_spec current after Full) as (Hup & _ & _ & Hlen & Hrem).
  destruct (reconcile current after Full) as [upsert remove unchanged]. simpl in *.
  assert (upsert = []) as ->.
  { destruct upsert as [|c l]; [done|]. destruct (Hup (contentHash c)) as [Hc _].
    destruct Hc as [Hc Hn]; [by left|]. by apply Hafter in Hc. }
  assert (remove = []) as ->.
  { destruct remove as [|h l]; [done|]. destruct (Hrem h) as [Hc _].
    destruct Hc as (c & Hc & <- & _ & Hn); [by left|].
    destruct Hn. apply Hafter. by apply list_elem_of_fmap_2. }
  by rewrite <- Hlen.
Qed.

(** No pass deletes what it did not examine, and every pass keeps what the
    source still has: an indexed chunk survives when its source id is outside
    a partial pass's list, or when its hash is among the current chunks.  Ids
    are unique in the index, as in the store. *)
Theorem reconcile_partial_safe (current : list Chunk) (indexed : list IndexedChunk)
    (scope : ReconcileScope) (c : IndexedChunk) :
  NoDup (hashes indexed) -> c ∈ indexed ->
  match scope with Full => False | Partial sourceIds => ix_sourceId c ∉ sourceIds end \/
    ix_contentHash c ∈ chunk_hashes current ->
  c ∈ apply_plan (reconcile current indexed scope) indexed.
Proof.
  intros Hnd Hc Hsafe. unfold apply_plan. apply elem_of_app. left. apply list_elem_of_filter.
  split; [|done].
  pose proof (reconcile_plan_spec current indexed scope) as (_ & _ & _ & _ & Hrem).
  rewrite Hrem. intros (c' & Hc' & Hh & Hs & Hn).
  destruct Hsafe as [Hf|Hcur]; [|done].
  assert (c' = c) as ->; [|by destruct scope as [|ids]; [|simpl in Hs; to_prop; set_solver]].
  apply list_elem_of_lookup in Hc as [i Hi]. apply list_elem_of_lookup in Hc' as [j Hj].
  assert (i = j) as ->; [|congruence].
  eapply (NoDup_lookup (hashes indexed)); [done| |]; unfold hashes; rewrite list_lookup_fmap.
  - by rewrite Hi.
  - rewrite Hj. simpl. by rewrite Hh.
Qed.

Lemma reconcile_partial_safe_witness :
  let i1 := mkIndexedChunk "h1" "d1" in
  let i2 := mkIndexedChunk "h2" "d2" in
  i2 ∈ [i1; i2] /\ i2 ∈ apply_plan (reconcile [] [i1; i2] (Partial ["d1"])) [i1; i2].
Proof.
  simpl. split; [by right; left|].
  apply (reconcile_partial_safe [] [mkIndexedChunk "h1" "d1"; mkIndexedChunk "h2" "d2"] (Partial ["d1"])).
  - by apply (bool_decide_unpack _); vm_compute.
  - by right; left.
  - left. apply (bool_decide_unpack _). by vm_compute.
Defined.

(** A pass costs one embedding per new chunk and nothing else: the chunks
    to write are chunks of this pass, one per hash, whose hash is not indexed;
    writes and unchanged chunks together count the distinct hashes. *)
Theorem reconcile_upserts_only_new (current : list Chunk) (indexed : list IndexedChunk) (scope : ReconcileScope) :
  let plan := reconcile current indexed scope in
  NoDup (chunk_hashes (plan_upsert plan)) /\
  (forall c, c ∈ plan_upsert plan -> c ∈ current /\ contentHash c ∉ hashes indexed) /\
  (forall h, h ∈ chunk_hashes current -> h ∈ hashes indexed \/ h ∈ chunk_hashes (plan_upsert plan)) /\
  length (plan_upsert plan) + plan_unchanged plan = size (list_to_set (chunk_hashes current) : gset string).
Proof.
  intros plan. pose proof (reconcile_plan_spec current indexed scope) as (Hup & Hnd & Hin & Hlen & _).
  fold plan in Hup, Hnd, Hin, Hlen. split_and!; try done.
  - intros c Hc. split; [by apply Hin|]. apply Hup. by apply list_elem_of_fmap_2.
  - intros h Hh. rewrite Hup. destruct (decide (h ∈ hashes indexed)); [by left|by right].
Qed.
