(* ===== verification/Worker.v ===== *)
(** * Connection broker: one sync pass (apps/connection-broker/src/sync/worker.ts)

    [syncConnection] against two interfaces: the source it reads
    ([ResourceSource]) and the corpus it writes ([CorpusWriter]).  The laws of
    the corpus side ([CorpusLaws]) say what a writer promises: [contents] is
    the index as a map from content hash to source id. *)

From stdpp Require Import base gmap strings list sorting.
From Stdlib Require Import ZArith Lia.
From S2P Require Import Prelude JsString Chunk Driver Reconcile.

(** ** Interfaces *)

Class ResourceSource (W E : Type) := {
  src_list : string -> Cursor -> SM W E ListPage;
  src_fetch : string -> string -> SM W E Document
}.

Class CorpusWriter (W E : Type) := {
  cw_indexed : string -> SM W E (list IndexedChunk);
  cw_upsert : string -> list Chunk -> SM W E unit;
  cw_remove : string -> list string -> SM W E unit
}.

(** The contents of the index after [cs] are written and after [hs] are removed. *)
Definition write_chunks (cs : list Chunk) (m : gmap string string) : gmap string string :=
  foldl (fun m c => <[contentHash c := sourceId c]> m) m cs.

Definition erase_hashes (hs : list string) (m : gmap string string) : gmap string string :=
  foldl (fun m h => delete h m) m hs.

(** What a corpus writer promises. An operation that throws may have done part
    of its work: it still touches no hash it was not given. *)
Class CorpusLaws (W E : Type) `{ResourceSource W E} `{CorpusWriter W E} := {
  contents : string -> W -> gmap string string;
  list_keeps coll conn cur w : contents coll (src_list conn cur w).2 = contents coll w;
  fetch_keeps coll conn id w : contents coll (src_fetch conn id w).2 = contents coll w;
  indexed_keeps coll coll' w : contents coll (cw_indexed coll' w).2 = contents coll w;
  indexed_ok coll w l w' :
    cw_indexed coll w = (Ok l, w') ->
    NoDup (hashes l) /\
    forall h s, contents coll w !! h = Some s <-> mkIndexedChunk h s ∈ l;
  upsert_ok coll cs w w' :
    cw_upsert coll cs w = (Ok tt, w') -> contents coll w' = write_chunks cs (contents coll w);
  upsert_scope coll cs w h :
    h ∉ chunk_hashes cs -> contents coll (cw_upsert coll cs w).2 !! h = contents coll w !! h;
  remove_ok coll hs w w' :
    cw_remove coll hs w = (Ok tt, w') -> contents coll w' = erase_hashes hs (contents coll w);
  remove_scope coll hs w h :
    h ∉ hs -> contents coll (cw_remove coll hs w).2 !! h = contents coll w !! h
}.

(** ** The pass *)

Record SyncTarget := mkSyncTarget {
  target_connection : string;
  target_label : string;
  target_collection : string;
  target_chunking : ChunkOptions
}.

Record SyncOptions := mkSyncOptions {
  onlySourceIds : option (list string);
  maxPages : option Z
}.

Record SyncReport := mkSyncReport {
  report_connection : string;
  report_indexed : nat;
  report_removed : nat;
  report_unchanged : nat;
  report_failed : list string;
  report_full : bool
}.

Definition DEFAULT_MAX_PAGES : Z := 1000.

(** What the loop over the resources gathers. *)
Record Gathered := mkGathered {
  g_chunks : list Chunk;
  g_fetched : list string;
  g_failed : list string
}.

Section Pass.
Context {W E : Type} `{ResourceSource W E} `{CorpusWriter W E}.
(** The hex digest of node's [createHash("sha256")], and the error [walk]
    throws when the listing does not end within that many pages. *)
Variable sha256_hex : string -> string.
Variable unfinished : string -> Z -> E.

(** The loop of [walk]: [pages] iterations are left. *)
Fixpoint walk_loop (connection : string) (limit : Z) (pages : nat) (refs : list ResourceRef)
    (cursor : Cursor) : SM W E (list ResourceRef) :=
  match pages with
  | O => sthrow (unfinished connection limit)
  | S pages' =>
      do! result <- src_list connection cursor ;;
      let refs := refs ++ page_resources result in
      if truthy_str (page_cursor result)
      then walk_loop connection limit pages' refs (page_cursor result)
      else sret refs
  end.

Definition walk (connection : string) (limit : Z) : SM W E (list ResourceRef) :=
  walk_loop connection limit (Z.to_nat limit) [] None.

(** One resource: a failed fetch is recorded and the loop goes on. *)
Definition gather_step (target : SyncTarget) (g : Gathered) (id : string) : SM W E Gathered :=
  scatch
    (do! document <- src_fetch (target_connection target) id ;;
     sret (mkGathered
       (g_chunks g ++ chunkDocument sha256_hex (target_connection target) (target_label target)
                        document (target_chunking target))
       (g_fetched g ++ [id]) (g_failed g)))
    (fun _ => sret (mkGathered (g_chunks g) (g_fetched g) (g_failed g ++ [id]))).

Definition is_full (options : SyncOptions) : bool :=
  match onlySourceIds options with
  | None => true
  | Some _ => false
  end.

Definition gather (target : SyncTarget) (options : SyncOptions) : SM W E Gathered :=
  do! ids <- match onlySourceIds options with
             | None => do! refs <- walk (target_connection target)
                                        (maxPages options ?? DEFAULT_MAX_PAGES) ;;
                       sret (ref_id <$> refs)
             | Some ids => sret ids
             end ;;
  sfold (gather_step target) (mkGathered [] [] []) ids.

(** A full pass that could not read some resources is no longer a full pass. *)
Definition pass_scope (options : SyncOptions) (g : Gathered) : ReconcileScope :=
  if is_full options && bool_decide (g_failed g = []) then Full else Partial (g_fetched g).

Definition nonempty {A : Type} (l : list A) : bool :=
  match l with
  | [] => false
  | _ => true
  end.

Definition commit (target : SyncTarget) (options : SyncOptions) (g : Gathered) : SM W E SyncReport :=
  do! indexed <- cw_indexed (target_collection target) ;;
  let scope := pass_scope options g in
  let plan := reconcile (g_chunks g) indexed scope in
  do! _ <- (if nonempty (plan_upsert plan)
            then cw_upsert (target_collection target) (plan_upsert plan) else sret tt) ;;
  do! _ <- (if nonempty (plan_remove plan)
            then cw_remove (target_collection target) (plan_remove plan) else sret tt) ;;
  sret (mkSyncReport (target_connection target) (length (plan_upsert plan)) (length (plan_remove plan))
          (plan_unchanged plan) (g_failed g) (match scope with Full => true | Partial _ => false end)).

Definition syncConnection (target : SyncTarget) (options : SyncOptions) : SM W E SyncReport :=
  do! g <- gather target options ;; commit target options g.
End Pass.

(** ** Lemmas *)

Lemma write_chunks_lookup_ne cs m h : h ∉ chunk_hashes cs -> write_chunks cs m !! h = m !! h.
Proof.
  revert m. induction cs as [|c cs IH]; intros m Hh; [done|]. simpl.
  unfold chunk_hashes in Hh. simpl in Hh. apply not_elem_of_cons in Hh as [Hc Hcs].
  rewrite IH by done. by apply lookup_insert_ne.
Qed.

Lemma write_chunks_dom cs m h : is_Some (write_chunks cs m !! h) <-> is_Some (m !! h) \/ h ∈ chunk_hashes cs.
Proof.
  revert m. induction cs as [|c cs IH]; intros m; simpl.
  - unfold chunk_hashes. simpl. set_solver.
  - rewrite IH. unfold chunk_hashes. simpl. rewrite elem_of_cons. unfold is_Some.
    destruct (decide (contentHash c = h)) as [<-|Hne].
    + rewrite lookup_insert_eq. naive_solver.
    + rewrite lookup_insert_ne by done. naive_solver.
Qed.

Lemma erase_hashes_lookup hs m h : erase_hashes hs m !! h = if decide (h ∈ hs) then None else m !! h.
Proof.
  revert m. induction hs as [|x hs IH]; intros m; simpl; [done|]. rewrite IH.
  destruct (decide (x = h)) as [->|Hne].
  - rewrite lookup_delete_eq. rewrite (decide_True (P := h ∈ h :: hs)) by by left. by case_decide.
  - rewrite lookup_delete_ne by done. repeat case_decide; set_solver.
Qed.

Section laws.
Context {W E : Type} `{CorpusLaws W E}.
Variable sha256_hex : string -> string.
Variable unfinished : string -> Z -> E.
Implicit Types (target : SyncTarget) (options : SyncOptions) (w : W).

Lemma walk_loop_keeps coll conn limit pages refs cur m :
  keeps (fun w => contents coll w = m) (walk_loop unfinished conn limit pages refs cur).
Proof.
  revert refs cur. induction pages as [|pages IH]; intros refs cur; simpl; [apply keeps_sthrow|].
  apply keeps_sbind; [intros w Hw; by rewrite list_keeps|]. intros r.
  case_match; [apply IH | apply keeps_sret].
Qed.

(** Reading the source changes no index. *)
Lemma gather_keeps coll target options m :
  keeps (fun w => contents coll w = m) (gather sha256_hex unfinished target options).
Proof.
  unfold gather. apply keeps_sbind.
  - destruct (onlySourceIds options); [apply keeps_sret|].
    apply keeps_sbind; [apply walk_loop_keeps | intros; apply keeps_sret].
  - intros ids. apply keeps_sfold. intros g id _. apply keeps_scatch; [|intros; apply keeps_sret].
    apply keeps_sbind; [intros w Hw; by rewrite fetch_keeps | intros; apply keeps_sret].
Qed.

Lemma upsert_unless_empty_scope coll cs w h :
  h ∉ chunk_hashes cs ->
  contents coll ((if nonempty cs then cw_upsert coll cs else sret tt) w).2 !! h = contents coll w !! h.
Proof. destruct cs as [|c cs]; simpl nonempty; [done|]. apply upsert_scope. Qed.

Lemma remove_unless_empty_scope coll hs w h :
  h ∉ hs ->
  contents coll ((if nonempty hs then cw_remove coll hs else sret tt) w).2 !! h = contents coll w !! h.
Proof. destruct hs as [|x hs]; simpl nonempty; [done|]. apply remove_scope. Qed.

Lemma upsert_unless_empty_ok coll cs w w' :
  (if nonempty cs then cw_upsert coll cs else sret tt) w = (Ok tt, w') ->
  contents coll w' = write_chunks cs (contents coll w).
Proof. destruct cs as [|c cs]; simpl nonempty; [by intros [= <-] | apply upsert_ok]. Qed.

Lemma remove_unless_empty_ok coll hs w w' :
  (if nonempty hs then cw_remove coll hs else sret tt) w = (Ok tt, w') ->
  contents coll w' = erase_hashes hs (contents coll w).
Proof. destruct hs as [|x hs]; simpl nonempty; [by intros [= <-] | apply remove_ok]. Qed.

(** Committing leaves alone every hash the plan does not name. *)
Lemma commit_scope target options g w h :
  (forall l w1, cw_indexed (target_collection target) w = (Ok l, w1) ->
     let plan := reconcile (g_chunks g) l (pass_scope options g) in
     h ∉ chunk_hashes (plan_upsert plan) /\ h ∉ plan_remove plan) ->
  contents (target_collection target) (commit target options g w).2 !! h
  = contents (target_collection target) w !! h.
Proof.
  set (coll := target_collection target). intros Hplan. unfold commit. fold coll.
  pose proof (indexed_keeps coll coll w) as Hk.
  destruct (cw_indexed coll w) as [[l|e] w1] eqn:E1; unfold sbind at 1; rewrite E1; [|by rewrite <- Hk].
  destruct (Hplan l w1 eq_refl) as [Hup Hrem]. cbv zeta. simpl in Hk. rewrite <- Hk.
  pose proof (upsert_unless_empty_scope coll _ w1 h Hup) as Hu.
  unfold sbind at 1. destruct (_ w1) as [[u|e] w2]; [|done]. simpl in Hu. rewrite <- Hu.
  pose proof (remove_unless_empty_scope coll _ w2 h Hrem) as Hr.
  unfold sbind at 1. destruct (_ w2) as [[u'|e] w3]; done.
Qed.
End laws.

(** ** A concrete world

    A source that is a list of documents, one page long, some of which cannot
    be fetched, and a corpus kept in memory: an instance of the laws. *)

Module MemWorld.
Record world := mkWorld {
  docs : list (string * option Document);
  store : gmap string (gmap string string)
}.

Definition ref_of (d : string * option Document) : ResourceRef := mkResourceRef d.1 "" "" None None None.

Fixpoint find_doc (id : string) (ds : list (string * option Document)) : option Document :=
  match ds with
  | [] => None
  | (i, d) :: ds' => if decide (i = id) then d else find_doc id ds'
  end.

Definition corpus_of (coll : string) (w : world) : gmap string string := nullish (store w !! coll) ∅.

Definition set_corpus (coll : string) (m : gmap string string) (w : world) : world :=
  mkWorld (docs w) (<[coll := m]> (store w)).

#[export] Instance source : ResourceSource world string := {
  src_list conn cur := fun w => (Ok (mkListPage (ref_of <$> docs w) None), w);
  src_fetch conn id := fun w =>
    (match find_doc id (docs w) with Some d => Ok d | None => Err "unavailable" end, w)
}.

#[export] Instance corpus : CorpusWriter world string := {
  cw_indexed coll := fun w =>
    (Ok ((fun p => mkIndexedChunk p.1 p.2) <$> map_to_list (corpus_of coll w)), w);
  cw_upsert coll cs := fun w => (Ok tt, set_corpus coll (write_chunks cs (corpus_of coll w)) w);
  cw_remove coll hs := fun w => (Ok tt, set_corpus coll (erase_hashes hs (corpus_of coll w)) w)
}.

Lemma corpus_set coll m w : corpus_of coll (set_corpus coll m w) = m.
Proof. unfold corpus_of, set_corpus. simpl. by rewrite lookup_insert_eq. Qed.

#[export] Instance laws : CorpusLaws world string.
Proof.
  refine {| contents := corpus_of |}; try done.
  - intros coll w l w' Hl. simpl in Hl. injection Hl as Hl <-. subst l. split.
    + unfold hashes. rewrite <- list_fmap_compose. apply (NoDup_fst_map_to_list (corpus_of coll w)).
    + intros h s. rewrite list_elem_of_fmap, <- elem_of_map_to_list. split.
      * intros Hh. by exists (h, s).
      * intros ([h' s'] & [= -> ->] & Hh). done.
  - intros coll cs w w' Hw. simpl in Hw. injection Hw as <-. apply corpus_set.
  - intros coll cs w h Hh. simpl. rewrite corpus_set. by apply write_chunks_lookup_ne.
  - intros coll hs w w' Hw. simpl in Hw. injection Hw as <-. apply corpus_set.
  - intros coll hs w h Hh. simpl. rewrite corpus_set, erase_hashes_lookup. by case_decide.
Defined.

(** A document with a one-line body. *)
Definition doc (id body : string) : Document := mkDocument (mkResourceRef id id "u" None None None) body.
End MemWorld.

(** ** Properties *)

Section properties.
Context {W E : Type} `{CorpusLaws W E}.
Variable sha256_hex : string -> string.
Variable unfinished : string -> Z -> E.

Lemma remove_scoped (chunks : list Chunk) (indexed : list IndexedChunk) (scope : ReconcileScope) (h s : string) :
  NoDup (hashes indexed) -> mkIndexedChunk h s ∈ indexed -> deletionScope scope s = false ->
  h ∉ plan_remove (reconcile chunks indexed scope).
Proof.
  intros Hnd Hin Hs.
  pose proof (reconcile_plan_spec chunks indexed scope) as (_ & _ & _ & _ & Hrem).
  rewrite Hrem. intros (c & Hc & Hh & Hsc & _).
  assert (c = mkIndexedChunk h s) as ->; [|simpl in Hsc; congruence].
  apply list_elem_of_lookup in Hin as [i Hi]. apply list_elem_of_lookup in Hc as [j Hj].
  assert (i = j) as ->; [|congruence].
  eapply (NoDup_lookup (hashes indexed)); [done| |]; unfold hashes; rewrite list_lookup_fmap.
  - by rewrite Hi.
  - rewrite Hj. simpl. by rewrite Hh.
Qed.

(** A pass deletes nothing it did not read.  Whatever the outcome, if
    the pass gathered [g] as a partial pass (a webhook's, or one in which
    some fetch failed), an indexed chunk of a source id that was not fetched
    is indexed afterwards; and if gathering itself throws, no index changes. *)
Theorem sync_keeps_unfetched (target : SyncTarget) (options : SyncOptions) (w : W) (h s : string) :
  contents (target_collection target) w !! h = Some s ->
  match (gather sha256_hex unfinished target options w).1 with
  | Ok g => is_full options && bool_decide (g_failed g = []) = false /\ s ∉ g_fetched g
  | Err _ => True
  end ->
  contents (target_collection target) (syncConnection sha256_hex unfinished target options w).2 !! h = Some s.
Proof.
  set (coll := target_collection target). intros Hh Hg.
  pose proof (gather_keeps sha256_hex unfinished coll target options _ w eq_refl) as Hk.
  unfold syncConnection, sbind. simpl in Hk.
  destruct (gather sha256_hex unfinished target options w) as [[g|e] w1]; simpl in *; [|by rewrite Hk].
  rewrite <- Hk in Hh. unfold coll. rewrite commit_scope; [done|]. fold coll.
  intros l w2 Hl plan. destruct (indexed_ok coll w1 l w2 Hl) as [Hnd Hin].
  apply Hin in Hh as Hix. unfold plan, pass_scope. destruct Hg as [-> Hs]. split.
  - intros Hup. apply reconcile_plan_spec in Hup as [_ Hn]. apply Hn.
    apply list_elem_of_fmap. by exists (mkIndexedChunk h s).
  - eapply remove_scoped; [done|done|]. simpl. apply bool_decide_eq_false. by rewrite elem_of_list_to_set.
Qed.

(** *** What a pass reads *)

(** The listing from [cur], page after page until one names no cursor. *)
Inductive lists (conn : string) : Cursor -> W -> list ResourceRef -> W -> Prop :=
| lists_last cur w page w' :
    src_list conn cur w = (Ok page, w') -> truthy_str (page_cursor page) = false -> lists conn cur w (page_resources page) w'
| lists_more cur w page w1 refs w' :
    src_list conn cur w = (Ok page, w1) -> truthy_str (page_cursor page) = true -> lists conn (page_cursor page) w1 refs w' ->
    lists conn cur w (page_resources page ++ refs) w'.

(** Each resource in turn, read as a document. *)
Inductive reads (conn : string) : W -> list string -> list Document -> W -> Prop :=
| reads_nil w : reads conn w [] [] w
| reads_cons w id doc w1 ids docs w' :
    src_fetch conn id w = (Ok doc, w1) -> reads conn w1 ids docs w' -> reads conn w (id :: ids) (doc :: docs) w'.

Lemma walk_loop_lists conn limit pages refs cur w out w' :
  walk_loop unfinished conn limit pages refs cur w = (Ok out, w') -> exists new, out = refs ++ new /\ lists conn cur w new w'.
Proof.
  revert refs cur w. induction pages as [|pages IH]; intros refs cur w; [done|]. cbn [walk_loop].
  intros (page & w1 & Hl & Hr)%sbind_Ok. cbv zeta in Hr. destruct (truthy_str (page_cursor page)) eqn:Ec.
  - apply IH in Hr as (new & -> & Hn). exists (page_resources page ++ new). rewrite app_assoc. split; [done|]. by eapply lists_more.
  - injection Hr as <- <-. exists (page_resources page). split; [done|]. by apply lists_last.
Qed.

(** The chunks of the documents of a target. *)
Definition chunks_of (target : SyncTarget) (docs : list Document) : list Chunk :=
  docs ≫= (fun doc => chunkDocument sha256_hex (target_connection target) (target_label target) doc (target_chunking target)).

Lemma gather_reads target ids g w g' w' :
  sfold (gather_step sha256_hex target) g ids w = (Ok g', w') ->
  (exists more, g_failed g' = g_failed g ++ more) /\
  (g_failed g' = [] -> exists docs, reads (target_connection target) w ids docs w' /\ g_chunks g' = g_chunks g ++ chunks_of target docs).
Proof.
  revert g w. induction ids as [|id ids IH]; intros g w Hf; cbn [sfold] in Hf.
  { injection Hf as <- <-. split; [exists []; by rewrite app_nil_r|]. intros _. exists []. split; [constructor|]. by rewrite app_nil_r. }
  apply sbind_Ok in Hf as (g1 & w1 & Hs & Hf). destruct (IH _ _ Hf) as [(more & Hmore) Hreads].
  unfold gather_step, scatch, sbind, sret in Hs. destruct (src_fetch _ id w) as [[doc|e] w2] eqn:Ed; injection Hs as <- <-.
  - cbn [g_failed g_chunks] in *. split; [by exists more|]. intros Hnone. destruct (Hreads Hnone) as (docs & Hr & Hc). exists (doc :: docs).
    split; [by eapply reads_cons|]. rewrite Hc, <- app_assoc. done.
  - cbn [g_failed] in Hmore. split; [exists (id :: more); by rewrite Hmore, <- app_assoc|]. intros Hnone.
    rewrite Hnone, <- app_assoc in Hmore. by destruct (g_failed g).
Qed.

Lemma full_gather target options w g w' :
  onlySourceIds options = None -> gather sha256_hex unfinished target options w = (Ok g, w') -> g_failed g = [] ->
  exists refs w1 docs, lists (target_connection target) None w refs w1 /\
    reads (target_connection target) w1 (ref_id <$> refs) docs w' /\ g_chunks g = chunks_of target docs.
Proof.
  intros Ho Hg Hf. unfold gather in Hg. rewrite Ho in Hg. apply sbind_Ok in Hg as (ids & w1 & Hw & Hg).
  apply sbind_Ok in Hw as (refs & w2 & Hw & [= <- <-]). apply walk_loop_lists in Hw as (new & -> & Hl).
  apply gather_reads in Hg as [_ Hg]. destruct (Hg Hf) as (docs & Hr & Hc). by exists new, w2, docs.
Qed.

(** C29: a full pass converges, over a writer that keeps its contract.  If a
    pass reports that it was full, then it listed the source to its last page, read each resource of every page as a
    document, and the index holds exactly the hashes of the chunks of those
    documents. *)
Theorem sync_full_converges (target : SyncTarget) (options : SyncOptions) (w w' : W) (rep : SyncReport) :
  syncConnection sha256_hex unfinished target options w = (Ok rep, w') -> report_full rep = true ->
  onlySourceIds options = None /\ report_failed rep = [] /\
  exists refs w1 docs w2,
    lists (target_connection target) None w refs w1 /\ reads (target_connection target) w1 (ref_id <$> refs) docs w2 /\
    forall h, is_Some (contents (target_collection target) w' !! h) <-> h ∈ chunk_hashes (chunks_of target docs).
Proof.
  set (coll := target_collection target).
  intros (g & w1 & Hg & Hc)%sbind_Ok Hfull.
  apply sbind_Ok in Hc as (l & w2 & Hl & Hc). cbv zeta in Hc.
  apply sbind_Ok in Hc as ([] & w3 & Hup & Hc). apply sbind_Ok in Hc as ([] & w4 & Hrem & Hc).
  injection Hc as <- <-. unfold pass_scope in *.
  destruct (is_full options && bool_decide (g_failed g = [])) eqn:Hscope; [|done].
  apply andb_true_iff in Hscope as [Hf Hfail%bool_decide_eq_true].
  assert (Ho : onlySourceIds options = None) by (by unfold is_full in Hf; destruct (onlySourceIds options)).
  split; [done|]. split; [done|].
  destruct (full_gather _ _ _ _ _ Ho Hg Hfail) as (refs & w5 & docs & Hlists & Hreads & Hchunks).
  exists refs, w5, docs, w1. split_and!; [done|done|]. intros h. rewrite <- Hchunks.
  pose proof (indexed_keeps coll coll w1) as Hk. fold coll in Hl, Hup, Hrem. rewrite Hl in Hk. simpl in Hk.
  apply remove_unless_empty_ok in Hrem. apply upsert_unless_empty_ok in Hup.
  rewrite Hrem, Hup, erase_hashes_lookup, Hk.
  destruct (indexed_ok coll w1 l w2 Hl) as [Hnd Hin].
  pose proof (reconcile_plan_spec (g_chunks g) l Full) as (Hu & _ & _ & _ & Hr).
  assert (forall h, is_Some (contents coll w1 !! h) <-> h ∈ hashes l) as Hdom.
  { intros h'. unfold hashes. rewrite list_elem_of_fmap. split.
    - intros [s Hs%Hin]. by exists (mkIndexedChunk h' s).
    - intros ([h'' s] & -> & Hs). exists s. by apply Hin. }
  case_decide as Hd.
  - split; [by intros [? ?]|]. intros Hc. apply Hr in Hd as (_ & _ & _ & _ & Hn). done.
  - rewrite write_chunks_dom, Hdom, Hu. split; [|destruct (decide (h ∈ hashes l)); naive_solver].
    intros [Hh|[? _]]; [|done]. destruct (decide (h ∈ chunk_hashes (g_chunks g))) as [|Hn]; [done|].
    destruct Hd. apply Hr. apply list_elem_of_fmap in Hh as (c & -> & Hc). by exists c.
Qed.

(** A driver whose cursor never ends cannot hang the pass: [walk] throws
    after [limit] pages. *)
Theorem walk_gives_up (connection : string) (limit : Z) (w : W) :
  (forall cur w, exists page w', src_list connection cur w = (Ok page, w') /\ truthy_str (page_cursor page) = true) ->
  (walk unfinished connection limit w).1 = Err (unfinished connection limit).
Proof.
  intros Hsrc. unfold walk. generalize (Z.to_nat limit), ([] : list ResourceRef), (None : Cursor). intros n.
  revert w. induction n as [|n IH]; intros w refs cur; simpl; [done|].
  unfold sbind. destruct (Hsrc cur w) as (page & w' & -> & Hc). cbv zeta. rewrite Hc. apply IH.
Qed.
End properties.

Section witnesses.
Import MemWorld.

(** One readable and one unreadable document, both indexed before. *)
Definition demo_world : world :=
  mkWorld [("d1", Some (doc "d1" "one")); ("d2", None)]
          {[ "coll" := {[ "h1" := "d1"; "h2" := "d2" ]} ]}.
Definition demo_target : SyncTarget := mkSyncTarget "conn" "conn" "coll" (mkChunkOptions None None).
Definition demo_options : SyncOptions := mkSyncOptions None None.
Definition demo_hash (s : string) : string := s.
Definition demo_unfinished (c : string) (n : Z) : string := "unfinished".

Lemma sync_keeps_unfetched_witness :
  contents "coll" (syncConnection demo_hash demo_unfinished demo_target demo_options demo_world).2 !! "h2"
  = Some "d2".
Proof.
  apply (sync_keeps_unfetched demo_hash demo_unfinished demo_target demo_options demo_world);
    [reflexivity | vm_compute]. split; [done|].
  intros Hd. inversion Hd as [|? ? ? Hd']; inversion Hd'.
Defined.

Definition demo_world_ok : world :=
  mkWorld [("d1", Some (doc "d1" "one"))] {[ "coll" := {[ "h1" := "d1" ]} ]}.

Lemma sync_full_converges_witness :
  exists rep w', syncConnection demo_hash demo_unfinished demo_target demo_options demo_world_ok = (Ok rep, w')
    /\ report_failed rep = [] /\
    exists refs w1 docs w2, lists "conn" None demo_world_ok refs w1 /\ reads "conn" w1 (ref_id <$> refs) docs w2.
Proof.
  destruct (syncConnection demo_hash demo_unfinished demo_target demo_options demo_world_ok) as [[rep|e] w'] eqn:Hs.
  - exists rep, w'. split; [done|].
    destruct (sync_full_converges demo_hash demo_unfinished demo_target demo_options demo_world_ok w' rep Hs)
      as (_ & Hf & refs & w1 & docs & w2 & Hl & Hr & _).
    + vm_compute in Hs. injection Hs as <- _. reflexivity.
    + split; [exact Hf|]. by exists refs, w1, docs, w2.
  - vm_compute in Hs. discriminate Hs.
Defined.

#[local] Instance endless_source : ResourceSource unit string := {
  src_list conn cur := fun w => (Ok (mkListPage [] (Some "next")), w);
  src_fetch conn id := fun w => (Err "none", w)
}.

Lemma walk_gives_up_witness : (walk demo_unfinished "conn" 3 tt).1 = Err "unfinished".
Proof.
  apply (walk_gives_up demo_unfinished "conn" 3 tt). intros cur w. by exists (mkListPage [] (Some "next")), w.
Defined.
End witnesses.
