(* ===== verification/Scheduler.v ===== *)
(** * Connection broker: the sync scheduler (apps/connection-broker/src/sync/scheduler.ts)

    [SyncScheduler] as a step relation.  The state holds the fields of the
    class, the timeouts armed in the event loop and the [runOnce] calls that
    await their pass.  A pass itself ([Worker.syncConnection]) is what happens
    between a call's [Begin] and its end; its result does not change what the
    scheduler does next, since success, a throw and a thrown [onReport] all
    reach the [finally]. *)

From stdpp Require Import base gmap strings list sorting.
From Stdlib Require Import ZArith Lia.
From S2P Require Import Prelude JsString.

(** ** Data *)

(** One entry of [options.targets()], by the fields the scheduler reads. *)
Record Target := mkTarget {
  tg_name : string;
  tg_intervalMs : Z
}.

(** A timeout armed by [setTimeout]: its handle, its corpus and its delay. *)
Record Timeout := mkTimeout {
  to_handle : nat;
  to_corpus : string;
  to_delay : Z
}.

(** A [runOnce] call in flight: whether it holds the running mark (it passed
    the guards) and whether a timer made it, so that [schedule] follows it. *)
Record Call := mkCall {
  call_corpus : string;
  call_holds : bool;
  call_timer : bool
}.

Record SchedulerState := mkState {
  timers : gmap string nat;
  running : gset string;
  stopped : bool;
  armed : list Timeout;
  inflight : list Call;
  next_handle : nat;
  targets : list Target
}.

#[export] Instance Timeout_eq_dec : EqDecision Timeout.
Proof. solve_decision. Defined.
#[export] Instance Call_eq_dec : EqDecision Call.
Proof. solve_decision. Defined.

(** ** Operations *)

Definition init (ts : list Target) : SchedulerState := mkState ∅ ∅ false [] [] 0 ts.

Fixpoint find_target (corpus : string) (ts : list Target) : option Target :=
  match ts with
  | [] => None
  | t :: ts' => if decide (tg_name t = corpus) then Some t else find_target corpus ts'
  end.

Definition schedule (corpus : string) (delayMs : Z) (s : SchedulerState) : SchedulerState :=
  if stopped s then s
  else
    let h := next_handle s in
    mkState (<[corpus := h]> (timers s)) (running s) (stopped s)
      (armed s ++ [mkTimeout h corpus delayMs]) (inflight s) (S h) (targets s).

Definition start (s : SchedulerState) : SchedulerState :=
  let s := mkState (timers s) (running s) false (armed s) (inflight s) (next_handle s) (targets s) in
  foldl (fun s t => schedule (tg_name t) 0 s) s (targets s).

(** [clearTimeout] on every handle of the map, then [clear]. *)
Definition stop (s : SchedulerState) : SchedulerState :=
  mkState ∅ (running s) true
    (filter (fun t => to_handle t ∉ (map_to_list (timers s)).*2) (armed s))
    (inflight s) (next_handle s) (targets s).

(** The synchronous part of [runOnce]: the guards, then the running mark. *)
Definition runOnce_begin (corpus : string) (by_timer : bool) (s : SchedulerState) : SchedulerState :=
  let holds := negb (bool_decide (corpus ∈ running s)) &&
               match find_target corpus (targets s) with Some _ => true | None => false end in
  mkState (timers s) (if holds then {[corpus]} ∪ running s else running s) (stopped s) (armed s)
    (inflight s ++ [mkCall corpus holds by_timer]) (next_handle s) (targets s).

(** The end of a call: its [finally] drops the mark it holds, and the timer's
    own [finally] re-reads the targets and schedules the next pass. *)
Definition runOnce_end (before after : list Call) (c : Call) (s : SchedulerState) : SchedulerState :=
  let s := mkState (timers s) (if call_holds c then running s ∖ {[call_corpus c]} else running s)
             (stopped s) (armed s) (before ++ after) (next_handle s) (targets s) in
  if call_timer c then
    match find_target (call_corpus c) (targets s) with
    | Some t => schedule (call_corpus c) (tg_intervalMs t) s
    | None => s
    end
  else s.

Definition fire (before after : list Timeout) (t : Timeout) (s : SchedulerState) : SchedulerState :=
  runOnce_begin (to_corpus t) true
    (mkState (timers s) (running s) (stopped s) (before ++ after) (inflight s) (next_handle s) (targets s)).

Definition onWebhook (corpus : string) (s : SchedulerState) : SchedulerState := runOnce_begin corpus false s.

Definition set_targets (ts : list Target) (s : SchedulerState) : SchedulerState :=
  mkState (timers s) (running s) (stopped s) (armed s) (inflight s) (next_handle s) ts.

(** ** Steps *)

(** The event loop: a timeout fires, a call ends, a webhook or a manual run
    arrives, the corpora change, the process stops the scheduler.  [start] is
    not a step: see [restart_step]. *)
Inductive step : SchedulerState -> SchedulerState -> Prop :=
| step_fire s before after t :
    armed s = before ++ t :: after -> step s (fire before after t s)
| step_end s before after c :
    inflight s = before ++ c :: after -> step s (runOnce_end before after c s)
| step_webhook s corpus : step s (onWebhook corpus s)
| step_targets s ts : step s (set_targets ts s)
| step_stop s : step s (stop s).

(** The steps with restarts. *)
Inductive restart_step : SchedulerState -> SchedulerState -> Prop :=
| restart_other s s' : step s s' -> restart_step s s'
| restart_start s : restart_step s (start s).

(** ** Invariants *)

Definition holders (corpus : string) (s : SchedulerState) : nat :=
  length (filter (fun c => call_holds c = true /\ call_corpus c = corpus) (inflight s)).

(** The running marks are the calls that hold one, one call per mark. *)
Definition exclusive (s : SchedulerState) : Prop :=
  forall corpus, holders corpus s = if decide (corpus ∈ running s) then 1 else 0.

(** The places from which a timer of [corpus] is or will be armed. *)
Definition chains (corpus : string) (s : SchedulerState) : nat :=
  length (filter (fun t => to_corpus t = corpus) (armed s)) +
  length (filter (fun c => call_timer c = true /\ call_corpus c = corpus) (inflight s)).

(** Every armed timeout is the one the map knows for its corpus. *)
Definition tracked (s : SchedulerState) : Prop :=
  forall t, t ∈ armed s -> timers s !! to_corpus t = Some (to_handle t).

Definition single_chain (s : SchedulerState) : Prop :=
  (forall corpus, chains corpus s <= 1) /\ tracked s.

Definition quiet (s : SchedulerState) : Prop := stopped s = true /\ armed s = [].

(** ** Lemmas *)

Lemma length_filter_middle {A : Type} (P : A -> Prop) `{!forall x, Decision (P x)} l1 x l2 :
  length (filter P (l1 ++ x :: l2)) = (if decide (P x) then 1 else 0) + length (filter P (l1 ++ l2)).
Proof.
  rewrite !filter_app, filter_cons, !length_app. destruct (decide (P x)); simpl; lia.
Qed.

Lemma length_filter_snoc {A : Type} (P : A -> Prop) `{!forall x, Decision (P x)} l x :
  length (filter P (l ++ [x])) = length (filter P l) + (if decide (P x) then 1 else 0).
Proof.
  rewrite filter_app, filter_cons, filter_nil, length_app. by destruct (decide (P x)).
Qed.

Lemma schedule_holders corpus c d s : holders corpus (schedule c d s) = holders corpus s.
Proof. unfold schedule. by destruct (stopped s). Qed.

Lemma schedule_running c d s : running (schedule c d s) = running s.
Proof. unfold schedule. by destruct (stopped s). Qed.

Lemma schedule_exclusive c d s : exclusive s -> exclusive (schedule c d s).
Proof. intros H corpus. rewrite schedule_holders, schedule_running. apply H. Qed.

Lemma runOnce_begin_exclusive c b s : exclusive s -> exclusive (runOnce_begin c b s).
Proof.
  intros H corpus. unfold holders, runOnce_begin. simpl. rewrite length_filter_snoc.
  fold (holders corpus s). rewrite H. simpl.
  destruct (bool_decide (c ∈ running s)) eqn:Hr; simpl; to_prop.
  - repeat case_decide; first [lia | naive_solver].
  - destruct (find_target c (targets s)); simpl; repeat case_decide; first [lia | set_solver | naive_solver].
Qed.

Lemma runOnce_end_exclusive before after c s :
  inflight s = before ++ c :: after -> exclusive s -> exclusive (runOnce_end before after c s).
Proof.
  intros Hin H.
  assert (exclusive (mkState (timers s) (if call_holds c then running s ∖ {[call_corpus c]} else running s)
             (stopped s) (armed s) (before ++ after) (next_handle s) (targets s))) as H'.
  { intros corpus. specialize (H corpus). unfold holders in *. simpl. rewrite Hin, length_filter_middle in H.
    destruct (call_holds c) eqn:Hh.
    - repeat case_decide; first [lia | set_solver].
    - repeat case_decide; first [lia | naive_solver]. }
  unfold runOnce_end. simpl. destruct (call_timer c); [|done].
  destruct (find_target _ _); [|done]. by apply schedule_exclusive.
Qed.

Lemma step_exclusive s s' : step s s' -> exclusive s -> exclusive s'.
Proof.
  intros Hs H. destruct Hs; [| by apply runOnce_end_exclusive | by apply runOnce_begin_exclusive | done | done].
  apply runOnce_begin_exclusive. exact H.
Qed.

Lemma start_exclusive s : exclusive s -> exclusive (start s).
Proof.
  intros H. unfold start. apply foldl_inv; [|exact H]. intros; by apply schedule_exclusive.
Qed.

Lemma elem_of_handles (m : gmap string nat) h : h ∈ (map_to_list m).*2 <-> exists c, m !! c = Some h.
Proof.
  rewrite list_elem_of_fmap. setoid_rewrite <- elem_of_map_to_list. split.
  - intros ([c h'] & -> & Hc). by exists c.
  - intros [c Hc]. by exists (c, h).
Qed.

Lemma elem_of_armed_stop s t :
  t ∈ armed (stop s) <-> t ∈ armed s /\ forall c, timers s !! c <> Some (to_handle t).
Proof. unfold stop. simpl. rewrite list_elem_of_filter, elem_of_handles. naive_solver. Qed.

(** *** Chains of timers *)

Lemma schedule_chains corpus c d s :
  chains corpus (schedule c d s) = chains corpus s + (if stopped s then 0 else if decide (c = corpus) then 1 else 0).
Proof.
  unfold schedule, chains. destruct (stopped s); [lia|]. simpl. rewrite length_filter_snoc. simpl. lia.
Qed.

Lemma runOnce_begin_chains corpus c b s :
  chains corpus (runOnce_begin c b s) = chains corpus s + (if decide (b = true /\ c = corpus) then 1 else 0).
Proof. unfold runOnce_begin, chains. simpl. rewrite length_filter_snoc. simpl. lia. Qed.

Lemma fire_chains corpus before after t s :
  armed s = before ++ t :: after -> chains corpus (fire before after t s) = chains corpus s.
Proof.
  intros Ha. unfold fire. rewrite runOnce_begin_chains. unfold chains. simpl. rewrite Ha, length_filter_middle.
  repeat case_decide; first [lia | naive_solver].
Qed.

Lemma runOnce_end_chains corpus before after c s :
  inflight s = before ++ c :: after ->
  chains corpus (runOnce_end before after c s) <= chains corpus s.
Proof.
  intros Hin. destruct c as [cc ch ct]. unfold runOnce_end. simpl.
  assert (chains corpus s = chains corpus (mkState (timers s) (if ch then running s ∖ {[cc]} else running s)
    (stopped s) (armed s) (before ++ after) (next_handle s) (targets s))
    + (if decide (ct = true /\ cc = corpus) then 1 else 0)) as Hc.
  { unfold chains. simpl. rewrite Hin, length_filter_middle. simpl. lia. }
  destruct ct; [destruct (find_target _ _)|]; rewrite ?schedule_chains, Hc; simpl; [|lia|lia].
  destruct (stopped s); [lia|]. repeat case_decide; first [lia | naive_solver].
Qed.

Lemma length_filter_sub {A : Type} (P Q : A -> Prop) `{!forall x, Decision (P x), !forall x, Decision (Q x)} l :
  length (filter P (filter Q l)) <= length (filter P l).
Proof.
  induction l as [|x l IH]; [done|]. rewrite !filter_cons.
  destruct (decide (Q x)), (decide (P x)); rewrite ?filter_cons; repeat case_decide; simpl; try done; lia.
Qed.

(** No step starts a new chain of timers. *)
Lemma step_chains corpus s s' : step s s' -> chains corpus s' <= chains corpus s.
Proof.
  intros Hs. destruct Hs.
  - by rewrite fire_chains.
  - by apply runOnce_end_chains.
  - unfold onWebhook. rewrite runOnce_begin_chains. case_decide; [naive_solver | lia].
  - done.
  - unfold stop, chains. simpl. apply Nat.add_le_mono_r, length_filter_sub.
Qed.

Lemma schedule_tracked c d s :
  (forall t, t ∈ armed s -> to_corpus t <> c) -> tracked s -> tracked (schedule c d s).
Proof.
  intros Hnew Ht. unfold schedule. destruct (stopped s); [done|]. intros t. simpl.
  rewrite elem_of_app, list_elem_of_singleton. intros [Hin| ->].
  - rewrite lookup_insert_ne by (intros ->; by eapply Hnew). by apply Ht.
  - simpl. by rewrite lookup_insert_eq.
Qed.

Lemma chains_no_armed c s t : chains c s = 0 -> t ∈ armed s -> to_corpus t <> c.
Proof.
  unfold chains. intros Hc Ht <-.
  assert (t ∈ filter (fun t' => to_corpus t' = to_corpus t) (armed s)) as Hin by by apply list_elem_of_filter.
  destruct (filter _ (armed s)); [by apply elem_of_nil in Hin | simpl in Hc; lia].
Qed.

Lemma schedule_all ts s :
  stopped s = false -> tracked s -> NoDup (tg_name <$> ts) ->
  (forall c, c ∈ tg_name <$> ts -> chains c s = 0) ->
  let s' := foldl (fun s t => schedule (tg_name t) 0 s) s ts in
  tracked s' /\ forall c, chains c s' = chains c s + (if decide (c ∈ tg_name <$> ts) then 1 else 0).
Proof.
  revert s. induction ts as [|t ts IH]; intros s Hs Htr Hnd Hc; simpl.
  { split; [done|]. intros c. simpl. lia. }
  apply NoDup_cons in Hnd as [Hn Hnd].
  assert (stopped (schedule (tg_name t) 0 s) = false) as Hs1 by (unfold schedule; by rewrite Hs).
  assert (forall c, chains c (schedule (tg_name t) 0 s) = chains c s + (if decide (tg_name t = c) then 1 else 0)) as Hch.
  { intros c. by rewrite schedule_chains, Hs. }
  destruct (IH (schedule (tg_name t) 0 s)) as [IH1 IH2]; try done.
  - apply schedule_tracked; [|done]. intros t' Ht'. eapply chains_no_armed; [|done]. apply Hc. by left.
  - intros c Hin. rewrite Hch, decide_False by (intros <-; done). rewrite Hc by by right. done.
  - split; [done|]. intros c. rewrite IH2, Hch. repeat case_decide; first [lia | set_solver].
Qed.

Lemma start_single_chain ts : NoDup (tg_name <$> ts) -> single_chain (start (init ts)).
Proof.
  intros Hnd. unfold start. simpl.
  destruct (schedule_all ts (init ts)) as [Htr Hc]; try done; [by intros t Ht; apply elem_of_nil in Ht|].
  split; [|exact Htr]. intros c. specialize (Hc c). change (chains c (init ts)) with 0 in Hc. unfold init in Hc.
  rewrite Hc. case_decide; simpl; lia.
Qed.

Lemma tracked_sub s s' :
  timers s' = timers s -> (forall t, t ∈ armed s' -> t ∈ armed s) -> tracked s -> tracked s'.
Proof. intros Ht Ha H t Hin. rewrite Ht. by apply H, Ha. Qed.

Lemma step_single_chain s s' : step s s' -> single_chain s -> single_chain s'.
Proof.
  intros Hs [Hc Htr]. split; [intros c; etransitivity; [by eapply step_chains | apply Hc]|].
  destruct Hs as [s before after t Ha|s before after c Hin|s c|s ts|s]; try done.
  - apply (tracked_sub s); [done| |done]. intros t'. simpl. rewrite Ha. set_solver.
  - destruct c as [cc ch ct]. unfold runOnce_end. simpl. destruct ct; [|done].
    destruct (find_target cc (targets s)) as [t|]; [|done]. apply schedule_tracked; [|done].
    simpl. intros t' Ht' <-. specialize (Hc (to_corpus t')). unfold chains in Hc.
    rewrite Hin, length_filter_middle, decide_True in Hc by done.
    apply list_elem_of_split in Ht' as (l1 & l2 & Hl). rewrite Hl, length_filter_middle, decide_True in Hc by done.
    lia.
  - intros t [Ht Hn]%elem_of_armed_stop. destruct (Hn (to_corpus t)). by apply Htr.
Qed.

Lemma step_quiet s s' : step s s' -> quiet s -> quiet s'.
Proof.
  intros Hs [Hst Ha]. destruct Hs as [s before after t Ha'|s before after c Hin|s c|s ts|s]; try done.
  - rewrite Ha in Ha'. by destruct before.
  - unfold quiet, runOnce_end. destruct (call_timer c); [|done].
    destruct (find_target _ _); [|done]. unfold schedule. simpl. by rewrite Hst.
  - split; [done|]. unfold stop. simpl. by rewrite Ha.
Qed.

Lemma rtc_inv {A : Type} (R : A -> A -> Prop) (I : A -> Prop) s s' :
  (forall x y, R x y -> I x -> I y) -> rtc R s s' -> I s -> I s'.
Proof. intros HR. induction 1; eauto. Qed.

(** ** Properties *)

(** C31: passes never overlap for one corpus: in every reachable state, also
    across restarts, at most one call per corpus is inside its pass, and the
    running marks are exactly the corpora of those calls. *)
Theorem passes_never_overlap (ts : list Target) (s : SchedulerState) (corpus : string) :
  rtc restart_step (init ts) s ->
  holders corpus s <= 1 /\ (holders corpus s = 1 <-> corpus ∈ running s).
Proof.
  intros Hr. assert (exclusive s) as H.
  { eapply rtc_inv; [|exact Hr|by intros c].
    intros x y [? ? Hs| ?] Hx; [by eapply step_exclusive | by apply start_exclusive]. }
  rewrite H. case_decide; naive_solver lia.
Qed.

(** [stop] quiesces a scheduler that was started once, over distinct
    corpora: afterwards no timeout is armed, and none ever is again, however
    the calls in flight end. *)
Theorem stop_quiesces (ts : list Target) (s s' : SchedulerState) :
  NoDup (tg_name <$> ts) -> rtc step (start (init ts)) s -> rtc step (stop s) s' ->
  armed (stop s) = [] /\ armed s' = [].
Proof.
  intros Hnd Hr Hr'.
  assert (single_chain s) as [_ Htr] by (eapply rtc_inv; [apply step_single_chain|done|by apply start_single_chain]).
  assert (quiet (stop s)) as Hq.
  { split; [done|]. apply elem_of_nil_inv. intros t [Ht Hn]%elem_of_armed_stop.
    destruct (Hn (to_corpus t)). by apply Htr. }
  split; [apply Hq|]. by destruct (rtc_inv step quiet _ _ step_quiet Hr' Hq).
Qed.

(** A restart can leak a timer: after [start], a pass, [stop], [start]
    again while the pass still runs, and the ends of both calls, [stop] leaves
    a timeout armed that the map no longer knows. *)
Theorem restart_leaks_timer (corpus : string) (intervalMs : Z) :
  exists s, rtc restart_step (init [mkTarget corpus intervalMs]) s /\ stopped s = true /\
            timers s = ∅ /\ exists t, t ∈ armed s /\ to_corpus t = corpus.
Proof.
  set (t0 := mkTarget corpus intervalMs).
  assert (find_target corpus [t0] = Some t0) as Hf by (simpl; by rewrite decide_True).
  set (c1 := mkCall corpus true true). set (c2 := mkCall corpus false true).
  eexists. split; [|split; [|split]].
  - eapply rtc_l; [apply restart_start|].
    eapply rtc_l; [apply restart_other, (step_fire _ [] [] (mkTimeout 0 corpus 0)); reflexivity|].
    eapply rtc_l; [apply restart_other, step_stop|].
    eapply rtc_l; [apply restart_start|].
    eapply rtc_l; [apply restart_other, (step_fire _ [] [] (mkTimeout 1 corpus 0)); reflexivity|].
    eapply rtc_l; [apply restart_other, (step_end _ [c1] [] c2)|].
    { unfold fire, runOnce_begin. simpl. rewrite decide_True by done.
      repeat (case_bool_decide; simpl in *); first [done | set_solver]. }
    eapply rtc_l; [apply restart_other, (step_end _ [] [] c1)|].
    { unfold runOnce_end. simpl. by rewrite decide_True. }
    eapply rtc_l; [apply restart_other, step_stop|]. reflexivity.
  - done.
  - done.
  - exists (mkTimeout 2 corpus intervalMs). split; [|done].
    apply elem_of_armed_stop. unfold runOnce_end. cbn -[find_target t0].
    rewrite !Hf. cbn -[find_target t0]. rewrite !Hf. cbn.
    split; [by left|]. intros c. rewrite !insert_insert_eq.
    intros [[_ ?]|[_ ?]]%lookup_insert_Some; by simplify_map_eq.
Qed.

(** The scheduler only ever runs, on a timer, corpora that existed at
    [start]: for any other corpus no timer is armed or will be, in any state
    reached without a restart, whatever the targets become. *)
Theorem later_corpus_never_scheduled (ts : list Target) (s : SchedulerState) (corpus : string) :
  NoDup (tg_name <$> ts) -> corpus ∉ tg_name <$> ts -> rtc step (start (init ts)) s ->
  chains corpus s = 0 /\ forall t, t ∈ armed s -> to_corpus t <> corpus.
Proof.
  intros Hnd Hc Hr.
  assert (chains corpus s = 0) as H0.
  { assert (chains corpus s <= 0); [|lia].
    eapply (rtc_inv step (fun s => chains corpus s <= 0)); [|exact Hr|].
    - intros x y Hxy Hx. etransitivity; [by eapply step_chains | exact Hx].
    - unfold start. simpl. destruct (schedule_all ts (init ts)) as [_ H]; try done;
        [by intros t Ht; apply elem_of_nil in Ht|].
      specialize (H corpus). unfold init in H. rewrite H. by rewrite decide_False. }
  split; [done|]. intros t. by apply chains_no_armed.
Qed.

Section witnesses.
Definition demo_targets : list Target := [mkTarget "docs" 60000%Z].

Lemma passes_never_overlap_witness :
  let s := onWebhook "docs" (start (init demo_targets)) in
  rtc restart_step (init demo_targets) s /\ holders "docs" s <= 1.
Proof.
  assert (rtc restart_step (init demo_targets) (onWebhook "docs" (start (init demo_targets)))) as Hr.
  { eapply rtc_l; [apply restart_start|]. eapply rtc_l; [apply restart_other, step_webhook|]. reflexivity. }
  split; [exact Hr|]. exact (proj1 (passes_never_overlap demo_targets _ "docs" Hr)).
Defined.

Lemma demo_nodup : NoDup (tg_name <$> demo_targets).
Proof. apply NoDup_singleton. Qed.

Lemma stop_quiesces_witness :
  armed (start (init demo_targets)) <> [] /\ armed (stop (start (init demo_targets))) = [].
Proof.
  split; [by vm_compute|].
  exact (proj1 (stop_quiesces demo_targets _ _ demo_nodup (rtc_refl _ _) (rtc_refl _ _))).
Defined.

Lemma later_corpus_never_scheduled_witness :
  chains "new" (set_targets [mkTarget "new" 1000%Z] (start (init demo_targets))) = 0.
Proof.
  apply (later_corpus_never_scheduled demo_targets _ "new" demo_nodup).
  - intros Hin. apply list_elem_of_singleton in Hin. discriminate Hin.
  - eapply rtc_l; [apply step_targets|reflexivity].
Defined.
End witnesses.
