(* ===== verification/CommandLine.v ===== *)
(** * Tools: command lines

    [tokenize], which tools/ssh, tools/kubectl-readonly and tools/github each
    define in their allowlist.ts with the same body. *)

From stdpp Require Import base gmap strings list sorting.
From Stdlib Require Import ZArith Lia Ascii.
From S2P Require Import Prelude JsString.

(** The text between a quote and the next one, and what follows it. *)
Fixpoint until_quote (q : ascii) (s : string) : option (string * string) :=
  match s with
  | EmptyString => None
  | String c s' =>
      if Ascii.eqb c q then Some (EmptyString, s')
      else match until_quote q s' with
           | Some (t, rest) => Some (String c t, rest)
           | None => None
           end
  end.

Definition squote : ascii := "039"%char.
Definition is_quote (c : ascii) : bool := Ascii.eqb c dquote || Ascii.eqb c squote.
Definition not_space (c : ascii) : bool := negb (is_ws c).

(** What the regular expression matches at a position that holds [c]: a
    quoted span, else a run of non-space characters. *)
Definition match_token (c : ascii) (s' : string) : string * string :=
  let run := (take_while not_space (String c s'), drop_while not_space (String c s')) in
  if is_quote c then match until_quote c s' with Some p => p | None => run end else run.

Fixpoint tokenize_fuel (fuel : nat) (s : string) : list string :=
  match fuel, s with
  | S fuel', String c s' =>
      if is_ws c then tokenize_fuel fuel' s'
      else let '(t, rest) := match_token c s' in t :: tokenize_fuel fuel' rest
  | _, _ => []
  end.

(** Every match consumes at least one character, so the length is fuel enough
    (see [tokenize_fuel_enough]). *)
Definition tokenize (commandLine : string) : list string := tokenize_fuel (slen commandLine) commandLine.

(** ** Lemmas *)

Lemma until_quote_length q s t rest : until_quote q s = Some (t, rest) -> slen rest < slen s.
Proof.
  revert t. induction s as [|c s IH]; intros t; simpl; [done|].
  destruct (Ascii.eqb c q); [intros [= <- <-]; lia|].
  destruct (until_quote q s) as [[t' r']|]; [|done]. intros [= <- <-]. specialize (IH _ eq_refl). lia.
Qed.

Lemma match_token_length c s t rest : is_ws c = false -> match_token c s = (t, rest) -> slen rest <= slen s.
Proof.
  intros Hc. unfold match_token.
  assert (slen (drop_while not_space (String c s)) <= slen s) as Hrun.
  { simpl. unfold not_space at 1. rewrite Hc. apply slen_drop_while. }
  destruct (is_quote c); [|by intros [= _ <-]].
  destruct (until_quote c s) as [[t' r']|] eqn:E; intros [= <- <-]; [|done].
  apply until_quote_length in E. lia.
Qed.

Lemma tokenize_fuel_enough fuel fuel' s :
  slen s <= fuel -> fuel <= fuel' -> tokenize_fuel fuel s = tokenize_fuel fuel' s.
Proof.
  revert fuel' s. induction fuel as [|fuel IH]; intros fuel' s Hs Hf.
  { destruct s; [by destruct fuel'|simpl in Hs; lia]. }
  destruct fuel' as [|fuel']; [lia|]. destruct s as [|c s]; [done|]. simpl in *.
  destruct (is_ws c) eqn:Hc; [apply IH; lia|].
  destruct (match_token c s) as [t rest] eqn:E. apply match_token_length in E; [|done].
  f_equal. apply IH; lia.
Qed.

Lemma tokenize_cons_space c s : is_ws c = true -> tokenize (String c s) = tokenize s.
Proof. intros Hc. unfold tokenize. simpl. by rewrite Hc. Qed.

Lemma take_while_app_stop p s c t :
  str_forall p s = true -> p c = false ->
  take_while p (s +:+ String c t) = s /\ drop_while p (s +:+ String c t) = String c t.
Proof.
  intros Hs Hc. induction s as [|d s IH]; simpl; [by rewrite Hc|]. simpl in Hs.
  apply andb_true_iff in Hs as [Hd Hs]. rewrite Hd. destruct (IH Hs) as [-> ->]. done.
Qed.

Lemma take_while_all p s : str_forall p s = true -> take_while p s = s /\ drop_while p s = EmptyString.
Proof.
  induction s as [|d s IH]; simpl; [done|]. intros [Hd Hs]%andb_true_iff. rewrite Hd.
  destruct (IH Hs) as [-> ->]. done.
Qed.

(** A token that needs no quotes. *)
Definition plain (t : string) : bool :=
  match t with
  | EmptyString => false
  | String c _ => negb (is_quote c) && str_forall not_space t
  end.

Lemma tokenize_plain_cons t rest :
  plain t = true -> tokenize (t +:+ String " "%char rest) = t :: tokenize rest.
Proof.
  destruct t as [|c t]; [done|]. intros Hp. simpl in Hp. apply andb_true_iff in Hp as [Hq Hs].
  apply andb_true_iff in Hs as [Hc Ht]. unfold tokenize. simpl.
  unfold not_space in Hc. apply negb_true_iff in Hc, Hq. rewrite Hc. unfold match_token. rewrite Hq.
  change (String c (t +:+ String " " rest)) with (String c t +:+ String " "%char rest).
  destruct (take_while_app_stop not_space (String c t) " "%char rest) as [-> ->]; [|done|].
  { simpl. unfold not_space at 1. by rewrite Hc. }
  f_equal. rewrite slen_app. simpl. rewrite Nat.add_succ_r. simpl.
  symmetry. apply tokenize_fuel_enough; lia.
Qed.

Lemma tokenize_plain_last t : plain t = true -> tokenize t = [t].
Proof.
  destruct t as [|c t]; [done|]. intros Hp. simpl in Hp. apply andb_true_iff in Hp as [Hq Hs].
  apply andb_true_iff in Hs as [Hc Ht]. unfold tokenize. simpl.
  unfold not_space in Hc. apply negb_true_iff in Hc, Hq. rewrite Hc. unfold match_token. rewrite Hq.
  destruct (take_while_all not_space (String c t)) as [-> ->].
  { simpl. unfold not_space at 1. by rewrite Hc. }
  by destruct (slen t).
Qed.

(** ** Properties *)

(** Joining plain tokens with spaces and tokenizing gives the tokens back,
    so an accepted argument vector is the one the caller's line spells. *)
Theorem tokenize_join (tokens : list string) :
  Forall (fun t => plain t = true) tokens -> tokenize (join " " tokens) = tokens.
Proof.
  induction 1 as [|t tokens Ht Hts IH]; [done|].
  destruct tokens as [|t' tokens]; [by apply tokenize_plain_last|].
  rewrite join_cons by done. change (" " +:+ join " " (t' :: tokens)) with (String " "%char (join " " (t' :: tokens))).
  by rewrite tokenize_plain_cons, IH.
Qed.

Lemma tokenize_join_witness : tokenize (join " " ["get"; "pods"; "-n"; "kube-system"]) = ["get"; "pods"; "-n"; "kube-system"].
Proof. apply tokenize_join. repeat constructor. Defined.
