(* ===== verification/SshTool.v ===== *)
(** * Tools: ssh (tools/ssh/src/allowlist.ts)

    The validation of a caller-supplied remote command, whose argument vector
    the ssh client joins with spaces and hands to the remote login shell. *)

From stdpp Require Import base gmap strings list sorting.
From Stdlib Require Import ZArith Lia Ascii.
From S2P Require Import Prelude JsString CommandLine.

(** ** Data *)

(** [BlockedCommandError], one constructor per [throw] with the values its
    message shows, and the [TypeError] of calling a method that the looked-up
    value does not have. *)
Inductive ssh_error :=
| NoCommand
| CommandNotAllowed (command : string)
| SubcommandNotAllowed (command : string) (subcommand : option string)
| IpNotAllowed (rest : list string)
| IpActionNotAllowed (object action : string)
| FindNotAllowed (token : string)
| UnsafeToken (token : string)
| NotACallable (command : string).

#[export] Instance ssh_error_eq_dec : EqDecision ssh_error.
Proof. solve_decision. Defined.

(** [ReadonlySet<string> | "*"] *)
Inductive AllowedCommands :=
| WideOpen
| Only (commands : list string).

Definition DEFAULT_ALLOWED_COMMANDS : list string :=
  ["uptime"; "uname"; "hostname"; "whoami"; "id"; "date"; "df"; "du"; "free"; "ps"; "top"; "who"; "w";
   "ss"; "netstat"; "ip"; "systemctl"; "journalctl"; "docker"; "cat"; "head"; "tail"; "ls"; "grep"; "find"].

Definition READONLY_SUBCOMMANDS : list (string * list string) :=
  [("systemctl", ["status"; "list-units"; "list-unit-files"; "is-active"; "is-enabled"; "show"]);
   ("docker", ["ps"; "logs"; "inspect"; "images"; "stats"; "top"; "version"; "info"])].

Definition IP_READONLY_OBJECTS : list string :=
  ["addr"; "address"; "route"; "link"; "neigh"; "neighbour"; "rule"; "tunnel"; "maddr"; "mroute"; "netns"].
Definition IP_READONLY_ACTIONS : list string := ["show"; "list"; "get"].

Definition FIND_DANGEROUS_PRIMARIES : list string :=
  ["-delete"; "-exec"; "-execdir"; "-ok"; "-okdir"; "-fprint"; "-fprintf"; "-fls"].

(** ** Operations *)

(** [while (i < rest.length && rest[i]?.startsWith("-")) i++], on what is left. *)
Fixpoint skip_flags (rest : list string) : list string :=
  match rest with
  | t :: rest' => if startsWith "-" t then skip_flags rest' else rest
  | [] => []
  end.

Definition validateIp (rest : list string) : result ssh_error unit :=
  match skip_flags rest with
  | object :: after =>
      if negb (str_empty object) && has IP_READONLY_OBJECTS object then
        match skip_flags after with
        | action :: _ =>
            if has IP_READONLY_ACTIONS action then Ok tt else Err (IpActionNotAllowed object action)
        | [] => Ok tt
        end
      else Err (IpNotAllowed rest)
  | [] => Err (IpNotAllowed rest)
  end.

Fixpoint validateFind (rest : list string) : result ssh_error unit :=
  match rest with
  | [] => Ok tt
  | token :: rest' => if has FIND_DANGEROUS_PRIMARIES token then Err (FindNotAllowed token) else validateFind rest'
  end.

(** [/^[A-Za-z0-9._\-/:=@,]+$/] *)
Definition safe_char (c : ascii) : bool := is_alnum c || char_in "._-/:=@," c.
Definition SAFE_TOKEN (t : string) : bool := negb (str_empty t) && str_forall safe_char t.

Fixpoint check_tokens (tokens : list string) : result ssh_error unit :=
  match tokens with
  | [] => Ok tt
  | token :: tokens' => if SAFE_TOKEN token then check_tokens tokens' else Err (UnsafeToken token)
  end.

Definition check_subcommand (command : string) (rest : list string) : result ssh_error unit :=
  match obj_get command READONLY_SUBCOMMANDS with
  | Own subcommands =>
      match rest with
      | subcommand :: _ =>
          if negb (str_empty subcommand) && has subcommands subcommand then Ok tt
          else Err (SubcommandNotAllowed command (Some subcommand))
      | [] => Err (SubcommandNotAllowed command None)
      end
  | Inherited => Err (NotACallable command)
  | Absent => Ok tt
  end.

Definition check_policy (command : string) (rest : list string) (allowed : AllowedCommands)
    : result ssh_error unit :=
  match allowed with
  | WideOpen => Ok tt
  | Only commands =>
      if has commands command then
        let? _ := check_subcommand command rest in
        let? _ := (if decide (command = "ip") then validateIp rest else Ok tt) in
        if decide (command = "find") then validateFind rest else Ok tt
      else Err (CommandNotAllowed command)
  end.

Definition validateCommand (tokens : list string) (allowed : AllowedCommands) : result ssh_error (list string) :=
  match tokens with
  | [] => Err NoCommand
  | command :: rest =>
      if str_empty command then Err NoCommand
      else
        let? _ := check_policy command rest allowed in
        let? _ := check_tokens tokens in
        Ok tokens
  end.

(** ** The policy it enforces *)

Definition ip_allowed (rest : list string) : Prop :=
  exists object after, skip_flags rest = object :: after /\ object ∈ IP_READONLY_OBJECTS /\
    match skip_flags after with
    | action :: _ => action ∈ IP_READONLY_ACTIONS
    | [] => True
    end.

Definition command_allowed (command : string) (rest : list string) (allowed : AllowedCommands) : Prop :=
  match allowed with
  | WideOpen => True
  | Only commands =>
      command ∈ commands /\
      match obj_get command READONLY_SUBCOMMANDS with
      | Own subcommands => exists sub rest', rest = sub :: rest' /\ sub ∈ subcommands
      | Inherited => False
      | Absent => True
      end /\
      (command = "ip" -> ip_allowed rest) /\
      (command = "find" -> forall t, t ∈ rest -> t ∉ FIND_DANGEROUS_PRIMARIES)
  end.

(** The characters a POSIX shell treats specially in an unquoted word. *)
Definition shell_special (c : ascii) : bool :=
  is_ws c || char_in "|&;<>()$`\*?[]#~%!{}^+" c || Ascii.eqb c dquote || Ascii.eqb c squote.

(** How a shell splits a line into words: at its white space, where nothing
    else in it is special; [None] for a line that asks the shell for more. *)
Definition flush (word : string) : list string := if str_empty word then [] else [word].

Fixpoint words_from (word line : string) : list string :=
  match line with
  | EmptyString => flush word
  | String c line' => if is_ws c then flush word ++ words_from EmptyString line' else words_from (word +:+ String c EmptyString) line'
  end.

Definition shell_words (line : string) : option (list string) :=
  if str_forall (fun c => is_ws c || negb (shell_special c)) line then Some (words_from EmptyString line) else None.

(** ** Lemmas *)

Lemma validateIp_Ok rest u : validateIp rest = Ok u <-> ip_allowed rest.
Proof.
  unfold validateIp, ip_allowed. destruct u. destruct (skip_flags rest) as [|object after].
  { split; [done|]. by intros (? & ? & ? & _). }
  destruct (has IP_READONLY_OBJECTS object) eqn:Ho; rewrite ?andb_false_r.
  - apply has_true in Ho as Ho'.
    assert (str_empty object = false) as ->.
    { destruct object; [|done]. by vm_compute in Ho. }
    simpl. destruct (skip_flags after) as [|action l] eqn:Hs.
    + split; [|done]. intros _. exists object, after. by rewrite Hs.
    + destruct (has IP_READONLY_ACTIONS action) eqn:Ha.
      * split; [|done]. intros _. exists object, after. rewrite Hs. by apply has_true in Ha.
      * split; [done|]. intros (o & a & [= <- <-] & _ & Hact). rewrite Hs in Hact.
        apply has_true in Hact. congruence.
  - split; [done|]. intros (o & a & [= <- <-] & Hin & _). apply has_true in Hin. congruence.
Qed.

Lemma validateFind_Ok rest u :
  validateFind rest = Ok u <-> forall t, t ∈ rest -> t ∉ FIND_DANGEROUS_PRIMARIES.
Proof.
  destruct u. induction rest as [|t rest IH]; simpl; [set_solver|].
  destruct (has FIND_DANGEROUS_PRIMARIES t) eqn:Hd.
  - split; [done|]. intros H. apply has_true in Hd. destruct (H t); [by left|done].
  - rewrite IH. assert (t ∉ FIND_DANGEROUS_PRIMARIES) as Ht.
    { intros Hin. apply has_true in Hin. congruence. }
    split; [|intros H t' Ht'; apply H; by right].
    intros H t' Ht'. apply elem_of_cons in Ht' as [->|Ht']; [done | by apply H].
Qed.

Lemma check_tokens_Ok tokens u :
  check_tokens tokens = Ok u <-> Forall (fun t => SAFE_TOKEN t = true) tokens.
Proof.
  destruct u. induction tokens as [|t tokens IH]; simpl; [split; by intros|].
  rewrite Forall_cons. destruct (SAFE_TOKEN t); naive_solver.
Qed.

Lemma check_subcommand_Ok command rest u :
  check_subcommand command rest = Ok u <->
  match obj_get command READONLY_SUBCOMMANDS with
  | Own subcommands => exists sub rest', rest = sub :: rest' /\ sub ∈ subcommands
  | Inherited => False
  | Absent => True
  end.
Proof.
  destruct u. unfold check_subcommand.
  destruct (obj_get command READONLY_SUBCOMMANDS) as [subs| |] eqn:Hg; [|done|done].
  destruct rest as [|sub rest]; [naive_solver|].
  assert (EmptyString ∉ subs) as Hne.
  { apply obj_get_Own in Hg. unfold READONLY_SUBCOMMANDS, own_get in Hg.
    repeat case_decide; simplify_eq; intros Hin%has_true; by vm_compute in Hin. }
  destruct (has subs sub) eqn:Hs; rewrite ?andb_false_r, ?andb_true_r.
  - apply has_true in Hs. destruct (str_empty sub) eqn:He; simpl; [|naive_solver].
    apply str_empty_true in He as ->. done.
  - split; [done|]. intros (s & r & [= <- <-] & Hin). apply has_true in Hin. congruence.
Qed.

Lemma check_policy_Ok command rest allowed u :
  check_policy command rest allowed = Ok u <-> command_allowed command rest allowed.
Proof.
  destruct u. destruct allowed as [|commands]; simpl; [done|].
  destruct (has commands command) eqn:Hc; [apply has_true in Hc|].
  - rewrite result_bind_Ok. split.
    + intros (v & Hsub%check_subcommand_Ok & (v' & Hip & Hfind)%result_bind_Ok).
      split_and!; [done|done| |].
      * intros ->. simpl in Hip. by apply validateIp_Ok in Hip.
      * intros ->. exact (proj1 (validateFind_Ok _ _) Hfind).
    + intros (_ & Hsub & Hip & Hfind). exists tt. split; [by apply check_subcommand_Ok|].
      apply result_bind_Ok. exists tt. split; case_decide; try done.
      * apply validateIp_Ok. auto.
      * apply validateFind_Ok. auto.
  - split; [done|]. intros [Hin _]. apply has_true in Hin. congruence.
Qed.

(** Checked on all 256 characters. *)
Lemma safe_not_special c : safe_char c = true -> shell_special c = false.
Proof. destruct c as [[] [] [] [] [] [] [] []]; vm_compute; done. Qed.

Lemma safe_not_ws c : safe_char c = true -> is_ws c = false.
Proof. intros H%safe_not_special. unfold shell_special in H. by destruct (is_ws c). Qed.

Lemma SAFE_TOKEN_chars t : SAFE_TOKEN t = true -> str_empty t = false /\ str_forall safe_char t = true.
Proof. unfold SAFE_TOKEN. intros [H1%negb_true_iff H2]%andb_true_iff. done. Qed.

Lemma SAFE_TOKEN_join tokens :
  Forall (fun t => SAFE_TOKEN t = true) tokens ->
  str_forall (fun c => is_ws c || negb (shell_special c)) (join " " tokens) = true.
Proof.
  intros H. induction H as [|t tokens Ht Hts IH]; [done|].
  assert (str_forall (fun c => is_ws c || negb (shell_special c)) t = true) as Ht'.
  { apply SAFE_TOKEN_chars in Ht as [_ Ht]. eapply str_forall_impl; [|exact Ht]. intros c Hc. simpl.
    by rewrite (safe_not_special _ Hc), orb_true_r. }
  destruct tokens as [|t' tokens]; [done|]. rewrite join_cons, !str_forall_app, Ht', IH by done. done.
Qed.

Lemma words_from_safe word t line :
  str_forall safe_char t = true -> words_from word (t +:+ line) = words_from (word +:+ t) line.
Proof.
  revert word. induction t as [|c t IH]; intros word Ht; [by rewrite app_empty_r|].
  cbn [str_forall] in Ht. apply andb_true_iff in Ht as [Hc Ht]. change (String c t +:+ line) with (String c (t +:+ line)).
  cbn [words_from]. rewrite (safe_not_ws c Hc), IH by done. by rewrite app_assoc_s.
Qed.

(** The words of a line of safe tokens are the tokens. *)
Lemma words_from_join tokens :
  Forall (fun t => SAFE_TOKEN t = true) tokens -> words_from EmptyString (join " " tokens) = tokens.
Proof.
  intros H. induction H as [|t tokens [Hne Hsafe]%SAFE_TOKEN_chars Hts IH]; [done|].
  destruct tokens as [|t' tokens].
  - cbn [join]. rewrite <- (app_empty_r t) at 1. rewrite words_from_safe by done. cbn. unfold flush. by rewrite Hne.
  - rewrite join_cons by done. rewrite words_from_safe by done. cbn [words_from String.append]. cbn. unfold flush. rewrite Hne. cbn. by f_equal.
Qed.

Lemma validateCommand_Ok (tokens argv : list string) (allowed : AllowedCommands) :
  validateCommand tokens allowed = Ok argv <->
  argv = tokens /\
  exists command rest, tokens = command :: rest /\ str_empty command = false /\
    command_allowed command rest allowed /\ Forall (fun t => SAFE_TOKEN t = true) tokens.
Proof.
  unfold validateCommand. destruct tokens as [|command rest].
  { split; [done|]. by intros (_ & ? & ? & ? & _). }
  destruct (str_empty command) eqn:He.
  { split; [done|]. intros (_ & c & r & [= <- <-] & He' & _). congruence. }
  rewrite result_bind_Ok. split.
  - intros (u & Hpol%check_policy_Ok & (u' & Htok%check_tokens_Ok & [= <-])%result_bind_Ok).
    split; [done|]. by exists command, rest.
  - intros (-> & c & r & [= <- <-] & _ & Hpol & Htok). exists tt.
    split; [by apply check_policy_Ok|]. apply result_bind_Ok. exists tt. split; [by apply check_tokens_Ok|done].
Qed.

(** ** Properties *)

(** [validateCommand] implements its policy: it accepts a command line
    exactly when it names a command, the command and its arguments are allowed
    in the configured mode, and every token is in the safe character set; and
    what it returns is the line it was given. *)
Theorem ssh_validate_policy (tokens argv : list string) (allowed : AllowedCommands) :
  validateCommand tokens allowed = Ok argv <->
  argv = tokens /\
  exists command rest, tokens = command :: rest /\ str_empty command = false /\
    command_allowed command rest allowed /\ Forall (fun t => SAFE_TOKEN t = true) tokens.
Proof. apply validateCommand_Ok. Qed.

(** C33: no shell injection, in every mode, the wide-open one included: the
    string that the remote shell receives for an accepted command, its tokens
    joined by spaces, holds no shell metacharacter, and the words into which
    the shell splits it are the tokens that were validated: no token is empty
    and none has white space of its own. *)
Theorem ssh_no_shell_injection (tokens argv : list string) (allowed : AllowedCommands) :
  validateCommand tokens allowed = Ok argv -> shell_words (join " " argv) = Some tokens.
Proof.
  intros (-> & c & r & _ & _ & _ & Htok)%validateCommand_Ok. unfold shell_words.
  by rewrite SAFE_TOKEN_join, words_from_join.
Qed.

Lemma ssh_no_shell_injection_witness : shell_words "rm -rf /tmp/x" = Some ["rm"; "-rf"; "/tmp/x"].
Proof. apply (ssh_no_shell_injection ["rm"; "-rf"; "/tmp/x"] ["rm"; "-rf"; "/tmp/x"] WideOpen). reflexivity. Defined.

(** The curated default set is not read-only. It accepts [find -fprint0],
    which writes a file (the list of dangerous primaries leaves it out), and
    commands of the set that change the host: the clock, the host name and the
    journal. *)
Theorem ssh_default_admits_writes :
  Forall (fun tokens => validateCommand tokens (Only DEFAULT_ALLOWED_COMMANDS) = Ok tokens)
    [["find"; "/"; "-fprint0"; "/etc/cron.d/job"];
     ["date"; "--set=2030-01-01"];
     ["hostname"; "renamed"];
     ["journalctl"; "--vacuum-time=1s"]].
Proof. repeat constructor. Qed.
