(* ===== verification/KubectlTool.v ===== *)
(** * Tools: kubectl-readonly (tools/kubectl-readonly/src/allowlist.ts)

    The validation of a caller-supplied kubectl command line. *)

From stdpp Require Import base gmap strings list sorting.
From Stdlib Require Import ZArith Lia Ascii.
From S2P Require Import Prelude JsString CommandLine.

(** ** Data *)

Inductive kubectl_error :=
| NoVerb
| VerbNotAllowed (verb : string)
| FlagNotAllowed (flag : string)
| FlagNeedsValue (flag : string)
| FlagValueNotAllowed (flag value : string)
| FlagTakesNoValue (flag : string)
| KindNotAllowed (kind : string)
| OutputNotAllowed (kind output : string).

#[export] Instance kubectl_error_eq_dec : EqDecision kubectl_error.
Proof. solve_decision. Defined.

Definition ALLOWED_VERBS : list string := ["get"; "describe"; "logs"; "events"; "top"].
Definition VERBS_WITH_RESOURCE_KIND : list string := ["get"; "describe"; "top"].

Definition ALLOWED_RESOURCE_ALIASES : list (string * list string) :=
  [("pods", ["pods"; "pod"; "po"]);
   ("deployments", ["deployments"; "deployment"; "deploy"]);
   ("replicasets", ["replicasets"; "replicaset"; "rs"]);
   ("statefulsets", ["statefulsets"; "statefulset"; "sts"]);
   ("daemonsets", ["daemonsets"; "daemonset"; "ds"]);
   ("services", ["services"; "service"; "svc"]);
   ("endpoints", ["endpoints"; "endpoint"; "ep"]);
   ("events", ["events"; "event"; "ev"]);
   ("nodes", ["nodes"; "node"; "no"]);
   ("namespaces", ["namespaces"; "namespace"; "ns"]);
   ("ingresses", ["ingresses"; "ingress"; "ing"]);
   ("networkpolicies", ["networkpolicies"; "networkpolicy"; "netpol"]);
   ("jobs", ["jobs"; "job"]);
   ("cronjobs", ["cronjobs"; "cronjob"; "cj"]);
   ("configmaps", ["configmaps"; "configmap"; "cm"]);
   ("persistentvolumes", ["persistentvolumes"; "persistentvolume"; "pv"]);
   ("persistentvolumeclaims", ["persistentvolumeclaims"; "persistentvolumeclaim"; "pvc"]);
   ("storageclasses", ["storageclasses"; "storageclass"; "sc"]);
   ("resourcequotas", ["resourcequotas"; "resourcequota"; "quota"]);
   ("limitranges", ["limitranges"; "limitrange"; "limits"]);
   ("poddisruptionbudgets", ["poddisruptionbudgets"; "poddisruptionbudget"; "pdb"]);
   ("horizontalpodautoscalers", ["horizontalpodautoscalers"; "horizontalpodautoscaler"; "hpa"]);
   ("serviceaccounts", ["serviceaccounts"; "serviceaccount"; "sa"]);
   ("secrets", ["secrets"; "secret"])].

Definition ALLOWED_RESOURCE_KINDS : list string := mjoin (snd <$> ALLOWED_RESOURCE_ALIASES).

Definition RESOURCE_OUTPUT_RESTRICTIONS : list (string * list string) := [("secrets", ["json"; "yaml"])].

Record FlagSpec := mkFlagSpec {
  flag_name : string;
  takesValue : bool;
  allowedValues : option (list string)
}.

Definition output_values : option (list string) := Some ["json"; "yaml"; "wide"; "name"].

Definition ALLOWED_FLAGS : list (string * FlagSpec) :=
  [("-n", mkFlagSpec "--namespace" true None);
   ("--namespace", mkFlagSpec "--namespace" true None);
   ("-A", mkFlagSpec "--all-namespaces" false None);
   ("--all-namespaces", mkFlagSpec "--all-namespaces" false None);
   ("-l", mkFlagSpec "--selector" true None);
   ("--selector", mkFlagSpec "--selector" true None);
   ("--field-selector", mkFlagSpec "--field-selector" true None);
   ("-c", mkFlagSpec "--container" true None);
   ("--container", mkFlagSpec "--container" true None);
   ("--tail", mkFlagSpec "--tail" true None);
   ("--previous", mkFlagSpec "--previous" false None);
   ("--since", mkFlagSpec "--since" true None);
   ("--since-time", mkFlagSpec "--since-time" true None);
   ("-o", mkFlagSpec "--output" true output_values);
   ("--output", mkFlagSpec "--output" true output_values);
   ("--sort-by", mkFlagSpec "--sort-by" true None)].

(** ** Operations *)

Definition resourceKindOf (positional : string) : string :=
  toLowerCase (nullish (head (split_char "/"%char positional)) EmptyString).

Fixpoint canonical_in (alias : string) (table : list (string * list string)) : option string :=
  match table with
  | [] => None
  | (canonical, aliases) :: table' => if has aliases alias then Some canonical else canonical_in alias table'
  end.

Definition canonicalKindOf (alias : string) : option string := canonical_in alias ALLOWED_RESOURCE_ALIASES.

(** The variables of the loop of [validateCommand]. *)
Record LoopState := mkLoop {
  argv : list string;
  resourceKindChecked : bool;
  canonicalKind : option string;
  outputValue : option string
}.

Definition push (tokens : list string) (st : LoopState) : LoopState :=
  mkLoop (argv st ++ tokens) (resourceKindChecked st) (canonicalKind st) (outputValue st).

(** [flagName] and the value after the first [=], if there is one. *)
Definition split_flag (token : string) : string * option string :=
  match indexOf "="%char token with
  | None => (token, None)
  | Some i => (str_take i token, Some (str_drop (S i) token))
  end.

(** The end of the value branch: the value is checked and an output remembered. *)
Definition check_value (flagName : string) (spec : FlagSpec) (value : string) (st : LoopState)
    : result kubectl_error LoopState :=
  match allowedValues spec with
  | Some vs =>
      if has vs value
      then Ok (if decide (flag_name spec = "--output")
               then mkLoop (argv st) (resourceKindChecked st) (canonicalKind st) (Some value) else st)
      else Err (FlagValueNotAllowed flagName value)
  | None =>
      Ok (if decide (flag_name spec = "--output")
          then mkLoop (argv st) (resourceKindChecked st) (canonicalKind st) (Some value) else st)
  end.

(** A bare positional: the first one after get/describe/top is the kind. *)
Definition positional_step (token : string) (st : LoopState) : result kubectl_error LoopState :=
  if resourceKindChecked st then Ok (push [token] st)
  else
    let kind := resourceKindOf token in
    if has ALLOWED_RESOURCE_KINDS kind
    then Ok (mkLoop (argv st ++ [token]) true (canonicalKindOf kind) (outputValue st))
    else Err (KindNotAllowed kind).

(** The loop over [rest]; a flag whose value is the next token takes two. A
    flag name starts with a dash, so no inherited property is looked up. *)
Fixpoint validate_loop (rest : list string) (st : LoopState) : result kubectl_error LoopState :=
  match rest with
  | [] => Ok st
  | token :: rest' =>
      if startsWith "-" token then
        let '(flagName, eq_value) := split_flag token in
        match own_get flagName ALLOWED_FLAGS with
        | None => Err (FlagNotAllowed flagName)
        | Some spec =>
            if takesValue spec then
              match eq_value with
              | Some value => let? st' := check_value flagName spec value (push [token] st) in validate_loop rest' st'
              | None =>
                  match rest' with
                  | [] => Err (FlagNeedsValue flagName)
                  | value :: rest'' =>
                      let? st' := check_value flagName spec value (push [token; value] st) in
                      validate_loop rest'' st'
                  end
              end
            else
              match eq_value with
              | Some _ => Err (FlagTakesNoValue flagName)
              | None => validate_loop rest' (push [token] st)
              end
        end
      else let? st' := positional_step token st in validate_loop rest' st'
  end.

(** The check after the loop, for the kind and the output the line settled on. *)
Definition check_output (st : LoopState) : result kubectl_error unit :=
  match canonicalKind st, outputValue st with
  | Some kind, Some output =>
      if negb (str_empty kind) && negb (str_empty output) then
        match own_get kind RESOURCE_OUTPUT_RESTRICTIONS with
        | Some restricted => if has restricted output then Err (OutputNotAllowed kind output) else Ok tt
        | None => Ok tt
        end
      else Ok tt
  | _, _ => Ok tt
  end.

Definition request_timeout : string := "--request-timeout=10s".

Definition validateCommand (tokens : list string) : result kubectl_error (list string) :=
  match tokens with
  | [] => Err NoVerb
  | verb :: rest =>
      if str_empty verb then Err NoVerb
      else if has ALLOWED_VERBS verb then
        let? st := validate_loop rest (mkLoop [verb] (negb (has VERBS_WITH_RESOURCE_KIND verb)) None None) in
        let? _ := check_output st in
        Ok (argv st ++ [request_timeout])
      else Err (VerbNotAllowed verb)
  end.

(** ** The shape of an accepted line *)

(** What the loop makes of the tokens after the verb. *)
Inductive item :=
| Flag (name : string) (value : option string)
| Positional (token : string).

(** [items rest its]: the tokens [rest] read as the items [its]. *)
Inductive items : list string -> list item -> Prop :=
| items_nil : items [] []
| items_switch token spec rest its :
    startsWith "-" token = true -> split_flag token = (token, None) ->
    own_get token ALLOWED_FLAGS = Some spec -> takesValue spec = false ->
    items rest its -> items (token :: rest) (Flag (flag_name spec) None :: its)
| items_equals token name value spec rest its :
    startsWith "-" token = true -> split_flag token = (name, Some value) ->
    own_get name ALLOWED_FLAGS = Some spec -> takesValue spec = true ->
    items rest its -> items (token :: rest) (Flag (flag_name spec) (Some value) :: its)
| items_value token value spec rest its :
    startsWith "-" token = true -> split_flag token = (token, None) ->
    own_get token ALLOWED_FLAGS = Some spec -> takesValue spec = true ->
    items rest its -> items (token :: value :: rest) (Flag (flag_name spec) (Some value) :: its)
| items_positional token rest its :
    startsWith "-" token = false -> items rest its -> items (token :: rest) (Positional token :: its).

Fixpoint first_positional (its : list item) : option string :=
  match its with
  | [] => None
  | Positional t :: _ => Some t
  | Flag _ _ :: its' => first_positional its'
  end.

(** The value of the last [--output] flag, which is the one that counts. *)
Fixpoint last_output (its : list item) (acc : option string) : option string :=
  match its with
  | [] => acc
  | Flag n (Some v) :: its' => last_output its' (if decide (n = "--output") then Some v else acc)
  | _ :: its' => last_output its' acc
  end.

(** ** Lemmas *)

Lemma split_flag_None token name : split_flag token = (name, None) -> name = token.
Proof. unfold split_flag. destruct (indexOf _ token); naive_solver. Qed.

Lemma check_value_Ok name spec value st st' :
  check_value name spec value st = Ok st' ->
  st' = mkLoop (argv st) (resourceKindChecked st) (canonicalKind st)
          (if decide (flag_name spec = "--output") then Some value else outputValue st) /\
  match allowedValues spec with Some vs => value ∈ vs | None => True end.
Proof.
  unfold check_value. destruct (allowedValues spec) as [vs|].
  - destruct (has vs value) eqn:Hv; [|done]. apply has_true in Hv.
    intros [= <-]. split; [|done]. case_decide; [done|by destruct st].
  - intros [= <-]. split; [|done]. case_decide; [done|by destruct st].
Qed.

(** What the loop has established when it returns [st'] from [st]. *)
Definition loop_post (rest : list string) (its : list item) (st st' : LoopState) : Prop :=
  items rest its /\
  argv st' = argv st ++ rest /\
  outputValue st' = last_output its (outputValue st) /\
  if resourceKindChecked st
  then resourceKindChecked st' = true /\ canonicalKind st' = canonicalKind st
  else match first_positional its with
       | Some t => resourceKindOf t ∈ ALLOWED_RESOURCE_KINDS /\ canonicalKind st' = canonicalKindOf (resourceKindOf t)
       | None => canonicalKind st' = canonicalKind st
       end.

Lemma validate_loop_post rest st st' :
  validate_loop rest st = Ok st' -> exists its, loop_post rest its st st'.
Proof.
  remember (length rest) as n eqn:Hn. revert rest st Hn.
  induction (lt_wf n) as [n _ IH]. intros rest st ->.
  destruct rest as [|token rest]; simpl.
  { intros [= <-]. exists []. unfold loop_post. simpl. rewrite app_nil_r. split_and!; try constructor; try done.
    by destruct (resourceKindChecked st). }
  destruct (startsWith "-" token) eqn:Hdash.
  - destruct (split_flag token) as [name ev] eqn:Hsf.
    destruct (own_get name ALLOWED_FLAGS) as [spec|] eqn:Hspec; [|done].
    destruct (takesValue spec) eqn:Htv; destruct ev as [value|]; try done.
    + intros (st1 & Hcv & Hrest)%result_bind_Ok. apply check_value_Ok in Hcv as [-> _].
      apply (IH (length rest)) in Hrest as (its & Hits & Ha & Ho & Hk); [|simpl; lia|done].
      exists (Flag (flag_name spec) (Some value) :: its). unfold loop_post. simpl in *.
      split_and!; [by econstructor| by rewrite Ha, <- app_assoc | done | done].
    + destruct rest as [|value rest]; [done|].
      apply split_flag_None in Hsf as Hname. subst name.
      intros (st1 & Hcv & Hrest)%result_bind_Ok. apply check_value_Ok in Hcv as [-> _].
      apply (IH (length rest)) in Hrest as (its & Hits & Ha & Ho & Hk); [|simpl; lia|done].
      exists (Flag (flag_name spec) (Some value) :: its). unfold loop_post. simpl in *.
      split_and!; [by apply items_value| by rewrite Ha, <- app_assoc | done | done].
    + apply split_flag_None in Hsf as Hname. subst name.
      intros Hrest. apply (IH (length rest)) in Hrest as (its & Hits & Ha & Ho & Hk); [|simpl; lia|done].
      exists (Flag (flag_name spec) None :: its). unfold loop_post. simpl in *.
      split_and!; [by apply items_switch| by rewrite Ha, <- app_assoc | done | done].
  - intros (st1 & Hp & Hrest)%result_bind_Ok. unfold positional_step in Hp.
    apply (IH (length rest)) in Hrest as (its & Hits & Ha & Ho & Hk); [|simpl; lia|done].
    exists (Positional token :: its). unfold loop_post.
    destruct (resourceKindChecked st) eqn:Hc.
    + injection Hp as <-. simpl in *. rewrite Hc in Hk.
      split_and!; [by apply items_positional | by rewrite Ha, <- app_assoc | done | naive_solver | naive_solver].
    + destruct (has ALLOWED_RESOURCE_KINDS (resourceKindOf token)) eqn:Hkind; [|done].
      injection Hp as <-. simpl in *. apply has_true in Hkind.
      split_and!; [by apply items_positional | by rewrite Ha, <- app_assoc | done | done | naive_solver].
Qed.

(** ** Properties *)

(** An accepted kubectl line runs as the caller wrote it, plus the fixed
    request timeout; its verb is allowed, each dashed token is an allowed flag
    in a form that flag has, and after get/describe/top the first positional
    has an allowed kind, for which a final [-o json] or [-o yaml] is refused
    when that kind is a Secret. *)
Theorem kubectl_validate_sound (tokens out : list string) :
  validateCommand tokens = Ok out ->
  out = tokens ++ [request_timeout] /\
  exists verb rest its, tokens = verb :: rest /\ verb ∈ ALLOWED_VERBS /\ items rest its /\
    (verb ∈ VERBS_WITH_RESOURCE_KIND -> forall t, first_positional its = Some t ->
       resourceKindOf t ∈ ALLOWED_RESOURCE_KINDS /\
       (canonicalKindOf (resourceKindOf t) = Some "secrets" ->
        last_output its None <> Some "json" /\ last_output its None <> Some "yaml")).
Proof.
  unfold validateCommand. destruct tokens as [|verb rest]; [done|].
  destruct (str_empty verb); [done|]. destruct (has ALLOWED_VERBS verb) eqn:Hv; [|done]. apply has_true in Hv.
  intros (st & Hloop & (u & Hout & [= <-])%result_bind_Ok)%result_bind_Ok.
  apply validate_loop_post in Hloop as (its & Hits & Ha & Ho & Hk). simpl in *.
  split; [by rewrite Ha|]. exists verb, rest, its. split_and!; try done.
  intros Hvk t Ht. apply has_true in Hvk. rewrite Hvk in Hk. simpl in Hk. rewrite Ht in Hk.
  destruct Hk as [Hkind Hck]. split; [done|]. intros Hsec. rewrite Hsec in Hck.
  unfold check_output in Hout. rewrite Hck, Ho in Hout.
  split; intros Hl; rewrite Hl in Hout; by vm_compute in Hout.
Qed.

Lemma kubectl_validate_sound_witness :
  exists out, validateCommand ["get"; "secrets"; "-o"; "wide"] = Ok out /\
    out = ["get"; "secrets"; "-o"; "wide"; request_timeout].
Proof.
  exists ["get"; "secrets"; "-o"; "wide"; request_timeout]. split; [reflexivity|].
  exact (proj1 (kubectl_validate_sound ["get"; "secrets"; "-o"; "wide"] _ eq_refl)).
Defined.

(** The restriction on Secrets covers the first positional only: kubectl
    takes several TYPE/NAME arguments, and the line below, which prints the
    data of the Secret [b] in full, is accepted. *)
Theorem kubectl_secret_in_later_positional (name : string) :
  validateCommand ["get"; "pods/a"; "secrets/" +:+ name; "-o"; "json"]
  = Ok ["get"; "pods/a"; "secrets/" +:+ name; "-o"; "json"; request_timeout].
Proof. reflexivity. Qed.
