(* ===== verification/GithubTool.v ===== *)
(** * Tools: github (tools/github/src/allowlist.ts)

    The validation of a caller-supplied gh command line. *)

From stdpp Require Import base gmap strings list sorting.
From Stdlib Require Import ZArith Lia Ascii.
From S2P Require Import Prelude JsString CommandLine.

(** ** Data *)

Inductive github_error :=
| NoGhCommand
| GhCommandNotAllowed (command : string)
| GhSubcommandNotAllowed (command : string) (subcommand : option string)
| GhReadOnly (command subcommand : string)
| GhNotACallable (command : string).

#[export] Instance github_error_eq_dec : EqDecision github_error.
Proof. solve_decision. Defined.

Definition ALLOWED_COMMANDS : list (string * list string) :=
  [("issue", ["view"; "list"; "create"; "comment"; "edit"; "close"; "reopen"]);
   ("pr", ["view"; "list"; "create"; "comment"; "edit"; "close"; "reopen"; "diff"; "checks"; "merge"; "review"; "status"]);
   ("repo", ["view"; "list"; "clone"]);
   ("release", ["view"; "list"]);
   ("gist", ["view"; "list"; "create"]);
   ("label", ["list"; "create"]);
   ("search", ["issues"; "prs"; "repos"; "code"; "commits"]);
   ("workflow", ["view"; "list"]);
   ("run", ["view"; "list"; "watch"; "download"])].

Definition READ_ONLY_COMMANDS : list (string * list string) :=
  [("issue", ["view"; "list"]);
   ("pr", ["view"; "list"; "diff"; "checks"; "status"]);
   ("repo", ["view"; "list"; "clone"]);
   ("release", ["view"; "list"]);
   ("gist", ["view"; "list"]);
   ("label", ["list"]);
   ("search", ["issues"; "prs"; "repos"; "code"; "commits"]);
   ("workflow", ["view"; "list"]);
   ("run", ["view"; "list"; "watch"; "download"])].

(** ** Operations *)

(** [!READ_ONLY_COMMANDS[command]?.has(subcommand)] with [readOnly] set; the
    command is an own key of [ALLOWED_COMMANDS] here, so not an inherited one. *)
Definition refused_read_only (readOnly : bool) (command subcommand : string) : bool :=
  readOnly &&
  negb match own_get command READ_ONLY_COMMANDS with
       | Some subs => has subs subcommand
       | None => false
       end.

Definition validateCommand (tokens : list string) (readOnly : bool) : result github_error (list string) :=
  match tokens with
  | [] => Err NoGhCommand
  | command :: rest =>
      if str_empty command then Err NoGhCommand
      else
        match obj_get command ALLOWED_COMMANDS with
        | Absent => Err (GhCommandNotAllowed command)
        | Inherited => Err (GhNotACallable command)
        | Own allowedSubcommands =>
            match rest with
            | [] => Err (GhSubcommandNotAllowed command None)
            | subcommand :: _ =>
                if negb (str_empty subcommand) && has allowedSubcommands subcommand then
                  if refused_read_only readOnly command subcommand
                  then Err (GhReadOnly command subcommand)
                  else Ok tokens
                else Err (GhSubcommandNotAllowed command (Some subcommand))
            end
        end
  end.

(** ** The policy it enforces *)

(** A table as the set of its command pairs. *)
Definition permits (table : list (string * list string)) (command subcommand : string) : Prop :=
  exists subs, own_get command table = Some subs /\ subcommand ∈ subs.

(** ** Lemmas *)

Lemma own_get_In {A : Type} k (o : list (string * A)) a : own_get k o = Some a -> (k, a) ∈ o.
Proof.
  induction o as [|[k' a'] o IH]; unfold own_get; [done|fold (own_get k o)].
  case_decide as Hk; [|intros; right; auto].
  intros [= ->]. subst. by left.
Qed.

Lemma allowed_keys_nonempty : Forall (fun p => str_empty p.1 = false /\ ~ EmptyString ∈ p.2) ALLOWED_COMMANDS.
Proof. by apply (bool_decide_unpack _); vm_compute. Qed.

(** Checked entry by entry: each read-only pair is an allowed pair. *)
Lemma read_only_subset command subcommand :
  permits READ_ONLY_COMMANDS command subcommand -> permits ALLOWED_COMMANDS command subcommand.
Proof.
  intros (subs & Hget & Hin). apply own_get_In in Hget.
  assert (Forall (fun p => match own_get p.1 ALLOWED_COMMANDS with
                           | Some allowed => Forall (fun s => s ∈ allowed) p.2
                           | None => False end) READ_ONLY_COMMANDS) as Hall.
  { repeat constructor; by apply (bool_decide_unpack _); vm_compute. }
  rewrite Forall_forall in Hall. specialize (Hall _ Hget). simpl in Hall.
  destruct (own_get command ALLOWED_COMMANDS) as [allowed|] eqn:Ha; [|done].
  exists allowed. split; [done|]. rewrite Forall_forall in Hall. by apply Hall.
Qed.

(** ** Properties *)

(** [validateCommand] implements its two tables: it accepts a line exactly
    when its first two tokens are a pair of the allowed table and, in a
    read-only run, of the read-only table; and it returns the line unchanged. *)
Theorem github_validate_policy (tokens argv : list string) (readOnly : bool) :
  validateCommand tokens readOnly = Ok argv <->
  argv = tokens /\
  exists command subcommand rest, tokens = command :: subcommand :: rest /\
    permits ALLOWED_COMMANDS command subcommand /\
    (readOnly = true -> permits READ_ONLY_COMMANDS command subcommand).
Proof.
  unfold validateCommand. destruct tokens as [|command rest].
  { split; [done|]. by intros (_ & ? & ? & ? & ? & _). }
  assert (forall allowed, own_get command ALLOWED_COMMANDS = Some allowed ->
    str_empty command = false /\ EmptyString ∉ allowed) as Hne.
  { intros allowed Ha%own_get_In. pose proof allowed_keys_nonempty as Hall. rewrite Forall_forall in Hall.
    exact (Hall _ Ha). }
  destruct (own_get command ALLOWED_COMMANDS) as [allowed|] eqn:Ha.
  - destruct (Hne _ eq_refl) as [-> Hemp]. unfold obj_get. rewrite Ha.
    destruct rest as [|sub rest]; [split; [done|]; by intros (_ & ? & ? & ? & ? & _)|].
    destruct (has allowed sub) eqn:Hs; rewrite ?andb_false_r, ?andb_true_r.
    + apply has_true in Hs. assert (str_empty sub = false) as -> by (by destruct sub).
      unfold refused_read_only. simpl. split.
      * intros Hv. destruct readOnly; simpl in Hv.
        -- destruct (own_get command READ_ONLY_COMMANDS) as [ro|] eqn:Hr; simpl in Hv; [|done].
           destruct (has ro sub) eqn:Hro; [|done]. injection Hv as <-. apply has_true in Hro.
           split; [done|]. exists command, sub, rest. split_and!; [done|by exists allowed|by exists ro].
        -- injection Hv as <-. split; [done|]. exists command, sub, rest. split_and!; [done|by exists allowed|done].
      * intros (-> & c & s & r & [= <- <- <-] & _ & Hro). destruct readOnly; [|done].
        destruct (Hro eq_refl) as (ro & -> & Hin). apply has_true in Hin. simpl. by rewrite Hin.
    + split; [done|]. intros (_ & c & s & r & [= <- <- <-] & (a & Ha' & Hin) & _).
      apply has_true in Hin. congruence.
  - split.
    + unfold obj_get. rewrite Ha. destruct (str_empty command); [done|]. by case_bool_decide.
    + intros (_ & c & s & r & [= <- _] & (a & Ha' & _) & _). congruence.
Qed.

(** A read-only run never gains a command: whatever it accepts, a normal
    run accepts, and every pair of the read-only table is in the allowed one. *)
Theorem github_read_only_restricts (tokens argv : list string) :
  (validateCommand tokens true = Ok argv -> validateCommand tokens false = Ok argv) /\
  (forall command subcommand, permits READ_ONLY_COMMANDS command subcommand ->
     permits ALLOWED_COMMANDS command subcommand).
Proof.
  split; [|exact read_only_subset].
  unfold validateCommand, refused_read_only. destruct tokens as [|c [|s r]]; [done|done|].
  destruct (str_empty c); [done|]. destruct (obj_get c ALLOWED_COMMANDS); try done.
  destruct (_ && _); [|done]. simpl. by destruct (negb _).
Qed.
