(* ===== verification/UrlGuard.v ===== *)
(** * Tools: the URL guard (tools/web-fetch/src/security/url-guard.ts)

    The SSRF check that tools/web-fetch, tools/recipe-scraper and
    tools/image-gen share by copy. The URL parser, the resolver and node's
    [net.isIPv6] are parameters. *)

From stdpp Require Import base gmap strings list sorting.
From Stdlib Require Import ZArith Lia Ascii.
From S2P Require Import Prelude JsString JsNumber.

#[local] Open Scope Z_scope.

(** ** Data *)

Inductive UrlGuardError :=
| InvalidUrl (raw : string)
| BlockedProtocol (protocol : string)
| MissingHost
| DnsFailed (host : string)
| NoAddresses (host : string)
| BlockedAddress (address host : string).

(** What the code reads of a parsed [URL]. *)
Record Url := mkUrl {
  url_protocol : string;
  url_hostname : string
}.

Record SafeUrl := mkSafeUrl {
  safe_url : Url;
  safe_addresses : list string
}.

Definition ALLOWED_PROTOCOLS : list string := ["http:"; "https:"].

(** ** IPv4 *)

(** [ip.split(".").reduce((acc, octet) => (acc << 8) + Number(octet), 0) >>> 0];
    the guard only calls it on strings that [net.isIPv4] accepts, whose parts
    are strings of digits. *)
Definition ipv4ToLong (ip : string) : Z :=
  ushr0 (foldl (fun acc octet => shl32 acc 8 + digits_value octet) 0 (split_char "."%char ip)).

Definition blocked_ranges : list (string * Z) :=
  [("0.0.0.0", 8); ("10.0.0.0", 8); ("100.64.0.0", 10); ("127.0.0.0", 8); ("169.254.0.0", 16);
   ("172.16.0.0", 12); ("192.0.0.0", 24); ("192.0.2.0", 24); ("192.88.99.0", 24); ("192.168.0.0", 16);
   ("198.18.0.0", 15); ("198.51.100.0", 24); ("203.0.113.0", 24); ("224.0.0.0", 4); ("240.0.0.0", 4);
   ("255.255.255.255", 32)].

Definition in_range_test (value : Z) (range : string * Z) : bool :=
  let '(base, bits) := range in
  let mask := if bits =? 0 then 0 else ushr0 (shl32 (not32 0) (32 - bits)) in
  and32 value mask =? and32 (ipv4ToLong base) mask.

Definition isBlockedIPv4 (ip : string) : bool := existsb (in_range_test (ipv4ToLong ip)) blocked_ranges.

(** Node's [net.isIPv4]: four decimal octets without leading zeros. *)
Definition is_octet (s : string) : bool :=
  all_digits s && negb (str_empty s) && (digits_value s <=? 255) &&
  match s with
  | String c (String _ _) => negb (Ascii.eqb c "0"%char)
  | _ => true
  end.

Definition isIPv4 (ip : string) : bool :=
  match split_char "."%char ip with
  | [a; b; c; d] => is_octet a && is_octet b && is_octet c && is_octet d
  | _ => false
  end.

(** ** IPv6 and the guard *)

(** [\d{1,3}] *)
Definition is_short_number (s : string) : bool := all_digits s && negb (str_empty s) && (Z.of_nat (slen s) <=? 3).

Definition dotted (s : string) : bool :=
  match split_char "."%char s with
  | [a; b; c; d] => is_short_number a && is_short_number b && is_short_number c && is_short_number d
  | _ => false
  end.

(** [norm.match(/^(?:::ffff:|::)((?:\d{1,3}\.){3}\d{1,3})$/)?.[1]] *)
Definition mapped_match (norm : string) : option string :=
  if startsWith "::ffff:" norm && dotted (str_drop 7 norm) then Some (str_drop 7 norm)
  else if startsWith "::" norm && dotted (str_drop 2 norm) then Some (str_drop 2 norm)
  else None.

Definition isBlockedIPv6_plain (norm : string) : bool :=
  if has ["::1"; "::"] norm then true
  else if startsWith "fe80" norm then true
  else if startsWith "fec0" norm then true
  else if startsWith "fc" norm || startsWith "fd" norm then true
  else if startsWith "ff" norm then true
  else if startsWith "2001:db8" norm then true
  else if startsWith "64:ff9b" norm then false
  else false.

Definition isBlockedIPv6 (ip : string) : bool :=
  let norm := toLowerCase ip in
  match mapped_match norm with
  | Some v4 => if isIPv4 v4 then isBlockedIPv4 v4 else isBlockedIPv6_plain norm
  | None => isBlockedIPv6_plain norm
  end.

(** [hostname.replace(/^\[|\]$/g, "")] *)
Definition strip_open (s : string) : string :=
  match s with
  | String c s' => if Ascii.eqb c "["%char then s' else s
  | EmptyString => s
  end.

Fixpoint strip_close (s : string) : string :=
  match s with
  | EmptyString => EmptyString
  | String c EmptyString => if Ascii.eqb c "]"%char then EmptyString else s
  | String c s' => String c (strip_close s')
  end.

Definition unbracket (s : string) : string := strip_close (strip_open s).

Section Guard.
(** [new URL(raw)], [dns.lookup(host, { all: true })] and [net.isIPv6]. *)
Variable parse_url : string -> option Url.
Variable dns_lookup : string -> result unit (list string).
Variable isIPv6 : string -> bool.

Definition isBlockedIp (ip : string) : bool :=
  if isIPv4 ip then isBlockedIPv4 ip
  else if isIPv6 ip then isBlockedIPv6 ip
  else true.

Fixpoint check_addresses (host : string) (addresses : list string) : result UrlGuardError unit :=
  match addresses with
  | [] => Ok tt
  | address :: rest => if isBlockedIp address then Err (BlockedAddress address host) else check_addresses host rest
  end.

Definition resolve (host : string) : result UrlGuardError (list string) :=
  if isIPv4 host || isIPv6 host then Ok [host]
  else match dns_lookup host with
       | Ok addresses => Ok addresses
       | Err _ => Err (DnsFailed host)
       end.

Definition assertUrlAllowed (raw : string) : result UrlGuardError SafeUrl :=
  match parse_url raw with
  | None => Err (InvalidUrl raw)
  | Some url =>
      if has ALLOWED_PROTOCOLS (url_protocol url) then
        let host := unbracket (url_hostname url) in
        if str_empty host then Err MissingHost
        else
          let? addresses := resolve host in
          match addresses with
          | [] => Err (NoAddresses host)
          | _ => let? _ := check_addresses host addresses in Ok (mkSafeUrl url addresses)
          end
      else Err (BlockedProtocol (url_protocol url))
  end.
End Guard.

(** ** What the ranges mean *)

(** The value of a dotted quad. *)
Definition ipv4_value (ip : string) : Z :=
  match split_char "."%char ip with
  | [a; b; c; d] =>
      digits_value a * 2 ^ 24 + digits_value b * 2 ^ 16 + digits_value c * 2 ^ 8 + digits_value d
  | _ => 0
  end.

(** [v] is in the block [base/bits]. *)
Definition in_cidr (v : Z) (range : string * Z) : Prop :=
  ipv4_value range.1 <= v < ipv4_value range.1 + 2 ^ (32 - range.2).

(** ** Lemmas *)

Lemma is_octet_bound s : is_octet s = true -> 0 <= digits_value s <= 255.
Proof.
  unfold is_octet. intros [[[Hd _]%andb_true_iff Hv]%andb_true_iff _]%andb_true_iff.
  apply Z.leb_le in Hv. pose proof (digits_value_acc_nonneg s 0 Hd). unfold digits_value in *. lia.
Qed.

Lemma fold_octet acc acc' d : acc mod two32 = acc' mod two32 -> (shl32 acc 8 + d) mod two32 = (acc' * 2 ^ 8 + d) mod two32.
Proof.
  intros H. rewrite Z.add_mod, shl32_mod by (done || lia).
  rewrite (Z.mul_mod acc), H, <- (Z.mul_mod acc'), <- Z.add_mod by done. done.
Qed.

(** The shift-and-add loop wraps to negative numbers on the way; the final
    [>>> 0] gives the value of the quad. *)
Lemma ipv4ToLong_value ip : isIPv4 ip = true -> ipv4ToLong ip = ipv4_value ip /\ 0 <= ipv4_value ip < two32.
Proof.
  unfold isIPv4, ipv4ToLong, ipv4_value.
  destruct (split_char "."%char ip) as [|a [|b [|c [|d [|? ?]]]]]; try done.
  intros [[[Ha Hb]%andb_true_iff Hc]%andb_true_iff Hd]%andb_true_iff.
  apply is_octet_bound in Ha, Hb, Hc, Hd.
  assert (0 <= digits_value a * 2 ^ 24 + digits_value b * 2 ^ 16 + digits_value c * 2 ^ 8 + digits_value d < two32) as Hv
    by (unfold two32; lia).
  split; [|done]. rewrite <- (Z.mod_small _ _ Hv). unfold ushr0, to_uint32. cbn [foldl].
  rewrite (fold_octet _ _ _ (fold_octet _ _ _ (fold_octet _ _ _ (fold_octet 0 0 (digits_value a) eq_refl)))).
  f_equal. lia.
Qed.

Lemma in_range_test_cidr v base bits :
  0 <= v < two32 -> isIPv4 base = true -> 1 <= bits <= 32 -> ipv4_value base mod 2 ^ (32 - bits) = 0 ->
  in_range_test v (base, bits) = true <-> in_cidr v (base, bits).
Proof.
  intros Hv Hbase Hbits Halign. destruct (ipv4ToLong_value base Hbase) as [Hlong Hb].
  unfold in_range_test, in_cidr. simpl. rewrite Hlong.
  destruct (Z.eqb_spec bits 0); [lia|].
  assert (ushr0 (shl32 (not32 0) (32 - bits)) = two32 - 2 ^ (32 - bits)) as ->.
  { unfold ushr0, to_uint32. rewrite shl32_mod by lia. change (not32 0) with (-1).
    assert (0 < 2 ^ (32 - bits) <= 2 ^ 31) by (split; [apply Z.pow_pos_nonneg | apply Z.pow_le_mono_r]; lia).
    rewrite <- (Z.mod_add _ 1) by done.
    replace (-1 * 2 ^ (32 - bits) + 1 * two32) with (two32 - 2 ^ (32 - bits)) by lia.
    apply Z.mod_small. unfold two32. lia. }
  assert (0 < 2 ^ (32 - bits) <= 2 ^ 31) as Hp by (split; [apply Z.pow_pos_nonneg | apply Z.pow_le_mono_r]; lia).
  rewrite Z.eqb_eq, and32_eq, !(Z.mod_small _ two32) by (unfold two32 in *; lia).
  rewrite !land_prefix_mask by lia. rewrite Z.mul_cancel_r by lia.
  pose proof (Z.div_mod v (2 ^ (32 - bits)) ltac:(lia)) as Hvd.
  pose proof (Z.div_mod (ipv4_value base) (2 ^ (32 - bits)) ltac:(lia)) as Hbd.
  pose proof (Z.mod_pos_bound v (2 ^ (32 - bits)) ltac:(lia)) as Hvm.
  rewrite Halign in Hbd. split; [intros H; rewrite H in Hvd; lia|].
  intros H. symmetry. apply (Z.div_unique v (2 ^ (32 - bits)) _ (v - ipv4_value base)); lia.
Qed.

Lemma blocked_ranges_ok :
  Forall (fun r => isIPv4 r.1 = true /\ 1 <= r.2 <= 32 /\ ipv4_value r.1 mod 2 ^ (32 - r.2) = 0) blocked_ranges.
Proof. repeat constructor; by vm_compute. Qed.

Lemma check_addresses_Ok isIPv6 host addresses u :
  check_addresses isIPv6 host addresses = Ok u <-> Forall (fun a => isBlockedIp isIPv6 a = false) addresses.
Proof.
  destruct u. induction addresses as [|a addresses IH]; simpl; [split; by intros|].
  rewrite Forall_cons. destruct (isBlockedIp isIPv6 a); naive_solver.
Qed.

Lemma isBlockedIPv4_cidr ip :
  isIPv4 ip = true ->
  isBlockedIPv4 ip = true <-> exists range, range ∈ blocked_ranges /\ in_cidr (ipv4_value ip) range.
Proof.
  intros Hip. destruct (ipv4ToLong_value ip Hip) as [Hlong Hv].
  unfold isBlockedIPv4. rewrite existsb_elem_of, Hlong.
  assert (forall r, r ∈ blocked_ranges ->
    in_range_test (ipv4_value ip) r = true <-> in_cidr (ipv4_value ip) r) as Hr.
  { intros [base bits] Hin. pose proof blocked_ranges_ok as Hok. rewrite Forall_forall in Hok.
    destruct (Hok _ Hin) as (Hb & Hbits & Hal). by apply in_range_test_cidr. }
  split; intros (r & Hin & H); exists r; (split; [done|]); by apply Hr.
Qed.

(** A literal address is checked as it stands. *)
Lemma assertUrlAllowed_literal parse_url dns_lookup isIPv6 raw h ip :
  parse_url raw = Some (mkUrl "http:" h) -> unbracket h = ip -> str_empty ip = false -> isIPv6 ip = true ->
  isBlockedIp isIPv6 ip = false ->
  assertUrlAllowed parse_url dns_lookup isIPv6 raw = Ok (mkSafeUrl (mkUrl "http:" h) [ip]).
Proof.
  intros Hp Hu He H6 Hb. unfold assertUrlAllowed. rewrite Hp. cbn -[has].
  rewrite Hu, He. unfold resolve. rewrite H6, orb_true_r. cbn -[isBlockedIp]. by rewrite Hb.
Qed.

(** ** Properties *)

(** The 32-bit arithmetic of the guard computes the ranges it lists: an
    IPv4 address is blocked exactly when it lies in one of the CIDR blocks. *)
Theorem isBlockedIPv4_ranges (ip : string) :
  isIPv4 ip = true ->
  isBlockedIPv4 ip = true <-> exists range, range ∈ blocked_ranges /\ in_cidr (ipv4_value ip) range.
Proof. apply isBlockedIPv4_cidr. Qed.

Lemma isBlockedIPv4_ranges_witness :
  isBlockedIPv4 "169.254.169.254" = true /\
  exists range, range ∈ blocked_ranges /\ in_cidr (ipv4_value "169.254.169.254") range.
Proof. split; [reflexivity|]. by apply (isBlockedIPv4_ranges "169.254.169.254" eq_refl). Defined.

(** What the guard lets through: an http(s) URL whose host resolves to at
    least one address, none of which [isBlockedIp] refuses; no IPv4 address
    among them lies in a blocked range, and every one is a literal IP. *)
Theorem assertUrlAllowed_sound (parse_url : string -> option Url)
    (dns_lookup : string -> result unit (list string)) (isIPv6 : string -> bool) (raw : string) (s : SafeUrl) :
  assertUrlAllowed parse_url dns_lookup isIPv6 raw = Ok s ->
  parse_url raw = Some (safe_url s) /\ url_protocol (safe_url s) ∈ ALLOWED_PROTOCOLS /\
  safe_addresses s <> [] /\
  forall a, a ∈ safe_addresses s ->
    isBlockedIp isIPv6 a = false /\
    (isIPv4 a = true \/ isIPv6 a = true) /\
    (isIPv4 a = true -> forall range, range ∈ blocked_ranges -> ~ in_cidr (ipv4_value a) range).
Proof.
  unfold assertUrlAllowed. destruct (parse_url raw) as [url|]; [|done].
  destruct (has ALLOWED_PROTOCOLS (url_protocol url)) eqn:Hp; [|done]. apply has_true in Hp.
  destruct (str_empty _); [done|]. intros (addresses & _ & Hs)%result_bind_Ok.
  assert (addresses <> [] /\ exists u, check_addresses isIPv6 (unbracket (url_hostname url)) addresses = Ok u
    /\ s = mkSafeUrl url addresses) as (Hne & u & Hc & ->).
  { destruct addresses; [done|]. apply result_bind_Ok in Hs as (u & Hu & [= <-]). split; [done|]. by exists u. }
  simpl. split_and!; try done. intros a Ha. apply check_addresses_Ok in Hc.
  rewrite Forall_forall in Hc. specialize (Hc _ Ha). split; [done|]. unfold isBlockedIp in Hc.
  destruct (isIPv4 a) eqn:H4.
  - split; [by left|]. intros _ range Hr Hin.
    assert (isBlockedIPv4 a = true) as Hb by (apply (isBlockedIPv4_cidr a H4); eauto). congruence.
  - destruct (isIPv6 a); [|done]. split; [by right|done].
Qed.

(** A parser and a resolver for the examples: the one URL given, and no DNS. *)
Definition one_url (raw host : string) (r : string) : option Url :=
  if decide (r = raw) then Some (mkUrl "http:" host) else None.

Definition no_dns (_ : string) : result unit (list string) := Err tt.

Lemma assertUrlAllowed_sound_witness :
  let s := mkSafeUrl (mkUrl "http:" "93.184.216.34") ["93.184.216.34"] in
  assertUrlAllowed (one_url "http://93.184.216.34/" "93.184.216.34") no_dns (fun _ => false)
    "http://93.184.216.34/" = Ok s /\ safe_addresses s <> [].
Proof.
  split; [by vm_compute|].
  refine (proj1 (proj2 (proj2 (assertUrlAllowed_sound
    (one_url "http://93.184.216.34/" "93.184.216.34") no_dns (fun _ => false)
    "http://93.184.216.34/" (mkSafeUrl (mkUrl "http:" "93.184.216.34") ["93.184.216.34"]) _)))).
  by vm_compute.
Defined.

(** The IPv4-mapped form of an address reaches the guard as the parser
    writes it, in hexadecimal: for whatever [isIPv6] accepts the literal, the
    mapped loopback and link-local metadata addresses are let through, while
    the same addresses in dotted form are refused. *)
Theorem assertUrlAllowed_hex_mapped (parse_url : string -> option Url)
    (dns_lookup : string -> result unit (list string)) (isIPv6 : string -> bool) (raw : string)
    (literal dotted_form : string) :
  (literal, dotted_form) ∈ [("::ffff:7f00:1", "::ffff:127.0.0.1"); ("::ffff:a9fe:a9fe", "::ffff:169.254.169.254")] ->
  isIPv6 literal = true -> isIPv6 dotted_form = true ->
  parse_url raw = Some (mkUrl "http:" ("[" +:+ literal +:+ "]")) ->
  assertUrlAllowed parse_url dns_lookup isIPv6 raw =
    Ok (mkSafeUrl (mkUrl "http:" ("[" +:+ literal +:+ "]")) [literal]) /\
  isBlockedIp isIPv6 dotted_form = true.
Proof.
  intros Hl H6 Hd Hp.
  assert (unbracket ("[" +:+ literal +:+ "]") = literal /\ isIPv4 literal = false /\ isIPv4 dotted_form = false /\
    str_empty literal = false /\ isBlockedIPv6 literal = false /\ isBlockedIPv6 dotted_form = true)
    as (Hu & H4 & H4d & He & Hlit & Hdot).
  { set_unfold in Hl. destruct Hl as [[= -> ->]|[[= -> ->]|[]]]; by vm_compute. }
  split; [|unfold isBlockedIp; by rewrite H4d, Hd].
  apply assertUrlAllowed_literal; [done|by rewrite Hu|done|done|]. unfold isBlockedIp. by rewrite H4, H6.
Qed.

Lemma assertUrlAllowed_hex_mapped_witness :
  isBlockedIp (fun _ => true) "::ffff:127.0.0.1" = true.
Proof.
  apply (assertUrlAllowed_hex_mapped (one_url "http://[::ffff:127.0.0.1]/" "[::ffff:7f00:1]") no_dns (fun _ => true)
    "http://[::ffff:127.0.0.1]/" "::ffff:7f00:1" "::ffff:127.0.0.1"); [left | | |]; by vm_compute.
Defined.
