(* ===== verification/JsMap.v ===== *)
(** * JavaScript's Map with string keys

    An association list in insertion order with unique keys: [set] on an
    existing key keeps its place. *)

From stdpp Require Import base gmap strings list sorting.
From Stdlib Require Import ZArith Lia.
From S2P Require Import Prelude JsString.

(** ** Operations *)

Definition jsmap (V : Type) : Type := list (string * V).

Definition map_get {V : Type} (k : string) (m : jsmap V) : option V := own_get k m.

Fixpoint map_set {V : Type} (k : string) (v : V) (m : jsmap V) : jsmap V :=
  match m with
  | [] => [(k, v)]
  | (k', v') :: m' => if decide (k' = k) then (k, v) :: m' else (k', v') :: map_set k v m'
  end.

Fixpoint map_delete {V : Type} (k : string) (m : jsmap V) : jsmap V :=
  match m with
  | [] => []
  | (k', v') :: m' => if decide (k' = k) then m' else (k', v') :: map_delete k m'
  end.

Definition map_values {V : Type} (m : jsmap V) : list V := m.*2.

(** [new Map(entries)] *)
Definition map_of {V : Type} (entries : list (string * V)) : jsmap V :=
  foldl (fun m e => map_set e.1 e.2 m) [] entries.

(** Every map of the program is built by [set] and [delete] from the empty one. *)
Definition map_wf {V : Type} (m : jsmap V) : Prop := NoDup m.*1.

(** ** Lemmas *)

Section map.
Context {V : Type}.
Implicit Types (m : jsmap V) (k : string) (v : V).

Lemma map_get_cons k k' v' m : map_get k ((k', v') :: m) = if decide (k' = k) then Some v' else map_get k m.
Proof. reflexivity. Qed.

Lemma map_get_set_eq k v m : map_get k (map_set k v m) = Some v.
Proof.
  induction m as [|[k' v'] m IH]; cbn [map_set]; [rewrite map_get_cons; by rewrite decide_True|].
  case_decide; rewrite map_get_cons; [by rewrite decide_True|]. by rewrite decide_False.
Qed.

Lemma map_get_set_ne k k' v m : k <> k' -> map_get k' (map_set k v m) = map_get k' m.
Proof.
  intros Hne. induction m as [|[k0 v0] m IH]; cbn [map_set].
  - rewrite map_get_cons. by rewrite decide_False.
  - case_decide; subst; rewrite !map_get_cons; [by rewrite !decide_False|]. by rewrite IH.
Qed.

Lemma map_get_None k m : map_get k m = None <-> k ∉ m.*1.
Proof.
  induction m as [|[k' v'] m IH]; [by split; [intros _ ?%elem_of_nil|]|].
  rewrite map_get_cons. csimpl. rewrite not_elem_of_cons. case_decide; naive_solver.
Qed.

Lemma map_get_delete_eq k m : map_wf m -> map_get k (map_delete k m) = None.
Proof.
  unfold map_wf. induction m as [|[k' v'] m IH]; csimpl; [done|]. intros [Hk Hm]%NoDup_cons.
  cbn [map_delete]. case_decide; subst; [by apply map_get_None|]. rewrite map_get_cons, decide_False; auto.
Qed.

Lemma map_get_delete_ne k k' m : k <> k' -> map_get k' (map_delete k m) = map_get k' m.
Proof.
  intros Hne. induction m as [|[k0 v0] m IH]; [done|]. cbn [map_delete].
  case_decide; subst; rewrite !map_get_cons; [by rewrite decide_False|]. by rewrite IH.
Qed.

Lemma map_set_keys k v m k' : k' ∈ (map_set k v m).*1 <-> k' = k \/ k' ∈ m.*1.
Proof.
  induction m as [|[k0 v0] m IH]; csimpl; [set_solver|]. case_decide; csimpl; set_solver.
Qed.

Lemma map_delete_keys k m k' : k' ∈ (map_delete k m).*1 -> k' ∈ m.*1.
Proof. induction m as [|[k0 v0] m IH]; csimpl; [done|]. case_decide; csimpl; set_solver. Qed.

Lemma map_set_wf k v m : map_wf m -> map_wf (map_set k v m).
Proof.
  unfold map_wf. induction m as [|[k0 v0] m IH]; csimpl; [intros _; apply NoDup_singleton|].
  intros [Hk Hm]%NoDup_cons. case_decide; subst; csimpl; constructor; auto.
  rewrite map_set_keys. naive_solver.
Qed.

Lemma map_delete_wf k m : map_wf m -> map_wf (map_delete k m).
Proof.
  unfold map_wf. induction m as [|[k0 v0] m IH]; csimpl; [done|].
  intros [Hk Hm]%NoDup_cons. case_decide; csimpl; [done|]. apply NoDup_cons. split; [|by auto].
  intros Hin. by apply Hk, (map_delete_keys k).
Qed.

Lemma map_of_wf (entries : list (string * V)) : map_wf (map_of entries).
Proof.
  unfold map_of. apply (foldl_inv map_wf); [intros; by apply map_set_wf | apply NoDup_nil_2].
Qed.

Lemma map_get_elem_weak k v m : map_get k m = Some v -> (k, v) ∈ m.
Proof.
  induction m as [|[k0 v0] m IH]; [done|]. rewrite map_get_cons. case_decide; subst; [intros [= ->]; by left|].
  intros Hg. right. by apply IH.
Qed.

(** In a well-formed map an entry is what [get] returns. *)
Lemma map_get_elem k v m : map_wf m -> map_get k m = Some v <-> (k, v) ∈ m.
Proof.
  unfold map_wf. induction m as [|[k0 v0] m IH]; csimpl; [intros _; split; [done|by intros ?%elem_of_nil]|].
  intros [Hk Hm]%NoDup_cons. rewrite map_get_cons, elem_of_cons. case_decide as Hd; subst.
  - split; [intros [= ->]; by left|]. intros [[= ->]|Hin]; [done|].
    destruct Hk. apply list_elem_of_fmap. by exists (k, v).
  - rewrite IH by done. naive_solver.
Qed.

Lemma map_values_elem v m : v ∈ map_values m <-> exists k, (k, v) ∈ m.
Proof.
  unfold map_values. rewrite list_elem_of_fmap. split.
  - intros ([k v'] & -> & Hin). by exists k.
  - intros [k Hin]. by exists (k, v).
Qed.
End map.

Lemma map_set_same {V : Type} k (v : V) m : map_get k m = Some v -> map_set k v m = m.
Proof.
  induction m as [|[k' v'] m IH]; [done|]. rewrite map_get_cons. cbn [map_set].
  case_decide; [by intros [= ->]; subst|]. intros Hg. by rewrite IH.
Qed.

Lemma map_set_elem {V : Type} k (v : V) m e : e ∈ map_set k v m -> e = (k, v) \/ e ∈ m.
Proof.
  induction m as [|[k0 v0] m IH]; csimpl; [set_solver|]. case_decide; csimpl; set_solver.
Qed.

Lemma map_delete_elem {V : Type} k (m : jsmap V) e : e ∈ map_delete k m -> e ∈ m.
Proof. induction m as [|[k0 v0] m IH]; csimpl; [done|]. case_decide; set_solver. Qed.

#[export] Hint Resolve map_set_wf map_delete_wf map_of_wf : agentdb.
#[export] Hint Rewrite @map_get_set_eq : agentdb.

(** Entries with new keys are appended. *)
Lemma map_set_fresh {V : Type} k (v : V) m : k ∉ m.*1 -> map_set k v m = m ++ [(k, v)].
Proof.
  induction m as [|[k' v'] m IH]; csimpl; [done|]. intros [Hne Hin]%not_elem_of_cons.
  rewrite decide_False by congruence. by rewrite IH.
Qed.

Lemma foldl_set_fresh {V : Type} (es : list (string * V)) m :
  NoDup (m ++ es).*1 -> foldl (fun m e => map_set e.1 e.2 m) m es = m ++ es.
Proof.
  revert m. induction es as [|[k v] es IH]; intros m Hnd; csimpl; [by rewrite app_nil_r|].
  rewrite map_set_fresh.
  - rewrite IH; rewrite <- app_assoc; done.
  - rewrite fmap_app in Hnd. apply NoDup_app in Hnd as (_ & Hd & _). intros Hin. apply (Hd k Hin). by left.
Qed.

Lemma map_of_fresh {V : Type} (es : list (string * V)) : NoDup es.*1 -> map_of es = es.
Proof. intros Hes. unfold map_of. by rewrite (foldl_set_fresh es []). Qed.
