(* ===== verification/Registry.v ===== *)
(** * Connection broker: the corpus registry (apps/connection-broker/src/registry.ts)

    [CorpusRegistry] is the interface the server and the scheduler use;
    [RegistryLaws] states what an implementation promises. The driver of a
    binding is a parameter [D]. *)

From stdpp Require Import base gmap strings list sorting.
From Stdlib Require Import ZArith Lia.
From S2P Require Import Prelude JsString JsMap Json Chunk Driver.

(** ** Data *)

Record CorpusBinding (D : Type) := mkCorpusBinding {
  binding_name : string;
  binding_connection : string;
  binding_driver : D;
  binding_scope : Scope;
  binding_allowedRoles : list string;
  binding_serviceToken : string
}.

Arguments mkCorpusBinding {D}.
Arguments binding_name {D} c.
Arguments binding_connection {D} c.
Arguments binding_driver {D} c.
Arguments binding_scope {D} c.
Arguments binding_allowedRoles {D} c.
Arguments binding_serviceToken {D} c.

(** ** The interface *)

Record CorpusRegistry (D : Type) := mkCorpusRegistry {
  reg_get : string -> option (CorpusBinding D);
  reg_list : list (CorpusBinding D)
}.

Arguments mkCorpusRegistry {D}.
Arguments reg_get {D} c.
Arguments reg_list {D} c.

(** What the users of a registry rely on: a name has one binding, and [list]
    is the bindings [get] finds. *)
Class RegistryLaws {D : Type} (r : CorpusRegistry D) := {
  reg_get_name n b : reg_get r n = Some b -> binding_name b = n;
  reg_list_get b : b ∈ reg_list r <-> reg_get r (binding_name b) = Some b
}.

(** Every map whose entries sit under their own names is a registry. *)
Definition registry_of {D : Type} (bindings : jsmap (CorpusBinding D)) : CorpusRegistry D :=
  mkCorpusRegistry (fun name => map_get name bindings) (map_values bindings).

(** ** The static registry *)

Section Static.
Context {W : Type}.

Definition static_bindings (bindings : list (CorpusBinding (Driver W))) : jsmap (CorpusBinding (Driver W)) :=
  map_of ((fun binding => (binding_name binding, binding)) <$> bindings).

(** The constructor of [StaticCorpusRegistry]: a scope the driver refuses
    makes it throw. *)
Definition StaticCorpusRegistry (bindings : list (CorpusBinding (Driver W))) :
    result DriverError (CorpusRegistry (Driver W)) :=
  let? _ := mapM_result (fun b => validateScope (binding_driver b) (binding_scope b)) bindings in
  Ok (registry_of (static_bindings bindings)).
End Static.

(** ** Lemmas *)

Definition entries_named {D : Type} (m : jsmap (CorpusBinding D)) : Prop :=
  map_wf m /\ forall k b, (k, b) ∈ m -> binding_name b = k.

Lemma registry_of_laws {D : Type} (m : jsmap (CorpusBinding D)) :
  entries_named m -> RegistryLaws (registry_of m).
Proof.
  intros [Hwf Hn]. constructor; simpl.
  - intros n b Hg. apply Hn. by apply map_get_elem.
  - intros b. rewrite map_values_elem, map_get_elem by done. split; [|by eexists].
    intros [k Hin]. by rewrite (Hn _ _ Hin).
Qed.

Lemma entries_named_set {D : Type} (b : CorpusBinding D) m :
  entries_named m -> entries_named (map_set (binding_name b) b m).
Proof.
  intros [Hwf Hn]. split; [by apply map_set_wf|]. intros k b' [[= -> ->]|Hin]%map_set_elem; auto.
Qed.

Lemma entries_named_delete {D : Type} k (m : jsmap (CorpusBinding D)) :
  entries_named m -> entries_named (map_delete k m).
Proof.
  intros [Hwf Hn]. split; [by apply map_delete_wf|]. intros k' b' Hin%map_delete_elem; auto.
Qed.

Lemma static_bindings_named {W : Type} (bindings : list (CorpusBinding (Driver W))) :
  entries_named (static_bindings bindings).
Proof.
  unfold static_bindings, map_of. apply (foldl_inv entries_named).
  - intros m e (b & -> & _)%list_elem_of_fmap Hm. by apply entries_named_set.
  - split; [apply NoDup_nil_2 | by intros k b ?%elem_of_nil].
Qed.

#[export] Hint Resolve entries_named_set entries_named_delete registry_of_laws : agentdb.
