(* ===== verification/Query.v ===== *)
(** * Connection broker: structured queries (apps/connection-broker/src/drivers/query.ts)

    [isCalendarDate] goes through [Date.UTC] and back; the calendar of the
    language (ECMA-262, Day Number and Time Value) is written out in
    [Section Calendar]. *)

From stdpp Require Import base gmap strings list sorting.
From Stdlib Require Import ZArith Lia Ascii.
From S2P Require Import Prelude JsString JsNumber Json Chunk Driver.

#[local] Open Scope Z_scope.

Definition QUERY_DEFAULT_LIMIT : Z := 10.
Definition QUERY_MAX_LIMIT : Z := 25.

Definition SORTS : list (string * QuerySort) := [("relevance", relevance); ("newest", newest); ("oldest", oldest)].
Definition STRING_FIELDS : list string := ["text"; "title"; "author"; "after"; "before"; "type"].
Definition KNOWN_FIELDS : list string := STRING_FIELDS ++ ["sort"; "limit"].

(** ** The calendar of [Date] *)

Definition DayFromYear (y : Z) : Z :=
  365 * (y - 1970) + (y - 1969) / 4 - (y - 1901) / 100 + (y - 1601) / 400.

Definition InLeapYear (y : Z) : bool :=
  (y mod 4 =? 0) && (negb (y mod 100 =? 0) || (y mod 400 =? 0)).

(** Days of the year before month [m] (0 for January). *)
Definition month_start (leap : bool) (m : Z) : Z :=
  let l := if leap then 1 else 0 in
  match m with
  | 0 => 0 | 1 => 31 | 2 => 59 + l | 3 => 90 + l | 4 => 120 + l | 5 => 151 + l | 6 => 181 + l
  | 7 => 212 + l | 8 => 243 + l | 9 => 273 + l | 10 => 304 + l | 11 => 334 + l | _ => 365 + l
  end.

(** [MakeDay(year, month, date)]: a month beyond December carries into the year. *)
Definition MakeDay (year month date : Z) : Z :=
  let ym := year + month / 12 in
  let mn := month mod 12 in
  DayFromYear ym + month_start (InLeapYear ym) mn + date - 1.

(** [Date.UTC] reads a year of 0 to 99 as 1900 to 1999. *)
Definition MakeFullYear (year : Z) : Z := if (0 <=? year) && (year <=? 99) then 1900 + year else year.

Definition date_utc (year month date : Z) : Z := MakeDay (MakeFullYear year) month date.

(** The year whose first day is the last not after [day]. *)
Definition YearFromDay (day : Z) : Z :=
  let y := 1970 + (day * 400) / 146097 in
  if day <? DayFromYear y then y - 1 else if DayFromYear (y + 1) <=? day then y + 1 else y.

Fixpoint month_search (leap : bool) (n : Z) (months : list Z) : Z :=
  match months with
  | [] => 0
  | m :: ms => if month_start leap m <=? n then m else month_search leap n ms
  end.

Definition getUTCFullYear (day : Z) : Z := YearFromDay day.
Definition getUTCMonth (day : Z) : Z :=
  let y := YearFromDay day in
  month_search (InLeapYear y) (day - DayFromYear y) [11; 10; 9; 8; 7; 6; 5; 4; 3; 2; 1; 0].
Definition getUTCDate (day : Z) : Z :=
  let y := YearFromDay day in
  day - DayFromYear y - month_start (InLeapYear y) (getUTCMonth day) + 1.

(** ** Validation *)

(** [/^\d{4}-\d{2}-\d{2}$/] and the three numbers of the string. *)
Definition date_parts (value : string) : option (Z * Z * Z) :=
  match split_char "-"%char value with
  | [y; m; d] =>
      if (all_digits y && (slen y =? 4)%nat) && (all_digits m && (slen m =? 2)%nat)
         && (all_digits d && (slen d =? 2)%nat)
      then Some (digits_value y, digits_value m, digits_value d) else None
  | _ => None
  end.

Definition isCalendarDate (value : string) : bool :=
  match date_parts value with
  | None => false
  | Some (year, month, day) =>
      let date := date_utc year (month - 1) day in
      (getUTCFullYear date =? year) && (getUTCMonth date =? month - 1) && (getUTCDate date =? day)
  end.

(** One of the string fields: absent and [null] are skipped. *)
Definition string_field (raw : list (string * json)) (field : string) : result QueryError (option string) :=
  match jget field raw with
  | None | Some JNull => Ok None
  | Some (JStr s) => Ok (Some s)
  | Some _ => Err (NotAString field)
  end.

(** [const value = query[field]?.trim(); if (value && !isCalendarDate(value)) throw ..] *)
Definition check_date (field : string) (value : option string) : result QueryError unit :=
  match trim <$> value with
  | None => Ok tt
  | Some v => if negb (str_empty v) && negb (isCalendarDate v) then Err (BadDate field) else Ok tt
  end.

Definition sort_field (raw : list (string * json)) : result QueryError (option QuerySort) :=
  match jget "sort" raw with
  | None | Some JNull => Ok None
  | Some (JStr s) =>
      match own_get s SORTS with
      | Some sort => Ok (Some sort)
      | None => Err BadSort
      end
  | Some _ => Err BadSort
  end.

Definition limit_field (raw : list (string * json)) : result QueryError (option number) :=
  match jget "limit" raw with
  | None | Some JNull => Ok None
  | Some (JNum x) => if negb (isInteger x) || num_le x 0 then Err BadLimit else Ok (Some x)
  | Some _ => Err BadLimit
  end.

Definition parseSourceQuery (body : json) : result QueryError SourceQuery :=
  match body with
  | JObj raw =>
      let unknown := List.filter (fun key => negb (has KNOWN_FIELDS key)) (jkeys raw) in
      match unknown with
      | _ :: _ => Err (UnknownFields unknown)
      | [] =>
          let? text := string_field raw "text" in
          let? title := string_field raw "title" in
          let? author := string_field raw "author" in
          let? after := string_field raw "after" in
          let? before := string_field raw "before" in
          let? type := string_field raw "type" in
          let? _ := check_date "after" after in
          let? _ := check_date "before" before in
          let? sort := sort_field raw in
          let? limit := limit_field raw in
          Ok (mkSourceQuery text title author after before type sort limit)
      end
  | _ => Err NotAnObject
  end.

(** ** Resolution *)

Record ResolvedQuery := mkResolvedQuery {
  r_text : option string;
  r_title : option string;
  r_author : option string;
  r_after : option string;
  r_before : option string;
  r_type : option string;
  r_sort : QuerySort;
  r_limit : number
}.

Definition clean (value : option string) : option string :=
  match trim <$> value with
  | Some trimmed => if str_empty trimmed then None else Some trimmed
  | None => None
  end.

Definition check_resolved_date (field : string) (value : option string) : result QueryError unit :=
  match value with
  | Some v => if isCalendarDate v then Ok tt else Err (BadDate field)
  | None => Ok tt
  end.

Definition resolve_sort (text : option string) (sort : option QuerySort) : QuerySort :=
  let requested := sort ?? (if truthy_str text then relevance else newest) in
  if decide (requested = relevance) then (if truthy_str text then relevance else newest) else requested.

Definition resolve_limit (limit : option number) : number :=
  match limit with
  | Some x => if isFinite x && num_ge x 1 then num_min (num_floor x) QUERY_MAX_LIMIT
              else num_of_Z QUERY_DEFAULT_LIMIT
  | None => num_of_Z QUERY_DEFAULT_LIMIT
  end.

Definition resolveQuery (query : SourceQuery) : result QueryError ResolvedQuery :=
  let text := clean (q_text query) in
  let after := clean (q_after query) in
  let before := clean (q_before query) in
  let? _ := check_resolved_date "after" after in
  let? _ := check_resolved_date "before" before in
  Ok (mkResolvedQuery text (clean (q_title query)) (clean (q_author query)) after before
        (toLowerCase <$> clean (q_type query)) (resolve_sort text (q_sort query))
        (resolve_limit (q_limit query))).

(** ** What the calendar means *)

Definition days_in_month (y m : Z) : Z :=
  if m =? 2 then (if InLeapYear y then 29 else 28)
  else if (m =? 4) || (m =? 6) || (m =? 9) || (m =? 11) then 30 else 31.

(** A date of the Gregorian calendar. *)
Definition real_date (y m d : Z) : Prop := 1 <= m <= 12 /\ 1 <= d <= days_in_month y m.

(** ** Lemmas *)

Lemma InLeapYear_days y : DayFromYear (y + 1) - DayFromYear y = if InLeapYear y then 366 else 365.
Proof.
  unfold DayFromYear, InLeapYear.
  destruct (Z.eqb_spec (y mod 4) 0), (Z.eqb_spec (y mod 100) 0), (Z.eqb_spec (y mod 400) 0); simpl;
    Z.div_mod_to_equations; lia.
Qed.

Lemma YearFromDay_spec day : DayFromYear (YearFromDay day) <= day < DayFromYear (YearFromDay day + 1).
Proof.
  unfold YearFromDay. set (y := 1970 + day * 400 / 146097).
  assert (DayFromYear (y - 1) <= day < DayFromYear (y + 2)) as Hb.
  { subst y. unfold DayFromYear. Z.div_mod_to_equations. lia. }
  destruct (Z.ltb_spec day (DayFromYear y)).
  - replace (y - 1 + 1) with y by lia. lia.
  - destruct (Z.leb_spec (DayFromYear (y + 1)) day); [|lia].
    replace (y + 1 + 1) with (y + 2) by lia. lia.
Qed.

Lemma DayFromYear_mono a b : a <= b -> DayFromYear a <= DayFromYear b.
Proof. intros H. unfold DayFromYear. Z.div_mod_to_equations. lia. Qed.

Lemma YearFromDay_unique y day : DayFromYear y <= day < DayFromYear (y + 1) -> YearFromDay day = y.
Proof.
  intros H. pose proof (YearFromDay_spec day) as Hs.
  destruct (Z.lt_trichotomy (YearFromDay day) y) as [Hlt|[?|Hgt]]; [|done|].
  - pose proof (DayFromYear_mono (YearFromDay day + 1) y ltac:(lia)). lia.
  - pose proof (DayFromYear_mono (y + 1) (YearFromDay day) ltac:(lia)). lia.
Qed.

Ltac month_cases m H :=
  assert (m = 0 \/ m = 1 \/ m = 2 \/ m = 3 \/ m = 4 \/ m = 5 \/ m = 6 \/ m = 7 \/ m = 8 \/ m = 9 \/ m = 10 \/ m = 11)
    as H by lia.

Lemma month_start_next leap y m : 0 <= m <= 11 -> InLeapYear y = leap ->
  month_start leap (m + 1) = month_start leap m + days_in_month y (m + 1).
Proof.
  intros Hm Hl. unfold days_in_month. rewrite Hl. month_cases m Hc.
  destruct leap; repeat destruct Hc as [->|Hc]; subst; reflexivity.
Qed.

(** The month found for day [n] of a year contains it. *)
Lemma month_search_spec (leap : bool) (n : Z) : 0 <= n < (if leap then 366 else 365) ->
  let m := month_search leap n [11; 10; 9; 8; 7; 6; 5; 4; 3; 2; 1; 0] in
  0 <= m <= 11 /\ month_start leap m <= n < month_start leap (m + 1).
Proof.
  intros Hn. cbn [month_search]. destruct leap; simpl month_start in *;
    repeat match goal with |- context [?a <=? n] => destruct (Z.leb_spec a n) end; simpl; lia.
Qed.

Lemma month_search_unique leap n m : 0 <= m <= 11 -> month_start leap m <= n < month_start leap (m + 1) ->
  month_search leap n [11; 10; 9; 8; 7; 6; 5; 4; 3; 2; 1; 0] = m.
Proof.
  intros Hm Hn. month_cases m Hc. cbn [month_search].
  destruct leap; repeat destruct Hc as [->|Hc]; subst; simpl month_start in *;
    repeat match goal with |- context [?a <=? n] => destruct (Z.leb_spec a n) end; lia.
Qed.

Lemma month_start_bound (leap : bool) (m : Z) :
  0 <= m <= 12 -> 0 <= month_start leap m <= (if leap then 366 else 365).
Proof.
  intros Hm. assert (m = 12 \/ 0 <= m <= 11) as [->|Hm'] by lia; [destruct leap; simpl; lia|].
  month_cases m Hc. destruct leap; repeat destruct Hc as [->|Hc]; subst; simpl; lia.
Qed.

(** What [Date] decodes is always a real date. *)
Lemma decode_real day : real_date (getUTCFullYear day) (getUTCMonth day + 1) (getUTCDate day).
Proof.
  pose proof (YearFromDay_spec day) as Hy. pose proof (InLeapYear_days (YearFromDay day)) as Hd.
  unfold getUTCFullYear, getUTCDate, getUTCMonth.
  destruct (month_search_spec (InLeapYear (YearFromDay day)) (day - DayFromYear (YearFromDay day)))
    as [Hm Hs]; [destruct (InLeapYear (YearFromDay day)); lia|].
  rewrite (month_start_next _ (YearFromDay day)) in Hs by done. split; lia.
Qed.

(** A real date survives the round trip. *)
Lemma decode_MakeDay y m d : real_date y m d ->
  let day := MakeDay y (m - 1) d in
  getUTCFullYear day = y /\ getUTCMonth day = m - 1 /\ getUTCDate day = d.
Proof.
  intros [Hm Hd]. simpl. unfold MakeDay.
  rewrite Z.div_small, Z.mod_small, Z.add_0_r by lia.
  set (day := DayFromYear y + month_start (InLeapYear y) (m - 1) + d - 1).
  pose proof (month_start_next (InLeapYear y) y (m - 1) ltac:(lia) eq_refl) as Hnext.
  replace (m - 1 + 1) with m in Hnext by lia.
  pose proof (month_start_bound (InLeapYear y) (m - 1) ltac:(lia)).
  pose proof (month_start_bound (InLeapYear y) m ltac:(lia)).
  pose proof (InLeapYear_days y).
  assert (YearFromDay day = y) as Hy by (apply YearFromDay_unique; destruct (InLeapYear y); lia).
  assert (getUTCMonth day = m - 1) as Hmo.
  { unfold getUTCMonth. rewrite Hy. apply month_search_unique; [lia|].
    replace (m - 1 + 1) with m by lia. lia. }
  unfold getUTCFullYear, getUTCDate. rewrite Hmo, Hy. lia.
Qed.

Lemma digits_value_4 y : all_digits y = true -> slen y = 4%nat -> 0 <= digits_value y <= 9999.
Proof.
  intros Hd Hl. destruct y as [|a [|b [|c [|e [|? ?]]]]]; try discriminate.
  apply andb_true_iff in Hd as [Ha [Hb [Hc [He _]%andb_true_iff]%andb_true_iff]%andb_true_iff].
  apply is_digit_value in Ha, Hb, Hc, He. unfold digits_value. simpl. lia.
Qed.

Lemma date_parts_year value y m d : date_parts value = Some (y, m, d) -> 0 <= y <= 9999.
Proof.
  unfold date_parts. destruct (split_char "-"%char value) as [|a [|b [|c [|? ?]]]]; try done.
  destruct (all_digits a && _) eqn:Ha; [|done]. simpl.
  destruct (_ && (slen b =? 2)%nat && _); [|done]. intros [= <- <- <-].
  apply andb_true_iff in Ha as [Ha Hl%Nat.eqb_eq]. by apply digits_value_4.
Qed.

(** The characters of a date: nothing a query language could take for syntax. *)
Definition date_char (c : ascii) : bool := is_digit c || Ascii.eqb c "-"%char.

Lemma str_forall_join_char p c ps :
  p c = true -> Forall (fun s => str_forall p s = true) ps -> str_forall p (join (String c EmptyString) ps) = true.
Proof.
  intros Hc H. induction H as [|x xs Hx Hxs IH]; [done|].
  destruct xs as [|y ys]; [done|]. rewrite join_cons, !str_forall_app, Hx, IH by done. simpl. by rewrite Hc.
Qed.

Lemma isCalendarDate_chars value : isCalendarDate value = true -> str_forall date_char value = true.
Proof.
  unfold isCalendarDate, date_parts. rewrite <- (join_split_char "-"%char value) at 2.
  destruct (split_char "-"%char value) as [|a [|b [|c [|? ?]]]]; try done.
  destruct (_ && _ && _) eqn:H; [|done]. intros _.
  apply andb_true_iff in H as [[[Ha _]%andb_true_iff [Hb _]%andb_true_iff]%andb_true_iff [Hc _]%andb_true_iff].
  apply str_forall_join_char; [done|].
  repeat constructor; (eapply str_forall_impl; [|eassumption]); intros x Hx; unfold date_char; by rewrite Hx.
Qed.

Lemma resolve_limit_bounds limit : exists z, resolve_limit limit = num_of_Z z /\ 1 <= z <= QUERY_MAX_LIMIT.
Proof.
  unfold resolve_limit, QUERY_MAX_LIMIT, QUERY_DEFAULT_LIMIT.
  destruct limit as [x|]; [|by exists 10].
  destruct (isFinite x && num_ge x 1) eqn:H; [|by exists 10].
  apply andb_true_iff in H as [Hf Hg%num_floor_ge]. destruct x as [|?|m e]; try done. simpl in *.
  rewrite Z.pow_0_r, Z.mul_1_r in *. apply Z.leb_le in Hg.
  destruct (Z.leb_spec (floor_dyadic m e) 25); [by eexists | by exists 25].
Qed.

Lemma resolve_sort_text text sort : resolve_sort text sort = relevance -> truthy_str text = true.
Proof. unfold resolve_sort. destruct (truthy_str text), sort as [[]|]; simpl; repeat case_decide; done. Qed.

Lemma check_date_clean field value :
  check_date field value = Ok tt <-> check_resolved_date field (clean value) = Ok tt.
Proof.
  unfold check_date, check_resolved_date, clean. destruct (trim <$> value) as [v|]; [|done].
  destruct (str_empty v); simpl; [done|]. by destruct (isCalendarDate v).
Qed.

Lemma check_resolved_date_Ok field value u :
  check_resolved_date field value = Ok u <-> match value with Some v => isCalendarDate v = true | None => True end.
Proof. unfold check_resolved_date. destruct u, value as [v|]; [|done]. by destruct (isCalendarDate v). Qed.

Lemma resolveQuery_Ok q r :
  resolveQuery q = Ok r <->
  check_resolved_date "after" (clean (q_after q)) = Ok tt /\
  check_resolved_date "before" (clean (q_before q)) = Ok tt /\
  r = mkResolvedQuery (clean (q_text q)) (clean (q_title q)) (clean (q_author q)) (clean (q_after q))
        (clean (q_before q)) (toLowerCase <$> clean (q_type q)) (resolve_sort (clean (q_text q)) (q_sort q))
        (resolve_limit (q_limit q)).
Proof.
  unfold resolveQuery. rewrite result_bind_Ok. split.
  - intros ([] & Ha & ([] & Hb & [= <-])%result_bind_Ok). done.
  - intros (Ha & Hb & ->). exists tt. split; [done|]. apply result_bind_Ok. by exists tt.
Qed.

Lemma parseSourceQuery_Ok body q :
  parseSourceQuery body = Ok q ->
  exists raw, body = JObj raw /\ (forall k, k ∈ jkeys raw -> k ∈ KNOWN_FIELDS) /\
    string_field raw "text" = Ok (q_text q) /\ string_field raw "title" = Ok (q_title q) /\
    string_field raw "author" = Ok (q_author q) /\ string_field raw "after" = Ok (q_after q) /\
    string_field raw "before" = Ok (q_before q) /\ string_field raw "type" = Ok (q_type q) /\
    check_date "after" (q_after q) = Ok tt /\ check_date "before" (q_before q) = Ok tt /\
    sort_field raw = Ok (q_sort q) /\ limit_field raw = Ok (q_limit q).
Proof.
  destruct body as [| | | | |raw]; try done. unfold parseSourceQuery.
  destruct (List.filter _ (jkeys raw)) as [|k ks] eqn:Hk; [|done].
  intros H. exists raw. split; [done|]. split.
  { intros k Hin. destruct (has KNOWN_FIELDS k) eqn:Hh; [by apply has_true|].
    assert (In k (List.filter (fun key => negb (has KNOWN_FIELDS key)) (jkeys raw))) as Hf.
    { apply List.filter_In. split; [by apply list_elem_of_In|]. by rewrite Hh. }
    by rewrite Hk in Hf. }
  repeat (apply result_bind_Ok in H as (? & ? & H)). injection H as <-. destruct_and?.
  repeat match goal with u : unit |- _ => destruct u end. by split_and!.
Qed.

Lemma isCalendarDate_accepts value y m d :
  date_parts value = Some (y, m, d) -> 100 <= y -> real_date y m d -> isCalendarDate value = true.
Proof.
  intros Hp H100 Hr. pose proof (date_parts_year _ _ _ _ Hp) as Hy. unfold isCalendarDate. rewrite Hp.
  unfold date_utc, MakeFullYear. destruct (Z.leb_spec 0 y), (Z.leb_spec y 99); try lia; simpl.
  destruct (decode_MakeDay y m d Hr) as (-> & -> & ->). by rewrite !Z.eqb_refl.
Qed.

(** ** Properties *)

(** [isCalendarDate], which goes through [Date.UTC] and back, accepts
    exactly the strings YYYY-MM-DD that name a day of the Gregorian calendar
    (leap years included) of the year 100 or later; the years 0 to 99, which
    [Date.UTC] moves to the twentieth century, are refused. *)
Theorem isCalendarDate_spec (value : string) :
  isCalendarDate value = true <->
  exists y m d, date_parts value = Some (y, m, d) /\ 100 <= y /\ real_date y m d.
Proof.
  split; [|intros (y & m & d & Hp & H100 & Hr); by eapply isCalendarDate_accepts].
  unfold isCalendarDate. destruct (date_parts value) as [[[y m] d]|] eqn:Hp; [|done].
  pose proof (date_parts_year _ _ _ _ Hp) as Hy. unfold date_utc, MakeFullYear.
  intros [[E1%Z.eqb_eq E2%Z.eqb_eq]%andb_true_iff E3%Z.eqb_eq]%andb_true_iff. exists y, m, d.
  match type of E1 with getUTCFullYear ?D = _ => pose proof (decode_real D) as Hr; pose proof (YearFromDay_spec D) as Hs end.
  unfold getUTCFullYear in E1 at 1. rewrite E1 in Hs. rewrite E2, E3 in Hr. unfold getUTCFullYear in Hr. rewrite E1 in Hr.
  replace (m - 1 + 1) with m in Hr by lia. split; [done|]. split; [|done].
  destruct (Z.leb_spec 100 y) as [|Hlt]; [done|]. exfalso.
  destruct (Z.leb_spec 0 y), (Z.leb_spec y 99); try lia. simpl in Hs. unfold MakeDay in Hs.
  destruct Hr as [Hm Hd]. rewrite Z.div_small, Z.mod_small, Z.add_0_r in Hs by lia.
  pose proof (DayFromYear_mono (y + 1) (1900 + y) ltac:(lia)).
  pose proof (month_start_bound (InLeapYear (1900 + y)) (m - 1) ltac:(lia)). lia.
Qed.

(** What a driver builds its provider query from: the dates are calendar
    dates, so they hold only digits and hyphens and cannot carry syntax of a
    query language; the limit is an integer from 1 to 25; "relevance" only
    comes with words to be relevant to. *)
Theorem resolveQuery_safe (q : SourceQuery) (r : ResolvedQuery) :
  resolveQuery q = Ok r ->
  (forall v, r_after r = Some v \/ r_before r = Some v ->
     isCalendarDate v = true /\ str_forall date_char v = true) /\
  (exists z, r_limit r = num_of_Z z /\ 1 <= z <= QUERY_MAX_LIMIT) /\
  (r_sort r = relevance -> truthy_str (r_text r) = true).
Proof.
  intros (Ha & Hb & ->)%resolveQuery_Ok. apply check_resolved_date_Ok in Ha, Hb. simpl.
  split_and!; [|apply resolve_limit_bounds|apply resolve_sort_text].
  intros v [Hv|Hv]; rewrite Hv in *; auto using isCalendarDate_chars.
Qed.

Definition sample_query : SourceQuery :=
  mkSourceQuery (Some " outage ") None None (Some "2024-02-29 ") None (Some "Page") None (Some (Finite 51 (-1))).

Lemma resolveQuery_safe_witness :
  exists r, resolveQuery sample_query = Ok r /\ exists z, r_limit r = num_of_Z z /\ 1 <= z <= QUERY_MAX_LIMIT.
Proof.
  eexists. split; [by vm_compute|].
  refine (proj1 (proj2 (resolveQuery_safe sample_query _ _))). by vm_compute.
Defined.

(** The route's validation is enough for every driver: a body that
    [parseSourceQuery] accepts has only known fields, and the drivers'
    [resolveQuery] never throws on the query it gives. *)
Theorem parseSourceQuery_resolves (body : json) (q : SourceQuery) :
  parseSourceQuery body = Ok q ->
  (exists raw, body = JObj raw /\ forall k, k ∈ jkeys raw -> k ∈ KNOWN_FIELDS) /\
  exists r, resolveQuery q = Ok r.
Proof.
  intros (raw & -> & Hk & _ & _ & _ & _ & _ & _ & Ha & Hb & _)%parseSourceQuery_Ok. split; [by exists raw|].
  eexists. apply resolveQuery_Ok. split; [by apply check_date_clean|]. split; [by apply check_date_clean|done].
Qed.

Lemma parseSourceQuery_resolves_witness :
  exists q, parseSourceQuery (JObj [("text", JStr "outage"); ("author", JNull); ("after", JStr " 2024-02-29 ");
                                    ("limit", JNum (num_of_Z 5))]) = Ok q /\ exists r, resolveQuery q = Ok r.
Proof.
  eexists. split; [by vm_compute|].
  refine (proj2 (parseSourceQuery_resolves (JObj [("text", JStr "outage"); ("author", JNull);
    ("after", JStr " 2024-02-29 "); ("limit", JNum (num_of_Z 5))]) _ _)). by vm_compute.
Defined.
