(* ===== verification/Auth.v ===== *)
(** * Connection broker: caller authentication and authorization

    apps/connection-broker/src/auth.ts and the shared helpers of
    apps/connection-broker/src/drivers/webhook-signature.ts. *)

From stdpp Require Import base gmap strings list sorting.
From Stdlib Require Import ZArith Lia Ascii.
From S2P Require Import Prelude JsString JsNumber Json.

(** ** Data *)

(** [Caller]: the orchestrator, or the sync worker of one connection. *)
Inductive Caller :=
| Orchestrator
| Sync (connection : string).

Inductive AuthError :=
| UnauthorizedError (message : string)
| ForbiddenError (message : string).

Record AuthConfig := mkAuthConfig {
  orchestratorToken : string;
  syncTokens : list (string * string)
}.

Inductive Operation := op_list | op_fetch | op_probe.

Inductive CredentialKind := service | delegated.

#[export] Instance CredentialKind_eq_dec : EqDecision CredentialKind.
Proof. solve_decision. Defined.
#[export] Instance Caller_eq_dec : EqDecision Caller.
Proof. solve_decision. Defined.
#[export] Instance Operation_eq_dec : EqDecision Operation.
Proof. solve_decision. Defined.

(** ** Secrets *)

(** [Buffer.from(s)]: the UTF-8 bytes; a code unit from 128 to 255 takes two. *)
Definition utf8_char (c : ascii) : list N :=
  let n := code c in
  if (n <? 128)%N then [n] else [(192 + n / 64)%N; (128 + n mod 64)%N].

Definition Buffer_from (s : string) : list N := concat (utf8_char <$> String.list_ascii_of_string s).

(** [timingSafeEqual] on two buffers of the same length. *)
Definition timingSafeEqual (a b : list N) : bool := bool_decide (a = b).

Definition secretsMatch (presented expected : string) : bool :=
  let a := Buffer_from presented in
  let b := Buffer_from expected in
  if (length a =? length b)%nat then timingSafeEqual a b else false.

(** ** Authentication *)

(** [s.replace(/^Bearer\s+/i, "")] *)
Definition strip_bearer (s : string) : string :=
  if bool_decide (toLowerCase (str_take 6 s) = "bearer") then
    let rest := str_drop 6 s in
    match rest with
    | String c _ => if is_ws c then drop_while is_ws rest else s
    | EmptyString => s
    end
  else s.

Definition bearer_token (authorization : option string) : string :=
  trim (strip_bearer (authorization ?? EmptyString)).

Fixpoint find_sync (token : string) (tokens : list (string * string)) : option string :=
  match tokens with
  | [] => None
  | (connection, expected) :: rest =>
      if secretsMatch token expected then Some connection else find_sync token rest
  end.

Definition authenticate (config : AuthConfig) (authorization : option string) : result AuthError Caller :=
  let token := bearer_token authorization in
  if str_empty token then Err (UnauthorizedError "missing bearer token")
  else if negb (str_empty (orchestratorToken config)) && secretsMatch token (orchestratorToken config)
  then Ok Orchestrator
  else match find_sync token (syncTokens config) with
       | Some connection => Ok (Sync connection)
       | None => Err (UnauthorizedError "unrecognized bearer token")
       end.

(** ** Authorization *)

Definition authorize (caller : Caller) (operation : Operation) (connection : string)
    (delegatedToken : option string) : result AuthError CredentialKind :=
  match caller with
  | Sync own =>
      if negb (bool_decide (own = connection))
      then Err (ForbiddenError ("sync caller for " +:+ own +:+ " may not act on " +:+ connection))
      else if decide (operation = op_probe)
      then Err (ForbiddenError "a sync caller cannot probe on behalf of a user")
      else Ok service
  | Orchestrator =>
      if decide (operation = op_list)
      then Err (ForbiddenError "the orchestrator may not list; that is the sync worker's operation")
      else if negb (truthy_str delegatedToken)
      then Err (ForbiddenError "the orchestrator must supply the calling user's delegated token; it may not use the service credential")
      else Ok delegated
  end.

(** ** Webhook signatures *)

Definition REPLAY_WINDOW_MS : Z := 5 * 60 * 1000.

Definition signaturesMatch (a b : string) : bool :=
  let left := Buffer_from a in
  let right := Buffer_from b in
  if (length left =? length right)%nat then timingSafeEqual left right else false.

(** [Math.abs(now - seconds * 1000) <= REPLAY_WINDOW_MS] for [seconds = m * 2^e],
    the products and the difference exact. *)
Definition within_window (now m e : Z) : bool :=
  (if 0 <=? e then Z.abs (now - m * 2 ^ e * 1000) <=? REPLAY_WINDOW_MS
   else Z.abs (now * 2 ^ (- e) - m * 1000) <=? REPLAY_WINDOW_MS * 2 ^ (- e))%Z.

(** [to_number] is the language's [Number(string)]. *)
Definition withinReplayWindow (to_number : string -> number) (timestampSeconds : option string) (now : Z) : bool :=
  if negb (truthy_str timestampSeconds) then false
  else match to_number (timestampSeconds ?? EmptyString) with
       | Finite m e => within_window now m e
       | _ => false
       end.

(** ** Lemmas *)

Lemma utf8_char_inj c d l l' : utf8_char c ++ l = utf8_char d ++ l' -> c = d /\ l = l'.
Proof.
  unfold utf8_char. intros H. assert (code c = code d /\ l = l') as [Hc ->].
  { pose proof (N.div_mod (code c) 64 ltac:(done)) as Hdc. pose proof (N.div_mod (code d) 64 ltac:(done)) as Hdd.
    revert Hdc Hdd H. generalize (code c / 64)%N (code c mod 64)%N (code d / 64)%N (code d mod 64)%N.
    intros qc rc qd rd Hdc Hdd H.
    destruct (N.ltb_spec (code c) 128), (N.ltb_spec (code d) 128); cbn [app] in H;
      repeat match goal with E : _ :: _ = _ :: _ |- _ => apply (inj2 cons) in E as [? ?] end;
      first [exfalso; lia | split; [lia|done]]. }
  split; [|done]. rewrite <- (ascii_N_embedding c), <- (ascii_N_embedding d).
  unfold code in Hc. by rewrite Hc.
Qed.

Lemma Buffer_from_inj s t : Buffer_from s = Buffer_from t -> s = t.
Proof.
  unfold Buffer_from. revert t. induction s as [|c s IH]; intros [|d t]; simpl; [done| | |].
  - unfold utf8_char. by destruct (_ <? _)%N.
  - unfold utf8_char. by destruct (_ <? _)%N.
  - intros [-> Ht]%utf8_char_inj. by rewrite (IH t Ht).
Qed.

(** The comparison of secrets is equality of strings. *)
Lemma secretsMatch_true s t : secretsMatch s t = true <-> s = t.
Proof.
  unfold secretsMatch, timingSafeEqual. split; [|intros ->; by rewrite Nat.eqb_refl, bool_decide_eq_true].
  destruct (_ =? _)%nat; [|done]. intros H%bool_decide_eq_true. by apply Buffer_from_inj.
Qed.

Lemma find_sync_Some token tokens c :
  find_sync token tokens = Some c -> (c, token) ∈ tokens.
Proof.
  induction tokens as [|[c' e] tokens IH]; simpl; [done|].
  destruct (secretsMatch token e) eqn:Hm; [apply secretsMatch_true in Hm as ->|].
  - intros [= ->]. by left.
  - intros H. right. by apply IH.
Qed.

Lemma find_sync_None token tokens :
  find_sync token tokens = None <-> forall c, (c, token) ∉ tokens.
Proof.
  induction tokens as [|[c' e] tokens IH]; simpl; [split; [intros _ c; by intros ?%elem_of_nil|done]|].
  destruct (secretsMatch token e) eqn:Hm.
  - apply secretsMatch_true in Hm as ->. split; [done|]. intros H. destruct (H c'). by left.
  - rewrite IH. split.
    + intros H c [[= -> <-]|Hin]%elem_of_cons; [|by apply (H c)].
      assert (secretsMatch token token = true) by by apply secretsMatch_true. congruence.
    + intros H c Hin. apply (H c). by right.
Qed.

Lemma authenticate_Ok config authorization caller :
  authenticate config authorization = Ok caller ->
  bearer_token authorization <> EmptyString /\
  match caller with
  | Orchestrator => bearer_token authorization = orchestratorToken config
  | Sync connection => (connection, bearer_token authorization) ∈ syncTokens config /\
      bearer_token authorization <> orchestratorToken config
  end.
Proof.
  unfold authenticate. destruct (str_empty (bearer_token authorization)) eqn:He; [done|].
  assert (bearer_token authorization <> EmptyString) as Hne by (intros H; by rewrite H in He).
  destruct (_ && _) eqn:Ho.
  - intros [= <-]. split; [done|]. apply andb_true_iff in Ho as [_ Ho]. by apply secretsMatch_true.
  - destruct (find_sync _ _) eqn:Hf; [|done]. intros [= <-]. split; [done|].
    split; [by apply find_sync_Some|]. intros Heq. apply andb_false_iff in Ho. rewrite <- Heq in Ho.
    rewrite He in Ho. destruct Ho as [|Ho]; [done|].
    assert (secretsMatch (bearer_token authorization) (bearer_token authorization) = true) by
      by apply secretsMatch_true. congruence.
Qed.

Lemma authorize_service caller operation connection token :
  authorize caller operation connection token = Ok service <->
  caller = Sync connection /\ operation <> op_probe.
Proof.
  destruct caller as [|own]; simpl.
  - split; [|naive_solver]. case_decide; [done|]. by destruct (negb (truthy_str token)).
  - destruct (decide (own = connection)) as [->|Hne].
    + rewrite bool_decide_true by done. simpl. case_decide; [naive_solver|]. naive_solver.
    + rewrite bool_decide_false by done. simpl. naive_solver.
Qed.

Lemma authorize_delegated caller operation connection token :
  authorize caller operation connection token = Ok delegated <->
  caller = Orchestrator /\ operation <> op_list /\ truthy_str token = true.
Proof.
  destruct caller as [|own]; simpl.
  - case_decide; [naive_solver|]. destruct (truthy_str token); naive_solver.
  - destruct (negb _); [naive_solver|]. case_decide; naive_solver.
Qed.

(** ** Properties *)

(** Authentication fails closed and is exact: a request is identified as
    the orchestrator only with the orchestrator's token, as a sync worker of a
    connection only with a token configured for that connection, and every
    other token, the empty one included, is refused. *)
Theorem authenticate_exact (config : AuthConfig) (authorization : option string) :
  let token := bearer_token authorization in
  match authenticate config authorization with
  | Ok Orchestrator => token <> EmptyString /\ token = orchestratorToken config
  | Ok (Sync connection) => token <> EmptyString /\ (connection, token) ∈ syncTokens config
  | Err e =>
      (exists m, e = UnauthorizedError m) /\
      (token = EmptyString \/ (token <> orchestratorToken config /\ forall c, (c, token) ∉ syncTokens config))
  end.
Proof.
  simpl. destruct (authenticate config authorization) as [caller|e] eqn:Ha.
  { apply authenticate_Ok in Ha as [Hne Hc]. destruct caller; naive_solver. }
  unfold authenticate in Ha. destruct (str_empty (bearer_token authorization)) eqn:He.
  { injection Ha as <-. split; [by eexists|]. left. by apply str_empty_true. }
  destruct (_ && _) eqn:Ho; [done|]. destruct (find_sync _ _) eqn:Hf; [done|]. injection Ha as <-.
  split; [by eexists|]. right. split; [|by apply find_sync_None].
  intros Heq. rewrite <- Heq, He in Ho. simpl in Ho.
  assert (secretsMatch (bearer_token authorization) (bearer_token authorization) = true) by
    by apply secretsMatch_true. congruence.
Qed.

(** Which credential a caller may cause to be used, in full: the service
    credential exactly for a sync worker acting on its own connection and not
    probing, a user's delegated token exactly for the orchestrator that
    supplies one and does not list. *)
Theorem authorize_exact (caller : Caller) (operation : Operation) (connection : string)
    (delegatedToken : option string) (kind : CredentialKind) :
  authorize caller operation connection delegatedToken = Ok kind <->
  (kind = service /\ caller = Sync connection /\ operation <> op_probe) \/
  (kind = delegated /\ caller = Orchestrator /\ operation <> op_list /\ truthy_str delegatedToken = true).
Proof.
  destruct kind; [rewrite authorize_service | rewrite authorize_delegated]; naive_solver.
Qed.
