(* ===== verification/Broker.v ===== *)
(** * Connection broker: the HTTP surface (apps/connection-broker/src/server.ts)

    [handle] is the whole request handler, in a world [W] that the drivers,
    the scheduler and the webhook listener change. *)

From stdpp Require Import base gmap strings list sorting.
From Stdlib Require Import ZArith Lia Ascii.
From S2P Require Import Prelude JsString JsNumber Json JsMap Chunk Driver Registry Query Auth.

#[local] Open Scope Z_scope.

(** ** Data *)

Record SyncSummary := mkSyncSummary {
  sum_indexed : Z;
  sum_removed : Z;
  sum_full : bool
}.

Record Webhooks (W : Type) := mkWebhooks {
  secretFor : string -> option string;
  onChange : string -> list string -> SM W DriverError unit
}.

Record ServerOptions (W : Type) := mkServerOptions {
  opt_auth : AuthConfig;
  opt_registry : CorpusRegistry (Driver W);
  opt_runSync : option (string -> SM W DriverError (option SyncSummary));
  opt_webhooks : option (Webhooks W)
}.

Arguments mkWebhooks {W}.
Arguments secretFor {W} w.
Arguments onChange {W} w.
Arguments mkServerOptions {W}.
Arguments opt_auth {W} s.
Arguments opt_registry {W} s.
Arguments opt_runSync {W} s.
Arguments opt_webhooks {W} s.

Record IncomingMessage := mkIncomingMessage {
  req_url : option string;
  req_method : option string;
  req_headers : list (string * HeaderValue);
  req_chunks : list string
}.

(** What the handler reads of a parsed [URL]. *)
Record ParsedUrl := mkParsedUrl {
  pathname : string;
  searchParams : list (string * string)
}.

Inductive Body :=
| BHealth
| BError (message : string)
| BQueryError (e : QueryError)
| BDocument (d : Document)
| BHits (hits : list SearchHit)
| BQuery (r : QueryResult)
| BReport (r : SyncSummary)
| BProbe (r : ProbeResult)
| BPage (p : ListPage)
| BActed (acted : bool) (counts : option (nat * nat)).

Record Response := mkResponse {
  status : Z;
  body : Body
}.

Inductive RouteKind := k_resources | k_documents | k_search | k_query | k_probe | k_sync | k_webhook.

#[export] Instance RouteKind_eq_dec : EqDecision RouteKind.
Proof. solve_decision. Defined.

Record Route := mkRoute {
  route_name : string;
  route_kind : RouteKind;
  route_id : option string
}.

Definition DELEGATED_TOKEN_HEADER : string := "x-delegated-token".
Definition MAX_BODY : nat := Z.to_nat (64 * 1024).
Definition MAX_WEBHOOK_BODY : nat := Z.to_nat (256 * 1024).

(** ** Helpers *)

Definition header (req : IncomingMessage) (name : string) : option string :=
  match own_get name (req_headers req) with
  | Some (OneValue s) => Some s
  | Some (ManyValues l) => head l
  | None => None
  end.

Definition slift {W E A : Type} (r : result E A) : SM W E A := fun w => (r, w).

(** The loop of [readBodyText] and [readRawBody] over the chunks of the body. *)
Fixpoint read_chunks (limit : nat) (message : string) (size : nat) (acc : string) (chunks : list string) :
    result DriverError string :=
  match chunks with
  | [] => Ok acc
  | chunk :: rest =>
      let size' := (size + slen chunk)%nat in
      if (limit <? size')%nat then Err (OtherError message)
      else read_chunks limit message size' (acc +:+ chunk) rest
  end.

Definition coversScope (scope : Scope) (scopeKey : option string) : bool :=
  match scopeKey with
  | Some key =>
      if str_empty key then true
      else bool_decide (scope_space scope = Some key) || bool_decide (scope_channel scope = Some key)
           || bool_decide (scope_folderID scope = Some key)
  | None => true
  end.

Section Server.
Context {W : Type}.
(** [new URL(raw, base)], [decodeURIComponent], [JSON.parse], [Number] on a
    string, and the UTF-8 decoding of the bytes of a body. *)
Variable parse_url : string -> result string ParsedUrl.
Variable decodeURIComponent : string -> result string string.
Variable JSON_parse : string -> option json.
Variable to_number : string -> number.
Variable utf8_toString : string -> string.

(** ** Routes *)

Definition path_parts (path : string) : list string :=
  List.filter (fun p => negb (str_empty p)) (split_char "/"%char path).

Definition corpus_route (name : string) (rest : list string) : result string (option Route) :=
  match rest with
  | ["probe"] => Ok (Some (mkRoute name k_probe None))
  | ["sync"] => Ok (Some (mkRoute name k_sync None))
  | ["documents"; id] => let? id := decodeURIComponent id in Ok (Some (mkRoute name k_documents (Some id)))
  | ["search"] => Ok (Some (mkRoute name k_search None))
  | ["query"] => Ok (Some (mkRoute name k_query None))
  | ["resources"] => Ok (Some (mkRoute name k_resources None))
  | ["resources"; id] => let? id := decodeURIComponent id in Ok (Some (mkRoute name k_resources (Some id)))
  | _ => Ok None
  end.

Definition parseRoute (path : string) : result string (option Route) :=
  match path_parts path with
  | part0 :: part1 :: rest =>
      let? name := decodeURIComponent part1 in
      if bool_decide (part0 = "corpora") then corpus_route name rest
      else if bool_decide (part0 = "connections") && bool_decide (rest = ["webhook"])
      then Ok (Some (mkRoute name k_webhook None))
      else Ok None
  | _ => Ok None
  end.

Definition kind_name (kind : RouteKind) : string :=
  match kind with
  | k_resources => "resources"
  | k_documents => "documents"
  | k_search => "search"
  | k_query => "query"
  | k_probe => "probe"
  | k_sync => "sync"
  | k_webhook => "webhook"
  end.

Definition is_user_read (kind : RouteKind) : bool :=
  match kind with
  | k_documents | k_search | k_query => true
  | _ => false
  end.

Definition operation_of (route : Route) : Operation :=
  if decide (route_kind route = k_probe) then op_probe
  else if is_user_read (route_kind route) || truthy_str (route_id route) then op_fetch
  else op_list.

(** ** Webhooks *)

Definition not_found : Response := mkResponse 404 (BError "not found").

Definition webhook_candidates (registry : CorpusRegistry (Driver W)) (connection : string) :
    list (CorpusBinding (Driver W)) :=
  List.filter (fun b => bool_decide (binding_connection b = connection)) (reg_list registry).

Definition webhook_targets (event : WebhookEvent) (candidates : list (CorpusBinding (Driver W))) :
    list (CorpusBinding (Driver W)) :=
  List.filter (fun b => coversScope (binding_scope b) (event_scopeKey event)) candidates.

Definition notify (webhooks : Webhooks W) (event : WebhookEvent) (targets : list (CorpusBinding (Driver W))) :
    SM W DriverError unit :=
  sfold (fun _ target => onChange webhooks (binding_name target) (event_sourceIds event)) tt targets.

Definition webhook_act (webhooks : Webhooks W) (candidates : list (CorpusBinding (Driver W)))
    (event : option WebhookEvent) : SM W DriverError Response :=
  match event with
  | None => sret (mkResponse 200 (BActed false None))
  | Some event =>
      match webhook_targets event candidates with
      | [] => sret (mkResponse 200 (BActed false None))
      | targets =>
          do! _ <- notify webhooks event targets ;;
          sret (mkResponse 202 (BActed true (Some (length targets, length (event_sourceIds event)))))
      end
  end.

(** [None] of the inner computation is a signature that does not verify. *)
Definition verify (parse : WebhookRequest -> string -> SM W DriverError (option WebhookEvent))
    (request : WebhookRequest) (secret : string) : SM W DriverError (option (option WebhookEvent)) :=
  scatch (do! event <- parse request secret ;; sret (Some event))
    (fun e => match e with
              | PermissionDeniedError _ => sret None
              | _ => sthrow e
              end).

Definition handleWebhook (options : ServerOptions W) (connection : string) (req : IncomingMessage) :
    SM W DriverError Response :=
  let candidates := webhook_candidates (opt_registry options) connection in
  match opt_webhooks options, candidates with
  | Some webhooks, first :: _ =>
      match secretFor webhooks connection with
      | None => sret not_found
      | Some secret =>
          if str_empty secret then sret not_found
          else match parseWebhook (binding_driver first) with
               | None => sret not_found
               | Some parse =>
                   do! raw <- slift (read_chunks MAX_WEBHOOK_BODY "webhook body too large" 0 EmptyString (req_chunks req)) ;;
                   do! verified <- verify parse (mkWebhookRequest (req_headers req) (utf8_toString raw)) secret ;;
                   match verified with
                   | None => sret (mkResponse 401 (BError "signature verification failed"))
                   | Some event => webhook_act webhooks candidates event
                   end
               end
      end
  | _, _ => sret not_found
  end.

(** ** Data routes *)

Definition do_documents (b : CorpusBinding (Driver W)) (credentials : Credentials) (route : Route) :
    SM W DriverError Response :=
  match readAsUser (binding_driver b) with
  | None => sret (mkResponse 404 (BError (provider (binding_driver b) +:+ " has no user read")))
  | Some read =>
      do! document <- read credentials (route_id route ?? EmptyString) ;;
      sret (mkResponse 200 (BDocument document))
  end.

Definition search_limit (limit : number) : number :=
  if isFinite limit && num_gt limit 0 then num_min limit 25 else num_of_Z 10.

Definition do_search (b : CorpusBinding (Driver W)) (credentials : Credentials) (url : ParsedUrl) :
    SM W DriverError Response :=
  match searchAsUser (binding_driver b) with
  | None => sret (mkResponse 404 (BError (provider (binding_driver b) +:+ " has no live search")))
  | Some search =>
      let query := own_get "q" (searchParams url) ?? EmptyString in
      let limit := to_number (own_get "limit" (searchParams url) ?? "10") in
      do! hits <- search credentials (binding_scope b) query (search_limit limit) ;;
      sret (mkResponse 200 (BHits hits))
  end.

Definition with_limit (q : SourceQuery) (limit : number) : SourceQuery :=
  mkSourceQuery (q_text q) (q_title q) (q_author q) (q_after q) (q_before q) (q_type q) (q_sort q) (Some limit).

(** The body of a query: the empty one is [{}]. *)
Definition query_body (text : string) : option json :=
  if (0 <? slen (trim text))%nat then JSON_parse text else Some (JObj []).

Definition do_query (b : CorpusBinding (Driver W)) (credentials : Credentials) (req : IncomingMessage) :
    SM W DriverError Response :=
  match queryAsUser (binding_driver b) with
  | None => sret (mkResponse 404 (BError (provider (binding_driver b) +:+ " has no structured query")))
  | Some run =>
      do! bytes <- slift (read_chunks MAX_BODY "request body too large" 0 EmptyString (req_chunks req)) ;;
      match query_body (utf8_toString bytes) with
      | None => sret (mkResponse 400 (BError "query body is not valid JSON"))
      | Some raw =>
          match parseSourceQuery raw with
          | Err e => sret (mkResponse 400 (BQueryError e))
          | Ok query =>
              do! result <- run credentials (binding_scope b)
                (with_limit query (num_min (q_limit query ?? num_of_Z QUERY_DEFAULT_LIMIT) QUERY_MAX_LIMIT)) ;;
              sret (mkResponse 200 (BQuery result))
          end
      end
  end.

Definition do_sync (options : ServerOptions W) (route : Route) : SM W DriverError Response :=
  match opt_runSync options with
  | None => sret (mkResponse 404 (BError "this broker does not index"))
  | Some runSync =>
      do! report <- runSync (route_name route) ;;
      sret match report with
           | None => mkResponse 409 (BError "a pass is already running")
           | Some report => mkResponse 200 (BReport report)
           end
  end.

(** [readJson]: a body that is not a JSON object reads as the empty one. *)
Definition json_object (text : string) : list (string * json) :=
  if str_empty text then []
  else match JSON_parse text with
       | Some (JObj fields) => fields
       | _ => []
       end.

Definition probe_id (fields : list (string * json)) : option string :=
  match jget "sourceId" fields with
  | Some (JStr id) => Some id
  | _ => None
  end.

Definition do_probe (b : CorpusBinding (Driver W)) (credentials : Credentials) (req : IncomingMessage) :
    SM W DriverError Response :=
  do! bytes <- slift (read_chunks MAX_BODY "request body too large" 0 EmptyString (req_chunks req)) ;;
  do! result <- probe (binding_driver b) (binding_scope b) credentials (probe_id (json_object (utf8_toString bytes))) ;;
  sret (mkResponse 200 (BProbe result)).

Definition do_resources (b : CorpusBinding (Driver W)) (credentials : Credentials) (route : Route) (url : ParsedUrl) :
    SM W DriverError Response :=
  if truthy_str (route_id route) then
    do! document <- fetch (binding_driver b) (binding_scope b) credentials (route_id route ?? EmptyString) ;;
    sret (mkResponse 200 (BDocument document))
  else
    do! page <- list_resources (binding_driver b) (binding_scope b) credentials (own_get "cursor" (searchParams url)) ;;
    sret (mkResponse 200 (BPage page)).

Definition dispatch (options : ServerOptions W) (b : CorpusBinding (Driver W)) (credentials : Credentials)
    (route : Route) (url : ParsedUrl) (req : IncomingMessage) : SM W DriverError Response :=
  match route_kind route with
  | k_documents => do_documents b credentials route
  | k_search => do_search b credentials url
  | k_query => do_query b credentials req
  | k_sync => do_sync options route
  | k_probe => do_probe b credentials req
  | _ => do_resources b credentials route url
  end.

(** The [catch] of the handler: what each class of failure answers. *)
Definition classify (e : DriverError) : SM W DriverError Response :=
  match e with
  | PermissionDeniedError m => sret (mkResponse 403 (BError m))
  | TransientError m => sret (mkResponse 503 (BError m))
  | PermanentError m => sret (mkResponse 500 (BError m))
  | QueryValidationError q => sret (mkResponse 400 (BQueryError q))
  | OtherError _ => sthrow e
  end.

Definition grant (auth : AuthConfig) (req : IncomingMessage) (route : Route) : result AuthError CredentialKind :=
  let? caller := authenticate auth (header req "authorization") in
  authorize caller (operation_of route) (route_name route) (header req DELEGATED_TOKEN_HEADER).

Definition credentials_for (kind : CredentialKind) (b : CorpusBinding (Driver W)) (req : IncomingMessage) : Credentials :=
  match kind with
  | service => mkCredentials (Some (binding_serviceToken b)) None
  | delegated => mkCredentials None (header req DELEGATED_TOKEN_HEADER)
  end.

Definition handle_data (options : ServerOptions W) (route : Route) (url : ParsedUrl) (req : IncomingMessage) :
    SM W DriverError Response :=
  match grant (opt_auth options) req route with
  | Err (UnauthorizedError m) => sret (mkResponse 401 (BError m))
  | Err (ForbiddenError m) => sret (mkResponse 403 (BError m))
  | Ok kind =>
      match reg_get (opt_registry options) (route_name route) with
      | None => sret (mkResponse 404 (BError ("no such corpus: " +:+ route_name route)))
      | Some b =>
          if is_user_read (route_kind route) && negb (bool_decide (kind = delegated))
          then sret (mkResponse 403 (BError (kind_name (route_kind route) +:+
                       " is a read on a user's behalf and requires a delegated token")))
          else scatch (dispatch options b (credentials_for kind b req) route url req) classify
      end
  end.

Definition handle_throwing (options : ServerOptions W) (req : IncomingMessage) : SM W DriverError Response :=
  match parse_url (req_url req ?? "/") with
  | Err e => sthrow (OtherError e)
  | Ok url =>
      if bool_decide (pathname url = "/healthz") then sret (mkResponse 200 BHealth)
      else match parseRoute (pathname url) with
           | Err e => sthrow (OtherError e)
           | Ok None => sret not_found
           | Ok (Some route) =>
               if bool_decide (route_kind route = k_query) && negb (bool_decide (req_method req = Some "POST"))
               then sret (mkResponse 405 (BError "query is POST only"))
               else if decide (route_kind route = k_webhook) then handleWebhook options (route_name route) req
               else handle_data options route url req
           end
  end.

(** [createBrokerServer]: what is thrown is logged and answered 500. *)
Definition handle (options : ServerOptions W) (req : IncomingMessage) : SM W DriverError Response :=
  scatch (handle_throwing options req) (fun _ => sret (mkResponse 500 (BError "internal error"))).
End Server.
