(* ===== verification/BrokerSafety.v ===== *)
(** * Connection broker: which credential is spent, on what

    The drivers, the sync trigger and the webhook listener of a server are
    wrapped so that every call they receive is recorded ([trace_options]); the
    theorems bound the record of any request. *)

From stdpp Require Import base gmap strings list sorting.
From Stdlib Require Import ZArith Lia Ascii.
From S2P Require Import Prelude JsString JsNumber Json JsMap Chunk Driver Registry Query Auth Broker.

#[local] Open Scope Z_scope.

(** ** The record of calls *)

Inductive Call :=
| CallList (corpus : string) (scope : Scope) (credentials : Credentials)
| CallFetch (corpus : string) (scope : Scope) (credentials : Credentials) (id : string)
| CallProbe (corpus : string) (scope : Scope) (credentials : Credentials)
| CallRead (corpus : string) (credentials : Credentials) (id : string)
| CallSearch (corpus : string) (scope : Scope) (credentials : Credentials)
| CallQuery (corpus : string) (scope : Scope) (credentials : Credentials) (query : SourceQuery)
| CallSync (corpus : string)
| CallNotify (corpus : string) (sourceIds : list string).

Section Traced.
Context {W : Type}.
Definition TW : Type := (W * list Call)%type.

(** [m] in the recorded world, without a record of its own. *)
Definition silent {E A : Type} (m : SM W E A) : SM TW E A :=
  fun w => let '(r, w1) := m w.1 in (r, (w1, w.2)).

Definition recorded {E A : Type} (c : Call) (m : SM W E A) : SM TW E A :=
  fun w => let '(r, w1) := m w.1 in (r, (w1, w.2 ++ [c])).

Definition trace_driver (n : string) (d : Driver W) : Driver TW :=
  mkDriver (provider d) (validateScope d)
    (fun scope cred cursor => recorded (CallList n scope cred) (list_resources d scope cred cursor))
    (fun scope cred id => recorded (CallFetch n scope cred id) (fetch d scope cred id))
    (probeGranularity d)
    (fun scope cred id => recorded (CallProbe n scope cred) (probe d scope cred id))
    ((fun parse request secret => silent (parse request secret)) <$> parseWebhook d)
    ((fun read cred id => recorded (CallRead n cred id) (read cred id)) <$> readAsUser d)
    ((fun search cred scope q limit => recorded (CallSearch n scope cred) (search cred scope q limit)) <$> searchAsUser d)
    ((fun run cred scope q => recorded (CallQuery n scope cred q) (run cred scope q)) <$> queryAsUser d).

Definition trace_binding (b : CorpusBinding (Driver W)) : CorpusBinding (Driver TW) :=
  mkCorpusBinding (binding_name b) (binding_connection b) (trace_driver (binding_name b) (binding_driver b))
    (binding_scope b) (binding_allowedRoles b) (binding_serviceToken b).

Definition trace_options (o : ServerOptions W) : ServerOptions TW :=
  mkServerOptions (opt_auth o)
    (mkCorpusRegistry (fun n => trace_binding <$> reg_get (opt_registry o) n) (trace_binding <$> reg_list (opt_registry o)))
    ((fun runSync n => recorded (CallSync n) (runSync n)) <$> opt_runSync o)
    ((fun hooks => mkWebhooks (secretFor hooks)
        (fun n ids => recorded (CallNotify n ids) (onChange hooks n ids))) <$> opt_webhooks o).

(** [m'] does what [m] does, and records only calls that satisfy [P]. *)
Definition traces {E A : Type} (P : Call -> Prop) (m : SM W E A) (m' : SM TW E A) : Prop :=
  forall w l, exists l', Forall P l' /\ m' (w, l) = ((m w).1, ((m w).2, l ++ l')).

(** ** Rules for [traces] *)

Lemma traces_ret {E A : Type} P (a : A) : traces (E := E) P (sret a) (sret a).
Proof. intros w l. exists []. split; [done|]. by rewrite app_nil_r. Qed.

Lemma traces_throw {E A : Type} P (e : E) : traces (A := A) P (sthrow e) (sthrow e).
Proof. intros w l. exists []. split; [done|]. by rewrite app_nil_r. Qed.

Lemma traces_lift {E A : Type} P (r : result E A) : traces P (slift r) (slift r).
Proof. intros w l. exists []. split; [done|]. by rewrite app_nil_r. Qed.

Lemma traces_silent {E A : Type} P (m : SM W E A) : traces P m (silent m).
Proof. intros w l. exists []. split; [done|]. unfold silent. simpl. destruct (m w). by rewrite app_nil_r. Qed.

Lemma traces_recorded {E A : Type} (P : Call -> Prop) c (m : SM W E A) : P c -> traces P m (recorded c m).
Proof. intros Hc w l. exists [c]. split; [by constructor|]. unfold recorded. simpl. by destruct (m w). Qed.

(** The continuation may use that the first part returned [a]. *)
Lemma traces_bind {E A B : Type} P (f : A -> SM W E B) f' (m : SM W E A) m' :
  traces P m m' -> (forall a, (exists w w', m w = (Ok a, w')) -> traces P (f a) (f' a)) ->
  traces P (sbind f m) (sbind f' m').
Proof.
  intros Hm Hf w l. destruct (Hm w l) as (l1 & Hl1 & E1). unfold sbind. rewrite E1.
  destruct (m w) as [[a|e] w1] eqn:Hw; simpl in *; [|by exists l1].
  destruct (Hf a ltac:(eauto) w1 (l ++ l1)) as (l2 & Hl2 & E2). exists (l1 ++ l2).
  split; [by apply Forall_app|]. by rewrite E2, app_assoc.
Qed.

Lemma traces_catch {E A : Type} P (m : SM W E A) m' (h : E -> SM W E A) h' :
  traces P m m' -> (forall e, traces P (h e) (h' e)) -> traces P (scatch m h) (scatch m' h').
Proof.
  intros Hm Hh w l. destruct (Hm w l) as (l1 & Hl1 & E1). unfold scatch. rewrite E1.
  destruct (m w) as [[a|e] w1]; simpl in *; [by exists l1|].
  destruct (Hh e w1 (l ++ l1)) as (l2 & Hl2 & E2). exists (l1 ++ l2).
  split; [by apply Forall_app|]. by rewrite E2, app_assoc.
Qed.
End Traced.

Create HintDb tracedb.
#[export] Hint Resolve traces_ret traces_throw traces_lift traces_silent traces_recorded : tracedb.

(** Goes through a handler: the calls it makes are left as goals [P c]. *)
Ltac trace_step :=
  match goal with
  | |- traces _ (sbind _ _) (sbind _ _) => apply traces_bind; [|intros ? ?]
  | |- traces _ (scatch _ _) (scatch _ _) => apply traces_catch; [|intros ?]
  | |- traces _ (sret _) (sret _) => apply traces_ret
  | |- traces _ (sthrow _) (sthrow _) => apply traces_throw
  | |- traces _ (slift _) (slift _) => apply traces_lift
  | |- traces _ _ (silent _) => apply traces_silent
  | |- traces _ _ (recorded _ _) => apply traces_recorded
  | |- traces _ (match ?x with _ => _ end) _ => destruct x eqn:?; simpl
  end.

(** ** What a request may do *)

Section Authorized.
Context {W : Type}.
Variable parse_url : string -> result string ParsedUrl.
Variable decodeURIComponent : string -> result string string.
Variable JSON_parse : string -> option json.
Variable to_number : string -> number.
Variable utf8_toString : string -> string.

(** The request is a data request for the corpus of [b], by [caller]. *)
Definition requested (o : ServerOptions W) (req : IncomingMessage) (caller : Caller) (kind : RouteKind)
    (b : CorpusBinding (Driver W)) : Prop :=
  exists url route,
    parse_url (req_url req ?? "/") = Ok url /\ parseRoute decodeURIComponent (pathname url) = Ok (Some route) /\
    route_kind route = kind /\ authenticate (opt_auth o) (header req "authorization") = Ok caller /\
    reg_get (opt_registry o) (route_name route) = Some b.

(** The caller is the orchestrator and [c] is the token of the user it acts for. *)
Definition users_token (req : IncomingMessage) (caller : Caller) (c : Credentials) : Prop :=
  caller = Orchestrator /\ exists t, t <> EmptyString /\ header req DELEGATED_TOKEN_HEADER = Some t /\
  c = mkCredentials None (Some t).

(** The caller is the sync worker of [b] and [c] is the service credential of [b]. *)
Definition workers_token (caller : Caller) (b : CorpusBinding (Driver W)) (c : Credentials) : Prop :=
  caller = Sync (binding_name b) /\ c = mkCredentials (Some (binding_serviceToken b)) None.

Definition call_allowed (o : ServerOptions W) (req : IncomingMessage) (c : Call) : Prop :=
  match c with
  | CallNotify n ids =>
      exists b hooks secret first parse request event w w',
        b ∈ reg_list (opt_registry o) /\ binding_name b = n /\
        opt_webhooks o = Some hooks /\ secretFor hooks (binding_connection b) = Some secret /\ secret <> EmptyString /\
        first ∈ reg_list (opt_registry o) /\ binding_connection first = binding_connection b /\
        parseWebhook (binding_driver first) = Some parse /\
        parse request secret w = (Ok (Some event), w') /\
        coversScope (binding_scope b) (event_scopeKey event) = true /\ ids = event_sourceIds event
  | _ =>
      exists caller kind b, requested o req caller kind b /\
      match c with
      | CallList n s cred => n = binding_name b /\ s = binding_scope b /\ kind = k_resources /\ workers_token caller b cred
      | CallFetch n s cred id => n = binding_name b /\ s = binding_scope b /\ kind = k_resources /\
          (workers_token caller b cred \/ users_token req caller cred)
      | CallProbe n s cred => n = binding_name b /\ s = binding_scope b /\ kind = k_probe /\ users_token req caller cred
      | CallRead n cred id => n = binding_name b /\ kind = k_documents /\ users_token req caller cred
      | CallSearch n s cred => n = binding_name b /\ s = binding_scope b /\ kind = k_search /\ users_token req caller cred
      | CallQuery n s cred q => n = binding_name b /\ s = binding_scope b /\ kind = k_query /\ users_token req caller cred
      | CallSync n => n = binding_name b /\ kind = k_sync /\ caller = Sync n
      | CallNotify _ _ => False
      end
  end.
End Authorized.

(** ** The handlers, traced *)

Section Handlers.
Context {W : Type}.
Variable parse_url : string -> result string ParsedUrl.
Variable decodeURIComponent : string -> result string string.
Variable JSON_parse : string -> option json.
Variable to_number : string -> number.
Variable utf8_toString : string -> string.
Variable o : ServerOptions W.
Variable req : IncomingMessage.
Context `{!RegistryLaws (opt_registry o)}.

#[local] Abbreviation P := (call_allowed parse_url decodeURIComponent o req).

Lemma parseRoute_sync_id decode path route :
  parseRoute decode path = Ok (Some route) -> route_kind route = k_sync -> route_id route = None.
Proof.
  unfold parseRoute. destruct (path_parts path) as [|p0 [|p1 rest]]; try done.
  intros (n & _ & Hr)%result_bind_Ok Hk. case_bool_decide.
  - unfold corpus_route in Hr. repeat (case_match; try done); inv_result; simplify_eq/=; done.
  - case_match; [|done]. by simplify_eq/=.
Qed.

(** What a grant says of the caller and the credentials handed to the driver. *)
Lemma grant_credentials route kind (b : CorpusBinding (Driver W)) :
  grant (opt_auth o) req route = Ok kind -> reg_get (opt_registry o) (route_name route) = Some b ->
  exists caller, authenticate (opt_auth o) (header req "authorization") = Ok caller /\
  route_name route = binding_name b /\
  ((kind = service /\ operation_of route <> op_probe /\ workers_token caller b (credentials_for kind b req)) \/
   (kind = delegated /\ operation_of route <> op_list /\ users_token req caller (credentials_for kind b req))).
Proof.
  unfold grant. intros (caller & Ha & Hz)%result_bind_Ok Hb. exists caller. split; [done|].
  pose proof (reg_get_name _ _ Hb) as Hn. split; [done|]. destruct kind.
  - left. apply authorize_service in Hz as [-> Hop]. split_and!; [done|done|]. unfold workers_token. by rewrite Hn.
  - right. apply authorize_delegated in Hz as (-> & Hop & Ht). split_and!; [done|done|]. split; [done|].
    destruct (header req DELEGATED_TOKEN_HEADER) as [t|] eqn:Et; [|done]. exists t. split_and!; [|done|].
    + by intros ->.
    + simpl. by rewrite Et.
Qed.

Lemma traces_dispatch url route kind (b : CorpusBinding (Driver W)) :
  parse_url (req_url req ?? "/") = Ok url -> parseRoute decodeURIComponent (pathname url) = Ok (Some route) ->
  route_kind route <> k_webhook ->
  grant (opt_auth o) req route = Ok kind -> reg_get (opt_registry o) (route_name route) = Some b ->
  is_user_read (route_kind route) && negb (bool_decide (kind = delegated)) = false ->
  traces P (dispatch JSON_parse to_number utf8_toString o b (credentials_for kind b req) route url req)
    (dispatch JSON_parse to_number utf8_toString (trace_options o) (trace_binding b)
       (credentials_for kind (trace_binding b) req) route url req).
Proof.
  intros Hu Hr Hwk Hg Hb Hread. destruct (grant_credentials _ _ _ Hg Hb) as (caller & Ha & Hn & Hcred).
  assert (requested parse_url decodeURIComponent o req caller (route_kind route) b) as Hreq by (by exists url, route).
  replace (credentials_for kind (trace_binding b) req) with (credentials_for kind b req) by by destruct kind.
  revert Hcred. generalize (credentials_for kind b req). intros cred Hcred.
  assert (is_user_read (route_kind route) = true -> users_token req caller cred) as Huser.
  { intros Hk. rewrite Hk in Hread. simpl in Hread. destruct Hcred as [(-> & _)|(_ & _ & ?)]; done. }
  assert (operation_of route = op_list -> workers_token caller b cred) as Hlist by (intros Ho; rewrite Ho in Hcred; naive_solver).
  assert (operation_of route = op_probe -> users_token req caller cred) as Hprobe by (intros Ho; rewrite Ho in Hcred; naive_solver).
  assert (workers_token caller b cred \/ users_token req caller cred) as Heither by naive_solver. clear Hcred.
  unfold operation_of in Hlist, Hprobe. unfold dispatch. destruct (route_kind route) eqn:Hk.
  - unfold do_resources. destruct (truthy_str (route_id route)) eqn:Hid; simpl.
    + repeat trace_step. by exists caller, k_resources, b.
    + repeat trace_step. exists caller, k_resources, b. specialize (Hlist eq_refl). done.
  - unfold do_documents. simpl. destruct (readAsUser (binding_driver b)); simpl; repeat trace_step.
    exists caller, k_documents, b. split_and!; auto.
  - unfold do_search. simpl. destruct (searchAsUser (binding_driver b)); simpl; repeat trace_step.
    exists caller, k_search, b. split_and!; auto.
  - unfold do_query. simpl. destruct (queryAsUser (binding_driver b)); simpl; repeat trace_step.
    exists caller, k_query, b. split_and!; auto.
  - unfold do_probe. simpl. repeat trace_step. exists caller, k_probe, b. specialize (Hprobe eq_refl). split_and!; auto.
  - unfold do_sync. simpl. destruct (opt_runSync o); simpl; repeat trace_step. exists caller, k_sync, b.
    rewrite (parseRoute_sync_id _ _ _ Hr Hk) in Hlist. destruct (Hlist eq_refl) as [-> _].
    by rewrite <- Hn in *.
  - done.
Qed.

Lemma candidates_traced connection :
  webhook_candidates (opt_registry (trace_options o)) connection =
  trace_binding <$> webhook_candidates (opt_registry o) connection.
Proof.
  unfold webhook_candidates. simpl. induction (reg_list (opt_registry o)) as [|b bs IH]; csimpl; [done|].
  rewrite IH. by case_bool_decide.
Qed.

Lemma targets_traced event bs :
  webhook_targets event (trace_binding <$> bs) = trace_binding (W := W) <$> webhook_targets event bs.
Proof.
  unfold webhook_targets. induction bs as [|b bs IH]; csimpl; [done|]. rewrite IH. by destruct (coversScope _ _).
Qed.

Lemma webhook_candidates_elem connection (b : CorpusBinding (Driver W)) :
  b ∈ webhook_candidates (opt_registry o) connection <->
  b ∈ reg_list (opt_registry o) /\ binding_connection b = connection.
Proof.
  unfold webhook_candidates. by rewrite list_elem_of_In, List.filter_In, <- list_elem_of_In, bool_decide_eq_true.
Qed.

Lemma targets_elem event (b : CorpusBinding (Driver W)) bs :
  b ∈ webhook_targets event bs <-> b ∈ bs /\ coversScope (binding_scope b) (event_scopeKey event) = true.
Proof. unfold webhook_targets. by rewrite list_elem_of_In, List.filter_In, <- list_elem_of_In. Qed.

Lemma traces_notify (Q : Call -> Prop) hooks event (targets : list (CorpusBinding (Driver W))) :
  (forall b, b ∈ targets -> Q (CallNotify (binding_name b) (event_sourceIds event))) ->
  traces Q (notify hooks event targets)
    (notify (mkWebhooks (secretFor hooks) (fun n ids => recorded (CallNotify n ids) (onChange hooks n ids))) event
       (trace_binding <$> targets)).
Proof.
  unfold notify. intros HQ. generalize tt. induction targets as [|b bs IH]; intros u; simpl; [apply traces_ret|].
  apply traces_bind; [apply traces_recorded, HQ; by left|]. intros a _. apply IH. intros b' Hb'. apply HQ. by right.
Qed.

Lemma verify_event parse request secret w event w' :
  verify (W := W) parse request secret w = (Ok (Some event), w') -> parse request secret w = (Ok event, w').
Proof.
  unfold verify, scatch, sbind, sret. destruct (parse request secret w) as [[e|e] w1].
  - by intros [= <- <-].
  - by destruct e.
Qed.

Lemma traces_webhook connection :
  traces P (handleWebhook utf8_toString o connection req)
    (handleWebhook utf8_toString (trace_options o) connection req).
Proof.
  unfold handleWebhook. rewrite candidates_traced. simpl opt_webhooks.
  destruct (opt_webhooks o) as [hooks|] eqn:Hh; simpl; [|apply traces_ret].
  destruct (webhook_candidates (opt_registry o) connection) as [|first rest] eqn:Hcs; csimpl; [apply traces_ret|].
  destruct (secretFor hooks connection) as [secret|] eqn:Hs; [|apply traces_ret].
  destruct (str_empty secret) eqn:Hse; [apply traces_ret|].
  destruct (parseWebhook (binding_driver first)) as [parse|] eqn:Hp; csimpl; [|apply traces_ret].
  apply traces_bind; [apply traces_lift|]. intros raw _.
  set (request := mkWebhookRequest (req_headers req) (utf8_toString raw)).
  apply (traces_bind _ _ _ (verify parse request secret)).
  { unfold verify. repeat trace_step. }
  intros [[event|]|] (w & w' & Hv); [|apply traces_ret..]. apply verify_event in Hv.
  unfold webhook_act. change (trace_binding first :: (trace_binding <$> rest)) with (trace_binding <$> (first :: rest)).
  rewrite targets_traced. set (ts := webhook_targets event (first :: rest)).
  assert (forall b, b ∈ ts -> b ∈ webhook_candidates (opt_registry o) connection /\
    coversScope (binding_scope b) (event_scopeKey event) = true) as Hts.
  { intros b Hb. subst ts. apply targets_elem in Hb. by rewrite Hcs. }
  assert (first ∈ webhook_candidates (opt_registry o) connection) as Hfirst by (rewrite Hcs; by left).
  apply webhook_candidates_elem in Hfirst as [Hf Hfc].
  destruct ts as [|t ts']; simpl; [apply traces_ret|].
  apply traces_bind; [|intros; rewrite length_fmap; apply traces_ret].
  apply (traces_notify _ hooks event (t :: ts')). intros b Hb.
  destruct (Hts b Hb) as [[Hin Hc]%webhook_candidates_elem Hcov]. simpl.
  exists b, hooks, secret, first, parse, request, event, w, w'. rewrite Hc.
  split_and!; try done. by intros ->.
Qed.

Lemma traces_handle_data url route :
  parse_url (req_url req ?? "/") = Ok url -> parseRoute decodeURIComponent (pathname url) = Ok (Some route) ->
  route_kind route <> k_webhook ->
  traces P (handle_data JSON_parse to_number utf8_toString o route url req)
    (handle_data JSON_parse to_number utf8_toString (trace_options o) route url req).
Proof.
  intros Hu Hr Hk. unfold handle_data. simpl opt_auth.
  destruct (grant (opt_auth o) req route) as [kind|[m|m]] eqn:Hg; [|apply traces_ret..].
  simpl reg_get. destruct (reg_get (opt_registry o) (route_name route)) as [b|] eqn:Hb; simpl; [|apply traces_ret].
  destruct (is_user_read (route_kind route) && negb (bool_decide (kind = delegated))) eqn:Hread; [apply traces_ret|].
  apply traces_catch; [by apply traces_dispatch|]. intros [m|m|m|q|m]; (apply traces_ret || apply traces_throw).
Qed.

Lemma traces_handle :
  traces P (handle parse_url decodeURIComponent JSON_parse to_number utf8_toString o req)
    (handle parse_url decodeURIComponent JSON_parse to_number utf8_toString (trace_options o) req).
Proof.
  unfold handle. apply traces_catch; [|intros; apply traces_ret]. unfold handle_throwing.
  destruct (parse_url (req_url req ?? "/")) as [url|e] eqn:Hu; [|apply traces_throw].
  destruct (bool_decide (pathname url = "/healthz")); [apply traces_ret|].
  destruct (parseRoute decodeURIComponent (pathname url)) as [[route|]|e] eqn:Hr;
    [|apply traces_ret|apply traces_throw].
  destruct (_ && _); [apply traces_ret|]. destruct (decide (route_kind route = k_webhook)).
  - apply traces_webhook.
  - by apply traces_handle_data.
Qed.
End Handlers.

(** ** The webhook route, functionally *)

Section Webhook.
Context {W : Type}.
Variable utf8_toString : string -> string.

(** The configurations in which a webhook route does not exist. *)
Definition webhook_closed_config (o : ServerOptions W) (connection : string) : Prop :=
  match opt_webhooks o, webhook_candidates (opt_registry o) connection with
  | Some hooks, first :: _ =>
      truthy_str (secretFor hooks connection) = false \/ parseWebhook (binding_driver first) = None
  | _, _ => True
  end.

(** A listener that never throws, so that its calls are all made. *)
Definition total_listener (hooks : Webhooks W) : Prop :=
  forall n ids w, (onChange hooks n ids w).1 = Ok tt.

Lemma notify_total hooks event (targets : list (CorpusBinding (Driver W))) w l :
  total_listener hooks ->
  exists w', notify (mkWebhooks (secretFor hooks) (fun n ids => recorded (CallNotify n ids) (onChange hooks n ids))) event
    (trace_binding <$> targets) (w, l) =
    (Ok tt, (w', l ++ ((fun b => CallNotify (binding_name b) (event_sourceIds event)) <$> targets))).
Proof.
  intros Ht. unfold notify. generalize tt at 1 as u. revert w l.
  induction targets as [|b bs IH]; intros w l u; csimpl.
  - exists w. destruct u. by rewrite app_nil_r.
  - unfold sbind, recorded at 1. simpl. specialize (Ht (binding_name b) (event_sourceIds event) w).
    destruct (onChange hooks _ _ w) as [r w1]. simpl in Ht. subst r.
    destruct (IH w1 (l ++ [CallNotify (binding_name b) (event_sourceIds event)]) tt) as [w' E]. exists w'.
    refine (eq_trans E _). by rewrite <- app_assoc.
Qed.
End Webhook.

(** ** Properties *)

(** C4: the confused-deputy boundary of the broker, over the whole request
    handler. Whatever the request, the server does what it would do without
    the recording, and every call it makes is for the corpus and the scope of
    the binding the request named; the service credential goes only to the
    sync worker holding that corpus's own token, and only to list or fetch;
    probes, reads, searches and queries get the calling user's delegated token
    and nothing else; a corpus is told of a change only after the signature of
    its connection verified. *)
Theorem broker_calls_authorized {W : Type}
    (parse_url : string -> result string ParsedUrl) (decodeURIComponent : string -> result string string)
    (JSON_parse : string -> option json) (to_number : string -> number) (utf8_toString : string -> string)
    (o : ServerOptions W) (req : IncomingMessage) :
  RegistryLaws (opt_registry o) ->
  traces (call_allowed parse_url decodeURIComponent o req)
    (handle parse_url decodeURIComponent JSON_parse to_number utf8_toString o req)
    (handle parse_url decodeURIComponent JSON_parse to_number utf8_toString (trace_options o) req).
Proof. intros H. by apply traces_handle. Qed.

(** A world for the examples: nothing happens in it. *)
Definition idle_driver : Driver unit :=
  mkDriver "idle" (fun _ => Ok tt) (fun _ _ _ => sret (mkListPage [] None)) (fun _ _ _ => sthrow (OtherError "gone"))
    per_resource (fun _ _ _ => sthrow (TransientError "busy")) (Some (fun _ _ => sret (Some (mkWebhookEvent None ["p1"]))))
    None None None.

Definition sample_binding : CorpusBinding (Driver unit) :=
  mkCorpusBinding "docs" "wiki" idle_driver (mkScope (Some "ENG") None None) ["dev"] "svc".

Definition sample_options : ServerOptions unit :=
  mkServerOptions (mkAuthConfig "orch" [("docs", "s3cret")])
    (registry_of (static_bindings [sample_binding])) None
    (Some (mkWebhooks (fun _ => Some "hook") (fun _ _ => sret tt))).

Definition sample_request (auth : string) : IncomingMessage :=
  mkIncomingMessage (Some "/corpora/docs/resources") (Some "GET") [("authorization", OneValue auth)] [].

Definition plain_url (raw : string) : result string ParsedUrl := Ok (mkParsedUrl raw []).

Lemma broker_calls_authorized_witness :
  exists l, handle plain_url Ok (fun _ => None) (fun _ => NaN) id (trace_options sample_options)
    (sample_request "Bearer s3cret") (tt, []) = (Ok (mkResponse 200 (BPage (mkListPage [] None))), (tt, l)) /\
  Forall (call_allowed plain_url Ok sample_options (sample_request "Bearer s3cret")) l.
Proof.
  destruct (broker_calls_authorized plain_url Ok (fun _ => None) (fun _ => NaN) id sample_options
    (sample_request "Bearer s3cret") (registry_of_laws _ (static_bindings_named [sample_binding])) tt []) as (l & Hl & E).
  exists l. split; [|exact Hl]. rewrite E. by vm_compute.
Defined.

(** A data request without a recognised token is answered 401 before the
    registry, a driver or the body is looked at: nothing in the world changes. *)
Theorem broker_unauthenticated {W : Type}
    (parse_url : string -> result string ParsedUrl) (decodeURIComponent : string -> result string string)
    (JSON_parse : string -> option json) (to_number : string -> number) (utf8_toString : string -> string)
    (o : ServerOptions W) (req : IncomingMessage) (url : ParsedUrl) (route : Route) (e : AuthError) (w : W) :
  parse_url (req_url req ?? "/") = Ok url -> pathname url <> "/healthz" ->
  parseRoute decodeURIComponent (pathname url) = Ok (Some route) -> route_kind route <> k_webhook ->
  (route_kind route = k_query -> req_method req = Some "POST") ->
  authenticate (opt_auth o) (header req "authorization") = Err e ->
  exists m, handle parse_url decodeURIComponent JSON_parse to_number utf8_toString o req w =
    (Ok (mkResponse 401 (BError m)), w).
Proof.
  intros Hu Hh Hr Hk Hq Ha.
  assert (exists m, e = UnauthorizedError m) as [m ->].
  { unfold authenticate in Ha. repeat (case_match; try done); inv_result; by eexists. }
  exists m. unfold handle, handle_throwing, scatch. rewrite Hu, bool_decide_false, Hr by done.
  assert (bool_decide (route_kind route = k_query) && negb (bool_decide (req_method req = Some "POST")) = false) as ->.
  { case_bool_decide; [|done]. rewrite bool_decide_true; auto. }
  rewrite decide_False by done. unfold handle_data, grant. by rewrite Ha.
Qed.

Lemma broker_unauthenticated_witness :
  exists m, handle plain_url Ok (fun _ => None) (fun _ => NaN) id sample_options (sample_request "Bearer guess") tt =
    (Ok (mkResponse 401 (BError m)), tt).
Proof.
  apply (broker_unauthenticated plain_url Ok (fun _ => None) (fun _ => NaN) id sample_options
    (sample_request "Bearer guess") (mkParsedUrl "/corpora/docs/resources" []) (mkRoute "docs" k_resources None)
    (UnauthorizedError "unrecognized bearer token") tt); by vm_compute.
Defined.

(** The ways a webhook route can be closed are indistinguishable: an
    unknown connection, webhooks off, no secret and a driver without webhook
    support all answer the same 404, before the body is read and with nothing
    changed. *)
Theorem webhook_closed {W : Type} (utf8_toString : string -> string) (o : ServerOptions W) (connection : string)
    (req : IncomingMessage) (w : W) :
  webhook_closed_config o connection ->
  handleWebhook utf8_toString o connection req w = (Ok not_found, w).
Proof.
  unfold webhook_closed_config, handleWebhook.
  destruct (opt_webhooks o) as [hooks|]; [|done].
  destruct (webhook_candidates (opt_registry o) connection) as [|first rest]; [done|].
  destruct (secretFor hooks connection) as [secret|]; simpl; [|done].
  destruct (str_empty secret); simpl; [done|]. intros [?| ->]; done.
Qed.

Lemma webhook_closed_witness :
  handleWebhook id sample_options "other" (sample_request "") tt = (Ok not_found, tt).
Proof. apply (webhook_closed id sample_options "other" (sample_request "") tt). by vm_compute. Defined.

(** A verified notification reaches exactly the corpora it concerns, in
    registry order and once each: those over its connection whose scope covers
    the key it names, all of them when it names none, with the ids it lists. *)
Theorem webhook_notifies {W : Type} (utf8_toString : string -> string) (o : ServerOptions W) (hooks : Webhooks W)
    (connection secret raw : string) (first : CorpusBinding (Driver W)) (rest : list (CorpusBinding (Driver W)))
    (parse : WebhookRequest -> string -> SM W DriverError (option WebhookEvent)) (event : WebhookEvent)
    (req : IncomingMessage) (w w1 : W) (l : list Call) :
  opt_webhooks o = Some hooks -> total_listener hooks ->
  webhook_candidates (opt_registry o) connection = first :: rest ->
  secretFor hooks connection = Some secret -> secret <> EmptyString ->
  parseWebhook (binding_driver first) = Some parse ->
  read_chunks MAX_WEBHOOK_BODY "webhook body too large" 0 EmptyString (req_chunks req) = Ok raw ->
  parse (mkWebhookRequest (req_headers req) (utf8_toString raw)) secret w = (Ok (Some event), w1) ->
  exists resp w2,
    handleWebhook utf8_toString (trace_options o) connection req (w, l) =
      (Ok resp, (w2, l ++ ((fun b => CallNotify (binding_name b) (event_sourceIds event)) <$>
         List.filter (fun b => bool_decide (binding_connection b = connection) &&
                               coversScope (binding_scope b) (event_scopeKey event)) (reg_list (opt_registry o))))).
Proof.
  intros Hh Ht Hc Hs Hne Hp Hraw Hev.
  assert (List.filter (fun b => bool_decide (binding_connection b = connection) &&
    coversScope (binding_scope b) (event_scopeKey event)) (reg_list (opt_registry o)) =
    webhook_targets event (first :: rest)) as ->.
  { rewrite <- Hc. unfold webhook_targets, webhook_candidates.
    induction (reg_list (opt_registry o)) as [|b bs IH]; simpl; [done|]. rewrite IH.
    destruct (bool_decide _); simpl; [|done]. by destruct (coversScope _ _). }
  remember (webhook_targets event (first :: rest)) as targets eqn:Htargets.
  unfold handleWebhook. rewrite candidates_traced, Hc.
  unfold trace_options at 1. cbn [opt_webhooks]. rewrite Hh. csimpl.
  rewrite Hs. assert (str_empty secret = false) as -> by by destruct secret. rewrite Hp. csimpl.
  unfold slift. unfold sbind at 1. rewrite Hraw.
  unfold sbind at 1, verify, scatch, sbind, silent, sret. simpl fst. rewrite Hev. simpl snd.
  unfold webhook_act. change (trace_binding first :: (trace_binding <$> rest)) with (trace_binding <$> (first :: rest)).
  rewrite targets_traced, <- Htargets. destruct targets as [|t ts]; csimpl.
  { exists (mkResponse 200 (BActed false None)), w1. by rewrite app_nil_r. }
  destruct (notify_total hooks event (t :: ts) w1 l Ht) as [w2 E]. unfold sbind. 
  change (trace_binding t :: (trace_binding <$> ts)) with (trace_binding <$> (t :: ts)). rewrite E. by do 2 eexists.
Qed.

Lemma webhook_notifies_witness :
  exists resp w2, handleWebhook id (trace_options sample_options) "wiki" (sample_request "") (tt, []) =
    (Ok resp, (w2, [CallNotify "docs" ["p1"]])).
Proof.
  apply (webhook_notifies id sample_options
    (mkWebhooks (fun _ => Some "hook") (fun _ _ => sret tt)) "wiki" "hook" EmptyString sample_binding []
    (fun _ _ => sret (Some (mkWebhookEvent None ["p1"]))) (mkWebhookEvent None ["p1"]) (sample_request "") tt tt []);
    try done; by vm_compute.
Defined.
