(* ===== verification/HttpSource.v ===== *)
(** * Connection broker: the sync worker's client (apps/connection-broker/src/sync/http-source.ts)

    [HttpResourceSource] over any transport, and over the broker's own
    [handle]: the two ends of the HTTP hop between the sync pass and a driver. *)

From stdpp Require Import base gmap strings list sorting.
From Stdlib Require Import ZArith Lia Ascii.
From S2P Require Import Prelude JsString JsNumber Json JsMap Chunk Driver Registry Query Auth Broker BrokerSafety.

#[local] Open Scope Z_scope.

(** ** Data *)

Record HttpResponse := mkHttpResponse {
  resp_status : Z;
  resp_json : Body;
  resp_text : option (result unit string)
}.

Definition resp_ok (r : HttpResponse) : bool := (200 <=? resp_status r) && (resp_status r <=? 299).

Record HttpSourceConfig := mkHttpSourceConfig {
  cfg_baseUrl : string;
  cfg_token : string
}.

(** ** [encodeURIComponent] *)

Definition uri_unreserved (c : ascii) : bool := is_alnum c || char_in "-_.!~*'()" c.

Definition hex_digit (n : N) : ascii := ascii_of_N (if (n <? 10)%N then 48 + n else 55 + n)%N.

Definition percent (n : N) : string := String "%" (String (hex_digit (n / 16)) (String (hex_digit (n mod 16)) EmptyString)).

Definition encode_char (c : ascii) : string :=
  if uri_unreserved c then String c EmptyString else str_concat (percent <$> utf8_char c).

Definition encodeURIComponent (s : string) : string := str_concat (encode_char <$> String.list_ascii_of_string s).

(** ** The client *)

(** [/\/+$/] *)
Definition strip_slashes (s : string) : string := drop_while_end (Ascii.eqb "/"%char) s.

Definition describeFailure (r : HttpResponse) : string :=
  match resp_text r with
  | Some (Ok text) => let body := trim text in if str_empty body then EmptyString else ": " +:+ str_take 300 body
  | _ => EmptyString
  end.

(** What [request] makes of a response, by its status. *)
Definition interpret (status_text : Z -> string) (url : string) (response : HttpResponse) : result DriverError Body :=
  if resp_ok response then Ok (resp_json response)
  else
    let detail := describeFailure response in
    if resp_status response =? 403 then Err (PermissionDeniedError ("broker refused " +:+ url +:+ detail))
    else if resp_status response =? 401
    then Err (PermanentError ("connection-broker rejected this worker's token" +:+ detail))
    else if resp_status response =? 500 then Err (PermanentError ("connection-broker failed permanently" +:+ detail))
    else Err (TransientError ("connection-broker returned " +:+ status_text (resp_status response) +:+ detail)).

Section Client.
Context {W : Type}.
(** [fetch], the decimal rendering of a status, and the casts of a parsed
    body to the type the caller expects. *)
Variable http : string -> list (string * string) -> SM W string HttpResponse.
Variable status_text : Z -> string.
Variable as_page : Body -> option (list ResourceRef) * Cursor.
Variable as_document : Body -> Document.
Variable cfg : HttpSourceConfig.

Definition base_url : string := strip_slashes (cfg_baseUrl cfg).

Definition request_headers : list (string * string) :=
  [("Authorization", "Bearer " +:+ cfg_token cfg); ("Accept", "application/json")].

Definition request (url : string) : SM W DriverError Body := fun w =>
  match http url request_headers w with
  | (Err cause, w') => (Err (TransientError ("connection-broker unreachable: " +:+ cause)), w')
  | (Ok response, w') => (interpret status_text url response, w')
  end.

Definition list_path (connection : string) (cursor : Cursor) : string :=
  "/corpora/" +:+ encodeURIComponent connection +:+ "/resources" +:+
  (if truthy_str cursor then "?cursor=" +:+ encodeURIComponent (cursor ?? EmptyString) else EmptyString).

Definition fetch_path (connection id : string) : string :=
  "/corpora/" +:+ encodeURIComponent connection +:+ "/resources/" +:+ encodeURIComponent id.

Definition source_list (connection : string) (cursor : Cursor) : SM W DriverError ListPage :=
  do! body <- request (base_url +:+ list_path connection cursor) ;;
  let '(resources, cursor) := as_page body in
  sret (mkListPage (resources ?? []) cursor).

Definition source_fetch (connection id : string) : SM W DriverError Document :=
  do! body <- request (base_url +:+ fetch_path connection id) ;;
  sret (as_document body).
End Client.

(** ** The hop *)

(** A transport that delivers a request to the broker: node lower-cases the
    header names, and the server sees the URL without the base. *)
Definition deliver {W : Type} (handler : IncomingMessage -> SM W DriverError Response) (render : Body -> string)
    (base : string) (url : string) (headers : list (string * string)) : SM W string HttpResponse := fun w =>
  if String.prefix base url then
    match handler (mkIncomingMessage (Some (str_drop (slen base) url)) (Some "GET")
                     ((fun h => (toLowerCase h.1, OneValue h.2)) <$> headers) []) w with
    | (Ok r, w') => (Ok (mkHttpResponse (status r) (body r) (Some (Ok (render (body r))))), w')
    | (Err _, w') => (Err "socket hang up", w')
    end
  else (Err "no such host", w).

(** The class of a failure, as the sync pass and the caller of a probe see it. *)
Inductive ErrorClass := Denied | Transient | Permanent | Other.

#[export] Instance ErrorClass_eq_dec : EqDecision ErrorClass.
Proof. solve_decision. Defined.

Definition class_of (e : DriverError) : ErrorClass :=
  match e with
  | PermissionDeniedError _ => Denied
  | TransientError _ => Transient
  | PermanentError _ => Permanent
  | QueryValidationError _ | OtherError _ => Other
  end.

(** What becomes of a class on the other side: an unclassified failure is a
    500, which the client does not retry; a query refused by the driver is a
    400, which it takes for "could not find out". *)
Definition class_after_hop (e : DriverError) : ErrorClass :=
  match e with
  | QueryValidationError _ => Transient
  | OtherError _ => Permanent
  | _ => class_of e
  end.

(** ** Lemmas *)

Lemma prefix_app (p s : string) : String.prefix p (p +:+ s) = true.
Proof. induction p as [|c p IH]; [by destruct s|]. cbn. destruct (ascii_dec c c); [done|congruence]. Qed.

Definition no_slash (c : ascii) : bool := negb (Ascii.eqb "/"%char c).

(** Checked on all 256 characters. *)
Lemma encode_char_ok c : str_forall no_slash (encode_char c) && negb (str_empty (encode_char c)) = true.
Proof. destruct c as [[] [] [] [] [] [] [] []]; vm_compute; done. Qed.

Lemma encode_no_slash s : str_forall no_slash (encodeURIComponent s) = true.
Proof.
  unfold encodeURIComponent. induction s as [|c s IH]; csimpl; [done|].
  rewrite str_forall_app, IH. pose proof (encode_char_ok c) as [-> _]%andb_true_iff. done.
Qed.

Lemma encode_nonempty s : s <> EmptyString -> str_empty (encodeURIComponent s) = false.
Proof.
  destruct s as [|c s]; [done|]. intros _. unfold encodeURIComponent. csimpl.
  pose proof (encode_char_ok c) as [_ H]%andb_true_iff. by destruct (encode_char c).
Qed.

(** The parts of a path built from segments without slashes. *)
Lemma path_parts_cons seg rest :
  str_forall no_slash seg = true -> str_empty seg = false ->
  path_parts ("/" +:+ seg +:+ "/" +:+ rest) = seg :: path_parts ("/" +:+ rest).
Proof.
  intros Hs He. unfold path_parts. cbn. rewrite (split_char_app_sep "/"%char seg rest) by done. by destruct seg.
Qed.

Lemma path_parts_last seg :
  str_forall no_slash seg = true -> str_empty seg = false -> path_parts ("/" +:+ seg) = [seg].
Proof. intros Hs He. unfold path_parts. cbn. rewrite (split_char_nosep "/"%char seg) by done. by destruct seg. Qed.

Lemma path_parts_list name :
  name <> EmptyString -> path_parts ("/corpora/" +:+ encodeURIComponent name +:+ "/resources") =
  ["corpora"; encodeURIComponent name; "resources"].
Proof.
  intros Hn. change ("/corpora/" +:+ encodeURIComponent name +:+ "/resources")
    with ("/" +:+ "corpora" +:+ "/" +:+ (encodeURIComponent name +:+ "/" +:+ "resources")).
  rewrite path_parts_cons by done.
  rewrite path_parts_cons by auto using encode_no_slash, encode_nonempty. done.
Qed.

Lemma path_parts_fetch name id :
  name <> EmptyString -> id <> EmptyString ->
  path_parts (fetch_path name id) = ["corpora"; encodeURIComponent name; "resources"; encodeURIComponent id].
Proof.
  intros Hn Hi. unfold fetch_path.
  change ("/corpora/" +:+ encodeURIComponent name +:+ "/resources/" +:+ encodeURIComponent id)
    with ("/" +:+ "corpora" +:+ "/" +:+ (encodeURIComponent name +:+ "/" +:+ "resources" +:+ "/" +:+ encodeURIComponent id)).
  rewrite path_parts_cons by done.
  rewrite path_parts_cons by auto using encode_no_slash, encode_nonempty.
  rewrite path_parts_cons by done.
  rewrite path_parts_last by auto using encode_no_slash, encode_nonempty. done.
Qed.

Section Hop.
Context {W : Type}.
Variable parse_url : string -> result string ParsedUrl.
Variable decodeURIComponent : string -> result string string.
Variable JSON_parse : string -> option json.
Variable to_number : string -> number.
Variable utf8_toString : string -> string.
Variable o : ServerOptions W.
Variable status_text : Z -> string.
Variable render : Body -> string.
Variable cfg : HttpSourceConfig.
Variable name : string.
Variable b : CorpusBinding (Driver W).

#[local] Abbreviation serve := (handle parse_url decodeURIComponent JSON_parse to_number utf8_toString o).
#[local] Abbreviation transport := (deliver serve render (base_url cfg)).

(** What the worker's request finds: its token is the sync token of [name],
    and [name] is bound. *)
Definition hop_ready : Prop :=
  name <> EmptyString /\ decodeURIComponent (encodeURIComponent name) = Ok name /\
  authenticate (opt_auth o) (Some ("Bearer " +:+ cfg_token cfg)) = Ok (Sync name) /\
  reg_get (opt_registry o) name = Some b.

Definition ingest : Credentials := mkCredentials (Some (binding_serviceToken b)) None.

Definition hop_message (path : string) : IncomingMessage :=
  mkIncomingMessage (Some path) (Some "GET")
    [("authorization", OneValue ("Bearer " +:+ cfg_token cfg)); ("accept", OneValue "application/json")] [].

(** A driver call behind a data route: its result becomes the response, its
    failure a status. *)
Lemma serve_data path query route (call : SM W DriverError Response) :
  hop_ready -> parse_url path = Ok query ->
  pathname query <> "/healthz" ->
  parseRoute decodeURIComponent (pathname query) = Ok (Some route) ->
  route_name route = name -> route_kind route = k_resources ->
  do_resources b ingest route query = call ->
  forall w, serve (hop_message path) w = scatch (scatch call classify) (fun _ => sret (mkResponse 500 (BError "internal error"))) w.
Proof.
  intros (_ & _ & Ha & Hb) Hu Hh Hr Hn Hk <- w. unfold handle, scatch at 1 3. f_equal.
  assert (handle_throwing parse_url decodeURIComponent JSON_parse to_number utf8_toString o (hop_message path) w =
    scatch (do_resources b ingest route query) classify w) as ->; [|done].
  unfold handle_throwing. change (req_url (hop_message path) ?? "/") with path. rewrite Hu.
  rewrite (bool_decide_false (pathname query = "/healthz")) by done. rewrite Hr, Hk.
  rewrite (bool_decide_false (k_resources = k_query)), decide_False by done. simpl andb. cbv iota.
  unfold handle_data, grant. change (header (hop_message path) "authorization") with (Some ("Bearer " +:+ cfg_token cfg)).
  rewrite Ha. cbn [result_bind]. rewrite Hn.
  assert (authorize (Sync name) (operation_of route) name (header (hop_message path) DELEGATED_TOKEN_HEADER) = Ok service)
    as ->.
  { apply authorize_service. split; [done|]. unfold operation_of. rewrite Hk, decide_False by done.
    by destruct (_ || _). }
  cbv iota. rewrite Hb, Hk. simpl andb. cbv iota.
  unfold dispatch. by rewrite Hk.
Qed.

(** One round trip for a driver operation [m] answered 200 with [inj]. *)
Lemma request_hop {A : Type} path (m : SM W DriverError A) (inj : A -> Body) w :
  (forall w, serve (hop_message path) w =
     scatch (scatch (do! x <- m ;; sret (mkResponse 200 (inj x))) classify)
       (fun _ => sret (mkResponse 500 (BError "internal error"))) w) ->
  match m w with
  | (Ok x, w') => request transport status_text cfg (base_url cfg +:+ path) w = (Ok (inj x), w')
  | (Err e, w') => exists e', request transport status_text cfg (base_url cfg +:+ path) w = (Err e', w') /\
                     class_of e' = class_after_hop e
  end.
Proof.
  intros Hs. unfold request, deliver. rewrite prefix_app, str_drop_app.
  change (mkIncomingMessage (Some path) (Some "GET") _ []) with (hop_message path).
  rewrite Hs. unfold scatch, sbind. destruct (m w) as [[x|e] w']; [done|].
  destruct e; cbn [classify sret sthrow]; eexists; (split; [reflexivity|done]).
Qed.

Definition cursor_query (cursor : Cursor) : list (string * string) :=
  match cursor with
  | Some c => if str_empty c then [] else [("cursor", c)]
  | None => []
  end.

(** The cursor as the driver gets it: an empty one is absent. *)
Definition driver_cursor (cursor : Cursor) : Cursor := if truthy_str cursor then cursor else None.

Lemma list_hop cursor w :
  hop_ready -> parse_url (list_path name cursor) = Ok (mkParsedUrl (list_path name None) (cursor_query cursor)) ->
  match list_resources (binding_driver b) (binding_scope b) ingest (driver_cursor cursor) w with
  | (Ok page, w') => request transport status_text cfg (base_url cfg +:+ list_path name cursor) w = (Ok (BPage page), w')
  | (Err e, w') => exists e', request transport status_text cfg (base_url cfg +:+ list_path name cursor) w = (Err e', w') /\
                     class_of e' = class_after_hop e
  end.
Proof.
  intros Hready Hu. pose proof Hready as (Hne & Hdec & _).
  apply request_hop. apply (serve_data _ (mkParsedUrl (list_path name None) (cursor_query cursor))
    (mkRoute name k_resources None)); try done.
  - cbn [pathname]. unfold list_path, truthy_str. rewrite app_empty_r. unfold parseRoute.
    rewrite path_parts_list by done. by rewrite Hdec.
  - unfold do_resources, driver_cursor. cbn [route_id truthy_str searchParams].
    destruct cursor as [c|]; [|done]. cbn [cursor_query truthy_str]. by destruct (str_empty c).
Qed.

Lemma fetch_hop id w :
  hop_ready -> id <> EmptyString -> decodeURIComponent (encodeURIComponent id) = Ok id ->
  parse_url (fetch_path name id) = Ok (mkParsedUrl (fetch_path name id) []) ->
  match fetch (binding_driver b) (binding_scope b) ingest id w with
  | (Ok d, w') => request transport status_text cfg (base_url cfg +:+ fetch_path name id) w = (Ok (BDocument d), w')
  | (Err e, w') => exists e', request transport status_text cfg (base_url cfg +:+ fetch_path name id) w = (Err e', w') /\
                     class_of e' = class_after_hop e
  end.
Proof.
  intros Hready Hi Hdi Hu. pose proof Hready as (Hne & Hdec & _).
  apply request_hop. apply (serve_data _ (mkParsedUrl (fetch_path name id) []) (mkRoute name k_resources (Some id)));
    try done.
  - cbn [pathname]. unfold parseRoute. rewrite path_parts_fetch by done. rewrite Hdec. cbn. by rewrite Hdi.
  - unfold do_resources. cbn [route_id truthy_str]. by destruct id.
Qed.
End Hop.

(** ** Properties *)

(** C16: over the broker's own request handler, the worker's client is the
    driver itself: a listing through HTTP with the corpus's sync token returns
    the driver's page, run with the service credential and the corpus's scope,
    and leaves the same world; a failure keeps its class (a denial stays a
    denial, "could not find out" stays retryable, permanent stays permanent),
    so a full pass never takes one for the other. *)
Theorem source_list_refines {W : Type}
    (parse_url : string -> result string ParsedUrl) (decodeURIComponent : string -> result string string)
    (JSON_parse : string -> option json) (to_number : string -> number) (utf8_toString : string -> string)
    (o : ServerOptions W) (status_text : Z -> string) (render : Body -> string)
    (as_page : Body -> option (list ResourceRef) * Cursor) (cfg : HttpSourceConfig) (name : string)
    (b : CorpusBinding (Driver W)) (cursor : Cursor) (w : W) :
  hop_ready decodeURIComponent o cfg name b ->
  parse_url (list_path name cursor) = Ok (mkParsedUrl (list_path name None) (cursor_query cursor)) ->
  (forall p, as_page (BPage p) = (Some (page_resources p), page_cursor p)) ->
  let run := source_list (deliver (handle parse_url decodeURIComponent JSON_parse to_number utf8_toString o)
                            render (base_url cfg)) status_text as_page cfg name cursor w in
  match list_resources (binding_driver b) (binding_scope b) (ingest b) (driver_cursor cursor) w with
  | (Ok page, w') => run = (Ok page, w')
  | (Err e, w') => exists e', run = (Err e', w') /\ class_of e' = class_after_hop e
  end.
Proof.
  intros Hready Hu Hcast. simpl. unfold source_list, sbind.
  pose proof (list_hop parse_url decodeURIComponent JSON_parse to_number utf8_toString o status_text render cfg name b
    cursor w Hready Hu) as H. destruct (list_resources _ _ _ _ w) as [[page|e] w'].
  - rewrite H, Hcast. by destruct page.
  - destruct H as (e' & -> & Hc). by exists e'.
Qed.

Definition sample_cfg : HttpSourceConfig := mkHttpSourceConfig "http://127.0.0.1:8080/" "s3cret".
Definition sample_page (body : Body) : option (list ResourceRef) * Cursor :=
  match body with
  | BPage p => (Some (page_resources p), page_cursor p)
  | _ => (None, None)
  end.

Lemma source_list_refines_witness :
  source_list (deliver (handle plain_url Ok (fun _ => None) (fun _ => NaN) id sample_options)
    (fun _ => EmptyString) (base_url sample_cfg)) (fun _ => EmptyString) sample_page sample_cfg "docs" None tt =
  (Ok (mkListPage [] None), tt).
Proof.
  refine (source_list_refines plain_url Ok (fun _ => None) (fun _ => NaN) id sample_options (fun _ => EmptyString)
    (fun _ => EmptyString) sample_page sample_cfg "docs" sample_binding None tt _ _ _); [|by vm_compute|done].
  by split_and!; vm_compute.
Defined.
