(* ===== verification/Fetch.v ===== *)
(** * The transport of the orchestrator's HTTP clients

    [fetch] as its callers see it: a request, and a response whose body may fail
    to parse. The function itself is an argument of the models that call it. *)

From stdpp Require Import base gmap strings list sorting.
From Stdlib Require Import ZArith Lia Ascii.
From S2P Require Import Prelude JsString JsNumber Json.

#[local] Open Scope Z_scope.

(** A body is the value [JSON.stringify] is given. *)
Record FetchRequest := mkFetchRequest {
  fq_url : string;
  fq_method : string;
  fq_headers : list (string * string);
  fq_body : option json
}.

(** A response: [json()] and [text()] may reject. *)
Record FetchResponse := mkFetchResponse {
  fp_status : Z;
  fp_json : result string json;
  fp_text : result string string
}.

Definition fetch_ok (r : FetchResponse) : bool := (200 <=? fp_status r) && (fp_status r <=? 299).

(** The header a service token travels in. *)
Definition bearer (token : string) : string := "Bearer " +:+ token.
