(* ===== verification/CorpusResource.v ===== *)
(** * Connection broker: from custom resources to bindings

    apps/connection-broker/src/corpus-resource.ts. A metadata name that is
    missing is the empty string: the code only asks whether it is falsy. The
    drivers themselves are the options they are constructed with. *)

From stdpp Require Import base gmap strings list sorting.
From Stdlib Require Import ZArith Lia Ascii.
From S2P Require Import Prelude JsString JsNumber Json JsMap Chunk Driver Registry.

#[local] Open Scope Z_scope.

(** ** Data *)

Record SyncSpec := mkSyncSpec {
  sync_mode : option string;
  sync_reconcileInterval : option string
}.

Record CorpusCustomResource := mkCorpus {
  corpus_name : string;
  corpus_namespace : option string;
  corpus_connectionRef : string;
  corpus_allowedRoles : option (list string);
  corpus_scope : Scope;
  corpus_sync : option SyncSpec;
  corpus_collection : option string
}.

Record Site := mkSite {
  site_baseURL : string;
  site_cloudId : option string
}.

Record AllowedScopes := mkAllowedScopes {
  allowed_spaces : option (list string);
  allowed_channels : option (list string);
  allowed_folderIDs : option (list string)
}.

Record SecretEnv := mkSecretEnv {
  env_name : string;
  env_secretName : string;
  env_secretKey : string
}.

Record ConnectionCustomResource := mkConnection {
  conn_name : string;
  conn_provider : string;
  conn_site : option Site;
  conn_allowedScopes : option AllowedScopes;
  conn_autoJoin : option bool;
  conn_secretEnv : option (list SecretEnv)
}.

(** What a driver is constructed with. *)
Inductive DriverSpec :=
| ConfluenceDriver (siteBaseUrl : string) (cloudId gatewayOrigin : option string)
| SlackDriver (workspaceUrl apiOrigin : option string) (autoJoin : bool) (directoryToken : string)
| GDriveDriver (apiOrigin : option string).

(** The process environment the drivers read. *)
Record DriverEnv := mkDriverEnv {
  ATLASSIAN_API_ORIGIN : option string;
  SLACK_API_ORIGIN : option string;
  GDRIVE_API_ORIGIN : option string
}.

Inductive ConfigError :=
| WrongConnection (corpus reference given : string)
| NoSecretEntry (corpus connection : string)
| SecretMissing (corpus secret key : string)
| ScopeNotPermitted (corpus : string) (unit : option string) (connection : string)
| SiteRequired (corpus connection : string)
| NoDriver (corpus provider : string)
| SecretUnreadable (message : string).

Definition SERVICE_TOKEN_ENV : string := "SERVICE_TOKEN".

(** ** Building a binding *)

(** An optional origin, dropped when unset or empty. *)
Definition origin (o : option string) : option string := if truthy_str o then o else None.

Section Binding.
Variable env : DriverEnv.

Definition driverFor (name : string) (connection : ConnectionCustomResource) (serviceToken : string) :
    result ConfigError DriverSpec :=
  if decide (conn_provider connection = "confluence") then
    match conn_site connection with
    | Some site =>
        if str_empty (site_baseURL site) then Err (SiteRequired name (conn_name connection))
        else Ok (ConfluenceDriver (site_baseURL site) (site_cloudId site) (origin (ATLASSIAN_API_ORIGIN env)))
    | None => Err (SiteRequired name (conn_name connection))
    end
  else if decide (conn_provider connection = "slack") then
    Ok (SlackDriver (site_baseURL <$> conn_site connection) (origin (SLACK_API_ORIGIN env))
          (conn_autoJoin connection ?? false) serviceToken)
  else if decide (conn_provider connection = "gdrive") then Ok (GDriveDriver (origin (GDRIVE_API_ORIGIN env)))
  else Err (NoDriver name (conn_provider connection)).

(** The unit of a scope and the cap that applies to it. *)
Definition scope_unit (scope : Scope) (caps : AllowedScopes) : option string * option (list string) :=
  match scope_space scope, scope_channel scope with
  | Some space, _ => (Some space, allowed_spaces caps)
  | None, Some channel => (Some channel, allowed_channels caps)
  | None, None => (scope_folderID scope, allowed_folderIDs caps)
  end.

Definition assertWithinConnectionScopes (name : string) (scope : Scope) (connection : ConnectionCustomResource) :
    result ConfigError unit :=
  match conn_allowedScopes connection with
  | None => Ok tt
  | Some caps =>
      let '(unit, allowed) := scope_unit scope caps in
      match allowed with
      | None | Some [] => Ok tt
      | Some allowed =>
          match unit with
          | Some u => if has allowed u then Ok tt else Err (ScopeNotPermitted name unit (conn_name connection))
          | None => Err (ScopeNotPermitted name unit (conn_name connection))
          end
      end
  end.

(** [readSecret] is what the API server answers when it is asked. *)
Definition resolveServiceToken (name : string) (connection : ConnectionCustomResource)
    (readSecret : string -> string -> result ConfigError (option string)) : result ConfigError string :=
  match find (fun candidate => bool_decide (env_name candidate = SERVICE_TOKEN_ENV)) (conn_secretEnv connection ?? []) with
  | None => Err (NoSecretEntry name (conn_name connection))
  | Some entry =>
      let? value := readSecret (env_secretName entry) (env_secretKey entry) in
      match value with
      | Some v => if str_empty v then Err (SecretMissing name (env_secretName entry) (env_secretKey entry)) else Ok v
      | None => Err (SecretMissing name (env_secretName entry) (env_secretKey entry))
      end
  end.

Definition toBinding (corpus : CorpusCustomResource) (connection : ConnectionCustomResource)
    (readSecret : string -> string -> result ConfigError (option string)) :
    result ConfigError (CorpusBinding DriverSpec) :=
  let name := corpus_name corpus in
  if negb (bool_decide (corpus_connectionRef corpus = conn_name connection))
  then Err (WrongConnection name (corpus_connectionRef corpus) (conn_name connection))
  else
    let? serviceToken := resolveServiceToken name connection readSecret in
    let scope := corpus_scope corpus in
    let? _ := assertWithinConnectionScopes name scope connection in
    let? driver := driverFor name connection serviceToken in
    Ok (mkCorpusBinding name (conn_name connection) driver scope (corpus_allowedRoles corpus ?? []) serviceToken).
End Binding.

(** ** Schedules *)

Definition collectionOf (corpus : CorpusCustomResource) : option string := corpus_collection corpus.

(** [/^(\d+(?:\.\d+)?)(ms|s|m|h)$/]: the number and the scale of the unit. *)
Definition duration_unit (s : string) : option Z :=
  own_get s [("ms", 1); ("s", 1000); ("m", 60000); ("h", 3600000)].

Definition duration_parts (s : string) : option (string * string * Z) :=
  let whole := take_while is_digit s in
  let rest := str_drop (slen whole) s in
  if str_empty whole then None
  else match rest with
       | String c after =>
           if Ascii.eqb c "."%char then
             let fraction := take_while is_digit after in
             if str_empty fraction then None
             else (fun scale => (whole, fraction, scale)) <$> duration_unit (str_drop (slen fraction) after)
           else (fun scale => (whole, EmptyString, scale)) <$> duration_unit rest
       | EmptyString => None
       end.

Definition parseDuration (value : option string) : option number :=
  if negb (truthy_str value) then None
  else match duration_parts (trim (value ?? EmptyString)) with
       | Some (whole, fraction, scale) => Some (num_times (num_of_decimal whole fraction) scale)
       | None => None
       end.

Definition reconcileIntervalMs (corpus : CorpusCustomResource) : option number :=
  match corpus_sync corpus with
  | None => None
  | Some sync => if bool_decide (sync_mode sync = Some "none") then None else parseDuration (sync_reconcileInterval sync)
  end.

(** ** Lemmas *)

Lemma resolveServiceToken_Ok name connection readSecret token :
  resolveServiceToken name connection readSecret = Ok token ->
  token <> EmptyString /\
  exists entry, entry ∈ (conn_secretEnv connection ?? []) /\ env_name entry = SERVICE_TOKEN_ENV /\
    readSecret (env_secretName entry) (env_secretKey entry) = Ok (Some token).
Proof.
  unfold resolveServiceToken. destruct (find _ _) as [entry|] eqn:Hf; [|done].
  apply find_some in Hf as [Hin Hn%bool_decide_eq_true].
  intros ([v|] & Hv & Ht)%result_bind_Ok; [|done]. destruct (str_empty v) eqn:He; [done|]. injection Ht as ->.
  split; [by intros ->|]. exists entry. by rewrite list_elem_of_In.
Qed.

Lemma assertWithinConnectionScopes_Ok name scope connection u :
  assertWithinConnectionScopes name scope connection = Ok u <->
  forall caps allowed, conn_allowedScopes connection = Some caps -> (scope_unit scope caps).2 = Some allowed ->
    allowed <> [] -> exists unit, (scope_unit scope caps).1 = Some unit /\ unit ∈ allowed.
Proof.
  unfold assertWithinConnectionScopes. destruct u.
  destruct (conn_allowedScopes connection) as [caps|]; [|by split; [intros _ ? ? [=]|]].
  destruct (scope_unit scope caps) as [unit allowed] eqn:E. split.
  - intros H caps' al [= <-]. rewrite E. simpl. intros -> Hne. destruct al as [|x xs]; [done|].
    destruct unit as [unit|]; [|done]. destruct (has (x :: xs) unit) eqn:Hh; [|done]. exists unit.
    split; [done|]. by apply has_true.
  - intros H. destruct allowed as [[|x xs]|]; [done| |done]. specialize (H caps (x :: xs) eq_refl).
    rewrite E in H. destruct H as (v & Hv & Hin); [done..|]. simpl in Hv. subst unit.
    apply has_true in Hin. by rewrite Hin.
Qed.

Lemma toBinding_Ok env corpus connection readSecret b :
  toBinding env corpus connection readSecret = Ok b ->
  corpus_connectionRef corpus = conn_name connection /\
  resolveServiceToken (corpus_name corpus) connection readSecret = Ok (binding_serviceToken b) /\
  assertWithinConnectionScopes (corpus_name corpus) (corpus_scope corpus) connection = Ok tt /\
  driverFor env (corpus_name corpus) connection (binding_serviceToken b) = Ok (binding_driver b) /\
  binding_name b = corpus_name corpus /\ binding_connection b = conn_name connection /\
  binding_scope b = corpus_scope corpus /\ binding_allowedRoles b = corpus_allowedRoles corpus ?? [].
Proof.
  unfold toBinding. case_bool_decide; [|done]. simpl.
  intros (token & Ht & (u & Hu & (d & Hd & [= <-])%result_bind_Ok)%result_bind_Ok)%result_bind_Ok.
  destruct u. by split_and!.
Qed.

(** ** Properties *)

(** A binding is refused unless it is sound: what [toBinding] returns is
    over the connection the corpus names, carries that connection's
    SERVICE_TOKEN secret (never an empty one), the corpus's own scope and
    roles, and a scope unit that a non-empty cap of the connection lists. *)
Theorem toBinding_sound (env : DriverEnv) (corpus : CorpusCustomResource) (connection : ConnectionCustomResource)
    (readSecret : string -> string -> result ConfigError (option string)) (b : CorpusBinding DriverSpec) :
  toBinding env corpus connection readSecret = Ok b ->
  binding_name b = corpus_name corpus /\
  binding_connection b = corpus_connectionRef corpus /\ corpus_connectionRef corpus = conn_name connection /\
  binding_scope b = corpus_scope corpus /\ binding_allowedRoles b = corpus_allowedRoles corpus ?? [] /\
  binding_serviceToken b <> EmptyString /\
  (exists entry, entry ∈ (conn_secretEnv connection ?? []) /\ env_name entry = SERVICE_TOKEN_ENV /\
    readSecret (env_secretName entry) (env_secretKey entry) = Ok (Some (binding_serviceToken b))) /\
  (forall caps allowed, conn_allowedScopes connection = Some caps ->
    (scope_unit (corpus_scope corpus) caps).2 = Some allowed -> allowed <> [] ->
    exists unit, (scope_unit (corpus_scope corpus) caps).1 = Some unit /\ unit ∈ allowed).
Proof.
  intros (Href & Ht & Hs & _ & Hn & Hc & Hsc & Hro)%toBinding_Ok.
  apply resolveServiceToken_Ok in Ht as [Hne Hentry]. split_and!; try done; [congruence|].
  by apply (assertWithinConnectionScopes_Ok (corpus_name corpus) _ _ tt).
Qed.

Definition sample_env : DriverEnv := mkDriverEnv None None None.
Definition sample_connection : ConnectionCustomResource :=
  mkConnection "wiki" "slack" None (Some (mkAllowedScopes None (Some ["C1"]) None)) None
    (Some [mkSecretEnv "SERVICE_TOKEN" "wiki-secret" "token"]).
Definition sample_corpus (scope : Scope) : CorpusCustomResource :=
  mkCorpus "docs" None "wiki" None scope None None.
Definition sample_secret (_ _ : string) : result ConfigError (option string) := Ok (Some "svc").

Lemma toBinding_sound_witness :
  exists b, toBinding sample_env (sample_corpus (mkScope None (Some "C1") None)) sample_connection sample_secret = Ok b /\
  binding_serviceToken b <> EmptyString.
Proof.
  eexists. split; [by vm_compute|].
  refine (proj1 (proj2 (proj2 (proj2 (proj2 (proj2 (toBinding_sound sample_env
    (sample_corpus (mkScope None (Some "C1") None)) sample_connection sample_secret _ _))))))). by vm_compute.
Defined.
