(* ===== verification/CrdRegistry.v ===== *)
(** * Connection broker: the registry that follows the cluster

    apps/connection-broker/src/crd-corpus-registry.ts as a transition system.
    A step is the code between two awaits: a watch event runs up to the read
    of a Secret, and the rest of [upsertCorpus] (and of [rebuildFor], which
    awaits it in a loop over the live map of corpora) is a job that finishes
    in a later step, in any order. *)

From stdpp Require Import base gmap strings list sorting.
From Stdlib Require Import ZArith Lia Ascii.
From S2P Require Import Prelude JsString JsNumber Json JsMap Chunk Driver Registry CorpusResource.

(** ** State *)

Inductive WatchPhase := ADDED | MODIFIED | DELETED.

#[export] Instance WatchPhase_eq_dec : EqDecision WatchPhase.
Proof. solve_decision. Defined.

(** An [upsertCorpus] waiting for its Secret, with the rest of the rebuild
    that awaits it; or a rebuild about to go on with the corpora stamped
    [position] or later. *)
Inductive Job :=
| Binding (corpus : CorpusCustomResource) (connection : ConnectionCustomResource) (resume : option (string * nat))
| Rebuilding (connection : string) (position : nat).

(** [corpora] stamps each entry when it is inserted: a live iterator over the
    map is the stamp it has reached. *)
Record CrdState := mkCrdState {
  bindings : jsmap (CorpusBinding DriverSpec);
  corpora : jsmap (nat * CorpusCustomResource);
  connections : jsmap ConnectionCustomResource;
  next_stamp : nat;
  jobs : list Job
}.

Definition crd_init : CrdState := mkCrdState [] [] [] 0 [].

Definition with_bindings (f : jsmap (CorpusBinding DriverSpec) -> jsmap (CorpusBinding DriverSpec)) (s : CrdState) : CrdState :=
  mkCrdState (f (bindings s)) (corpora s) (connections s) (next_stamp s) (jobs s).

Definition set_connections (m : jsmap ConnectionCustomResource) (s : CrdState) : CrdState :=
  mkCrdState (bindings s) (corpora s) m (next_stamp s) (jobs s).

Definition set_corpora (m : jsmap (nat * CorpusCustomResource)) (stamp : nat) (s : CrdState) : CrdState :=
  mkCrdState (bindings s) m (connections s) stamp (jobs s).

Definition set_jobs (js : list Job) (s : CrdState) : CrdState :=
  mkCrdState (bindings s) (corpora s) (connections s) (next_stamp s) js.

(** [this.corpora.set(name, corpus)] *)
Definition put_corpus (corpus : CorpusCustomResource) (s : CrdState) : CrdState :=
  match map_get (corpus_name corpus) (corpora s) with
  | Some (stamp, _) => set_corpora (map_set (corpus_name corpus) (stamp, corpus) (corpora s)) (next_stamp s) s
  | None => set_corpora (map_set (corpus_name corpus) (next_stamp s, corpus) (corpora s)) (S (next_stamp s)) s
  end.

(** ** Operations *)

Section Crd.
Variable env : DriverEnv.
(** [readNamespacedSecret]: the data of a Secret of a namespace; and the
    base64 decoding of one of its values. *)
Variable read_secret : string -> string -> result ConfigError (list (string * string)).
Variable base64_decode : string -> string.
(** The registry's own namespace. *)
Variable default_namespace : string.

Definition secretReader (corpus : CorpusCustomResource) (secretName key : string) : result ConfigError (option string) :=
  let namespace := corpus_namespace corpus ?? default_namespace in
  let? data := read_secret namespace secretName in
  Ok (base64_decode <$> own_get key data).

(** [upsertCorpus] up to the await: the job left, if there is one. *)
Definition upsert_begin (corpus : CorpusCustomResource) (resume : option (string * nat)) (s : CrdState) :
    CrdState * option Job :=
  if str_empty (corpus_name corpus) then (s, None)
  else
    let s := put_corpus corpus s in
    match map_get (corpus_connectionRef corpus) (connections s) with
    | None => (with_bindings (map_delete (corpus_name corpus)) s, None)
    | Some connection => (s, Some (Binding corpus connection resume))
    end.

(** The rest of it: the binding is set, or dropped when it cannot be built. *)
Definition upsert_finish (corpus : CorpusCustomResource) (connection : ConnectionCustomResource) (s : CrdState) : CrdState :=
  match toBinding env corpus connection (secretReader corpus) with
  | Ok binding => with_bindings (map_set (corpus_name corpus) binding) s
  | Err _ => with_bindings (map_delete (corpus_name corpus)) s
  end.

(** The next entry of the live iterator that is over [connection]. *)
Definition next_corpus (connection : string) (position : nat) (s : CrdState) : option (nat * CorpusCustomResource) :=
  find (fun e => (position <=? e.1)%nat && bool_decide (corpus_connectionRef e.2 = connection)) (map_values (corpora s)).

(** The loop of [rebuildFor], up to its next await. *)
Definition rebuild_run (connection : string) (position : nat) (s : CrdState) : CrdState * list Job :=
  match next_corpus connection position s with
  | None => (s, [])
  | Some (stamp, corpus) =>
      match upsert_begin corpus (Some (connection, S stamp)) s with
      | (s', Some job) => (s', [job])
      | (s', None) => (s', [Rebuilding connection (S stamp)])
      end
  end.

Definition add_jobs (r : CrdState * list Job) : CrdState := set_jobs (jobs r.1 ++ r.2) r.1.

Definition on_corpus (phase : WatchPhase) (corpus : CorpusCustomResource) (s : CrdState) : CrdState :=
  let name := corpus_name corpus in
  if str_empty name then s
  else if decide (phase = DELETED) then
    set_corpora (map_delete name (corpora s)) (next_stamp s) (with_bindings (map_delete name) s)
  else
    let '(s', job) := upsert_begin corpus None s in
    add_jobs (s', match job with Some j => [j] | None => [] end).

Definition on_connection (phase : WatchPhase) (connection : ConnectionCustomResource) (s : CrdState) : CrdState :=
  let name := conn_name connection in
  if str_empty name then s
  else
    let s := if decide (phase = DELETED) then set_connections (map_delete name (connections s)) s
             else set_connections (map_set name connection (connections s)) s in
    add_jobs (rebuild_run name 0 s).

Definition remove_job (i : nat) (s : CrdState) : CrdState := set_jobs (delete i (jobs s)) s.

(** Job [i] goes on: its Secret has arrived, or its rebuild is resumed. *)
Definition run_job (i : nat) (s : CrdState) : CrdState :=
  match jobs s !! i with
  | None => s
  | Some (Binding corpus connection resume) =>
      let s := upsert_finish corpus connection (remove_job i s) in
      match resume with
      | Some (name, position) => add_jobs (s, [Rebuilding name position])
      | None => s
      end
  | Some (Rebuilding name position) => add_jobs (rebuild_run name position (remove_job i s))
  end.

Inductive Event :=
| CorpusEvent (phase : WatchPhase) (corpus : CorpusCustomResource)
| ConnectionEvent (phase : WatchPhase) (connection : ConnectionCustomResource)
| JobEvent (i : nat).

Definition crd_step (s : CrdState) (e : Event) : CrdState :=
  match e with
  | CorpusEvent phase corpus => on_corpus phase corpus s
  | ConnectionEvent phase connection => on_connection phase connection s
  | JobEvent i => run_job i s
  end.

(** [loadAll], before anything is watched: connections first, then each corpus
    in turn, awaited. *)
Definition load_connection (s : CrdState) (connection : ConnectionCustomResource) : CrdState :=
  if str_empty (conn_name connection) then s
  else set_connections (map_set (conn_name connection) connection (connections s)) s.

Definition load_corpus (s : CrdState) (corpus : CorpusCustomResource) : CrdState :=
  match upsert_begin corpus None s with
  | (s', Some (Binding corpus connection _)) => upsert_finish corpus connection s'
  | (s', _) => s'
  end.

Definition loadAll (conns : list ConnectionCustomResource) (corps : list CorpusCustomResource) : CrdState :=
  foldl load_corpus (foldl load_connection crd_init conns) corps.

Definition crd_run (s : CrdState) (events : list Event) : CrdState := foldl crd_step s events.

Definition reachable (s : CrdState) : Prop :=
  exists conns corps events, s = crd_run (loadAll conns corps) events.

(** ** The interface *)

(** [get], [list] and [corporaFor] serve the bindings. *)
Definition crd_registry (s : CrdState) : CorpusRegistry DriverSpec := registry_of (bindings s).

Definition listResources (s : CrdState) : list CorpusCustomResource := (map_values (corpora s)).*2.

Definition corporaFor (s : CrdState) (connection : string) : list (CorpusBinding DriverSpec) :=
  List.filter (fun b => bool_decide (binding_connection b = connection)) (reg_list (crd_registry s)).
End Crd.

(** ** What the bindings should be *)

Section Consistent.
Variable env : DriverEnv.
Variable read_secret : string -> string -> result ConfigError (list (string * string)).
Variable base64_decode : string -> string.
Variable default_namespace : string.

#[local] Abbreviation build := (fun c k => toBinding env c k (secretReader read_secret base64_decode default_namespace c)).

(** The binding of a name, as a function of the resources alone. *)
Definition expected (s : CrdState) (name : string) : option (CorpusBinding DriverSpec) :=
  match map_get name (corpora s) with
  | None => None
  | Some (_, c) =>
      match map_get (corpus_connectionRef c) (connections s) with
      | None => None
      | Some k =>
          match build c k with
          | Ok b => Some b
          | Err _ => None
          end
      end
  end.

Definition in_sync (s : CrdState) (name : string) : Prop := map_get name (bindings s) = expected s name.

(** Keys are names, stamps grow along the map, below the next one. *)
Definition stamps (m : jsmap (nat * CorpusCustomResource)) : list nat := (map_values m).*1.

Definition crd_wf (s : CrdState) : Prop :=
  entries_named (bindings s) /\ map_wf (corpora s) /\
  (forall k e, (k, e) ∈ corpora s -> corpus_name e.2 = k /\ str_empty k = false) /\
  StronglySorted lt (stamps (corpora s)) /\ Forall (fun n => (n < next_stamp s)%nat) (stamps (corpora s)).

Definition consistent (s : CrdState) : Prop := crd_wf s /\ forall name, in_sync s name.
End Consistent.

(** ** Lemmas *)

Lemma stamps_cons k e m : stamps ((k, e) :: m) = e.1 :: stamps m.
Proof. reflexivity. Qed.

(** Replacing an entry with the same stamp, or appending a new one. *)
Lemma stamps_set_present k n c c' m :
  map_get k m = Some (n, c) -> stamps (map_set k (n, c') m) = stamps m.
Proof.
  induction m as [|[k' e] m IH]; [done|]. rewrite map_get_cons. cbn [map_set].
  case_decide; rewrite !stamps_cons; [by intros [= ->]|]. intros Hg. by rewrite IH.
Qed.

Lemma stamps_set_absent k e m : map_get k m = None -> stamps (map_set k e m) = stamps m ++ [e.1].
Proof.
  induction m as [|[k' e'] m IH]; [done|]. rewrite map_get_cons. cbn [map_set].
  case_decide; [done|]. intros Hg. rewrite !stamps_cons, IH by done. done.
Qed.

Lemma stamps_delete k m : sublist (stamps (map_delete k m)) (stamps m).
Proof.
  induction m as [|[k' e'] m IH]; [constructor|]. cbn [map_delete].
  case_decide; rewrite !stamps_cons; by constructor.
Qed.

Lemma StronglySorted_sublist {A : Type} (R : A -> A -> Prop) l1 l2 :
  sublist l1 l2 -> StronglySorted R l2 -> StronglySorted R l1.
Proof.
  induction 1 as [|x l1 l2 Hs IH|x l1 l2 Hs IH]; intros Hl; [constructor| |];
    apply StronglySorted_inv in Hl as [Hl Hx]; [|by apply IH].
  constructor; [by apply IH|]. rewrite Forall_forall in Hx |- *. intros y Hy. apply Hx. by eapply elem_of_sublist.
Qed.

Lemma StronglySorted_snoc_lt l n : StronglySorted lt l -> Forall (fun m => (m < n)%nat) l -> StronglySorted lt (l ++ [n]).
Proof.
  induction 1 as [|x l Hl IH Hx]; intros Hn; [repeat constructor|]. simpl.
  apply Forall_cons in Hn as [Hxn Hn]. constructor; [by apply IH|]. apply Forall_app. split; [done|by constructor].
Qed.

Lemma put_corpus_wf corpus s :
  str_empty (corpus_name corpus) = false -> crd_wf s -> crd_wf (put_corpus corpus s).
Proof.
  intros Hne (Hb & Hc & Hk & Hs & Hn). unfold put_corpus.
  destruct (map_get (corpus_name corpus) (corpora s)) as [[n c]|] eqn:Hg; split_and!; simpl; try done.
  - by apply map_set_wf.
  - intros k e [[= -> ->]|Hin]%map_set_elem; auto.
  - by rewrite (stamps_set_present _ _ _ _ _ Hg).
  - by rewrite (stamps_set_present _ _ _ _ _ Hg).
  - by apply map_set_wf.
  - intros k e [[= -> ->]|Hin]%map_set_elem; auto.
  - rewrite stamps_set_absent by done. by apply StronglySorted_snoc_lt.
  - rewrite stamps_set_absent by done. apply Forall_app. split; [|by constructor; simpl; auto with lia].
    eapply Forall_impl; [exact Hn|]. simpl. lia.
Qed.

Lemma put_corpus_get corpus s name :
  snd <$> map_get name (corpora (put_corpus corpus s)) =
  if decide (corpus_name corpus = name) then Some corpus else snd <$> map_get name (corpora s).
Proof.
  unfold put_corpus. destruct (map_get (corpus_name corpus) (corpora s)) as [[n c]|]; simpl;
    (case_decide as Hd; [subst; by rewrite map_get_set_eq | by rewrite map_get_set_ne]).
Qed.

Lemma put_corpus_rest corpus s :
  bindings (put_corpus corpus s) = bindings s /\ connections (put_corpus corpus s) = connections s /\
  jobs (put_corpus corpus s) = jobs s.
Proof. unfold put_corpus. by destruct (map_get _ _) as [[n c]|]. Qed.

(** Putting back the value that is there changes nothing. *)
Lemma put_corpus_same corpus s n : map_get (corpus_name corpus) (corpora s) = Some (n, corpus) -> put_corpus corpus s = s.
Proof. intros H. unfold put_corpus. rewrite H, map_set_same by done. by destruct s. Qed.

Lemma with_bindings_wf f s : crd_wf s -> entries_named (f (bindings s)) -> crd_wf (with_bindings f s).
Proof. intros (Hb & Hc & Hk & Hs & Hn) Hf. by split_and!. Qed.

Lemma delete_corpus_wf name s : crd_wf s -> crd_wf (set_corpora (map_delete name (corpora s)) (next_stamp s) s).
Proof.
  intros (Hb & Hc & Hk & Hs & Hn). split_and!; simpl; try done.
  - by apply map_delete_wf.
  - intros k e Hin%map_delete_elem. by apply Hk.
  - eapply StronglySorted_sublist; [apply stamps_delete|done].
  - rewrite Forall_forall in Hn |- *. intros n Hin. apply Hn. eapply elem_of_sublist; [done|apply stamps_delete].
Qed.

Section Invariant.
Variable env : DriverEnv.
Variable read_secret : string -> string -> result ConfigError (list (string * string)).
Variable base64_decode : string -> string.
Variable default_namespace : string.

#[local] Abbreviation finish := (upsert_finish env read_secret base64_decode default_namespace).
#[local] Abbreviation step := (crd_step env read_secret base64_decode default_namespace).
#[local] Abbreviation sync := (in_sync env read_secret base64_decode default_namespace).

Lemma upsert_begin_wf corpus resume s : crd_wf s -> crd_wf (upsert_begin corpus resume s).1.
Proof.
  intros Hw. unfold upsert_begin. destruct (str_empty _) eqn:He; [done|]. pose proof (put_corpus_wf corpus s He Hw) as Hp.
  destruct (map_get (corpus_connectionRef corpus) _); simpl; [done|]. apply with_bindings_wf; [done|].
  apply entries_named_delete, Hp.
Qed.

Lemma upsert_finish_wf corpus connection s : crd_wf s -> crd_wf (finish corpus connection s).
Proof.
  intros Hw. unfold upsert_finish. destruct (toBinding _ _ _ _) as [b|e] eqn:Hb; apply with_bindings_wf; try done.
  - apply toBinding_Ok in Hb as (_ & _ & _ & _ & <- & _). apply entries_named_set, Hw.
  - apply entries_named_delete, Hw.
Qed.

Lemma set_jobs_wf js s : crd_wf s -> crd_wf (set_jobs js s).
Proof. done. Qed.

Lemma rebuild_run_wf conn pos s : crd_wf s -> crd_wf (rebuild_run conn pos s).1.
Proof.
  intros Hw. unfold rebuild_run. destruct (next_corpus conn pos s) as [[n c]|]; [|done].
  pose proof (upsert_begin_wf c (Some (conn, S n)) s Hw) as H. by destruct (upsert_begin _ _ _) as [s' [j|]].
Qed.

Lemma crd_step_wf e s : crd_wf s -> crd_wf (step s e).
Proof.
  intros Hw. destruct e as [phase corpus|phase connection|i]; simpl.
  - unfold on_corpus. destruct (str_empty _); [done|]. destruct (decide (phase = DELETED)).
    + apply (delete_corpus_wf _ (with_bindings _ s)). apply with_bindings_wf; [done|]. apply entries_named_delete, Hw.
    + pose proof (upsert_begin_wf corpus None s Hw) as H. by destruct (upsert_begin _ _ _) as [s' [j|]].
  - unfold on_connection. destruct (str_empty _); [done|]. apply set_jobs_wf.
    by destruct (decide (phase = DELETED)); apply rebuild_run_wf.
  - unfold run_job. destruct (jobs s !! i) as [[c k resume|conn pos]|]; [| |done].
    + pose proof (upsert_finish_wf c k (remove_job i s) Hw) as H. by destruct resume as [[name pos]|].
    + by apply set_jobs_wf, rebuild_run_wf.
Qed.

Lemma load_connection_wf s k : crd_wf s -> crd_wf (load_connection s k).
Proof. intros Hw. unfold load_connection. by destruct (str_empty _). Qed.

Lemma load_corpus_wf s c : crd_wf s -> crd_wf (load_corpus env read_secret base64_decode default_namespace s c).
Proof.
  intros Hw. unfold load_corpus. pose proof (upsert_begin_wf c None s Hw) as H.
  destruct (upsert_begin c None s) as [s' [[c' k r|conn pos]|]]; simpl in H; [by apply upsert_finish_wf|done|done].
Qed.

Lemma crd_init_wf : crd_wf crd_init.
Proof.
  refine (conj (conj _ _) (conj _ (conj _ (conj (SSorted_nil _) (List.Forall_nil _)))));
    try apply NoDup_nil_2; by intros k e ?%elem_of_nil.
Qed.

Lemma reachable_wf s : reachable env read_secret base64_decode default_namespace s -> crd_wf s.
Proof.
  intros (conns & corps & events & ->). unfold crd_run, loadAll.
  apply (foldl_inv crd_wf); [intros; by apply crd_step_wf|].
  apply (foldl_inv crd_wf); [intros; by apply load_corpus_wf|].
  apply (foldl_inv crd_wf); [intros; by apply load_connection_wf|]. apply crd_init_wf.
Qed.

(** ** One event at a time *)

#[local] Abbreviation expect := (expected env read_secret base64_decode default_namespace).

Lemma in_sync_with_bindings f s name :
  map_get name (f (bindings s)) = map_get name (bindings s) -> sync s name -> sync (with_bindings f s) name.
Proof. unfold in_sync. simpl. by intros ->. Qed.

Lemma upsert_finish_sync corpus connection n s name :
  crd_wf s -> map_get (corpus_name corpus) (corpora s) = Some (n, corpus) ->
  map_get (corpus_connectionRef corpus) (connections s) = Some connection ->
  corpus_name corpus = name \/ sync s name -> sync (finish corpus connection s) name.
Proof.
  intros Hw Hc Hk Hor. destruct (decide (corpus_name corpus = name)) as [<-|Hne].
  - unfold in_sync, upsert_finish. destruct (toBinding _ _ _ _) as [b|e] eqn:Hb; unfold expected; simpl.
    + by rewrite map_get_set_eq, Hc, Hk, Hb.
    + by rewrite map_get_delete_eq, Hc, Hk, Hb by apply Hw.
  - destruct Hor as [?|Hs]; [done|]. unfold upsert_finish.
    destruct (toBinding _ _ _ _) as [b|e]; apply in_sync_with_bindings; try done;
      [by apply map_get_set_ne | by apply map_get_delete_ne].
Qed.

Lemma put_corpus_expected corpus s name : corpus_name corpus <> name -> expect (put_corpus corpus s) name = expect s name.
Proof.
  intros Hne. unfold expected. destruct (put_corpus_rest corpus s) as (_ & -> & _).
  pose proof (put_corpus_get corpus s name) as Hg. rewrite decide_False in Hg by done.
  destruct (map_get name (corpora (put_corpus corpus s))) as [[n c]|], (map_get name (corpora s)) as [[n' c']|];
    simplify_eq/=; done.
Qed.

(** A name whose connection is missing has no binding to be in sync with. *)
Lemma upsert_begin_sync corpus resume s name :
  crd_wf s -> str_empty (corpus_name corpus) = false ->
  (corpus_name corpus <> name -> sync s name) ->
  match upsert_begin corpus resume s with
  | (s', None) => sync s' name
  | (s', Some job) =>
      (corpus_name corpus <> name -> sync s' name) /\
      exists n k, job = Binding corpus k resume /\ map_get (corpus_name corpus) (corpora s') = Some (n, corpus) /\
        map_get (corpus_connectionRef corpus) (connections s') = Some k
  end.
Proof.
  intros Hw He Hs. unfold upsert_begin. rewrite He. destruct (put_corpus_rest corpus s) as (Hb & Hk & _).
  pose proof (put_corpus_get corpus s (corpus_name corpus)) as Hg. rewrite decide_True in Hg by done.
  destruct (map_get (corpus_name corpus) (corpora (put_corpus corpus s))) as [[n c]|] eqn:Hg'; simplify_eq/=.
  assert (corpus_name corpus <> name -> sync (put_corpus corpus s) name) as Hs'.
  { intros Hne. unfold in_sync. rewrite Hb, put_corpus_expected by done. by apply Hs. }
  destruct (map_get (corpus_connectionRef corpus) (connections (put_corpus corpus s))) as [k|] eqn:Hk'.
  - split; [done|]. by exists n, k.
  - destruct (decide (corpus_name corpus = name)) as [<-|Hne].
    + unfold in_sync, expected. simpl. rewrite map_get_delete_eq, Hg', Hk'; [done|].
      rewrite Hb. apply Hw.
    + apply in_sync_with_bindings; [by apply map_get_delete_ne | by apply Hs'].
Qed.

Lemma find_sorted (p : nat * CorpusCustomResource -> bool) l e e' :
  StronglySorted lt l.*1 -> find p l = Some e -> e' ∈ l -> p e' = true -> e = e' \/ (e.1 < e'.1)%nat.
Proof.
  induction l as [|x l IH]; [done|]. csimpl. intros [Hl Hx]%StronglySorted_inv Hf Hin Hp.
  destruct (p x) eqn:Hpx.
  - injection Hf as <-. apply elem_of_cons in Hin as [->|Hin]; [by left|]. right.
    rewrite Forall_forall in Hx. apply Hx. apply list_elem_of_fmap. by exists e'.
  - apply elem_of_cons in Hin as [->|Hin]; [congruence|]. by apply IH.
Qed.

(** Runs the jobs, oldest first, until none is left. *)
Inductive settles : CrdState -> CrdState -> Prop :=
| settles_done s : jobs s = [] -> settles s s
| settles_run s s' : jobs s <> [] ->
    settles (run_job env read_secret base64_decode default_namespace 0 s) s' -> settles s s'.

Lemma next_corpus_spec conn pos s n c :
  crd_wf s -> next_corpus conn pos s = Some (n, c) ->
  (pos <= n)%nat /\ corpus_connectionRef c = conn /\ map_get (corpus_name c) (corpora s) = Some (n, c) /\
  str_empty (corpus_name c) = false /\ (n < next_stamp s)%nat.
Proof.
  intros (_ & Hwf & Hk & _ & Hst) Hf. unfold next_corpus in Hf. apply find_some in Hf as [Hin Hp].
  simpl in Hp. apply andb_true_iff in Hp as [Hle%Nat.leb_le Href%bool_decide_eq_true].
  apply list_elem_of_In, map_values_elem in Hin as [k Hin]. destruct (Hk _ _ Hin) as [Hn He]. simpl in Hn.
  rewrite Hn. split_and!; try done; [by apply map_get_elem|].
  rewrite Forall_forall in Hst. apply Hst. unfold stamps. apply list_elem_of_fmap. exists (n, c). split; [done|].
  apply map_values_elem. by exists k.
Qed.

(** Every corpus over the connection that the iterator has not passed. *)
Definition pending (conn : string) (pos : nat) (s : CrdState) (name : string) : Prop :=
  exists n c, map_get name (corpora s) = Some (n, c) /\ (pos <= n)%nat /\ corpus_connectionRef c = conn.

Lemma pending_next conn pos s name :
  crd_wf s -> pending conn pos s name ->
  match next_corpus conn pos s with
  | None => False
  | Some (n, c) => corpus_name c = name \/ pending conn (S n) s name
  end.
Proof.
  intros (_ & Hwf & Hk & Hsort & _) (n & c & Hg & Hle & Href). apply map_get_elem in Hg as Hin; [|done].
  assert ((n, c) ∈ map_values (corpora s)) as Hv by (apply map_values_elem; by exists name).
  assert ((pos <=? n)%nat && bool_decide (corpus_connectionRef c = conn) = true) as Hp.
  { apply andb_true_iff. by rewrite Nat.leb_le, bool_decide_eq_true. }
  destruct (next_corpus conn pos s) as [[n0 c0]|] eqn:Hf; unfold next_corpus in Hf.
  - destruct (find_sorted _ _ _ (n, c) Hsort Hf Hv Hp) as [[= -> ->]|Hlt].
    + left. by apply (Hk name (n, c)).
    + right. exists n, c. by split_and!.
  - apply find_none with (x := (n, c)) in Hf; [|by apply list_elem_of_In]. simpl in Hf. congruence.
Qed.

#[local] Abbreviation run0 := (run_job env read_secret base64_decode default_namespace 0).
#[local] Abbreviation ok := (consistent env read_secret base64_decode default_namespace).

Lemma upsert_begin_jobs corpus resume s : jobs (upsert_begin corpus resume s).1 = jobs s.
Proof.
  unfold upsert_begin. destruct (str_empty _); [done|]. destruct (put_corpus_rest corpus s) as (_ & _ & Hj).
  by destruct (map_get _ (connections _)).
Qed.

Lemma upsert_finish_jobs corpus connection s : jobs (finish corpus connection s) = jobs s.
Proof. unfold upsert_finish. by destruct (toBinding _ _ _ _). Qed.

Lemma sync_set_jobs js s name : sync (set_jobs js s) name <-> sync s name.
Proof. done. Qed.

Lemma set_jobs_id s : jobs s = [] -> set_jobs [] s = s.
Proof. destruct s. simpl. by intros ->. Qed.

Lemma add_one j s : jobs s = [] -> add_jobs (s, [j]) = set_jobs [j] s.
Proof. unfold add_jobs. simpl. by intros ->. Qed.

Lemma run_binding c k s : jobs s = [] -> run0 (set_jobs [Binding c k None] s) = finish c k s.
Proof. destruct s as [b co cn n js]. simpl. by intros ->. Qed.

Lemma run_binding_resume c k conn pos s :
  jobs s = [] -> run0 (set_jobs [Binding c k (Some (conn, pos))] s) = set_jobs [Rebuilding conn pos] (finish c k s).
Proof.
  destruct s as [b co cn n js]. simpl. intros ->. unfold run_job. simpl. unfold remove_job, set_jobs at 1. simpl.
  apply add_one. by rewrite upsert_finish_jobs.
Qed.

Lemma run_rebuilding conn pos s : jobs s = [] -> run0 (set_jobs [Rebuilding conn pos] s) = add_jobs (rebuild_run conn pos s).
Proof. destruct s as [b co cn n js]. simpl. by intros ->. Qed.

(** The rebuild goes through every corpus over the connection and ends. *)
Lemma rebuild_settles d conn pos s :
  (next_stamp s - pos <= d)%nat -> crd_wf s -> jobs s = [] ->
  (forall name, sync s name \/ pending conn pos s name) ->
  exists s', settles (add_jobs (rebuild_run conn pos s)) s' /\ ok s'.
Proof.
  revert pos s. induction d as [|d IH]; intros pos s Hd Hw Hj Hall;
    destruct (next_corpus conn pos s) as [[n c]|] eqn:Hnext.
  2,4: (exists s; unfold rebuild_run; rewrite Hnext; unfold add_jobs; simpl; rewrite Hj, set_jobs_id by done;
    split; [by apply settles_done|]; split; [done|]; intros name;
    destruct (Hall name) as [?|Hp]; [done|]; apply pending_next in Hp; [|done]; by rewrite Hnext in Hp).
  { destruct (next_corpus_spec _ _ _ _ _ Hw Hnext) as (? & _ & _ & _ & ?). lia. }
  destruct (next_corpus_spec _ _ _ _ _ Hw Hnext) as (Hle & Href & Hget & He & Hlt).
  (* the rest of the loop, from any state that has this corpus in sync *)
  assert (forall s1, crd_wf s1 -> jobs s1 = [] -> next_stamp s1 = next_stamp s -> corpora s1 = corpora s ->
    (forall name, corpus_name c = name \/ sync s name -> sync s1 name) ->
    exists s', settles (add_jobs (rebuild_run conn (S n) s1)) s' /\ ok s') as Hrest.
  { intros s1 Hw1 Hj1 Hn1 Hc1 Hs1. apply IH; try done; [lia|]. intros name.
    destruct (Hall name) as [?|Hp]; [left; by auto|]. apply pending_next in Hp; [|done]. rewrite Hnext in Hp.
    destruct Hp as [Heq|(n' & c' & Hg' & Hle' & Href')]; [left; auto|]. right. exists n', c'. by rewrite Hc1. }
  unfold rebuild_run. rewrite Hnext. unfold upsert_begin. rewrite He, (put_corpus_same _ _ _ Hget), Href.
  destruct (map_get conn (connections s)) as [k|] eqn:Hk; unfold add_jobs; simpl fst; simpl snd.
  - destruct (Hrest (finish c k s)) as (s' & Hset & Hok).
    { by apply upsert_finish_wf. } { by rewrite upsert_finish_jobs. }
    { unfold upsert_finish. by destruct (toBinding _ _ _ _). } { unfold upsert_finish. by destruct (toBinding _ _ _ _). }
    { intros name Hor. eapply upsert_finish_sync; eauto. by rewrite Href. }
    exists s'. split; [|done]. rewrite Hj. cbn [app]. apply settles_run; [done|].
    rewrite run_binding_resume by done. apply settles_run; [done|].
    rewrite run_rebuilding; [done|]. by rewrite upsert_finish_jobs.
  - destruct (Hrest (with_bindings (map_delete (corpus_name c)) s)) as (s' & Hset & Hok); try done.
    { apply with_bindings_wf; [done|]. apply entries_named_delete, Hw. }
    { intros name Hor. pose proof (upsert_begin_sync c (Some (conn, S n)) s name Hw He) as Hu.
      unfold upsert_begin in Hu. rewrite He, (put_corpus_same _ _ _ Hget), Href, Hk in Hu. apply Hu.
      by destruct Hor. }
    exists s'. split; [|done]. change (jobs (with_bindings _ s)) with (jobs s). rewrite Hj. cbn [app].
    apply settles_run; [done|]. by rewrite run_rebuilding.
Qed.

Lemma corpus_settles phase corpus s :
  ok s -> jobs s = [] -> exists s', settles (step s (CorpusEvent phase corpus)) s' /\ ok s'.
Proof.
  intros [Hw Hs] Hj. simpl. unfold on_corpus.
  destruct (str_empty (corpus_name corpus)) eqn:He; [by exists s; split; [apply settles_done|]|].
  destruct (decide (phase = DELETED)).
  - eexists. split; [by apply settles_done|]. split.
    + apply (delete_corpus_wf _ (with_bindings _ s)). apply with_bindings_wf; [done|]. apply entries_named_delete, Hw.
    + intros name. unfold in_sync, expected. simpl. destruct (decide (corpus_name corpus = name)) as [<-|Hne].
      * by rewrite !map_get_delete_eq by apply Hw.
      * rewrite !map_get_delete_ne by done. apply Hs.
  - pose proof (upsert_begin_wf corpus None s Hw) as Hw'. pose proof (upsert_begin_jobs corpus None s) as Hj'.
    pose proof (fun name => upsert_begin_sync corpus None s name Hw He (fun _ => Hs name)) as Hu.
    destruct (upsert_begin corpus None s) as [s1 [j|]]; simpl in *; rewrite Hj in Hj'.
    + destruct (Hu (corpus_name corpus)) as (_ & stamp & k & -> & Hc & Hk). rewrite add_one by done.
      exists (finish corpus k s1). split; [|split; [by apply upsert_finish_wf|]].
      * apply settles_run; [done|]. rewrite run_binding by done. apply settles_done. by rewrite upsert_finish_jobs.
      * intros name. eapply upsert_finish_sync; eauto. destruct (decide (corpus_name corpus = name)); [by left|].
        right. by apply (Hu name).
    + exists s1. unfold add_jobs. simpl. rewrite Hj', set_jobs_id by done. split; [by apply settles_done|]. done.
Qed.

Lemma set_connections_pending m conn s name :
  (forall n, n <> conn -> map_get n m = map_get n (connections s)) -> sync s name ->
  sync (set_connections m s) name \/ pending conn 0 (set_connections m s) name.
Proof.
  intros Hm Hs. unfold in_sync, expected, pending in *. simpl.
  destruct (map_get name (corpora s)) as [[n c]|]; [|by left].
  destruct (decide (corpus_connectionRef c = conn)); [right; exists n, c; split_and!; try done; lia|].
  left. by rewrite Hm.
Qed.

Lemma connection_settles phase connection s :
  ok s -> jobs s = [] -> exists s', settles (step s (ConnectionEvent phase connection)) s' /\ ok s'.
Proof.
  intros [Hw Hs] Hj. simpl. unfold on_connection.
  destruct (str_empty (conn_name connection)) eqn:He; [by exists s; split; [apply settles_done|]|].
  destruct (decide (phase = DELETED)); eapply rebuild_settles; try done; intros name;
    apply set_connections_pending; try done; intros n' Hne; [by apply map_get_delete_ne | by apply map_get_set_ne].
Qed.

(** A watch event, as opposed to a job going on. *)
Definition watch_event (e : Event) : Prop :=
  match e with
  | JobEvent _ => False
  | _ => True
  end.

(** The events handled one at a time, each with its jobs run to the end. *)
Inductive handled : CrdState -> list Event -> CrdState -> Prop :=
| handled_nil s : handled s [] s
| handled_cons s e s1 events s' :
    settles (step s e) s1 -> handled s1 events s' -> handled s (e :: events) s'.

Lemma settles_jobs s s' : settles s s' -> jobs s' = [].
Proof. by induction 1. Qed.

Lemma handled_ok s events :
  Forall watch_event events -> ok s -> jobs s = [] -> exists s', handled s events s' /\ ok s' /\ jobs s' = [].
Proof.
  intros Hev. revert s. induction Hev as [|e events He Hev IH]; intros s Hok Hj; [by exists s; split; [constructor|]|].
  assert (exists s1, settles (step s e) s1 /\ ok s1) as (s1 & Hset & Hok1).
  { destruct e; [by apply corpus_settles | by apply connection_settles | done]. }
  destruct (IH s1 Hok1 (settles_jobs _ _ Hset)) as (s' & Hh & Hok' & Hj'). exists s'.
  split; [by eapply handled_cons|done].
Qed.

Lemma load_corpus_ok s c : ok s /\ jobs s = [] -> ok (load_corpus env read_secret base64_decode default_namespace s c) /\
  jobs (load_corpus env read_secret base64_decode default_namespace s c) = [].
Proof.
  intros [[Hw Hs] Hj]. split; [split; [by apply load_corpus_wf|]|].
  - intros name. unfold load_corpus. destruct (str_empty (corpus_name c)) eqn:He.
    { unfold upsert_begin. rewrite He. apply Hs. }
    pose proof (upsert_begin_sync c None s name Hw He (fun _ => Hs name)) as Hu.
    pose proof (upsert_begin_wf c None s Hw) as Hw'.
    destruct (upsert_begin c None s) as [s1 [j|]]; [|done]. destruct Hu as (Hu & n & k & -> & Hc & Hk).
    eapply upsert_finish_sync; eauto. destruct (decide (corpus_name c = name)); [by left|]. right. by apply Hu.
  - unfold load_corpus. pose proof (upsert_begin_jobs c None s) as Hj'.
    destruct (upsert_begin c None s) as [s1 [[c' k r|conn pos]|]]; simpl in *; rewrite ?upsert_finish_jobs; congruence.
Qed.

Lemma loadAll_ok conns corps : ok (loadAll env read_secret base64_decode default_namespace conns corps) /\
  jobs (loadAll env read_secret base64_decode default_namespace conns corps) = [].
Proof.
  unfold loadAll. apply (foldl_inv (fun s => ok s /\ jobs s = [])); [intros; by apply load_corpus_ok|].
  assert (forall s, crd_wf s /\ bindings s = [] /\ corpora s = [] /\ jobs s = [] -> ok s /\ jobs s = []) as H.
  { intros s (Hw & Hb & Hc & Hj). split; [split; [done|]|done]. intros name. unfold in_sync, expected.
    by rewrite Hb, Hc. }
  apply H. apply (foldl_inv (fun s => crd_wf s /\ bindings s = [] /\ corpora s = [] /\ jobs s = [])).
  - intros s k _ (Hw & Hb & Hc & Hj). split; [by apply load_connection_wf|]. unfold load_connection.
    by destruct (str_empty _).
  - split; [apply crd_init_wf|done].
Qed.
End Invariant.

(** ** Properties *)

(** Whatever the interleaving of watch events and Secret reads, what the
    registry serves is a registry: every binding sits under its own name, so
    the server's authorization theorem applies to it. *)
Theorem crd_registry_laws (env : DriverEnv)
    (read_secret : string -> string -> result ConfigError (list (string * string)))
    (base64_decode : string -> string) (default_namespace : string) (s : CrdState) :
  reachable env read_secret base64_decode default_namespace s -> RegistryLaws (crd_registry s).
Proof. intros H%reachable_wf. apply registry_of_laws, H. Qed.

Lemma crd_registry_laws_witness : RegistryLaws (crd_registry crd_init).
Proof.
  apply (crd_registry_laws sample_env (fun _ _ => Ok []) id "default" crd_init). by exists [], [], [].
Defined.

(** Events handled one at a time: the rebuild loops end, and the served
    bindings are exactly those the resources describe: each corpus whose
    connection exists and whose binding can be built, built from the current
    versions of both; nothing else. *)
Theorem crd_sequential_consistent (env : DriverEnv)
    (read_secret : string -> string -> result ConfigError (list (string * string)))
    (base64_decode : string -> string) (default_namespace : string)
    (conns : list ConnectionCustomResource) (corps : list CorpusCustomResource) (events : list Event) :
  Forall watch_event events ->
  exists s, handled env read_secret base64_decode default_namespace
      (loadAll env read_secret base64_decode default_namespace conns corps) events s /\ jobs s = [] /\
    forall name, reg_get (crd_registry s) name = expected env read_secret base64_decode default_namespace s name.
Proof.
  intros Hev. destruct (loadAll_ok env read_secret base64_decode default_namespace conns corps) as [Hok Hj].
  destruct (handled_ok env read_secret base64_decode default_namespace _ events Hev Hok Hj) as (s & Hh & [_ Hs] & Hj').
  by exists s.
Qed.

Lemma crd_sequential_consistent_witness :
  exists s, handled sample_env (fun _ _ => Ok [("token", "svc")]) id "default"
      (loadAll sample_env (fun _ _ => Ok [("token", "svc")]) id "default" [sample_connection] [])
      [CorpusEvent ADDED (sample_corpus (mkScope None (Some "C1") None))] s /\ jobs s = [] /\
    forall name, reg_get (crd_registry s) name = expected sample_env (fun _ _ => Ok [("token", "svc")]) id "default" s name.
Proof.
  apply (crd_sequential_consistent sample_env (fun _ _ => Ok [("token", "svc")]) id "default" [sample_connection] []
    [CorpusEvent ADDED (sample_corpus (mkScope None (Some "C1") None))]). by repeat constructor.
Defined.

(** Without that, a deleted corpus can be served for good: the deletion
    arrives while the Secret of an upsert is being read, and the binding is
    set after it. Nothing is left to run, the corpus is gone from the
    resources, and the broker still holds its scope and its credential. *)
Theorem deleted_corpus_served (env : DriverEnv)
    (read_secret : string -> string -> result ConfigError (list (string * string)))
    (base64_decode : string -> string) (default_namespace : string)
    (connection : ConnectionCustomResource) (corpus : CorpusCustomResource) (b : CorpusBinding DriverSpec) :
  str_empty (conn_name connection) = false -> str_empty (corpus_name corpus) = false ->
  toBinding env corpus connection (secretReader read_secret base64_decode default_namespace corpus) = Ok b ->
  let s := crd_run env read_secret base64_decode default_namespace
    (loadAll env read_secret base64_decode default_namespace [connection] [])
    [CorpusEvent ADDED corpus; CorpusEvent DELETED corpus; JobEvent 0] in
  reg_get (crd_registry s) (corpus_name corpus) = Some b /\ listResources s = [] /\ jobs s = [].
Proof.
  intros Hc Hn Hb. pose proof (proj1 (toBinding_Ok _ _ _ _ _ Hb)) as Href.
  unfold loadAll, load_connection, crd_run. cbn [foldl]. rewrite Hc. cbn [crd_step].
  unfold on_corpus. rewrite Hn. rewrite (decide_True (P := DELETED = DELETED)), (decide_False (P := ADDED = DELETED)) by done.
  unfold upsert_begin. rewrite Hn. simpl. rewrite map_get_cons. case_decide; [simpl|congruence].
  unfold run_job, upsert_finish. simpl. rewrite Hb. simpl. rewrite map_get_cons. by repeat (case_decide; [|congruence]).
Qed.

Lemma deleted_corpus_served_witness :
  exists b, reg_get (crd_registry (crd_run sample_env (fun _ _ => Ok [("token", "svc")]) id "default"
    (loadAll sample_env (fun _ _ => Ok [("token", "svc")]) id "default" [sample_connection] [])
    [CorpusEvent ADDED (sample_corpus (mkScope None (Some "C1") None));
     CorpusEvent DELETED (sample_corpus (mkScope None (Some "C1") None)); JobEvent 0])) "docs" = Some b.
Proof.
  eexists.
  refine (proj1 (deleted_corpus_served sample_env (fun _ _ => Ok [("token", "svc")]) id "default" sample_connection
    (sample_corpus (mkScope None (Some "C1") None)) _ _ _ _)); by vm_compute.
Defined.
