(* ===== verification/Writer.v ===== *)
(** * Connection broker: the corpus in Qdrant

    apps/connection-broker/src/sync/corpus-writer.ts and
    apps/connection-broker/src/sync/point-id.ts: [QdrantCorpusWriter] over the
    [Qdrant] interface, an implementation of [CorpusWriter]. *)

From stdpp Require Import base gmap strings list sorting.
From Stdlib Require Import ZArith Lia Ascii.
From S2P Require Import Prelude JsString JsNumber Json JsMap Chunk Driver Reconcile Worker Auth.

(** ** Point ids *)

Definition NAMESPACE_URL : list N :=
  [0x6b; 0xa7; 0xb8; 0x11; 0x9d; 0xad; 0x11; 0xd1; 0x80; 0xb4; 0x00; 0xc0; 0x4f; 0xd4; 0x30; 0xc8]%N.

Definition PREFIX : string := "github.com/controller-agent/temporal-engine/".

Definition hex_lower (n : N) : ascii := ascii_of_N (if (n <? 10)%N then 48 + n else 87 + n)%N.

Definition byte_hex (n : N) : string := String (hex_lower (n / 16)) (String (hex_lower (n mod 16)) EmptyString).

Definition bytes_hex (bs : list N) : string := str_concat (byte_hex <$> bs).

(** [s.slice(a, b)] *)
Definition str_slice (a b : nat) (s : string) : string := str_take (b - a) (str_drop a s).

(** The version and variant bits of a UUID over the first sixteen bytes. *)
Definition uuid_bytes (hash : list N) : list N :=
  let bytes := take 16 hash in
  let bytes := <[6%nat := N.lor (N.land ((bytes !! 6%nat) ?? 0%N) 0x0f) 0x50]> bytes in
  <[8%nat := N.lor (N.land ((bytes !! 8%nat) ?? 0%N) 0x3f) 0x80]> bytes.

Definition uuid_string (bytes : list N) : string :=
  let hex := bytes_hex bytes in
  str_slice 0 8 hex +:+ "-" +:+ str_slice 8 12 hex +:+ "-" +:+ str_slice 12 16 hex +:+ "-" +:+
  str_slice 16 20 hex +:+ "-" +:+ str_drop 20 hex.

Definition corpusPointId (sha1 : list N -> list N) (collection id : string) : string :=
  uuid_string (uuid_bytes (sha1 (NAMESPACE_URL ++ Buffer_from (PREFIX +:+ collection +:+ "/" +:+ id)))).

(** ** The interface to Qdrant and the embedder *)

Record Payload := mkPayload {
  payload_id : option json;
  payload_roles : list string;
  payload_unrestricted : bool;
  payload_hidden : bool;
  payload_descriptor : option json
}.

Record QdrantPoint := mkQdrantPoint {
  point_id : string;
  point_vector : option (list number);
  point_payload : Payload
}.

Class Qdrant (W E : Type) := {
  q_exists : string -> SM W E bool;
  q_create : string -> nat -> SM W E unit;
  q_upsert : string -> list QdrantPoint -> SM W E unit;
  q_delete : string -> list string -> SM W E unit;
  q_scroll : string -> option string -> SM W E (list (option Payload) * option string)
}.

Class Embedder (W E : Type) := {
  embed : list string -> SM W E (list (list number))
}.

Definition EMBED_BATCH_SIZE : nat := 256.
Definition SCROLL_LIMIT : nat := 256.

Record CorpusWriterConfig := mkCorpusWriterConfig {
  cfg_allowedRoles : list string;
  cfg_vectorSize : nat
}.

(** ** The payload *)

(** The fields of [toDescriptor] that [JSON.stringify] writes: an undefined one
    is left out. *)
Definition toDescriptor (chunk : Chunk) : json :=
  JObj ([("connectionId", JStr (connectionId chunk)); ("connectionLabel", JStr (connectionLabel chunk));
         ("sourceUrl", JStr (sourceUrl chunk)); ("sourceId", JStr (sourceId chunk)); ("title", JStr (title chunk))] ++
        opt_field "updatedAt" JStr (updatedAt chunk) ++
        [("contentHash", JStr (contentHash chunk))] ++
        opt_field "version" JStr (version chunk) ++
        [("text", JStr (text chunk))] ++
        opt_field "aclPrincipals" (fun l => JArr (JStr <$> l)) (aclPrincipals chunk) ++
        opt_field "aclPermissive" JBool (aclPermissive chunk)).

Section QdrantWriter.
Context {W E : Type} `{Qdrant W E} `{Embedder W E}.
(** Node's SHA-1, the JSON codec, the error for a count of vectors that does
    not match, and the one that stands for a scroll that has not ended. *)
Variable sha1 : list N -> list N.
Variable JSON_stringify : json -> string.
Variable JSON_parse : string -> option json.
Variable bad_count : nat -> nat -> E.
Variable still_scrolling : E.
Variable cfg : CorpusWriterConfig.

Definition descriptor_sourceId (descriptor : option json) : option string :=
  match descriptor with
  | Some (JStr s) =>
      match JSON_parse s with
      | Some (JObj fields) =>
          match jget "sourceId" fields with
          | Some (JStr id) => Some id
          | _ => None
          end
      | _ => None
      end
  | _ => None
  end.

Definition toIndexedChunk (payload : option Payload) : option IndexedChunk :=
  match payload with
  | None => None
  | Some payload =>
      match payload_id payload with
      | Some (JStr contentHash) =>
          if str_empty contentHash then None
          else Some (mkIndexedChunk contentHash (descriptor_sourceId (payload_descriptor payload) ?? EmptyString))
      | _ => None
      end
  end.

Definition ensureCollection (collection : string) : SM W E unit :=
  do! there <- q_exists collection ;;
  if (there : bool) then sret tt else q_create collection (cfg_vectorSize cfg).

(** The loop of [indexed]: [pages] iterations are left. *)
Fixpoint scroll_loop (collection : string) (pages : nat) (out : list IndexedChunk) (offset : option string) :
    SM W E (list IndexedChunk) :=
  match pages with
  | O => sthrow still_scrolling
  | S pages' =>
      do! page <- q_scroll collection offset ;;
      let out := out ++ omap toIndexedChunk page.1 in
      match page.2 with
      | Some next => scroll_loop collection pages' out (Some next)
      | None => sret out
      end
  end.

Definition indexed (pages : nat) (collection : string) : SM W E (list IndexedChunk) :=
  do! there <- q_exists collection ;;
  if (there : bool) then scroll_loop collection pages [] None else sret [].

Definition point_of (collection : string) (chunk : Chunk) (vector : option (list number)) : QdrantPoint :=
  mkQdrantPoint (corpusPointId sha1 collection (contentHash chunk)) vector
    (mkPayload (Some (JStr (contentHash chunk))) (cfg_allowedRoles cfg) false false
       (Some (JStr (JSON_stringify (toDescriptor chunk))))).

(** [batch.map((chunk, index) => ..)] *)
Definition points_of (collection : string) (batch : list Chunk) (vectors : list (list number)) : list QdrantPoint :=
  imap (fun index chunk => point_of collection chunk (vectors !! index)) batch.

Definition upsert_batch (collection : string) (batch : list Chunk) : SM W E unit :=
  do! vectors <- embed (text <$> batch) ;;
  if (length vectors =? length batch)%nat then q_upsert collection (points_of collection batch vectors)
  else sthrow (bad_count (length vectors) (length batch)).

(** The loop over the batches: [fuel] bounds their number. *)
Fixpoint upsert_loop (collection : string) (fuel : nat) (chunks : list Chunk) : SM W E unit :=
  match fuel, chunks with
  | S fuel', _ :: _ =>
      do! _ <- upsert_batch collection (take EMBED_BATCH_SIZE chunks) ;;
      upsert_loop collection fuel' (drop EMBED_BATCH_SIZE chunks)
  | _, _ => sret tt
  end.

Definition upsert (collection : string) (chunks : list Chunk) : SM W E unit :=
  match chunks with
  | [] => sret tt
  | _ =>
      do! _ <- ensureCollection collection ;;
      upsert_loop collection (length chunks) chunks
  end.

Definition remove (collection : string) (contentHashes : list string) : SM W E unit :=
  match contentHashes with
  | [] => sret tt
  | _ => q_delete collection (corpusPointId sha1 collection <$> contentHashes)
  end.

(** [QdrantCorpusWriter implements CorpusWriter], its scroll bounded by [pages]. *)
#[local] Instance qdrant_writer (pages : nat) : CorpusWriter W E := {
  cw_indexed := indexed pages;
  cw_upsert := upsert;
  cw_remove := remove
}.
End QdrantWriter.

(** ** Lemmas *)

Section Gated.
Context {W E : Type} `{Qdrant W E} `{Embedder W E}.
Variable sha1 : list N -> list N.
Variable JSON_stringify : json -> string.
Variable bad_count : nat -> nat -> E.
Variable cfg : CorpusWriterConfig.
Variable I : W -> Prop.

(** A point of one of the chunks, gated by the configured roles. *)
Definition gated (collection : string) (chunks : list Chunk) (p : QdrantPoint) : Prop :=
  payload_unrestricted (point_payload p) = false /\ payload_roles (point_payload p) = cfg_allowedRoles cfg /\
  exists c, c ∈ chunks /\ point_id p = corpusPointId sha1 collection (contentHash c) /\
    payload_id (point_payload p) = Some (JStr (contentHash c)) /\ is_Some (point_vector p).

Lemma points_of_gated collection batch vectors :
  length vectors = length batch ->
  Forall (gated collection batch) (points_of sha1 JSON_stringify cfg collection batch vectors).
Proof.
  intros Hlen. apply Forall_forall. intros p Hp. unfold points_of in Hp. apply elem_of_lookup_imap in Hp as (i & c & -> & Hc).
  split_and!; try done. exists c. split; [by eapply list_elem_of_lookup_2|]. split_and!; try done. simpl.
  apply lookup_lt_is_Some. rewrite Hlen. by eapply lookup_lt_Some.
Qed.

Lemma upsert_loop_keeps collection fuel chunks all :
  (forall c, c ∈ chunks -> c ∈ all) ->
  (forall texts, keeps I (embed texts)) ->
  (forall points, Forall (gated collection all) points -> (length points <= EMBED_BATCH_SIZE)%nat ->
     keeps I (q_upsert collection points)) ->
  keeps I (upsert_loop sha1 JSON_stringify bad_count cfg collection fuel chunks).
Proof.
  intros Hall Hembed Hup. revert chunks Hall. induction fuel as [|fuel IH]; intros chunks Hall; [apply keeps_sret|].
  destruct chunks as [|c chunks]; [apply keeps_sret|].
  change (keeps I (do! _ <- upsert_batch sha1 JSON_stringify bad_count cfg collection (take EMBED_BATCH_SIZE (c :: chunks)) ;;
    upsert_loop sha1 JSON_stringify bad_count cfg collection fuel (drop EMBED_BATCH_SIZE (c :: chunks)))).
  revert Hall. generalize (c :: chunks). clear c chunks. intros chunks Hall. apply keeps_sbind.
  - unfold upsert_batch. apply keeps_sbind; [apply Hembed|]. intros vectors.
    destruct (Nat.eqb_spec (length vectors) (length (take EMBED_BATCH_SIZE chunks))) as [Hlen|]; [|apply keeps_sthrow].
    apply Hup; [|unfold points_of; rewrite length_imap, length_take; lia].
    eapply Forall_impl; [by apply points_of_gated|]. intros p (H1 & H2 & c & Hc & H3). split_and!; try done.
    exists c. split; [|done]. apply Hall. eapply elem_of_take in Hc as (i & Hi & _). by eapply list_elem_of_lookup_2.
  - intros _. apply IH. intros c Hc. apply Hall. rewrite <- (take_drop EMBED_BATCH_SIZE chunks). apply elem_of_app. by right.
Qed.
End Gated.

Lemma upsert_nonempty {W E : Type} `{Qdrant W E} `{Embedder W E} sha1 JSON_stringify (bad_count : nat -> nat -> E) cfg c cs :
  cs <> [] ->
  upsert sha1 JSON_stringify bad_count cfg c cs =
    (do! _ <- ensureCollection cfg c ;; upsert_loop sha1 JSON_stringify bad_count cfg c (length cs) cs).
Proof. by destruct cs. Qed.

Lemma remove_nonempty {W E : Type} `{Qdrant W E} sha1 c hs :
  hs <> [] -> remove (W := W) (E := E) sha1 c hs = q_delete c (corpusPointId sha1 c <$> hs).
Proof. by destruct hs. Qed.

(** ** What Qdrant and the embedder promise

    [points c] is what the service holds of a collection: the size of its
    vectors and its points by id.  The laws are those of its REST API while the
    service answers: a collection is made once; an upsert takes points whose id
    is a UUID and whose vector has the collection's size, one that is there
    being overwritten; a scroll lists the points by id from its offset, a page
    at a time, with the payload fields it was asked for. *)

Definition uuid (id : string) : Prop :=
  exists bytes, length bytes = 16%nat /\ Forall (fun b => (b < 256)%N) bytes /\ id = uuid_string bytes.

Definition accepted (size : nat) (p : QdrantPoint) : Prop :=
  uuid (point_id p) /\ exists v, point_vector p = Some v /\ length v = size.

Definition put_points (ps : list QdrantPoint) (m : gmap string Payload) : gmap string Payload :=
  foldl (fun m p => <[point_id p := point_payload p]> m) m ps.

Definition without (ids : list string) (m : gmap string Payload) : gmap string Payload :=
  filter (fun e => e.1 ∉ ids) m.

(** The fields [with_payload] names. *)
Definition shows (p q : Payload) : Prop :=
  payload_id p = payload_id q /\ payload_descriptor p = payload_descriptor q.

Definition starts (offset : option string) (before rest : list (string * Payload)) : Prop :=
  match offset with
  | None => before = []
  | Some id => fst <$> head rest = Some id
  end.

Class QdrantLaws {W E : Type} (Q : Qdrant W E) := {
  points : string -> W -> option (nat * gmap string Payload);
  by_id : gmap string Payload -> list (string * Payload);
  by_id_all m : by_id m ≡ₚ map_to_list m;
  exists_law c w : exists w',
    q_exists c w = (Ok (bool_decide (is_Some (points c w))), w') /\ forall c', points c' w' = points c' w;
  create_law c size w : points c w = None -> (1 <= Z.of_nat size <= 65536)%Z -> exists w',
    q_create c size w = (Ok tt, w') /\ points c w' = Some (size, ∅) /\
    forall c', c' <> c -> points c' w' = points c' w;
  upsert_law c ps w size m : points c w = Some (size, m) -> ps <> [] -> Forall (accepted size) ps -> exists w',
    q_upsert c ps w = (Ok tt, w') /\ points c w' = Some (size, put_points ps m) /\
    forall c', c' <> c -> points c' w' = points c' w;
  delete_law c ids w size m : points c w = Some (size, m) -> ids <> [] -> Forall uuid ids -> exists w',
    q_delete c ids w = (Ok tt, w') /\ points c w' = Some (size, without ids m) /\
    forall c', c' <> c -> points c' w' = points c' w;
  scroll_law c offset w size m before rest : points c w = Some (size, m) ->
    by_id m = before ++ rest -> starts offset before rest -> exists page w',
    q_scroll c offset w = (Ok (Some <$> page, fst <$> head (drop SCROLL_LIMIT rest)), w') /\
    Forall2 shows page (take SCROLL_LIMIT rest).*2 /\ forall c', points c' w' = points c' w
}.

(** A request of at most 2048 texts is answered with a vector of the model's
    size for each. *)
Class EmbedderLaws {W E : Type} {Q : Qdrant W E} (QL : QdrantLaws Q) (Em : Embedder W E) (size : nat) := {
  embed_law texts w : texts <> [] -> (length texts <= 2048)%nat -> exists vectors w',
    embed texts w = (Ok vectors, w') /\ length vectors = length texts /\
    Forall (fun v => length v = size) vectors /\ forall c, points c w' = points c w
}.

Section Laws.
Context {W E : Type} {Q : Qdrant W E} {Em : Embedder W E} {QL : QdrantLaws Q}.
Variable sha1 : list N -> list N.
Variable JSON_stringify : json -> string.
Variable JSON_parse : string -> option json.
Variable bad_count : nat -> nat -> E.
Variable still_scrolling : E.
Variable cfg : CorpusWriterConfig.
Variable c : string.
Context {EL : EmbedderLaws QL Em (cfg_vectorSize cfg)}.

(** SHA-1 gives twenty bytes. *)
Hypothesis sha1_bytes : forall bs, length (sha1 bs) = 20%nat /\ Forall (fun b => (b < 256)%N) (sha1 bs).

(** The entry a chunk makes in its collection. *)
Definition entry (chunk : Chunk) : string * Payload :=
  let p := point_of sha1 JSON_stringify cfg c chunk None in (point_id p, point_payload p).

Definition put_entries (cs : list Chunk) (m : gmap string Payload) : gmap string Payload :=
  foldl (fun m ch => <[(entry ch).1 := (entry ch).2]> m) m cs.

(** The points a collection holds: none where there is no collection. *)
Definition held (w : W) : gmap string Payload := default ∅ (snd <$> points c w).

(** What [indexed] makes of points. *)
Definition readable (es : list (string * Payload)) : list IndexedChunk :=
  omap (fun e => toIndexedChunk JSON_parse (Some e.2)) es.

Definition elsewhere (w w' : W) : Prop := forall c', c' <> c -> points c' w' = points c' w.

Lemma elsewhere_trans w1 w2 w3 : elsewhere w1 w2 -> elsewhere w2 w3 -> elsewhere w1 w3.
Proof. intros H1 H2 c' Hc. by rewrite H2, H1. Qed.

Lemma corpusPointId_uuid id : uuid (corpusPointId sha1 c id).
Proof.
  unfold corpusPointId. set (bs := Buffer_from _). destruct (sha1_bytes (NAMESPACE_URL ++ bs)) as [Hlen Hb].
  eexists. split_and!; [| |done]; unfold uuid_bytes.
  - rewrite !length_insert, length_take. lia.
  - assert (forall b m k : N, (m < 256)%N -> (k < 256)%N -> (N.lor (N.land b m) k < 256)%N) as Hor.
    { intros b m k Hm Hk.
      assert (N.lor (N.land b m) k = N.land (N.lor (N.land b m) k) (N.ones 8)) as ->.
      2:{ rewrite N.land_ones. apply N.mod_lt. done. }
      apply N.bits_inj. intros i. rewrite !N.land_spec, N.lor_spec, N.land_spec.
      destruct (N.ltb_spec i 8); [by rewrite N.ones_spec_low, andb_true_r|].
      rewrite N.ones_spec_high, andb_false_r by done.
      assert (forall n, (n < 256)%N -> N.testbit n i = false) as Hz.
      { intros n Hn. destruct (N.eq_dec n 0) as [->|]; [apply N.bits_0|]. apply N.bits_above_log2.
        apply N.log2_lt_pow2; [lia|]. apply (N.lt_le_trans _ (2 ^ 8)); [done|]. by apply N.pow_le_mono_r. }
      by rewrite (Hz m), (Hz k), andb_false_r. }
    apply Forall_insert; [apply Forall_insert; [by apply Forall_take|by apply Hor]|by apply Hor].
Qed.

Lemma points_of_accepted batch vectors :
  length vectors = length batch -> Forall (fun v => length v = cfg_vectorSize cfg) vectors ->
  Forall (accepted (cfg_vectorSize cfg)) (points_of sha1 JSON_stringify cfg c batch vectors).
Proof.
  intros Hlen Hv. apply Forall_forall. intros p Hp. apply elem_of_lookup_imap in Hp as (i & ch & -> & Hch).
  split; [apply corpusPointId_uuid|]. simpl. destruct (vectors !! i) as [v|] eqn:Hi.
  - exists v. split; [done|]. by eapply Forall_lookup_1 in Hv.
  - apply lookup_ge_None in Hi. apply lookup_lt_Some in Hch. lia.
Qed.

Lemma put_points_entries batch vectors m :
  put_points (points_of sha1 JSON_stringify cfg c batch vectors) m = put_entries batch m.
Proof.
  unfold put_points, put_entries, points_of.
  assert (forall (vec : nat -> option (list number)) m,
    foldl (fun (m : gmap string Payload) p => <[point_id p := point_payload p]> m) m
      (imap (fun i x => point_of sha1 JSON_stringify cfg c x (vec i)) batch) =
    foldl (fun (m : gmap string Payload) ch => <[(entry ch).1 := (entry ch).2]> m) m batch) as H; [|by apply (H (fun i => vectors !! i))].
  induction batch as [|x batch IH]; intros vec m'; [done|]. csimpl. apply (IH (fun i => vec (S i))).
Qed.

Lemma upsert_batch_law batch w m :
  batch <> [] -> (length batch <= EMBED_BATCH_SIZE)%nat -> points c w = Some (cfg_vectorSize cfg, m) -> exists w',
    upsert_batch sha1 JSON_stringify bad_count cfg c batch w = (Ok tt, w') /\
    points c w' = Some (cfg_vectorSize cfg, put_entries batch m) /\ elsewhere w w'.
Proof.
  intros Hne Hlen Hw.
  destruct (embed_law (text <$> batch) w) as (vectors & w1 & E1 & Hl & Hv & Hsame).
  { by destruct batch. } { rewrite length_fmap. unfold EMBED_BATCH_SIZE in Hlen. lia. }
  rewrite length_fmap in Hl.
  destruct (upsert_law c (points_of sha1 JSON_stringify cfg c batch vectors) w1 (cfg_vectorSize cfg) m) as (w2 & E2 & Hw2 & Hoth).
  - by rewrite Hsame.
  - intros Hnil. apply (f_equal length) in Hnil. unfold points_of in Hnil. rewrite length_imap in Hnil. by destruct batch.
  - by apply points_of_accepted.
  - exists w2. unfold upsert_batch, sbind. rewrite E1, Hl, Nat.eqb_refl. split_and!; [done| |].
    + by rewrite Hw2, put_points_entries.
    + intros c' Hc. by rewrite Hoth, Hsame.
Qed.

Lemma upsert_loop_law fuel chunks w m :
  (length chunks <= fuel)%nat -> points c w = Some (cfg_vectorSize cfg, m) -> exists w',
    upsert_loop sha1 JSON_stringify bad_count cfg c fuel chunks w = (Ok tt, w') /\
    points c w' = Some (cfg_vectorSize cfg, put_entries chunks m) /\ elsewhere w w'.
Proof.
  revert chunks w m. induction fuel as [|fuel IH]; intros chunks w m Hlen Hw.
  { destruct chunks; [|simpl in Hlen; lia]. by exists w. }
  destruct chunks as [|x chunks]; [by exists w|].
  destruct (upsert_batch_law (take EMBED_BATCH_SIZE (x :: chunks)) w m) as (w1 & E1 & Hw1 & Ho1); [done| |done|].
  { rewrite length_take. lia. }
  destruct (IH (drop EMBED_BATCH_SIZE (x :: chunks)) w1 (put_entries (take EMBED_BATCH_SIZE (x :: chunks)) m))
    as (w' & E' & Hw' & Ho'); [|exact Hw1|].
  - rewrite length_drop. simpl in *. unfold EMBED_BATCH_SIZE. lia.
  - exists w'. split_and!; [|by unfold put_entries in Hw'; rewrite <- foldl_app, take_drop in Hw'|by eapply elsewhere_trans].
    cbn [upsert_loop]. unfold sbind at 1. by rewrite E1.
Qed.

Lemma ensureCollection_law w :
  (1 <= Z.of_nat (cfg_vectorSize cfg) <= 65536)%Z -> (forall size m, points c w = Some (size, m) -> size = cfg_vectorSize cfg) ->
  exists w', ensureCollection cfg c w = (Ok tt, w') /\ points c w' = Some (cfg_vectorSize cfg, held w) /\ elsewhere w w'.
Proof.
  intros Hsize Hfits. unfold ensureCollection, sbind, held. destruct (exists_law c w) as (w1 & E1 & Hsame). rewrite E1.
  destruct (points c w) as [[size m]|] eqn:Hw; simpl.
  - exists w1. split_and!; [done| |by intros c' _]. by rewrite Hsame, Hw, (Hfits size m eq_refl).
  - destruct (create_law c (cfg_vectorSize cfg) w1) as (w2 & E2 & Hw2 & Ho); [by rewrite Hsame|done|].
    exists w2. split_and!; [done|done|]. intros c' Hc. by rewrite Ho, Hsame.
Qed.

(** Over any batches, [upsert] puts an entry for each chunk. *)
Lemma upsert_law_all cs w :
  (1 <= Z.of_nat (cfg_vectorSize cfg) <= 65536)%Z -> (forall size m, points c w = Some (size, m) -> size = cfg_vectorSize cfg) ->
  exists w', upsert sha1 JSON_stringify bad_count cfg c cs w = (Ok tt, w') /\
    (cs <> [] -> points c w' = Some (cfg_vectorSize cfg, put_entries cs (held w))) /\
    held w' = put_entries cs (held w) /\ elsewhere w w'.
Proof.
  intros Hsize Hfits. destruct (decide (cs = [])) as [->|Hne]; [by exists w|].
  destruct (ensureCollection_law w Hsize Hfits) as (w0 & E0 & Hw0 & Ho0).
  destruct (upsert_loop_law (length cs) cs w0 (held w) (Nat.le_refl _) Hw0) as (w1 & E1 & Hw1 & Ho1).
  exists w1. rewrite upsert_nonempty by done. unfold sbind. rewrite E0.
  split_and!; [done|done| |by eapply elsewhere_trans]. unfold held at 1. by rewrite Hw1.
Qed.

Lemma readable_shown page es : Forall2 shows page es.*2 -> omap (toIndexedChunk JSON_parse) (Some <$> page) = readable es.
Proof.
  unfold readable. revert page. induction es as [|[k q] es IH]; intros page Hp; inversion Hp as [|p ? ps ? [H1 H2] Hrest]; subst; [done|].
  csimpl. rewrite H1, H2, (IH ps Hrest). done.
Qed.

(** A scroll from an offset in the collection reads the rest of it. *)
Lemma scroll_loop_law pages size m (before rest : list (string * Payload)) out w offset :
  points c w = Some (size, m) -> by_id m = before ++ rest -> starts offset before rest ->
  (length rest / SCROLL_LIMIT < pages)%nat -> exists w',
  scroll_loop JSON_parse still_scrolling c pages out offset w = (Ok (out ++ readable rest), w') /\
  forall c', points c' w' = points c' w.
Proof.
  revert before rest out w offset. induction pages as [|pages IH]; intros before rest out w offset Hw Hm Hoff Hlen; [lia|].
  cbn [scroll_loop]. unfold sbind. destruct (scroll_law c offset w size m before rest Hw Hm Hoff) as (page & w1 & E1 & Hpage & Hsame).
  rewrite E1. cbn [fst snd]. rewrite (readable_shown _ _ Hpage).
  pose proof (take_drop SCROLL_LIMIT rest) as Hcut. pose proof (length_drop rest SCROLL_LIMIT) as Hl.
  destruct (drop SCROLL_LIMIT rest) as [|[k p] tail] eqn:Hd; csimpl.
  - exists w1. split; [|done]. rewrite app_nil_r in Hcut. by rewrite Hcut.
  - simpl in Hl.
    destruct (IH (before ++ take SCROLL_LIMIT rest) ((k, p) :: tail) (out ++ readable (take SCROLL_LIMIT rest)) w1 (Some k))
      as (w2 & E2 & Hsame2); [by rewrite Hsame|by rewrite <- app_assoc, Hcut|done| |].
    + replace (length rest) with (length ((k, p) :: tail) + 1 * SCROLL_LIMIT)%nat in Hlen by (cbn [length]; lia).
      rewrite Nat.div_add in Hlen by done. lia.
    + exists w2. split; [|intros c'; by rewrite Hsame2]. rewrite E2, <- app_assoc. unfold readable.
      by rewrite <- omap_app, Hcut.
Qed.

Lemma indexed_law pages w :
  (size (held w) / SCROLL_LIMIT < pages)%nat -> exists l w',
  indexed JSON_parse still_scrolling pages c w = (Ok l, w') /\ l ≡ₚ readable (map_to_list (held w)) /\
  forall c', points c' w' = points c' w.
Proof.
  unfold indexed, sbind, held. destruct (exists_law c w) as (w1 & E1 & Hsame). rewrite E1.
  destruct (points c w) as [[n m]|] eqn:Hw; simpl; intros Hp.
  - destruct (scroll_loop_law pages n m [] (by_id m) [] w1 None) as (w2 & E2 & Hsame2); [by rewrite Hsame|done|done| |].
    { by rewrite (Permutation_length (by_id_all m)), length_map_to_list. }
    eexists _, w2. split_and!; [exact E2| |intros c'; by rewrite Hsame2]. simpl. unfold readable. by rewrite (by_id_all m).
  - exists [], w1. split_and!; [done| |done]. unfold readable. by rewrite map_to_list_empty.
Qed.

Lemma entry_indexed ch :
  contentHash ch <> EmptyString -> JSON_parse (JSON_stringify (toDescriptor ch)) = Some (toDescriptor ch) ->
  toIndexedChunk JSON_parse (Some (entry ch).2) = Some (to_indexed ch).
Proof.
  intros Hh Hj. unfold toIndexedChunk, entry. simpl. rewrite Hj. unfold toDescriptor at 1. simpl.
  destruct (contentHash ch) eqn:E'; [done|]. unfold to_indexed. by rewrite E'.
Qed.

Lemma entries_indexed (cs : list Chunk) :
  (forall ch, ch ∈ cs -> contentHash ch <> EmptyString) ->
  (forall ch, ch ∈ cs -> JSON_parse (JSON_stringify (toDescriptor ch)) = Some (toDescriptor ch)) ->
  readable (entry <$> cs) = to_indexed <$> cs.
Proof.
  intros Hh Hj. unfold readable. induction cs as [|ch cs IH]; [done|].
  rewrite !fmap_cons, <- IH; [|intros; (apply Hh || apply Hj); by right..].
  cbn [omap list_omap]. rewrite entry_indexed; [done| |]; (apply Hh || apply Hj); by left.
Qed.

#[local] Abbreviation ids := (fun cs => corpusPointId sha1 c <$> chunk_hashes cs).

Lemma put_entries_list cs m :
  NoDup (ids cs) -> map_to_list (put_entries cs m) ≡ₚ (entry <$> cs) ++ map_to_list (without (ids cs) m).
Proof.
  unfold put_entries, without. revert m. induction cs as [|x cs IH]; intros m Hnd.
  { csimpl. by rewrite map_filter_id by (intros; apply not_elem_of_nil). }
  csimpl in Hnd. apply NoDup_cons in Hnd as [Hx Hnd]. csimpl. rewrite (IH _ Hnd). cbn [entry fst].
  rewrite map_filter_insert_True by done. rewrite <- insert_delete_eq, map_to_list_insert by apply lookup_delete_eq.
  rewrite <- Permutation_middle. do 3 f_equiv. apply map_eq. intros k.
  destruct (decide (k = corpusPointId sha1 c (contentHash x))) as [->|Hk].
  - rewrite lookup_delete_eq. symmetry. apply map_lookup_filter_None. right. intros p _ Hn. apply Hn. simpl. by left.
  - rewrite lookup_delete_ne by done. apply option_eq. intros p. rewrite !map_lookup_filter_Some. simpl.
    rewrite not_elem_of_cons. clear -Hk. tauto.
Qed.

Lemma without_put_entries all cs m : (forall ch, ch ∈ cs -> ch ∈ all) -> without (ids all) (put_entries cs m) = without (ids all) m.
Proof.
  unfold put_entries, without. revert m. induction cs as [|x cs IH]; intros m Hin; [done|]. csimpl.
  rewrite IH by (intros; apply Hin; by right). apply map_filter_insert_not. intros p Hn. apply Hn. simpl.
  unfold chunk_hashes. rewrite <- list_fmap_compose. apply list_elem_of_fmap. exists x. split; [done|]. apply Hin. by left.
Qed.

(** What [remove] leaves of what [upsert] made. *)
Lemma remove_law cs w m :
  (cs <> [] -> points c w = Some (cfg_vectorSize cfg, put_entries cs m)) -> held w = put_entries cs m -> exists w',
  remove sha1 c (chunk_hashes cs) w = (Ok tt, w') /\ held w' = without (ids cs) m /\ elsewhere w w'.
Proof.
  intros Hw Hheld. destruct (decide (cs = [])) as [->|Hne].
  { exists w. split_and!; [done| |done]. rewrite Hheld. unfold without. symmetry. apply map_filter_id.
    intros; apply not_elem_of_nil. }
  destruct (delete_law c (ids cs) w _ _ (Hw Hne)) as (w' & E' & Hw' & Ho).
  - by destruct cs.
  - apply Forall_fmap, Forall_true. intros; apply corpusPointId_uuid.
  - exists w'. rewrite remove_nonempty by by destruct cs. split_and!; [done| |done]. unfold held. rewrite Hw'. simpl.
    by apply without_put_entries.
Qed.
End Laws.

(** ** A Qdrant in memory

    An implementation of the interface that keeps the laws, to run the writer
    on: the collections' points in the order of [map_to_list]. *)

Module MemQdrant.
Definition Mem : Type := gmap string (nat * gmap string Payload).

Fixpoint drop_until (id : string) (m : list (string * Payload)) : list (string * Payload) :=
  match m with
  | [] => []
  | (k, p) :: m' => if decide (k = id) then m else drop_until id m'
  end.

Definition from_offset (offset : option string) (m : list (string * Payload)) : list (string * Payload) :=
  match offset with
  | Some id => drop_until id m
  | None => m
  end.

Definition on_collection {A : Type} (c : string) (f : gmap string Payload -> A * gmap string Payload) : SM Mem string A := fun w =>
  match w !! c with
  | None => (Err "404", w)
  | Some (size, m) => let '(a, m') := f m in (Ok a, <[c := (size, m')]> w)
  end.

#[export] Instance mem_qdrant : Qdrant Mem string := {
  q_exists c := fun w => (Ok (bool_decide (is_Some (w !! c))), w);
  q_create c size := fun w => (Ok tt, match w !! c with Some _ => w | None => <[c := (size, ∅)]> w end);
  q_upsert c ps := on_collection c (fun m => (tt, put_points ps m));
  q_delete c ids := on_collection c (fun m => (tt, without ids m));
  q_scroll c offset := on_collection c (fun m =>
    let rest := from_offset offset (map_to_list m) in
    ((Some <$> (take SCROLL_LIMIT rest).*2, fst <$> head (drop SCROLL_LIMIT rest)), m))
}.

(** Each text gets a vector of [size] components. *)
Definition mem_embedder (size : nat) : Embedder Mem string := {|
  embed texts := sret ((fun _ => replicate size (num_of_Z 0)) <$> texts)
|}.

Definition bad_count (n m : nat) : string := "embedder count".

Lemma drop_until_suffix k p (m1 m2 : list (string * Payload)) :
  NoDup (m1 ++ (k, p) :: m2).*1 -> drop_until k (m1 ++ (k, p) :: m2) = (k, p) :: m2.
Proof.
  induction m1 as [|[k' p'] m1 IH]; csimpl; [intros _; by rewrite decide_True|].
  intros [Hk Hnd]%NoDup_cons. rewrite decide_False; [by apply IH|]. intros ->. apply Hk.
  rewrite fmap_app. csimpl. apply elem_of_app. right. by left.
Qed.

#[export] Program Instance mem_laws : QdrantLaws mem_qdrant := {
  points c w := w !! c;
  by_id := map_to_list
}.
Next Obligation. done. Qed.
Next Obligation. intros c w. by exists w. Qed.
Next Obligation.
  intros c size w Hw _. eexists. split; [done|]. rewrite Hw. split; [apply lookup_insert_eq|].
  intros c' Hc. by apply lookup_insert_ne.
Qed.
Next Obligation.
  intros c ps w size m Hw _ _. eexists. simpl. unfold on_collection. rewrite Hw. split; [done|].
  split; [apply lookup_insert_eq|]. intros c' Hc. by apply lookup_insert_ne.
Qed.
Next Obligation.
  intros c ids w size m Hw _ _. eexists. simpl. unfold on_collection. rewrite Hw. split; [done|].
  split; [apply lookup_insert_eq|]. intros c' Hc. by apply lookup_insert_ne.
Qed.
Next Obligation.
  intros c offset w size m before rest Hw Hm Hoff. simpl. unfold on_collection. rewrite Hw. eexists _, _. cbn beta zeta.
  assert (from_offset offset (map_to_list m) = rest) as ->.
  { destruct offset as [id|]; simpl in *; [|by rewrite Hm, Hoff]. destruct rest as [|[k p] rest]; [done|]. injection Hoff as ->.
    rewrite Hm. apply drop_until_suffix. rewrite <- Hm. apply NoDup_fst_map_to_list. }
  split_and!; [done| |].
  - apply Forall_Forall2_diag, Forall_true. by intros p.
  - intros c'. simpl. by rewrite (insert_id (M := gmap string) w c (size, m) Hw).
Qed.

#[export] Program Instance mem_embeds (size : nat) : EmbedderLaws mem_laws (mem_embedder size) size := {}.
Next Obligation.
  intros size texts w _ _. eexists _, w. split_and!; [done|apply length_fmap| |done].
  apply Forall_fmap, Forall_true. intros t. apply length_replicate.
Qed.
End MemQdrant.

(** ** Properties *)

(** Every point the writer ever sends is role-gated: it carries the
    connection's roles, is never unrestricted, has the id derived from its
    chunk and a vector of its own; a request holds at most 256 points, and a
    batch whose embedding has the wrong length is not sent. So whatever is
    true of an index and kept by such requests is kept by [upsert], whether it
    returns or throws. *)
Theorem upsert_gated {W E : Type} `{Qdrant W E} `{Embedder W E} (sha1 : list N -> list N)
    (JSON_stringify : json -> string) (bad_count : nat -> nat -> E) (cfg : CorpusWriterConfig)
    (I : W -> Prop) (collection : string) (chunks : list Chunk) :
  keeps I (q_exists collection) -> keeps I (q_create collection (cfg_vectorSize cfg)) ->
  (forall texts, keeps I (embed texts)) ->
  (forall points, Forall (gated sha1 cfg collection chunks) points -> (length points <= EMBED_BATCH_SIZE)%nat ->
     keeps I (q_upsert collection points)) ->
  keeps I (upsert sha1 JSON_stringify bad_count cfg collection chunks).
Proof.
  intros Hex Hcr Hem Hup. unfold upsert. destruct chunks as [|c chunks]; [apply keeps_sret|].
  apply keeps_sbind; [|intros _; by eapply upsert_loop_keeps]. unfold ensureCollection.
  apply keeps_sbind; [done|]. intros []; [apply keeps_sret|done].
Qed.

(** C30: what is written is what is read back, in a Qdrant that keeps its
    documented laws, over as many batches and pages as it takes: whether or not
    the collection exists, [upsert] makes it and then [indexed] returns the
    hash and source of each chunk once, beside what the collection's other
    points show, in some order; [remove] of the hashes then leaves exactly
    those others, and no other collection is touched. The point ids of the
    chunks are distinct (SHA-1 finds no collision among them), JSON parses back
    what it printed, and the embedder's vectors have the collection's size. *)
Theorem writer_roundtrip {W E : Type} (Q : Qdrant W E) (Em : Embedder W E) (QL : QdrantLaws Q)
    (sha1 : list N -> list N) (JSON_stringify : json -> string) (JSON_parse : string -> option json)
    (bad_count : nat -> nat -> E) (still_scrolling : E) (cfg : CorpusWriterConfig)
    (EL : EmbedderLaws QL Em (cfg_vectorSize cfg)) (c : string) (cs : list Chunk) (w : W) (pages : nat) :
  (forall bs, length (sha1 bs) = 20%nat /\ Forall (fun b => (b < 256)%N) (sha1 bs)) ->
  (1 <= Z.of_nat (cfg_vectorSize cfg) <= 65536)%Z ->
  (forall size m, points c w = Some (size, m) -> size = cfg_vectorSize cfg) ->
  (forall ch, ch ∈ cs -> contentHash ch <> EmptyString) ->
  (forall ch, ch ∈ cs -> JSON_parse (JSON_stringify (toDescriptor ch)) = Some (toDescriptor ch)) ->
  NoDup (corpusPointId sha1 c <$> chunk_hashes cs) ->
  ((length cs + size (held c w)) / SCROLL_LIMIT < pages)%nat ->
  let others := readable JSON_parse (map_to_list (without (corpusPointId sha1 c <$> chunk_hashes cs) (held c w))) in
  exists w1 l2 w2 w3 l4 w4,
    upsert sha1 JSON_stringify bad_count cfg c cs w = (Ok tt, w1) /\
    indexed JSON_parse still_scrolling pages c w1 = (Ok l2, w2) /\ l2 ≡ₚ (to_indexed <$> cs) ++ others /\
    remove sha1 c (chunk_hashes cs) w2 = (Ok tt, w3) /\
    indexed JSON_parse still_scrolling pages c w3 = (Ok l4, w4) /\ l4 ≡ₚ others /\
    elsewhere c w w4.
Proof.
  intros Hsha Hsize Hfits Hh Hj Hnd Hpages others.
  destruct (upsert_law_all sha1 JSON_stringify bad_count cfg c Hsha cs w Hsize Hfits) as (w1 & E1 & Hp1 & Hh1 & Ho1).
  pose proof (put_entries_list sha1 JSON_stringify cfg c cs (held c w) Hnd) as Hlist.
  pose proof (Permutation_length Hlist) as Hlen. rewrite length_app, (length_fmap (entry _ _ _ _) cs), !length_map_to_list in Hlen. cbn beta in Hlist, Hlen.
  assert (size (without (corpusPointId sha1 c <$> chunk_hashes cs) (held c w)) <= size (held c w))%nat as Hfew.
  { apply map_subseteq_size, map_filter_subseteq. }
  assert (forall n, n <= length cs + size (held c w) -> n / SCROLL_LIMIT < pages)%nat as Henough.
  { intros n Hn. eapply Nat.le_lt_trans; [|exact Hpages]. by apply Nat.Div0.div_le_mono. }
  destruct (indexed_law JSON_parse still_scrolling c pages w1) as (l2 & w2 & E2 & Hl2 & Hs2).
  { rewrite Hh1. apply Henough. lia. }
  destruct (remove_law sha1 JSON_stringify cfg c Hsha cs w2 (held c w)) as (w3 & E3 & Hh3 & Ho3).
  { by rewrite Hs2. } { unfold held at 1. by rewrite Hs2. }
  destruct (indexed_law JSON_parse still_scrolling c pages w3) as (l4 & w4 & E4 & Hl4 & Hs4).
  { rewrite Hh3. apply Henough. lia. }
  exists w1, l2, w2, w3, l4, w4. split_and!; try done.
  - rewrite Hl2, Hh1. unfold readable at 1. rewrite Hlist, omap_app.
    apply Permutation_app; [|done]. by rewrite <- (entries_indexed sha1 JSON_stringify JSON_parse cfg c cs Hh Hj).
  - by rewrite Hl4, Hh3.
  - intros c' Hc. by rewrite Hs4, Ho3, Hs2, Ho1.
Qed.

Section Samples.
#[local] Existing Instances MemQdrant.mem_qdrant.

Definition sample_chunk : Chunk :=
  mkChunk "wiki" "Wiki" "p1" "https://wiki/p1" "Title" None None "cafe" None None "text".

Definition sample_sha1 (bs : list N) : list N := take 20 (((fun b => b mod 256)%N <$> rev bs) ++ replicate 20 0%N).

Lemma sample_sha1_bytes bs : length (sample_sha1 bs) = 20%nat /\ Forall (fun b => (b < 256)%N) (sample_sha1 bs).
Proof.
  unfold sample_sha1. split; [rewrite length_take, length_app, length_replicate; lia|].
  apply Forall_take, Forall_app. split; [|by apply Forall_replicate]. apply Forall_fmap, Forall_true. intros b. by apply N.mod_lt.
Qed.

Definition all_gated (w : MemQdrant.Mem) : Prop :=
  map_Forall (fun _ e => map_Forall (fun _ p => payload_unrestricted p = false) e.2) w.

Lemma upsert_gated_witness :
  keeps all_gated (upsert (H0 := MemQdrant.mem_embedder 3) sample_sha1 (fun _ => EmptyString) MemQdrant.bad_count
    (mkCorpusWriterConfig ["dev"] 3) "coll" [sample_chunk]).
Proof.
  apply (upsert_gated (H0 := MemQdrant.mem_embedder 3) sample_sha1 (fun _ => EmptyString) MemQdrant.bad_count
    (mkCorpusWriterConfig ["dev"] 3) all_gated "coll" [sample_chunk]).
  - by intros w Hw.
  - intros w Hw. simpl. destruct (w !! "coll"); [done|]. apply map_Forall_insert_2; [apply map_Forall_empty|done].
  - by intros texts w Hw.
  - intros points Hp _ w Hw. simpl. unfold MemQdrant.on_collection.
    destruct (w !! "coll") as [[size m]|] eqn:Hm; [|done]. apply map_Forall_insert_2; [|done]. simpl. unfold put_points.
    apply (foldl_inv (fun m => map_Forall (fun _ p => payload_unrestricted p = false) m)).
    + intros m1 pt Hpt Hm1. apply map_Forall_insert_2; [|done]. rewrite Forall_forall in Hp. by apply Hp.
    + by apply (map_Forall_lookup_1 _ _ _ _ Hw Hm).
Defined.

(** The collection holds a point that the writer did not make. *)
Definition sample_world : MemQdrant.Mem :=
  {["coll" := (3%nat, {["other" := mkPayload (Some (JStr "beef")) ["dev"] false false None]})]}.

Lemma writer_roundtrip_witness :
  exists w1 l2 w2 w3 l4 w4,
    upsert (H0 := MemQdrant.mem_embedder 3) sample_sha1 (fun _ => "d") MemQdrant.bad_count (mkCorpusWriterConfig ["dev"] 3)
      "coll" [sample_chunk] sample_world = (Ok tt, w1) /\
    indexed (fun _ => Some (toDescriptor sample_chunk)) "scrolling" 1 "coll" w1 = (Ok l2, w2) /\
    l2 ≡ₚ [mkIndexedChunk "cafe" "p1"; mkIndexedChunk "beef" EmptyString] /\
    remove sample_sha1 "coll" ["cafe"] w2 = (Ok tt, w3) /\
    indexed (fun _ => Some (toDescriptor sample_chunk)) "scrolling" 1 "coll" w3 = (Ok l4, w4) /\
    l4 ≡ₚ [mkIndexedChunk "beef" EmptyString] /\ elsewhere (QL := MemQdrant.mem_laws) "coll" sample_world w4.
Proof.
  apply (writer_roundtrip MemQdrant.mem_qdrant (MemQdrant.mem_embedder 3) MemQdrant.mem_laws sample_sha1 (fun _ => "d")
    (fun _ => Some (toDescriptor sample_chunk)) MemQdrant.bad_count "scrolling"
    (mkCorpusWriterConfig ["dev"] 3) (MemQdrant.mem_embeds 3) "coll" [sample_chunk] sample_world 1).
  - apply sample_sha1_bytes.
  - simpl. lia.
  - intros size m. vm_compute. by intros [= <- _].
  - intros ch ->%list_elem_of_singleton. by vm_compute.
  - by intros ch ->%list_elem_of_singleton.
  - apply NoDup_singleton.
  - vm_compute. lia.
Defined.
End Samples.
