(* ===== verification/EventValues.v ===== *)
(** * Event triggers: values and templates

    packages/event-triggers/src/values.ts and
    packages/event-triggers/src/template.ts. [cel] is a runtime value of the CEL
    evaluator: an int is exact, a double is a number; what the package does not
    support (uint, bytes, timestamps, ...) is [CUnsupported]. *)

From stdpp Require Import base gmap strings list sorting.
From Stdlib Require Import ZArith Lia Ascii.
From S2P Require Import Prelude JsString JsNumber Json.

#[local] Open Scope Z_scope.

(** ** Data *)

Inductive cel :=
| CNull
| CBool (b : bool)
| CInt (z : Z)
| CDouble (x : number)
| CString (s : string)
| CList (l : list cel)
| CMap (fields : list (string * cel))
| CUnsupported (type : string).

Inductive CelTypeName := t_int | t_double | t_string | t_bool | t_list | t_map | t_null | t_unsupported.

#[export] Instance CelTypeName_eq_dec : EqDecision CelTypeName.
Proof. solve_decision. Defined.

Record TypedParam := mkTypedParam {
  param_value : json;
  param_type : CelTypeName
}.

(** [UnsupportedValueError] and the [TypeError] of [fromTypedParam]. *)
Inductive ValueError :=
| UnsupportedType (type : string)
| NonFinite (x : number)
| NotAParam (message : string).

Definition INT64_MIN : Z := -9223372036854775808.
Definition INT64_LIMIT : Z := 9223372036854775808.

(** ** Conversions *)

(** The integer an integral number is: [BigInt(value)]. *)
Definition to_bigint (m e : Z) : Z := if 0 <=? e then m * 2 ^ e else m / 2 ^ (- e).

(** [Number(z)] for a bigint. *)
Definition num_of_bigint (z : Z) : number :=
  if z <? 0 then
    match round_ratio (- z) 1 with
    | Finite m e => Finite (- m) e
    | Infinity _ => Infinity true
    | NaN => NaN
    end
  else round_ratio z 1.

(** [value ?? {}] *)
Definition or_empty (value : option json) : json :=
  match value with
  | None | Some JNull => JObj []
  | Some v => v
  end.

Fixpoint normalizeJson (value : json) : cel :=
  match value with
  | JNull => CNull
  | JBool b => CBool b
  | JStr s => CString s
  | JNum x =>
      match x with
      | Finite m e =>
          if isInteger x && num_ge x INT64_MIN && negb (num_ge x INT64_LIMIT) then CInt (to_bigint m e) else CDouble x
      | _ => CDouble x
      end
  | JArr l => CList (map normalizeJson l)
  | JObj fields => CMap (map (fun '(k, v) => (k, normalizeJson v)) fields)
  end.

Definition celTypeOf (value : cel) : CelTypeName :=
  match value with
  | CNull => t_null
  | CInt _ => t_int
  | CDouble _ => t_double
  | CString _ => t_string
  | CBool _ => t_bool
  | CList _ => t_list
  | CMap _ => t_map
  | CUnsupported _ => t_unsupported
  end.

(** Puts the results of a list of computations together, the first error winning. *)
Fixpoint sequence {E A : Type} (l : list (result E A)) : result E (list A) :=
  match l with
  | [] => Ok []
  | r :: rs => let? a := r in let? l' := sequence rs in Ok (a :: l')
  end.

Fixpoint toJsonValue (value : cel) : result ValueError json :=
  match value with
  | CNull => Ok JNull
  | CInt z => Ok (JNum (num_of_bigint z))
  | CDouble x => if isFinite x then Ok (JNum x) else Err (NonFinite x)
  | CString s => Ok (JStr s)
  | CBool b => Ok (JBool b)
  | CList l => let? vs := sequence (map toJsonValue l) in Ok (JArr vs)
  | CMap fields =>
      let? vs := sequence (map (fun '(k, v) => let? j := toJsonValue v in Ok (k, j)) fields) in Ok (JObj vs)
  | CUnsupported t => Err (UnsupportedType t)
  end.

Definition toTypedParam (value : cel) : result ValueError TypedParam :=
  match value with
  | CUnsupported t => Err (UnsupportedType t)
  | _ => let? j := toJsonValue value in Ok (mkTypedParam j (celTypeOf value))
  end.

Definition fromTypedParam (param : TypedParam) : result ValueError cel :=
  match param_type param with
  | t_int =>
      match param_value param with
      | JNum (Finite m e) =>
          if isInteger (Finite m e) then Ok (CInt (to_bigint m e))
          else Err (NotAParam "fromTypedParam: int param must be an integral number")
      | _ => Err (NotAParam "fromTypedParam: int param must be an integral number")
      end
  | t_double =>
      match param_value param with
      | JNum x => Ok (CDouble x)
      | _ => Err (NotAParam "fromTypedParam: double param must be a number")
      end
  | _ => Ok (normalizeJson (param_value param))
  end.

(** ** Canonical JSON *)

Definition formatDouble (x : number) : result ValueError string :=
  if isFinite x then Ok (number_toString x) else Err (NonFinite x).

Definition hex4 (n : N) : string :=
  let h := fun d => String (ascii_of_N (if (d <? 10)%N then 48 + d else 87 + d)%N) EmptyString in
  "00" +:+ h (n / 16)%N +:+ h (n mod 16)%N.

Definition quote_char (c : ascii) : string :=
  let bs := String "\" EmptyString in
  if Ascii.eqb c dquote then bs +:+ String dquote EmptyString
  else if Ascii.eqb c "\"%char then bs +:+ bs
  else if (code c =? 8)%N then bs +:+ "b"
  else if (code c =? 9)%N then bs +:+ "t"
  else if (code c =? 10)%N then bs +:+ "n"
  else if (code c =? 12)%N then bs +:+ "f"
  else if (code c =? 13)%N then bs +:+ "r"
  else if (code c <? 32)%N then bs +:+ "u" +:+ hex4 (code c)
  else String c EmptyString.

(** [JSON.stringify(s)] of a string. *)
Definition json_quote (s : string) : string :=
  String dquote (str_concat (quote_char <$> String.list_ascii_of_string s) +:+ String dquote EmptyString).

(** [Object.keys(obj).sort()] with the values along. *)
Fixpoint insert_key {A : Type} (e : string * A) (l : list (string * A)) : list (string * A) :=
  match l with
  | [] => [e]
  | e' :: l' => if str_ltb e.1 e'.1 then e :: l else e' :: insert_key e l'
  end.

Definition sort_keys {A : Type} (l : list (string * A)) : list (string * A) := foldr insert_key [] l.

Definition member (e : string * result ValueError string) : result ValueError string :=
  let? v := e.2 in Ok (json_quote e.1 +:+ ":" +:+ v).

Fixpoint canonicalJson (value : cel) : result ValueError string :=
  match value with
  | CNull => Ok "null"
  | CInt z => Ok (Z_to_string z)
  | CDouble x => formatDouble x
  | CString s => Ok (json_quote s)
  | CBool b => Ok (if b then "true" else "false")
  | CList l => let? vs := sequence (map canonicalJson l) in Ok ("[" +:+ join "," vs +:+ "]")
  | CMap fields =>
      let? vs := sequence (map member (sort_keys (map (fun '(k, v) => (k, canonicalJson v)) fields))) in
      Ok ("{" +:+ join "," vs +:+ "}")
  | CUnsupported t => Err (UnsupportedType t)
  end.

Definition paramToString (value : cel) : result ValueError string :=
  match value with
  | CNull => Ok EmptyString
  | CString s => Ok s
  | CInt z => Ok (Z_to_string z)
  | CDouble x => formatDouble x
  | CBool b => Ok (if b then "true" else "false")
  | _ => canonicalJson value
  end.

(** ** Templates *)

(** The class [ \t\n\f\r] and the characters of a placeholder name. *)
Definition tpl_ws (c : ascii) : bool :=
  (code c =? 32)%N || (code c =? 9)%N || (code c =? 10)%N || (code c =? 12)%N || (code c =? 13)%N.

Definition name_char (c : ascii) : bool := negb (Ascii.eqb c "{"%char) && negb (Ascii.eqb c "}"%char) && negb (tpl_ws c).

(** PLACEHOLDER_PATTERN at the start of [s]: the name and what follows. *)
Definition match_placeholder (s : string) : option (string * string) :=
  match s with
  | String c1 (String c2 rest) =>
      if Ascii.eqb c1 "{"%char && Ascii.eqb c2 "{"%char then
        let rest := drop_while tpl_ws rest in
        let name := take_while name_char rest in
        let rest := drop_while tpl_ws (drop_while name_char rest) in
        if str_empty name then None
        else match rest with
             | String d1 (String d2 after) =>
                 if Ascii.eqb d1 "}"%char && Ascii.eqb d2 "}"%char then Some (name, after) else None
             | _ => None
             end
      else None
  | _ => None
  end.

(** The text of the placeholder that [match_placeholder] found at the start. *)
Definition placeholder_text (s after : string) : string := str_take (slen s - slen after) s.

Fixpoint render_fuel (fuel : nat) (params : list (string * cel)) (s : string) : result ValueError string :=
  match fuel, s with
  | S fuel', String c s' =>
      match match_placeholder s with
      | Some (name, after) =>
          let? value := match own_get name params with
                        | Some v => paramToString v
                        | None => Ok (placeholder_text s after)
                        end in
          let? rest := render_fuel fuel' params after in
          Ok (value +:+ rest)
      | None => let? rest := render_fuel fuel' params s' in Ok (String c rest)
      end
  | _, _ => Ok EmptyString
  end.

(** A placeholder is at least one character, so the length is fuel enough. *)
Definition renderTemplate (template : string) (params : list (string * cel)) : result ValueError string :=
  render_fuel (slen template) params template.

(** ** Lemmas: templates *)

Lemma drop_while_app p l s : str_forall p l = true -> drop_while p (l +:+ s) = drop_while p s.
Proof. induction l as [|c l IH]; cbn; [done|]. intros [Hc Hl]%andb_true_iff. rewrite Hc. by apply IH. Qed.

(** [p] fails on the first character of [s], if there is one. *)
Definition stops (p : ascii -> bool) (s : string) : Prop :=
  match s with
  | String c _ => p c = false
  | EmptyString => True
  end.

Lemma drop_while_stops p s : stops p s -> drop_while p s = s.
Proof. destruct s as [|c s]; [done|]. cbn. by intros ->. Qed.

Lemma take_while_app p n s : str_forall p n = true -> stops p s -> take_while p (n +:+ s) = n.
Proof.
  induction n as [|c n IH]; cbn; [destruct s as [|c s]; cbn; [done|by intros _ ->]|].
  intros [Hc Hn]%andb_true_iff Hs. rewrite Hc. by rewrite IH.
Qed.

Lemma drop_while_split p n s : str_forall p n = true -> stops p s -> drop_while p (n +:+ s) = s.
Proof. intros Hn Hs. rewrite drop_while_app by done. by apply drop_while_stops. Qed.

Lemma slen_drop_while_le p s : (slen (drop_while p s) <= slen s)%nat.
Proof. apply slen_drop_while. Qed.

Lemma match_placeholder_shorter s name after : match_placeholder s = Some (name, after) -> (slen after < slen s)%nat.
Proof.
  unfold match_placeholder. destruct s as [|c1 [|c2 rest]]; try done.
  destruct (_ && _); [|done]. destruct (str_empty _); [done|].
  pose proof (slen_drop_while tpl_ws (drop_while name_char (drop_while tpl_ws rest))).
  pose proof (slen_drop_while name_char (drop_while tpl_ws rest)). pose proof (slen_drop_while tpl_ws rest).
  destruct (drop_while tpl_ws (drop_while name_char (drop_while tpl_ws rest))) as [|d1 [|d2 r]]; try done.
  destruct (_ && _); [|done]. intros [= _ <-]. simpl in *. lia.
Qed.

(** Fuel beyond the length changes nothing. *)
Lemma render_fuel_enough params f1 f2 s :
  (slen s <= f1)%nat -> (slen s <= f2)%nat -> render_fuel f1 params s = render_fuel f2 params s.
Proof.
  revert f2 s. induction f1 as [|f1 IH]; intros f2 s H1 H2.
  - destruct s; [|simpl in H1; lia]. by destruct f2.
  - destruct s as [|c s]; [by destruct f2|]. destruct f2 as [|f2]; [simpl in H2; lia|].
    cbn [render_fuel]. destruct (match_placeholder (String c s)) as [[name after]|] eqn:Hm.
    + apply match_placeholder_shorter in Hm. cbn [slen] in *. by rewrite (IH f2) by lia.
    + cbn [slen] in *. by rewrite (IH f2) by lia.
Qed.

(** A template in pieces: text without an opening brace, and placeholders with
    their padding. *)
Inductive segment :=
| Lit (s : string)
| Hole (left name right : string).

Definition segment_text (g : segment) : string :=
  match g with
  | Lit s => s
  | Hole l n r => "{{" +:+ l +:+ n +:+ r +:+ "}}"
  end.

Definition segment_ok (g : segment) : bool :=
  match g with
  | Lit s => str_forall (fun c => negb (Ascii.eqb c "{"%char)) s
  | Hole l n r => str_forall tpl_ws l && str_forall name_char n && negb (str_empty n) && str_forall tpl_ws r
  end.

(** What a piece stands for: a known placeholder its value, an unknown one
    itself. *)
Definition segment_value (params : list (string * cel)) (g : segment) : result ValueError string :=
  match g with
  | Lit s => Ok s
  | Hole l n r => match own_get n params with
                  | Some v => paramToString v
                  | None => Ok (segment_text g)
                  end
  end.

Lemma name_char_not_ws c : tpl_ws c = true -> name_char c = false.
Proof. unfold name_char. intros ->. by rewrite andb_false_r. Qed.

Lemma stops_ws_app (r s : string) : str_forall tpl_ws r = true -> stops name_char s -> stops name_char (r +:+ s).
Proof. destruct r as [|c r]; cbn; [done|]. intros [Hc _]%andb_true_iff _. by apply name_char_not_ws. Qed.

Lemma stops_name_app (n s : string) : str_forall name_char n = true -> str_empty n = false -> stops tpl_ws (n +:+ s).
Proof.
  destruct n as [|c n]; [done|]. cbn. intros [Hc _]%andb_true_iff _. destruct (tpl_ws c) eqn:E; [|done].
  by rewrite (name_char_not_ws _ E) in Hc.
Qed.

Lemma match_hole l n r s :
  segment_ok (Hole l n r) = true -> match_placeholder (segment_text (Hole l n r) +:+ s) = Some (n, s).
Proof.
  cbn [segment_ok]. intros [[[Hl Hn]%andb_true_iff He%negb_true_iff]%andb_true_iff Hr]%andb_true_iff.
  cbn [segment_text]. rewrite !app_assoc_s.
  change ("{{" +:+ ?x) with (String "{" (String "{" x)). cbn [match_placeholder].
  assert (stops name_char (r +:+ "}}" +:+ s)) as Hstop by by apply stops_ws_app.
  rewrite (drop_while_split tpl_ws l) by auto using stops_name_app.
  rewrite (take_while_app name_char n), (drop_while_split name_char n) by done.
  rewrite (drop_while_split tpl_ws r) by done. by rewrite He.
Qed.

Lemma match_no_brace c s : Ascii.eqb c "{"%char = false -> match_placeholder (String c s) = None.
Proof. intros Hc. unfold match_placeholder. destruct s as [|d s]; [done|]. by rewrite Hc. Qed.

Lemma str_take_app_exact (s t : string) : str_take (slen (s +:+ t) - slen t) (s +:+ t) = s.
Proof.
  rewrite slen_app. replace (slen s + slen t - slen t)%nat with (slen s) by lia.
  induction s as [|c s IH]; [by destruct t|]. cbn. by rewrite IH.
Qed.

Lemma renderTemplate_hole params l n r s :
  segment_ok (Hole l n r) = true ->
  renderTemplate (segment_text (Hole l n r) +:+ s) params =
  (let? value := segment_value params (Hole l n r) in let? rest := renderTemplate s params in Ok (value +:+ rest)).
Proof.
  intros Hok. pose proof (match_hole l n r s Hok) as Hm. pose proof (match_placeholder_shorter _ _ _ Hm) as Hlt.
  unfold renderTemplate. set (t := segment_text (Hole l n r)) in *.
  destruct (t +:+ s) as [|c ts] eqn:E; [simpl in Hlt; lia|]. cbn [slen render_fuel]. rewrite Hm.
  rewrite (render_fuel_enough params (slen ts) (slen s) s) by (simpl in Hlt; lia).
  unfold segment_value. destruct (own_get n params); [done|]. unfold placeholder_text. rewrite <- E.
  by rewrite str_take_app_exact.
Qed.

Lemma renderTemplate_lit params t s :
  str_forall (fun c => negb (Ascii.eqb c "{"%char)) t = true ->
  renderTemplate (t +:+ s) params = (let? rest := renderTemplate s params in Ok (t +:+ rest)).
Proof.
  induction t as [|c t IH].
  { intros _. change (EmptyString +:+ s) with s. by destruct (renderTemplate s params). }
  cbn [str_forall String.append]. intros [Hc%negb_true_iff Ht]%andb_true_iff. unfold renderTemplate at 1. cbn [slen render_fuel].
  rewrite match_no_brace by done. change (render_fuel (slen (t +:+ s)) params (t +:+ s)) with (renderTemplate (t +:+ s) params).
  rewrite IH by done. by destruct (renderTemplate s params).
Qed.

Lemma renderTemplate_segments params segs :
  forallb segment_ok segs = true ->
  renderTemplate (str_concat (segment_text <$> segs)) params =
  (let? vs := sequence (map (segment_value params) segs) in Ok (str_concat vs)).
Proof.
  induction segs as [|g segs IH]; [done|]. intros [Hg Hs]%andb_true_iff. specialize (IH Hs).
  rewrite fmap_cons. cbn [str_concat map sequence]. destruct g as [t|l n r].
  - cbn [segment_text segment_value]. rewrite renderTemplate_lit, IH by done. cbn.
    by destruct (sequence _).
  - rewrite renderTemplate_hole, IH by done. destruct (segment_value params (Hole l n r)); [|done]. cbn.
    by destruct (sequence _).
Qed.

(** ** Properties of templates *)

(** Rendering is one pass: each placeholder becomes the string form of its
    parameter and is not looked at again (a value that contains a placeholder
    stays as it is), an unknown placeholder stays verbatim, and the text
    between is copied. *)
Theorem renderTemplate_single_pass (params : list (string * cel)) (segs : list segment) :
  forallb segment_ok segs = true ->
  renderTemplate (str_concat (segment_text <$> segs)) params =
  (let? vs := sequence (map (segment_value params) segs) in Ok (str_concat vs)).
Proof. apply renderTemplate_segments. Qed.

Lemma renderTemplate_single_pass_witness :
  renderTemplate "Fix {{ title }} in {{repo}}" [("title", CString "{{repo}}")] = Ok "Fix {{repo}} in {{repo}}".
Proof.
  refine (eq_trans (renderTemplate_single_pass [("title", CString "{{repo}}")]
    [Lit "Fix "; Hole " " "title" " "; Lit " in "; Hole EmptyString "repo" EmptyString] _) _); by vm_compute.
Defined.

(** ** Lemmas: canonical JSON *)

Lemma compare_ascii_lt_trans a b c :
  Ascii.compare a b = Lt -> Ascii.compare b c = Lt -> Ascii.compare a c = Lt.
Proof. unfold Ascii.compare. rewrite !N.compare_lt_iff. lia. Qed.

Lemma compare_ascii_eq a b : Ascii.compare a b = Eq <-> a = b.
Proof.
  unfold Ascii.compare. rewrite N.compare_eq_iff. split; [|by intros ->].
  intros H. by rewrite <- (ascii_N_embedding a), <- (ascii_N_embedding b), H.
Qed.

Lemma compare_string_lt_trans a b c :
  String.compare a b = Lt -> String.compare b c = Lt -> String.compare a c = Lt.
Proof.
  revert b c. induction a as [|x a IH]; intros [|y b] [|z c]; cbn; try done.
  destruct (Ascii.compare x y) eqn:E1; [| |done].
  - apply compare_ascii_eq in E1 as ->. destruct (Ascii.compare y z) eqn:E2; try done. by apply IH.
  - destruct (Ascii.compare y z) eqn:E2; [|by rewrite (compare_ascii_lt_trans _ _ _ E1 E2)|done].
    apply compare_ascii_eq in E2 as ->. by rewrite E1.
Qed.

Lemma str_ltb_lt a b : str_ltb a b = true <-> String.compare a b = Lt.
Proof. unfold str_ltb, String.ltb. by destruct (String.compare a b). Qed.

Lemma str_ltb_trans a b c : str_ltb a b = true -> str_ltb b c = true -> str_ltb a c = true.
Proof. rewrite !str_ltb_lt. apply compare_string_lt_trans. Qed.

Lemma str_ltb_asym a b : str_ltb a b = true -> str_ltb b a = false.
Proof.
  rewrite str_ltb_lt. intros H. unfold str_ltb, String.ltb. rewrite String.compare_antisym, H. done.
Qed.

Lemma str_ltb_total a b : a <> b -> str_ltb a b = false -> str_ltb b a = true.
Proof.
  intros Hne Hf. apply str_ltb_lt. rewrite String.compare_antisym.
  unfold str_ltb, String.ltb in Hf. destruct (String.compare a b) eqn:E; try done.
  by apply String.compare_eq_iff in E.
Qed.

Lemma insert_key_comm {A : Type} (a b : string * A) l :
  a.1 <> b.1 -> insert_key a (insert_key b l) = insert_key b (insert_key a l).
Proof.
  intros Hne. induction l as [|c l IH]; cbn.
  - destruct (str_ltb a.1 b.1) eqn:E; [by rewrite (str_ltb_asym _ _ E)|].
    by rewrite (str_ltb_total _ _ Hne E).
  - destruct (str_ltb b.1 c.1) eqn:Eb, (str_ltb a.1 c.1) eqn:Ea; cbn; rewrite ?Ea, ?Eb; try done.
    + destruct (str_ltb a.1 b.1) eqn:E; [by rewrite (str_ltb_asym _ _ E)|].
      by rewrite (str_ltb_total _ _ Hne E).
    + destruct (str_ltb a.1 b.1) eqn:E; [by rewrite (str_ltb_trans _ _ _ E Eb) in Ea|done].
    + destruct (str_ltb b.1 a.1) eqn:E; [by rewrite (str_ltb_trans _ _ _ E Ea) in Eb|done].
    + by rewrite IH.
Qed.

(** Sorting by distinct keys forgets the order. *)
Lemma sort_keys_perm {A : Type} (l1 l2 : list (string * A)) :
  l1 ≡ₚ l2 -> NoDup l1.*1 -> sort_keys l1 = sort_keys l2.
Proof.
  unfold sort_keys. induction 1 as [|x l1 l2 Hp IH|x y l|l1 l2 l3 H1 IH1 H2 IH2]; csimpl; intros Hnd; [done| | |].
  - apply NoDup_cons in Hnd as [_ Hnd]. by rewrite IH.
  - apply NoDup_cons in Hnd as [Hx _]. apply insert_key_comm. intros Heq. apply Hx. rewrite Heq. by left.
  - rewrite IH1, IH2; [done| |done]. by rewrite <- (fmap_Permutation fst _ _ H1).
Qed.

Lemma sort_keys_map {A B : Type} (f : string -> A -> B) (l : list (string * A)) :
  sort_keys (map (fun '(k, v) => (k, f k v)) l) = map (fun '(k, v) => (k, f k v)) (sort_keys l).
Proof.
  unfold sort_keys. induction l as [|[k v] l IH]; cbn; [done|]. rewrite IH.
  generalize (foldr insert_key [] l). intros m. induction m as [|[k' v'] m IHm]; cbn; [done|].
  destruct (str_ltb k k'); cbn; [done|]. by rewrite IHm.
Qed.

(** Two values that differ in the order of keys only, at any depth. *)
Inductive same_up_to_order : cel -> cel -> Prop :=
| same_refl v : same_up_to_order v v
| same_list l l' : Forall2 same_up_to_order l l' -> same_up_to_order (CList l) (CList l')
| same_map fs gs fs' :
    Forall2 (fun e e' => e.1 = e'.1 /\ same_up_to_order e.2 e'.2) fs gs -> gs ≡ₚ fs' ->
    same_up_to_order (CMap fs) (CMap fs').

(** Every object has its keys once, as an object of the language has. *)
Fixpoint keys_unique (v : cel) : Prop :=
  match v with
  | CList l => foldr and True (map keys_unique l)
  | CMap fs => NoDup fs.*1 /\ foldr and True (map (fun e => keys_unique e.2) fs)
  | _ => True
  end.

Fixpoint cel_size (v : cel) : nat :=
  match v with
  | CList l => S (foldr Nat.add 0%nat (map cel_size l))
  | CMap fs => S (foldr Nat.add 0%nat (map (fun e => cel_size e.2) fs))
  | _ => 1%nat
  end.

Lemma canonicalJson_same_fuel n v v' :
  (cel_size v <= n)%nat -> same_up_to_order v v' -> keys_unique v -> canonicalJson v = canonicalJson v'.
Proof.
  revert v v'. induction n as [|n IH]; intros v v' Hn Hs Hu; [destruct v; simpl in Hn; lia|].
  revert Hn Hu. destruct Hs as [w|l l' Hl|fs gs fs' Hfs Hp]; intros Hn Hu; [done| |].
  - cbn [canonicalJson]. f_equal. f_equal. cbn in Hn, Hu. revert Hn Hu.
    induction Hl as [|x x' l l' Hx Hl IHl]; [done|]. intros Hn Hu.
    cbn [map foldr] in *. destruct Hu as [Hux Hul]. cbn [sequence].
    rewrite (IH x x'), IHl by (done || lia). done.
  - cbn [canonicalJson]. f_equal. f_equal. f_equal. cbn in Hn, Hu. destruct Hu as [Hnd Hu].
    assert (map (fun '(k, v) => (k, canonicalJson v)) fs = map (fun '(k, v) => (k, canonicalJson v)) gs) as Heq.
    { clear Hp Hnd. revert Hn Hu. induction Hfs as [|[k x] [k' x'] l l' [Hk Hx] Hl IHl]; [done|]. intros Hn Hu.
      cbn [map foldr fst snd] in *. destruct Hu as [Hux Hul]. rewrite (IH x x'), IHl by (done || lia). by subst. }
    rewrite Heq. apply sort_keys_perm; [by apply Permutation_map|].
    rewrite <- Heq. clear -Hnd. revert Hnd. generalize canonicalJson. intros f Hnd.
    replace ((map (fun '(k, v) => (k, f v)) fs).*1) with (fs.*1); [done|].
    clear Hnd. induction fs as [|[k v] fs IH]; csimpl; [done|]. by rewrite <- IH.
Qed.

(** ** Properties of canonical JSON *)

(** The canonical JSON of a value does not depend on the order of the
    keys of its objects, at any depth: two engines that build the same object
    in different orders print the same string. *)
Theorem canonicalJson_key_order (v v' : cel) :
  keys_unique v -> same_up_to_order v v' -> canonicalJson v = canonicalJson v'.
Proof. intros Hu Hs. by eapply canonicalJson_same_fuel. Qed.

Lemma canonicalJson_key_order_witness :
  canonicalJson (CMap [("b", CInt 1); ("a", CList [CNull])]) = canonicalJson (CMap [("a", CList [CNull]); ("b", CInt 1)]).
Proof.
  apply (canonicalJson_key_order (CMap [("b", CInt 1); ("a", CList [CNull])]) (CMap [("a", CList [CNull]); ("b", CInt 1)])).
  - cbn. split; [|done]. apply NoDup_cons. split; [by intros ?%list_elem_of_singleton|apply NoDup_singleton].
  - apply (same_map _ [("b", CInt 1); ("a", CList [CNull])]); [|apply Permutation_swap].
    repeat constructor.
Defined.
