(* ===== verification/JsList.v ===== *)
(** * Arrays, sets and their order in JavaScript

    [Array.prototype.sort] with a comparator, [new Set(xs)] spread back into
    an array, the default order of strings, and the rounding arithmetic and the
    comparisons of numbers that a ranking uses. *)

From stdpp Require Import base gmap strings list sorting.
From Stdlib Require Import ZArith Lia.
From S2P Require Import Prelude JsString JsNumber Json JsMap EventValues.

#[local] Open Scope Z_scope.

(** ** Sorting *)

(** [xs.sort(cmp)], which is stable: [lt a b] is [cmp(a, b) < 0]. *)
Fixpoint insert_by {A : Type} (lt : A -> A -> bool) (x : A) (l : list A) : list A :=
  match l with
  | [] => [x]
  | y :: l' => if lt y x then y :: insert_by lt x l' else x :: l
  end.

Definition sort_by {A : Type} (lt : A -> A -> bool) (l : list A) : list A := foldr (insert_by lt) [] l.

(** [xs.sort()] on strings. *)
Definition sort_strings (l : list string) : list string := sort_by str_ltb l.

(** [set.add(x)] and [[...new Set(xs)]]. *)
Definition set_add (s : list string) (x : string) : list string := if has s x then s else s ++ [x].
Definition set_of (xs : list string) : list string := foldl set_add [] xs.

(** ** Numbers: comparison and arithmetic *)

(** [m * 2^(e - low)] for an exponent [low] that is not above [e]. *)
Definition at_scale (low m e : Z) : Z := m * 2 ^ (e - low).

(** The order of two numbers, [None] when one is [NaN]. *)
Definition num_compare (x y : number) : option comparison :=
  match x, y with
  | NaN, _ | _, NaN => None
  | Infinity a, Infinity b => Some (if a then if b then Eq else Lt else if b then Gt else Eq)
  | Infinity a, Finite _ _ => Some (if a then Lt else Gt)
  | Finite _ _, Infinity b => Some (if b then Gt else Lt)
  | Finite m e, Finite m' e' => let low := Z.min e e' in Some (at_scale low m e ?= at_scale low m' e')
  end.

(** [x < y], [x > y], [x === y]. *)
Definition num_ltb (x y : number) : bool :=
  match num_compare x y with
  | Some Lt => true
  | _ => false
  end.
Definition num_gtb (x y : number) : bool := num_ltb y x.
Definition num_eqb (x y : number) : bool :=
  match num_compare x y with
  | Some Eq => true
  | _ => false
  end.

(** The double nearest to [n / d], of either sign; the zeros are one value. *)
Definition num_neg (x : number) : number :=
  match x with
  | NaN => NaN
  | Infinity a => Infinity (negb a)
  | Finite m e => Finite (- m) e
  end.

Definition round_signed (n d : Z) : number :=
  if n <? 0 then num_neg (round_ratio (- n) d) else round_ratio n d.

(** [m * 2^e] rounded. *)
Definition round_dyadic (m e : Z) : number :=
  if 0 <=? e then round_signed (m * 2 ^ e) 1 else round_signed m (2 ^ (- e)).

Definition num_add (x y : number) : number :=
  match x, y with
  | NaN, _ | _, NaN => NaN
  | Infinity a, Infinity b => if Bool.eqb a b then Infinity a else NaN
  | Infinity a, _ => Infinity a
  | _, Infinity b => Infinity b
  | Finite m e, Finite m' e' => let low := Z.min e e' in round_dyadic (at_scale low m e + at_scale low m' e') low
  end.

Definition num_sub (x y : number) : number := num_add x (num_neg y).

Definition num_mul (x y : number) : number :=
  match x, y with
  | NaN, _ | _, NaN => NaN
  | Finite m e, Finite m' e' => round_dyadic (m * m') (e + e')
  | Infinity a, Infinity b => Infinity (xorb a b)
  | Infinity a, Finite m _ | Finite m _, Infinity a => if m =? 0 then NaN else Infinity (xorb a (m <? 0))
  end.

(** The quotient; a zero divisor counts as +0. *)
Definition num_div (x y : number) : number :=
  match x, y with
  | NaN, _ | _, NaN | Infinity _, Infinity _ => NaN
  | Infinity a, Finite m _ => Infinity (xorb a (m <? 0))
  | Finite _ _, Infinity _ => num_of_Z 0
  | Finite m e, Finite m' e' =>
      if m' =? 0 then (if m =? 0 then NaN else Infinity (m <? 0))
      else
        let low := Z.min e e' in
        let n := at_scale low m e in
        let d := at_scale low m' e' in
        round_signed (if d <? 0 then - n else n) (Z.abs d)
  end.

(** ** Lemmas: sorting *)

Section sort.
Context {A : Type} (lt : A -> A -> bool).

Lemma insert_by_perm x l : insert_by lt x l ≡ₚ x :: l.
Proof.
  induction l as [|y l IH]; cbn; [done|]. destruct (lt y x); [|done].
  rewrite IH. apply Permutation_swap.
Qed.

Lemma sort_by_perm l : sort_by lt l ≡ₚ l.
Proof. induction l as [|x l IH]; cbn; [done|]. by rewrite insert_by_perm, IH. Qed.

Lemma sort_by_elem x l : x ∈ sort_by lt l <-> x ∈ l.
Proof. by rewrite sort_by_perm. Qed.

Lemma sort_by_length l : length (sort_by lt l) = length l.
Proof. apply Permutation_length, sort_by_perm. Qed.

(** What a comparator needs for its sort to mean something, on the values that
    [P] admits. *)
Class WeakOrder (P : A -> Prop) : Prop := {
  wo_asym a b : P a -> P b -> lt a b = true -> lt b a = false;
  wo_cotrans a b c : P a -> P b -> P c -> lt a c = true -> lt a b = true \/ lt b c = true
}.

Context (P : A -> Prop) `{!WeakOrder P}.

Lemma wo_trans_neg a b c : P a -> P b -> P c -> lt b a = false -> lt c b = false -> lt c a = false.
Proof.
  intros Ha Hb Hc Hba Hcb. destruct (lt c a) eqn:E; [|done].
  destruct (wo_cotrans c b a Hc Hb Ha E); congruence.
Qed.

Definition not_after (a b : A) : Prop := lt b a = false.

Lemma insert_by_sorted x l :
  P x -> Forall P l -> StronglySorted not_after l -> StronglySorted not_after (insert_by lt x l).
Proof.
  intros Hx HP Hs. induction l as [|y l IH]; cbn; [by repeat constructor|].
  apply Forall_cons in HP as [Hy HP]. destruct (StronglySorted_inv Hs) as [Hs' Hall].
  destruct (lt y x) eqn:E.
  - constructor; [by apply IH|]. rewrite insert_by_perm. constructor; [|done]. by apply wo_asym.
  - constructor; [done|]. constructor; [done|]. rewrite Forall_forall in Hall, HP |- *.
    intros z Hz. apply (wo_trans_neg x y z); auto. by apply Hall.
Qed.

Lemma sort_by_sorted l : Forall P l -> StronglySorted not_after (sort_by lt l).
Proof.
  induction 1 as [|x l Hx HP IH]; cbn; [constructor|]. apply insert_by_sorted; [done| |done].
  change (Forall P (sort_by lt l)). by rewrite sort_by_perm.
Qed.

(** Where the comparator tells any two different values apart, the result does
    not depend on the order the values came in. *)
Lemma sort_by_unique l l' :
  Forall P l -> l ≡ₚ l' -> (forall a b, a ∈ l -> b ∈ l -> a = b \/ lt a b = true \/ lt b a = true) ->
  sort_by lt l = sort_by lt l'.
Proof.
  intros HP Hp Htotal. apply (StronglySorted_unique_strong not_after).
  - unfold not_after. intros a b Ha Hb Hab Hba. rewrite sort_by_elem in Ha. rewrite sort_by_elem, <- Hp in Hb.
    destruct (Htotal a b Ha Hb) as [?|[?|?]]; [done|congruence..].
  - by apply sort_by_sorted.
  - apply sort_by_sorted. by rewrite <- Hp.
  - by rewrite !sort_by_perm.
Qed.
End sort.

(** ** Lemmas: strings and sets *)

#[export] Instance str_ltb_order : WeakOrder str_ltb (fun _ => True).
Proof.
  split; [intros a b _ _; apply str_ltb_asym|]. intros a b c _ _ _ Hac.
  destruct (decide (a = b)) as [->|Hab]; [by right|]. destruct (str_ltb a b) eqn:E; [by left|right].
  apply (str_ltb_trans b a c); [|done]. by apply str_ltb_total.
Qed.

Lemma str_ltb_irrefl a : str_ltb a a = false.
Proof. destruct (str_ltb a a) eqn:E; [|done]. pose proof (str_ltb_asym _ _ E). congruence. Qed.

Lemma set_add_elem s x y : y ∈ set_add s x <-> y ∈ s \/ y = x.
Proof. unfold set_add. destruct (has s x) eqn:E; [apply has_true in E|]; set_solver. Qed.

Lemma set_add_NoDup s x : NoDup s -> NoDup (set_add s x).
Proof.
  unfold set_add, has. case_bool_decide as E; [done|]. intros Hs.
  apply NoDup_app. split_and!; [done| |apply NoDup_singleton]. set_solver.
Qed.

Lemma foldl_set_add_elem xs s y : y ∈ foldl set_add s xs <-> y ∈ s \/ y ∈ xs.
Proof.
  revert s. induction xs as [|x xs IH]; intros s; cbn; [set_solver|]. rewrite IH, set_add_elem. set_solver.
Qed.

Lemma set_of_elem xs y : y ∈ set_of xs <-> y ∈ xs.
Proof. unfold set_of. rewrite foldl_set_add_elem. set_solver. Qed.

Lemma set_of_NoDup xs : NoDup (set_of xs).
Proof. unfold set_of. apply foldl_inv; [intros; by apply set_add_NoDup | constructor]. Qed.

Lemma sort_strings_elem xs y : y ∈ sort_strings xs <-> y ∈ xs.
Proof. apply sort_by_elem. Qed.

(** [[...new Set(xs)].sort()] is determined by the elements of [xs]. *)
Lemma sorted_set_ext xs ys : (forall y, y ∈ xs <-> y ∈ ys) -> sort_strings (set_of xs) = sort_strings (set_of ys).
Proof.
  intros Hxy. apply (sort_by_unique str_ltb (fun _ => True)).
  - by apply Forall_true.
  - apply NoDup_Permutation; [apply set_of_NoDup..|]. intros y. by rewrite !set_of_elem.
  - intros a b _ _. destruct (decide (a = b)) as [->|Hne]; [by left|right].
    destruct (str_ltb a b) eqn:E; [by left|right]. by apply str_ltb_total.
Qed.

(** ** Lemmas: the order of numbers *)

Definition not_NaN (x : number) : Prop := x <> NaN.

Lemma at_scale_compare low low' m e m' e' :
  low <= e -> low <= e' -> low' <= low ->
  (at_scale low' m e ?= at_scale low' m' e') = (at_scale low m e ?= at_scale low m' e').
Proof.
  intros He He' Hl. unfold at_scale.
  replace (e - low') with ((e - low) + (low - low')) by lia.
  replace (e' - low') with ((e' - low) + (low - low')) by lia.
  rewrite !Z.pow_add_r, !Z.mul_assoc by lia.
  symmetry. apply Zmult_compare_compat_r. apply Z.lt_gt, Z.pow_pos_nonneg; lia.
Qed.

(** Finite numbers compare as integers, at any scale below both. *)
Lemma num_compare_scale low m e m' e' :
  low <= e -> low <= e' -> num_compare (Finite m e) (Finite m' e') = Some (at_scale low m e ?= at_scale low m' e').
Proof. intros He He'. cbn. f_equal. symmetry. apply at_scale_compare; lia. Qed.

#[export] Instance num_ltb_order : WeakOrder num_ltb not_NaN.
Proof.
  split; unfold not_NaN.
  - intros [|x|m e] [|y|m' e']; unfold num_ltb; try done; try (by destruct x); try (by destruct y).
    { by destruct x, y. }
    intros _ _. rewrite !(num_compare_scale (Z.min e e')) by lia.
    destruct (Z.compare_spec (at_scale (Z.min e e') m e) (at_scale (Z.min e e') m' e')); try done.
    intros _. destruct (Z.compare_spec (at_scale (Z.min e e') m' e') (at_scale (Z.min e e') m e)); try done. lia.
  - intros [|x|m e] [|y|m' e'] [|z|m'' e''] Ha Hb Hc; try done; unfold num_ltb; cbn [num_compare];
      repeat match goal with b : bool |- _ => destruct b end; try done; try (by left); try (by right).
    set (low := Z.min e (Z.min e' e'')).
    rewrite <- (at_scale_compare (Z.min e e'') low), <- (at_scale_compare (Z.min e e') low),
      <- (at_scale_compare (Z.min e' e'') low) by lia.
    destruct (Z.compare_spec (at_scale low m e) (at_scale low m'' e'')); try done. intros _.
    destruct (Z.compare_spec (at_scale low m e) (at_scale low m' e'));
      destruct (Z.compare_spec (at_scale low m' e') (at_scale low m'' e'')); first [by left | by right | lia].
Qed.

Lemma num_ltb_eqb x y : not_NaN x -> not_NaN y -> num_eqb x y = false -> num_ltb x y = true \/ num_ltb y x = true.
Proof.
  unfold not_NaN, num_eqb, num_ltb. destruct x as [|a|m e], y as [|b|m' e']; try done;
    repeat match goal with b : bool |- _ => destruct b end; try solve [done | cbn; by left | cbn; by right].
  intros _ _. rewrite !(num_compare_scale (Z.min e e')) by lia.
  destruct (Z.compare_spec (at_scale (Z.min e e') m e) (at_scale (Z.min e e') m' e')); [done|tauto|].
  intros _. right. destruct (Z.compare_spec (at_scale (Z.min e e') m' e') (at_scale (Z.min e e') m e)); lia || done.
Qed.

Lemma num_eqb_ltb x y : num_eqb x y = true -> num_ltb x y = false.
Proof. unfold num_eqb, num_ltb. destruct (num_compare x y) as [[]|]; done. Qed.

Lemma num_eqb_false x y : not_NaN x -> not_NaN y -> num_eqb x y = negb (num_ltb x y || num_ltb y x).
Proof.
  intros Hx Hy. destruct (num_eqb x y) eqn:E.
  - rewrite (num_eqb_ltb x y E). destruct (num_ltb y x) eqn:Hyx; [|done].
    exfalso. revert E Hyx. unfold num_eqb, num_ltb. destruct x as [|a|m e], y as [|b|m' e']; try done;
      try (by destruct a); try (by destruct b); try (by destruct a, b).
    rewrite !(num_compare_scale (Z.min e e')) by lia.
    destruct (Z.compare_spec (at_scale (Z.min e e') m e) (at_scale (Z.min e e') m' e')); try done.
    destruct (Z.compare_spec (at_scale (Z.min e e') m' e') (at_scale (Z.min e e') m e)); lia || done.
  - destruct (num_ltb_eqb x y Hx Hy E) as [-> | ->]; [done|]. by rewrite orb_true_r.
Qed.

(** ** Lemmas: comparators by several keys *)

(** By [lt1], and by [lt2] where [lt1] does not tell. *)
Definition lex {A : Type} (lt1 lt2 : A -> A -> bool) (a b : A) : bool := lt1 a b || (negb (lt1 b a) && lt2 a b).

Lemma lex_order {A : Type} (lt1 lt2 : A -> A -> bool) (P : A -> Prop) :
  WeakOrder lt1 P -> WeakOrder lt2 P -> WeakOrder (lex lt1 lt2) P.
Proof.
  intros [as1 co1] [as2 co2]. split; unfold lex.
  - intros a b Ha Hb H. specialize (as1 a b Ha Hb) as A1. specialize (as1 b a Hb Ha) as A2.
    specialize (as2 a b Ha Hb) as A3. destruct (lt1 a b), (lt1 b a), (lt2 a b), (lt2 b a); naive_solver.
  - intros a b c Ha Hb Hc H. destruct (lt1 a b) eqn:Hab; [by left|]. destruct (lt1 b c) eqn:Hbc; [by right|].
    destruct (lt1 a c) eqn:Hac; [destruct (co1 a b c Ha Hb Hc Hac); congruence|]. cbn in H |- *.
    destruct (lt1 c a) eqn:Hca; [done|]. cbn in H.
    destruct (lt1 b a) eqn:Hba; [destruct (co1 b c a Hb Hc Ha Hba); congruence|].
    destruct (lt1 c b) eqn:Hcb; [destruct (co1 c a b Hc Ha Hb Hcb); congruence|].
    cbn. exact (co2 a b c Ha Hb Hc H).
Qed.

Lemma order_by {A B : Type} (f : A -> B) (lt : B -> B -> bool) (P : B -> Prop) (Q : A -> Prop) :
  (forall a, Q a -> P (f a)) -> WeakOrder lt P -> WeakOrder (fun a b => lt (f a) (f b)) Q.
Proof. intros HQ [Has Hco]. split; eauto. Qed.

Lemma order_flip {A : Type} (lt : A -> A -> bool) (P : A -> Prop) : WeakOrder lt P -> WeakOrder (fun a b => lt b a) P.
Proof.
  intros [Has Hco]. split; [by eauto|]. intros a b c Ha Hb Hc H. destruct (Hco c b a Hc Hb Ha H); tauto.
Qed.

Lemma order_ext {A : Type} (lt lt' : A -> A -> bool) (P : A -> Prop) :
  (forall a b, P a -> P b -> lt a b = lt' a b) -> WeakOrder lt' P -> WeakOrder lt P.
Proof.
  intros Heq [Has Hco]. split.
  - intros a b Ha Hb. rewrite !Heq by done. by apply Has.
  - intros a b c Ha Hb Hc. rewrite !Heq by done. by apply Hco.
Qed.

(** By a number, the greatest first. *)
Lemma num_desc_order {A : Type} (f : A -> number) : WeakOrder (fun a b => num_gtb (f a) (f b)) (fun a => not_NaN (f a)).
Proof. apply (order_flip (fun a b => num_ltb (f a) (f b))), (order_by f num_ltb not_NaN); [done|]. apply num_ltb_order. Qed.

Lemma str_asc_order {A : Type} (f : A -> string) (P : A -> Prop) : WeakOrder (fun a b => str_ltb (f a) (f b)) P.
Proof. apply (order_by f str_ltb (fun _ => True)); [done|]. apply str_ltb_order. Qed.

(** The shape of the comparators of the source: a key that differs decides. *)
Lemma lex_num_spec {A : Type} (f : A -> number) (rest : A -> A -> bool) a b :
  not_NaN (f a) -> not_NaN (f b) ->
  (if negb (num_eqb (f a) (f b)) then num_gtb (f a) (f b) else rest a b) = lex (fun a b => num_gtb (f a) (f b)) rest a b.
Proof.
  intros Ha Hb. unfold lex, num_gtb. rewrite (num_eqb_false _ _ Ha Hb), negb_involutive.
  pose proof (wo_asym num_ltb (f a) (f b) Ha Hb) as H1.
  destruct (num_ltb (f a) (f b)) eqn:E1, (num_ltb (f b) (f a)) eqn:E2; cbn; solve [done | by specialize (H1 eq_refl)].
Qed.

Lemma lex_str_spec {A : Type} (f : A -> string) (rest : A -> A -> bool) a b :
  (if negb (bool_decide (f a = f b)) then str_ltb (f a) (f b) else rest a b) = lex (fun a b => str_ltb (f a) (f b)) rest a b.
Proof.
  unfold lex. case_bool_decide as E; cbn.
  - by rewrite E, str_ltb_irrefl.
  - destruct (str_ltb (f a) (f b)) eqn:E1; [done|]. by rewrite (str_ltb_total _ _ E E1).
Qed.
