(* ===== verification/JsonText.v ===== *)
(** * JSON as text

    [JSON.stringify], plain and with an indent of two, and the order in which the
    language lists the keys of an object: an array index before any other key. *)

From stdpp Require Import base gmap strings list.
From Stdlib Require Import ZArith Lia Ascii.
From S2P Require Import Prelude JsString JsNumber Json JsMap EventValues JsList.

#[local] Open Scope Z_scope.

(** ** [JSON.stringify] *)

Definition json_number (x : number) : string := if isFinite x then number_toString x else "null".

Fixpoint JSON_text (v : json) : string :=
  match v with
  | JNull => "null"
  | JBool b => if b then "true" else "false"
  | JNum x => json_number x
  | JStr s => json_quote s
  | JArr l => "[" +:+ join "," (map JSON_text l) +:+ "]"
  | JObj fields => "{" +:+ join "," (map (fun '(k, v) => json_quote k +:+ ":" +:+ JSON_text v) fields) +:+ "}"
  end.

Definition spaces (n : nat) : string := String.string_of_list_ascii (repeat " "%char n).

(** [JSON.stringify(v, null, 2)], at a depth. *)
Fixpoint JSON_indented (depth : nat) (v : json) : string :=
  let inner := nl_s +:+ spaces (2 * S depth) in
  let outer := nl_s +:+ spaces (2 * depth) in
  match v with
  | JArr (_ :: _ as l) => "[" +:+ inner +:+ join ("," +:+ inner) (map (JSON_indented (S depth)) l) +:+ outer +:+ "]"
  | JObj (_ :: _ as fields) =>
      "{" +:+ inner +:+
      join ("," +:+ inner) (map (fun '(k, v) => json_quote k +:+ ": " +:+ JSON_indented (S depth) v) fields) +:+ outer +:+ "}"
  | _ => JSON_text v
  end.

Definition JSON_pretty : json -> string := JSON_indented 0.

(** ** The keys of an object *)

(** The value of a canonical decimal numeral below 2^32 - 1. *)
Definition array_index (k : string) : option Z :=
  if negb (str_empty k) && str_forall is_digit k && Nat.leb (slen k) 10 then
    let n := digits_value k in
    if (n <? 4294967295) && bool_decide (decimal n = k) then Some n else None
  else None.

Definition before {A : Type} (a b : string * A) : bool :=
  match array_index a.1, array_index b.1 with
  | Some i, Some j => i <? j
  | _, _ => false
  end.

(** The properties of an object that was given them in some order, each once. *)
Definition own_order {A : Type} (fields : list (string * A)) : list (string * A) :=
  sort_by before (List.filter (fun e => bool_decide (is_Some (array_index e.1))) fields) ++
  List.filter (fun e => negb (bool_decide (is_Some (array_index e.1)))) fields.

(** ** What the text is made of *)

Definition printing (c : ascii) : bool := (32 <=? code c)%N.

Lemma printing_app s t : str_forall printing (s +:+ t) = str_forall printing s && str_forall printing t.
Proof. apply str_forall_app. Qed.

Lemma printing_join sep ps :
  str_forall printing sep = true -> Forall (fun p => str_forall printing p = true) ps -> str_forall printing (join sep ps) = true.
Proof.
  intros Hsep. induction 1 as [|p ps Hp Hps IH]; [done|]. destruct ps as [|q ps]; [done|].
  rewrite join_cons by done. by rewrite !printing_app, Hp, Hsep, IH.
Qed.

Lemma printing_quote_char c : str_forall printing (quote_char c) = true.
Proof. by destruct c as [[] [] [] [] [] [] [] []]; vm_compute. Qed.

Lemma printing_quote s : str_forall printing (json_quote s) = true.
Proof.
  unfold json_quote. cbn [str_forall]. rewrite printing_app, andb_true_r. apply andb_true_iff. split; [done|].
  generalize (String.list_ascii_of_string s). intros l. induction l as [|c l IH]; [done|].
  rewrite fmap_cons. cbn [str_concat]. by rewrite printing_app, printing_quote_char, IH.
Qed.

Lemma printing_digit n : 0 <= n < 10 -> printing (ascii_of_N (Z.to_N (48 + n))) = true.
Proof.
  intros Hn. unfold printing, code. rewrite N_ascii_embedding by lia. apply N.leb_le. lia.
Qed.

Lemma printing_decimal_fuel fuel n acc :
  str_forall printing acc = true -> str_forall printing (decimal_fuel fuel n acc) = true.
Proof.
  revert n acc. induction fuel as [|fuel IH]; intros n acc Hacc; [done|]. cbn [decimal_fuel].
  assert (Hc : str_forall printing (String (ascii_of_N (Z.to_N (48 + n mod 10))) acc) = true).
  { cbn [str_forall]. rewrite Hacc, printing_digit; [done|]. apply Z.mod_pos_bound. lia. }
  destruct (n <? 10); [done|by apply IH].
Qed.

Lemma printing_decimal n : str_forall printing (decimal n) = true.
Proof. by apply printing_decimal_fuel. Qed.

Lemma printing_take n s : str_forall printing s = true -> str_forall printing (str_take n s) = true.
Proof. intros H. rewrite <- (str_take_drop n s), printing_app in H. by apply andb_true_iff in H as [? _]. Qed.

Lemma printing_drop n s : str_forall printing s = true -> str_forall printing (str_drop n s) = true.
Proof. intros H. rewrite <- (str_take_drop n s), printing_app in H. by apply andb_true_iff in H as [_ ?]. Qed.

Lemma printing_zeros n : str_forall printing (zeros n) = true.
Proof. by induction n. Qed.

Lemma printing_format s k n : str_forall printing (format_digits s k n) = true.
Proof.
  pose proof (printing_decimal s) as Hd. pose proof (printing_decimal (Z.abs (n - 1))) as He. unfold format_digits.
  repeat case_match; rewrite ?printing_app, ?Hd, ?He, ?printing_zeros, ?printing_take, ?printing_drop by done; done.
Qed.

Lemma printing_number x : str_forall printing (json_number x) = true.
Proof.
  unfold json_number. destruct x as [|negative|m e]; [done|by destruct negative|]. simpl. unfold number_toString, positive_toString.
  repeat case_match; cbn [str_forall]; rewrite ?printing_app, ?printing_format; done.
Qed.

(** The text of a value has no control character: not one that stands between
    the parts of a larger text. *)
Lemma printing_JSON_text (v : json) : str_forall printing (JSON_text v) = true.
Proof.
  revert v. fix IH 1. intros [|b|x|s|l|fields]; cbn [JSON_text].
  - done.
  - by destruct b.
  - apply printing_number.
  - apply printing_quote.
  - rewrite !printing_app, printing_join; [done|done|]. induction l as [|v l IHl]; constructor; [apply IH|exact IHl].
  - rewrite !printing_app, printing_join; [done|done|]. induction fields as [|[k v] fields IHf]; constructor; [|exact IHf].
    by rewrite !printing_app, printing_quote, IH.
Qed.
