(* ===== verification/EventTrigger.v ===== *)
(** * Event triggers: compilation and selection

    packages/event-triggers/src/trigger.ts, with the shapes of
    packages/event-triggers/src/types.ts, the parts of
    packages/event-triggers/src/cel.ts that are not the CEL library, and the
    headers of packages/event-triggers/src/envelope.ts. The CEL parser, checker
    and evaluator are parameters. *)

From stdpp Require Import base gmap strings list sorting.
From Stdlib Require Import ZArith Lia Ascii.
From S2P Require Import Prelude JsString JsNumber Json JsMap EventValues.

#[local] Open Scope Z_scope.

(** ** Data *)

Inductive EnvelopeKind := webhook | cron.

Record Envelope := mkEnvelope {
  env_source : string;
  env_kind : EnvelopeKind;
  env_id : string;
  env_time : string;
  env_headers : list (string * string);
  env_body : json;
  env_sender : list (string * json);
  env_repository : string
}.

Record GitHubReplySpec := mkGitHubReply {
  gh_repository : option string;
  gh_issueNumber : option string;
  gh_ack : option string;
  gh_sessionPage : bool;
  gh_result : bool;
  gh_removeLabel : option string
}.

Record HttpReplySpec := mkHttpReply {
  http_url : string;
  http_secretRef : option (string * string)
}.

Record EventTriggerReplySpec := mkReplySpec {
  reply_github : option GitHubReplySpec;
  reply_http : option HttpReplySpec
}.

Record EventTriggerTargetSpec := mkTargetSpec {
  ts_orchestrator : bool;
  ts_skillRef : option string;
  ts_agentRef : option string;
  ts_toolRef : option string;
  ts_promptTemplate : option string;
  ts_readOnly : bool
}.

Record EventTriggerResource := mkResource {
  res_name : string;
  res_sourceRef : option string;
  res_priority : option Z;
  res_match : option string;
  res_params : list (string * string);
  res_sessionKey : option string;
  res_target : option EventTriggerTargetSpec;
  res_reply : option EventTriggerReplySpec
}.

Inductive TriggerTargetKind := tk_orchestrator | tk_skill | tk_agent | tk_tool.

#[export] Instance TriggerTargetKind_eq_dec : EqDecision TriggerTargetKind.
Proof. solve_decision. Defined.

Record TriggerTarget := mkTarget {
  target_kind : TriggerTargetKind;
  target_ref : option string;
  target_readOnly : bool;
  target_promptTemplate : option string
}.

Record RenderedGitHub := mkRenderedGitHub {
  rg_repository : string;
  rg_issueNumber : Z;
  rg_ack : option string;
  rg_sessionPage : bool;
  rg_result : bool;
  rg_removeLabel : option string
}.

Record RenderedReply := mkRenderedReply {
  rr_github : option RenderedGitHub;
  rr_http : option HttpReplySpec
}.

Section Cel.
(** A parsed program; [env.parse] and [program.check()] as one step giving
    the static result type; and a run of a program on an activation. *)
Variable program : Type.
Variable cel_compile : string -> result string (string * program).
Variable cel_run : program -> list (string * cel) -> result string cel.

Record CompiledExpression := mkCompiled {
  ce_source : string;
  ce_resultType : string;
  ce_program : program
}.

Record CompiledTrigger := mkTrigger {
  ct_name : string;
  ct_sourceRef : option string;
  ct_priority : Z;
  ct_ready : bool;
  ct_error : option string;
  ct_match : option CompiledExpression;
  ct_params : list (string * CompiledExpression);
  ct_sessionKey : option string;
  ct_target : option TriggerTarget;
  ct_reply : option EventTriggerReplySpec
}.

(** ** The CEL wrapper *)

Definition compileExpression (expr : string) : result string CompiledExpression :=
  let? c := cel_compile expr in Ok (mkCompiled expr c.1 c.2).

Definition kind_string (kind : EnvelopeKind) : string :=
  match kind with
  | webhook => "webhook"
  | cron => "cron"
  end.

Definition envelopeActivation (envelope : Envelope) : list (string * cel) :=
  [("source", CString (env_source envelope)); ("kind", CString (kind_string (env_kind envelope)));
   ("id", CString (env_id envelope)); ("time", CString (env_time envelope));
   ("repository", CString (env_repository envelope));
   ("headers", CMap (map (fun h => (h.1, CString h.2)) (env_headers envelope)));
   ("body", normalizeJson (or_empty (Some (env_body envelope))));
   ("sender", normalizeJson (JObj (env_sender envelope)))].

Definition evaluate (compiled : CompiledExpression) (activation : list (string * cel)) : result string cel :=
  cel_run (ce_program compiled) activation.

(** ** Compilation *)

(** The optional strings the code tests for truth. *)
Definition truthy_opt (o : option string) : option string := if truthy_str o then o else None.

Definition target_kinds (t : EventTriggerTargetSpec) : list (TriggerTargetKind * option string) :=
  (if ts_orchestrator t then [(tk_orchestrator, None)] else []) ++
  (if truthy_str (ts_skillRef t) then [(tk_skill, ts_skillRef t)] else []) ++
  (if truthy_str (ts_agentRef t) then [(tk_agent, ts_agentRef t)] else []) ++
  (if truthy_str (ts_toolRef t) then [(tk_tool, ts_toolRef t)] else []).

Definition resolveTarget (resource : EventTriggerResource) : result string TriggerTarget :=
  match res_target resource with
  | None => Err "spec.target is required"
  | Some t =>
      match target_kinds t with
      | [(kind, ref)] =>
          if negb (bool_decide (kind = tk_tool)) && negb (truthy_str (ts_promptTemplate t))
          then Err "spec.target.promptTemplate is required unless toolRef is set"
          else Ok (mkTarget kind ref (ts_readOnly t) (truthy_opt (ts_promptTemplate t)))
      | _ => Err "spec.target must set exactly one of orchestrator, skillRef, agentRef, toolRef"
      end
  end.

Definition compile_match (resource : EventTriggerResource) : result string (option CompiledExpression) :=
  match res_match resource with
  | None => Ok None
  | Some src =>
      if str_empty (trim src) then Ok None
      else match compileExpression src with
           | Err e => Err ("match.cel: " +:+ e)
           | Ok c =>
               if bool_decide (ce_resultType c = "bool") || bool_decide (ce_resultType c = "dyn") then Ok (Some c)
               else Err ("match.cel must yield bool, got " +:+ ce_resultType c)
           end
  end.

(** The loop over the parameters: those compiled so far, and the first error. *)
Fixpoint compile_params (params : list (string * string)) :
    list (string * CompiledExpression) * option string :=
  match params with
  | [] => ([], None)
  | (name, src) :: rest =>
      match compileExpression src with
      | Err e => ([], Some ("params." +:+ name +:+ ": " +:+ e))
      | Ok c => let '(compiled, error) := compile_params rest in ((name, c) :: compiled, error)
      end
  end.

Definition compileTrigger (resource : EventTriggerResource) : CompiledTrigger :=
  let trigger := mkTrigger (res_name resource) (truthy_opt (res_sourceRef resource)) (res_priority resource ?? 0) in
  let session := truthy_opt (res_sessionKey resource) in
  let reply := res_reply resource in
  if str_empty (res_name resource) then trigger false (Some "metadata.name is required") None [] session None reply
  else match resolveTarget resource with
       | Err e => trigger false (Some e) None [] session None reply
       | Ok target =>
           match compile_match resource with
           | Err e => trigger false (Some e) None [] session (Some target) reply
           | Ok m =>
               match compile_params (sort_keys (res_params resource)) with
               | (params, Some e) => trigger false (Some e) m params session (Some target) reply
               | (params, None) => trigger true None m params session (Some target) reply
               end
           end
       end.

(** ** Selection *)

(** [byPrecedence(a, b) <= 0], as a stable sort uses it. *)
Definition precedes (a b : CompiledTrigger) : bool :=
  if negb (ct_priority a =? ct_priority b) then ct_priority b <? ct_priority a
  else negb (str_ltb (ct_name b) (ct_name a)).

Fixpoint insert_trigger (t : CompiledTrigger) (l : list CompiledTrigger) : list CompiledTrigger :=
  match l with
  | [] => [t]
  | t' :: l' => if precedes t t' then t :: l else t' :: insert_trigger t l'
  end.

Definition sort_triggers (l : list CompiledTrigger) : list CompiledTrigger := foldr insert_trigger [] l.

Definition is_candidate (envelope : Envelope) (t : CompiledTrigger) : bool :=
  ct_ready t && match ct_target t with Some _ => true | None => false end &&
  match ct_sourceRef t with
  | Some s => str_empty s || bool_decide (s = env_source envelope)
  | None => true
  end.

(** What the loop over the candidates decides for one of them. *)
Inductive MatchOutcome := Wins | Passes | MatchError (error : string).

Definition match_outcome (activation : list (string * cel)) (t : CompiledTrigger) : MatchOutcome :=
  match ct_match t with
  | None => Wins
  | Some m =>
      match evaluate m activation with
      | Err e => MatchError e
      | Ok (CBool b) => if b then Wins else Passes
      | Ok _ => MatchError "match.cel yielded a non-bool value"
      end
  end.

(** The winner, and the calls of [onMatchError] before it. *)
Fixpoint pick (activation : list (string * cel)) (candidates : list CompiledTrigger) :
    option CompiledTrigger * list (string * string) :=
  match candidates with
  | [] => (None, [])
  | t :: rest =>
      match match_outcome activation t with
      | Wins => (Some t, [])
      | Passes => pick activation rest
      | MatchError e => let '(w, errors) := pick activation rest in (w, (ct_name t, e) :: errors)
      end
  end.

Definition candidates_of (triggers : list CompiledTrigger) (envelope : Envelope) : list CompiledTrigger :=
  sort_triggers (List.filter (is_candidate envelope) triggers).

(** ** The dispatch of the winner *)

Record Matched := mkMatched {
  m_trigger : string;
  m_target : TriggerTarget;
  m_params : list (string * TypedParam);
  m_stringParams : list (string * string);
  m_toolArgs : list (string * json);
  m_toolInput : string;
  m_sessionId : string;
  m_prompt : string;
  m_reply : option RenderedReply
}.

Inductive SelectResult :=
| Ignored
| Failed (trigger error : string)
| Selected (m : Matched).

(** [err.message] of an error of the value conversions. *)
Definition value_error (e : ValueError) : string :=
  match e with
  | UnsupportedType t => "unsupported CEL value type " +:+ t
  | NonFinite x => "non-finite double " +:+ number_toString x +:+ " is not representable as JSON"
  | NotAParam m => m
  end.

Record ResolvedParam := mkResolvedParam {
  rp_name : string;
  rp_raw : cel;
  rp_typed : TypedParam;
  rp_string : string;
  rp_json : json
}.

Definition resolve_param (activation : list (string * cel)) (p : string * CompiledExpression) : result string ResolvedParam :=
  match evaluate p.2 activation with
  | Err e => Err ("params." +:+ p.1 +:+ ": " +:+ e)
  | Ok v =>
      match toTypedParam v, paramToString v, toJsonValue v with
      | Err e, _, _ | _, Err e, _ | _, _, Err e => Err (value_error e)
      | Ok t, Ok s, Ok j => Ok (mkResolvedParam p.1 v t s j)
      end
  end.

Definition tool_input (raw : list (string * cel)) : result ValueError string :=
  match raw with
  | [(name, v)] => if decide (name = "input") then paramToString v else canonicalJson (CMap raw)
  | _ => canonicalJson (CMap raw)
  end.

Definition MAX_SAFE_INTEGER : Z := 2 ^ 53 - 1.

(** [/^[0-9]+$/], a safe integer, not zero: on digits, [Number] is a safe
    integer exactly when the number written is one. *)
Definition issue_number (issue : string) : option Z :=
  if all_digits issue && negb (str_empty issue) && (digits_value issue <=? MAX_SAFE_INTEGER)
     && negb (digits_value issue =? 0)
  then Some (digits_value issue) else None.

(** A template rendered when the option is set and not empty. *)
Definition render_opt (o : option string) (raw : list (string * cel)) : result ValueError (option string) :=
  match truthy_opt o with
  | Some t => let? s := renderTemplate t raw in Ok (Some s)
  | None => Ok None
  end.

Definition issue_refused (issue : string) : string :=
  "reply.github.issueNumber rendered to " +:+ json_quote issue +:+ ", not a positive integer".

(** An inner [Err] is the message of a refused issue number. *)
Definition render_github (g : GitHubReplySpec) (raw : list (string * cel)) :
    result ValueError (result string RenderedGitHub) :=
  let? issue := renderTemplate (gh_issueNumber g ?? EmptyString) raw in
  match issue_number issue with
  | None => Ok (Err (issue_refused issue))
  | Some n =>
      let? repository := renderTemplate (gh_repository g ?? EmptyString) raw in
      let? ack := render_opt (gh_ack g) raw in
      let? label := render_opt (gh_removeLabel g) raw in
      Ok (Ok (mkRenderedGitHub repository n ack (gh_sessionPage g) (gh_result g) label))
  end.

(** [renderReply]: nothing, a reply, or the refusal of the issue number. *)
Definition renderReply (spec : option EventTriggerReplySpec) (raw : list (string * cel)) :
    result ValueError (result string (option RenderedReply)) :=
  match spec with
  | None | Some (mkReplySpec None None) => Ok (Ok None)
  | Some spec =>
      match reply_github spec with
      | None => Ok (Ok (Some (mkRenderedReply None (reply_http spec))))
      | Some g =>
          let? github := render_github g raw in
          match github with
          | Err e => Ok (Err e)
          | Ok github => Ok (Ok (Some (mkRenderedReply (Some github) (reply_http spec))))
          end
      end
  end.

(** The rest of [selectTrigger] once the winner is known. [Err] is a throw out
    of the function, which [dispatch_never_throws] excludes. *)
Definition dispatch (winner : CompiledTrigger) (target : TriggerTarget) (envelope : Envelope)
    (activation : list (string * cel)) (callerSessionId : option string) : result ValueError SelectResult :=
  let fail := fun e => Ok (Failed (ct_name winner) e) in
  match sequence (map (resolve_param activation) (ct_params winner)) with
  | Err e => fail e
  | Ok ps =>
      let raw := map (fun p => (rp_name p, rp_raw p)) ps in
      match tool_input raw with
      | Err e => fail (value_error e)
      | Ok input =>
          let? prompt := renderTemplate (target_promptTemplate target ?? EmptyString) raw in
          let? session := renderTemplate (ct_sessionKey winner ?? EmptyString) raw in
          let sessionId :=
            if negb (str_empty session) then session
            else truthy_opt callerSessionId ?? ("event:" +:+ env_source envelope +:+ ":" +:+ env_id envelope) in
          let? reply := renderReply (ct_reply winner) raw in
          match reply with
          | Err e => fail e
          | Ok reply =>
              Ok (Selected (mkMatched (ct_name winner) target (map (fun p => (rp_name p, rp_typed p)) ps)
                    (map (fun p => (rp_name p, rp_string p)) ps) (map (fun p => (rp_name p, rp_json p)) ps)
                    input sessionId prompt reply))
          end
      end
  end.

Definition selectTrigger (triggers : list CompiledTrigger) (envelope : Envelope) (callerSessionId : option string) :
    result ValueError (SelectResult * list (string * string)) :=
  let activation := envelopeActivation envelope in
  match pick activation (candidates_of triggers envelope) with
  | (Some winner, errors) =>
      match ct_target winner with
      | Some target => let? r := dispatch winner target envelope activation callerSessionId in Ok (r, errors)
      | None => Ok (Ignored, errors)
      end
  | (None, errors) => Ok (Ignored, errors)
  end.
End Cel.

(** ** Headers *)

Inductive RawHeader :=
| HeaderText (s : string)
| HeaderTexts (l : list string)
| HeaderUndefined.

Definition ALWAYS_DROPPED_HEADERS : list string := ["authorization"; "cookie"].

Definition dropped_headers (dropNames : list string) : list string :=
  ALWAYS_DROPPED_HEADERS ++ (toLowerCase <$> List.filter (fun n => negb (str_empty n)) dropNames).

Definition header_step (drop : list string) (out : jsmap string) (h : string * RawHeader) : jsmap string :=
  let name := toLowerCase h.1 in
  let put := fun value =>
    map_set name (match map_get name out with Some prev => prev +:+ ", " +:+ value | None => value end) out in
  match h.2 with
  | HeaderUndefined => out
  | HeaderText s => if has drop name then out else put s
  | HeaderTexts l => if has drop name then out else put (join ", " l)
  end.

Definition normalizeHeaders (rawHeaders : list (string * RawHeader)) (dropNames : list string) : jsmap string :=
  foldl (header_step (dropped_headers dropNames)) [] rawHeaders.

(** ** Lemmas *)

Section Selection.
Context {program : Type}.
Variable cel_run : program -> list (string * cel) -> result string cel.
Implicit Types (t a b : CompiledTrigger program) (l : list (CompiledTrigger program)).

(** Parameters whose string form exists. *)
Definition renderable (raw : list (string * cel)) : Prop := Forall (fun p => exists s, paramToString p.2 = Ok s) raw.

Lemma own_get_elem {A : Type} k (o : list (string * A)) v : own_get k o = Some v -> (k, v) ∈ o.
Proof. apply map_get_elem_weak. Qed.

Lemma render_renderable fuel raw s : renderable raw -> exists out, render_fuel fuel raw s = Ok out.
Proof.
  intros Hraw. revert s. induction fuel as [|fuel IH]; intros s; [by eexists|]. destruct s as [|c s]; [by eexists|].
  cbn [render_fuel]. destruct (match_placeholder (String c s)) as [[name after]|].
  - assert (exists v, match own_get name raw with
      | Some v => paramToString v | None => Ok (placeholder_text (String c s) after) end = Ok v) as [v ->].
    { destruct (own_get name raw) as [v|] eqn:Hg; [|by eexists]. apply own_get_elem in Hg.
      unfold renderable in Hraw. rewrite Forall_forall in Hraw. exact (Hraw _ Hg). }
    cbn. destruct (IH after) as [out ->]. by eexists.
  - destruct (IH s) as [out ->]. by eexists.
Qed.

Lemma renderTemplate_ok raw s : renderable raw -> exists out, renderTemplate s raw = Ok out.
Proof. apply render_renderable. Qed.

Lemma render_opt_ok raw o : renderable raw -> exists out, render_opt o raw = Ok out.
Proof.
  intros Hr. unfold render_opt. destruct (truthy_opt o) as [s|]; [|by eexists].
  destruct (renderTemplate_ok raw s Hr) as [out ->]. by eexists.
Qed.

Lemma renderReply_ok raw spec : renderable raw -> exists out, renderReply spec raw = Ok out.
Proof.
  intros Hr. unfold renderReply. destruct spec as [[[g|] [h|]]|]; cbn [reply_github]; try by eexists.
  all: unfold render_github; destruct (renderTemplate_ok raw (gh_issueNumber g ?? EmptyString) Hr) as [issue ->];
    cbn; destruct (issue_number issue); [|by eexists];
    destruct (renderTemplate_ok raw (gh_repository g ?? EmptyString) Hr) as [repo ->]; cbn;
    destruct (render_opt_ok raw (gh_ack g) Hr) as [ack ->]; cbn;
    destruct (render_opt_ok raw (gh_removeLabel g) Hr) as [label ->]; cbn; by eexists.
Qed.

Lemma sequence_Forall2 {E A : Type} (rs : list (result E A)) vs :
  sequence rs = Ok vs -> Forall2 (fun r v => r = Ok v) rs vs.
Proof.
  revert vs. induction rs as [|r rs IH]; intros vs; cbn; [intros [= <-]; constructor|].
  intros (v & -> & (vs' & Hvs' & [= <-])%result_bind_Ok)%result_bind_Ok. constructor; [done|by apply IH].
Qed.

Lemma resolved_renderable activation (params : list (string * CompiledExpression program)) ps :
  sequence (map (resolve_param program cel_run activation) params) = Ok ps ->
  renderable (map (fun p => (rp_name p, rp_raw p)) ps).
Proof.
  intros H%sequence_Forall2. unfold renderable. rewrite Forall_map. remember (map _ params) as rs eqn:Hrs.
  revert params Hrs. induction H as [|r p rs ps Hr Hrest IH]; intros params Hrs; [constructor|].
  destruct params as [|q params]; [done|]. injection Hrs as -> ->. constructor; [|by eapply IH].
  unfold resolve_param in Hr. destruct (evaluate _ _ _ _) as [v|e]; [|done].
  destruct (toTypedParam v), (paramToString v) as [s|] eqn:Hs, (toJsonValue v); try done. injection Hr as <-.
  simpl. by exists s.
Qed.

Lemma dispatch_never_throws winner target envelope activation session :
  exists r, dispatch program cel_run winner target envelope activation session = Ok r.
Proof.
  unfold dispatch. destruct (sequence _) as [ps|e] eqn:Hps; [|by eexists].
  apply resolved_renderable in Hps. set (raw := map _ ps) in *.
  destruct (tool_input raw); [|by eexists].
  destruct (renderTemplate_ok raw (target_promptTemplate target ?? EmptyString) Hps) as [prompt ->]; cbn.
  destruct (renderTemplate_ok raw (ct_sessionKey _ winner ?? EmptyString) Hps) as [key ->]; cbn.
  destruct (renderReply_ok raw (ct_reply _ winner) Hps) as [[reply|e] ->]; by eexists.
Qed.

(** ** The order of the candidates *)

Lemma precedes_total a b : precedes _ a b = false -> precedes _ b a = true.
Proof.
  unfold precedes. rewrite (Z.eqb_sym (ct_priority _ b)). destruct (Z.eqb_spec (ct_priority _ a) (ct_priority _ b)); cbn.
  - intros H%negb_false_iff. by rewrite (str_ltb_asym _ _ H).
  - rewrite Z.ltb_ge, Z.ltb_lt. lia.
Qed.

Lemma precedes_antisym a b : ct_name _ a <> ct_name _ b -> precedes _ a b = true -> precedes _ b a = false.
Proof.
  unfold precedes. intros Hne. rewrite (Z.eqb_sym (ct_priority _ b)).
  destruct (Z.eqb_spec (ct_priority _ a) (ct_priority _ b)); cbn.
  - rewrite negb_true_iff, negb_false_iff. intros H. apply str_ltb_total; congruence.
  - rewrite Z.ltb_lt, Z.ltb_ge. lia.
Qed.

Lemma precedes_trans a b c : precedes _ a b = true -> precedes _ b c = true -> precedes _ a c = true.
Proof.
  unfold precedes.
  destruct (Z.eqb_spec (ct_priority _ a) (ct_priority _ b)) as [E1|E1], (Z.eqb_spec (ct_priority _ b) (ct_priority _ c)) as [E2|E2],
    (Z.eqb_spec (ct_priority _ a) (ct_priority _ c)) as [E3|E3]; cbn; rewrite ?Z.ltb_lt; intros H1 H2; try lia.
  apply negb_true_iff in H1, H2. apply negb_true_iff. destruct (str_ltb (ct_name _ c) (ct_name _ a)) eqn:E; [|done].
  destruct (decide (ct_name _ a = ct_name _ b)) as [Hab|Hab]; [congruence|].
  assert (str_ltb (ct_name _ a) (ct_name _ b) = true) as Hlt by (apply str_ltb_total; congruence).
  by rewrite (str_ltb_trans _ _ _ E Hlt) in H2.
Qed.

Lemma insert_trigger_comm a b l :
  ct_name _ a <> ct_name _ b -> insert_trigger _ a (insert_trigger _ b l) = insert_trigger _ b (insert_trigger _ a l).
Proof.
  intros Hne. induction l as [|c l IH]; cbn.
  - destruct (precedes _ a b) eqn:E; [by rewrite (precedes_antisym _ _ Hne E)|]. by rewrite (precedes_total _ _ E).
  - destruct (precedes _ b c) eqn:Eb, (precedes _ a c) eqn:Ea; cbn; rewrite ?Ea, ?Eb; try done.
    + destruct (precedes _ a b) eqn:E; [by rewrite (precedes_antisym _ _ Hne E)|]. by rewrite (precedes_total _ _ E).
    + destruct (precedes _ a b) eqn:E; [by rewrite (precedes_trans _ _ _ E Eb) in Ea|done].
    + destruct (precedes _ b a) eqn:E; [by rewrite (precedes_trans _ _ _ E Ea) in Eb|done].
    + by rewrite IH.
Qed.

Lemma sort_triggers_perm l1 l2 :
  l1 ≡ₚ l2 -> NoDup (ct_name _ <$> l1) -> sort_triggers _ l1 = sort_triggers _ l2.
Proof.
  unfold sort_triggers. induction 1 as [|x l1 l2 Hp IH|x y l|l1 l2 l3 H1 IH1 H2 IH2]; csimpl; intros Hnd; [done| | |].
  - apply NoDup_cons in Hnd as [_ Hnd]. by rewrite IH.
  - apply NoDup_cons in Hnd as [Hx _]. apply insert_trigger_comm. intros Heq. apply Hx. rewrite Heq. by left.
  - rewrite IH1, IH2; [done| |done]. by rewrite <- (fmap_Permutation (ct_name _) _ _ H1).
Qed.

Lemma filter_perm (p : CompiledTrigger program -> bool) l1 l2 : l1 ≡ₚ l2 -> List.filter p l1 ≡ₚ List.filter p l2.
Proof.
  induction 1 as [|x l1 l2 Hp IH|x y l|l1 l2 l3 H1 IH1 H2 IH2]; cbn; [done| | |by etransitivity].
  - destruct (p x); by rewrite ?IH.
  - destruct (p x), (p y); try done. apply Permutation_swap.
Qed.

Lemma filter_names_NoDup (p : CompiledTrigger program -> bool) l :
  NoDup (ct_name _ <$> l) -> NoDup (ct_name _ <$> List.filter p l).
Proof.
  induction l as [|x l IH]; csimpl; [done|]. intros [Hx Hl]%NoDup_cons. destruct (p x); csimpl; [|by apply IH].
  apply NoDup_cons. split; [|by apply IH]. intros (y & Hy & Hin)%list_elem_of_fmap. apply Hx. rewrite Hy.
  apply list_elem_of_fmap. exists y. split; [done|]. apply list_elem_of_In, List.filter_In in Hin as [Hin _].
  by apply list_elem_of_In.
Qed.

Lemma insert_trigger_elem t x l : x ∈ insert_trigger _ t l <-> x = t \/ x ∈ l.
Proof.
  induction l as [|y l IH]; cbn; [set_solver|]. destruct (precedes _ t y); set_solver.
Qed.

Lemma sort_triggers_elem x l : x ∈ sort_triggers _ l <-> x ∈ l.
Proof. induction l as [|y l IH]; cbn; [done|]. rewrite insert_trigger_elem, IH. set_solver. Qed.

Lemma sort_triggers_sorted l : StronglySorted (fun a b => precedes _ a b = true) (sort_triggers _ l).
Proof.
  induction l as [|x l IH]; [constructor|]. revert IH.
  change (sort_triggers _ (x :: l)) with (insert_trigger program x (sort_triggers program l)).
  generalize (sort_triggers program l). intros s.
  induction s as [|z s IHs]; intros Hs; cbn.
  { by repeat constructor. }
  destruct (StronglySorted_inv Hs) as [Hs' Hz]. destruct (precedes _ x z) eqn:E.
  - constructor; [done|]. constructor; [done|]. eapply Forall_impl; [exact Hz|]. intros u Hu.
    by eapply precedes_trans.
  - constructor; [by apply IHs|]. rewrite Forall_forall in Hz |- *. intros u [->|Hu]%insert_trigger_elem; [|by apply Hz].
    by apply precedes_total.
Qed.

(** The loop returns the first candidate that wins. *)
Lemma pick_Some activation l t errors :
  pick program cel_run activation l = (Some t, errors) ->
  exists l1 l2, l = l1 ++ t :: l2 /\ match_outcome program cel_run activation t = Wins /\
    forall t', t' ∈ l1 -> match_outcome program cel_run activation t' <> Wins.
Proof.
  revert errors. induction l as [|x l IH]; intros errors; cbn; [done|].
  destruct (match_outcome program cel_run activation x) eqn:Hx.
  - intros [= <- <-]. exists [], l. split_and!; [done..|]. by intros t' ?%elem_of_nil.
  - intros (l1 & l2 & -> & Hw & Hl)%IH. exists (x :: l1), l2. split_and!; [done..|].
    intros t' [->|Ht']%elem_of_cons; [congruence|by apply Hl].
  - destruct (pick _ _ activation l) as [w es] eqn:Hp. intros [= -> <-].
    destruct (IH es eq_refl) as (l1 & l2 & -> & Hw & Hl). exists (x :: l1), l2. split_and!; [done..|].
    intros t' [->|Ht']%elem_of_cons; [congruence|by apply Hl].
Qed.

Lemma pick_None activation l errors :
  pick program cel_run activation l = (None, errors) ->
  forall t, t ∈ l -> match_outcome program cel_run activation t <> Wins.
Proof.
  revert errors. induction l as [|x l IH]; intros errors; cbn; [by intros _ t ?%elem_of_nil|].
  destruct (match_outcome program cel_run activation x) eqn:Hx; [done| |].
  - intros Hp t [->|Ht]%elem_of_cons; [congruence|by eapply IH].
  - destruct (pick _ _ activation l) as [w es] eqn:Hp. intros [= -> _] t [->|Ht]%elem_of_cons; [congruence|].
    by apply (IH es eq_refl).
Qed.

Lemma candidates_elem triggers envelope t :
  t ∈ candidates_of program triggers envelope <-> t ∈ triggers /\ is_candidate program envelope t = true.
Proof.
  unfold candidates_of. rewrite sort_triggers_elem, list_elem_of_In, List.filter_In, <- list_elem_of_In. done.
Qed.
End Selection.

Definition result_trigger (r : SelectResult) : option string :=
  match r with
  | Ignored => None
  | Failed n _ => Some n
  | Selected m => Some (m_trigger m)
  end.

Section Winner.
Context {program : Type}.
Variable cel_run : program -> list (string * cel) -> result string cel.

Lemma dispatch_names winner target envelope activation session r :
  dispatch program cel_run winner target envelope activation session = Ok r ->
  result_trigger r = Some (ct_name program winner).
Proof.
  unfold dispatch. destruct (sequence _) as [ps|e]; [|by intros [= <-]].
  destruct (tool_input _); [|by intros [= <-]].
  intros (prompt & _ & (key & _ & (reply & _ & Hr)%result_bind_Ok)%result_bind_Ok)%result_bind_Ok.
  destruct reply; by injection Hr as <-.
Qed.

Lemma precedes_refl (t : CompiledTrigger program) : precedes program t t = true.
Proof.
  unfold precedes. rewrite Z.eqb_refl. cbn. destruct (str_ltb _ _) eqn:E; [|done].
  by rewrite (str_ltb_asym _ _ E) in E.
Qed.

(** Ready, with a target, and bound to the source of the envelope or to none. *)
Definition bound_to (envelope : Envelope) (t : CompiledTrigger program) : Prop :=
  ct_ready program t = true /\ is_Some (ct_target program t) /\
  forall s, ct_sourceRef program t = Some s -> s = EmptyString \/ s = env_source envelope.

Lemma is_candidate_bound envelope t : is_candidate program envelope t = true <-> bound_to envelope t.
Proof.
  unfold is_candidate, bound_to. rewrite !andb_true_iff. destruct (ct_target program t), (ct_sourceRef program t) as [s|].
  - rewrite orb_true_iff, bool_decide_eq_true, str_empty_true. split; [|naive_solver].
    intros [[Hr _] Hs]. split_and!; [done|by eexists|]. by intros ? [= <-].
  - split; [|naive_solver]. intros [[Hr _] _]. split_and!; [done|by eexists|done].
  - split; [naive_solver|]. by intros (_ & [? ?] & _).
  - split; [naive_solver|]. by intros (_ & [? ?] & _).
Qed.

Lemma precedes_spec t t' : precedes program t t' = true <->
  ct_priority program t' < ct_priority program t \/
  ct_priority program t' = ct_priority program t /\ str_ltb (ct_name program t') (ct_name program t) = false.
Proof.
  unfold precedes. destruct (Z.eqb_spec (ct_priority program t) (ct_priority program t')); cbn.
  - rewrite negb_true_iff. intuition lia.
  - rewrite Z.ltb_lt. intuition lia.
Qed.

(** In a sorted list, the first winner precedes every other winner. *)
Lemma sorted_first_best (P : CompiledTrigger program -> Prop) l1 t l2 :
  StronglySorted (fun a b => precedes program a b = true) (l1 ++ t :: l2) ->
  (forall t', t' ∈ l1 -> ~ P t') -> forall t', t' ∈ l1 ++ t :: l2 -> P t' -> precedes program t t' = true.
Proof.
  intros Hs Hl t' [Ht'|[->|Ht']%elem_of_cons]%elem_of_app HP.
  - by destruct (Hl _ Ht').
  - apply precedes_refl.
  - induction l1 as [|x l1 IH]; cbn in Hs.
    + apply StronglySorted_inv in Hs as [_ Hall]. rewrite Forall_forall in Hall. by apply Hall.
    + apply StronglySorted_inv in Hs as [Hs _]. apply IH; [done|]. intros u Hu. apply Hl. by right.
Qed.
End Winner.

(** The values a request carries for the lower-cased name [k], in order. *)
Definition header_values (k : string) (rawHeaders : list (string * RawHeader)) : list string :=
  omap (fun h => if decide (toLowerCase h.1 = k)
                 then match h.2 with HeaderText s => Some s | HeaderTexts l => Some (join ", " l) | HeaderUndefined => None end
                 else None) rawHeaders.

Definition joined (vs : list string) : option string :=
  match vs with
  | [] => None
  | _ => Some (join ", " vs)
  end.

Lemma joined_snoc vs v :
  joined (vs ++ [v]) = Some (match joined vs with Some p => p +:+ ", " +:+ v | None => v end).
Proof.
  destruct vs as [|x vs]; [done|]. cbn [joined app]. f_equal. by apply (join_app ", " (x :: vs) [v]).
Qed.

Lemma header_step_get drop out h k :
  map_get k (header_step drop out h) =
  match header_values k [h] with
  | [v] => if has drop k then map_get k out
           else Some (match map_get k out with Some p => p +:+ ", " +:+ v | None => v end)
  | _ => map_get k out
  end.
Proof.
  unfold header_step, header_values. cbn. destruct h as [n [s|l|]]; cbn; case_decide as Hk; subst; try done.
  1,3: destruct (has drop _); [done|]; apply map_get_set_eq.
  1,2: destruct (has drop _); [done|]; by apply map_get_set_ne.
Qed.

Lemma header_fold_get drop rawHeaders k before out :
  map_get k out = (if has drop k then None else joined (header_values k before)) ->
  map_get k (foldl (header_step drop) out rawHeaders) =
  if has drop k then None else joined (header_values k (before ++ rawHeaders)).
Proof.
  revert before out. induction rawHeaders as [|h raw IH]; intros before out Hout; [by rewrite app_nil_r|].
  cbn [foldl]. rewrite cons_middle, app_assoc. apply IH. rewrite header_step_get.
  assert (header_values k (before ++ [h]) = header_values k before ++ header_values k [h]) as -> by apply omap_app.
  assert (header_values k [h] = [] \/ exists v, header_values k [h] = [v]) as [->|[v ->]].
  { unfold header_values. cbn. destruct (if decide _ then _ else _) as [v|]; [right; by exists v|by left]. }
  - by rewrite app_nil_r.
  - rewrite Hout. destruct (has drop k); [done|]. by rewrite joined_snoc.
Qed.

Lemma dropped_headers_spec (dropNames : list string) (k : string) :
  has (dropped_headers dropNames) k = true <->
  k = "authorization" \/ k = "cookie" \/ exists n, n ∈ dropNames /\ n <> EmptyString /\ k = toLowerCase n.
Proof.
  rewrite has_true. unfold dropped_headers, ALWAYS_DROPPED_HEADERS. rewrite elem_of_app, list_elem_of_fmap.
  assert (forall n, n ∈ List.filter (fun n => negb (str_empty n)) dropNames <-> n ∈ dropNames /\ n <> EmptyString) as Hf.
  { intros n. rewrite list_elem_of_In, List.filter_In, <- list_elem_of_In. destruct n; cbn; naive_solver. }
  setoid_rewrite Hf. set_solver.
Qed.

#[local] Instance dropped_dec (dropNames : list string) (k : string) :
  Decision (k = "authorization" \/ k = "cookie" \/ exists n, n ∈ dropNames /\ n <> EmptyString /\ k = toLowerCase n).
Proof.
  destruct (has (dropped_headers dropNames) k) eqn:H.
  - left. by apply dropped_headers_spec.
  - right. rewrite <- dropped_headers_spec. congruence.
Defined.

(** ** Properties *)

(** [selectTrigger] never throws, as its comment promises: whatever the
    compiled triggers, the envelope, and the values the CEL evaluator returns
    (values of unsupported types and non-finite doubles included), it returns a
    result. Conversion failures of the winner's parameters become a [Failed]
    result before any template is rendered. *)
Theorem selectTrigger_never_throws (program : Type)
    (cel_run : program -> list (string * cel) -> result string cel)
    (triggers : list (CompiledTrigger program)) (envelope : Envelope) (session : option string) :
  exists r, selectTrigger program cel_run triggers envelope session = Ok r.
Proof.
  unfold selectTrigger. destruct (pick _ _ _ _) as [[w|] errors]; [|by eexists].
  destruct (ct_target _ w) as [target|]; [|by eexists].
  destruct (dispatch_never_throws cel_run w target envelope (envelopeActivation envelope) session) as [r ->].
  by eexists.
Qed.

(** The outcome does not depend on the order in which the triggers arrive
    (a watch or a list call delivers them in any order): for triggers of
    distinct names, two orders of the same set give the same winner, the same
    dispatch and the same match errors in the same order. *)
Theorem selectTrigger_order_independent (program : Type)
    (cel_run : program -> list (string * cel) -> result string cel)
    (triggers triggers' : list (CompiledTrigger program)) (envelope : Envelope) (session : option string)
    (Hperm : triggers ≡ₚ triggers') (Hnames : NoDup (ct_name program <$> triggers)) :
  selectTrigger program cel_run triggers envelope session =
  selectTrigger program cel_run triggers' envelope session.
Proof.
  unfold selectTrigger. assert (candidates_of program triggers envelope = candidates_of program triggers' envelope) as ->; [|done].
  apply sort_triggers_perm; [by apply filter_perm|by apply filter_names_NoDup].
Qed.

(** C34: the result names the right trigger. When an event is dispatched (or
    its dispatch fails), the trigger named is one of those given, is ready, is
    bound to the envelope's source or to none, its match holds, and it
    precedes (higher priority, then smaller name) every other candidate whose
    match holds. When the event is ignored, no candidate's match holds. *)
Theorem selectTrigger_best (program : Type)
    (cel_run : program -> list (string * cel) -> result string cel)
    (triggers : list (CompiledTrigger program)) (envelope : Envelope) (session : option string)
    (r : SelectResult) (errors : list (string * string))
    (Hr : selectTrigger program cel_run triggers envelope session = Ok (r, errors)) :
  let wins := fun t => t ∈ triggers /\ bound_to envelope t /\
    match_outcome program cel_run (envelopeActivation envelope) t = Wins in
  match result_trigger r with
  | Some name => exists t, wins t /\ ct_name program t = name /\
      forall t', wins t' -> ct_priority program t' < ct_priority program t \/
        ct_priority program t' = ct_priority program t /\ str_ltb (ct_name program t') (ct_name program t) = false
  | None => forall t, ~ wins t
  end.
Proof.
  intros wins. unfold selectTrigger in Hr.
  destruct (pick _ _ _ _) as [[w|] es] eqn:Hp; cbn in Hr.
  - apply pick_Some in Hp as (l1 & l2 & Hl & Hw & Hno).
    assert (w ∈ triggers /\ is_candidate program envelope w = true) as [Hin Hc].
    { apply candidates_elem. rewrite Hl. set_solver. }
    apply is_candidate_bound in Hc as Hb.
    destruct (ct_target _ w) as [target|] eqn:Ht.
    2: { by destruct Hb as (_ & [? ?] & _); simplify_eq. }
    apply result_bind_Ok in Hr as (r' & Hd & [= <- <-]). rewrite (dispatch_names _ _ _ _ _ _ _ Hd).
    exists w. split_and!; [done..|]. intros t' (Hin' & Hc'%is_candidate_bound & Hw').
    apply precedes_spec.
    apply (sorted_first_best (fun t => match_outcome program cel_run (envelopeActivation envelope) t = Wins) l1 w l2).
    + rewrite <- Hl. apply sort_triggers_sorted.
    + exact Hno.
    + rewrite <- Hl. by apply candidates_elem.
    + exact Hw'.
  - injection Hr as <- <-. cbn. intros t (Hin & Hc%is_candidate_bound & Hw). eapply pick_None; [exact Hp| |exact Hw].
    by apply candidates_elem.
Qed.

(** The headers of an envelope, exactly: the entry of a name is the values
    of every request header with that name in any letter case, in order and
    joined with a comma, and nothing at all for [authorization], [cookie] and
    each non-empty name the caller drops, in any letter case. *)
Theorem normalizeHeaders_spec (rawHeaders : list (string * RawHeader)) (dropNames : list string) (k : string) :
  map_get k (normalizeHeaders rawHeaders dropNames) =
  if decide (k = "authorization" \/ k = "cookie" \/ exists n, n ∈ dropNames /\ n <> EmptyString /\ k = toLowerCase n)
  then None else joined (header_values k rawHeaders).
Proof.
  unfold normalizeHeaders.
  rewrite (header_fold_get _ rawHeaders k [] []) by (cbn; by destruct (has _ _)).
  cbn [app]. destruct (has (dropped_headers dropNames) k) eqn:Hd.
  - rewrite decide_True; [done|]. by apply dropped_headers_spec.
  - rewrite decide_False; [done|]. intros H%dropped_headers_spec. congruence.
Qed.

(** ** Witnesses, with a CEL evaluator that looks a variable up *)

Definition lookup_run (p : string) (activation : list (string * cel)) : result string cel :=
  match own_get p activation with
  | Some v => Ok v
  | None => Err ("Unknown variable: " +:+ p)
  end.

Definition sample_trigger (name : string) (priority : Z) (variable : string) : CompiledTrigger string :=
  mkTrigger string name (Some "github") priority true None
    (Some (mkCompiled string variable "dyn" variable))
    [("title", mkCompiled string "source" "string" "source")] None
    (Some (mkTarget tk_agent (Some "triage") false (Some "Look at {{ title }}"))) None.

Definition sample_envelope : Envelope :=
  mkEnvelope "github" webhook "d-1" "2026-10-13T12:00:00Z" [] (JBool true) [] "o/r".

Definition sample_triggers : list (CompiledTrigger string) :=
  [sample_trigger "low" 1 "body"; sample_trigger "b" 5 "body"; sample_trigger "a" 5 "body"; sample_trigger "top" 9 "repository"].

Lemma selectTrigger_order_independent_witness :
  selectTrigger string lookup_run sample_triggers sample_envelope None =
  selectTrigger string lookup_run (reverse sample_triggers) sample_envelope None.
Proof.
  apply (selectTrigger_order_independent string lookup_run sample_triggers (reverse sample_triggers) sample_envelope None).
  - symmetry. apply reverse_Permutation.
  - apply (bool_decide_eq_true_1 _). vm_compute. reflexivity.
Defined.

Lemma selectTrigger_best_witness :
  exists r errors, selectTrigger string lookup_run sample_triggers sample_envelope None = Ok (r, errors) /\
    result_trigger r = Some "a" /\ errors = [("top", "match.cel yielded a non-bool value")] /\
    exists t, ct_name string t = "a" /\
      forall t', t' ∈ sample_triggers /\ bound_to sample_envelope t' /\
        match_outcome string lookup_run (envelopeActivation sample_envelope) t' = Wins ->
        ct_priority string t' < ct_priority string t \/
        ct_priority string t' = ct_priority string t /\ str_ltb (ct_name string t') (ct_name string t) = false.
Proof.
  eexists _, _. split; [vm_compute; reflexivity|]. split; [reflexivity|]. split; [reflexivity|].
  destruct (selectTrigger_best string lookup_run sample_triggers sample_envelope None _ _ ltac:(vm_compute; reflexivity))
    as (t & _ & Hn & Hbest).
  exists t. split; [exact Hn|exact Hbest].
Defined.
