(* ===== verification/AgentRuntime.v ===== *)
(** * Agent runtime: one run of a sub-agent (packages/agent-runtime/src/runtime.ts)

    [runAgent] as a step relation, over the messages of
    packages/messaging/src/agent-protocol.ts. The state holds the variables of
    [runAgent], the concluding messages being held for an ack, and the log of
    what was handed to the channel. The handler is any program: it may call the
    session at any time once it runs, and return or throw when it likes.

    A held message is a loop that suspends at an await: [Offering] awaits the
    channel, [Parked] awaits its timer or a wake-up, [Woken] has been resumed
    and not run yet. Times are milliseconds. *)

From stdpp Require Import base gmap strings list sorting.
From Stdlib Require Import ZArith Lia.
From S2P Require Import Prelude JsString JsNumber Json JsMap.

#[local] Open Scope Z_scope.

(** ** The protocol *)

Inductive UpBody :=
| Ready
| Progress (stage : option string) (message : string) (pct : option number)
| Warning (message : string)
| Reply (message : string) (final : bool) (result : option json)
| Failed (code message : string)
| OpencodeEvent (event : option json)
| OpencodeResponse (requestId : string) (status : Z) (body : option json)
| SessionIdle (liveUntil : string)
| SessionEnded (reason : string)
| ToolCall (callId tool input : string).

Record AgentUpMessage := mkUp {
  up_run : string;
  up_seq : nat;
  up_ts : Z;
  up_body : UpBody
}.

Inductive AgentDownMessage :=
| Prompt (message : string)
| Cancel (reason : option string)
| Signal (name : string) (data : option json)
| OpencodeRequest (requestId method path : string) (body : option json)
| ReplyAck (ackSeq : nat)
| ToolResult (callId : string) (ok : bool) (result : option json) (error : option string).

(** ** The state *)

Inductive HoldPhase :=
| Offering
| Parked (fires : Z)
| Woken.

(** An entry of [holds], with the locals of its [publishHeld]. *)
Record Hold := mkHold {
  h_env : AgentUpMessage;
  h_deadline : Z;
  h_acked : bool;
  h_done : bool;
  h_phase : HoldPhase
}.

(** Where [runAgent] itself is. [Publishing b] awaits a concluding message that
    is not held; [b] says that it is the reply, inside the [try]. *)
Inductive MainPhase :=
| Booting
| Running
| Concluding (seq : nat)
| Publishing (reply : bool)
| Closed
| Rejected.

(** What the promises given to the handler settled to. *)
Inductive Settlement :=
| AskAnswered (seq : nat) (answer : string)
| AskCancelled (seq : nat) (reason : option string)
| AskRefused
| ToolResolved (callId : string) (result : option json)
| ToolFailed (callId message : string)
| ToolCancelled (callId : string) (reason : option string)
| ToolRefused.

Record RunState := mkRun {
  clock : Z;
  next_seq : nat;
  aborted : bool;
  pendingAsk : option nat;
  holds : list Hold;
  pendingToolCalls : list string;
  published : list AgentUpMessage;
  settled : list Settlement;
  main : MainPhase
}.

(** What a handler threw, by what the [catch] looks at: its class, whether it is
    an [AgentFailure] (by class or by name), and its [code] if that is a string. *)
Record Thrown := mkThrown {
  th_cancelled : bool;
  th_agentFailure : bool;
  th_code : option string;
  th_config : bool;
  th_message : string
}.

Definition REPLY_ACK_RETRY_MS : Z := 10000.
Definition REPLY_ACK_TIMEOUT_MS : Z := 10 * 60 * 1000.

Definition hold_seq (h : Hold) : nat := up_seq (h_env h).

(** [setTimeout] takes a delay outside 1 .. 2^31 - 1 as 1. *)
Definition timer_delay (ms : Z) : Z := if (1 <=? ms) && (ms <=? 2 ^ 31 - 1) then ms else 1.

Section Runtime.
Variable runId : string.
(** [retryMs] and [timeoutMs] of [publishHeld]. *)
Variable retryMs : Z.
Variable timeoutMs : Z.

(** ** Publishing *)

Definition publish (m : AgentUpMessage) (s : RunState) : RunState :=
  mkRun (clock s) (next_seq s) (aborted s) (pendingAsk s) (holds s) (pendingToolCalls s)
    (published s ++ [m]) (settled s) (main s).

Definition envelope (n : nat) (body : UpBody) (s : RunState) : AgentUpMessage := mkUp runId n (clock s) body.

(** [seq++]. *)
Definition bump (s : RunState) : RunState :=
  mkRun (clock s) (S (next_seq s)) (aborted s) (pendingAsk s) (holds s) (pendingToolCalls s)
    (published s) (settled s) (main s).

Definition publishUp (body : UpBody) (s : RunState) : RunState :=
  publish (envelope (next_seq s) body s) (bump s).

Definition set_holds (hs : list Hold) (s : RunState) : RunState :=
  mkRun (clock s) (next_seq s) (aborted s) (pendingAsk s) hs (pendingToolCalls s) (published s) (settled s) (main s).

Definition set_main (m : MainPhase) (s : RunState) : RunState :=
  mkRun (clock s) (next_seq s) (aborted s) (pendingAsk s) (holds s) (pendingToolCalls s) (published s) (settled s) m.

Definition set_pendingAsk (a : option nat) (s : RunState) : RunState :=
  mkRun (clock s) (next_seq s) (aborted s) a (holds s) (pendingToolCalls s) (published s) (settled s) (main s).

Definition set_tools (l : list string) (s : RunState) : RunState :=
  mkRun (clock s) (next_seq s) (aborted s) (pendingAsk s) (holds s) l (published s) (settled s) (main s).

Definition set_aborted (s : RunState) : RunState :=
  mkRun (clock s) (next_seq s) true (pendingAsk s) (holds s) (pendingToolCalls s) (published s) (settled s) (main s).

Definition settle (l : list Settlement) (s : RunState) : RunState :=
  mkRun (clock s) (next_seq s) (aborted s) (pendingAsk s) (holds s) (pendingToolCalls s)
    (published s) (settled s ++ l) (main s).

(** [publishHeld] with its sequence number, up to its first await. *)
Definition publishHeld (body : UpBody) (allocatedSeq : nat) (s : RunState) : RunState :=
  let env := envelope allocatedSeq body s in
  if timeoutMs =? 0 then publish env s
  else publish env (set_holds (holds s ++ [mkHold env (clock s + timeoutMs) false false Offering]) s).

(** The loop's condition. *)
Definition keeps_offering (h : Hold) (s : RunState) : bool :=
  negb (h_acked h) && negb (h_done h) && negb (aborted s) && (clock s <? h_deadline h).

(** [publishHeld] resumed: after an offer the loop parks, after a wake-up it
    offers again, and when its condition fails it ends and leaves the map. *)
Definition hold_resume (before after : list Hold) (h : Hold) (s : RunState) : RunState :=
  if keeps_offering h s then
    match h_phase h with
    | Offering =>
        set_holds (before ++ mkHold (h_env h) (h_deadline h) (h_acked h) (h_done h)
                               (Parked (clock s + timer_delay retryMs)) :: after) s
    | _ =>
        publish (h_env h)
          (set_holds (before ++ mkHold (h_env h) (h_deadline h) (h_acked h) (h_done h) Offering :: after) s)
    end
  else
    let s := set_holds (before ++ after) s in
    match main s with
    | Concluding n => if decide (n = hold_seq h) then set_main Closed s else s
    | _ => s
    end.

(** [hold.wake?.()]. *)
Definition wake (phase : HoldPhase) : HoldPhase :=
  match phase with
  | Parked _ => Woken
  | phase => phase
  end.

Definition mark_done (h : Hold) : Hold := mkHold (h_env h) (h_deadline h) (h_acked h) true (wake (h_phase h)).

Definition mark_acked (h : Hold) : Hold := mkHold (h_env h) (h_deadline h) true (h_done h) (wake (h_phase h)).

(** The update of the entry of [n], if [holds] has one. *)
Definition update_hold (n : nat) (f : Hold -> Hold) (s : RunState) : RunState :=
  set_holds (map (fun h => if decide (hold_seq h = n) then f h else h) (holds s)) s.

Definition releaseHold (n : nat) : RunState -> RunState := update_hold n mark_done.

(** ** Messages from the orchestrator *)

Definition onCancel (reason : option string) (s : RunState) : RunState :=
  let s := set_aborted s in
  let s := match pendingAsk s with
           | Some n => settle [AskCancelled n reason] (set_pendingAsk None s)
           | None => s
           end in
  let s := settle (map (fun callId => ToolCancelled callId reason) (pendingToolCalls s)) (set_tools [] s) in
  foldl (fun s n => releaseHold n s) s (map hold_seq (holds s)).

Definition onDown (msg : AgentDownMessage) (s : RunState) : RunState :=
  match msg with
  | Prompt message =>
      match pendingAsk s with
      | Some n => settle [AskAnswered n message] (releaseHold n (set_pendingAsk None s))
      | None => s
      end
  | ToolResult callId ok result error =>
      if decide (callId ∈ pendingToolCalls s) then
        let s := set_tools (filter (fun c => c <> callId) (pendingToolCalls s)) s in
        if (ok : bool) then settle [ToolResolved callId result] s
        else settle [ToolFailed callId (error ?? ("tool call " +:+ callId +:+ " failed"))] s
      else s
  | Cancel reason => onCancel reason s
  | ReplyAck n => update_hold n mark_acked s
  | Signal _ _ | OpencodeRequest _ _ _ _ => s
  end.

(** ** The session *)

Definition progress (message : string) (stage : option string) (pct : option number) : RunState -> RunState :=
  publishUp (Progress stage message pct).

Definition warn (message : string) : RunState -> RunState := publishUp (Warning message).

Definition ask (question : string) (s : RunState) : RunState :=
  if aborted s then settle [AskRefused] s
  else
    let askSeq := next_seq s in
    publishHeld (Reply question false None) askSeq (set_pendingAsk (Some askSeq) (bump s)).

(** [callId] is the [randomUUID()]. *)
Definition callTool (callId tool input : string) (s : RunState) : RunState :=
  if aborted s then settle [ToolRefused] s
  else publishUp (ToolCall callId tool input) (set_tools (pendingToolCalls s ++ [callId]) s).

(** ** The run *)

(** The state in which the [ready] message is awaited. *)
Definition boot (now : Z) : RunState :=
  publishUp Ready (mkRun now 0 false None [] [] [] [] Booting).

(** The concluding [publishHeld], awaited. *)
Definition conclude (body : UpBody) (reply : bool) (s : RunState) : RunState :=
  set_main (if timeoutMs =? 0 then Publishing reply else Concluding (next_seq s))
    (publishHeld body (next_seq s) (bump s)).

Definition handler_returns (message : string) (result : option json) (s : RunState) : RunState :=
  conclude (Reply message true result) true s.

Definition failure_code (t : Thrown) : string :=
  let declared := if th_agentFailure t then th_code t else None in
  if truthy_str declared then declared ?? EmptyString
  else if th_config t then "config_error" else "agent_error".

Definition handler_throws (t : Thrown) (s : RunState) : RunState :=
  if negb (th_cancelled t) && negb (aborted s)
  then conclude (Failed (failure_code t) (th_message t)) false s
  else set_main Closed s.

Definition tick (ms : Z) (s : RunState) : RunState :=
  mkRun (clock s + ms) (next_seq s) (aborted s) (pendingAsk s) (holds s) (pendingToolCalls s)
    (published s) (settled s) (main s).

(** ** Steps *)

(** The handler has been called, so it has the session. *)
Definition started (s : RunState) : bool :=
  match main s with
  | Booting | Rejected => false
  | _ => true
  end.

Definition call_ids (s : RunState) : list string :=
  omap (fun m => match up_body m with ToolCall callId _ _ => Some callId | _ => None end) (published s).

(** One step of a run to which only the messages of [admits] may come.
    [randomUUID()] does not repeat within a run. *)
Inductive step_with (admits : AgentDownMessage -> Prop) : RunState -> RunState -> Prop :=
| step_tick s ms : 0 < ms -> step_with admits s (tick ms s)
| step_down s msg : admits msg -> step_with admits s (onDown msg s)
| step_ready s (ok : bool) : main s = Booting -> step_with admits s (set_main (if ok then Running else Rejected) s)
| step_progress s message stage pct : started s = true -> step_with admits s (progress message stage pct s)
| step_warn s message : started s = true -> step_with admits s (warn message s)
| step_ask s question : started s = true -> step_with admits s (ask question s)
| step_callTool s callId tool input :
    started s = true -> callId ∉ call_ids s -> step_with admits s (callTool callId tool input s)
| step_return s message result : main s = Running -> step_with admits s (handler_returns message result s)
| step_throw s t : main s = Running -> step_with admits s (handler_throws t s)
| step_published s reply : main s = Publishing reply -> step_with admits s (set_main Closed s)
| step_reply_rejected s t : main s = Publishing true -> step_with admits s (handler_throws t s)
| step_failed_rejected s : main s = Publishing false -> step_with admits s (set_main Closed s)
| step_timer s before after h fires :
    holds s = before ++ h :: after -> h_phase h = Parked fires -> fires <= clock s ->
    step_with admits s (set_holds (before ++ mkHold (h_env h) (h_deadline h) (h_acked h) (h_done h) Woken :: after) s)
| step_resume s before after h :
    holds s = before ++ h :: after -> (forall fires, h_phase h <> Parked fires) ->
    step_with admits s (hold_resume before after h s).

Definition step : RunState -> RunState -> Prop := step_with (fun _ => True).

Definition reachable (s : RunState) : Prop := exists now, rtc step (boot now) s.

End Runtime.

(** ** What a consumer sees *)

(** A consumer that drops a message whose sequence number it has seen, as the
    protocol means [seq] to be used. *)
Definition accept (seen : list AgentUpMessage) (m : AgentUpMessage) : list AgentUpMessage :=
  if decide (up_seq m ∈ up_seq <$> seen) then seen else seen ++ [m].

Definition received (l : list AgentUpMessage) : list AgentUpMessage := foldl accept [] l.

Definition offers (n : nat) (l : list AgentUpMessage) : nat := length (filter (fun m => up_seq m = n) l).

(** The bodies that are held. *)
Definition is_held (b : UpBody) : bool :=
  match b with
  | Reply _ _ _ | Failed _ _ => true
  | _ => false
  end.

Lemma received_snoc l m : received (l ++ [m]) = accept (received l) m.
Proof. unfold received. by rewrite foldl_app. Qed.

Lemma offers_snoc n l m : offers n (l ++ [m]) = (offers n l + if decide (up_seq m = n) then 1 else 0)%nat.
Proof.
  unfold offers. rewrite filter_app, length_app. f_equal. destruct (decide (up_seq m = n)) as [E|E].
  - by rewrite filter_cons_True.
  - by rewrite filter_cons_False.
Qed.

(** ** The wire: sequence numbers and repetitions *)

Record wire_inv (pub : list AgentUpMessage) (next : nat) (hs : list Hold) : Prop := mkWire {
  wi_received : up_seq <$> received pub = seq 0 next;
  wi_same m : m ∈ pub -> m ∈ received pub;
  wi_holds h : h ∈ hs -> h_env h ∈ pub /\ is_held (up_body (h_env h)) = true;
  wi_keys : NoDup (hold_seq <$> hs);
  wi_once m : m ∈ pub -> is_held (up_body m) = false -> offers (up_seq m) pub = 1%nat
}.

Lemma wire_seq pub next hs m : wire_inv pub next hs -> m ∈ pub -> (up_seq m < next)%nat.
Proof.
  intros Hw Hm. assert (up_seq m ∈ seq 0 next) as Hs.
  { rewrite <- (wi_received _ _ _ Hw). apply list_elem_of_fmap. exists m. split; [done|by apply (wi_same _ _ _ Hw)]. }
  apply elem_of_seq in Hs. lia.
Qed.

Lemma wire_inj pub next hs m m' : wire_inv pub next hs -> m ∈ pub -> m' ∈ pub -> up_seq m = up_seq m' -> m = m'.
Proof.
  intros Hw [i Hi]%(wi_same _ _ _ Hw)%list_elem_of_lookup [j Hj]%(wi_same _ _ _ Hw)%list_elem_of_lookup E.
  assert (NoDup (up_seq <$> received pub)) as Hnd by (rewrite (wi_received _ _ _ Hw); apply NoDup_seq).
  assert (i = j) as ->; [|congruence].
  eapply NoDup_lookup; [exact Hnd| |]; rewrite list_lookup_fmap; [by rewrite Hi|by rewrite Hj, E].
Qed.

Lemma offers_fresh pub next hs n : wire_inv pub next hs -> (next <= n)%nat -> offers n pub = 0%nat.
Proof.
  intros Hw Hn. unfold offers. apply length_zero_iff_nil, filter_none.
  intros m Hm E. pose proof (wire_seq _ _ _ _ Hw Hm). lia.
Qed.

Lemma wire_fresh pub next hs hs' m :
  wire_inv pub next hs -> up_seq m = next ->
  (hs' = hs \/ is_held (up_body m) = true /\ exists h, h_env h = m /\ hs' = hs ++ [h]) ->
  wire_inv (pub ++ [m]) (S next) hs'.
Proof.
  intros Hw Hm Hhs. assert (received (pub ++ [m]) = received pub ++ [m]) as Hr.
  { rewrite received_snoc. unfold accept. rewrite decide_False; [done|].
    rewrite (wi_received _ _ _ Hw), elem_of_seq. lia. }
  assert (forall m', m' ∈ pub -> up_seq m' <> next) as Hne.
  { intros m' Hm'. pose proof (wire_seq _ _ _ _ Hw Hm'). lia. }
  constructor.
  - rewrite Hr, fmap_app, (wi_received _ _ _ Hw), seq_S. cbn. by rewrite Hm.
  - rewrite Hr. intros m' [Hm'|Hm']%elem_of_app; apply elem_of_app; [left; by apply (wi_same _ _ _ Hw)|by right].
  - assert (forall h, h ∈ hs -> h_env h ∈ pub ++ [m] /\ is_held (up_body (h_env h)) = true) as Hold.
    { intros h Hh. destruct (wi_holds _ _ _ Hw h Hh). split; [apply elem_of_app; by left|done]. }
    destruct Hhs as [->|(Hheld & h & Hh & ->)]; [done|].
    intros h' [Hh'| ->%list_elem_of_singleton]%elem_of_app; [by apply Hold|]. rewrite Hh. split; [set_solver|done].
  - destruct Hhs as [->|(Hheld & h & Hh & ->)]; [apply (wi_keys _ _ _ Hw)|].
    rewrite fmap_app. apply NoDup_app. split; [apply (wi_keys _ _ _ Hw)|]. split; [|apply NoDup_singleton].
    intros k (h' & E & Hh')%list_elem_of_fmap E'%list_elem_of_singleton.
    apply (wi_holds _ _ _ Hw) in Hh' as [Hh' _]. eapply Hne; [exact Hh'|]. unfold hold_seq in *. congruence.
  - intros m' [Hm'| ->%list_elem_of_singleton]%elem_of_app Hb; rewrite offers_snoc.
    + rewrite (wi_once _ _ _ Hw _ Hm' Hb), decide_False; [done|]. rewrite Hm. intros E. by apply (Hne _ Hm').
    + rewrite decide_True by done. rewrite (offers_fresh _ _ _ _ Hw); lia.
Qed.

Lemma wire_again pub next hs h :
  wire_inv pub next hs -> h ∈ hs -> wire_inv (pub ++ [h_env h]) next hs.
Proof.
  intros Hw Hh. destruct (wi_holds _ _ _ Hw h Hh) as [Hp Hheld].
  assert (received (pub ++ [h_env h]) = received pub) as Hr.
  { rewrite received_snoc. unfold accept. rewrite decide_True; [done|].
    apply list_elem_of_fmap. exists (h_env h). split; [done|by apply (wi_same _ _ _ Hw)]. }
  constructor.
  - by rewrite Hr, (wi_received _ _ _ Hw).
  - rewrite Hr. intros m' [Hm'| ->%list_elem_of_singleton]%elem_of_app; by apply (wi_same _ _ _ Hw).
  - intros h' Hh'. destruct (wi_holds _ _ _ Hw h' Hh'). split; [apply elem_of_app; by left|done].
  - apply (wi_keys _ _ _ Hw).
  - intros m' [Hm'| ->%list_elem_of_singleton]%elem_of_app Hb; [|congruence].
    rewrite offers_snoc, (wi_once _ _ _ Hw _ Hm' Hb), decide_False; [done|]. intros E.
    rewrite (wire_inj _ _ _ _ _ Hw Hp Hm' E) in Hheld. congruence.
Qed.

(** The holds may lose entries and change everything but their messages. *)
Lemma wire_holds pub next hs hs' :
  wire_inv pub next hs -> sublist (h_env <$> hs') (h_env <$> hs) -> wire_inv pub next hs'.
Proof.
  intros Hw Hsub. destruct Hw as [Hr Hs Hh Hk Ho]. constructor; [done|done| | |done].
  - intros h Hin. assert (h_env h ∈ h_env <$> hs) as (h' & E & Hh')%list_elem_of_fmap.
    { eapply elem_of_sublist; [|exact Hsub]. apply list_elem_of_fmap. by exists h. }
    rewrite E. by apply Hh.
  - assert (forall l, hold_seq <$> l = up_seq <$> (h_env <$> l)) as E by (intros l; by rewrite <- list_fmap_compose).
    rewrite E in *. eapply sublist_NoDup; [exact Hk|]. by apply fmap_sublist.
Qed.

(** ** The steps, by what they change *)

Lemma map_env (f : Hold -> Hold) l : (forall h, h_env (f h) = h_env h) -> h_env <$> map f l = h_env <$> l.
Proof. intros Hf. induction l as [|h l IH]; csimpl; [done|]. by rewrite Hf, IH. Qed.

Lemma update_env n f l :
  (forall h, h_env (f h) = h_env h) ->
  h_env <$> map (fun h => if decide (hold_seq h = n) then f h else h) l = h_env <$> l.
Proof. intros Hf. apply map_env. intros h. by case_decide. Qed.

Lemma release_all l s :
  foldl (fun s n => releaseHold n s) s l =
  set_holds (map (fun h => if decide (hold_seq h ∈ l) then mark_done h else h) (holds s)) s.
Proof.
  revert s. induction l as [|n l IH]; intros s; cbn.
  - destruct s as [c n a p hs t pub se m]. unfold set_holds; cbn. f_equal. rewrite <- (map_id hs) at 1.
    apply map_ext. intros h. by rewrite decide_False by apply not_elem_of_nil.
  - rewrite IH. unfold releaseHold, update_hold, set_holds; cbn. f_equal. rewrite map_map. apply map_ext. intros h.
    destruct (decide (hold_seq h = n)) as [E|E].
    + rewrite (decide_True (P := hold_seq h ∈ n :: l)) by (rewrite E; left). case_decide; [|done].
      unfold mark_done; cbn. f_equal. by destruct (h_phase h).
    + destruct (decide (hold_seq h ∈ l)) as [Hl|Hl].
      * by rewrite decide_True by (by right).
      * rewrite decide_False; [done|]. by intros [?|?]%elem_of_cons.
Qed.

Lemma onCancel_eq reason s :
  onCancel reason s =
  mkRun (clock s) (next_seq s) true None (map mark_done (holds s)) [] (published s)
    (settled s ++ (match pendingAsk s with Some n => [AskCancelled n reason] | None => [] end) ++
     map (fun callId => ToolCancelled callId reason) (pendingToolCalls s)) (main s).
Proof.
  unfold onCancel. destruct s as [c n a p hs t pub se m]. rewrite release_all.
  destruct p as [k|]; cbn; unfold set_holds, settle; cbn; f_equal; rewrite <- ?app_assoc; try done.
  all: apply map_ext_in; intros h Hh; rewrite decide_True; [done|];
    apply list_elem_of_In, in_map_iff; by exists h.
Qed.

Section Wire.
Context (runId : string) (retryMs timeoutMs : Z).

Definition winv (s : RunState) : Prop := wire_inv (published s) (next_seq s) (holds s).

Lemma winv_holds s hs : winv s -> sublist (h_env <$> hs) (h_env <$> holds s) -> winv (set_holds hs s).
Proof. intros Hw Hs. by eapply wire_holds. Qed.

Lemma winv_same s s' :
  winv s -> published s' = published s -> next_seq s' = next_seq s -> h_env <$> holds s' = h_env <$> holds s -> winv s'.
Proof. unfold winv. intros Hw -> -> E. eapply wire_holds; [exact Hw|]. by rewrite E. Qed.

Lemma winv_publishUp body s : winv s -> winv (publishUp runId body s).
Proof. intros Hw. eapply wire_fresh; [exact Hw|done|by left]. Qed.

Lemma winv_publishHeld body s s' :
  winv s' -> published s = published s' -> next_seq s = S (next_seq s') -> holds s = holds s' ->
  is_held body = true -> winv (publishHeld runId timeoutMs body (next_seq s') s).
Proof.
  unfold winv. intros Hw Hp Hn Hh Hb. unfold publishHeld. destruct (timeoutMs =? 0); cbn; rewrite Hp, Hn, Hh.
  - eapply wire_fresh; [exact Hw|done|by left].
  - eapply wire_fresh; [exact Hw|done|]. right. split; [done|]. eexists. split; [|done]. done.
Qed.

Lemma winv_conclude body reply s : winv s -> is_held body = true -> winv (conclude runId timeoutMs body reply s).
Proof.
  intros Hw Hb. unfold conclude. eapply (winv_same (publishHeld runId timeoutMs body (next_seq s) (bump s))); try done.
  by eapply (winv_publishHeld body (bump s) s).
Qed.

Lemma winv_throws t s : winv s -> winv (handler_throws runId timeoutMs t s).
Proof. intros Hw. unfold handler_throws. destruct (_ && _); [by apply winv_conclude|done]. Qed.

Lemma winv_resume before after h s :
  winv s -> holds s = before ++ h :: after -> winv (hold_resume retryMs before after h s).
Proof.
  intros Hw Hh. assert (h ∈ holds s) as Hin by (rewrite Hh; set_solver).
  unfold hold_resume. destruct (keeps_offering h s).
  - assert (forall h', h_env h' = h_env h -> h_env <$> before ++ h' :: after = h_env <$> holds s) as He.
    { intros h' E. rewrite Hh, !fmap_app. csimpl. by rewrite E. }
    destruct (h_phase h); [apply winv_holds; [done|by rewrite He]| |].
    1,2: unfold winv; cbn; eapply wire_holds; [by apply (wire_again _ _ (holds s))|by rewrite He].
  - assert (winv (set_holds (before ++ after) s)) as Hw'.
    { apply winv_holds; [done|]. rewrite Hh, !fmap_app. csimpl. apply sublist_app; [done|]. by constructor. }
    destruct (main (set_holds (before ++ after) s)); try done. by case_decide.
Qed.

Lemma winv_step s s' : winv s -> step runId retryMs timeoutMs s s' -> winv s'.
Proof.
  intros Hw Hs. destruct Hs as
    [ | s msg | | | | s q Hst | s c tool input Hst Hc | s m r Hm | s t Hm | | s t Hm | | s bef aft h f Hh Hp | s bef aft h Hh Hp];
    try done; try by apply winv_publishUp.
  - destruct msg as [message|reason| | |n|c ok r e]; cbn [onDown]; try done.
    + destruct (pendingAsk s); [|done]. eapply winv_same; [exact Hw|done|done|]. by apply update_env.
    + rewrite onCancel_eq. eapply winv_same; [exact Hw|done|done|]. by apply map_env.
    + eapply winv_same; [exact Hw|done|done|]. by apply update_env.
    + case_decide; [|done]. by destruct ok.
  - unfold ask. destruct (aborted s); [done|]. by eapply (winv_publishHeld _ (set_pendingAsk (Some (next_seq s)) (bump s)) s).
  - unfold callTool. destruct (aborted s); [done|]. by apply winv_publishUp.
  - by apply winv_conclude.
  - by apply winv_throws.
  - by apply winv_throws.
  - apply winv_holds; [done|]. rewrite Hh, !fmap_app. by csimpl.
  - by apply winv_resume.
Qed.

Lemma winv_boot now : winv (boot runId now).
Proof.
  unfold boot. apply winv_publishUp. constructor; cbn; [done|set_solver|set_solver|constructor|set_solver].
Qed.

Lemma reachable_winv s : reachable runId retryMs timeoutMs s -> winv s.
Proof.
  intros [now Hr]. pose proof (winv_boot now) as Hb. induction Hr as [|s1 s2 s3 H1 H2 IH]; [done|].
  apply IH. by eapply winv_step.
Qed.
End Wire.

(** ** Messages that are offered no more *)

Lemma keeps_offering_false h s :
  h_acked h = true \/ h_done h = true \/ aborted s = true -> keeps_offering h s = false.
Proof. unfold keeps_offering. by intros [->|[->| ->]]; rewrite ?andb_false_r. Qed.

Section Quiet.
Context (runId : string) (retryMs timeoutMs : Z).

Definition spent (h : Hold) (s : RunState) : Prop := h_acked h = true \/ h_done h = true \/ aborted s = true.

(** [n] has been used, and its hold, if there is one, is about to end. *)
Definition quieted (n : nat) (s : RunState) : Prop :=
  (n < next_seq s)%nat /\ forall h, h ∈ holds s -> hold_seq h = n -> spent h s.

Lemma quieted_map n s f :
  quieted n s -> (forall h, h_env (f h) = h_env h) -> (forall h, spent h s -> spent (f h) s) ->
  quieted n (set_holds (map f (holds s)) s).
Proof.
  intros [Hn Hq] He Hs. split; [done|]. cbn. intros h' (h & <- & Hh)%list_elem_of_In%in_map_iff E.
  apply Hs, Hq; [by apply list_elem_of_In|]. unfold hold_seq in *. by rewrite He in E.
Qed.

Lemma spent_update n f h s : (spent h s -> spent (f h) s) -> spent h s -> spent (if decide (hold_seq h = n) then f h else h) s.
Proof. intros Hf Hh. case_decide; [by apply Hf|done]. Qed.

Lemma spent_marks h s : spent h s -> spent (mark_done h) s /\ spent (mark_acked h) s.
Proof. unfold spent; cbn. tauto. Qed.

(** Publishing the next message, held or not. *)
Lemma quieted_fresh n s s' m :
  quieted n s -> published s' = published s ++ [m] -> up_seq m = next_seq s -> next_seq s' = S (next_seq s) ->
  aborted s' = aborted s -> (forall h, h ∈ holds s' -> h ∈ holds s \/ h_env h = m) ->
  quieted n s' /\ offers n (published s') = offers n (published s).
Proof.
  intros [Hn Hq] Hp Hm Hnext Ha Hh. split.
  - split; [lia|]. intros h [Hin|E]%Hh Eh; [|unfold hold_seq in Eh; rewrite E in Eh; lia].
    unfold spent. rewrite Ha. by apply Hq.
  - rewrite Hp, offers_snoc, decide_False by lia. lia.
Qed.

Lemma publishHeld_holds body n s h :
  h ∈ holds (publishHeld runId timeoutMs body n s) -> h ∈ holds s \/ h_env h = envelope runId n body s.
Proof.
  unfold publishHeld. destruct (timeoutMs =? 0); cbn; [by left|]. intros [?| ->%list_elem_of_singleton]%elem_of_app; [by left|by right].
Qed.

Lemma publishHeld_published body n s :
  published (publishHeld runId timeoutMs body n s) = published s ++ [envelope runId n body s] /\
  next_seq (publishHeld runId timeoutMs body n s) = next_seq s /\
  aborted (publishHeld runId timeoutMs body n s) = aborted s /\
  main (publishHeld runId timeoutMs body n s) = main s /\
  pendingAsk (publishHeld runId timeoutMs body n s) = pendingAsk s /\
  settled (publishHeld runId timeoutMs body n s) = settled s /\
  pendingToolCalls (publishHeld runId timeoutMs body n s) = pendingToolCalls s /\
  clock (publishHeld runId timeoutMs body n s) = clock s.
Proof. unfold publishHeld. by destruct (timeoutMs =? 0). Qed.

Lemma quieted_conclude n body reply s :
  quieted n s -> quieted n (conclude runId timeoutMs body reply s) /\
    offers n (published (conclude runId timeoutMs body reply s)) = offers n (published s).
Proof.
  intros Hq. destruct (publishHeld_published body (next_seq s) (bump s)) as (Hp & Hn & Ha & _).
  eapply (quieted_fresh n s); [done|exact Hp|done|exact Hn|exact Ha|].
  intros h Hh. by apply publishHeld_holds in Hh.
Qed.

Lemma quieted_step n s s' :
  quieted n s -> step runId retryMs timeoutMs s s' ->
  quieted n s' /\ offers n (published s') = offers n (published s).
Proof.
  intros Hq Hs. destruct Hs as
    [ | s msg | | s ? ? ? Hst | s ? Hst | s q Hst | s c tool input Hst Hc | s m r Hm | s t Hm | | s t Hm | | s bef aft h f Hh Hp | s bef aft h Hh Hp];
    try done.
  - split; [|by destruct msg as [message|reason| | |k|c ok r e]; cbn [onDown]; try done;
      [destruct (pendingAsk s)|rewrite onCancel_eq|case_decide; [destruct ok|]]].
    destruct msg as [message|reason| | |k|c ok r e]; cbn [onDown]; try done.
    + destruct (pendingAsk s); [|done].
      apply quieted_map; [done|intros h; by case_decide|]. intros h. apply spent_update. apply spent_marks.
    + rewrite onCancel_eq. split; [apply Hq|]. intros h _ _. unfold spent. cbn. tauto.
    + apply quieted_map; [done|intros h; by case_decide|]. intros h. apply spent_update. apply spent_marks.
    + case_decide; [|done]. by destruct ok.
  - by eapply quieted_fresh; [done..|by left].
  - by eapply quieted_fresh; [done..|by left].
  - unfold ask. destruct (aborted s) eqn:Ha; [done|].
    destruct (publishHeld_published (Reply q false None) (next_seq s) (set_pendingAsk (Some (next_seq s)) (bump s))) as (Hp & Hn & Ha' & _).
    eapply (quieted_fresh n s); [done|exact Hp|done|exact Hn|exact Ha'|]. intros h Hh. by apply publishHeld_holds in Hh.
  - unfold callTool. destruct (aborted s); [done|]. by eapply quieted_fresh; [done..|by left].
  - by apply quieted_conclude.
  - unfold handler_throws. destruct (_ && _); [by apply quieted_conclude|done].
  - unfold handler_throws. destruct (_ && _); [by apply quieted_conclude|done].
  - split; [|done]. destruct Hq as [Hn Hq]. split; [done|]. cbn. intros h' Hh' E.
    assert (exists h0, h0 ∈ holds s /\ hold_seq h0 = n /\ h_acked h' = h_acked h0 /\ h_done h' = h_done h0) as (h0 & H0 & E0 & Ea & Ed).
    { rewrite Hh. apply elem_of_app in Hh' as [?|[->|?]%elem_of_cons]; [exists h'; set_solver|exists h; set_solver|exists h'; set_solver]. }
    unfold spent. cbn. rewrite Ea, Ed. by apply (Hq h0).
  - unfold hold_resume. destruct (keeps_offering h s) eqn:Hk.
    + assert (hold_seq h <> n) as Hne.
      { intros E. rewrite keeps_offering_false in Hk; [done|]. destruct Hq as [_ Hq]. apply Hq; [rewrite Hh; set_solver|done]. }
      assert (forall h', h_env h' = h_env h -> quieted n (set_holds (bef ++ h' :: aft) s)) as Hq'.
      { intros h' E'. split; [apply Hq|]. cbn. intros h0 [?|[->|?]%elem_of_cons]%elem_of_app E.
        1,3: apply Hq; [rewrite Hh; set_solver|done]. unfold hold_seq in *. congruence. }
      destruct (h_phase h); [split; [by apply Hq'|done]| |].
      1,2: split; [by apply Hq'|]; unfold publish, set_holds; cbn [published]; rewrite offers_snoc, decide_False by done; lia.
    + assert (quieted n (set_holds (bef ++ aft) s)) as Hq'.
      { split; [apply Hq|]. cbn. intros h0 H0. apply Hq. rewrite Hh. set_solver. }
      destruct (main (set_holds (bef ++ aft) s)); try done. by case_decide.
Qed.

Lemma quieted_rtc n s s' :
  quieted n s -> rtc (step runId retryMs timeoutMs) s s' -> offers n (published s') = offers n (published s).
Proof.
  intros Hq Hr. induction Hr as [|s1 s2 s3 H1 H2 IH]; [done|].
  destruct (quieted_step _ _ _ Hq H1) as [Hq' <-]. by apply IH.
Qed.
End Quiet.

(** ** Promises given to the handler *)

Definition call_of (x : Settlement) : option string :=
  match x with
  | ToolResolved c _ | ToolFailed c _ | ToolCancelled c _ => Some c
  | _ => None
  end.

Definition ask_of (x : Settlement) : option nat :=
  match x with
  | AskAnswered n _ | AskCancelled n _ => Some n
  | _ => None
  end.

Definition settled_calls (s : RunState) : list string := omap call_of (settled s).
Definition settled_asks (s : RunState) : list nat := omap ask_of (settled s).

Record promise_inv (s : RunState) : Prop := mkPromises {
  pi_calls : call_ids s ≡ₚ pendingToolCalls s ++ settled_calls s;
  pi_fresh : NoDup (call_ids s);
  pi_aborted : aborted s = true -> pendingToolCalls s = [] /\ pendingAsk s = None;
  pi_asks : NoDup (settled_asks s);
  pi_ask_used n : n ∈ settled_asks s \/ pendingAsk s = Some n -> (n < next_seq s)%nat;
  pi_ask_open n : pendingAsk s = Some n -> n ∉ settled_asks s
}.

Lemma filter_ne_perm (c : string) l : NoDup l -> c ∈ l -> l ≡ₚ filter (fun x => x <> c) l ++ [c].
Proof.
  intros Hnd Hc. symmetry. rewrite Permutation_app_comm. cbn. induction l as [|x l IH]; [set_solver|].
  apply NoDup_cons in Hnd as [Hx Hnd]. destruct (decide (x = c)) as [->|Hne].
  - rewrite filter_cons_False by auto. rewrite filter_all; [done|]. intros y Hy ->. done.
  - rewrite filter_cons_True by done. rewrite Permutation_swap. constructor. apply IH; [done|set_solver].
Qed.

Section Promises.
Context (runId : string) (retryMs timeoutMs : Z).

(** A step that publishes no tool call and settles nothing. *)
Lemma promise_same s s' m :
  promise_inv s -> published s' = published s ++ m -> Forall (fun m => is_held (up_body m) = true \/
    match up_body m with ToolCall _ _ _ => False | _ => True end) m ->
  settled s' = settled s -> pendingToolCalls s' = pendingToolCalls s -> aborted s' = aborted s ->
  pendingAsk s' = pendingAsk s -> (next_seq s <= next_seq s')%nat -> promise_inv s'.
Proof.
  intros [H1 H2 H3 H4 H5 H6] Hp Hm Hs Ht Ha Hk Hn.
  assert (call_ids s' = call_ids s) as Hc.
  { unfold call_ids. rewrite Hp, omap_app. clear -Hm. induction Hm as [|x l Hb Hl IH]; cbn; [by rewrite app_nil_r|].
    destruct (up_body x); try done. by destruct Hb. }
  unfold settled_calls, settled_asks in *.
  constructor; unfold settled_calls, settled_asks; rewrite ?Hc, ?Hs, ?Ht, ?Ha, ?Hk; try done.
  intros n Hx. specialize (H5 n Hx). lia.
Qed.

Lemma settle_ids l s :
  settled_calls (settle l s) = settled_calls s ++ omap call_of l /\ settled_asks (settle l s) = settled_asks s ++ omap ask_of l.
Proof. unfold settled_calls, settled_asks. cbn. by rewrite !omap_app. Qed.

Lemma cancelled_calls reason l : omap call_of (map (fun callId => ToolCancelled callId reason) l) = l.
Proof. induction l as [|c l IH]; [done|]. cbn. f_equal. exact IH. Qed.

Lemma cancelled_asks reason l : omap ask_of (map (fun callId => ToolCancelled callId reason) l) = [].
Proof. induction l as [|c l IH]; [done|]. exact IH. Qed.

Lemma promise_cancel reason s : promise_inv s -> promise_inv (onCancel reason s).
Proof.
  intros [H1 H2 H3 H4 H5 H6]. rewrite onCancel_eq.
  set (asks := match pendingAsk s with Some n => [AskCancelled n reason] | None => [] end).
  set (calls := map (fun callId => ToolCancelled callId reason) (pendingToolCalls s)).
  assert (omap call_of (asks ++ calls) = pendingToolCalls s) as Ec.
  { rewrite omap_app. assert (omap call_of asks = []) as -> by (unfold asks; by destruct (pendingAsk s)). cbn.
    apply cancelled_calls. }
  assert (omap ask_of (asks ++ calls) = match pendingAsk s with Some n => [n] | None => [] end) as Ea.
  { rewrite omap_app. assert (omap ask_of calls = []) as ->.
    { apply cancelled_asks. }
    unfold asks. by destruct (pendingAsk s). }
  constructor; unfold settled_calls, settled_asks in *; cbn; rewrite ?(omap_app _ (settled s)), ?Ec, ?Ea; try done.
  - fold (call_ids s). by rewrite Permutation_app_comm.
  - apply NoDup_app. split; [done|]. split; [|destruct (pendingAsk s); [apply NoDup_singleton|constructor]].
    intros n Hn. destruct (pendingAsk s) as [k|]; [|set_solver]. intros ->%list_elem_of_singleton. by apply (H6 k).
  - intros n [Hn|Hn]; [|done]. apply H5. apply elem_of_app in Hn as [?|Hn]; [by left|]. right.
    destruct (pendingAsk s); [set_solver|set_solver].
Qed.

Lemma promise_tool_result c ok r e s : promise_inv s -> promise_inv (onDown (ToolResult c ok r e) s).
Proof.
  intros Hi. cbn. case_decide as Hc; [|done]. destruct Hi as [H1 H2 H3 H4 H5 H6].
  assert (forall x, call_of x = Some c -> ask_of x = None ->
    promise_inv (settle [x] (set_tools (filter (fun c' => c' <> c) (pendingToolCalls s)) s))) as Hgo.
  { intros x Hx Hax. set (s1 := set_tools _ s). destruct (settle_ids [x] s1) as [E1 E2].
    assert (omap call_of [x] = [c]) as Ex by (cbn; by rewrite Hx).
    assert (omap ask_of [x] = []) as Ey by (cbn; by rewrite Hax).
    rewrite Ex in E1. rewrite Ey, app_nil_r in E2.
    constructor; try (rewrite E2; done).
    - rewrite E1. change (call_ids s ≡ₚ filter (fun c' => c' <> c) (pendingToolCalls s) ++ settled_calls s ++ [c]).
      rewrite (Permutation_app_comm (settled_calls s)), app_assoc, <- filter_ne_perm; [done| |done].
      eapply (NoDup_app (pendingToolCalls s) (settled_calls s)). by rewrite <- H1.
    - done.
    - intros Ha. destruct (H3 Ha) as [E _]. rewrite E in Hc. set_solver. }
  destruct ok; by apply Hgo.
Qed.

Lemma promise_conclude body reply s : is_held body = true -> promise_inv s -> promise_inv (conclude runId timeoutMs body reply s).
Proof.
  intros Hb Hi.
  destruct (publishHeld_published runId timeoutMs body (next_seq s) (bump s)) as (Hp & Hn & Ha & _ & Hk & Hse & Ht & _).
  eapply promise_same; [exact Hi|exact Hp| |exact Hse|exact Ht|exact Ha|exact Hk|].
  - constructor; [by left|constructor].
  - unfold conclude, set_main; cbn [next_seq]. rewrite Hn. cbn. lia.
Qed.

Lemma promise_throws t s : promise_inv s -> promise_inv (handler_throws runId timeoutMs t s).
Proof.
  intros Hi. unfold handler_throws. destruct (_ && _); [by apply promise_conclude|].
  eapply (promise_same s _ []); [done|by rewrite app_nil_r|constructor|done..].
Qed.

Lemma promise_prompt message s : promise_inv s -> promise_inv (onDown (Prompt message) s).
Proof.
  intros Hi. cbn. destruct (pendingAsk s) as [n|] eqn:Hk; [|done]. destruct Hi as [H1 H2 H3 H4 H5 H6].
  destruct (settle_ids [AskAnswered n message] (releaseHold n (set_pendingAsk None s))) as [E1 E2].
  constructor; rewrite ?E1, ?E2; cbn [omap list_omap call_of ask_of]; rewrite ?app_nil_r; try done.
  - intros Ha. by destruct (H3 Ha).
  - apply NoDup_app. split; [done|]. split; [|apply NoDup_singleton].
    intros k Hn ->%list_elem_of_singleton. by apply (H6 n).
  - intros k [Hn|Hn]; [|done]. apply H5. apply elem_of_app in Hn as [?| ->%list_elem_of_singleton]; [by left|by right].
Qed.

Lemma promise_ask question s : promise_inv s -> promise_inv (ask runId timeoutMs question s).
Proof.
  intros Hi. unfold ask. destruct (aborted s) eqn:Ha.
  { destruct Hi as [H1 H2 H3 H4 H5 H6], (settle_ids [AskRefused] s) as [E1 E2].
    constructor; rewrite ?E1, ?E2; cbn [omap list_omap call_of ask_of]; rewrite ?app_nil_r; done. }
  set (s1 := set_pendingAsk (Some (next_seq s)) (bump s)).
  assert (promise_inv s1) as Hi1.
  { destruct Hi as [H1 H2 H3 H4 H5 H6]. constructor; try done.
    - cbn. congruence.
    - intros n [Hn|[= <-]]; cbn; [|lia]. specialize (H5 n (or_introl Hn)). lia.
    - intros n [= <-] Hn. specialize (H5 _ (or_introl Hn)). lia. }
  destruct (publishHeld_published runId timeoutMs (Reply question false None) (next_seq s) s1) as (Hp & Hn & Ha' & _ & Hk & Hse & Ht & _).
  eapply promise_same; [exact Hi1|exact Hp| |exact Hse|exact Ht|exact Ha'|exact Hk|by rewrite Hn].
  constructor; [by left|constructor].
Qed.

Lemma promise_callTool callId tool input s :
  promise_inv s -> callId ∉ call_ids s -> promise_inv (callTool runId callId tool input s).
Proof.
  intros Hi Hc. unfold callTool. destruct (aborted s) eqn:Ha; destruct Hi as [H1 H2 H3 H4 H5 H6].
  { destruct (settle_ids [ToolRefused] s) as [E1 E2].
    constructor; rewrite ?E1, ?E2; cbn [omap list_omap call_of ask_of]; rewrite ?app_nil_r; done. }
  set (s1 := publishUp _ _ _).
  assert (call_ids s1 = call_ids s ++ [callId]) as Ec by (unfold call_ids, s1; cbn [published publishUp publish]; by rewrite omap_app).
  constructor; rewrite ?Ec.
  - change (call_ids s ++ [callId] ≡ₚ (pendingToolCalls s ++ [callId]) ++ settled_calls s).
    rewrite <- app_assoc, (Permutation_app_comm [callId]), app_assoc. by rewrite H1.
  - apply NoDup_app. split; [done|]. split; [|apply NoDup_singleton]. by intros x Hx ->%list_elem_of_singleton.
  - cbn. congruence.
  - exact H4.
  - intros n Hn. specialize (H5 n Hn). cbn. lia.
  - exact H6.
Qed.

Lemma promise_step s s' :
  winv s -> promise_inv s -> step runId retryMs timeoutMs s s' -> promise_inv s'.
Proof.
  intros Hw Hi Hs. destruct Hs as
    [ | s msg | | s ? ? ? Hst | s ? Hst | s q Hst | s c tool input Hst Hc | s m r Hm | s t Hm | | s t Hm | | s bef aft h f Hh Hp | s bef aft h Hh Hp];
    try (eapply (promise_same s _ []); [done|by rewrite app_nil_r|constructor|done..]).
  - destruct msg; [by apply promise_prompt|by apply promise_cancel|done|done| |by apply promise_tool_result].
    eapply (promise_same s _ []); [done|by rewrite app_nil_r|constructor|done..].
  - eapply (promise_same s _ [_]); [done|done|by repeat constructor|try done..]. cbn. lia.
  - eapply (promise_same s _ [_]); [done|done|by repeat constructor|try done..]. cbn. lia.
  - by apply promise_ask.
  - by apply promise_callTool.
  - by apply promise_conclude.
  - by apply promise_throws.
  - by apply promise_throws.
  - unfold hold_resume. destruct (keeps_offering h s).
    + assert (is_held (up_body (h_env h)) = true) as Hheld by (apply (wi_holds _ _ _ Hw); rewrite Hh; set_solver).
      destruct (h_phase h).
      1: eapply (promise_same s _ []); [done|by rewrite app_nil_r|constructor|done..].
      all: eapply (promise_same s _ [_]); [done|done|constructor; [by left|constructor]|done..].
    + destruct (main (set_holds (bef ++ aft) s)); try case_decide;
        (eapply (promise_same s _ []); [done|by rewrite app_nil_r|constructor|done..]).
Qed.

Lemma promise_boot now : promise_inv (boot runId now).
Proof. constructor; cbn; try done; [constructor|constructor|]. intros n [Hn|Hn]; [set_solver|done]. Qed.

Lemma reachable_promises s : reachable runId retryMs timeoutMs s -> promise_inv s.
Proof.
  intros [now Hr]. pose proof (winv_boot runId now) as Hw. pose proof (promise_boot now) as Hi.
  induction Hr as [|s1 s2 s3 H1 H2 IH]; [done|]. apply IH; [by eapply winv_step|by eapply promise_step].
Qed.
End Promises.

(** ** How often a message is offered *)

Section Timing.
Context (runId : string) (retryMs timeoutMs : Z).

Notation D := (timer_delay retryMs).
Notation noffers h pub := (Z.of_nat (offers (hold_seq h) pub)).

Definition hold_ok (pub : list AgentUpMessage) (now : Z) (ab : bool) (h : Hold) : Prop :=
  h_deadline h = up_ts (h_env h) + timeoutMs /\
  up_ts (h_env h) + (noffers h pub - 1) * D <= now /\
  match h_phase h with
  | Offering => True
  | Parked fires => up_ts (h_env h) + noffers h pub * D <= fires
  | Woken => h_acked h = true \/ h_done h = true \/ ab = true \/ up_ts (h_env h) + noffers h pub * D <= now
  end.

Definition times_ok (pub : list AgentUpMessage) (m : AgentUpMessage) : Prop :=
  let k := Z.of_nat (offers (up_seq m) pub) in k = 1 \/ (k - 1) * D < timeoutMs.

Record time_inv (s : RunState) : Prop := mkTimes {
  ti_holds h : h ∈ holds s -> hold_ok (published s) (clock s) (aborted s) h;
  ti_offers m : m ∈ published s -> times_ok (published s) m
}.

Lemma timer_delay_pos ms : 1 <= timer_delay ms.
Proof. unfold timer_delay. destruct (Z.leb_spec 1 ms), (Z.leb_spec ms (2 ^ 31 - 1)); simpl; lia. Qed.

Lemma hold_ok_mono pub now now' (ab ab' : bool) h :
  hold_ok pub now ab h -> now <= now' -> (ab = true -> ab' = true) -> hold_ok pub now' ab' h.
Proof.
  intros (H1 & H2 & H3) Hn Ha. split; [done|]. split; [lia|]. destruct (h_phase h); [done|done|].
  destruct H3 as [H3|[H3|[H3|H3]]]; [tauto|tauto|tauto|]. right. right. right. lia.
Qed.

Lemma hold_ok_marks pub now ab h : hold_ok pub now ab h -> hold_ok pub now ab (mark_done h) /\ hold_ok pub now ab (mark_acked h).
Proof.
  intros (H1 & H2 & H3). split; (split; [done|]; split; [done|]); cbn; destruct (h_phase h); cbn; try done; tauto.
Qed.

Lemma hold_ok_pub pub pub' now ab h : offers (hold_seq h) pub' = offers (hold_seq h) pub -> hold_ok pub now ab h -> hold_ok pub' now ab h.
Proof. unfold hold_ok. by intros ->. Qed.

(** Steps that publish nothing. *)
Lemma time_same s s' :
  time_inv s -> published s' = published s ->
  (forall h, h ∈ holds s' -> hold_ok (published s) (clock s') (aborted s') h) -> time_inv s'.
Proof. intros [H1 H2] Hp Hh. constructor; rewrite Hp; done. Qed.

Lemma time_map f s s' :
  time_inv s -> published s' = published s -> clock s' = clock s -> (aborted s = true -> aborted s' = true) ->
  holds s' = map f (holds s) ->
  (forall h, hold_ok (published s) (clock s) (aborted s') h -> hold_ok (published s) (clock s) (aborted s') (f h)) -> time_inv s'.
Proof.
  intros Hi Hp Hc Ha Hh Hf. eapply time_same; [done..|]. rewrite Hh, Hc.
  intros h' (h & <- & Hin)%list_elem_of_In%in_map_iff. apply Hf. eapply hold_ok_mono; [|done|exact Ha].
  apply (ti_holds _ Hi). by apply list_elem_of_In.
Qed.

(** The next message, held or not. *)
Lemma time_fresh s s' m :
  winv s -> time_inv s -> published s' = published s ++ [m] -> up_seq m = next_seq s -> clock s' = clock s ->
  aborted s' = aborted s ->
  (forall h, h ∈ holds s' -> h ∈ holds s \/ h = mkHold m (up_ts m + timeoutMs) false false Offering) ->
  up_ts m = clock s -> time_inv s'.
Proof.
  intros Hw [H1 H2] Hp Hm Hc Ha Hh Ht.
  assert (forall x, x ∈ published s -> offers (up_seq x) (published s ++ [m]) = offers (up_seq x) (published s)) as Hold.
  { intros x Hx. pose proof (wire_seq _ _ _ _ Hw Hx). rewrite offers_snoc, decide_False by lia. lia. }
  assert (offers (up_seq m) (published s ++ [m]) = 1%nat) as Hnew.
  { rewrite offers_snoc, decide_True, (offers_fresh _ _ _ _ Hw) by (done || lia). done. }
  constructor; rewrite Hp.
  - rewrite Hc, Ha. intros h [Hin|E]%Hh.
    + apply (hold_ok_pub (published s)); [|by apply H1]. apply Hold. by apply (wi_holds _ _ _ Hw).
    + unfold hold_ok. rewrite E. unfold hold_seq; cbn. rewrite Hnew. split; [lia|]. split; [lia|done].
  - intros x [Hx| ->%list_elem_of_singleton]%elem_of_app; unfold times_ok.
    + rewrite Hold by done. by apply H2.
    + rewrite Hnew. by left.
Qed.

Lemma publishHeld_hold body n s h :
  h ∈ holds (publishHeld runId timeoutMs body n s) ->
  h ∈ holds s \/ h = mkHold (envelope runId n body s) (clock s + timeoutMs) false false Offering.
Proof.
  unfold publishHeld. destruct (timeoutMs =? 0); cbn; [by left|]. intros [?| ->%list_elem_of_singleton]%elem_of_app; [by left|by right].
Qed.

Lemma time_conclude body reply s : winv s -> time_inv s -> time_inv (conclude runId timeoutMs body reply s).
Proof.
  intros Hw Hi. destruct (publishHeld_published runId timeoutMs body (next_seq s) (bump s)) as (Hp & _ & Ha & _ & _ & _ & _ & Hc).
  eapply (time_fresh s); [done|done|exact Hp|done|exact Hc|exact Ha| |done].
  intros h Hh. by apply publishHeld_hold in Hh.
Qed.

Lemma time_throws t s : winv s -> time_inv s -> time_inv (handler_throws runId timeoutMs t s).
Proof. intros Hw Hi. unfold handler_throws. destruct (_ && _); [by apply time_conclude|]. by eapply time_same; [done|done|apply Hi]. Qed.

Lemma time_down msg s : time_inv s -> time_inv (onDown msg s).
Proof.
  intros Hi. assert (forall n f, (forall h, hold_ok (published s) (clock s) (aborted s) h -> hold_ok (published s) (clock s) (aborted s) (f h)) ->
    forall s', published s' = published s -> clock s' = clock s -> aborted s' = aborted s ->
      holds s' = map (fun h => if decide (hold_seq h = n) then f h else h) (holds s) -> time_inv s') as Hup.
  { intros n f Hf s' Hp Hc Ha Hh. eapply time_map; [done|done|done|congruence|exact Hh|]. intros h Hok. rewrite Ha in *.
    case_decide; [by apply Hf|done]. }
  destruct msg as [message|reason| | |k|c ok r e]; cbn [onDown]; try done.
  - destruct (pendingAsk s); [|done]. eapply Hup; [|done..]. intros h Hok. by apply hold_ok_marks.
  - rewrite onCancel_eq. eapply (time_map mark_done); [done..|]. intros h Hok. by apply hold_ok_marks.
  - eapply Hup; [|done..]. intros h Hok. by apply hold_ok_marks.
  - case_decide; [|done]. destruct ok; (eapply time_same; [done|done|apply Hi]).
Qed.

(** A re-offer: [h] goes from [Woken] back to [Offering]. *)
Lemma time_again bef aft h s :
  winv s -> time_inv s -> holds s = bef ++ h :: aft -> h_phase h = Woken -> keeps_offering h s = true ->
  time_inv (publish (h_env h) (set_holds (bef ++ mkHold (h_env h) (h_deadline h) (h_acked h) (h_done h) Offering :: aft) s)).
Proof.
  intros Hw [H1 H2] Hh Hp Hk. assert (h ∈ holds s) as Hin by (rewrite Hh; set_solver).
  destruct (H1 h Hin) as (Hd & Hc & Hph). rewrite Hp in Hph. unfold keeps_offering in Hk. to_prop.
  assert (up_ts (h_env h) + noffers h (published s) * D <= clock s) as Hn by naive_solver congruence. clear Hph.
  assert (offers (hold_seq h) (published s ++ [h_env h]) = S (offers (hold_seq h) (published s))) as Hself.
  { rewrite offers_snoc, decide_True by done. lia. }
  assert (forall h', h' ∈ bef ++ aft -> hold_seq h' <> hold_seq h) as Hne.
  { pose proof (wi_keys _ _ _ Hw) as Hnd. rewrite Hh, fmap_app in Hnd. csimpl in Hnd.
    apply NoDup_app in Hnd as (_ & Hd1 & [Hd2 _]%NoDup_cons). intros h' [Hb|Ha]%elem_of_app E.
    - apply (Hd1 (hold_seq h')); [apply list_elem_of_fmap; by exists h'|rewrite E; left].
    - apply Hd2. rewrite <- E. apply list_elem_of_fmap. by exists h'. }
  constructor; cbn [published publish holds set_holds clock aborted].
  - assert (forall h', h' ∈ bef ++ aft -> hold_ok (published s ++ [h_env h]) (clock s) (aborted s) h') as Hrest.
    { intros h' H'. apply (hold_ok_pub (published s)); [|apply H1; rewrite Hh; set_solver].
      rewrite offers_snoc, decide_False; [lia|]. intros E. by apply (Hne h' H'). }
    intros h' [Hb|[->|Ha]%elem_of_cons]%elem_of_app; [apply Hrest; set_solver| |apply Hrest; set_solver].
    unfold hold_ok, hold_seq in *; cbn [h_env h_deadline h_phase]. rewrite Hself. split; [done|]. split; [lia|done].
  - intros x Hx. unfold times_ok. destruct (decide (up_seq x = hold_seq h)) as [E|E].
    + rewrite E, Hself. right. lia.
    + rewrite offers_snoc, decide_False by (unfold hold_seq in E; congruence). rewrite Nat.add_0_r. apply H2.
      apply elem_of_app in Hx as [?| ->%list_elem_of_singleton]; [done|]. by destruct E.
Qed.

Lemma time_step s s' : winv s -> time_inv s -> step runId retryMs timeoutMs s s' -> time_inv s'.
Proof.
  intros Hw Hi Hs. destruct Hs as
    [s ms Hms| s msg | | s ? ? ? Hst | s ? Hst | s q Hst | s c tool input Hst Hc | s m r Hm | s t Hm | | s t Hm | | s bef aft h f Hh Hp Hf | s bef aft h Hh Hp];
    try (by eapply time_same; [done|done|apply Hi]).
  - eapply time_same; [done|done|]. intros h Hin. eapply hold_ok_mono; [by apply (ti_holds _ Hi)|cbn; lia|done].
  - by apply time_down.
  - eapply (time_fresh s); try done. by left.
  - eapply (time_fresh s); try done. by left.
  - unfold ask. destruct (aborted s) eqn:Ha; [by eapply time_same; [done|done|apply Hi]|].
    destruct (publishHeld_published runId timeoutMs (Reply q false None) (next_seq s) (set_pendingAsk (Some (next_seq s)) (bump s)))
      as (Hp & _ & Ha' & _ & _ & _ & _ & Hc).
    eapply (time_fresh s); [done|done|exact Hp|done|exact Hc|exact Ha'| |done].
    intros h Hh. by apply publishHeld_hold in Hh.
  - unfold callTool. destruct (aborted s) eqn:Ha; [by eapply time_same; [done|done|apply Hi]|].
    eapply (time_fresh s); try done. by left.
  - by apply time_conclude.
  - by apply time_throws.
  - by apply time_throws.
  - assert (hold_ok (published s) (clock s) (aborted s) h) as (H1 & H2 & H3) by (apply Hi; rewrite Hh; set_solver).
    eapply time_same; [done|done|]. cbn. intros h' [Hb|[->|Ha]%elem_of_cons]%elem_of_app; [apply Hi; rewrite Hh; set_solver| |apply Hi; rewrite Hh; set_solver].
    split; [done|]. split; [done|]. rewrite Hp in H3. cbn. right; right; right. unfold hold_seq in *. cbn. lia.
  - unfold hold_resume. destruct (keeps_offering h s) eqn:Hk.
    + destruct (h_phase h) as [|fires|] eqn:Hph; [|by destruct (Hp fires)|by apply time_again].
      assert (hold_ok (published s) (clock s) (aborted s) h) as (H1 & H2 & H3) by (apply Hi; rewrite Hh; set_solver).
      eapply time_same; [done|done|]. cbn. intros h' [Hb|[->|Ha]%elem_of_cons]%elem_of_app; [apply Hi; rewrite Hh; set_solver| |apply Hi; rewrite Hh; set_solver].
      split; [done|]. split; [done|]. unfold hold_seq in *. cbn. lia.
    + assert (forall m, time_inv (set_main m (set_holds (bef ++ aft) s)) /\ time_inv (set_holds (bef ++ aft) s)) as Hend.
      { intros m. split; (eapply time_same; [done|done|]; cbn; intros h' Hh'; apply Hi; rewrite Hh; set_solver). }
      destruct (main (set_holds (bef ++ aft) s)); try case_decide; by apply (Hend Closed).
Qed.

Lemma reachable_times s : reachable runId retryMs timeoutMs s -> time_inv s.
Proof.
  intros [now Hr]. pose proof (winv_boot runId now) as Hw.
  assert (time_inv (boot runId now)) as Hi.
  { constructor; cbn; [set_solver|]. intros m ->%list_elem_of_singleton. by left. }
  induction Hr as [|s1 s2 s3 H1 H2 IH]; [done|]. apply IH; [by eapply winv_step|by eapply time_step].
Qed.
End Timing.

(** ** The conclusion *)

Definition is_question (b : UpBody) : bool :=
  match b with
  | Reply _ final _ => negb final
  | _ => false
  end.

(** A question may end its hold by being answered; the conclusion may not. *)
Record role_inv (s : RunState) : Prop := mkRoles {
  ri_ask n : pendingAsk s = Some n -> exists m, m ∈ published s /\ up_seq m = n /\ is_question (up_body m) = true;
  ri_done h : h ∈ holds s -> h_done h = true -> aborted s = true \/ is_question (up_body (h_env h)) = true;
  ri_main n : main s = Concluding n -> exists h, h ∈ holds s /\ hold_seq h = n /\ is_question (up_body (h_env h)) = false
}.

Section Roles.
Context (runId : string) (retryMs timeoutMs : Z).

(** Steps that keep the phase and only add messages and holds. *)
Lemma role_grow s s' l :
  role_inv s -> published s' = published s ++ l -> pendingAsk s' = pendingAsk s \/ pendingAsk s' = None -> aborted s' = aborted s ->
  main s' = main s -> (forall h, h ∈ holds s -> h ∈ holds s') ->
  (forall h, h ∈ holds s' -> h ∈ holds s \/ h_done h = false) -> role_inv s'.
Proof.
  intros [H1 H2 H3] Hp Hk Ha Hm Hin Hout. constructor.
  - intros n Hn. destruct Hk as [Hk|Hk]; [|congruence]. rewrite Hk in Hn. destruct (H1 n Hn) as (m & Hm' & E).
    exists m. rewrite Hp. split; [apply elem_of_app; by left|done].
  - intros h Hh Hd. rewrite Ha. apply Hout in Hh as [Hh|Hf]; [by apply H2|congruence].
  - intros n Hn. rewrite Hm in Hn. destruct (H3 n Hn) as (h & Hh & E). exists h. split; [by apply Hin|done].
Qed.

Lemma role_map f s s' :
  role_inv s -> published s' = published s -> pendingAsk s' = pendingAsk s \/ pendingAsk s' = None ->
  (aborted s = true -> aborted s' = true) -> main s' = main s -> holds s' = map f (holds s) ->
  (forall h, h_env (f h) = h_env h) ->
  (forall h, h ∈ holds s -> h_done (f h) = true ->
     h_done h = true \/ aborted s' = true \/ is_question (up_body (h_env h)) = true) -> role_inv s'.
Proof.
  intros [H1 H2 H3] Hp Hk Ha Hm Hh He Hd. constructor.
  - intros n Hn. rewrite Hp. apply H1. destruct Hk; congruence.
  - rewrite Hh. intros h' (h & <- & Hin%list_elem_of_In)%list_elem_of_In%in_map_iff Hdone. rewrite He.
    destruct (Hd h Hin Hdone) as [Hd'|[?|?]]; [|by left|by right]. destruct (H2 h Hin Hd') as [?|?]; [left; by apply Ha|by right].
  - intros n Hn. rewrite Hm in Hn. destruct (H3 n Hn) as (h & Hin & E1 & E2). exists (f h). rewrite Hh. split.
    + apply list_elem_of_In, in_map_iff. exists h. split; [done|by apply list_elem_of_In].
    + unfold hold_seq in *. by rewrite He.
Qed.

Lemma publishHeld_keeps body n s h : h ∈ holds s -> h ∈ holds (publishHeld runId timeoutMs body n s).
Proof. intros Hh. unfold publishHeld. destruct (timeoutMs =? 0); cbn; [done|]. apply elem_of_app. by left. Qed.

Lemma role_conclude body reply s :
  role_inv s -> is_question body = false -> role_inv (conclude runId timeoutMs body reply s).
Proof.
  intros [H1 H2 H3] Hb. unfold conclude, publishHeld. destruct (timeoutMs =? 0); constructor; cbn.
  - intros n Hn. destruct (H1 n Hn) as (m & Hm & E). exists m. split; [apply elem_of_app; by left|done].
  - done.
  - done.
  - intros n Hn. destruct (H1 n Hn) as (m & Hm & E). exists m. split; [apply elem_of_app; by left|done].
  - intros h [Hh| ->%list_elem_of_singleton]%elem_of_app; [by apply H2|done].
  - intros n [= <-]. eexists. split; [apply elem_of_app; right; by apply list_elem_of_singleton|done].
Qed.

Lemma role_throws t s : role_inv s -> role_inv (handler_throws runId timeoutMs t s).
Proof.
  intros Hi. unfold handler_throws. destruct (_ && _); [by apply role_conclude|].
  destruct Hi as [H1 H2 H3]. by constructor.
Qed.

Lemma role_ask q s : role_inv s -> role_inv (ask runId timeoutMs q s).
Proof.
  intros Hi. unfold ask. destruct (aborted s); [by eapply (role_grow s _ []); eauto using app_nil_r|].
  destruct Hi as [H1 H2 H3]. unfold publishHeld. destruct (timeoutMs =? 0); constructor; cbn.
  - intros n [= <-]. eexists. split; [apply elem_of_app; right; by apply list_elem_of_singleton|done].
  - done.
  - done.
  - intros n [= <-]. eexists. split; [apply elem_of_app; right; by apply list_elem_of_singleton|done].
  - intros h [Hh| ->%list_elem_of_singleton]%elem_of_app; [by apply H2|done].
  - intros n Hn. destruct (H3 n Hn) as (h & Hh & E). exists h. split; [apply elem_of_app; by left|done].
Qed.

Lemma role_down msg s : winv s -> role_inv s -> role_inv (onDown msg s).
Proof.
  intros Hw Hi. destruct msg as [message|reason| | |k|c ok r e]; cbn [onDown]; try done.
  - destruct (pendingAsk s) as [n|] eqn:Hk; [|done]. destruct (ri_ask _ Hi n Hk) as (m & Hm & En & Hq).
    eapply role_map; [exact Hi|done|by right|done|done|done|intros h; cbn beta; by case_decide|].
    intros h Hin. cbn beta. case_decide as E; [|by left]. intros _. right; right.
    destruct (wi_holds _ _ _ Hw h Hin) as [Hp _]. assert (h_env h = m) as ->; [|done].
    eapply wire_inj; [exact Hw|done|done|]. unfold hold_seq in E. congruence.
  - rewrite onCancel_eq. eapply (role_map mark_done); [exact Hi|done|by right|done|done|done|done|]. intros h _ _. by right; left.
  - eapply role_map; [exact Hi|done|by left|done|done|done|intros h; cbn beta; by case_decide|].
    intros h _. cbn beta. case_decide; by left.
  - case_decide; [|done]. destruct ok; eapply (role_grow s _ []); eauto; by rewrite app_nil_r.
Qed.

Lemma role_resume bef aft h s :
  role_inv s -> holds s = bef ++ h :: aft -> winv s -> role_inv (hold_resume retryMs bef aft h s).
Proof.
  intros Hi Hh Hw. unfold hold_resume. destruct (keeps_offering h s) eqn:Hk.
  - assert (h_done h = false) as Hd by (unfold keeps_offering in Hk; to_prop; done).
    assert (forall h' l, h_env h' = h_env h -> h_done h' = h_done h ->
      role_inv (mkRun (clock s) (next_seq s) (aborted s) (pendingAsk s) (bef ++ h' :: aft) (pendingToolCalls s)
        (published s ++ l) (settled s) (main s))) as Hgo.
    { intros h' l He Hd'. destruct Hi as [H1 H2 H3]. constructor; cbn.
      - intros n Hn. destruct (H1 n Hn) as (m & Hm & E). exists m. split; [apply elem_of_app; by left|done].
      - intros x [Hx|[->|Hx]%elem_of_cons]%elem_of_app Hdx; [apply H2; [rewrite Hh; set_solver|done]|congruence|apply H2; [rewrite Hh; set_solver|done]].
      - intros n Hn. destruct (H3 n Hn) as (x & Hx & E1 & E2). rewrite Hh in Hx.
        apply elem_of_app in Hx as [Hx|[->|Hx]%elem_of_cons]; [exists x; set_solver| |exists x; set_solver].
        exists h'. unfold hold_seq in *. rewrite He. split; [set_solver|done]. }
    destruct (h_phase h); [|apply (Hgo _ [h_env h]); done..].
    specialize (Hgo (mkHold (h_env h) (h_deadline h) (h_acked h) (h_done h) (Parked (clock s + timer_delay retryMs))) [] eq_refl eq_refl).
    by rewrite app_nil_r in Hgo.
  - destruct Hi as [H1 H2 H3].
    assert (forall m, (forall n, m = Concluding n -> main s = Concluding n /\ n <> hold_seq h) -> role_inv (set_main m (set_holds (bef ++ aft) s))) as Hgo.
    { intros m Hm. constructor; cbn.
      - exact H1.
      - intros x Hx. apply H2. rewrite Hh. set_solver.
      - intros n Hn. destruct (Hm n Hn) as [Hn' Hne]. destruct (H3 n Hn') as (x & Hx & E1 & E2). exists x.
        split; [|done]. rewrite Hh in Hx. apply elem_of_app in Hx as [Hx|[->|Hx]%elem_of_cons]; [set_solver|done|set_solver]. }
    destruct (main (set_holds (bef ++ aft) s)) eqn:Hm; cbn in Hm.
    3: case_decide as E; [by apply Hgo|].
    all: assert (set_holds (bef ++ aft) s = set_main (main s) (set_holds (bef ++ aft) s)) as -> by done; apply Hgo;
      rewrite Hm; intros n' [=]; subst; done.
Qed.

Lemma role_step s s' : winv s -> role_inv s -> step runId retryMs timeoutMs s s' -> role_inv s'.
Proof.
  intros Hw Hi Hs. destruct Hs as
    [s ms Hms| s msg | s ok Hm | s ? ? ? Hst | s ? Hst | s q Hst | s c tool input Hst Hc | s m r Hm | s t Hm | s r Hm | s t Hm | s Hm
     | s bef aft h f Hh Hp Hf | s bef aft h Hh Hp].
  - eapply (role_grow s _ []); eauto. by rewrite app_nil_r.
  - by apply role_down.
  - destruct Hi as [H1 H2 H3]. constructor; [done|done|]. cbn. by destruct ok.
  - by eapply (role_grow s); eauto.
  - by eapply (role_grow s); eauto.
  - by apply role_ask.
  - unfold callTool. destruct (aborted s); [eapply (role_grow s _ []); eauto; by rewrite app_nil_r|].
    by eapply (role_grow s); eauto.
  - by apply role_conclude.
  - by apply role_throws.
  - destruct Hi as [H1 H2 H3]. by constructor.
  - by apply role_throws.
  - destruct Hi as [H1 H2 H3]. by constructor.
  - eapply (role_map (fun x => if decide (hold_seq x = hold_seq h) then mkHold (h_env x) (h_deadline x) (h_acked x) (h_done x) Woken else x));
      [exact Hi|done|by left|done|done| |intros x; cbn beta; by case_decide|].
    + cbn. rewrite Hh, map_app. cbn. rewrite decide_True by done.
      pose proof (wi_keys _ _ _ Hw) as Hnd. rewrite Hh, fmap_app in Hnd. csimpl in Hnd.
      apply NoDup_app in Hnd as (_ & Hd1 & [Hd2 _]%NoDup_cons).
      f_equal; [|f_equal]; symmetry; rewrite <- map_id; apply map_ext_in; intros x Hx%list_elem_of_In; rewrite decide_False; try done; intros E.
      * apply (Hd1 (hold_seq x)); [apply list_elem_of_fmap; by exists x|rewrite E; left].
      * apply Hd2. rewrite <- E. apply list_elem_of_fmap. by exists x.
    + intros x _. cbn beta. case_decide; by left.
  - by apply role_resume.
Qed.

Lemma reachable_roles s : reachable runId retryMs timeoutMs s -> role_inv s.
Proof.
  intros [now Hr]. pose proof (winv_boot runId now) as Hw.
  assert (role_inv (boot runId now)) as Hi by (constructor; cbn; [done|set_solver|done]).
  induction Hr as [|s1 s2 s3 H1 H2 IH]; [done|]. apply IH; [by eapply winv_step|by eapply role_step].
Qed.
End Roles.

(** ** Runs that end *)

Section Ends.
Context (runId : string) (retryMs timeoutMs : Z).

(** [n] was asked, is no longer the pending question and was never settled. *)
Definition lost (n : nat) (s : RunState) : Prop :=
  (n < next_seq s)%nat /\ pendingAsk s <> Some n /\ n ∉ settled_asks s.

Lemma lost_same n s s' :
  lost n s -> (next_seq s <= next_seq s')%nat ->
  pendingAsk s' = pendingAsk s \/ pendingAsk s' = None \/ pendingAsk s' = Some (next_seq s) ->
  settled_asks s' = settled_asks s \/ (exists k, pendingAsk s = Some k /\ settled_asks s' = settled_asks s ++ [k]) -> lost n s'.
Proof.
  intros (H1 & H2 & H3) Hn Hp Hs. split_and!; [lia|destruct Hp as [->|[->| ->]]; [done|done|intros [=]; lia]|].
  destruct Hs as [->|(k & Hk & ->)]; [done|]. intros [?| ->%list_elem_of_singleton]%elem_of_app; done.
Qed.

Lemma lost_conclude n body reply s : lost n s -> lost n (conclude runId timeoutMs body reply s).
Proof.
  intros Hl. destruct (publishHeld_published runId timeoutMs body (next_seq s) (bump s)) as (_ & Hn & _ & _ & Hk & Hse & _).
  eapply lost_same; [exact Hl| |left; exact Hk|left].
  - unfold conclude, set_main; cbn [next_seq]. rewrite Hn. cbn. lia.
  - unfold settled_asks, conclude, set_main; cbn [settled]. by rewrite Hse.
Qed.

Lemma lost_down n msg s : lost n s -> lost n (onDown msg s).
Proof.
  intros Hl. destruct msg as [message|reason| | |k|c ok r e]; cbn [onDown]; try done.
  - destruct (pendingAsk s) as [k|] eqn:Hk; [|done]. eapply lost_same; [exact Hl|done|by right; left|].
    right. exists k. split; [done|]. apply (settle_ids [AskAnswered k message] (releaseHold k (set_pendingAsk None s))).
  - rewrite onCancel_eq. eapply lost_same; [exact Hl|done|by right; left|]. unfold settled_asks; cbn. rewrite omap_app.
    destruct (pendingAsk s) as [k|]; [right; exists k; split; [done|]|left]; cbn.
    + change (omap ask_of (settled s) ++ k :: omap ask_of (map (fun c => ToolCancelled c reason) (pendingToolCalls s)) =
        omap ask_of (settled s) ++ [k]). by rewrite cancelled_asks.
    + rewrite cancelled_asks. by rewrite app_nil_r.
  - case_decide; [|done]. destruct ok; (eapply lost_same; [exact Hl|done|by left|left]);
      unfold settled_asks; cbn; rewrite omap_app; by rewrite app_nil_r.
Qed.

Lemma lost_step n s s' : lost n s -> step runId retryMs timeoutMs s s' -> lost n s'.
Proof.
  intros Hl Hs. destruct Hs as
    [s ms Hms| s msg | s ok Hm | s ? ? ? Hst | s ? Hst | s q Hst | s c tool input Hst Hc | s m r Hm | s t Hm | s r Hm | s t Hm | s Hm
     | s bef aft h f Hh Hp Hf | s bef aft h Hh Hp];
    try (eapply lost_same; [exact Hl|cbn; lia|by left|by left]).
  - by apply lost_down.
  - unfold ask. destruct (aborted s).
    { eapply lost_same; [exact Hl|done|by left|left]. unfold settled_asks; cbn. rewrite omap_app. by rewrite app_nil_r. }
    destruct (publishHeld_published runId timeoutMs (Reply q false None) (next_seq s) (set_pendingAsk (Some (next_seq s)) (bump s)))
      as (_ & Hn & _ & _ & Hk & Hse & _).
    eapply lost_same; [exact Hl|rewrite Hn; cbn; lia|right; right; exact Hk|left]. unfold settled_asks. by rewrite Hse.
  - unfold callTool. destruct (aborted s); [|eapply lost_same; [exact Hl|cbn; lia|by left|by left]].
    eapply lost_same; [exact Hl|done|by left|left]. unfold settled_asks; cbn. rewrite omap_app. by rewrite app_nil_r.
  - by apply lost_conclude.
  - unfold handler_throws. destruct (_ && _); [by apply lost_conclude|]. eapply lost_same; [exact Hl|done|by left|by left].
  - unfold handler_throws. destruct (_ && _); [by apply lost_conclude|]. eapply lost_same; [exact Hl|done|by left|by left].
  - assert (forall x l m, lost n (mkRun (clock s) (next_seq s) (aborted s) (pendingAsk s) x (pendingToolCalls s) l (settled s) m)) as Hgo
      by (intros; exact Hl).
    unfold hold_resume. destruct (keeps_offering h s); [destruct (h_phase h); apply Hgo|].
    destruct (main (set_holds (bef ++ aft) s)); try case_decide; apply Hgo.
Qed.

(** The last steps of a held conclusion: its deadline comes, its timer fires if
    it is parked, and the loop ends. *)
Lemma resume_closes bef aft h s :
  holds s = bef ++ h :: aft -> main s = Concluding (hold_seq h) -> keeps_offering h s = false ->
  main (hold_resume retryMs bef aft h s) = Closed /\ published (hold_resume retryMs bef aft h s) = published s.
Proof.
  intros Hh Hm Hk. unfold hold_resume. rewrite Hk. cbn [main set_holds]. rewrite Hm, decide_True by done. done.
Qed.

Lemma concluding_closes n s :
  role_inv s -> main s = Concluding n ->
  exists s', rtc (step runId retryMs timeoutMs) s s' /\ main s' = Closed /\ published s' = published s.
Proof.
  intros Hi Hm. destruct (ri_main _ Hi n Hm) as (h & Hh & <- & _). apply list_elem_of_split in Hh as (bef & aft & Hh).
  set (late := Z.max (h_deadline h) (match h_phase h with Parked f => f | _ => 0 end)).
  set (s1 := tick (1 + Z.max 0 (late - clock s)) s).
  assert (step runId retryMs timeoutMs s s1) as H1 by (apply step_tick; lia).
  assert (forall h', h_deadline h' = h_deadline h -> keeps_offering h' s1 = false) as Hk.
  { intros h' Hd. unfold keeps_offering. rewrite (proj2 (Z.ltb_ge _ _)); [by rewrite andb_false_r|]. rewrite Hd. cbn. lia. }
  destruct (h_phase h) as [|fires|] eqn:Hp.
  2: { set (h2 := mkHold (h_env h) (h_deadline h) (h_acked h) (h_done h) Woken).
       destruct (resume_closes bef aft h2 (set_holds (bef ++ h2 :: aft) s1) eq_refl Hm (Hk h2 eq_refl)) as [Hc Hpub].
       eexists. split; [|split; [exact Hc|exact Hpub]].
       eapply rtc_l; [exact H1|]. eapply rtc_l; [eapply (step_timer _ _ _ _ s1 bef aft h fires); [exact Hh|exact Hp|cbn; lia]|].
       apply rtc_once. by apply step_resume. }
  all: destruct (resume_closes bef aft h s1 Hh Hm (Hk h eq_refl)) as [Hc Hpub];
    eexists; (split; [|split; [exact Hc|exact Hpub]]); eapply rtc_l; [exact H1|];
    apply rtc_once; apply step_resume; [exact Hh|]; by rewrite Hp.
Qed.
End Ends.

(** A run leaves its conclusion only when the loop that holds it ends. *)
Lemma concluding_waits (runId : string) (retryMs timeoutMs : Z) (s : RunState) (n : nat) :
  reachable runId retryMs timeoutMs s -> main s = Concluding n ->
  exists h, h ∈ holds s /\ hold_seq h = n /\
    forall s', step runId retryMs timeoutMs s s' -> main s' <> Concluding n ->
      h_acked h = true \/ aborted s = true \/ up_ts (h_env h) + timeoutMs <= clock s.
Proof.
  intros Hs Hm. apply reachable_roles in Hs as Hi. apply reachable_times in Hs as Ht. apply reachable_winv in Hs as Hw.
  destruct (ri_main _ Hi n Hm) as (h & Hh & En & Hq).
  exists h. split; [done|]. split; [done|]. intros s' Hstep Hend.
  assert (keeps_offering h s = false) as Hk.
  { destruct Hstep as
      [s ms Hms| s msg | s ok Hm' | s ? ? ? Hst | s ? Hst | s q Hst | s c tool input Hst Hc | s m r Hm' | s t Hm' | s r Hm' | s t Hm' | s Hm'
       | s bef aft h' f Hh' Hp Hf | s bef aft h' Hh' Hp]; try congruence; try (by destruct Hend).
    - destruct Hend. destruct msg; cbn [onDown]; try done.
      + by destruct (pendingAsk s).
      + by rewrite onCancel_eq.
      + case_decide; [|done]. by destruct ok.
    - destruct Hend. unfold ask. destruct (aborted s); [done|].
      destruct (publishHeld_published runId timeoutMs (Reply q false None) (next_seq s) (set_pendingAsk (Some (next_seq s)) (bump s)))
        as (_ & _ & _ & -> & _). done.
    - destruct Hend. unfold callTool. by destruct (aborted s).
    - unfold hold_resume in Hend. destruct (keeps_offering h' s) eqn:Hk'; [destruct Hend; by destruct (h_phase h')|].
      cbn [main set_holds] in Hend. rewrite Hm in Hend. case_decide as E; [|by destruct Hend].
      assert (h = h') as ->; [|done].
      apply list_elem_of_lookup in Hh as [i Hi']. assert (holds s !! length bef = Some h') as Hj by (rewrite Hh'; by apply list_lookup_middle).
      assert (i = length bef) as ->; [|congruence].
      eapply NoDup_lookup; [apply (wi_keys _ _ _ Hw)| |]; rewrite list_lookup_fmap; [by rewrite Hi'|rewrite Hj; cbn; congruence]. }
  unfold keeps_offering in Hk. destruct (h_acked h) eqn:Ha; [by left|]. destruct (aborted s) eqn:Hab; [by right; left|].
  destruct (h_done h) eqn:Hd.
  - destruct (ri_done _ Hi h Hh Hd); congruence.
  - right; right. cbn in Hk. apply Z.ltb_ge in Hk. destruct (ti_holds _ _ _ Ht h Hh) as (Hdl & _). lia.
Qed.

(** ** Properties *)

(** What the agent puts on the wire. A consumer that drops sequence
    numbers it has seen receives the messages 0, 1, 2, ... in that order with
    none missing; a repeated number repeats the whole message; and only
    concluding messages and questions are ever repeated. *)
Theorem wire_sequence (runId : string) (retryMs timeoutMs : Z) (s : RunState)
    (Hs : reachable runId retryMs timeoutMs s) :
  up_seq <$> received (published s) = seq 0 (next_seq s) /\
  (forall m, m ∈ published s -> m ∈ received (published s)) /\
  (forall m, m ∈ published s -> is_held (up_body m) = false -> offers (up_seq m) (published s) = 1%nat).
Proof. apply reachable_winv in Hs as Hw. split_and!; [apply Hw|apply Hw|apply (wi_once _ _ _ Hw)]. Qed.

(** An acknowledged message, an answered question, and after a cancellation
    every message sent so far, are never put on the wire again, however the run
    goes on. *)
Theorem spent_never_reoffered (runId : string) (retryMs timeoutMs : Z) (s s' : RunState) (msg : AgentDownMessage) (n : nat)
    (Hn : (n < next_seq s)%nat)
    (Hmsg : match msg with
            | ReplyAck k => k = n
            | Prompt _ => pendingAsk s = Some n
            | Cancel _ => True
            | _ => False
            end)
    (Hr : rtc (step runId retryMs timeoutMs) (onDown msg s) s') :
  offers n (published s') = offers n (published s).
Proof.
  assert (published (onDown msg s) = published s /\ quieted n (onDown msg s)) as [Hp Hq].
  { destruct msg as [message|reason| | |k|]; try done; cbn [onDown].
    - rewrite Hmsg. split; [done|]. split; [done|]. cbn. intros h (h0 & <- & H0)%list_elem_of_In%in_map_iff.
      case_decide as E; [by right; left|]. intros E'. by destruct E.
    - rewrite onCancel_eq. split; [done|]. split; [done|]. intros h _ _. by right; right.
    - subst k. split; [done|]. split; [done|]. cbn. intros h (h0 & <- & H0)%list_elem_of_In%in_map_iff.
      case_decide as E; [by left|]. intros E'. by destruct E. }
  rewrite <- Hp. by eapply quieted_rtc.
Qed.

(** Every tool call of the handler is settled at most once and none is
    forgotten: the calls on the wire are exactly the pending ones and the
    settled ones, without repetition, and once the run is cancelled none is
    pending. *)
Theorem tool_calls_settle (runId : string) (retryMs timeoutMs : Z) (s : RunState)
    (Hs : reachable runId retryMs timeoutMs s) :
  call_ids s ≡ₚ pendingToolCalls s ++ settled_calls s /\ NoDup (pendingToolCalls s ++ settled_calls s) /\
  NoDup (settled_asks s) /\ (aborted s = true -> pendingToolCalls s = [] /\ pendingAsk s = None).
Proof.
  apply reachable_promises in Hs as [H1 H2 H3 H4 H5 H6]. split_and!; [done| |done|done]. by rewrite <- H1.
Qed.

(** A second question strands the first. The session does not refuse an
    [ask] while another is pending, it forgets the first one, whose promise is
    then never settled: not by an answer, and not by a cancellation. *)
Theorem second_ask_strands_first (runId : string) (retryMs timeoutMs : Z) (s s' : RunState) (n : nat) (question : string)
    (Hs : reachable runId retryMs timeoutMs s) (Hlive : aborted s = false) (Hask : pendingAsk s = Some n)
    (Hr : rtc (step runId retryMs timeoutMs) (ask runId timeoutMs question s) s') :
  n ∉ settled_asks s' /\ pendingAsk s' <> Some n.
Proof.
  apply reachable_promises in Hs as [_ _ _ _ H5 H6].
  assert (lost n (ask runId timeoutMs question s)) as Hl.
  { unfold ask. rewrite Hlive.
    destruct (publishHeld_published runId timeoutMs (Reply question false None) (next_seq s) (set_pendingAsk (Some (next_seq s)) (bump s)))
      as (_ & Hn & _ & _ & Hk & Hse & _).
    specialize (H5 n (or_intror Hask)). unfold lost, settled_asks. rewrite Hn, Hk, Hse. split_and!; [cbn; lia|cbn; intros [=]; lia|by apply H6]. }
  assert (lost n s') as (_ & H1 & H2); [|done].
  clear -Hr Hl. induction Hr as [|s1 s2 s3 Ha Hb IH]; [done|]. apply IH. by eapply lost_step.
Qed.

(** The number of times a message is offered is bounded by the two
    settings: the re-offers times the retry interval stay below the timeout.
    (A retry interval that [setTimeout] does not accept counts as 1 ms.) *)
Theorem offers_bounded (runId : string) (retryMs timeoutMs : Z) (s : RunState) (m : AgentUpMessage)
    (Hs : reachable runId retryMs timeoutMs s) (Hm : m ∈ published s) :
  let k := Z.of_nat (offers (up_seq m) (published s)) in
  k = 1 \/ (k - 1) * timer_delay retryMs < timeoutMs.
Proof. apply reachable_times in Hs as Hi. by apply (ti_offers _ _ _ Hi). Qed.

(** The conclusion of a run is neither dropped nor held for ever. The run
    waits on its held conclusion until it is acknowledged, the run is
    cancelled, or [timeoutMs] have passed since it was first sent; and from
    every state in which it waits, it can end without sending anything more. *)
Theorem conclusion_held (runId : string) (retryMs timeoutMs : Z) (s : RunState) (n : nat)
    (Hs : reachable runId retryMs timeoutMs s) (Hm : main s = Concluding n) :
  (exists h, h ∈ holds s /\ hold_seq h = n /\
     forall s', step runId retryMs timeoutMs s s' -> main s' <> Concluding n ->
       h_acked h = true \/ aborted s = true \/ up_ts (h_env h) + timeoutMs <= clock s) /\
  (exists s', rtc (step runId retryMs timeoutMs) s s' /\ main s' = Closed /\ published s' = published s).
Proof.
  split; [by apply concluding_waits|]. apply reachable_roles in Hs. by eapply concluding_closes.
Qed.

(** ** Witnesses: a run that asks, re-offers the question, and concludes *)

Definition demo_step : RunState -> RunState -> Prop := step "run-1" REPLY_ACK_RETRY_MS REPLY_ACK_TIMEOUT_MS.

Definition demo_running : RunState := set_main Running (boot "run-1" 0).
Definition demo_asked : RunState := ask "run-1" REPLY_ACK_TIMEOUT_MS "Which branch?" demo_running.
Definition demo_hold (phase : HoldPhase) : Hold :=
  mkHold (mkUp "run-1" 1 0 (Reply "Which branch?" false None)) 600000 false false phase.
Definition demo_parked : RunState := hold_resume REPLY_ACK_RETRY_MS [] [] (demo_hold Offering) demo_asked.
Definition demo_woken : RunState := set_holds [demo_hold Woken] (tick 10000 demo_parked).
Definition demo_again : RunState := hold_resume REPLY_ACK_RETRY_MS [] [] (demo_hold Woken) demo_woken.
Definition demo_concluding : RunState := handler_returns "run-1" REPLY_ACK_TIMEOUT_MS "done" None demo_running.

Lemma demo_reach_running : rtc demo_step (boot "run-1" 0) demo_running.
Proof. apply rtc_once. by apply (step_ready _ _ _ _ _ true). Qed.

Lemma demo_reach_asked : reachable "run-1" REPLY_ACK_RETRY_MS REPLY_ACK_TIMEOUT_MS demo_asked.
Proof. exists 0. eapply rtc_r; [apply demo_reach_running|]. by apply step_ask. Qed.

Lemma demo_reach_again : reachable "run-1" REPLY_ACK_RETRY_MS REPLY_ACK_TIMEOUT_MS demo_again.
Proof.
  destruct demo_reach_asked as [now Hr]. exists now. etransitivity; [exact Hr|].
  eapply rtc_l; [by apply (step_resume _ _ _ _ demo_asked [] [] (demo_hold Offering))|].
  eapply rtc_l; [by apply (step_tick _ _ _ _ demo_parked 10000)|].
  eapply rtc_l; [by apply (step_timer _ _ _ _ (tick 10000 demo_parked) [] [] (demo_hold (Parked 10000)) 10000)|].
  apply rtc_once. by apply (step_resume _ _ _ _ demo_woken [] [] (demo_hold Woken)).
Qed.

Lemma demo_reach_concluding : reachable "run-1" REPLY_ACK_RETRY_MS REPLY_ACK_TIMEOUT_MS demo_concluding.
Proof. exists 0. eapply rtc_r; [apply demo_reach_running|]. by apply step_return. Qed.

Lemma wire_sequence_witness :
  up_seq <$> published demo_again = [0; 1; 1]%nat /\ up_seq <$> received (published demo_again) = seq 0 2.
Proof.
  split; [reflexivity|].
  exact (proj1 (wire_sequence "run-1" REPLY_ACK_RETRY_MS REPLY_ACK_TIMEOUT_MS demo_again demo_reach_again)).
Defined.

Lemma spent_never_reoffered_witness :
  let s' := hold_resume REPLY_ACK_RETRY_MS [] [] (mark_acked (demo_hold Offering)) (onDown (ReplyAck 1) demo_again) in
  offers 1 (published s') = offers 1 (published demo_again).
Proof.
  intros s'. apply (spent_never_reoffered "run-1" REPLY_ACK_RETRY_MS REPLY_ACK_TIMEOUT_MS demo_again s' (ReplyAck 1) 1).
  - vm_compute. lia.
  - reflexivity.
  - apply rtc_once. by apply (step_resume _ _ _ _ (onDown (ReplyAck 1) demo_again) [] [] (mark_acked (demo_hold Offering))).
Defined.

Lemma tool_calls_settle_witness : call_ids demo_again ≡ₚ pendingToolCalls demo_again ++ settled_calls demo_again.
Proof. exact (proj1 (tool_calls_settle "run-1" REPLY_ACK_RETRY_MS REPLY_ACK_TIMEOUT_MS demo_again demo_reach_again)). Defined.

Lemma second_ask_strands_first_witness :
  1%nat ∉ settled_asks (onDown (Cancel None) (onDown (Prompt "main") (ask "run-1" REPLY_ACK_TIMEOUT_MS "And which tag?" demo_asked))).
Proof.
  apply (second_ask_strands_first "run-1" REPLY_ACK_RETRY_MS REPLY_ACK_TIMEOUT_MS demo_asked
    (onDown (Cancel None) (onDown (Prompt "main") (ask "run-1" REPLY_ACK_TIMEOUT_MS "And which tag?" demo_asked))) 1 "And which tag?").
  - exact demo_reach_asked.
  - reflexivity.
  - reflexivity.
  - eapply rtc_l; [by apply (step_down _ _ _ _ _ (Prompt "main"))|]. apply rtc_once. by apply (step_down _ _ _ _ _ (Cancel None)).
Defined.

Lemma offers_bounded_witness :
  let m := mkUp "run-1" 1 0 (Reply "Which branch?" false None) in
  m ∈ published demo_again /\ (Z.of_nat (offers 1 (published demo_again)) - 1) * timer_delay REPLY_ACK_RETRY_MS < REPLY_ACK_TIMEOUT_MS.
Proof.
  intros m. assert (m ∈ published demo_again) as Hm by (right; left). split; [exact Hm|].
  destruct (offers_bounded "run-1" REPLY_ACK_RETRY_MS REPLY_ACK_TIMEOUT_MS demo_again m demo_reach_again Hm) as [H|H]; [|exact H].
  vm_compute in H. discriminate H.
Defined.

Lemma conclusion_held_witness :
  main demo_concluding = Concluding 1 /\
  exists s', rtc demo_step demo_concluding s' /\ main s' = Closed /\ published s' = published demo_concluding.
Proof.
  split; [reflexivity|].
  exact (proj2 (conclusion_held "run-1" REPLY_ACK_RETRY_MS REPLY_ACK_TIMEOUT_MS demo_concluding 1 demo_reach_concluding eq_refl)).
Defined.
