(* ===== verification/AgentChannel.v ===== *)
(** * Agent channel: the orchestrator's side of a sub-agent's run
    (apps/agent-orchestrator/src/agents/nats-agent-channel.ts, reply-store.ts)

    [NatsAgentChannel] as a step relation over the messages of AgentRuntime. The
    state holds every [awaitReply], live viewer and forwarded request made so
    far, the idle clocks, what was published to the agents, and the replies
    recorded in the store. A message that arrives is put into each open
    subscription of its run ([deliver]) and read later ([read]); what the NATS
    library does with messages that wait when a subscription is closed is left
    open: they may be read or dropped. [None] stands for bytes that [decode]
    refuses. The callbacks of a wait may throw; they are functions of their
    arguments. Times are milliseconds. *)

From stdpp Require Import base gmap strings list.
From Stdlib Require Import ZArith Lia.
From S2P Require Import Prelude JsString JsNumber Json JsMap JsList AgentRuntime.

#[local] Open Scope Z_scope.

(** ** Data *)

Record AgentTurnResult := mkTurnResult {
  tr_message : string;
  tr_final : bool;
  tr_result : option json;
  tr_narration : list string
}.

Inductive AgentTurnError :=
| AgentTurnTimeoutError (message : string)
| AgentTurnTransportError (message : string)
| AgentTurnFailedError (code message : string)
| AgentTurnApprovalPendingError (callId tool input : string) (expiresAt : Z).

Record SubAgentApprovalCall := mkApprovalCall {
  sc_callId : string;
  sc_tool : string;
  sc_input : string;
  sc_expiresAt : Z
}.

Record OpencodeProxyResult := mkProxyResult {
  pr_status : Z;
  pr_body : option json
}.

(** The options of [awaitReply], less the two promises, which are steps. A
    callback that throws does so with the message of its error. *)
Record AwaitOptions := mkAwait {
  aw_idleTimeoutMs : option Z;
  aw_onProgress : option (option string -> string -> result string unit);
  aw_onToolCall : option (string -> string -> string -> result string unit)
}.

Definition DEFAULT_IDLE_TIMEOUT_MS : Z := 10 * 60 * 1000.
Definition DEFAULT_OPENCODE_PROXY_TIMEOUT_MS : Z := 10 * 60 * 1000.

(** A subscription of the up subject of [sb_run], with what it has received and
    its reader has not read. *)
Record Subscription := mkSub {
  sb_run : string;
  sb_open : bool;
  sb_queue : list (option AgentUpMessage)
}.

Definition unsubscribe (s : Subscription) : Subscription := mkSub (sb_run s) false (sb_queue s).

Definition receive (run : string) (m : option AgentUpMessage) (s : Subscription) : Subscription :=
  if sb_open s && bool_decide (sb_run s = run) then mkSub (sb_run s) true (sb_queue s ++ [m]) else s.

(** Where an [awaitReply] is: in its loop, at the await of [replyStore.set], or
    settled. *)
Inductive WaitPhase :=
| Reading
| Recording (reply : AgentTurnResult) (seq : nat)
| Settled (outcome : result AgentTurnError AgentTurnResult).

(** The locals of an [awaitReply]; [wt_read] is the log of what its loop read,
    and when. *)
Record Wait := mkWait {
  wt_sub : Subscription;
  wt_opts : AwaitOptions;
  wt_narration : list string;
  wt_owedToolResults : list string;
  wt_idleTimer : option Z;
  wt_timedOut : bool;
  wt_runFailedReason : option string;
  wt_approvalPendingCall : option SubAgentApprovalCall;
  wt_phase : WaitPhase;
  wt_read : list (Z * option AgentUpMessage)
}.

Definition wt_run (w : Wait) : string := sb_run (wt_sub w).

Definition idleTimeoutMs (w : Wait) : Z := aw_idleTimeoutMs (wt_opts w) ?? DEFAULT_IDLE_TIMEOUT_MS.

Definition set_sub (f : Subscription -> Subscription) (w : Wait) : Wait :=
  mkWait (f (wt_sub w)) (wt_opts w) (wt_narration w) (wt_owedToolResults w) (wt_idleTimer w) (wt_timedOut w)
    (wt_runFailedReason w) (wt_approvalPendingCall w) (wt_phase w) (wt_read w).

Definition set_timer (t : option Z) (w : Wait) : Wait :=
  mkWait (wt_sub w) (wt_opts w) (wt_narration w) (wt_owedToolResults w) t (wt_timedOut w)
    (wt_runFailedReason w) (wt_approvalPendingCall w) (wt_phase w) (wt_read w).

Definition set_owed (l : list string) (w : Wait) : Wait :=
  mkWait (wt_sub w) (wt_opts w) (wt_narration w) l (wt_idleTimer w) (wt_timedOut w)
    (wt_runFailedReason w) (wt_approvalPendingCall w) (wt_phase w) (wt_read w).

Definition set_phase (p : WaitPhase) (w : Wait) : Wait :=
  mkWait (wt_sub w) (wt_opts w) (wt_narration w) (wt_owedToolResults w) (wt_idleTimer w) (wt_timedOut w)
    (wt_runFailedReason w) (wt_approvalPendingCall w) p (wt_read w).

Definition narrate (text : string) (w : Wait) : Wait :=
  mkWait (wt_sub w) (wt_opts w) (wt_narration w ++ [text]) (wt_owedToolResults w) (wt_idleTimer w) (wt_timedOut w)
    (wt_runFailedReason w) (wt_approvalPendingCall w) (wt_phase w) (wt_read w).

(** The head of the queue leaves it and is logged. *)
Definition take_message (now : Z) (m : option AgentUpMessage) (rest : list (option AgentUpMessage)) (w : Wait) : Wait :=
  mkWait (mkSub (wt_run w) (sb_open (wt_sub w)) rest) (wt_opts w) (wt_narration w) (wt_owedToolResults w)
    (wt_idleTimer w) (wt_timedOut w) (wt_runFailedReason w) (wt_approvalPendingCall w) (wt_phase w) (wt_read w ++ [(now, m)]).

(** ** One wait *)

Definition armIdleTimer (now : Z) (w : Wait) : Wait :=
  if bool_decide (wt_owedToolResults w = []) then set_timer (Some (now + timer_delay (idleTimeoutMs w))) w
  else set_timer None w.

Definition settle_wait (outcome : result AgentTurnError AgentTurnResult) (w : Wait) : Wait :=
  set_timer None (set_phase (Settled outcome) w).

Definition lost_message (run : string) (because : option string) : string :=
  "lost the NATS subscription for agent run " +:+ run +:+ " before it replied" +:+
  (match because with Some e => " (" +:+ e +:+ ")" | None => EmptyString end) +:+ "; the run may still be in progress".

(** The catch, for an error that is none of the four. *)
Definition fail_wait (e : string) (w : Wait) : Wait :=
  settle_wait (Err (AgentTurnTransportError (lost_message (wt_run w) (Some e)))) w.

Definition after_callback (outcome : option (result string unit)) (w : Wait) : Wait :=
  match outcome with
  | Some (Err e) => fail_wait e w
  | _ => w
  end.

(** One round of the loop: the wait, and the sequence number to acknowledge. *)
Definition on_message (now : Z) (m : option AgentUpMessage) (w : Wait) : Wait * option nat :=
  let w := armIdleTimer now w in
  match m with
  | None => (w, None)
  | Some msg =>
      match up_body msg with
      | Progress stage text _ =>
          (after_callback ((fun f => f stage text) <$> aw_onProgress (wt_opts w)) (narrate text w), None)
      | Warning text =>
          (after_callback ((fun f => f (Some "warning") text) <$> aw_onProgress (wt_opts w))
             (narrate ("Warning: " +:+ text) w), None)
      | Reply text final res =>
          (set_phase (Recording (mkTurnResult text final res (wt_narration w)) (up_seq msg)) w, None)
      | Failed code text =>
          (settle_wait (Err (AgentTurnFailedError code text)) (set_sub unsubscribe w), Some (up_seq msg))
      | ToolCall callId tool input =>
          (after_callback ((fun f => f callId tool input) <$> aw_onToolCall (wt_opts w))
             (armIdleTimer now (set_owed (set_add (wt_owedToolResults w) callId) w)), None)
      | _ => (w, None)
      end
  end.

(** What is thrown when the iteration ends. *)
Definition loop_end (w : Wait) : AgentTurnError :=
  match wt_approvalPendingCall w, wt_runFailedReason w with
  | Some c, _ => AgentTurnApprovalPendingError (sc_callId c) (sc_tool c) (sc_input c) (sc_expiresAt c)
  | None, Some reason => AgentTurnFailedError "run_failed" reason
  | None, None =>
      if wt_timedOut w
      then AgentTurnTimeoutError ("agent run " +:+ wt_run w +:+ " went silent for " +:+ Z_to_string (idleTimeoutMs w) +:+
             "ms after " +:+ Z_to_string (Z.of_nat (length (wt_narration w))) +:+ " progress message(s)")
      else AgentTurnTransportError (lost_message (wt_run w) None)
  end.

Definition timed_out (w : Wait) : Wait :=
  mkWait (unsubscribe (wt_sub w)) (wt_opts w) (wt_narration w) (wt_owedToolResults w) None true
    (wt_runFailedReason w) (wt_approvalPendingCall w) (wt_phase w) (wt_read w).

Definition run_failed (reason : string) (w : Wait) : Wait :=
  mkWait (unsubscribe (wt_sub w)) (wt_opts w) (wt_narration w) (wt_owedToolResults w) (wt_idleTimer w) (wt_timedOut w)
    (Some reason) (wt_approvalPendingCall w) (wt_phase w) (wt_read w).

Definition approval_needed (call : SubAgentApprovalCall) (w : Wait) : Wait :=
  mkWait (unsubscribe (wt_sub w)) (wt_opts w) (wt_narration w) (wt_owedToolResults w) (wt_idleTimer w) (wt_timedOut w)
    (wt_runFailedReason w) (Some call) (wt_phase w) (wt_read w).

(** ** The channel *)

Record DownEnvelope := mkDown {
  dn_run : string;
  dn_seq : nat;
  dn_ts : Z;
  dn_body : AgentDownMessage
}.

(** A [subscribeLive], and what it has handed to its viewer. *)
Record Viewer := mkViewer {
  vw_sub : Subscription;
  vw_seen : list AgentUpMessage
}.

(** A [forwardOpencodeRequest]. *)
Record Proxy := mkProxy {
  px_sub : Subscription;
  px_requestId : string;
  px_timeoutMs : Z;
  px_deadline : option Z;
  px_outcome : option (result AgentTurnError OpencodeProxyResult)
}.

(** [ch_store] is the reply store, if there is one; [ch_recorded] is the log of
    the writes it took. *)
Record Channel := mkChannel {
  ch_clock : Z;
  ch_seq : nat;
  ch_waits : list Wait;
  ch_viewers : list Viewer;
  ch_proxies : list Proxy;
  ch_idleClocks : gmap string nat;
  ch_sent : list DownEnvelope;
  ch_store : option (gmap string AgentTurnResult);
  ch_recorded : list (string * AgentTurnResult)
}.

Definition connected (now : Z) (store : bool) : Channel :=
  mkChannel now 0 [] [] [] ∅ [] (if store then Some ∅ else None) [].

Definition set_waits (l : list Wait) (c : Channel) : Channel :=
  mkChannel (ch_clock c) (ch_seq c) l (ch_viewers c) (ch_proxies c) (ch_idleClocks c) (ch_sent c) (ch_store c) (ch_recorded c).

Definition set_viewers (l : list Viewer) (c : Channel) : Channel :=
  mkChannel (ch_clock c) (ch_seq c) (ch_waits c) l (ch_proxies c) (ch_idleClocks c) (ch_sent c) (ch_store c) (ch_recorded c).

Definition set_proxies (l : list Proxy) (c : Channel) : Channel :=
  mkChannel (ch_clock c) (ch_seq c) (ch_waits c) (ch_viewers c) l (ch_idleClocks c) (ch_sent c) (ch_store c) (ch_recorded c).

Definition set_idleClocks (m : gmap string nat) (c : Channel) : Channel :=
  mkChannel (ch_clock c) (ch_seq c) (ch_waits c) (ch_viewers c) (ch_proxies c) m (ch_sent c) (ch_store c) (ch_recorded c).

Definition set_store (s : option (gmap string AgentTurnResult)) (c : Channel) : Channel :=
  mkChannel (ch_clock c) (ch_seq c) (ch_waits c) (ch_viewers c) (ch_proxies c) (ch_idleClocks c) (ch_sent c) s (ch_recorded c).

(** The encoded message handed to [nc.publish]. *)
Definition publish_down (run : string) (body : AgentDownMessage) (c : Channel) : Channel :=
  mkChannel (ch_clock c) (S (ch_seq c)) (ch_waits c) (ch_viewers c) (ch_proxies c) (ch_idleClocks c)
    (ch_sent c ++ [mkDown run (ch_seq c) (ch_clock c) body]) (ch_store c) (ch_recorded c).

Definition wait_ticks (ms : Z) (c : Channel) : Channel :=
  mkChannel (ch_clock c + ms) (ch_seq c) (ch_waits c) (ch_viewers c) (ch_proxies c) (ch_idleClocks c)
    (ch_sent c) (ch_store c) (ch_recorded c).

(** *** The reply store *)

Definition recordedReply (run : string) (c : Channel) : option AgentTurnResult := ch_store c ≫= (fun m => m !! run).

Definition forgetRecordedReply (run : string) (c : Channel) : Channel := set_store (delete run <$> ch_store c) c.

Definition store_reply (run : string) (reply : AgentTurnResult) (c : Channel) : Channel :=
  match ch_store c with
  | Some m =>
      mkChannel (ch_clock c) (ch_seq c) (ch_waits c) (ch_viewers c) (ch_proxies c) (ch_idleClocks c) (ch_sent c)
        (Some (<[run := reply]> m)) (ch_recorded c ++ [(run, reply)])
  | None => c
  end.

(** *** Messages from the agents *)

Definition deliver (run : string) (m : option AgentUpMessage) (c : Channel) : Channel :=
  set_waits (set_sub (receive run m) <$> ch_waits c)
    (set_viewers ((fun v => mkViewer (receive run m (vw_sub v)) (vw_seen v)) <$> ch_viewers c)
      (set_proxies ((fun p => mkProxy (receive run m (px_sub p)) (px_requestId p) (px_timeoutMs p) (px_deadline p) (px_outcome p))
                      <$> ch_proxies c) c)).

(** *** Waits *)

Definition put_wait (i : nat) (w : Wait) (c : Channel) : Channel := set_waits (<[i := w]> (ch_waits c)) c.

Definition awaitReply (run : string) (opts : AwaitOptions) (c : Channel) : Channel :=
  let w := armIdleTimer (ch_clock c) (mkWait (mkSub run true []) opts [] [] None false None None Reading []) in
  set_idleClocks (<[run := length (ch_waits c)]> (ch_idleClocks c)) (set_waits (ch_waits c ++ [w]) c).

(** The [finally]: a wait that has settled takes its clock back, if it is still
    the one of its run. *)
Definition leave (i : nat) (c : Channel) : Channel :=
  match ch_waits c !! i with
  | Some w =>
      match wt_phase w with
      | Settled _ =>
          if bool_decide (ch_idleClocks c !! wt_run w = Some i) then set_idleClocks (delete (wt_run w) (ch_idleClocks c)) c else c
      | _ => c
      end
  | None => c
  end.

Definition ackConcluding (run : string) (ackSeq : nat) : Channel -> Channel := publish_down run (ReplyAck ackSeq).

Definition read (i : nat) (c : Channel) : Channel :=
  match ch_waits c !! i with
  | Some w =>
      match wt_phase w, sb_queue (wt_sub w) with
      | Reading, m :: rest =>
          let '(w', ack) := on_message (ch_clock c) m (take_message (ch_clock c) m rest w) in
          leave i (put_wait i w' (match ack with Some n => ackConcluding (wt_run w) n c | None => c end))
      | _, _ => c
      end
  | None => c
  end.

(** [replyStore.set] has settled, with the message of its error if it failed. *)
Definition recorded (i : nat) (outcome : result string unit) (c : Channel) : Channel :=
  match ch_waits c !! i with
  | Some w =>
      match wt_phase w with
      | Recording reply n =>
          match outcome with
          | Ok _ =>
              leave i (put_wait i (settle_wait (Ok reply) (set_sub unsubscribe w))
                         (ackConcluding (wt_run w) n (store_reply (wt_run w) reply c)))
          | Err e => leave i (put_wait i (fail_wait e w) c)
          end
      | _ => c
      end
  | None => c
  end.

(** The iteration of a closed subscription ends. *)
Definition iteration_ends (i : nat) (c : Channel) : Channel :=
  match ch_waits c !! i with
  | Some w =>
      match wt_phase w with
      | Reading => if sb_open (wt_sub w) then c else leave i (put_wait i (settle_wait (Err (loop_end w)) w) c)
      | _ => c
      end
  | None => c
  end.

(** The iteration is rejected by an error of the connection. *)
Definition iteration_throws (i : nat) (e : string) (c : Channel) : Channel :=
  match ch_waits c !! i with
  | Some w =>
      match wt_phase w with
      | Reading => leave i (put_wait i (fail_wait e w) c)
      | _ => c
      end
  | None => c
  end.

(** Whatever else changes a wait from the outside: its timer, its two promises,
    the loss of its subscription. *)
Definition update_wait (i : nat) (f : Wait -> Wait) (c : Channel) : Channel := set_waits (alter f i (ch_waits c)) c.

(** *** Messages to the agents *)

Definition sendPrompt (run message : string) : Channel -> Channel := publish_down run (Prompt message).

Definition resolveToolCall (run callId : string) (outcome : option json + string) (c : Channel) : Channel :=
  let c := publish_down run (match outcome with
                             | inl result => ToolResult callId true result None
                             | inr error => ToolResult callId false None (Some error)
                             end) c in
  match ch_idleClocks c !! run with
  | Some i =>
      update_wait i (fun w => armIdleTimer (ch_clock c)
                       (set_owed (filter (fun id => id <> callId) (wt_owedToolResults w)) w)) c
  | None => c
  end.

(** *** Live viewers *)

Definition subscribeLive (run : string) (c : Channel) : Channel :=
  set_viewers (ch_viewers c ++ [mkViewer (mkSub run true []) []]) c.

Definition viewer_read (v : Viewer) : Viewer :=
  match sb_queue (vw_sub v) with
  | m :: rest =>
      mkViewer (mkSub (sb_run (vw_sub v)) (sb_open (vw_sub v)) rest)
        (match m with Some msg => vw_seen v ++ [msg] | None => vw_seen v end)
  | [] => v
  end.

Definition viewer_close (v : Viewer) : Viewer := mkViewer (unsubscribe (vw_sub v)) (vw_seen v).

Definition update_viewer (i : nat) (f : Viewer -> Viewer) (c : Channel) : Channel := set_viewers (alter f i (ch_viewers c)) c.

(** *** Forwarded requests *)

(** [requestId] is the [randomUUID()]. *)
Definition forwardOpencodeRequest (run requestId method path : string) (body : option json) (timeoutMs : Z) (c : Channel) : Channel :=
  publish_down run (OpencodeRequest requestId method path body)
    (set_proxies (ch_proxies c ++ [mkProxy (mkSub run true []) requestId timeoutMs (Some (ch_clock c + timer_delay timeoutMs)) None]) c).

(** The [finally] of a request that has settled. *)
Definition proxy_settles (outcome : result AgentTurnError OpencodeProxyResult) (p : Proxy) : Proxy :=
  mkProxy (unsubscribe (px_sub p)) (px_requestId p) (px_timeoutMs p) None (Some outcome).

Definition proxy_read (p : Proxy) : Proxy :=
  match px_outcome p, sb_queue (px_sub p) with
  | None, m :: rest =>
      let p' := mkProxy (mkSub (sb_run (px_sub p)) (sb_open (px_sub p)) rest) (px_requestId p) (px_timeoutMs p) (px_deadline p) None in
      match up_body <$> m with
      | Some (OpencodeResponse requestId status body) =>
          if bool_decide (requestId = px_requestId p) then proxy_settles (Ok (mkProxyResult status body)) p' else p'
      | _ => p'
      end
  | _, _ => p
  end.

Definition proxy_deadline (p : Proxy) : Proxy :=
  mkProxy (unsubscribe (px_sub p)) (px_requestId p) (px_timeoutMs p) None (px_outcome p).

(** The iteration of a closed subscription ends. *)
Definition proxy_ends (p : Proxy) : Proxy :=
  if sb_open (px_sub p) || bool_decide (is_Some (px_outcome p)) then p
  else proxy_settles (Err (AgentTurnTimeoutError ("agent run " +:+ sb_run (px_sub p) +:+ " did not respond to opencode_request " +:+
         px_requestId p +:+ " within " +:+ Z_to_string (px_timeoutMs p) +:+ "ms"))) p.

Definition proxy_throws (e : string) (p : Proxy) : Proxy :=
  if bool_decide (is_Some (px_outcome p)) then p
  else proxy_settles (Err (AgentTurnTransportError ("lost the NATS subscription while forwarding opencode_request " +:+
         px_requestId p +:+ " to agent run " +:+ sb_run (px_sub p) +:+ " (" +:+ e +:+ ")"))) p.

Definition proxy_lost (p : Proxy) : Proxy :=
  mkProxy (unsubscribe (px_sub p)) (px_requestId p) (px_timeoutMs p) (px_deadline p) (px_outcome p).

Definition update_proxy (i : nat) (f : Proxy -> Proxy) (c : Channel) : Channel := set_proxies (alter f i (ch_proxies c)) c.

(** ** Steps *)

Section Steps.
(** The messages that the network may bring, by run. *)
Variable carried : string -> AgentUpMessage -> Prop.

Inductive chan_step : Channel -> Channel -> Prop :=
| cs_tick c ms : 0 < ms -> chan_step c (wait_ticks ms c)
| cs_deliver c run m : (forall msg, m = Some msg -> carried run msg) -> chan_step c (deliver run m c)
| cs_awaitReply c run opts : chan_step c (awaitReply run opts c)
| cs_read c i : chan_step c (read i c)
| cs_recorded c i : chan_step c (recorded i (Ok tt) c)
| cs_not_recorded c i e : is_Some (ch_store c) -> chan_step c (recorded i (Err e) c)
| cs_ends c i : chan_step c (iteration_ends i c)
| cs_throws c i e : chan_step c (iteration_throws i e c)
| cs_idle c i w f : ch_waits c !! i = Some w -> wt_idleTimer w = Some f -> f <= ch_clock c -> chan_step c (update_wait i timed_out c)
| cs_runFailed c i w reason : ch_waits c !! i = Some w -> wt_runFailedReason w = None -> chan_step c (update_wait i (run_failed reason) c)
| cs_approval c i w call :
    ch_waits c !! i = Some w -> wt_approvalPendingCall w = None -> chan_step c (update_wait i (approval_needed call) c)
| cs_lost c i : chan_step c (update_wait i (set_sub unsubscribe) c)
| cs_sendPrompt c run message : chan_step c (sendPrompt run message c)
| cs_resolveToolCall c run callId outcome : chan_step c (resolveToolCall run callId outcome c)
| cs_forget c run : chan_step c (forgetRecordedReply run c)
| cs_subscribeLive c run : chan_step c (subscribeLive run c)
| cs_viewer c i f : f = viewer_read \/ f = viewer_close -> chan_step c (update_viewer i f c)
| cs_forward c run requestId method path body timeoutMs :
    chan_step c (forwardOpencodeRequest run requestId method path body timeoutMs c)
| cs_proxy_deadline c i p f :
    ch_proxies c !! i = Some p -> px_deadline p = Some f -> f <= ch_clock c -> chan_step c (update_proxy i proxy_deadline c)
| cs_proxy c i f :
    f = proxy_read \/ f = proxy_ends \/ f = proxy_lost \/ (exists e, f = proxy_throws e) -> chan_step c (update_proxy i f c).

End Steps.

(** A message brought only if it is carried. *)
Definition chan_reachable (carried : string -> AgentUpMessage -> Prop) (c : Channel) : Prop :=
  exists now store, rtc (chan_step carried) (connected now store) c.

(** ** What was read, and what a wait returns *)

Definition concludes (m : option AgentUpMessage) : bool :=
  match up_body <$> m with
  | Some (Reply _ _ _) | Some (Failed _ _) => true
  | _ => false
  end.

(** What a message adds to the narration. *)
Definition narrated (m : option AgentUpMessage) : option string :=
  match up_body <$> m with
  | Some (Progress _ text _) => Some text
  | Some (Warning text) => Some ("Warning: " +:+ text)
  | _ => None
  end.

Definition narration_of (l : list (option AgentUpMessage)) : list string := omap narrated l.

(** [reply] is the conclusion [m] with the narration that preceded it. *)
Definition reply_of (pre : list (option AgentUpMessage)) (m : AgentUpMessage) (reply : AgentTurnResult) : Prop :=
  up_body m = Reply (tr_message reply) (tr_final reply) (tr_result reply) /\ tr_narration reply = narration_of pre.

(** The first conclusion of what was read, [m], after [pre]. *)
Definition first_conclusion (read : list (option AgentUpMessage)) (pre : list (option AgentUpMessage)) (m : AgentUpMessage) : Prop :=
  read = pre ++ [Some m] /\ Forall (fun x => concludes x = false) pre.

Definition nothing_concluded (read : list (option AgentUpMessage)) : Prop := Forall (fun x => concludes x = false) read.

(** The specification of [awaitReply]'s outcome over what it read. *)
Definition outcome_ok (w : Wait) (outcome : result AgentTurnError AgentTurnResult) : Prop :=
  let read := snd <$> wt_read w in
  match outcome with
  | Ok reply => exists pre m, first_conclusion read pre m /\ reply_of pre m reply
  | Err (AgentTurnFailedError code text) =>
      (exists pre m, first_conclusion read pre m /\ up_body m = Failed code text) \/
      nothing_concluded read /\ code = "run_failed" /\ wt_runFailedReason w = Some text
  | Err (AgentTurnTimeoutError _) => nothing_concluded read /\ wt_timedOut w = true
  | Err (AgentTurnApprovalPendingError callId tool input expiresAt) =>
      nothing_concluded read /\ wt_approvalPendingCall w = Some (mkApprovalCall callId tool input expiresAt)
  | Err (AgentTurnTransportError _) =>
      nothing_concluded read \/ exists pre m, first_conclusion read pre m /\ exists text final res, up_body m = Reply text final res
  end.

(** ** The invariant of a wait *)

Definition answered (sent : list DownEnvelope) (run callId : string) : Prop :=
  exists d ok res err, d ∈ sent /\ dn_run d = run /\ dn_body d = ToolResult callId ok res err.

Section Invariant.
Context (carried : string -> AgentUpMessage -> Prop).

Notation delay w := (timer_delay (idleTimeoutMs w)).

(** What it received came over the network, what it read it read in the past,
    and the tool calls it read are owed or answered. *)
Record heard_ok (now : Z) (sent : list DownEnvelope) (w : Wait) : Prop := mkHeard {
  hk_queue m : Some m ∈ sb_queue (wt_sub w) -> carried (wt_run w) m;
  hk_read m : Some m ∈ snd <$> wt_read w -> carried (wt_run w) m;
  hk_times t m : (t, m) ∈ wt_read w -> t <= now;
  hk_calls t m callId tool input : (t, Some m) ∈ wt_read w -> up_body m = ToolCall callId tool input ->
    callId ∈ wt_owedToolResults w \/ answered sent (wt_run w) callId
}.

(** The clock runs from the last message, and only while nothing is owed. *)
Definition timer_ok (w : Wait) : Prop :=
  forall f, wt_idleTimer w = Some f -> wt_owedToolResults w = [] /\ forall t m, (t, m) ∈ wt_read w -> t + delay w <= f.

Definition phase_ok (w : Wait) : Prop :=
  match wt_phase w with
  | Reading => nothing_concluded (snd <$> wt_read w) /\ wt_narration w = narration_of (snd <$> wt_read w)
  | Recording reply n => exists pre m, first_conclusion (snd <$> wt_read w) pre m /\ reply_of pre m reply /\ up_seq m = n
  | Settled outcome => outcome_ok w outcome
  end.

(** A wait in its loop is bounded: its clock runs, or has run out, or is paused. *)
Definition bounded_ok (w : Wait) : Prop :=
  wt_phase w = Reading -> wt_timedOut w = true \/ wt_owedToolResults w <> [] \/ is_Some (wt_idleTimer w).

Record wait_ok (now : Z) (sent : list DownEnvelope) (w : Wait) : Prop := mkWaitOk {
  wk_heard : heard_ok now sent w;
  wk_timer : timer_ok w;
  wk_phase : phase_ok w;
  wk_bounded : bounded_ok w
}.

Lemma heard_mono now now' sent sent' w :
  now <= now' -> sent ⊆ sent' -> heard_ok now sent w -> heard_ok now' sent' w.
Proof.
  intros Hn Hs [H1 H2 H3 H4]. constructor; [done|done| |].
  - intros t m Ht%H3. lia.
  - intros t m callId tool input Ht Hb. destruct (H4 _ _ _ _ _ Ht Hb) as [?|(d & ok & res & err & Hd & H)]; [by left|].
    right. exists d, ok, res, err. split; [by apply Hs|done].
Qed.

Lemma wait_mono now now' sent sent' w : now <= now' -> sent ⊆ sent' -> wait_ok now sent w -> wait_ok now' sent' w.
Proof. intros Hn Hs [H1 H2 H3 H4]. constructor; [by eapply heard_mono|done..]. Qed.

Lemma arm_eq now w : exists t, armIdleTimer now w = set_timer t w.
Proof. unfold armIdleTimer. case_bool_decide; eauto. Qed.

Lemma arm_timer now sent w : heard_ok now sent w -> timer_ok (armIdleTimer now w).
Proof.
  intros Hw f. unfold armIdleTimer. case_bool_decide as E; [|done]. intros [= <-]. split; [done|].
  intros t m Ht%(hk_times _ _ _ Hw). cbn. change (idleTimeoutMs (set_timer _ w)) with (idleTimeoutMs w). lia.
Qed.

Lemma arm_bounded now w : bounded_ok (armIdleTimer now w).
Proof. intros _. unfold armIdleTimer. case_bool_decide as E; [right; right; by eexists|by right; left]. Qed.

(** Rearming keeps the rest. *)
Lemma arm_ok now sent w : heard_ok now sent w -> phase_ok w -> wait_ok now sent (armIdleTimer now w).
Proof.
  intros Hh Hp. pose proof (arm_timer _ _ _ Hh) as Ht. pose proof (arm_bounded now w) as Hb.
  destruct (arm_eq now w) as [t E]. rewrite E in *. constructor; [by destruct Hh|done..].
Qed.

Lemma settle_wait_ok now sent w o : heard_ok now sent w -> outcome_ok w o -> wait_ok now sent (settle_wait o w).
Proof. intros Hh Ho. constructor; [by destruct Hh|done|by destruct o as [|[]]|done]. Qed.

Lemma fail_ok now sent w e :
  heard_ok now sent w -> phase_ok w -> (forall o, wt_phase w <> Settled o) -> wait_ok now sent (fail_wait e w).
Proof.
  intros Hh Hp Hs. apply settle_wait_ok; [done|]. unfold phase_ok in Hp. cbn. destruct (wt_phase w) as [|r n|o].
  - left. apply Hp.
  - destruct Hp as (pre & m & H1 & [H2 _] & _). right. exists pre, m. eauto.
  - by destruct (Hs o).
Qed.

Lemma callback_ok now sent w outcome :
  wait_ok now sent w -> (forall o, wt_phase w <> Settled o) -> wait_ok now sent (after_callback outcome w).
Proof. intros Hw Hs. destruct outcome as [[|e]|]; [exact Hw| |exact Hw]. apply fail_ok; [apply Hw..|exact Hs]. Qed.

Lemma narration_snoc l m : narration_of (l ++ [m]) = narration_of l ++ (match narrated m with Some t => [t] | None => [] end).
Proof. unfold narration_of. by rewrite omap_app. Qed.

Lemma nothing_snoc l m : nothing_concluded l -> concludes m = false -> nothing_concluded (l ++ [m]).
Proof. intros Hl Hm. apply Forall_app. split; [done|by constructor]. Qed.

Lemma narrate_ok now sent w text m t :
  wt_phase w = Reading -> heard_ok now sent w -> timer_ok w -> bounded_ok w ->
  wt_read w = t ++ [m] -> nothing_concluded (snd <$> t) -> wt_narration w = narration_of (snd <$> t) ->
  concludes (snd m) = false -> narrated (snd m) = Some text -> wait_ok now sent (narrate text w).
Proof.
  intros Hp Hh Ht Hb Hr Hn Hna Hc Hx. constructor; [by destruct Hh|done| |done].
  unfold phase_ok, narrate; cbn. rewrite Hp, Hr, fmap_app. cbn. split; [by apply nothing_snoc|].
  by rewrite narration_snoc, Hx, Hna.
Qed.

(** The head of the queue is taken: what follows is read before it. *)
Lemma take_heard now sent w m rest :
  heard_ok now sent w -> sb_queue (wt_sub w) = m :: rest ->
  (forall msg callId tool input, m = Some msg -> up_body msg = ToolCall callId tool input -> False) ->
  heard_ok now sent (take_message now m rest w).
Proof.
  intros [H1 H2 H3 H4] Hq Hm. constructor; cbn.
  - intros msg Hin. apply H1. rewrite Hq. by right.
  - rewrite fmap_app. intros msg [Hin|Hin]%elem_of_app; [by apply H2|]. apply H1. rewrite Hq. cbn in Hin. set_solver.
  - intros t x [Hin|[= -> ->]%list_elem_of_singleton]%elem_of_app; [by apply (H3 _ _ Hin)|lia].
  - intros t x callId tool input [Hin|[= -> E]%list_elem_of_singleton]%elem_of_app Hb; [by eapply H4|].
    by destruct (Hm _ _ _ _ (eq_sym E) Hb).
Qed.

Lemma take_call now sent w msg rest callId tool input :
  heard_ok now sent w -> sb_queue (wt_sub w) = Some msg :: rest -> up_body msg = ToolCall callId tool input ->
  heard_ok now sent (set_owed (set_add (wt_owedToolResults w) callId) (take_message now (Some msg) rest w)).
Proof.
  intros [H1 H2 H3 H4] Hq Hb. constructor; cbn.
  - intros m Hin. apply H1. rewrite Hq. by right.
  - rewrite fmap_app. intros m [Hin|Hin]%elem_of_app; [by apply H2|]. apply H1. rewrite Hq. cbn in Hin. set_solver.
  - intros t x [Hin|[= -> ->]%list_elem_of_singleton]%elem_of_app; [by apply (H3 _ _ Hin)|lia].
  - intros t x c tl inp [Hin|[= -> ->]%list_elem_of_singleton]%elem_of_app Hx.
    + destruct (H4 _ _ _ _ _ Hin Hx); [left; apply set_add_elem; by left|by right].
    + left. apply set_add_elem. right. congruence.
Qed.

(** Taking a message that is neither a conclusion nor a call, and rearming. *)
Lemma take_plain now sent w m rest :
  heard_ok now sent w -> wt_phase w = Reading -> phase_ok w -> sb_queue (wt_sub w) = m :: rest ->
  concludes m = false -> narrated m = None ->
  (forall msg callId tool input, m = Some msg -> up_body msg = ToolCall callId tool input -> False) ->
  wait_ok now sent (armIdleTimer now (take_message now m rest w)).
Proof.
  intros Hh Hp Hph Hq Hc Hn Hm. apply arm_ok; [by apply take_heard|]. unfold phase_ok in *. cbn. rewrite Hp in *.
  destruct Hph as [H1 H2]. rewrite fmap_app. cbn. split; [by apply nothing_snoc|]. by rewrite narration_snoc, Hn, app_nil_r.
Qed.

Lemma arm_fields now w :
  wt_phase (armIdleTimer now w) = wt_phase w /\ wt_read (armIdleTimer now w) = wt_read w /\
  wt_narration (armIdleTimer now w) = wt_narration w /\ wt_run (armIdleTimer now w) = wt_run w /\
  wt_opts (armIdleTimer now w) = wt_opts w /\ wt_owedToolResults (armIdleTimer now w) = wt_owedToolResults w.
Proof. by destruct (arm_eq now w) as [t ->]. Qed.

Lemma arm_heard now sent w : heard_ok now sent w -> heard_ok now sent (armIdleTimer now w).
Proof. destruct (arm_eq now w) as [t ->]. by intros []. Qed.

Lemma take_narrated now sent w msg rest text :
  heard_ok now sent w -> wt_phase w = Reading -> phase_ok w -> sb_queue (wt_sub w) = Some msg :: rest ->
  narrated (Some msg) = Some text ->
  wait_ok now sent (narrate text (armIdleTimer now (take_message now (Some msg) rest w))).
Proof.
  intros Hh Hp Hph Hq Hn. set (w1 := take_message now (Some msg) rest w).
  assert (heard_ok now sent w1) as H1.
  { apply take_heard; [done|done|]. intros m c t i [= <-] Hb. unfold narrated in Hn. cbn in Hn. by rewrite Hb in Hn. }
  destruct (arm_fields now w1) as (E1 & E2 & E3 & _). unfold phase_ok in Hph. rewrite Hp in Hph. destruct Hph.
  eapply narrate_ok; [by rewrite E1|by apply arm_heard|by eapply arm_timer|apply arm_bounded|by rewrite E2|done| | |exact Hn].
  - by rewrite E3.
  - unfold narrated, concludes in *. cbn in *. by destruct (up_body msg).
Qed.

Lemma arm_again now l w : armIdleTimer now (set_owed l (armIdleTimer now w)) = armIdleTimer now (set_owed l w).
Proof. destruct (arm_eq now w) as [t ->]. unfold armIdleTimer. cbn. by case_bool_decide. Qed.

Lemma after_callback_run outcome w : wt_run (after_callback outcome w) = wt_run w.
Proof. by destruct outcome as [[]|]. Qed.

Lemma take_conclusion now sent w msg rest :
  heard_ok now sent w -> wt_phase w = Reading -> phase_ok w -> sb_queue (wt_sub w) = Some msg :: rest ->
  concludes (Some msg) = true ->
  heard_ok now sent (take_message now (Some msg) rest w) /\
  first_conclusion (snd <$> (wt_read w ++ [(now, Some msg)])) (snd <$> wt_read w) msg.
Proof.
  intros Hh Hp Hph Hq Hc. split.
  - apply take_heard; [done|done|]. intros m c t i [= <-] Hb. unfold concludes in Hc. cbn in Hc. by rewrite Hb in Hc.
  - unfold phase_ok in Hph. rewrite Hp in Hph. split; [by rewrite fmap_app|apply Hph].
Qed.

Lemma on_message_ok now sent w m rest w' ack :
  wait_ok now sent w -> wt_phase w = Reading -> sb_queue (wt_sub w) = m :: rest ->
  on_message now m (take_message now m rest w) = (w', ack) ->
  (wait_ok now sent w' /\ wt_run w' = wt_run w) /\
  forall n, ack = Some n -> exists msg, carried (wt_run w) msg /\ up_seq msg = n /\ exists code text, up_body msg = Failed code text.
Proof.
  intros [Hh _ Hph _] Hp Hq. set (w1 := take_message now m rest w).
  destruct (arm_fields now w1) as (E1 & E2 & E3 & E4 & E5 & E6).
  assert (forall msg, m = Some msg -> carried (wt_run w) msg) as Hm.
  { intros msg ->. apply (hk_queue _ _ _ Hh). rewrite Hq. left. }
  assert (forall x, concludes m = false -> narrated m = None ->
    (forall msg callId tool input, m = Some msg -> up_body msg = ToolCall callId tool input -> False) ->
    x = armIdleTimer now w1 -> wait_ok now sent x /\ wt_run x = wt_run w) as Hplain.
  { intros x H1 H2 H3 ->. split; [by apply take_plain|done]. }
  assert (forall x o text, narrated m = Some text -> x = after_callback o (narrate text (armIdleTimer now w1)) ->
    wait_ok now sent x /\ wt_run x = wt_run w) as Htell.
  { intros x o text H1 ->. destruct m as [msg|]; [|done]. split; [|by rewrite after_callback_run].
    apply callback_ok; [by apply take_narrated|]. cbn. rewrite E1. cbn. by rewrite Hp. }
  unfold on_message. destruct m as [msg|]; [destruct (up_body msg) as [|stage text pct|text|text fin res|code text|ev|rq st bd|lu|rs|callId tool input] eqn:Hb|];
    intros [= <- <-]; (split; [|try done]);
    try (eapply Hplain; try done; unfold concludes, narrated; cbn; rewrite ?Hb; try done; intros ? ? ? ? [= <-]; by rewrite Hb);
    try (eapply Htell; [|reflexivity]; unfold narrated; cbn; by rewrite Hb).
  - destruct (take_conclusion now sent w msg rest) as [H1 H2]; [done..|unfold concludes; cbn; by rewrite Hb|].
    split; [|done]. constructor; [by apply (arm_heard now) in H1 as []|by apply arm_timer in H1| |done].
    unfold phase_ok. cbn. rewrite E2. exists (snd <$> wt_read w), msg. split; [exact H2|]. split; [|done].
    split; [by rewrite Hb|]. unfold phase_ok in Hph. rewrite Hp in Hph. cbn. rewrite E3. apply Hph.
  - destruct (take_conclusion now sent w msg rest) as [H1 H2]; [done..|unfold concludes; cbn; by rewrite Hb|].
    split; [|done]. apply settle_wait_ok; [by apply (arm_heard now) in H1 as []|]. left. exists (snd <$> wt_read w), msg.
    cbn. rewrite E2. by split.
  - intros n [= <-]. exists msg. split; [by apply Hm|]. split; [done|]. by exists code, text.
  - rewrite E6, arm_again, after_callback_run. split; [|by destruct (arm_fields now (set_owed (set_add (wt_owedToolResults w1) callId) w1)) as (_ & _ & _ & -> & _)].
    apply callback_ok.
    + apply arm_ok; [by eapply (take_call now sent w)|]. unfold phase_ok in *. cbn. rewrite Hp in *. destruct Hph as [P1 P2].
      rewrite fmap_app. cbn. split; [apply nothing_snoc; [done|]|rewrite narration_snoc]; unfold concludes, narrated; cbn; rewrite Hb; [done|].
      by rewrite app_nil_r.
    + destruct (arm_eq now (set_owed (set_add (wt_owedToolResults w1) callId) w1)) as [t ->]. cbn. by rewrite Hp.
Qed.

(** ** The invariant of the channel *)

(** An acknowledgement is of a failure, or of a reply that the store took. *)
Definition safe_ack (c : Channel) (run : string) (n : nat) : Prop :=
  exists m, carried run m /\ up_seq m = n /\
    ((exists code text, up_body m = Failed code text) \/
     exists pre reply, reply_of pre m reply /\ (is_Some (ch_store c) -> (run, reply) ∈ ch_recorded c)).

Record chan_ok (c : Channel) : Prop := mkChanOk {
  co_waits i w : ch_waits c !! i = Some w -> wait_ok (ch_clock c) (ch_sent c) w;
  co_acks d n : d ∈ ch_sent c -> dn_body d = ReplyAck n -> safe_ack c (dn_run d) n;
  co_seqs : dn_seq <$> ch_sent c = seq 0 (ch_seq c);
  co_store run reply : recordedReply run c = Some reply -> (run, reply) ∈ ch_recorded c;
  co_clocks run i : ch_idleClocks c !! run = Some i ->
    exists w, ch_waits c !! i = Some w /\ wt_run w = run /\ forall o, wt_phase w <> Settled o
}.

Lemma safe_ack_mono c c' run n :
  (is_Some (ch_store c') -> is_Some (ch_store c)) -> ch_recorded c ⊆ ch_recorded c' -> safe_ack c run n -> safe_ack c' run n.
Proof.
  intros Hs Hr (m & H1 & H2 & H3). exists m. split; [done|]. split; [done|]. destruct H3 as [?|(pre & reply & H3 & H4)]; [by left|].
  right. exists pre, reply. split; [done|]. intros H. by apply Hr, H4, Hs.
Qed.

(** Parts of the state that the invariant does not read. *)
Lemma chan_same c c' :
  chan_ok c -> ch_clock c' = ch_clock c -> ch_seq c' = ch_seq c -> ch_waits c' = ch_waits c ->
  ch_idleClocks c' = ch_idleClocks c -> ch_sent c' = ch_sent c -> ch_store c' = ch_store c -> ch_recorded c' = ch_recorded c ->
  chan_ok c'.
Proof.
  intros [H1 H2 H3 H4 H5] E1 E2 E3 E4 E5 E6 E7. constructor; rewrite ?E1, ?E2, ?E3, ?E4, ?E5; try done.
  - intros d n Hd Hb. apply (safe_ack_mono c); [by rewrite E6|by rewrite E7|by apply H2].
  - unfold recordedReply. by rewrite E6, E7.
Qed.

Lemma tick_ok c ms : 0 < ms -> chan_ok c -> chan_ok (wait_ticks ms c).
Proof. intros Hms [H1 H2 H3 H4 H5]. constructor; try done. intros i w Hi. eapply wait_mono; [|done|by eapply H1]. cbn. lia. Qed.

Lemma publish_down_ok c run body :
  chan_ok c -> (forall n, body = ReplyAck n -> safe_ack c run n) -> chan_ok (publish_down run body c).
Proof.
  intros [H1 H2 H3 H4 H5] Hb. constructor; try done.
  - intros i w Hi. eapply wait_mono; [done| |by eapply H1]. cbn. set_solver.
  - intros d n [Hd| ->%list_elem_of_singleton]%elem_of_app E; [by apply H2|by apply Hb].
  - change (dn_seq <$> (ch_sent c ++ [mkDown run (ch_seq c) (ch_clock c) body]) = seq 0 (S (ch_seq c))).
    by rewrite fmap_app, H3, seq_S.
Qed.

Lemma store_reply_ok c run reply : chan_ok c -> chan_ok (store_reply run reply c).
Proof.
  intros [H1 H2 H3 H4 H5]. unfold store_reply. destruct (ch_store c) as [m|] eqn:E; [|by constructor].
  constructor; try done.
  - intros d n Hd Hb. apply (safe_ack_mono c); [| |by apply H2]; cbn; [by rewrite E|set_solver].
  - unfold recordedReply in *. cbn. rewrite E in H4. cbn in H4. intros run' r. destruct (decide (run' = run)) as [->|Hne].
    + rewrite lookup_insert_eq. intros [= ->]. set_solver.
    + rewrite lookup_insert_ne by done. intros Hr%H4. set_solver.
Qed.

Lemma forget_ok c run : chan_ok c -> chan_ok (forgetRecordedReply run c).
Proof.
  intros [H1 H2 H3 H4 H5]. constructor; try done.
  - intros d n Hd Hb. apply (safe_ack_mono c); [|done|by apply H2]. cbn. by rewrite fmap_is_Some.
  - unfold recordedReply in *. cbn. intros run' r. destruct (ch_store c) as [m|]; [|done]. cbn in *.
    intros [_ Hr]%lookup_delete_Some. by apply H4.
Qed.

(** A wait is replaced, and leaves if it has settled. *)
Lemma put_ok c i w w' :
  chan_ok c -> ch_waits c !! i = Some w -> wait_ok (ch_clock c) (ch_sent c) w' -> wt_run w' = wt_run w ->
  chan_ok (leave i (put_wait i w' c)).
Proof.
  intros [H1 H2 H3 H4 H5] Hi Hw Hr. pose proof (lookup_lt_Some _ _ _ Hi) as Hlt.
  assert (forall cl, (forall run j, cl !! run = Some j -> ch_idleClocks c !! run = Some j) ->
    (forall run o, cl !! run = Some i -> wt_phase w' <> Settled o) ->
    chan_ok (set_idleClocks cl (put_wait i w' c))) as Hgo.
  { intros cl Hcl Hset. constructor; try done.
    - intros j x. cbn. destruct (decide (i = j)) as [<-|Hne].
      + rewrite list_lookup_insert_eq by done. by intros [= <-].
      + rewrite list_lookup_insert_ne by done. by apply H1.
    - cbn. intros run j Hj. destruct (H5 _ _ (Hcl _ _ Hj)) as (x & Hx & Ex & Hs). destruct (decide (i = j)) as [<-|Hne].
      + exists w'. rewrite list_lookup_insert_eq by done. split; [done|]. split; [congruence|]. intros o. by eapply Hset.
      + exists x. by rewrite list_lookup_insert_ne by done. }
  unfold leave. cbn. rewrite list_lookup_insert_eq by done.
  assert (put_wait i w' c = set_idleClocks (ch_idleClocks c) (put_wait i w' c)) as E by done.
  destruct (wt_phase w') as [| |o] eqn:Ep; [rewrite E; by apply Hgo..|].
  case_bool_decide as Eb.
  - apply Hgo; [by intros run j [_ ?]%lookup_delete_Some|]. intros run o' [Hne Hj]%lookup_delete_Some.
    destruct (H5 _ _ Hj) as (x & Hx & Ex & _). congruence.
  - rewrite E. apply Hgo; [done|]. intros run o' Hj. destruct (H5 _ _ Hj) as (x & Hx & Ex & _). congruence.
Qed.

(** A wait changed in place, in the same phase. *)
Lemma update_ok c i f :
  chan_ok c -> (forall w, wt_run (f w) = wt_run w /\ wt_phase (f w) = wt_phase w) ->
  (forall w, ch_waits c !! i = Some w -> wait_ok (ch_clock c) (ch_sent c) w -> wait_ok (ch_clock c) (ch_sent c) (f w)) ->
  chan_ok (update_wait i f c).
Proof.
  intros [H1 H2 H3 H4 H5] Hf Hw. constructor; try done; cbn.
  - intros j x. destruct (decide (i = j)) as [<-|Hne].
    + rewrite list_lookup_alter_eq. intros (w & Hi & ->)%fmap_Some. apply Hw; [done|by eapply H1].
    + rewrite list_lookup_alter_ne by done. by apply H1.
  - intros run j Hj. destruct (H5 _ _ Hj) as (x & Hx & Ex & Hs). destruct (decide (i = j)) as [<-|Hne].
    + exists (f x). rewrite list_lookup_alter_eq, Hx. destruct (Hf x) as [Er Ep]. rewrite Er, Ep. done.
    + exists x. by rewrite list_lookup_alter_ne by done.
Qed.

Lemma heard_sub now sent w f :
  heard_ok now sent w -> sb_run (f (wt_sub w)) = wt_run w ->
  (forall m, Some m ∈ sb_queue (f (wt_sub w)) -> carried (wt_run w) m) -> heard_ok now sent (set_sub f w).
Proof.
  intros [H1 H2 H3 H4] Hr Hq. constructor; unfold wt_run; cbn [set_sub wt_sub wt_read wt_owedToolResults]; rewrite ?Hr; done.
Qed.

Lemma sub_ok now sent w f :
  wait_ok now sent w -> sb_run (f (wt_sub w)) = wt_run w ->
  (forall m, Some m ∈ sb_queue (f (wt_sub w)) -> carried (wt_run w) m) -> wait_ok now sent (set_sub f w).
Proof. intros [H1 H2 H3 H4] Hr Hq. constructor; [by apply heard_sub|done..]. Qed.

Lemma receive_run run m s : sb_run (receive run m s) = sb_run s.
Proof. unfold receive. by destruct (_ && _). Qed.

Lemma deliver_ok c run m : chan_ok c -> (forall msg, m = Some msg -> carried run msg) -> chan_ok (deliver run m c).
Proof.
  intros [H1 H2 H3 H4 H5] Hm. constructor; try done; cbn.
  - intros i w'. rewrite list_lookup_fmap. intros (w & Hi & ->)%fmap_Some. pose proof (H1 _ _ Hi) as Hw.
    apply sub_ok; [done|apply receive_run|]. intros x. unfold receive. destruct (_ && _) eqn:E; [|by apply (hk_queue _ _ _ (wk_heard _ _ _ Hw))].
    apply andb_true_iff in E as [_ E]. apply bool_decide_eq_true in E. cbn.
    intros [Hx|Hx%list_elem_of_singleton]%elem_of_app; [by apply (hk_queue _ _ _ (wk_heard _ _ _ Hw))|].
    change (carried (sb_run (wt_sub w)) x). rewrite E. by apply Hm.
  - intros run' i Hi. destruct (H5 _ _ Hi) as (w & Hw & Hr & Hs). exists (set_sub (receive run m) w).
    rewrite list_lookup_fmap, Hw. split; [done|]. split; [|done]. change (sb_run (receive run m (wt_sub w)) = run'). by rewrite receive_run.
Qed.

Lemma awaitReply_ok c run opts : chan_ok c -> chan_ok (awaitReply run opts c).
Proof.
  intros [H1 H2 H3 H4 H5]. set (w0 := mkWait (mkSub run true []) opts [] [] None false None None Reading []).
  assert (wait_ok (ch_clock c) (ch_sent c) (armIdleTimer (ch_clock c) w0)) as H0.
  { apply arm_ok; [|by split; [constructor|]]. by constructor; intros *; intros ?%elem_of_nil. }
  destruct (arm_fields (ch_clock c) w0) as (Ep & _ & _ & Er & _).
  constructor; try done; unfold awaitReply; fold w0; cbn.
  - intros i w [Hi|[_ Hi]]%lookup_app_Some; [by eapply H1|]. apply list_lookup_singleton_Some in Hi as [_ <-]. exact H0.
  - intros run' i. destruct (decide (run' = run)) as [->|Hne].
    + rewrite lookup_insert_eq. intros [= <-]. exists (armIdleTimer (ch_clock c) w0).
      rewrite list_lookup_middle by done. rewrite Er, Ep. done.
    + rewrite lookup_insert_ne by done. intros Hi. destruct (H5 _ _ Hi) as (w & Hw & H). exists w.
      by rewrite (lookup_app_l_Some _ _ _ _ Hw).
Qed.

Lemma read_ok c i : chan_ok c -> chan_ok (read i c).
Proof.
  intros Hc. unfold read. destruct (ch_waits c !! i) as [w|] eqn:Hi; [|done].
  destruct (wt_phase w) eqn:Hp; [|done..]. destruct (sb_queue (wt_sub w)) as [|m rest] eqn:Hq; [done|].
  destruct (on_message _ _ _) as [w' ack] eqn:Hon.
  destruct (on_message_ok _ _ _ _ _ _ _ (co_waits _ Hc _ _ Hi) Hp Hq Hon) as [[Hw Hr] Hack].
  eapply (put_ok _ i w); [| |eapply wait_mono; [| |exact Hw]|exact Hr]; destruct ack as [n|]; try done.
  - apply publish_down_ok; [done|]. intros k [= <-]. destruct (Hack n eq_refl) as (m' & H1 & H2 & H3). exists m'. eauto.
  - cbn. set_solver.
Qed.

Lemma recorded_ok c i outcome : chan_ok c -> chan_ok (recorded i outcome c).
Proof.
  intros Hc. unfold recorded. destruct (ch_waits c !! i) as [w|] eqn:Hi; [|done].
  pose proof (co_waits _ Hc _ _ Hi) as [Hh Ht Hp Hb]. unfold phase_ok in Hp.
  destruct (wt_phase w) as [|reply n|o] eqn:Ep; [done| |done]. destruct Hp as (pre & m & H1 & H2 & H3).
  destruct outcome as [[]|e].
  - eapply (put_ok _ i w); [| | |done].
    + apply publish_down_ok; [by apply store_reply_ok|]. intros k [= <-]. exists m. split_and!.
      * apply (hk_read _ _ _ Hh). destruct H1 as [-> _]. set_solver.
      * done.
      * right. exists pre, reply. split; [done|]. unfold store_reply. destruct (ch_store c) eqn:Es; cbn; [intros _; set_solver|rewrite Es; by intros []].
    + cbn. unfold store_reply. by destruct (ch_store c).
    + eapply (wait_mono (ch_clock c) _ (ch_sent c)).
      * cbn. unfold store_reply. by destruct (ch_store c).
      * cbn. unfold store_reply. destruct (ch_store c); set_solver.
      * apply settle_wait_ok; [apply heard_sub; [done|done|apply Hh]|]. exists pre, m. by split.
  - eapply (put_ok _ i w); [done|done| |done]. apply fail_ok; [done| |by rewrite Ep]. unfold phase_ok. rewrite Ep. by exists pre, m.
Qed.

Lemma loop_end_ok now sent w :
  wait_ok now sent w -> wt_phase w = Reading -> outcome_ok w (Err (loop_end w)).
Proof.
  intros [_ _ Hp _] Ep. unfold phase_ok in Hp. rewrite Ep in Hp. destruct Hp as [Hn _]. unfold loop_end.
  destruct (wt_approvalPendingCall w) as [[]|] eqn:Ea; [by split|].
  destruct (wt_runFailedReason w) eqn:Er; [by right|]. destruct (wt_timedOut w) eqn:Et; [by split|by left].
Qed.

Lemma iteration_ends_ok c i : chan_ok c -> chan_ok (iteration_ends i c).
Proof.
  intros Hc. unfold iteration_ends. destruct (ch_waits c !! i) as [w|] eqn:Hi; [|done].
  destruct (wt_phase w) eqn:Ep; [|done..]. destruct (sb_open (wt_sub w)); [done|].
  pose proof (co_waits _ Hc _ _ Hi) as Hw. eapply (put_ok _ i w); [done|done| |done].
  apply settle_wait_ok; [apply Hw|by eapply loop_end_ok].
Qed.

Lemma iteration_throws_ok c i e : chan_ok c -> chan_ok (iteration_throws i e c).
Proof.
  intros Hc. unfold iteration_throws. destruct (ch_waits c !! i) as [w|] eqn:Hi; [|done].
  destruct (wt_phase w) eqn:Ep; [|done..]. pose proof (co_waits _ Hc _ _ Hi) as Hw.
  eapply (put_ok _ i w); [done|done| |done]. apply fail_ok; [apply Hw..|by rewrite Ep].
Qed.

(** A change that closes the subscription and sets a flag that was not set. *)
Lemma flag_ok now sent w w' :
  wait_ok now sent w -> wt_sub w' = unsubscribe (wt_sub w) -> wt_opts w' = wt_opts w -> wt_narration w' = wt_narration w ->
  wt_owedToolResults w' = wt_owedToolResults w -> wt_phase w' = wt_phase w -> wt_read w' = wt_read w ->
  (wt_idleTimer w' = wt_idleTimer w \/ wt_idleTimer w' = None /\ wt_timedOut w' = true) ->
  (wt_timedOut w = true -> wt_timedOut w' = true) ->
  (forall r, wt_runFailedReason w = Some r -> wt_runFailedReason w' = Some r) ->
  (forall a, wt_approvalPendingCall w = Some a -> wt_approvalPendingCall w' = Some a) ->
  wait_ok now sent w'.
Proof.
  intros [H1 H2 H3 H4] Es Eo En Ew Ep Er Ei Ht Hf Ha.
  assert (wt_run w' = wt_run w) as Erun by (unfold wt_run; by rewrite Es). constructor.
  - destruct H1 as [A B C D]. constructor; rewrite ?Erun, ?Es, ?Er, ?Ew; done.
  - intros f. assert (idleTimeoutMs w' = idleTimeoutMs w) as -> by (unfold idleTimeoutMs; by rewrite Eo).
    rewrite Ew, Er. destruct Ei as [->|[-> _]]; [by apply H2|done].
  - unfold phase_ok in *. rewrite Ep, En, Er. destruct (wt_phase w) as [| |o]; [done|done|]. unfold outcome_ok in *. rewrite Er.
    destruct o as [r|[]]; [done|by destruct H3; auto|done| |by destruct H3; auto].
    destruct H3 as [H3|(A & B & C)]; [by left|right]. auto.
  - unfold bounded_ok in *. rewrite Ep, Ew. intros Hr. destruct (H4 Hr) as [?|[?|?]]; [left; auto|right; by left|].
    destruct Ei as [->|[_ ->]]; [by right; right|by left].
Qed.

Lemma resolveToolCall_ok c run callId outcome : chan_ok c -> chan_ok (resolveToolCall run callId outcome c).
Proof.
  intros Hc. unfold resolveToolCall. set (body := match outcome with inl _ => _ | inr _ => _ end).
  assert (exists ok res err, body = ToolResult callId ok res err) as (ok & res & err & Eb) by (destruct outcome; repeat eexists).
  assert (chan_ok (publish_down run body c)) as H1 by (apply publish_down_ok; [done|intros n; by rewrite Eb]).
  set (c1 := publish_down run body c) in *. destruct (ch_idleClocks c1 !! run) as [i|] eqn:Hcl; [|done].
  destruct (co_clocks _ H1 _ _ Hcl) as (w0 & Hw0 & Hrun & _). apply update_ok; [done| |].
  - intros w. by destruct (arm_eq (ch_clock c1) (set_owed (filter (fun id => id <> callId) (wt_owedToolResults w)) w)) as [t ->].
  - intros w Hi [[A B C D] _ Hp _]. assert (w = w0) as -> by congruence. apply arm_ok; [|done]. constructor; [done..|].
    intros t m c' tool input Hin Hb. destruct (D _ _ _ _ _ Hin Hb) as [Hd|Hd]; [|by right].
    destruct (decide (c' = callId)) as [->|Hne]; [|left; cbn; by apply list_elem_of_filter].
    right. exists (mkDown run (ch_seq c) (ch_clock c) body), ok, res, err. split; [cbn; set_solver|done].
Qed.

Lemma chan_step_ok c c' : chan_ok c -> chan_step carried c c' -> chan_ok c'.
Proof.
  intros Hc Hs. destruct Hs as [| | | | | | | |c i w f Hi Hf Hle|c i w r Hi Hr|c i w a Hi Ha|c i| | | | | | | |].
  - by apply tick_ok.
  - by apply deliver_ok.
  - by apply awaitReply_ok.
  - by apply read_ok.
  - by apply recorded_ok.
  - by apply recorded_ok.
  - by apply iteration_ends_ok.
  - by apply iteration_throws_ok.
  - apply update_ok; [done|done|]. intros x Hx Hw. by eapply flag_ok; [exact Hw|..|by right| | |].
  - apply update_ok; [done|done|]. intros x Hx Hw. eapply flag_ok; [exact Hw|done..|by left|done| |done].
    intros r'. cbn. congruence.
  - apply update_ok; [done|done|]. intros x Hx Hw. eapply flag_ok; [exact Hw|done..|by left|done|done|].
    intros a'. cbn. congruence.
  - apply update_ok; [done|done|]. intros x Hx Hw. by eapply flag_ok; [exact Hw|..|by left| | |].
  - apply publish_down_ok; [done|by intros n].
  - by apply resolveToolCall_ok.
  - by apply forget_ok.
  - by eapply chan_same.
  - by eapply chan_same.
  - apply publish_down_ok; [by eapply chan_same|by intros n].
  - by eapply chan_same.
  - by eapply chan_same.
Qed.

Lemma connected_ok now store : chan_ok (connected now store).
Proof.
  constructor; try done; [intros d n H%elem_of_nil; done|].
  unfold recordedReply. intros run r. by destruct store.
Qed.

Lemma chan_reachable_ok c : chan_reachable carried c -> chan_ok c.
Proof.
  intros (now & store & Hr). pose proof (connected_ok now store) as H. induction Hr as [|c1 c2 c3 H1 H2 IH]; [done|].
  apply IH. by eapply chan_step_ok.
Qed.
End Invariant.

(** ** How a wait settles *)

Section Settling.
Context (carried : string -> AgentUpMessage -> Prop).

(** A wait that is settled was settled before the step, or by it. *)
Definition settled_before (c : Channel) (i : nat) (w' : Wait) : Prop :=
  exists w, ch_waits c !! i = Some w /\ wt_phase w = wt_phase w' /\ wt_read w = wt_read w'.

Lemma before_fmap c c' i f w' :
  ch_waits c' = f <$> ch_waits c -> (forall w, wt_phase (f w) = wt_phase w /\ wt_read (f w) = wt_read w) ->
  ch_waits c' !! i = Some w' -> settled_before c i w'.
Proof.
  intros E Hf. rewrite E, list_lookup_fmap. intros (w & Hw & ->)%fmap_Some. exists w. destruct (Hf w) as [-> ->]. by split_and!.
Qed.

Lemma before_alter c i j f w' :
  ch_waits (update_wait j f c) !! i = Some w' -> (forall w, wt_phase (f w) = wt_phase w /\ wt_read (f w) = wt_read w) ->
  settled_before c i w'.
Proof.
  intros Hw Hf. revert Hw. cbn. destruct (decide (j = i)) as [->|Hne].
  - rewrite list_lookup_alter_eq. intros (w & Hw & ->)%fmap_Some. exists w. destruct (Hf w) as [-> ->]. by split_and!.
  - rewrite list_lookup_alter_ne by done. by exists w'.
Qed.

Lemma before_same c c' i w' : ch_waits c' = ch_waits c -> ch_waits c' !! i = Some w' -> settled_before c i w'.
Proof. intros -> Hw. by exists w'. Qed.

Lemma before_put {c d i j v w'} :
  ch_waits (put_wait j v d) !! i = Some w' -> ch_waits d = ch_waits c -> settled_before c i w' \/ (i = j /\ w' = v).
Proof.
  intros Hw E. cbn in Hw. rewrite E in Hw. apply list_lookup_insert_Some in Hw as [(-> & <- & _)|[_ Hw]]; [by right|left; by exists w'].
Qed.

Lemma store_waits run reply c : ch_waits (store_reply run reply c) = ch_waits c.
Proof. unfold store_reply. by destruct (ch_store c). Qed.

Lemma leave_keeps_waits i c : ch_waits (leave i c) = ch_waits c.
Proof. unfold leave. by repeat case_match. Qed.

(** The write of the reply of wait [i] was refused, and nothing was sent. *)
Definition refusal (c : Channel) (i : nat) (e : string) (c' : Channel) : Prop :=
  is_Some (ch_store c) /\ (exists w reply n, ch_waits c !! i = Some w /\ wt_phase w = Recording reply n) /\
  c' = recorded i (Err e) c /\ ch_sent c' = ch_sent c /\ ch_store c' = ch_store c.

Definition lost (w : Wait) : Prop := exists message, wt_phase w = Settled (Err (AgentTurnTransportError message)).

(** What one message read can settle. *)
Lemma on_message_lost now m rest w w' ack :
  wt_phase w = Reading -> nothing_concluded (snd <$> wt_read w) ->
  on_message now m (take_message now m rest w) = (w', ack) -> lost w' -> nothing_concluded (snd <$> wt_read w').
Proof.
  intros Hp Hn. unfold on_message. destruct (arm_eq now (take_message now m rest w)) as [t ->].
  assert (Hm : concludes m = false -> nothing_concluded (snd <$> (wt_read w ++ [(now, m)]))).
  { intros Hc. rewrite fmap_app. by apply nothing_snoc. }
  assert (Hcb : forall o x, wt_read (after_callback o x) = wt_read x) by (by intros [[|]|] x).
  destruct m as [msg|]; [|by intros [= <- <-] _; apply Hm].
  assert (Hb : concludes (Some msg) = match up_body msg with Reply _ _ _ | Failed _ _ => true | _ => false end) by done.
  destruct (up_body msg); intros [= <- <-]; rewrite ?Hcb; try (intros _; by apply Hm).
  - by intros [x [=]].
  - by intros [x [=]].
  - intros _. match goal with |- context [armIdleTimer now ?x] => destruct (arm_eq now x) as [t' ->] end. by apply Hm.
Qed.

(** A wait is lost without a conclusion, or by the refusal of its reply. *)
Lemma lost_by c c' i w' :
  chan_ok carried c -> chan_step carried c c' -> ch_waits c' !! i = Some w' -> lost w' ->
  settled_before c i w' \/ nothing_concluded (snd <$> wt_read w') \/ exists e, refusal c i e c'.
Proof.
  intros Hc Hs. destruct Hs as [| |c run opts|c j|c j|c j e Hst|c j|c j e|c j w f Hi Hf Hle|c j w r Hi Hr|c j w a Hi Ha|c j|
      |c run callId outcome| | | | | |]; intros Hw Hl.
  all: try (left; by eapply before_same; [|exact Hw]).
  all: try (left; by eapply before_alter; [exact Hw|]).
  - left. by refine (before_fmap c _ i (set_sub (receive run m)) w' _ _ Hw).
  - left. cbn in Hw. apply lookup_app_Some in Hw as [Hw|[_ Hw]]; [by exists w'|].
    apply list_lookup_singleton_Some in Hw as [_ <-]. by destruct Hl as [x Hx].
  - unfold read in Hw. destruct (ch_waits c !! j) as [w|] eqn:Hj; [|left; by exists w'].
    destruct (wt_phase w) eqn:Ep; [|left; by exists w'..]. destruct (sb_queue (wt_sub w)) as [|m rest]; [left; by exists w'|].
    destruct (on_message _ _ _) as [w1 ack] eqn:Em. rewrite leave_keeps_waits in Hw.
    destruct (before_put (c := c) Hw) as [Hb|[-> ->]]; [by destruct ack|by left|].
    right; left. pose proof (wk_phase _ _ _ _ (co_waits _ _ Hc _ _ Hj)) as Hph. unfold phase_ok in Hph. rewrite Ep in Hph.
    by eapply on_message_lost; [exact Ep|apply Hph|exact Em|].
  - unfold recorded in Hw. destruct (ch_waits c !! j) as [w|] eqn:Hj; [|left; by exists w'].
    destruct (wt_phase w) eqn:Ep; [left; by exists w'| |left; by exists w']. rewrite leave_keeps_waits in Hw.
    destruct (before_put Hw (store_waits _ _ _)) as [Hb|[-> ->]]; [by left|by destruct Hl as [x [=]]].
  - pose proof Hw as Hw0. unfold recorded in Hw. destruct (ch_waits c !! j) as [w|] eqn:Hj; [|left; by exists w'].
    destruct (wt_phase w) eqn:Ep; [left; by exists w'| |left; by exists w']. rewrite leave_keeps_waits in Hw.
    destruct (before_put Hw eq_refl) as [Hb|[-> _]]; [by left|]. right; right. exists e. split_and!; [done|by eauto|done|..].
    + unfold recorded. rewrite Hj, Ep. unfold leave. by repeat case_match.
    + unfold recorded. rewrite Hj, Ep. unfold leave. by repeat case_match.
  - unfold iteration_ends in Hw. destruct (ch_waits c !! j) as [w|] eqn:Hj; [|left; by exists w'].
    destruct (wt_phase w) eqn:Ep; [|left; by exists w'..]. destruct (sb_open (wt_sub w)); [left; by exists w'|]. rewrite leave_keeps_waits in Hw.
    destruct (before_put Hw eq_refl) as [Hb|[-> ->]]; [by left|]. right; left.
    pose proof (wk_phase _ _ _ _ (co_waits _ _ Hc _ _ Hj)) as Hph. unfold phase_ok in Hph. rewrite Ep in Hph. apply Hph.
  - unfold iteration_throws in Hw. destruct (ch_waits c !! j) as [w|] eqn:Hj; [|left; by exists w'].
    destruct (wt_phase w) eqn:Ep; [|left; by exists w'..]. rewrite leave_keeps_waits in Hw.
    destruct (before_put Hw eq_refl) as [Hb|[-> ->]]; [by left|]. right; left.
    pose proof (wk_phase _ _ _ _ (co_waits _ _ Hc _ _ Hj)) as Hph. unfold phase_ok in Hph. rewrite Ep in Hph. apply Hph.
  - left. unfold resolveToolCall in Hw. set (c1 := publish_down _ _ _) in Hw. destruct (ch_idleClocks c1 !! run) as [j|]; [|by exists w'].
    refine (before_alter c1 i j _ w' Hw _). intros w.
    destruct (arm_eq (ch_clock c1) (set_owed (filter (fun id => id <> callId) (wt_owedToolResults w)) w)) as [t ->]. done.
Qed.

(** A lost wait that had read a conclusion, back to the refusal. *)
Lemma lost_after_reply c i w :
  chan_reachable carried c -> ch_waits c !! i = Some w -> lost w -> ~ nothing_concluded (snd <$> wt_read w) ->
  exists c1 e c2, chan_reachable carried c1 /\ refusal c1 i e c2 /\ rtc (chan_step carried) c2 c.
Proof.
  intros (now & store & Hr). revert w. revert c Hr. refine (rtc_ind_r _ _ _ _); [done|]. intros c c' Hr Hs IH w Hw Hl Hn.
  assert (Hreach : chan_reachable carried c) by (by exists now, store).
  destruct (lost_by c c' i w (chan_reachable_ok _ _ Hreach) Hs Hw Hl) as [(w0 & Hw0 & Ep & Er)|[?|[e He]]]; [|done|].
  - destruct (IH w0 Hw0) as (c1 & e & c2 & H1 & H2 & H3); [unfold lost; by rewrite Ep|by rewrite Er|].
    exists c1, e, c2. split_and!; [done..|]. by eapply rtc_r.
  - by exists c, e, c'.
Qed.
End Settling.

(** ** Runs of the channel, for the examples *)

Lemma chan_reach_step carried c c' : chan_reachable carried c -> chan_step carried c c' -> chan_reachable carried c'.
Proof. intros (now & store & H) Hs. exists now, store. by eapply rtc_r. Qed.

Definition anything : string -> AgentUpMessage -> Prop := fun _ _ => True.
Definition quiet_options : AwaitOptions := mkAwait None None None.
Definition question : AgentUpMessage := mkUp "run-1" 1 0 (Reply "Which branch?" false None).
Definition a_call : AgentUpMessage := mkUp "run-1" 1 0 (ToolCall "c1" "search" "{}").
Definition narration_then (m : AgentUpMessage) : list (option AgentUpMessage) :=
  [Some (mkUp "run-1" 0 0 (Progress None "cloning" None)); Some m].

(** A turn that awaits a reply and is brought messages. *)
Definition after_messages (l : list (option AgentUpMessage)) : Channel :=
  foldl (fun c m => read 0 (deliver "run-1" m c)) (awaitReply "run-1" quiet_options (connected 0 true)) l.

Definition asked : Channel := recorded 0 (Ok tt) (after_messages (narration_then question)).

Lemma after_messages_reachable l : chan_reachable anything (after_messages l).
Proof.
  unfold after_messages. assert (chan_reachable anything (awaitReply "run-1" quiet_options (connected 0 true))) as H.
  { exists 0, true. apply rtc_once, cs_awaitReply. }
  revert H. generalize (awaitReply "run-1" quiet_options (connected 0 true)). induction l as [|m l IH]; intros c Hc; [done|].
  apply IH. eapply chan_reach_step; [|apply cs_read]. eapply chan_reach_step; [exact Hc|by apply cs_deliver].
Qed.

Lemma asked_reachable : chan_reachable anything asked.
Proof. unfold asked. eapply chan_reach_step; [|apply cs_recorded]. apply after_messages_reachable. Qed.

(** ** Properties *)

(** C17: what a turn's wait ends with. It returns the first conclusion that the run
    sent, with the narration that came before it, word for word and in order;
    it reports a failure only if the first conclusion was one, or the launcher
    said that the run died; a timeout, an approval pause or a lost
    subscription never stands in for a conclusion that was read, but for a
    reply that the store refused: then the write of this very wait's reply was
    refused on the way here, with nothing stored and nothing acknowledged. *)
Theorem awaitReply_outcome (carried : string -> AgentUpMessage -> Prop) (c : Channel) (i : nat) (w : Wait)
    (outcome : result AgentTurnError AgentTurnResult) :
  chan_reachable carried c -> ch_waits c !! i = Some w -> wt_phase w = Settled outcome ->
  outcome_ok w outcome /\
  forall message, outcome = Err (AgentTurnTransportError message) -> ~ nothing_concluded (snd <$> wt_read w) ->
    exists before e after, chan_reachable carried before /\ refusal before i e after /\ rtc (chan_step carried) after c.
Proof.
  intros Hr Hi Hp. split.
  - apply chan_reachable_ok in Hr. pose proof (wk_phase _ _ _ _ (co_waits _ _ Hr _ _ Hi)) as H. unfold phase_ok in H. by rewrite Hp in H.
  - intros message -> Hn. eapply lost_after_reply; [done|done|by eexists|done].
Qed.

(** The idle clock measures silence, and only silence that the agent answers
    for. While it runs, every tool call of the run has been answered, and it
    has a whole idle window left from each message that was read: a run that
    keeps narrating is never timed out, however long it takes. A wait that is
    neither timed out nor paused on a call that it owes has its clock running,
    so it cannot wait for ever. *)
Theorem idle_clock_measures_silence (carried : string -> AgentUpMessage -> Prop) (c : Channel) (i : nat) (w : Wait) :
  chan_reachable carried c -> ch_waits c !! i = Some w ->
  (forall fires, wt_idleTimer w = Some fires ->
     (forall t m, (t, m) ∈ wt_read w -> t + timer_delay (idleTimeoutMs w) <= fires) /\
     (forall t m callId tool input, (t, Some m) ∈ wt_read w -> up_body m = ToolCall callId tool input ->
        answered (ch_sent c) (wt_run w) callId)) /\
  (wt_phase w = Reading -> wt_timedOut w = true \/ wt_owedToolResults w <> [] \/ is_Some (wt_idleTimer w)).
Proof.
  intros Hc%chan_reachable_ok Hi. destruct (co_waits _ _ Hc _ _ Hi) as [Hh Ht _ Hb]. split; [|exact Hb].
  intros f Hf. destruct (Ht f Hf) as [Ho Hr]. split; [exact Hr|]. intros t m callId tool input Hin Hbody.
  destruct (hk_calls _ _ _ _ Hh _ _ _ _ _ Hin Hbody) as [Ho'|?]; [|done]. rewrite Ho in Ho'. by apply elem_of_nil in Ho'.
Qed.

(** What the channel publishes is numbered 0, 1, 2, ... with none missing,
    over all runs; and an acknowledgement is sent only for a failure, or for a
    reply that the store has taken. *)
Theorem acks_follow_records (carried : string -> AgentUpMessage -> Prop) (c : Channel) :
  chan_reachable carried c ->
  dn_seq <$> ch_sent c = seq 0 (ch_seq c) /\
  forall d n, d ∈ ch_sent c -> dn_body d = ReplyAck n -> safe_ack carried c (dn_run d) n.
Proof. intros Hc%chan_reachable_ok. split; [apply Hc|apply (co_acks _ _ Hc)]. Qed.

(** The reply that the store keeps for a run is not dropped by the turn that
    returns it: when a run has asked a question and been answered, and the turn
    that sent the answer then loses the channel, what the next turn finds
    recorded is the old question, which it returns as the reply. *)
Theorem recorded_reply_goes_stale :
  exists c w, chan_reachable anything c /\ ch_waits c !! 1%nat = Some w /\
    (exists message, wt_phase w = Settled (Err (AgentTurnTransportError message))) /\
    mkDown "run-1" 1 0 (Prompt "main") ∈ ch_sent c /\
    recordedReply "run-1" c = Some (mkTurnResult "Which branch?" false None ["cloning"]).
Proof.
  set (c1 := sendPrompt "run-1" "main" (awaitReply "run-1" quiet_options asked)).
  set (c2 := iteration_ends 1 (update_wait 1 (set_sub unsubscribe) c1)).
  exists c2. eexists. split; [|split; [vm_compute; reflexivity|]].
  - eapply chan_reach_step; [|apply cs_ends]. eapply chan_reach_step; [|apply cs_lost].
    eapply chan_reach_step; [|apply cs_sendPrompt]. eapply chan_reach_step; [|apply cs_awaitReply]. apply asked_reachable.
  - split; [eexists; reflexivity|]. split; [vm_compute; right; left|vm_compute; reflexivity].
Qed.

(** Two turns that wait on one run (a message sent while the first is still
    waiting) both read a tool call of the run, so both dispatch it; and its
    result restarts the clock of the later wait only: the earlier one stays
    paused on a call that was answered, and no silence ends it. *)
Theorem concurrent_waits_share_call :
  exists c w0 w1, chan_reachable anything c /\ ch_waits c !! 0%nat = Some w0 /\ ch_waits c !! 1%nat = Some w1 /\
    (0, Some a_call) ∈ wt_read w0 /\ (0, Some a_call) ∈ wt_read w1 /\ answered (ch_sent c) "run-1" "c1" /\
    wt_phase w0 = Reading /\ sb_open (wt_sub w0) = true /\ wt_owedToolResults w0 = ["c1"] /\ wt_idleTimer w0 = None /\
    wt_owedToolResults w1 = [] /\ wt_idleTimer w1 = Some DEFAULT_IDLE_TIMEOUT_MS.
Proof.
  set (c1 := awaitReply "run-1" quiet_options (after_messages [])).
  set (c2 := resolveToolCall "run-1" "c1" (inl None) (read 1 (read 0 (deliver "run-1" (Some a_call) c1)))).
  exists c2. do 2 eexists. split; [|split; [vm_compute; reflexivity|split; [vm_compute; reflexivity|]]].
  - eapply chan_reach_step; [|apply cs_resolveToolCall]. do 2 (eapply chan_reach_step; [|apply cs_read]).
    eapply chan_reach_step; [|by apply cs_deliver]. eapply chan_reach_step; [|apply cs_awaitReply]. apply after_messages_reachable.
  - split; [left|]. split; [left|]. split; [|by split_and!].
    exists (mkDown "run-1" 0 0 (ToolResult "c1" true None None)), true, None, None. split; [vm_compute; left|done].
Qed.

(** ** Witnesses *)

Definition asked_wait : Wait :=
  mkWait (mkSub "run-1" false []) quiet_options ["cloning"] [] None false None None
    (Settled (Ok (mkTurnResult "Which branch?" false None ["cloning"])))
    [(0, Some (mkUp "run-1" 0 0 (Progress None "cloning" None))); (0, Some question)].

Definition ready_wait : Wait :=
  mkWait (mkSub "run-1" true []) quiet_options [] [] (Some DEFAULT_IDLE_TIMEOUT_MS) false None None Reading
    [(0, Some (mkUp "run-1" 0 0 Ready))].

Lemma awaitReply_outcome_witness :
  ch_waits asked !! 0%nat = Some asked_wait /\ outcome_ok asked_wait (Ok (mkTurnResult "Which branch?" false None ["cloning"])).
Proof.
  assert (ch_waits asked !! 0%nat = Some asked_wait) as H by (vm_compute; reflexivity). split; [exact H|].
  exact (proj1 (awaitReply_outcome anything asked 0 asked_wait _ asked_reachable H eq_refl)).
Defined.

Lemma idle_clock_measures_silence_witness :
  ch_waits (after_messages [Some (mkUp "run-1" 0 0 Ready)]) !! 0%nat = Some ready_wait /\
  0 + timer_delay (idleTimeoutMs ready_wait) <= DEFAULT_IDLE_TIMEOUT_MS.
Proof.
  assert (ch_waits (after_messages [Some (mkUp "run-1" 0 0 Ready)]) !! 0%nat = Some ready_wait) as H by (vm_compute; reflexivity).
  split; [exact H|].
  refine (proj1 (proj1 (idle_clock_measures_silence anything (after_messages [Some (mkUp "run-1" 0 0 Ready)]) 0 ready_wait
    (after_messages_reachable _) H) DEFAULT_IDLE_TIMEOUT_MS eq_refl) 0 (Some (mkUp "run-1" 0 0 Ready)) _). left.
Defined.

Lemma acks_follow_records_witness :
  ch_sent asked = [mkDown "run-1" 0 0 (ReplyAck 1)] /\ safe_ack anything asked "run-1" 1.
Proof.
  assert (ch_sent asked = [mkDown "run-1" 0 0 (ReplyAck 1)]) as H by (vm_compute; reflexivity). split; [exact H|].
  refine (proj2 (acks_follow_records anything asked asked_reachable) (mkDown "run-1" 0 0 (ReplyAck 1)) 1%nat _ eq_refl).
  rewrite H. left.
Defined.
