(* ===== verification/AgentLink.v ===== *)
(** * A sub-agent's run and the orchestrator's channel, composed

    The agent of AgentRuntime and the channel of AgentChannel, joined by a
    network that may lose, delay, repeat and reorder what either publishes, but
    brings nothing that was not published. Either side's clock runs on its own.
    The theorems of this file are about the two programs together. *)

From stdpp Require Import base gmap strings list.
From Stdlib Require Import ZArith Lia.
From S2P Require Import Prelude JsString JsNumber Json JsMap JsList AgentRuntime AgentChannel.

#[local] Open Scope Z_scope.

Record System := mkSystem {
  sy_agent : RunState;
  sy_chan : Channel
}.

Section System.
Context (runId : string) (retryMs timeoutMs : Z).

(** What the network may bring to the channel: of this run, what its agent has
    published; of the others, anything. *)
Definition brought (a : RunState) (run : string) (m : AgentUpMessage) : Prop := run = runId -> m ∈ published a.

Inductive sys_step : System -> System -> Prop :=
| sys_agent a a' c : step_with runId retryMs timeoutMs (fun _ => False) a a' -> sys_step (mkSystem a c) (mkSystem a' c)
| sys_chan a c c' : chan_step (brought a) c c' -> sys_step (mkSystem a c) (mkSystem a c')
| sys_down a c d : d ∈ ch_sent c -> dn_run d = runId -> sys_step (mkSystem a c) (mkSystem (onDown (dn_body d) a) c).

Definition sys_boot (now now' : Z) (store : bool) : System := mkSystem (boot runId now) (connected now' store).

Definition sys_reachable (s : System) : Prop := exists now now' store, rtc sys_step (sys_boot now now' store) s.

(** ** The invariant *)

(** A hold that has been acknowledged was acknowledged by the channel. *)
Record sys_ok (s : System) : Prop := mkSysOk {
  so_agent : reachable runId retryMs timeoutMs (sy_agent s);
  so_chan : chan_ok (brought (sy_agent s)) (sy_chan s);
  so_acked h : h ∈ holds (sy_agent s) -> h_acked h = true -> safe_ack (brought (sy_agent s)) (sy_chan s) runId (hold_seq h)
}.

Lemma step_admits (P Q : AgentDownMessage -> Prop) a a' :
  (forall m, P m -> Q m) -> step_with runId retryMs timeoutMs P a a' -> step_with runId retryMs timeoutMs Q a a'.
Proof.
  intros HPQ Hs. destruct Hs as [| | | | | | | | | | | |s bef aft h f H1 H2 H3|s bef aft h H1 H2].
  - by apply step_tick.
  - apply step_down. auto.
  - by apply step_ready.
  - by apply step_progress.
  - by apply step_warn.
  - by apply step_ask.
  - by apply step_callTool.
  - by apply step_return.
  - by apply step_throw.
  - by eapply step_published.
  - by apply step_reply_rejected.
  - by apply step_failed_rejected.
  - by eapply step_timer.
  - by apply step_resume.
Qed.

Lemma own_step_is_step a a' : step_with runId retryMs timeoutMs (fun _ => False) a a' -> step runId retryMs timeoutMs a a'.
Proof. by apply step_admits. Qed.

(** Publishing only adds, and an acknowledgement only comes from a message. *)
Definition grows (a a' : RunState) : Prop :=
  published a ⊆ published a' /\
  forall h', h' ∈ holds a' -> h_acked h' = true -> exists h, h ∈ holds a /\ hold_seq h = hold_seq h' /\ h_acked h = true.

Lemma grows_same a a' : published a ⊆ published a' -> (forall h, h ∈ holds a' -> h ∈ holds a) -> grows a a'.
Proof. intros Hp Hh. split; [done|]. intros h Hin Ha. exists h. auto. Qed.

Lemma grows_held body n a1 a a' :
  published a1 = published a -> holds a1 = holds a ->
  published a' = published (publishHeld runId timeoutMs body n a1) ->
  holds a' = holds (publishHeld runId timeoutMs body n a1) -> grows a a'.
Proof.
  intros Hp Hh Ep Eh. split.
  - rewrite Ep. destruct (publishHeld_published runId timeoutMs body n a1) as (-> & _). rewrite Hp. set_solver.
  - rewrite Eh. intros h [Hin| ->]%publishHeld_hold Ha; [|done]. exists h. rewrite <- Hh. auto.
Qed.

Lemma grows_conclude body reply a : grows a (conclude runId timeoutMs body reply a).
Proof. by apply (grows_held body (next_seq a) (bump a)). Qed.

Lemma own_step_grows a a' : step_with runId retryMs timeoutMs (fun _ => False) a a' -> grows a a'.
Proof.
  intros Hs. destruct Hs as
    [s ms Hms| s msg [] | s ok Hm | s ? ? ? Hst | s ? Hst | s q Hst | s c tool input Hst Hc | s m r Hm | s t Hm | s r Hm | s t Hm | s Hm
     | s bef aft h f Hh Hp Hf | s bef aft h Hh Hp];
    try (apply grows_same; [cbn; set_solver|done]).
  - unfold ask. destruct (aborted s); [by apply grows_same|].
    by apply (grows_held (Reply q false None) (next_seq s) (set_pendingAsk (Some (next_seq s)) (bump s))).
  - unfold callTool. destruct (aborted s); apply grows_same; cbn; set_solver.
  - apply grows_conclude.
  - unfold handler_throws. destruct (_ && _); [apply grows_conclude|by apply grows_same].
  - unfold handler_throws. destruct (_ && _); [apply grows_conclude|by apply grows_same].
  - split; [done|]. cbn. rewrite Hh. intros h' [?|[->|?]%elem_of_cons]%elem_of_app Ha; [exists h'; set_solver| |exists h'; set_solver].
    exists h. set_solver.
  - unfold hold_resume. destruct (keeps_offering h s).
    + assert (forall ph l, grows s (mkRun (clock s) (next_seq s) (aborted s) (pendingAsk s)
        (bef ++ mkHold (h_env h) (h_deadline h) (h_acked h) (h_done h) ph :: aft) (pendingToolCalls s) (published s ++ l) (settled s) (main s))) as Hgo.
      { intros ph l. split; [cbn; set_solver|]. cbn. rewrite Hh.
        intros h' [?|[->|?]%elem_of_cons]%elem_of_app Ha; [exists h'; set_solver|exists h; set_solver|exists h'; set_solver]. }
      destruct (h_phase h); [|apply Hgo..]. specialize (Hgo (Parked (clock s + timer_delay retryMs)) []). by rewrite app_nil_r in Hgo.
    + assert (forall m, grows s (mkRun (clock s) (next_seq s) (aborted s) (pendingAsk s) (bef ++ aft) (pendingToolCalls s)
        (published s) (settled s) m)) as Hgo by (intros m; apply grows_same; [done|cbn; rewrite Hh; set_solver]).
      destruct (main (set_holds (bef ++ aft) s)); try case_decide; apply Hgo.
Qed.

(** A message from the orchestrator: it acknowledges what it names. *)
Lemma onDown_acks msg a h' :
  h' ∈ holds (onDown msg a) -> h_acked h' = true ->
  msg = ReplyAck (hold_seq h') \/ exists h, h ∈ holds a /\ hold_seq h = hold_seq h' /\ h_acked h = true.
Proof.
  assert (forall n f, (forall h, h_env (f h) = h_env h) -> (forall h, h_acked (f h) = true -> h_acked h = true \/ msg = ReplyAck n) ->
    h' ∈ map (fun h => if decide (hold_seq h = n) then f h else h) (holds a) -> h_acked h' = true ->
    msg = ReplyAck (hold_seq h') \/ exists h, h ∈ holds a /\ hold_seq h = hold_seq h' /\ h_acked h = true) as Hup.
  { intros n f He Hf (h & <- & Hh%list_elem_of_In)%list_elem_of_In%in_map_iff Ha. case_decide as E; [|right; by exists h].
    assert (hold_seq (f h) = hold_seq h) as Es by (unfold hold_seq; by rewrite He). rewrite Es.
    destruct (Hf _ Ha) as [?| ->]; [right; by exists h|left; by rewrite E]. }
  destruct msg as [message|reason| | |n|c ok r e]; cbn [onDown]; try (intros Hin Ha; right; by exists h').
  - destruct (pendingAsk a) as [n|]; [|intros Hin Ha; right; by exists h']. apply (Hup n); [done|by left].
  - rewrite onCancel_eq. cbn. intros (h & <- & Hh%list_elem_of_In)%list_elem_of_In%in_map_iff Ha. right. by exists h.
  - apply (Hup n); [done|by right].
  - case_decide; [|intros Hin Ha; right; by exists h']. destruct ok; intros Hin Ha; right; by exists h'.
Qed.

Lemma onDown_published msg a : published (onDown msg a) = published a.
Proof.
  destruct msg as [message|reason| | |n|c ok r e]; cbn [onDown]; try done.
  - by destruct (pendingAsk a).
  - by rewrite onCancel_eq.
  - case_decide; [|done]. by destruct ok.
Qed.

(** More may be brought. *)
Lemma safe_ack_carried (P Q : string -> AgentUpMessage -> Prop) c run n :
  (forall r m, P r m -> Q r m) -> safe_ack P c run n -> safe_ack Q c run n.
Proof. intros HPQ (m & H1 & H2). exists m. split; [by apply HPQ|done]. Qed.

Lemma chan_ok_carried (P Q : string -> AgentUpMessage -> Prop) c :
  (forall r m, P r m -> Q r m) -> chan_ok P c -> chan_ok Q c.
Proof.
  intros HPQ [H1 H2 H3 H4 H5]. constructor; try done.
  - intros i w Hi. destruct (H1 i w Hi) as [[A B C D] T F G]. constructor; [|done..]. constructor; [auto..|done|done].
  - intros d n Hd Hb. eapply safe_ack_carried; [exact HPQ|by apply H2].
Qed.

(** The store is there or not for good, and what it took stays in its log. *)
Definition keeps_log (c c' : Channel) : Prop :=
  (is_Some (ch_store c') -> is_Some (ch_store c)) /\ ch_recorded c ⊆ ch_recorded c'.

Lemma leave_log i c : ch_store (leave i c) = ch_store c /\ ch_recorded (leave i c) = ch_recorded c.
Proof. unfold leave. destruct (ch_waits c !! i) as [w|]; [|done]. destruct (wt_phase w); [done..|]. by case_bool_decide. Qed.

Lemma keeps_leave i w c c' : keeps_log c c' -> keeps_log c (leave i (put_wait i w c')).
Proof. unfold keeps_log. by destruct (leave_log i (put_wait i w c')) as [-> ->]. Qed.

Lemma keeps_store run reply c : keeps_log c (store_reply run reply c).
Proof. unfold store_reply, keeps_log. destruct (ch_store c) as [m|] eqn:E; cbn; [split; [done|set_solver]|by rewrite E]. Qed.

Lemma chan_step_log carried c c' : chan_step carried c c' -> keeps_log c c'.
Proof.
  assert (keeps_log c c) as Hc by done.
  intros Hs. destruct Hs as [| | |c i|c i|c i e|c i|c i e| | | | | |c run callId o| | | | | |]; try done.
  - unfold read. destruct (ch_waits c !! i) as [w|]; [|done]. destruct (wt_phase w); [|done..].
    destruct (sb_queue (wt_sub w)); [done|]. destruct (on_message _ _ _) as [w' ack]. apply keeps_leave. by destruct ack.
  - unfold recorded. destruct (ch_waits c !! i) as [w|]; [|done]. destruct (wt_phase w) as [|r n|]; [done| |done].
    apply keeps_leave. apply keeps_store.
  - unfold recorded. destruct (ch_waits c !! i) as [w|]; [|done]. destruct (wt_phase w) as [|r n|]; [done| |done]. by apply keeps_leave.
  - unfold iteration_ends. destruct (ch_waits c !! i) as [w|]; [|done]. destruct (wt_phase w); [|done..].
    destruct (sb_open (wt_sub w)); [done|]. by apply keeps_leave.
  - unfold iteration_throws. destruct (ch_waits c !! i) as [w|]; [|done]. destruct (wt_phase w); [|done..]. by apply keeps_leave.
  - unfold resolveToolCall. by destruct (ch_idleClocks _ !! run).
  - split; [|done]. cbn. by rewrite fmap_is_Some.
Qed.

Lemma sys_step_ok s s' : sys_ok s -> sys_step s s' -> sys_ok s'.
Proof.
  intros [[now Hr] Hc Ha] Hs. destruct Hs as [a a' c Hs|a c c' Hs|a c d Hd Hrun]; cbn [sy_agent sy_chan] in *.
  - apply own_step_grows in Hs as Hg. destruct Hg as [Hp Hh].
    assert (forall r m, brought a r m -> brought a' r m) as Hb by (intros r m H E; by apply Hp, H).
    constructor; cbn [sy_agent sy_chan].
    + exists now. eapply rtc_r; [exact Hr|by apply own_step_is_step].
    + by eapply chan_ok_carried.
    + intros h' Hin Hack. destruct (Hh _ Hin Hack) as (h & H1 & <- & H2). eapply safe_ack_carried; [exact Hb|by apply Ha].
  - destruct (chan_step_log _ _ _ Hs) as [H1 H2]. constructor; cbn [sy_agent sy_chan]; [by exists now|by eapply chan_step_ok|].
    intros h Hin Hack. eapply safe_ack_mono; [exact H1|exact H2|by apply Ha].
  - assert (forall r m, brought a r m -> brought (onDown (dn_body d) a) r m) as Hb by (unfold brought; by rewrite onDown_published).
    constructor; cbn [sy_agent sy_chan].
    + exists now. eapply rtc_r; [exact Hr|by apply step_down].
    + by eapply chan_ok_carried.
    + intros h' Hin Hack. eapply safe_ack_carried; [exact Hb|]. destruct (onDown_acks _ _ _ Hin Hack) as [E|(h & H1 & <- & H2)]; [|by apply Ha].
      rewrite <- Hrun. by apply (co_acks _ _ Hc).
Qed.

Lemma sys_reachable_ok s : sys_reachable s -> sys_ok s.
Proof.
  intros (now & now' & store & Hr). assert (sys_ok (sys_boot now now' store)) as H0.
  { constructor; [by exists now|apply connected_ok|by intros h ?%elem_of_nil]. }
  induction Hr as [|s1 s2 s3 H1 H2 IH]; [done|]. apply IH. by eapply sys_step_ok.
Qed.

(** What an acknowledged hold holds: the message that was acknowledged. *)
Lemma acked_safe s h :
  sys_ok s -> h ∈ holds (sy_agent s) -> h_acked h = true ->
  (exists code text, up_body (h_env h) = Failed code text) \/
  exists pre reply, reply_of pre (h_env h) reply /\ (is_Some (ch_store (sy_chan s)) -> (runId, reply) ∈ ch_recorded (sy_chan s)).
Proof.
  intros [Hr _ Ha] Hin Hack. destruct (Ha _ Hin Hack) as (m & Hm & Hseq & Hsafe).
  apply reachable_winv in Hr as Hw. destruct (wi_holds _ _ _ Hw _ Hin) as [Hp _].
  assert (m = h_env h) as ->; [|exact Hsafe]. eapply wire_inj; [exact Hw|by apply Hm|exact Hp|exact Hseq].
Qed.

(** ** The last steps of a reply that a wait collects *)

Lemma leave_waits i c : ch_waits (leave i c) = ch_waits c /\ ch_sent (leave i c) = ch_sent c.
Proof. unfold leave. destruct (ch_waits c !! i) as [w|]; [|done]. destruct (wt_phase w); [done..|]. by case_bool_decide. Qed.

Lemma put_leave i w w0 c : ch_waits c !! i = Some w0 -> ch_waits (leave i (put_wait i w c)) !! i = Some w.
Proof.
  intros Hi. destruct (leave_waits i (put_wait i w c)) as [-> _]. cbn. apply list_lookup_insert_eq. by eapply lookup_lt_Some.
Qed.

Lemma store_reply_rest run reply c :
  ch_waits (store_reply run reply c) = ch_waits c /\ ch_seq (store_reply run reply c) = ch_seq c /\
  ch_clock (store_reply run reply c) = ch_clock c.
Proof. unfold store_reply. by destruct (ch_store c). Qed.

(** A wait with nothing before it reads a reply that is delivered. *)
Lemma deliver_read c i w m text fin res :
  ch_waits c !! i = Some w -> wt_phase w = Reading -> wt_run w = runId -> sb_open (wt_sub w) = true ->
  sb_queue (wt_sub w) = [] -> up_body m = Reply text fin res ->
  exists w1, ch_waits (read i (deliver runId (Some m) c)) !! i = Some w1 /\ wt_run w1 = runId /\
    wt_phase w1 = Recording (mkTurnResult text fin res (wt_narration w)) (up_seq m).
Proof.
  intros Hi Hp Hrun Ho Hq Hb. set (w0 := set_sub (receive runId (Some m)) w).
  assert (ch_waits (deliver runId (Some m) c) !! i = Some w0) as H0 by (cbn; by rewrite list_lookup_fmap, Hi).
  assert (wt_sub w0 = mkSub runId true [Some m]) as Hs.
  { unfold w0, set_sub, receive. cbn. rewrite Ho, Hq. unfold wt_run in Hrun. rewrite Hrun. by rewrite bool_decide_true. }
  unfold read. rewrite H0. change (wt_phase w0) with (wt_phase w). rewrite Hp, Hs. cbn [sb_queue].
  unfold on_message. rewrite Hb. set (taken := take_message _ _ _ w0).
  destruct (arm_fields (ch_clock (deliver runId (Some m) c)) taken) as (_ & _ & E3 & E4 & _).
  eexists. split; [by eapply put_leave|]. split.
  - change (wt_run (armIdleTimer (ch_clock (deliver runId (Some m) c)) taken) = runId). rewrite E4.
    change (wt_run taken) with (sb_run (wt_sub w0)). by rewrite Hs.
  - change (Recording (mkTurnResult text fin res (wt_narration (armIdleTimer (ch_clock (deliver runId (Some m) c)) taken))) (up_seq m) =
      Recording (mkTurnResult text fin res (wt_narration w)) (up_seq m)). by rewrite E3.
Qed.

Lemma recorded_settles c i w reply n :
  ch_waits c !! i = Some w -> wt_phase w = Recording reply n ->
  (exists w', ch_waits (recorded i (Ok tt) c) !! i = Some w' /\ wt_phase w' = Settled (Ok reply)) /\
  mkDown (wt_run w) (ch_seq c) (ch_clock c) (ReplyAck n) ∈ ch_sent (recorded i (Ok tt) c).
Proof.
  intros Hi Hp. unfold recorded. rewrite Hi, Hp. destruct (store_reply_rest (wt_run w) reply c) as (E1 & E2 & E3). split.
  - eexists. split; [eapply put_leave; cbn; rewrite E1; exact Hi|done].
  - match goal with |- _ ∈ ch_sent (leave i ?c') => destruct (leave_waits i c') as [_ ->] end. cbn. rewrite E2, E3. set_solver.
Qed.

(** The run ends on the acknowledgement of its conclusion. *)
Lemma ack_closes a h :
  h ∈ holds a -> main a = Concluding (hold_seq h) -> NoDup (hold_seq <$> holds a) ->
  exists a', step_with runId retryMs timeoutMs (fun _ => False) (onDown (ReplyAck (hold_seq h)) a) a' /\ main a' = Closed.
Proof.
  intros (bef & aft & Hh)%list_elem_of_split Hm Hnd. set (a1 := onDown (ReplyAck (hold_seq h)) a).
  set (f := fun h0 => if decide (hold_seq h0 = hold_seq h) then mark_acked h0 else h0).
  assert (holds a1 = map f bef ++ mark_acked h :: map f aft) as Hh1.
  { change (holds a1) with (map f (holds a)). rewrite Hh, map_app. cbn. unfold f at 2. by rewrite decide_True. }
  exists (hold_resume retryMs (map f bef) (map f aft) (mark_acked h) a1). split.
  - apply step_resume; [exact Hh1|]. cbn. intros fires. by destruct (h_phase h).
  - destruct (resume_closes retryMs (map f bef) (map f aft) (mark_acked h) a1 Hh1) as [H _]; [exact Hm| |exact H].
    apply keeps_offering_false. by left.
Qed.
End System.

(** ** Properties *)

(** C12: the answer of a run outlives the run's hold on it. With a reply store, in
    whatever way the agent, the turns and the network interleave, and whatever
    the network loses, delays or repeats, a run stops holding its conclusion
    only if it was cancelled, or the hold's deadline has come, or the
    conclusion was a failure, or the orchestrator has recorded that very
    reply, with the same text, finality and result. *)
Theorem answer_outlives_hold (runId : string) (retryMs timeoutMs : Z) (s : System) (n : nat) :
  sys_reachable runId retryMs timeoutMs s -> is_Some (ch_store (sy_chan s)) -> main (sy_agent s) = Concluding n ->
  exists h, h ∈ holds (sy_agent s) /\ hold_seq h = n /\
    forall a', step runId retryMs timeoutMs (sy_agent s) a' -> main a' <> Concluding n ->
      aborted (sy_agent s) = true \/ up_ts (h_env h) + timeoutMs <= clock (sy_agent s) \/
      (exists code text, up_body (h_env h) = Failed code text) \/
      (exists pre reply, reply_of pre (h_env h) reply /\ (runId, reply) ∈ ch_recorded (sy_chan s)).
Proof.
  intros Hs%sys_reachable_ok Hst Hm. destruct (concluding_waits _ _ _ _ _ (so_agent _ _ _ _ Hs) Hm) as (h & Hin & Hn & Hend).
  exists h. split; [done|]. split; [done|]. intros a' Hstep Hmain. destruct (Hend a' Hstep Hmain) as [Hack|[Hab|Hdl]]; [|auto..].
  right. right. destruct (acked_safe _ _ _ _ _ Hs Hin Hack) as [?|(pre & reply & H1 & H2)]; [by left|right; eauto].
Qed.

(** C13: a reply that is held can always be collected: whenever a run waits on its
    conclusion and a turn waits on the run with nothing left to read, the
    system can move to where that turn has returned the conclusion's text,
    finality and result, and the run has ended. *)
Theorem conclusion_collected (runId : string) (retryMs timeoutMs : Z) (a : RunState) (c : Channel) (i : nat) (w : Wait)
    (h : Hold) (text : string) (fin : bool) (res : option json) :
  sys_reachable runId retryMs timeoutMs (mkSystem a c) ->
  main a = Concluding (hold_seq h) -> h ∈ holds a -> up_body (h_env h) = Reply text fin res ->
  ch_waits c !! i = Some w -> wt_phase w = Reading -> wt_run w = runId -> sb_open (wt_sub w) = true -> sb_queue (wt_sub w) = [] ->
  exists a' c' w', rtc (sys_step runId retryMs timeoutMs) (mkSystem a c) (mkSystem a' c') /\ main a' = Closed /\
    ch_waits c' !! i = Some w' /\ wt_phase w' = Settled (Ok (mkTurnResult text fin res (wt_narration w))).
Proof.
  intros Hs%sys_reachable_ok Hm Hin Hb Hi Hp Hrun Ho Hq. apply so_agent in Hs as Hr. cbn in Hr. apply reachable_winv in Hr as Hw.
  destruct (deliver_read runId c i w (h_env h) text fin res) as (w1 & H1 & R1 & P1); [done..|].
  destruct (recorded_settles _ _ _ _ _ H1 P1) as [(w' & H2 & P2) Hack]. rewrite R1 in Hack.
  destruct (ack_closes runId retryMs timeoutMs a h) as (a' & Ha & Hc); [done|done|apply (wi_keys _ _ _ Hw)|].
  exists a'. eexists. exists w'. split; [|split; [exact Hc|split; [exact H2|exact P2]]].
  eapply rtc_l; [apply sys_chan, (cs_deliver _ _ runId (Some (h_env h)))|].
  { intros msg [= <-] _. by apply (wi_holds _ _ _ Hw). }
  eapply rtc_l; [apply sys_chan, cs_read|]. eapply rtc_l; [apply sys_chan, cs_recorded|].
  eapply rtc_l; [by apply (sys_down _ _ _ _ _ _ Hack)|]. apply rtc_once. by apply sys_agent.
Qed.

(** ** A run that asks, and a question that is offered twice *)

Abbreviation demo_own := (step_with "run-1" REPLY_ACK_RETRY_MS REPLY_ACK_TIMEOUT_MS (fun _ => False)).
Abbreviation demo_sys := (sys_step "run-1" REPLY_ACK_RETRY_MS REPLY_ACK_TIMEOUT_MS).

Lemma own_running : rtc demo_own (boot "run-1" 0) demo_running.
Proof. apply rtc_once. by apply (step_ready _ _ _ _ _ true). Qed.

Lemma own_asked : rtc demo_own (boot "run-1" 0) demo_asked.
Proof. eapply rtc_r; [apply own_running|]. by apply step_ask. Qed.

Lemma own_again : rtc demo_own demo_asked demo_again.
Proof.
  eapply rtc_l; [by apply (step_resume _ _ _ _ demo_asked [] [] (demo_hold Offering))|].
  eapply rtc_l; [by apply (step_tick _ _ _ _ demo_parked 10000)|].
  eapply rtc_l; [by apply (step_timer _ _ _ _ (tick 10000 demo_parked) [] [] (demo_hold (Parked 10000)) 10000)|].
  apply rtc_once. by apply (step_resume _ _ _ _ demo_woken [] [] (demo_hold Woken)).
Qed.

Lemma agent_moves a a' c : rtc demo_own a a' -> rtc demo_sys (mkSystem a c) (mkSystem a' c).
Proof. induction 1 as [|x y z H1 H2 IH]; [done|]. eapply rtc_l; [by apply sys_agent|exact IH]. Qed.

Lemma delivered_question a c : question ∈ published a -> demo_sys (mkSystem a c) (mkSystem a (deliver "run-1" (Some question) c)).
Proof. intros Hq. apply sys_chan, cs_deliver. intros msg E _. by injection E as <-. Qed.

(** The first turn reads the question, and its acknowledgement is lost; the
    second turn awaits the reply, and sends the user's answer. *)
Definition first_turn : Channel :=
  recorded 0 (Ok tt) (read 0 (deliver "run-1" (Some question) (awaitReply "run-1" quiet_options (connected 0 true)))).
Definition second_turn : Channel := sendPrompt "run-1" "main" (awaitReply "run-1" quiet_options first_turn).
Definition taken_twice : Channel := recorded 1 (Ok tt) (read 1 (deliver "run-1" (Some question) second_turn)).

Definition stale_wait : Wait :=
  mkWait (mkSub "run-1" false []) quiet_options [] [] None false None None
    (Settled (Ok (mkTurnResult "Which branch?" false None []))) [(0, Some question)].

Lemma turn_step a c c' : chan_step (brought "run-1" a) c c' -> rtc demo_sys (mkSystem a c) (mkSystem a c').
Proof. intros H. by apply rtc_once, sys_chan. Qed.

Lemma first_turn_reach : rtc demo_sys (mkSystem demo_asked (connected 0 true)) (mkSystem demo_asked first_turn).
Proof.
  etransitivity; [apply turn_step, (cs_awaitReply _ _ "run-1" quiet_options)|].
  etransitivity; [apply rtc_once, delivered_question; right; left|].
  etransitivity; [apply turn_step, (cs_read _ _ 0)|]. apply turn_step, (cs_recorded _ _ 0).
Qed.

Lemma second_turn_reach a : rtc demo_sys (mkSystem a first_turn) (mkSystem a second_turn).
Proof.
  etransitivity; [apply turn_step, (cs_awaitReply _ _ "run-1" quiet_options)|]. apply turn_step, (cs_sendPrompt _ _ "run-1" "main").
Qed.

Lemma taken_twice_reach : rtc demo_sys (mkSystem demo_again second_turn) (mkSystem demo_again taken_twice).
Proof.
  etransitivity; [apply rtc_once, delivered_question; right; left|].
  etransitivity; [apply turn_step, (cs_read _ _ 1)|]. apply turn_step, (cs_recorded _ _ 1).
Qed.

(** A question that is offered again is taken for the reply to its own answer:
    the channel does not look at the sequence numbers it has seen. When the
    acknowledgement of a question is lost, the run offers the question until the
    user's answer comes; a turn subscribes before it sends that answer, so what
    it reads first may be the question, which it returns as the reply while the
    answer is still on its way. *)
Theorem reoffer_taken_for_answer :
  exists s, sys_reachable "run-1" REPLY_ACK_RETRY_MS REPLY_ACK_TIMEOUT_MS s /\
    offers 1 (published (sy_agent s)) = 2%nat /\ settled (sy_agent s) = [] /\
    mkDown "run-1" 1 0 (Prompt "main") ∈ ch_sent (sy_chan s) /\
    ch_waits (sy_chan s) !! 1%nat = Some stale_wait.
Proof.
  exists (mkSystem demo_again taken_twice). split.
  - exists 0, 0, true. etransitivity; [apply agent_moves, own_asked|]. etransitivity; [apply first_turn_reach|].
    etransitivity; [apply second_turn_reach|]. etransitivity; [apply agent_moves, own_again|]. apply taken_twice_reach.
  - split; [vm_compute; reflexivity|]. split; [reflexivity|]. split; [vm_compute; right; left|vm_compute; reflexivity].
Qed.

(** ** Witnesses *)

Definition demo_final_hold : Hold := mkHold (mkUp "run-1" 1 0 (Reply "done" true None)) REPLY_ACK_TIMEOUT_MS false false Offering.

Definition demo_waiting : Channel := awaitReply "run-1" quiet_options (connected 0 true).

Definition demo_wait : Wait :=
  mkWait (mkSub "run-1" true []) quiet_options [] [] (Some DEFAULT_IDLE_TIMEOUT_MS) false None None Reading [].

Lemma demo_waiting_reachable :
  sys_reachable "run-1" REPLY_ACK_RETRY_MS REPLY_ACK_TIMEOUT_MS (mkSystem demo_concluding demo_waiting).
Proof.
  exists 0, 0, true. etransitivity; [apply agent_moves, own_running|].
  eapply rtc_l; [by apply sys_agent, (step_return _ _ _ _ demo_running "done" None)|]. apply rtc_once, sys_chan, cs_awaitReply.
Qed.

Lemma answer_outlives_hold_witness :
  main demo_concluding = Concluding 1 /\ exists h, h ∈ holds demo_concluding /\ hold_seq h = 1%nat.
Proof.
  split; [reflexivity|].
  destruct (answer_outlives_hold "run-1" REPLY_ACK_RETRY_MS REPLY_ACK_TIMEOUT_MS (mkSystem demo_concluding demo_waiting) 1
    demo_waiting_reachable (mk_is_Some _ _ eq_refl) eq_refl) as (h & Hin & Hn & _).
  by exists h.
Defined.

Lemma conclusion_collected_witness :
  exists a' c' w', rtc demo_sys (mkSystem demo_concluding demo_waiting) (mkSystem a' c') /\ main a' = Closed /\
    ch_waits c' !! 0%nat = Some w' /\ wt_phase w' = Settled (Ok (mkTurnResult "done" true None [])).
Proof.
  assert (ch_waits demo_waiting !! 0%nat = Some demo_wait) as H by (vm_compute; reflexivity).
  refine (conclusion_collected "run-1" REPLY_ACK_RETRY_MS REPLY_ACK_TIMEOUT_MS demo_concluding demo_waiting 0 demo_wait
    demo_final_hold "done" true None demo_waiting_reachable eq_refl _ eq_refl H eq_refl eq_refl eq_refl eq_refl). left.
Defined.
