(* ===== verification/AgentConfig.v ===== *)
(** * Agent runtime: configuration from the environment (packages/agent-runtime/src/config.ts)

    [loadConfig] and its two parsers. [Number] on a string and [JSON.parse] are
    parameters. *)

From stdpp Require Import base gmap strings list sorting.
From Stdlib Require Import ZArith Lia.
From S2P Require Import Prelude JsString JsNumber Json JsMap.

#[local] Open Scope Z_scope.

Record AgentRuntimeConfig := mkConfig {
  cfg_natsUrl : string;
  cfg_runId : string;
  cfg_subjectPrefix : string;
  cfg_goal : string;
  cfg_readOnly : bool;
  cfg_params : jsmap string;
  cfg_replyAckTimeoutMs : option number;
  cfg_replyAckRetryMs : option number
}.

(** The message of an [AgentConfigError]. *)
Definition AgentConfigError : Type := string.

(** [value === null ? "null" : typeof value]. *)
Definition json_type (v : json) : string :=
  match v with
  | JNull => "null"
  | JBool _ => "boolean"
  | JNum _ => "number"
  | JStr _ => "string"
  | JArr _ | JObj _ => "object"
  end.

Definition in_quotes (s : string) : string := String dquote (s +:+ String dquote EmptyString).

Section Config.
Variable Number : string -> number.
(** The parsed value, or the message of the [SyntaxError]. *)
Variable JSON_parse : string -> result string json.

Definition numeric (key : string) (raw : option string) : result AgentConfigError (option number) :=
  match raw with
  | None => Ok None
  | Some raw =>
      if str_empty raw then Ok None
      else
        let value := Number raw in
        if negb (isFinite value) || negb (num_ge value 0)
        then Err ("invalid " +:+ key +:+ " (" +:+ raw +:+ "): expected a non-negative number of milliseconds")
        else Ok (Some value)
  end.

(** Assigning a string to ["__proto__"] of a plain object does nothing. *)
Definition assign (key value : string) (params : jsmap string) : jsmap string :=
  if decide (key = "__proto__") then params else map_set key value params.

Fixpoint string_params (params : jsmap string) (entries : list (string * json)) : result AgentConfigError (jsmap string) :=
  match entries with
  | [] => Ok params
  | (key, JStr value) :: rest => string_params (assign key value params) rest
  | (key, value) :: _ =>
      Err ("invalid AGENT_PARAMS: value for " +:+ in_quotes key +:+ " must be a string, got " +:+ json_type value)
  end.

Definition parseParams (raw : option string) : result AgentConfigError (jsmap string) :=
  match raw with
  | None => Ok []
  | Some raw =>
      if str_empty raw then Ok []
      else match JSON_parse raw with
           | Err e => Err ("invalid AGENT_PARAMS: not valid JSON (" +:+ e +:+ ")")
           | Ok (JObj entries) => string_params [] entries
           | Ok _ => Err "invalid AGENT_PARAMS: expected a JSON object of string values"
           end
  end.

Definition loadConfig (env : string -> option string) (argv2 : option string) : result AgentConfigError AgentRuntimeConfig :=
  let natsUrl := env "AGENT_NATS_URL" in
  let runId := env "AGENT_RUN_ID" in
  let goal := env "AGENT_GOAL" ??? argv2 in
  let missing :=
    (if truthy_str natsUrl then [] else ["AGENT_NATS_URL"]) ++
    (if truthy_str runId then [] else ["AGENT_RUN_ID"]) ++
    (if truthy_str goal then [] else ["AGENT_GOAL (or argv[2])"]) in
  match missing with
  | _ :: _ => Err ("missing required agent runtime config: " +:+ join ", " missing)
  | [] =>
      let? params := parseParams (env "AGENT_PARAMS") in
      let? timeout := numeric "replyAckTimeoutMs" (env "AGENT_REPLY_ACK_TIMEOUT_MS") in
      let? retry := numeric "replyAckRetryMs" (env "AGENT_REPLY_ACK_RETRY_MS") in
      Ok (mkConfig (natsUrl ?? EmptyString) (runId ?? EmptyString) (env "AGENT_NATS_SUBJECT_PREFIX" ?? "agent")
            (goal ?? EmptyString) (bool_decide (env "AGENT_READ_ONLY" = Some "true")) params timeout retry)
  end.
End Config.

(** ** Lemmas *)

Definition is_string (v : json) : bool :=
  match v with
  | JStr _ => true
  | _ => false
  end.

Definition string_of (v : option json) : option string :=
  match v with
  | Some (JStr s) => Some s
  | _ => None
  end.

Lemma assign_get key value ps k :
  map_get k (assign key value ps) =
  if decide (key = "__proto__") then map_get k ps else if decide (key = k) then Some value else map_get k ps.
Proof.
  unfold assign. case_decide; [done|]. destruct (decide (key = k)) as [->|Hne]; [apply map_get_set_eq|by apply map_get_set_ne].
Qed.

Lemma string_params_get entries ps out k :
  NoDup entries.*1 -> string_params ps entries = Ok out ->
  map_get k out =
  if decide (k = "__proto__") then map_get k ps
  else match own_get k entries with
       | Some v => string_of (Some v)
       | None => map_get k ps
       end.
Proof.
  revert ps. induction entries as [|[key v] entries IH]; intros ps Hnd; csimpl.
  - intros [= <-]. by case_decide.
  - apply NoDup_cons in Hnd as [Hkey Hnd]. destruct v as [| | |s| |]; try done. intros Hout.
    rewrite (IH _ Hnd Hout), assign_get. change (own_get k ((key, JStr s) :: entries)) with (map_get k ((key, JStr s) :: entries)).
    rewrite map_get_cons. change (map_get k entries) with (own_get k entries).
    destruct (decide (k = "__proto__")) as [->|Hk]; [by destruct (decide (key = "__proto__"))|].
    destruct (decide (key = k)) as [->|Hne].
    + rewrite decide_False by done. assert (own_get k entries = None) as ->; [by apply map_get_None|done].
    + destruct (own_get k entries); [done|]. by case_decide.
Qed.

Lemma string_params_ok entries ps : is_ok (string_params ps entries) = forallb (fun e => is_string e.2) entries.
Proof. revert ps. induction entries as [|[key v] entries IH]; intros ps; cbn; [done|]. by destruct v; try apply IH. Qed.

(** [AGENT_PARAMS], exactly: the parameters are the members of the JSON object,
    and the pod fails when any of them is not a string. A member named
    [__proto__] is the exception: it is dropped without an error. *)
Lemma parseParams_exact JSON_parse raw entries :
  raw <> EmptyString -> JSON_parse raw = Ok (JObj entries) -> NoDup entries.*1 ->
  match parseParams JSON_parse (Some raw) with
  | Ok params => forallb (fun e => is_string e.2) entries = true /\
      forall k, map_get k params = if decide (k = "__proto__") then None else string_of (own_get k entries)
  | Err _ => forallb (fun e => is_string e.2) entries = false
  end.
Proof.
  intros Hraw Hp Hnd. unfold parseParams. assert (str_empty raw = false) as -> by (by destruct raw). rewrite Hp.
  pose proof (string_params_ok entries []) as Hok. destruct (string_params [] entries) as [out|e] eqn:Hs; [|done].
  split; [done|]. intros k. rewrite (string_params_get _ _ _ k Hnd Hs). case_decide; [done|]. by destruct (own_get k entries).
Qed.
