(* ===== verification/KbProbe.v ===== *)
(** * Agent orchestrator: the gate between the index and the model

    [authorize] (knowledge-base/probe.ts) asks the source, as the calling user,
    about every candidate; [preFilter] (knowledge-base/prefilter.ts) drops the
    ones the mirror of the access lists excludes beforehand. *)

From stdpp Require Import base gmap strings list sorting.
From Stdlib Require Import ZArith Lia Ascii.
From S2P Require Import Prelude JsString JsNumber Json JsMap EventValues JsList Chunk Driver KnowledgeBase.

(** ** Data (probe.ts)

    A [ProbeResult] has the shape the broker's drivers return
    ([Driver.ProbeResult]). *)

Record ProbeRequest := mkProbeRequest {
  pr_connectionId : string;
  pr_sourceId : option string
}.

#[export] Instance ProbeRequest_eq_dec : EqDecision ProbeRequest.
Proof. solve_decision. Defined.

(** What a probe may reject with: the two classes, and an error of neither. *)
Inductive ProbeError :=
| ProbeDenied (message : string)
| ProbeTransient (message : string)
| ProbeOther (message : string).

Record Prober (W : Type) := mkProber {
  granularity : string -> Granularity;
  prober_probe : ProbeRequest -> SM W ProbeError ProbeResult
}.
Arguments mkProber {W}.
Arguments granularity {W} p.
Arguments prober_probe {W} p.

Record AuthorizedChunk := mkAuthorizedChunk {
  ac_chunk : CorpusChunk;
  ac_score : number;
  ac_title : string;
  ac_url : string;
  ac_version : option string;
  ac_stale : bool
}.

Record AuthorizeOutcome := mkAuthorizeOutcome {
  ao_chunks : list AuthorizedChunk;
  ao_denied : nat;
  ao_undetermined : list string
}.

Definition NUL : ascii := "000"%char.

Section Authorize.
Context {W : Type}.
Variable prober : Prober W.

Definition keyFor (chunk : CorpusChunk) : string :=
  if decide (granularity prober (ck_connectionId chunk) = g_connection)
  then ck_connectionId chunk +:+ String NUL EmptyString
  else ck_connectionId chunk +:+ String NUL (ck_sourceId chunk).

Definition request_for (chunk : CorpusChunk) : ProbeRequest :=
  if decide (granularity prober (ck_connectionId chunk) = g_connection)
  then mkProbeRequest (ck_connectionId chunk) None
  else mkProbeRequest (ck_connectionId chunk) (Some (ck_sourceId chunk)).

(** The requests, one per key, in the order the keys first appear. *)
Definition add_request (requests : jsmap ProbeRequest) (hit : CorpusSearchResult) : jsmap ProbeRequest :=
  match map_get (keyFor (hit_chunk hit)) requests with
  | Some _ => requests
  | None => map_set (keyFor (hit_chunk hit)) (request_for (hit_chunk hit)) requests
  end.

Definition requests_of (hits : list CorpusSearchResult) : jsmap ProbeRequest := foldl add_request [] hits.

(** The first rejection that is neither a denial nor transient. *)
Fixpoint unclassified (settled : list (result ProbeError ProbeResult)) : option ProbeError :=
  match settled with
  | [] => None
  | Err (ProbeOther m) :: _ => Some (ProbeOther m)
  | _ :: rest => unclassified rest
  end.

Definition authorized (hit : CorpusSearchResult) (r : ProbeResult) : AuthorizedChunk :=
  mkAuthorizedChunk (hit_chunk hit) (hit_score hit) (probe_title r) (probe_url r) (probe_version r)
    (truthy_str (probe_version r) && negb (bool_decide (probe_version r = ck_version (hit_chunk hit)))).

Definition undetermined_name (hit : CorpusSearchResult) : string :=
  ck_connectionId (hit_chunk hit) +:+ "/" +:+ ck_sourceId (hit_chunk hit).

(** The last loop, for one hit whose outcome is known. *)
Definition judge (acc : AuthorizeOutcome) (hit : CorpusSearchResult) (outcome : result ProbeError ProbeResult) :
    AuthorizeOutcome :=
  let '(mkAuthorizeOutcome chunks denied undetermined) := acc in
  match outcome with
  | Err (ProbeTransient _) => mkAuthorizeOutcome chunks denied (set_add undetermined (undetermined_name hit))
  | Err _ => mkAuthorizeOutcome chunks (S denied) undetermined
  | Ok r =>
      if negb (probe_allowed r) then mkAuthorizeOutcome chunks (S denied) undetermined
      else mkAuthorizeOutcome (chunks ++ [authorized hit r]) denied undetermined
  end.

(** [results.get(..)!]: an absent outcome would be a [TypeError]. *)
Definition judge_step (results : jsmap (result ProbeError ProbeResult)) (acc : AuthorizeOutcome) (hit : CorpusSearchResult) :
    result ProbeError AuthorizeOutcome :=
  match map_get (keyFor (hit_chunk hit)) results with
  | None => Err (ProbeOther "TypeError")
  | Some outcome => Ok (judge acc hit outcome)
  end.

Definition sort_undetermined (o : AuthorizeOutcome) : AuthorizeOutcome :=
  mkAuthorizeOutcome (ao_chunks o) (ao_denied o) (sort_strings (ao_undetermined o)).

Definition authorize (hits : list CorpusSearchResult) : SM W ProbeError AuthorizeOutcome :=
  match hits with
  | [] => sret (mkAuthorizeOutcome [] 0 [])
  | _ =>
      let requests := requests_of hits in
      do! settled <- all_settled (prober_probe prober <$> map_values requests) ;;
      let results := map_of (zip requests.*1 settled) in
      match unclassified settled with
      | Some reason => sthrow reason
      | None => fun w => (let? o := foldM_result (judge_step results) (mkAuthorizeOutcome [] 0 []) hits in
                          Ok (sort_undetermined o), w)
      end
  end.
End Authorize.

(** ** The pre-filter (prefilter.ts) *)

(** The part before the first colon. *)
Definition kindOf (principal : string) : string :=
  match indexOf ":"%char principal with
  | Some index => str_take index principal
  | None => principal
  end.

Definition mirrorExcludes (hit : CorpusSearchResult) (held covered : list string) : bool :=
  let principals := ck_aclPrincipals (hit_chunk hit) ?? [] in
  if (ck_aclPermissive (hit_chunk hit) ?? false) || (length principals =? 0) then false
  else forallb (fun principal => negb (has held principal) && has covered (kindOf principal)) principals.

Definition preFilter_step (held covered : list string) (acc : list CorpusSearchResult * nat) (hit : CorpusSearchResult) :
    list CorpusSearchResult * nat :=
  if mirrorExcludes hit held covered then (acc.1, S acc.2) else (acc.1 ++ [hit], acc.2).

Definition preFilter (hits : list CorpusSearchResult) (callerPrincipals : list string) : list CorpusSearchResult * nat :=
  if (length hits =? 0) || (length callerPrincipals =? 0) then (hits, 0)
  else foldl (preFilter_step callerPrincipals (kindOf <$> callerPrincipals)) ([], 0) hits.

(** ** Lemmas *)

Section AuthorizeLemmas.
Context {W : Type}.
Variable prober : Prober W.
#[local] Abbreviation key hit := (keyFor prober (hit_chunk hit)).
#[local] Abbreviation req hit := (request_for prober (hit_chunk hit)).

(** A hit whose connection id holds no NUL: the separator of the keys. *)
Definition plain_hit (hit : CorpusSearchResult) : Prop := includes_char NUL (ck_connectionId (hit_chunk hit)) = false.

Lemma key_request h1 h2 : plain_hit h1 -> plain_hit h2 -> key h1 = key h2 -> req h1 = req h2.
Proof.
  unfold plain_hit, keyFor, request_for. intros H1 H2.
  destruct (decide (granularity _ (ck_connectionId (hit_chunk h1)) = _)) as [G1|G1],
    (decide (granularity _ (ck_connectionId (hit_chunk h2)) = _)) as [G2|G2];
    intros [Hc Hs]%(sep_inj NUL); try done; rewrite Hc in *; try done. by rewrite Hs.
Qed.

Lemma request_key h1 h2 : req h1 = req h2 -> key h1 = key h2.
Proof. unfold keyFor, request_for. repeat case_decide; intros [=]; congruence. Qed.

Lemma add_request_inv (hits : list CorpusSearchResult) :
  map_wf (requests_of prober hits) /\
  (forall k r, map_get k (requests_of prober hits) = Some r -> exists hit, hit ∈ hits /\ k = key hit /\ r = req hit) /\
  (forall hit, hit ∈ hits -> map_get (key hit) (requests_of prober hits) <> None).
Proof.
  unfold requests_of. induction hits as [|h hits (IHw & IHs & IHc)] using rev_ind.
  { split_and!; [constructor|done|]. intros hit []%elem_of_nil. }
  rewrite foldl_snoc. set (m := foldl _ _ _) in *. unfold add_request.
  destruct (map_get (key h) m) as [r|] eqn:Hk.
  - split_and!; [done| |].
    + intros k r' (hit & Hin & Hkr)%IHs. exists hit. split; [|done]. apply elem_of_app. by left.
    + intros hit [Hin| ->%list_elem_of_singleton]%elem_of_app; [by apply IHc|congruence].
  - split_and!; [by apply map_set_wf| |].
    + intros k r. destruct (decide (key h = k)) as [<-|Hne].
      * rewrite map_get_set_eq. intros [= <-]. exists h. split; [apply elem_of_app; right; by left|done].
      * rewrite map_get_set_ne by done. intros (hit & Hin & Hkr)%IHs. exists hit. split; [|done]. apply elem_of_app. by left.
    + intros hit Hin. destruct (decide (key h = key hit)) as [<-|Hne]; [by rewrite map_get_set_eq|].
      rewrite map_get_set_ne by done. apply elem_of_app in Hin as [Hin| ->%list_elem_of_singleton]; [by apply IHc|done].
Qed.

Lemma requests_lookup hits hit :
  Forall plain_hit hits -> hit ∈ hits -> map_get (key hit) (requests_of prober hits) = Some (req hit).
Proof.
  intros Hplain Hin. pose proof (add_request_inv hits) as (_ & Hs & Hc). specialize (Hc hit Hin).
  destruct (map_get (key hit) (requests_of prober hits)) as [r|] eqn:E; [|done]. f_equal.
  destruct (Hs _ _ E) as (h' & Hin' & Hk & ->). rewrite Forall_forall in Hplain. symmetry.
  apply key_request; [by apply Hplain..|done].
Qed.

(** No question is asked twice. *)
Lemma requests_NoDup hits : NoDup (map_values (requests_of prober hits)).
Proof.
  pose proof (add_request_inv hits) as (Hwf & Hs & _). unfold map_values.
  assert (forall e, e ∈ requests_of prober hits -> exists hit, e.1 = key hit /\ e.2 = req hit) as Hel.
  { intros [k r] He. apply map_get_elem in He as (hit & _ & -> & ->)%Hs; [by exists hit|done]. }
  unfold map_wf in Hwf. revert Hwf Hel. clear Hs. generalize (requests_of prober hits). intros m.
  induction m as [|[k r] m IH]; intros Hwf Hel; [constructor|].
  csimpl in Hwf. csimpl. apply NoDup_cons in Hwf as [Hk Hwf]. apply NoDup_cons. split.
  - intros (e & He & Hin)%list_elem_of_fmap. apply Hk. cbn in He |- *.
    destruct (Hel (k, r)) as (h1 & Hk1 & Hr1); [by left|]. destruct (Hel e) as (h2 & Hk2 & Hr2); [by right|].
    cbn in Hk1, Hr1. rewrite Hk1, (request_key h1 h2), <- Hk2 by congruence. by apply list_elem_of_fmap_2.
  - apply IH; [done|]. intros e He. apply Hel. by right.
Qed.
End AuthorizeLemmas.

(** ** The reference: every candidate judged by its own answer *)

Section Reference.
Variable answer : CorpusSearchResult -> result ProbeError ProbeResult.

Definition admitted (hit : CorpusSearchResult) : option AuthorizedChunk :=
  match answer hit with
  | Ok r => if probe_allowed r then Some (authorized hit r) else None
  | Err _ => None
  end.

Definition is_transient (hit : CorpusSearchResult) : bool :=
  match answer hit with
  | Err (ProbeTransient _) => true
  | _ => false
  end.

Definition refused (hit : CorpusSearchResult) : bool :=
  match admitted hit with
  | Some _ => false
  | None => negb (is_transient hit)
  end.

Definition authorize_each (hits : list CorpusSearchResult) : AuthorizeOutcome :=
  mkAuthorizeOutcome (omap admitted hits) (length (List.filter refused hits))
    (sort_strings (set_of (undetermined_name <$> List.filter is_transient hits))).

(** The three ways a candidate can go. *)
Lemma answer_cases hit :
  (exists r, answer hit = Ok r /\ probe_allowed r = true /\ admitted hit = Some (authorized hit r) /\
     refused hit = false /\ is_transient hit = false) \/
  (exists m, answer hit = Err (ProbeTransient m) /\ admitted hit = None /\ refused hit = false /\ is_transient hit = true) \/
  (admitted hit = None /\ refused hit = true /\ is_transient hit = false /\
     forall acc, judge acc hit (answer hit) = mkAuthorizeOutcome (ao_chunks acc) (S (ao_denied acc)) (ao_undetermined acc)).
Proof.
  unfold refused, admitted, is_transient. destruct (answer hit) as [r|[m|m|m]].
  - destruct (probe_allowed r) eqn:Ha; [left; by exists r|]. right. right. split_and!; [done..|].
    intros [c d u]. cbn. by rewrite Ha.
  - right. right. split_and!; [done..|]. by intros [].
  - right. left. by exists m.
  - right. right. split_and!; [done..|]. by intros [].
Qed.

Lemma judge_fold hits chunks denied und :
  foldl (fun acc h => judge acc h (answer h)) (mkAuthorizeOutcome chunks denied und) hits =
  mkAuthorizeOutcome (chunks ++ omap admitted hits) (denied + length (List.filter refused hits))
    (foldl set_add und (undetermined_name <$> List.filter is_transient hits)).
Proof.
  revert chunks denied und. induction hits as [|h hits IH]; intros chunks denied und.
  { cbn. by rewrite app_nil_r, Nat.add_0_r. }
  cbn [foldl List.filter omap list_omap].
  destruct (answer_cases h) as [(r & Hr & Ha & -> & -> & ->)|[(m & Hm & -> & -> & ->)|(-> & -> & -> & Hj)]].
  - rewrite Hr. cbn [judge]. rewrite Ha. cbn [negb]. rewrite IH. by rewrite <- app_assoc.
  - rewrite Hm. cbn [judge]. by rewrite IH.
  - rewrite Hj. cbn [ao_chunks ao_denied ao_undetermined]. rewrite IH. cbn [length]. f_equal. lia.
Qed.

(** Every candidate is admitted, refused or undetermined. *)
Lemma authorize_each_partition hits :
  length (omap admitted hits) + length (List.filter refused hits) + length (List.filter is_transient hits) = length hits.
Proof.
  induction hits as [|h hits IH]; [done|]. cbn [List.filter omap list_omap length].
  destruct (answer_cases h) as [(r & _ & _ & -> & -> & ->)|[(m & _ & -> & -> & ->)|(-> & -> & -> & _)]];
    cbn [length]; lia.
Qed.
End Reference.

Section Outcome.
Context {W : Type}.
Variable prober : Prober W.
#[local] Abbreviation key hit := (keyFor prober (hit_chunk hit)).
#[local] Abbreviation req hit := (request_for prober (hit_chunk hit)).

Lemma results_lookup (R : ProbeRequest -> result ProbeError ProbeResult -> Prop) requests settled k r :
  map_wf requests -> map_get k requests = Some r -> Forall2 R (map_values requests) settled ->
  exists o, map_get k (map_of (zip requests.*1 settled)) = Some o /\ R r o.
Proof.
  intros Hwf Hget HF. unfold map_values in HF.
  rewrite map_of_fresh.
  - clear Hwf. revert settled HF. induction requests as [|[k' r'] m IH]; intros settled HF; [done|].
    csimpl in HF. apply Forall2_cons_inv_l in HF as (o & os & Ho & HF & ->). cbn [fmap list_fmap zip zip_with fst].
    rewrite map_get_cons in Hget. rewrite map_get_cons. case_decide; [|by apply IH]. injection Hget as ->. by exists o.
  - rewrite fst_zip; [exact Hwf|]. apply Forall2_length in HF. rewrite length_fmap in HF. rewrite length_fmap. lia.
Qed.

(** The outcome each hit is judged by. *)
Definition outcome_at (results : jsmap (result ProbeError ProbeResult)) (hit : CorpusSearchResult) :
    result ProbeError ProbeResult := map_get (key hit) results ?? Err (ProbeOther EmptyString).

Lemma judge_loop results hits acc :
  (forall hit, hit ∈ hits -> map_get (key hit) results <> None) ->
  foldM_result (judge_step prober results) acc hits = Ok (foldl (fun acc h => judge acc h (outcome_at results h)) acc hits).
Proof.
  revert acc. induction hits as [|h hits IH]; intros acc Hall; [done|]. cbn [foldM_result foldl].
  assert (judge_step prober results acc h = Ok (judge acc h (outcome_at results h))) as ->.
  { unfold judge_step, outcome_at. specialize (Hall h). destruct (map_get (key h) results); [done|].
    by destruct Hall; [left|]. }
  cbn [result_bind]. apply IH. intros hit Hin. apply Hall. by right.
Qed.

(** What [authorize] returns, in terms of the outcomes its probes settled with. *)
Lemma authorize_unfold (R : ProbeRequest -> result ProbeError ProbeResult -> Prop) hits w w' settled :
  hits <> [] -> Forall plain_hit hits ->
  all_settled (E' := ProbeError) (prober_probe prober <$> map_values (requests_of prober hits)) w = (Ok settled, w') ->
  Forall2 R (map_values (requests_of prober hits)) settled ->
  exists answer, (forall hit, hit ∈ hits -> R (req hit) (answer hit)) /\
    (forall hit, hit ∈ hits -> answer hit ∈ settled) /\
    authorize prober hits w =
      match unclassified settled with
      | Some e => (Err e, w')
      | None => (Ok (authorize_each answer hits), w')
      end.
Proof.
  intros Hne Hplain Hsettled HR. set (results := map_of (zip (requests_of prober hits).*1 settled)).
  pose proof (add_request_inv prober hits) as (Hwf & _ & _).
  exists (outcome_at results).
  assert (forall hit, hit ∈ hits -> exists o, map_get (key hit) results = Some o /\ R (req hit) o /\ o ∈ settled) as Hres.
  { intros hit Hin. pose proof (requests_lookup prober hits hit Hplain Hin) as Hget.
    destruct (results_lookup (fun r o => R r o /\ o ∈ settled) _ settled _ _ Hwf Hget) as (o & Ho & HRo & Hino);
      [|by exists o].
    by apply Forall2_elem_r. }
  split_and!.
  - intros hit Hin. destruct (Hres hit Hin) as (o & Ho & HRo & _). unfold outcome_at. by rewrite Ho.
  - intros hit Hin. destruct (Hres hit Hin) as (o & Ho & _ & Hino). unfold outcome_at. by rewrite Ho.
  - unfold authorize. destruct hits as [|h hits']; [done|]. cbv zeta. unfold sbind at 1. rewrite Hsettled.
    fold results. destruct (unclassified settled); [done|]. rewrite judge_loop.
    + rewrite judge_fold. done.
    + intros hit Hin. by destruct (Hres hit Hin) as (o & -> & _).
Qed.
End Outcome.

Lemma unclassified_app l1 l2 :
  unclassified (l1 ++ l2) = match unclassified l1 with Some e => Some e | None => unclassified l2 end.
Proof. induction l1 as [|[r|[m|m|m]] l1 IH]; done. Qed.

Lemma unclassified_None l o : unclassified l = None -> o ∈ l -> unclassified [o] = None.
Proof.
  induction l as [|x l IH]; [by intros _ ?%elem_of_nil|]. intros Hl [->|Hin]%elem_of_cons.
  - by destruct x as [r|[m|m|m]].
  - apply IH; [|done]. by destruct x as [r|[m|m|m]].
Qed.

(** Asking once per key finds the same programming error as asking every time. *)
Lemma unclassified_requests {W : Type} (prober : Prober W) (ans : ProbeRequest -> result ProbeError ProbeResult) hits :
  Forall plain_hit hits ->
  unclassified (ans <$> map_values (requests_of prober hits)) =
  unclassified ((fun hit => ans (request_for prober (hit_chunk hit))) <$> hits).
Proof.
  induction hits as [|h hits IH] using rev_ind; [done|]. intros [Hplain Hh]%Forall_app. specialize (IH Hplain).
  rewrite fmap_app, unclassified_app, <- IH. unfold requests_of in *. rewrite foldl_snoc.
  unfold add_request at 1. destruct (map_get (keyFor prober (hit_chunk h)) (foldl (add_request prober) [] hits)) as [r|] eqn:Hk.
  - destruct (unclassified _) eqn:Hu; [done|]. symmetry. apply (unclassified_None _ _ Hu).
    pose proof (add_request_inv prober hits) as (_ & Hs & _). destruct (Hs _ _ Hk) as (h' & Hin & Hkey & ->).
    rewrite (key_request prober h h') by (rewrite Forall_forall in Hplain; decompose_Forall; auto).
    apply list_elem_of_fmap_2. unfold map_values. apply list_elem_of_fmap.
    eexists (_, _). split; [reflexivity|]. by apply map_get_elem_weak in Hk.
  - rewrite map_set_fresh by (by apply map_get_None). unfold map_values. rewrite !fmap_app, unclassified_app. done.
Qed.

(** The loop of [preFilter]. *)
Lemma preFilter_fold held covered hits acc :
  foldl (preFilter_step held covered) acc hits =
  (acc.1 ++ List.filter (fun h => negb (mirrorExcludes h held covered)) hits,
   acc.2 + length (List.filter (fun h => mirrorExcludes h held covered) hits)).
Proof.
  revert acc. induction hits as [|h hits IH]; intros [k n]; cbn [foldl List.filter length fst snd].
  { by rewrite app_nil_r, Nat.add_0_r. }
  rewrite IH. unfold preFilter_step. destruct (mirrorExcludes h held covered); cbn [negb fst snd length];
    rewrite <- ?app_assoc; f_equal; lia.
Qed.

Lemma preFilter_sublist hits principals : (preFilter hits principals).1 `sublist_of` hits.
Proof.
  unfold preFilter. destruct (_ || _); [done|]. rewrite preFilter_fold. cbn [fst app]. clear.
  induction hits as [|h hits IH]; [constructor|]. cbn [List.filter].
  destruct (negb _); [by apply sublist_skip|by apply sublist_cons].
Qed.

Lemma mirrorExcludes_true hit held covered :
  mirrorExcludes hit held covered = true <->
  ck_aclPermissive (hit_chunk hit) <> Some true /\ (ck_aclPrincipals (hit_chunk hit) ?? []) <> [] /\
  forall p, p ∈ (ck_aclPrincipals (hit_chunk hit) ?? []) -> p ∉ held /\ kindOf p ∈ covered.
Proof.
  unfold mirrorExcludes. destruct (ck_aclPermissive (hit_chunk hit)) as [[]|]; cbn [nullish orb].
  - naive_solver.
  - destruct (ck_aclPrincipals (hit_chunk hit) ?? []) as [|p ps]; cbn [length Nat.eqb]; [naive_solver|].
    rewrite forallb_elem_of. setoid_rewrite andb_true_iff. setoid_rewrite has_true. setoid_rewrite negb_true_iff.
    unfold has. setoid_rewrite bool_decide_eq_false. naive_solver.
  - destruct (ck_aclPrincipals (hit_chunk hit) ?? []) as [|p ps]; cbn [length Nat.eqb]; [naive_solver|].
    rewrite forallb_elem_of. setoid_rewrite andb_true_iff. setoid_rewrite has_true. setoid_rewrite negb_true_iff.
    unfold has. setoid_rewrite bool_decide_eq_false. naive_solver.
Qed.

(** Where an admitted chunk comes from. *)
Lemma authorize_elem {W : Type} (prober : Prober W) hits w w' out a :
  Forall plain_hit hits -> authorize prober hits w = (Ok out, w') -> a ∈ ao_chunks out ->
  let asks := runs (prober_probe prober <$> map_values (requests_of prober hits)) in
  exists hit r w1 w2,
    hit ∈ hits /\ a = authorized hit r /\ probe_allowed r = true /\
    prober_probe prober (request_for prober (hit_chunk hit)) w1 = (Ok r, w2) /\ rtc asks w w1 /\ rtc asks w2 w'.
Proof.
  intros Hplain Hrun Ha. cbv zeta.
  destruct (decide (hits = [])) as [->|Hne]; [injection Hrun as <- _; by apply elem_of_nil in Ha|].
  destruct (all_settled_spec (E' := ProbeError) (prober_probe prober <$> map_values (requests_of prober hits)) w)
    as (settled & w1 & Hall & _ & HF). apply Forall2_fmap_l in HF.
  destruct (authorize_unfold prober _ hits w w1 settled Hne Hplain Hall HF) as (answer & Hans & _ & Heq).
  rewrite Hrun in Heq. destruct (unclassified settled); [done|]. injection Heq as -> ->.
  apply list_elem_of_omap in Ha as (hit & Hin & Ha). unfold admitted in Ha.
  destruct (answer hit) as [r|e] eqn:Hr; [|done]. destruct (probe_allowed r) eqn:Hal; [|done]. injection Ha as <-.
  destruct (Hans hit Hin) as (wa & wb & Hp & Hwa & Hwb). rewrite Hr in Hp. by exists hit, r, wa, wb.
Qed.

(** The admitted chunks are among the hits, in order, and counted once. *)
Lemma authorize_counts {W : Type} (prober : Prober W) hits w w' out :
  Forall plain_hit hits -> authorize prober hits w = (Ok out, w') ->
  ((fun a => mkCorpusSearchResult (ac_chunk a) (ac_score a)) <$> ao_chunks out) `sublist_of` hits /\
  length (ao_chunks out) + ao_denied out <= length hits.
Proof.
  intros Hplain Hrun. destruct (decide (hits = [])) as [->|Hne]; [injection Hrun as <- _; by split; [constructor|]|].
  destruct (all_settled_spec (E' := ProbeError) (prober_probe prober <$> map_values (requests_of prober hits)) w)
    as (settled & w1 & Hall & _ & HF). apply Forall2_fmap_l in HF.
  destruct (authorize_unfold prober _ hits w w1 settled Hne Hplain Hall HF) as (answer & _ & _ & Heq).
  rewrite Hrun in Heq. destruct (unclassified settled); [done|]. injection Heq as -> ->.
  cbn [ao_chunks ao_denied authorize_each].
  split; [|pose proof (authorize_each_partition answer hits); lia].
  clear. induction hits as [|h hits IH]; [constructor|]. cbn [omap list_omap]. unfold admitted at 1.
  destruct (answer h) as [r|e]; [destruct (probe_allowed r)|].
  - rewrite fmap_cons. destruct h. by apply sublist_skip.
  - by apply sublist_cons.
  - by apply sublist_cons.
Qed.

(** ** Properties *)

(** Whatever the source answers and however its state moves meanwhile, a
    chunk leaves [authorize] only if, during this very call, the source was
    asked about exactly that chunk's resource (or its connection, where that is
    the unit) and allowed it; title, url and version are that answer's, never
    the mirror's; no question is asked twice; the chunks keep their order; and
    none is counted twice. *)
Theorem authorize_sound {W : Type} (prober : Prober W) (hits : list CorpusSearchResult) (w w' : W) (out : AuthorizeOutcome) :
  Forall plain_hit hits -> authorize prober hits w = (Ok out, w') ->
  let asks := runs (prober_probe prober <$> map_values (requests_of prober hits)) in
  NoDup (map_values (requests_of prober hits)) /\
  ((fun a => mkCorpusSearchResult (ac_chunk a) (ac_score a)) <$> ao_chunks out) `sublist_of` hits /\
  length (ao_chunks out) + ao_denied out <= length hits /\
  forall a, a ∈ ao_chunks out -> exists hit r w1 w2,
    hit ∈ hits /\ a = authorized hit r /\ probe_allowed r = true /\
    prober_probe prober (request_for prober (hit_chunk hit)) w1 = (Ok r, w2) /\
    rtc asks w w1 /\ rtc asks w2 w'.
Proof.
  intros Hplain Hrun asks. split; [apply requests_NoDup|].
  destruct (authorize_counts prober hits w w' out Hplain Hrun) as [Hsub Hcount].
  split_and!; [done|done|]. intros a Ha. by apply (authorize_elem prober hits w w' out).
Qed.

(** Asking once per resource changes nothing. For a source whose answers
    do not change during the call, [authorize] returns what judging every
    candidate by its own question would: the admitted chunks in order, the
    count of the refused, the names of the undetermined, sorted; the three add
    up to the candidates; and an error of no known class fails the whole
    search instead. *)
Theorem authorize_reference {W : Type} (prober : Prober W) (ans : ProbeRequest -> result ProbeError ProbeResult)
    (hits : list CorpusSearchResult) (w : W) :
  Forall plain_hit hits -> (forall request w, (prober_probe prober request w).1 = ans request) ->
  let answer := fun hit => ans (request_for prober (hit_chunk hit)) in
  (authorize prober hits w).1 =
    match unclassified (answer <$> hits) with
    | Some e => Err e
    | None => Ok (authorize_each answer hits)
    end /\
  length (ao_chunks (authorize_each answer hits)) + ao_denied (authorize_each answer hits) +
    length (List.filter (is_transient answer) hits) = length hits.
Proof.
  intros Hplain Hans answer. split; [|apply authorize_each_partition].
  destruct (decide (hits = [])) as [->|Hne]; [done|].
  assert (Forall2 (fun m o => forall w, (m w).1 = o) (prober_probe prober <$> map_values (requests_of prober hits))
    (ans <$> map_values (requests_of prober hits))) as HF.
  { apply Forall2_fmap. apply Forall_Forall2_diag. apply Forall_forall. intros r _ w0. apply Hans. }
  destruct (all_settled_stable (E' := ProbeError) _ _ w HF) as [w1 Hall].
  destruct (authorize_unfold prober (fun r o => o = ans r) hits w w1 _ Hne Hplain Hall) as (f & Hf & _ & ->).
  { apply Forall2_fmap_r, Forall_Forall2_diag, Forall_forall. done. }
  rewrite (unclassified_requests prober ans hits Hplain). fold answer. destruct (unclassified (answer <$> hits)); [done|].
  cbn [fst]. f_equal.
  assert (forall l, (forall h, h ∈ l -> f h = answer h) -> authorize_each f l = authorize_each answer l) as Hext.
  { intros l Hl. unfold authorize_each. assert (omap (admitted f) l = omap (admitted answer) l /\
      List.filter (refused f) l = List.filter (refused answer) l /\
      List.filter (is_transient f) l = List.filter (is_transient answer) l) as (-> & -> & ->); [|done].
    induction l as [|h l IH]; [done|]. cbn [omap list_omap List.filter].
    assert (admitted f h = admitted answer h) as Ha by (unfold admitted; by rewrite (Hl h) by by left).
    assert (is_transient f h = is_transient answer h) as Ht by (unfold is_transient; by rewrite (Hl h) by by left).
    assert (refused f h = refused answer h) as Hr by (unfold refused; by rewrite Ha, Ht).
    rewrite Ha, Ht, Hr. destruct IH as (-> & -> & ->); [intros; apply Hl; by right|]. done. }
  apply Hext. intros h Hh. by apply Hf.
Qed.

(** The pre-filter only saves probes. It keeps everything when the caller's
    identities are unknown; otherwise it keeps the candidates it does not
    exclude, in order, and excludes one only when its access list was resolved,
    is not empty, names none of the caller's principals and only kinds of
    principal the caller has. *)
Theorem preFilter_spec (hits : list CorpusSearchResult) (principals : list string) :
  let '(kept, dropped) := preFilter hits principals in
  (principals = [] -> kept = hits) /\ kept `sublist_of` hits /\ length kept + dropped = length hits /\
  forall hit, hit ∈ hits -> hit ∉ kept ->
    ck_aclPermissive (hit_chunk hit) <> Some true /\ (ck_aclPrincipals (hit_chunk hit) ?? []) <> [] /\
    forall p, p ∈ (ck_aclPrincipals (hit_chunk hit) ?? []) -> p ∉ principals /\ exists p', p' ∈ principals /\ kindOf p' = kindOf p.
Proof.
  pose proof (preFilter_sublist hits principals) as Hsub. revert Hsub.
  unfold preFilter. destruct ((length hits =? 0) || (length principals =? 0)) eqn:E.
  { intros _. split_and!; [done..|lia|]. intros hit H1 H2. by destruct H2. }
  rewrite preFilter_fold. cbn [fst snd app]. intros Hsub. split_and!.
  - intros ->. by rewrite orb_true_r in E.
  - exact Hsub.
  - clear. induction hits as [|h hits IH]; [done|]. cbn [List.filter].
    destruct (mirrorExcludes h _ _); cbn [negb length]; lia.
  - intros hit Hin Hk. destruct (mirrorExcludes hit principals (kindOf <$> principals)) eqn:Hm.
    + apply mirrorExcludes_true in Hm as (H1 & H2 & H3). split_and!; [done..|]. intros p Hp.
      destruct (H3 p Hp) as [Hn (p' & -> & Hp')%list_elem_of_fmap]. split; [done|]. by exists p'.
    + exfalso. apply Hk. apply list_elem_of_In, List.filter_In. split; [by apply list_elem_of_In|]. by rewrite Hm.
Qed.

(** ** A source to run the gate on *)

Definition sample_hit (connection source hash text : string) (score : number) (acl : option (list string)) : CorpusSearchResult :=
  mkCorpusSearchResult
    (mkCorpusChunk connection None "https://wiki/x" source (Some "mirror title") None hash (Some "1") text acl None) score.

(** It counts the questions it gets, and lets the caller read what [readable]
    says. *)
Definition sample_prober (readable : string -> bool) : Prober nat :=
  mkProber (fun _ => g_resource) (fun request n =>
    match pr_sourceId request with
    | Some id => if readable id then (Ok (mkProbeResult true ("live " +:+ id) ("https://wiki/" +:+ id) (Some "2")), S n)
                 else (Err (ProbeDenied "403"), S n)
    | None => (Err (ProbeTransient "503"), S n)
    end).

Definition sample_hits : list CorpusSearchResult :=
  [sample_hit "eng" "p1" "h1" "alpha" (num_of_Z 3) None; sample_hit "eng" "p2" "h2" "beta" (num_of_Z 2) None;
   sample_hit "eng" "p1" "h3" "gamma" (num_of_Z 1) None].

Definition sample_readable (id : string) : bool := bool_decide (id = "p1").

Lemma sample_hits_plain : Forall plain_hit sample_hits.
Proof. by repeat constructor. Qed.

Lemma authorize_sound_witness :
  exists out, authorize (sample_prober sample_readable) sample_hits 0 = (Ok out, 2) /\ length (ao_chunks out) = 2 /\
    forall a, a ∈ ao_chunks out -> ac_title a <> "mirror title".
Proof.
  eexists. split; [by vm_compute|]. split; [by vm_compute|]. intros a Ha.
  destruct (authorize_sound (sample_prober sample_readable) sample_hits 0 2 _ sample_hits_plain
    ltac:(vm_compute; reflexivity)) as (_ & _ & _ & H).
  destruct (H a Ha) as (hit & r & w1 & w2 & _ & -> & _ & Hp & _). revert Hp. cbn.
  intros Hp. by repeat (case_match; simplify_eq/=).
Defined.

Lemma authorize_reference_witness :
  (authorize (sample_prober sample_readable) sample_hits 0).1 =
  Ok (authorize_each (fun hit => (prober_probe (sample_prober sample_readable)
    (request_for (sample_prober sample_readable) (hit_chunk hit)) 0).1) sample_hits).
Proof.
  refine (proj1 (authorize_reference (sample_prober sample_readable)
    (fun r => (prober_probe (sample_prober sample_readable) r 0).1) sample_hits 0 sample_hits_plain _)).
  intros [c [s|]] w; cbn; [by destruct (sample_readable s)|done].
Defined.
