(* ===== verification/KbSearch.v ===== *)
(** * Agent orchestrator: searching the index

    The vector store's reader (knowledge-base/qdrant-corpus-store.ts), the
    fan-out and the merge (knowledge-base/search.ts), the ranking of what was
    confirmed (knowledge-base/rerank.ts) and the whole read path
    (knowledge-base/retrieve.ts, [retrieve]). *)

From stdpp Require Import base gmap strings list sorting.
From Stdlib Require Import ZArith Lia Ascii.
From S2P Require Import Prelude JsString JsNumber Json JsMap EventValues JsList Chunk Driver Auth Writer KnowledgeBase KbProbe.

#[local] Open Scope Z_scope.

(** ** The store of one corpus *)

(** What the code rejects with: [ProbeOther] is any error that is not one of
    the two classes of a probe. *)
Record CorpusStore (W : Type) := mkCorpusStore {
  store_query : string -> list string -> number -> SM W ProbeError (list CorpusSearchResult)
}.
Arguments mkCorpusStore {W}.
Arguments store_query {W} c.

(** [!value] is false. *)
Definition js_truthy (value : option json) : bool :=
  match value with
  | None | Some JNull => false
  | Some (JBool b) => b
  | Some (JNum x) => negb (num_eqb x (num_of_Z 0)) && match x with NaN => false | _ => true end
  | Some (JStr s) => negb (str_empty s)
  | Some (JArr _) | Some (JObj _) => true
  end.

(** The fields of a chunk read off a parsed payload, each at the type the code
    casts it to; one of another type, which the writer never stores, reads as
    absent. *)
Definition str_field (k : string) (fields : list (string * json)) : option string :=
  match jget k fields with
  | Some (JStr s) => Some s
  | _ => None
  end.

Definition str_items (l : list json) : list string :=
  omap (fun v => match v with JStr s => Some s | _ => None end) l.

Definition chunk_of_fields (fields : list (string * json)) : CorpusChunk :=
  mkCorpusChunk (str_field "connectionId" fields ?? EmptyString) (str_field "connectionLabel" fields)
    (str_field "sourceUrl" fields ?? EmptyString) (str_field "sourceId" fields ?? EmptyString)
    (str_field "title" fields) (str_field "updatedAt" fields) (str_field "contentHash" fields ?? EmptyString)
    (str_field "version" fields) (str_field "text" fields ?? EmptyString)
    (match jget "aclPrincipals" fields with Some (JArr l) => Some (str_items l) | _ => None end)
    (match jget "aclPermissive" fields with Some (JBool b) => Some b | _ => None end).

(** The search Qdrant is asked for, and its answer. *)
Record SearchRequest := mkSearchRequest {
  sr_vector : list number;
  sr_limit : number;
  sr_roles : list string;
  sr_or_unrestricted : bool;
  sr_not_hidden : bool
}.

Record SearchResponse := mkSearchResponse {
  sp_status : Z;
  sp_result : option (list (number * option Payload));
  sp_text : string
}.

(** What the filter of a request lets through. *)
Definition filter_admits (r : SearchRequest) (p : Payload) : bool :=
  (existsb (has (sr_roles r)) (payload_roles p) || (sr_or_unrestricted r && payload_unrestricted p)) &&
  negb (sr_not_hidden r && payload_hidden p).

Section QdrantStore.
Context {W : Type}.
(** The embedding service, Qdrant's search, [JSON.parse], and the decimal
    rendering of a status. *)
Variable embed_query : string -> SM W ProbeError (list number).
Variable q_search : string -> SearchRequest -> SM W ProbeError SearchResponse.
Variable JSON_parse : string -> option json.
Variable collection : string.

Definition decodeChunk (payload : option Payload) : option CorpusChunk :=
  match payload with
  | None => None
  | Some p =>
      match payload_descriptor p with
      | Some (JStr descriptor) =>
          match JSON_parse descriptor with
          | Some (JObj fields) =>
              if negb (js_truthy (jget "sourceUrl" fields)) || negb (js_truthy (jget "contentHash" fields)) then None
              else Some (chunk_of_fields fields)
          | _ => None
          end
      | _ => None
      end
  end.

Definition hit_of (point : number * option Payload) : option CorpusSearchResult :=
  match decodeChunk point.2 with
  | Some chunk => Some (mkCorpusSearchResult chunk point.1)
  | None => None
  end.

Definition qdrant_query (text : string) (callerRoles : list string) (k : number) : SM W ProbeError (list CorpusSearchResult) :=
  match callerRoles with
  | [] => sret []
  | _ =>
      if num_le k 0 then sret []
      else
        do! vector <- embed_query text ;;
        do! response <- q_search collection (mkSearchRequest vector k callerRoles true true) ;;
        if sp_status response =? 404 then sret []
        else if negb ((200 <=? sp_status response) && (sp_status response <=? 299)) then
          sthrow (ProbeOther ("qdrant search " +:+ collection +:+ ": " +:+ Z_to_string (sp_status response) +:+ " " +:+
                    str_take 300 (sp_text response)))
        else sret (omap hit_of (sp_result response ?? []))
  end.

Definition QdrantCorpusStore : CorpusStore W := mkCorpusStore qdrant_query.
End QdrantStore.

(** ** The fan-out and the merge (search.ts) *)

Definition betterThan (a b : CorpusSearchResult) : bool :=
  if negb (num_eqb (hit_score a) (hit_score b)) then num_gtb (hit_score a) (hit_score b)
  else if negb (bool_decide (ck_connectionId (hit_chunk a) = ck_connectionId (hit_chunk b)))
  then str_ltb (ck_connectionId (hit_chunk a)) (ck_connectionId (hit_chunk b))
  else str_ltb (ck_sourceId (hit_chunk a)) (ck_sourceId (hit_chunk b)).

Definition prune_key (hit : CorpusSearchResult) : string :=
  let chunk := hit_chunk hit in
  if str_empty (ck_contentHash chunk) then ck_connectionId chunk +:+ String NUL (ck_sourceId chunk) else ck_contentHash chunk.

Definition keep_best (best : jsmap CorpusSearchResult) (hit : CorpusSearchResult) : jsmap CorpusSearchResult :=
  match map_get (prune_key hit) best with
  | None => map_set (prune_key hit) hit best
  | Some existing => if betterThan hit existing then map_set (prune_key hit) hit best else best
  end.

(** [xs.slice(0, n)]. *)
Definition slice0 {A : Type} (n : number) (l : list A) : list A :=
  match n with
  | NaN => []
  | Infinity negative => if negative then [] else l
  | Finite m e =>
      let z := if m <? 0 then - floor_dyadic (- m) e else floor_dyadic m e in
      take (Z.to_nat (if z <? 0 then Z.of_nat (length l) + z else z)) l
  end.

Definition prune (hits : list CorpusSearchResult) (limit : number) : list CorpusSearchResult :=
  slice0 limit (sort_by betterThan (map_values (foldl keep_best [] hits))).

(** [String(error)] *)
Definition error_String (e : ProbeError) : string :=
  match e with
  | ProbeDenied m => "PermissionDeniedError: " +:+ m
  | ProbeTransient m => "TransientProbeError: " +:+ m
  | ProbeOther m => "Error: " +:+ m
  end.

Record CorpusSearchOutcome := mkCorpusSearchOutcome {
  so_hits : list CorpusSearchResult;
  so_skipped : nat
}.

Definition fulfilled {E A : Type} (r : result E A) : option A :=
  match r with
  | Ok a => Some a
  | Err _ => None
  end.

Definition rejected {E A : Type} (r : result E A) : option E :=
  match r with
  | Ok _ => None
  | Err e => Some e
  end.

Definition searchCorpus {W : Type} (stores : list (CorpusStore W)) (query : string) (callerRoles : list string)
    (limit : number) : SM W ProbeError CorpusSearchOutcome :=
  if negb (isInteger limit) || num_le limit 0
  then sthrow (ProbeOther ("corpus search limit must be a positive integer, got " +:+ number_toString limit))
  else match stores with
  | [] => sret (mkCorpusSearchOutcome [] 0)
  | _ =>
      do! settled <- all_settled ((fun store => store_query store query callerRoles limit) <$> stores) ;;
      let gathered := concat (omap fulfilled (settled : list (result ProbeError (list CorpusSearchResult)))) in
      let errors := omap rejected (settled : list (result ProbeError (list CorpusSearchResult))) in
      if (length errors =? length stores)%nat
      then sthrow (ProbeOther ("every corpus in this knowledge base failed: " +:+ ((error_String <$> head errors) ?? EmptyString)))
      else sret (mkCorpusSearchOutcome (prune gathered limit) (length errors))
  end.

(** ** The ranking (rerank.ts) *)

Definition WEIGHT_VECTOR : number := num_of_decimal "0" "7".
Definition WEIGHT_KEYWORD : number := num_of_decimal "0" "3".

Definition STOP_WORDS : list string :=
  ["the"; "and"; "for"; "are"; "what"; "which"; "with"; "that"; "this"; "from";
   "have"; "has"; "can"; "you"; "our"; "was"; "were"; "about"; "into"; "how";
   "does"; "did"; "they"; "them"].

(** The Latin-1 characters of [\p{L}] and [\p{N}]. *)
Definition is_word (c : ascii) : bool :=
  is_alnum c || in_range 178 179 c || in_range 185 186 c || in_range 188 190 c || (code c =? 170)%N || (code c =? 181)%N ||
  (in_range 192 255 c && negb (code c =? 215)%N && negb (code c =? 247)%N).

(** Split at every character outside the class: where the source's regular
    expression takes a run of them at once, this gives empty pieces, which the
    length test drops as well. *)
Fixpoint split_words (s : string) : list string :=
  match s with
  | EmptyString => [EmptyString]
  | String c s' =>
      if is_word c then
        match split_words s' with
        | w :: ws => String c w :: ws
        | [] => [String c EmptyString]
        end
      else EmptyString :: split_words s'
  end.

Definition tokenize (s : string) : list string :=
  set_of (List.filter (fun token => negb (slen token <? 3)%nat && negb (has STOP_WORDS token)) (split_words (toLowerCase s))).

Definition keywordOverlap (terms : list string) (title text : string) : number :=
  match terms with
  | [] => num_of_Z 0
  | _ =>
      let haystack := tokenize (title +:+ " " +:+ text) in
      num_div (num_of_Z (Z.of_nat (length (List.filter (has haystack) terms)))) (num_of_Z (Z.of_nat (length terms)))
  end.

Definition score_min (chunks : list AuthorizedChunk) : number :=
  foldl (fun low c => if num_ltb (ac_score c) low then ac_score c else low) (Infinity false) chunks.
Definition score_max (chunks : list AuthorizedChunk) : number :=
  foldl (fun high c => if num_gtb (ac_score c) high then ac_score c else high) (Infinity true) chunks.

Record Scored := mkScored {
  scored_chunk : AuthorizedChunk;
  scored_combined : number
}.

Definition combined_score (terms : list string) (low span : number) (c : AuthorizedChunk) : number :=
  let norm := if num_gtb span (num_of_Z 0) then num_div (num_sub (ac_score c) low) span else num_of_Z 1 in
  num_add (num_mul WEIGHT_VECTOR norm)
    (num_mul WEIGHT_KEYWORD (keywordOverlap terms (ck_title (ac_chunk c) ?? EmptyString) (ck_text (ac_chunk c)))).

(** The comparator is negative. *)
Definition ranks_before (a b : Scored) : bool :=
  let ca := ac_chunk (scored_chunk a) in
  let cb := ac_chunk (scored_chunk b) in
  if negb (num_eqb (scored_combined a) (scored_combined b)) then num_gtb (scored_combined a) (scored_combined b)
  else if negb (num_eqb (ac_score (scored_chunk a)) (ac_score (scored_chunk b)))
  then num_gtb (ac_score (scored_chunk a)) (ac_score (scored_chunk b))
  else if negb (bool_decide (ck_connectionId ca = ck_connectionId cb)) then str_ltb (ck_connectionId ca) (ck_connectionId cb)
  else if negb (bool_decide (ck_sourceId ca = ck_sourceId cb)) then str_ltb (ck_sourceId ca) (ck_sourceId cb)
  else false.

Definition score_all (query : string) (chunks : list AuthorizedChunk) : list Scored :=
  let terms := tokenize query in
  let low := score_min chunks in
  let span := num_sub (score_max chunks) low in
  (fun c => mkScored c (combined_score terms low span c)) <$> chunks.

Definition rerank (query : string) (chunks : list AuthorizedChunk) : list AuthorizedChunk :=
  if (length chunks <? 2)%nat then chunks
  else scored_chunk <$> sort_by ranks_before (score_all query chunks).

(** ** The read path (retrieve.ts) *)

Definition DEFAULT_CANDIDATE_MULTIPLIER : number := num_of_Z 5.

Record RetrieveOutcome := mkRetrieveOutcome {
  ro_chunks : list AuthorizedChunk;
  ro_denied : nat;
  ro_undetermined : list string;
  ro_skippedCorpora : nat;
  ro_preFiltered : nat
}.

Definition retrieve {W : Type} (stores : list (CorpusStore W)) (prober : Prober W) (query : string)
    (callerRoles callerPrincipals : list string) (limit multiplier : number) : SM W ProbeError RetrieveOutcome :=
  let factor := if isInteger multiplier && num_ge multiplier 1 then multiplier else DEFAULT_CANDIDATE_MULTIPLIER in
  do! found <- searchCorpus stores query callerRoles (num_mul limit factor) ;;
  let '(kept, dropped) := preFilter (so_hits found) callerPrincipals in
  do! authorized <- authorize prober kept ;;
  let ranked := rerank query (ao_chunks authorized) in
  sret (mkRetrieveOutcome (slice0 limit ranked) (ao_denied authorized) (ao_undetermined authorized)
          (so_skipped found) dropped).

(** ** Lemmas: the merge *)

Definition scored_hit (h : CorpusSearchResult) : Prop := not_NaN (hit_score h).

#[export] Instance betterThan_order : WeakOrder betterThan scored_hit.
Proof.
  apply (order_ext _ (lex (fun a b => num_gtb (hit_score a) (hit_score b))
    (lex (fun a b => str_ltb (ck_connectionId (hit_chunk a)) (ck_connectionId (hit_chunk b)))
         (fun a b => str_ltb (ck_sourceId (hit_chunk a)) (ck_sourceId (hit_chunk b)))))).
  - intros a b Ha Hb. rewrite <- (lex_num_spec hit_score) by done. unfold betterThan.
    by rewrite <- (lex_str_spec (fun h => ck_connectionId (hit_chunk h))).
  - apply lex_order; [apply (num_desc_order hit_score)|]. apply lex_order; apply str_asc_order.
Qed.

(** [best] holds the best hit of every key of [hits]. *)
Definition best_of (hits : list CorpusSearchResult) (best : jsmap CorpusSearchResult) : Prop :=
  map_wf best /\
  (forall k v, map_get k best = Some v -> v ∈ hits /\ prune_key v = k /\
     forall h, h ∈ hits -> prune_key h = k -> betterThan h v = false) /\
  (forall h, h ∈ hits -> map_get (prune_key h) best <> None).

Lemma betterThan_irrefl h : scored_hit h -> betterThan h h = false.
Proof.
  intros Hh. destruct (betterThan h h) eqn:E; [|done]. pose proof (wo_asym betterThan h h Hh Hh E). congruence.
Qed.

Lemma best_of_set hits m h :
  best_of hits m -> scored_hit h -> (forall h', h' ∈ hits -> prune_key h' = prune_key h -> betterThan h' h = false) ->
  best_of (hits ++ [h]) (map_set (prune_key h) h m).
Proof.
  intros (Hwf & Hv & Hc) Hh Hbest. split_and!; [by apply map_set_wf| |].
  - intros k u. destruct (decide (prune_key h = k)) as [<-|Hne].
    + rewrite map_get_set_eq. intros [= <-]. split_and!; [set_solver|done|].
      intros h' [Hin| ->%list_elem_of_singleton]%elem_of_app Hkey; [by apply Hbest|by apply betterThan_irrefl].
    + rewrite map_get_set_ne by done. intros (Hin & Hkey & Hb)%Hv. split_and!; [set_solver|done|].
      intros h' [Hin'| ->%list_elem_of_singleton]%elem_of_app; [by apply Hb|done].
  - intros h' Hin. destruct (decide (prune_key h = prune_key h')) as [<-|Hne]; [by rewrite map_get_set_eq|].
    rewrite map_get_set_ne by done. apply elem_of_app in Hin as [Hin| ->%list_elem_of_singleton]; [by apply Hc|done].
Qed.

Lemma best_of_keep hits m h v :
  best_of hits m -> map_get (prune_key h) m = Some v -> betterThan h v = false -> best_of (hits ++ [h]) m.
Proof.
  intros (Hwf & Hv & Hc) Hk Hb. split_and!; [done| |].
  - intros k u Hu. destruct (Hv k u Hu) as (Hin & Hkey & Hbest). split_and!; [set_solver|done|].
    intros h' [Hin'| ->%list_elem_of_singleton]%elem_of_app Hkey'; [by apply Hbest|]. congruence.
  - intros h' [Hin| ->%list_elem_of_singleton]%elem_of_app; [by apply Hc|congruence].
Qed.

Lemma keep_best_of hits : Forall scored_hit hits -> best_of hits (foldl keep_best [] hits).
Proof.
  induction hits as [|h hits IH] using rev_ind.
  { intros _. split_and!; [constructor|done|]. intros h []%elem_of_nil. }
  intros [Hs Hh]%Forall_app. apply Forall_cons_1 in Hh as [Hh _]. specialize (IH Hs).
  rewrite foldl_snoc. set (m := foldl keep_best [] hits) in *. unfold keep_best.
  pose proof IH as (Hwf & Hv & Hc). rewrite Forall_forall in Hs.
  destruct (map_get (prune_key h) m) as [v|] eqn:Hk.
  - destruct (betterThan h v) eqn:Hb; [|by eapply best_of_keep]. apply best_of_set; [done..|].
    intros h' Hin Hkey. destruct (Hv _ _ Hk) as (Hvin & _ & Hbest).
    apply (wo_trans_neg betterThan scored_hit h v h'); [done|by apply Hs..| |by apply Hbest].
    apply (wo_asym betterThan (P := scored_hit)); auto.
  - apply best_of_set; [done..|]. intros h' Hin Hkey. destruct (Hc h' Hin). by rewrite Hkey.
Qed.

(** The candidates [prune] ranks: of the hits with one key, the best. *)
Definition survivors (hits : list CorpusSearchResult) : list CorpusSearchResult := map_values (foldl keep_best [] hits).

Lemma survivors_keys hits : Forall scored_hit hits -> NoDup (prune_key <$> survivors hits).
Proof.
  intros (Hwf & Hv & _)%keep_best_of. unfold survivors, map_values.
  assert (prune_key <$> (foldl keep_best [] hits).*2 = (foldl keep_best [] hits).*1) as ->; [|done].
  rewrite <- list_fmap_compose. apply list_fmap_ext. intros i [k v] Hi. cbn.
  apply list_elem_of_lookup_2, map_get_elem in Hi; [|done]. by destruct (Hv k v Hi) as (_ & -> & _).
Qed.

Lemma survivors_elem hits v :
  Forall scored_hit hits -> v ∈ survivors hits ->
  v ∈ hits /\ forall h, h ∈ hits -> prune_key h = prune_key v -> betterThan h v = false.
Proof.
  intros (Hwf & Hv & _)%keep_best_of (k & Hk)%map_values_elem. apply map_get_elem in Hk; [|done].
  by destruct (Hv k v Hk) as (Hin & -> & Hbest).
Qed.

Lemma survivors_cover hits h :
  Forall scored_hit hits -> h ∈ hits -> exists v, v ∈ survivors hits /\ prune_key v = prune_key h /\ betterThan h v = false.
Proof.
  intros (Hwf & Hv & Hc)%keep_best_of Hin. specialize (Hc h Hin).
  destruct (map_get (prune_key h) (foldl keep_best [] hits)) as [v|] eqn:Hk; [|done].
  destruct (Hv _ _ Hk) as (_ & Hkey & Hbest). exists v. split_and!; [|done|by apply Hbest].
  apply map_values_elem. exists (prune_key h). by apply map_get_elem_weak.
Qed.

(** Any two different hits are ranked by score, connection or source. *)
Definition distinguishable (hits : list CorpusSearchResult) : Prop :=
  forall a b, a ∈ hits -> b ∈ hits -> a = b \/ betterThan a b = true \/ betterThan b a = true.

Lemma survivors_perm hits hits' :
  Forall scored_hit hits -> distinguishable hits -> hits ≡ₚ hits' -> survivors hits ≡ₚ survivors hits'.
Proof.
  intros Hs Hd Hp. assert (Forall scored_hit hits') as Hs' by by rewrite <- Hp.
  assert (forall l1 l2, l1 ≡ₚ l2 -> Forall scored_hit l1 -> Forall scored_hit l2 -> distinguishable l1 ->
    forall v, v ∈ survivors l1 -> v ∈ survivors l2) as Hincl.
  { intros l1 l2 H12 H1 H2 Hd1 v Hv. destruct (survivors_elem l1 v H1 Hv) as [Hin Hbest].
    assert (v ∈ l2) as Hin2 by by rewrite <- H12.
    destruct (survivors_cover l2 v H2 Hin2) as (u & Hu & Hkey & Hub).
    destruct (survivors_elem l2 u H2 Hu) as [Huin _]. rewrite <- H12 in Huin.
    destruct (Hd1 u v Huin Hin) as [->|[Huv|Hvu]]; [done| |congruence]. rewrite Hbest in Huv by done. done. }
  apply NoDup_Permutation.
  - eapply NoDup_fmap_1, survivors_keys, Hs.
  - eapply NoDup_fmap_1, survivors_keys, Hs'.
  - intros v. split; [by apply Hincl|]. apply Hincl; [done..|]. intros a b Ha Hb. apply Hd; by rewrite Hp.
Qed.

Lemma slice0_sublist {A : Type} n (l : list A) : slice0 n l `sublist_of` l.
Proof.
  destruct n as [|[]|m e]; cbn; [apply sublist_nil_l..| done|]. apply sublist_take.
Qed.

Lemma slice0_length {A : Type} n (l : list A) z : num_le n z = true -> 0 <= z -> num_ge n 0 = true -> (length (slice0 n l) <= Z.to_nat z)%nat.
Proof.
  destruct n as [|[]|m e]; cbn; try done.
  intros Hle Hz Hge. rewrite length_take. unfold floor_dyadic.
  destruct (Z.leb_spec 0 e) as [He|He].
  - rewrite Z.mul_0_l in Hge || idtac. apply Z.leb_le in Hle, Hge.
    assert (0 < 2 ^ e) by (apply Z.pow_pos_nonneg; lia).
    destruct (Z.ltb_spec m 0); [nia|]. destruct (Z.ltb_spec (m * 2 ^ e) 0); lia.
  - apply Z.leb_le in Hle, Hge. assert (0 < 2 ^ - e) by (apply Z.pow_pos_nonneg; lia).
    destruct (Z.ltb_spec m 0); [lia|]. pose proof (Z.div_pos m (2 ^ - e)). pose proof (Z.mul_div_le m (2 ^ -e)).
    destruct (Z.ltb_spec (m / 2 ^ - e) 0); [lia|]. apply Nat.min_le_iff. left. apply Z2Nat.inj_le; nia.
Qed.

(** ** Lemmas: the ranking *)

Definition ranked_ok (s : Scored) : Prop := not_NaN (scored_combined s) /\ not_NaN (ac_score (scored_chunk s)).

#[export] Instance ranks_before_order : WeakOrder ranks_before ranked_ok.
Proof.
  apply (order_ext _ (lex (fun a b => num_gtb (scored_combined a) (scored_combined b))
    (lex (fun a b => num_gtb (ac_score (scored_chunk a)) (ac_score (scored_chunk b)))
    (lex (fun a b => str_ltb (ck_connectionId (ac_chunk (scored_chunk a))) (ck_connectionId (ac_chunk (scored_chunk b))))
         (fun a b => str_ltb (ck_sourceId (ac_chunk (scored_chunk a))) (ck_sourceId (ac_chunk (scored_chunk b)))))))).
  - intros a b [Ha1 Ha2] [Hb1 Hb2]. rewrite <- (lex_num_spec scored_combined) by done.
    rewrite <- (lex_num_spec (fun s => ac_score (scored_chunk s))) by done.
    rewrite <- (lex_str_spec (fun s => ck_connectionId (ac_chunk (scored_chunk s)))).
    unfold ranks_before. repeat (case_match; try done). apply negb_false_iff, bool_decide_eq_true in H2.
    by rewrite H2, str_ltb_irrefl.
  - apply lex_order; [apply (order_by (fun s => s) _ (fun a => not_NaN (scored_combined a))); [by intros ? []|apply num_desc_order]|].
    apply lex_order; [apply (order_by (fun s => s) _ (fun a => not_NaN (ac_score (scored_chunk a)))); [by intros ? []|]|].
    + apply (num_desc_order (fun a => ac_score (scored_chunk a))).
    + apply lex_order; apply str_asc_order.
Qed.

Lemma score_all_chunks query chunks : scored_chunk <$> score_all query chunks = chunks.
Proof. unfold score_all. rewrite <- list_fmap_compose. apply list_fmap_id. Qed.

Lemma rerank_perm query chunks : rerank query chunks ≡ₚ chunks.
Proof.
  unfold rerank. destruct (length chunks <? 2)%nat; [done|].
  rewrite (sort_by_perm ranks_before (score_all query chunks)). by rewrite score_all_chunks.
Qed.

(** ** Lemmas: the fan-out *)

Lemma omap_fulfilled_length {E A : Type} (l : list (result E A)) :
  (length (omap fulfilled l) + length (omap rejected l) = length l)%nat.
Proof. induction l as [|[a|e] l IH]; cbn [omap list_omap length fulfilled rejected]; lia. Qed.

(** What a successful search returns comes from a store's own answer. *)
Lemma searchCorpus_elem {W : Type} (stores : list (CorpusStore W)) query roles limit w w' out :
  searchCorpus stores query roles limit w = (Ok out, w') ->
  forall h, h ∈ so_hits out -> exists store w1 w2 hs,
    store ∈ stores /\ store_query store query roles limit w1 = (Ok hs, w2) /\ h ∈ hs.
Proof.
  unfold searchCorpus. destruct (_ || _); [done|]. destruct stores as [|s ss]; [by intros [= <- _] h ?%elem_of_nil|].
  set (stores := s :: ss). intros Hrun h Hh. unfold sbind in Hrun.
  destruct (all_settled_spec (E' := ProbeError) ((fun store => store_query store query roles limit) <$> stores) w)
    as (settled & w1 & Hall & _ & HF). rewrite Hall in Hrun.
  destruct (_ =? _)%nat; [done|]. injection Hrun as <- <-. cbn [so_hits] in Hh.
  eapply elem_of_sublist in Hh; [|apply slice0_sublist]. rewrite sort_by_elem in Hh.
  assert (h ∈ concat (omap fulfilled settled)) as Hin.
  { apply map_values_elem in Hh as (k & Hk).
    assert (forall hits m, (forall e, e ∈ m -> e.2 ∈ concat (omap fulfilled settled)) ->
      (forall x, x ∈ hits -> x ∈ concat (omap fulfilled settled)) ->
      forall e, e ∈ foldl keep_best m hits -> e.2 ∈ concat (omap fulfilled settled)) as Hfold.
    { intros hits. induction hits as [|x hits IH]; intros m Hm Hx; [done|]. cbn [foldl]. apply IH.
      - intros e He. assert (e = (prune_key x, x) \/ e ∈ m) as [-> |?]; [|apply Hx; by left|by apply Hm].
        unfold keep_best in He. destruct (map_get (prune_key x) m); [destruct (betterThan x _)|];
          [by apply map_set_elem|by right|by apply map_set_elem].
      - intros y Hy. apply Hx. by right. }
    apply (Hfold (concat (omap fulfilled settled)) [] ltac:(intros ? []%elem_of_nil) ltac:(done) _ Hk). }
  apply list_elem_of_In, in_concat in Hin as (hs & Hhs%list_elem_of_In & Hin%list_elem_of_In).
  apply list_elem_of_omap in Hhs as (o & Ho & Hof). destruct o as [hs'|]; [|done]. injection Hof as ->.
  apply list_elem_of_lookup in Ho as [i Hi]. eapply Forall2_lookup_r in HF as (m & Hm & wa & wb & Hq & _); [|exact Hi].
  apply list_lookup_fmap_Some in Hm as (store & -> & Hstore). exists store, wa, wb, hs.
  split_and!; [by eapply list_elem_of_lookup_2|done|done].
Qed.

(** Where a returned passage comes from: a store's own search, and a probe that
    allowed it. *)
Lemma retrieve_elem {W : Type} (stores : list (CorpusStore W)) (prober : Prober W) query roles principals limit multiplier
    (w w' : W) (out : RetrieveOutcome) a :
  retrieve stores prober query roles principals limit multiplier w = (Ok out, w') ->
  (forall store q k w1 w2 hs, store ∈ stores -> store_query store q roles k w1 = (Ok hs, w2) -> Forall plain_hit hs) ->
  a ∈ ro_chunks out -> exists hit r,
    a = authorized hit r /\ probe_allowed r = true /\
    (exists store k w1 w2 hs, store ∈ stores /\ store_query store query roles k w1 = (Ok hs, w2) /\ hit ∈ hs) /\
    exists w1 w2, prober_probe prober (request_for prober (hit_chunk hit)) w1 = (Ok r, w2).
Proof.
  intros Hrun Hplain Ha. unfold retrieve in Hrun.
  apply sbind_Ok in Hrun as (found & w1 & Hsearch & Hrun).
  pose proof (preFilter_sublist (so_hits found) principals) as Hsub.
  destruct (preFilter (so_hits found) principals) as [kept dropped]. cbn [fst] in Hsub.
  apply sbind_Ok in Hrun as (auth & w2 & Hauth & [= <- <-]). cbn [ro_chunks] in Ha.
  assert (Forall plain_hit kept) as Hkept.
  { apply Forall_forall. intros h Hh. eapply elem_of_sublist in Hh; [|exact Hsub].
    destruct (searchCorpus_elem _ _ _ _ _ _ _ Hsearch h Hh) as (store & wa & wb & hs & Hst & Hq & Hin).
    pose proof (Hplain _ _ _ _ _ _ Hst Hq) as Hp. rewrite Forall_forall in Hp. by apply Hp. }
  eapply elem_of_sublist in Ha; [|apply slice0_sublist]. rewrite rerank_perm in Ha.
  destruct (authorize_elem prober kept w1 w2 auth a Hkept Hauth Ha) as (hit & r & wa & wb & Hin & -> & Hal & Hp & _).
  exists hit, r. split_and!; [done|done| |by exists wa, wb].
  eapply elem_of_sublist in Hin; [|exact Hsub].
  destruct (searchCorpus_elem _ _ _ _ _ _ _ Hsearch hit Hin) as (store & wc & wd & hs & Hst & Hq & Hhs).
  by exists store, (num_mul limit (if isInteger multiplier && num_ge multiplier 1 then multiplier
                                   else DEFAULT_CANDIDATE_MULTIPLIER)), wc, wd, hs.
Qed.

(** ** Properties *)

(** The merge of a fan-out. The hits are ordered best first; no two carry
    the same passage; every passage found is represented by a copy at least as
    good as any other, before the cut to the limit; and the result does not
    depend on which corpus answered first, when score, connection and source
    tell the hits apart. *)
Theorem prune_spec (hits : list CorpusSearchResult) (limit : number) :
  Forall scored_hit hits ->
  exists full, prune hits limit = slice0 limit full /\
    StronglySorted (fun a b => betterThan b a = false) full /\
    NoDup (prune_key <$> full) /\ (forall v, v ∈ full -> v ∈ hits) /\
    (forall h, h ∈ hits -> exists v, v ∈ full /\ prune_key v = prune_key h /\ betterThan h v = false) /\
    (distinguishable hits -> forall hits', hits ≡ₚ hits' -> prune hits' limit = prune hits limit).
Proof.
  intros Hs. exists (sort_by betterThan (survivors hits)).
  assert (Forall scored_hit (survivors hits)) as Hsurv.
  { apply Forall_forall. intros v Hv. rewrite Forall_forall in Hs. apply Hs, (survivors_elem hits v); [|done].
    by apply Forall_forall. }
  split_and!.
  - done.
  - by apply (sort_by_sorted betterThan scored_hit).
  - rewrite (sort_by_perm betterThan). by apply survivors_keys.
  - intros v. rewrite sort_by_elem. intros Hv. by apply (survivors_elem hits v Hs).
  - intros h Hh. destruct (survivors_cover hits h Hs Hh) as (v & Hv & Hkv). exists v. by rewrite sort_by_elem.
  - intros Hd hits' Hp. unfold prune. f_equal. symmetry.
    apply (sort_by_unique betterThan scored_hit); [done|by apply survivors_perm|].
    intros a b Ha Hb. apply survivors_elem in Ha as [Ha _], Hb as [Hb _]; [|done..]. by apply Hd.
Qed.

(** The ranking only reorders: the same chunks come out, each with the
    score it was confirmed with, and when no blended score is undefined they
    are ordered by blended score, then vector score, then connection, then
    source. *)
Theorem rerank_reorders (query : string) (chunks : list AuthorizedChunk) :
  rerank query chunks ≡ₚ chunks /\
  (Forall ranked_ok (score_all query chunks) ->
   exists ranked, rerank query chunks = scored_chunk <$> ranked /\ ranked ≡ₚ score_all query chunks /\
     StronglySorted (fun a b => ranks_before b a = false) ranked).
Proof.
  split; [apply rerank_perm|]. intros Hok. unfold rerank. destruct (Nat.ltb_spec (length chunks) 2).
  - exists (score_all query chunks). split_and!; [by rewrite score_all_chunks|done|].
    destruct chunks as [|c [|c' cs]]; cbn in *; [constructor| |lia]. repeat constructor.
  - eexists. split_and!; [reflexivity|apply sort_by_perm|]. by apply (sort_by_sorted ranks_before ranked_ok).
Qed.

(** End to end, whatever the stores and the source answer: a passage that
    [retrieve] returns was found by one of the member corpora's own searches,
    run with the caller's roles, and was afterwards allowed, during this very
    retrieval, by the source itself; its title and link are the source's; and
    no more passages come back than were asked for. *)
Theorem retrieve_sound {W : Type} (stores : list (CorpusStore W)) (prober : Prober W) (query : string)
    (roles principals : list string) (limit multiplier : number) (w w' : W) (out : RetrieveOutcome) :
  retrieve stores prober query roles principals limit multiplier w = (Ok out, w') ->
  (forall store q k w1 w2 hs, store ∈ stores -> store_query store q roles k w1 = (Ok hs, w2) -> Forall plain_hit hs) ->
  (forall z, num_ge limit 0 = true -> num_le limit z = true -> 0 <= z -> (length (ro_chunks out) <= Z.to_nat z)%nat) /\
  forall a, a ∈ ro_chunks out -> exists hit r,
    a = authorized hit r /\ probe_allowed r = true /\
    (exists store k w1 w2 hs, store ∈ stores /\ store_query store query roles k w1 = (Ok hs, w2) /\ hit ∈ hs) /\
    exists w1 w2, prober_probe prober (request_for prober (hit_chunk hit)) w1 = (Ok r, w2).
Proof.
  intros Hrun Hplain. split; [|by intros a; eapply retrieve_elem].
  intros z Hge Hle Hz. unfold retrieve in Hrun. apply sbind_Ok in Hrun as (found & w1 & _ & Hrun).
  destruct (preFilter (so_hits found) principals) as [kept dropped].
  apply sbind_Ok in Hrun as (auth & w2 & _ & [= <- <-]). by apply slice0_length.
Qed.

(** An unreachable corpus degrades a search, and only a search of which
    every corpus failed throws. With the outcomes of the stores given, the
    result is the merge of those that answered and the count of those that did
    not; with none left, the first failure is named. *)
Theorem searchCorpus_degrades {W : Type} (stores : list (CorpusStore W)) (query : string) (roles : list string)
    (limit : number) (outs : list (result ProbeError (list CorpusSearchResult))) (w : W) :
  isInteger limit = true -> num_le limit 0 = false ->
  Forall2 (fun store o => forall w, (store_query store query roles limit w).1 = o) stores outs ->
  (searchCorpus stores query roles limit w).1 =
    match omap rejected outs with
    | e :: es => if (length (e :: es) =? length stores)%nat
                 then Err (ProbeOther ("every corpus in this knowledge base failed: " +:+ error_String e))
                 else Ok (mkCorpusSearchOutcome (prune (concat (omap fulfilled outs)) limit) (length (e :: es)))
    | [] => Ok (mkCorpusSearchOutcome (prune (concat (omap fulfilled outs)) limit) 0)
    end.
Proof.
  intros Hint Hpos HF. unfold searchCorpus. rewrite Hint, Hpos. cbn [negb orb].
  destruct stores as [|s ss].
  { apply Forall2_nil_inv_l in HF as ->. assert (prune [] limit = []) as Hnil; [|by cbn; rewrite Hnil].
    unfold prune. destruct limit as [|[]|m e]; [done..|]. apply take_nil. }
  set (stores := s :: ss) in *.
  assert (Forall2 (fun m o => forall w, (m w).1 = o) ((fun store => store_query store query roles limit) <$> stores) outs)
    as HF' by by apply Forall2_fmap_l.
  destruct (all_settled_stable (E' := ProbeError) _ _ w HF') as [w' Hall]. unfold sbind. rewrite Hall.
  destruct (omap rejected outs) as [|e es]; [done|]. by destruct (_ =? _)%nat.
Qed.

Section QdrantProps.
Context {W : Type}.
Variable embed_query : string -> SM W ProbeError (list number).
Variable q_search : string -> SearchRequest -> SM W ProbeError SearchResponse.
Variable JSON_parse : string -> option json.
Variable collection : string.
Variable stored : list Payload.

(** Qdrant's search: what it returns is stored and passes the filter. *)
Definition search_filters : Prop := forall request w response w',
  q_search collection request w = (Ok response, w') ->
  forall score p, (score, Some p) ∈ (sp_result response ?? []) -> p ∈ stored /\ filter_admits request p = true.
End QdrantProps.

(** The index is closed to strangers. Over a store that applies the filter
    it is sent, a caller with no role gets nothing and nothing is asked, and a
    caller who holds none of the roles a corpus was indexed under (the writer
    stores no unrestricted point) gets nothing from it. *)
Theorem qdrant_query_gated {W : Type} (embed_query : string -> SM W ProbeError (list number))
    (q_search : string -> SearchRequest -> SM W ProbeError SearchResponse) (JSON_parse : string -> option json)
    (collection text : string) (stored : list Payload) (corpusRoles roles : list string) (k : number) (w w' : W)
    (hits : list CorpusSearchResult) :
  search_filters q_search collection stored ->
  (forall p, p ∈ stored -> payload_roles p = corpusRoles /\ payload_unrestricted p = false) ->
  (forall r, r ∈ roles -> r ∉ corpusRoles) ->
  qdrant_query embed_query q_search JSON_parse collection text roles k w = (Ok hits, w') ->
  hits = [] /\ (roles = [] -> w' = w).
Proof.
  intros Hlaw Hstored Hdis Hrun. unfold qdrant_query in Hrun.
  destruct roles as [|r rs]; [by injection Hrun as <- <-|]. split; [|done].
  destruct (num_le k 0); [by injection Hrun as <- _|].
  apply sbind_Ok in Hrun as (vector & w1 & _ & Hrun). apply sbind_Ok in Hrun as (response & w2 & Hsearch & Hrun).
  destruct (_ =? _); [by injection Hrun as <- _|]. destruct (negb _); [done|]. injection Hrun as <- _.
  specialize (Hlaw _ _ _ _ Hsearch). induction (sp_result response ?? []) as [|[score [p|]] points IH]; [done| |].
  - exfalso. destruct (Hlaw score p) as [Hp Hadm]; [by left|]. destruct (Hstored p Hp) as [Hroles Hun].
    unfold filter_admits in Hadm. rewrite Hroles, Hun in Hadm. cbn [sr_roles sr_or_unrestricted sr_not_hidden] in Hadm.
    rewrite andb_false_r, orb_false_r in Hadm. apply andb_true_iff in Hadm as [Hadm _].
    apply existsb_elem_of in Hadm as (x & Hx & Hhas%has_true). by destruct (Hdis x).
  - cbn. apply IH. intros s q Hq. apply (Hlaw s q). by right.
Qed.

(** The chunk an indexed chunk is read back as. *)
Definition corpus_chunk (c : Chunk) : CorpusChunk :=
  mkCorpusChunk (connectionId c) (Some (Chunk.connectionLabel c)) (sourceUrl c) (sourceId c) (Some (title c)) (updatedAt c)
    (contentHash c) (version c) (text c) (aclPrincipals c) (aclPermissive c).

Lemma str_items_fmap l : str_items (JStr <$> l) = l.
Proof. unfold str_items. induction l as [|x l IH]; [done|]. cbn [fmap list_fmap omap list_omap]. by rewrite IH. Qed.

(** What the connection broker writes is what the orchestrator reads: the
    payload the writer stores for a chunk with a URL and a hash decodes to
    that chunk, every field of it, the access list included. *)
Theorem index_roundtrip (sha1 : list N -> list N) (JSON_stringify : json -> string) (JSON_parse : string -> option json)
    (cfg : CorpusWriterConfig) (collection : string) (c : Chunk) (vector : option (list number)) :
  JSON_parse (JSON_stringify (toDescriptor c)) = Some (toDescriptor c) ->
  sourceUrl c <> EmptyString -> contentHash c <> EmptyString ->
  decodeChunk JSON_parse (Some (point_payload (point_of sha1 JSON_stringify cfg collection c vector))) =
  Some (corpus_chunk c).
Proof.
  intros Hcodec Hurl Hhash. unfold decodeChunk, point_of. cbn [point_payload payload_descriptor]. rewrite Hcodec.
  destruct c as [conn label src url ti upd ver hash acl perm tx]. cbn [sourceUrl contentHash] in Hurl, Hhash.
  unfold toDescriptor. cbn [connectionId Chunk.connectionLabel sourceUrl sourceId title updatedAt contentHash version text
    aclPrincipals aclPermissive].
  set (fields := _ ++ _ : list (string * json)).
  assert (jget "sourceUrl" fields = Some (JStr url)) as -> by done.
  assert (jget "contentHash" fields = Some (JStr hash)) as -> by (unfold fields; by destruct upd).
  cbn [js_truthy]. rewrite !negb_involutive.
  destruct (str_empty url) eqn:E1; [by apply str_empty_true in E1|].
  destruct (str_empty hash) eqn:E2; [by apply str_empty_true in E2|]. cbn [orb]. f_equal.
  transitivity (mkCorpusChunk conn (Some label) url src (Some ti) upd hash ver tx
    ((fun l => str_items (JStr <$> l)) <$> acl) perm).
  - unfold fields. by destruct upd, ver, acl, perm.
  - unfold corpus_chunk. destruct acl as [l|]; [|done]. cbn [fmap option_fmap option_map]. by rewrite str_items_fmap.
Qed.

(** ** Concrete runs *)

(** A store that always answers [hits]. *)
Definition fixed_store {W : Type} (hits : list CorpusSearchResult) : CorpusStore W :=
  mkCorpusStore (fun _ _ _ w => (Ok hits, w)).

Definition failing_store {W : Type} : CorpusStore W := mkCorpusStore (fun _ _ _ w => (Err (ProbeOther "timeout"), w)).

(** The same passage, in a folder of Drive and in the wiki space it is linked
    into; the caller may open it in the wiki only. *)
Definition drive_copy : CorpusSearchResult := sample_hit "drive" "f1" "hash" "the launch date" (num_of_Z 1) None.
Definition wiki_copy : CorpusSearchResult := sample_hit "wiki" "p1" "hash" "the launch date" (num_of_Z 1) None.

(** Merging copies of one passage before asking who may read them loses it:
    a passage the caller may read through one source is dropped, with nothing
    said about it beyond a refusal, once a source they may not read it through
    holds the same text. The copy kept is the one with the smaller connection
    id, whatever the caller's access; the other is never probed. *)
Theorem dedupe_hides_readable :
  exists (prober : Prober nat) (stores : list (CorpusStore nat)) (store : CorpusStore nat) (out alone : RetrieveOutcome) (w1 w2 : nat),
    store ∈ stores /\
    retrieve [store] prober "launch" ["staff"] [] (num_of_Z 12) (num_of_Z 5) 0%nat = (Ok alone, w1) /\
    length (ro_chunks alone) = 1%nat /\
    retrieve stores prober "launch" ["staff"] [] (num_of_Z 12) (num_of_Z 5) 0%nat = (Ok out, w2) /\
    ro_chunks out = [] /\ ro_denied out = 1%nat /\ ro_undetermined out = [] /\ ro_skippedCorpora out = 0%nat.
Proof.
  exists (sample_prober sample_readable), [fixed_store [drive_copy]; fixed_store [wiki_copy]], (fixed_store [wiki_copy]).
  do 4 eexists. split_and!; [by right; left|by vm_compute|done|by vm_compute|done..].
Qed.

Lemma sample_scored : Forall scored_hit sample_hits.
Proof. by repeat constructor. Qed.

Lemma prune_spec_witness :
  exists full, prune sample_hits (num_of_Z 2) = slice0 (num_of_Z 2) full /\ NoDup (prune_key <$> full) /\
    prune (rev sample_hits) (num_of_Z 2) = prune sample_hits (num_of_Z 2).
Proof.
  destruct (prune_spec sample_hits (num_of_Z 2) sample_scored) as (full & Hfull & _ & Hnd & _ & _ & Hperm).
  exists full. split_and!; [done|done|]. apply Hperm; [|apply Permutation_rev].
  intros a b Ha Hb. set_unfold; destruct_or!; subst; (by left) || (right; left; by vm_compute) || (right; right; by vm_compute).
Defined.

Definition sample_chunks : list AuthorizedChunk :=
  omap (fun h => Some (authorized h (mkProbeResult true "t" "u" None))) sample_hits.

Definition ranked_okb (s : Scored) : bool :=
  match scored_combined s, ac_score (scored_chunk s) with
  | NaN, _ | _, NaN => false
  | _, _ => true
  end.

Lemma ranked_okb_all l : forallb ranked_okb l = true -> Forall ranked_ok l.
Proof.
  rewrite forallb_elem_of. intros H. apply Forall_forall. intros s Hs. specialize (H s Hs). unfold ranked_okb in H.
  unfold ranked_ok, not_NaN. split; intros E; rewrite E in H; [done|]. by destruct (scored_combined s).
Qed.

Lemma rerank_reorders_witness :
  Forall ranked_ok (score_all "gamma" sample_chunks) /\
  exists ranked, rerank "gamma" sample_chunks = scored_chunk <$> ranked.
Proof.
  assert (Forall ranked_ok (score_all "gamma" sample_chunks)) as Hok by (apply ranked_okb_all; by vm_compute).
  split; [done|]. destruct (proj2 (rerank_reorders "gamma" sample_chunks) Hok) as (ranked & H & _). by exists ranked.
Defined.

Definition read_path : SM nat ProbeError RetrieveOutcome :=
  retrieve [fixed_store sample_hits; failing_store] (sample_prober sample_readable) "gamma" ["staff"] [] (num_of_Z 1) (num_of_Z 5).

Definition read_path_out : RetrieveOutcome :=
  match (read_path 0%nat).1 with
  | Ok out => out
  | Err _ => mkRetrieveOutcome [] 0 [] 0 0
  end.

Lemma retrieve_sound_witness :
  read_path 0%nat = (Ok read_path_out, 2%nat) /\ ro_skippedCorpora read_path_out = 1%nat /\
  (length (ro_chunks read_path_out) <= 1)%nat.
Proof.
  assert (read_path 0%nat = (Ok read_path_out, 2%nat)) as Hrun by (by vm_compute).
  split_and!; [done|by vm_compute|]. unfold read_path in Hrun.
  refine (proj1 (retrieve_sound _ _ _ _ _ _ _ _ _ _ Hrun _) 1 _ _ _); [|done..].
  intros store q k w1 w2 hs [->|[->|[]%elem_of_nil]%elem_of_cons]%elem_of_cons; [|done]. intros [= <- _].
  exact sample_hits_plain.
Defined.

Lemma searchCorpus_degrades_witness :
  (searchCorpus [fixed_store sample_hits; failing_store] "gamma" ["staff"] (num_of_Z 2) 0%nat).1 =
  Ok (mkCorpusSearchOutcome (prune sample_hits (num_of_Z 2)) 1).
Proof.
  refine (searchCorpus_degrades [fixed_store sample_hits; failing_store] "gamma" ["staff"] (num_of_Z 2)
    [Ok sample_hits; Err (ProbeOther "timeout")] 0%nat _ _ _); [by vm_compute..|]. by repeat constructor.
Defined.

(** A store of one point, gated by the role "staff". *)
Definition sample_payload : Payload := mkPayload (Some (JStr "h1")) ["staff"] false false (Some (JStr "{}")).
Definition sample_search (c : string) (request : SearchRequest) : SM nat ProbeError SearchResponse := fun w =>
  (Ok (mkSearchResponse 200 (Some ((fun p => (num_of_Z 1, Some p)) <$> List.filter (filter_admits request) [sample_payload]))
         EmptyString), S w).

Lemma sample_search_filters : search_filters sample_search "docs" [sample_payload].
Proof.
  intros request w response w' [= <- _] score p Hp. revert Hp. cbn.
  destruct (filter_admits request sample_payload) eqn:E; [|by intros ?%elem_of_nil].
  intros [= -> ->]%list_elem_of_singleton. by split; [left|].
Qed.

Lemma qdrant_query_gated_witness :
  (qdrant_query (fun _ => sret []) sample_search (fun _ => None) "docs" "launch" ["guest"] (num_of_Z 5) 0%nat) =
  (Ok [], 1%nat).
Proof.
  destruct (qdrant_query_gated (fun _ => sret []) sample_search (fun _ => None) "docs" "launch" [sample_payload] ["staff"]
    ["guest"] (num_of_Z 5) 0%nat 1%nat [] sample_search_filters) as [_ _]; [| |by vm_compute|by vm_compute].
  - by intros p ->%list_elem_of_singleton.
  - by intros r ->%list_elem_of_singleton ?%list_elem_of_singleton.
Defined.

Definition sample_indexed : Chunk :=
  mkChunk "wiki" "Wiki" "p1" "https://wiki/p1" "Launch" None (Some "3") "hash" (Some ["user:1"]) None "the launch date".

Lemma index_roundtrip_witness :
  decodeChunk (fun _ => Some (toDescriptor sample_indexed))
    (Some (point_payload (point_of (fun _ => []) (fun _ => "{}") (mkCorpusWriterConfig ["staff"] 3) "docs" sample_indexed None))) =
  Some (corpus_chunk sample_indexed).
Proof. apply (index_roundtrip (fun _ => []) (fun _ => "{}") (fun _ => Some (toDescriptor sample_indexed))); done. Defined.
