(* ===== verification/KbCite.v ===== *)
(** * Agent orchestrator: citations (apps/agent-orchestrator/src/knowledge-base/cite.ts)

    The model writes [[n]]; code puts the source's own title and link there.
    A citation run is matched by a function that follows the source's regular
    expression; the expression never backtracks over a choice, since the
    characters that may follow each repetition are not those it repeats. *)

From stdpp Require Import base gmap strings list sorting.
From Stdlib Require Import ZArith Lia Ascii.
From S2P Require Import Prelude JsString JsNumber Json JsMap EventValues JsList.

#[local] Open Scope Z_scope.

(** ** Data *)

Record CitedSource := mkCitedSource {
  cs_n : Z;
  cs_title : string;
  cs_url : string
}.

Definition SOURCES_HEADER : string := "Sources:".
Definition CAVEATS_HEADER : string := "What this answer could not see:".

(** ** A source as a Markdown link *)

Definition sourceKey (source : CitedSource) : string :=
  if str_empty (cs_url source) then "title:" +:+ cs_title source else cs_url source.

(** [s.replace(/c/g, f)] for a class of single characters. *)
Definition str_expand (f : ascii -> string) (s : string) : string := str_concat (f <$> String.list_ascii_of_string s).

Definition escape_char (c : ascii) : string :=
  if Ascii.eqb c "\"%char || Ascii.eqb c "["%char || Ascii.eqb c "]"%char then String "\" (String c EmptyString)
  else String c EmptyString.

Definition url_char (c : ascii) : string :=
  if Ascii.eqb c " "%char then "%20" else if Ascii.eqb c "("%char then "%28" else if Ascii.eqb c ")"%char then "%29"
  else String c EmptyString.

Definition sourceLink (source : CitedSource) : string :=
  let title := str_expand escape_char (cs_title source) in
  if str_empty (cs_url source) then title
  else "[" +:+ title +:+ "](" +:+ str_expand url_char (cs_url source) +:+ ")".

(** ** The two blocks *)

(** The sources that are listed: the first of each key. *)
Definition first_of_key (acc : list string * list CitedSource) (source : CitedSource) : list string * list CitedSource :=
  let '(seen, listed) := acc in
  if has seen (sourceKey source) then acc else (set_add seen (sourceKey source), listed ++ [source]).

Definition listed_sources (sources : list CitedSource) : list CitedSource := (foldl first_of_key ([], []) sources).2.

Definition bullet (line : string) : string := "- " +:+ line.

Definition sourcesBlock (sources : list CitedSource) : string :=
  let lines := (fun source => bullet (sourceLink source)) <$> listed_sources sources in
  match lines with
  | [] => EmptyString
  | _ => SOURCES_HEADER +:+ nl_s +:+ join nl_s lines +:+ nl_s
  end.

Definition caveatsBlock (lines : list string) : string :=
  match set_of lines with
  | [] => EmptyString
  | unique => nl_s +:+ CAVEATS_HEADER +:+ nl_s +:+ join nl_s (bullet <$> unique) +:+ nl_s
  end.

(** ** Matching a citation run *)

Definition blank (c : ascii) : bool := char_in (String " " (String "009" EmptyString)) c.
Definition is_sep (c : ascii) : bool := Ascii.eqb c ","%char || Ascii.eqb c ";"%char.

(** [\d+]: what follows the digits, if there is one at least. *)
Definition match_digits (s : string) : option string :=
  match s with
  | String c _ => if is_digit c then Some (drop_while is_digit s) else None
  | EmptyString => None
  end.

(** One turn of [(?:\s*[,;]\s*\d+)*]. *)
Definition match_more (s : string) : option string :=
  match drop_while is_ws s with
  | String c s' => if is_sep c then match_digits (drop_while is_ws s') else None
  | EmptyString => None
  end.

Fixpoint match_list (fuel : nat) (s : string) : string :=
  match fuel with
  | O => s
  | S fuel' => match match_more s with
               | Some s' => match_list fuel' s'
               | None => s
               end
  end.

(** One marker: [\[\d+(?:\s*[,;]\s*\d+)*\]]. *)
Definition match_marker (s : string) : option string :=
  match s with
  | String c s1 =>
      if Ascii.eqb c "["%char then
        match match_digits s1 with
        | Some s2 =>
            match match_list (slen s2) s2 with
            | String d s3 => if Ascii.eqb d "]"%char then Some s3 else None
            | EmptyString => None
            end
        | None => None
        end
      else None
  | EmptyString => None
  end.

(** One turn of [(?:[ \t]*,?[ \t]*\[..\])*]. *)
Definition match_next (s : string) : option string :=
  let s1 := drop_while blank s in
  let s2 := match s1 with
            | String c s' => if Ascii.eqb c ","%char then s' else s1
            | EmptyString => s1
            end in
  match_marker (drop_while blank s2).

Fixpoint match_rest (fuel : nat) (s : string) : string :=
  match fuel with
  | O => s
  | S fuel' => match match_next s with
               | Some s' => match_rest fuel' s'
               | None => s
               end
  end.

(** The whole run at the head of [s]: the text after it. *)
Definition match_run (s : string) : option string :=
  match match_marker s with
  | Some s1 => Some (match_rest (slen s1) s1)
  | None => None
  end.

(** [text.matchAll(CITATION_RUN)]: the text cut into what lies between the
    matches and the matches. *)
Inductive piece :=
| Lit (s : string)
| Run (s : string).

Definition piece_text (p : piece) : string :=
  match p with
  | Lit s | Run s => s
  end.

Definition cons_lit (c : ascii) (ps : list piece) : list piece :=
  match ps with
  | Lit s :: ps' => Lit (String c s) :: ps'
  | _ => Lit (String c EmptyString) :: ps
  end.

Fixpoint scan (fuel : nat) (s : string) : list piece :=
  match fuel, s with
  | S fuel', String c s' =>
      match match_run s with
      | Some after => Run (str_take (slen s - slen after) s) :: scan fuel' after
      | None => cons_lit c (scan fuel' s')
      end
  | _, _ => []
  end.

(** ** Replacing the markers *)

(** [match[0].match(/\d+/g)] *)
Fixpoint digit_runs (fuel : nat) (s : string) : list string :=
  match fuel, s with
  | S fuel', String c s' =>
      if is_digit c then take_while is_digit s :: digit_runs fuel' (drop_while is_digit s) else digit_runs fuel' s'
  | _, _ => []
  end.

(** [byN.get(Number(digits))]: of two sources with one number, the later. *)
Definition source_named (sources : list CitedSource) (digits : string) : option CitedSource :=
  List.find (fun s => num_eqb (num_of_decimal digits EmptyString) (num_of_Z (cs_n s))) (rev sources).

Record LinkState := mkLinkState {
  ls_out : string;
  ls_prefix : string;
  ls_used : list string
}.

(** The loop over the numbers of one run. *)
Definition cite_step (sources : list CitedSource) (acc : list string * list CitedSource) (digits : string) :
    list string * list CitedSource :=
  let '(inRun, cited) := acc in
  match source_named sources digits with
  | None => acc
  | Some source =>
      if has inRun (sourceKey source) then acc else (set_add inRun (sourceKey source), cited ++ [source])
  end.

Definition cited_in (sources : list CitedSource) (run : string) : list CitedSource :=
  (foldl (cite_step sources) ([], []) (digit_runs (slen run) run)).2.

Definition needsSpaceBefore (before : option ascii) : bool :=
  match before with
  | None => false
  | Some c => negb (char_in (" " +:+ String "009" (String nl (String "013" "([{")) +:+ String dquote "'") c)
  end.

Definition first_char (s : string) : option ascii :=
  match s with
  | String c _ => Some c
  | EmptyString => None
  end.

Fixpoint last_char (s : string) : option ascii :=
  match s with
  | EmptyString => None
  | String c s' => match last_char s' with
                   | Some d => Some d
                   | None => Some c
                   end
  end.

(** The body of the loop for one match: [before] and [after] are the
    characters around it. *)
Definition link_run (sources : list CitedSource) (st : LinkState) (before : option ascii) (run : string) (after : option ascii) :
    LinkState :=
  if bool_decide (after = Some "("%char) || bool_decide (before = Some "]"%char)
  then mkLinkState (ls_out st) (ls_prefix st +:+ run) (ls_used st)
  else
    let cited := cited_in sources run in
    let prefix :=
      match cited with
      | [] => drop_while_end blank (ls_prefix st)
      | _ => if needsSpaceBefore before then ls_prefix st +:+ " " else ls_prefix st
      end in
    mkLinkState (ls_out st +:+ prefix +:+ join ", " (sourceLink <$> cited)) EmptyString
      (foldl set_add (ls_used st) (sourceKey <$> cited)).

Fixpoint link_pieces (sources : list CitedSource) (st : LinkState) (before : option ascii) (ps : list piece) : LinkState :=
  match ps with
  | [] => st
  | p :: ps' =>
      let st' :=
        match p with
        | Lit s => mkLinkState (ls_out st) (ls_prefix st +:+ s) (ls_used st)
        | Run s => link_run sources st before s (first_char (str_concat (piece_text <$> ps')))
        end in
      link_pieces sources st' (if str_empty (piece_text p) then before else last_char (piece_text p)) ps'
  end.

Definition linkCitations (text : string) (sources : list CitedSource) : string * nat :=
  let st := link_pieces sources (mkLinkState EmptyString EmptyString []) None (scan (slen text) text) in
  (ls_out st +:+ ls_prefix st, length (ls_used st)).

Definition strip_newlines (s : string) : string := drop_while_end (Ascii.eqb nl) s.

Definition finalizeCitations (response : string) (sources : list CitedSource) (caveats : list string) : string :=
  let '(text, used) := linkCitations response sources in
  let text :=
    if (used =? 0)%nat && (0 <? length sources)%nat
    then strip_newlines text +:+ nl_s +:+ nl_s +:+ sourcesBlock sources else text in
  let block := caveatsBlock caveats in
  if negb (str_empty block) && negb (str_includes (trim block) text) then strip_newlines text +:+ nl_s +:+ block else text.

(** ** Lemmas: the scan *)

Lemma drop_while_length p s : (slen (drop_while p s) <= slen s)%nat.
Proof. induction s as [|c s IH]; cbn; [done|]. destruct (p c); cbn; lia. Qed.

Lemma match_marker_head s after : match_marker s = Some after -> exists s', s = String "[" s'.
Proof.
  unfold match_marker. destruct s as [|c s]; [done|]. destruct (Ascii.eqb_spec c "["%char) as [->|]; [by eexists|done].
Qed.

Lemma match_run_head c s : Ascii.eqb c "["%char = false -> match_run (String c s) = None.
Proof. unfold match_run, match_marker. by intros ->. Qed.

(** Text without an opening bracket is cut as one piece. *)
Definition no_open (c : ascii) : bool := negb (Ascii.eqb c "["%char).

Definition prepend_lit (s : string) (ps : list piece) : list piece :=
  match s, ps with
  | EmptyString, _ => ps
  | _, Lit t :: ps' => Lit (s +:+ t) :: ps'
  | _, _ => Lit s :: ps
  end.

Lemma scan_text fuel t s :
  str_forall no_open t = true -> (slen t + slen s <= fuel)%nat ->
  scan fuel (t +:+ s) = prepend_lit t (scan (fuel - slen t) s).
Proof.
  revert fuel. induction t as [|c t IH]; intros fuel; [by rewrite Nat.sub_0_r|].
  cbn [str_forall String.append String.length]. intros [Hc Ht]%andb_true_iff Hf.
  destruct fuel as [|fuel]; [lia|]. cbn [scan]. apply negb_true_iff in Hc. rewrite match_run_head by done.
  rewrite IH by (done || lia). cbn [Nat.sub]. destruct t as [|c' t]; cbn [prepend_lit].
  - destruct (scan (fuel - slen EmptyString) s) as [|[]]; done.
  - destruct (scan (fuel - slen (String c' t)) s) as [|[]]; done.
Qed.

(** ** Markers as the model writes them *)

Definition marker (digits : string) : string := "[" +:+ digits +:+ "]".
Definition is_number (digits : string) : bool := all_digits digits && negb (str_empty digits).

Lemma drop_digits_app d s :
  all_digits d = true -> match s with String c _ => is_digit c = false | EmptyString => True end ->
  drop_while is_digit (d +:+ s) = s.
Proof.
  intros Hd Hs. unfold all_digits in Hd. induction d as [|c d IH].
  - destruct s as [|c s]; [done|]. cbn [String.append drop_while]. by rewrite Hs.
  - cbn [str_forall] in Hd. apply andb_true_iff in Hd as [Hc Hd]. cbn [String.append drop_while]. rewrite Hc. by apply IH.
Qed.

Lemma match_digits_app d s :
  is_number d = true -> match s with String c _ => is_digit c = false | EmptyString => True end ->
  match_digits (d +:+ s) = Some s.
Proof.
  intros [Hd Hne]%andb_true_iff Hs. destruct d as [|c d]; [done|].
  pose proof (drop_digits_app (String c d) s Hd Hs) as Hdrop. cbn [String.append match_digits] in *.
  unfold all_digits in Hd. cbn [str_forall] in Hd. apply andb_true_iff in Hd as [Hc _]. rewrite Hc. by f_equal.
Qed.

Lemma match_marker_app d s : is_number d = true -> match_marker (marker d +:+ s) = Some s.
Proof.
  intros Hd. unfold marker. cbn [String.append match_marker].
  change (Ascii.eqb "[" "[") with true. cbv iota. rewrite app_assoc_s. cbn [String.append].
  rewrite match_digits_app by done. by cbn.
Qed.

Definition markers (ds : list string) : string := str_concat (marker <$> ds).

(** A text a run cannot reach across: it opens no link and holds a character
    that is neither blank nor a comma, or it is the end. *)
Definition run_breaker (c : ascii) : bool := negb (blank c) && negb (Ascii.eqb c ","%char) && no_open c.

Lemma drop_while_app_stop p t s : str_forall p t = false -> drop_while p (t +:+ s) = drop_while p t +:+ s.
Proof. induction t as [|c t IH]; cbn; [done|]. destruct (p c); cbn; [exact IH|done]. Qed.

Lemma str_forall_false_drop p t : str_forall p t = false -> exists c t', drop_while p t = String c t' /\ p c = false.
Proof. induction t as [|c t IH]; cbn; [done|]. destruct (p c) eqn:E; cbn; [exact IH|by eauto]. Qed.

Definition gap_char (c : ascii) : bool := blank c || Ascii.eqb c ","%char.

Lemma match_next_blocked t s :
  str_forall no_open t = true -> str_forall gap_char t = false -> match_next (t +:+ s) = None.
Proof.
  intros Hopen Hgap.
  assert (forall u, str_forall no_open u = true -> str_forall blank u = false -> match_marker (drop_while blank (u +:+ s)) = None)
    as Hblank.
  { intros u Hu Hub. rewrite drop_while_app_stop by done. destruct (str_forall_false_drop _ _ Hub) as (c & u' & E & _).
    pose proof (str_forall_drop_while no_open blank u Hu) as Hu'. rewrite E in Hu' |- *. cbn in Hu' |- *.
    apply andb_true_iff in Hu' as [Hc _]. apply negb_true_iff in Hc. by rewrite Hc. }
  unfold match_next. destruct (str_forall blank t) eqn:Eb.
  { exfalso. assert (str_forall gap_char t = true); [|congruence]. eapply str_forall_impl; [|exact Eb].
    intros c Hc. unfold gap_char. by rewrite Hc. }
  rewrite drop_while_app_stop by done. destruct (str_forall_false_drop _ _ Eb) as (c & t' & E & Hc). rewrite E. cbn [String.append].
  destruct (Ascii.eqb c ",") eqn:Ecomma.
  - apply Hblank.
    + pose proof (str_forall_drop_while no_open blank t Hopen) as H. rewrite E in H. cbn in H. by apply andb_true_iff in H as [_ ?].
    + destruct (str_forall blank t') eqn:Eb'; [|done]. exfalso.
      assert (forall u, drop_while blank u = String c t' -> str_forall gap_char u = true) as Hall; [|rewrite Hall in Hgap; done].
      clear -Eb' Ecomma Hc. intros u. induction u as [|d u IH]; [done|]. cbn [drop_while str_forall]. unfold gap_char at 1.
      destruct (blank d); [exact IH|]. intros [= -> ->]. rewrite Ecomma. cbn [orb andb]. eapply str_forall_impl; [|exact Eb']. intros x Hx. unfold gap_char. by rewrite Hx.
  - change (String c (t' +:+ s)) with (String c t' +:+ s). rewrite <- E. apply Hblank.
    + by apply str_forall_drop_while.
    + rewrite E. cbn [str_forall]. by rewrite Hc.
Qed.

(** [after] begins no further marker of the run: the end, or a gap text. *)
Definition stops_run (after : string) : Prop := match_next after = None.

Lemma match_rest_markers ds after fuel :
  Forall (fun d => is_number d = true) ds -> stops_run after -> (length ds <= fuel)%nat ->
  match_rest fuel (markers ds +:+ after) = after.
Proof.
  intros Hds Hstop. revert fuel. induction Hds as [|d ds Hd Hds IH]; intros fuel Hf.
  - destruct fuel; cbn [markers fmap list_fmap str_concat match_rest String.append]; [done|]. by rewrite Hstop.
  - destruct fuel as [|fuel]; cbn in Hf; [lia|]. cbn [match_rest].
    assert (match_next (markers (d :: ds) +:+ after) = Some (markers ds +:+ after)) as ->.
    { unfold markers. cbn [fmap list_fmap str_concat]. rewrite app_assoc_s. unfold match_next, marker at 1.
      cbn [String.append drop_while blank char_in]. change (Ascii.eqb "[" ",") with false. cbv iota.
      change (drop_while blank (String "[" ?x)) with (String "[" x). 
      apply (match_marker_app d). done. }
    apply IH. lia.
Qed.

Lemma match_next_no_open t : str_forall no_open t = true -> match_next t = None.
Proof.
  intros Ht. unfold match_next.
  assert (forall u, str_forall no_open u = true -> match_marker (drop_while blank u) = None) as Hm.
  { intros u Hu. pose proof (str_forall_drop_while no_open blank u Hu) as H. destruct (drop_while blank u) as [|c u']; [done|].
    cbn in H |- *. apply andb_true_iff in H as [H _]. apply negb_true_iff in H. by rewrite H. }
  pose proof (str_forall_drop_while no_open blank t Ht) as H. destruct (drop_while blank t) as [|c u]; [done|].
  destruct (Ascii.eqb c ","); apply Hm; [|done]. cbn in H. by apply andb_true_iff in H as [_ ?].
Qed.

Lemma markers_length ds : (length ds <= slen (markers ds))%nat.
Proof.
  unfold markers. induction ds as [|d ds IH]; [done|]. cbn [fmap list_fmap str_concat length].
  change (marker d) with ("[" +:+ d +:+ "]"). rewrite !slen_app. change (slen "[") with 1%nat. lia.
Qed.

Lemma match_run_markers d ds after :
  Forall (fun d => is_number d = true) (d :: ds) -> stops_run after -> match_run (markers (d :: ds) +:+ after) = Some after.
Proof.
  intros Hall Hstop. apply Forall_cons in Hall as [Hd Hds]. unfold match_run, markers at 1.
  cbn [fmap list_fmap str_concat]. rewrite app_assoc_s. fold (markers ds). rewrite match_marker_app by done.
  f_equal. apply match_rest_markers; [done..|]. rewrite slen_app. pose proof (markers_length ds). lia.
Qed.

(** ** An answer as the model writes it *)

(** Prose, and the citations it is cut by: [(text, numbers)] in turn, and the
    prose after the last one. *)
Definition prose_char (c : ascii) : bool := no_open c && negb (Ascii.eqb c "]"%char).
Definition prose (t : string) : bool := str_forall prose_char t.

(** Prose that follows a citation: it keeps the next one apart, and does not
    read as the target of a link. *)
Definition after_citation (t : string) : bool :=
  prose t && negb (str_forall gap_char t) && negb (bool_decide (first_char t = Some "("%char)).

Definition citation (ds : list string) : bool := forallb is_number ds && negb (length ds =? 0)%nat.

Fixpoint doc_text (doc : list (string * list string)) (tail : string) : string :=
  match doc with
  | [] => tail
  | (t, ds) :: doc' => t +:+ markers ds +:+ doc_text doc' tail
  end.

Fixpoint doc_ok (doc : list (string * list string)) (tail : string) : bool :=
  match doc with
  | [] => prose tail && negb (bool_decide (first_char tail = Some "("%char))
  | (t, ds) :: doc' => after_citation t && citation ds && doc_ok doc' tail
  end.

Lemma prose_no_open t : prose t = true -> str_forall no_open t = true.
Proof. apply str_forall_impl. by intros c [? _]%andb_true_iff. Qed.

Lemma doc_stops doc tail : doc_ok doc tail = true -> stops_run (doc_text doc tail).
Proof.
  destruct doc as [|[t ds] doc]; cbn [doc_ok doc_text].
  - intros [Ht _]%andb_true_iff. by apply match_next_no_open, prose_no_open.
  - unfold after_citation. rewrite !andb_true_iff. intros [[[[Ht Hg] _] _] _]. apply negb_true_iff in Hg.
    by apply match_next_blocked; [apply prose_no_open|].
Qed.

Definition lit (t : string) : list piece :=
  match t with
  | EmptyString => []
  | _ => [Lit t]
  end.

Fixpoint doc_pieces (doc : list (string * list string)) (tail : string) : list piece :=
  match doc with
  | [] => lit tail
  | (t, ds) :: doc' => lit t ++ Run (markers ds) :: doc_pieces doc' tail
  end.

Lemma scan_citation fuel t d ds after :
  prose t = true -> Forall (fun d => is_number d = true) (d :: ds) -> stops_run after ->
  (slen (t +:+ markers (d :: ds) +:+ after) <= fuel)%nat ->
  exists fuel', (slen after <= fuel')%nat /\
    scan fuel (t +:+ markers (d :: ds) +:+ after) = lit t ++ Run (markers (d :: ds)) :: scan fuel' after.
Proof.
  intros Ht Hds Hstop Hf. rewrite !slen_app in Hf.
  rewrite scan_text; [|by apply prose_no_open|rewrite slen_app; lia].
  assert (0 < slen (markers (d :: ds)))%nat as Hpos by (pose proof (markers_length (d :: ds)) as H; cbn [length] in H; lia).
  destruct (fuel - slen t)%nat as [|fuel1] eqn:Ef; [lia|].
  pose proof (match_run_markers d ds after Hds Hstop) as Hrun.
  exists fuel1. split; [lia|].
  assert (scan (S fuel1) (markers (d :: ds) +:+ after) = Run (markers (d :: ds)) :: scan fuel1 after) as ->;
    [|by destruct t].
  revert Hrun. set (s := markers (d :: ds) +:+ after) in *.
  assert (str_take (slen s - slen after) s = markers (d :: ds)) as Htake by apply str_take_app_exact.
  destruct s as [|c s'] eqn:Es; [apply (f_equal slen) in Es; unfold s in Es; rewrite slen_app in Es; cbn [String.length] in Es; lia|].
  intros Hrun. cbn [scan]. rewrite Hrun. by rewrite Htake.
Qed.

Lemma scan_tail fuel tail : prose tail = true -> (slen tail <= fuel)%nat -> scan fuel tail = lit tail.
Proof.
  intros Ht Hf. pose proof (scan_text fuel tail EmptyString (prose_no_open _ Ht)) as H. rewrite app_empty_r in H.
  rewrite H by (cbn; lia). destruct (fuel - slen tail)%nat; by destruct tail.
Qed.

Lemma scan_doc doc tail fuel :
  doc_ok doc tail = true -> (slen (doc_text doc tail) <= fuel)%nat -> scan fuel (doc_text doc tail) = doc_pieces doc tail.
Proof.
  revert fuel. induction doc as [|[t ds] doc IH]; intros fuel; cbn [doc_ok doc_text doc_pieces].
  - intros [Ht _]%andb_true_iff Hf. by apply scan_tail.
  - unfold after_citation, citation. rewrite !andb_true_iff. intros [[[[Ht _] _] [Hds Hne]] Hdoc] Hf.
    destruct ds as [|d ds]; [done|]. rewrite forallb_elem_of, <- Forall_forall in Hds.
    destruct (scan_citation fuel t d ds (doc_text doc tail) Ht Hds (doc_stops _ _ Hdoc) Hf) as (fuel' & Hf' & ->).
    by rewrite IH.
Qed.

(** ** Lemmas: the replacement *)

Definition cites (sources : list CitedSource) (ds : list string) : list CitedSource := (foldl (cite_step sources) ([], []) ds).2.

(** What replaces a citation, with the prose it follows. *)
Definition placed (sources : list CitedSource) (t : string) (ds : list string) : string :=
  match cites sources ds with
  | [] => drop_while_end blank t
  | cs => t +:+ (if needsSpaceBefore (last_char t) then " " else EmptyString) +:+ join ", " (sourceLink <$> cs)
  end.

Fixpoint linked_doc (sources : list CitedSource) (doc : list (string * list string)) (tail : string) : string :=
  match doc with
  | [] => tail
  | (t, ds) :: doc' => placed sources t ds +:+ linked_doc sources doc' tail
  end.

Definition doc_cites (sources : list CitedSource) (doc : list (string * list string)) : list CitedSource :=
  doc ≫= fun item => cites sources item.2.

Lemma take_digits_app d c s : all_digits d = true -> is_digit c = false -> take_while is_digit (d +:+ String c s) = d.
Proof.
  unfold all_digits. intros Hd Hc. induction d as [|x d IH]; cbn [String.append take_while]; [by rewrite Hc|].
  cbn [str_forall] in Hd. apply andb_true_iff in Hd as [Hx Hd]. rewrite Hx. by rewrite IH.
Qed.

Lemma digit_runs_markers ds fuel :
  Forall (fun d => is_number d = true) ds -> (slen (markers ds) <= fuel)%nat -> digit_runs fuel (markers ds) = ds.
Proof.
  intros Hds. revert fuel. induction Hds as [|d ds Hd Hds IH]; intros fuel Hf; [by destruct fuel|].
  apply andb_true_iff in Hd as [Hd Hne].
  assert (markers (d :: ds) = String "[" (d +:+ String "]" (markers ds))) as Heq.
  { unfold markers. cbn [fmap list_fmap str_concat]. unfold marker at 1. cbn [String.append]. by rewrite app_assoc_s. }
  rewrite Heq in Hf |- * || (rewrite Heq in Hf; rewrite Heq). cbn [String.length] in Hf. rewrite slen_app in Hf. cbn [String.length] in Hf.
  destruct d as [|c d]; [done|]. cbn [String.length] in Hf.
  destruct fuel as [|[|[|fuel]]]; [lia..|]. cbn [digit_runs].
  change (is_digit "[") with false. cbv iota.
  assert (is_digit c = true) as Hc by (unfold all_digits in Hd; cbn [str_forall] in Hd; by apply andb_true_iff in Hd as [? _]).
  cbn [String.append]. rewrite Hc. change (String c (d +:+ String "]" (markers ds))) with (String c d +:+ String "]" (markers ds)).
  rewrite take_digits_app by done. rewrite drop_digits_app by done. change (is_digit "]") with false. cbv iota.
  f_equal. apply IH. lia.
Qed.

Lemma last_char_app s t : t <> EmptyString -> last_char (s +:+ t) = last_char t.
Proof.
  intros Ht. induction s as [|c s IH]; [done|]. cbn [String.append last_char]. rewrite IH.
  destruct (last_char t) eqn:E; [done|]. destruct t as [|d t]; [done|]. cbn in E. by destruct (last_char t).
Qed.

Lemma last_char_markers ds : ds <> [] -> last_char (markers ds) = Some "]"%char.
Proof.
  intros Hne. induction ds as [|d ds _] using rev_ind; [done|]. unfold markers. rewrite fmap_app, str_concat_app.
  cbn [fmap list_fmap str_concat]. rewrite app_empty_r. unfold marker at 2.
  change ("[" +:+ d +:+ "]") with (("[" +:+ d) +:+ "]"). by rewrite <- app_assoc_s, last_char_app.
Qed.

Lemma last_char_prose t : prose t = true -> last_char t <> Some "]"%char.
Proof.
  unfold prose. induction t as [|c t IH]; [done|]. cbn [str_forall last_char]. intros [Hc Ht]%andb_true_iff.
  specialize (IH Ht). destruct (last_char t); [done|]. intros [= ->]. by apply andb_true_iff in Hc as [_ ?].
Qed.

Lemma doc_pieces_text doc tail : str_concat (piece_text <$> doc_pieces doc tail) = doc_text doc tail.
Proof.
  assert (forall t ps, str_concat (piece_text <$> (lit t ++ ps)) = t +:+ str_concat (piece_text <$> ps)) as Hlit.
  { intros [|c t] ps; [done|]. cbn. done. }
  induction doc as [|[t ds] doc IH]; cbn [doc_pieces doc_text].
  - rewrite <- (app_nil_r (lit tail)), Hlit. cbn. apply app_empty_r.
  - rewrite Hlit. cbn [fmap list_fmap str_concat piece_text]. by rewrite <- IH.
Qed.

Lemma doc_first doc tail : doc_ok doc tail = true -> first_char (doc_text doc tail) <> Some "("%char.
Proof.
  destruct doc as [|[t ds] doc]; cbn [doc_ok doc_text]; unfold after_citation; rewrite ?andb_true_iff.
  - intros [_ H]. apply negb_true_iff, bool_decide_eq_false in H. done.
  - intros [[[[_ Hg] Hf] _] _]. apply negb_true_iff, bool_decide_eq_false in Hf. by destruct t as [|c t].
Qed.

(** One citation and the prose before it. *)
Lemma link_citation sources out used before t ds rest :
  prose t = true -> Forall (fun d => is_number d = true) ds -> ds <> [] ->
  (t = EmptyString -> before = None) ->
  first_char (str_concat (piece_text <$> rest)) <> Some "("%char ->
  link_pieces sources (mkLinkState out EmptyString used) before (lit t ++ Run (markers ds) :: rest) =
  link_pieces sources (mkLinkState (out +:+ placed sources t ds) EmptyString (foldl set_add used (sourceKey <$> cites sources ds)))
    (Some "]"%char) rest.
Proof.
  intros Ht Hds Hne Hbefore Hafter.
  assert (link_run sources (mkLinkState out t used) (last_char t) (markers ds) (first_char (str_concat (piece_text <$> rest))) =
    mkLinkState (out +:+ placed sources t ds) EmptyString (foldl set_add used (sourceKey <$> cites sources ds))) as Hrun.
  { unfold link_run. rewrite bool_decide_false by done. rewrite (bool_decide_false (last_char t = _)) by by apply last_char_prose.
    cbn [orb ls_prefix ls_out ls_used]. unfold cited_in. rewrite digit_runs_markers by done.
    change ((foldl (cite_step sources) ([], []) ds).2) with (cites sources ds). unfold placed.
    destruct (cites sources ds) as [|c cs]; [by rewrite app_empty_r|]. f_equal.
    by destruct (needsSpaceBefore (last_char t)); rewrite ?app_assoc_s. }
  assert (str_empty (markers ds) = false) as He.
  { destruct (markers ds) eqn:E; [|done]. pose proof (last_char_markers ds Hne) as H. by rewrite E in H. }
  destruct t as [|c t].
  - rewrite (Hbefore eq_refl). cbn [lit app link_pieces piece_text last_char] in *. rewrite Hrun, He.
    by rewrite last_char_markers.
  - cbn [lit app link_pieces piece_text str_empty ls_out ls_prefix ls_used] in *.
    change (EmptyString +:+ String c t) with (String c t). rewrite Hrun, He. by rewrite last_char_markers.
Qed.

Lemma link_doc sources doc tail out used before :
  doc_ok doc tail = true ->
  let st := link_pieces sources (mkLinkState out EmptyString used) before (doc_pieces doc tail) in
  ls_out st +:+ ls_prefix st = out +:+ linked_doc sources doc tail /\
  ls_used st = foldl set_add used (sourceKey <$> doc_cites sources doc).
Proof.
  revert out used before. induction doc as [|[t ds] doc IH]; intros out used before; cbn [doc_ok doc_pieces linked_doc].
  - intros _. by destruct tail as [|c tail].
  - intros [[Ht Hds]%andb_true_iff Hdoc]%andb_true_iff. unfold after_citation, citation in Ht, Hds.
    apply andb_true_iff in Ht as [[Ht Hg]%andb_true_iff _]. apply andb_true_iff in Hds as [Hds Hne].
    rewrite forallb_elem_of, <- Forall_forall in Hds.
    rewrite link_citation; [|done|done|by destruct ds|by intros ->|by rewrite doc_pieces_text; apply doc_first].
    destruct (IH (out +:+ placed sources t ds) (foldl set_add used (sourceKey <$> cites sources ds)) (Some "]"%char) Hdoc)
      as [H1 H2]. split; [by rewrite H1, app_assoc_s|]. rewrite H2. unfold doc_cites. rewrite bind_cons, fmap_app.
    by rewrite foldl_app.
Qed.

(** ** Lemmas: reading a link, and containment *)

(** A Markdown reader: the text up to the first bracket that is not escaped,
    the destination up to the first closing parenthesis or space. *)
Fixpoint read_title (s : string) : option (string * string) :=
  match s with
  | EmptyString => None
  | String c s' =>
      if Ascii.eqb c "]"%char then Some (EmptyString, s')
      else if Ascii.eqb c "\"%char then
        match s' with
        | String d s'' => match read_title s'' with
                          | Some (t, rest) => Some (String d t, rest)
                          | None => None
                          end
        | EmptyString => None
        end
      else match read_title s' with
           | Some (t, rest) => Some (String c t, rest)
           | None => None
           end
  end.

Definition read_link (s : string) : option (string * string * string) :=
  match s with
  | String c s1 =>
      if Ascii.eqb c "["%char then
        match read_title s1 with
        | Some (title, String d s2) =>
            if Ascii.eqb d "("%char then
              let ends := fun c => Ascii.eqb c ")"%char || Ascii.eqb c " "%char in
              match drop_while (fun c => negb (ends c)) s2 with
              | String e rest => if Ascii.eqb e ")"%char then Some (title, take_while (fun c => negb (ends c)) s2, rest) else None
              | EmptyString => None
              end
            else None
        | _ => None
        end
      else None
  | EmptyString => None
  end.

Lemma read_title_escaped t s : read_title (str_expand escape_char t +:+ String "]" s) = Some (t, s).
Proof.
  unfold str_expand. induction t as [|c t IH]; [done|]. cbn [String.list_ascii_of_string fmap list_fmap str_concat].
  rewrite app_assoc_s. unfold escape_char at 1.
  destruct (Ascii.eqb_spec c "\"%char) as [->|H1]; [cbn [orb String.append read_title]; cbn; by rewrite IH|].
  destruct (Ascii.eqb_spec c "["%char) as [->|H2]; [cbn [orb String.append read_title]; cbn; by rewrite IH|].
  destruct (Ascii.eqb_spec c "]"%char) as [->|H3]; [cbn [orb String.append read_title]; cbn; by rewrite IH|].
  cbn [orb String.append read_title]. destruct (Ascii.eqb_spec c "]"%char); [done|]. destruct (Ascii.eqb_spec c "\"%char); [done|].
  by rewrite IH.
Qed.

Definition url_safe (c : ascii) : bool := negb (Ascii.eqb c ")"%char || Ascii.eqb c " "%char).

Lemma url_expanded u : str_forall url_safe (str_expand url_char u) = true.
Proof.
  unfold str_expand. induction u as [|c u IH]; [done|]. cbn [String.list_ascii_of_string fmap list_fmap str_concat].
  rewrite str_forall_app, IH, andb_true_r. destruct c as [[] [] [] [] [] [] [] []]; vm_compute; done.
Qed.

Lemma take_while_stop p s c t : str_forall p s = true -> p c = false -> take_while p (s +:+ String c t) = s.
Proof.
  intros Hs Hc. induction s as [|d s IH]; cbn [String.append take_while]; [by rewrite Hc|].
  cbn [str_forall] in Hs. apply andb_true_iff in Hs as [Hd Hs]. rewrite Hd. by rewrite IH.
Qed.

Lemma drop_while_all p s c t : str_forall p s = true -> p c = false -> drop_while p (s +:+ String c t) = String c t.
Proof.
  intros Hs Hc. induction s as [|d s IH]; cbn [String.append drop_while]; [by rewrite Hc|].
  cbn [str_forall] in Hs. apply andb_true_iff in Hs as [Hd Hs]. rewrite Hd. by apply IH.
Qed.

Lemma str_includes_app a p b : str_includes p (a +:+ p +:+ b) = true.
Proof.
  induction a as [|c a IH].
  - change (EmptyString +:+ p +:+ b) with (p +:+ b).
    assert (String.prefix p (p +:+ b) = true) as Hp.
    { induction p as [|c p IHp]; [by destruct b|]. cbn. by destruct (ascii_dec c c). }
    destruct (p +:+ b); cbn [str_includes]; by rewrite Hp.
  - cbn [String.append str_includes]. rewrite IH. apply orb_true_r.
Qed.

Lemma str_includes_spec p s : str_includes p s = true -> exists a b, s = a +:+ p +:+ b.
Proof.
  induction s as [|c s IH]; cbn [str_includes]; intros [H|H]%orb_true_iff; try done.
  - destruct p; [|done]. by exists EmptyString, EmptyString.
  - assert (exists b, String c s = p +:+ b) as [b Hb]; [|by exists EmptyString, b].
    revert H. generalize (String c s). clear. induction p as [|d p IH]; intros s; [by exists s|]. destruct s as [|e s]; [done|].
    cbn. destruct (ascii_dec d e) as [->|]; [|done]. intros [b ->]%IH. by exists b.
  - destruct (IH H) as (a & b & ->). by exists (String c a), b.
Qed.

Lemma str_includes_trans p q s : str_includes p q = true -> str_includes q s = true -> str_includes p s = true.
Proof.
  intros (a & b & ->)%str_includes_spec (c & d & ->)%str_includes_spec.
  assert (c +:+ (a +:+ p +:+ b) +:+ d = (c +:+ a) +:+ p +:+ (b +:+ d)) as -> by by rewrite !app_assoc_s.
  apply str_includes_app.
Qed.

Lemma drop_while_suffix p s : exists a, s = a +:+ drop_while p s.
Proof.
  induction s as [|c s [a IH]]; [by exists EmptyString|]. cbn. destruct (p c); [|by exists EmptyString].
  exists (String c a). cbn. by rewrite <- IH.
Qed.

Lemma drop_while_end_prefix p s : exists b, s = drop_while_end p s +:+ b /\ str_forall p b = true.
Proof.
  induction s as [|c s (b & IH & Hb)]; [by exists EmptyString|]. cbn [drop_while_end].
  destruct (drop_while_end p s) as [|d t] eqn:E.
  - destruct (p c) eqn:Hc.
    + exists (String c s). split; [done|]. cbn. rewrite Hc. cbn. rewrite IH. by cbn.
    + exists b. split; [|done]. cbn. by rewrite IH at 1.
  - exists b. split; [|done]. cbn in IH |- *. by rewrite IH at 1.
Qed.

Lemma trim_included s : str_includes (trim s) s = true.
Proof.
  destruct (drop_while_suffix is_ws s) as [a Ha]. destruct (drop_while_end_prefix is_ws (drop_while is_ws s)) as (b & Hb & _).
  fold (trim s) in Hb. rewrite Hb in Ha. rewrite Ha at 2. apply str_includes_app.
Qed.

Lemma last_char_None x : last_char x = None -> x = EmptyString.
Proof. destruct x as [|c x]; cbn; [done|]. by destruct (last_char x). Qed.

Lemma drop_while_end_kept p x b c : last_char x = Some c -> p c = false -> drop_while_end p (x +:+ b) = x +:+ drop_while_end p b.
Proof.
  intros Hx Hc. induction x as [|d x IH]; [done|]. cbn [String.append drop_while_end last_char] in *.
  destruct (last_char x) as [e|] eqn:Ex.
  - injection Hx as ->. rewrite IH by done. by destruct x.
  - injection Hx as ->. apply last_char_None in Ex as ->.
    cbn [String.append]. destruct (drop_while_end p b); [by rewrite Hc|done].
Qed.

(** A part that does not end in a newline survives the removal of the newlines
    at the end. *)
Lemma strip_keeps p s : last_char p <> Some nl -> str_includes p s = true -> str_includes p (strip_newlines s) = true.
Proof.
  intros Hp (a & b & ->)%str_includes_spec. destruct (last_char p) as [c|] eqn:Ec.
  - assert (Ascii.eqb nl c = false) as Hc by (destruct (Ascii.eqb_spec nl c); congruence).
    unfold strip_newlines. rewrite <- app_assoc_s.
    assert (last_char (a +:+ p) = Some c) as Hlast by (rewrite last_char_app; [done|by intros ->]).
    rewrite (drop_while_end_kept _ _ _ _ Hlast Hc), app_assoc_s. apply str_includes_app.
  - apply last_char_None in Ec as ->. by destruct (strip_newlines _).
Qed.

Lemma str_includes_l p s t : str_includes p s = true -> str_includes p (s +:+ t) = true.
Proof. intros (a & b & ->)%str_includes_spec. rewrite !app_assoc_s. apply str_includes_app. Qed.

Lemma str_includes_r p s t : str_includes p t = true -> str_includes p (s +:+ t) = true.
Proof. intros (a & b & ->)%str_includes_spec. rewrite <- app_assoc_s. apply str_includes_app. Qed.

Lemma join_includes sep l x : x ∈ l -> str_includes x (join sep l) = true.
Proof.
  intros Hx. induction l as [|y l IH]; [by apply elem_of_nil in Hx|].
  destruct l as [|z l].
  - apply list_elem_of_singleton in Hx as ->. cbn [join]. pose proof (str_includes_app EmptyString y EmptyString) as H.
    by rewrite app_empty_r in H.
  - rewrite join_cons by done. apply elem_of_cons in Hx as [->|Hx]; [apply (str_includes_app EmptyString)|].
    apply str_includes_r, str_includes_r. by apply IH.
Qed.

Lemma cited_sources sources run s : s ∈ cited_in sources run -> s ∈ sources.
Proof.
  unfold cited_in. generalize (digit_runs (slen run) run). intros ds.
  assert (forall acc, (forall x, x ∈ acc.2 -> x ∈ sources) -> forall x, x ∈ (foldl (cite_step sources) acc ds).2 -> x ∈ sources)
    as Hfold; [|apply (Hfold ([], [])); by intros x ?%elem_of_nil].
  induction ds as [|d ds IH]; intros acc Hacc x; [by apply Hacc|]. cbn [foldl]. apply IH.
  destruct acc as [inRun cited]. cbn [cite_step]. destruct (source_named sources d) as [src|] eqn:E; [|done].
  destruct (has inRun (sourceKey src)); [done|]. cbn [snd] in *. intros y [Hy| ->%list_elem_of_singleton]%elem_of_app; [by apply Hacc|].
  apply List.find_some in E as [E _]. by apply in_rev, list_elem_of_In in E.
Qed.

(** Once something is counted as cited, a source's link is in the text. *)
Lemma link_pieces_cites sources ps st before :
  (ls_used st = [] \/ exists s, s ∈ sources /\ str_includes (sourceLink s) (ls_out st) = true) ->
  let st' := link_pieces sources st before ps in
  ls_used st' = [] \/ exists s, s ∈ sources /\ str_includes (sourceLink s) (ls_out st') = true.
Proof.
  revert st before. induction ps as [|p ps IH]; intros st before Hst; [done|]. cbn [link_pieces]. apply IH.
  destruct p as [s|s]; [done|]. unfold link_run. destruct (_ || _); [done|]. cbn [ls_used ls_out].
  destruct (cited_in sources s) as [|c cs] eqn:E.
  - destruct Hst as [Hst|(x & Hx & Hin)]; [by left|]. right. exists x. split; [done|]. by apply str_includes_l.
  - right. exists c. split; [apply (cited_sources sources s); rewrite E; by left|].
    apply str_includes_r, str_includes_r, join_includes. by left.
Qed.

Lemma listed_spec sources :
  (forall s, s ∈ sources -> exists s', s' ∈ listed_sources sources /\ sourceKey s' = sourceKey s) /\
  (forall s, s ∈ listed_sources sources -> s ∈ sources).
Proof.
  unfold listed_sources.
  assert (forall acc, (forall k, k ∈ acc.1 -> exists s, s ∈ acc.2 /\ sourceKey s = k) ->
    let acc' := foldl first_of_key acc sources in
    (forall k, k ∈ acc'.1 -> exists s, s ∈ acc'.2 /\ sourceKey s = k) /\
    (forall s, s ∈ sources -> sourceKey s ∈ acc'.1) /\ (forall k, k ∈ acc.1 -> k ∈ acc'.1) /\
    (forall s, s ∈ acc'.2 -> s ∈ acc.2 \/ s ∈ sources)) as Hfold.
  { induction sources as [|x sources IH]; intros [seen listed] Hacc; cbn [foldl].
    { split_and!; [done|by intros s ?%elem_of_nil|done|by left]. }
    assert (first_of_key (seen, listed) x = (seen, listed) /\ sourceKey x ∈ seen \/
      first_of_key (seen, listed) x = (set_add seen (sourceKey x), listed ++ [x])) as [[Heq Hin]|Heq].
    { cbn. destruct (has seen (sourceKey x)) eqn:Eh; [left; split; [done|by apply has_true]|by right]. }
    - rewrite Heq. destruct (IH (seen, listed) Hacc) as (H1 & H2 & H3 & H4). split_and!; [done| |done|].
      + intros s [->|Hs]%elem_of_cons; [by apply H3|by apply H2].
      + intros s Hs. destruct (H4 s Hs); [by left|by right; right].
    - rewrite Heq. destruct (IH (set_add seen (sourceKey x), listed ++ [x])) as (H1 & H2 & H3 & H4).
      { cbn [fst snd]. intros k [Hk| ->]%set_add_elem; [|exists x; set_solver].
        destruct (Hacc k Hk) as (s & Hs & <-). exists s. cbn in Hs. set_solver. }
      cbn [fst snd] in *. split_and!; [done| | |].
      + intros s [->|Hs]%elem_of_cons; [apply H3, set_add_elem; by right|by apply H2].
      + intros k Hk. apply H3, set_add_elem. by left.
      + intros s Hs. destruct (H4 s Hs) as [[?| ->%list_elem_of_singleton]%elem_of_app|?]; [by left|by right; left|by right; right]. }
  destruct (Hfold ([], [])) as (H1 & H2 & _ & H4); [by intros k ?%elem_of_nil|]. split.
  - intros s Hs. by apply H1, H2.
  - intros s Hs. by destruct (H4 s Hs) as [?%elem_of_nil|?].
Qed.

Lemma sourcesBlock_lists sources s : s ∈ listed_sources sources -> str_includes (bullet (sourceLink s)) (sourcesBlock sources) = true.
Proof.
  intros Hs. unfold sourcesBlock.
  assert (bullet (sourceLink s) ∈ (fun source => bullet (sourceLink source)) <$> listed_sources sources) as Hin
    by (by apply (list_elem_of_fmap_2 (fun source => bullet (sourceLink source)))).
  destruct ((fun source => bullet (sourceLink source)) <$> listed_sources sources) as [|l ls]; [by apply elem_of_nil in Hin|].
  apply str_includes_r, str_includes_r, str_includes_l. by apply join_includes.
Qed.

(** ** Properties *)

(** A source's title or URL cannot break out of its link: whatever they
    hold, a Markdown reader finds the link, with the title as it is, the
    destination with its spaces and parentheses escaped, and then the rest of
    the text. *)
Theorem sourceLink_roundtrip (source : CitedSource) (rest : string) :
  cs_url source <> EmptyString ->
  read_link (sourceLink source +:+ rest) = Some (cs_title source, str_expand url_char (cs_url source), rest).
Proof.
  intros Hurl. unfold sourceLink. destruct (str_empty (cs_url source)) eqn:E; [by apply str_empty_true in E|].
  cbn [String.append read_link]. change (Ascii.eqb "[" "[") with true. cbv iota. rewrite !app_assoc_s. cbn [String.append].
  rewrite read_title_escaped. change (Ascii.eqb "(" "(") with true. cbv iota.
  rewrite !app_assoc_s. change (")" +:+ rest) with (String ")" rest).
  rewrite (drop_while_all _ _ ")"%char rest) by (apply url_expanded || done).
  rewrite (take_while_stop _ _ ")"%char rest) by (apply url_expanded || done). done.
Qed.

Lemma sourceLink_roundtrip_witness :
  read_link (sourceLink (mkCitedSource 1 "Retro [Q3]" "https://w/x (1)") +:+ " and more") =
  Some ("Retro [Q3]", "https://w/x%20%281%29", " and more").
Proof. by apply sourceLink_roundtrip. Defined.

(** The replacement is a single pass. In prose cut by citations, each
    citation becomes the links of the sources it names, once each, in the order
    named; one that names none disappears with the blanks before it; and the
    prose is otherwise untouched, whatever the titles and URLs put in hold. The
    count is that of the distinct sources linked. *)
Theorem linkCitations_single_pass (sources : list CitedSource) (t tail : string) (ds : list string)
    (doc : list (string * list string)) :
  prose t = true -> citation ds = true -> doc_ok doc tail = true ->
  linkCitations (doc_text ((t, ds) :: doc) tail) sources =
    (linked_doc sources ((t, ds) :: doc) tail, length (set_of (sourceKey <$> doc_cites sources ((t, ds) :: doc)))).
Proof.
  intros Ht [Hds Hne]%andb_true_iff Hdoc. rewrite forallb_elem_of, <- Forall_forall in Hds. unfold linkCitations.
  destruct ds as [|d ds]; [done|]. cbn [doc_text linked_doc].
  destruct (scan_citation _ t d ds (doc_text doc tail) Ht Hds (doc_stops _ _ Hdoc) (le_n _)) as (fuel & Hf & ->).
  rewrite scan_doc by done. rewrite link_citation; [|done..|by rewrite doc_pieces_text; apply doc_first].
  destruct (link_doc sources doc tail (EmptyString +:+ placed sources t (d :: ds)) (foldl set_add []
    (sourceKey <$> cites sources (d :: ds))) (Some "]"%char) Hdoc) as [H1 H2].
  f_equal; [exact H1|]. rewrite H2. unfold doc_cites. rewrite bind_cons, fmap_app. unfold set_of. by rewrite foldl_app.
Qed.

Definition sample_sources : list CitedSource :=
  [mkCitedSource 1 "Retro [2]" "https://w/r"; mkCitedSource 2 "Plan" "https://w/p"].

Lemma linkCitations_single_pass_witness :
  linkCitations "Two projects[1][2] are active [7], per [2]." sample_sources =
  ("Two projects [Retro \[2\]](https://w/r), [Plan](https://w/p) are active, per [Plan](https://w/p).", 2%nat).
Proof.
  exact (linkCitations_single_pass sample_sources "Two projects" "." ["1"; "2"] [(" are active ", ["7"]); (", per ", ["2"])]
    eq_refl eq_refl eq_refl).
Defined.

(** An answer never ships uncited or silent. Whatever the model wrote, if
    there are sources the final text holds a source's link, and all of them,
    one per page, when the model cited none; and what the search could not see
    is in the text whenever there is anything to say. (The hypothesis: a link
    does not end in a newline, as one with a URL never does.) *)
Theorem finalizeCitations_discloses (response : string) (sources : list CitedSource) (caveats : list string) :
  (forall s, s ∈ sources -> last_char (sourceLink s) <> Some nl) ->
  let final := finalizeCitations response sources caveats in
  (sources <> [] -> exists s, s ∈ sources /\ str_includes (sourceLink s) final = true) /\
  ((linkCitations response sources).2 = 0%nat -> forall s, s ∈ sources ->
     exists s', s' ∈ sources /\ sourceKey s' = sourceKey s /\ str_includes (bullet (sourceLink s')) final = true) /\
  (caveats <> [] -> str_includes (trim (caveatsBlock caveats)) final = true).
Proof.
  intros Hnl. unfold finalizeCitations.
  pose proof (link_pieces_cites sources (scan (slen response) response) (mkLinkState EmptyString EmptyString []) None
    (or_introl eq_refl)) as Hcites. cbv zeta in Hcites. unfold linkCitations in *. cbn [snd].
  set (st := link_pieces _ _ _ _) in *. set (text1 := ls_out st +:+ ls_prefix st).
  set (text2 := if (length (ls_used st) =? 0)%nat && (0 <? length sources)%nat
    then strip_newlines text1 +:+ nl_s +:+ nl_s +:+ sourcesBlock sources else text1).
  set (final := if negb (str_empty (caveatsBlock caveats)) && negb (str_includes (trim (caveatsBlock caveats)) text2)
    then strip_newlines text2 +:+ nl_s +:+ caveatsBlock caveats else text2).
  assert (forall p, last_char p <> Some nl -> str_includes p text2 = true -> str_includes p final = true) as Hkeep.
  { intros p Hp Hin. unfold final.
    destruct (negb (str_empty (caveatsBlock caveats)) && negb (str_includes (trim (caveatsBlock caveats)) text2)); [|exact Hin].
    by apply str_includes_l, strip_keeps. }
  assert (length (ls_used st) = 0%nat -> forall s, s ∈ sources ->
    exists s', s' ∈ sources /\ sourceKey s' = sourceKey s /\ str_includes (bullet (sourceLink s')) final = true) as Hall.
  { intros Hused s Hs. destruct (listed_spec sources) as [Hcover Hsub]. destruct (Hcover s Hs) as (s' & Hs' & Hkey).
    exists s'. split_and!; [by apply Hsub|done|]. apply Hkeep.
    - unfold bullet. destruct (decide (sourceLink s' = EmptyString)) as [->|Hne]; [done|].
      rewrite last_char_app by done. by apply Hnl, Hsub.
    - unfold text2. rewrite Hused. assert (0 <? length sources = true)%nat as -> by (destruct sources; [by apply elem_of_nil in Hs|done]).
      cbn [Nat.eqb andb]. apply str_includes_r, str_includes_r, str_includes_r. by apply sourcesBlock_lists. }
  split_and!; [|exact Hall|].
  - intros Hne. destruct Hcites as [Hused|(s & Hs & Hin)].
    + destruct sources as [|s ss]; [done|]. destruct (Hall ltac:(by rewrite Hused) s) as (s' & Hs' & _ & Hin); [by left|].
      exists s'. split; [done|]. eapply str_includes_trans; [|exact Hin]. unfold bullet.
      pose proof (str_includes_app "- " (sourceLink s') EmptyString) as H. by rewrite app_empty_r in H.
    + exists s. split; [done|]. apply Hkeep; [by apply Hnl|]. unfold text2. destruct (_ && _); [|by apply str_includes_l].
      apply str_includes_l, strip_keeps; [by apply Hnl|]. by apply str_includes_l.
  - intros Hne. unfold final. destruct (str_includes (trim (caveatsBlock caveats)) text2) eqn:E.
    + by rewrite andb_false_r.
    + assert (str_empty (caveatsBlock caveats) = false) as ->.
      { destruct caveats as [|c cs]; [done|]. unfold caveatsBlock.
        assert (c ∈ set_of (c :: cs)) as Hc by (apply set_of_elem; by left).
        by destruct (set_of (c :: cs)); [apply elem_of_nil in Hc|]. }
      cbn [negb andb]. apply str_includes_r, str_includes_r, trim_included.
Qed.

Lemma finalizeCitations_discloses_witness :
  (forall s, s ∈ sample_sources -> last_char (sourceLink s) <> Some nl) /\
  str_includes (trim (caveatsBlock ["part was missed"]))
    (finalizeCitations "No marker here." sample_sources ["part was missed"]) = true.
Proof.
  assert (forall s, s ∈ sample_sources -> last_char (sourceLink s) <> Some nl) as H.
  { by intros s [->|[->|[]%elem_of_nil]%elem_of_cons]%elem_of_cons. }
  split; [exact H|]. by apply (finalizeCitations_discloses "No marker here." sample_sources ["part was missed"] H).
Defined.
