(* ===== verification/KbBroker.v ===== *)
(** * Agent orchestrator: asking the connection broker

    [BrokerProber] (knowledge-base/retrieve.ts) over any transport, and over
    the broker's own [handle]: the two ends of the HTTP hop between the
    orchestrator's retrieval and a provider's driver. *)

From stdpp Require Import base gmap strings list sorting.
From Stdlib Require Import ZArith Lia Ascii.
From S2P Require Import Prelude JsString JsNumber Json JsMap EventValues JsList Chunk Driver Registry Query.
From S2P Require Import Auth Broker BrokerSafety HttpSource Fetch Writer KnowledgeBase KbProbe KbSearch.

#[local] Open Scope Z_scope.

(** ** The prober (retrieve.ts) *)

Record BrokerProberOptions := mkBrokerProberOptions {
  bp_baseUrl : string;
  bp_token : string;
  bp_delegatedToken : option string;
  bp_delegatedTokens : option (jsmap string);
  bp_granularities : option (jsmap Granularity)
}.

(** [JSON.stringify({ sourceId })]: an undefined id is left out. *)
Definition probe_body (sourceId : option string) : json := JObj (opt_field "sourceId" JStr sourceId).

Definition corpus_url (base name rest : string) : string :=
  strip_slashes base +:+ "/corpora/" +:+ encodeURIComponent name +:+ rest.

(** [as ProbeResult]: the fields the gate reads; of [null] the first read would
    throw. *)
Definition as_probe_result (j : json) : result ProbeError ProbeResult :=
  match j with
  | JNull => Err (ProbeOther "TypeError")
  | JObj fields => Ok (mkProbeResult (js_truthy (jget "allowed" fields)) (str_field "title" fields ?? EmptyString)
                         (str_field "url" fields ?? EmptyString) (str_field "version" fields))
  | _ => Ok (mkProbeResult false EmptyString EmptyString None)
  end.

Section Prober.
Context {W : Type}.
(** [fetch], and the decimal rendering of a status. *)
Variable http : FetchRequest -> SM W string FetchResponse.
Variable status_text : Z -> string.
Variable options : BrokerProberOptions.

Definition broker_granularity (connectionId : string) : Granularity :=
  match bp_granularities options with
  | Some m => map_get connectionId m ?? g_resource
  | None => g_resource
  end.

(** The token for this connection's provider, or the single one. *)
Definition token_for (connectionId : string) : option string :=
  match bp_delegatedTokens options with
  | Some m => map_get connectionId m ??? bp_delegatedToken options
  | None => bp_delegatedToken options
  end.

Definition probe_request (request : ProbeRequest) (delegated : string) : FetchRequest :=
  mkFetchRequest (corpus_url (bp_baseUrl options) (pr_connectionId request) "/probe") "POST"
    [("content-type", "application/json"); ("authorization", bearer (bp_token options)); ("x-delegated-token", delegated)]
    (Some (probe_body (pr_sourceId request))).

(** What a response to a probe means. *)
Definition read_probe (response : FetchResponse) : result ProbeError ProbeResult :=
  if fetch_ok response then
    match fp_json response with
    | Ok j => as_probe_result j
    | Err e => Err (ProbeOther e)
    end
  else if fp_status response =? 403 then Err (ProbeDenied ("broker returned " +:+ status_text (fp_status response)))
  else Err (ProbeTransient ("broker returned " +:+ status_text (fp_status response))).

Definition broker_probe (request : ProbeRequest) : SM W ProbeError ProbeResult := fun w =>
  if negb (truthy_str (token_for (pr_connectionId request)))
  then (Err (ProbeDenied "no delegated credential for this caller"), w)
  else
    match http (probe_request request (token_for (pr_connectionId request) ?? EmptyString)) w with
    | (Err cause, w') => (Err (ProbeTransient ("connection-broker unreachable: " +:+ cause)), w')
    | (Ok response, w') => (read_probe response, w')
    end.

Definition BrokerProber : Prober W := mkProber broker_granularity broker_probe.
End Prober.

(** ** The hop *)

(** A transport that delivers a request to the broker: node lower-cases the
    header names, the body travels as the bytes of its JSON text, and the
    answer is rendered as JSON. *)
Definition deliver_fetch {W : Type} (handler : IncomingMessage -> SM W DriverError Response) (encode : json -> string)
    (render : Body -> json) (text_of : Body -> string) (base : string) (request : FetchRequest) : SM W string FetchResponse :=
  fun w =>
  if String.prefix base (fq_url request) then
    match handler (mkIncomingMessage (Some (str_drop (slen base) (fq_url request))) (Some (fq_method request))
                     ((fun h => (toLowerCase h.1, OneValue h.2)) <$> fq_headers request)
                     (match fq_body request with Some j => [encode j] | None => [] end)) w with
    | (Ok r, w') => (Ok (mkFetchResponse (status r) (Ok (render (body r))) (Ok (text_of (body r)))), w')
    | (Err _, w') => (Err "socket hang up", w')
    end
  else (Err "no such host", w).

(** What a driver's failure becomes for the prober: a denial stays one, and
    nothing else becomes one. *)
Definition denial (e : DriverError) : bool :=
  match e with
  | PermissionDeniedError _ => true
  | _ => false
  end.

Definition probe_json (r : ProbeResult) : json :=
  JObj ([("allowed", JBool (probe_allowed r)); ("title", JStr (probe_title r)); ("url", JStr (probe_url r))] ++
        opt_field "version" JStr (probe_version r)).

Lemma as_probe_json r : as_probe_result (probe_json r) = Ok r.
Proof. destruct r as [[] t u [v|]]; reflexivity. Qed.

Section UserHop.
Context {W : Type}.
Variable parse_url : string -> result string ParsedUrl.
Variable decodeURIComponent : string -> result string string.
Variable JSON_parse : string -> option json.
Variable to_number : string -> number.
Variable utf8_toString : string -> string.
Variable o : ServerOptions W.
Variable b : CorpusBinding (Driver W).
Variable name token userToken : string.

#[local] Abbreviation serve := (handle parse_url decodeURIComponent JSON_parse to_number utf8_toString o).

(** What a user's request finds: the orchestrator's token, the caller's own
    credential, and a bound corpus. *)
Definition user_ready : Prop :=
  name <> EmptyString /\ decodeURIComponent (encodeURIComponent name) = Ok name /\ userToken <> EmptyString /\
  authenticate (opt_auth o) (Some (bearer token)) = Ok Orchestrator /\ reg_get (opt_registry o) name = Some b.

(** The credentials of a user's read: the caller's, and never the corpus's. *)
Definition as_user : Credentials := mkCredentials None (Some userToken).

Lemma serve_user msg path url route :
  user_ready -> req_url msg = Some path -> parse_url path = Ok url -> pathname url <> "/healthz" ->
  parseRoute decodeURIComponent (pathname url) = Ok (Some route) -> route_name route = name ->
  route_kind route ∈ [k_probe; k_documents; k_search; k_query] ->
  (route_kind route = k_query -> req_method msg = Some "POST") ->
  header msg "authorization" = Some (bearer token) -> header msg DELEGATED_TOKEN_HEADER = Some userToken ->
  forall w, serve msg w =
    scatch (scatch (dispatch JSON_parse to_number utf8_toString o b as_user route url msg) classify)
      (fun _ => sret (mkResponse 500 (BError "internal error"))) w.
Proof.
  intros (_ & _ & Hd & Ha & Hb) Hpath Hu Hh Hr Hn Hk Hpost Hauth Hdel w. unfold handle. unfold scatch at 1 2. 
  assert (handle_throwing parse_url decodeURIComponent JSON_parse to_number utf8_toString o msg w =
    scatch (dispatch JSON_parse to_number utf8_toString o b as_user route url msg) classify w) as ->; [|done].
  unfold handle_throwing. rewrite Hpath. cbn [nullish]. rewrite Hu.
  rewrite (bool_decide_false (pathname url = "/healthz")) by done. rewrite Hr.
  assert (bool_decide (route_kind route = k_query) && negb (bool_decide (req_method msg = Some "POST")) = false) as ->.
  { repeat case_bool_decide; try done. destruct H0. by apply Hpost. }
  assert (route_kind route <> k_webhook) as Hw by (intros E; rewrite E in Hk; set_solver).
  rewrite decide_False by done. unfold handle_data, grant. rewrite Hauth, Ha. cbn [result_bind]. rewrite Hdel, Hn.
  assert (operation_of route <> op_list) as Hop.
  { unfold operation_of. case_decide as E; [done|].
    assert (is_user_read (route_kind route) = true) as ->; [|done]. destruct (route_kind route); set_solver. }
  cbn [Auth.authorize]. rewrite decide_False by done. assert (truthy_str (Some userToken) = true) as ->.
  { cbn. destruct (str_empty userToken) eqn:E; [by apply str_empty_true in E|done]. }
  cbn [negb]. rewrite Hb. 
  rewrite andb_false_r. unfold credentials_for. by rewrite Hdel.
Qed.
End UserHop.

(** ** The probe through the broker *)

Lemma path_parts_leaf name leaf :
  name <> EmptyString -> str_forall no_slash leaf = true -> str_empty leaf = false ->
  path_parts ("/corpora/" +:+ encodeURIComponent name +:+ "/" +:+ leaf) = ["corpora"; encodeURIComponent name; leaf].
Proof.
  intros Hn Hl He. change ("/corpora/" +:+ encodeURIComponent name +:+ "/" +:+ leaf)
    with ("/" +:+ "corpora" +:+ "/" +:+ (encodeURIComponent name +:+ "/" +:+ leaf)).
  rewrite path_parts_cons by done. rewrite path_parts_cons by auto using encode_no_slash, encode_nonempty.
  by rewrite path_parts_last.
Qed.

(** What the two ends' JSON does to a request body: it arrives whole. *)
Definition carries (encode : json -> string) (JSON_parse : string -> option json) (utf8_toString : string -> string)
    (j : json) : Prop :=
  (slen (encode j) <= MAX_BODY)%nat /\ utf8_toString (encode j) <> EmptyString /\
  JSON_parse (utf8_toString (encode j)) = Some j.

Lemma read_one_chunk limit message chunk :
  (slen chunk <= limit)%nat -> read_chunks limit message 0 EmptyString [chunk] = Ok chunk.
Proof. intros H. cbn [read_chunks]. rewrite (proj2 (Nat.ltb_ge _ _)) by (cbn; lia). done. Qed.

Lemma probe_id_body sourceId encode JSON_parse utf8_toString :
  carries encode JSON_parse utf8_toString (probe_body sourceId) ->
  probe_id (json_object JSON_parse (utf8_toString (encode (probe_body sourceId)))) = sourceId.
Proof.
  intros (_ & Hne & Hp). unfold json_object. rewrite Hp.
  destruct (str_empty _) eqn:E; [by apply str_empty_true in E|]. by destruct sourceId.
Qed.

(** What one driver call behind a user's route becomes at the orchestrator. *)
Definition after_hop {A B : Type} (read : A -> result ProbeError B) (r : result DriverError A) : result ProbeError B -> Prop :=
  fun out =>
  match r with
  | Ok x => out = read x
  | Err e => exists m, out = Err (if denial e then ProbeDenied m else ProbeTransient m)
  end.

Section ProbeHop.
Context {W : Type}.
Variable parse_url : string -> result string ParsedUrl.
Variable decodeURIComponent : string -> result string string.
Variable JSON_parse : string -> option json.
Variable to_number : string -> number.
Variable utf8_toString : string -> string.
Variable encode : json -> string.
Variable render : Body -> json.
Variable text_of : Body -> string.
Variable status_text : Z -> string.
Variable o : ServerOptions W.
Variable options : BrokerProberOptions.

#[local] Abbreviation base := (strip_slashes (bp_baseUrl options)).
#[local] Abbreviation serve := (handle parse_url decodeURIComponent JSON_parse to_number utf8_toString o).
#[local] Abbreviation transport := (deliver_fetch serve encode render text_of base).

Definition probe_path (name : string) : string := "/corpora/" +:+ encodeURIComponent name +:+ "/probe".

(** What a probe of [request] with [userToken] needs of the two ends. *)
Record probe_ready (b : CorpusBinding (Driver W)) (request : ProbeRequest) (userToken : string) : Prop := mkProbeReady {
  pready_user : user_ready decodeURIComponent o b (pr_connectionId request) (bp_token options) userToken;
  pready_url : parse_url (probe_path (pr_connectionId request)) = Ok (mkParsedUrl (probe_path (pr_connectionId request)) []);
  pready_body : carries encode JSON_parse utf8_toString (probe_body (pr_sourceId request));
  pready_render : forall r, render (BProbe r) = probe_json r
}.

Definition probe_message (request : ProbeRequest) (userToken : string) : IncomingMessage :=
  mkIncomingMessage (Some (probe_path (pr_connectionId request))) (Some "POST")
    [("content-type", OneValue "application/json"); ("authorization", OneValue (bearer (bp_token options)));
     ("x-delegated-token", OneValue userToken)] [encode (probe_body (pr_sourceId request))].

Lemma probe_hop b request userToken w :
  token_for options (pr_connectionId request) = Some userToken -> probe_ready b request userToken ->
  let '(answer, w') := probe (binding_driver b) (binding_scope b) (as_user userToken) (pr_sourceId request) w in
  exists out, broker_probe transport status_text options request w = (out, w') /\ after_hop Ok answer out.
Proof.
  intros Ht [Hu Hurl Hbody Hrender]. pose proof Hu as (Hn & Hdec & Hne & _).
  assert (forall w, serve (probe_message request userToken) w =
    scatch (scatch (do! r <- probe (binding_driver b) (binding_scope b) (as_user userToken) (pr_sourceId request) ;;
                    sret (mkResponse 200 (BProbe r))) classify)
      (fun _ => sret (mkResponse 500 (BError "internal error"))) w) as Hserve.
  { clear w. intros w. erewrite (serve_user _ _ _ _ _ o b _ _ userToken _ _ _ (mkRoute (pr_connectionId request) k_probe None) Hu);
      [|reflexivity|exact Hurl|done| |done|set_solver|done|done|done].
    - unfold dispatch, do_probe. cbn [route_kind]. change (req_chunks (probe_message request userToken)) with [encode (probe_body (pr_sourceId request))].
      unfold scatch, sbind at 1, slift.
      rewrite read_one_chunk by apply Hbody. by rewrite (probe_id_body _ _ _ _ Hbody).
    - cbn [pathname]. unfold parseRoute, probe_path.
      rewrite (path_parts_leaf _ "probe") by done. by rewrite Hdec. }
  destruct (probe _ _ _ _ w) as [answer w'] eqn:Hp. unfold broker_probe. rewrite Ht.
  assert (truthy_str (Some userToken) = true) as ->.
  { cbn. destruct (str_empty userToken) eqn:E; [by apply str_empty_true in E|done]. }
  cbn [negb nullish]. unfold deliver_fetch, probe_request, corpus_url. cbn [fq_url fq_method fq_headers fq_body].
  rewrite prefix_app, str_drop_app.
  change (mkIncomingMessage _ _ _ [encode (probe_body (pr_sourceId request))]) with (probe_message request userToken).
  rewrite Hserve.
  unfold scatch, sbind. rewrite Hp. destruct answer as [r|e].
  - cbn. rewrite Hrender. eexists. split; [reflexivity|]. cbn. by rewrite <- (as_probe_json r).
  - destruct e; cbn; eexists; (split; [reflexivity|]); by eexists.
Qed.
End ProbeHop.

(** ** Properties *)

(** Over the broker's own request handler, the orchestrator's prober is the
    provider's driver asked as the calling user: the driver's probe runs once,
    with the corpus's scope, with the token the orchestrator holds for that
    connection's provider and without the corpus's service credential; its
    answer arrives as it is, a [PermissionDeniedError] arrives as a denial, and
    every other failure arrives as "could not find out", never as a denial;
    without a token nothing is asked and the caller is denied. *)
Theorem probe_refines {W : Type}
    (parse_url : string -> result string ParsedUrl) (decodeURIComponent : string -> result string string)
    (JSON_parse : string -> option json) (to_number : string -> number) (utf8_toString : string -> string)
    (encode : json -> string) (render : Body -> json) (text_of : Body -> string) (status_text : Z -> string)
    (o : ServerOptions W) (options : BrokerProberOptions) (request : ProbeRequest) (w : W) :
  let serve := handle parse_url decodeURIComponent JSON_parse to_number utf8_toString o in
  let run := broker_probe (deliver_fetch serve encode render text_of (strip_slashes (bp_baseUrl options)))
               status_text options request w in
  (token_for options (pr_connectionId request) = None -> exists m, run = (Err (ProbeDenied m), w)) /\
  (forall b userToken,
    token_for options (pr_connectionId request) = Some userToken ->
    probe_ready parse_url decodeURIComponent JSON_parse utf8_toString encode render o options b request userToken ->
    let '(answer, w') := probe (binding_driver b) (binding_scope b) (mkCredentials None (Some userToken))
                           (pr_sourceId request) w in
    match answer with
    | Ok r => run = (Ok r, w')
    | Err (PermissionDeniedError _) => exists m, run = (Err (ProbeDenied m), w')
    | Err _ => exists m, run = (Err (ProbeTransient m), w')
    end).
Proof.
  intros serve run. split.
  - intros Ht. exists "no delegated credential for this caller". subst run. unfold broker_probe. by rewrite Ht.
  - intros b userToken Ht Hready.
    pose proof (probe_hop parse_url decodeURIComponent JSON_parse to_number utf8_toString encode render text_of status_text
      o options b request userToken w Ht Hready) as H. unfold as_user in H.
    destruct (probe _ _ _ _ w) as [answer w']. destruct H as (out & Hrun & Hout).
    subst run serve. rewrite Hrun. destruct answer as [r|e]; cbn in Hout; [by subst|].
    destruct e; destruct Hout as (m & ->); by exists m.
Qed.

(** C10: end to end, every chunk the gate lets through was allowed by the
    provider's own driver: during this search the driver bound to that chunk's
    corpus answered "allowed", asked for that chunk's resource with the
    credential of the calling user for that provider and nothing else, in a
    world that this search's own probes led to and from which they led to its
    end; what the model is told of the source (title, url, version) is that
    answer. *)
Theorem authorized_by_driver {W : Type}
    (parse_url : string -> result string ParsedUrl) (decodeURIComponent : string -> result string string)
    (JSON_parse : string -> option json) (to_number : string -> number) (utf8_toString : string -> string)
    (encode : json -> string) (render : Body -> json) (text_of : Body -> string) (status_text : Z -> string)
    (o : ServerOptions W) (options : BrokerProberOptions) (binding_of : string -> CorpusBinding (Driver W))
    (hits : list CorpusSearchResult) (w w' : W) (out : AuthorizeOutcome) :
  let serve := handle parse_url decodeURIComponent JSON_parse to_number utf8_toString o in
  let prober := BrokerProber (deliver_fetch serve encode render text_of (strip_slashes (bp_baseUrl options)))
                  status_text options in
  Forall plain_hit hits ->
  (forall hit userToken, hit ∈ hits -> token_for options (ck_connectionId (hit_chunk hit)) = Some userToken ->
     probe_ready parse_url decodeURIComponent JSON_parse utf8_toString encode render o options
       (binding_of (ck_connectionId (hit_chunk hit))) (request_for prober (hit_chunk hit)) userToken) ->
  authorize prober hits w = (Ok out, w') ->
  let asks := runs (prober_probe prober <$> map_values (requests_of prober hits)) in
  forall a, a ∈ ao_chunks out ->
  exists hit userToken r w1 w2,
    let b := binding_of (ck_connectionId (hit_chunk hit)) in
    hit ∈ hits /\ a = authorized hit r /\ token_for options (ck_connectionId (hit_chunk hit)) = Some userToken /\
    probe_allowed r = true /\
    probe (binding_driver b) (binding_scope b) (mkCredentials None (Some userToken))
      (pr_sourceId (request_for prober (hit_chunk hit))) w1 = (Ok r, w2) /\
    rtc asks w w1 /\ rtc asks w2 w'.
Proof.
  intros serve prober Hplain Hready Hrun asks a Ha.
  destruct (authorize_elem prober hits w w' out a Hplain Hrun Ha) as (hit & r & w1 & w2 & Hin & -> & Hal & Hp & Hbefore & Hafter).
  fold asks in Hbefore, Hafter. clearbody asks. cbn [prober_probe] in Hp.
  assert (pr_connectionId (request_for prober (hit_chunk hit)) = ck_connectionId (hit_chunk hit)) as Hc.
  { unfold request_for. by case_decide. }
  destruct (token_for options (ck_connectionId (hit_chunk hit))) as [t|] eqn:Ht.
  - pose proof (probe_hop parse_url decodeURIComponent JSON_parse to_number utf8_toString encode render text_of status_text
      o options _ _ t w1 ltac:(by rewrite Hc) (Hready hit t Hin Ht)) as H. unfold as_user in H.
    destruct (probe _ _ _ _ w1) as [answer w3] eqn:Hd. destruct H as (out' & Hb & Hout).
    subst prober serve. cbn in Hp. rewrite Hb in Hp. injection Hp as -> ->.
    destruct answer as [r'|e]; cbn in Hout; [|by destruct Hout]. injection Hout as ->.
    exists hit, t, r', w1, w2. by split_and!.
  - subst prober. cbn in Hp. unfold broker_probe in Hp. rewrite Hc, Ht in Hp. done.
Qed.

(** ** A broker to ask *)

(** A provider whose driver lets the holder of "alice" read what starts with a
    p, and counts the questions. *)
Definition wiki_driver : Driver nat :=
  mkDriver "confluence" (fun _ => Ok tt) (fun _ _ _ => sret (mkListPage [] None)) (fun _ _ _ => sthrow (OtherError "gone"))
    per_resource
    (fun _ creds id n =>
       match cred_delegated creds, id with
       | Some "alice", Some (String "p" _) => (Ok (mkProbeResult true "Live title" "https://wiki/p1" (Some "2")), S n)
       | Some _, Some _ => (Err (PermissionDeniedError "not yours"), S n)
       | _, _ => (Err (TransientError "busy"), S n)
       end)
    None None None None.

Definition wiki_binding : CorpusBinding (Driver nat) :=
  mkCorpusBinding "eng" "wiki" wiki_driver (mkScope (Some "ENG") None None) ["dev"] "svc".

Definition wiki_options : ServerOptions nat :=
  mkServerOptions (mkAuthConfig "orch" []) (registry_of (static_bindings [wiki_binding])) None None.

(** The codec of the example carries one body. *)
Definition wiki_encode (j : json) : string := "{sourceId:p1}".
Definition wiki_parse (s : string) : option json := Some (probe_body (Some "p1")).
Definition wiki_render (b : Body) : json :=
  match b with
  | BProbe r => probe_json r
  | _ => JNull
  end.

Definition alice_options : BrokerProberOptions :=
  mkBrokerProberOptions "http://broker/" "orch" None (Some [("eng", "alice")]) None.

Definition alice_http : FetchRequest -> SM nat string FetchResponse :=
  deliver_fetch (handle plain_url Ok wiki_parse (fun _ => NaN) id wiki_options) wiki_encode wiki_render
    (fun _ => EmptyString) "http://broker".

Lemma alice_ready (userToken : string) :
  userToken <> EmptyString ->
  probe_ready plain_url Ok wiki_parse id wiki_encode wiki_render wiki_options alice_options wiki_binding
    (mkProbeRequest "eng" (Some "p1")) userToken.
Proof.
  intros H. split; [split_and!; [done|by vm_compute|done|by vm_compute|by vm_compute]|by vm_compute| |done].
  split; [|by split]. apply Nat.leb_le. by vm_compute.
Qed.

Lemma probe_refines_witness :
  broker_probe alice_http (fun _ => "403") alice_options (mkProbeRequest "eng" (Some "p1")) 0%nat =
  (Ok (mkProbeResult true "Live title" "https://wiki/p1" (Some "2")), 1%nat).
Proof.
  refine (proj2 (probe_refines plain_url Ok wiki_parse (fun _ => NaN) id wiki_encode wiki_render (fun _ => EmptyString)
    (fun _ => "403") wiki_options alice_options (mkProbeRequest "eng" (Some "p1")) 0%nat) wiki_binding "alice" _ _);
    [done|by apply alice_ready].
Defined.

Definition alice_hits : list CorpusSearchResult := [sample_hit "eng" "p1" "h1" "alpha" (num_of_Z 3) None].

Definition alice_outcome : AuthorizeOutcome :=
  mkAuthorizeOutcome [authorized (sample_hit "eng" "p1" "h1" "alpha" (num_of_Z 3) None)
    (mkProbeResult true "Live title" "https://wiki/p1" (Some "2"))] 0 [].

Lemma authorized_by_driver_witness :
  length (ao_chunks alice_outcome) = 1%nat /\ Forall (fun a => ac_title a = "Live title") (ao_chunks alice_outcome).
Proof.
  split; [by vm_compute|]. apply Forall_forall. intros a Ha.
  destruct (authorized_by_driver plain_url Ok wiki_parse (fun _ => NaN) id wiki_encode wiki_render (fun _ => EmptyString)
    (fun _ => "403") wiki_options alice_options (fun _ => wiki_binding) alice_hits 0%nat 1%nat alice_outcome)
    with (a := a) as (hit & t & r & w1 & w2 & Hin & -> & Ht & Hal & Hp & _);
    [by repeat constructor| |by vm_compute|done|].
  - intros hit t Hin Ht. apply list_elem_of_singleton in Hin as ->. apply alice_ready. by injection Ht as <-.
  - apply list_elem_of_singleton in Hin as ->. injection Ht as <-. cbn in Hp. by injection Hp as <- _.
Defined.
