(* ===== verification/KbSearcher.v ===== *)
(** * Agent orchestrator: the knowledge-base search tool

    The text a search gives the planner (knowledge-base/render.ts), the caller's
    own credentials per provider (linked-credentials.ts) and
    [KnowledgeBaseSearcher] (searcher.ts), which puts the member filter, the
    credentials, the stores, the gate and the text together. *)

From stdpp Require Import base gmap strings list sorting.
From Stdlib Require Import ZArith Lia Ascii.
From S2P Require Import Prelude JsString JsNumber Json JsMap EventValues JsList Chunk Driver Fetch.
From S2P Require Import KnowledgeBase KbProbe KbSearch KbCite KbBroker.

#[local] Open Scope Z_scope.

(** ** The rendered result (render.ts) *)

Record RenderInput := mkRenderInput {
  ri_outcome : RetrieveOutcome;
  ri_withheld : nat;
  ri_disclose : bool;
  (** The providers to link, and how many sources need them. *)
  ri_unlinked : option (list string * nat);
  ri_firstIndex : option Z
}.

(** [`${n}`] *)
Definition show_nat (n : nat) : string := Z_to_string (Z.of_nat n).

Definition firstIndexOf (input : RenderInput) : Z :=
  match ri_firstIndex input with
  | Some first => if first >=? 1 then first else 1
  | None => 1
  end.

Definition displayTitle (chunk : AuthorizedChunk) : string :=
  if negb (str_empty (trim (ac_title chunk))) then ac_title chunk else ck_sourceId (ac_chunk chunk).

Definition caveat_withheld (n : nat) : string :=
  show_nat n +:+ " source(s) in this knowledge base are outside your access, so there may be more you cannot see.".
Definition caveat_denied (n : nat) : string :=
  show_nat n +:+ " passage(s) matched but the source did not confirm your access to them.".
Definition caveat_undetermined (n : nat) : string :=
  show_nat n +:+ " source(s) could not be checked just now, so evidence may be missing that nobody was able to confirm either way.".
Definition caveat_skipped (n : nat) : string :=
  show_nat n +:+ " source(s) could not be searched at all, so this answer covers less than the knowledge base does.".
Definition caveat_unlinked (providers : list string) (n : nat) : string :=
  if (0 <? length providers)%nat
  then show_nat n +:+ " source(s) need an account you have not linked (" +:+ join ", " providers +:+
       "); link it and ask again to include them."
  else show_nat n +:+ " source(s) could not be checked against your own access, so they were left out.".

Definition caveatLines (input : RenderInput) : list string :=
  let outcome := ri_outcome input in
  (if ri_disclose input && (0 <? ri_withheld input)%nat then [caveat_withheld (ri_withheld input)] else []) ++
  (if ri_disclose input && (0 <? ro_denied outcome)%nat then [caveat_denied (ro_denied outcome)] else []) ++
  (if (0 <? length (ro_undetermined outcome))%nat then [caveat_undetermined (length (ro_undetermined outcome))] else []) ++
  (if (0 <? ro_skippedCorpora outcome)%nat then [caveat_skipped (ro_skippedCorpora outcome)] else []) ++
  match ri_unlinked input with
  | Some (providers, sources) => if (0 <? sources)%nat then [caveat_unlinked providers sources] else []
  | None => []
  end.

(** The numbered passages: [outcome.chunks.map((chunk, i) => ...)]. *)
Definition sources (input : RenderInput) : list CitedSource :=
  imap (fun i chunk => mkCitedSource (firstIndexOf input + Z.of_nat i) (displayTitle chunk) (ac_url chunk))
    (ro_chunks (ri_outcome input)).

Definition citationsBlock (input : RenderInput) : string :=
  sourcesBlock (sources input) +:+ caveatsBlock (caveatLines input).

(** What the [forEach] of [render] pushes for one passage. *)
Definition passage (n : Z) (chunk : AuthorizedChunk) : list string :=
  ["### [" +:+ Z_to_string n +:+ "] " +:+ displayTitle chunk;
   "Source: " +:+ (ck_connectionLabel (ac_chunk chunk) ?? ck_connectionId (ac_chunk chunk)) +:+
   (if ac_stale chunk then " · **may be out of date** (the source has changed since this was indexed)" else EmptyString);
   "reference: " +:+ ck_connectionId (ac_chunk chunk) +:+ "/" +:+ ck_sourceId (ac_chunk chunk);
   EmptyString; "```text"; trim (ck_text (ac_chunk chunk)); "```"; EmptyString].

Definition render (input : RenderInput) : string :=
  match ro_chunks (ri_outcome input) with
  | [] => "No passages in this knowledge base matched." +:+ nl_s +:+ caveatsBlock (caveatLines input)
  | chunks =>
      join nl_s (mjoin (imap (fun i => passage (firstIndexOf input + Z.of_nat i)) chunks)) +:+ nl_s +:+ citationsBlock input
  end.

(** ** The caller's credentials (searcher.ts, linked-credentials.ts) *)

Record DelegatedCredential := mkDelegatedCredential {
  dc_token : string;
  dc_principals : option (list string)
}.

Record DelegatedCredentialResolver (W : Type) := mkResolver {
  delegatedToken : string -> list string -> SM W ProbeError (option DelegatedCredential);
  delegatedTokens : string -> list string -> SM W ProbeError (jsmap DelegatedCredential)
}.
Arguments mkResolver {W}.
Arguments delegatedToken {W} d.
Arguments delegatedTokens {W} d.

(** What the resolver uses of an [IdentityLinkPort]: [getToken] answers the
    token of the record, the identity lookups are optional methods. *)
Record IdentityLinkPort (W : Type) := mkLinks {
  getToken : string -> string -> SM W ProbeError (option string);
  getLinkedAccountId : option (string -> string -> SM W ProbeError (option string));
  getLinkedLogin : option (string -> string -> SM W ProbeError (option string))
}.
Arguments mkLinks {W}.
Arguments getToken {W} i.
Arguments getLinkedAccountId {W} i.
Arguments getLinkedLogin {W} i.

Section LinkedCredentials.
Context {W : Type}.
Variable links : IdentityLinkPort W.

(** [await links.m?.(provider, subject)] *)
Definition optional_call (m : option (string -> string -> SM W ProbeError (option string))) (provider subject : string) :
    SM W ProbeError (option string) :=
  match m with
  | Some call => call provider subject
  | None => sret None
  end.

Definition user_principal (id : string) : string := "user:" +:+ id.

Definition principals (provider subject : string) : SM W ProbeError (option (list string)) :=
  scatch
    (do! accountId <- optional_call (getLinkedAccountId links) provider subject ;;
     if truthy_str accountId then sret (Some [user_principal (accountId ?? EmptyString)])
     else
       do! login <- optional_call (getLinkedLogin links) provider subject ;;
       sret (if truthy_str login then Some [user_principal (login ?? EmptyString)] else None))
    (fun _ => sret None).

Definition resolveOne (provider subject : string) : SM W ProbeError (option DelegatedCredential) :=
  do! token <- getToken links provider subject ;;
  if negb (truthy_str token) then sret None
  else
    do! held <- principals provider subject ;;
    sret (Some (mkDelegatedCredential (token ?? EmptyString) held)).

Fixpoint first_linked (subject : string) (providers : list string) : SM W ProbeError (option DelegatedCredential) :=
  match providers with
  | [] => sret None
  | provider :: rest =>
      do! credential <- resolveOne provider subject ;;
      match credential with
      | Some c => sret (Some c)
      | None => first_linked subject rest
      end
  end.

Definition resolve_step (subject : string) (resolved : jsmap DelegatedCredential) (provider : string) :
    SM W ProbeError (jsmap DelegatedCredential) :=
  do! credential <- resolveOne provider subject ;;
  sret match credential with
       | Some c => map_set provider c resolved
       | None => resolved
       end.

Definition all_linked (subject : string) (providers : list string) : SM W ProbeError (jsmap DelegatedCredential) :=
  sfold (resolve_step subject) [] providers.

Definition LinkedCredentials : DelegatedCredentialResolver W := mkResolver first_linked all_linked.
End LinkedCredentials.

(** ** The searcher (searcher.ts) *)

Record Caller := mkCaller {
  caller_subject : string;
  caller_roles : list string
}.

Record LinkCheck := mkLinkCheck {
  lc_linkProviders : list string;
  lc_linkedProviders : list string
}.

Record SearchResult := mkSearchResult {
  sr_result : string;
  sr_needsLink : bool;
  sr_linkProviders : option (list string);
  sr_sources : option (list CitedSource);
  sr_caveats : option (list string)
}.

Definition DEFAULT_LIMIT : number := num_of_Z 12.

Definition operation_name (operation : KbOperation) : string :=
  match operation with
  | op_search => "search"
  | op_read => "read"
  | op_lookup => "lookup"
  | op_query => "query"
  | op_fetch => "fetch"
  end.

Definition providers_needed (members : list KnowledgeBaseExecMember) : list string :=
  members ≫= (fun member => em_identityProviders member ?? []).

(** [tokens.has(p)] *)
Definition linked (tokens : jsmap DelegatedCredential) (p : string) : bool := bool_decide (is_Some (map_get p tokens)).

Definition providersToLink (members : list KnowledgeBaseExecMember) (tokens : jsmap DelegatedCredential) : list string :=
  sort_strings (set_of (List.filter (fun p => negb (linked tokens p)) (providers_needed members))).

Definition linkedProviders (members : list KnowledgeBaseExecMember) (tokens : jsmap DelegatedCredential) : list string :=
  sort_strings (set_of (List.filter (linked tokens) (providers_needed members))).

Definition providersOf (members : list KnowledgeBaseExecMember) : list string :=
  sort_strings (set_of (providers_needed members)).

Definition granularitiesOf (members : list KnowledgeBaseExecMember) : jsmap Granularity :=
  map_of ((fun member => (em_id member, if decide (em_granularity member = Some g_connection) then g_connection else g_resource))
          <$> members).

Definition needsLinkAsk (displayName : string) (providers : list string) : SearchResult :=
  let which := if (0 <? length providers)%nat then " (" +:+ join ", " providers +:+ ")" else EmptyString in
  mkSearchResult ("I need you to link the account behind " +:+ displayName +:+ which +:+ " before I can search it — " +:+
                  "every result has to be checked against your own access to the source.")
    true (Some providers) None None.

(** The members split by whether the caller holds a credential for one of
    their providers. *)
Record Serving := mkServing {
  sv_servable : list KnowledgeBaseExecMember;
  sv_notLinked : list KnowledgeBaseExecMember;
  sv_tokenByConnection : jsmap string;
  sv_principals : list string
}.

Definition serve_member (tokens : jsmap DelegatedCredential) (acc : Serving) (member : KnowledgeBaseExecMember) : Serving :=
  match List.find (linked tokens) (em_identityProviders member ?? []) with
  | Some provider =>
      match map_get provider tokens with
      | Some credential =>
          if str_empty provider
          then mkServing (sv_servable acc) (sv_notLinked acc ++ [member]) (sv_tokenByConnection acc) (sv_principals acc)
          else mkServing (sv_servable acc ++ [member]) (sv_notLinked acc)
                 (map_set (em_id member) (dc_token credential) (sv_tokenByConnection acc))
                 (foldl set_add (sv_principals acc) (dc_principals credential ?? []))
      | None => acc
      end
  | None => mkServing (sv_servable acc) (sv_notLinked acc ++ [member]) (sv_tokenByConnection acc) (sv_principals acc)
  end.

Definition split_members (tokens : jsmap DelegatedCredential) (visible : list KnowledgeBaseExecMember) : Serving :=
  foldl (serve_member tokens) (mkServing [] [] [] []) visible.

Section Searcher.
Context {W : Type}.
(** The options of the searcher: the store of a collection, the resolver, the
    transport to the broker. *)
Variable openCorpus : string -> SM W ProbeError (option (CorpusStore W)).
Variable credentials : DelegatedCredentialResolver W.
Variable http : FetchRequest -> SM W string FetchResponse.
Variable status_text : Z -> string.
Variable brokerUrl brokerToken : string.
Variable limit : option number.

Definition open_step (acc : list (CorpusStore W) * nat) (member : KnowledgeBaseExecMember) :
    SM W ProbeError (list (CorpusStore W) * nat) :=
  do! store <- openCorpus (em_collection member) ;;
  sret match store with
       | Some s => (acc.1 ++ [s], acc.2)
       | None => (acc.1, S acc.2)
       end.

Definition searcher_prober (serving : Serving) : Prober W :=
  BrokerProber http status_text
    (mkBrokerProberOptions brokerUrl brokerToken None (Some (sv_tokenByConnection serving))
       (Some (granularitiesOf (sv_servable serving)))).

Definition checkLinks (tool : ToolDescriptor) (caller : Caller) : SM W ProbeError LinkCheck :=
  match td_knowledgeBaseExec tool with
  | Some exec =>
      if negb (bool_decide (ex_operation exec = op_search)) || str_empty (caller_subject caller)
      then sret (mkLinkCheck [] [])
      else
        let '(visible, _) := visibleMembers (ex_members exec) (caller_roles caller) in
        match visible with
        | [] => sret (mkLinkCheck [] [])
        | _ =>
            do! tokens <- delegatedTokens credentials (caller_subject caller) (providersOf visible) ;;
            sret (mkLinkCheck (providersToLink visible tokens) (linkedProviders visible tokens))
        end
  | None => sret (mkLinkCheck [] [])
  end.

(** The tail of [search]: the outcome of the retrieval, as the planner and the
    graph get it. *)
Definition search_result (exec : KnowledgeBaseExecSpec) (withheld skipped : nat) (serving : Serving)
    (tokens : jsmap DelegatedCredential) (firstIndex : Z) (outcome : RetrieveOutcome) : SearchResult :=
  let unlinkedProviders := providersToLink (sv_notLinked serving) tokens in
  let renderInput :=
    mkRenderInput
      (mkRetrieveOutcome (ro_chunks outcome) (ro_denied outcome) (ro_undetermined outcome)
         (ro_skippedCorpora outcome + skipped) (ro_preFiltered outcome))
      withheld (ex_disclosePartialVisibility exec) (Some (unlinkedProviders, length (sv_notLinked serving))) (Some firstIndex) in
  mkSearchResult (render renderInput) false
    (if (0 <? length unlinkedProviders)%nat then Some unlinkedProviders else None)
    (Some (sources renderInput)) (Some (caveatLines renderInput)).

Definition search_linked (exec : KnowledgeBaseExecSpec) (query : string) (caller : Caller) (firstIndex : Z)
    (visible : list KnowledgeBaseExecMember) (withheld : nat) (tokens : jsmap DelegatedCredential) :
    SM W ProbeError SearchResult :=
  let serving := split_members tokens visible in
  match sv_servable serving with
  | [] => sret (needsLinkAsk (ex_displayName exec) (providersToLink visible tokens))
  | servable =>
      do! opened <- sfold open_step ([], 0%nat) servable ;;
      do! outcome <- retrieve opened.1 (searcher_prober serving) query (caller_roles caller) (sv_principals serving)
                       (limit ?? DEFAULT_LIMIT) DEFAULT_CANDIDATE_MULTIPLIER ;;
      sret (search_result exec withheld opened.2 serving tokens firstIndex outcome)
  end.

Definition search (tool : ToolDescriptor) (query : string) (caller : Caller) (firstIndex : Z) : SM W ProbeError SearchResult :=
  match td_knowledgeBaseExec tool with
  | None => sthrow (ProbeOther ("tool " +:+ td_id tool +:+ " carries no knowledge-base execution spec"))
  | Some exec =>
      if negb (bool_decide (ex_operation exec = op_search))
      then sret (mkSearchResult ("I cannot " +:+ operation_name (ex_operation exec) +:+ " " +:+ ex_displayName exec +:+
                                 ": only search is supported for this knowledge base.") false None None None)
      else if str_empty (caller_subject caller)
      then sret (mkSearchResult "I could not establish who is asking, so I cannot search this knowledge base."
                   false None None None)
      else
        let '(visible, withheld) := visibleMembers (ex_members exec) (caller_roles caller) in
        match visible with
        | [] =>
            let renderInput := mkRenderInput (mkRetrieveOutcome [] 0 [] 0 0) withheld (ex_disclosePartialVisibility exec)
                                 None None in
            sret (mkSearchResult (render renderInput) false None None (Some (caveatLines renderInput)))
        | _ =>
            do! tokens <- delegatedTokens credentials (caller_subject caller) (providersOf visible) ;;
            match tokens with
            | [] => sret (needsLinkAsk (ex_displayName exec) (providersToLink visible tokens))
            | _ => search_linked exec query caller firstIndex visible withheld tokens
            end
        end
  end.
End Searcher.

(** ** Lemmas: who is asked *)

(** The members split by [split_members], and where each connection's token
    comes from. *)
Record serving_ok (tokens : jsmap DelegatedCredential) (visible : list KnowledgeBaseExecMember) (s : Serving) : Prop := {
  served_member : forall m, m ∈ sv_servable s -> m ∈ visible;
  unlinked_member : forall m, m ∈ sv_notLinked s -> m ∈ visible;
  served_token : forall id t, map_get id (sv_tokenByConnection s) = Some t -> exists m p c,
    m ∈ sv_servable s /\ em_id m = id /\ p ∈ em_identityProviders m ?? [] /\ map_get p tokens = Some c /\ dc_token c = t;
  split_count : length visible = (length (sv_servable s) + length (sv_notLinked s))%nat
}.

Lemma linked_find tokens providers :
  match List.find (linked tokens) providers with
  | Some p => p ∈ providers /\ exists c, map_get p tokens = Some c
  | None => forall p, p ∈ providers -> map_get p tokens = None
  end.
Proof.
  destruct (List.find _ _) as [p|] eqn:E.
  - apply find_some in E as [Hin%list_elem_of_In Hp]. split; [done|]. unfold linked in Hp. to_prop. destruct Hp. by eexists.
  - intros p Hin%list_elem_of_In. pose proof (find_none _ _ E _ Hin) as Hp. unfold linked in Hp. to_prop.
    destruct (map_get p tokens); [|done]. destruct Hp. by eexists.
Qed.

Lemma split_members_ok tokens visible : serving_ok tokens visible (split_members tokens visible).
Proof.
  unfold split_members. induction visible as [|m visible IH] using rev_ind.
  { split; [intros m []%elem_of_nil|intros m []%elem_of_nil|done|done]. }
  rewrite foldl_app. cbn [foldl]. set (acc := foldl _ _ visible) in *. destruct IH as [H1 H2 H3 H4].
  pose proof (linked_find tokens (em_identityProviders m ?? [])) as Hfind. unfold serve_member.
  assert (serving_ok tokens (visible ++ [m])
    (mkServing (sv_servable acc) (sv_notLinked acc ++ [m]) (sv_tokenByConnection acc) (sv_principals acc))) as Hnot.
  { split; cbn; [intros x Hx; apply elem_of_app; left; by apply H1| |exact H3|rewrite !length_app; cbn; lia].
    intros x [Hx|Hx]%elem_of_app; apply elem_of_app; [left; by apply H2|by right]. }
  destruct (List.find _ _) as [p|]; [|exact Hnot]. destruct Hfind as [Hp [c Hc]]. rewrite Hc.
  destruct (str_empty p); [exact Hnot|]. split; cbn.
  - intros x [Hx|Hx]%elem_of_app; apply elem_of_app; [left; by apply H1|by right].
  - intros x Hx. apply elem_of_app. left. by apply H2.
  - intros id t. destruct (decide (em_id m = id)) as [<-|Hne].
    + rewrite map_get_set_eq. intros [= <-]. exists m, p, c. split_and!; [set_solver|done..].
    + rewrite map_get_set_ne by done. intros (m' & p' & c' & Hin & ?)%H3. exists m', p', c'. split; [set_solver|done].
  - rewrite !length_app. cbn. lia.
Qed.

Lemma visible_member_elem members roles visible withheld m :
  visibleMembers members roles = (visible, withheld) -> m ∈ visible -> m ∈ members /\ member_visible roles m = true.
Proof.
  rewrite visibleMembers_eq. intros [= <- _]. intros Hin%list_elem_of_In. apply filter_In in Hin as [Hin Hv].
  split; [by apply list_elem_of_In|done].
Qed.

(** A probe of one of a knowledge base's connections, as its own caller: the
    connection is one the caller's roles open, the token that of a provider of
    that connection. *)
Definition own_probe (brokerUrl brokerToken : string) (held : string -> DelegatedCredential -> Prop)
    (members : list KnowledgeBaseExecMember) (roles : list string) (rq : FetchRequest) : Prop :=
  exists m p c sourceId,
    m ∈ members /\ member_visible roles m = true /\ p ∈ em_identityProviders m ?? [] /\ held p c /\
    rq = probe_request (mkBrokerProberOptions brokerUrl brokerToken None None None) (mkProbeRequest (em_id m) sourceId)
           (dc_token c).

(** The searcher's other capabilities, none of which breaks [I]. *)
Record quiet {W : Type} (I : W -> Prop) (openCorpus : string -> SM W ProbeError (option (CorpusStore W)))
    (credentials : DelegatedCredentialResolver W) (members : list KnowledgeBaseExecMember) (caller : Caller)
    (held : string -> DelegatedCredential -> Prop) : Prop := mkQuiet {
  quiet_tokens : forall providers, keeps I (delegatedTokens credentials (caller_subject caller) providers);
  quiet_held : forall providers, yields (fun tokens => forall p c, map_get p tokens = Some c -> held p c)
                 (delegatedTokens credentials (caller_subject caller) providers);
  quiet_open : forall m, m ∈ members -> member_visible (caller_roles caller) m = true ->
                 keeps I (openCorpus (em_collection m));
  quiet_store : forall m, m ∈ members -> member_visible (caller_roles caller) m = true ->
                 yields (fun store => forall s q k, store = Some s -> keeps I (store_query s q (caller_roles caller) k))
                   (openCorpus (em_collection m))
}.

Lemma keeps_authorize {W : Type} (I : W -> Prop) (prober : Prober W) hits :
  (forall rq, keeps I (prober_probe prober rq)) -> keeps I (authorize prober hits).
Proof.
  intros Hp. unfold authorize. destruct hits as [|h hits]; [apply keeps_sret|]. cbv zeta. apply keeps_sbind.
  - apply keeps_all_settled. rewrite Forall_forall. intros m (rq & -> & _)%list_elem_of_fmap. apply Hp.
  - intros settled. destruct (unclassified settled); [apply keeps_sthrow|by intros w Hw].
Qed.

Lemma keeps_retrieve {W : Type} (I : W -> Prop) (stores : list (CorpusStore W)) (prober : Prober W) query roles held limit factor :
  (forall s q k, s ∈ stores -> keeps I (store_query s q roles k)) -> (forall rq, keeps I (prober_probe prober rq)) ->
  keeps I (retrieve stores prober query roles held limit factor).
Proof.
  intros Hs Hp. unfold retrieve. apply keeps_sbind.
  - unfold searchCorpus. destruct (_ || _); [apply keeps_sthrow|]. destruct stores as [|s ss]; [apply keeps_sret|].
    apply keeps_sbind.
    + apply keeps_all_settled. rewrite Forall_forall. intros m (st & -> & Hin)%list_elem_of_fmap. by apply Hs.
    + intros settled. destruct (_ =? _)%nat; [apply keeps_sthrow|apply keeps_sret].
  - intros found. destruct (preFilter _ _) as [kept dropped]. apply keeps_sbind; [by apply keeps_authorize|].
    intros auth. apply keeps_sret.
Qed.

Section Asks.
Context {W : Type}.
Variable I : W -> Prop.
Variable openCorpus : string -> SM W ProbeError (option (CorpusStore W)).
Variable credentials : DelegatedCredentialResolver W.
Variable http : FetchRequest -> SM W string FetchResponse.
Variable status_text : Z -> string.
Variable brokerUrl brokerToken : string.
Variable limit : option number.
Variable held : string -> DelegatedCredential -> Prop.
Variable exec : KnowledgeBaseExecSpec.
Variable caller : Caller.

Hypothesis Hquiet : quiet I openCorpus credentials (ex_members exec) caller held.
Hypothesis Hhttp : forall rq, own_probe brokerUrl brokerToken held (ex_members exec) (caller_roles caller) rq -> keeps I (http rq).

Lemma keeps_probe tokens visible withheld rq :
  visibleMembers (ex_members exec) (caller_roles caller) = (visible, withheld) ->
  (forall p c, map_get p tokens = Some c -> held p c) ->
  keeps I (prober_probe (searcher_prober http status_text brokerUrl brokerToken (split_members tokens visible)) rq).
Proof.
  intros Hvis Hheld. cbn [prober_probe searcher_prober BrokerProber]. intros w Hw. unfold broker_probe.
  unfold token_for. cbn [bp_delegatedTokens bp_delegatedToken].
  destruct (map_get (pr_connectionId rq) (sv_tokenByConnection (split_members tokens visible))) as [t|] eqn:Ht; [|done].
  cbn [nullish nullish_or]. destruct (negb _); [done|].
  destruct (served_token _ _ _ (split_members_ok tokens visible) _ _ Ht) as (m & p & c & Hm & Hid & Hp & Hc & <-).
  pose proof (served_member _ _ _ (split_members_ok tokens visible) _ Hm) as Hmv.
  destruct (visible_member_elem _ _ _ _ _ Hvis Hmv) as [Hin Hv].
  match goal with |- context [http ?r w] => assert (keeps I (http r)) as Hk end.
  { apply Hhttp. exists m, p, c, (pr_sourceId rq). split_and!; [done..|by apply Hheld|].
    unfold probe_request. cbn. by rewrite Hid. }
  specialize (Hk w Hw). by destruct (http _ w) as [[] w1].
Qed.

Lemma keeps_search_linked query firstIndex visible withheld tokens :
  visibleMembers (ex_members exec) (caller_roles caller) = (visible, withheld) ->
  (forall p c, map_get p tokens = Some c -> held p c) ->
  keeps I (search_linked openCorpus http status_text brokerUrl brokerToken limit exec query caller firstIndex visible withheld tokens).
Proof.
  intros Hvis Hheld. unfold search_linked.
  assert (forall m, m ∈ sv_servable (split_members tokens visible) ->
            m ∈ ex_members exec /\ member_visible (caller_roles caller) m = true) as Hserv.
  { intros m Hm. eapply visible_member_elem; [exact Hvis|]. by eapply served_member; [apply split_members_ok|]. }
  pose proof (fun rq => keeps_probe tokens visible withheld rq Hvis Hheld) as Hprobe.
  cbv zeta. revert Hprobe. generalize (split_members tokens visible) Hserv. intros serving Hs Hprobe.
  destruct (sv_servable serving) as [|m0 ms] eqn:E; [apply keeps_sret|]. rewrite <- E in *. clear E m0 ms.
  apply (keeps_sbind_yields I (fun opened => forall s q k, s ∈ opened.1 -> keeps I (store_query s q (caller_roles caller) k))).
  - apply keeps_sfold. intros acc m Hm. destruct (Hs m Hm). unfold open_step.
    apply keeps_sbind; [by eapply quiet_open|]. intros store. apply keeps_sret.
  - apply yields_sfold; [intros s q k []%elem_of_nil|]. intros acc m Hm Hacc w a w' Hrun. destruct (Hs m Hm) as [Hin Hv].
    apply sbind_Ok in Hrun as (store & w1 & Ho & [= <- _]).
    pose proof (quiet_store _ _ _ _ _ _ Hquiet m Hin Hv _ _ _ Ho) as Hst. destruct store as [s|]; cbn [fst]; [|exact Hacc].
    intros s' q k [Hin'| ->%list_elem_of_singleton]%elem_of_app; [by apply Hacc|by apply Hst].
  - intros opened Hopened. apply keeps_sbind; [|intros; apply keeps_sret]. by apply keeps_retrieve.
Qed.
End Asks.

(** ** Lemmas: what the text says *)

Lemma sources_elem input s :
  s ∈ sources input -> exists a, a ∈ ro_chunks (ri_outcome input) /\ cs_url s = ac_url a /\ cs_title s = displayTitle a.
Proof.
  unfold sources. intros (i & a & -> & Hi)%elem_of_lookup_imap. exists a. split_and!; [|done..].
  by eapply list_elem_of_lookup_2.
Qed.

Lemma providersToLink_elem members tokens p :
  p ∈ providersToLink members tokens <->
  map_get p tokens = None /\ exists m, m ∈ members /\ p ∈ em_identityProviders m ?? [].
Proof.
  unfold providersToLink. rewrite sort_strings_elem, set_of_elem, list_elem_of_In, filter_In, <- list_elem_of_In.
  unfold providers_needed. rewrite list_elem_of_bind. unfold linked. rewrite negb_true_iff, bool_decide_eq_false.
  destruct (map_get p tokens); [|naive_solver]. split; [intros [_ []]; by eexists|by intros [? _]].
Qed.

Lemma split_members_linked tokens visible m p :
  m ∈ visible -> p ∈ em_identityProviders m ?? [] -> linked tokens p = true -> map_get EmptyString tokens = None ->
  m ∈ sv_servable (split_members tokens visible).
Proof.
  intros Hm Hp Hl Hempty. unfold split_members. induction visible as [|x visible IH] using rev_ind; [by apply elem_of_nil in Hm|].
  rewrite foldl_app. cbn [foldl]. set (acc := foldl _ _ visible) in *. unfold serve_member.
  pose proof (linked_find tokens (em_identityProviders x ?? [])) as Hfind.
  apply elem_of_app in Hm as [Hm| ->%list_elem_of_singleton].
  - specialize (IH Hm). destruct (List.find _ _) as [p'|]; [|done]. destruct (map_get p' tokens); [|done].
    destruct (str_empty p'); [done|]. cbn. set_solver.
  - destruct (List.find _ _) as [p'|].
    + destruct Hfind as [_ [c Hc]]. rewrite Hc. destruct (str_empty p') eqn:E; [|cbn; set_solver].
      apply str_empty_true in E as ->. by rewrite Hempty in Hc.
    + specialize (Hfind p Hp). unfold linked in Hl. to_prop. rewrite Hfind in Hl. by destruct Hl.
Qed.

Lemma linkedProviders_elem members tokens p :
  p ∈ linkedProviders members tokens <->
  linked tokens p = true /\ exists m, m ∈ members /\ p ∈ em_identityProviders m ?? [].
Proof.
  unfold linkedProviders. rewrite sort_strings_elem, set_of_elem, list_elem_of_In, filter_In, <- list_elem_of_In.
  unfold providers_needed. rewrite list_elem_of_bind. naive_solver.
Qed.

Lemma caveat_line_none {A : Type} (b : bool) (x : A) : (if b then [x] else []) = [] <-> b = false.
Proof. by destruct b. Qed.

(** A credential lookup that answers the same whatever the world. *)
Lemma resolveOne_token {W : Type} (links : IdentityLinkPort W) provider subject w :
  match getToken links provider subject w with
  | (Err e, _) => (resolveOne links provider subject w).1 = Err e
  | (Ok t, _) => exists c, (resolveOne links provider subject w).1 = Ok c /\ dc_token <$> c = (if truthy_str t then t else None)
  end.
Proof.
  unfold resolveOne, sbind. destruct (getToken links provider subject w) as [[t|e] w1]; [|done].
  destruct (truthy_str t) eqn:Ht; cbn [negb]; [|by exists None].
  destruct (principals links provider subject w1) as [[h|e] w2] eqn:Hp.
  - eexists. split; [reflexivity|]. cbn. by destruct t.
  - exfalso. unfold principals, scatch in Hp. by destruct (sbind _ _ w1) as [[]].
Qed.

Lemma resolve_loop {W : Type} (links : IdentityLinkPort W) subject acc q ps w :
  sfold (resolve_step links subject) acc (q :: ps) w =
  match resolveOne links q subject w with
  | (Ok c, w') =>
      sfold (resolve_step links subject) (match c with Some c => map_set q c acc | None => acc end) ps w'
  | (Err e, w') => (Err e, w')
  end.
Proof.
  cbn [sfold]. unfold sbind, resolve_step, sbind, sret. by destruct (resolveOne _ _ _ _) as [[c|e] w'].
Qed.

(** ** Properties *)

(** C11: a search never asks about one provider with another's credential, and
    never about a corpus closed to the caller. Whatever the world, every
    request it sends to the broker is a probe of a member that the caller's
    roles open, carrying the token of one of that member's own providers as the
    resolver gave it for this caller: a property of the world that such probes
    (and the reads of the caller's own stores and credentials) keep, the whole
    search keeps. *)
Theorem search_asks_as_caller {W : Type} (I : W -> Prop)
    (openCorpus : string -> SM W ProbeError (option (CorpusStore W))) (credentials : DelegatedCredentialResolver W)
    (http : FetchRequest -> SM W string FetchResponse) (status_text : Z -> string) (brokerUrl brokerToken : string)
    (limit : option number) (held : string -> DelegatedCredential -> Prop) (tool : ToolDescriptor) (caller : Caller)
    (query : string) (firstIndex : Z) :
  let members := from_option ex_members [] (td_knowledgeBaseExec tool) in
  quiet I openCorpus credentials members caller held ->
  (forall rq, own_probe brokerUrl brokerToken held members (caller_roles caller) rq -> keeps I (http rq)) ->
  keeps I (search openCorpus credentials http status_text brokerUrl brokerToken limit tool query caller firstIndex).
Proof.
  intros members Hquiet Hhttp. subst members. unfold search. destruct (td_knowledgeBaseExec tool) as [exec|]; [|apply keeps_sthrow].
  cbn [from_option] in *. destruct (negb _); [apply keeps_sret|]. destruct (str_empty _); [apply keeps_sret|].
  destruct (visibleMembers _ _) as [visible withheld] eqn:Hvis.
  destruct visible as [|v vs]; [apply keeps_sret|].
  apply (keeps_sbind_yields I (fun tokens => forall p c, map_get p tokens = Some c -> held p c));
    [by eapply quiet_tokens|by eapply quiet_held|].
  intros tokens Hheld. destruct tokens as [|t ts]; [apply keeps_sret|]. by eapply keeps_search_linked.
Qed.

(** Everything a search cites, the source itself confirmed to this caller
    during this search: each cited title and link is the answer of a probe that
    allowed the reading, about a passage one of the opened corpora returned
    under the caller's roles (the title falls back to the source's id, never to
    the index's copy of it). *)
Theorem search_cites_confirmed {W : Type}
    (openCorpus : string -> SM W ProbeError (option (CorpusStore W))) (credentials : DelegatedCredentialResolver W)
    (http : FetchRequest -> SM W string FetchResponse) (status_text : Z -> string) (brokerUrl brokerToken : string)
    (limit : option number) (tool : ToolDescriptor) (caller : Caller) (query : string) (firstIndex : Z)
    (w w' : W) (res : SearchResult) (cited : list CitedSource) :
  search openCorpus credentials http status_text brokerUrl brokerToken limit tool query caller firstIndex w = (Ok res, w') ->
  (forall c w1 s w2 q k w3 hs w4, openCorpus c w1 = (Ok (Some s), w2) ->
     store_query s q (caller_roles caller) k w3 = (Ok hs, w4) -> Forall plain_hit hs) ->
  sr_sources res = Some cited ->
  forall s, s ∈ cited -> exists prober hit r w1 w2,
    prober_probe prober (request_for prober (hit_chunk hit)) w1 = (Ok r, w2) /\ probe_allowed r = true /\
    (exists serving, prober = searcher_prober http status_text brokerUrl brokerToken serving) /\
    cs_url s = probe_url r /\
    (cs_title s = probe_title r \/ trim (probe_title r) = EmptyString /\ cs_title s = ck_sourceId (hit_chunk hit)).
Proof.
  intros Hrun Hplain Hs s Hin. unfold search in Hrun. destruct (td_knowledgeBaseExec tool) as [exec|]; [|done].
  destruct (negb _); [by injection Hrun as <- _|]. destruct (str_empty _); [by injection Hrun as <- _|].
  destruct (visibleMembers _ _) as [[|v vs] withheld] eqn:Hvis; [by injection Hrun as <- _|].
  apply sbind_Ok in Hrun as (tokens & w1 & _ & Hrun). destruct tokens as [|t ts]; [by injection Hrun as <- _|].
  unfold search_linked in Hrun. cbv zeta in Hrun. revert Hrun. generalize (split_members (t :: ts) (v :: vs)) as serving.
  intros serving. destruct (sv_servable serving) as [|m ms]; [by intros [= <- _]|]. intros Hrun.
  apply sbind_Ok in Hrun as (opened & w2 & Hopen & Hrun). apply sbind_Ok in Hrun as (outcome & w3 & Hret & [= <- _]).
  cbn [sr_sources search_result] in Hs. injection Hs as <-.
  apply sources_elem in Hin as (a & Ha & Hurl & Htitle). cbn [ri_outcome ro_chunks] in Ha.
  assert (forall st, st ∈ opened.1 -> exists c w1 w2, openCorpus c w1 = (Ok (Some st), w2)) as Hstores.
  { revert Hopen. apply (yields_sfold (fun opened => forall st, st ∈ opened.1 -> exists c w1 w2, openCorpus c w1 = (Ok (Some st), w2)));
      [intros st []%elem_of_nil|].
    intros acc x _ Hacc wa b wb Hb. apply sbind_Ok in Hb as (store & wc & Ho & [= <- _]).
    destruct store as [s'|]; cbn [fst]; [|exact Hacc].
    intros st [Hst| ->%list_elem_of_singleton]%elem_of_app; [by apply Hacc|by eexists _, _, _]. }
  destruct (retrieve_elem _ _ _ _ _ _ _ _ _ _ a Hret) with (2 := Ha) as (hit & r & -> & Hal & _ & wa & wb & Hp).
  { intros st q k wa wb hs Hst Hq. destruct (Hstores st Hst) as (c & wc & wd & Ho). by eapply Hplain. }
  exists (searcher_prober http status_text brokerUrl brokerToken serving), hit, r, wa, wb.
  split_and!; [exact Hp|done|by exists serving|done|].
  rewrite Htitle. unfold displayTitle. cbn [authorized ac_title ac_chunk].
  destruct (str_empty (trim (probe_title r))) eqn:E; cbn [negb]; [right|by left].
  split; [by apply str_empty_true|done].
Qed.

(** What an answer could not see is never silent, and what is not to be
    told is never told. There is a caveat exactly when something is missing
    that may be said: the sources nobody could check or search and those behind
    an unlinked account always, the withheld and the refused only where the
    knowledge base discloses them; and with disclosure off the whole text, the
    sources and the caveats are the same whatever was withheld or refused. *)
Theorem caveats_complete (chunks : list AuthorizedChunk) (denied denied' skipped pre pre' withheld withheld' : nat)
    (undetermined : list string) (disclose : bool) (unlinked : option (list string * nat)) (first : option Z) :
  let input d := mkRenderInput (mkRetrieveOutcome chunks denied undetermined skipped pre) withheld d unlinked first in
  (caveatLines (input disclose) = [] <->
     undetermined = [] /\ skipped = 0%nat /\ (from_option snd 0%nat unlinked = 0%nat) /\
     (disclose = true -> withheld = 0%nat /\ denied = 0%nat)) /\
  let other := mkRenderInput (mkRetrieveOutcome chunks denied' undetermined skipped pre') withheld' false unlinked first in
  render (input false) = render other /\ sources (input false) = sources other /\
  caveatLines (input false) = caveatLines other.
Proof.
  intros input. split; [|by split_and!].
  unfold caveatLines. cbn [input ri_outcome ri_withheld ri_disclose ri_unlinked ro_denied ro_undetermined ro_skippedCorpora].
  rewrite !app_nil, !caveat_line_none, !andb_false_iff, !Nat.ltb_ge, !Nat.le_0_r.
  assert (match unlinked with
          | Some (providers, sources) => if (0 <? sources)%nat then [caveat_unlinked providers sources] else []
          | None => []
          end = [] <-> from_option snd 0%nat unlinked = 0%nat) as ->.
  { destruct unlinked as [[ps n]|]; [|done]. by rewrite caveat_line_none, Nat.ltb_ge, Nat.le_0_r. }
  rewrite length_zero_iff_nil. destruct disclose; naive_solver.
Qed.

(** Every way a search stops short, before any store is opened or any
    question asked: without an execution spec it throws; another operation, an
    unknown caller and a knowledge base closed to the caller are answered
    without touching the world; no linked account is an ask that names what to
    link; a failed credential lookup is a failure, not an ask. *)
Theorem search_refuses {W : Type}
    (openCorpus : string -> SM W ProbeError (option (CorpusStore W))) (credentials : DelegatedCredentialResolver W)
    (http : FetchRequest -> SM W string FetchResponse) (status_text : Z -> string) (brokerUrl brokerToken : string)
    (limit : option number) (tool : ToolDescriptor) (caller : Caller) (query : string) (firstIndex : Z) (w : W) :
  let run := search openCorpus credentials http status_text brokerUrl brokerToken limit tool query caller firstIndex w in
  match td_knowledgeBaseExec tool with
  | None => exists m, run = (Err (ProbeOther m), w)
  | Some exec =>
      let '(visible, withheld) := visibleMembers (ex_members exec) (caller_roles caller) in
      (ex_operation exec <> op_search \/ caller_subject caller = EmptyString ->
         exists text, run = (Ok (mkSearchResult text false None None None), w)) /\
      (ex_operation exec = op_search -> caller_subject caller <> EmptyString ->
         (visible = [] -> withheld = length (ex_members exec) /\
            exists text caveats, run = (Ok (mkSearchResult text false None None (Some caveats)), w) /\
              (ex_disclosePartialVisibility exec = true -> withheld <> 0%nat -> caveats = [caveat_withheld withheld])) /\
         (visible <> [] ->
            match delegatedTokens credentials (caller_subject caller) (providersOf visible) w with
            | (Err e, w') => run = (Err e, w')
            | (Ok [], w') => run = (Ok (needsLinkAsk (ex_displayName exec) (providersOf visible)), w')
            | _ => True
            end))
  end.
Proof.
  intros run. subst run. unfold search. destruct (td_knowledgeBaseExec tool) as [exec|]; [|by eexists].
  destruct (visibleMembers _ _) as [visible withheld] eqn:Hvis. split.
  - intros Hcase. destruct (decide (ex_operation exec = op_search)) as [Hop|Hop].
    + rewrite bool_decide_true by done. destruct Hcase as [|Hs]; [done|]. rewrite Hs. by eexists.
    + rewrite bool_decide_false by done. by eexists.
  - intros Hop Hs. rewrite bool_decide_true by done. cbn [negb].
    destruct (str_empty _) eqn:E; [by apply str_empty_true in E|]. split.
    + intros ->. rewrite visibleMembers_eq in Hvis. injection Hvis as Hv <-. split.
      * clear -Hv. induction (ex_members exec) as [|m ms IH]; [done|]. cbn [List.filter] in Hv |- *.
        destruct (member_visible _ m); [done|]. cbn. by rewrite IH.
      * eexists _, _. split; [reflexivity|]. intros Hd Hn. unfold caveatLines.
        cbn [ri_outcome ri_withheld ri_disclose ri_unlinked ro_denied ro_undetermined ro_skippedCorpora]. rewrite Hd.
        destruct (Nat.ltb_spec 0 (length (List.filter (fun m => negb (member_visible (caller_roles caller) m)) (ex_members exec))));
          [done|lia].
    + intros Hv. destruct visible as [|v vs]; [done|].
      unfold sbind. destruct (delegatedTokens _ _ _ w) as [[[|t ts]|e] w1]; [|done|done].
      assert (forall l, List.filter (fun p => negb (linked [] p)) l = l) as Hall
        by (intros l; induction l as [|p l IH]; [done|]; cbn; by rewrite IH).
      unfold providersToLink, providersOf. by rewrite Hall.
Qed.

(** The check the graph makes before a turn agrees with the search. With
    the same credentials, every provider a search asks the caller to link is
    one that the check named; and when the check found a linked account, the
    search never stops to ask. *)
Theorem checkLinks_covers_search {W : Type}
    (openCorpus : string -> SM W ProbeError (option (CorpusStore W))) (credentials : DelegatedCredentialResolver W)
    (http : FetchRequest -> SM W string FetchResponse) (status_text : Z -> string) (brokerUrl brokerToken : string)
    (limit : option number) (tool : ToolDescriptor) (caller : Caller) (query : string) (firstIndex : Z)
    (tokens : jsmap DelegatedCredential) (w1 w1' w2 w2' : W) (check : LinkCheck) (res : SearchResult) :
  (forall providers w, (delegatedTokens credentials (caller_subject caller) providers w).1 = Ok tokens) ->
  map_get EmptyString tokens = None ->
  checkLinks credentials tool caller w1 = (Ok check, w1') ->
  search openCorpus credentials http status_text brokerUrl brokerToken limit tool query caller firstIndex w2 = (Ok res, w2') ->
  (forall p, p ∈ sr_linkProviders res ?? [] -> p ∈ lc_linkProviders check) /\
  (lc_linkedProviders check <> [] -> sr_needsLink res = false).
Proof.
  intros Htokens Hempty Hcheck Hrun. unfold checkLinks in Hcheck. unfold search in Hrun.
  destruct (td_knowledgeBaseExec tool) as [exec|]; [|done].
  destruct (negb _); [by injection Hrun as <- _; split; [intros p []%elem_of_nil|]|]. cbn [orb] in Hcheck.
  destruct (str_empty _); [by injection Hrun as <- _; split; [intros p []%elem_of_nil|]|].
  destruct (visibleMembers _ _) as [[|v vs] withheld]; [by injection Hrun as <- _; split; [intros p []%elem_of_nil|]|].
  apply sbind_Ok in Hcheck as (tokens' & wa & Ht & [= <- _]). pose proof (Htokens (providersOf (v :: vs)) w1) as E. rewrite Ht in E.
  injection E as ->. apply sbind_Ok in Hrun as (tokens' & wb & Ht' & Hrun). pose proof (Htokens (providersOf (v :: vs)) w2) as E.
  rewrite Ht' in E. injection E as ->. cbn [lc_linkProviders lc_linkedProviders].
  destruct tokens as [|t ts].
  { injection Hrun as <- _. cbn [needsLinkAsk sr_linkProviders sr_needsLink nullish]. split; [done|]. intros H. destruct H.
    destruct (linkedProviders (v :: vs) []) as [|p ps] eqn:E; [done|]. assert (p ∈ linkedProviders (v :: vs) []) as Hp
      by (rewrite E; left). by apply linkedProviders_elem in Hp as [Hl _]. }
  set (tokens := t :: ts) in *. unfold search_linked in Hrun. cbv zeta in Hrun.
  pose proof (split_members_ok tokens (v :: vs)) as Hok.
  assert (lc_linkedProviders (mkLinkCheck [] (linkedProviders (v :: vs) tokens)) <> [] ->
          sv_servable (split_members tokens (v :: vs)) <> []) as Hserv.
  { cbn [lc_linkedProviders]. destruct (linkedProviders (v :: vs) tokens) as [|p ps] eqn:E; [done|]. intros _.
    assert (p ∈ linkedProviders (v :: vs) tokens) as (Hl & m & Hm & Hp)%linkedProviders_elem by (rewrite E; left).
    pose proof (split_members_linked tokens _ m p Hm Hp Hl Hempty) as Hin. intros Hnil. rewrite Hnil in Hin. by apply elem_of_nil in Hin. }
  destruct (sv_servable (split_members tokens (v :: vs))) as [|m ms].
  { injection Hrun as <- _. split; [done|]. intros H. by destruct (Hserv H). }
  apply sbind_Ok in Hrun as (opened & wc & _ & Hrun). apply sbind_Ok in Hrun as (outcome & wd & _ & [= <- _]).
  cbn [search_result sr_linkProviders sr_needsLink]. split; [|done]. intros p Hp.
  assert (p ∈ providersToLink (sv_notLinked (split_members tokens (v :: vs))) tokens) as Hp'
    by (revert Hp; destruct (0 <? _)%nat; cbn; [done|by intros []%elem_of_nil]).
  apply providersToLink_elem in Hp' as (Hn & x & Hx & Hpx). apply providersToLink_elem. split; [done|].
  exists x. split; [by eapply unlinked_member|done].
Qed.

(** The resolver returns the accounts the caller has linked, all of them
    and no other, each with its own token, whatever the identity lookups do;
    and a lookup that failed fails the resolution: "could not find out" is
    never reported as "not linked". *)
Theorem delegatedTokens_exact {W : Type} (links : IdentityLinkPort W) (subject : string) (providers : list string)
    (ans : string -> result ProbeError (option string)) (w : W) :
  (forall p w, (getToken links p subject w).1 = ans p) ->
  let run := (delegatedTokens (LinkedCredentials links) subject providers w).1 in
  match mapM_result ans providers with
  | Err e => run = Err e
  | Ok _ => exists m, run = Ok m /\
      forall p t, (exists c, map_get p m = Some c /\ dc_token c = t) <-> p ∈ providers /\ ans p = Ok (Some t) /\ t <> EmptyString
  end.
Proof.
  intros Hans. cbn [LinkedCredentials delegatedTokens]. unfold all_linked.
  assert (forall acc w, let run := (sfold (resolve_step links subject) acc providers w).1 in
    match mapM_result ans providers with
    | Err e => run = Err e
    | Ok _ => exists m, run = Ok m /\
        forall p t, (exists c, map_get p m = Some c /\ dc_token c = t) <->
          p ∈ providers /\ ans p = Ok (Some t) /\ t <> EmptyString \/
          (p ∈ providers -> ans p = Ok None \/ ans p = Ok (Some EmptyString)) /\ (exists c, map_get p acc = Some c /\ dc_token c = t)
    end) as Hgen.
  2:{ specialize (Hgen [] w). cbv zeta in Hgen. destruct (mapM_result ans providers); [|done].
      destruct Hgen as (m & -> & Hm). exists m. split; [done|]. intros p t. rewrite Hm. cbn. naive_solver. }
  clear w. induction providers as [|q ps IH]; intros acc w; cbv zeta.
  { cbn. exists acc. split; [done|]. intros p t. rewrite elem_of_nil. naive_solver. }
  rewrite resolve_loop. cbn [mapM_result].
  pose proof (resolveOne_token links q subject w) as Hone. pose proof (Hans q w) as Hq.
  destruct (getToken links q subject w) as [[t|e] w1]; cbn in Hq; rewrite <- Hq; cbn [result_bind].
  2:{ destruct (resolveOne links q subject w) as [r w2]. cbn in Hone. by subst r. }
  destruct Hone as (c & Hc & Htok). destruct (resolveOne links q subject w) as [r w2]. cbn in Hc. subst r.
  assert (exists acc', (match c with Some c => map_set q c acc | None => acc end) = acc' /\ forall p s, (exists c, map_get p acc' = Some c /\ dc_token c = s) <->
      p = q /\ t = Some s /\ s <> EmptyString \/ (p = q -> t = None \/ t = Some EmptyString) /\ (exists c, map_get p acc = Some c /\ dc_token c = s))
    as (acc' & -> & Hacc).
  { destruct c as [c|]; cbn in Htok.
    - destruct t as [t|]; [|done]. cbn [truthy_str] in Htok. destruct (str_empty t) eqn:E; [done|]. cbn [negb] in Htok.
      injection Htok as Htok. assert (t <> EmptyString) as Hne by (intros ->; done).
      exists (map_set q c acc). split; [done|]. intros p s. destruct (decide (p = q)) as [->|Hpq].
      + rewrite map_get_set_eq. naive_solver.
      + rewrite map_get_set_ne by done. naive_solver.
    - exists acc. split; [done|]. intros p s. destruct t as [t|]; [|naive_solver]. cbn [truthy_str] in Htok.
      destruct (str_empty t) eqn:E; [|done]. apply str_empty_true in E as ->. naive_solver. }
  specialize (IH acc' w2). cbv zeta in IH. destruct (mapM_result ans ps); cbn [result_bind]; [|done].
  destruct IH as (m & Hm & HIH). exists m. split; [done|]. intros p s. rewrite HIH, Hacc, elem_of_cons.
  clear -Hq. generalize (exists c, map_get p acc = Some c /\ dc_token c = s). intros old.
  destruct (decide (p = q)) as [->|Hpq]; [rewrite <- Hq|clear Hq; intuition congruence].
  destruct t as [t|]; [destruct (decide (t = EmptyString)) as [->|]|]; destruct (decide (q ∈ ps)); intuition congruence.
Qed.

(** ** A knowledge base of two providers *)

Definition wiki_member : KnowledgeBaseExecMember :=
  mkExecMember "wiki" "Wiki" "corpus_wiki" ["staff"] (Some g_resource) (Some ["atlassian"]).
Definition drive_member : KnowledgeBaseExecMember :=
  mkExecMember "drive" "Drive" "corpus_drive" ["staff"] (Some g_resource) (Some ["google"]).

Definition two_sources : ToolDescriptor :=
  mkToolDescriptor "kb:eng/search" "Search" "" ["staff"] false
    (Some (mkExecSpec "eng" "Engineering" op_search [wiki_member; drive_member] true)).

Definition staff : Caller := mkCaller "alice" ["staff"].

(** The world is the log of the requests the broker gets; it lets the holder of
    [tok-atlassian] read the wiki and of [tok-google] the drive. *)
Definition two_http (rq : FetchRequest) : SM (list FetchRequest) string FetchResponse := fun log =>
  let token := own_get "x-delegated-token" (fq_headers rq) in
  let answer := JObj [("allowed", JBool true); ("title", JStr "Launch plan"); ("url", JStr "https://live/plan")] in
  if bool_decide (fq_url rq = "http://broker/corpora/wiki/probe" /\ token = Some "tok-atlassian") ||
     bool_decide (fq_url rq = "http://broker/corpora/drive/probe" /\ token = Some "tok-google")
  then (Ok (mkFetchResponse 200 (Ok answer) (Ok "")), log ++ [rq])
  else (Ok (mkFetchResponse 403 (Ok JNull) (Ok "")), log ++ [rq]).

(** The caller's tokens; the identity of the Atlassian account cannot be looked
    up just now, that of the Google account is [g-7]. *)
Definition some_links (linked_providers : list string) (identity : string -> result ProbeError (option string)) :
    IdentityLinkPort (list FetchRequest) :=
  mkLinks (fun p _ log => (Ok (if has linked_providers p then Some ("tok-" +:+ p) else None), log))
    (Some (fun p _ log => (identity p, log))) None.

Definition identity_outage (p : string) : result ProbeError (option string) :=
  if bool_decide (p = "google") then Ok (Some "g-7") else Err (ProbeOther "503").
Definition no_identity (p : string) : result ProbeError (option string) := Err (ProbeOther "503").

(** One passage of the wiki, whose access list names the caller's own Atlassian
    account. *)
Definition wiki_passage : CorpusSearchResult :=
  sample_hit "wiki" "p1" "h1" "The launch is in May." (num_of_Z 1) (Some ["user:acc-1"]).
Definition two_stores (collection : string) : SM (list FetchRequest) ProbeError (option (CorpusStore (list FetchRequest))) :=
  sret (Some (fixed_store (if bool_decide (collection = "corpus_wiki") then [wiki_passage] else []))).

Definition two_search (linked_providers : list string) (identity : string -> result ProbeError (option string)) :
    SM (list FetchRequest) ProbeError SearchResult :=
  search two_stores (LinkedCredentials (some_links linked_providers identity)) two_http (fun _ => "403") "http://broker" "orch"
    None two_sources "when is the launch" staff 1.

Definition links_both (identity : string -> result ProbeError (option string)) : DelegatedCredentialResolver (list FetchRequest) :=
  LinkedCredentials (some_links ["atlassian"; "google"] identity).

Definition out_of (r : result ProbeError SearchResult) : SearchResult :=
  match r with
  | Ok res => res
  | Err _ => mkSearchResult EmptyString false None None None
  end.

(** Knowing the caller's identity at one provider hides what they may read
    at another. The access lists of all providers are filtered with one set of
    principals, so where the identity lookup fails for one provider only, its
    "user" lists count as covered by the other provider's identity: the
    caller's own passage is dropped before the source is asked, and the answer
    says neither that it exists nor that anything was left out; with no
    identity known at all the same search returns it. *)
Theorem partial_principals_hide :
  let partial := (two_search ["atlassian"; "google"] identity_outage []).1 in
  let none := (two_search ["atlassian"; "google"] no_identity []).1 in
  (exists res, partial = Ok res /\ sr_sources res = Some [] /\ sr_caveats res = Some []) /\
  (exists res, none = Ok res /\ sr_sources res = Some [mkCitedSource 1 "Launch plan" "https://live/plan"]).
Proof. split; eexists; (split; [by vm_compute|by vm_compute]). Qed.

(** ** Witnesses *)

Definition tokens_of (p : string) (c : DelegatedCredential) : Prop := dc_token c = "tok-" +:+ p.

Lemma sample_quiet (I : list FetchRequest -> Prop) :
  quiet I two_stores (links_both no_identity) [wiki_member; drive_member] staff tokens_of.
Proof.
  assert (forall p log, exists c, resolveOne (some_links ["atlassian"; "google"] no_identity) p "alice" log = (Ok c, log) /\
            forall x, c = Some x -> tokens_of p x) as Hone.
  { intros p log. unfold resolveOne, sbind, principals, scatch. cbn [some_links getToken getLinkedAccountId optional_call].
    destruct (has ["atlassian"; "google"] p); [|by exists None]. cbn. eexists. split; [reflexivity|]. by intros x [= <-]. }
  assert (forall ps acc log, exists m, sfold (resolve_step (some_links ["atlassian"; "google"] no_identity) "alice") acc ps log = (Ok m, log) /\
            ((forall p c, map_get p acc = Some c -> tokens_of p c) -> forall p c, map_get p m = Some c -> tokens_of p c)) as Hall.
  { intros ps. induction ps as [|p ps IH]; intros acc log; [by exists acc|]. rewrite resolve_loop.
    destruct (Hone p log) as (c & -> & Hc). destruct (IH (match c with Some c => map_set p c acc | None => acc end) log) as (m & Hm & Hok).
    exists m. split; [exact Hm|]. intros Hacc. apply Hok. destruct c as [c|]; [|done]. intros p' c'.
    destruct (decide (p' = p)) as [->|Hne]; [rewrite map_get_set_eq; intros [= <-]; by apply Hc|].
    rewrite map_get_set_ne by done. apply Hacc. }
  split.
  - intros ps log HI. cbn. unfold all_linked. destruct (Hall ps [] log) as (m & -> & _). done.
  - intros ps log m log' Hrun. cbn in Hrun. unfold all_linked in Hrun. destruct (Hall ps [] log) as (m' & Hm & Hok).
    rewrite Hm in Hrun. injection Hrun as <- _. by apply Hok.
  - intros m _ _ log HI. done.
  - intros m _ _ log st log' [= <- _] s q k [= <-] w Hw. done.
Qed.

Lemma search_asks_as_caller_witness :
  Forall (own_probe "http://broker" "orch" tokens_of [wiki_member; drive_member] ["staff"])
    (two_search ["atlassian"; "google"] no_identity []).2 /\
  length (two_search ["atlassian"; "google"] no_identity []).2 = 1%nat.
Proof.
  split; [|by vm_compute].
  apply (search_asks_as_caller (Forall (own_probe "http://broker" "orch" tokens_of [wiki_member; drive_member] ["staff"]))
    two_stores (links_both no_identity) two_http (fun _ => "403") "http://broker" "orch" None tokens_of two_sources staff
    "when is the launch" 1); [apply sample_quiet| |by constructor].
  intros rq Hrq log Hlog. unfold two_http. destruct (_ || _); cbn [snd]; apply Forall_app; (split; [exact Hlog|by constructor]).
Defined.

Lemma search_cites_confirmed_witness :
  forall s, s ∈ [mkCitedSource 1 "Launch plan" "https://live/plan"] -> exists r : ProbeResult,
    probe_allowed r = true /\ cs_url s = probe_url r.
Proof.
  intros s Hs.
  destruct (search_cites_confirmed two_stores (links_both no_identity) two_http (fun _ => "403") "http://broker" "orch" None
    two_sources staff "when is the launch" 1 [] (two_search ["atlassian"; "google"] no_identity []).2
    (out_of (two_search ["atlassian"; "google"] no_identity []).1) [mkCitedSource 1 "Launch plan" "https://live/plan"])
    with (s := s) as (prober & hit & r & w1 & w2 & _ & Hal & _ & Hurl & _); [by vm_compute| |by vm_compute|exact Hs|by exists r].
  intros c wa st wb qq k wc hs wd [= <- _] [= <- _]. destruct (bool_decide _); by repeat constructor.
Defined.

Lemma checkLinks_covers_search_witness :
  "google" ∈ ["google"] /\ sr_needsLink (out_of (two_search ["atlassian"] no_identity []).1) = false.
Proof.
  pose (creds := mkResolver (fun _ _ => sret None)
    (fun _ _ => sret [("atlassian", mkDelegatedCredential "tok-atlassian" None)]) : DelegatedCredentialResolver (list FetchRequest)).
  destruct (checkLinks_covers_search two_stores creds two_http (fun _ => "403") "http://broker" "orch" None two_sources staff
    "when is the launch" 1 [("atlassian", mkDelegatedCredential "tok-atlassian" None)] [] []
    [] (two_search ["atlassian"] no_identity []).2 (mkLinkCheck ["google"] ["atlassian"])
    (out_of (two_search ["atlassian"] no_identity []).1)) as [H1 H2];
    [done|done|by vm_compute|by vm_compute|split; [apply (H1 "google"); vm_compute; left|by apply H2]].
Defined.

Lemma delegatedTokens_exact_witness :
  exists m, (delegatedTokens (links_both identity_outage) "alice" ["atlassian"; "github"] []).1 = Ok m /\
    (exists c, map_get "atlassian" m = Some c /\ dc_token c = "tok-atlassian") /\
    ~ (exists c, map_get "github" m = Some c /\ dc_token c = "tok-github").
Proof.
  destruct (delegatedTokens_exact (some_links ["atlassian"; "google"] identity_outage) "alice" ["atlassian"; "github"]
    (fun p => Ok (if has ["atlassian"; "google"] p then Some ("tok-" +:+ p) else None)) []) as (m & Hm & H); [done|].
  exists m. split; [exact Hm|]. split.
  - apply H. split_and!; [set_solver|by vm_compute|done].
  - intros (_ & Hbad & _)%H. by vm_compute in Hbad.
Defined.
