(* ===== verification/KbQuery.v ===== *)
(** * Agent orchestrator: what the planner asks of the sources

    [parsePlannerQuery] (apps/agent-orchestrator/src/knowledge-base/query.ts),
    which reads and validates the planner's text, and [mergeResults], which
    puts the sources' answers into one list. *)

From stdpp Require Import base gmap strings list sorting.
From Stdlib Require Import ZArith Lia Ascii.
From S2P Require Import Prelude JsString JsNumber Json JsMap EventValues JsList Chunk Driver Query HttpSource.
From S2P Require Import KnowledgeBase KbProbe KbSearch.

#[local] Open Scope Z_scope.

(** ** Data *)

Definition DEFAULT_LIMIT : Z := 10.
Definition MAX_LIMIT : Z := 25.

(** A [PlannerQuery] is the object [JSON.parse] built, its own properties in
    order. *)
Definition PlannerQuery : Type := list (string * json).

Definition FIELDS : list string := ["source"; "text"; "title"; "author"; "after"; "before"; "type"; "sort"; "limit"].

(** [q.k] where the property is declared a string. *)
Definition str_prop (k : string) (q : PlannerQuery) : option string :=
  match jget k q with
  | Some (JStr s) => Some s
  | _ => None
  end.

Definition sort_prop (q : PlannerQuery) : option string := str_prop "sort" q.

Definition limit_prop (q : PlannerQuery) : option number :=
  match jget "limit" q with
  | Some (JNum x) => Some x
  | _ => None
  end.

Record BrokerItem := mkBrokerItem {
  bi_id : string;
  bi_title : option string;
  bi_url : option string;
  bi_updatedAt : option string;
  bi_excerpt : option string
}.

Record Item := mkItem {
  it_item : BrokerItem;
  it_member : string;
  it_corpus : string
}.

(** ** Dates *)

Definition digit_of (z : Z) : ascii := ascii_of_N (Z.to_N (48 + z mod 10)).
Definition pad2 (z : Z) : string := String (digit_of (z / 10)) (String (digit_of z) EmptyString).
Definition pad4 (z : Z) : string := pad2 (z / 100) +:+ pad2 z.

(** The date of [toISOString], for the years 0 to 9999. *)
Definition iso_date (day : Z) : string :=
  pad4 (getUTCFullYear day) +:+ "-" +:+ pad2 (getUTCMonth day + 1) +:+ "-" +:+ pad2 (getUTCDate day).

(** [new Date(`${s}T00:00:00Z`)]: the day, [None] for [NaN]. A day past the end
    of its month carries into the next, as V8 has it; an engine that refuses it
    instead gives the same answer below. *)
Definition date_of_iso (y m d : Z) : option Z :=
  if (1 <=? m) && (m <=? 12) && (1 <=? d) && (d <=? 31) then Some (MakeDay y (m - 1) d) else None.

Definition isDate (s : string) : bool :=
  match date_parts s with
  | None => false
  | Some (y, m, d) =>
      match date_of_iso y m d with
      | None => false
      | Some day => startsWith s (iso_date day +:+ "T00:00:00.000Z")
      end
  end.

(** ** Reading the planner's text *)

Definition quoted (s : string) : string := String dquote s +:+ String dquote EmptyString.

Definition unusable (why : string) : string :=
  "That query is not usable (" +:+ why +:+ "). Send a JSON object with any of: " +:+
  "source, text, title, author, after, before, type, sort, limit.".

(** The body of the loop over [Object.entries(value)]: the problem, if any. *)
Definition field_problem (entry : string * json) : option string :=
  let '(key, field) := entry in
  if negb (has FIELDS key) then Some (unusable ("unknown field " +:+ quoted key))
  else
    let typed := match field with
                 | JNum _ => bool_decide (key = "limit")
                 | JStr _ => negb (bool_decide (key = "limit"))
                 | _ => false
                 end in
    if typed then None else Some (unusable (quoted key +:+ " has the wrong type")).

Fixpoint first_problem (entries : list (string * json)) : option string :=
  match entries with
  | [] => None
  | e :: rest => match field_problem e with
                 | Some p => Some p
                 | None => first_problem rest
                 end
  end.

Definition date_problem (name : string) (q : PlannerQuery) : option string :=
  match str_prop name q with
  | Some date =>
      if negb (str_empty date) && negb (isDate date)
      then Some (quoted date +:+ " is not a date for " +:+ quoted name +:+ "; use YYYY-MM-DD.") else None
  | None => None
  end.

Section Parse.
(** [JSON.parse], with the text of what it throws. *)
Variable JSON_parse : string -> result string json.

Definition read_fields (raw : string) : result string PlannerQuery :=
  let trimmed := trim raw in
  if startsWith "{" trimmed then
    match JSON_parse trimmed with
    | Err cause => Err (unusable cause)
    | Ok (JObj fields) => match first_problem fields with
                          | Some p => Err p
                          | None => Ok fields
                          end
    | Ok _ => Err (unusable "not an object")
    end
  else if negb (str_empty trimmed) then Ok [("text", JStr trimmed)] else Ok [].

(** [q.text ? .. : ..] *)
Definition has_text (q : PlannerQuery) : bool := truthy_str (str_prop "text" q).

Definition default_sort (q : PlannerQuery) : result string PlannerQuery :=
  match sort_prop q with
  | None => Ok (map_set "sort" (JStr (if has_text q then "relevance" else "newest")) q)
  | Some sort =>
      if str_empty sort then Ok (map_set "sort" (JStr (if has_text q then "relevance" else "newest")) q)
      else if negb (has ["relevance"; "newest"; "oldest"] sort)
      then Err (quoted sort +:+ " is not a sort; use newest, oldest or relevance.")
      else if bool_decide (sort = "relevance") && negb (has_text q) then Ok (map_set "sort" (JStr "newest") q)
      else Ok q
  end.

(** [x < 0] and [!x] of a number. *)
Definition num_negative (x : number) : bool := num_ltb x (num_of_Z 0).
Definition num_falsy (x : number) : bool :=
  match x with
  | NaN => true
  | _ => num_eqb x (num_of_Z 0)
  end.

Definition default_limit (q : PlannerQuery) : result string PlannerQuery :=
  match limit_prop q with
  | None => Ok (map_set "limit" (JNum (num_of_Z DEFAULT_LIMIT)) q)
  | Some x =>
      if num_negative x then Err "limit must be positive."
      else Ok (map_set "limit" (JNum (if num_falsy x then num_of_Z DEFAULT_LIMIT else num_min x MAX_LIMIT)) q)
  end.

Definition parsePlannerQuery (raw : string) : result string PlannerQuery :=
  let? q := read_fields raw in
  match date_problem "after" q, date_problem "before" q with
  | Some p, _ => Err p
  | None, Some p => Err p
  | None, None => let? q := default_sort q in default_limit q
  end.
End Parse.

(** [const { source = "", ...filter } = parsed.query] *)
Definition source_of (q : PlannerQuery) : string := str_prop "source" q ?? EmptyString.
Definition filter_of (q : PlannerQuery) : PlannerQuery := List.filter (fun e => negb (bool_decide (e.1 = "source"))) q.

(** ** Merging the sources' answers *)

(** The [for] loop of the interleaving, from [i] on. *)
Fixpoint interleave (fuel i : nat) (perSource : list (list Item)) : list Item :=
  match fuel with
  | O => []
  | S fuel' =>
      if existsb (fun items => (i <? length items)%nat) perSource
      then omap (fun items => items !! i) perSource ++ interleave fuel' (S i) perSource
      else []
  end.

Section Merge.
(** [Date.parse] in milliseconds, [None] for [NaN]. *)
Variable Date_parse : string -> option Z.

Definition time (item : Item) : option Z :=
  if truthy_str (bi_updatedAt (it_item item)) then Date_parse (bi_updatedAt (it_item item) ?? EmptyString) else None.

(** The comparator is negative: undated items go last. *)
Definition sooner (sort : string) (a b : Item) : bool :=
  match time a, time b with
  | Some ta, Some tb => if bool_decide (sort = "oldest") then ta <? tb else tb <? ta
  | Some _, None => true
  | None, _ => false
  end.

Definition merged (perSource : list (list Item)) (sort : string) : list Item :=
  if bool_decide (sort = "relevance") then interleave (S (length (mjoin perSource))) 0 perSource
  else sort_by (sooner sort) (mjoin perSource).

Definition mergeResults (perSource : list (list Item)) (sort : string) (limit : number) : list Item :=
  slice0 limit (merged perSource sort).
End Merge.

(** ** Naming a source *)

Definition normalize (s : string) : string :=
  let t := toLowerCase (trim s) in
  match t with
  | String c rest => if Ascii.eqb c "#"%char then rest else t
  | EmptyString => EmptyString
  end.

Definition membersNamed (members : list KnowledgeBaseExecMember) (name : string) : option (list KnowledgeBaseExecMember) :=
  let want := normalize name in
  if str_empty want then Some members
  else match List.find (fun m => bool_decide (normalize (em_id m) = want) || bool_decide (normalize (em_label m) = want)) members with
       | Some m => Some [m]
       | None => None
       end.

(** ** Lemmas: dates *)

Lemma digit_of_value z : digit_value (digit_of z) = z mod 10 /\ is_digit (digit_of z) = true.
Proof.
  assert (0 <= z mod 10 < 10) as Hz by (apply Z.mod_pos_bound; lia). unfold digit_of, digit_value, is_digit, in_range, code.
  rewrite N_ascii_embedding by lia. rewrite Z2N.id by lia. split; [lia|].
  apply andb_true_iff. rewrite !N.leb_le. lia.
Qed.

Lemma digit_of_eq c z : is_digit c = true -> z mod 10 = digit_value c -> digit_of z = c.
Proof.
  intros Hc Hz. unfold digit_of. rewrite Hz. unfold digit_value, is_digit, in_range in *. to_prop.
  replace (48 + (Z.of_N (code c) - 48)) with (Z.of_N (code c)) by lia. rewrite N2Z.id. apply ascii_N_embedding.
Qed.

Lemma pad2_spec z : all_digits (pad2 z) = true /\ slen (pad2 z) = 2%nat /\ digits_value (pad2 z) = z mod 100.
Proof.
  unfold pad2, all_digits, digits_value. cbn [str_forall digits_value_acc String.length].
  destruct (digit_of_value (z / 10)) as [E1 ->], (digit_of_value z) as [E2 ->]. split_and!; [done..|].
  rewrite E1, E2. Z.div_mod_to_equations. lia.
Qed.

Lemma pad4_spec z : all_digits (pad4 z) = true /\ slen (pad4 z) = 4%nat /\ digits_value (pad4 z) = z mod 10000.
Proof.
  unfold pad4, pad2, all_digits, digits_value. cbn [String.append str_forall digits_value_acc String.length].
  destruct (digit_of_value (z / 100 / 10)) as [E1 ->], (digit_of_value (z / 100)) as [E2 ->], (digit_of_value (z / 10)) as [E3 ->],
    (digit_of_value z) as [E4 ->]. split_and!; [done..|]. rewrite E1, E2, E3, E4. Z.div_mod_to_equations. lia.
Qed.

Lemma pad2_digits s : all_digits s = true -> slen s = 2%nat -> pad2 (digits_value s) = s.
Proof.
  destruct s as [|a [|b [|? ?]]]; try done. unfold all_digits, digits_value. cbn [str_forall digits_value_acc].
  rewrite !andb_true_iff. intros (Ha & Hb & _) _. unfold pad2.
  pose proof (is_digit_value a Ha). pose proof (is_digit_value b Hb).
  f_equal; [|f_equal]; apply digit_of_eq; try done; Z.div_mod_to_equations; lia.
Qed.

Lemma pad4_digits s : all_digits s = true -> slen s = 4%nat -> pad4 (digits_value s) = s.
Proof.
  destruct s as [|a [|b [|c [|d [|? ?]]]]]; try done. unfold all_digits, digits_value. cbn [str_forall digits_value_acc].
  rewrite !andb_true_iff. intros (Ha & Hb & Hc & Hd & _) _. unfold pad4, pad2. cbn [String.append].
  pose proof (is_digit_value a Ha). pose proof (is_digit_value b Hb). pose proof (is_digit_value c Hc). pose proof (is_digit_value d Hd).
  f_equal; [|f_equal; [|f_equal; [|f_equal]]]; apply digit_of_eq; try done; Z.div_mod_to_equations; lia.
Qed.

Lemma digits_no_dash s : all_digits s = true -> str_forall (fun d => negb (Ascii.eqb "-"%char d)) s = true.
Proof. apply str_forall_impl. intros c Hc. destruct (Ascii.eqb_spec "-"%char c) as [<-|]; [by vm_compute in Hc|done]. Qed.

(** A date string is its three numbers, padded. *)
Lemma date_parts_padded s y m d :
  date_parts s = Some (y, m, d) <->
  s = pad4 y +:+ "-" +:+ pad2 m +:+ "-" +:+ pad2 d /\ 0 <= y < 10000 /\ 0 <= m < 100 /\ 0 <= d < 100.
Proof.
  split.
  - unfold date_parts. intros H. rewrite <- (join_split_char "-"%char s).
    destruct (split_char "-"%char s) as [|a [|b [|c [|? ?]]]]; try done.
    destruct (_ && _ && _) eqn:E; [|done]. injection H as <- <- <-. to_prop.
    rewrite Nat.eqb_eq in *. cbn [join]. rewrite pad4_digits, !pad2_digits by done. split; [done|].
    pose proof (pad4_spec (digits_value a)) as (_ & _ & E1). pose proof (pad2_spec (digits_value b)) as (_ & _ & E2).
    pose proof (pad2_spec (digits_value c)) as (_ & _ & E3). rewrite pad4_digits in E1 by done. rewrite pad2_digits in E2 by done.
    rewrite pad2_digits in E3 by done. Z.div_mod_to_equations. lia.
  - intros (-> & Hy & Hm & Hd). unfold date_parts.
    destruct (pad4_spec y) as (A1 & A2 & A3), (pad2_spec m) as (B1 & B2 & B3), (pad2_spec d) as (C1 & C2 & C3).
    change (pad4 y +:+ "-" +:+ pad2 m +:+ "-" +:+ pad2 d)
      with (pad4 y +:+ String "-" (pad2 m +:+ String "-" (pad2 d))).
    rewrite split_char_app_sep by by apply digits_no_dash. rewrite split_char_app_sep by by apply digits_no_dash.
    rewrite split_char_nosep by by apply digits_no_dash. rewrite A1, B1, C1, A2, B2, C2, A3, B3, C3. cbn [Nat.eqb andb].
    by rewrite !Z.mod_small by lia.
Qed.

Lemma prefix_exact s t u : slen s = slen t -> startsWith s (t +:+ u) = bool_decide (s = t).
Proof.
  unfold startsWith. revert t. induction s as [|c s IH]; intros [|d t] H; try done; [by destruct u|].
  cbn [String.append String.prefix]. destruct (ascii_dec c d) as [->|Hne].
  - rewrite IH by (cbn in H; lia). apply bool_decide_ext. naive_solver.
  - symmetry. apply bool_decide_eq_false. naive_solver.
Qed.

Lemma iso_date_parts day : 0 <= getUTCFullYear day < 10000 ->
  date_parts (iso_date day) = Some (getUTCFullYear day, getUTCMonth day + 1, getUTCDate day).
Proof.
  intros Hy. apply date_parts_padded. pose proof (decode_real day) as [Hm Hd].
  assert (days_in_month (getUTCFullYear day) (getUTCMonth day + 1) <= 31) by (unfold days_in_month; repeat case_match; lia).
  split_and!; try lia. done.
Qed.

(** The day after the last of a month belongs to the next month. *)
Lemma MakeDay_year y m d : 1 <= m <= 12 -> 1 <= d <= 31 ->
  y <= getUTCFullYear (MakeDay y (m - 1) d) <= y + 1.
Proof.
  intros Hm Hd. unfold getUTCFullYear. set (day := MakeDay y (m - 1) d). pose proof (YearFromDay_spec day) as Hs.
  assert (DayFromYear y <= day < DayFromYear (y + 2)) as Hb.
  { subst day. unfold MakeDay. rewrite Z.div_small, Z.mod_small, Z.add_0_r by lia.
    assert (0 <= month_start (InLeapYear y) (m - 1) <= 336).
    { assert (0 <= m - 1 <= 11) as Hm' by lia. revert Hm'. generalize (m - 1). intros n Hn. month_cases n Hc.
      destruct (InLeapYear y); repeat destruct Hc as [->|Hc]; subst; simpl; lia. }
    pose proof (InLeapYear_days y). pose proof (InLeapYear_days (y + 1)). replace (y + 1 + 1) with (y + 2) in * by lia.
    destruct (InLeapYear y), (InLeapYear (y + 1)); lia. }
  split.
  - destruct (Z.le_gt_cases y (YearFromDay day)); [done|]. pose proof (DayFromYear_mono (YearFromDay day + 1) y ltac:(lia)). lia.
  - destruct (Z.le_gt_cases (YearFromDay day) (y + 1)); [done|]. pose proof (DayFromYear_mono (y + 2) (YearFromDay day) ltac:(lia)). lia.
Qed.

Lemma iso_date_length day : slen (iso_date day) = 10%nat.
Proof.
  unfold iso_date. rewrite !slen_app. destruct (pad4_spec (getUTCFullYear day)) as (_ & -> & _).
  destruct (pad2_spec (getUTCMonth day + 1)) as (_ & -> & _), (pad2_spec (getUTCDate day)) as (_ & -> & _). done.
Qed.

Lemma isDate_real s : isDate s = true <-> exists y m d, date_parts s = Some (y, m, d) /\ real_date y m d.
Proof.
  unfold isDate. destruct (date_parts s) as [[[y m] d]|] eqn:Hp.
  2:{ split; [done|]. by intros (? & ? & ? & ? & _). }
  pose proof Hp as (Hs & Hy & Hm & Hd)%date_parts_padded.
  assert (slen s = 10%nat) as Hlen.
  { rewrite Hs, !slen_app. destruct (pad4_spec y) as (_ & -> & _), (pad2_spec m) as (_ & -> & _), (pad2_spec d) as (_ & -> & _). done. }
  unfold date_of_iso. split.
  - destruct (_ && _ && _ && _) eqn:E; [|done]. to_prop. rewrite prefix_exact by (by rewrite iso_date_length). intros Heq. to_prop.
    pose proof (MakeDay_year y m d ltac:(lia) ltac:(lia)) as Hyear. set (day := MakeDay y (m - 1) d) in *.
    exists y, m, d. split; [done|].
    assert (pad4 (getUTCFullYear day) = pad4 y /\ pad2 (getUTCMonth day + 1) = pad2 m /\ pad2 (getUTCDate day) = pad2 d) as (E1 & E2 & E3).
    { rewrite Hs in Heq. unfold iso_date in Heq. revert Heq. unfold pad4, pad2. cbn [String.append]. intros [=]. split_and!; congruence. }
    destruct (pad4_spec y) as (_ & _ & A1), (pad4_spec (getUTCFullYear day)) as (_ & _ & A2).
    destruct (pad2_spec m) as (_ & _ & B1), (pad2_spec (getUTCMonth day + 1)) as (_ & _ & B2).
    destruct (pad2_spec d) as (_ & _ & C1), (pad2_spec (getUTCDate day)) as (_ & _ & C2).
    pose proof (decode_real day) as Hr. pose proof Hr as [Hrm Hrd].
    assert (days_in_month (getUTCFullYear day) (getUTCMonth day + 1) <= 31) by (unfold days_in_month; repeat case_match; lia).
    rewrite E1 in A2. rewrite E2 in B2. rewrite E3 in C2. rewrite A1 in A2. rewrite B1 in B2. rewrite C1 in C2.
    rewrite !Z.mod_small in B2 by lia. rewrite !Z.mod_small in C2 by lia.
    assert (getUTCFullYear day = y) as Ey by (Z.div_mod_to_equations; lia). rewrite Ey, <- B2, <- C2 in Hr. exact Hr.
  - intros (y' & m' & d' & [= <- <- <-] & Hr). pose proof Hr as [Hrm Hrd].
    assert (days_in_month y m <= 31) by (unfold days_in_month; repeat case_match; lia).
    destruct (Z.leb_spec 1 m), (Z.leb_spec m 12), (Z.leb_spec 1 d), (Z.leb_spec d 31); try lia. cbn [andb].
    destruct (decode_MakeDay y m d Hr) as (E1 & E2 & E3). rewrite prefix_exact by (by rewrite iso_date_length).
    apply bool_decide_eq_true. unfold iso_date. rewrite E1, E2, E3. by replace (m - 1 + 1) with m by lia.
Qed.

(** ** Lemmas: the object *)

Lemma jget_set k v q : jget k (map_set k v q) = Some v.
Proof. apply map_get_set_eq. Qed.

Lemma jget_set_ne k k' v q : k <> k' -> jget k' (map_set k v q) = jget k' q.
Proof. apply map_get_set_ne. Qed.

(** The type of a planner query: known fields only, each of its type. *)
Definition typed_field (e : string * json) : Prop :=
  e.1 ∈ FIELDS /\ if decide (e.1 = "limit") then exists x, e.2 = JNum x else exists s, e.2 = JStr s.

Definition typed_query (q : PlannerQuery) : Prop := Forall typed_field q.

Lemma field_problem_None e : field_problem e = None <-> typed_field e.
Proof.
  destruct e as [k v]. unfold field_problem, typed_field. cbn [fst snd]. rewrite <- has_true.
  destruct (has FIELDS k); cbn [negb]; [|naive_solver].
  destruct (decide (k = "limit")) as [E|E].
  - rewrite bool_decide_true by done. destruct v; naive_solver.
  - rewrite bool_decide_false by done. destruct v; naive_solver.
Qed.

Lemma first_problem_None q : first_problem q = None <-> typed_query q.
Proof.
  induction q as [|e q IH]; [split; [constructor|done]|]. cbn [first_problem]. unfold typed_query in *. rewrite Forall_cons, <- field_problem_None.
  destruct (field_problem e); naive_solver.
Qed.

Lemma typed_get k q v : typed_query q -> jget k q = Some v ->
  k ∈ FIELDS /\ if decide (k = "limit") then exists x, v = JNum x else exists s, v = JStr s.
Proof.
  intros Ht Hv. apply map_get_elem_weak in Hv. unfold typed_query in Ht. rewrite Forall_forall in Ht.
  exact (Ht _ Hv).
Qed.

Lemma typed_set k v q : typed_query q -> typed_field (k, v) -> typed_query (map_set k v q).
Proof.
  intros Hq Hv. apply Forall_forall. intros e [->|He]%map_set_elem; [done|].
  unfold typed_query in Hq. rewrite Forall_forall in Hq. by apply Hq.
Qed.

Lemma read_fields_typed parse raw q : read_fields parse raw = Ok q -> typed_query q.
Proof.
  unfold read_fields. destruct (startsWith _ _).
  - destruct (parse _) as [[| | | | |fields]|]; try done. destruct (first_problem fields) eqn:E; [done|].
    intros [= <-]. by apply first_problem_None.
  - destruct (negb _); intros [= <-]; [|constructor]. constructor; [|constructor].
    split; [by apply has_true|]. rewrite decide_False by done. by eexists.
Qed.

(** What the two defaults leave. *)
Definition sort_ok (q : PlannerQuery) : Prop :=
  exists s, jget "sort" q = Some (JStr s) /\ s ∈ ["relevance"; "newest"; "oldest"] /\ (s = "relevance" -> has_text q = true).

Lemma default_sort_ok q q' :
  typed_query q -> default_sort q = Ok q' ->
  typed_query q' /\ sort_ok q' /\ (forall k, k <> "sort" -> jget k q' = jget k q).
Proof.
  intros Hq H. unfold default_sort in H.
  assert (forall s, s ∈ ["relevance"; "newest"; "oldest"] -> (s = "relevance" -> has_text q = true) ->
    typed_query (map_set "sort" (JStr s) q) /\ sort_ok (map_set "sort" (JStr s) q) /\
    (forall k, k <> "sort" -> jget k (map_set "sort" (JStr s) q) = jget k q)) as Hset.
  { intros s Hs Ht. split_and!.
    - apply typed_set; [done|]. split; [by apply has_true|]. by exists s.
    - exists s. split; [by apply jget_set|]. split; [done|]. intros E. unfold has_text, str_prop.
      rewrite jget_set_ne by done. by apply Ht.
    - intros k Hk. by apply jget_set_ne. }
  destruct (sort_prop q) as [s|] eqn:Hs.
  - destruct (str_empty s).
    { injection H as <-. apply Hset; destruct (has_text q); try done; set_solver. }
    destruct (has ["relevance"; "newest"; "oldest"] s) eqn:Hin; cbn [negb] in H; [|done]. apply has_true in Hin.
    destruct (bool_decide (s = "relevance") && negb (has_text q)) eqn:E; injection H as <-.
    { apply Hset; [set_solver|done]. }
    split_and!; [done| |done]. exists s. unfold sort_prop, str_prop in Hs. destruct (jget "sort" q) as [[]|]; try done.
    injection Hs as ->. split_and!; [done..|]. intros ->. rewrite bool_decide_true in E by done. cbn in E. by to_prop.
  - injection H as <-. apply Hset; destruct (has_text q); try done; set_solver.
Qed.

(** A limit the sources accept: above 0 and at most 25. *)
Definition limit_ok (q : PlannerQuery) : Prop :=
  exists x, jget "limit" q = Some (JNum x) /\ num_gt x 0 = true /\ num_le x MAX_LIMIT = true.

Lemma num_compare_0 m e : num_compare (Finite m e) (num_of_Z 0) = Some (m ?= 0).
Proof.
  cbn [num_compare num_of_Z]. unfold at_scale. f_equal. destruct (Z.min_spec e 0) as [[? ->]|[? ->]].
  - by rewrite Z.sub_diag, Z.pow_0_r, Z.mul_0_l, Z.mul_1_r.
  - rewrite Z.sub_0_r, Z.mul_0_l.
    assert (0 < 2 ^ e) by (apply Z.pow_pos_nonneg; lia).
    destruct (Z.compare_spec m 0); destruct (Z.compare_spec (m * 2 ^ e) 0); nia || done.
Qed.

Lemma limit_value_ok x : num_negative x = false ->
  let y := if num_falsy x then num_of_Z DEFAULT_LIMIT else num_min x MAX_LIMIT in
  num_gt y 0 = true /\ num_le y MAX_LIMIT = true.
Proof.
  unfold num_negative, num_falsy, num_ltb, num_eqb. destruct x as [|[]|m e]; try done.
  rewrite num_compare_0. destruct (Z.compare_spec m 0) as [| |Hm]; try done. intros _.
  assert (num_gt (Finite m e) 0 = true) as Hgt.
  { cbn. rewrite Z.mul_0_l. apply negb_true_iff. destruct (Z.leb_spec 0 e); apply Z.leb_gt; [|done].
    assert (0 < 2 ^ e) by (apply Z.pow_pos_nonneg; lia). nia. }
  cbn zeta. unfold num_min. destruct (num_le (Finite m e) MAX_LIMIT) eqn:E; done.
Qed.

Lemma default_limit_ok q q' :
  typed_query q -> default_limit q = Ok q' ->
  typed_query q' /\ limit_ok q' /\ (forall k, k <> "limit" -> jget k q' = jget k q).
Proof.
  intros Hq H. unfold default_limit in H.
  assert (forall x, num_gt x 0 = true -> num_le x MAX_LIMIT = true ->
    typed_query (map_set "limit" (JNum x) q) /\ limit_ok (map_set "limit" (JNum x) q) /\
    (forall k, k <> "limit" -> jget k (map_set "limit" (JNum x) q) = jget k q)) as Hset.
  { intros x H1 H2. split_and!.
    - apply typed_set; [done|]. split; [by apply has_true|]. by exists x.
    - exists x. split; [by apply jget_set|done].
    - intros k Hk. by apply jget_set_ne. }
  destruct (limit_prop q) as [x|].
  - destruct (num_negative x) eqn:E; [done|]. injection H as <-. destruct (limit_value_ok x E) as [H1 H2]. by apply Hset.
  - injection H as <-. by apply Hset.
Qed.

Definition date_field_ok (name : string) (q : PlannerQuery) : Prop :=
  forall s, jget name q = Some (JStr s) -> s <> EmptyString ->
    exists y m d, date_parts s = Some (y, m, d) /\ real_date y m d.

Lemma date_problem_None name q : date_problem name q = None -> date_field_ok name q.
Proof.
  unfold date_problem, date_field_ok, str_prop. intros H s Hs Hne. rewrite Hs in H.
  destruct (str_empty s) eqn:E; [by apply str_empty_true in E|]. cbn [negb andb] in H.
  apply isDate_real. by destruct (isDate s).
Qed.

Lemma parse_ok parse raw q :
  parsePlannerQuery parse raw = Ok q ->
  typed_query q /\ sort_ok q /\ limit_ok q /\ date_field_ok "after" q /\ date_field_ok "before" q.
Proof.
  unfold parsePlannerQuery. intros (q0 & Hread & H)%result_bind_Ok. pose proof (read_fields_typed _ _ _ Hread) as Ht.
  destruct (date_problem "after" q0) eqn:Ha; [done|]. destruct (date_problem "before" q0) eqn:Hb; [done|].
  apply result_bind_Ok in H as (q1 & Hs & Hl). destruct (default_sort_ok _ _ Ht Hs) as (Ht1 & Hs1 & Hk1).
  destruct (default_limit_ok _ _ Ht1 Hl) as (Ht2 & Hl2 & Hk2). apply date_problem_None in Ha, Hb. split_and!; try done.
  - destruct Hs1 as (s & Hs1 & Hin & Htext). exists s. split_and!; [by rewrite Hk2|done|]. intros E.
    unfold has_text, str_prop. rewrite Hk2 by done. by apply Htext.
  - intros s. rewrite Hk2, Hk1 by done. apply Ha.
  - intros s. rewrite Hk2, Hk1 by done. apply Hb.
Qed.

(** ** Lemmas: the broker's reading *)

Lemma filter_get k q : k <> "source" -> jget k (filter_of q) = jget k q.
Proof.
  intros Hk. unfold filter_of. change (@jget) with (@map_get json). induction q as [|[k' v] q IH]; [done|]. cbn [List.filter fst].
  destruct (decide (k' = "source")) as [->|E]; [rewrite bool_decide_true by done|rewrite bool_decide_false by done]; cbn [negb].
  - rewrite map_get_cons, decide_False by done. exact IH.
  - by rewrite !map_get_cons, IH.
Qed.

Lemma filter_keys q k : typed_query q -> k ∈ jkeys (filter_of q) -> k ∈ KNOWN_FIELDS.
Proof.
  intros Hq (e & -> & He)%list_elem_of_fmap. apply list_elem_of_In, filter_In in He as [He%list_elem_of_In Hs].
  unfold typed_query in Hq. rewrite Forall_forall in Hq. destruct (Hq _ He) as [Hk _]. to_prop. clear -Hk Hs.
  unfold FIELDS in Hk. unfold KNOWN_FIELDS, STRING_FIELDS. set_solver.
Qed.

Lemma string_field_typed q field : typed_query q -> field ∈ STRING_FIELDS ->
  string_field (filter_of q) field = Ok (str_prop field q).
Proof.
  intros Hq Hf. assert (field <> "source" /\ field <> "limit") as [Hs Hl] by (unfold STRING_FIELDS in Hf; set_solver).
  unfold string_field, str_prop. rewrite filter_get by done. destruct (jget field q) as [v|] eqn:E; [|done].
  destruct (typed_get _ _ _ Hq E) as [_ H]. rewrite decide_False in H by done. by destruct H as [s ->].
Qed.

Lemma date_char_nws c : date_char c = true -> is_ws c = false.
Proof. destruct c as [[] [] [] [] [] [] [] []]; by vm_compute. Qed.

Lemma drop_ws_none s : str_forall date_char s = true -> drop_while is_ws s = s /\ drop_while_end is_ws s = s.
Proof.
  intros H. split.
  - destruct s as [|c s]; [done|]. cbn in H |- *. apply andb_true_iff in H as [Hc _]. by rewrite (date_char_nws c Hc).
  - induction s as [|c s IH]; [done|]. cbn in H |- *. apply andb_true_iff in H as [Hc Hs]. rewrite (IH Hs).
    destruct s; [|done]. by rewrite (date_char_nws c Hc).
Qed.

(** The years before 100 are dates to the planner and not to the broker. *)
Definition modern (name : string) (q : PlannerQuery) : Prop :=
  forall s y m d, jget name q = Some (JStr s) -> date_parts s = Some (y, m, d) -> 100 <= y.

Lemma check_date_typed q name : name ∈ STRING_FIELDS ->
  date_field_ok name q -> modern name q -> check_date name (str_prop name q) = Ok tt.
Proof.
  intros _ Hd Hm. unfold check_date, str_prop. destruct (jget name q) as [[| | |s| |]|] eqn:E; try done. cbn [fmap option_fmap option_map].
  destruct (str_empty s) eqn:Es; [by apply str_empty_true in Es as ->|].
  assert (s <> EmptyString) as Hne by (by intros ->). destruct (Hd s E Hne) as (y & m & d & Hp & Hr).
  assert (isCalendarDate s = true) as Hc by (eapply isCalendarDate_accepts; eauto).
  pose proof (isCalendarDate_chars s Hc) as Hch. unfold trim. destruct (drop_ws_none s Hch) as [-> ->].
  rewrite Hc. by rewrite andb_false_r.
Qed.

(** The query the broker reads from the planner's filter. *)
Definition sent_query (q : PlannerQuery) : SourceQuery :=
  mkSourceQuery (str_prop "text" q) (str_prop "title" q) (str_prop "author" q) (str_prop "after" q)
    (str_prop "before" q) (str_prop "type" q) (own_get (sort_prop q ?? EmptyString) SORTS) (limit_prop q).

Lemma planner_run parse raw q :
  parsePlannerQuery parse raw = Ok q -> modern "after" q -> modern "before" q ->
  exists s x, sort_prop q = Some s /\ limit_prop q = Some x /\
    parseSourceQuery (JObj (filter_of q)) = (if isInteger x then Ok (sent_query q) else Err BadLimit) /\
    num_le x MAX_LIMIT = true.
Proof.
  intros Hparse Ha Hb. destruct (parse_ok _ _ _ Hparse) as (Ht & (s & Hs & Hin & _) & (x & Hx & Hpos & Hmax) & Hda & Hdb).
  assert (exists sort, own_get s SORTS = Some sort) as (sort & Hsort) by (clear -Hin; set_unfold; naive_solver).
  assert (sort_prop q = Some s) as Esort by (unfold sort_prop, str_prop; by rewrite Hs).
  assert (limit_prop q = Some x) as Elimit by (unfold limit_prop; by rewrite Hx).
  exists s, x. split_and!; [done..| |done]. unfold parseSourceQuery.
  assert (List.filter (fun key => negb (has KNOWN_FIELDS key)) (jkeys (filter_of q)) = []) as ->.
  { destruct (List.filter _ _) as [|k ks] eqn:E; [done|]. exfalso.
    assert (In k (k :: ks)) as Hk by by left. rewrite <- E in Hk. apply filter_In in Hk as [Hk%list_elem_of_In Hn].
    apply (filter_keys q k Ht), has_true in Hk. by rewrite Hk in Hn. }
  rewrite !string_field_typed by (done || by apply has_true). cbn [result_bind].
  rewrite !check_date_typed by (done || by apply has_true). cbn [result_bind].
  unfold sort_field, limit_field. rewrite !filter_get by done. rewrite Hs, Hx, Hsort. cbn [result_bind].
  unfold num_gt in Hpos. destruct x as [|n|m e]; [done|by destruct n|]. apply negb_true_iff in Hpos. rewrite Hpos.
  rewrite orb_false_r. unfold sent_query. rewrite Esort, Elimit. cbn [nullish]. rewrite Hsort. by destruct (isInteger _).
Qed.

(** ** Lemmas: merging *)

Definition row (i : nat) (perSource : list (list Item)) : list Item := omap (fun items => items !! i) perSource.

Lemma row_app i l1 l2 : row i (l1 ++ l2) = row i l1 ++ row i l2.
Proof. apply omap_app. Qed.

(** The rows from [i] on hold what the sources hold from [i] on. *)
Lemma row_drop_perm i perSource : row i perSource ++ mjoin (drop (S i) <$> perSource) ≡ₚ mjoin (drop i <$> perSource).
Proof.
  induction perSource as [|items ps IH]; [done|]. unfold row in *. cbn.
  destruct (items !! i) as [x|] eqn:E.
  - rewrite (drop_S items x i) by done. cbn [app]. rewrite <- IH. rewrite !app_assoc. rewrite (Permutation_app_comm (drop (S i) items)).
    apply Permutation_cons; [done|]. rewrite <- !app_assoc. apply Permutation_app_head. by rewrite app_nil_l || idtac.
  - apply lookup_ge_None in E. rewrite !drop_ge by lia. exact IH.
Qed.

Lemma rows_done i (perSource : list (list Item)) : existsb (fun items => (i <? length items)%nat) perSource = false -> mjoin (drop i <$> perSource) = [].
Proof.
  induction perSource as [|items ps IH]; [done|]. cbn [existsb]. intros [H1%Nat.ltb_ge H2]%orb_false_iff.
  change (mjoin (drop i <$> items :: ps)) with (drop i items ++ mjoin (drop i <$> ps)). by rewrite drop_ge, IH.
Qed.

Lemma interleave_perm fuel i (perSource : list (list Item)) :
  (length (mjoin (drop i <$> perSource)) < fuel)%nat -> interleave fuel i perSource ≡ₚ mjoin (drop i <$> perSource).
Proof.
  revert i. induction fuel as [|fuel IH]; intros i Hf; [lia|]. cbn [interleave].
  destruct (existsb _ _) eqn:E; [|by rewrite rows_done].
  change (omap (fun items => items !! i) perSource) with (row i perSource).
  rewrite <- row_drop_perm. apply Permutation_app_head. apply IH.
  pose proof (Permutation_length (row_drop_perm i perSource)) as Hl. rewrite length_app in Hl.
  assert (row i perSource <> []) as Hne.
  { clear -E. induction perSource as [|items ps IHp]; [done|]. cbn [existsb] in E. unfold row in *. cbn [omap list_omap].
    apply orb_true_iff in E as [E%Nat.ltb_lt|E].
    - destruct (items !! i) eqn:El; [done|]. apply lookup_ge_None in El. lia.
    - destruct (items !! i); [done|]. by apply IHp. }
  destruct (row i perSource); [done|]. cbn in Hl. lia.
Qed.

Lemma drop_0_all perSource : drop 0 <$> perSource = (perSource : list (list Item)).
Proof. induction perSource as [|p ps IH]; [done|]. cbn. by rewrite IH. Qed.

Section MergeOrder.
Variable Date_parse : string -> option Z.
Variable sort : string.

#[export] Instance sooner_order : WeakOrder (sooner Date_parse sort) (fun _ => True).
Proof.
  split.
  - intros a b _ _. unfold sooner. destruct (time Date_parse a), (time Date_parse b); try done.
    case_bool_decide; rewrite Z.ltb_lt, Z.ltb_ge; lia.
  - intros a b c _ _ _. unfold sooner. destruct (time Date_parse a), (time Date_parse b), (time Date_parse c); try (by auto).
    case_bool_decide; rewrite !Z.ltb_lt; lia.
Qed.
End MergeOrder.

Lemma merged_perm Date_parse perSource sort : merged Date_parse perSource sort ≡ₚ mjoin perSource.
Proof.
  unfold merged. case_bool_decide.
  - rewrite interleave_perm by (rewrite drop_0_all; lia). by rewrite drop_0_all.
  - apply sort_by_perm.
Qed.

(** [merged] by relevance is the rows in turn. *)
Lemma interleave_rows fuel i perSource :
  exists n, (n <= fuel)%nat /\ interleave fuel i perSource = mjoin ((fun j => row j perSource) <$> seq i n).
Proof.
  revert i. induction fuel as [|fuel IH]; intros i; [by exists 0%nat|]. cbn [interleave].
  destruct (existsb _ _); [|exists 0%nat; split; [lia|done]].
  destruct (IH (S i)) as (n & Hn & ->). exists (S n). split; [lia|]. done.
Qed.

(** ** Properties *)

(** C35: what leaves [parsePlannerQuery] is a well-typed query, whatever the
    planner wrote: only known fields, each of its type; always a sort, one of
    the three, and by relevance only with words to be relevant to; always a
    limit, above 0 and at most 25; and "after" and "before", where they are
    given, are days of the calendar. *)
Theorem parsePlannerQuery_typed (JSON_parse : string -> result string json) (raw : string) :
  match parsePlannerQuery JSON_parse raw with
  | Ok q => typed_query q /\ sort_ok q /\ limit_ok q /\ date_field_ok "after" q /\ date_field_ok "before" q
  | Err problem => problem <> EmptyString
  end.
Proof.
  destruct (parsePlannerQuery JSON_parse raw) as [q|p] eqn:E; [by eapply parse_ok|].
  intros ->. revert E. unfold parsePlannerQuery, read_fields, date_problem, default_sort, default_limit.
  assert (forall q : PlannerQuery, first_problem q <> Some EmptyString) as Hf.
  { intros q. induction q as [|e q IH]; [done|]. cbn [first_problem].
    assert (field_problem e <> Some EmptyString) by (destruct e; unfold field_problem; repeat case_match; done).
    by destruct (field_problem e). }
  intros [H|(q0 & _ & H)]%result_bind_Err.
  - destruct (startsWith _ _); [|by destruct (negb _)]. destruct (JSON_parse _) as [[| | | | |fields]|]; try done.
    pose proof (Hf fields). destruct (first_problem fields); [|done]. congruence.
  - destruct (str_prop "after" q0) as [a|]; [destruct (_ && _); [done|]|];
      (destruct (str_prop "before" q0) as [b|]; [destruct (_ && _); [done|]|]);
      apply result_bind_Err in H as [H|(q1 & _ & H)]; revert H; split_matches; done.
Qed.

(** The planner's filter is one the broker takes. A query that the
    orchestrator lets through, sent without its [source], is read by the
    broker as a query with the same text, title, author, dates, type, sort and
    limit, provided its dates are not before the year 100 and its limit is an
    integer: the only two ways the two validations differ. *)
Theorem planner_query_accepted (JSON_parse : string -> result string json) (raw : string) (q : PlannerQuery) :
  parsePlannerQuery JSON_parse raw = Ok q -> modern "after" q -> modern "before" q ->
  (parseSourceQuery (JObj (filter_of q)) = Err BadLimit <-> exists x, limit_prop q = Some x /\ isInteger x = false) /\
  ((forall x, limit_prop q = Some x -> isInteger x = true) ->
   parseSourceQuery (JObj (filter_of q)) = Ok (sent_query q)).
Proof.
  intros Hparse Ha Hb. destruct (planner_run _ _ _ Hparse Ha Hb) as (sort & x & _ & -> & Hrun & _). rewrite Hrun. split.
  - destruct (isInteger x) eqn:E; [split; [done|]|split; [by exists x|done]]. intros (y & [= <-] & Hy). congruence.
  - intros Hint. by rewrite Hint.
Qed.

(** Merging loses nothing before the cut and invents nothing. Every item of
    every source is in the merge once for each time a source returned it; time
    sorts put the newest (or oldest) first and the undated last; relevance
    takes the first of every source, then the second of every source, and so
    on; and the answer is the head of that list, at most the limit. *)
Theorem mergeResults_spec (Date_parse : string -> option Z) (perSource : list (list Item)) (sort : string) (limit : number) :
  let all := merged Date_parse perSource sort in
  all ≡ₚ mjoin perSource /\
  mergeResults Date_parse perSource sort limit = slice0 limit all /\
  (forall z, num_ge limit 0 = true -> num_le limit z = true -> 0 <= z ->
     (length (mergeResults Date_parse perSource sort limit) <= Z.to_nat z)%nat) /\
  (sort = "relevance" -> exists n, all = mjoin ((fun i => omap (fun items => items !! i) perSource) <$> seq 0 n)) /\
  (sort <> "relevance" -> StronglySorted (not_after (sooner Date_parse sort)) all).
Proof.
  intros all. split_and!; [apply merged_perm|done|by intros; apply slice0_length| |].
  - intros ->. subst all. unfold merged. rewrite bool_decide_true by done.
    destruct (interleave_rows (S (length (mjoin perSource))) 0 perSource) as (n & _ & ->). by exists n.
  - intros Hs. subst all. unfold merged. rewrite bool_decide_false by done.
    apply (sort_by_sorted _ (fun _ => True)). by apply Forall_forall.
Qed.

(** The planner's dates: exactly the days of the calendar, from the year 0
    on; the broker's [isCalendarDate] refuses the first century. *)
Theorem isDate_spec (s : string) :
  (isDate s = true <-> exists y m d, date_parts s = Some (y, m, d) /\ real_date y m d) /\
  (isDate "0099-12-31" = true /\ isCalendarDate "0099-12-31" = false).
Proof. split; [apply isDate_real|by vm_compute]. Qed.

Definition sample_raw : string := "{text: retro}".
Definition sample_parse (_ : string) : result string json :=
  Ok (JObj [("text", JStr "retro"); ("after", JStr "2024-02-29"); ("source", JStr "wiki"); ("limit", JNum (num_of_Z 80))]).
Definition sample_query : PlannerQuery :=
  [("text", JStr "retro"); ("after", JStr "2024-02-29"); ("source", JStr "wiki"); ("limit", JNum (num_of_Z 25));
   ("sort", JStr "relevance")].

Lemma planner_query_accepted_witness :
  parsePlannerQuery sample_parse sample_raw = Ok sample_query /\
  parseSourceQuery (JObj (filter_of sample_query)) =
    Ok (mkSourceQuery (Some "retro") None None (Some "2024-02-29") None None (Some relevance) (Some (num_of_Z 25))).
Proof.
  assert (parsePlannerQuery sample_parse sample_raw = Ok sample_query) as H by by vm_compute.
  split; [exact H|]. refine (proj2 (planner_query_accepted sample_parse sample_raw sample_query H _ _) _).
  - intros s y m d [= <-] Hd. vm_compute in Hd. injection Hd as <- <- <-. lia.
  - intros s y m d Hs. by vm_compute in Hs.
  - by intros x [= <-].
Defined.
