(* ===== verification/KbLive.v ===== *)
(** * Agent orchestrator: asking the sources live

    The three tools that go to a source during the turn, as the calling user,
    through the connection broker: [CorpusLookup] (knowledge-base/lookup.ts),
    [CorpusQuery] (query.ts) and [CorpusReader] (reader.ts). *)

From stdpp Require Import base gmap strings list sorting.
From Stdlib Require Import ZArith Lia Ascii.
From S2P Require Import Prelude JsString JsNumber Json JsMap EventValues JsList Chunk Driver Registry Query.
From S2P Require Import Auth Broker BrokerSafety HttpSource Fetch KnowledgeBase KbProbe KbSearch KbCite.
From S2P Require Import KbBroker KbSearcher KbQuery.

#[local] Open Scope Z_scope.

(** ** Data *)

(** [CorpusLookupResult], [CorpusQueryResult] and [CorpusReadResult] have one
    shape. *)
Record LiveResult := mkLiveResult {
  lr_result : string;
  lr_needsLink : bool;
  lr_linkProviders : option (list string);
  lr_sources : option (list CitedSource)
}.

Definition plain_result (text : string) : LiveResult := mkLiveResult text false None None.

(** What a member answered: its items, or the note on why there are none. *)
Record Answer := mkAnswer {
  an_items : list BrokerItem;
  an_note : option string
}.

(** ** Text (lookup.ts, query.ts) *)

(** [s.split(/\s+/)] *)
Definition starts_ws (s : string) : bool :=
  match s with
  | String c _ => is_ws c
  | EmptyString => false
  end.

Fixpoint split_ws (s : string) : list string :=
  match s with
  | EmptyString => [EmptyString]
  | String c s' =>
      if is_ws c then if starts_ws s' then split_ws s' else EmptyString :: split_ws s'
      else match split_ws s' with
           | w :: ws => String c w :: ws
           | [] => [String c EmptyString]
           end
  end.

Definition one_line (excerpt : string) : string := trim (join " " (split_ws excerpt)).

Definition MAX_REFUSAL_DETAIL : nat := 200.

Section Notes.
Variable JSON_parse : string -> option json.
Variable status_text : Z -> string.

Definition refusal_detail (body : string) : string :=
  match JSON_parse body with
  | Some (JObj parsed) =>
      match jget "error" parsed with
      | Some (JStr error) => join " " (List.filter (fun w => negb (str_empty w)) (split_ws error))
      | _ => EmptyString
      end
  | _ => EmptyString
  end.

Definition refusalNote (status : Z) (body : string) : string :=
  let detail := refusal_detail body in
  if str_empty detail then "refused (" +:+ status_text status +:+ ")"
  else
    let detail := if (MAX_REFUSAL_DETAIL <? slen detail)%nat then str_take MAX_REFUSAL_DETAIL detail +:+ "…" else detail in
    "refused (" +:+ status_text status +:+ "): " +:+ detail.
End Notes.

Definition add_part (label : string) (value : option string) : list string :=
  if truthy_str value then [label +:+ " " +:+ quoted (value ?? EmptyString)] else [].

Definition describe (q : PlannerQuery) : string :=
  join ", " (add_part "matching" (str_prop "text" q) ++ add_part "titled" (str_prop "title" q) ++
             add_part "by" (str_prop "author" q) ++ add_part "type" (str_prop "type" q) ++
             add_part "changed on or after" (str_prop "after" q) ++ add_part "changed before" (str_prop "before" q) ++
             [if bool_decide (sort_prop q = Some "relevance") then "most relevant first"
              else (sort_prop q ?? "undefined") +:+ " first"]).

(** The part of the text one item takes; [dated] adds when it changed. *)
Definition item_lines (dated : bool) (n : Z) (item : Item) : string :=
  let i := it_item item in
  join nl_s
    ([nl_s +:+ "- [" +:+ Z_to_string n +:+ "] " +:+ (bi_title i ?? bi_id i) +:+ " — " +:+ it_member item +:+
      (if dated && truthy_str (bi_updatedAt i) then " · changed " +:+ (bi_updatedAt i ?? EmptyString) else EmptyString);
      "  reference: " +:+ it_corpus item +:+ "/" +:+ bi_id i] ++
     (if truthy_str (bi_url i) then ["  " +:+ (bi_url i ?? EmptyString)] else []) ++
     (if truthy_str (bi_excerpt i) then ["  " +:+ one_line (bi_excerpt i ?? EmptyString)] else [])).

Definition numbered {A B : Type} (first : Z) (f : Z -> A -> B) (l : list A) : list B :=
  imap (fun i => f (first + Z.of_nat i)) l.

Definition query_render (displayName : string) (q : PlannerQuery) (firstIndex : Z) (items : list Item)
    (unlinked refused : list string) : string :=
  let src := trim (source_of q) in
  let where_ := if str_empty src then displayName else displayName +:+ " (" +:+ src +:+ ")" in
  str_concat
    (match items with
     | [] => ["Nothing in " +:+ where_ +:+ " matches: " +:+ describe q +:+ "."]
     | _ => ("Results from " +:+ where_ +:+ " — " +:+ describe q +:+ ":") :: numbered firstIndex (item_lines true) items
     end ++
     (if (0 <? length unlinked)%nat then [nl_s +:+ nl_s +:+ "Not queried (no linked account): " +:+ join ", " unlinked +:+ "."] else []) ++
     (if (0 <? length refused)%nat then [nl_s +:+ nl_s +:+ "Could not query: " +:+ join "; " refused +:+ "."] else [])).

Definition lookup_render (displayName query : string) (firstIndex : Z) (hits : list Item) (unlinked refused : list string) : string :=
  str_concat
    (match hits with
     | [] => ["Nothing in " +:+ displayName +:+ " matches " +:+ quoted query +:+ " right now."]
     | _ => ("Live results from " +:+ displayName +:+ " for " +:+ quoted query +:+ ":") ::
            numbered firstIndex (item_lines false) hits
     end ++
     (if (0 <? length unlinked)%nat then [nl_s +:+ nl_s +:+ "Not searched (no linked account): " +:+ join ", " unlinked +:+ "."] else []) ++
     (if (0 <? length refused)%nat then [nl_s +:+ nl_s +:+ "Could not search: " +:+ join ", " refused +:+ "."] else [])).

Definition cited_item (n : Z) (item : Item) : CitedSource :=
  mkCitedSource n (bi_title (it_item item) ?? bi_id (it_item item)) (bi_url (it_item item) ?? EmptyString).

(** ** Asking one member *)

(** [{ ...item, member, corpus }]: the fields that the text reads; a missing id
    prints as "undefined". *)
Definition item_of_json (j : json) : BrokerItem :=
  let f := match j with JObj f => f | _ => [] end in
  mkBrokerItem (str_field "id" f ?? "undefined") (str_field "title" f) (str_field "url" f) (str_field "updatedAt" f)
    (str_field "excerpt" f).

(** [body.hits ?? []] of a parsed body, as the loop over it goes. *)
Definition hits_of_json (j : json) : result ProbeError (list BrokerItem) :=
  match j with
  | JObj f => match jget "hits" f with
              | None | Some JNull => Ok []
              | Some (JArr l) => Ok (item_of_json <$> l)
              | Some _ => Err (ProbeOther "TypeError")
              end
  | JNull => Err (ProbeOther "TypeError")
  | _ => Ok []
  end.

(** [body.unsupported] of a parsed body. *)
Definition unsupported_of_json (j : json) : list string :=
  match j with
  | JObj f => match jget "unsupported" f with
              | Some (JArr l) => omap (fun x => match x with JStr s => Some s | _ => None end) l
              | _ => []
              end
  | _ => []
  end.

Section Live.
Context {W : Type}.
Variable JSON_parse : string -> option json.
Variable status_text : Z -> string.
Variable Date_parse : string -> option Z.
Variable http : FetchRequest -> SM W string FetchResponse.
(** [CorpusLookupOptions]; [CorpusQueryOptions] and [CorpusReaderOptions] are
    the same. *)
Variable brokerUrl brokerToken : string.
Variable credentials : DelegatedCredentialResolver W.

Definition unreachable {A : Type} (cause : string) : result ProbeError A :=
  Err (ProbeOther ("connection-broker unreachable: " +:+ cause)).

Definition query_request (id : string) (filter : PlannerQuery) (delegated : string) : FetchRequest :=
  mkFetchRequest (corpus_url brokerUrl id "/query") "POST"
    [("authorization", bearer brokerToken); ("content-type", "application/json"); ("x-delegated-token", delegated)]
    (Some (JObj filter)).

Definition lookup_request (id query delegated : string) : FetchRequest :=
  mkFetchRequest (corpus_url brokerUrl id ("/search?q=" +:+ encodeURIComponent query)) "GET"
    [("authorization", bearer brokerToken); ("x-delegated-token", delegated)] None.

Definition read_request (id sourceId delegated : string) : FetchRequest :=
  mkFetchRequest (corpus_url brokerUrl id ("/documents/" +:+ encodeURIComponent sourceId)) "GET"
    [("authorization", bearer brokerToken); ("x-delegated-token", delegated)] None.

(** [await response.text().catch(() => "")] *)
Definition text_or_empty (response : FetchResponse) : string :=
  match fp_text response with
  | Ok text => text
  | Err _ => EmptyString
  end.

(** What a source that did not answer 2xx leaves. *)
Definition refused_answer (missing : string) (response : FetchResponse) : Answer :=
  if fp_status response =? 404 then mkAnswer [] (Some missing)
  else mkAnswer [] (Some (refusalNote JSON_parse status_text (fp_status response) (text_or_empty response))).

Definition answer_json (response : FetchResponse) : result ProbeError json :=
  match fp_json response with
  | Ok j => Ok j
  | Err e => Err (ProbeOther e)
  end.

Definition read_query (response : FetchResponse) : result ProbeError Answer :=
  if (fp_status response =? 404) || negb (fetch_ok response) then Ok (refused_answer "cannot be queried this way" response)
  else
    let? body := answer_json response in
    match unsupported_of_json body with
    | [] => let? items := hits_of_json body in Ok (mkAnswer items None)
    | fields => Ok (mkAnswer [] (Some ("cannot filter by " +:+ join ", " fields)))
    end.

Definition read_search (response : FetchResponse) : result ProbeError Answer :=
  if (fp_status response =? 404) || negb (fetch_ok response) then Ok (refused_answer "no live search for this source" response)
  else
    let? body := answer_json response in
    let? items := hits_of_json body in
    Ok (mkAnswer items None).

Definition ask (request : FetchRequest) (read : FetchResponse -> result ProbeError Answer) : SM W ProbeError Answer := fun w =>
  match http request w with
  | (Err cause, w') => (unreachable cause, w')
  | (Ok response, w') => (read response, w')
  end.

Definition queryThroughBroker (m : KnowledgeBaseExecMember) (filter : PlannerQuery) (delegated : string) : SM W ProbeError Answer :=
  ask (query_request (em_id m) filter delegated) read_query.

Definition searchThroughBroker (m : KnowledgeBaseExecMember) (query delegated : string) : SM W ProbeError Answer :=
  ask (lookup_request (em_id m) query delegated) read_search.

(** ** The loop over the members (lookup.ts, query.ts) *)

Record Fan := mkFan {
  fan_answers : list (list Item);
  fan_unlinked : list string;
  fan_unlinkedProviders : list string;
  fan_refused : list string;
  fan_anyMember : bool
}.

Definition fan_start : Fan := mkFan [] [] [] [] false.

(** One turn of the loop, [one] being the call to the member. *)
Definition fan_step (one : KnowledgeBaseExecMember -> string -> SM W ProbeError Answer) (caller : Caller) (acc : Fan)
    (m : KnowledgeBaseExecMember) : SM W ProbeError Fan :=
  let '(mkFan answers unlinked providers refused any) := acc in
  if negb (holds_any (caller_roles caller) (em_allowedRoles m)) then sret acc
  else
    do! credential <- delegatedToken credentials (caller_subject caller) (em_identityProviders m ?? []) ;;
    match credential with
    | Some c =>
        if str_empty (dc_token c)
        then sret (mkFan answers (unlinked ++ [em_label m]) (foldl set_add providers (em_identityProviders m ?? [])) refused true)
        else
          do! outcome <- one m (dc_token c) ;;
          sret (if truthy_str (an_note outcome)
                then mkFan answers unlinked providers (refused ++ [em_label m +:+ " (" +:+ (an_note outcome ?? EmptyString) +:+ ")"]) true
                else mkFan (answers ++ [(fun item => mkItem item (em_label m) (em_id m)) <$> an_items outcome]) unlinked providers refused true)
    | None =>
        sret (mkFan answers (unlinked ++ [em_label m]) (foldl set_add providers (em_identityProviders m ?? [])) refused true)
    end.

Definition fan_out (one : KnowledgeBaseExecMember -> string -> SM W ProbeError Answer) (caller : Caller)
    (members : list KnowledgeBaseExecMember) : SM W ProbeError Fan := sfold (fan_step one caller) fan_start members.

(** The answer where no member could be asked: nobody may, or no account is
    linked. *)
Definition fan_stop (displayName doing : string) (fan : Fan) : option LiveResult :=
  if negb (fan_anyMember fan) then Some (plain_result ("You do not have access to anything in " +:+ displayName +:+ "."))
  else if (length (fan_answers fan) =? 0)%nat && (0 <? length (fan_unlinked fan))%nat
  then Some (mkLiveResult ("I need you to link the account behind " +:+ join ", " (fan_unlinked fan) +:+ " before I can " +:+
                           doing +:+ " — this runs as you, not as the ingestion credential.") true
               (Some (sort_strings (fan_unlinkedProviders fan))) None)
  else None.

Definition lookup (tool : ToolDescriptor) (query : string) (caller : Caller) (firstIndex : Z) : SM W ProbeError LiveResult :=
  match td_knowledgeBaseExec tool with
  | Some exec =>
      if negb (bool_decide (ex_operation exec = op_lookup))
      then sthrow (ProbeOther ("tool " +:+ td_id tool +:+ " is not a knowledge-base lookup"))
      else
        let trimmed := trim query in
        if str_empty trimmed
        then sret (plain_result "Give me something to look for — this searches the sources for words you name.")
        else
          do! fan <- fan_out (fun m => searchThroughBroker m trimmed) caller (ex_members exec) ;;
          match fan_stop (ex_displayName exec) "search it live" fan with
          | Some r => sret r
          | None =>
              let hits := mjoin (fan_answers fan) in
              sret (mkLiveResult
                      (lookup_render (ex_displayName exec) trimmed firstIndex hits (fan_unlinked fan) (fan_refused fan))
                      false None (Some (numbered firstIndex cited_item hits)))
          end
  | None => sthrow (ProbeOther ("tool " +:+ td_id tool +:+ " is not a knowledge-base lookup"))
  end.

Definition member_list (members : list KnowledgeBaseExecMember) : string :=
  join ", " ((fun m => em_id m +:+ " (" +:+ em_label m +:+ ")") <$> members).

(** [JSON.parse] with what it throws. *)
Variable JSON_parse_or : string -> result string json.

Definition query (tool : ToolDescriptor) (input : string) (caller : Caller) (firstIndex : Z) : SM W ProbeError LiveResult :=
  match td_knowledgeBaseExec tool with
  | Some exec =>
      if negb (bool_decide (ex_operation exec = op_query))
      then sthrow (ProbeOther ("tool " +:+ td_id tool +:+ " is not a knowledge-base query"))
      else
        match parsePlannerQuery JSON_parse_or input with
        | Err problem => sret (plain_result problem)
        | Ok parsed =>
            match membersNamed (ex_members exec) (source_of parsed) with
            | None =>
                sret (plain_result (quoted (source_of parsed) +:+ " is not a source in " +:+ ex_displayName exec +:+
                                    ". Sources here: " +:+ member_list (ex_members exec) +:+ "."))
            | Some members =>
                do! fan <- fan_out (fun m => queryThroughBroker m (filter_of parsed)) caller members ;;
                match fan_stop (ex_displayName exec) "query it" fan with
                | Some r => sret r
                | None =>
                    let items := mergeResults Date_parse (fan_answers fan) (sort_prop parsed ?? EmptyString)
                                   (limit_prop parsed ?? NaN) in
                    sret (mkLiveResult
                            (query_render (ex_displayName exec) parsed firstIndex items (fan_unlinked fan) (fan_refused fan))
                            false None (Some (numbered firstIndex cited_item items)))
                end
            end
        end
  | None => sthrow (ProbeOther ("tool " +:+ td_id tool +:+ " is not a knowledge-base query"))
  end.

(** ** Reading one document (reader.ts) *)

Definition memberNames (members : list KnowledgeBaseExecMember) : string :=
  match members with
  | [] => "nothing — this knowledge base has no readable members"
  | _ => member_list members
  end.

(** The two halves of [<corpus>/<id>], cut at the first slash. *)
Definition split_reference (reference : string) : string * string :=
  match indexOf "/"%char reference with
  | Some (S n) => (str_take (S n) reference, str_drop (S (S n)) reference)
  | _ => (EmptyString, EmptyString)
  end.

Definition read_document (m : KnowledgeBaseExecMember) (sourceId : string) (firstIndex : Z) (response : FetchResponse) :
    result ProbeError LiveResult :=
  if negb (fetch_ok response)
  then Ok (plain_result (trim ("The source refused that read (" +:+ status_text (fp_status response) +:+ "). " +:+
                               str_take 300 (text_or_empty response))))
  else
    let? document := answer_json response in
    match document with
    | JNull => Err (ProbeOther "TypeError")
    | _ =>
        let f := match document with JObj f => f | _ => [] end in
        let title := str_field "title" f ?? sourceId in
        let markdown := str_field "markdown" f ?? EmptyString in
        if negb (truthy_str (str_field "url" f))
        then Ok (plain_result ("Live read from " +:+ em_label m +:+ ": " +:+ title +:+ nl_s +:+ nl_s +:+ markdown))
        else
          let url := str_field "url" f ?? EmptyString in
          Ok (mkLiveResult ("[" +:+ Z_to_string firstIndex +:+ "] Live read from " +:+ em_label m +:+ ": " +:+ title +:+ " — " +:+ url +:+
                            nl_s +:+ nl_s +:+ markdown) false None (Some [mkCitedSource firstIndex title url]))
    end.

Definition read (tool : ToolDescriptor) (reference : string) (caller : Caller) (firstIndex : Z) : SM W ProbeError LiveResult :=
  match td_knowledgeBaseExec tool with
  | Some exec =>
      if negb (bool_decide (ex_operation exec = op_read))
      then sthrow (ProbeOther ("tool " +:+ td_id tool +:+ " is not a knowledge-base read"))
      else
        let '(corpusId, sourceId) := split_reference reference in
        if str_empty corpusId || str_empty sourceId
        then sret (plain_result (quoted reference +:+ " is not a readable reference. Use `<corpus>/<id>`, where " +:+
                                 "<corpus> is one of: " +:+ memberNames (ex_members exec) +:+ "."))
        else
          match List.find (fun m => bool_decide (em_id m = corpusId)) (ex_members exec) with
          | None => sret (plain_result (quoted corpusId +:+ " is not part of " +:+ ex_displayName exec +:+ ". " +:+
                                        "Readable here: " +:+ memberNames (ex_members exec) +:+ "."))
          | Some m =>
              if negb (holds_any (caller_roles caller) (em_allowedRoles m))
              then sret (plain_result ("You do not have access to " +:+ em_label m +:+ " in this knowledge base."))
              else
                do! credential <- delegatedToken credentials (caller_subject caller) (em_identityProviders m ?? []) ;;
                match credential with
                | Some c =>
                    if str_empty (dc_token c)
                    then sret (mkLiveResult ("I need you to link the account behind " +:+ em_label m +:+ " before I can " +:+
                           "read from it — a live read has to run as you, not as the ingestion credential.") true
                           (Some (em_identityProviders m ?? [])) None)
                    else fun w =>
                      match http (read_request corpusId sourceId (dc_token c)) w with
                      | (Err cause, w') => (unreachable cause, w')
                      | (Ok response, w') => (read_document m sourceId firstIndex response, w')
                      end
                | None =>
                    sret (mkLiveResult ("I need you to link the account behind " +:+ em_label m +:+ " before I can " +:+
                           "read from it — a live read has to run as you, not as the ingestion credential.") true
                           (Some (em_identityProviders m ?? [])) None)
                end
          end
  | None => sthrow (ProbeOther ("tool " +:+ td_id tool +:+ " is not a knowledge-base read"))
  end.
End Live.

(** ** Lemmas: the loop *)

(** What became of one member that the caller's roles open. *)
Inductive MemberOutcome :=
| Answered (items : list BrokerItem)
| Unlinked
| Refused (note : string).

Definition answered_of (o : KnowledgeBaseExecMember * MemberOutcome) : option (list Item) :=
  match o with
  | (m, Answered items) => Some ((fun item => mkItem item (em_label m) (em_id m)) <$> items)
  | _ => None
  end.

Definition unlinked_of (o : KnowledgeBaseExecMember * MemberOutcome) : option KnowledgeBaseExecMember :=
  match o with
  | (m, Unlinked) => Some m
  | _ => None
  end.

Definition refused_of (o : KnowledgeBaseExecMember * MemberOutcome) : option string :=
  match o with
  | (m, Refused note) => Some (em_label m +:+ " (" +:+ note +:+ ")")
  | _ => None
  end.

Definition open_members (caller : Caller) (members : list KnowledgeBaseExecMember) : list KnowledgeBaseExecMember :=
  List.filter (fun m => holds_any (caller_roles caller) (em_allowedRoles m)) members.

(** The loop's lists are those of the outcomes. *)
Definition fan_of (outcomes : list (KnowledgeBaseExecMember * MemberOutcome)) : Fan :=
  mkFan (omap answered_of outcomes) (em_label <$> omap unlinked_of outcomes)
    (foldl set_add [] (omap unlinked_of outcomes ≫= (fun m => em_identityProviders m ?? []))) (omap refused_of outcomes)
    (negb (length outcomes =? 0)%nat).

Lemma fan_of_snoc outcomes m o :
  fan_of (outcomes ++ [(m, o)]) =
  let '(mkFan answers unlinked providers refused _) := fan_of outcomes in
  match o with
  | Answered items => mkFan (answers ++ [(fun item => mkItem item (em_label m) (em_id m)) <$> items]) unlinked providers refused true
  | Unlinked => mkFan answers (unlinked ++ [em_label m]) (foldl set_add providers (em_identityProviders m ?? [])) refused true
  | Refused note => mkFan answers unlinked providers (refused ++ [em_label m +:+ " (" +:+ note +:+ ")"]) true
  end.
Proof.
  unfold fan_of. rewrite !omap_app, length_app, Nat.add_comm. destruct o; cbn; rewrite ?app_nil_r; try done.
  rewrite bind_app, foldl_app, fmap_app. cbn. by rewrite app_nil_r.
Qed.

Lemma fan_out_spec {W : Type} (credentials : DelegatedCredentialResolver W) one caller members (w w' : W) fan :
  fan_out credentials one caller members w = (Ok fan, w') ->
  exists outcomes, outcomes.*1 = open_members caller members /\ fan = fan_of outcomes.
Proof.
  unfold fan_out. change fan_start with (fan_of []).
  assert (forall acc, sfold (fan_step credentials one caller) (fan_of acc) members w = (Ok fan, w') ->
    exists outcomes, outcomes.*1 = acc.*1 ++ open_members caller members /\ fan = fan_of outcomes) as Hgen.
  { clear. revert w. induction members as [|m ms IH]; intros w acc H.
    { injection H as <- _. exists acc. by rewrite app_nil_r. }
    cbn [sfold] in H. apply sbind_Ok in H as (acc' & w1 & Hstep & H).
    assert ((acc' = fan_of acc /\ open_members caller (m :: ms) = open_members caller ms) \/
            exists o, acc' = fan_of (acc ++ [(m, o)]) /\ open_members caller (m :: ms) = m :: open_members caller ms) as Hcase.
    { unfold open_members. cbn [List.filter]. unfold fan_step in Hstep. fold (open_members caller ms).
      destruct (fan_of acc) as [answers unlinked providers refused any] eqn:E.
      destruct (holds_any _ _); cbn [negb] in Hstep; [right|left; by injection Hstep as <- _].
      assert (forall o, fan_of (acc ++ [(m, o)]) = _) as Hs by (intros o; rewrite fan_of_snoc, E; reflexivity).
      apply sbind_Ok in Hstep as (c & w2 & _ & Hstep).
      destruct c as [c|]; [|injection Hstep as <- _; exists Unlinked; by rewrite Hs].
      destruct (str_empty (dc_token c)); [injection Hstep as <- _; exists Unlinked; by rewrite Hs|].
      apply sbind_Ok in Hstep as ([items note] & w3 & _ & [= <- _]). cbn [an_note an_items].
      destruct (truthy_str note).
      - exists (Refused (note ?? EmptyString)). by rewrite Hs.
      - exists (Answered items). by rewrite Hs. }
    destruct Hcase as [[-> ->]|(o & -> & ->)]; [by apply (IH w1)|].
    destruct (IH w1 _ H) as (outcomes & Ho & ->). exists outcomes. split; [|done]. rewrite Ho, fmap_app, <- app_assoc. done. }
  intros H. destruct (Hgen [] H) as (outcomes & Ho & ->). by exists outcomes.
Qed.

(** ** Lemmas: who is asked *)

(** A live request as its own caller: to a member the caller's roles open, with
    the credential resolved for that member's own providers. *)
Definition own_request (brokerUrl brokerToken : string) (held : list string -> DelegatedCredential -> Prop)
    (members : list KnowledgeBaseExecMember) (caller : Caller) (rq : FetchRequest) : Prop :=
  exists m c, m ∈ open_members caller members /\ held (em_identityProviders m ?? []) c /\
    ((exists filter, rq = query_request brokerUrl brokerToken (em_id m) filter (dc_token c)) \/
     (exists q, rq = lookup_request brokerUrl brokerToken (em_id m) q (dc_token c)) \/
     (exists id, rq = read_request brokerUrl brokerToken (em_id m) id (dc_token c))).

Lemma open_members_elem caller members m :
  m ∈ open_members caller members <-> m ∈ members /\ holds_any (caller_roles caller) (em_allowedRoles m) = true.
Proof. unfold open_members. by rewrite !list_elem_of_In, filter_In. Qed.

Section LiveKeeps.
Context {W : Type}.
Variable I : W -> Prop.
Variable JSON_parse : string -> option json.
Variable status_text : Z -> string.
Variable http : FetchRequest -> SM W string FetchResponse.
Variable brokerUrl brokerToken : string.
Variable credentials : DelegatedCredentialResolver W.
Variable held : list string -> DelegatedCredential -> Prop.
Variable members : list KnowledgeBaseExecMember.
Variable caller : Caller.

Hypothesis Htoken : forall providers, keeps I (delegatedToken credentials (caller_subject caller) providers).
Hypothesis Hheld : forall providers,
  yields (fun c => forall x, c = Some x -> held providers x) (delegatedToken credentials (caller_subject caller) providers).
Hypothesis Hhttp : forall rq, own_request brokerUrl brokerToken held members caller rq -> keeps I (http rq).

Lemma keeps_ask rq read : own_request brokerUrl brokerToken held members caller rq -> keeps I (ask http rq read).
Proof. intros Hrq w Hw. unfold ask. specialize (Hhttp rq Hrq w Hw). by destruct (http rq w) as [[] w1]. Qed.

Lemma keeps_fan_out one ms :
  (forall m, m ∈ ms -> m ∈ members) ->
  (forall m c, m ∈ open_members caller members -> held (em_identityProviders m ?? []) c -> keeps I (one m (dc_token c))) ->
  keeps I (fan_out credentials one caller ms).
Proof.
  intros Hms Hone. apply keeps_sfold. intros acc m Hm. unfold fan_step. destruct acc as [a u p r any].
  destruct (holds_any _ _) eqn:Hopen; [|apply keeps_sret]. cbn [negb].
  apply (keeps_sbind_yields I (fun c => forall x, c = Some x -> held (em_identityProviders m ?? []) x)); [done..|].
  intros c Hc. destruct c as [c|]; [|apply keeps_sret]. destruct (str_empty (dc_token c)); [apply keeps_sret|].
  apply keeps_sbind; [|intros; apply keeps_sret]. apply Hone; [|by apply Hc]. apply open_members_elem. split; [by apply Hms|done].
Qed.
End LiveKeeps.

(** ** Lemmas: what the text names *)

Lemma str_concat_includes p x l : x ∈ l -> str_includes p x = true -> str_includes p (str_concat l) = true.
Proof.
  intros Hx Hp. induction l as [|y l IH]; [by apply elem_of_nil in Hx|]. cbn [str_concat].
  apply elem_of_cons in Hx as [->|Hx]; [by apply str_includes_l|]. apply str_includes_r. by apply IH.
Qed.

Lemma joined_includes sep pre post x l : x ∈ l -> str_includes x (pre +:+ join sep l +:+ post) = true.
Proof. intros Hx. apply str_includes_r, str_includes_l. by apply join_includes. Qed.

Lemma lookup_render_names name q first hits unlinked refused x :
  x ∈ unlinked \/ x ∈ refused -> str_includes x (lookup_render name q first hits unlinked refused) = true.
Proof.
  intros [Hx|Hx]; unfold lookup_render.
  - eapply str_concat_includes; [apply elem_of_app; right; apply elem_of_app; left|].
    + destruct unlinked; [by apply elem_of_nil in Hx|]. by left.
    + do 2 apply (str_includes_r _ nl_s). by apply joined_includes.
  - eapply str_concat_includes; [apply elem_of_app; right; apply elem_of_app; right|].
    + destruct refused; [by apply elem_of_nil in Hx|]. by left.
    + do 2 apply (str_includes_r _ nl_s). by apply joined_includes.
Qed.

Lemma numbered_elem {A B : Type} first (f : Z -> A -> B) l y : y ∈ numbered first f l <-> exists i x, l !! i = Some x /\ y = f (first + Z.of_nat i) x.
Proof. unfold numbered. rewrite elem_of_lookup_imap. naive_solver. Qed.

Lemma omap_elem {A B : Type} (f : A -> option B) (l : list A) a b : a ∈ l -> f a = Some b -> b ∈ omap f l.
Proof. intros H1 H2. apply list_elem_of_omap. by exists a. Qed.

Lemma sret_Ok {W E A : Type} (a b : A) (w w' : W) : sret (E := E) a w = (Ok b, w') -> b = a.
Proof. by intros [= <-]. Qed.

(** ** Properties *)

(** The three live tools run as the calling user and nobody else. Whatever
    the world, every request of a lookup, a query or a read goes to a member
    that the caller's roles open, with the credential resolved for this caller
    from that member's own providers: a property of the world that such requests
    (and the credential lookups) keep, each of the three keeps. *)
Theorem live_asks_as_caller {W : Type} (I : W -> Prop) (JSON_parse : string -> option json) (status_text : Z -> string)
    (Date_parse : string -> option Z) (http : FetchRequest -> SM W string FetchResponse) (brokerUrl brokerToken : string)
    (credentials : DelegatedCredentialResolver W) (JSON_parse_or : string -> result string json)
    (held : list string -> DelegatedCredential -> Prop) (tool : ToolDescriptor) (caller : Caller) (input : string) (firstIndex : Z) :
  let members := from_option ex_members [] (td_knowledgeBaseExec tool) in
  (forall providers, keeps I (delegatedToken credentials (caller_subject caller) providers)) ->
  (forall providers, yields (fun c => forall x, c = Some x -> held providers x)
     (delegatedToken credentials (caller_subject caller) providers)) ->
  (forall rq, own_request brokerUrl brokerToken held members caller rq -> keeps I (http rq)) ->
  keeps I (lookup JSON_parse status_text http brokerUrl brokerToken credentials tool input caller firstIndex) /\
  keeps I (query JSON_parse status_text Date_parse http brokerUrl brokerToken credentials JSON_parse_or tool input caller firstIndex) /\
  keeps I (read status_text http brokerUrl brokerToken credentials tool input caller firstIndex).
Proof.
  intros members Htoken Hheld Hhttp. subst members. unfold lookup, query, read.
  destruct (td_knowledgeBaseExec tool) as [exec|]; [|split_and!; apply keeps_sthrow]. cbn [from_option] in Hhttp. split_and!.
  - destruct (negb _); [apply keeps_sthrow|]. cbv zeta. destruct (str_empty _); [apply keeps_sret|]. apply keeps_sbind.
    + apply (keeps_fan_out I credentials held (ex_members exec) caller Htoken Hheld); [done|].
      intros m c Hm Hc. apply (keeps_ask I http brokerUrl brokerToken held (ex_members exec) caller Hhttp).
      exists m, c. split_and!; [done..|]. right. left. by eexists.
    + intros fan. destruct (fan_stop _ _ _); apply keeps_sret.
  - destruct (negb _); [apply keeps_sthrow|]. destruct (parsePlannerQuery _ _) as [q|]; [|apply keeps_sret].
    destruct (membersNamed _ _) as [ms|] eqn:Hms; [|apply keeps_sret]. apply keeps_sbind.
    + apply (keeps_fan_out I credentials held (ex_members exec) caller Htoken Hheld).
      * intros m Hm. unfold membersNamed in Hms. destruct (str_empty _); [by injection Hms as <-|].
        destruct (List.find _ _) as [x|] eqn:E; [|done]. injection Hms as <-. apply list_elem_of_singleton in Hm as ->.
        apply find_some in E as [E _]. by apply list_elem_of_In.
      * intros m c Hm Hc. apply (keeps_ask I http brokerUrl brokerToken held (ex_members exec) caller Hhttp).
        exists m, c. split_and!; [done..|]. left. by eexists.
    + intros fan. destruct (fan_stop _ _ _); apply keeps_sret.
  - destruct (negb _); [apply keeps_sthrow|]. destruct (split_reference input) as [corpusId sourceId].
    destruct (_ || _); [apply keeps_sret|]. destruct (List.find _ _) as [m|] eqn:E; [|apply keeps_sret].
    apply find_some in E as [Hin%list_elem_of_In Hid]. to_prop. subst corpusId.
    destruct (holds_any _ _) eqn:Hopen; [|apply keeps_sret]. cbn [negb].
    apply (keeps_sbind_yields I (fun c => forall x, c = Some x -> held (em_identityProviders m ?? []) x)); [done..|].
    intros c Hc. destruct c as [c|]; [|apply keeps_sret]. destruct (str_empty (dc_token c)); [apply keeps_sret|].
    intros w Hw. assert (keeps I (http (read_request brokerUrl brokerToken (em_id m) sourceId (dc_token c)))) as Hk.
    { apply Hhttp. exists m, c. split_and!; [by apply open_members_elem|by apply Hc|]. right. right. by eexists. }
    specialize (Hk w Hw). by destruct (http _ w) as [[] w1].
Qed.

(** A lookup accounts for every source the caller may ask. Each member that
    the caller's roles open either answered, and then every hit of it is
    citable under its own title and link, or is named in the text as one to
    link an account for, or is named there with the reason its source refused;
    the tool asks for a link exactly when nothing answered and an account was
    missing. *)
Theorem lookup_accounts {W : Type} (JSON_parse : string -> option json) (status_text : Z -> string)
    (http : FetchRequest -> SM W string FetchResponse) (brokerUrl brokerToken : string)
    (credentials : DelegatedCredentialResolver W) (tool : ToolDescriptor) (exec : KnowledgeBaseExecSpec) (caller : Caller)
    (q : string) (firstIndex : Z) (w w' : W) (res : LiveResult) :
  td_knowledgeBaseExec tool = Some exec -> trim q <> EmptyString ->
  lookup JSON_parse status_text http brokerUrl brokerToken credentials tool q caller firstIndex w = (Ok res, w') ->
  exists outcomes, outcomes.*1 = open_members caller (ex_members exec) /\
    (lr_needsLink res = true <-> omap answered_of outcomes = [] /\ omap unlinked_of outcomes <> []) /\
    forall m o, (m, o) ∈ outcomes ->
      match o with
      | Answered items => forall i, i ∈ items -> exists s, s ∈ lr_sources res ?? [] /\
          cs_title s = bi_title i ?? bi_id i /\ cs_url s = bi_url i ?? EmptyString
      | Unlinked => str_includes (em_label m) (lr_result res) = true
      | Refused note => lr_needsLink res = false -> str_includes (em_label m +:+ " (" +:+ note +:+ ")") (lr_result res) = true
      end.
Proof.
  intros Hexec Hq Hrun. unfold lookup in Hrun. rewrite Hexec in Hrun. destruct (negb _); [done|]. cbv zeta in Hrun.
  destruct (str_empty _) eqn:E; [by apply str_empty_true in E|].
  apply sbind_Ok in Hrun as (fan & w1 & Hfan & Hrun). destruct (fan_out_spec _ _ _ _ _ _ _ Hfan) as (outcomes & Ho & ->).
  exists outcomes. split; [done|]. clear Hfan Ho. unfold fan_stop in Hrun.
  cbn [fan_of fan_anyMember fan_answers fan_unlinked fan_unlinkedProviders fan_refused] in Hrun. rewrite length_fmap in Hrun.
  destruct outcomes as [|o0 os] eqn:Eo; [injection Hrun as <- _; split; [by split; [|intros [_ []]]|intros ? ? []%elem_of_nil]|].
  rewrite <- Eo in *. assert ((length outcomes =? 0)%nat = false) as Hlen by by rewrite Eo. rewrite Hlen in Hrun. cbn [negb] in Hrun.
  clear Eo Hlen. destruct ((length (omap answered_of outcomes) =? 0)%nat && _) eqn:Estop.
  - apply andb_true_iff in Estop as [E1%Nat.eqb_eq E2%Nat.ltb_lt]. apply sret_Ok in Hrun as ->. cbn [lr_needsLink lr_result lr_sources].
    apply length_zero_iff_nil in E1. split.
    { split; [|done]. intros _. split; [done|]. intros Hn. rewrite Hn in E2. cbn in E2. lia. }
    intros m o Hin. destruct o as [items| |note]; [|apply joined_includes|done].
    + assert ((fun item => mkItem item (em_label m) (em_id m)) <$> items ∈ omap answered_of outcomes) as Hbad
        by (by eapply omap_elem). rewrite E1 in Hbad. by apply elem_of_nil in Hbad.
    + apply list_elem_of_fmap. exists m. split; [done|]. by eapply omap_elem.
  - apply sret_Ok in Hrun as ->. cbn [lr_needsLink lr_result lr_sources nullish]. split.
    { split; [done|]. intros [E1 E2]. rewrite E1 in Estop. cbn in Estop. destruct (omap unlinked_of outcomes); [done|]. done. }
    intros m o Hin. destruct o as [items| |note].
    + intros i Hi.
      assert (mkItem i (em_label m) (em_id m) ∈ mjoin (omap answered_of outcomes)) as Hitem.
      { apply list_elem_of_join. exists ((fun item => mkItem item (em_label m) (em_id m)) <$> items). split.
        - by apply (list_elem_of_fmap_2 (fun item => mkItem item (em_label m) (em_id m))).
        - by eapply omap_elem. }
      apply list_elem_of_lookup in Hitem as [k Hk]. eexists. split; [apply numbered_elem; by eexists k, _|]. done.
    + apply lookup_render_names. left. apply list_elem_of_fmap. exists m. split; [done|]. by eapply omap_elem.
    + intros _. apply lookup_render_names. right. by eapply omap_elem.
Qed.

(** ** Two sources, one of them unlinked *)

Definition drive_only : DelegatedCredentialResolver (list FetchRequest) :=
  mkResolver (fun _ providers => sret (if has providers "google" then Some (mkDelegatedCredential "tok-google" None) else None))
    (fun _ _ => sret []).

Definition one_hit : json :=
  JObj [("hits", JArr [JObj [("id", JStr "p1"); ("title", JStr "Launch plan"); ("url", JStr "https://wiki/plan")]])].

Definition logging_http (rq : FetchRequest) : SM (list FetchRequest) string FetchResponse := fun log =>
  (Ok (mkFetchResponse 200 (Ok one_hit) (Ok "")), log ++ [rq]).

Definition two_lookup : ToolDescriptor :=
  mkToolDescriptor "kb:eng/lookup" "Lookup" "" ["staff"] false
    (Some (mkExecSpec "eng" "Engineering" op_lookup [wiki_member; drive_member] true)).

Definition lookup_run : SM (list FetchRequest) ProbeError LiveResult :=
  lookup (fun _ => None) (fun _ => "403") logging_http "http://broker" "orch" drive_only two_lookup "launch" staff 1.

Definition lookup_result : LiveResult :=
  match (lookup_run []).1 with
  | Ok res => res
  | Err _ => plain_result EmptyString
  end.

Definition google_only (providers : list string) (c : DelegatedCredential) : Prop := "google" ∈ providers.

Lemma live_asks_as_caller_witness :
  Forall (own_request "http://broker" "orch" google_only [wiki_member; drive_member] staff) (lookup_run []).2 /\
  length (lookup_run []).2 = 1%nat.
Proof.
  split; [|by vm_compute].
  refine (proj1 (live_asks_as_caller (Forall (own_request "http://broker" "orch" google_only [wiki_member; drive_member] staff))
    (fun _ => None) (fun _ => "403") (fun _ => None) logging_http "http://broker" "orch" drive_only (fun _ => Err "")
    google_only two_lookup staff "launch" 1 _ _ _) [] ltac:(by constructor)).
  - intros ps w Hw. exact Hw.
  - intros ps w c w' [= <- _] x Hx. destruct (has ps "google") eqn:E; [|done]. by apply has_true in E.
  - intros rq Hrq log Hlog. cbn. apply Forall_app. split; [done|]. by constructor.
Defined.

Lemma lookup_accounts_witness :
  str_includes "Wiki" (lr_result lookup_result) = true /\ lr_needsLink lookup_result = false.
Proof.
  destruct (lookup_accounts (fun _ => None) (fun _ => "403") logging_http "http://broker" "orch" drive_only two_lookup
    (mkExecSpec "eng" "Engineering" op_lookup [wiki_member; drive_member] true) staff "launch" 1 [] (lookup_run []).2 lookup_result)
    as (outcomes & Ho & Hlink & Hall); [done|done|by vm_compute|].
  assert (lr_needsLink lookup_result = false) as Hn by by vm_compute. split; [|done].
  change (open_members staff _) with [wiki_member; drive_member] in Ho.
  destruct outcomes as [|[m o] os]; [done|]. injection Ho as -> Ho. specialize (Hall wiki_member o ltac:(by left)).
  destruct o as [items| |note]; [|exact Hall|].
  - by vm_compute.
  - by vm_compute.
Defined.
