(* ===== verification/KbHop.v ===== *)
(** * Agent orchestrator and connection broker: the live tools end to end

    [CorpusReader] and [CorpusQuery] (KbLive) over the broker's own request
    handler (Broker): what reaches the provider's driver, with which
    credentials, and what comes back to the model. *)

From stdpp Require Import base gmap strings list sorting.
From Stdlib Require Import ZArith Lia Ascii.
From S2P Require Import Prelude JsString JsNumber Json JsMap EventValues JsList Chunk Driver Registry Query.
From S2P Require Import Auth Broker BrokerSafety HttpSource Fetch Writer KnowledgeBase KbProbe KbSearch KbCite.
From S2P Require Import KbBroker KbSearcher KbQuery KbLive.

#[local] Open Scope Z_scope.

(** ** The wire *)

(** A document and a query's answer as JSON, as the broker sends them: the
    fields the orchestrator reads. *)
Definition document_fields (d : Document) : list (string * json) :=
  [("title", JStr (ref_title (doc_ref d))); ("url", JStr (ref_url (doc_ref d))); ("markdown", JStr (doc_markdown d))].

Definition hit_fields (h : SearchHit) : json :=
  JObj ([("id", JStr (ref_id (hit_ref h))); ("title", JStr (ref_title (hit_ref h))); ("url", JStr (ref_url (hit_ref h)))] ++
        opt_field "updatedAt" JStr (ref_updatedAt (hit_ref h)) ++ opt_field "excerpt" JStr (hit_excerpt h)).

Definition answer_fields (r : QueryResult) : json :=
  JObj (("hits", JArr (hit_fields <$> result_hits r)) ::
        match result_unsupported r with Some l => [("unsupported", JArr (JStr <$> l))] | None => [] end).

(** The item the orchestrator makes of a hit. *)
Definition item_of_hit (h : SearchHit) : BrokerItem :=
  mkBrokerItem (ref_id (hit_ref h)) (Some (ref_title (hit_ref h))) (Some (ref_url (hit_ref h))) (ref_updatedAt (hit_ref h))
    (hit_excerpt h).

Lemma hits_of_answer r : hits_of_json (answer_fields r) = Ok (item_of_hit <$> result_hits r).
Proof.
  unfold hits_of_json, answer_fields. cbn [jget own_get]. f_equal.
  change (jget "hits" (("hits", JArr (hit_fields <$> result_hits r)) :: _)) with (Some (JArr (hit_fields <$> result_hits r))).
  f_equal. rewrite <- list_fmap_compose. apply list_fmap_ext. intros i h _. unfold compose, item_of_json, item_of_hit, hit_fields.
  by destruct (ref_updatedAt (hit_ref h)), (hit_excerpt h).
Qed.

Lemma unsupported_of_answer r : unsupported_of_json (answer_fields r) = result_unsupported r ?? [].
Proof.
  unfold unsupported_of_json, answer_fields. destruct (result_unsupported r) as [l|]; [|done].
  change (jget "unsupported" _) with (Some (JArr (JStr <$> l))). cbn [nullish].
  induction l as [|x l IH]; [done|]. cbn. by rewrite IH.
Qed.

Section LiveHop.
Context {W : Type}.
Variable parse_url : string -> result string ParsedUrl.
Variable decodeURIComponent : string -> result string string.
Variable JSON_parse : string -> option json.
Variable to_number : string -> number.
Variable utf8_toString : string -> string.
Variable encode : json -> string.
Variable render : Body -> json.
Variable text_of : Body -> string.
Variable status_text : Z -> string.
Variable o : ServerOptions W.
Variable brokerUrl brokerToken : string.
Variable b : CorpusBinding (Driver W).
Variable name userToken : string.

#[local] Abbreviation serve := (handle parse_url decodeURIComponent JSON_parse to_number utf8_toString o).
#[local] Abbreviation transport := (deliver_fetch serve encode render text_of (strip_slashes brokerUrl)).

(** What both ends make of a request of this caller on [path]. *)
Record live_ready (path : string) : Prop := mkLiveReady {
  lready_user : user_ready decodeURIComponent o b name brokerToken userToken;
  lready_url : parse_url path = Ok (mkParsedUrl path [])
}.

Definition read_path (sourceId : string) : string :=
  "/corpora/" +:+ encodeURIComponent name +:+ "/documents/" +:+ encodeURIComponent sourceId.
Definition query_path : string := "/corpora/" +:+ encodeURIComponent name +:+ "/query".

Lemma path_parts_read sourceId :
  name <> EmptyString -> sourceId <> EmptyString ->
  path_parts (read_path sourceId) = ["corpora"; encodeURIComponent name; "documents"; encodeURIComponent sourceId].
Proof.
  intros Hn Hs. change (read_path sourceId)
    with ("/" +:+ "corpora" +:+ "/" +:+ (encodeURIComponent name +:+ "/" +:+ "documents" +:+ "/" +:+ encodeURIComponent sourceId)).
  rewrite path_parts_cons by done. rewrite path_parts_cons by auto using encode_no_slash, encode_nonempty.
  rewrite path_parts_cons by done. by rewrite path_parts_last by auto using encode_no_slash, encode_nonempty.
Qed.

(** How a driver call behind a user's route arrives: its answer as 200, its
    failure as the status of its class. *)
Lemma user_call msg path route (call : SM W DriverError Response) :
  live_ready path -> req_url msg = Some path -> path <> "/healthz" ->
  parseRoute decodeURIComponent path = Ok (Some route) -> route_name route = name ->
  route_kind route ∈ [k_documents; k_query] -> (route_kind route = k_query -> req_method msg = Some "POST") ->
  header msg "authorization" = Some (bearer brokerToken) -> header msg DELEGATED_TOKEN_HEADER = Some userToken ->
  (forall w, dispatch JSON_parse to_number utf8_toString o b (as_user userToken) route (mkParsedUrl path []) msg w = call w) ->
  forall w, serve msg w = scatch (scatch call classify) (fun _ => sret (mkResponse 500 (BError "internal error"))) w.
Proof.
  intros [Hu Hurl] Hpath Hh Hr Hn Hk Hpost Ha Hd Hcall w.
  erewrite (serve_user _ _ _ _ _ o b _ _ userToken _ _ _ route Hu); [| |exact Hurl|exact Hh|exact Hr|exact Hn| |exact Hpost|exact Ha|exact Hd].
  - unfold scatch. by rewrite Hcall.
  - exact Hpath.
  - set_solver.
Qed.

Lemma read_hop sourceId reader w :
  live_ready (read_path sourceId) -> sourceId <> EmptyString -> decodeURIComponent (encodeURIComponent sourceId) = Ok sourceId ->
  readAsUser (binding_driver b) = Some reader -> (forall d, render (BDocument d) = JObj (document_fields d)) ->
  match reader (as_user userToken) sourceId w with
  | (Ok d, w') => exists t, transport (read_request brokerUrl brokerToken name sourceId userToken) w =
                    (Ok (mkFetchResponse 200 (Ok (JObj (document_fields d))) t), w')
  | (Err e, w') => exists r, transport (read_request brokerUrl brokerToken name sourceId userToken) w = (Ok r, w') /\
                     fetch_ok r = false /\ (denial e = true -> fp_status r = 403)
  end.
Proof.
  intros Hready Hs Hdec Hread Hrender. pose proof (lready_user _ Hready) as (Hn & Hdn & _).
  unfold deliver_fetch, read_request, corpus_url. cbn [fq_url fq_method fq_headers fq_body].
  rewrite prefix_app, str_drop_app. fold (read_path sourceId).
  erewrite (user_call _ (read_path sourceId) (mkRoute name k_documents (Some sourceId))
    (do! d <- reader (as_user userToken) sourceId ;; sret (mkResponse 200 (BDocument d))));
    [|exact Hready|reflexivity|done| |done|set_solver|done|reflexivity|reflexivity|].
  - unfold scatch, sbind. destruct (reader (as_user userToken) sourceId w) as [[d|e] w'].
    + cbn. rewrite Hrender. by eexists.
    + destruct e; cbn; eexists; (split; [reflexivity|]); by split.
  - unfold parseRoute. rewrite path_parts_read by done. rewrite Hdn. cbn. by rewrite Hdec.
  - intros w1. unfold dispatch, do_documents. cbn [route_kind route_id nullish]. by rewrite Hread.
Qed.

(** The body of a query arrives whole. *)
Definition carries_query (q : PlannerQuery) : Prop :=
  (slen (encode (JObj (filter_of q))) <= MAX_BODY)%nat /\ trim (utf8_toString (encode (JObj (filter_of q)))) <> EmptyString /\
  JSON_parse (utf8_toString (encode (JObj (filter_of q)))) = Some (JObj (filter_of q)).

Lemma query_hop q x run w :
  live_ready query_path -> carries_query q -> queryAsUser (binding_driver b) = Some run ->
  (forall r, render (BQuery r) = answer_fields r) ->
  parseSourceQuery (JObj (filter_of q)) = Ok (sent_query q) -> limit_prop q = Some x -> num_le x QUERY_MAX_LIMIT = true ->
  match run (as_user userToken) (binding_scope b) (sent_query q) w with
  | (Ok r, w') => exists t, transport (query_request brokerUrl brokerToken name (filter_of q) userToken) w =
                    (Ok (mkFetchResponse 200 (Ok (answer_fields r)) t), w')
  | (Err e, w') => exists r, transport (query_request brokerUrl brokerToken name (filter_of q) userToken) w = (Ok r, w') /\
                     fetch_ok r = false /\ fp_status r <> 404
  end.
Proof.
  intros Hready (Hlen & Htrim & Hjson) Hrun Hrender Hparse Hlimit Hmax. pose proof (lready_user _ Hready) as (Hn & Hdn & _).
  unfold deliver_fetch, query_request, corpus_url. cbn [fq_url fq_method fq_headers fq_body].
  rewrite prefix_app, str_drop_app. fold query_path.
  erewrite (user_call _ query_path (mkRoute name k_query None)
    (do! r <- run (as_user userToken) (binding_scope b) (sent_query q) ;; sret (mkResponse 200 (BQuery r))));
    [|exact Hready|reflexivity|done| |done|set_solver|done|reflexivity|reflexivity|].
  - unfold scatch, sbind. destruct (run _ _ _ w) as [[r|e] w'].
    + cbn. rewrite Hrender. by eexists.
    + destruct e; cbn; eexists; (split; [reflexivity|]); by split.
  - unfold parseRoute, query_path. rewrite (path_parts_leaf _ "query") by done. by rewrite Hdn.
  - intros w1. unfold dispatch, do_query. cbn [route_kind req_chunks]. rewrite Hrun. unfold sbind at 1, slift.
    rewrite read_one_chunk by done. unfold query_body.
    assert ((0 <? slen (trim (utf8_toString (encode (JObj (filter_of q))))))%nat = true) as ->.
    { apply Nat.ltb_lt. destruct (trim _); [done|]. cbn. lia. }
    rewrite Hjson, Hparse. unfold with_limit, sent_query. cbn [q_text q_title q_author q_after q_before q_type q_sort q_limit].
    rewrite Hlimit. cbn [nullish]. unfold num_min. rewrite Hmax. by destruct x.
Qed.
End LiveHop.

Lemma slash_at name id : str_forall no_slash name = true -> indexOf "/"%char (name +:+ String "/" id) = Some (slen name).
Proof.
  unfold indexOf. induction name as [|c name IH]; [done|]. cbn [str_forall String.append str_search].
  intros [Hc Hname]%andb_true_iff. unfold no_slash in Hc. apply negb_true_iff in Hc. by rewrite Hc, (IH Hname).
Qed.

Lemma split_reference_at name id :
  str_forall no_slash name = true -> name <> EmptyString -> split_reference (name +:+ "/" +:+ id) = (name, id).
Proof.
  intros Hname Hne. change (name +:+ "/" +:+ id) with (name +:+ String "/" id). unfold split_reference.
  rewrite (slash_at _ _ Hname). destruct name as [|c name]; [done|]. cbn [String.length].
  change (S (slen name)) with (slen (String c name)). rewrite str_take_app. f_equal.
  change (String c name +:+ String "/" id) with (String c name +:+ "/" +:+ id). rewrite <- app_assoc_s.
  assert (S (slen (String c name)) = slen (String c name +:+ "/")) as -> by (rewrite slen_app; cbn; lia).
  apply str_drop_app.
Qed.

(** ** Properties *)

(** End to end, a live read is the provider's own read as the calling user.
    Over the broker's request handler, [read] of "<corpus>/<id>" runs the
    driver's user read once, for exactly that id, with the credential resolved
    for this caller and without the corpus's service credential; the document's
    text reaches the model, cited under the source's own title and link; and
    whatever the driver fails with is a text, never another credential's
    document. *)
Theorem read_reaches_driver {W : Type}
    (parse_url : string -> result string ParsedUrl) (decodeURIComponent : string -> result string string)
    (JSON_parse : string -> option json) (to_number : string -> number) (utf8_toString : string -> string)
    (encode : json -> string) (render : Body -> json) (text_of : Body -> string) (status_text : Z -> string)
    (o : ServerOptions W) (brokerUrl brokerToken : string) (b : CorpusBinding (Driver W))
    (credentials : DelegatedCredentialResolver W) (tool : ToolDescriptor) (exec : KnowledgeBaseExecSpec)
    (m : KnowledgeBaseExecMember) (sourceId : string) (caller : Caller) (c : DelegatedCredential) (firstIndex : Z)
    (reader : Credentials -> string -> SM W DriverError Document) (w w1 : W) :
  td_knowledgeBaseExec tool = Some exec -> ex_operation exec = op_read ->
  str_forall no_slash (em_id m) = true -> List.find (fun x => bool_decide (em_id x = em_id m)) (ex_members exec) = Some m ->
  holds_any (caller_roles caller) (em_allowedRoles m) = true ->
  delegatedToken credentials (caller_subject caller) (em_identityProviders m ?? []) w = (Ok (Some c), w1) ->
  live_ready parse_url decodeURIComponent o brokerToken b (em_id m) (dc_token c) (read_path (em_id m) sourceId) ->
  sourceId <> EmptyString -> decodeURIComponent (encodeURIComponent sourceId) = Ok sourceId ->
  readAsUser (binding_driver b) = Some reader -> (forall d, render (BDocument d) = JObj (document_fields d)) ->
  let run := read status_text
    (deliver_fetch (handle parse_url decodeURIComponent JSON_parse to_number utf8_toString o) encode render text_of
       (strip_slashes brokerUrl))
    brokerUrl brokerToken credentials tool (em_id m +:+ "/" +:+ sourceId) caller firstIndex w in
  match reader (mkCredentials None (Some (dc_token c))) sourceId w1 with
  | (Ok d, w') => exists res, run = (Ok res, w') /\ str_includes (doc_markdown d) (lr_result res) = true /\
      lr_sources res = (if str_empty (ref_url (doc_ref d)) then None
                        else Some [mkCitedSource firstIndex (ref_title (doc_ref d)) (ref_url (doc_ref d))])
  | (Err _, w') => exists text, run = (Ok (plain_result text), w')
  end.
Proof.
  intros Hexec Hop Hslash Hfind Hopen Htoken Hready Hs Hdec Hreader Hrender run. subst run. unfold read.
  pose proof (lready_user _ _ _ _ _ _ _ _ Hready) as (Hn & _ & Hne & _).
  rewrite Hexec, Hop, bool_decide_true by done. cbn [negb]. rewrite split_reference_at by done.
  destruct (str_empty (em_id m)) eqn:E1; [by apply str_empty_true in E1|].
  destruct (str_empty sourceId) eqn:E2; [by apply str_empty_true in E2|]. cbn [orb].
  rewrite Hfind, Hopen. cbn [negb]. unfold sbind. rewrite Htoken.
  destruct (str_empty (dc_token c)) eqn:E3; [by apply str_empty_true in E3|].
  pose proof (read_hop parse_url decodeURIComponent JSON_parse to_number utf8_toString encode render text_of o brokerUrl
    brokerToken b (em_id m) (dc_token c) sourceId reader w1 Hready Hs Hdec Hreader Hrender) as Hhop. unfold as_user in Hhop.
  destruct (reader _ sourceId w1) as [[d|e] w'].
  - destruct Hhop as (t & ->). unfold read_document. cbn [fetch_ok fp_status fp_json fp_text answer_json].
    change ((200 <=? 200) && (200 <=? 299)) with true. cbn [negb result_bind].
    change (str_field "title" (document_fields d)) with (Some (ref_title (doc_ref d))).
    change (str_field "markdown" (document_fields d)) with (Some (doc_markdown d)).
    change (str_field "url" (document_fields d)) with (Some (ref_url (doc_ref d))). cbn [nullish truthy_str].
    destruct (str_empty (ref_url (doc_ref d))); cbn [negb].
    + eexists. split; [reflexivity|]. split; [|done]. cbn [lr_result plain_result].
      do 6 apply str_includes_r. rewrite <- (app_empty_r (doc_markdown d)) at 2. apply (str_includes_app EmptyString).
    + eexists. split; [reflexivity|]. split; [|done]. cbn [lr_result].
      do 10 apply str_includes_r. rewrite <- (app_empty_r (doc_markdown d)) at 2. apply (str_includes_app EmptyString).
  - destruct Hhop as (r & -> & Hok & _). unfold read_document. rewrite Hok. by eexists.
Qed.

(** End to end, a structured query reaches the provider's driver as the
    planner meant it and as the caller. For whatever text the planner wrote, the
    query that [parsePlannerQuery] made of it, sent to one member through the
    broker's handler and its own validation, is run by the driver once, with
    the same fields, sort and limit, in the corpus's scope, with the caller's
    credential and no other; its hits come back in order, a filter it could
    not apply is reported instead of the hits, and a failure is a note. *)
Theorem query_reaches_driver {W : Type}
    (parse_url : string -> result string ParsedUrl) (decodeURIComponent : string -> result string string)
    (JSON_parse : string -> option json) (to_number : string -> number) (utf8_toString : string -> string)
    (encode : json -> string) (render : Body -> json) (text_of : Body -> string) (status_text : Z -> string)
    (JSON_parse_or : string -> result string json)
    (o : ServerOptions W) (brokerUrl brokerToken : string) (b : CorpusBinding (Driver W))
    (m : KnowledgeBaseExecMember) (userToken raw : string) (q : PlannerQuery) (x : number)
    (driver_query : Credentials -> Scope -> SourceQuery -> SM W DriverError QueryResult) (w : W) :
  parsePlannerQuery JSON_parse_or raw = Ok q -> modern "after" q -> modern "before" q ->
  limit_prop q = Some x -> isInteger x = true ->
  live_ready parse_url decodeURIComponent o brokerToken b (em_id m) userToken (query_path (em_id m)) ->
  carries_query JSON_parse utf8_toString encode q -> queryAsUser (binding_driver b) = Some driver_query ->
  (forall r, render (BQuery r) = answer_fields r) ->
  let run := queryThroughBroker JSON_parse status_text
    (deliver_fetch (handle parse_url decodeURIComponent JSON_parse to_number utf8_toString o) encode render text_of
       (strip_slashes brokerUrl))
    brokerUrl brokerToken m (filter_of q) userToken w in
  match driver_query (mkCredentials None (Some userToken)) (binding_scope b) (sent_query q) w with
  | (Ok r, w') => run = (Ok (match result_unsupported r ?? [] with
                             | [] => mkAnswer (item_of_hit <$> result_hits r) None
                             | fields => mkAnswer [] (Some ("cannot filter by " +:+ join ", " fields))
                             end), w')
  | (Err _, w') => exists note, run = (Ok (mkAnswer [] (Some note)), w') /\ note <> EmptyString
  end.
Proof.
  intros Hparse Ha Hb Hx Hint Hready Hbody Hrun Hrender run. subst run.
  destruct (planner_run _ _ _ Hparse Ha Hb) as (s & x' & _ & Hx' & Hsent & Hmax). rewrite Hx in Hx'. injection Hx' as <-.
  rewrite Hint in Hsent.
  pose proof (query_hop parse_url decodeURIComponent JSON_parse to_number utf8_toString encode render text_of o brokerUrl brokerToken b
    (em_id m) userToken q x driver_query w Hready Hbody Hrun Hrender Hsent Hx Hmax) as Hhop. unfold as_user in Hhop.
  unfold queryThroughBroker, ask. destruct (driver_query _ _ _ w) as [[r|e] w'].
  - destruct Hhop as (t & ->). unfold read_query. cbn [fp_status fetch_ok fp_json].
    change ((200 =? 404) || negb ((200 <=? 200) && (200 <=? 299))) with false. cbv iota. cbn [answer_json fp_json result_bind].
    rewrite unsupported_of_answer, hits_of_answer. by destruct (result_unsupported r ?? []).
  - destruct Hhop as (r & -> & Hok & H404). unfold read_query, refused_answer. rewrite Hok, orb_true_r.
    rewrite (proj2 (Z.eqb_neq _ _) H404). eexists. split; [reflexivity|].
    unfold refusalNote. by destruct (str_empty _).
Qed.

(** ** A source that can be read and queried *)

Definition plan_document (id : string) : Document := mkDocument (mkResourceRef id "Launch plan" "https://wiki/plan" None None None) "# May".
Definition plan_hit : SearchHit := mkSearchHit (mkResourceRef "p1" "Launch plan" "https://wiki/plan" None (Some "2024-03-01") None) None.

(** It serves the holder of "alice", and counts the calls. *)
Definition live_driver : Driver nat :=
  mkDriver "confluence" (fun _ => Ok tt) (fun _ _ _ => sret (mkListPage [] None)) (fun _ _ _ => sthrow (OtherError "gone"))
    per_resource (fun _ _ _ => sthrow (TransientError "busy")) None
    (Some (fun creds id n => if bool_decide (creds = as_user "alice") then (Ok (plan_document id), S n)
                             else (Err (PermissionDeniedError "not yours"), S n)))
    None
    (Some (fun creds _ _ n => if bool_decide (cred_delegated creds = Some "alice") then (Ok (mkQueryResult [plan_hit] None), S n)
                              else (Err (PermissionDeniedError "not yours"), S n))).

Definition live_binding : CorpusBinding (Driver nat) :=
  mkCorpusBinding "eng" "wiki" live_driver (mkScope (Some "ENG") None None) ["dev"] "svc".
Definition live_options : ServerOptions nat :=
  mkServerOptions (mkAuthConfig "orch" []) (registry_of (static_bindings [live_binding])) None None.

Definition live_render (b : Body) : json :=
  match b with
  | BDocument d => JObj (document_fields d)
  | BQuery r => answer_fields r
  | _ => JNull
  end.

Definition live_encode (j : json) : string := "{text: retro}".
Definition live_parse (s : string) : option json := Some (JObj (filter_of sample_query)).

Definition eng_member : KnowledgeBaseExecMember := mkExecMember "eng" "Wiki" "corpus_eng" ["staff"] None (Some ["atlassian"]).
Definition alice_credential : DelegatedCredential := mkDelegatedCredential "alice" None.
Definition alice_resolver : DelegatedCredentialResolver nat :=
  mkResolver (fun _ _ => sret (Some alice_credential)) (fun _ _ => sret [("atlassian", alice_credential)]).
Definition eng_tool (operation : KbOperation) : ToolDescriptor :=
  mkToolDescriptor "kb:eng/live" "Live" "" ["staff"] false (Some (mkExecSpec "eng" "Engineering" operation [eng_member] true)).

(** [decodeURIComponent] on the segments of the examples. *)
Definition sample_decode (s : string) : result string string := Ok (if bool_decide (s = "space%2Fp1") then "space/p1" else s).

Definition live_http : FetchRequest -> SM nat string FetchResponse :=
  deliver_fetch (handle plain_url sample_decode live_parse (fun _ => NaN) id live_options) live_encode live_render (fun _ => EmptyString)
    "http://broker".

Lemma live_ready_at path : live_ready plain_url sample_decode live_options "orch" live_binding "eng" "alice" path.
Proof. split; [|done]. by split_and!; vm_compute. Qed.

Lemma read_reaches_driver_witness :
  exists res, read (fun _ => "403") live_http "http://broker" "orch" alice_resolver (eng_tool op_read) "eng/space/p1" staff 3 0%nat =
    (Ok res, 1%nat) /\ str_includes "# May" (lr_result res) = true /\
    lr_sources res = Some [mkCitedSource 3 "Launch plan" "https://wiki/plan"].
Proof.
  exact (read_reaches_driver plain_url sample_decode live_parse (fun _ => NaN) id live_encode live_render (fun _ => EmptyString)
    (fun _ => "403") live_options "http://broker" "orch" live_binding alice_resolver (eng_tool op_read)
    (mkExecSpec "eng" "Engineering" op_read [eng_member] true) eng_member "space/p1" staff alice_credential 3
    (fun creds id n => if bool_decide (creds = as_user "alice") then (Ok (plan_document id), S n)
                       else (Err (PermissionDeniedError "not yours"), S n))
    0%nat 0%nat eq_refl eq_refl eq_refl ltac:(by vm_compute) ltac:(by vm_compute) eq_refl (live_ready_at _) ltac:(done)
    eq_refl eq_refl ltac:(done)).
Defined.

Lemma query_reaches_driver_witness :
  queryThroughBroker live_parse (fun _ => "403") live_http "http://broker" "orch" eng_member (filter_of sample_query) "alice" 0%nat =
  (Ok (mkAnswer [mkBrokerItem "p1" (Some "Launch plan") (Some "https://wiki/plan") (Some "2024-03-01") None] None), 1%nat).
Proof.
  refine (query_reaches_driver plain_url sample_decode live_parse (fun _ => NaN) id live_encode live_render (fun _ => EmptyString)
    (fun _ => "403") sample_parse live_options "http://broker" "orch" live_binding eng_member "alice" sample_raw sample_query
    (num_of_Z 25) (fun creds _ _ n => if bool_decide (cred_delegated creds = Some "alice") then (Ok (mkQueryResult [plan_hit] None), S n)
                              else (Err (PermissionDeniedError "not yours"), S n))
    0%nat _ _ _ eq_refl eq_refl (live_ready_at _) _ eq_refl _).
  - by vm_compute.
  - intros s y m d [= <-] Hd. vm_compute in Hd. injection Hd as <- <- <-. lia.
  - intros s y m d Hs. by vm_compute in Hs.
  - split; [apply Nat.leb_le; by vm_compute|]. split; by vm_compute.
  - done.
Defined.
