(* ===== verification/IdentityLink.v ===== *)
(** * Agent orchestrator: identities, identity providers and linked accounts

    The caller's [Identity] (rbac/types.ts), the canonical subject of a person
    (identity-link/credential-subject.ts), the catalog of identity providers
    (identity-link/identity-provider-catalog.ts), and the port behind which the
    gateway keeps linked accounts, with its three HTTP clients
    (gateway-client.ts, claude-auth-gateway-client.ts,
    claude-remote-gateway-client.ts of identity-link). *)

From stdpp Require Import base gmap strings list sorting.
From Stdlib Require Import ZArith Lia Ascii.
From S2P Require Import Prelude JsString JsNumber Json JsMap EventValues JsList HttpSource Fetch KnowledgeBase KbSearch.

#[local] Open Scope Z_scope.

(** ** The caller (rbac/types.ts) *)

Record Identity := mkIdentity {
  id_subject : string;
  id_roles : list string;
  id_principal : option string;
  id_perUser : bool;
  id_email : option string
}.

#[export] Instance Identity_eq_dec : EqDecision Identity.
Proof. solve_decision. Defined.

(** ** The gateway's port (gateway-client.ts) *)

Inductive LinkFlow := flow_device | flow_authcode.

#[export] Instance LinkFlow_eq_dec : EqDecision LinkFlow.
Proof. solve_decision. Defined.

Inductive IdentityLinkStartResult :=
| IdentityLinkStart (verificationUri userCode deviceCode : string) (expiresInSeconds pollIntervalSeconds : Z)
| IdentityLinkAuthCodeStart (authorizeUrl : string) (expiresInSeconds : Z)
| IdentityLinkPageStart (pageUrl : string) (expiresInSeconds : Z).

Definition start_expires (s : IdentityLinkStartResult) : Z :=
  match s with
  | IdentityLinkStart _ _ _ n _ | IdentityLinkAuthCodeStart _ n | IdentityLinkPageStart _ n => n
  end.

Inductive IdentityLinkPollStatus := poll_pending | poll_complete | poll_expired | poll_denied.

Record IdentityLinkToken := mkLinkToken {
  lt_token : string;
  lt_githubLogin : option string
}.

(** The methods a port may lack are options; a rejection carries its message. *)
Record IdentityLinkPort (W : Type) := mkPort {
  port_start : string -> string -> LinkFlow -> SM W string IdentityLinkStartResult;
  port_poll : string -> string -> string -> SM W string IdentityLinkPollStatus;
  port_getToken : string -> string -> SM W string (option IdentityLinkToken);
  port_waitForCompletion : option (string -> string -> Z -> SM W string (option IdentityLinkToken));
  port_invalidate : option (string -> string -> SM W string unit);
  port_rekey : option (string -> string -> string -> SM W string bool);
  port_getLinkedLogin : option (string -> string -> SM W string (option string));
  port_getLinkedAccountId : option (string -> string -> SM W string (option string))
}.
Arguments mkPort {W}.
Arguments port_start {W} i.
Arguments port_poll {W} i.
Arguments port_getToken {W} i.
Arguments port_waitForCompletion {W} i.
Arguments port_invalidate {W} i.
Arguments port_rekey {W} i.
Arguments port_getLinkedLogin {W} i.
Arguments port_getLinkedAccountId {W} i.

(** ** The clients *)

Definition flow_name (flow : LinkFlow) : string :=
  match flow with
  | flow_device => "device"
  | flow_authcode => "authcode"
  end.

(** [s.replace(/\/$/, "")] *)
Definition strip_one_slash (s : string) : string :=
  match lastIndexOf "/"%char s with
  | Some n => if Nat.eqb (S n) (slen s) then str_take n s else s
  | None => s
  end.

(** A property read off a body: of [null] it throws, and a value of another
    type than the declared one reads as absent. *)
Definition body_field (k : string) (j : json) : result string (option string) :=
  match j with
  | JNull => Err "TypeError"
  | JObj fields => Ok (str_field k fields)
  | _ => Ok None
  end.

Definition CLAUDE_PAGE_SECONDS : Z := 10 * 60.

Section Clients.
Context {W : Type}.
(** [fetch], the decimal rendering of a number, and the bodies read at their
    declared types without a check. *)
Variable http : FetchRequest -> SM W string FetchResponse.
Variable number_text : Z -> string.
Variable as_start : json -> IdentityLinkStartResult.
Variable as_token : json -> IdentityLinkToken.
Variable as_status : json -> IdentityLinkPollStatus.
Variables baseUrl token : string.

Definition post_json (path : string) (fields : list (string * json)) : FetchRequest :=
  mkFetchRequest (strip_one_slash baseUrl +:+ path) "POST"
    [("content-type", "application/json"); ("authorization", bearer token)] (Some (JObj fields)).

Definition get_request (path : string) : FetchRequest :=
  mkFetchRequest (strip_one_slash baseUrl +:+ path) "GET" [("authorization", bearer token)] None.

(** [throw new Error(`... ${res.status} ${await res.text()}`)] *)
Definition refuse {A : Type} (what : string) (res : FetchResponse) : result string A :=
  match fp_text res with
  | Ok text => Err (what +:+ " failed: " +:+ number_text (fp_status res) +:+ " " +:+ text)
  | Err e => Err e
  end.

Definition send {A : Type} (request : FetchRequest) (read : FetchResponse -> result string A) : SM W string A := fun w =>
  match http request w with
  | (Ok res, w') => (read res, w')
  | (Err e, w') => (Err e, w')
  end.

(** A lookup: some statuses mean that there is nothing. *)
Definition read_lookup {A : Type} (what : string) (nothing : list Z) (read : json -> result string A) (res : FetchResponse) :
    result string (option A) :=
  if bool_decide (fp_status res ∈ nothing) then Ok None
  else if negb (fetch_ok res) then refuse what res
  else let? body := fp_json res in let? a := read body in Ok (Some a).

(** The option of an option that [return body.field] yields. *)
Definition flatten_lookup {A : Type} (r : result string (option (option A))) : result string (option A) :=
  let? o := r in Ok (mjoin o).

Definition client_start (provider subject : string) (flow : LinkFlow) : SM W string IdentityLinkStartResult :=
  send (post_json ("/identity-link/" +:+ provider +:+ "/start") [("subject", JStr subject); ("flow", JStr (flow_name flow))])
    (fun res => if negb (fetch_ok res) then refuse ("identity-link start (" +:+ provider +:+ ")") res
                else let? body := fp_json res in Ok (as_start body)).

Definition recordPrincipal (email subject : string) : SM W string unit :=
  send (mkFetchRequest (strip_one_slash baseUrl +:+ "/connections/api/principals") "PUT"
          [("content-type", "application/json"); ("authorization", bearer token)]
          (Some (JObj [("email", JStr email); ("subject", JStr subject)])))
    (fun res => if negb (fetch_ok res) then refuse "connections principal record" res else Ok tt).

Definition identity_path (provider subject : string) : string :=
  "/identity-link/" +:+ provider +:+ "/identity?subject=" +:+ encodeURIComponent subject.

Definition client_identity (field provider subject : string) : SM W string (option string) :=
  send (get_request (identity_path provider subject))
    (fun res => flatten_lookup
       (read_lookup ("identity-link identity lookup (" +:+ provider +:+ ")") [404; 400] (body_field field) res)).

Definition client_getLinkedLogin : string -> string -> SM W string (option string) := client_identity "githubLogin".
Definition client_getLinkedAccountId : string -> string -> SM W string (option string) := client_identity "accountId".

Definition client_poll (provider subject deviceCode : string) : SM W string IdentityLinkPollStatus :=
  send (post_json ("/identity-link/" +:+ provider +:+ "/poll") [("subject", JStr subject); ("deviceCode", JStr deviceCode)])
    (fun res => if negb (fetch_ok res) then refuse ("identity-link poll (" +:+ provider +:+ ")") res
                else let? body := fp_json res in Ok (as_status body)).

Definition client_getToken (provider subject : string) : SM W string (option IdentityLinkToken) :=
  send (get_request ("/identity-link/" +:+ provider +:+ "/token?subject=" +:+ encodeURIComponent subject))
    (read_lookup ("identity-link token lookup (" +:+ provider +:+ ")") [404; 400] (fun body => Ok (as_token body))).

(** [body.status === "complete" ? body.token : undefined] *)
Definition completed {A : Type} (read : json -> option A) (body : json) : result string (option A) :=
  let? status := body_field "status" body in
  Ok (if bool_decide (status = Some "complete") then read body else None).

Definition client_waitForCompletion (provider subject : string) (timeoutMs : Z) : SM W string (option IdentityLinkToken) :=
  send (post_json ("/identity-link/" +:+ provider +:+ "/wait") [("subject", JStr subject); ("timeoutMs", JNum (num_of_Z timeoutMs))])
    (fun res => if negb (fetch_ok res) then refuse ("identity-link wait (" +:+ provider +:+ ")") res
                else let? body := fp_json res in
                     completed (fun b => match b with JObj fields => as_token <$> jget "token" fields | _ => None end) body).

Definition IdentityLinkGatewayClient : IdentityLinkPort W :=
  mkPort client_start client_poll client_getToken (Some client_waitForCompletion) None None (Some client_getLinkedLogin)
    (Some client_getLinkedAccountId).

(** The two clients of the Claude flows differ in a [mode] and in the field
    that carries the credential. *)
Record ClaudeMode := mkClaudeMode {
  cm_mode : list (string * json);
  cm_query : string;
  cm_label : string;
  cm_field : string
}.

Definition setup_token_mode : ClaudeMode := mkClaudeMode [] EmptyString EmptyString "token".
Definition login_mode : ClaudeMode := mkClaudeMode [("mode", JStr "login")] "&mode=login" " (login)" "credentialsJson".

Definition claude_start (m : ClaudeMode) (provider subject : string) (flow : LinkFlow) : SM W string IdentityLinkStartResult :=
  send (post_json "/claude-auth/api/start" (("subject", JStr subject) :: cm_mode m))
    (fun res => if negb (fetch_ok res) then refuse ("claude-auth start" +:+ cm_label m) res
                else let? body := fp_json res in let? pageUrl := body_field "pageUrl" body in
                     Ok (IdentityLinkPageStart (pageUrl ?? EmptyString) CLAUDE_PAGE_SECONDS)).

Definition claude_getToken (m : ClaudeMode) (provider subject : string) : SM W string (option IdentityLinkToken) :=
  send (get_request ("/claude-auth/api/token?subject=" +:+ encodeURIComponent subject +:+ cm_query m))
    (read_lookup ("claude-auth token lookup" +:+ cm_label m) [404]
       (fun body => let? t := body_field (cm_field m) body in Ok (mkLinkToken (t ?? EmptyString) None))).

Definition claude_waitForCompletion (m : ClaudeMode) (provider subject : string) (timeoutMs : Z) :
    SM W string (option IdentityLinkToken) :=
  send (post_json "/claude-auth/api/wait" ((("subject", JStr subject) :: cm_mode m) ++ [("timeoutMs", JNum (num_of_Z timeoutMs))]))
    (fun res => if negb (fetch_ok res) then refuse ("claude-auth wait" +:+ cm_label m) res
                else let? body := fp_json res in let? t := body_field (cm_field m) body in
                     completed (fun _ => if truthy_str t then Some (mkLinkToken (t ?? EmptyString) None) else None) body).

Definition claude_invalidate (m : ClaudeMode) (provider subject : string) : SM W string unit :=
  send (post_json "/claude-auth/api/invalidate" (("subject", JStr subject) :: cm_mode m))
    (fun res => if negb (fetch_ok res) then refuse ("claude-auth invalidate" +:+ cm_label m) res else Ok tt).

(** Best effort: a failure leaves the credential where it is. *)
Definition claude_rekey (m : ClaudeMode) (provider fromSubject toSubject : string) : SM W string bool :=
  scatch
    (send (post_json "/claude-auth/api/rekey" ([("from", JStr fromSubject); ("to", JStr toSubject)] ++ cm_mode m))
       (fun res => if negb (fetch_ok res) then Ok false
                   else let? body := fp_json res in let? status := body_field "status" body in
                        Ok (bool_decide (status = Some "moved"))))
    (fun _ => sret false).

Definition claude_poll (who : string) (provider subject deviceCode : string) : SM W string IdentityLinkPollStatus :=
  sthrow (who +:+ " provider has no device-flow poll step").

Definition ClaudeAuthGatewayClient : IdentityLinkPort W :=
  mkPort (claude_start setup_token_mode) (claude_poll "ClaudeAuthGatewayClient.poll is not supported -- the claude")
    (claude_getToken setup_token_mode) (Some (claude_waitForCompletion setup_token_mode))
    (Some (claude_invalidate setup_token_mode)) (Some (claude_rekey setup_token_mode)) None None.

Definition ClaudeRemoteGatewayClient : IdentityLinkPort W :=
  mkPort (claude_start login_mode) (claude_poll "ClaudeRemoteGatewayClient.poll is not supported -- the claude-remote")
    (claude_getToken login_mode) (Some (claude_waitForCompletion login_mode))
    (Some (claude_invalidate login_mode)) (Some (claude_rekey login_mode)) None None.

(** A grant to write refreshed credentials back. *)
Record WritebackGrant := mkGrant {
  gr_url : string;
  gr_token : string;
  gr_secretName : option string
}.

Definition read_grant (body : json) : result string (option WritebackGrant) :=
  let? t := body_field "token" body in
  let? url := body_field "url" body in
  let? secret := body_field "secretName" body in
  Ok (if negb (truthy_str t) || negb (truthy_str url) then None
      else Some (mkGrant (url ?? EmptyString) (t ?? EmptyString) (if truthy_str secret then secret else None))).

Definition createWritebackGrant (subject : string) (ttlSeconds : Z) : SM W string (option WritebackGrant) :=
  scatch
    (send (post_json "/claude-auth/api/writeback-token" [("subject", JStr subject); ("ttlSeconds", JNum (num_of_Z ttlSeconds))])
       (fun res => if negb (fetch_ok res) then Ok None else let? body := fp_json res in read_grant body))
    (fun _ => sret None).
End Clients.

(** ** The catalog of identity providers (identity-provider-catalog.ts) *)

Inductive IdentityProviderFlow := oauth | claude_cli_setup_token | claude_remote_login.

#[export] Instance IdentityProviderFlow_eq_dec : EqDecision IdentityProviderFlow.
Proof. solve_decision. Defined.

Record IdentityProviderConfig := mkProviderConfig {
  pc_envVar : string;
  pc_label : string;
  pc_flow : IdentityProviderFlow;
  pc_crossEntryPoint : bool
}.

(** What a catalog answers: [get]. *)
Definition IdentityProviderCatalog : Type := string -> option IdentityProviderConfig.

Definition DEFAULT_IDENTITY_PROVIDERS : list (string * IdentityProviderConfig) :=
  [("github", mkProviderConfig "GITHUB_TOKEN" "GitHub" oauth false);
   ("claude", mkProviderConfig "CLAUDE_CODE_OAUTH_TOKEN" "Claude" claude_cli_setup_token true);
   ("claude-remote", mkProviderConfig "CLAUDE_LOGIN_CREDENTIALS_JSON" "Claude Remote Control" claude_remote_login true)].

(** A name inherited from [Object.prototype] finds a function, of which every
    field the callers read is undefined: the same as no entry. *)
Definition DEFAULT_IDENTITY_PROVIDER_CATALOG : IdentityProviderCatalog := fun provider =>
  own_get provider DEFAULT_IDENTITY_PROVIDERS.

Definition resolveIdentityProviderCatalog (catalog : option IdentityProviderCatalog) : IdentityProviderCatalog :=
  catalog ?? DEFAULT_IDENTITY_PROVIDER_CATALOG.

Record IdentityGateways (W : Type) := mkGateways {
  gw_identityLink : option (IdentityLinkPort W);
  gw_claudeAuth : option (IdentityLinkPort W);
  gw_claudeRemote : option (IdentityLinkPort W)
}.
Arguments mkGateways {W}.
Arguments gw_identityLink {W} i.
Arguments gw_claudeAuth {W} i.
Arguments gw_claudeRemote {W} i.

Definition resolveIdentityGateway {W : Type} (provider : string) (catalog : IdentityProviderCatalog)
    (deps : IdentityGateways W) : option (IdentityLinkPort W) :=
  match (pc_flow <$> catalog provider) ?? oauth with
  | claude_cli_setup_token => gw_claudeAuth deps
  | claude_remote_login => gw_claudeRemote deps
  | oauth => gw_identityLink deps
  end.

Record IdentityProviderSpec := mkProviderSpec {
  ps_envVar : option string;
  ps_label : option string;
  ps_flow : option IdentityProviderFlow;
  ps_crossEntryPoint : option bool
}.

Record IdentityProviderCustomResource := mkProviderCR {
  pcr_name : option string;
  pcr_spec : option IdentityProviderSpec
}.

Definition toIdentityProviderConfig (cr : IdentityProviderCustomResource) : option IdentityProviderConfig :=
  match pcr_spec cr with
  | None => None
  | Some spec =>
      if negb (truthy_str (ps_envVar spec)) || negb (truthy_str (ps_label spec)) then None
      else Some (mkProviderConfig (ps_envVar spec ?? EmptyString) (ps_label spec ?? EmptyString) (ps_flow spec ?? oauth)
                   (ps_crossEntryPoint spec ?? false))
  end.

(** The entry a resource stands for. *)
Definition provider_entry (cr : IdentityProviderCustomResource) : option (string * IdentityProviderConfig) :=
  match pcr_name cr, toIdentityProviderConfig cr with
  | Some id, Some config => if str_empty id then None else Some (id, config)
  | _, _ => None
  end.

Definition providers_listAll (items : option (list IdentityProviderCustomResource)) : list (string * IdentityProviderConfig) :=
  omap provider_entry (items ?? []).

Definition providers_on_watch (phase : WatchPhase) (cr : IdentityProviderCustomResource) :
    option (CrdChangeEvent (string * IdentityProviderConfig)) :=
  if negb (truthy_str (pcr_name cr)) then None
  else if decide (phase = DELETED) then Some (ce_delete (pcr_name cr ?? EmptyString))
  else (fun config => ce_upsert (pcr_name cr ?? EmptyString, config)) <$> toIdentityProviderConfig cr.

(** [InMemoryIdentityProviderCatalog]: its map, and the events that feed it. *)
Definition catalog_of (initial : list (string * IdentityProviderConfig)) : jsmap IdentityProviderConfig := map_of initial.
Definition catalog_get (byName : jsmap IdentityProviderConfig) : IdentityProviderCatalog := fun provider => map_get provider byName.
Definition catalog_upsert (id : string) (config : IdentityProviderConfig) (byName : jsmap IdentityProviderConfig) :
    jsmap IdentityProviderConfig := map_set id config byName.
Definition catalog_delete (id : string) (byName : jsmap IdentityProviderConfig) : jsmap IdentityProviderConfig := map_delete id byName.

(** ** Who the caller is (credential-subject.ts) *)

Definition CANONICAL_PRINCIPAL_PREFIX : string := "github:".

Definition canonicalSubjectForLogin (login : string) : string := CANONICAL_PRINCIPAL_PREFIX +:+ toLowerCase login.

Definition isCanonicalPrincipal (principal : string) : bool := startsWith CANONICAL_PRINCIPAL_PREFIX principal.

Section Subject.
Context {W : Type}.

(** The login, or nothing; a lookup that fails is nothing as well. *)
Definition resolveActorLogin (rawSubject : string) (senderLogin : option string) (gateway : option (IdentityLinkPort W)) :
    SM W string (option string) :=
  if truthy_str senderLogin then sret senderLogin
  else
    match gateway with
    | None => sret None
    | Some port =>
        scatch
          (match port_getLinkedLogin port with
           | Some getLinkedLogin => getLinkedLogin "github" rawSubject
           | None => do! t <- port_getToken port "github" rawSubject ;; sret (t ≫= lt_githubLogin)
           end)
          (fun _ => sret None)
    end.

Definition resolvePrincipal (rawSubject : string) (senderLogin : option string) (gateway : option (IdentityLinkPort W)) :
    SM W string string :=
  do! login <- resolveActorLogin rawSubject senderLogin gateway ;;
  sret (if truthy_str login then canonicalSubjectForLogin (login ?? EmptyString) else rawSubject).
End Subject.

(** ** Lemmas *)

Lemma prefix_own s t : String.prefix s (s +:+ t) = true.
Proof. apply prefix_app. Qed.

Lemma canonical_login login : isCanonicalPrincipal (canonicalSubjectForLogin login) = true.
Proof. apply prefix_own. Qed.

(** An invariant that the lookups keep is kept by the resolution. *)
Lemma keeps_resolveActorLogin {W : Type} (I : W -> Prop) raw sender (gateway : option (IdentityLinkPort W)) :
  (forall port, gateway = Some port -> keeps I (port_getToken port "github" raw)) ->
  (forall port f, gateway = Some port -> port_getLinkedLogin port = Some f -> keeps I (f "github" raw)) ->
  keeps I (resolveActorLogin raw sender gateway).
Proof.
  intros Htok Hlogin. unfold resolveActorLogin. destruct (truthy_str sender); [apply keeps_sret|].
  destruct gateway as [port|]; [|apply keeps_sret]. apply keeps_scatch; [|intros; apply keeps_sret].
  destruct (port_getLinkedLogin port) eqn:E; [by eapply Hlogin|].
  apply keeps_sbind; [by apply Htok|intros; apply keeps_sret].
Qed.
