(* ===== verification/Authorization.v ===== *)
(** * Agent orchestrator: the authorization of a launch

    agent/authorization-service.ts: given the caller and the agent about to be
    launched, whether the launch may proceed and which credentials it carries.
    [authorize] is the source's method, split at its loop bodies; its local
    variables are the fields of [Gate].

    The catalog is the one the call starts with: a custom resource that changes
    while the call waits is seen by the next one. Log lines are left out, apart
    from the expiry they carry. *)

From stdpp Require Import base gmap strings list sorting.
From Stdlib Require Import ZArith Lia Ascii.
From S2P Require Import Prelude JsString JsNumber Json JsMap EventValues JsList HttpSource Fetch KnowledgeBase KbSearch IdentityLink.

#[local] Open Scope Z_scope.

Definition ACTOR_LOGIN_ENV : string := "AGENT_ACTOR_LOGIN".
Definition PRINCIPAL_PROVIDER : string := "github".
Definition CREDENTIALS_WRITEBACK_URL : string := "CLAUDE_CREDENTIALS_WRITEBACK_URL".
Definition CREDENTIALS_WRITEBACK_TOKEN : string := "CLAUDE_CREDENTIALS_WRITEBACK_TOKEN".
Definition WRITEBACK_GRANT_MARGIN_SECONDS : Z := 15 * 60.
Definition START_ATTEMPTS : nat := 2.
Definition START_RETRY_DELAY_MS : Z := 1000.
Definition CONNECTIONS_LINK_TTL_SECONDS : Z := 10 * 60.

Definition WRITE_CAPABLE_PROVIDERS : list string := ["github"].

(** ** Data *)

Record CredentialEnvEntry := mkEnv {
  env_name : string;
  env_value : string
}.

#[export] Instance CredentialEnvEntry_eq_dec : EqDecision CredentialEnvEntry.
Proof. solve_decision. Defined.

Record PendingIdentityLink := mkPending {
  pl_agentId : string;
  pl_provider : string;
  pl_flow : string;
  pl_deviceCode : option string;
  pl_expiresAt : Z;
  pl_subject : string;
  pl_request : string
}.

Record AuthorizationRequest (W : Type) := mkAuthorizationRequest {
  rq_agentId : string;
  rq_identityProviders : option (list string);
  rq_identity : Identity;
  rq_request : string;
  rq_senderLogin : option string;
  rq_progressListener : option (string -> string -> SM W string unit);
  rq_reportIdentityLinkPending : option (string -> string -> SM W string unit);
  rq_identityLinkFlow : option LinkFlow;
  rq_readOnly : bool
}.
Arguments mkAuthorizationRequest {W}.
Arguments rq_agentId {W} a.
Arguments rq_identityProviders {W} a.
Arguments rq_identity {W} a.
Arguments rq_request {W} a.
Arguments rq_senderLogin {W} a.
Arguments rq_progressListener {W} a.
Arguments rq_reportIdentityLinkPending {W} a.
Arguments rq_identityLinkFlow {W} a.
Arguments rq_readOnly {W} a.

Inductive AuthorizationOutcome :=
| Authorized (secretEnv : option (list CredentialEnvEntry)) (actorLogin : option string) (principal : string)
    (ownedSecretNames : option (list string))
| LinkRequired (message : string) (pending : option PendingIdentityLink)
| Misconfigured (error : string).

Record AuthorizationServiceDeps (W : Type) := mkAuthorizationDeps {
  ad_connectionsUrl : option string;
  ad_gateways : IdentityGateways W;
  ad_claudeRemoteWriteback : option (string -> Z -> SM W string (option WritebackGrant));
  ad_agentRunTimeoutSeconds : option Z;
  ad_identityProviderCatalog : option IdentityProviderCatalog
}.
Arguments mkAuthorizationDeps {W}.
Arguments ad_connectionsUrl {W} a.
Arguments ad_gateways {W} a.
Arguments ad_claudeRemoteWriteback {W} a.
Arguments ad_agentRunTimeoutSeconds {W} a.
Arguments ad_identityProviderCatalog {W} a.

(** ** The texts of a link prompt *)

Definition linkPromptText (started : IdentityLinkStartResult) (label : string) : string :=
  match started with
  | IdentityLinkStart verificationUri userCode _ _ _ =>
      "[link your " +:+ label +:+ " account](" +:+ verificationUri +:+ ") and enter code `" +:+ userCode +:+ "`"
  | IdentityLinkAuthCodeStart authorizeUrl _ => "[link your " +:+ label +:+ " account](" +:+ authorizeUrl +:+ ")"
  | IdentityLinkPageStart pageUrl _ => "[link your " +:+ label +:+ " account](" +:+ pageUrl +:+ ")"
  end.

Definition started_flow (started : IdentityLinkStartResult) : string :=
  match started with
  | IdentityLinkStart _ _ _ _ _ => "device"
  | IdentityLinkAuthCodeStart _ _ => "authcode"
  | IdentityLinkPageStart _ _ => "page"
  end.

Definition started_device (started : IdentityLinkStartResult) : option string :=
  match started with
  | IdentityLinkStart _ _ deviceCode _ _ => Some deviceCode
  | _ => None
  end.

Definition joinLabels (labels : list string) : string :=
  match labels with
  | [] | [_] => join EmptyString labels
  | _ => join ", " (removelast labels) +:+ " and " +:+ List.last labels EmptyString
  end.

Definition usesConnectionsPage (connectionsUrl : option string) (callerSubject : string) (flow : LinkFlow) : bool :=
  truthy_str connectionsUrl && negb (bool_decide (flow = flow_device)) && startsWith "openwebui:" callerSubject.

Definition connectionsLinkText (pageUrl : string) (labels : list string) : string :=
  match labels with
  | [] => linkPromptText (IdentityLinkPageStart pageUrl CONNECTIONS_LINK_TTL_SECONDS) EmptyString
  | [label] => linkPromptText (IdentityLinkPageStart pageUrl CONNECTIONS_LINK_TTL_SECONDS) label
  | _ => "[connect your " +:+ joinLabels labels +:+ " accounts](" +:+ pageUrl +:+ ")"
  end.

Definition prompt_line (linkUrlText : string) : string :=
  "To continue, please " +:+ linkUrlText +:+ ". This is a one-time step — I'll continue automatically once you finish.".

(** ** The verdict's message *)

Record PendingLink := mkPendingLink {
  pd_provider : string;
  pd_label : string;
  pd_linkUrlText : string;
  pd_surfacedLive : bool;
  pd_pending : PendingIdentityLink
}.

(** The links to print: not surfaced live, and the first of the pending links
    with that text. [seen] are the texts before. *)
Fixpoint to_print (seen : list string) (links : list PendingLink) : list PendingLink :=
  match links with
  | [] => []
  | l :: rest =>
      let rest' := to_print (pd_linkUrlText l :: seen) rest in
      if negb (pd_surfacedLive l) && negb (has seen (pd_linkUrlText l)) then l :: rest' else rest'
  end.

Section Message.
(** The decimal rendering of a count. *)
Variable number_text : Z -> string.

Definition links_part (links : list PendingLink) : string :=
  match to_print [] links with
  | [l] => "To continue, please " +:+ pd_linkUrlText l +:+ ". This is a one-time step -- send any message once you're done."
  | [] =>
      match links with
      | [l] => "I haven't received your " +:+ pd_label l +:+ " account link yet. Send any message once you're done and I'll continue."
      | _ => "I haven't received your " +:+ join " and " (pd_label <$> links) +:+
             " account links yet. Send any message once you're done and I'll continue."
      end
  | printed => "To continue, I need you to link " +:+ number_text (Z.of_nat (length printed)) +:+ " accounts (one-time). Please " +:+
               join ", and " (pd_linkUrlText <$> printed) +:+ ". Send any message once you're done."
  end.

Definition failed_part (also : bool) (failedToStart : list string) : string :=
  let labels := join " and " failedToStart in
  if also
  then "I also couldn't start the " +:+ labels +:+ " linking step just now -- try again in a moment and I'll retry that part."
  else "I couldn't start the one-time " +:+ labels +:+
       " account-linking step just now. Please try again in a moment -- re-apply the label or send any message and I'll retry.".

Definition composeLinkRequiredMessage (pendingLinks : list PendingLink) (failedToStart : list string) : string :=
  let parts := match pendingLinks with [] => [] | _ => [links_part pendingLinks] end in
  join " " (parts ++ match failedToStart with
                     | [] => []
                     | _ => [failed_part (negb (Nat.eqb (length parts) 0)) failedToStart]
                     end).
End Message.

(** ** The state of a call *)

Record PlanEntry := mkPlanEntry {
  pe_name : string;
  pe_principalOnly : bool
}.

Record Deferred (W : Type) := mkDeferred {
  df_provider : string;
  df_gateway : IdentityLinkPort W;
  df_credentialSubject : string
}.
Arguments mkDeferred {W}.
Arguments df_provider {W} d.
Arguments df_gateway {W} d.
Arguments df_credentialSubject {W} d.

(** The local variables of [authorize]. *)
Record Gate (W : Type) := mkGate {
  g_secretEnv : option (list CredentialEnvEntry);
  g_ownedSecretNames : list string;
  g_pendingLinks : list PendingLink;
  g_failedToStart : list string;
  g_actorLoginFromLoop : option string;
  g_principal : string;
  g_principalLogin : option string;
  g_deferred : list (Deferred W);
  g_offered : list string
}.
Arguments mkGate {W}.
Arguments g_secretEnv {W} g.
Arguments g_ownedSecretNames {W} g.
Arguments g_pendingLinks {W} g.
Arguments g_failedToStart {W} g.
Arguments g_actorLoginFromLoop {W} g.
Arguments g_principal {W} g.
Arguments g_principalLogin {W} g.
Arguments g_deferred {W} g.
Arguments g_offered {W} g.

Section Gate.
Context {W : Type}.
Implicit Types (g : Gate W).

Definition gate_of (principal : string) (principalLogin : option string) : Gate W :=
  mkGate None [] [] [] None principal principalLogin [] [].

Definition add_env (entries : list CredentialEnvEntry) g : Gate W :=
  mkGate (Some ((g_secretEnv g ?? []) ++ entries)) (g_ownedSecretNames g) (g_pendingLinks g) (g_failedToStart g)
    (g_actorLoginFromLoop g) (g_principal g) (g_principalLogin g) (g_deferred g) (g_offered g).

Definition own_secret (secretName : option string) g : Gate W :=
  mkGate (g_secretEnv g) (g_ownedSecretNames g ++ (if truthy_str secretName then [secretName ?? EmptyString] else []))
    (g_pendingLinks g) (g_failedToStart g) (g_actorLoginFromLoop g) (g_principal g) (g_principalLogin g) (g_deferred g) (g_offered g).

Definition add_pending (link : PendingLink) g : Gate W :=
  mkGate (g_secretEnv g) (g_ownedSecretNames g) (g_pendingLinks g ++ [link]) (g_failedToStart g) (g_actorLoginFromLoop g)
    (g_principal g) (g_principalLogin g) (g_deferred g) (g_offered g).

Definition add_failed (label : string) g : Gate W :=
  mkGate (g_secretEnv g) (g_ownedSecretNames g) (g_pendingLinks g) (g_failedToStart g ++ [label]) (g_actorLoginFromLoop g)
    (g_principal g) (g_principalLogin g) (g_deferred g) (g_offered g).

Definition set_actorLogin (login : string) g : Gate W :=
  mkGate (g_secretEnv g) (g_ownedSecretNames g) (g_pendingLinks g) (g_failedToStart g) (Some login) (g_principal g)
    (g_principalLogin g) (g_deferred g) (g_offered g).

Definition set_principal (login : string) g : Gate W :=
  mkGate (g_secretEnv g) (g_ownedSecretNames g) (g_pendingLinks g) (g_failedToStart g) (g_actorLoginFromLoop g)
    (canonicalSubjectForLogin login) (Some login) (g_deferred g) (g_offered g).

Definition add_deferred (d : Deferred W) g : Gate W :=
  mkGate (g_secretEnv g) (g_ownedSecretNames g) (g_pendingLinks g) (g_failedToStart g) (g_actorLoginFromLoop g)
    (g_principal g) (g_principalLogin g) (g_deferred g ++ [d]) (g_offered g).

Definition add_offered (providers : list string) g : Gate W :=
  mkGate (g_secretEnv g) (g_ownedSecretNames g) (g_pendingLinks g) (g_failedToStart g) (g_actorLoginFromLoop g)
    (g_principal g) (g_principalLogin g) (g_deferred g) (foldl set_add (g_offered g) providers).
End Gate.

(** How a body of the loop ends: the loop goes on, it is left, or the method
    returns. *)
Inductive Step (W : Type) :=
| Next (g : Gate W)
| Last (g : Gate W)
| Return (outcome : AuthorizationOutcome).
Arguments Next {W}.
Arguments Last {W}.
Arguments Return {W}.

(** ** The service *)

Definition slift {W A : Type} (r : result string A) : SM W string A := fun w => (r, w).

Definition quoted (s : string) : string := q +:+ s +:+ q.

Section Service.
Context {W Url : Type}.
(** [new URL], and what the code does with it. *)
Variable parse_url : string -> result string Url.
Variable url_pathname : Url -> string.
Variable set_pathname : string -> Url -> Url.
Variable searchParams_set : string -> string -> Url -> Url.
Variable url_toString : Url -> string.
(** [Date.now], [setTimeout], and the decimal rendering of a count. *)
Variable now : W -> Z.
Variable sleep : Z -> SM W string unit.
Variable number_text : Z -> string.
Variable deps : AuthorizationServiceDeps W.

Definition connectionsPageStart (connectionsUrl : option string) (callerSubject : string) (providers : list string)
    (flow : LinkFlow) : result string (option string) :=
  match connectionsUrl with
  | Some page =>
      if negb (usesConnectionsPage connectionsUrl callerSubject flow) then Ok None
      else
        let? url := parse_url page in
        let url' := set_pathname (strip_slashes (url_pathname url) +:+ "/link") url in
        Ok (Some (url_toString (searchParams_set "need" (join "," providers) url')))
  | None => Ok None
  end.

Definition catalog : IdentityProviderCatalog := resolveIdentityProviderCatalog (ad_identityProviderCatalog deps).
Definition gatewayFor (provider : string) : option (IdentityLinkPort W) :=
  resolveIdentityGateway provider catalog (ad_gateways deps).
Definition isCrossEntryPoint (provider : string) : bool := (pc_crossEntryPoint <$> catalog provider) ?? false.
Definition label_of (provider : string) : string := (pc_label <$> catalog provider) ?? provider.

Fixpoint startAttempts (attempts : nat) (gateway : IdentityLinkPort W) (provider credentialSubject : string) (flow : LinkFlow) :
    SM W string (option IdentityLinkStartResult) :=
  match attempts with
  | O => sret None
  | S rest => fun w =>
      match port_start gateway provider credentialSubject flow w with
      | (Ok started, w') => (Ok (Some started), w')
      | (Err _, w') =>
          match rest with
          | O => (Ok None, w')
          | S _ => (do! _ <- sleep START_RETRY_DELAY_MS ;; startAttempts rest gateway provider credentialSubject flow) w'
          end
      end
  end.

Definition startWithRetry : IdentityLinkPort W -> string -> string -> LinkFlow -> SM W string (option IdentityLinkStartResult) :=
  startAttempts START_ATTEMPTS.

Definition waitForLink (gateway : IdentityLinkPort W) (provider credentialSubject : string) (timeoutMs : Z) :
    SM W string (option IdentityLinkToken) :=
  match port_waitForCompletion gateway with
  | None => sret None
  | Some wait => scatch (wait provider credentialSubject timeoutMs) (fun _ => sret None)
  end.

(** *** One call of [authorize] *)

Variable req : AuthorizationRequest W.

Definition identity : Identity := rq_identity req.
Definition subject : string := id_subject identity.
Definition flow : LinkFlow := rq_identityLinkFlow req ?? flow_authcode.
Definition viaPage : bool := usesConnectionsPage (ad_connectionsUrl deps) subject flow.
Definition page_start (providers : list string) : SM W string (option string) :=
  slift (connectionsPageStart (ad_connectionsUrl deps) subject providers flow).

(** The declared providers that this turn may use. *)
Definition withheld (provider : string) : bool := rq_readOnly req && has WRITE_CAPABLE_PROVIDERS provider.
Definition declared_plan : list PlanEntry :=
  (fun name => mkPlanEntry name false) <$> List.filter (fun name => negb (withheld name)) (rq_identityProviders req ?? []).

Definition needs_principal (plan : list PlanEntry) (principal : string) : bool :=
  existsb (fun p => isCrossEntryPoint (pe_name p)) plan && negb (isCanonicalPrincipal principal).

(** The login a link the caller already has gives, or that the lookup failed. *)
Inductive ExistingLogin := login_found (login : option string) | login_unknown.

Definition existing_login (principal : string) : SM W string ExistingLogin :=
  match gw_identityLink (ad_gateways deps) ≫= port_getLinkedLogin with
  | Some getLinkedLogin =>
      if needs_principal declared_plan principal && id_perUser identity
      then scatch (do! login <- getLinkedLogin PRINCIPAL_PROVIDER subject ;; sret (login_found login)) (fun _ => sret login_unknown)
      else sret (login_found None)
  | None => sret (login_found None)
  end.

Definition first_gate (found : ExistingLogin) : Gate W :=
  let principal := id_principal identity ?? subject in
  match found with
  | login_found (Some login) =>
      if str_empty login then gate_of principal None else gate_of (canonicalSubjectForLogin login) (Some login)
  | _ => gate_of principal None
  end.

Definition providerPlan (found : ExistingLogin) : list PlanEntry :=
  if needs_principal declared_plan (g_principal (first_gate found)) &&
     match found with login_found _ => true | login_unknown => false end &&
     match gw_identityLink (ad_gateways deps) with Some _ => true | None => false end &&
     id_perUser identity
  then mkPlanEntry PRINCIPAL_PROVIDER true :: declared_plan
  else declared_plan.

Definition unsupported (provider : string) : AuthorizationOutcome :=
  Misconfigured ("agent " +:+ rq_agentId req +:+ " declares unsupported identity provider " +:+ quoted provider).

Definition no_gateway (provider : string) : AuthorizationOutcome :=
  Misconfigured ("agent " +:+ rq_agentId req +:+ " requires identity providers (" +:+
    join ", " (rq_identityProviders req ?? []) +:+ ") but no identity-link gateway is configured for " +:+ quoted provider).

Definition add_grant (grant : option WritebackGrant) (g : Gate W) : Gate W :=
  match grant with
  | Some gr => own_secret (gr_secretName gr)
                 (add_env [mkEnv CREDENTIALS_WRITEBACK_URL (gr_url gr); mkEnv CREDENTIALS_WRITEBACK_TOKEN (gr_token gr)] g)
  | None => g
  end.

Definition settle (principalOnly : bool) (provider credentialSubject : string) (existing : IdentityLinkToken) (g : Gate W) :
    SM W string (Step W) :=
  let login := lt_githubLogin existing in
  if principalOnly then sret (Next (if truthy_str login then set_principal (login ?? EmptyString) g else g))
  else
    let g1 := if bool_decide (provider = "github") && truthy_str login then set_actorLogin (login ?? EmptyString) g else g in
    let envVarName := pc_envVar <$> catalog provider in
    if negb (truthy_str envVarName) then sret (Return (unsupported provider))
    else
      let g2 := add_env [mkEnv (envVarName ?? EmptyString) (lt_token existing)] g1 in
      match ad_claudeRemoteWriteback deps with
      | Some createGrant =>
          if bool_decide (provider = "claude-remote")
          then do! grant <- createGrant credentialSubject ((ad_agentRunTimeoutSeconds deps ?? 0) + WRITEBACK_GRANT_MARGIN_SECONDS) ;;
               sret (Next (add_grant grant g2))
          else sret (Next g2)
      | None => sret (Next g2)
      end.

(** The stored credential, adopted from the raw subject where that is allowed. *)
Definition may_adopt (provider credentialSubject : string) : bool :=
  isCrossEntryPoint provider && id_perUser identity && negb (bool_decide (credentialSubject = subject)).

Definition find_token (gateway : IdentityLinkPort W) (provider credentialSubject : string) :
    SM W string (option IdentityLinkToken) :=
  do! existing <- port_getToken gateway provider credentialSubject ;;
  match existing, port_rekey gateway with
  | None, Some rekey =>
      if may_adopt provider credentialSubject
      then do! moved <- rekey provider subject credentialSubject ;;
           if (moved : bool) then port_getToken gateway provider credentialSubject else sret None
      else sret None
  | _, _ => sret existing
  end.

Definition tell (message : string) : SM W string unit :=
  match rq_progressListener req with
  | Some listener => listener "identity-link" message
  | None => sret tt
  end.

Definition report_pending (provider credentialSubject : string) : SM W string unit :=
  match rq_reportIdentityLinkPending req with
  | Some report => report provider credentialSubject
  | None => sret tt
  end.

Definition streaming : bool := match rq_progressListener req with Some _ => true | None => false end.

(** A parked link: the resume anchor it is recorded against. *)
Definition park (provider credentialSubject linkUrlText : string) (started : IdentityLinkStartResult) : SM W string PendingLink :=
  fun w =>
  (Ok (mkPendingLink provider (label_of provider) linkUrlText streaming
         (mkPending (rq_agentId req) provider (started_flow started) (started_device started)
            (now w + start_expires started * 1000) credentialSubject (rq_request req))), w).

(** The providers a page link names: this one and those after it. *)
Definition page_providers (provider : string) (rest : list PlanEntry) : list string :=
  if viaPage then set_of (provider :: (pe_name <$> rest)) else [].

Definition start_link (gateway : IdentityLinkPort W) (provider credentialSubject : string) (pageStart : option string) :
    SM W string (option IdentityLinkStartResult) :=
  match pageStart with
  | Some pageUrl => sret (Some (IdentityLinkPageStart pageUrl CONNECTIONS_LINK_TTL_SECONDS))
  | None => startWithRetry gateway provider credentialSubject flow
  end.

Definition link_text (provider : string) (pageProviders : list string) (pageStart : option string)
    (started : IdentityLinkStartResult) : string :=
  match pageStart with
  | Some pageUrl => connectionsLinkText pageUrl (label_of <$> pageProviders)
  | None => linkPromptText started (label_of provider)
  end.

(** A started link is shown on a live channel and waited for, and otherwise
    parked. *)
Definition offer_started (entry : PlanEntry) (gateway : IdentityLinkPort W) (credentialSubject linkUrlText : string)
    (started : IdentityLinkStartResult) (g : Gate W) : SM W string (Step W) :=
  do! existing <- (if streaming
                   then do! _ <- tell (prompt_line linkUrlText) ;;
                        waitForLink gateway (pe_name entry) credentialSubject (start_expires started * 1000)
                   else sret None) ;;
  match existing with
  | Some token => settle (pe_principalOnly entry) (pe_name entry) credentialSubject token g
  | None =>
      do! link <- park (pe_name entry) credentialSubject linkUrlText started ;;
      sret (if pe_principalOnly entry then Last (add_pending link g) else Next (add_pending link g))
  end.

(** The branch of the loop without a stored credential. *)
Definition offer_link (entry : PlanEntry) (rest : list PlanEntry) (gateway : IdentityLinkPort W) (credentialSubject : string)
    (g : Gate W) : SM W string (Step W) :=
  let provider := pe_name entry in
  do! _ <- report_pending provider credentialSubject ;;
  if viaPage && negb (pe_principalOnly entry)
  then sret (Next (add_deferred (mkDeferred provider gateway credentialSubject) g))
  else
    let pageProviders := page_providers provider rest in
    do! pageStart <- (if viaPage then page_start pageProviders else sret None) ;;
    do! started <- start_link gateway provider credentialSubject pageStart ;;
    match started with
    | None => sret (Next (if pe_principalOnly entry then g else add_failed (label_of provider) g))
    | Some s =>
        offer_started entry gateway credentialSubject (link_text provider pageProviders pageStart s) s (add_offered pageProviders g)
    end.

Definition credential_subject (provider : string) (g : Gate W) : string :=
  if isCrossEntryPoint provider then g_principal g else subject.

Definition assess_one (entry : PlanEntry) (rest : list PlanEntry) (g : Gate W) : SM W string (Step W) :=
  let provider := pe_name entry in
  match gatewayFor provider with
  | None => sret (Return (no_gateway provider))
  | Some gateway =>
      let credentialSubject := credential_subject provider g in
      do! existing <- find_token gateway provider credentialSubject ;;
      match existing with
      | Some token => settle (pe_principalOnly entry) provider credentialSubject token g
      | None => offer_link entry rest gateway credentialSubject g
      end
  end.

(** The loop over the plan. *)
Fixpoint assess (plan : list PlanEntry) (g : Gate W) : SM W string (Step W) :=
  match plan with
  | [] => sret (Last g)
  | entry :: rest =>
      do! step <- assess_one entry rest g ;;
      match step with
      | Next g' => assess rest g'
      | Last g' => sret (Last g')
      | Return outcome => sret (Return outcome)
      end
  end.

(** The providers held back for the page, in turn: after one is not linked in
    time, the rest park without a wait. *)
Fixpoint await_deferred (linkUrlText : string) (started : IdentityLinkStartResult) (waiting : bool) (deferred : list (Deferred W))
    (g : Gate W) : SM W string (Step W) :=
  match deferred with
  | [] => sret (Last g)
  | d :: rest =>
      do! existing <- (if waiting
                       then waitForLink (df_gateway d) (df_provider d) (df_credentialSubject d) (start_expires started * 1000)
                       else sret None) ;;
      match existing with
      | None =>
          do! link <- park (df_provider d) (df_credentialSubject d) linkUrlText started ;;
          await_deferred linkUrlText started false rest (add_pending link g)
      | Some token =>
          do! step <- settle false (df_provider d) (df_credentialSubject d) token g ;;
          match step with
          | Next g' | Last g' => await_deferred linkUrlText started waiting rest g'
          | Return outcome => sret (Return outcome)
          end
      end
  end.

Definition link_deferred (g : Gate W) : SM W string (Step W) :=
  match g_deferred g with
  | [] => sret (Last g)
  | deferred =>
      do! pageStart <- page_start (df_provider <$> deferred) ;;
      match pageStart with
      | None => sthrow "TypeError"
      | Some pageUrl =>
          let linkUrlText := connectionsLinkText pageUrl ((fun d => label_of (df_provider d)) <$> deferred) in
          do! _ <- (if existsb (fun d => negb (has (g_offered g) (df_provider d))) deferred
                    then tell (prompt_line linkUrlText) else sret tt) ;;
          await_deferred linkUrlText (IdentityLinkPageStart pageUrl CONNECTIONS_LINK_TTL_SECONDS) streaming deferred g
      end
  end.

Definition some_unless_empty {A : Type} (l : list A) : option (list A) :=
  match l with
  | [] => None
  | _ => Some l
  end.

(** The decision over the whole set. *)
Definition verdict (g : Gate W) : SM W string AuthorizationOutcome :=
  if negb (no_items (Some (g_pendingLinks g))) || negb (no_items (Some (g_failedToStart g)))
  then sret (LinkRequired (composeLinkRequiredMessage number_text (g_pendingLinks g) (g_failedToStart g))
               (pd_pending <$> head (g_pendingLinks g)))
  else
    do! actorLogin <- (match g_actorLoginFromLoop g ??? g_principalLogin g with
                       | Some login => sret (Some login)
                       | None => resolveActorLogin subject (rq_senderLogin req) (gw_identityLink (ad_gateways deps))
                       end) ;;
    let g' := if truthy_str actorLogin then add_env [mkEnv ACTOR_LOGIN_ENV (actorLogin ?? EmptyString)] g else g in
    sret (Authorized (g_secretEnv g') (if truthy_str actorLogin then actorLogin else None) (g_principal g)
            (some_unless_empty (g_ownedSecretNames g))).

Definition authorize : SM W string AuthorizationOutcome :=
  do! found <- existing_login (id_principal identity ?? subject) ;;
  do! assessed <- assess (providerPlan found) (first_gate found) ;;
  match assessed with
  | Return outcome => sret outcome
  | Next g | Last g =>
      do! finished <- link_deferred g ;;
      match finished with
      | Return outcome => sret outcome
      | Next g' | Last g' => verdict g'
      end
  end.
End Service.

(** ** Read-only resolution, for tools backed by an agent *)

Inductive LinkedCredentials :=
| lc_resolved (secretEnv : option (list CredentialEnvEntry))
| lc_gateway_missing (provider : string)
| lc_not_linked (provider : string)
| lc_unsupported_provider (provider : string)
| lc_read_only_refused (provider : string).

Section Linked.
Context {W : Type}.
Variable deps : AuthorizationServiceDeps W.
Variable who : Identity.

Fixpoint resolve_each (providers : list string) (secretEnv : option (list CredentialEnvEntry)) : SM W string LinkedCredentials :=
  match providers with
  | [] => sret (lc_resolved secretEnv)
  | provider :: rest =>
      match gatewayFor deps provider with
      | None => sret (lc_gateway_missing provider)
      | Some gateway =>
          let credentialSubject :=
            if isCrossEntryPoint deps provider then id_principal who ?? id_subject who else id_subject who in
          do! existing <- port_getToken gateway provider credentialSubject ;;
          match existing with
          | None => sret (lc_not_linked provider)
          | Some token =>
              let envVarName := pc_envVar <$> catalog deps provider in
              if negb (truthy_str envVarName) then sret (lc_unsupported_provider provider)
              else resolve_each rest (Some ((secretEnv ?? []) ++ [mkEnv (envVarName ?? EmptyString) (lt_token token)]))
          end
      end
  end.

Definition resolveLinkedCredentials (identityProviders : option (list string)) (readOnly : bool) : SM W string LinkedCredentials :=
  match (if readOnly then List.find (has WRITE_CAPABLE_PROVIDERS) (identityProviders ?? []) else None) with
  | Some writeCapable => sret (lc_read_only_refused writeCapable)
  | None => resolve_each (identityProviders ?? []) None
  end.
End Linked.

(** ** The expiry that the log line carries *)

(** [value[k]]: [None] where it throws, on [null] and on [undefined]. *)
Definition js_prop (k : string) (value : option json) : option (option json) :=
  match value with
  | None | Some JNull => None
  | Some (JObj fields) => Some (jget k fields)
  | Some _ => Some None
  end.

(** [a ?? b] on values. *)
Definition json_or (a b : option json) : option json :=
  match a with
  | None | Some JNull => b
  | _ => a
  end.

Definition claudeLoginExpiry (JSON_parse : string -> option json) (to_number : string -> number)
    (toISOString : number -> option string) (secretEnv : option (list CredentialEnvEntry)) (claudeRemoteEnvVar : option string) :
    option string :=
  if negb (truthy_str claudeRemoteEnvVar) then None
  else
    let blob := env_value <$> List.find (fun e => bool_decide (Some (env_name e) = claudeRemoteEnvVar)) (secretEnv ?? []) in
    if negb (truthy_str blob) then None
    else
      parsed ← JSON_parse (blob ?? EmptyString);
      oauth_field ← js_prop "claudeAiOauth" (Some parsed);
      raw ← js_prop "expiresAt" (json_or oauth_field (Some parsed));
      let ms := match raw with
                | Some (JNum x) => x
                | Some (JStr s) => to_number s
                | _ => NaN
                end in
      if isFinite ms then toISOString ms else None.

(** ** The caller of a turn (agent/graph.ts, resolveIdentity) *)

Section ResolveIdentity.
Context {W : Type}.
Variable resolve_forwarded : option (string -> SM W string (option Identity)).
Variable resolve_auth : string -> SM W string (option Identity).
Variable identityLinkGateway : option (IdentityLinkPort W).

Definition with_principal (who : Identity) (principal : string) : Identity :=
  mkIdentity (id_subject who) (id_roles who) (Some principal) (id_perUser who) (id_email who).

(** The identity, or the error of the turn. *)
Definition resolveIdentity (forwardedUserToken : option string) (authToken : string) (senderLogin : option string) :
    SM W string (result string Identity) :=
  do! found <- (match resolve_forwarded with
                | Some resolve => if truthy_str forwardedUserToken then resolve (forwardedUserToken ?? EmptyString)
                                  else resolve_auth authToken
                | None => resolve_auth authToken
                end) ;;
  match found with
  | None => sret (Err "unauthorized: could not resolve caller identity")
  | Some who =>
      do! principal <- resolvePrincipal (id_subject who) senderLogin identityLinkGateway ;;
      sret (Ok (with_principal who principal))
  end.
End ResolveIdentity.
