(* ===== verification/AuthSafety.v ===== *)
(** * Agent orchestrator: what an authorized launch carries

Theorems over Authorization: where every credential of a launch comes from,
that no declared provider is missing, which calls the decision may make,
what it says when a link is missing, and that the read-only resolution of
tools agrees with it. *)

From stdpp Require Import base gmap strings list sorting.
From Stdlib Require Import ZArith Lia Ascii.
From S2P Require Import Prelude JsString JsNumber Json JsMap EventValues JsList HttpSource Fetch KnowledgeBase.
From S2P Require Import KbSearch KbCite KbLive IdentityLink Authorization.

#[local] Open Scope Z_scope.

Section Safety.
Context {W Url : Type}.
Variable parse_url : string -> result string Url.
Variable url_pathname : Url -> string.
Variable set_pathname : string -> Url -> Url.
Variable searchParams_set : string -> string -> Url -> Url.
Variable url_toString : Url -> string.
Variable now : W -> Z.
Variable sleep : Z -> SM W string unit.
Variable number_text : Z -> string.
Variable deps : AuthorizationServiceDeps W.
Variable req : AuthorizationRequest W.

#[local] Abbreviation who := (rq_identity req).
#[local] Abbreviation raw := (id_subject (rq_identity req)).
#[local] Abbreviation run := (authorize parse_url url_pathname set_pathname searchParams_set url_toString now sleep number_text deps req).

(** ** The contract *)

(** [issued p s t]: the gateway holds the token [t] for the provider [p] under
    the subject [s]; [granted s gr]: it granted a write-back for [s]. *)
Variable I : W -> Prop.
Variable issued : string -> string -> IdentityLinkToken -> Prop.
Variable granted : string -> WritebackGrant -> Prop.
Variable vouched : string -> Prop.

(** The providers of this turn, and the principals it may act as: the one the
    caller came with, or, for a subject that is one person's, the canonical one
    of a login vouched for that subject. *)
Definition allowed (p : string) : Prop := p ∈ (rq_identityProviders req ?? []) /\ withheld req p = false.

Definition legit (principal : string) : Prop :=
  principal = (id_principal who ?? raw) \/
  (id_perUser who = true /\ exists l, vouched l /\ principal = canonicalSubjectForLogin l).

(** The key of a provider's credential, for a principal. *)
Definition key (principal p : string) : string := if isCrossEntryPoint deps p then principal else raw.

(** The (provider, subject) pairs the decision may ask about. *)
Definition may_use (p k : string) : Prop :=
  (allowed p \/ (p = PRINCIPAL_PROVIDER /\ id_perUser who = true)) /\ exists principal, legit principal /\ k = key principal p.

Record contract : Prop := mkContract {
  ct_token : forall p k gw, gatewayFor deps p = Some gw -> may_use p k ->
    ensures I (fun o => forall t, o = Some t -> issued p k t) (port_getToken gw p k);
  ct_wait : forall p k gw f ms, gatewayFor deps p = Some gw -> may_use p k -> port_waitForCompletion gw = Some f ->
    ensures I (fun o => forall t, o = Some t -> issued p k t) (f p k ms);
  ct_start : forall p k gw f, gatewayFor deps p = Some gw -> may_use p k -> keeps I (port_start gw p k f);
  ct_rekey : forall p k gw f, gatewayFor deps p = Some gw -> may_use p k -> port_rekey gw = Some f ->
    id_perUser who = true -> isCrossEntryPoint deps p = true -> k <> raw -> keeps I (f p raw k);
  ct_login : forall gw f, gw_identityLink (ad_gateways deps) = Some gw -> port_getLinkedLogin gw = Some f ->
    ensures I (fun o => forall l, o = Some l -> vouched l) (f PRINCIPAL_PROVIDER raw);
  ct_actor : forall gw, gw_identityLink (ad_gateways deps) = Some gw -> keeps I (port_getToken gw PRINCIPAL_PROVIDER raw);
  ct_grant : forall f k n, ad_claudeRemoteWriteback deps = Some f -> allowed "claude-remote" -> may_use "claude-remote" k ->
    ensures I (fun o => forall gr, o = Some gr -> granted k gr) (f k n);
  ct_mapping : forall k t l, issued PRINCIPAL_PROVIDER k t -> lt_githubLogin t = Some l -> vouched l;
  ct_sleep : forall n, keeps I (sleep n);
  ct_listener : forall f a b, rq_progressListener req = Some f -> keeps I (f a b);
  ct_report : forall f a b, rq_reportIdentityLinkPending req = Some f -> keeps I (f a b)
}.

Hypothesis Hc : contract.

(** ** What a gate may hold *)

(** An entry of the environment is one provider's own token, or a grant. *)
Definition justified (P : string) (e : CredentialEnvEntry) : Prop :=
  (exists p t, allowed p /\ pc_envVar <$> catalog deps p = Some (env_name e) /\ issued p (key P p) t /\ env_value e = lt_token t) \/
  (exists gr, allowed "claude-remote" /\ granted (key P "claude-remote") gr /\
     (e = mkEnv CREDENTIALS_WRITEBACK_URL (gr_url gr) \/ e = mkEnv CREDENTIALS_WRITEBACK_TOKEN (gr_token gr))).

Definition covered (P p : string) (env : list CredentialEnvEntry) : Prop :=
  exists e t, e ∈ env /\ pc_envVar <$> catalog deps p = Some (env_name e) /\ issued p (key P p) t /\ env_value e = lt_token t.

Definition open_link (g : Gate W) : Prop := g_pendingLinks g <> [] \/ g_failedToStart g <> [].

(** [held]: the providers held back for the page, and still to be settled. *)
Record gate_ok (held : list (Deferred W)) (done : list string) (P : string) (g : Gate W) : Prop := mkGateOk {
  ok_principal : g_principal g = P;
  ok_env : forall e, e ∈ (g_secretEnv g ?? []) -> justified P e;
  ok_done : forall p, p ∈ done -> p ∈ (df_provider <$> held) \/ open_link g \/ covered P p (g_secretEnv g ?? []);
  ok_held : forall d, d ∈ held -> allowed (df_provider d) /\
    df_credentialSubject d = key P (df_provider d) /\ gatewayFor deps (df_provider d) = Some (df_gateway d)
}.

(** How a step of the loop may end. *)
Definition misconfigured (outcome : AuthorizationOutcome) : Prop :=
  match outcome with
  | Misconfigured _ => True
  | _ => False
  end.

Definition step_ok (Q : Gate W -> Prop) (step : Step W) : Prop :=
  match step with
  | Next g | Last g => Q g
  | Return outcome => misconfigured outcome
  end.

(** How a body of the loop ends that does not leave it. *)
Definition body_ok (Q : Gate W -> Prop) (step : Step W) : Prop :=
  match step with
  | Next g => Q g
  | Last _ => False
  | Return outcome => misconfigured outcome
  end.

(** A gate with more in its environment, and all else that matters as before. *)
Lemma gate_more_env held done P g entries (g' : Gate W) :
  gate_ok held done P g -> g_secretEnv g' ?? [] = (g_secretEnv g ?? []) ++ entries -> (forall e, e ∈ entries -> justified P e) ->
  g_principal g' = g_principal g -> g_pendingLinks g' = g_pendingLinks g -> g_failedToStart g' = g_failedToStart g ->
  gate_ok held done P g'.
Proof.
  intros [H1 H2 H3 H4] Henv Hnew Hp Hl Hf. split.
  - by rewrite Hp.
  - rewrite Henv. intros e [He|He]%elem_of_app; auto.
  - intros p Hp'. unfold open_link. rewrite Hl, Hf, Henv. destruct (H3 p Hp') as [Hd|[Ho|(e & t & He & Hrest)]]; auto.
    right. right. exists e, t. split; [|done]. set_solver.
  - done.
Qed.

Lemma gate_done held done P g p :
  gate_ok held done P g -> covered P p (g_secretEnv g ?? []) -> gate_ok held (p :: done) P g.
Proof. intros [H1 H2 H3 H4] Hp. split; [done..| |done]. intros p' [->|Hin]%elem_of_cons; auto. Qed.

(** A missing link leaves every provider accounted for. *)
Lemma gate_open held done P g g' all :
  gate_ok held done P g -> open_link g' -> g_principal g' = g_principal g -> g_secretEnv g' = g_secretEnv g -> gate_ok held all P g'.
Proof. intros [H1 H2 _ H4] Ho Hp He. split; [by rewrite Hp|by rewrite He|by auto|done]. Qed.

Lemma parked_open (g : Gate W) link : open_link (add_pending link g).
Proof. left. cbn. intros H. by apply app_nil in H as [_ H]. Qed.

Lemma failed_open (g : Gate W) label : open_link (add_failed label g).
Proof. right. cbn. intros H. by apply app_nil in H as [_ H]. Qed.

Lemma gate_held done P g d :
  gate_ok (g_deferred g) done P g -> allowed (df_provider d) -> df_credentialSubject d = key P (df_provider d) ->
  gatewayFor deps (df_provider d) = Some (df_gateway d) ->
  gate_ok (g_deferred (add_deferred d g)) (df_provider d :: done) P (add_deferred d g).
Proof.
  intros [H1 H2 H3 H4] Ha Hk Hg. cbn. split; [done..| |].
  - intros p [->|Hin]%elem_of_cons; [left; set_solver|]. destruct (H3 p Hin) as [Hd|H]; [left; set_solver|by right].
  - intros d' [Hd| ->%list_elem_of_singleton]%elem_of_app; auto.
Qed.

(** A held provider that is settled, or for which a link stays missing. *)
Lemma gate_release d held done P g :
  gate_ok (d :: held) done P g -> open_link g \/ covered P (df_provider d) (g_secretEnv g ?? []) -> gate_ok held done P g.
Proof.
  intros [H1 H2 H3 H4] Hd. split; [done..| |].
  - intros p Hp. destruct (H3 p Hp) as [Hin|H]; [|by right]. rewrite fmap_cons in Hin.
    apply elem_of_cons in Hin as [->|Hin]; [by right|by left].
  - intros d' Hd'. apply H4. by right.
Qed.

(** ** The calls *)

#[local] Hint Resolve ensures_sret : core.

Lemma keeps_tell message : keeps I (tell req message).
Proof. unfold tell. destruct (rq_progressListener req) eqn:E; [by apply (ct_listener Hc)|apply keeps_sret]. Qed.

Lemma keeps_report p k : keeps I (report_pending req p k).
Proof. unfold report_pending. destruct (rq_reportIdentityLinkPending req) eqn:E; [by apply (ct_report Hc)|apply keeps_sret]. Qed.

Lemma keeps_page_start ps : keeps I (page_start parse_url url_pathname set_pathname searchParams_set url_toString deps req ps).
Proof. by intros w Hw. Qed.

Lemma keeps_park p k text started : keeps I (park now deps req p k text started).
Proof. by intros w Hw. Qed.

Lemma keeps_start gw p k attempts :
  gatewayFor deps p = Some gw -> may_use p k -> keeps I (startAttempts sleep attempts gw p k (flow req)).
Proof.
  intros Hg Hu. induction attempts as [|[|n] IH]; [apply keeps_sret| |]; intros w Hw; cbn [startAttempts];
    pose proof (ct_start Hc p k gw (flow req) Hg Hu w Hw) as Hs; destruct (port_start gw p k (flow req) w) as [[s|e] w']; [done..|].
  cbn in Hs. revert w' Hs. fold (keeps I (do! _ <- sleep START_RETRY_DELAY_MS ;; startAttempts sleep (S n) gw p k (flow req))).
  apply keeps_sbind; [apply (ct_sleep Hc)|auto].
Qed.

Lemma wait_ok gw p k ms :
  gatewayFor deps p = Some gw -> may_use p k -> ensures I (fun o => forall t, o = Some t -> issued p k t) (waitForLink gw p k ms).
Proof.
  intros Hg Hu. unfold waitForLink. destruct (port_waitForCompletion gw) as [f|] eqn:Ef; [|by apply ensures_sret].
  apply ensures_scatch; [by eapply (ct_wait Hc)|]. intros e. by apply ensures_sret.
Qed.

Lemma find_token_ok gw p k :
  gatewayFor deps p = Some gw -> may_use p k -> ensures I (fun o => forall t, o = Some t -> issued p k t) (find_token deps req gw p k).
Proof.
  intros Hg Hu. unfold find_token. eapply ensures_sbind; [by apply (ct_token Hc)|]. intros o Ho.
  destruct o as [t|]; [by apply ensures_sret|]. destruct (port_rekey gw) as [rekey|] eqn:Er; [|by apply ensures_sret].
  destruct (may_adopt deps req p k) eqn:Ea; [|by apply ensures_sret].
  unfold may_adopt in Ea. apply andb_true_iff in Ea as [[Ex Ep]%andb_true_iff Ek].
  apply negb_true_iff, bool_decide_eq_false in Ek.
  apply ensures_after; [by eapply (ct_rekey Hc)|]. intros []; [by apply (ct_token Hc)|by apply ensures_sret].
Qed.

Lemma may_use_key P p : allowed p -> legit P -> may_use p (key P p).
Proof. intros Ha Hl. split; [by left|]. by exists P. Qed.

Lemma settle_ok held done P p t g :
  gate_ok held done P g -> allowed p -> legit P -> issued p (key P p) t ->
  ensures I (body_ok (fun g' => g_deferred g' = g_deferred g /\ gate_ok held done P g' /\ covered P p (g_secretEnv g' ?? [])))
    (settle deps req false p (key P p) t g).
Proof.
  intros Hok Ha Hl Ht. unfold settle.
  destruct (negb (truthy_str (pc_envVar <$> catalog deps p))) eqn:Ev; [by apply ensures_sret|].
  set (g1 := if bool_decide (p = "github") && _ then _ else g).
  assert (g_secretEnv g1 = g_secretEnv g /\ g_principal g1 = g_principal g /\ g_pendingLinks g1 = g_pendingLinks g /\
    g_failedToStart g1 = g_failedToStart g /\ g_deferred g1 = g_deferred g) as (Q1 & Q2 & Q3 & Q4 & Q5).
  { unfold g1. by destruct (bool_decide _ && _). }
  clearbody g1. destruct (catalog deps p) as [config|] eqn:Ec; [|done]. cbn [nullish fmap option_fmap option_map].
  assert (forall entries g', g_secretEnv g' = Some ((g_secretEnv g ?? []) ++ mkEnv (pc_envVar config) (lt_token t) :: entries) ->
    (forall e, e ∈ entries -> justified P e) -> g_principal g' = g_principal g -> g_pendingLinks g' = g_pendingLinks g ->
    g_failedToStart g' = g_failedToStart g ->
    gate_ok held done P g' /\ covered P p (g_secretEnv g' ?? [])) as Hgo.
  { intros entries g' He Hen Hp Hpl Hf. split.
    - eapply gate_more_env; [exact Hok|by rewrite He| |done..]. intros e [->|He']%elem_of_cons; [|by apply Hen].
      left. exists p, t. cbn. by rewrite Ec.
    - exists (mkEnv (pc_envVar config) (lt_token t)), t. rewrite He, Ec. split; [cbn; set_solver|done]. }
  assert (let g' := add_env [mkEnv (pc_envVar config) (lt_token t)] g1 in
    gate_ok held done P g' /\ covered P p (g_secretEnv g' ?? [])) as Hplain.
  { apply (Hgo []); cbn; [by rewrite Q1|by intros e He%elem_of_nil|congruence..]. }
  destruct (ad_claudeRemoteWriteback deps) as [create|] eqn:Ew; [|by apply ensures_sret].
  destruct (bool_decide (p = "claude-remote")) eqn:Ep; [|by apply ensures_sret].
  apply bool_decide_eq_true in Ep. subst p. eapply ensures_sbind; [eapply (ct_grant Hc); [done..|by apply may_use_key]|].
  intros [gr|] Hgr; [|by apply ensures_sret]. specialize (Hgr gr eq_refl). apply ensures_sret. split; [done|].
  apply (Hgo [mkEnv CREDENTIALS_WRITEBACK_URL (gr_url gr); mkEnv CREDENTIALS_WRITEBACK_TOKEN (gr_token gr)]); cbn;
    [by rewrite Q1, <- app_assoc| |congruence..].
  intros e He. right. exists gr. split; [done|]. split; [done|]. set_solver.
Qed.

Definition loop_ok (done : list string) (P : string) : Step W -> Prop := body_ok (fun g => gate_ok (g_deferred g) done P g).

Lemma settle_loop done P p t g :
  gate_ok (g_deferred g) done P g -> allowed p -> legit P -> issued p (key P p) t ->
  ensures I (loop_ok (p :: done) P) (settle deps req false p (key P p) t g).
Proof.
  intros Hok Ha Hl Ht. eapply ensures_weaken; [by eapply settle_ok|]. intros [g'|g'|o]; [|done..]. cbn. intros (-> & H & Hcov). by apply gate_done.
Qed.

Lemma start_link_keeps gw p k pageStart :
  gatewayFor deps p = Some gw -> may_use p k -> keeps I (start_link sleep req gw p k pageStart).
Proof. intros Hg Hu. unfold start_link. destruct pageStart; [apply keeps_sret|by apply keeps_start]. Qed.

Lemma offer_ok done P p rest gw g :
  gate_ok (g_deferred g) done P g -> allowed p -> legit P -> gatewayFor deps p = Some gw ->
  ensures I (loop_ok (p :: done) P)
    (offer_link parse_url url_pathname set_pathname searchParams_set url_toString now sleep deps req (mkPlanEntry p false) rest gw
       (key P p) g).
Proof.
  intros Hok Ha Hl Hg. pose proof (may_use_key P p Ha Hl) as Hu. unfold offer_link. cbn [pe_name pe_principalOnly negb].
  apply ensures_after; [apply keeps_report|]. intros _.
  destruct (viaPage deps req) eqn:Ev; cbn [andb].
  { apply ensures_sret. by apply gate_held. }
  apply ensures_after; [apply keeps_sret|]. intros pageStart. apply ensures_after; [by apply start_link_keeps|]. intros [started|].
  2: { apply ensures_sret. eapply gate_open; [exact Hok|apply failed_open|done..]. }
  unfold offer_started. cbn [pe_name pe_principalOnly]. eapply ensures_sbind with (P := fun o => forall t, o = Some t -> issued p (key P p) t).
  { destruct (streaming req); [|by apply ensures_sret]. apply ensures_after; [apply keeps_tell|]. intros _. by apply wait_ok. }
  intros [t|] Ht.
  - apply settle_loop; [by destruct Hok|done..|auto].
  - apply ensures_after; [apply keeps_park|]. intros link. apply ensures_sret.
    eapply gate_open; [exact Hok|apply parked_open|done..].
Qed.

Lemma assess_ok plan done P g :
  Forall allowed plan -> legit P -> gate_ok (g_deferred g) done P g ->
  ensures I (step_ok (fun g' => gate_ok (g_deferred g') (rev plan ++ done) P g'))
    (assess parse_url url_pathname set_pathname searchParams_set url_toString now sleep deps req
       ((fun name => mkPlanEntry name false) <$> plan) g).
Proof.
  intros Hplan Hl. revert done g. induction Hplan as [|p plan Ha Hplan IH]; intros done g Hok; [by apply ensures_sret|].
  rewrite fmap_cons. cbn [assess]. eapply ensures_sbind with (P := loop_ok (p :: done) P).
  - unfold assess_one. cbn [pe_name pe_principalOnly]. destruct (gatewayFor deps p) as [gw|] eqn:Eg; [|by apply ensures_sret].
    assert (credential_subject deps req p g = key P p) as ->.
    { unfold credential_subject, key, subject, identity. by rewrite (ok_principal _ _ _ _ Hok). }
    eapply ensures_sbind; [apply find_token_ok; [done|by apply may_use_key]|]. intros [t|] Ht; [|by apply offer_ok].
    apply settle_loop; auto.
  - intros [g'|g'|o] Hstep; cbn in Hstep.
    + eapply ensures_weaken; [by apply IH|]. intros [g2|g2|o2]; [..|done]; cbn; by rewrite <- app_assoc.
    + done.
    + by apply ensures_sret.
Qed.

(** ** From the caller to the verdict *)

Lemma existing_login_ok principal :
  ensures I (fun found => forall l, found = login_found (Some l) -> id_perUser who = true /\ vouched l) (existing_login deps req principal).
Proof.
  unfold existing_login. destruct (gw_identityLink (ad_gateways deps)) as [gw|] eqn:Eg; cbn [mbind option_bind]; [|by apply ensures_sret].
  destruct (port_getLinkedLogin gw) as [f|] eqn:Ef; [|by apply ensures_sret].
  destruct (needs_principal _ _ _ && id_perUser (identity req)) eqn:En; [|by apply ensures_sret].
  apply andb_true_iff in En as [_ Hper]. apply ensures_scatch; [|intros; by apply ensures_sret].
  eapply ensures_sbind; [by eapply (ct_login Hc)|]. intros o Ho. apply ensures_sret. intros l [= ->]. auto.
Qed.

Lemma first_legit found :
  (forall l, found = login_found (Some l) -> id_perUser who = true /\ vouched l) -> legit (g_principal (first_gate (W := W) req found)).
Proof.
  intros Hf. unfold first_gate. destruct found as [[l|]|]; [|by left..]. destruct (str_empty l); [by left|].
  right. destruct (Hf l eq_refl). split; [done|]. by exists l.
Qed.

Lemma first_ok found P : g_principal (first_gate (W := W) req found) = P -> gate_ok [] [] P (first_gate req found).
Proof.
  intros HP. split; [done|..]; unfold first_gate; destruct found as [[l|]|]; try destruct (str_empty l);
    intros x Hx; by apply elem_of_nil in Hx.
Qed.

Lemma first_plain found : g_secretEnv (first_gate (W := W) req found) = None /\ g_deferred (first_gate (W := W) req found) = [].
Proof. unfold first_gate. destruct found as [[l|]|]; try destruct (str_empty l); done. Qed.

(** A gate with nothing collected yet, whatever its principal. *)
Lemma fresh_ok P (g : Gate W) : g_principal g = P -> g_secretEnv g = None -> gate_ok [] [] P g.
Proof. intros HP He. split; [done|rewrite He|..]; intros x Hx; by apply elem_of_nil in Hx. Qed.

Definition fresh (g : Gate W) : Prop := legit (g_principal g) /\ g_secretEnv g = None /\ g_deferred g = [].

(** The principal's own step: it leaves nothing but a principal, or ends the turn. *)
Definition principal_ok (step : Step W) : Prop :=
  match step with
  | Next g => fresh g
  | Last g => fresh g /\ open_link g
  | Return outcome => misconfigured outcome
  end.

Lemma settle_principal p k t g :
  fresh g -> id_perUser who = true -> p = PRINCIPAL_PROVIDER -> issued p k t -> ensures I principal_ok (settle deps req true p k t g).
Proof.
  intros (Hl & He & Hd) Hper -> Ht. unfold settle. destruct (truthy_str (lt_githubLogin t)) eqn:El; apply ensures_sret; [|by split_and!].
  destruct (lt_githubLogin t) as [l|] eqn:E; [|done]. split_and!; [|done..]. right. split; [done|]. exists l.
  split; [|done]. by eapply (ct_mapping Hc).
Qed.

Lemma principal_step_ok rest g :
  fresh g -> id_perUser who = true ->
  ensures I principal_ok (assess_one parse_url url_pathname set_pathname searchParams_set url_toString now sleep deps req
    (mkPlanEntry PRINCIPAL_PROVIDER true) rest g).
Proof.
  intros Hf Hper. unfold assess_one. cbn [pe_name pe_principalOnly].
  destruct (gatewayFor deps PRINCIPAL_PROVIDER) as [gw|] eqn:Eg; [|by apply ensures_sret].
  assert (may_use PRINCIPAL_PROVIDER (credential_subject deps req PRINCIPAL_PROVIDER g)) as Hu.
  { split; [by right|]. exists (g_principal g). split; [apply Hf|done]. }
  eapply ensures_sbind; [by apply find_token_ok|]. intros [t|] Ht; [by apply settle_principal; auto|].
  unfold offer_link. cbn [pe_name pe_principalOnly]. rewrite andb_false_r.
  apply ensures_after; [apply keeps_report|]. intros _.
  apply ensures_after; [by destruct (viaPage deps req); [apply keeps_page_start|apply keeps_sret]|]. intros pageStart.
  apply ensures_after; [by apply start_link_keeps|]. intros [started|]; [|by apply ensures_sret].
  unfold offer_started. cbn [pe_name pe_principalOnly].
  eapply ensures_sbind with (P := fun o => forall t, o = Some t -> issued PRINCIPAL_PROVIDER _ t).
  { destruct (streaming req); [|by apply ensures_sret]. apply ensures_after; [apply keeps_tell|]. intros _. by apply wait_ok. }
  intros [t|] Ht'; [by apply settle_principal; auto|]. apply ensures_after; [apply keeps_park|]. intros link.
  apply ensures_sret. split; [done|apply parked_open].
Qed.

(** The declared providers that this turn may use. *)
Definition planned : list string := List.filter (fun name => negb (withheld req name)) (rq_identityProviders req ?? []).

Lemma planned_elem p : p ∈ planned <-> allowed p.
Proof. unfold planned, allowed. rewrite list_elem_of_In, List.filter_In, <- list_elem_of_In, negb_true_iff. done. Qed.

Lemma planned_allowed : Forall allowed planned.
Proof. apply Forall_forall. intros p. apply planned_elem. Qed.

Definition gate_end (held : Gate W -> list (Deferred W)) (g : Gate W) : Prop :=
  exists P, legit P /\ gate_ok (held g) planned P g.

Lemma gate_done_ext held done done' P g : (forall p, p ∈ done' -> p ∈ done) -> gate_ok held done P g -> gate_ok held done' P g.
Proof. intros Hsub [H1 H2 H3 H4]. split; auto. Qed.

Lemma assess_fresh g :
  fresh g -> ensures I (step_ok (gate_end g_deferred))
    (assess parse_url url_pathname set_pathname searchParams_set url_toString now sleep deps req (declared_plan req) g).
Proof.
  intros (Hl & He & Hd). eapply ensures_weaken.
  - apply (assess_ok planned [] (g_principal g)); [apply planned_allowed|done|]. rewrite Hd. by apply fresh_ok.
  - intros [g'|g'|o]; [..|done]; intros Hok; exists (g_principal g); (split; [done|]); (eapply gate_done_ext; [|exact Hok]);
      intros p Hp; rewrite app_nil_r; by rewrite list_elem_of_In, <- in_rev, <- list_elem_of_In.
Qed.

Lemma assess_plan_ok found :
  (forall l, found = login_found (Some l) -> id_perUser who = true /\ vouched l) ->
  ensures I (step_ok (gate_end g_deferred))
    (assess parse_url url_pathname set_pathname searchParams_set url_toString now sleep deps req (providerPlan deps req found)
       (first_gate req found)).
Proof.
  intros Hf. assert (fresh (first_gate req found)) as Hfresh.
  { destruct (first_plain found). split_and!; [by apply first_legit|done..]. }
  unfold providerPlan. destruct (_ && id_perUser (identity req)) eqn:Eplan; [|by apply assess_fresh].
  apply andb_true_iff in Eplan as [_ Hper]. cbn [assess].
  eapply ensures_sbind; [by apply principal_step_ok|]. intros [g|g|o] Hg; cbn in Hg; [by apply assess_fresh|..|by apply ensures_sret].
  apply ensures_sret. destruct Hg as [(Hl & He & Hd) Ho]. exists (g_principal g). split; [done|]. rewrite Hd.
  by eapply gate_open; [by apply fresh_ok|..].
Qed.

Lemma await_ok P text started held g waiting :
  legit P -> gate_ok held planned P g ->
  ensures I (step_ok (gate_ok [] planned P)) (await_deferred now deps req text started waiting held g).
Proof.
  intros Hl. revert g waiting. induction held as [|d held IH]; intros g waiting Hok; [by apply ensures_sret|].
  destruct (ok_held _ _ _ _ Hok d) as (Ha & Hk & Hg); [by left|]. pose proof (may_use_key P _ Ha Hl) as Hu. cbn [await_deferred].
  rewrite Hk. eapply ensures_sbind with (P := fun o => forall t, o = Some t -> issued (df_provider d) (key P (df_provider d)) t).
  { destruct waiting; [by apply wait_ok|by apply ensures_sret]. }
  intros [t|] Ht.
  - eapply ensures_sbind; [by eapply settle_ok; eauto|]. intros [g'|g'|o] Hstep; cbn in Hstep; [|done|by apply ensures_sret].
    destruct Hstep as (_ & Hok' & Hcov). apply IH. apply (gate_release d); [done|by right].
  - apply ensures_after; [apply keeps_park|]. intros link. apply IH. apply (gate_release d); [|left; apply parked_open].
    eapply gate_open; [exact Hok|apply parked_open|done..].
Qed.

Lemma link_deferred_ok g :
  gate_end g_deferred g ->
  ensures I (step_ok (gate_end (fun _ => [])))
    (link_deferred parse_url url_pathname set_pathname searchParams_set url_toString now deps req g).
Proof.
  intros (P & Hl & Hok). unfold link_deferred. destruct (g_deferred g) as [|d ds] eqn:Ed.
  { apply ensures_sret. by exists P. }
  apply ensures_after; [apply keeps_page_start|]. intros [pageUrl|]; [|by apply ensures_sthrow].
  apply ensures_after; [destruct (existsb _ _); [apply keeps_tell|apply keeps_sret]|]. intros _.
  eapply ensures_weaken; [by apply await_ok|]. intros [g'|g'|o]; [intros H; by exists P..|done].
Qed.

Definition outcome_ok (outcome : AuthorizationOutcome) : Prop :=
  match outcome with
  | Authorized env actor principal _ =>
      legit principal /\
      (forall e, e ∈ (env ?? []) -> justified principal e \/ exists l, actor = Some l /\ e = mkEnv ACTOR_LOGIN_ENV l) /\
      (forall p, allowed p -> covered principal p (env ?? []))
  | _ => True
  end.

Lemma misconfigured_ok outcome : misconfigured outcome -> outcome_ok outcome.
Proof. by destruct outcome. Qed.

Lemma covered_mono P p env env' : (forall e, e ∈ env -> e ∈ env') -> covered P p env -> covered P p env'.
Proof. intros Hsub (e & t & He & H). exists e, t. auto. Qed.

Lemma verdict_ok g : gate_end (fun _ => []) g -> ensures I outcome_ok (verdict number_text deps req g).
Proof.
  intros (P & Hl & [HP Henv Hdone _]). unfold verdict.
  destruct (g_pendingLinks g) as [|l ls] eqn:Ep; [|by apply ensures_sret].
  destruct (g_failedToStart g) as [|f fs] eqn:Ef; [|by apply ensures_sret]. cbn [no_items negb orb].
  apply ensures_after.
  { destruct (g_actorLoginFromLoop g ??? g_principalLogin g); [apply keeps_sret|].
    apply keeps_resolveActorLogin; intros gw.
    - by apply (ct_actor Hc).
    - intros f Hg Hf. apply ensures_keeps. eapply ensures_weaken; [by eapply (ct_login Hc)|done]. }
  intros actor. apply ensures_sret. rewrite HP.
  assert (forall p, allowed p -> covered P p (g_secretEnv g ?? [])) as Hcov.
  { intros p Hp. destruct (Hdone p) as [Hd|[[Ho|Ho]|H]]; [by apply planned_elem|by apply elem_of_nil in Hd|by rewrite Ep in Ho|by rewrite Ef in Ho|done]. }
  destruct (truthy_str actor) eqn:Ea; cbn [outcome_ok].
  - split_and!; [done|..].
    + cbn. intros e [He| ->%list_elem_of_singleton]%elem_of_app; [auto|]. destruct actor as [l|]; [|done]. right. by exists l.
    + intros p Hp. eapply covered_mono; [|by apply Hcov]. cbn. set_solver.
  - split_and!; auto.
Qed.

Lemma authorize_ensures : ensures I outcome_ok run.
Proof.
  unfold authorize. eapply ensures_sbind; [apply existing_login_ok|]. intros found Hf.
  eapply ensures_sbind; [by apply assess_plan_ok|].
  assert (forall g, gate_end g_deferred g -> ensures I outcome_ok
    (do! finished <- link_deferred parse_url url_pathname set_pathname searchParams_set url_toString now deps req g ;;
     match finished with
     | Return outcome => sret outcome
     | Next g' | Last g' => verdict number_text deps req g'
     end)) as Hend.
  { intros g Hg. eapply ensures_sbind; [by apply link_deferred_ok|].
    intros [g'|g'|o] Hstep; [by apply verdict_ok..|]. apply ensures_sret. by apply misconfigured_ok. }
  intros [g|g|o] Hstep; [by apply Hend..|]. apply ensures_sret. by apply misconfigured_ok.
Qed.

(** ** Properties *)

(** C14: where the credentials of a launch come from. When a launch is cleared,
    every variable it carries is the token the gateway issued for one of the
    agent's declared providers, under the variable of that provider's catalog
    entry and keyed by exactly this caller (the raw subject, or for a provider
    shared across entry points the launch's principal); or a write-back grant
    for that same key; or the actor's login. On a read-only turn no
    write-capable provider is among them, and a link that only establishes the
    principal adds no variable. *)
Theorem authorize_provenance (w w' : W) env actor principal owned :
  I w -> run w = (Ok (Authorized (Some env) actor principal owned), w') ->
  forall e, e ∈ env ->
    (exists p t, p ∈ (rq_identityProviders req ?? []) /\ (rq_readOnly req = true -> p ∉ WRITE_CAPABLE_PROVIDERS) /\
       pc_envVar <$> catalog deps p = Some (env_name e) /\ issued p (key principal p) t /\ env_value e = lt_token t) \/
    (exists gr, "claude-remote" ∈ (rq_identityProviders req ?? []) /\ granted (key principal "claude-remote") gr /\
       (e = mkEnv CREDENTIALS_WRITEBACK_URL (gr_url gr) \/ e = mkEnv CREDENTIALS_WRITEBACK_TOKEN (gr_token gr))) \/
    (exists l, actor = Some l /\ e = mkEnv ACTOR_LOGIN_ENV l).
Proof.
  intros Hw Hrun e He. destruct (authorize_ensures w Hw) as [_ Hout]. rewrite Hrun in Hout.
  destruct (Hout _ eq_refl) as (_ & Henv & _). destruct (Henv e He) as [[(p & t & [Hp Hro] & H)|(gr & [Hp _] & H)]|H]; [left|right; left|by right; right].
  - exists p, t. split; [done|]. split; [|done]. intros Hr Hin. unfold withheld in Hro. rewrite Hr in Hro. cbn in Hro.
    apply has_true in Hin. congruence.
  - by exists gr.
Qed.

(** A cleared launch lacks nothing: for every provider the agent declares,
    other than the write-capable ones on a read-only turn, it carries the
    provider's variable with the token issued to this caller. A missing link, a
    start that failed, or a lookup that failed never clears a launch. *)
Theorem authorize_covers (w w' : W) env actor principal owned :
  I w -> run w = (Ok (Authorized env actor principal owned), w') ->
  forall p, p ∈ (rq_identityProviders req ?? []) -> withheld req p = false ->
  exists e t, e ∈ (env ?? []) /\ pc_envVar <$> catalog deps p = Some (env_name e) /\ issued p (key principal p) t /\
    env_value e = lt_token t.
Proof.
  intros Hw Hrun p Hp Hro. destruct (authorize_ensures w Hw) as [_ Hout]. rewrite Hrun in Hout.
  destruct (Hout _ eq_refl) as (_ & _ & Hcov). exact (Hcov p (conj Hp Hro)).
Qed.

(** C15: the decision stays within the caller. It asks the gateway only about
    the turn's providers (and the caller's own GitHub link), each under the raw
    subject or, for a shared provider, a principal that is the caller's: the
    one the turn came with, or, for a subject that is one person's alone, the
    canonical one of a login vouched for that subject. It moves a stored
    credential only for such a subject, from it and for a shared provider: a
    subject that several people share never adopts a credential and never
    changes its principal. *)
Theorem authorize_confined :
  keeps I run /\
  forall w w' env actor principal owned, I w -> run w = (Ok (Authorized env actor principal owned), w') ->
    legit principal /\ (id_perUser who = false -> principal = (id_principal who ?? raw)).
Proof.
  split.
  - intros w Hw. by apply authorize_ensures.
  - intros w w' env actor principal owned Hw Hrun. destruct (authorize_ensures w Hw) as [_ Hout]. rewrite Hrun in Hout.
    destruct (Hout _ eq_refl) as (Hl & _). split; [done|]. intros Hper. destruct Hl as [->|[Hp _]]; [done|]. congruence.
Qed.
End Safety.

(** ** A chat caller whose credential predates their principal *)

(** The gateway's records, in memory: a token under "provider@subject". *)
Definition record_of (provider subject : string) : string := provider +:+ "@" +:+ subject.

Definition record_port : IdentityLinkPort (jsmap string) :=
  mkPort (fun _ _ _ => sret (IdentityLinkAuthCodeStart "https://login" 600)) (fun _ _ _ => sret poll_pending)
    (fun p s w => (Ok ((fun t => mkLinkToken t (if bool_decide (p = "github") then Some "Alice" else None)) <$>
                       map_get (record_of p s) w), w))
    None None
    (Some (fun p a b w => match map_get (record_of p a) w with
                          | Some t => (Ok true, map_set (record_of p b) t (map_delete (record_of p a) w))
                          | None => (Ok false, w)
                          end))
    (Some (fun p s w => (Ok (match map_get (record_of p s) w with Some _ => Some "Alice" | None => None end), w)))
    None.

Definition record_deps : AuthorizationServiceDeps (jsmap string) :=
  mkAuthorizationDeps None (mkGateways (Some record_port) (Some record_port) (Some record_port)) None None None.

Definition chat_alice : Identity := mkIdentity "openwebui:a" ["reader"] None true None.
Definition chat_request : AuthorizationRequest (jsmap string) :=
  mkAuthorizationRequest "swe" (Some ["claude"]) chat_alice "fix it" None None None None false.

Definition before_adoption : jsmap string := [("github@openwebui:a", "gh"); ("claude@openwebui:a", "cl")].
Definition alice_records : list (string * string) := ("claude@github:alice", "cl") :: before_adoption.

Definition only_alice (w : jsmap string) : Prop := forall e, e ∈ w -> e ∈ alice_records.
Definition issued_alice (p s : string) (t : IdentityLinkToken) : Prop :=
  (record_of p s, lt_token t) ∈ alice_records /\ forall l, lt_githubLogin t = Some l -> l = "Alice".

Definition chat_run : SM (jsmap string) string AuthorizationOutcome :=
  authorize (fun s => Ok s) id (fun _ u => u) (fun _ _ u => u) id (fun _ => 0) (fun _ => sret tt) (fun _ => "2") record_deps chat_request.

Definition chat_env : list CredentialEnvEntry := [mkEnv "CLAUDE_CODE_OAUTH_TOKEN" "cl"; mkEnv ACTOR_LOGIN_ENV "Alice"].

Lemma chat_run_adopts :
  chat_run before_adoption =
  (Ok (Authorized (Some chat_env) (Some "Alice") "github:alice" None), [("github@openwebui:a", "gh"); ("claude@github:alice", "cl")]).
Proof. by vm_compute. Qed.

Lemma only_alice_start : only_alice before_adoption.
Proof. intros e He. by right. Qed.

Lemma alice_gateway p gw : gatewayFor record_deps p = Some gw -> gw = record_port.
Proof. unfold gatewayFor, resolveIdentityGateway. destruct (_ ?? _); cbn; congruence. Qed.

Lemma alice_token p k w :
  only_alice w -> forall t, (fun t => mkLinkToken t (if bool_decide (p = "github") then Some "Alice" else None)) <$>
    map_get (record_of p k) w = Some t -> issued_alice p k t.
Proof.
  intros Hw t Ht. destruct (map_get (record_of p k) w) as [x|] eqn:E; [|done]. injection Ht as <-. split; cbn.
  - apply Hw. by apply map_get_elem_weak.
  - intros l. destruct (bool_decide _); congruence.
Qed.

Lemma alice_rekey k w :
  only_alice w -> legit chat_request (fun l => l = "Alice") k -> k <> "openwebui:a" ->
  forall x, map_get (record_of "claude" "openwebui:a") w = Some x ->
  only_alice (map_set (record_of "claude" k) x (map_delete (record_of "claude" "openwebui:a") w)).
Proof.
  intros Hw Hk Hne x Hx e [->|He]%map_set_elem; [|apply Hw; by apply map_delete_elem in He].
  destruct Hk as [->|(_ & l & -> & ->)]; [done|]. apply map_get_elem_weak, Hw in Hx. revert Hx.
  unfold alice_records, before_adoption. rewrite !elem_of_cons, elem_of_nil. intros [[=]|[[=]|[[= ->]|[]]]]. left. by vm_compute.
Qed.

Lemma alice_contract :
  contract (fun _ => sret tt) record_deps chat_request only_alice issued_alice (fun _ _ => True) (fun l => l = "Alice").
Proof.
  split; try done.
  - intros p k gw ->%alice_gateway _ w Hw. split; [done|]. cbn. intros o [= <-]. by apply alice_token.
  - by intros p k gw f ms ->%alice_gateway _ [=].
  - by intros p k gw f ->%alice_gateway _ w Hw.
  - intros p k gw f ->%alice_gateway [Hp (P & HP & Hkey)] [= <-] _ Hx Hne w Hw.
    assert (p = "claude") as ->.
    { destruct Hp as [[Hp _]|[-> _]]; [by apply list_elem_of_singleton in Hp|by vm_compute in Hx]. }
    change (key record_deps chat_request P "claude") with P in Hkey. subst k. cbn.
    destruct (map_get _ w) as [x|] eqn:E; [|done]. cbn. by apply alice_rekey.
  - intros gw f [= <-] [= <-] w Hw. split; [done|]. cbn. intros o [= <-] l. destruct (map_get _ _); congruence.
  - by intros gw [= <-] w Hw.
  - intros k t l [_ Ht]. apply Ht.
  - by intros n w Hw.
Qed.

Lemma authorize_provenance_witness :
  exists s, ("claude@" +:+ s, "cl") ∈ alice_records /\ s = "github:alice" /\ mkEnv "CLAUDE_CODE_OAUTH_TOKEN" "cl" ∈ chat_env.
Proof.
  destruct (authorize_provenance (fun s => Ok s) id (fun _ u => u) (fun _ _ u => u) id (fun _ => 0) _ (fun _ => "2") _ _ _ _ _ _
    alice_contract _ _ _ _ _ _ only_alice_start chat_run_adopts
    (mkEnv "CLAUDE_CODE_OAUTH_TOKEN" "cl") ltac:(by left)) as [(p & t & Hp & _ & _ & [Ht _] & Hv)|[(gr & Hr & _)|(l & _ & He)]].
  - apply list_elem_of_singleton in Hp as ->. exists "github:alice". rewrite <- Hv in Ht. split; [exact Ht|]. split; [done|]. by left.
  - by apply list_elem_of_singleton in Hr.
  - discriminate He.
Defined.

Lemma authorize_covers_witness : exists e t, e ∈ chat_env /\ env_name e = "CLAUDE_CODE_OAUTH_TOKEN" /\ env_value e = lt_token t.
Proof.
  destruct (authorize_covers (fun s => Ok s) id (fun _ u => u) (fun _ _ u => u) id (fun _ => 0) _ (fun _ => "2") _ _ _ _ _ _
    alice_contract _ _ _ _ _ _ only_alice_start chat_run_adopts "claude")
    as (e & t & He & Hn & _ & Hv); [by left|done|].
  exists e, t. split; [exact He|]. split; [|exact Hv]. by injection Hn as Hn.
Defined.

Lemma authorize_confined_witness :
  only_alice (chat_run before_adoption).2 /\ legit chat_request (fun l => l = "Alice") "github:alice".
Proof.
  destruct (authorize_confined (fun s => Ok s) id (fun _ u => u) (fun _ _ u => u) id (fun _ => 0) _ (fun _ => "2") _ _ _ _ _ _
    alice_contract) as [Hkeep Hlegit].
  split; [exact (Hkeep _ only_alice_start)|]. exact (proj1 (Hlegit _ _ _ _ _ _ only_alice_start chat_run_adopts)).
Defined.
