(* ===== verification/AuthBatch.v ===== *)
(** * Agent orchestrator: the verdict as a function of what is linked

    Where the accounts do not change while the decision runs, [authorize]
    (Authorization) is a pure function of which accounts are linked and which
    flows start: [batch_result]. It covers the Connections page and the flows
    that are started one by one, the write-back grants, and a provider that is
    not configured; a live channel, on which a link may be completed during the
    decision, and the detour that finds a principal first are outside it
    (AuthSafety covers both). The read-only resolution of tools is compared
    with it, and the message of a missing link is shown to leave nothing out. *)

From stdpp Require Import base gmap strings list sorting.
From Stdlib Require Import ZArith Lia Ascii.
From S2P Require Import Prelude JsString JsNumber Json JsMap EventValues JsList HttpSource Fetch KnowledgeBase.
From S2P Require Import KbSearch KbCite KbLive IdentityLink Authorization.

#[local] Open Scope Z_scope.

(** ** The specification *)

Section Spec.
Context {W Url : Type}.
Variable parse_url : string -> result string Url.
Variable url_pathname : Url -> string.
Variable set_pathname : string -> Url -> Url.
Variable searchParams_set : string -> string -> Url -> Url.
Variable url_toString : Url -> string.
Variable number_text : Z -> string.
Variable deps : AuthorizationServiceDeps W.
Variable req : AuthorizationRequest W.
(** Which accounts are linked, how a flow starts, and which grants are given. *)
Variable linked : string -> string -> option IdentityLinkToken.
Variable starts : string -> string -> result string IdentityLinkStartResult.
Variable grants : string -> Z -> option WritebackGrant.
(** The login the standalone lookup answers, and the time. *)
Variable looked_up : option string.
Variable time : Z.

Definition batch_principal : string := id_principal (rq_identity req) ?? id_subject (rq_identity req).
Definition batch_key (p : string) : string :=
  if isCrossEntryPoint deps p then batch_principal else id_subject (rq_identity req).
Definition batch_plan : list string :=
  List.filter (fun name => negb (rq_readOnly req && has WRITE_CAPABLE_PROVIDERS name)) (rq_identityProviders req ?? []).
Definition batch_linked (p : string) : option IdentityLinkToken := linked p (batch_key p).

(** What a provider that is not configured ends the decision with. *)
Definition batch_complaint (p : string) : option AuthorizationOutcome :=
  match gatewayFor deps p with
  | None => Some (no_gateway req p)
  | Some _ => if batch_linked p then if truthy_str (pc_envVar <$> catalog deps p) then None else Some (unsupported req p) else None
  end.

Definition batch_grant (p : string) : option WritebackGrant :=
  match ad_claudeRemoteWriteback deps with
  | Some _ => if bool_decide (p = "claude-remote")
              then grants (batch_key p) ((ad_agentRunTimeoutSeconds deps ?? 0) + WRITEBACK_GRANT_MARGIN_SECONDS) else None
  | None => None
  end.

(** The variables a linked provider adds to the launch, and the Secret that
    its grant owns. *)
Definition batch_entries (p : string) : list CredentialEnvEntry :=
  match batch_linked p with
  | Some t => mkEnv ((pc_envVar <$> catalog deps p) ?? EmptyString) (lt_token t) ::
      match batch_grant p with
      | Some gr => [mkEnv CREDENTIALS_WRITEBACK_URL (gr_url gr); mkEnv CREDENTIALS_WRITEBACK_TOKEN (gr_token gr)]
      | None => []
      end
  | None => []
  end.

Definition batch_owned (p : string) : list string :=
  match batch_linked p, batch_grant p with
  | Some _, Some gr => if truthy_str (gr_secretName gr) then [gr_secretName gr ?? EmptyString] else []
  | _, _ => []
  end.

Definition batch_unlinked (p : string) : bool := if batch_linked p then false else true.

(** The link of one provider, where each flow is started by itself. *)
Definition batch_park (p : string) (s : IdentityLinkStartResult) : PendingLink :=
  mkPendingLink p (label_of deps p) (linkPromptText s (label_of deps p)) false
    (mkPending (rq_agentId req) p (started_flow s) (started_device s) (time + start_expires s * 1000) (batch_key p) (rq_request req)).

Definition batch_missing (p : string) : option PendingLink :=
  match batch_linked p, starts p (batch_key p) with
  | None, Ok s => Some (batch_park p s)
  | _, _ => None
  end.

Definition batch_failed (p : string) : option string :=
  match batch_linked p, starts p (batch_key p) with
  | None, Err _ => Some (label_of deps p)
  | _, _ => None
  end.

(** The links where the Connections page collects them: one text for all. *)
Definition page_park (text p : string) : PendingLink :=
  mkPendingLink p (label_of deps p) text false
    (mkPending (rq_agentId req) p "page" None (time + CONNECTIONS_LINK_TTL_SECONDS * 1000) (batch_key p) (rq_request req)).

Definition page_links (page : string) (names : list string) : list PendingLink :=
  page_park (connectionsLinkText page (label_of deps <$> names)) <$> names.

Definition batch_login : option string :=
  if has batch_plan "github" then
    match batch_linked "github" ≫= lt_githubLogin with
    | Some l => if str_empty l then looked_up else Some l
    | None => looked_up
    end
  else looked_up.

Definition actor_env (login : option string) : list CredentialEnvEntry :=
  if truthy_str login then [mkEnv ACTOR_LOGIN_ENV (login ?? EmptyString)] else [].

Definition batch_cleared : AuthorizationOutcome :=
  Authorized (some_unless_empty ((batch_plan ≫= batch_entries) ++ actor_env batch_login))
    (if truthy_str batch_login then batch_login else None) batch_principal (some_unless_empty (batch_plan ≫= batch_owned)).

Definition batch_link (pending : list PendingLink) (failed : list string) : AuthorizationOutcome :=
  LinkRequired (composeLinkRequiredMessage number_text pending failed) (pd_pending <$> head pending).

Definition batch_verdict : result string AuthorizationOutcome :=
  if viaPage deps req then
    match List.filter batch_unlinked batch_plan with
    | [] => Ok batch_cleared
    | names =>
        let? page := connectionsPageStart parse_url url_pathname set_pathname searchParams_set url_toString (ad_connectionsUrl deps)
                       (id_subject (rq_identity req)) names (flow req) in
        Ok (batch_link (page_links (page ?? EmptyString) names) [])
    end
  else
    match omap batch_missing batch_plan, omap batch_failed batch_plan with
    | [], [] => Ok batch_cleared
    | pending, failed => Ok (batch_link pending failed)
    end.

(** What the person needs to go on is in the message: for each provider without
    a link the address (and the code) of its flow, or its name if the flow did
    not start; or the address of the page, for all of them. *)
Definition told_start (s : IdentityLinkStartResult) (message : string) : Prop :=
  match s with
  | IdentityLinkStart verificationUri userCode _ _ _ =>
      str_includes verificationUri message = true /\ str_includes userCode message = true
  | IdentityLinkAuthCodeStart address _ | IdentityLinkPageStart address _ => str_includes address message = true
  end.

Definition batch_told (message : string) : Prop :=
  if truthy_str (ad_connectionsUrl deps) && negb (bool_decide (flow req = flow_device)) && startsWith "openwebui:" (id_subject (rq_identity req)) then
    exists base url, ad_connectionsUrl deps = Some base /\ parse_url base = Ok url /\
      str_includes (url_toString (searchParams_set "need" (join "," (List.filter batch_unlinked batch_plan))
                                    (set_pathname (strip_slashes (url_pathname url) +:+ "/link") url))) message = true
  else
    forall p, p ∈ batch_plan -> batch_linked p = None ->
      match starts p (batch_key p) with
      | Ok s => told_start s message
      | Err _ => str_includes ((pc_label <$> catalog deps p) ?? p) message = true
      end.

Definition batch_result : result string AuthorizationOutcome :=
  match head (omap batch_complaint batch_plan) with
  | Some outcome => Ok outcome
  | None => batch_verdict
  end.
End Spec.

(** ** The message *)

Lemma to_print_sub seen links l : l ∈ to_print seen links -> l ∈ links /\ pd_surfacedLive l = false /\ pd_linkUrlText l ∉ seen.
Proof.
  revert seen. induction links as [|x links IH]; intros seen Hl; [by apply elem_of_nil in Hl|]. cbn [to_print] in Hl.
  assert (l ∈ to_print (pd_linkUrlText x :: seen) links ->
    l ∈ x :: links /\ pd_surfacedLive l = false /\ pd_linkUrlText l ∉ seen) as Hrest.
  { intros (H1 & H2 & H3)%IH. split; [by right|]. split; [done|]. intros H. apply H3. by right. }
  destruct (negb (pd_surfacedLive x) && negb (has seen (pd_linkUrlText x))) eqn:E; [|by apply Hrest].
  apply elem_of_cons in Hl as [->|Hl]; [|by apply Hrest]. apply andb_true_iff in E as [E1 E2].
  split; [by left|]. split; [by apply negb_true_iff in E1|]. intros Hin. apply has_true in Hin. by rewrite Hin in E2.
Qed.

Lemma to_print_NoDup seen links : NoDup (pd_linkUrlText <$> to_print seen links).
Proof.
  revert seen. induction links as [|x links IH]; intros seen; [constructor|]. cbn [to_print].
  destruct (_ && _); [|apply IH]. rewrite fmap_cons. apply NoDup_cons. split; [|apply IH].
  intros (l & Hl & Hin)%list_elem_of_fmap. apply to_print_sub in Hin as (_ & _ & Hin). apply Hin. rewrite Hl. by left.
Qed.

(** A link that was not shown live is printed under its text, unless that text
    was seen before or shown live. *)
Lemma to_print_complete seen links l :
  l ∈ links -> pd_surfacedLive l = false -> pd_linkUrlText l ∉ seen ->
  (forall l', l' ∈ links -> pd_linkUrlText l' = pd_linkUrlText l -> pd_surfacedLive l' = false) ->
  pd_linkUrlText l ∈ pd_linkUrlText <$> to_print seen links.
Proof.
  revert seen. induction links as [|x links IH]; intros seen Hl Hlive Hseen Hall; [by apply elem_of_nil in Hl|]. cbn [to_print].
  destruct (decide (pd_linkUrlText x = pd_linkUrlText l)) as [Heq|Hne].
  - rewrite (Hall x) by (done || by left). rewrite Heq. destruct (has seen (pd_linkUrlText l)) eqn:E; [by apply has_true in E|].
    cbn [negb andb]. rewrite fmap_cons, Heq. by left.
  - apply elem_of_cons in Hl as [->|Hl]; [done|].
    assert (pd_linkUrlText l ∈ pd_linkUrlText <$> to_print (pd_linkUrlText x :: seen) links) as Hin.
    { apply IH; [done..| |]; [by intros [|]%elem_of_cons|]. intros l' Hl'. apply Hall. by right. }
    destruct (_ && _); [|done]. rewrite fmap_cons. by right.
Qed.

Lemma part_included sep part parts x : part ∈ parts -> str_includes x part = true -> str_includes x (join sep parts) = true.
Proof.
  intros Hp Hx. eapply str_includes_trans; [exact Hx|].
  pose proof (joined_includes sep EmptyString EmptyString part parts Hp) as H. cbn in H. by rewrite app_empty_r in H.
Qed.

Lemma compose_links number_text links failed x :
  links <> [] -> str_includes x (links_part number_text links) = true ->
  str_includes x (composeLinkRequiredMessage number_text links failed) = true.
Proof. intros Hne Hx. unfold composeLinkRequiredMessage. destruct links as [|l ls]; [done|]. eapply part_included; [|exact Hx]. by left. Qed.

(** The message of a missing link leaves nothing out and repeats nothing:
    a link that was not shown live is in it, once per text; when all were shown
    live it names the accounts still awaited; and every flow that could not be
    started is named, beside the links and never instead of them. *)
Lemma link_message_complete (number_text : Z -> string) (links : list PendingLink) (failed : list string) :
  let message := composeLinkRequiredMessage number_text links failed in
  (forall l, l ∈ links -> (forall l', l' ∈ links -> pd_linkUrlText l' = pd_linkUrlText l -> pd_surfacedLive l' = false) ->
     str_includes (pd_linkUrlText l) message = true) /\
  NoDup (pd_linkUrlText <$> to_print [] links) /\
  (forall l, l ∈ links -> (forall l', l' ∈ links -> pd_surfacedLive l' = true) -> str_includes (pd_label l) message = true) /\
  (forall label, label ∈ failed -> str_includes label message = true).
Proof.
  split_and!.
  - intros l Hl Hall. assert (pd_surfacedLive l = false) as Hlive by by apply Hall.
    apply compose_links; [by intros ->; apply elem_of_nil in Hl|]. unfold links_part.
    assert (pd_linkUrlText l ∈ pd_linkUrlText <$> to_print [] links) as Hin.
    { apply to_print_complete; [done..| |done]. by intros []%elem_of_nil. }
    destruct (to_print [] links) as [|x [|y xs]] eqn:E; [by apply elem_of_nil in Hin| |].
    + apply list_elem_of_singleton in Hin as ->. apply str_includes_app.
    + do 2 apply str_includes_r.
      by apply (joined_includes ", and " " accounts (one-time). Please " ". Send any message once you're done.").
  - apply to_print_NoDup.
  - intros l Hl Hall. apply compose_links; [by intros ->; apply elem_of_nil in Hl|]. unfold links_part.
    destruct (to_print [] links) as [|x xs] eqn:E.
    + destruct links as [|a [|b ls]]; [by apply elem_of_nil in Hl| |].
      * apply list_elem_of_singleton in Hl as ->. apply str_includes_app.
      * apply (joined_includes " and " "I haven't received your "). by apply list_elem_of_fmap_2.
    + assert (x ∈ to_print [] links) as Hx by (rewrite E; by left). apply to_print_sub in Hx as (Hx & Hlive & _).
      by rewrite (Hall x Hx) in Hlive.
  - intros label Hl. unfold composeLinkRequiredMessage. destruct failed as [|f fs]; [by apply elem_of_nil in Hl|].
    eapply part_included; [apply elem_of_app; right; by left|]. unfold failed_part.
    destruct (negb _); [by apply (joined_includes " and " "I also couldn't start the ")|].
    by apply (joined_includes " and " "I couldn't start the one-time ").
Qed.

(** ** Runs in a set of worlds *)

Section Gives.
Context {W : Type}.
Variable R : W -> Prop.

(** Wherever [R] holds, [m] comes to [r], and [R] still holds. *)
Definition gives {A : Type} (m : SM W string A) (r : result string A) : Prop :=
  forall w, R w -> exists w', m w = (r, w') /\ R w'.

Lemma gives_sret {A : Type} (a : A) : gives (sret a) (Ok a).
Proof. intros w Hw. by exists w. Qed.

Lemma gives_slift {A : Type} (r : result string A) : gives (slift r) r.
Proof. intros w Hw. by exists w. Qed.

Lemma gives_sbind {A B : Type} (m : SM W string A) (f : A -> SM W string B) a r :
  gives m (Ok a) -> gives (f a) r -> gives (sbind f m) r.
Proof.
  intros Hm Hf w Hw. destruct (Hm w Hw) as (w1 & E1 & Hw1). destruct (Hf w1 Hw1) as (w2 & E2 & Hw2).
  exists w2. split; [|done]. unfold sbind. by rewrite E1.
Qed.

Lemma gives_sbind_err {A B : Type} (m : SM W string A) (f : A -> SM W string B) e : gives m (Err e) -> gives (sbind f m) (Err e).
Proof. intros Hm w Hw. destruct (Hm w Hw) as (w1 & E1 & Hw1). exists w1. split; [|done]. unfold sbind. by rewrite E1. Qed.
End Gives.

(** ** The loop, while the accounts do not change *)

Section Batch.
Context {W Url : Type}.
Variable parse_url : string -> result string Url.
Variable url_pathname : Url -> string.
Variable set_pathname : string -> Url -> Url.
Variable searchParams_set : string -> string -> Url -> Url.
Variable url_toString : Url -> string.
Variable now : W -> Z.
Variable sleep : Z -> SM W string unit.
Variable number_text : Z -> string.
Variable deps : AuthorizationServiceDeps W.
Variable req : AuthorizationRequest W.
Variable linked : string -> string -> option IdentityLinkToken.
Variable starts : string -> string -> result string IdentityLinkStartResult.
Variable grants : string -> Z -> option WritebackGrant.
Variable looked_up : option string.
Variable time : Z.
Variable R : W -> Prop.

#[local] Abbreviation run := (authorize parse_url url_pathname set_pathname searchParams_set url_toString now sleep number_text deps req).
#[local] Abbreviation link_of := (batch_linked deps req linked).
#[local] Abbreviation grant_of := (batch_grant deps req grants).

(** In the worlds of [R], and whatever of this runs in them, the lookups
    answer the same, the starts succeed or fail the same and the callers are
    told; the turn has no live channel and needs no principal found first. *)
Record still : Prop := mkStill {
  st_principal : needs_principal deps (declared_plan req) (batch_principal req) = false;
  st_headless : rq_progressListener req = None;
  st_now : forall w, R w -> now w = time;
  st_report : forall f a b, rq_reportIdentityLinkPending req = Some f -> gives R (f a b) (Ok tt);
  st_sleep : forall n, gives R (sleep n) (Ok tt);
  st_grants : forall create k ttl, ad_claudeRemoteWriteback deps = Some create -> gives R (create k ttl) (Ok (grants k ttl));
  st_token : forall p gw k, gatewayFor deps p = Some gw -> gives R (port_getToken gw p k) (Ok (linked p k));
  st_rekey : forall p gw f a b, gatewayFor deps p = Some gw -> port_rekey gw = Some f -> gives R (f p a b) (Ok false);
  st_start : forall p gw k, gatewayFor deps p = Some gw -> gives R (port_start gw p k (flow req)) (starts p k);
  st_actor : gives R (resolveActorLogin (id_subject (rq_identity req)) (rq_senderLogin req) (gw_identityLink (ad_gateways deps)))
               (Ok looked_up)
}.

Hypothesis Hs : still.

Definition settled (p : string) (t : IdentityLinkToken) (g : Gate W) : Gate W :=
  add_grant (grant_of p)
    (add_env [mkEnv ((pc_envVar <$> catalog deps p) ?? EmptyString) (lt_token t)]
      (if bool_decide (p = "github") && truthy_str (lt_githubLogin t)
       then set_actorLogin (lt_githubLogin t ?? EmptyString) g else g)).

Definition gate_step (g : Gate W) (p : string) : Gate W :=
  match link_of p with
  | Some t => settled p t g
  | None =>
      if viaPage deps req then
        match gatewayFor deps p with
        | Some gw => add_deferred (mkDeferred p gw (batch_key deps req p)) g
        | None => g
        end
      else match starts p (batch_key deps req p) with
           | Ok s => add_pending (batch_park deps req time p s) g
           | Err _ => add_failed (label_of deps p) g
           end
  end.

Lemma settled_principal p t g : g_principal (settled p t g) = g_principal g.
Proof. unfold settled. destruct (grant_of p), (_ && _); done. Qed.

Lemma gate_step_principal g p : g_principal (gate_step g p) = g_principal g.
Proof.
  unfold gate_step. destruct (link_of p); [apply settled_principal|]. destruct (viaPage _ _); [by destruct (gatewayFor _ _)|].
  by destruct (starts _ _).
Qed.

Lemma attempts_still p gw k n :
  gatewayFor deps p = Some gw ->
  gives R (startAttempts sleep (S n) gw p k (flow req)) (Ok (match starts p k with Ok s => Some s | Err _ => None end)).
Proof.
  intros Hg. induction n as [|n IH]; intros w Hw; cbn [startAttempts]; destruct (st_start Hs _ _ k Hg w Hw) as (w1 & -> & Hw1);
    destruct (starts p k) as [s|e] eqn:Es; try by exists w1.
  exact (gives_sbind R _ _ tt _ (st_sleep Hs _) IH w1 Hw1).
Qed.

Lemma find_token_still p gw :
  gatewayFor deps p = Some gw -> gives R (find_token deps req gw p (batch_key deps req p)) (Ok (link_of p)).
Proof.
  intros Hg. unfold find_token. eapply gives_sbind; [by apply (st_token Hs)|]. fold (link_of p).
  destruct (link_of p) as [t|]; [apply gives_sret|]. destruct (port_rekey gw) as [f|] eqn:Er; [|apply gives_sret].
  destruct (may_adopt _ _ _ _); [|apply gives_sret]. eapply gives_sbind; [by apply (st_rekey Hs _ _ _ _ _ Hg Er)|apply gives_sret].
Qed.

Lemma settle_still p t g :
  gives R (settle deps req false p (batch_key deps req p) t g)
    (Ok (if truthy_str (pc_envVar <$> catalog deps p) then Next (settled p t g) else Return (unsupported req p))).
Proof.
  unfold settle. destruct (truthy_str (pc_envVar <$> catalog deps p)); cbn [negb]; [|apply gives_sret].
  unfold settled, batch_grant. destruct (ad_claudeRemoteWriteback deps) as [create|] eqn:Ec; [|apply gives_sret].
  destruct (bool_decide (p = "claude-remote")); [|apply gives_sret].
  eapply gives_sbind; [by apply (st_grants Hs)|apply gives_sret].
Qed.

Lemma offered_none (g : Gate W) : add_offered [] g = g.
Proof. by destruct g. Qed.

Lemma report_still p k : gives R (report_pending req p k) (Ok tt).
Proof. unfold report_pending. destruct (rq_reportIdentityLinkPending req) eqn:E; [by apply (st_report Hs)|apply gives_sret]. Qed.

Lemma park_still p k text s :
  gives R (park now deps req p k text s)
    (Ok (mkPendingLink p (label_of deps p) text false
           (mkPending (rq_agentId req) p (started_flow s) (started_device s) (time + start_expires s * 1000) k (rq_request req)))).
Proof. intros w Hw. exists w. unfold park, streaming. by rewrite (st_headless Hs), (st_now Hs w Hw). Qed.

Lemma offer_still p gw rest g :
  gatewayFor deps p = Some gw -> link_of p = None ->
  gives R (offer_link parse_url url_pathname set_pathname searchParams_set url_toString now sleep deps req (mkPlanEntry p false) rest gw
    (batch_key deps req p) g) (Ok (Next (gate_step g p))).
Proof.
  intros Hg Hn. unfold offer_link, page_providers, gate_step. cbn [pe_name pe_principalOnly]. rewrite Hn, Hg.
  eapply gives_sbind; [apply report_still|]. destruct (viaPage deps req); cbn [andb negb]; [apply gives_sret|].
  eapply gives_sbind; [apply gives_sret|]. unfold start_link, startWithRetry, START_ATTEMPTS.
  eapply gives_sbind; [by apply (attempts_still p gw _ 1)|].
  destruct (starts p (batch_key deps req p)) as [s|e]; [|apply gives_sret].
  rewrite offered_none. unfold offer_started, streaming. rewrite (st_headless Hs). eapply gives_sbind; [apply gives_sret|].
  eapply gives_sbind; [apply park_still|apply gives_sret].
Qed.

Definition assessed (ps : list string) (g : Gate W) : Step W :=
  match head (omap (batch_complaint deps req linked) ps) with
  | Some outcome => Return outcome
  | None => Last (foldl gate_step g ps)
  end.

Lemma assess_still ps g :
  g_principal g = batch_principal req ->
  gives R (assess parse_url url_pathname set_pathname searchParams_set url_toString now sleep deps req
    ((fun name => mkPlanEntry name false) <$> ps) g) (Ok (assessed ps g)).
Proof.
  revert g. induction ps as [|p ps IH]; intros g HP; [apply gives_sret|]. rewrite fmap_cons. cbn [assess].
  assert (credential_subject deps req p g = batch_key deps req p) as Hkey by (unfold credential_subject, batch_key; by rewrite HP).
  assert (gives R (assess_one parse_url url_pathname set_pathname searchParams_set url_toString now sleep deps req (mkPlanEntry p false)
    ((fun name => mkPlanEntry name false) <$> ps) g)
    (Ok (match batch_complaint deps req linked p with Some o => Return o | None => Next (gate_step g p) end))) as Hone.
  { unfold assess_one, batch_complaint. cbn [pe_name pe_principalOnly]. destruct (gatewayFor deps p) as [gw|] eqn:Eg; [|apply gives_sret].
    rewrite Hkey. eapply gives_sbind; [by apply find_token_still|]. unfold gate_step.
    destruct (link_of p) as [t|] eqn:El.
    - pose proof (settle_still p t g) as Hset. by destruct (truthy_str _).
    - pose proof (offer_still p gw ((fun name => mkPlanEntry name false) <$> ps) g Eg El) as Hoff. unfold gate_step in Hoff. by rewrite El in Hoff. }
  eapply gives_sbind; [exact Hone|]. unfold assessed. cbn [omap list_omap foldl].
  destruct (batch_complaint deps req linked p) as [o|]; [apply gives_sret|].
  apply IH. by rewrite gate_step_principal.
Qed.

(** The login a GitHub link in the plan carries. *)
Definition loop_login (ps : list string) (before : option string) : option string :=
  if has ps "github" then
    match link_of "github" ≫= lt_githubLogin with
    | Some l => if str_empty l then before else Some l
    | None => before
    end
  else before.

(** What the loop adds of one provider, in each of the ways to link. *)
Definition flow_missing (p : string) : option PendingLink :=
  if viaPage deps req then None else batch_missing deps req linked starts time p.
Definition flow_failed (p : string) : option string :=
  if viaPage deps req then None else batch_failed deps req linked starts p.
Definition held_back (p : string) : option (Deferred W) :=
  match link_of p, gatewayFor deps p with
  | None, Some gw => if viaPage deps req then Some (mkDeferred p gw (batch_key deps req p)) else None
  | _, _ => None
  end.

Record fold_spec (ps : list string) (g g' : Gate W) : Prop := mkFoldSpec {
  fs_env : g_secretEnv g' ?? [] = (g_secretEnv g ?? []) ++ (ps ≫= batch_entries deps req linked grants);
  fs_some : g_secretEnv g <> Some [] -> g_secretEnv g' <> Some [];
  fs_owned : g_ownedSecretNames g' = g_ownedSecretNames g ++ (ps ≫= batch_owned deps req linked grants);
  fs_pending : g_pendingLinks g' = g_pendingLinks g ++ omap flow_missing ps;
  fs_failed : g_failedToStart g' = g_failedToStart g ++ omap flow_failed ps;
  fs_held : g_deferred g' = g_deferred g ++ omap held_back ps;
  fs_actor : g_actorLoginFromLoop g' = loop_login ps (g_actorLoginFromLoop g);
  fs_rest : g_principal g' = g_principal g /\ g_principalLogin g' = g_principalLogin g
}.

Lemma loop_login_cons p ps before :
  loop_login (p :: ps) before = loop_login ps (if bool_decide (p = "github") then loop_login [p] before else before).
Proof.
  unfold loop_login, has. destruct (decide (p = "github")) as [->|Hp].
  - rewrite (bool_decide_true ("github" = "github")) by done. rewrite !(bool_decide_true (_ ∈ "github" :: _)) by set_solver.
    destruct (bool_decide _); [|done]. destruct (_ ≫= _) as [l|]; [|done]. by destruct (str_empty l).
  - rewrite (bool_decide_false (p = "github")) by done.
    assert (bool_decide ("github" ∈ p :: ps) = bool_decide ("github" ∈ ps)) as ->; [|done].
    apply bool_decide_ext. split; [|by right]. intros [H|H]%elem_of_cons; [congruence|done].
Qed.

Lemma unlinked_actor p before :
  link_of p = None -> (if bool_decide (p = "github") then loop_login [p] before else before) = before.
Proof.
  intros Hl. destruct (bool_decide (p = "github")) eqn:E; [|done]. apply bool_decide_eq_true in E as ->. unfold loop_login.
  rewrite Hl. by destruct (has _ _).
Qed.

Lemma app_not_nil {A : Type} (l l' : list A) x : l ++ x :: l' <> [].
Proof. by destruct l. Qed.

Lemma fold_spec_trans ps ps' g1 g2 g3 : fold_spec ps g1 g2 -> fold_spec ps' g2 g3 ->
  g_actorLoginFromLoop g3 = loop_login (ps ++ ps') (g_actorLoginFromLoop g1) -> fold_spec (ps ++ ps') g1 g3.
Proof.
  intros [A1 A2 A3 A4 A5 A6 _ [A7 A8]] [B1 B2 B3 B4 B5 B6 _ [B7 B8]] Hactor.
  split; [| | | | | |exact Hactor|by rewrite B7, B8].
  - by rewrite B1, A1, bind_app, <- app_assoc.
  - auto.
  - by rewrite B3, A3, bind_app, <- app_assoc.
  - by rewrite B4, A4, omap_app, <- app_assoc.
  - by rewrite B5, A5, omap_app, <- app_assoc.
  - by rewrite B6, A6, omap_app, <- app_assoc.
Qed.

Lemma settled_spec p t g : link_of p = Some t -> fold_spec [p] g (settled p t g).
Proof.
  intros Hl.
  assert (g_actorLoginFromLoop (settled p t g) = loop_login [p] (g_actorLoginFromLoop g)) as Hactor.
  { unfold settled, loop_login, has. transitivity (g_actorLoginFromLoop (if bool_decide (p = "github") && truthy_str (lt_githubLogin t)
      then set_actorLogin (lt_githubLogin t ?? EmptyString) g else g)); [by destruct (grant_of p)|].
    destruct (decide (p = "github")) as [->|Hp].
    - rewrite !bool_decide_true by (done || by left). rewrite Hl. cbn. destruct (lt_githubLogin t) as [l|]; [|done]. cbn.
      by destruct (str_empty l).
    - rewrite (bool_decide_false (p = "github")) by done. rewrite bool_decide_false; [done|]. intros H%list_elem_of_singleton. congruence. }
  assert (flow_missing p = None /\ flow_failed p = None /\ held_back p = None) as (Hm & Hf & Hh).
  { unfold flow_missing, flow_failed, held_back, batch_missing, batch_failed. rewrite Hl. by destruct (viaPage _ _). }
  split; try exact Hactor; cbn [omap list_omap mbind list_bind]; rewrite ?Hm, ?Hf, ?Hh, ?app_nil_r; clear Hactor;
    unfold settled, batch_entries, batch_owned; rewrite ?Hl; destruct (grant_of p), (_ && _); cbn;
    rewrite ?app_nil_r, <- ?app_assoc; try done; intros _ [= H]; by apply app_not_nil in H.
Qed.

Lemma gate_step_spec p g : fold_spec [p] g (gate_step g p).
Proof.
  destruct (link_of p) as [t|] eqn:El.
  { unfold gate_step. rewrite El. by apply settled_spec. }
  assert (batch_entries deps req linked grants p = [] /\ batch_owned deps req linked grants p = []) as [He Ho]
    by (unfold batch_entries, batch_owned; by rewrite El).
  assert (g_actorLoginFromLoop (gate_step g p) = loop_login [p] (g_actorLoginFromLoop g)) as Hactor.
  { rewrite loop_login_cons, unlinked_actor by done. unfold gate_step. rewrite El.
    destruct (viaPage _ _); [by destruct (gatewayFor _ _)|by destruct (starts _ _)]. }
  split; try exact Hactor; clear Hactor; cbn [omap list_omap mbind list_bind]; rewrite ?He, ?Ho, ?app_nil_r;
    unfold gate_step, flow_missing, flow_failed, held_back, batch_missing, batch_failed; rewrite El;
    destruct (viaPage deps req), (gatewayFor deps p), (starts p (batch_key deps req p)); cbn; rewrite ?app_nil_r; done.
Qed.

Lemma fold_gate ps g : fold_spec ps g (foldl gate_step g ps).
Proof.
  revert g. induction ps as [|p ps IH]; intros g; cbn [foldl].
  { split; cbn; rewrite ?app_nil_r; done. }
  pose proof (gate_step_spec p g) as Hone. pose proof (IH (gate_step g p)) as Hrest.
  apply (fold_spec_trans [p] ps _ _ _ Hone Hrest). cbn [app]. rewrite loop_login_cons, (fs_actor _ _ _ Hrest), (fs_actor _ _ _ Hone).
  f_equal. unfold loop_login at 1, has. destruct (decide (p = "github")) as [->|Hp]; [by rewrite (bool_decide_true ("github" = "github"))|].
  rewrite (bool_decide_false (p = "github")) by done. rewrite bool_decide_false; [done|]. intros H%list_elem_of_singleton. congruence.
Qed.

Lemma existing_login_still : gives R (existing_login deps req (batch_principal req)) (Ok (login_found None)).
Proof.
  unfold existing_login. rewrite (st_principal Hs). cbn [andb].
  destruct (gw_identityLink (ad_gateways deps) ≫= port_getLinkedLogin); apply gives_sret.
Qed.

Lemma plan_still : providerPlan deps req (login_found None) = (fun name => mkPlanEntry name false) <$> batch_plan req.
Proof.
  unfold providerPlan. change (g_principal (first_gate req (login_found None))) with (batch_principal req).
  by rewrite (st_principal Hs).
Qed.

(** The gate at the end of the loop. *)
Definition last_gate : Gate W := foldl gate_step (gate_of (batch_principal req) None) (batch_plan req).

(** *** The page *)

Definition park_held (text : string) (g : Gate W) (d : Deferred W) : Gate W :=
  add_pending (mkPendingLink (df_provider d) (label_of deps (df_provider d)) text false
    (mkPending (rq_agentId req) (df_provider d) "page" None (time + CONNECTIONS_LINK_TTL_SECONDS * 1000) (df_credentialSubject d)
       (rq_request req))) g.

Lemma await_still text page ds g :
  gives R (await_deferred now deps req text (IdentityLinkPageStart page CONNECTIONS_LINK_TTL_SECONDS) false ds g)
    (Ok (Last (foldl (park_held text) g ds))).
Proof.
  revert g. induction ds as [|d ds IH]; intros g; [apply gives_sret|]. cbn [await_deferred foldl].
  eapply gives_sbind; [apply gives_sret|]. eapply gives_sbind; [apply park_still|]. apply IH.
Qed.

Lemma park_held_all text ds g :
  let g' := foldl (park_held text) g ds in
  g_pendingLinks g' = g_pendingLinks g ++
    ((fun d => mkPendingLink (df_provider d) (label_of deps (df_provider d)) text false
      (mkPending (rq_agentId req) (df_provider d) "page" None (time + CONNECTIONS_LINK_TTL_SECONDS * 1000) (df_credentialSubject d)
         (rq_request req))) <$> ds) /\
  g_failedToStart g' = g_failedToStart g.
Proof.
  revert g. induction ds as [|d ds IH]; intros g; [split; [by rewrite app_nil_r|done]|]. cbn [foldl].
  destruct (IH (park_held text g d)) as [H1 H2]. split; [|exact H2]. rewrite H1. cbn. by rewrite <- app_assoc.
Qed.

(** The providers held back are those without a link, in order. *)
Lemma held_names ps :
  viaPage deps req = true -> omap (batch_complaint deps req linked) ps = [] ->
  (fun d => (df_provider d, df_credentialSubject d)) <$> omap held_back ps =
  (fun p => (p, batch_key deps req p)) <$> List.filter (batch_unlinked deps req linked) ps.
Proof.
  intros Hv. induction ps as [|p ps IH]; [done|]. cbn [omap list_omap List.filter].
  unfold held_back at 1, batch_unlinked at 1, batch_complaint at 1. rewrite Hv.
  destruct (gatewayFor deps p) as [gw|]; [|done]. destruct (link_of p) as [t|].
  - destruct (truthy_str _); [exact IH|done].
  - intros Hps. rewrite !fmap_cons. by rewrite <- IH.
Qed.

Lemma held_names_split ds (ps : list string) :
  (fun d : Deferred W => (df_provider d, df_credentialSubject d)) <$> ds = (fun p => (p, batch_key deps req p)) <$> ps ->
  df_provider <$> ds = ps /\
  forall A (f : string -> string -> A), (fun d => f (df_provider d) (df_credentialSubject d)) <$> ds = (fun p => f p (batch_key deps req p)) <$> ps.
Proof.
  intros H. split.
  - apply (f_equal (fmap fst)) in H. rewrite <- !list_fmap_compose in H. etransitivity; [exact H|]. apply list_fmap_id.
  - intros A f. apply (f_equal (fmap (fun x => f x.1 x.2))) in H. by rewrite <- !list_fmap_compose in H.
Qed.

(** *** The verdict *)

Lemma some_unless_nonempty {A : Type} (o : option (list A)) l :
  o ?? [] = l -> o <> Some [] -> o = some_unless_empty l.
Proof. intros <-. destruct o as [[|x xs]|]; done. Qed.

Lemma verdict_cleared :
  omap flow_missing (batch_plan req) = [] -> omap flow_failed (batch_plan req) = [] ->
  gives R (verdict number_text deps req last_gate) (Ok (batch_cleared deps req linked grants looked_up)).
Proof.
  intros Hm Hf. destruct (fold_gate (batch_plan req) (gate_of (batch_principal req) None)) as [H1 H2 H3 H4 H5 _ H6 [H7 H8]].
  fold last_gate in *. cbn in H1, H2, H3, H4, H5, H6, H7, H8. unfold verdict. rewrite H4, H5, Hm, Hf. cbn [no_items negb orb].
  rewrite H6, H8. eapply (gives_sbind R _ _ (batch_login deps req linked looked_up)).
  { unfold loop_login, batch_login. change (subject req) with (id_subject (rq_identity req)).
    destruct (has _ _); [|apply (st_actor Hs)]. destruct (link_of "github" ≫= _) as [x|]; [|apply (st_actor Hs)].
    destruct (str_empty x); [apply (st_actor Hs)|apply gives_sret]. }
  rewrite H7, H3. unfold batch_cleared, actor_env.
  destruct (truthy_str (batch_login deps req linked looked_up)); cbn [add_env g_secretEnv g_principal g_ownedSecretNames].
  - rewrite H1. destruct (batch_plan req ≫= _); apply gives_sret.
  - rewrite app_nil_r. rewrite (some_unless_nonempty _ _ H1 (H2 ltac:(done))). apply gives_sret.
Qed.

Lemma verdict_link (g : Gate W) pending failed :
  g_pendingLinks g = pending -> g_failedToStart g = failed -> (pending <> [] \/ failed <> []) ->
  gives R (verdict number_text deps req g) (Ok (batch_link number_text pending failed)).
Proof.
  intros <- <- Hne. unfold verdict. destruct (g_pendingLinks g) as [|l ls].
  - destruct (g_failedToStart g) as [|f fs]; [by destruct Hne|apply gives_sret].
  - apply gives_sret.
Qed.

Lemma omap_none {A B : Type} (l : list A) : omap (fun _ : A => @None B) l = [].
Proof. induction l; [done|exact IHl]. Qed.

Lemma page_still :
  viaPage deps req = true -> omap (batch_complaint deps req linked) (batch_plan req) = [] ->
  gives R (do! finished <- link_deferred parse_url url_pathname set_pathname searchParams_set url_toString now deps req last_gate ;;
           match finished with
           | Return outcome => sret outcome
           | Next g' | Last g' => verdict number_text deps req g'
           end)
    (batch_verdict parse_url url_pathname set_pathname searchParams_set url_toString number_text deps req linked starts grants looked_up time).
Proof.
  intros Hv Hok. unfold batch_verdict. rewrite Hv.
  assert (omap flow_missing (batch_plan req) = [] /\ omap flow_failed (batch_plan req) = []) as [Hm Hf].
  { unfold flow_missing, flow_failed. rewrite Hv. by rewrite !omap_none. }
  destruct (fold_gate (batch_plan req) (gate_of (batch_principal req) None)) as [_ _ _ H4 H5 Hheld _ _].
  fold last_gate in H4, H5, Hheld. cbn in H4, H5, Hheld. rewrite Hm in H4. rewrite Hf in H5.
  destruct (held_names_split _ _ (held_names (batch_plan req) Hv Hok)) as [Hnames Hall]. unfold link_deferred. rewrite Hheld.
  destruct (omap held_back (batch_plan req)) as [|d ds] eqn:Ed.
  { rewrite <- Hnames. eapply gives_sbind; [apply gives_sret|]. by apply verdict_cleared. }
  rewrite Hnames. destruct (List.filter _ (batch_plan req)) as [|n ns] eqn:En; [done|].
  change (subject req) with (id_subject (rq_identity req)). unfold page_start.
  destruct (connectionsPageStart _ _ _ _ _ _ _ (n :: ns) _) as [page|e] eqn:Ep; cbn beta iota.
  2:{ apply gives_sbind_err, gives_sbind_err, gives_slift. }
  assert (exists url, page = Some url) as [url ->].
  { unfold connectionsPageStart in Ep. unfold viaPage in Hv. rewrite Hv in Ep. cbn [negb] in Ep.
    destruct (ad_connectionsUrl deps) as [c|]; [|done]. destruct (parse_url c); [|done]. injection Ep as <-. by eexists. }
  eapply gives_sbind; [eapply gives_sbind|].
  - apply gives_slift.
  - cbn beta iota. eapply gives_sbind; [|unfold streaming; rewrite (st_headless Hs); apply await_still].
    unfold tell. rewrite (st_headless Hs). destruct (existsb _ _); apply gives_sret.
  - cbn beta iota. destruct (park_held_all (connectionsLinkText url ((fun d0 => label_of deps (df_provider d0)) <$> d :: ds)) (d :: ds) last_gate)
      as [P1 P2]. rewrite H4 in P1. rewrite H5 in P2. cbn [app] in P1. cbn [nullish]. apply verdict_link; [|exact P2|by left].
    rewrite P1. unfold page_links.
    set (text := connectionsLinkText url _).
    rewrite (Hall _ (fun p k => mkPendingLink p (label_of deps p) text false (mkPending (rq_agentId req) p "page" None
      (time + CONNECTIONS_LINK_TTL_SECONDS * 1000) k (rq_request req)))). unfold text. by rewrite (Hall _ (fun p _ => label_of deps p)).
Qed.

Lemma flows_still :
  viaPage deps req = false ->
  gives R (do! finished <- link_deferred parse_url url_pathname set_pathname searchParams_set url_toString now deps req last_gate ;;
           match finished with
           | Return outcome => sret outcome
           | Next g' | Last g' => verdict number_text deps req g'
           end)
    (batch_verdict parse_url url_pathname set_pathname searchParams_set url_toString number_text deps req linked starts grants looked_up time).
Proof.
  intros Hv. pose proof verdict_cleared as Hclear. revert Hclear.
  destruct (fold_gate (batch_plan req) (gate_of (batch_principal req) None)) as [_ _ _ H4 H5 H6 _ _].
  fold last_gate in H4, H5, H6. cbn in H4, H5, H6. unfold batch_verdict. rewrite Hv.
  assert (omap held_back (batch_plan req) = []) as Hd.
  { unfold held_back. rewrite Hv. generalize (batch_plan req). intros ps. induction ps as [|p ps IH]; [done|].
    cbn [omap list_omap]. rewrite IH. destruct (link_of p); [done|]. by destruct (gatewayFor deps p). }
  unfold link_deferred. rewrite H6, Hd. revert H4 H5.
  assert (forall l : list string, omap flow_missing l = omap (batch_missing deps req linked starts time) l /\
    omap flow_failed l = omap (batch_failed deps req linked starts) l) as Hflow.
  { intros l. unfold flow_missing, flow_failed. rewrite Hv. split; reflexivity. }
  destruct (Hflow (batch_plan req)) as [-> ->]. intros H4 H5 Hclear.
  eapply gives_sbind; [apply gives_sret|]. cbn beta iota.
  destruct (omap (batch_missing _ _ _ _ _) _) as [|l ls]; [destruct (omap (batch_failed _ _ _ _) _) as [|f fs]|].
  - by apply Hclear.
  - apply verdict_link; [exact H4|exact H5|by right].
  - apply verdict_link; [exact H4|exact H5|by left].
Qed.

Lemma authorize_still :
  gives R run
    (batch_result parse_url url_pathname set_pathname searchParams_set url_toString number_text deps req linked starts grants looked_up time).
Proof.
  unfold authorize. change (id_principal (identity req) ?? subject req) with (batch_principal req).
  eapply gives_sbind; [apply existing_login_still|]. rewrite plan_still.
  change (first_gate req (login_found None)) with (gate_of (W := W) (batch_principal req) None).
  eapply gives_sbind; [by apply assess_still|]. unfold assessed, batch_result.
  destruct (omap (batch_complaint deps req linked) (batch_plan req)) as [|o os] eqn:Eo; cbn [head]; [|apply gives_sret].
  fold last_gate. destruct (viaPage deps req) eqn:Hv; [by apply page_still|by apply flows_still].
Qed.

(** *** What the message says *)

Lemma linkPrompt_told s label message : str_includes (linkPromptText s label) message = true -> told_start s message.
Proof.
  intros H. destruct s as [uri code a b c|address n|address n]; cbn [told_start]; [split|..]; (eapply str_includes_trans; [|exact H]);
    cbn [linkPromptText].
  - do 2 apply str_includes_r. apply str_includes_app.
  - do 4 apply str_includes_r. apply str_includes_app.
  - do 2 apply str_includes_r. apply str_includes_app.
  - do 2 apply str_includes_r. apply str_includes_app.
Qed.

Lemma link_told links failed l :
  (forall l', l' ∈ links -> pd_surfacedLive l' = false) -> l ∈ links ->
  str_includes (pd_linkUrlText l) (composeLinkRequiredMessage number_text links failed) = true.
Proof.
  intros Hlive Hl. destruct (link_message_complete number_text links failed) as (H & _). apply H; [exact Hl|].
  intros l' Hl' _. by apply Hlive.
Qed.

Lemma failed_told links failed label : label ∈ failed -> str_includes label (composeLinkRequiredMessage number_text links failed) = true.
Proof. destruct (link_message_complete number_text links failed) as (_ & _ & _ & H). apply H. Qed.

Lemma flows_told p message pending :
  p ∈ batch_plan req -> link_of p = None ->
  batch_link number_text (omap (batch_missing deps req linked starts time) (batch_plan req))
    (omap (batch_failed deps req linked starts) (batch_plan req)) = LinkRequired message pending ->
  match starts p (batch_key deps req p) with
  | Ok s => told_start s message
  | Err _ => str_includes (label_of deps p) message = true
  end.
Proof.
  intros Hp Hn [= <- _]. destruct (starts p (batch_key deps req p)) as [s|e] eqn:Es.
  - apply (linkPrompt_told s (label_of deps p)). apply (link_told _ _ (batch_park deps req time p s)).
    + intros l' (p' & _ & Hl)%list_elem_of_omap. unfold batch_missing in Hl. destruct (link_of p'); [done|].
      destruct (starts p' _); [|done]. by injection Hl as <-.
    + apply list_elem_of_omap. exists p. split; [done|]. unfold batch_missing. by rewrite Hn, Es.
  - apply failed_told. apply list_elem_of_omap. exists p. split; [done|]. unfold batch_failed. by rewrite Hn, Es.
Qed.

Lemma connections_told page names message :
  str_includes (connectionsLinkText page names) message = true -> str_includes page message = true.
Proof.
  intros H. eapply str_includes_trans; [|exact H]. unfold connectionsLinkText.
  destruct names as [|a [|b names]]; cbn [linkPromptText]; do 2 apply str_includes_r; apply str_includes_app.
Qed.

Lemma page_told (page : string) names message pending : names <> [] ->
  batch_link number_text (page_links deps req time page names) [] = LinkRequired message pending -> str_includes page message = true.
Proof.
  intros Hne [= <- _]. destruct names as [|n names]; [done|]. eapply connections_told.
  apply (link_told _ _ (page_park deps req time (connectionsLinkText page (label_of deps <$> n :: names)) n)); [|by left].
  intros l' (p & -> & _)%list_elem_of_fmap. done.
Qed.

Lemma result_told message pending :
  batch_result parse_url url_pathname set_pathname searchParams_set url_toString number_text deps req linked starts grants looked_up time =
    Ok (LinkRequired message pending) ->
  batch_told parse_url url_pathname set_pathname searchParams_set url_toString deps req linked starts message.
Proof.
  unfold batch_result, batch_told. change (truthy_str _ && _ && _) with (viaPage deps req).
  destruct (head (omap (batch_complaint deps req linked) (batch_plan req))) as [o|] eqn:Eh.
  { intros [= ->]. exfalso. apply head_Some_elem_of, list_elem_of_omap in Eh as (p & _ & Hp). unfold batch_complaint in Hp.
    destruct (gatewayFor deps p); [|done]. destruct (link_of p); [|done]. by destruct (truthy_str _). }
  unfold batch_verdict. destruct (viaPage deps req) eqn:Hv.
  - destruct (List.filter _ (batch_plan req)) as [|n ns] eqn:En; [done|]. intros (page & Hpage & [= Hlink])%result_bind_Ok.
    unfold connectionsPageStart in Hpage. change (usesConnectionsPage _ _ _) with (viaPage deps req) in Hpage. rewrite Hv in Hpage.
    cbn [negb] in Hpage. destruct (ad_connectionsUrl deps) as [base|] eqn:Eb.
    2:{ unfold viaPage, usesConnectionsPage in Hv. by rewrite Eb in Hv. }
    apply result_bind_Ok in Hpage as (url & Hurl & [= <-]). exists base, url. split_and!; [done|done|].
    apply (page_told _ (n :: ns) message pending); [done|]. unfold batch_link. cbn [nullish] in Hlink. by f_equal.
  - intros Hlink p Hp Hn. apply (flows_told p message pending Hp Hn). revert Hlink.
    destruct (omap (batch_missing _ _ _ _ _) _), (omap (batch_failed _ _ _ _) _); intros H;
      solve [congruence|discriminate H].
Qed.

(** ** Properties *)

(** C32: on a turn without a live channel, whose caller needs no principal
    found first, and while neither the answers about accounts nor the clock
    change, [authorize] is its batch specification.  Every declared provider (less
    those a read-only turn withholds) is assessed, in order, none without a
    link ending the turn for the others; the first that is not configured
    does, with its error.  The launch is cleared exactly when all of them are
    linked, with their tokens in declared order, each followed by its
    write-back grant, and the actor's login last; the Secrets of the grants are
    handed over.  Otherwise, where each flow is started by itself, one message
    reports every missing link together with every flow that did not start;
    where the Connections page collects the links, it carries one link that
    names every provider without one; and the first missing link is the
    resume anchor. The message holds the address (and the code) of every link
    and the name of every provider whose flow did not start. *)
Theorem authorize_batch (w : W) :
  R w -> exists w',
  let result := batch_result parse_url url_pathname set_pathname searchParams_set url_toString number_text deps req linked starts grants
                  looked_up time in
  run w = (result, w') /\ R w' /\
  forall message pending, result = Ok (LinkRequired message pending) ->
    batch_told parse_url url_pathname set_pathname searchParams_set url_toString deps req linked starts message.
Proof.
  intros Hw. destruct (authorize_still w Hw) as (w' & E & Hw'). exists w'. split_and!; [exact E|exact Hw'|]. apply result_told.
Qed.

Lemma resolve_each_still ps env :
  ad_claudeRemoteWriteback deps = None -> omap (batch_complaint deps req linked) ps = [] ->
  gives R (resolve_each deps (rq_identity req) ps env)
  (Ok (match List.find (batch_unlinked deps req linked) ps with
       | Some p => lc_not_linked p
       | None => lc_resolved (match ps with [] => env | _ => Some ((env ?? []) ++ (ps ≫= batch_entries deps req linked grants)) end)
       end)).
Proof.
  intros Hno. revert env. induction ps as [|p ps IH]; intros env; [intros _; apply gives_sret|]. cbn [resolve_each List.find omap list_omap].
  unfold batch_complaint at 1. destruct (gatewayFor deps p) as [gw|] eqn:Eg; [|done]. intros Hps.
  change (if isCrossEntryPoint deps p then id_principal (rq_identity req) ?? id_subject (rq_identity req) else id_subject (rq_identity req))
    with (batch_key deps req p).
  eapply gives_sbind; [by apply (st_token Hs)|]. fold (link_of p). unfold batch_unlinked at 1.
  destruct (link_of p) as [t|] eqn:El; [|apply gives_sret].
  destruct (truthy_str _); [|done]. cbn [negb]. specialize (IH (Some ((env ?? []) ++ [mkEnv ((pc_envVar <$> catalog deps p) ?? EmptyString) (lt_token t)])) Hps).
  destruct (List.find _ ps); [exact IH|].
  assert (batch_entries deps req linked grants p = [mkEnv ((pc_envVar <$> catalog deps p) ?? EmptyString) (lt_token t)]) as He
    by (unfold batch_entries, batch_grant; by rewrite El, Hno).
  cbn [mbind list_bind]. rewrite He. destruct ps as [|p' ps]; [by rewrite app_nil_r|]. cbn [nullish] in IH. by rewrite <- app_assoc in IH.
Qed.

Lemma all_linked ps :
  List.find (batch_unlinked deps req linked) ps = None <->
  omap (batch_missing deps req linked starts time) ps = [] /\ omap (batch_failed deps req linked starts) ps = [].
Proof.
  induction ps as [|p ps IH]; [done|]. cbn [List.find omap list_omap].
  unfold batch_missing at 1, batch_failed at 1, batch_unlinked at 1.
  destruct (link_of p); [exact IH|]. by destruct (starts _ _); split; [|intros []| |intros []].
Qed.

(** The two ways to credentials agree. On a turn that is not read-only, with
    no page and no write-back, a tool backed by an agent is given credentials
    exactly when a launch of that agent would be cleared, and they are the same
    ones, but for the actor's login that only the launch carries; when the tool
    is told that a provider is not linked, the launch is not cleared either. *)
Theorem tool_resolution_agrees (w : W) :
  R w -> ad_claudeRemoteWriteback deps = None -> viaPage deps req = false -> rq_readOnly req = false ->
  omap (batch_complaint deps req linked) (batch_plan req) = [] ->
  exists answer outcome w1 w2,
    resolveLinkedCredentials deps (rq_identity req) (rq_identityProviders req) false w = (Ok answer, w1) /\
    run w = (Ok outcome, w2) /\
    match answer with
    | lc_resolved env => exists login, outcome = Authorized (some_unless_empty ((env ?? []) ++ actor_env login))
        (if truthy_str login then login else None) (batch_principal req) None
    | lc_not_linked p => p ∈ (rq_identityProviders req ?? []) /\ link_of p = None /\
        exists message pending, outcome = LinkRequired message pending
    | _ => False
    end.
Proof.
  intros Hw Hno Hv Hro Hconf. assert (batch_plan req = rq_identityProviders req ?? []) as Hplan.
  { unfold batch_plan, withheld. rewrite Hro. cbn [andb negb].
    generalize (rq_identityProviders req ?? []). intros ps. induction ps as [|p ps IH]; [done|]. cbn. by f_equal. }
  pose proof (authorize_still w Hw) as (w2 & E2 & _). unfold batch_result, batch_verdict in E2. rewrite Hconf, Hv in E2. cbn [head] in E2.
  rewrite Hplan in Hconf. destruct (resolve_each_still _ None Hno Hconf w Hw) as (w1 & E1 & _).
  pose proof (all_linked (batch_plan req)) as Hall. rewrite Hplan in Hall, E2.
  destruct (List.find _ (rq_identityProviders req ?? [])) as [p|] eqn:Ef.
  - destruct (find_some _ _ Ef) as [Hin%list_elem_of_In Hun].
    assert (exists m o, run w = (Ok (LinkRequired m o), w2)) as (m & o & Hmo).
    { rewrite E2. destruct (omap (batch_missing _ _ _ _ _) _) as [|l ls]; [|by eexists _, _].
      destruct (omap (batch_failed _ _ _ _) _) as [|f fs]; [|by eexists _, _]. by pose proof (proj2 Hall (conj eq_refl eq_refl)). }
    eexists _, _, w1, w2. split; [exact E1|]. split; [exact Hmo|]. split; [exact Hin|]. split; [|by eexists _, _].
    revert Hun. unfold batch_unlinked. by destruct (link_of p).
  - destruct (proj1 Hall eq_refl) as [H1 H2]. rewrite H1, H2 in E2. eexists _, _, w1, w2. split; [exact E1|]. split; [exact E2|].
    exists (batch_login deps req linked looked_up). unfold batch_cleared. rewrite Hplan.
    assert ((rq_identityProviders req ?? []) ≫= batch_owned deps req linked grants = []) as ->.
    { generalize (rq_identityProviders req ?? []). intros ps. induction ps as [|p ps IH]; [done|]. cbn [mbind list_bind].
      unfold batch_owned at 1, batch_grant. rewrite Hno. by destruct (link_of p). }
    by destruct (rq_identityProviders req ?? []).
Qed.
End Batch.

(** ** A webhook turn, and a chat turn with a Connections page *)

Definition hook_linked (p s : string) : option IdentityLinkToken :=
  if bool_decide (p = "claude" /\ s = "github:bob") then Some (mkLinkToken "cl-bob" None) else None.
Definition hook_starts (p s : string) : result string IdentityLinkStartResult :=
  if bool_decide (p = "claude-remote") then Err "no free session" else Ok (IdentityLinkAuthCodeStart "https://login" 600).

(** The world counts the calls. *)
Definition counting {A : Type} (r : result string A) : SM nat string A := fun w => (r, S w).

Definition hook_port : IdentityLinkPort nat :=
  mkPort (fun p s _ => counting (hook_starts p s)) (fun _ _ _ => sret poll_pending) (fun p s => counting (Ok (hook_linked p s)))
    None None None (Some (fun _ _ => sret None)) None.

Definition hook_deps (connectionsUrl : option string) : AuthorizationServiceDeps nat :=
  mkAuthorizationDeps connectionsUrl (mkGateways (Some hook_port) (Some hook_port) (Some hook_port)) None None None.

Definition hook_request (subject : string) (flow : LinkFlow) (providers : list string) : AuthorizationRequest nat :=
  mkAuthorizationRequest "swe" (Some providers) (mkIdentity subject ["dev"] (Some "github:bob") false None) "triage it" (Some "Bob") None None
    (Some flow) false.

Definition hook_run (connectionsUrl : option string) (subject : string) (flow : LinkFlow) (providers : list string) :
    SM nat string AuthorizationOutcome :=
  authorize (fun s => Ok s) id (fun path u => u +:+ path) (fun k v u => u +:+ "?" +:+ k +:+ "=" +:+ v) id (fun _ => 0) (fun _ => sret tt)
    (fun _ => "2") (hook_deps connectionsUrl) (hook_request subject flow providers).

Lemma hook_still url subject flow providers :
  still (fun _ => 0) (fun _ => sret tt) (hook_deps url) (hook_request subject flow providers) hook_linked hook_starts (fun _ _ => None)
    (Some "Bob") 0 (fun _ => True).
Proof.
  assert (forall p gw, gatewayFor (hook_deps url) p = Some gw -> gw = hook_port) as Hgw.
  { intros p gw. unfold gatewayFor, resolveIdentityGateway. destruct (_ ?? _); cbn; congruence. }
  split; try done.
  - unfold needs_principal. change (isCanonicalPrincipal (batch_principal (hook_request subject flow providers))) with true.
    apply andb_false_r.
  - intros n. apply gives_sret.
  - intros p gw k ->%Hgw w _. by eexists.
  - by intros p gw f a b ->%Hgw [=].
  - intros p gw k ->%Hgw w _. by eexists.
  - intros w _. by eexists.
Qed.

(** One account is linked, one link is missing and one flow does not start; on
    the page, one link collects both accounts that are missing. *)
Lemma authorize_batch_witness :
  (exists message pending w, hook_run None "svc" flow_device ["github"; "claude"; "claude-remote"] 0%nat =
     (Ok (LinkRequired message (Some pending)), w) /\
   pl_provider pending = "github" /\ pl_subject pending = "svc" /\ str_includes "Claude Remote Control" message = true) /\
  (exists message pending w, hook_run (Some "https://hub") "openwebui:b" flow_authcode ["github"; "claude"; "claude-remote"] 0%nat =
     (Ok (LinkRequired message (Some pending)), w) /\
   pl_provider pending = "github" /\ str_includes "https://hub/link?need=github,claude-remote" message = true).
Proof.
  split.
  - destruct (authorize_batch (fun s => Ok s) id (fun path u => u +:+ path) (fun k v u => u +:+ "?" +:+ k +:+ "=" +:+ v) id (fun _ => 0) _
      (fun _ => "2") _ _ _ _ _ _ _ _ (hook_still None "svc" flow_device ["github"; "claude"; "claude-remote"]) 0%nat I) as (w & E & _).
    eexists _, _, w. split; [exact E|]. split_and!; by vm_compute.
  - destruct (authorize_batch (fun s => Ok s) id (fun path u => u +:+ path) (fun k v u => u +:+ "?" +:+ k +:+ "=" +:+ v) id (fun _ => 0) _
      (fun _ => "2") _ _ _ _ _ _ _ _ (hook_still (Some "https://hub") "openwebui:b" flow_authcode ["github"; "claude"; "claude-remote"])
      0%nat I) as (w & E & _).
    eexists _, _, w. split; [exact E|]. split; by vm_compute.
Defined.

Lemma tool_resolution_agrees_witness :
  exists outcome w, hook_run None "svc" flow_device ["claude"] 0%nat = (Ok outcome, w) /\
    exists login, outcome = Authorized (some_unless_empty ([mkEnv "CLAUDE_CODE_OAUTH_TOKEN" "cl-bob"] ++ actor_env login))
      (if truthy_str login then login else None) "github:bob" None.
Proof.
  destruct (tool_resolution_agrees (fun s => Ok s) id (fun path u => u +:+ path) (fun k v u => u +:+ "?" +:+ k +:+ "=" +:+ v) id (fun _ => 0) _
    (fun _ => "2") _ _ _ _ _ _ _ _ (hook_still None "svc" flow_device ["claude"]) 0%nat I eq_refl eq_refl eq_refl eq_refl)
    as (answer & outcome & w1 & w2 & Ha & Ho & Hagree).
  assert (answer = lc_resolved (Some [mkEnv "CLAUDE_CODE_OAUTH_TOKEN" "cl-bob"])) as -> by (vm_compute in Ha; by injection Ha as <-).
  by exists outcome, w2.
Defined.

(** ** A subject that several people share *)

Definition shared_token : string := "shared-bearer".
Definition static_resolve (token : string) : SM nat string (option Identity) :=
  sret (if bool_decide (token = shared_token) then Some (mkIdentity "svc" ["dev"] None false None) else None).

(** A gateway where Alice linked her GitHub account through the shared subject,
    and her Claude account is stored under her principal. *)
Definition shared_port : IdentityLinkPort nat :=
  mkPort (fun _ _ _ => sret (IdentityLinkAuthCodeStart "https://login" 600)) (fun _ _ _ => sret poll_pending)
    (fun p s => sret (if bool_decide (p = "claude" /\ s = "github:alice") then Some (mkLinkToken "cl-alice" None) else None))
    None None None
    (Some (fun p s => sret (if bool_decide (p = "github" /\ s = "svc") then Some "Alice" else None))) None.

Definition shared_deps : AuthorizationServiceDeps nat :=
  mkAuthorizationDeps None (mkGateways (Some shared_port) (Some shared_port) (Some shared_port)) None None None.

Definition shared_turn (sender : option string) : SM nat string (result string AuthorizationOutcome) :=
  do! found <- resolveIdentity None static_resolve (Some shared_port) None shared_token sender ;;
  match found with
  | Err e => sret (Err e)
  | Ok who =>
      do! outcome <- authorize (fun s => Ok s) id (fun _ u => u) (fun _ _ u => u) id (fun _ => 0) (fun _ => sret tt) (fun _ => "2")
        shared_deps (mkAuthorizationRequest "swe" (Some ["claude"]) who "fix it" sender None None None false) ;;
      sret (Ok outcome)
  end.

(** The principal of a turn is resolved without the guard on shared
    subjects that the pre-flight has: once one person linked a GitHub account
    through a subject that several people share, every later turn of that
    subject without a sender of its own is given that person's principal and
    launches with that person's credential, where a turn with a sender of its
    own is not. *)
Theorem shared_subject_inherits :
  shared_turn None 0%nat =
    (Ok (Ok (Authorized (Some [mkEnv "CLAUDE_CODE_OAUTH_TOKEN" "cl-alice"; mkEnv ACTOR_LOGIN_ENV "Alice"]) (Some "Alice") "github:alice" None)),
     0%nat) /\
  exists message pending, shared_turn (Some "Bob") 0%nat = (Ok (Ok (LinkRequired message (Some pending))), 0%nat) /\
    pl_subject pending = "github:bob".
Proof. split; [by vm_compute|]. eexists _, _. split; by vm_compute. Qed.
