(* ===== verification/Rbac.v ===== *)
(** * Agent orchestrator: who the caller of a request is

    The identity resolvers of rbac (static-identity-resolver.ts,
    composite-identity-resolver.ts, oidc-identity-resolver.ts,
    openwebui-forwarded-user-resolver.ts), the signed sender assertion of the
    gateway (sender-assertion.ts) and its use by the server's /invoke handler,
    and the recording of principals for the Connections page
    (identity-link/principal-recording-resolver.ts). *)

From stdpp Require Import base gmap strings list sorting.
From Stdlib Require Import ZArith Lia Ascii.
From S2P Require Import Prelude JsString JsNumber Json JsMap EventValues JsList HttpSource Fetch KnowledgeBase.
From S2P Require Import KbSearch IdentityLink Authorization.

#[local] Open Scope Z_scope.

(** ** The static map (static-identity-resolver.ts) *)

(** [Array.isArray(v)] and its strings. *)
Definition string_items (v : option json) : option (list string) :=
  match v with
  | Some (JArr l) => Some (str_items l)
  | _ => None
  end.

Definition static_entry (value : json) : option Identity :=
  match value with
  | JObj fields =>
      match jget "subject" fields, string_items (jget "roles" fields) with
      | Some (JStr subject), Some roles => Some (mkIdentity subject roles None false None)
      | _, _ => None
      end
  | _ => None
  end.

(** [Object.entries]: of an array, its indices. *)
Definition entries_of (parsed : json) : list (string * json) :=
  match parsed with
  | JObj fields => fields
  | JArr l => imap (fun i v => (Z_to_string (Z.of_nat i), v)) l
  | _ => []
  end.

Definition loadStaticIdentitiesFromEnv (JSON_parse : string -> option json) (raw : option string) : jsmap Identity :=
  if negb (truthy_str raw) then []
  else
    match JSON_parse (raw ?? EmptyString) with
    | None => []
    | Some parsed => map_of (omap (fun e => pair e.1 <$> static_entry e.2) (entries_of parsed))
    end.

Definition StaticIdentityResolver (tokens : jsmap Identity) (authToken : string) : option Identity := map_get authToken tokens.

(** ** Two resolvers in turn (composite-identity-resolver.ts) *)

Definition CompositeIdentityResolver {W : Type} (primary fallback : string -> SM W string (option Identity)) (authToken : string) :
    SM W string (option Identity) :=
  do! found <- primary authToken ;;
  match found with
  | Some who => sret (Some who)
  | None => fallback authToken
  end.

(** ** Signed tokens (oidc-identity-resolver.ts, openwebui-forwarded-user-resolver.ts) *)

(** [value[key]] along a path. A key inherited from a prototype reaches
    functions only, from which no array comes: it reads as undefined. *)
Definition claim_step (value : option json) (k : string) : option json :=
  match value with
  | Some (JObj fields) => jget k fields
  | Some (JArr l) => own_get k (entries_of (JArr l))
  | _ => None
  end.

Definition readClaimPath (payload : list (string * json)) (path : string) : option json :=
  foldl claim_step (Some (JObj payload)) (split_char "."%char path).

Section Signed.
(** [jose.jwtVerify] under a set of options: the payload of a token that
    verifies. *)
Variable jwtVerify : string -> option (list (string * json)).

Definition OidcIdentityResolver (rolesClaim authToken : string) : option Identity :=
  match jwtVerify authToken with
  | None => None
  | Some payload =>
      match jget "sub" payload with
      | Some (JStr subject) =>
          if str_empty subject then None
          else Some (mkIdentity subject (string_items (readClaimPath payload rolesClaim) ?? []) None false None)
      | _ => None
      end
  end.

Definition openwebui_email (payload : list (string * json)) : option string :=
  match jget "email" payload with
  | Some (JStr email) => if includes_char "@"%char email then Some email else None
  | _ => None
  end.

Definition OpenWebUiForwardedUserResolver (roles : list string) (forwardedUserToken : string) : option Identity :=
  if str_empty forwardedUserToken then None
  else
    match jwtVerify forwardedUserToken with
    | None => None
    | Some payload =>
        match json_or (jget "id" payload) (json_or (jget "sub" payload) (jget "email" payload)) with
        | Some (JStr rawId) =>
            if str_empty rawId then None
            else
              let email := openwebui_email payload in
              Some (mkIdentity ("openwebui:" +:+ rawId) roles None true (if truthy_str email then email else None))
        | _ => None
        end
    end.
End Signed.

(** ** The sender of a webhook (sender-assertion.ts) *)

Definition DEFAULT_TTL_SECONDS : Z := 300.

Section Assertion.
(** HMAC-SHA256, base64url in both directions ([Buffer.from] never throws), the
    text of a value, and the parser. *)
Variable hmac : string -> string -> string.
Variables b64url unb64url : string -> string.
Variable JSON_stringify : json -> string.
Variable JSON_parse : string -> option json.

Definition sign (secret payloadB64 : string) : string := b64url (hmac secret payloadB64).

Definition assertion_payload (login : string) (ttlSeconds now : Z) : json :=
  JObj [("login", JStr login); ("exp", JNum (num_of_Z (now / 1000 + ttlSeconds)))].

Definition mintSenderAssertion (secret login : string) (ttlSeconds now : Z) : string :=
  let payloadB64 := b64url (JSON_stringify (assertion_payload login ttlSeconds now)) in
  payloadB64 +:+ "." +:+ sign secret payloadB64.

(** The claims of a payload that may be used now. *)
Definition claimed_login (payload : json) (now : Z) : option string :=
  match payload with
  | JObj fields =>
      match jget "login" fields, jget "exp" fields with
      | Some (JStr login), Some (JNum exp) =>
          if str_empty login || num_le (num_mul exp (num_of_Z 1000)) now then None else Some login
      | _, _ => None
      end
  | _ => None
  end.

Definition verifySenderAssertion (secret : string) (assertion : option string) (now : Z) : option string :=
  if str_empty secret || negb (truthy_str assertion) then None
  else
    match split_char "."%char (assertion ?? EmptyString) with
    | payloadB64 :: signature :: _ =>
        if str_empty payloadB64 || str_empty signature then None
        else if negb (String.eqb (sign secret payloadB64) signature) then None
        else payload ← JSON_parse (unb64url payloadB64); claimed_login payload now
    | _ => None
    end.

(** What /invoke takes for the sender of a turn (server.ts): with a secret, a
    signed assertion and nothing else. *)
Definition invoke_sender (senderAssertionSecret : option string) (assertion : option string) (envelope_login : option (option json))
    (now : Z) : option string :=
  if truthy_str senderAssertionSecret
  then verifySenderAssertion (senderAssertionSecret ?? EmptyString) assertion now
  else
    match envelope_login with
    | Some (Some (JStr login)) => if str_empty (trim login) then None else Some login
    | _ => None
    end.
End Assertion.

(** ** Recording principals (principal-recording-resolver.ts) *)

Definition RETRY_AFTER_MS : Z := 5 * 60 * 1000.

(** [recorded] and [failedAt]; [sent] are the records given to the sink, oldest
    first, as (subject, email). *)
Record Recorder := mkRecorder {
  rc_recorded : jsmap string;
  rc_failedAt : jsmap Z;
  rc_sent : list (string * string)
}.

Definition maybeRecord (now : Z) (email subject : string) (s : Recorder) : Recorder :=
  if bool_decide (map_get subject (rc_recorded s) = Some email) then s
  else if match map_get subject (rc_failedAt s) with
          | Some failed => now - failed <? RETRY_AFTER_MS
          | None => false
          end then s
  else mkRecorder (map_set subject email (rc_recorded s)) (rc_failedAt s) (rc_sent s ++ [(subject, email)]).

(** What [resolve] does on its way, and the two ends of a record. *)
Definition record_identity (now : Z) (found : option Identity) (s : Recorder) : Recorder :=
  match found with
  | Some who =>
      if id_perUser who && truthy_str (id_email who)
      then maybeRecord now (toLowerCase (trim (id_email who ?? EmptyString))) (id_subject who) s
      else s
  | None => s
  end.

Definition record_done (subject : string) (s : Recorder) : Recorder :=
  mkRecorder (rc_recorded s) (map_delete subject (rc_failedAt s)) (rc_sent s).

Definition record_failed (now : Z) (subject : string) (s : Recorder) : Recorder :=
  mkRecorder (map_delete subject (rc_recorded s)) (map_set subject now (rc_failedAt s)) (rc_sent s).

Inductive RecorderStep : Recorder -> Recorder -> Prop :=
| rs_resolve now found s : RecorderStep s (record_identity now found s)
| rs_done subject s : RecorderStep s (record_done subject s)
| rs_failed now subject s : RecorderStep s (record_failed now subject s).

(** ** Whole numbers of seconds *)

Lemma round_ratio_int n : 0 < n < 2 ^ 53 -> exists m e, round_ratio n 1 = Finite m e /\ forall z, num_le (Finite m e) z = (n <=? z).
Proof.
  intros Hn. unfold round_ratio. rewrite (proj2 (Z.eqb_neq _ _)) by lia.
  pose proof (Z.log2_spec n ltac:(lia)) as [Hlo Hhi]. pose proof (Z.log2_nonneg n).
  assert (Z.log2 n <= 52) as H52.
  { apply Z.lt_succ_r. apply (Z.pow_lt_mono_r_iff 2); [lia..|]. change (Z.succ 52) with 53. lia. }
  assert (double_exp n 1 = Z.log2 n - 52) as ->.
  { unfold double_exp, scaled. change (Z.log2 1) with 0. rewrite (proj2 (Z.leb_gt _ _)) by lia. cbv beta iota.
    rewrite Z.div_1_r, (proj2 (Z.leb_le _ _)); [lia|].
    replace (2 ^ 53) with (2 ^ Z.log2 n * 2 ^ (53 - Z.log2 n)) by (rewrite <- Z.pow_add_r by lia; f_equal; lia).
    replace (- (Z.log2 n - 0 - 53)) with (53 - Z.log2 n) by lia. apply Z.mul_le_mono_nonneg_r; lia. }
  set (e := Z.log2 n - 52). assert (e <= 0) as He by (unfold e; lia). clearbody e.
  assert (forall a, round_even a 1 = a) as Hround.
  { intros a. unfold round_even. rewrite Z.div_1_r, Z.mod_1_r. reflexivity. }
  unfold scaled. destruct (decide (e = 0)) as [->|Hne].
  - cbn [Z.leb Z.compare]. change (1 * 2 ^ 0) with 1. rewrite Hround. change (0 <=? 0) with true. cbn [andb].
    rewrite (proj2 (Z.leb_gt _ _)).
    + exists n, 0. split; [done|]. intros z. cbn. by rewrite Z.mul_1_r.
    + change (2 ^ 0) with 1. pose proof (Z.pow_lt_mono_r 2 53 1024 ltac:(lia) ltac:(lia) ltac:(lia)). lia.
  - rewrite (proj2 (Z.leb_gt 0 e)) by lia. cbv beta iota. rewrite Hround. cbn [andb].
    exists (n * 2 ^ (- e)), e. split; [done|]. intros z. cbn [num_le]. rewrite (proj2 (Z.leb_gt 0 e)) by lia.
    pose proof (Z.pow_pos_nonneg 2 (- e) ltac:(lia) ltac:(lia)).
    destruct (Z.leb_spec n z); [apply Z.leb_le; nia|apply Z.leb_gt; nia].
Qed.

(** [exp * 1000 <= now], for a whole [exp] within the doubles' integers. *)
Lemma seconds_passed n now : 0 < n -> n * 1000 < 2 ^ 53 -> num_le (num_mul (num_of_Z n) (num_of_Z 1000)) now = (n * 1000 <=? now).
Proof.
  intros Hn Hbig. unfold num_mul, num_of_Z, round_dyadic. change (0 <=? 0 + 0) with true. cbv iota.
  change (2 ^ (0 + 0)) with 1. rewrite Z.mul_1_r. unfold round_signed. rewrite (proj2 (Z.ltb_ge _ _)) by lia.
  destruct (round_ratio_int (n * 1000) ltac:(lia)) as (m & e & -> & H). apply H.
Qed.

(** ** Properties *)

(** Who may be one person. Of all the resolvers, only the one that verifies
    Open WebUI's per-request token asserts that a subject is one person's, and
    it does so under its own name space: the subject is "openwebui:" with a
    non-empty id claim of a token that verified, never a canonical principal.
    The static map and the OIDC resolver, alone or in turn, never assert it and
    never name a principal; and a token that does not verify is nobody. *)
Theorem perUser_only_forwarded {W : Type} (jwtVerify : string -> option (list (string * json)))
    (JSON_parse : string -> option json) (raw : option string) (rolesClaim : string) (roles : list string) (token : string) (w w' : W)
    (who : Identity) :
  (CompositeIdentityResolver (fun t => sret (OidcIdentityResolver jwtVerify rolesClaim t))
     (fun t => sret (StaticIdentityResolver (loadStaticIdentitiesFromEnv JSON_parse raw) t)) token w = (Ok (Some who), w') ->
   id_perUser who = false /\ id_principal who = None) /\
  (OpenWebUiForwardedUserResolver jwtVerify roles token = Some who ->
   id_perUser who = true /\ id_roles who = roles /\ isCanonicalPrincipal (id_subject who) = false /\
   exists payload rawId, jwtVerify token = Some payload /\ id_subject who = "openwebui:" +:+ rawId /\ rawId <> EmptyString) /\
  (jwtVerify token = None -> OidcIdentityResolver jwtVerify rolesClaim token = None /\
     OpenWebUiForwardedUserResolver jwtVerify roles token = None).
Proof.
  split; [|split].
  - unfold CompositeIdentityResolver, sbind, sret. destruct (OidcIdentityResolver jwtVerify rolesClaim token) as [who'|] eqn:E.
    + intros [= <- _]. unfold OidcIdentityResolver in E. split_matches; done.
    + intros [= H _]. unfold StaticIdentityResolver, loadStaticIdentitiesFromEnv in H.
      destruct (negb (truthy_str raw)); [done|]. destruct (JSON_parse _) as [parsed|]; [|done].
      apply map_get_elem_weak in H. unfold map_of in H. revert H.
      generalize (entries_of parsed). intros es.
      enough (forall (acc : jsmap Identity) l, (forall e, e ∈ acc -> id_perUser e.2 = false /\ id_principal e.2 = None) ->
        forall e, e ∈ foldl (fun m e => map_set e.1 e.2 m) acc (omap (fun e => pair e.1 <$> static_entry e.2) l) ->
        id_perUser e.2 = false /\ id_principal e.2 = None) as Hall.
      { intros H. apply (Hall [] es) in H; [done|]. by intros e He%elem_of_nil. }
      intros acc l. revert acc. induction l as [|x l IH]; intros acc Hacc e He; [by apply Hacc|]. cbn [omap list_omap] in He.
      destruct (static_entry x.2) as [who1|] eqn:Es; [|by apply (IH acc)]. apply (IH (map_set x.1 who1 acc)); [|exact He].
      intros e' [->|He']%map_set_elem; [|by apply Hacc]. cbn. unfold static_entry in Es. split_matches; done.
  - unfold OpenWebUiForwardedUserResolver. intros H. destruct (str_empty token); [done|].
    destruct (jwtVerify token) as [payload|]; [|done]. destruct (json_or _ _) as [[]|]; try done.
    destruct (str_empty s) eqn:E; [done|]. injection H as <-. split_and!; [done..|].
    exists payload, s. split_and!; [done..|]. by intros ->.
  - intros H. unfold OidcIdentityResolver, OpenWebUiForwardedUserResolver. rewrite H. by destruct (str_empty token).
Qed.

(** The laws of the encodings: base64url of a non-empty text is not empty and
    has no dot, and what is encoded is decoded. *)
Class Base64Laws (b64url unb64url : string -> string) : Prop := {
  b64_no_dot : forall s, includes_char "."%char (b64url s) = false;
  b64_nonempty : forall s, s <> EmptyString -> b64url s <> EmptyString;
  b64_decode : forall s, unb64url (b64url s) = s
}.

(** An assertion the gateway mints is accepted for exactly its lifetime, and
    for the login it names: before its expiry the server takes that login for
    the sender, whatever the envelope says, and from the expiry on no one. *)
Theorem sender_assertion_roundtrip (hmac : string -> string -> string) (b64url unb64url : string -> string)
    (JSON_stringify : json -> string) (JSON_parse : string -> option json) `{!Base64Laws b64url unb64url}
    (secret login : string) (ttl now now' : Z) (envelope : option (option json)) :
  secret <> EmptyString -> login <> EmptyString -> (forall s t, hmac s t <> EmptyString) ->
  (let payload := assertion_payload login ttl now in
   JSON_stringify payload <> EmptyString /\ JSON_parse (JSON_stringify payload) = Some payload) ->
  0 <= now -> 0 < ttl -> (now / 1000 + ttl) * 1000 < 2 ^ 53 ->
  invoke_sender hmac b64url unb64url JSON_parse (Some secret)
    (Some (mintSenderAssertion hmac b64url JSON_stringify secret login ttl now)) envelope now' =
  (if (now / 1000 + ttl) * 1000 <=? now' then None else Some login).
Proof.
  intros Hsecret Hlogin Hmac Hjson Hnow Httl Hbig. unfold invoke_sender, mintSenderAssertion.
  set (body := b64url (JSON_stringify _)). assert (body <> EmptyString) as Hbody by (apply b64_nonempty; apply Hjson).
  assert (truthy_str (Some secret) = true) as -> by by destruct secret. cbn [nullish].
  unfold verifySenderAssertion. assert (str_empty secret = false) as -> by by destruct secret.
  assert (truthy_str (Some (body +:+ "." +:+ sign hmac b64url secret body)) = true) as -> by by destruct body. cbn [orb negb nullish].
  change (split_char _ _) with (split_char "."%char (body +:+ String "."%char (sign hmac b64url secret body))).
  rewrite (split_char_app_sep "."%char body) by apply includes_char_false, b64_no_dot.
  rewrite (split_char_nosep _ (sign _ _ _ _)) by (unfold sign; apply includes_char_false, b64_no_dot).
  assert (str_empty body = false) as -> by by destruct body.
  assert (str_empty (sign hmac b64url secret body) = false) as ->.
  { destruct (sign hmac b64url secret body) eqn:E; [|done]. exfalso. by apply (b64_nonempty (hmac secret body)). }
  rewrite String.eqb_refl. cbn [orb negb]. unfold body at 1. rewrite b64_decode, (proj2 Hjson). cbn [mbind option_bind].
  unfold claimed_login, assertion_payload. change (jget "login" _) with (Some (JStr login)).
  change (jget "exp" _) with (Some (JNum (num_of_Z (now / 1000 + ttl)))). cbv iota beta.
  pose proof (Z.div_pos now 1000 Hnow ltac:(lia)). rewrite seconds_passed by lia.
  assert (str_empty login = false) as -> by by destruct login. cbn [orb]. done.
Qed.

(** With a secret configured, nobody is a sender without a signature: a
    login is taken only from a payload whose signature under that secret came
    with it and whose expiry is ahead, and the unsigned envelope is not read at
    all. Without one, the envelope's login is used as it is, if it is a text
    with something in it. *)
Theorem invoke_sender_signed (hmac : string -> string -> string) (b64url unb64url : string -> string)
    (JSON_parse : string -> option json) (secret assertion : option string) (envelope : option (option json)) (now : Z) (login : string) :
  invoke_sender hmac b64url unb64url JSON_parse secret assertion envelope now = Some login ->
  login <> EmptyString /\
  if truthy_str secret then
    exists a payloadB64 fields exp rest, assertion = Some a /\
      split_char "."%char a = payloadB64 :: b64url (hmac (secret ?? EmptyString) payloadB64) :: rest /\
      JSON_parse (unb64url payloadB64) = Some (JObj fields) /\ jget "login" fields = Some (JStr login) /\
      jget "exp" fields = Some (JNum exp) /\ num_le (num_mul exp (num_of_Z 1000)) now = false
  else envelope = Some (Some (JStr login)).
Proof.
  unfold invoke_sender. destruct (truthy_str secret) eqn:Es.
  - unfold verifySenderAssertion. destruct (_ || _) eqn:E1; [done|]. apply orb_false_iff in E1 as [_ E1].
    destruct assertion as [a|]; [|done]. cbn [nullish]. destruct (split_char "."%char a) as [|p [|s rest]] eqn:Esp; [done..|].
    destruct (_ || _); [done|]. destruct (String.eqb (sign hmac b64url _ p) s) eqn:Eq; [|done]. apply String.eqb_eq in Eq. cbn [negb].
    destruct (JSON_parse (unb64url p)) as [payload|] eqn:Ep; [|done]. cbn [mbind option_bind]. unfold claimed_login. intros H.
    destruct payload as [| | | | |fields]; try done. destruct (jget "login" fields) as [[]|] eqn:El; try done.
    destruct (jget "exp" fields) as [[]|] eqn:Ee; try done. destruct (_ || _) eqn:E2; [done|]. injection H as ->.
    apply orb_false_iff in E2 as [E2 E3]. split; [by intros ->|].
    exists a, p, fields, x, rest. subst s. by split_and!.
  - destruct envelope as [[[]|]|]; try done. destruct (str_empty (trim s)) eqn:Et; [done|]. intros [= ->]. split; [|done].
    by intros ->.
Qed.

(** ** Samples *)

(** An encoding with the laws: two letters for a character. *)
Definition letter (n : N) : ascii := ascii_of_N (97 + n).
Definition nibbles (s : string) : string :=
  str_concat ((fun c => String (letter (N_of_ascii c / 16)) (String (letter (N_of_ascii c mod 16)) EmptyString)) <$> String.list_ascii_of_string s).

Fixpoint unnibbles (s : string) : string :=
  match s with
  | String a (String b rest) => String (ascii_of_N ((N_of_ascii a - 97) * 16 + (N_of_ascii b - 97))) (unnibbles rest)
  | _ => EmptyString
  end.

#[export] Instance nibbles_laws : Base64Laws nibbles unnibbles.
Proof.
  split.
  - intros s. induction s as [|c s IH]; [done|].
    change (nibbles (String c s)) with (String (letter (N_of_ascii c / 16)) (String (letter (N_of_ascii c mod 16)) (nibbles s))).
    revert IH. unfold includes_char, indexOf. cbn [str_search]. destruct (str_search _ (nibbles s)); [done|]. intros _.
    by destruct c as [[] [] [] [] [] [] [] []].
  - by intros [|c s].
  - intros s. induction s as [|c s IH]; [done|].
    change (nibbles (String c s)) with (String (letter (N_of_ascii c / 16)) (String (letter (N_of_ascii c mod 16)) (nibbles s))).
    cbn [unnibbles]. rewrite IH. f_equal. by destruct c as [[] [] [] [] [] [] [] []].
Qed.

Definition sample_hmac (secret text : string) : string := "mac:" +:+ secret +:+ ":" +:+ text.
Definition sample_payload : json := assertion_payload "octo" 300 1000500.
Definition sample_stringify (j : json) : string := "octo until 1300".
Definition sample_json (s : string) : option json := if bool_decide (s = "octo until 1300") then Some sample_payload else None.

Lemma sender_assertion_roundtrip_witness :
  invoke_sender sample_hmac nibbles unnibbles sample_json (Some "s3cret")
    (Some (mintSenderAssertion sample_hmac nibbles sample_stringify "s3cret" "octo" 300 1000500)) None 1299999 = Some "octo".
Proof.
  rewrite (sender_assertion_roundtrip sample_hmac nibbles unnibbles sample_stringify sample_json "s3cret" "octo" 300 1000500 1299999 None);
    [reflexivity|done|done|done|by vm_compute|lia..|vm_compute; reflexivity].
Defined.

Lemma invoke_sender_signed_witness :
  exists fields, sample_json "octo until 1300" = Some (JObj fields) /\ jget "login" fields = Some (JStr "octo").
Proof.
  destruct (invoke_sender_signed sample_hmac nibbles unnibbles sample_json (Some "s3cret")
    (Some (mintSenderAssertion sample_hmac nibbles sample_stringify "s3cret" "octo" 300 1000500)) None 1299999 "octo")
    as [_ (a & p & fields & x & rest & Ha & Hs & Hj & Hl & _)]; [by vm_compute|].
  exists fields. split; [|done]. injection Ha as <-. vm_compute in Hs. injection Hs as <- _. exact Hj.
Defined.

(** Two callers: one with a token of Open WebUI, one with an OIDC token. *)
Definition sample_jwt (token : string) : option (list (string * json)) :=
  if bool_decide (token = "chat") then Some [("id", JStr "u1"); ("email", JStr "a@x")]
  else if bool_decide (token = "oidc") then Some [("sub", JStr "svc"); ("realm", JObj [("roles", JArr [JStr "dev"])])]
  else None.

Lemma perUser_only_forwarded_witness :
  OidcIdentityResolver sample_jwt "realm.roles" "oidc" = Some (mkIdentity "svc" ["dev"] None false None) /\
  isCanonicalPrincipal "openwebui:u1" = false.
Proof.
  split; [by vm_compute|].
  exact (proj1 (proj2 (proj2 (proj1 (proj2 (perUser_only_forwarded sample_jwt (fun _ => None) None "realm.roles" ["reader"] "chat" tt tt
    (mkIdentity "openwebui:u1" ["reader"] None true (Some "a@x")))) ltac:(by vm_compute))))).
Defined.
