(* ===== verification/Session.v ===== *)
(** * Agent orchestrator: what a conversation keeps between turns

    The session record and store (session/types.ts,
    session/in-memory-session-store.ts), the writers of the anchor of a running
    agent (session/inflight-agent-run.ts), the server's own writers and its
    reader ([persistSession], [setSessionReadOnly], [buildGraphInput] of
    server.ts), and the continuation tokens a record carries (continuation.ts).

    Times are whole milliseconds. *)

From stdpp Require Import base gmap strings list sorting.
From Stdlib Require Import ZArith Lia Ascii.
From S2P Require Import Prelude JsString JsNumber Json JsMap EventValues JsList HttpSource Fetch KnowledgeBase.
From S2P Require Import KbSearch KbCite IdentityLink Authorization.

#[local] Open Scope Z_scope.

(** ** The record (types.ts) *)

Record SubAgentApprovalPending := mkSubAgentApproval {
  sap_runId : string;
  sap_callId : string;
  sap_tool : string;
  sap_input : string;
  sap_agentId : string;
  sap_subject : string;
  sap_expiresAt : Z
}.

(** A record without its time stamp. An approval of the graph's own is JSON that
    no writer looks into. *)
Record SessionRecord := mkSession {
  ss_subject : string;
  ss_activeSkillId : option string;
  ss_activeAgentId : option string;
  ss_activeAgentRunId : option string;
  ss_activeAgentRunAwaitingReply : option bool;
  ss_activeAgentRunReadOnly : option bool;
  ss_lastAgentRunId : option string;
  ss_toolContinuations : option (jsmap string);
  ss_agentContinuations : option (jsmap string);
  ss_pendingIdentityLink : option PendingIdentityLink;
  ss_approvalPending : option json;
  ss_subAgentApprovalPending : option SubAgentApprovalPending;
  ss_readOnly : option bool
}.

Definition blank (subject : string) : SessionRecord :=
  mkSession subject None None None None None None None None None None None None.

(** [flag === true] and a flag's truth. *)
Definition is_true (flag : option bool) : bool := flag ?? false.

(** ** The store in memory (in-memory-session-store.ts) *)

Record Stamped := mkStamped {
  sd_record : SessionRecord;
  sd_updatedAt : Z
}.

Record InMemorySessionStoreOptions := mkStoreOptions {
  so_ttlMs : Z;
  so_maxEntries : nat
}.

Section Store.
Variable opts : InMemorySessionStoreOptions.
Implicit Types (sessions : jsmap Stamped).

Definition expired (now : Z) (s : Stamped) : bool := so_ttlMs opts <? now - sd_updatedAt s.

Definition store_get (now : Z) (sessionId : string) sessions : option Stamped * jsmap Stamped :=
  match map_get sessionId sessions with
  | None => (None, sessions)
  | Some s => if expired now s then (None, map_delete sessionId sessions) else (Some s, sessions)
  end.

(** [while (size > max) delete the first key] *)
Fixpoint evict (fuel : nat) sessions : jsmap Stamped :=
  match fuel with
  | O => sessions
  | S fuel' =>
      if Nat.ltb (so_maxEntries opts) (length sessions) then
        match sessions with
        | [] => sessions
        | (oldest, _) :: _ => evict fuel' (map_delete oldest sessions)
        end
      else sessions
  end.

Definition store_set (now : Z) (sessionId : string) (record : SessionRecord) sessions : jsmap Stamped :=
  let written := map_set sessionId (mkStamped record now) (map_delete sessionId sessions) in
  evict (length written) written.

Definition listSubAgentApprovals (now : Z) sessions : list (string * SubAgentApprovalPending) :=
  omap (fun e => if expired now e.2 then None else pair e.1 <$> ss_subAgentApprovalPending (sd_record e.2)) sessions.
End Store.

(** ** The port, and the writers over it (inflight-agent-run.ts) *)

Record SessionStore (W : Type) := mkSessionStore {
  st_get : string -> SM W string (option SessionRecord);
  st_set : string -> SessionRecord -> SM W string unit;
  st_list : option (SM W string (list (string * SubAgentApprovalPending)))
}.
Arguments mkSessionStore {W}.
Arguments st_get {W} s.
Arguments st_set {W} s.
Arguments st_list {W} s.

(** The record a writer puts in the place of [existing]. *)
Definition awaiting_record (existing : option SessionRecord) (subject agentId agentRunId : string) (readOnly : bool) : SessionRecord :=
  let e := existing ?? blank subject in
  mkSession (ss_subject e) None (Some agentId) (Some agentRunId) (Some true) (if readOnly then Some true else None) (Some agentRunId)
    (ss_toolContinuations e) (ss_agentContinuations e) (ss_pendingIdentityLink e) (ss_approvalPending e)
    (ss_subAgentApprovalPending e) (ss_readOnly e).

Definition cleared_awaiting (e : SessionRecord) : SessionRecord :=
  mkSession (ss_subject e) (ss_activeSkillId e) None None None None (ss_lastAgentRunId e) (ss_toolContinuations e)
    (ss_agentContinuations e) (ss_pendingIdentityLink e) (ss_approvalPending e) (ss_subAgentApprovalPending e) (ss_readOnly e).

Definition approval_record (existing : option SessionRecord) (pending : SubAgentApprovalPending) : SessionRecord :=
  let e := existing ?? blank (sap_subject pending) in
  mkSession (ss_subject e) None (Some (sap_agentId pending)) (Some (sap_runId pending)) (Some true) (ss_activeAgentRunReadOnly e)
    (Some (sap_runId pending)) (ss_toolContinuations e) (ss_agentContinuations e) (ss_pendingIdentityLink e) (ss_approvalPending e)
    (Some pending) (ss_readOnly e).

Definition cleared_approval (e : SessionRecord) : SessionRecord :=
  mkSession (ss_subject e) (ss_activeSkillId e) (ss_activeAgentId e) (ss_activeAgentRunId e) (ss_activeAgentRunAwaitingReply e)
    (ss_activeAgentRunReadOnly e) (ss_lastAgentRunId e) (ss_toolContinuations e) (ss_agentContinuations e) (ss_pendingIdentityLink e)
    (ss_approvalPending e) None (ss_readOnly e).

Definition SUBAGENT_APPROVAL_TIMEOUT_ERROR : string := "approval_timeout: Tool call was not approved in time and was not run.".

Section Writers.
Context {W : Type}.
Variable store : SessionStore W.

Definition markAgentRunAwaitingReply (sessionId subject agentId agentRunId : string) (readOnly : bool) : SM W string unit :=
  do! existing <- st_get store sessionId ;;
  st_set store sessionId (awaiting_record existing subject agentId agentRunId readOnly).

Definition clearAgentRunAwaitingReply (sessionId : string) : SM W string unit :=
  do! existing <- st_get store sessionId ;;
  match existing with
  | None => sret tt
  | Some e => st_set store sessionId (cleared_awaiting e)
  end.

Definition markSubAgentApproval (sessionId : string) (pending : SubAgentApprovalPending) : SM W string unit :=
  do! existing <- st_get store sessionId ;;
  st_set store sessionId (approval_record existing pending).

Definition clearSubAgentApproval (sessionId : string) : SM W string unit :=
  do! existing <- st_get store sessionId ;;
  match existing with
  | None => sret tt
  | Some e => st_set store sessionId (cleared_approval e)
  end.

(** One entry of the sweep: how many it timed out. A failure is left for the
    next tick. *)
Definition sweep_one (resolveToolCall : string -> string -> string -> SM W string unit) (now : Z) (timedOut : nat)
    (entry : string * SubAgentApprovalPending) : SM W string nat :=
  let '(sessionId, pending) := entry in
  if now <=? sap_expiresAt pending then sret timedOut
  else
    scatch
      (do! _ <- resolveToolCall (sap_runId pending) (sap_callId pending) SUBAGENT_APPROVAL_TIMEOUT_ERROR ;;
       do! _ <- clearSubAgentApproval sessionId ;;
       sret (S timedOut))
      (fun _ => sret timedOut).

Definition sweepExpiredSubAgentApprovals (resolveToolCall : option (string -> string -> string -> SM W string unit)) (now : Z) :
    SM W string nat :=
  match resolveToolCall, st_list store with
  | Some resolve, Some list =>
      do! pendings <- scatch list (fun _ => sret []) ;;
      sfold (sweep_one resolve now) O pendings
  | _, _ => sret O
  end.
End Writers.

(** ** The server's writers and reader (server.ts) *)

(** What a turn leaves behind. *)
Record TurnOutcome := mkOutcome {
  oc_selectedSkill : option string;
  oc_selectedAgent : option string;
  oc_agentRunId : option string;
  oc_agentAwaitingReply : bool;
  oc_agentResumePending : bool;
  oc_extractedContinuation : option (string * string);
  oc_extractedAgentContinuation : option (string * string);
  oc_pendingIdentityLink : option PendingIdentityLink;
  oc_identityLinkPending : bool;
  oc_approvalPending : option json;
  oc_approvalWaiting : bool;
  oc_subAgentApprovalPending : option SubAgentApprovalPending;
  oc_subAgentApprovalWaiting : bool;
  oc_readOnly : bool
}.

(** The map after a turn: a token replaces its key's, an empty one removes it. *)
Definition merge_continuation (existing : option (jsmap string)) (extracted : option (string * string)) : option (jsmap string) :=
  let m := existing ?? [] in
  some_unless_empty
    (match extracted with
     | Some (k, token) => if str_empty token then map_delete k m else map_set k token m
     | None => m
     end).

Definition set_flag (b : bool) : option bool := if b then Some true else None.

(** [base] with the fields of a branch on top. *)
Definition based (existing : option SessionRecord) (subject : string) (o : TurnOutcome) (skill agent run : option string)
    (awaiting runReadOnly : bool) (link : option PendingIdentityLink) (approval : option json)
    (sub : option SubAgentApprovalPending) : SessionRecord :=
  mkSession subject skill agent run (set_flag awaiting) (set_flag runReadOnly)
    (if truthy_str (oc_agentRunId o) then oc_agentRunId o else existing ≫= ss_lastAgentRunId)
    (merge_continuation (existing ≫= ss_toolContinuations) (oc_extractedContinuation o))
    (merge_continuation (existing ≫= ss_agentContinuations) (oc_extractedAgentContinuation o))
    link approval sub (set_flag (is_true (existing ≫= ss_readOnly) || oc_readOnly o)).

(** A run the session already anchored keeps its mode; a new one has the turn's. *)
Definition run_read_only (existing : option SessionRecord) (o : TurnOutcome) (runId : string) : bool :=
  if bool_decide (existing ≫= ss_activeAgentRunId = Some runId) then is_true (existing ≫= ss_activeAgentRunReadOnly)
  else oc_readOnly o.

(** The record [persistSession] writes, if it writes one. *)
Definition persisted (existing : option SessionRecord) (subject : string) (o : TurnOutcome) : option SessionRecord :=
  let plain := based existing subject o None None None false false None None None in
  let anchored := fun agentId runId awaiting sub =>
    based existing subject o None (Some agentId) (Some runId) awaiting (run_read_only existing o runId) None None sub in
  match oc_approvalWaiting o, oc_approvalPending o with
  | true, Some pending => Some (based existing subject o None None None false false None (Some pending) None)
  | _, _ =>
      match oc_subAgentApprovalWaiting o, oc_subAgentApprovalPending o with
      | true, Some pending => Some (anchored (sap_agentId pending) (sap_runId pending) true (Some pending))
      | _, _ =>
          if oc_identityLinkPending o
          then Some (based existing subject o None None None false false (oc_pendingIdentityLink o) None None)
          else
            match oc_selectedSkill o with
            | Some skill => Some (based existing subject o (Some skill) None None false false None None None)
            | None =>
                if truthy_str (oc_agentRunId o) then
                  let runId := oc_agentRunId o ?? EmptyString in
                  match oc_selectedAgent o with
                  | Some agent => if oc_agentResumePending o then Some (anchored agent runId true None)
                                  else if oc_agentAwaitingReply o then Some (anchored agent runId false None)
                                  else Some plain
                  | None => Some plain
                  end
                else
                  match oc_extractedContinuation o, oc_extractedAgentContinuation o with
                  | None, None => if oc_readOnly o && negb (is_true (existing ≫= ss_readOnly)) then Some plain else None
                  | _, _ => Some plain
                  end
            end
      end
  end.

Section Server.
Context {W : Type}.
Variable sessionStore : option (SessionStore W).

Definition persistSession (sessionId : option string) (identity : option Identity) (outcome : TurnOutcome) : SM W string unit :=
  match sessionId, sessionStore, identity with
  | Some id, Some store, Some who =>
      if str_empty id then sret tt
      else
        do! existing <- st_get store id ;;
        match persisted existing (id_subject who) outcome with
        | Some record => st_set store id record
        | None => sret tt
        end
  | _, _, _ => sret tt
  end.

Definition with_readOnly (e : SessionRecord) (readOnly : option bool) : SessionRecord :=
  mkSession (ss_subject e) (ss_activeSkillId e) (ss_activeAgentId e) (ss_activeAgentRunId e) (ss_activeAgentRunAwaitingReply e)
    (ss_activeAgentRunReadOnly e) (ss_lastAgentRunId e) (ss_toolContinuations e) (ss_agentContinuations e) (ss_pendingIdentityLink e)
    (ss_approvalPending e) (ss_subAgentApprovalPending e) readOnly.

Definition setSessionReadOnly (sessionId : string) (readOnly : bool) : SM W string unit :=
  match sessionStore with
  | None => sret tt
  | Some store =>
      do! existing <- st_get store sessionId ;;
      if Bool.eqb (is_true (existing ≫= ss_readOnly)) readOnly then sret tt
      else st_set store sessionId (with_readOnly (existing ?? blank EmptyString) (set_flag readOnly))
  end.
End Server.

(** The part of [AgentGraphInput] that a session fills in. *)
Record SessionInput := mkSessionInput {
  in_readOnly : bool;
  in_session : option SessionRecord
}.

Definition session_input (record : option SessionRecord) (trigger_readOnly : option bool) : SessionInput :=
  mkSessionInput (match trigger_readOnly with
                  | Some readOnly => readOnly
                  | None => is_true (record ≫= ss_readOnly)
                  end) record.

(** What two of the three callers of [persistSession] pass of a turn's state:
    /invoke, and a streamed chat completion. A completion that is not streamed
    passes all of it. *)
Definition invoke_outcome (state : TurnOutcome) : TurnOutcome :=
  mkOutcome (oc_selectedSkill state) (oc_selectedAgent state) (oc_agentRunId state) (oc_agentAwaitingReply state)
    (oc_agentResumePending state) (oc_extractedContinuation state) (oc_extractedAgentContinuation state)
    (oc_pendingIdentityLink state) (oc_identityLinkPending state) None false (oc_subAgentApprovalPending state)
    (oc_subAgentApprovalWaiting state) (oc_readOnly state).

Definition streaming_outcome (state : TurnOutcome) : TurnOutcome :=
  mkOutcome (oc_selectedSkill state) (oc_selectedAgent state) (oc_agentRunId state) (oc_agentAwaitingReply state) false
    (oc_extractedContinuation state) (oc_extractedAgentContinuation state) (oc_pendingIdentityLink state)
    (oc_identityLinkPending state) (oc_approvalPending state) (oc_approvalWaiting state) (oc_subAgentApprovalPending state)
    (oc_subAgentApprovalWaiting state) (oc_readOnly state).

(** ** Continuation tokens (continuation.ts) *)

Definition prependContinuationToken (token text : string) : string :=
  "<!-- continuation: " +:+ token +:+ " -->" +:+ nl_s +:+ nl_s +:+ text.

Definition resolveContinuationKey (toolId : string) (instanceKey : option string) (existing : option (jsmap string)) : string :=
  if truthy_str instanceKey then toolId +:+ "::" +:+ (instanceKey ?? EmptyString)
  else
    match List.filter (fun k => bool_decide (k = toolId) || startsWith (toolId +:+ "::") k) ((existing ?? []).*1) with
    | [k] => k
    | _ => toolId
    end.

(** The continuation the graph gives an agent or a tool: from the session's map,
    under the agent's id or the tool's key. *)
Definition agent_goal (session : option SessionRecord) (agentId request : string) : string :=
  let priorToken := (session ≫= ss_agentContinuations) ≫= map_get agentId in
  if truthy_str priorToken then prependContinuationToken (priorToken ?? EmptyString) request else request.

(** [/^<!--\s*continuation:\s*([\s\S]*?)\s*-->\r?\n*/i]: the text after a
    case-insensitive literal, and the first end of the marker. *)
Fixpoint after_literal (literal text : string) : option string :=
  match literal, text with
  | EmptyString, _ => Some text
  | String a l, String b t => if Ascii.eqb (lower_char a) (lower_char b) then after_literal l t else None
  | _, _ => None
  end.

(** The text up to the first [-->], and the text after it. *)
Fixpoint until_close (text : string) : option (string * string) :=
  match text with
  | EmptyString => None
  | String c t =>
      if startsWith "-->" text then Some (EmptyString, str_drop 3 text)
      else (fun p => (String c p.1, p.2)) <$> until_close t
  end.

Definition drop_newlines (text : string) : string :=
  drop_while (Ascii.eqb nl) (match text with String c t => if Ascii.eqb c "013"%char then t else text | EmptyString => text end).

Definition extractContinuationToken (text : string) : option string * string :=
  match after_literal "<!--" text with
  | None => (None, text)
  | Some rest =>
      match after_literal "continuation:" (drop_while is_ws rest) with
      | None => (None, text)
      | Some body =>
          match until_close body with
          | None => (None, text)
          | Some (captured, after) =>
              let token := trim captured in
              ((if str_empty token then None else Some token), drop_newlines after)
          end
      end
  end.

(** ** Lemmas on the store *)

Lemma map_delete_head {V : Type} k (v : V) m : map_delete k ((k, v) :: m) = m.
Proof. cbn [map_delete]. by rewrite decide_True. Qed.

Lemma evict_drop opts fuel (m : jsmap Stamped) :
  map_wf m -> (length m <= fuel)%nat -> evict opts fuel m = drop (length m - so_maxEntries opts) m.
Proof.
  revert m. induction fuel as [|fuel IH]; intros m Hwf Hf; cbn [evict].
  - destruct m; [done|cbn in Hf; lia].
  - destruct (Nat.ltb_spec (so_maxEntries opts) (length m)) as [Hlt|Hge].
    + destruct m as [|[k v] m]; [cbn in Hlt; lia|]. rewrite map_delete_head, IH.
      * cbn [length] in *. replace (S (length m) - so_maxEntries opts)%nat with (S (length m - so_maxEntries opts)) by lia. done.
      * by apply NoDup_cons in Hwf as [_ Hwf].
      * cbn in Hf. lia.
    + by replace (length m - so_maxEntries opts)%nat with O by lia.
Qed.

Lemma delete_fresh {V : Type} k (m : jsmap V) : map_wf m -> k ∉ (map_delete k m).*1.
Proof. intros Hwf. apply map_get_None. by apply map_get_delete_eq. Qed.

(** The store after a write: the others in order, this one last, less the
    oldest ones above the cap. *)
Lemma store_set_eq opts now id r (m : jsmap Stamped) :
  map_wf m ->
  let written := map_delete id m ++ [(id, mkStamped r now)] in
  store_set opts now id r m = drop (length written - so_maxEntries opts) written.
Proof.
  intros Hwf written. unfold store_set. assert (map_set id (mkStamped r now) (map_delete id m) = written) as ->.
  { apply map_set_fresh. by apply delete_fresh. }
  apply evict_drop; [|done]. unfold written. rewrite <- map_set_fresh.
  - apply map_set_wf. by apply map_delete_wf.
  - by apply delete_fresh.
Qed.

(** The entries in the order of their writes. *)
Definition write_order (m : jsmap Stamped) : Prop := StronglySorted Z.le ((fun e => sd_updatedAt e.2) <$> m).

Lemma sorted_sub {A : Type} (R : A -> A -> Prop) l l' : sublist l l' -> StronglySorted R l' -> StronglySorted R l.
Proof.
  induction 1 as [|x l l' Hs IH|x l l' Hs IH]; [done|..]; inversion_clear 1; [|by apply IH].
  constructor; [by apply IH|].
  eapply Forall_forall. intros y Hy. eapply Forall_forall; [eassumption|]. eapply elem_of_submseteq; [exact Hy|by apply sublist_submseteq].
Qed.

Lemma delete_sublist {V : Type} k (m : jsmap V) : sublist (map_delete k m) m.
Proof. induction m as [|[k' v] m IH]; [done|]. cbn [map_delete]. case_decide; by constructor. Qed.

Lemma write_order_set opts now id r m :
  map_wf m -> write_order m -> (forall e, e ∈ m -> sd_updatedAt e.2 <= now) -> write_order (store_set opts now id r m).
Proof.
  intros Hwf Hsort Hnow. rewrite store_set_eq by done. unfold write_order. eapply sorted_sub.
  { apply fmap_sublist, sublist_drop. }
  rewrite fmap_app. assert (StronglySorted Z.le ((fun e => sd_updatedAt e.2) <$> map_delete id m)) as Hd.
  { eapply sorted_sub; [|exact Hsort]. apply fmap_sublist, delete_sublist. }
  assert (Forall (fun t => t <= now) ((fun e => sd_updatedAt e.2) <$> map_delete id m)) as Hall.
  { apply Forall_fmap, Forall_forall. intros e He. apply Hnow. by eapply map_delete_elem. }
  cbn. revert Hd Hall. generalize ((fun e : string * Stamped => sd_updatedAt e.2) <$> map_delete id m). intros ts Hd Hall.
  induction Hd as [|t ts Hd IH Ht]; cbn; [repeat constructor|]. inversion_clear Hall. constructor; [by apply IH|].
  apply Forall_app. split; [done|]. by constructor.
Qed.

(** ** Lemmas on the writers *)

(** A conversation continues a skill or a run of an agent, never both. *)
Definition one_anchor (r : SessionRecord) : Prop := ss_activeSkillId r = None \/ ss_activeAgentRunId r = None.

(** The writes of a conversation: [true] marks those a read-only mode survives. *)
Inductive SessionWrite : option SessionRecord -> bool -> SessionRecord -> Prop :=
| sw_turn existing subject o r : persisted existing subject o = Some r -> SessionWrite existing true r
| sw_awaiting existing subject agentId runId readOnly :
    SessionWrite existing true (awaiting_record existing subject agentId runId readOnly)
| sw_awaited e : SessionWrite (Some e) true (cleared_awaiting e)
| sw_approval existing pending : SessionWrite existing true (approval_record existing pending)
| sw_approved e : SessionWrite (Some e) true (cleared_approval e)
| sw_restrict existing : SessionWrite existing true (with_readOnly (existing ?? blank EmptyString) (Some true))
| sw_release existing : SessionWrite existing false (with_readOnly (existing ?? blank EmptyString) None).

Inductive SessionReachable : SessionRecord -> Prop :=
| sr_first keeps r : SessionWrite None keeps r -> SessionReachable r
| sr_next e keeps r : SessionReachable e -> SessionWrite (Some e) keeps r -> SessionReachable r.

Lemma persisted_based existing subject o r :
  persisted existing subject o = Some r ->
  exists skill agent run awaiting ro link approval sub,
    r = based existing subject o skill agent run awaiting ro link approval sub /\ (skill = None \/ run = None).
Proof.
  unfold persisted. intros H. repeat (case_match; try discriminate H);
    injection H as <-; do 8 eexists; (split; [reflexivity|]); (by left) || (by right).
Qed.

Lemma persisted_shape existing subject o r :
  persisted existing subject o = Some r ->
  ss_subject r = subject /\ ss_readOnly r = set_flag (is_true (existing ≫= ss_readOnly) || oc_readOnly o) /\ one_anchor r /\
  ss_toolContinuations r = merge_continuation (existing ≫= ss_toolContinuations) (oc_extractedContinuation o) /\
  ss_agentContinuations r = merge_continuation (existing ≫= ss_agentContinuations) (oc_extractedAgentContinuation o).
Proof. by intros (skill & agent & run & awaiting & ro & link & approval & sub & -> & Ha)%persisted_based. Qed.

Lemma write_one_anchor existing keeps r :
  (forall e, existing = Some e -> one_anchor e) -> SessionWrite existing keeps r -> one_anchor r.
Proof.
  intros He Hw. destruct Hw; unfold one_anchor.
  - by apply persisted_shape in H as (_ & _ & H & _).
  - by left.
  - by right.
  - by left.
  - exact (He e eq_refl).
  - destruct existing as [e|]; [exact (He e eq_refl)|by left].
  - destruct existing as [e|]; [exact (He e eq_refl)|by left].
Qed.

Lemma write_keeps_readOnly e keeps r :
  SessionWrite (Some e) keeps r -> keeps = true -> is_true (ss_readOnly e) = true -> is_true (ss_readOnly r) = true.
Proof.
  intros Hw Hk Hro. inversion Hw as [existing subject o r' Hp| | | | | |]; subst; try done.
  apply persisted_shape in Hp as (_ & -> & _). cbn. by rewrite Hro.
Qed.

(** ** Lemmas on continuation tokens *)

Lemma prefix_split p s : String.prefix p s = true -> exists r, s = p +:+ r.
Proof.
  revert s. induction p as [|c p IH]; intros s H; [by exists s|]. destruct s as [|d s]; [done|]. cbn in H.
  destruct (ascii_dec c d) as [->|]; [|done]. destruct (IH s H) as [r ->]. by exists r.
Qed.

Lemma close_unique token rest :
  str_includes "-->" token = false -> until_close (token +:+ " -->" +:+ rest) = Some (token +:+ " ", rest).
Proof.
  induction token as [|c token IH]; intros Hn.
  { change (EmptyString +:+ " -->" +:+ rest) with (String " " ("-->" +:+ rest)). cbn [until_close].
    change (startsWith "-->" (String " " ("-->" +:+ rest))) with false. cbv iota.
    change ("-->" +:+ rest) with (String "-" ("->" +:+ rest)) at 1. cbn [until_close].
    change (startsWith "-->" (String "-" ("->" +:+ rest))) with (String.prefix "-->" ("-->" +:+ rest)). by rewrite prefix_app. }
  cbn [str_includes] in Hn. apply orb_false_iff in Hn as [Hc Hn].
  change (String c token +:+ " -->" +:+ rest) with (String c (token +:+ " -->" +:+ rest)). cbn [until_close].
  assert (startsWith "-->" (String c (token +:+ " -->" +:+ rest)) = false) as ->.
  { destruct (startsWith _ _) eqn:E; [|done]. exfalso. apply prefix_split in E as [r E].
    injection E as -> E. destruct token as [|d token]; [discriminate E|]. injection E as -> E.
    destruct token as [|e token]; [discriminate E|]. injection E as -> E.
    change (String.prefix "-->" ("-->" +:+ token) = false) in Hc. by rewrite prefix_app in Hc. }
  by rewrite (IH Hn).
Qed.

Lemma drop_while_app_all p s t : str_forall p s = true -> drop_while p (s +:+ t) = drop_while p t.
Proof. induction s as [|c s IH]; [done|]. cbn. by intros [-> Hs]%andb_true_iff; apply IH. Qed.

Lemma trim_space_after token : trim token = token -> trim (" " +:+ token +:+ " ") = token.
Proof.
  intros Ht. assert (drop_while is_ws token = token) as Hd.
  { unfold trim in Ht. assert (slen (drop_while is_ws token) <= slen token)%nat as H1 by apply slen_drop_while.
    pose proof (slen_drop_while_end is_ws (drop_while is_ws token)) as H2. rewrite Ht in H2.
    destruct token as [|c token]; [done|]. cbn [drop_while] in *. destruct (is_ws c); [|done].
    pose proof (slen_drop_while is_ws token). cbn [String.length] in H2. lia. }
  unfold trim. change (" " +:+ token +:+ " ") with (String " " (token +:+ " ")). cbn [drop_while].
  change (is_ws " "%char) with true. cbv iota. destruct token as [|c token]; [done|].
  assert (is_ws c = false) as Hc.
  { destruct (is_ws c) eqn:E; [|done]. cbn [drop_while] in Hd. rewrite E in Hd.
    pose proof (slen_drop_while is_ws token) as H. rewrite Hd in H. cbn in H. lia. }
  change (String c token +:+ " ") with (String c (token +:+ " ")). cbn [drop_while]. rewrite Hc.
  unfold trim in Ht. rewrite Hd in Ht.
  change (String c (token +:+ " ")) with (String c token +:+ " "). rewrite <- Ht at 2.
  generalize (String c token). intros s. induction s as [|d s IH]; [done|].
  change (String d s +:+ " ") with (String d (s +:+ " ")). cbn [drop_while_end]. by rewrite IH.
Qed.

(** ** Properties *)

(** The session store is a bounded cache in the order of the writes. After a
    write, the session reads back for exactly its time to live, whatever else
    the store holds; the store is within its cap; what was evicted is a prefix
    of the entries in the order of their writes, so the ones written longest
    ago, and that order holds for the store again. *)
Theorem session_store_lru (opts : InMemorySessionStoreOptions) (now : Z) (id : string) (r : SessionRecord) (m : jsmap Stamped) :
  map_wf m -> write_order m -> (forall e, e ∈ m -> sd_updatedAt e.2 <= now) -> (0 < so_maxEntries opts)%nat ->
  let m' := store_set opts now id r m in
  (forall now', (store_get opts now' id m').1 = if so_ttlMs opts <? now' - now then None else Some (mkStamped r now)) /\
  (length m' <= so_maxEntries opts)%nat /\ map_wf m' /\ write_order m' /\
  exists evicted, map_delete id m ++ [(id, mkStamped r now)] = evicted ++ m'.
Proof.
  intros Hwf Hsort Hnow Hmax m'. pose proof (store_set_eq opts now id r m Hwf) as Heq. fold m' in Heq.
  set (written := map_delete id m ++ [(id, mkStamped r now)]) in *. set (k := (length written - so_maxEntries opts)%nat) in *.
  assert (map_wf written) as Hw.
  { unfold written. rewrite <- map_set_fresh by by apply delete_fresh. apply map_set_wf. by apply map_delete_wf. }
  assert (map_wf m') as Hwf'.
  { rewrite Heq. unfold map_wf. rewrite fmap_drop. eapply sublist_NoDup; [exact Hw|apply sublist_drop]. }
  assert (map_get id m' = Some (mkStamped r now)) as Hget.
  { apply map_get_elem; [done|]. rewrite Heq. unfold written in *. rewrite drop_app_le.
    - set_solver.
    - unfold k. rewrite length_app. cbn. lia. }
  split_and!.
  - intros now'. unfold store_get, expired. rewrite Hget. cbn. by destruct (so_ttlMs opts <? now' - now).
  - rewrite Heq, length_drop. unfold k. lia.
  - done.
  - by apply write_order_set.
  - exists (take k written). by rewrite Heq, take_drop.
Qed.

(** Whatever is written to a conversation and in whatever order, by the turns,
    the running agent's anchors, the approvals and the sweep, it never
    continues a skill and a run of an agent at once; and a read-only
    conversation stays read-only through every write but the one a writable
    trigger makes. *)
Theorem session_invariant (r : SessionRecord) :
  SessionReachable r ->
  one_anchor r /\ forall keeps r', SessionWrite (Some r) keeps r' -> keeps = true -> is_true (ss_readOnly r) = true ->
    is_true (ss_readOnly r') = true.
Proof.
  intros Hr. split; [|intros keeps r'; apply write_keeps_readOnly].
  induction Hr as [keeps r Hw|e keeps r Hr IH Hw]; (eapply write_one_anchor; [|exact Hw]); [done|].
  by intros e' [= <-].
Qed.

(** A turn that lost its channel to a running agent tells the user to send
    anything to pick up the reply. The record then holds the run as owed a
    reply, so that the next turn re-attaches, only when the turn was not
    streamed: the streamed completion does not pass the flag on, and its record
    drops the run. *)
Theorem streaming_drops_resume (existing : option SessionRecord) (subject agent run : string) (o : TurnOutcome) :
  oc_approvalWaiting o = false -> oc_subAgentApprovalWaiting o = false -> oc_identityLinkPending o = false ->
  oc_selectedSkill o = None -> oc_selectedAgent o = Some agent -> oc_agentRunId o = Some run -> run <> EmptyString ->
  oc_agentAwaitingReply o = false -> oc_agentResumePending o = true ->
  (exists r, persisted existing subject (invoke_outcome o) = Some r /\ ss_activeAgentRunId r = Some run /\
     ss_activeAgentId r = Some agent /\ ss_activeAgentRunAwaitingReply r = Some true) /\
  (exists r, persisted existing subject (streaming_outcome o) = Some r /\ ss_activeAgentRunId r = None /\
     ss_activeAgentRunAwaitingReply r = None).
Proof.
  intros H1 H2 H3 H4 H5 H6 Hne H7 H8. unfold persisted, invoke_outcome, streaming_outcome.
  cbn [oc_approvalWaiting oc_approvalPending oc_subAgentApprovalWaiting oc_subAgentApprovalPending oc_identityLinkPending
    oc_selectedSkill oc_selectedAgent oc_agentRunId oc_agentResumePending oc_agentAwaitingReply].
  rewrite H1, H2, H3, H4, H5, H6, H7, H8. assert (truthy_str (Some run) = true) as -> by by destruct run.
  cbn [nullish]. split; (destruct (oc_approvalPending o), (oc_subAgentApprovalPending o); by eexists).
Qed.

(** Continuation tokens cross callers. Conversation ids can be guessed, and
    the record's subject is what keeps a guess from reaching another caller's
    state; but a token in the record is given to the agent whoever asks, and
    any turn that writes the record takes the tokens over under its own
    subject. *)
Theorem continuations_cross_callers (e : SessionRecord) (agentId token request other : string) (o : TurnOutcome) (r : SessionRecord)
    (m : jsmap string) :
  ss_agentContinuations e = Some m -> map_get agentId m = Some token -> token <> EmptyString ->
  oc_extractedAgentContinuation o = None -> persisted (Some e) other o = Some r ->
  agent_goal (Some e) agentId request = prependContinuationToken token request /\
  ss_subject r = other /\ agent_goal (Some r) agentId request = prependContinuationToken token request.
Proof.
  intros Hm Hget Hne Ho Hp. apply persisted_shape in Hp as (Hs & _ & _ & _ & Hc).
  assert (truthy_str (Some token) = true) as Ht by by destruct token.
  unfold agent_goal. cbn [mbind option_bind]. rewrite Hc. cbn [mbind option_bind].
  unfold merge_continuation. rewrite Ho, Hm. cbn [mbind option_bind nullish].
  assert (some_unless_empty m = Some m) as -> by by destruct m. cbn [mbind option_bind]. rewrite Hget, Ht. by split_and!.
Qed.

(** An approval that a turn of /invoke paused on is not recorded: the
    record has no pending approval, so the next turn cannot answer it, where
    the same turn of a completion records it. *)
Theorem invoke_drops_approval (existing : option SessionRecord) (subject : string) (pending : json) (o : TurnOutcome) :
  oc_approvalWaiting o = true -> oc_approvalPending o = Some pending ->
  (exists r, persisted existing subject (streaming_outcome o) = Some r /\ ss_approvalPending r = Some pending) /\
  forall r, persisted existing subject (invoke_outcome o) = Some r -> ss_approvalPending r = None.
Proof.
  intros H1 H2. split.
  - unfold persisted, streaming_outcome. cbn [oc_approvalWaiting oc_approvalPending]. rewrite H1, H2. by eexists.
  - intros r Hr. unfold persisted, invoke_outcome in Hr. cbn [oc_approvalWaiting oc_approvalPending] in Hr.
    repeat (case_match; try discriminate Hr); by injection Hr as <-.
Qed.

(** A continuation token comes back as it went: a token that is trimmed, not
    empty and does not close the marker, put in front of a text that does not
    start with a line break, is read back with the text unchanged. *)
Theorem continuation_roundtrip (token text : string) :
  token <> EmptyString -> trim token = token -> str_includes "-->" token = false ->
  match text with String c _ => Ascii.eqb nl c = false | EmptyString => True end ->
  extractContinuationToken (prependContinuationToken token text) = (Some token, text).
Proof.
  intros Hne Htrim Hclose Htext. unfold prependContinuationToken, extractContinuationToken.
  change ("<!-- continuation: " +:+ token +:+ " -->" +:+ nl_s +:+ nl_s +:+ text)
    with ("<!--" +:+ " continuation: " +:+ token +:+ " -->" +:+ nl_s +:+ nl_s +:+ text).
  change (after_literal "<!--" _) with (Some (" continuation: " +:+ token +:+ " -->" +:+ nl_s +:+ nl_s +:+ text)). cbv iota.
  change (drop_while is_ws (" continuation: " +:+ _))
    with ("continuation: " +:+ token +:+ " -->" +:+ nl_s +:+ nl_s +:+ text).
  change (after_literal "continuation:" ("continuation: " +:+ token +:+ " -->" +:+ nl_s +:+ nl_s +:+ text))
    with (Some (String " " (token +:+ " -->" +:+ nl_s +:+ nl_s +:+ text))). cbv iota.
  assert (until_close (String " " (token +:+ " -->" +:+ nl_s +:+ nl_s +:+ text)) =
    Some (" " +:+ token +:+ " ", nl_s +:+ nl_s +:+ text)) as ->.
  { cbn [until_close]. change (startsWith "-->" (String " " _)) with false. cbv iota.
    by rewrite close_unique. }
  rewrite trim_space_after by done. destruct (str_empty token) eqn:E; [by apply str_empty_true in E|].
  f_equal. change (drop_newlines (nl_s +:+ nl_s +:+ text)) with (drop_while (Ascii.eqb nl) text).
  destruct text as [|c text]; [done|]. cbn [drop_while]. by rewrite Htext.
Qed.

(** ** Samples *)

Definition two_entries : InMemorySessionStoreOptions := mkStoreOptions 60000 2.
Definition two_sessions : jsmap Stamped := [("a", mkStamped (blank "alice") 10); ("b", mkStamped (blank "bob") 20)].

Lemma two_sessions_order : write_order two_sessions.
Proof. unfold write_order. cbn. repeat (constructor; [|repeat constructor; lia]). constructor. Qed.

Lemma session_store_lru_witness :
  (store_get two_entries 60030 "c" (store_set two_entries 30 "c" (blank "carol") two_sessions)).1 = Some (mkStamped (blank "carol") 30) /\
  (store_get two_entries 31 "a" (store_set two_entries 30 "c" (blank "carol") two_sessions)).1 = None.
Proof.
  split; [|by vm_compute].
  rewrite (proj1 (session_store_lru two_entries 30 "c" (blank "carol") two_sessions ltac:(apply (bool_decide_unpack _); vm_compute; exact I)
    two_sessions_order ltac:(by intros e [->|[->|[]%elem_of_nil]%elem_of_cons]%elem_of_cons; cbn; lia) ltac:(cbn; lia)) 60030).
  reflexivity.
Defined.

(** Nothing selected, nothing extracted. *)
Definition quiet : TurnOutcome :=
  mkOutcome None None None false false None None None false None false None false false.

Definition launched (resume : bool) : TurnOutcome :=
  mkOutcome None (Some "swe") (Some "run-1") false resume None None None false None false None false false.

Lemma readOnly_reachable :
  SessionReachable (awaiting_record (Some (with_readOnly (blank EmptyString) (Some true))) "alice" "swe" "run-1" true).
Proof. eapply sr_next; [eapply sr_first; apply (sw_restrict None)|apply sw_awaiting]. Qed.

Lemma session_invariant_witness :
  is_true (ss_readOnly (cleared_awaiting (awaiting_record (Some (with_readOnly (blank EmptyString) (Some true))) "alice" "swe" "run-1" true))) =
  true.
Proof. exact (proj2 (session_invariant _ readOnly_reachable) true _ (sw_awaited _) eq_refl eq_refl). Defined.

Lemma streaming_drops_resume_witness :
  exists r, persisted None "alice" (streaming_outcome (launched true)) = Some r /\ ss_activeAgentRunId r = None /\
    ss_activeAgentRunAwaitingReply r = None.
Proof.
  exact (proj2 (streaming_drops_resume None "alice" "swe" "run-1" (launched true) eq_refl eq_refl eq_refl eq_refl eq_refl eq_refl
    ltac:(done) eq_refl eq_refl)).
Defined.

(** A conversation of Alice's with a token for the coding agent. *)
Definition alice_session : SessionRecord :=
  mkSession "alice" None None None None None (Some "run-0") None (Some [("swe", "repo=payroll")]) None None None None.

Definition bob_turn : TurnOutcome :=
  mkOutcome (Some "wiki") None None false false None None None false None false None false false.

Lemma continuations_cross_callers_witness :
  exists r, persisted (Some alice_session) "bob" bob_turn = Some r /\ ss_subject r = "bob" /\
    agent_goal (Some r) "swe" "list the files" = "<!-- continuation: repo=payroll -->" +:+ nl_s +:+ nl_s +:+ "list the files".
Proof.
  eexists. split; [reflexivity|].
  exact (proj2 (continuations_cross_callers alice_session "swe" "repo=payroll" "list the files" "bob" bob_turn _
    [("swe", "repo=payroll")] eq_refl eq_refl ltac:(done) eq_refl eq_refl)).
Defined.

Lemma invoke_drops_approval_witness :
  exists r, persisted None "alice" (streaming_outcome (mkOutcome (Some "wiki") None None false false None None None false (Some (JStr "call"))
    true None false false)) = Some r /\ ss_approvalPending r = Some (JStr "call").
Proof.
  exact (proj1 (invoke_drops_approval None "alice" (JStr "call") (mkOutcome (Some "wiki") None None false false None None None false
    (Some (JStr "call")) true None false false) eq_refl eq_refl)).
Defined.

Lemma continuation_roundtrip_witness :
  extractContinuationToken (prependContinuationToken "repo=a branch=b" "go on") = (Some "repo=a branch=b", "go on").
Proof. apply continuation_roundtrip; [done|by vm_compute|by vm_compute|by vm_compute]. Defined.
