(* ===== verification/Approval.v ===== *)
(** * Agent orchestrator: the approval policy of a tool call

    apps/agent-orchestrator/src/agent/approval.ts: which policy governs a call,
    the prompt, and how the caller's reply to it is read. *)

From stdpp Require Import base gmap strings list.
From Stdlib Require Import ZArith Lia Ascii.
From S2P Require Import Prelude JsString.

Inductive ApprovalPolicy := policy_never | policy_always | policy_auto.
Inductive ApprovalDecision := decision_approve | decision_deny | decision_ambiguous.

#[export] Instance ApprovalPolicy_eq_dec : EqDecision ApprovalPolicy.
Proof. solve_decision. Defined.
#[export] Instance ApprovalDecision_eq_dec : EqDecision ApprovalDecision.
Proof. solve_decision. Defined.

(** One double quote. *)
Definition qq : string := String dquote EmptyString.

Definition approvalPrompt (toolId : string) : string :=
  "Approval required: run tool " +:+ qq +:+ toolId +:+ qq +:+ "? Reply " +:+ qq +:+ "approve" +:+ qq +:+ " or " +:+
  qq +:+ "deny" +:+ qq +:+ ".".

Definition APPROVAL_DENIED_CODE : string := "approval_denied".
Definition APPROVAL_DENIED_MESSAGE : string := "Tool call was denied by the user.".

Definition normalizePolicy (value : option string) : option ApprovalPolicy :=
  let v := toLowerCase (trim (value ?? EmptyString)) in
  if bool_decide (v = "never") then Some policy_never
  else if bool_decide (v = "always") then Some policy_always
  else if bool_decide (v = "auto") then Some policy_auto
  else None.

Definition resolveApproval (toolApproval agentDefault : option string) : ApprovalPolicy :=
  normalizePolicy toolApproval ?? normalizePolicy agentDefault ?? policy_never.

Definition requiresApproval (policy : ApprovalPolicy) : bool :=
  bool_decide (policy = policy_always) || bool_decide (policy = policy_auto).

Definition APPROVE_WORDS : list string :=
  ["approve"; "approved"; "yes"; "y"; "ok"; "okay"; "allow"; "allowed"; "confirm"; "confirmed"].

Definition DENY_WORDS : list string :=
  ["deny"; "denied"; "no"; "n"; "reject"; "rejected"; "cancel"; "cancelled"; "stop"; "disallow"].

(** [s.replace(/[.!,]$/, "")] *)
Fixpoint strip_punctuation (s : string) : string :=
  match s with
  | EmptyString => EmptyString
  | String c EmptyString => if char_in ".!," c then EmptyString else s
  | String c s' => String c (strip_punctuation s')
  end.

(** [s.split(/[^a-z]+/).filter(Boolean)]: the maximal runs of lower-case letters;
    [run] is the one being read. *)
Fixpoint words_from (run : string) (s : string) : list string :=
  match s with
  | EmptyString => if str_empty run then [] else [run]
  | String c s' =>
      if is_lower c then words_from (run +:+ String c EmptyString) s'
      else if str_empty run then words_from EmptyString s' else run :: words_from EmptyString s'
  end.

Definition words (s : string) : list string := words_from EmptyString s.

(** What the reply is compared as. *)
Definition normalized_reply (message : option string) : string :=
  strip_punctuation (toLowerCase (trim (message ?? EmptyString))).

Definition parseApprovalDecision (message : option string) : ApprovalDecision :=
  let normalized := normalized_reply message in
  if existsb (has DENY_WORDS) (words normalized) then decision_deny
  else if has APPROVE_WORDS normalized then decision_approve
  else decision_ambiguous.

(** ** Properties *)

Lemma words_from_lower (s run : string) :
  str_forall is_lower s = true -> words_from run s = if str_empty (run +:+ s) then [] else [run +:+ s].
Proof.
  revert run. induction s as [|c s IH]; intros run Hs; simpl in *; [by rewrite app_empty_r|].
  apply andb_true_iff in Hs as [Hc Hs]. rewrite Hc, IH by done. rewrite app_assoc_s. by destruct run.
Qed.

(** A reply all of lower-case letters is one word. *)
Lemma words_single (s : string) : str_forall is_lower s = true -> s <> EmptyString -> words s = [s].
Proof. intros Hs Hne. unfold words. rewrite words_from_lower by done. by destruct s. Qed.

(** A call is gated exactly when the most specific level that states a policy
    states always or auto: the tool's own policy wins over the agent's, a value
    that is no policy counts as unset, and nothing set runs silently. *)
Theorem resolveApproval_most_specific (toolApproval agentDefault : option string) :
  let policy := resolveApproval toolApproval agentDefault in
  (forall p, normalizePolicy toolApproval = Some p -> policy = p) /\
  (normalizePolicy toolApproval = None -> forall p, normalizePolicy agentDefault = Some p -> policy = p) /\
  (requiresApproval policy = true <->
   exists level, normalizePolicy level ∈ [Some policy_always; Some policy_auto] /\
     (level = toolApproval \/ (normalizePolicy toolApproval = None /\ level = agentDefault))).
Proof.
  unfold resolveApproval. simpl. split; [by intros p ->|]. split; [by intros -> p ->|].
  destruct (normalizePolicy toolApproval) as [p|] eqn:Ht; simpl.
  - split.
    + intros Hp. exists toolApproval. split; [|by left]. rewrite Ht. destruct p; by set_solver.
    + intros (level & Hl & [->|[? ->]]); [|done]. rewrite Ht in Hl. by destruct p; set_solver.
  - destruct (normalizePolicy agentDefault) as [p|] eqn:Ha; simpl.
    + split.
      * intros Hp. exists agentDefault. split; [|by right]. rewrite Ha. destruct p; by set_solver.
      * intros (level & Hl & [->|[? ->]]); [rewrite Ht in Hl; set_solver|]. rewrite Ha in Hl. by destruct p; set_solver.
    + split; [done|]. intros (level & Hl & [->|[? ->]]); [rewrite Ht in Hl|rewrite Ha in Hl]; set_solver.
Qed.

(** A reply approves only when the whole of it, without case, surrounding space
    and one closing punctuation mark, is a word of approval; a reply in which a
    word of denial stands anywhere denies, and every other reply asks again. *)
Theorem parseApprovalDecision_asymmetric (message : option string) :
  (parseApprovalDecision message = decision_approve <-> normalized_reply message ∈ APPROVE_WORDS) /\
  (parseApprovalDecision message = decision_deny <-> exists w, w ∈ words (normalized_reply message) /\ w ∈ DENY_WORDS).
Proof.
  unfold parseApprovalDecision.
  assert (Hdeny : existsb (has DENY_WORDS) (words (normalized_reply message)) = true <->
            exists w, w ∈ words (normalized_reply message) /\ w ∈ DENY_WORDS).
  { rewrite existsb_exists. setoid_rewrite <-list_elem_of_In. unfold has. by setoid_rewrite bool_decide_eq_true. }
  assert (Hone : normalized_reply message ∈ APPROVE_WORDS -> existsb (has DENY_WORDS) (words (normalized_reply message)) = false).
  { generalize (normalized_reply message) as s. intros s Hs. unfold APPROVE_WORDS in Hs.
    rewrite !elem_of_cons in Hs. destruct_or? Hs; subst; [..|by apply elem_of_nil in Hs]; vm_compute; reflexivity. }
  split.
  - split.
    + intros H. case_match; [done|]. unfold has in H. by case_match; to_prop.
    + intros H. rewrite (Hone H). unfold has. by rewrite bool_decide_eq_true_2.
  - rewrite <-Hdeny. case_match; [done|]. split; [by case_match|done].
Qed.
