(* ===== verification/Catalog.v ===== *)
(** * Agent orchestrator: the catalog's descriptors

    tool-descriptor.ts, skills/types.ts, agents/types.ts and the ids of
    caller-tools/types.ts (apps/agent-orchestrator/src): what a tool, a skill and
    an agent are to the graph, and the ports of the three stores that find
    them. *)

From stdpp Require Import base gmap strings list.
From Stdlib Require Import ZArith Lia.
From S2P Require Import Prelude JsString JsNumber Json JsMap KnowledgeBase.

#[local] Open Scope Z_scope.

(** ** Tools (tool-descriptor.ts, caller-tools/types.ts) *)

Record JobTemplate := mkJobTemplate {
  jt_image : string;
  jt_namespace : string;
  jt_serviceAccountName : string;
  jt_args : option (list string);
  jt_env : option (jsmap string);
  jt_resources : option json;
  jt_toolRef : option string
}.

Record LocalSecretEnvVar := mkLocalSecret {
  lse_name : string;
  lse_secretName : string;
  lse_secretKey : string
}.

Record LocalToolSpec := mkLocalTool {
  lt_runtime : string;
  lt_package : option string;
  lt_version : option string;
  lt_entry : option string;
  lt_sourceUrl : option string;
  lt_checksum : option string;
  lt_env : option (jsmap string);
  lt_secretEnv : option (list LocalSecretEnvVar);
  lt_network : bool;
  lt_timeoutSeconds : option Z;
  lt_resources : option json
}.

Record MCPExecSpec := mkMCPExec {
  me_serverRef : string;
  me_remoteToolName : string;
  me_inputSchema : option string
}.

Record AgentRunTemplate := mkAgentRunTemplate {
  at_namespace : string;
  at_agentRef : string
}.

Record CallerToolDescriptor := mkCallerTool {
  clr_name : string;
  clr_description : string;
  clr_parametersJson : string;
  clr_hash : string
}.

(** A [ToolDescriptor]: the fields a knowledge base sets, and the rest. *)
Record Tool := mkTool {
  tool_base : ToolDescriptor;
  tool_jobTemplate : option JobTemplate;
  tool_localExec : option LocalToolSpec;
  tool_mcpExec : option MCPExecSpec;
  tool_agentRunTemplate : option AgentRunTemplate;
  tool_callerTool : option CallerToolDescriptor;
  tool_identityProviders : option (list string);
  tool_tier : option string;
  tool_approval : option string
}.

Definition tool_id (t : Tool) : string := td_id (tool_base t).
Definition tool_description (t : Tool) : string := td_description (tool_base t).
Definition tool_knowledgeBaseExec (t : Tool) : option KnowledgeBaseExecSpec := td_knowledgeBaseExec (tool_base t).

Definition CALLER_TOOL_ID_PREFIX : string := "caller:".
Definition callerToolId (name : string) : string := CALLER_TOOL_ID_PREFIX +:+ name.
Definition isCallerToolId (id : string) : bool := startsWith CALLER_TOOL_ID_PREFIX id.

(** A call the caller is asked to run, and one it has run. *)
Record PendingToolCall := mkPendingCall {
  ptc_id : string;
  ptc_name : string;
  ptc_arguments : string
}.

(** A call of this turn, as the planner is told about it. A result that has no
    JSON text is [undefined]. *)
Record ToolCallRecord := mkCallRecord {
  tc_toolId : string;
  tc_toolArgs : string;
  tc_result : option string
}.

(** ** Skills and agents *)

Record SkillDescriptor := mkSkillDescriptor {
  skill_base : Skill;
  skill_allowCallerTools : option bool
}.

Definition skill_id (s : SkillDescriptor) : string := sk_id (skill_base s).
Definition skill_markdown (s : SkillDescriptor) : string := sk_markdown (skill_base s).
Definition skill_toolIds (s : SkillDescriptor) : list string := sk_toolIds (skill_base s).
Definition skill_agentIds (s : SkillDescriptor) : list string := sk_agentIds (skill_base s).

Record AgentDescriptor := mkAgentDescriptor {
  agent_id : string;
  agent_name : string;
  agent_description : string;
  agent_allowedRoles : list string;
  agent_tier : option string;
  agent_approvalDefault : option string;
  agent_approvalTimeoutSeconds : option Z;
  agent_orchestratorPrompt : option string;
  agent_identityProviders : option (list string);
  agent_toolRefs : option (list string);
  agent_agentRunTemplate : AgentRunTemplate
}.

(** An agent in the shape of a tool that is backed by one (graph.ts,
    loadSkillTools). *)
Definition agent_as_tool (a : AgentDescriptor) : Tool :=
  mkTool (mkToolDescriptor (agent_id a) (agent_name a) (agent_description a) (agent_allowedRoles a) false None)
    None None None (Some (agent_agentRunTemplate a)) None (agent_identityProviders a) (agent_tier a) None.

(** ** The stores (skills/types.ts, agents/types.ts, vector-store/types.ts) *)

(** A hit of a search and its score. *)
Definition Hit (A : Type) : Type := A * number.
Definition SkillSearchResult : Type := Hit SkillDescriptor.
Definition AgentSearchResult : Type := Hit AgentDescriptor.
Definition ToolSearchResult : Type := Hit Tool.

(** What the graph calls of a store: a search scoped to the caller's roles, and a
    lookup by id with the same scope. *)
Record Store (W A B : Type) := mkStore {
  store_query : string -> list string -> Z -> SM W string (list (Hit A));
  store_getByIds : list string -> list string -> SM W string (list B)
}.
Arguments mkStore {W A B}.
Arguments store_query {W A B} s.
Arguments store_getByIds {W A B} s.

Definition SkillStore (W : Type) : Type := Store W SkillDescriptor SkillDescriptor.
Definition AgentStore (W : Type) : Type := Store W AgentDescriptor AgentSearchResult.
Definition VectorStore (W : Type) : Type := Store W Tool ToolSearchResult.
