(* ===== verification/Dispatch.v ===== *)
(** * Agent orchestrator: running one tool

    apps/agent-orchestrator/src/agent/dispatch-tool.ts: the dispatch of a tool
    that a running sub-agent calls, and the handler of its calls; with the ports
    by which a tool is run (k8s/container-tool-launcher.ts, callback/receiver.ts,
    local/local-tool-executor.ts, mcp/mcp-broker-client.ts), which the graph uses
    for its own calls.

    A promise that is taken before it is awaited is two operations of its port:
    one that subscribes and one that collects. *)

From stdpp Require Import base gmap strings list.
From Stdlib Require Import ZArith Lia.
From S2P Require Import Prelude JsString JsNumber Json JsMap KnowledgeBase IdentityLink Authorization Approval Catalog AgentChannel.

#[local] Open Scope Z_scope.

(** ** Data *)

(** A listener of progress: a stage and the message that may come with it. *)
Definition Listener (W : Type) : Type := string -> option string -> SM W string unit.

(** [LaunchOptions], as far as the graph fills them in. *)
Record LaunchOptions := mkLaunchOptions {
  la_args : list string;
  la_callbackUrl : option string;
  la_callbackSecret : option string;
  la_natsSubject : option string;
  la_natsUrl : option string;
  la_sessionId : option string;
  la_secretEnv : option (list CredentialEnvEntry);
  la_readOnly : bool
}.

(** An [Event] that ends a job; one of any other type is [ev_other]. *)
Inductive Event :=
| ev_failed (job_id code message : string)
| ev_succeeded (job_id : string) (result : option json)
| ev_other (job_id type : string).

Definition ev_job_id (e : Event) : string :=
  match e with
  | ev_failed job_id _ _ | ev_succeeded job_id _ | ev_other job_id _ => job_id
  end.

Inductive JobError :=
| JobTimeoutError (message : string)
| JobOtherError (message : string).

Definition job_message (e : JobError) : string :=
  match e with
  | JobTimeoutError message | JobOtherError message => message
  end.

Record JobResultReceiver (W : Type) := mkReceiver {
  jr_subscribe : string -> SM W string unit;
  jr_awaitJob : string -> SM W JobError Event;
  jr_onJobProgress : string -> Listener W -> SM W string unit;
  jr_unsubscribeProgress : string -> SM W string unit
}.
Arguments mkReceiver {W}.
Arguments jr_subscribe {W} j.
Arguments jr_awaitJob {W} j.
Arguments jr_onJobProgress {W} j.
Arguments jr_unsubscribeProgress {W} j.

Record ToolDispatchDeps (W : Type) := mkDispatchDeps {
  dd_containerToolLauncher : JobTemplate -> LaunchOptions -> SM W string unit;
  dd_jobResultReceiver : JobResultReceiver W;
  dd_localToolExecutor : option (Tool -> string -> option string -> SM W string Event);
  dd_mcpBrokerClient : option (Tool -> string -> string -> SM W string string);
  dd_natsUrl : option string;
  dd_callbackBaseUrl : option string;
  dd_callbackSecret : option string;
  dd_randomUUID : SM W string string;
  dd_now : W -> Z
}.
Arguments mkDispatchDeps {W}.
Arguments dd_containerToolLauncher {W} t.
Arguments dd_jobResultReceiver {W} t.
Arguments dd_localToolExecutor {W} t.
Arguments dd_mcpBrokerClient {W} t.
Arguments dd_natsUrl {W} t.
Arguments dd_callbackBaseUrl {W} t.
Arguments dd_callbackSecret {W} t.
Arguments dd_randomUUID {W} t.
Arguments dd_now {W} t.

Record DispatchOptions := mkDispatchOptions {
  do_sessionId : option string;
  do_callerSubject : option string;
  do_agentApprovalDefault : option string;
  do_suppressApprovalGate : bool;
  do_readOnly : bool
}.

(** [{ ok: true, result }] and [{ ok: false, error }]. *)
Definition ToolCallOutcome : Type := option json + string.

Definition readOnlyMCPRefusal (toolId : string) : string :=
  "read_only: " +:+ toolId +:+ " acts with your delegated credentials and cannot run in a read-only request".

Definition readOnlyGitHubRefusal (toolId : string) : string :=
  toolId +:+ " acts on GitHub as you, which this read-only request does not allow, so I didn't run it.".

Definition no_dispatch_path (toolId : string) : string :=
  "tool " +:+ toolId +:+ " has neither a jobTemplate, localExec, nor agentRunTemplate spec".

(** [identityProviders?.some((p) => WRITE_CAPABLE_PROVIDERS.has(p))] *)
Definition write_capable (t : Tool) : bool := existsb (has WRITE_CAPABLE_PROVIDERS) (tool_identityProviders t ?? []).

(** A call with the errors of another. *)
Definition with_errors {W E E' A : Type} (f : E -> E') (m : SM W E A) : SM W E' A := fun w =>
  match m w with
  | (Ok a, w') => (Ok a, w')
  | (Err e, w') => (Err (f e), w')
  end.

Definition callback_url (base : string) (jobId : string) : string := base +:+ "/callback/" +:+ jobId.
Definition callback_subject (jobId : string) : string := "callbacks." +:+ jobId.

Section Dispatch.
Context {W : Type}.
Variable deps : ToolDispatchDeps W.

(** The options of a launch, with the transport that is configured. *)
Definition nats_launch (natsUrl jobId input : string) (sessionId : option string) (secretEnv : option (list CredentialEnvEntry))
    (readOnly : bool) : LaunchOptions :=
  mkLaunchOptions [input] None None (Some (callback_subject jobId)) (Some natsUrl) (if_set sessionId) secretEnv readOnly.

Definition http_launch (callbackUrl : string) (callbackSecret : option string) (input : string) (sessionId : option string)
    (secretEnv : option (list CredentialEnvEntry)) (readOnly : bool) : LaunchOptions :=
  mkLaunchOptions [input] (Some callbackUrl) callbackSecret None None (if_set sessionId) secretEnv readOnly.

(** What an event reports. *)
Definition event_outcome (event : Event) : ToolCallOutcome :=
  match event with
  | ev_failed _ code message => inr ("tool failed (" +:+ code +:+ "): " +:+ message)
  | ev_succeeded _ result => inl result
  | ev_other _ _ => inl None
  end.

Definition dispatch_job (tool : Tool) (template : JobTemplate) (input : string) (opts : DispatchOptions) :
    SM W string ToolCallOutcome :=
  do! jobId <- dd_randomUUID deps ;;
  do! _ <- jr_subscribe (dd_jobResultReceiver deps) jobId ;;
  let collect :=
    do! event <- with_errors job_message (jr_awaitJob (dd_jobResultReceiver deps) jobId) ;; sret (event_outcome event) in
  if truthy_str (dd_natsUrl deps) then
    do! _ <- dd_containerToolLauncher deps template
               (nats_launch (dd_natsUrl deps ?? EmptyString) jobId input (do_sessionId opts) None (do_readOnly opts)) ;;
    collect
  else if negb (truthy_str (dd_callbackBaseUrl deps)) || negb (truthy_str (dd_callbackSecret deps)) then
    sret (inr ("tool " +:+ tool_id tool +:+
               " requires callbackBaseUrl/callbackSecret (HTTP callback mode) but neither is configured"))
  else
    do! _ <- dd_containerToolLauncher deps template
               (http_launch (callback_url (dd_callbackBaseUrl deps ?? EmptyString) jobId) (dd_callbackSecret deps) input
                  (do_sessionId opts) None (do_readOnly opts)) ;;
    collect.

Definition dispatch_mcp (tool : Tool) (input : string) (opts : DispatchOptions) : SM W string ToolCallOutcome :=
  match dd_mcpBrokerClient deps with
  | None => sret (inr ("tool " +:+ tool_id tool +:+ " is an MCP tool but the mcp-broker is not configured"))
  | Some call =>
      if negb (truthy_str (do_callerSubject opts)) then
        sret (inr ("tool " +:+ tool_id tool +:+ " requires a resolved caller identity"))
      else if do_readOnly opts then sret (inr (readOnlyMCPRefusal (tool_id tool)))
      else
        do! called <- call tool input (do_callerSubject opts ?? EmptyString) ;;
        sret (inl (Some (JStr called)))
  end.

Definition dispatch_local (tool : Tool) (input : string) (opts : DispatchOptions) : SM W string ToolCallOutcome :=
  match dd_localToolExecutor deps with
  | None => sret (inr ("tool " +:+ tool_id tool +:+ " is a LocalTool but local execution is not configured"))
  | Some run => do! event <- run tool input (do_sessionId opts) ;; sret (event_outcome event)
  end.

Definition dispatchResolvedTool (tool : Tool) (input : string) (opts : DispatchOptions) : SM W string ToolCallOutcome :=
  if negb (do_suppressApprovalGate opts) && requiresApproval (resolveApproval (tool_approval tool) (do_agentApprovalDefault opts))
  then sret (inr (approvalPrompt (tool_id tool)))
  else if do_readOnly opts && write_capable tool then sret (inr (readOnlyGitHubRefusal (tool_id tool)))
  else
    match tool_agentRunTemplate tool with
    | Some _ =>
        sret (inr ("tool " +:+ tool_id tool +:+
                   " is agent-backed -- calling an agent-backed tool from a sub-agent's own toolRefs is not supported yet"))
    | None =>
        match tool_mcpExec tool, tool_localExec tool, tool_jobTemplate tool with
        | Some _, _, _ => dispatch_mcp tool input opts
        | None, Some _, _ => dispatch_local tool input opts
        | None, None, Some template => dispatch_job tool template input opts
        | None, None, None => sret (inr (no_dispatch_path (tool_id tool)))
        end
    end.

(** ** The handler of a sub-agent's calls *)

Record HandlerOptions := mkHandlerOptions {
  ho_sessionId : option string;
  ho_callerSubject : option string;
  (** [onApprovalNeeded] is given. *)
  ho_approvals : bool;
  ho_approvalTimeoutMs : option Z;
  ho_readOnly : bool
}.

(** The catalog by id, [None] when there is none. *)
Definition ToolCatalog : Type := option (string -> option Tool).

Definition catalog_find (toolCatalog : ToolCatalog) (id : string) : option Tool := toolCatalog ≫= (fun getById => getById id).

Definition not_in_catalog (id : string) : string := "tool " +:+ qq +:+ id +:+ qq +:+ " not found in the catalog".

Definition handler_dispatch (agent : AgentDescriptor) (opts : HandlerOptions) : DispatchOptions :=
  mkDispatchOptions (ho_sessionId opts) (ho_callerSubject opts) (agent_approvalDefault agent) false (ho_readOnly opts).

(** The handler of one agent's calls. The result is the call that it reports by
    [onApprovalNeeded], if it does. *)
Definition makeSubAgentToolCallHandler (runId : string) (agent : AgentDescriptor)
    (resolveToolCall : option (string -> string -> ToolCallOutcome -> SM W string unit)) (toolCatalog : ToolCatalog)
    (opts : HandlerOptions) (callId tool input : string) : SM W string (option SubAgentApprovalCall) :=
  match resolveToolCall with
  | None => sret None
  | Some resolve =>
      if negb (has (agent_toolRefs agent ?? []) tool) then
        do! _ <- resolve runId callId (inr ("tool " +:+ qq +:+ tool +:+ qq +:+ " is not declared in this agent's toolRefs")) ;;
        sret None
      else
        match catalog_find toolCatalog tool with
        | None => do! _ <- resolve runId callId (inr (not_in_catalog tool)) ;; sret None
        | Some found =>
            if ho_approvals opts && requiresApproval (resolveApproval (tool_approval found) (agent_approvalDefault agent))
            then fun w => (Ok (Some (mkApprovalCall callId tool input (dd_now deps w + (ho_approvalTimeoutMs opts ?? 0)))), w)
            else
              scatch
                (do! outcome <- dispatchResolvedTool found input (handler_dispatch agent opts) ;;
                 do! _ <- resolve runId callId outcome ;;
                 sret None)
                (fun e => do! _ <- resolve runId callId (inr e) ;; sret None)
        end
  end.
End Dispatch.

(** ** What a dispatch does to the world *)

(** The runs of a tool that leave the orchestrator. *)
Inductive Action :=
| act_launch (tool : Tool) (opts : LaunchOptions)
| act_local (tool : Tool) (input : string)
| act_mcp (tool : Tool) (input subject : string).

(** The ports keep [I], a run of a tool only where it is [allowed]. *)
Record dispatch_lawful {W : Type} (I : W -> Prop) (allowed : Action -> Prop) (deps : ToolDispatchDeps W) : Prop := {
  dl_uuid : keeps I (dd_randomUUID deps);
  dl_subscribe jobId : keeps I (jr_subscribe (dd_jobResultReceiver deps) jobId);
  dl_await jobId : keeps I (jr_awaitJob (dd_jobResultReceiver deps) jobId);
  dl_unsubscribe jobId : keeps I (jr_unsubscribeProgress (dd_jobResultReceiver deps) jobId);
  dl_progress jobId (l : Listener W) :
    (forall stage message, keeps I (l stage message)) -> keeps I (jr_onJobProgress (dd_jobResultReceiver deps) jobId l);
  dl_launch tool template opts :
    tool_jobTemplate tool = Some template -> allowed (act_launch tool opts) -> keeps I (dd_containerToolLauncher deps template opts);
  dl_local tool input sessionId run :
    dd_localToolExecutor deps = Some run -> allowed (act_local tool input) -> keeps I (run tool input sessionId);
  dl_mcp tool input subject call :
    dd_mcpBrokerClient deps = Some call -> allowed (act_mcp tool input subject) -> keeps I (call tool input subject)
}.

(** The runs that a dispatch of [tool] may be. *)
Definition dispatches (tool : Tool) (input : string) (opts : DispatchOptions) (a : Action) : Prop :=
  (do_suppressApprovalGate opts = true \/
   requiresApproval (resolveApproval (tool_approval tool) (do_agentApprovalDefault opts)) = false) /\
  (do_readOnly opts = true -> write_capable tool = false) /\
  match a with
  | act_launch t o => t = tool /\ la_args o = [input] /\ la_readOnly o = do_readOnly opts /\ la_secretEnv o = None
  | act_local t i => t = tool /\ i = input
  | act_mcp t i subject => t = tool /\ i = input /\ do_callerSubject opts = Some subject /\ do_readOnly opts = false
  end.

Lemma keeps_with_errors {W E E' A : Type} (I : W -> Prop) (f : E -> E') (m : SM W E A) : keeps I m -> keeps I (with_errors f m).
Proof. intros Hm w Hw. unfold with_errors. specialize (Hm w Hw). by destruct (m w) as [[] w']. Qed.

Create HintDb keeps.
#[export] Hint Resolve keeps_sret keeps_sthrow keeps_sbind keeps_scatch keeps_with_errors : keeps.
#[export] Hint Resolve dl_uuid dl_subscribe dl_await dl_unsubscribe dl_progress dl_launch dl_local dl_mcp : keeps.

Section Safety.
Context {W : Type} (I : W -> Prop) (allowed : Action -> Prop) (deps : ToolDispatchDeps W).
Hypothesis Hlaw : dispatch_lawful I allowed deps.

Ltac dispatched := unfold dispatches; split_and!; first [done | by intros; simplify_eq | congruence].

Lemma dispatch_keeps (tool : Tool) (input : string) (opts : DispatchOptions) :
  (forall a, dispatches tool input opts a -> allowed a) -> keeps I (dispatchResolvedTool deps tool input opts).
Proof using Hlaw.
  intros Hall. unfold dispatchResolvedTool.
  destruct (negb _ && _) eqn:Hgate; [apply keeps_sret|].
  destruct (do_readOnly opts && write_capable tool) eqn:Hro; [apply keeps_sret|].
  assert (Hcleared : do_suppressApprovalGate opts = true \/
            requiresApproval (resolveApproval (tool_approval tool) (do_agentApprovalDefault opts)) = false).
  { apply andb_false_iff in Hgate as [Hs%negb_false_iff|?]; auto. }
  assert (Hplain : do_readOnly opts = true -> write_capable tool = false).
  { intros Hr. by rewrite Hr in Hro. }
  destruct (tool_agentRunTemplate tool); [apply keeps_sret|].
  destruct (tool_mcpExec tool); [|destruct (tool_localExec tool); [|destruct (tool_jobTemplate tool) eqn:Ht; [|apply keeps_sret]]].
  - unfold dispatch_mcp. destruct (dd_mcpBrokerClient deps) eqn:Hc; [|apply keeps_sret].
    destruct (do_callerSubject opts) as [subject|] eqn:Hs; simpl; [|apply keeps_sret].
    destruct (str_empty subject); simpl; [apply keeps_sret|]. destruct (do_readOnly opts) eqn:Hr; [apply keeps_sret|].
    apply keeps_sbind; [|auto with keeps]. eapply dl_mcp; [done..|]. apply Hall. dispatched.
  - unfold dispatch_local. destruct (dd_localToolExecutor deps) eqn:Hc; [|apply keeps_sret].
    apply keeps_sbind; [|auto with keeps]. eapply dl_local; [done..|]. apply Hall. dispatched.
  - unfold dispatch_job. apply keeps_sbind; [eauto with keeps|]. intros jobId. apply keeps_sbind; [eauto with keeps|]. intros _.
    assert (Hc : keeps I (do! event <- with_errors job_message (jr_awaitJob (dd_jobResultReceiver deps) jobId) ;;
                          sret (E := string) (event_outcome event))) by eauto with keeps.
    destruct (truthy_str (dd_natsUrl deps)); [|destruct (negb _ || negb _); [apply keeps_sret|]];
      (apply keeps_sbind; [|done]); (eapply dl_launch; [done..|]); apply Hall; dispatched.
Qed.

Lemma handler_keeps (runId : string) (agent : AgentDescriptor) resolveToolCall (toolCatalog : ToolCatalog) (opts : HandlerOptions)
    (callId tool input : string) :
  (forall resolve, resolveToolCall = Some resolve -> forall r c o, keeps I (resolve r c o)) ->
  (forall found a, catalog_find toolCatalog tool = Some found -> tool ∈ agent_toolRefs agent ?? [] ->
     dispatches found input (handler_dispatch agent opts) a -> allowed a) ->
  keeps I (makeSubAgentToolCallHandler deps runId agent resolveToolCall toolCatalog opts callId tool input).
Proof using Hlaw.
  intros Hresolve Hall. unfold makeSubAgentToolCallHandler.
  destruct resolveToolCall as [resolve|]; [|apply keeps_sret]. specialize (Hresolve resolve eq_refl).
  destruct (has (agent_toolRefs agent ?? []) tool) eqn:Hrefs; simpl; [|eauto with keeps].
  apply bool_decide_eq_true in Hrefs.
  destruct (catalog_find toolCatalog tool) as [found|] eqn:Hf; [|eauto with keeps].
  destruct (_ && _); [by intros w Hw|].
  apply keeps_scatch; [|eauto with keeps]. apply keeps_sbind; [|eauto with keeps].
  apply dispatch_keeps. intros a. by apply Hall.
Qed.
End Safety.
