(* ===== verification/GraphState.v ===== *)
(** * Agent orchestrator: the state and the ports of the graph

    The channels of the graph's state and the dependencies of its nodes
    (apps/agent-orchestrator/src/agent/graph.ts, [AgentStateAnnotation] and
    [AgentGraphDeps]), with the ports of k8s/agentrun-launcher.ts and
    agents/nats-agent-channel.ts as the graph sees them.

    A node returns an object with some of the state's keys; here it returns the
    list of its [Update]s, which are merged as the reducers of the annotation
    do. The keys that no node writes are the [TurnInput]. A pause stored before
    its optional fields existed is not modelled: a [PendingIdentityLink] has its
    subject and its request. *)

From stdpp Require Import base gmap strings list.
From Stdlib Require Import ZArith Lia.
From S2P Require Import Prelude JsString JsNumber Json JsMap EventValues JsList KnowledgeBase KbCite KbSearcher KbLive.
From S2P Require Import IdentityLink Authorization Session AgentChannel Approval Catalog Planner Dispatch.

#[local] Open Scope Z_scope.

(** ** The state *)

Inductive Planned := planned_respond | planned_call_tool | planned_finish.

#[export] Instance Planned_eq_dec : EqDecision Planned.
Proof. solve_decision. Defined.

(** A tool call paused for the caller's approval. *)
Record ApprovalPending := mkApprovalPending {
  ap_toolId : string;
  ap_toolArgs : option string;
  ap_instanceKey : option string;
  ap_tool : Tool;
  ap_skill : option SkillDescriptor;
  ap_skillTools : option (list Tool);
  ap_subject : option string
}.

(** What the server sets for the turn. *)
Record TurnInput (W : Type) := mkTurnInput {
  in_authToken : string;
  in_sessionId : option string;
  in_activeSkillId : option string;
  in_sessionSubject : option string;
  in_activeAgentRunReadOnly : bool;
  in_toolContinuations : option (jsmap string);
  in_agentContinuations : option (jsmap string);
  in_callerTools : list Tool;
  in_callerToolChoiceRequired : bool;
  in_progressListener : option (Listener W);
  in_remoteControlUrlListener : option (string -> SM W string unit);
  in_reportIdentityLinkPending : option (string -> string -> SM W string unit);
  in_identityLinkFlow : option LinkFlow;
  in_forwardedUserToken : option string;
  in_senderLogin : option string;
  in_forcedSkillId : option string;
  in_forcedAgentId : option string;
  in_forcedToolId : option string;
  in_toolInput : option string;
  in_turnReadOnly : bool;
  in_params : option (jsmap string);
  in_triggerName : option string
}.
Arguments mkTurnInput {W}.
Arguments in_authToken {W} t.
Arguments in_sessionId {W} t.
Arguments in_activeSkillId {W} t.
Arguments in_sessionSubject {W} t.
Arguments in_activeAgentRunReadOnly {W} t.
Arguments in_toolContinuations {W} t.
Arguments in_agentContinuations {W} t.
Arguments in_callerTools {W} t.
Arguments in_callerToolChoiceRequired {W} t.
Arguments in_progressListener {W} t.
Arguments in_remoteControlUrlListener {W} t.
Arguments in_reportIdentityLinkPending {W} t.
Arguments in_identityLinkFlow {W} t.
Arguments in_forwardedUserToken {W} t.
Arguments in_senderLogin {W} t.
Arguments in_forcedSkillId {W} t.
Arguments in_forcedAgentId {W} t.
Arguments in_forcedToolId {W} t.
Arguments in_toolInput {W} t.
Arguments in_turnReadOnly {W} t.
Arguments in_params {W} t.
Arguments in_triggerName {W} t.

(** The keys that a node may write; each is a channel of the graph. *)
#[local] Set Primitive Projections.
Record AgentState := mkState {
  s_request : string;
  s_activeAgentId : option string;
  s_activeAgentRunId : option string;
  s_activeAgentRunAwaitingReply : bool;
  s_agentResumePending : bool;
  s_pendingToolCalls : list PendingToolCall;
  s_identity : option Identity;
  s_skillCandidates : list SkillSearchResult;
  s_agentCandidates : list AgentSearchResult;
  s_toolCandidates : list ToolSearchResult;
  s_selectedSkill : option SkillDescriptor;
  s_skillTools : list Tool;
  s_selectedTool : option Tool;
  s_toolArgs : option string;
  s_toolInstanceKey : option string;
  s_actionHistory : list ToolCallRecord;
  s_plannedAction : option Planned;
  s_jobId : option string;
  s_result : option json;
  s_error : option string;
  s_linkGatePending : bool;
  s_citationSources : list CitedSource;
  s_citationCaveats : list string;
  s_pendingVerbatimResult : option string;
  s_selectedAgent : option AgentDescriptor;
  s_agentRunId : option string;
  s_agentAwaitingReply : bool;
  s_extractedContinuation : option (string * string);
  s_extractedAgentContinuation : option (string * string);
  s_wasFallback : bool;
  s_needsCapability : bool;
  s_pendingIdentityLink : option PendingIdentityLink;
  s_identityLinkPending : bool;
  s_approvalPending : option ApprovalPending;
  s_approvalGranted : bool;
  s_approvalWaiting : bool;
  s_subAgentApprovalPending : option SubAgentApprovalPending;
  s_subAgentApprovalWaiting : bool
}.

(** One key of the object a node returns. The sources and the caveats of the
    citations are appended to the ones there are; any other value replaces its
    key's. *)
Inductive Update :=
| u_request (v : string)
| u_activeAgentId (v : option string)
| u_activeAgentRunId (v : option string)
| u_activeAgentRunAwaitingReply (v : bool)
| u_agentResumePending (v : bool)
| u_pendingToolCalls (v : list PendingToolCall)
| u_identity (v : option Identity)
| u_skillCandidates (v : list SkillSearchResult)
| u_agentCandidates (v : list AgentSearchResult)
| u_toolCandidates (v : list ToolSearchResult)
| u_selectedSkill (v : option SkillDescriptor)
| u_skillTools (v : list Tool)
| u_selectedTool (v : option Tool)
| u_toolArgs (v : option string)
| u_toolInstanceKey (v : option string)
| u_actionHistory (v : list ToolCallRecord)
| u_plannedAction (v : option Planned)
| u_jobId (v : option string)
| u_result (v : option json)
| u_error (v : option string)
| u_linkGatePending (v : bool)
| u_citationSources (v : list CitedSource)
| u_citationCaveats (v : list string)
| u_pendingVerbatimResult (v : option string)
| u_selectedAgent (v : option AgentDescriptor)
| u_agentRunId (v : option string)
| u_agentAwaitingReply (v : bool)
| u_extractedContinuation (v : option (string * string))
| u_extractedAgentContinuation (v : option (string * string))
| u_wasFallback (v : bool)
| u_needsCapability (v : bool)
| u_pendingIdentityLink (v : option PendingIdentityLink)
| u_identityLinkPending (v : bool)
| u_approvalPending (v : option ApprovalPending)
| u_approvalGranted (v : bool)
| u_approvalWaiting (v : bool)
| u_subAgentApprovalPending (v : option SubAgentApprovalPending)
| u_subAgentApprovalWaiting (v : bool).

Definition apply_update (u : Update) (s : AgentState) : AgentState :=
  let '(mkState rq ai ar aw rp pt id sc ac tc ss st sl ta ti ah pa jb rs er lg cs cc pv sa an aa xc xa wf nc pl ip ap ag aq sp sw) := s in
  match u with
  | u_request v => mkState v ai ar aw rp pt id sc ac tc ss st sl ta ti ah pa jb rs er lg cs cc pv sa an aa xc xa wf nc pl ip ap ag aq sp sw
  | u_activeAgentId v => mkState rq v ar aw rp pt id sc ac tc ss st sl ta ti ah pa jb rs er lg cs cc pv sa an aa xc xa wf nc pl ip ap ag aq sp sw
  | u_activeAgentRunId v => mkState rq ai v aw rp pt id sc ac tc ss st sl ta ti ah pa jb rs er lg cs cc pv sa an aa xc xa wf nc pl ip ap ag aq sp sw
  | u_activeAgentRunAwaitingReply v => mkState rq ai ar v rp pt id sc ac tc ss st sl ta ti ah pa jb rs er lg cs cc pv sa an aa xc xa wf nc pl ip ap ag aq sp sw
  | u_agentResumePending v => mkState rq ai ar aw v pt id sc ac tc ss st sl ta ti ah pa jb rs er lg cs cc pv sa an aa xc xa wf nc pl ip ap ag aq sp sw
  | u_pendingToolCalls v => mkState rq ai ar aw rp v id sc ac tc ss st sl ta ti ah pa jb rs er lg cs cc pv sa an aa xc xa wf nc pl ip ap ag aq sp sw
  | u_identity v => mkState rq ai ar aw rp pt v sc ac tc ss st sl ta ti ah pa jb rs er lg cs cc pv sa an aa xc xa wf nc pl ip ap ag aq sp sw
  | u_skillCandidates v => mkState rq ai ar aw rp pt id v ac tc ss st sl ta ti ah pa jb rs er lg cs cc pv sa an aa xc xa wf nc pl ip ap ag aq sp sw
  | u_agentCandidates v => mkState rq ai ar aw rp pt id sc v tc ss st sl ta ti ah pa jb rs er lg cs cc pv sa an aa xc xa wf nc pl ip ap ag aq sp sw
  | u_toolCandidates v => mkState rq ai ar aw rp pt id sc ac v ss st sl ta ti ah pa jb rs er lg cs cc pv sa an aa xc xa wf nc pl ip ap ag aq sp sw
  | u_selectedSkill v => mkState rq ai ar aw rp pt id sc ac tc v st sl ta ti ah pa jb rs er lg cs cc pv sa an aa xc xa wf nc pl ip ap ag aq sp sw
  | u_skillTools v => mkState rq ai ar aw rp pt id sc ac tc ss v sl ta ti ah pa jb rs er lg cs cc pv sa an aa xc xa wf nc pl ip ap ag aq sp sw
  | u_selectedTool v => mkState rq ai ar aw rp pt id sc ac tc ss st v ta ti ah pa jb rs er lg cs cc pv sa an aa xc xa wf nc pl ip ap ag aq sp sw
  | u_toolArgs v => mkState rq ai ar aw rp pt id sc ac tc ss st sl v ti ah pa jb rs er lg cs cc pv sa an aa xc xa wf nc pl ip ap ag aq sp sw
  | u_toolInstanceKey v => mkState rq ai ar aw rp pt id sc ac tc ss st sl ta v ah pa jb rs er lg cs cc pv sa an aa xc xa wf nc pl ip ap ag aq sp sw
  | u_actionHistory v => mkState rq ai ar aw rp pt id sc ac tc ss st sl ta ti v pa jb rs er lg cs cc pv sa an aa xc xa wf nc pl ip ap ag aq sp sw
  | u_plannedAction v => mkState rq ai ar aw rp pt id sc ac tc ss st sl ta ti ah v jb rs er lg cs cc pv sa an aa xc xa wf nc pl ip ap ag aq sp sw
  | u_jobId v => mkState rq ai ar aw rp pt id sc ac tc ss st sl ta ti ah pa v rs er lg cs cc pv sa an aa xc xa wf nc pl ip ap ag aq sp sw
  | u_result v => mkState rq ai ar aw rp pt id sc ac tc ss st sl ta ti ah pa jb v er lg cs cc pv sa an aa xc xa wf nc pl ip ap ag aq sp sw
  | u_error v => mkState rq ai ar aw rp pt id sc ac tc ss st sl ta ti ah pa jb rs v lg cs cc pv sa an aa xc xa wf nc pl ip ap ag aq sp sw
  | u_linkGatePending v => mkState rq ai ar aw rp pt id sc ac tc ss st sl ta ti ah pa jb rs er v cs cc pv sa an aa xc xa wf nc pl ip ap ag aq sp sw
  | u_citationSources v => mkState rq ai ar aw rp pt id sc ac tc ss st sl ta ti ah pa jb rs er lg (cs ++ v) cc pv sa an aa xc xa wf nc pl ip ap ag aq sp sw
  | u_citationCaveats v => mkState rq ai ar aw rp pt id sc ac tc ss st sl ta ti ah pa jb rs er lg cs (cc ++ v) pv sa an aa xc xa wf nc pl ip ap ag aq sp sw
  | u_pendingVerbatimResult v => mkState rq ai ar aw rp pt id sc ac tc ss st sl ta ti ah pa jb rs er lg cs cc v sa an aa xc xa wf nc pl ip ap ag aq sp sw
  | u_selectedAgent v => mkState rq ai ar aw rp pt id sc ac tc ss st sl ta ti ah pa jb rs er lg cs cc pv v an aa xc xa wf nc pl ip ap ag aq sp sw
  | u_agentRunId v => mkState rq ai ar aw rp pt id sc ac tc ss st sl ta ti ah pa jb rs er lg cs cc pv sa v aa xc xa wf nc pl ip ap ag aq sp sw
  | u_agentAwaitingReply v => mkState rq ai ar aw rp pt id sc ac tc ss st sl ta ti ah pa jb rs er lg cs cc pv sa an v xc xa wf nc pl ip ap ag aq sp sw
  | u_extractedContinuation v => mkState rq ai ar aw rp pt id sc ac tc ss st sl ta ti ah pa jb rs er lg cs cc pv sa an aa v xa wf nc pl ip ap ag aq sp sw
  | u_extractedAgentContinuation v => mkState rq ai ar aw rp pt id sc ac tc ss st sl ta ti ah pa jb rs er lg cs cc pv sa an aa xc v wf nc pl ip ap ag aq sp sw
  | u_wasFallback v => mkState rq ai ar aw rp pt id sc ac tc ss st sl ta ti ah pa jb rs er lg cs cc pv sa an aa xc xa v nc pl ip ap ag aq sp sw
  | u_needsCapability v => mkState rq ai ar aw rp pt id sc ac tc ss st sl ta ti ah pa jb rs er lg cs cc pv sa an aa xc xa wf v pl ip ap ag aq sp sw
  | u_pendingIdentityLink v => mkState rq ai ar aw rp pt id sc ac tc ss st sl ta ti ah pa jb rs er lg cs cc pv sa an aa xc xa wf nc v ip ap ag aq sp sw
  | u_identityLinkPending v => mkState rq ai ar aw rp pt id sc ac tc ss st sl ta ti ah pa jb rs er lg cs cc pv sa an aa xc xa wf nc pl v ap ag aq sp sw
  | u_approvalPending v => mkState rq ai ar aw rp pt id sc ac tc ss st sl ta ti ah pa jb rs er lg cs cc pv sa an aa xc xa wf nc pl ip v ag aq sp sw
  | u_approvalGranted v => mkState rq ai ar aw rp pt id sc ac tc ss st sl ta ti ah pa jb rs er lg cs cc pv sa an aa xc xa wf nc pl ip ap v aq sp sw
  | u_approvalWaiting v => mkState rq ai ar aw rp pt id sc ac tc ss st sl ta ti ah pa jb rs er lg cs cc pv sa an aa xc xa wf nc pl ip ap ag v sp sw
  | u_subAgentApprovalPending v => mkState rq ai ar aw rp pt id sc ac tc ss st sl ta ti ah pa jb rs er lg cs cc pv sa an aa xc xa wf nc pl ip ap ag aq v sw
  | u_subAgentApprovalWaiting v => mkState rq ai ar aw rp pt id sc ac tc ss st sl ta ti ah pa jb rs er lg cs cc pv sa an aa xc xa wf nc pl ip ap ag aq sp v
  end.

#[local] Unset Primitive Projections.

(** The state after the object a node returned. *)
Definition merge (us : list Update) (s : AgentState) : AgentState := foldl (fun s u => apply_update u s) s us.

(** A key that an object has only under a condition. *)
Definition u_when (b : bool) (us : list Update) : list Update := if b then us else [].
Definition u_opt {A : Type} (o : option A) (f : A -> Update) : list Update :=
  match o with
  | Some a => [f a]
  | None => []
  end.

(** A text as a result. *)
Definition u_text (s : string) : Update := u_result (Some (JStr s)).
Definition u_fail (message : string) : Update := u_error (Some message).

(** The record of a call, put at the end of the turn's history. *)
Definition u_history (s : AgentState) (toolId toolArgs : string) (result : option string) : Update :=
  u_actionHistory (s_actionHistory s ++ [mkCallRecord toolId toolArgs result]).

(** ** The ports *)

Record SecretKeySelector := mkSecretKey {
  sks_name : string;
  sks_key : string
}.

Record AgentLaunchOptions := mkAgentLaunch {
  al_goal : string;
  al_callbackUrl : string;
  al_callbackSecretRef : SecretKeySelector;
  al_natsUrl : option string;
  al_natsSubject : option string;
  al_timeoutSeconds : option Z;
  al_secretEnv : option (list CredentialEnvEntry);
  al_ownedSecretNames : option (list string);
  al_sessionId : option string;
  al_readOnly : bool;
  al_params : option (jsmap string)
}.

(** [whenFailed] starts to watch a run; [arl_stop] is the abort of its signal. *)
Record AgentRunLauncherPort (W : Type) := mkLauncher {
  arl_launch : AgentRunTemplate -> string -> AgentLaunchOptions -> SM W string unit;
  arl_whenFailed : option (string -> string -> SM W string unit);
  arl_stop : string -> SM W string unit
}.
Arguments mkLauncher {W}.
Arguments arl_launch {W} a.
Arguments arl_whenFailed {W} a.
Arguments arl_stop {W} a.

(** The options of a wait. The handler of a tool call gives the call that it
    reports for approval; the wait ends on it where [ar_approvalNeeded]. *)
Record AwaitReplyOptions (W : Type) := mkAwaitReply {
  ar_idleTimeoutMs : option Z;
  ar_onProgress : option (option string -> string -> SM W string unit);
  ar_onToolCall : option (string -> string -> string -> SM W string (option SubAgentApprovalCall));
  ar_approvalNeeded : bool;
  ar_runFailed : bool
}.
Arguments mkAwaitReply {W}.
Arguments ar_idleTimeoutMs {W} a.
Arguments ar_onProgress {W} a.
Arguments ar_onToolCall {W} a.
Arguments ar_approvalNeeded {W} a.
Arguments ar_runFailed {W} a.

(** What ends an agent's turn early: an error of the channel, or any other. *)
Inductive TurnFailure :=
| turn_error (e : AgentTurnError)
| other_error (message : string).

(** [awaitReply] subscribes when it is called and is awaited afterwards. *)
Record AgentOrchestratorChannel (W : Type) := mkAgentChannel {
  ac_awaitReply : string -> AwaitReplyOptions W -> SM W string unit;
  ac_reply : string -> AwaitReplyOptions W -> SM W TurnFailure AgentTurnResult;
  ac_sendPrompt : string -> string -> SM W string unit;
  ac_resolveToolCall : option (string -> string -> ToolCallOutcome -> SM W string unit);
  ac_recordedReply : option (string -> SM W string (option AgentTurnResult));
  ac_forgetRecordedReply : option (string -> SM W string unit)
}.
Arguments mkAgentChannel {W}.
Arguments ac_awaitReply {W} a.
Arguments ac_reply {W} a.
Arguments ac_sendPrompt {W} a.
Arguments ac_resolveToolCall {W} a.
Arguments ac_recordedReply {W} a.
Arguments ac_forgetRecordedReply {W} a.

Record KnowledgeBaseSearcherPort (W : Type) := mkSearcherPort {
  kbs_checkLinks : Tool -> Caller -> SM W string LinkCheck;
  kbs_search : Tool -> string -> Caller -> Z -> SM W string SearchResult
}.
Arguments mkSearcherPort {W}.
Arguments kbs_checkLinks {W} k.
Arguments kbs_search {W} k.

(** A live face of a corpus: read, lookup and query. *)
Definition LivePort (W : Type) : Type := Tool -> string -> Caller -> Z -> SM W string LiveResult.

Record AgentGraphDeps (W : Type) := mkGraphDeps {
  gd_identityResolver : string -> SM W string (option Identity);
  gd_forwardedUserIdentityResolver : option (string -> SM W string (option Identity));
  gd_knowledgeBaseSearcher : option (KnowledgeBaseSearcherPort W);
  gd_corpusReader : option (LivePort W);
  gd_corpusLookup : option (LivePort W);
  gd_corpusQuery : option (LivePort W);
  gd_skillStore : SkillStore W;
  gd_agentStore : option (AgentStore W);
  gd_vectorStore : VectorStore W;
  gd_skillSelector : string -> list SkillSearchResult -> SM W string (option SkillDescriptor);
  gd_delegateSelector : option (string -> list SkillSearchResult -> list AgentSearchResult -> list ToolSearchResult ->
                                SM W string (option DelegateChoice));
  gd_skillFitChecker : string -> SkillDescriptor -> SM W string bool;
  gd_toolFitChecker : string -> Tool -> SM W string bool;
  gd_capabilityNeedChecker : string -> SM W string bool;
  gd_actionPlanner : string -> SkillDescriptor -> list Tool -> list ToolCallRecord -> PlanOptions -> SM W string PlannedAction;
  gd_responseComposer : string -> SkillDescriptor -> Tool -> string -> SM W string ComposedNarration;
  gd_bestEffortResponder : string -> option (string -> SM W string unit) -> SM W string string;
  gd_dispatch : ToolDispatchDeps W;
  gd_toolCatalog : ToolCatalog;
  gd_agentRunLauncher : option (AgentRunLauncherPort W);
  gd_agentChannel : option (AgentOrchestratorChannel W);
  gd_callbackSecretRef : option SecretKeySelector;
  gd_markAgentRunAwaitingReply : option (string -> string -> string -> string -> bool -> SM W string unit);
  gd_clearAgentRunAwaitingReply : option (string -> SM W string unit);
  gd_skillTopK : option Z;
  gd_agentTopK : option Z;
  gd_fallbackToolTopK : option Z;
  gd_agentIdleTimeoutSeconds : option Z;
  gd_subAgentApprovalTimeoutSeconds : option Z;
  gd_authorization : AuthorizationServiceDeps W
}.
Arguments mkGraphDeps {W}.
Arguments gd_identityResolver {W} a.
Arguments gd_forwardedUserIdentityResolver {W} a.
Arguments gd_knowledgeBaseSearcher {W} a.
Arguments gd_corpusReader {W} a.
Arguments gd_corpusLookup {W} a.
Arguments gd_corpusQuery {W} a.
Arguments gd_skillStore {W} a.
Arguments gd_agentStore {W} a.
Arguments gd_vectorStore {W} a.
Arguments gd_skillSelector {W} a.
Arguments gd_delegateSelector {W} a.
Arguments gd_skillFitChecker {W} a.
Arguments gd_toolFitChecker {W} a.
Arguments gd_capabilityNeedChecker {W} a.
Arguments gd_actionPlanner {W} a.
Arguments gd_responseComposer {W} a.
Arguments gd_bestEffortResponder {W} a.
Arguments gd_dispatch {W} a.
Arguments gd_toolCatalog {W} a.
Arguments gd_agentRunLauncher {W} a.
Arguments gd_agentChannel {W} a.
Arguments gd_callbackSecretRef {W} a.
Arguments gd_markAgentRunAwaitingReply {W} a.
Arguments gd_clearAgentRunAwaitingReply {W} a.
Arguments gd_skillTopK {W} a.
Arguments gd_agentTopK {W} a.
Arguments gd_fallbackToolTopK {W} a.
Arguments gd_agentIdleTimeoutSeconds {W} a.
Arguments gd_subAgentApprovalTimeoutSeconds {W} a.
Arguments gd_authorization {W} a.

(** ** The start of a turn *)

(** What the server takes from the request and the session and a node may
    change. *)
Record TurnStart := mkTurnStart {
  ts_request : string;
  ts_activeAgentId : option string;
  ts_activeAgentRunId : option string;
  ts_activeAgentRunAwaitingReply : bool;
  ts_actionHistory : list ToolCallRecord;
  ts_pendingIdentityLink : option PendingIdentityLink;
  ts_approvalPending : option ApprovalPending;
  ts_subAgentApprovalPending : option SubAgentApprovalPending
}.

(** The state the graph starts in: each other channel at its default. *)
Definition turn_start (t : TurnStart) : AgentState :=
  {| s_request := ts_request t; s_activeAgentId := ts_activeAgentId t; s_activeAgentRunId := ts_activeAgentRunId t;
     s_activeAgentRunAwaitingReply := ts_activeAgentRunAwaitingReply t; s_agentResumePending := false; s_pendingToolCalls := [];
     s_identity := None; s_skillCandidates := []; s_agentCandidates := []; s_toolCandidates := []; s_selectedSkill := None;
     s_skillTools := []; s_selectedTool := None; s_toolArgs := None; s_toolInstanceKey := None;
     s_actionHistory := ts_actionHistory t; s_plannedAction := None; s_jobId := None; s_result := None; s_error := None;
     s_linkGatePending := false; s_citationSources := []; s_citationCaveats := []; s_pendingVerbatimResult := None;
     s_selectedAgent := None; s_agentRunId := None; s_agentAwaitingReply := false; s_extractedContinuation := None;
     s_extractedAgentContinuation := None; s_wasFallback := false; s_needsCapability := true;
     s_pendingIdentityLink := ts_pendingIdentityLink t; s_identityLinkPending := false;
     s_approvalPending := ts_approvalPending t; s_approvalGranted := false; s_approvalWaiting := false;
     s_subAgentApprovalPending := ts_subAgentApprovalPending t; s_subAgentApprovalWaiting := false |}.
