(* ===== verification/GraphNodes.v ===== *)
(** * Agent orchestrator: the nodes of the graph before its tool loop

    The helpers and the nodes of apps/agent-orchestrator/src/agent/graph.ts from
    resolveIdentity to delegateToAgent: who the caller is, what the turn
    continues (an event trigger, an approval, an identity link, a skill, an
    agent run), what is retrieved for it and which delegate is selected, and the
    launch of an agent. *)

From stdpp Require Import base gmap strings list.
From Stdlib Require Import ZArith Lia Ascii.
From S2P Require Import Prelude JsString JsNumber Json JsMap EventValues JsList KnowledgeBase KbCite KbSearcher KbLive.
From S2P Require Import IdentityLink Authorization Session AgentChannel Approval Catalog Planner Dispatch GraphState.

#[local] Open Scope Z_scope.

(** ** Promises *)

(** [Promise.all]: every call runs; the first failure in their order is its own. *)
Definition promise_all {W E A : Type} (ms : list (SM W E A)) : SM W E (list A) :=
  do! outcomes <- all_settled ms ;;
  fun w => (mapM_result (fun outcome => outcome) outcomes, w).

Definition promise_pair {W E A B : Type} (m1 : SM W E A) (m2 : SM W E B) : SM W E (A * B) := fun w =>
  let '(r1, w1) := m1 w in
  let '(r2, w2) := m2 w1 in
  (let? a := r1 in let? b := r2 in Ok (a, b), w2).

(** [try { m } catch (e) { h(e) }], where [m] may fail otherwise than the whole. *)
Definition shandle {W E E' A : Type} (m : SM W E A) (h : E -> SM W E' A) : SM W E' A := fun w =>
  match m w with
  | (Ok a, w') => (Ok a, w')
  | (Err e, w') => h e w'
  end.

(** [p.catch(() => undefined)] *)
Definition ignoring {W E : Type} (m : SM W E unit) : SM W E unit := scatch m (fun _ => sret tt).

Definition when_some {W E A : Type} (o : option A) (f : A -> SM W E unit) : SM W E unit :=
  match o with
  | Some a => f a
  | None => sret tt
  end.

(** ** Texts *)

Definition SELF_IMPROVEMENT_FOOTER : string :=
  nl_s +:+ nl_s +:+ "---" +:+ nl_s +:+
  "No existing skill or agent matched this request, so it was handled ad-hoc. Ask me to run the self-improvement skill if you'd like a permanent skill added for this next time.".

Definition appendSelfImprovementSuggestion (message : string) : string := message +:+ SELF_IMPROVEMENT_FOOTER.

Definition FALLBACK_TOOL_MARKDOWN : string :=
  join " "
    ["No dedicated skill matched this request. You are deciding, from the raw tool catalog below (with no";
     "authored procedural guidance for how these tools relate or when to use them), whether exactly one of";
     "them is an unambiguous fit for the request.";
     "Only call a tool when its description is a clear, direct match — if the fit is unclear, or the request";
     "would need multiple tools or steps to satisfy, decline (respond) rather than force a guess; this request";
     "will get a plain best-effort answer instead if no tool is called."].

Definition AGENT_TURN_ADVICE : string := " — check the agent run for its result before retrying".

Definition agentTurnErrorMessage (err : TurnFailure) : string :=
  match err with
  | turn_error (AgentTurnFailedError code message) => "agent failed (" +:+ code +:+ "): " +:+ message
  | turn_error (AgentTurnTimeoutError message) => message
  | turn_error (AgentTurnTransportError message) => message +:+ AGENT_TURN_ADVICE
  | turn_error (AgentTurnApprovalPendingError callId tool _ _) =>
      "sub-agent tool call " +:+ callId +:+ " (" +:+ qq +:+ tool +:+ qq +:+ ") requires approval"
  | other_error message => message
  end.

(** [AUTH_EXPIRED_CODE_PROVIDER], an object literal. *)
Definition AUTH_EXPIRED_CODE_PROVIDER : list (string * string) :=
  [("claude_auth_expired", "claude"); ("claude_remote_auth_expired", "claude-remote")].

(** The last place at which [p] stands in [s]. *)
Fixpoint lastIndexOf_str (p s : string) : option nat :=
  match (match s with
         | EmptyString => None
         | String _ s' => S <$> lastIndexOf_str p s'
         end) with
  | Some n => Some n
  | None => if startsWith p s then Some O else None
  end.

(** [/^<!--[\s\S]*?-->\n*/], the marker and what follows it. *)
Definition leading_marker (message : string) : string * string :=
  match after_literal "<!--" message ≫= until_close with
  | None => (EmptyString, message)
  | Some (_, after) =>
      let rest := drop_while (Ascii.eqb nl) after in
      (str_take (slen message - slen rest) message, rest)
  end.

Definition dropStreamedNarrative (message : string) : string :=
  let '(marker, rest) := leading_marker message in
  match lastIndexOf_str (nl_s +:+ nl_s +:+ "---" +:+ nl_s) rest with
  | None => message
  | Some footerIdx => marker +:+ str_drop footerIdx rest
  end.

Definition DEFAULT_SUBAGENT_APPROVAL_TIMEOUT_SECONDS : Z := 900.
Definition REATTACH_IDLE_TIMEOUT_MS : Z := 45000.

Section Nodes.
Context {W Url : Type}.
(** [new URL] and the operations on it, [setTimeout], and the text of a count
    (Authorization.v). *)
Variable parse_url : string -> result string Url.
Variable url_pathname : Url -> string.
Variable set_pathname : string -> Url -> Url.
Variable searchParams_set : string -> string -> Url -> Url.
Variable url_toString : Url -> string.
Variable sleep : Z -> SM W string unit.
Variable number_text : Z -> string.
(** A member of [Object.prototype] as a text. *)
Variable inherited_text : string -> string.
Variable deps : AgentGraphDeps W.
Variable inp : TurnInput W.
Implicit Types state : AgentState.

Definition now : W -> Z := dd_now (gd_dispatch deps).
Definition randomUUID : SM W string string := dd_randomUUID (gd_dispatch deps).
Definition live : bool := bool_decide (is_Some (in_progressListener inp)).

Definition graph_catalog : IdentityProviderCatalog := catalog (gd_authorization deps).
Definition provider_label (provider : string) : string := label_of (gd_authorization deps) provider.

Definition identityGatewayFor (provider : string) : option (IdentityLinkPort W) := gatewayFor (gd_authorization deps) provider.

Definition page_start_of (subject : string) (providers : list string) (flow : LinkFlow) : SM W string (option string) :=
  slift (connectionsPageStart parse_url url_pathname set_pathname searchParams_set url_toString
           (ad_connectionsUrl (gd_authorization deps)) subject providers flow).

(** ** Linking an account for a knowledge base *)

Definition start_clause (subject : string) (clauses : list string) (provider : string) : SM W string (list string) :=
  match identityGatewayFor provider with
  | None => sret clauses
  | Some gateway =>
      scatch
        (do! started <- port_start gateway provider subject flow_authcode ;;
         sret (clauses ++ [linkPromptText started (provider_label provider)]))
        (fun _ => sret clauses)
  end.

Definition startKnowledgeBaseLinkClauses (subject : string) (providers : list string) : SM W string (list string) :=
  do! page <- page_start_of subject providers flow_authcode ;;
  match page with
  | Some pageUrl => sret ["[Connect " +:+ joinLabels (provider_label <$> providers) +:+ "](" +:+ pageUrl +:+ ")"]
  | None => sfold (start_clause subject) [] providers
  end.

Definition bulleted (clauses : list string) : string := join nl_s ((fun clause => "- " +:+ clause) <$> clauses).

Definition knowledgeBaseLinkPrompt (subject : string) (providers : list string) (baseMessage : string) : SM W string string :=
  do! clauses <- startKnowledgeBaseLinkClauses subject providers ;;
  match clauses with
  | [] => sret baseMessage
  | _ => sret (baseMessage +:+ nl_s +:+ nl_s +:+ bulleted clauses +:+ nl_s +:+ nl_s +:+
               "Once you've linked, ask again and I'll include those sources.")
  end.

Definition knowledgeBaseLinkGate (subject displayName : string) (linked unlinked : list string) : SM W string string :=
  do! clauses <- startKnowledgeBaseLinkClauses subject unlinked ;;
  sret ("Before I search the **" +:+ displayName +:+ "** knowledge base, link the account(s) it covers " +:+
        "that you haven't yet (" +:+ join ", " (provider_label <$> unlinked) +:+ "):" +:+
        (match clauses with
         | [] => EmptyString
         | _ => nl_s +:+ nl_s +:+ bulleted clauses
         end) +:+
        (match linked with
         | [] => EmptyString
         | _ => nl_s +:+ nl_s +:+ "(" +:+ join ", " (provider_label <$> linked) +:+ " already linked.)"
         end) +:+
        nl_s +:+ nl_s +:+
        "Link the account(s) above and ask again, or ask again now to search with just what you have linked.").

Definition enrichKnowledgeBaseResult (subject result : string) (linkProviders : option (list string)) : SM W string string :=
  match linkProviders with
  | Some ((_ :: _) as providers) => knowledgeBaseLinkPrompt subject providers result
  | _ => sret result
  end.

(** ** The credentials of a tool *)

(** The environment of the call, or why it is refused. *)
Definition resolveToolIdentitySecretEnv (tool : Tool) (identity : option Identity) (linkHint : string -> string) (readOnly : bool) :
    SM W string (option (list CredentialEnvEntry) + string) :=
  match identity with
  | None => sret (inr ("tool " +:+ tool_id tool +:+ " requires identity providers but no caller identity was resolved"))
  | Some who =>
      do! credentials <- resolveLinkedCredentials (gd_authorization deps) who (tool_identityProviders tool) readOnly ;;
      sret (match credentials with
            | lc_gateway_missing provider =>
                inr ("tool " +:+ tool_id tool +:+ " requires identity providers (" +:+
                     join ", " (tool_identityProviders tool ?? []) +:+ ") but no identity-link gateway is configured for " +:+
                     qq +:+ provider +:+ qq)
            | lc_not_linked provider =>
                inr ("tool " +:+ tool_id tool +:+ " requires linking your " +:+ provider +:+
                     " account first -- start a direct conversation with " +:+ linkHint provider +:+ " to link it, then retry")
            | lc_unsupported_provider provider =>
                inr ("tool " +:+ tool_id tool +:+ " declares unsupported identity provider " +:+ qq +:+ provider +:+ qq)
            | lc_read_only_refused _ => inr (readOnlyGitHubRefusal (tool_id tool))
            | lc_resolved secretEnv => inl secretEnv
            end)
  end.

(** ** A turn of an agent *)

Definition composeAgentTurnMessage (reply : AgentTurnResult) : string :=
  if live then dropStreamedNarrative (tr_message reply) else tr_message reply.

Definition agentAwaitReplyIdleTimeoutMs : option Z :=
  match gd_agentIdleTimeoutSeconds deps with
  | Some seconds => if bool_decide (seconds = 0) then None else Some (seconds * 1000)
  | None => None
  end.

Definition subAgentApprovalTimeoutMs (agent : AgentDescriptor) : Z :=
  (agent_approvalTimeoutSeconds agent ?? gd_subAgentApprovalTimeoutSeconds deps ?? DEFAULT_SUBAGENT_APPROVAL_TIMEOUT_SECONDS) * 1000.

Definition subAgentApprovalPause (identity : option Identity) (agent : AgentDescriptor) (runId callId tool input : string)
    (expiresAt : Z) : list Update :=
  [u_agentRunId (Some runId); u_subAgentApprovalWaiting true;
   u_subAgentApprovalPending (Some (mkSubAgentApproval runId callId tool input (agent_id agent)
                                      ((id_subject <$> identity) ?? EmptyString) expiresAt));
   u_text (approvalPrompt tool)].

Definition resumableAgentTurnOutcome (agentRunId : string) : list Update :=
  [u_agentResumePending true;
   u_text ("⏳ Still working — I lost my connection to agent run `" +:+ agentRunId +:+ "`, not the run itself. " +:+
           "It's still going (or already finished) and is holding its answer for me. " +:+
           (if live then "Send any message and I'll pick up its reply where this left off."
            else "Re-apply the label and I'll pick up its reply where this left off."))].

(** The keys of a turn that got a reply. *)
Definition reply_updates (agent : AgentDescriptor) (reply : AgentTurnResult) : list Update :=
  [u_agentAwaitingReply (negb (tr_final reply)); u_text (composeAgentTurnMessage reply)] ++
  u_when (tr_final reply)
    [u_extractedAgentContinuation (Some (agent_id agent, match tr_result reply with
                                                         | Some (JStr token) => token
                                                         | _ => EmptyString
                                                         end))].

Definition on_progress : option (option string -> string -> SM W string unit) :=
  if live || bool_decide (is_Some (in_remoteControlUrlListener inp)) then
    Some (fun stage message =>
            do! _ <- when_some (in_progressListener inp) (fun tell => tell (stage ?? "agent") (Some message)) ;;
            if bool_decide (stage = Some "remote-control-url") && negb (str_empty message)
            then when_some (in_remoteControlUrlListener inp) (fun tell => tell message)
            else sret tt)
  else None.

(** [awaitAgentReply]: the options of the wait, and the subscription. *)
Definition await_options (idleTimeoutMs : option Z)
    (onToolCall : option (string -> string -> string -> SM W string (option SubAgentApprovalCall))) (approvalNeeded : bool) :
    AwaitReplyOptions W :=
  mkAwaitReply idleTimeoutMs on_progress onToolCall approvalNeeded
    (bool_decide (is_Some (gd_agentRunLauncher deps ≫= arl_whenFailed))).

Definition awaitAgentReply (channel : AgentOrchestratorChannel W) (runId namespace : string) (opts : AwaitReplyOptions W) :
    SM W string unit :=
  do! _ <- when_some (gd_agentRunLauncher deps ≫= arl_whenFailed) (fun whenFailed => whenFailed runId namespace) ;;
  ac_awaitReply channel runId opts.

(** Awaiting the reply; the watch of the run stops either way. *)
Definition collect_reply (channel : AgentOrchestratorChannel W) (runId : string) (opts : AwaitReplyOptions W) :
    SM W TurnFailure AgentTurnResult := fun w =>
  let '(outcome, w1) := ac_reply channel runId opts w in
  let w2 := match gd_agentRunLauncher deps with
            | Some launcher => (arl_stop launcher runId w1).2
            | None => w1
            end in
  (outcome, w2).

(** The handler of the calls of an agent's run. *)
Definition tool_call_handler (channel : AgentOrchestratorChannel W) (state : AgentState) (runId : string) (agent : AgentDescriptor) :
    string -> string -> string -> SM W string (option SubAgentApprovalCall) :=
  makeSubAgentToolCallHandler (gd_dispatch deps) runId agent (ac_resolveToolCall channel) (gd_toolCatalog deps)
    (mkHandlerOptions (in_sessionId inp) (id_subject <$> s_identity state) true (Some (subAgentApprovalTimeoutMs agent))
       (in_turnReadOnly inp)).

(** ** A credential that expired during a run *)

Definition report_link (provider subject : string) : SM W string unit :=
  when_some (in_reportIdentityLinkPending inp) (fun report => report provider subject).

Definition startReplacementLink (gateway : IdentityLinkPort W) (state : AgentState) (provider agentId subject : string) :
    SM W string (option (list Update)) :=
  match s_identity state with
  | None => sret None
  | Some who =>
      let flow := in_identityLinkFlow inp ?? flow_authcode in
      do! page <- page_start_of (id_subject who) [provider] flow ;;
      do! started <- (match page with
                      | Some pageUrl => sret (Some (IdentityLinkPageStart pageUrl CONNECTIONS_LINK_TTL_SECONDS))
                      | None => scatch (do! s <- port_start gateway provider subject flow ;; sret (Some s)) (fun _ => sret None)
                      end) ;;
      match started with
      | None => sret None
      | Some s =>
          do! _ <- report_link provider subject ;;
          let label := provider_label provider in
          fun w =>
          (Ok (Some [u_text ("⚠️ Your linked " +:+ label +:+ " account's credential expired, so this request couldn't complete. " +:+
                             "To finish it, please " +:+ linkPromptText s label +:+
                             " — I'll pick this request back up automatically as soon as you do.");
                     u_pendingIdentityLink (Some (mkPending agentId provider (started_flow s) (started_device s)
                                                    (now w + start_expires s * 1000) subject (s_request state)));
                     u_identityLinkPending true]), w)
      end
  end.

(** The provider whose stored credential a failure code refers to, among those
    that the agent declares. *)
Definition expired_provider (code : string) (declaredProviders : option (list string)) : option string :=
  match obj_get code AUTH_EXPIRED_CODE_PROVIDER with
  | Own mapped => Some (match declaredProviders with
                        | None => mapped
                        | Some declared => if has declared mapped then mapped else hd mapped declared
                        end)
  | Inherited => Some (match declaredProviders with
                       | None => inherited_text code
                       | Some declared => hd (inherited_text code) declared
                       end)
  | Absent => None
  end.

Definition crossEntryPoint (provider : string) : bool := isCrossEntryPoint (gd_authorization deps) provider.

Definition expired_text (label : string) : string :=
  "⚠️ Your linked " +:+ label +:+ " account's credential looks expired or invalid, so this request couldn't complete. ".

Definition handleAgentTurnFailure (err : TurnFailure) (state : AgentState) (agent : AgentDescriptor) : SM W string (list Update) :=
  let plain := sret [u_fail (agentTurnErrorMessage err)] in
  match err, s_identity state with
  | turn_error (AgentTurnFailedError code _), Some who =>
      match (if str_empty code then None else expired_provider code (agent_identityProviders agent)) with
      | None => plain
      | Some provider =>
          match identityGatewayFor provider with
          | None => plain
          | Some gateway =>
              let staleSubject := if crossEntryPoint provider then id_principal who ?? id_subject who else id_subject who in
              do! invalidated <- (match port_invalidate gateway with
                                  | None => sret true
                                  | Some invalidate =>
                                      scatch (do! _ <- invalidate provider staleSubject ;; sret true) (fun _ => sret false)
                                  end) ;;
              let label := provider_label provider in
              if negb invalidated then
                sret [u_text (expired_text label +:+
                              "I also couldn't clear the stored credential, so retrying will hit the same error until it's cleared by hand.")]
              else
                do! relink <- startReplacementLink gateway state provider (agent_id agent) staleSubject ;;
                match relink with
                | Some us => sret us
                | None =>
                    sret [u_text (expired_text label +:+
                                  (if live then "Send your request again and I'll walk you through relinking it."
                                   else "Re-apply the label to try again and I'll post a link for relinking it."))]
                end
          end
      end
  | _, _ => plain
  end.

(** ** Plain answers and fallback tools *)

Definition top_k (k : option Z) : Z := k ?? 3.

Definition planFallbackToolCall (state : AgentState) (tools : list Tool) : SM W string (option (Tool * string * option string)) :=
  match tools with
  | [] => sret None
  | _ =>
      let syntheticSkill :=
        mkSkillDescriptor (mkSkill "__fallback_tool__" "Fallback tool selection" EmptyString FALLBACK_TOOL_MARKDOWN
                             (tool_id <$> tools) []) None in
      do! planned <- gd_actionPlanner deps (s_request state) syntheticSkill tools []
                       (mkPlanOptions (in_callerToolChoiceRequired inp) false) ;;
      sret (match planned with
            | plan_call_tool toolId toolArgs toolInstanceKey =>
                (fun tool => (tool, toolArgs, if_set toolInstanceKey)) <$>
                List.find (fun t => bool_decide (tool_id t = toolId)) tools
            | _ => None
            end)
  end.

(** The candidates that pass the fit check. *)
Definition fitting (request : string) (candidates : list ToolSearchResult) : SM W string (list ToolSearchResult) :=
  do! fitFlags <- promise_all ((fun c : ToolSearchResult => gd_toolFitChecker deps request c.1) <$> candidates) ;;
  sret ((List.filter snd (zip candidates fitFlags)).*1).

Definition query_tools (request : string) (who : Identity) : SM W string (list ToolSearchResult) :=
  store_query (gd_vectorStore deps) request (id_roles who) (top_k (gd_fallbackToolTopK deps)).

Definition selectFallbackTool (state : AgentState) : SM W string (option (Tool * string * option string)) :=
  match s_identity state with
  | None => sret None
  | Some who =>
      do! candidates <- query_tools (s_request state) who ;;
      match candidates, in_callerTools inp with
      | [], [] => sret None
      | _, callerTools =>
          do! fit <- fitting (s_request state) candidates ;;
          planFallbackToolCall state (fit.*1 ++ callerTools)
      end
  end.

Definition hasOutOfScopeToolMatch (state : AgentState) (skill : SkillDescriptor) : SM W string bool :=
  match s_identity state with
  | None => sret false
  | Some who =>
      do! candidates <- query_tools (s_request state) who ;;
      let outOfScope := List.filter (fun c : ToolSearchResult => negb (has (skill_toolIds skill) (tool_id c.1))) candidates in
      match outOfScope with
      | [] => sret false
      | _ =>
          do! fitFlags <- promise_all ((fun c : ToolSearchResult => gd_toolFitChecker deps (s_request state) c.1) <$> outOfScope) ;;
          sret (existsb (fun b => b) fitFlags)
      end
  end.

Definition callBestEffort (state : AgentState) : SM W string string :=
  gd_bestEffortResponder deps (s_request state)
    ((fun (tell : Listener W) (delta : string) => tell "agent-text" (Some delta)) <$> in_progressListener inp).

Definition noMatchFallback (state : AgentState) : SM W string (list Update) :=
  do! toolFallback <- selectFallbackTool state ;;
  match toolFallback with
  | Some (tool, toolArgs, toolInstanceKey) =>
      sret [u_selectedTool (Some tool); u_toolArgs (Some toolArgs); u_toolInstanceKey toolInstanceKey; u_wasFallback true]
  | None =>
      do! response <- callBestEffort state ;;
      sret [u_text (if live then SELF_IMPROVEMENT_FOOTER else appendSelfImprovementSuggestion response); u_wasFallback true]
  end.

(** ** The nodes: the caller, and what the turn continues *)

Definition node_resolveIdentity (state : AgentState) : SM W string (list Update) :=
  do! resolved <- resolveIdentity (gd_forwardedUserIdentityResolver deps) (gd_identityResolver deps)
                    (gw_identityLink (ad_gateways (gd_authorization deps)))
                    (in_forwardedUserToken inp) (in_authToken inp) (in_senderLogin inp) ;;
  sret (match resolved with
        | Err e => [u_fail e]
        | Ok who => [u_identity (Some who)]
        end).

(** The message of a trigger whose target is not there. *)
Definition trigger_miss (what id why : string) : Update :=
  u_fail ((if truthy_str (in_triggerName inp) then "event trigger " +:+ (in_triggerName inp ?? EmptyString) else "event trigger") +:+
          ": " +:+ what +:+ " " +:+ qq +:+ id +:+ qq +:+ why).

Definition NOT_AVAILABLE : string := " does not exist or is not available to this caller".

Definition node_checkEventTrigger (state : AgentState) : SM W string (list Update) :=
  match s_identity state with
  | None => sret []
  | Some who =>
      if truthy_str (in_forcedSkillId inp) then
        let id := in_forcedSkillId inp ?? EmptyString in
        do! found <- store_getByIds (gd_skillStore deps) [id] (id_roles who) ;;
        sret (match found with
              | [] => [trigger_miss "skill" id NOT_AVAILABLE]
              | skill :: _ => [u_selectedSkill (Some skill)]
              end)
      else if truthy_str (in_forcedAgentId inp) then
        let id := in_forcedAgentId inp ?? EmptyString in
        match gd_agentStore deps with
        | None => sret [trigger_miss "agent" id " cannot be dispatched -- agent delegation is not configured"]
        | Some agentStore =>
            do! found <- store_getByIds agentStore [id] (id_roles who) ;;
            sret (match found with
                  | [] => [trigger_miss "agent" id NOT_AVAILABLE]
                  | (agent, _) :: _ => [u_selectedAgent (Some agent)]
                  end)
        end
      else if truthy_str (in_forcedToolId inp) then
        let id := in_forcedToolId inp ?? EmptyString in
        do! found <- store_getByIds (gd_vectorStore deps) [id] (id_roles who) ;;
        sret (match found with
              | [] => [trigger_miss "tool" id NOT_AVAILABLE]
              | (tool, _) :: _ => [u_selectedTool (Some tool); u_toolArgs (Some (in_toolInput inp ?? EmptyString))]
              end)
      else sret []
  end.

(** The session is the caller's. *)
Definition own_session (who : Identity) : bool := bool_decide (in_sessionSubject inp = Some (id_subject who)).

Definition node_checkActiveSkill (state : AgentState) : SM W string (list Update) :=
  match s_identity state with
  | Some who =>
      if negb (truthy_str (in_activeSkillId inp)) || negb (own_session who) then sret []
      else
        do! found <- store_getByIds (gd_skillStore deps) [in_activeSkillId inp ?? EmptyString] (id_roles who) ;;
        match found with
        | [] => sret []
        | skill :: _ =>
            do! fits <- gd_skillFitChecker deps (s_request state) skill ;;
            if negb fits then sret []
            else
              do! outOfScope <- hasOutOfScopeToolMatch state skill ;;
              sret (u_when (negb outOfScope) [u_selectedSkill (Some skill)])
        end
  | None => sret []
  end.

Definition node_checkPendingApproval (state : AgentState) : SM W string (list Update) :=
  match s_identity state, s_approvalPending state with
  | Some who, Some pending =>
      if negb (own_session who) || negb (bool_decide (ap_subject pending ?? id_subject who = id_subject who)) then sret []
      else
        let resumed := u_opt (ap_skill pending) (fun skill => u_selectedSkill (Some skill)) ++
                       u_opt (ap_skillTools pending) u_skillTools in
        sret (match parseApprovalDecision (Some (s_request state)) with
              | decision_ambiguous =>
                  [u_approvalPending (Some pending); u_approvalWaiting true; u_text (approvalPrompt (ap_toolId pending))]
              | decision_deny =>
                  [u_approvalPending None; u_text APPROVAL_DENIED_MESSAGE;
                   u_history state (ap_toolId pending) (ap_toolArgs pending ?? EmptyString) (Some APPROVAL_DENIED_MESSAGE)] ++ resumed
              | decision_approve =>
                  [u_approvalPending None; u_approvalGranted true; u_selectedTool (Some (ap_tool pending))] ++
                  u_opt (ap_toolArgs pending) (fun args => u_toolArgs (Some args)) ++
                  u_opt (ap_instanceKey pending) (fun key => u_toolInstanceKey (Some key)) ++ resumed
              end)
  | _, _ => sret []
  end.

(** The call that a sub-agent's approved pause runs. *)
Definition approved_dispatch (who : Identity) (pending : SubAgentApprovalPending) : SM W string ToolCallOutcome :=
  match catalog_find (gd_toolCatalog deps) (sap_tool pending) with
  | None => sret (inr (not_in_catalog (sap_tool pending)))
  | Some tool =>
      scatch (dispatchResolvedTool (gd_dispatch deps) tool (sap_input pending)
                (mkDispatchOptions (in_sessionId inp) (Some (id_subject who)) None true (in_turnReadOnly inp)))
        (fun e => sret (inr e))
  end.

Definition node_checkPendingSubAgentApproval (state : AgentState) : SM W string (list Update) :=
  match s_identity state, s_subAgentApprovalPending state, gd_agentChannel deps ≫= ac_resolveToolCall with
  | Some who, Some pending, Some resolveToolCall =>
      if negb (own_session who) || negb (bool_decide (sap_subject pending = id_subject who)) then sret []
      else
        let answered :=
          [u_subAgentApprovalPending None; u_activeAgentId (Some (sap_agentId pending));
           u_activeAgentRunId (Some (sap_runId pending)); u_activeAgentRunAwaitingReply true] in
        match parseApprovalDecision (Some (s_request state)) with
        | decision_ambiguous =>
            sret [u_subAgentApprovalPending (Some pending); u_subAgentApprovalWaiting true; u_text (approvalPrompt (sap_tool pending))]
        | decision_deny =>
            do! _ <- resolveToolCall (sap_runId pending) (sap_callId pending)
                       (inr (APPROVAL_DENIED_CODE +:+ ": " +:+ APPROVAL_DENIED_MESSAGE)) ;;
            sret answered
        | decision_approve =>
            do! outcome <- approved_dispatch who pending ;;
            do! _ <- resolveToolCall (sap_runId pending) (sap_callId pending) outcome ;;
            sret answered
        end
  | _, _, _ => sret []
  end.

(** Where a pending link stands. *)
Definition link_status (gateway : IdentityLinkPort W) (pending : PendingIdentityLink) : SM W string IdentityLinkPollStatus :=
  if bool_decide (pl_flow pending = "device")
  then port_poll gateway (pl_provider pending) (pl_subject pending) (pl_deviceCode pending ?? EmptyString)
  else
    do! token <- port_getToken gateway (pl_provider pending) (pl_subject pending) ;;
    fun w => (Ok (match token with
                  | Some _ => poll_complete
                  | None => if now w <? pl_expiresAt pending then poll_pending else poll_expired
                  end), w).

Definition still_waiting (pending : PendingIdentityLink) : list Update :=
  let label := provider_label (pl_provider pending) in
  [u_identityLinkPending true;
   u_text ("Still waiting for you to authorize " +:+ label +:+
           (if bool_decide (pl_flow pending = "device")
            then " access. Visit the link and enter the code you were given, then send any message to continue."
            else " access. Visit the link and complete it in your browser, then send any message to continue."))].

Definition node_checkPendingIdentityLink (state : AgentState) : SM W string (list Update) :=
  match s_identity state, s_pendingIdentityLink state with
  | Some who, Some pending =>
      if negb (own_session who) then sret []
      else
        match identityGatewayFor (pl_provider pending), gd_agentStore deps with
        | Some gateway, Some agentStore =>
            do! status <- link_status gateway pending ;;
            match status with
            | poll_pending => fun w =>
                (Ok (if now w <? pl_expiresAt pending then still_waiting pending else [u_pendingIdentityLink None]), w)
            | poll_expired | poll_denied => sret [u_pendingIdentityLink None]
            | poll_complete =>
                do! found <- store_getByIds agentStore [pl_agentId pending] (id_roles who) ;;
                sret (match found with
                      | [] => [u_pendingIdentityLink None]
                      | (agent, _) :: _ =>
                          [u_selectedAgent (Some agent); u_pendingIdentityLink None; u_request (pl_request pending)]
                      end)
            end
        | _, _ => sret []
        end
  | _, _ => sret []
  end.

(** *** The agent run that the conversation is in *)

Definition clear_anchor : SM W string unit :=
  if truthy_str (in_sessionId inp)
  then when_some (gd_clearAgentRunAwaitingReply deps) (fun clear => clear (in_sessionId inp ?? EmptyString))
  else sret tt.

(** The reply of the run, if the store holds it. *)
Definition recorded_reply (channel : AgentOrchestratorChannel W) (runId : string) : SM W string (option AgentTurnResult) :=
  match ac_recordedReply channel with
  | None => sret None
  | Some recordedReply => scatch (recordedReply runId) (fun _ => sret None)
  end.

Definition run_ids (agent : AgentDescriptor) (runId : string) : list Update :=
  [u_selectedAgent (Some agent); u_agentRunId (Some runId)].

Definition unreachable_text (runId : string) : string :=
  "⚠️ Agent run `" +:+ runId +:+ "` is no longer reachable, so I couldn't recover the reply it was " +:+
  "working on. The run itself may well have completed — check it directly before re-running the request.".

(** The catch of a continued turn. *)
Definition continued_failure (state : AgentState) (agent : AgentDescriptor) (runId : string) (err : TurnFailure) :
    SM W string (list Update) :=
  match err with
  | turn_error (AgentTurnApprovalPendingError callId tool input expiresAt) =>
      sret (subAgentApprovalPause (s_identity state) agent runId callId tool input expiresAt)
  | turn_error (AgentTurnTransportError _) =>
      sret ([u_agentRunId (Some runId); u_selectedAgent (Some agent)] ++ resumableAgentTurnOutcome runId)
  | _ =>
      let silent := match err with
                    | turn_error (AgentTurnTimeoutError _) => s_activeAgentRunAwaitingReply state
                    | _ => false
                    end in
      if silent then
        do! _ <- clear_anchor ;;
        sret ([u_agentRunId (Some runId); u_selectedAgent (Some agent); u_text (unreachable_text runId)])
      else
        do! us <- handleAgentTurnFailure err state agent ;;
        sret (u_agentRunId (Some runId) :: us)
  end.

(** The wait for the run's next reply: a turn that it does not owe sends its
    text first. *)
Definition continue_run (channel : AgentOrchestratorChannel W) (state : AgentState) (agent : AgentDescriptor) (runId : string) :
    SM W string (list Update) :=
  let opts := await_options (if s_activeAgentRunAwaitingReply state then Some REATTACH_IDLE_TIMEOUT_MS
                             else agentAwaitReplyIdleTimeoutMs)
                (Some (tool_call_handler channel state runId agent)) true in
  shandle
    (do! _ <- with_errors other_error (awaitAgentReply channel runId (at_namespace (agent_agentRunTemplate agent)) opts) ;;
     do! _ <- (if s_activeAgentRunAwaitingReply state then sret tt
               else with_errors other_error (ac_sendPrompt channel runId (s_request state))) ;;
     do! reply <- collect_reply channel runId opts ;;
     sret (run_ids agent runId ++ reply_updates agent reply))
    (continued_failure state agent runId).

Definition node_checkActiveAgentRun (state : AgentState) : SM W string (list Update) :=
  match s_selectedSkill state, gd_agentStore deps, gd_agentChannel deps, s_identity state with
  | None, Some agentStore, Some channel, Some who =>
      let runId := s_activeAgentRunId state ?? EmptyString in
      let agentId := s_activeAgentId state ?? EmptyString in
      if str_empty runId || str_empty agentId || negb (own_session who) then sret []
      else
        do! found <- store_getByIds agentStore [agentId] (id_roles who) ;;
        match found with
        | [] => sret []
        | (agent, _) :: _ =>
            if in_turnReadOnly inp && negb (in_activeAgentRunReadOnly inp) && negb (s_activeAgentRunAwaitingReply state)
            then sret [u_fail ("a writable " +:+ agentId +:+
                               " episode is already active in this conversation; a read-only turn cannot be forwarded into it")]
            else
              do! recorded <- (if s_activeAgentRunAwaitingReply state then recorded_reply channel runId else sret None) ;;
              match recorded with
              | Some reply =>
                  do! _ <- ignoring clear_anchor ;;
                  do! _ <- ignoring (when_some (ac_forgetRecordedReply channel) (fun forget => forget runId)) ;;
                  sret (run_ids agent runId ++ reply_updates agent reply)
              | None => continue_run channel state agent runId
              end
        end
  | _, _, _, _ => sret []
  end.

(** ** The nodes: retrieval and selection *)

Definition node_checkNeedsCapability (state : AgentState) : SM W string (list Update) :=
  do! needsCapability <- gd_capabilityNeedChecker deps (s_request state) ;;
  sret [u_needsCapability needsCapability].

Definition node_bareAnswer (state : AgentState) : SM W string (list Update) :=
  do! response <- callBestEffort state ;;
  sret [u_text (if live then EmptyString else response)].

Definition node_retrieveSkills (state : AgentState) : SM W string (list Update) :=
  match s_identity state with
  | None => sret [u_skillCandidates []]
  | Some who =>
      do! skillCandidates <- store_query (gd_skillStore deps) (s_request state) (id_roles who) (top_k (gd_skillTopK deps)) ;;
      sret [u_skillCandidates skillCandidates]
  end.

Definition node_retrieveAgents (state : AgentState) : SM W string (list Update) :=
  match gd_agentStore deps, s_identity state with
  | Some agentStore, Some who =>
      do! agentCandidates <- store_query agentStore (s_request state) (id_roles who) (top_k (gd_agentTopK deps)) ;;
      sret [u_agentCandidates agentCandidates]
  | _, _ => sret [u_agentCandidates []]
  end.

Definition node_retrieveTools (state : AgentState) : SM W string (list Update) :=
  match gd_delegateSelector deps, s_identity state with
  | Some _, Some who =>
      do! candidates <- query_tools (s_request state) who ;;
      match candidates with
      | [] => sret [u_toolCandidates []]
      | _ => do! fit <- fitting (s_request state) candidates ;; sret [u_toolCandidates fit]
      end
  | _, _ => sret [u_toolCandidates []]
  end.

(** The updates of a delegate that was chosen. *)
Definition take_choice (state : AgentState) (choice : DelegateChoice) : SM W string (list Update) :=
  match choice with
  | choice_agent agent => sret [u_selectedAgent (Some agent)]
  | choice_skill skill => sret [u_selectedSkill (Some skill)]
  | choice_tool tool =>
      do! planned <- planFallbackToolCall state (tool :: in_callerTools inp) ;;
      match planned with
      | None => noMatchFallback state
      | Some (called, toolArgs, toolInstanceKey) =>
          sret ([u_selectedTool (Some called); u_toolArgs (Some toolArgs)] ++
                u_opt toolInstanceKey (fun key => u_toolInstanceKey (Some key)))
      end
  end.

Definition node_selectDelegate (state : AgentState) : SM W string (list Update) :=
  match gd_delegateSelector deps with
  | Some select =>
      match s_skillCandidates state, s_agentCandidates state, s_toolCandidates state, in_callerTools inp with
      | [], [], [], [] => noMatchFallback state
      | skills, agents, tools, _ =>
          do! choice <- select (s_request state) skills agents tools ;;
          match choice with
          | None => noMatchFallback state
          | Some c => take_choice state c
          end
      end
  | None =>
      match s_skillCandidates state with
      | [] => noMatchFallback state
      | skills =>
          do! selected <- gd_skillSelector deps (s_request state) skills ;;
          match selected with
          | None => noMatchFallback state
          | Some skill => sret [u_selectedSkill (Some skill)]
          end
      end
  end.

(** ** The launch of an agent *)

(** The verdict on the launch. *)
Definition preflight (state : AgentState) (who : Identity) (agent : AgentDescriptor) : SM W string AuthorizationOutcome :=
  authorize parse_url url_pathname set_pathname searchParams_set url_toString now sleep number_text (gd_authorization deps)
    (mkAuthorizationRequest (agent_id agent) (agent_identityProviders agent) who (s_request state) (in_senderLogin inp)
       ((fun (tell : Listener W) (stage message : string) => tell stage (Some message)) <$> in_progressListener inp)
       (in_reportIdentityLinkPending inp) (in_identityLinkFlow inp) (in_turnReadOnly inp)).

(** The caller, under the principal that the pre-flight established. *)
Definition adopted (who : Identity) (principal : string) : Identity :=
  if str_empty principal || bool_decide (id_principal who = Some principal) then who else with_principal who principal.

Definition prior_goal (agent : AgentDescriptor) (request : string) : string :=
  let priorToken := in_agentContinuations inp ≫= map_get (agent_id agent) in
  if truthy_str priorToken then prependContinuationToken (priorToken ?? EmptyString) request else request.

Definition nats_url : option string := if_set (dd_natsUrl (gd_dispatch deps)).

Definition launch_options (goal jobId runId : string) (secretRef : SecretKeySelector)
    (secretEnv : option (list CredentialEnvEntry)) (ownedSecretNames : option (list string)) (params : option (jsmap string)) :
    AgentLaunchOptions :=
  mkAgentLaunch goal (callback_url (dd_callbackBaseUrl (gd_dispatch deps) ?? "undefined") jobId) secretRef
    nats_url ((fun _ => callback_subject runId) <$> nats_url) (ad_agentRunTimeoutSeconds (gd_authorization deps)) secretEnv
    ownedSecretNames (if_set (in_sessionId inp)) (in_turnReadOnly inp) params.

(** The anchor of the run, written before it exists. *)
Definition mark_anchor (subject agentId runId : string) : SM W string unit :=
  if truthy_str (in_sessionId inp)
  then when_some (gd_markAgentRunAwaitingReply deps)
         (fun mark => ignoring (mark (in_sessionId inp ?? EmptyString) subject agentId runId (in_turnReadOnly inp)))
  else sret tt.

(** The launch and the reply of a new run; a launch that fails takes its anchor
    with it. *)
Definition launch_and_wait (launcher : AgentRunLauncherPort W) (channel : AgentOrchestratorChannel W) (state : AgentState)
    (agent : AgentDescriptor) (identity : Identity) (runId : string) (launch : AgentLaunchOptions) :
    SM W TurnFailure (list Update) :=
  let opts := await_options agentAwaitReplyIdleTimeoutMs (Some (tool_call_handler channel state runId agent)) true in
  do! _ <- with_errors other_error (awaitAgentReply channel runId (at_namespace (agent_agentRunTemplate agent)) opts) ;;
  do! _ <- with_errors other_error (mark_anchor (id_subject identity) (agent_id agent) runId) ;;
  do! _ <- shandle (arl_launch launcher (agent_agentRunTemplate agent) runId launch)
             (fun launchErr => do! _ <- with_errors other_error (ignoring clear_anchor) ;; sthrow (other_error launchErr)) ;;
  do! reply <- collect_reply channel runId opts ;;
  sret ([u_agentRunId (Some runId); u_identity (Some identity)] ++ reply_updates agent reply).

(** The catch of a new run's turn. *)
Definition launched_failure (state : AgentState) (agent : AgentDescriptor) (identity : Identity) (runId : string) (err : TurnFailure) :
    SM W string (list Update) :=
  match err with
  | turn_error (AgentTurnApprovalPendingError callId tool input expiresAt) =>
      sret ([u_identity (Some identity); u_selectedAgent (Some agent)] ++
            subAgentApprovalPause (Some identity) agent runId callId tool input expiresAt)
  | turn_error (AgentTurnTransportError _) =>
      sret ([u_agentRunId (Some runId); u_identity (Some identity); u_selectedAgent (Some agent)] ++ resumableAgentTurnOutcome runId)
  | _ =>
      do! us <- handleAgentTurnFailure err (merge [u_identity (Some identity)] state) agent ;;
      sret ([u_agentRunId (Some runId); u_identity (Some identity)] ++ us)
  end.

Definition node_delegateToAgent (state : AgentState) : SM W string (list Update) :=
  match gd_agentRunLauncher deps, gd_agentChannel deps, gd_callbackSecretRef deps with
  | Some launcher, Some channel, Some secretRef =>
      match s_selectedAgent state, s_identity state with
      | Some agent, Some who =>
          do! verdict <- preflight state who agent ;;
          match verdict with
          | Misconfigured error => sret [u_fail error]
          | LinkRequired message pending =>
              sret (u_text message ::
                    u_opt pending (fun p => u_pendingIdentityLink (Some p)) ++
                    u_opt pending (fun _ => u_identityLinkPending true))
          | Authorized secretEnv _ principal ownedSecretNames =>
              let identity := adopted who principal in
              do! runId <- randomUUID ;;
              do! jobId <- randomUUID ;;
              let params := if bool_decide (in_forcedAgentId inp = Some (agent_id agent)) then in_params inp else None in
              shandle
                (launch_and_wait launcher channel state agent identity runId
                   (launch_options (prior_goal agent (s_request state)) jobId runId secretRef secretEnv ownedSecretNames params))
                (launched_failure state agent identity runId)
          end
      | _, _ => sret [u_fail "no agent selected"]
      end
  | _, _, _ => sret [u_fail "agent delegation is not configured"]
  end.
End Nodes.
