(* ===== verification/GraphTools.v ===== *)
(** * Agent orchestrator: the tool loop of the graph, and its edges

    The nodes loadSkillTools, planAction, runTool and composeResponse of
    apps/agent-orchestrator/src/agent/graph.ts with their helpers, the edges
    between the nodes, and a turn: the run of the compiled graph under its
    recursion limit. *)

From stdpp Require Import base gmap strings list.
From Stdlib Require Import ZArith Lia Ascii.
From S2P Require Import Prelude JsString JsNumber Json JsMap EventValues JsList KnowledgeBase KbCite KbSearcher KbLive.
From S2P Require Import IdentityLink Authorization Session AgentChannel Approval Catalog Planner Dispatch GraphState GraphNodes.

#[local] Open Scope Z_scope.

Definition MAX_TOOL_STEPS : nat := 8.
Definition GRAPH_RECURSION_LIMIT : nat := (MAX_TOOL_STEPS * 2 + 20)%nat.

(** ** The end of the plan loop *)

Definition last_call (state : AgentState) : option ToolCallRecord := last (s_actionHistory state).

Definition lastHistoryResult (state : AgentState) : list Update :=
  match s_result state, last_call state with
  | None, Some call => [u_result (JStr <$> tc_result call)]
  | _, _ => []
  end.

Definition respondResult (state : AgentState) (response : string) : string :=
  match s_pendingVerbatimResult state with
  | Some verbatim => verbatim
  | None =>
      match s_citationSources state, s_citationCaveats state with
      | [], [] => response
      | sources, caveats => finalizeCitations response sources caveats
      end
  end.

(** [sources.reduce((next, s) => Math.max(next, s.n + 1), 1)] *)
Definition nextCitation (state : AgentState) : Z := foldl (fun next s => Z.max next (cs_n s + 1)) 1 (s_citationSources state).

Definition find_tool (id : string) (tools : list Tool) : option Tool := List.find (fun t => bool_decide (tool_id t = id)) tools.

(** ** The arguments of a caller's tool *)

Section Arguments.
Variable JSON_parse : string -> option json.
Variable JSON_stringify : json -> string.

(** The canonical text of the arguments, or why they are not an object. *)
Definition callerToolArguments (toolArgs : option string) : string + string :=
  let raw := trim (toolArgs ?? EmptyString) in
  if str_empty raw then inl "{}"
  else
    match JSON_parse raw with
    | None => inr ("expected a JSON object, got " +:+ JSON_stringify (JStr (str_take 120 raw)))
    | Some (JObj fields) => inl (JSON_stringify (JObj fields))
    | Some _ => inr "expected a JSON object, got a non-object JSON value"
    end.
End Arguments.

Definition callerToolsFor (callerTools : list Tool) (skill : SkillDescriptor) : list Tool :=
  if bool_decide (skill_allowCallerTools skill = Some false) then [] else callerTools.

Section Tools.
Context {W Url : Type}.
Variable parse_url : string -> result string Url.
Variable url_pathname : Url -> string.
Variable set_pathname : string -> Url -> Url.
Variable searchParams_set : string -> string -> Url -> Url.
Variable url_toString : Url -> string.
Variable sleep : Z -> SM W string unit.
Variable number_text : Z -> string.
Variable inherited_text : string -> string.
Variable JSON_parse : string -> option json.
Variable JSON_stringify : json -> string.
Variable deps : AgentGraphDeps W.
Variable inp : TurnInput W.
Implicit Types state : AgentState.

#[local] Notation dispatch_deps := (gd_dispatch deps).
#[local] Notation link_gate := (knowledgeBaseLinkGate parse_url url_pathname set_pathname searchParams_set url_toString deps).
#[local] Notation enrich := (enrichKnowledgeBaseResult parse_url url_pathname set_pathname searchParams_set url_toString deps).

(** The last result is shown as it is, unless it is a knowledge base's: then the
    planner writes the answer from it, if it does. *)
Definition finishPlanLoop (state : AgentState) : SM W string (list Update) :=
  let verbatim := sret (u_plannedAction (Some planned_finish) :: lastHistoryResult state) in
  match (call ← last_call state; tool ← find_tool (tc_toolId call) (s_skillTools state); tool_knowledgeBaseExec tool),
        s_selectedSkill state with
  | Some _, Some skill =>
      scatch
        (do! planned <- gd_actionPlanner deps (s_request state) skill (s_skillTools state) (s_actionHistory state)
                          (mkPlanOptions false true) ;;
         match planned with
         | plan_respond response =>
             if str_empty (trim response) then verbatim
             else sret [u_text (respondResult state response); u_plannedAction (Some planned_respond)]
         | _ => verbatim
         end)
        (fun _ => verbatim)
  | _, _ => verbatim
  end.

(** ** The nodes *)

(** The tools that a skill names, with the caller's own and its agents. *)
Definition load_catalog (who : Identity) (skill : SkillDescriptor) (callerTools : list Tool)
    (agentResults : SM W string (list AgentSearchResult)) : SM W string (list Update) :=
  do! found <- promise_pair
                 (match skill_toolIds skill with
                  | [] => sret []
                  | toolIds => store_getByIds (gd_vectorStore deps) toolIds (id_roles who)
                  end) agentResults ;;
  let skillTools := found.1.*1 ++ callerTools ++ (agent_as_tool <$> found.2.*1) in
  sret (match skillTools with
        | [] => [u_fail "skill has no usable tools/agents for this caller"]
        | _ => [u_skillTools skillTools]
        end).

Definition node_loadSkillTools (state : AgentState) : SM W string (list Update) :=
  match s_selectedSkill state, s_identity state with
  | Some skill, Some who =>
      let callerTools := callerToolsFor (in_callerTools inp) skill in
      match skill_toolIds skill, skill_agentIds skill, gd_agentStore deps with
      | [], [], _ => sret [u_skillTools callerTools]
      | _, [], _ => load_catalog who skill callerTools (sret [])
      | _, _ :: _, None =>
          sret [u_fail ("skill " +:+ skill_id skill +:+ " declares agentRefs but agent delegation is not configured")]
      | _, agentIds, Some agentStore =>
          load_catalog who skill callerTools (store_getByIds agentStore agentIds (id_roles who))
      end
  | _, _ => sret [u_fail "no skill selected"]
  end.

(** The planned call repeats the last one. *)
Definition repeats (state : AgentState) (toolId toolArgs : string) : bool :=
  match last_call state with
  | Some call => bool_decide (tc_toolId call = toolId) && bool_decide (tc_toolArgs call = toolArgs)
  | None => false
  end.

Definition node_planAction (state : AgentState) : SM W string (list Update) :=
  match s_selectedSkill state with
  | None => sret [u_fail "no skill selected"]
  | Some skill =>
      if Nat.leb MAX_TOOL_STEPS (length (s_actionHistory state)) then finishPlanLoop state
      else
        do! planned <- gd_actionPlanner deps (s_request state) skill (s_skillTools state) (s_actionHistory state)
                         (mkPlanOptions (in_callerToolChoiceRequired inp) false) ;;
        match planned with
        | plan_finish => finishPlanLoop state
        | plan_respond response => sret [u_text (respondResult state response); u_plannedAction (Some planned_respond)]
        | plan_call_tool toolId toolArgs toolInstanceKey =>
            match find_tool toolId (s_skillTools state) with
            | None => sret [u_fail "planner selected a tool outside the skill's scope"]
            | Some tool =>
                if repeats state toolId toolArgs then finishPlanLoop state
                else
                  sret [u_selectedTool (Some tool); u_toolArgs (Some toolArgs); u_toolInstanceKey toolInstanceKey;
                        u_plannedAction (Some planned_call_tool); u_approvalGranted false]
            end
        end
  end.

(** *** runTool *)

Definition gated (state : AgentState) (tool : Tool) : bool :=
  negb (is_caller_tool tool) && negb (s_approvalGranted state) && requiresApproval (resolveApproval (tool_approval tool) None).

Definition approval_pause (state : AgentState) (tool : Tool) : list Update :=
  [u_approvalPending (Some (mkApprovalPending (tool_id tool) (s_toolArgs state) (s_toolInstanceKey state) tool
                              (s_selectedSkill state) (Some (s_skillTools state)) (id_subject <$> s_identity state)));
   u_approvalWaiting true; u_text (approvalPrompt (tool_id tool))].

(** A call that the caller's client runs. *)
Definition run_caller_tool (state : AgentState) (tool : Tool) (callerTool : CallerToolDescriptor) : SM W string (list Update) :=
  match callerToolArguments JSON_parse JSON_stringify (s_toolArgs state) with
  | inr error => sret [u_fail ("tool " +:+ tool_id tool +:+ " needs JSON arguments: " +:+ error)]
  | inl arguments =>
      do! _ <- when_some (in_progressListener inp)
                 (fun tell => tell "caller-tool" (Some ("Requesting " +:+ clr_name callerTool +:+ " from your client."))) ;;
      do! uuid <- dd_randomUUID dispatch_deps ;;
      sret [u_pendingToolCalls
              [mkPendingCall ("call_" +:+ str_filter (fun c => negb (Ascii.eqb c "-"%char)) uuid) (clr_name callerTool) arguments]]
  end.

(** What a call is made of, beside its tool. *)
Record ToolCall := mkToolCall {
  call_key : string;
  call_prior : option string;
  call_input : string
}.

Definition tool_call (state : AgentState) (tool : Tool) : ToolCall :=
  let rawInput := s_toolArgs state ?? s_request state in
  let continuationKey := resolveContinuationKey (tool_id tool) (s_toolInstanceKey state) (in_toolContinuations inp) in
  let priorToken := in_toolContinuations inp ≫= map_get continuationKey in
  mkToolCall continuationKey priorToken
    (if truthy_str priorToken then prependContinuationToken (priorToken ?? EmptyString) rawInput else rawInput).

(** The keys of a text a tool returned, its continuation marker taken off. *)
Definition surfaced (state : AgentState) (text : string) : string :=
  if s_wasFallback state then appendSelfImprovementSuggestion text else text.

(** The wait and the launch of an agent behind a tool. *)
Definition agent_tool_turn (launcher : AgentRunLauncherPort W) (channel : AgentOrchestratorChannel W) (secretRef : SecretKeySelector)
    (template : AgentRunTemplate) (call : ToolCall) (runId jobId : string) (secretEnv : option (list CredentialEnvEntry)) :
    SM W TurnFailure AgentTurnResult :=
  let opts := await_options deps inp (agentAwaitReplyIdleTimeoutMs deps) None false in
  do! _ <- with_errors other_error (awaitAgentReply deps channel runId (at_namespace template) opts) ;;
  do! _ <- with_errors other_error
             (arl_launch launcher template runId (launch_options deps inp (call_input call) jobId runId secretRef secretEnv None None)) ;;
  collect_reply deps channel runId opts.

Definition run_agent_tool (state : AgentState) (tool : Tool) (template : AgentRunTemplate) (call : ToolCall) :
    SM W string (list Update) :=
  match gd_agentRunLauncher deps, gd_agentChannel deps, gd_callbackSecretRef deps with
  | Some launcher, Some channel, Some secretRef =>
      do! gate <- resolveToolIdentitySecretEnv deps tool (s_identity state) (fun _ => "this agent") (in_turnReadOnly inp) ;;
      match gate with
      | inr error => sret [u_fail error]
      | inl secretEnv =>
          do! runId <- dd_randomUUID dispatch_deps ;;
          do! jobId <- dd_randomUUID dispatch_deps ;;
          shandle
            (do! reply <- agent_tool_turn launcher channel secretRef template call runId jobId secretEnv ;;
             if negb (tr_final reply) then
               sret [u_jobId (Some runId);
                     u_fail ("tool " +:+ tool_id tool +:+
                             " (agent-backed) requires a single-turn agent — got a non-final reply")]
             else
               let '(token, text) := extractContinuationToken (composeAgentTurnMessage inp reply) in
               sret [u_jobId (Some runId); u_text (surfaced state text);
                     u_extractedContinuation (Some (call_key call, token ?? EmptyString));
                     u_history state (tool_id tool) (call_input call) (Some text)])
            (fun err => sret [u_jobId (Some runId); u_fail (agentTurnErrorMessage err)])
      end
  | _, _, _ => sret [u_fail ("tool " +:+ tool_id tool +:+ " is agent-backed but agent delegation is not configured")]
  end.

Definition caller_of (who : Identity) : Caller := mkCaller (id_subject who) (id_roles who).

Definition requires_identity (tool : Tool) : list Update :=
  [u_fail ("tool " +:+ tool_id tool +:+ " requires a resolved caller identity")].

(** A live face of a corpus. *)
Definition run_live (port : option (LivePort W)) (does : string) (state : AgentState) (tool : Tool) (input : string) :
    SM W string (list Update) :=
  match port, s_identity state with
  | None, _ => sret [u_fail ("tool " +:+ tool_id tool +:+ " " +:+ does +:+ " a corpus but knowledge bases are not configured")]
  | Some _, None => sret (requires_identity tool)
  | Some call, Some who =>
      do! found <- call tool input (caller_of who) (nextCitation state) ;;
      do! text <- enrich (id_subject who) (lr_result found) (lr_linkProviders found) ;;
      sret [u_text text; u_citationSources (lr_sources found ?? []); u_pendingVerbatimResult None;
            u_history state (tool_id tool) input (Some text)]
  end.

(** The indexed search, with the gate before it. *)
Definition run_search (state : AgentState) (tool : Tool) (exec : KnowledgeBaseExecSpec) (input : string) : SM W string (list Update) :=
  match gd_knowledgeBaseSearcher deps, s_identity state with
  | None, _ =>
      sret [u_fail ("tool " +:+ tool_id tool +:+ " is a knowledge-base search but knowledge bases are not configured")]
  | Some _, None => sret (requires_identity tool)
  | Some searcher, Some who =>
      do! links <- (if bool_decide (in_activeSkillId inp = Some (knowledgeBaseSkillId (ex_knowledgeBaseId exec)))
                    then sret (mkLinkCheck [] [])
                    else kbs_checkLinks searcher tool (caller_of who)) ;;
      match lc_linkProviders links with
      | (_ :: _) as unlinked =>
          do! gate <- link_gate (id_subject who) (ex_displayName exec) (lc_linkedProviders links) unlinked ;;
          sret [u_text gate; u_linkGatePending true; u_history state (tool_id tool) input (Some gate)]
      | [] =>
          do! found <- kbs_search searcher tool input (caller_of who) (nextCitation state) ;;
          do! text <- enrich (id_subject who) (sr_result found) (sr_linkProviders found) ;;
          sret [u_text text; u_citationSources (sr_sources found ?? []); u_citationCaveats (sr_caveats found ?? []);
                u_pendingVerbatimResult None; u_history state (tool_id tool) input (Some text)]
      end
  end.

Definition run_knowledge_base (state : AgentState) (tool : Tool) (exec : KnowledgeBaseExecSpec) (input : string) :
    SM W string (list Update) :=
  match ex_operation exec with
  | op_read => run_live (gd_corpusReader deps) "reads" state tool input
  | op_lookup => run_live (gd_corpusLookup deps) "searches" state tool input
  | op_query => run_live (gd_corpusQuery deps) "queries" state tool input
  | op_search => run_search state tool exec input
  | operation =>
      sret [u_fail ("tool " +:+ tool_id tool +:+ " declares knowledge-base operation " +:+ qq +:+ operation_name operation +:+ qq +:+
                    ", which has no dispatch path")]
  end.

Definition run_mcp (state : AgentState) (tool : Tool) (input : string) : SM W string (list Update) :=
  match dd_mcpBrokerClient dispatch_deps, s_identity state with
  | None, _ => sret [u_fail ("tool " +:+ tool_id tool +:+ " is an MCP tool but the mcp-broker is not configured")]
  | Some _, None => sret (requires_identity tool)
  | Some call, Some who =>
      if in_turnReadOnly inp then
        let refusal := readOnlyMCPRefusal (tool_id tool) in
        sret (match s_selectedSkill state with
              | None => [u_fail refusal]
              | Some _ =>
                  [u_text refusal; u_pendingVerbatimResult None; u_history state (tool_id tool) input (Some refusal)]
              end)
      else
        do! called <- call tool input (id_subject who) ;;
        sret [u_text called; u_history state (tool_id tool) input (Some called)]
  end.

(** The keys of the event that ended a job. *)
Definition event_updates (state : AgentState) (tool : Tool) (call : ToolCall) (jobId : string) (event : Event) : list Update :=
  u_jobId (Some jobId) ::
  match event with
  | ev_failed _ code message => [u_fail ("tool failed (" +:+ code +:+ "): " +:+ message)]
  | ev_other _ _ => [u_result None]
  | ev_succeeded _ (Some (JStr body)) =>
      let '(token, text) := extractContinuationToken body in
      let shown := surfaced state text in
      [u_text shown;
       u_pendingVerbatimResult (if truthy_str (call_prior call) || truthy_str token then Some shown else None);
       u_extractedContinuation (Some (call_key call, token ?? EmptyString));
       u_history state (tool_id tool) (call_input call) (Some text)]
  | ev_succeeded _ value =>
      [u_result value; u_history state (tool_id tool) (call_input call) (JSON_stringify <$> value)]
  end.

Definition run_local (state : AgentState) (tool : Tool) (call : ToolCall) : SM W string (list Update) :=
  match dd_localToolExecutor dispatch_deps with
  | None => sret [u_fail ("tool " +:+ tool_id tool +:+ " is a LocalTool but local execution is not configured")]
  | Some run =>
      do! event <- run tool (call_input call) (in_sessionId inp) ;;
      sret (event_updates state tool call (ev_job_id event) event)
  end.

(** The options of a container's launch. *)
Definition job_options (jobId input : string) (secretEnv : option (list CredentialEnvEntry)) : LaunchOptions :=
  if truthy_str (dd_natsUrl dispatch_deps)
  then nats_launch (dd_natsUrl dispatch_deps ?? EmptyString) jobId input (in_sessionId inp) secretEnv (in_turnReadOnly inp)
  else http_launch (callback_url (dd_callbackBaseUrl dispatch_deps ?? "undefined") jobId) (dd_callbackSecret dispatch_deps) input
         (in_sessionId inp) secretEnv (in_turnReadOnly inp).

Definition job_error (tool : Tool) (err : JobError) : string :=
  match err with
  | JobTimeoutError message => "tool " +:+ tool_id tool +:+ " timed out: " +:+ message
  | JobOtherError message => "tool " +:+ tool_id tool +:+ " failed to launch: " +:+ message
  end.

(** The launch and the event, or the message of what went wrong. *)
Definition launch_job (tool : Tool) (template : JobTemplate) (opts : LaunchOptions) (jobId : string) : SM W string (Event + string) :=
  shandle
    (do! _ <- with_errors JobOtherError (dd_containerToolLauncher dispatch_deps template opts) ;;
     do! event <- jr_awaitJob (dd_jobResultReceiver dispatch_deps) jobId ;;
     sret (inl event))
    (fun err => sret (inr (job_error tool err))).

Definition run_job (state : AgentState) (tool : Tool) (template : JobTemplate) (call : ToolCall) : SM W string (list Update) :=
  do! gate <- (match tool_identityProviders tool with
               | Some (_ :: _) =>
                   resolveToolIdentitySecretEnv deps tool (s_identity state)
                     (fun provider => "an agent that uses " +:+ provider +:+ " identity linking") (in_turnReadOnly inp)
               | _ => sret (inl None)
               end) ;;
  match gate with
  | inr error => sret [u_fail error]
  | inl secretEnv =>
      let receiver := dd_jobResultReceiver dispatch_deps in
      do! jobId <- dd_randomUUID dispatch_deps ;;
      do! _ <- jr_subscribe receiver jobId ;;
      do! _ <- when_some (in_progressListener inp) (jr_onJobProgress receiver jobId) ;;
      do! outcome <- launch_job tool template (job_options jobId (call_input call) secretEnv) jobId ;;
      do! _ <- (if live inp then jr_unsubscribeProgress receiver jobId else sret tt) ;;
      sret (match outcome with
            | inl event => event_updates state tool call jobId event
            | inr error => [u_jobId (Some jobId); u_fail error]
            end)
  end.

(** The dispatch of a call, once its gate is passed. *)
Definition run_call (state : AgentState) (tool : Tool) (call : ToolCall) : SM W string (list Update) :=
  match tool_agentRunTemplate tool, tool_knowledgeBaseExec tool, tool_mcpExec tool, tool_localExec tool, tool_jobTemplate tool with
  | Some template, _, _, _, _ => run_agent_tool state tool template call
  | None, Some exec, _, _, _ => run_knowledge_base state tool exec (call_input call)
  | None, None, Some _, _, _ => run_mcp state tool (call_input call)
  | None, None, None, Some _, _ => run_local state tool call
  | None, None, None, None, Some template => run_job state tool template call
  | None, None, None, None, None => sret [u_fail (no_dispatch_path (tool_id tool))]
  end.

Definition node_runTool (state : AgentState) : SM W string (list Update) :=
  match s_selectedTool state with
  | None => sret [u_fail "no tool selected"]
  | Some tool =>
      if gated state tool then sret (approval_pause state tool)
      else
        match tool_callerTool tool with
        | Some callerTool => run_caller_tool state tool callerTool
        | None => run_call state tool (tool_call state tool)
        end
  end.

Definition node_composeResponse (state : AgentState) : SM W string (list Update) :=
  match s_selectedSkill state, s_selectedTool state, s_plannedAction state, s_result state with
  | Some skill, Some tool, Some planned_finish, Some (JStr text) =>
      do! narration <- gd_responseComposer deps (s_request state) skill tool text ;;
      sret (if negb (truthy_str (cn_prefix narration)) && negb (truthy_str (cn_suffix narration)) then []
            else [u_text ((cn_prefix narration ?? EmptyString) +:+ text +:+ (cn_suffix narration ?? EmptyString))])
  | _, _, _, _ => sret []
  end.

(** ** The edges *)

Inductive Node :=
| n_resolveIdentity | n_checkEventTrigger | n_checkPendingSubAgentApproval | n_checkPendingApproval | n_checkPendingIdentityLink
| n_checkActiveSkill | n_checkActiveAgentRun | n_checkNeedsCapability | n_bareAnswer | n_retrieveSkills | n_retrieveAgents
| n_retrieveTools | n_selectDelegate | n_delegateToAgent | n_loadSkillTools | n_planAction | n_runTool | n_composeResponse.

Definition node (n : Node) : AgentState -> SM W string (list Update) :=
  match n with
  | n_resolveIdentity => node_resolveIdentity deps inp
  | n_checkEventTrigger => node_checkEventTrigger deps inp
  | n_checkPendingSubAgentApproval => node_checkPendingSubAgentApproval deps inp
  | n_checkPendingApproval => node_checkPendingApproval inp
  | n_checkPendingIdentityLink => node_checkPendingIdentityLink deps inp
  | n_checkActiveSkill => node_checkActiveSkill deps inp
  | n_checkActiveAgentRun =>
      node_checkActiveAgentRun parse_url url_pathname set_pathname searchParams_set url_toString inherited_text deps inp
  | n_checkNeedsCapability => node_checkNeedsCapability deps
  | n_bareAnswer => node_bareAnswer deps inp
  | n_retrieveSkills => node_retrieveSkills deps
  | n_retrieveAgents => node_retrieveAgents deps
  | n_retrieveTools => node_retrieveTools deps
  | n_selectDelegate => node_selectDelegate deps inp
  | n_delegateToAgent =>
      node_delegateToAgent parse_url url_pathname set_pathname searchParams_set url_toString sleep number_text inherited_text deps inp
  | n_loadSkillTools => node_loadSkillTools
  | n_planAction => node_planAction
  | n_runTool => node_runTool
  | n_composeResponse => node_composeResponse
  end.

Definition failed (state : AgentState) : bool := truthy_str (s_error state).

(** A target that is already selected. *)
Definition target (state : AgentState) (otherwise : Node) : Node :=
  match s_selectedAgent state, s_selectedSkill state, s_selectedTool state with
  | Some _, _, _ => n_delegateToAgent
  | None, Some _, _ => n_loadSkillTools
  | None, None, Some _ => n_runTool
  | None, None, None => otherwise
  end.

Definition afterOrEnd (next : Node) (state : AgentState) : option Node := if failed state then None else Some next.

Definition route_checkEventTrigger (state : AgentState) : option Node :=
  if failed state then None
  else
    match s_subAgentApprovalPending state with
    | Some _ => Some n_checkPendingSubAgentApproval
    | None =>
        if s_activeAgentRunAwaitingReply state && truthy_str (s_activeAgentRunId state) then Some n_checkActiveAgentRun
        else Some (target state n_checkPendingApproval)
    end.

Definition route_checkPendingApproval (state : AgentState) : option Node :=
  if failed state then None
  else if s_approvalGranted state then Some n_runTool
  else if s_approvalWaiting state then None
  else
    match s_result state, s_selectedSkill state with
    | Some _, Some _ => Some n_planAction
    | Some _, None => None
    | None, _ => Some n_checkPendingIdentityLink
    end.

Definition route_checkPendingSubAgentApproval (state : AgentState) : option Node :=
  if failed state then None
  else if s_subAgentApprovalWaiting state then None
  else
    match s_subAgentApprovalPending state with
    | None => Some n_checkActiveAgentRun
    | Some _ => Some n_checkPendingApproval
    end.

Definition route_checkPendingIdentityLink (state : AgentState) : option Node :=
  if failed state then None
  else
    match s_selectedAgent state with
    | Some _ => Some n_delegateToAgent
    | None => if s_identityLinkPending state then None else Some n_checkActiveSkill
    end.

Definition route_checkActiveSkill (state : AgentState) : option Node :=
  if failed state then None
  else
    match s_selectedSkill state with
    | Some _ => Some n_loadSkillTools
    | None => Some n_checkActiveAgentRun
    end.

Definition route_checkActiveAgentRun (state : AgentState) : option Node :=
  if failed state || truthy_str (s_agentRunId state) then None else Some (target state n_checkNeedsCapability).

Definition route_selectDelegate (state : AgentState) : option Node :=
  if failed state then None
  else
    match s_selectedAgent state, s_selectedTool state, s_result state with
    | Some _, _, _ => Some n_delegateToAgent
    | None, Some _, _ => Some n_runTool
    | None, None, Some _ => None
    | None, None, None => Some n_loadSkillTools
    end.

Definition route_planAction (state : AgentState) : option Node :=
  if failed state then None
  else
    match s_plannedAction state with
    | Some planned_call_tool => Some n_runTool
    | Some planned_finish => Some n_composeResponse
    | _ => None
    end.

Definition route_runTool (state : AgentState) : option Node :=
  if failed state || negb (bool_decide (s_pendingToolCalls state = [])) then None
  else
    match s_approvalPending state with
    | Some _ => None
    | None =>
        if s_linkGatePending state then None
        else
          match s_result state, s_selectedSkill state with
          | None, _ => None
          | Some _, Some _ => Some n_planAction
          | Some _, None => Some n_composeResponse
          end
    end.

Definition route (n : Node) : AgentState -> option Node :=
  match n with
  | n_resolveIdentity => afterOrEnd n_checkEventTrigger
  | n_checkEventTrigger => route_checkEventTrigger
  | n_checkPendingSubAgentApproval => route_checkPendingSubAgentApproval
  | n_checkPendingApproval => route_checkPendingApproval
  | n_checkPendingIdentityLink => route_checkPendingIdentityLink
  | n_checkActiveSkill => route_checkActiveSkill
  | n_checkActiveAgentRun => route_checkActiveAgentRun
  | n_checkNeedsCapability => fun state =>
      if failed state then None else Some (if s_needsCapability state then n_retrieveSkills else n_bareAnswer)
  | n_bareAnswer | n_delegateToAgent | n_composeResponse => fun _ => None
  | n_retrieveSkills => afterOrEnd n_retrieveAgents
  | n_retrieveAgents => afterOrEnd n_retrieveTools
  | n_retrieveTools => afterOrEnd n_selectDelegate
  | n_selectDelegate => route_selectDelegate
  | n_loadSkillTools => afterOrEnd n_planAction
  | n_planAction => route_planAction
  | n_runTool => route_runTool
  end.

(** ** A turn *)

Inductive GraphError :=
| NodeError (message : string)
| GraphRecursionError.

(** The run of the graph from a node, of at most [limit] nodes. *)
Fixpoint run_from (limit : nat) (n : Node) (state : AgentState) : SM W GraphError AgentState :=
  match limit with
  | O => sthrow GraphRecursionError
  | S rest =>
      do! us <- with_errors NodeError (node n state) ;;
      let state' := merge us state in
      match route n state' with
      | None => sret state'
      | Some n' => run_from rest n' state'
      end
  end.

Definition invoke : AgentState -> SM W GraphError AgentState := run_from GRAPH_RECURSION_LIMIT n_resolveIdentity.
End Tools.
