(* ===== verification/GraphRun.v ===== *)
(** * Agent orchestrator: a turn ends

    The bound on the nodes of a turn: a measure that every edge of the graph of
    GraphTools.v decreases. *)

From stdpp Require Import base gmap strings list.
From Stdlib Require Import ZArith Lia.
From S2P Require Import Prelude JsString JsNumber Json JsMap EventValues JsList KnowledgeBase KbCite KbSearcher KbLive.
From S2P Require Import IdentityLink Authorization Session AgentChannel Approval Catalog Planner Dispatch GraphState GraphNodes GraphTools.

(** ** What a computation can yield *)

(** Every failure of [m] satisfies [Q]. *)
Definition fails_with {W E A : Type} (Q : E -> Prop) (m : SM W E A) : Prop := forall w e w', m w = (Err e, w') -> Q e.

Section Yields.
Context {W E E' A B : Type}.

Lemma yields_sret (P : A -> Prop) (a : A) : P a -> yields P (sret (W := W) (E := E) a).
Proof. by intros Ha w b w' [= <- _]. Qed.

Lemma yields_sthrow (P : A -> Prop) (e : E) : yields P (sthrow (W := W) (A := A) e).
Proof. by intros w b w' [=]. Qed.

Lemma yields_sbind (P : B -> Prop) (f : A -> SM W E B) (m : SM W E A) : (forall a, yields P (f a)) -> yields P (sbind f m).
Proof. intros Hf w b w' (a & w1 & _ & H)%sbind_Ok. by eapply Hf. Qed.

Lemma yields_scatch (P : A -> Prop) (m : SM W E A) (h : E -> SM W E A) :
  yields P m -> (forall e, yields P (h e)) -> yields P (scatch m h).
Proof.
  intros Hm Hh w a w' H. unfold scatch in H. destruct (m w) as [[b|e] w1] eqn:Hw; [|by eapply Hh].
  injection H as -> ->. by eapply Hm.
Qed.

Lemma yields_shandle (Q : E -> Prop) (P : A -> Prop) (m : SM W E A) (h : E -> SM W E' A) :
  fails_with Q m -> yields P m -> (forall e, Q e -> yields P (h e)) -> yields P (shandle m h).
Proof.
  intros HQ Hm Hh w a w' H. unfold shandle in H. destruct (m w) as [[b|e] w1] eqn:Hw.
  - injection H as -> ->. by eapply Hm.
  - eapply Hh; [|exact H]. by eapply HQ.
Qed.

Lemma yields_pure (P : A -> Prop) (g : W -> A) : (forall w, P (g w)) -> yields P (fun w => (Ok (E := E) (g w), w)).
Proof. by intros Hg w a w' [= <- _]. Qed.

Lemma fails_with_sbind (Q : E -> Prop) (f : A -> SM W E B) (m : SM W E A) :
  fails_with Q m -> (forall a, fails_with Q (f a)) -> fails_with Q (sbind f m).
Proof. intros Hm Hf w e w' [H|(a & w1 & _ & H)]%sbind_Err; [by eapply Hm|by eapply Hf]. Qed.

Lemma fails_with_sret (Q : E -> Prop) (a : A) : fails_with Q (sret (W := W) a).
Proof. by intros w e w' [=]. Qed.

Lemma fails_with_errors (Q : E' -> Prop) (f : E -> E') (m : SM W E A) :
  fails_with (fun e => Q (f e)) m -> fails_with Q (with_errors f m).
Proof.
  intros Hm w e w' H. unfold with_errors in H. destruct (m w) as [[a|e0] w1] eqn:Hw; [done|].
  injection H as <- _. by eapply Hm.
Qed.
End Yields.

#[export] Hint Resolve yields_sret yields_sthrow yields_sbind yields_scatch : yields.

(** ** The measure *)

(** The nodes that a turn at [n] may still run. *)
Definition rank (n : Node) (state : AgentState) : nat :=
  let calls_left := MAX_TOOL_STEPS - length (s_actionHistory state) in
  match n with
  | n_resolveIdentity => 31
  | n_checkEventTrigger => 30
  | n_checkPendingSubAgentApproval => 29
  | n_checkPendingApproval => 28
  | n_checkPendingIdentityLink => 27
  | n_checkActiveSkill => 26
  | n_checkActiveAgentRun => 25
  | n_checkNeedsCapability => 24
  | n_retrieveSkills => 23
  | n_retrieveAgents => 22
  | n_retrieveTools => 21
  | n_selectDelegate => 20
  | n_loadSkillTools => 19
  | n_planAction => 2 + 2 * calls_left
  | n_runTool => 1 + 2 * Nat.max 1 calls_left
  | n_bareAnswer | n_delegateToAgent | n_composeResponse => 1
  end.

Lemma rank_le (n : Node) (state : AgentState) : 1 <= rank n state <= 31.
Proof. destruct n; cbn [rank]; unfold MAX_TOOL_STEPS; lia. Qed.

Lemma rank_loop (state : AgentState) : rank n_planAction state <= 18 /\ rank n_runTool state <= 17.
Proof. cbn [rank]. unfold MAX_TOOL_STEPS. lia. Qed.

(** The failures of an agent's launch and of its wait say something: a failure
    with an empty message would read as none. *)
Record spoken {W : Type} (deps : AgentGraphDeps W) : Prop := {
  sp_launch launcher template runId opts :
    gd_agentRunLauncher deps = Some launcher -> fails_with (fun e => e <> EmptyString) (arl_launch launcher template runId opts);
  sp_whenFailed launcher whenFailed runId namespace :
    gd_agentRunLauncher deps = Some launcher -> arl_whenFailed launcher = Some whenFailed ->
    fails_with (fun e => e <> EmptyString) (whenFailed runId namespace);
  sp_awaitReply channel runId opts :
    gd_agentChannel deps = Some channel -> fails_with (fun e => e <> EmptyString) (ac_awaitReply channel runId opts);
  sp_reply channel runId opts :
    gd_agentChannel deps = Some channel ->
    fails_with (fun e => agentTurnErrorMessage e <> EmptyString) (ac_reply channel runId opts)
}.

Section Turn.
Context {W Url : Type}.
Variable parse_url : string -> result string Url.
Variable url_pathname : Url -> string.
Variable set_pathname : string -> Url -> Url.
Variable searchParams_set : string -> string -> Url -> Url.
Variable url_toString : Url -> string.
Variable sleep : Z -> SM W string unit.
Variable number_text : Z -> string.
Variable inherited_text : string -> string.
Variable JSON_parse : string -> option json.
Variable JSON_stringify : json -> string.
Variable deps : AgentGraphDeps W.
Variable inp : TurnInput W.
Implicit Types state : AgentState.

#[local] Notation the_node := (node parse_url url_pathname set_pathname searchParams_set url_toString sleep number_text
                                 inherited_text JSON_parse JSON_stringify deps inp).
#[local] Notation run := (run_from parse_url url_pathname set_pathname searchParams_set url_toString sleep number_text
                            inherited_text JSON_parse JSON_stringify deps inp).

(** A planned turn ends, or calls a tool while it has calls left. *)
Definition plan_ok (state : AgentState) (us : list Update) : Prop :=
  forall n', route_planAction (merge us state) = Some n' -> rank n' (merge us state) < rank n_planAction state.

Lemma finish_ok state : yields (plan_ok state) (finishPlanLoop deps state).
Proof.
  assert (Hend : forall v : Planned, v <> planned_call_tool -> forall us, (s_plannedAction (merge us state) = Some v) ->
            plan_ok state us).
  { intros v Hv us Hus n'. unfold route_planAction. rewrite Hus. destruct (failed _); [done|].
    destruct v; [done|done|]. intros [= <-]. cbn [rank]. lia. }
  assert (Hverbatim : yields (plan_ok state) (sret (W := W) (E := string) (u_plannedAction (Some planned_finish) :: lastHistoryResult state))).
  { apply yields_sret, (Hend planned_finish); [done|]. unfold lastHistoryResult.
    destruct (s_result state); [done|]. by destruct (last_call state). }
  unfold finishPlanLoop. case_match; [|done]. case_match; [|done].
  apply yields_scatch; [|done]. apply yields_sbind. intros [response| |]; [|done|done].
  destruct (str_empty _); [done|]. by apply yields_sret, (Hend planned_respond).
Qed.

Lemma plan_progress state : yields (plan_ok state) (node_planAction deps inp state).
Proof.
  assert (Hfail : forall m, m <> EmptyString -> plan_ok state [u_fail m]).
  { intros m Hm n'. unfold route_planAction, failed. cbn. by destruct m. }
  unfold node_planAction. destruct (s_selectedSkill state) as [skill|]; [|by apply yields_sret, Hfail].
  destruct (Nat.leb _ _) eqn:Hsteps; [apply finish_ok|]. apply Nat.leb_gt in Hsteps.
  apply yields_sbind. intros [response|toolId toolArgs key|].
  - apply yields_sret. intros n'. unfold route_planAction. cbn. by destruct (failed _).
  - destruct (find_tool _ _) as [tool|]; [|by apply yields_sret, Hfail].
    destruct (repeats _ _ _); [apply finish_ok|]. apply yields_sret. intros n'. unfold route_planAction. cbn.
    destruct (failed _); [done|]. intros [= <-]. unfold MAX_TOOL_STEPS in Hsteps.
    change (1 + 2 * Nat.max 1 (8 - length (s_actionHistory state)) < 2 + 2 * (8 - length (s_actionHistory state))). lia.
  - apply finish_ok.
Qed.

(** A tool that ran ends the turn, or is one more call of it. *)
Definition run_ok (state : AgentState) (us : list Update) : Prop :=
  route_runTool (merge us state) = None \/
  length (s_actionHistory (merge us state)) = S (length (s_actionHistory state)).

Lemma run_ok_fail state us m : s_error (merge us state) = Some m -> m <> EmptyString -> run_ok state us.
Proof. intros He Hm. left. unfold route_runTool, failed. rewrite He. simpl. by destruct m. Qed.

Lemma run_ok_grows state us call : s_actionHistory (merge us state) = s_actionHistory state ++ [call] -> run_ok state us.
Proof. intros H. right. rewrite H, length_app. simpl. lia. Qed.

Ltac run_fails := apply yields_sret; by eapply run_ok_fail.
Ltac run_grows := apply yields_sret; eapply run_ok_grows; reflexivity.

Lemma run_ok_pending state us (p : PendingToolCall) : s_pendingToolCalls (merge us state) = [p] -> run_ok state us.
Proof. intros H. left. unfold route_runTool. rewrite H. rewrite bool_decide_eq_false_2 by done. by rewrite orb_true_r. Qed.

Lemma run_ok_paused state us p : s_approvalPending (merge us state) = Some p -> run_ok state us.
Proof. intros H. left. unfold route_runTool. rewrite H. by destruct (_ || _). Qed.

Lemma run_ok_gate state us : s_linkGatePending (merge us state) = true -> run_ok state us.
Proof. intros H. left. unfold route_runTool. rewrite H. destruct (_ || _); [done|]. by case_match. Qed.

Lemma run_ok_none state us : s_result (merge us state) = None -> run_ok state us.
Proof. intros H. left. unfold route_runTool. rewrite H. destruct (_ || _); [done|]. case_match; [done|]. by case_match. Qed.

Lemma event_ok state tool call jobId event : run_ok state (event_updates JSON_stringify state tool call jobId event).
Proof.
  unfold event_updates. destruct event as [j code message|j value|j type].
  - by eapply run_ok_fail.
  - destruct value as [v|]; [destruct v as [| | |s| |]|]; try (eapply run_ok_grows; reflexivity).
    destruct (extractContinuationToken s) as [token text]. eapply run_ok_grows; reflexivity.
  - by apply run_ok_none.
Qed.

Lemma knowledge_base_ok state tool exec input :
  yields (run_ok state)
    (run_knowledge_base parse_url url_pathname set_pathname searchParams_set url_toString deps inp state tool exec input).
Proof.
  assert (Hlive : forall port does, yields (run_ok state)
            (run_live parse_url url_pathname set_pathname searchParams_set url_toString deps port does state tool input)).
  { intros port does. unfold run_live. destruct port; [|run_fails]. destruct (s_identity state); [|run_fails].
    apply yields_sbind; intros found. apply yields_sbind; intros text. run_grows. }
  unfold run_knowledge_base. destruct (ex_operation exec); try apply Hlive; [|run_fails].
  unfold run_search. destruct (gd_knowledgeBaseSearcher deps); [|run_fails]. destruct (s_identity state); [|run_fails].
  apply yields_sbind; intros links. destruct (lc_linkProviders links).
  - apply yields_sbind; intros found. apply yields_sbind; intros text. run_grows.
  - apply yields_sbind; intros gate. apply yields_sret. by apply run_ok_gate.
Qed.

(** The message of a refused credential. *)
Lemma gate_spoken tool identity linkHint readOnly :
  yields (fun gate : option (list CredentialEnvEntry) + string => forall error, gate = inr error -> error <> EmptyString)
    (resolveToolIdentitySecretEnv deps tool identity linkHint readOnly).
Proof.
  unfold resolveToolIdentitySecretEnv. destruct identity as [who|]; [|apply yields_sret; by intros e [= <-]].
  apply yields_sbind. intros credentials. apply yields_sret. intros e.
  destruct credentials; intros [= <-]; try done. unfold readOnlyGitHubRefusal. by destruct (tool_id tool).
Qed.

Lemma job_ok state tool template call : yields (run_ok state) (run_job JSON_stringify deps inp state tool template call).
Proof.
  unfold run_job. intros w us w' (gate & w1 & Hgate & H)%sbind_Ok.
  assert (Hspoken : forall error, gate = inr error -> error <> EmptyString).
  { destruct (tool_identityProviders tool) as [[|p ps]|]; [by injection Hgate as <- _| |by injection Hgate as <- _].
    by eapply gate_spoken. }
  destruct gate as [secretEnv|error]; [|injection H as <- _; eapply run_ok_fail; [reflexivity|by apply Hspoken]].
  assert (Hjob : forall jobId, yields (fun outcome => forall error, outcome = inr error -> error <> EmptyString)
            (launch_job deps tool template (job_options deps inp jobId (call_input call) secretEnv) jobId)).
  { intros jobId. apply (yields_shandle (fun _ => True)); [done| |].
    - do 2 (apply yields_sbind; intros ?). by apply yields_sret.
    - intros err _. apply yields_sret. intros error [= <-]. by destruct err. }
  repeat (apply sbind_Ok in H as (? & ? & ? & H)). injection H as <- _.
  match goal with Hl : launch_job _ _ _ _ _ _ = (Ok ?o, _) |- _ => specialize (Hjob _ _ _ _ Hl); destruct o as [event|error] end.
  - apply event_ok.
  - eapply run_ok_fail; [reflexivity|]. by apply Hjob.
Qed.

Hypothesis Hspoken : spoken deps.

Lemma agent_turn_spoken launcher channel secretRef template call runId jobId secretEnv :
  gd_agentRunLauncher deps = Some launcher -> gd_agentChannel deps = Some channel ->
  fails_with (fun e => agentTurnErrorMessage e <> EmptyString)
    (agent_tool_turn deps inp launcher channel secretRef template call runId jobId secretEnv).
Proof using Hspoken.
  intros Hl Hc. destruct Hspoken as [H1 H2 H3 H4]. unfold agent_tool_turn.
  apply fails_with_sbind; [|intros _; apply fails_with_sbind; [|intros _]].
  - apply fails_with_errors. unfold awaitAgentReply. apply fails_with_sbind; [|intros _; by apply H3].
    rewrite Hl. simpl. unfold when_some. destruct (arl_whenFailed launcher) eqn:Hw; [by eapply H2|apply fails_with_sret].
  - apply fails_with_errors. by apply H1.
  - intros w e w' H. unfold collect_reply in H. destruct (ac_reply _ _ _ w) as [outcome w1] eqn:Hr. injection H as -> _.
    by eapply H4.
Qed.

Lemma run_progress state : yields (run_ok state) (node_runTool parse_url url_pathname set_pathname searchParams_set url_toString
                                                    JSON_parse JSON_stringify deps inp state).
Proof using Hspoken.
  unfold node_runTool. destruct (s_selectedTool state) as [tool|]; [|run_fails].
  destruct (gated state tool); [apply yields_sret; by eapply run_ok_paused|].
  destruct (tool_callerTool tool) as [callerTool|].
  { unfold run_caller_tool. destruct (callerToolArguments _ _ _); [|run_fails].
    do 2 (apply yields_sbind; intros ?). apply yields_sret. by eapply run_ok_pending. }
  generalize (tool_call inp state tool) as call. intros call. unfold run_call.
  destruct (tool_agentRunTemplate tool) as [template|].
  { unfold run_agent_tool. destruct (gd_agentRunLauncher deps) as [launcher|] eqn:Hl; [|run_fails].
    destruct (gd_agentChannel deps) as [channel|] eqn:Hc; [|run_fails]. destruct (gd_callbackSecretRef deps) as [secretRef|]; [|run_fails].
    intros w us w' (gate & w1 & Hgate & H)%sbind_Ok. apply gate_spoken in Hgate.
    destruct gate as [secretEnv|error]; [|injection H as <- _; eapply run_ok_fail; [reflexivity|by apply Hgate]].
    apply sbind_Ok in H as (runId & ? & _ & H). apply sbind_Ok in H as (jobId & ? & _ & H). revert H.
    apply (yields_shandle (fun e => agentTurnErrorMessage e <> EmptyString)).
    - apply fails_with_sbind; [by apply agent_turn_spoken|]. intros reply. destruct (negb _); [apply fails_with_sret|].
      destruct (extractContinuationToken _). apply fails_with_sret.
    - apply yields_sbind. intros reply. destruct (negb _); [run_fails|]. destruct (extractContinuationToken _). run_grows.
    - intros e He. apply yields_sret. by eapply run_ok_fail. }
  destruct (tool_knowledgeBaseExec tool); [apply knowledge_base_ok|].
  destruct (tool_mcpExec tool).
  { unfold run_mcp. destruct (dd_mcpBrokerClient (gd_dispatch deps)); [|run_fails]. destruct (s_identity state); [|run_fails].
    destruct (in_turnReadOnly inp); [|apply yields_sbind; intros ?; run_grows]. apply yields_sret.
    destruct (s_selectedSkill state); [by eapply run_ok_grows|]. eapply run_ok_fail; [reflexivity|].
    unfold readOnlyMCPRefusal. done. }
  destruct (tool_localExec tool).
  { unfold run_local. destruct (dd_localToolExecutor _); [|run_fails]. apply yields_sbind. intros event. apply yields_sret, event_ok. }
  destruct (tool_jobTemplate tool); [apply job_ok|run_fails].
Qed.

Ltac by_rank := cbn [rank] in *; unfold MAX_TOOL_STEPS in *; lia.

Lemma target_rank state otherwise : target state otherwise = otherwise \/ rank (target state otherwise) state <= 19.
Proof using. unfold target. repeat case_match; [right; by_rank..|by left]. Qed.

(** Every edge goes to a node with a smaller measure. *)
Lemma route_progress (n : Node) state us w w' n' :
  the_node n state w = (Ok us, w') -> route n (merge us state) = Some n' -> rank n' (merge us state) < rank n state.
Proof using Hspoken.
  intros Hn Hr.
  destruct n; cbn [route] in Hr; try discriminate Hr.
  all: try (unfold afterOrEnd in Hr; destruct (failed _); [done|]; injection Hr as <-; by_rank).
  - unfold route_checkEventTrigger in Hr. destruct (failed _); [done|]. case_match; [injection Hr as <-; by_rank|].
    destruct (_ && _); injection Hr as <-; [by_rank|].
    destruct (target_rank (merge us state) n_checkPendingApproval) as [->|?]; by_rank.
  - unfold route_checkPendingSubAgentApproval in Hr. repeat (case_match; simplify_eq); by_rank.
  - unfold route_checkPendingApproval in Hr. repeat (case_match; simplify_eq); by_rank.
  - unfold route_checkPendingIdentityLink in Hr. repeat (case_match; simplify_eq); by_rank.
  - unfold route_checkActiveSkill in Hr. repeat (case_match; simplify_eq); by_rank.
  - unfold route_checkActiveAgentRun in Hr. destruct (_ || _); [done|]. injection Hr as <-.
    destruct (target_rank (merge us state) n_checkNeedsCapability) as [->|?]; by_rank.
  - destruct (failed _); [done|]. injection Hr as <-. destruct (s_needsCapability _); by_rank.
  - unfold route_selectDelegate in Hr. repeat (case_match; simplify_eq); by_rank.
  - by eapply (plan_progress state w us w').
  - destruct (run_progress state w us w' Hn) as [Hend|Hgrow]; [by rewrite Hend in Hr|].
    unfold route_runTool in Hr. repeat (case_match; simplify_eq); cbn [rank]; rewrite ?Hgrow; by_rank.
Qed.

Lemma run_ends (limit : nat) (n : Node) state w :
  rank n state <= limit ->
  (run limit n state w).1 <> Err GraphRecursionError /\ run limit n state w = run (rank n state) n state w.
Proof using Hspoken.
  remember (rank n state) as bound eqn:Hb. assert (Hle : rank n state <= bound) by lia. clear Hb. revert limit n state w Hle.
  induction bound as [|bound IH]; intros limit n state w Hle Hlim; [pose proof (rank_le n state); lia|].
  destruct limit as [|limit]; [lia|]. cbn [run_from].
  unfold sbind, with_errors. destruct (the_node n state w) as [[us|e] w1] eqn:Hn; [|done].
  destruct (route n (merge us state)) as [n'|] eqn:Hr; [|done].
  pose proof (route_progress n state us w w1 n' Hn Hr). apply IH; lia.
Qed.
End Turn.
