(* ===== verification/GraphSafety.v ===== *)
(** * Agent orchestrator: what a turn may do

    The policy of a turn of the graph of GraphTools.v, and the proof that every
    turn follows it: which tools and agents it may run, with whose roles, after
    which approval, and what a read-only turn may not do. *)

From stdpp Require Import base gmap strings list.
From Stdlib Require Import ZArith Lia.
From S2P Require Import Prelude JsString JsNumber Json JsMap EventValues JsList KnowledgeBase KbCite KbSearcher KbLive.
From S2P Require Import IdentityLink Authorization AuthSafety Session AgentChannel Approval Catalog Planner Dispatch.
From S2P Require Import GraphState GraphNodes GraphTools.

(** ** Merging *)

(** A channel keeps its value over updates of other channels. *)
Lemma merge_keeps {A : Type} (f : AgentState -> A) (p : Update -> bool) us s :
  (forall u s, p u = true -> f (apply_update u s) = f s) -> Forall (fun u => p u = true) us -> f (merge us s) = f s.
Proof.
  intros Hf Hus. revert s. induction Hus as [|u us Hu _ IH]; intros s; [done|].
  change (merge (u :: us) s) with (merge us (apply_update u s)). by rewrite IH, Hf.
Qed.

Lemma merge_app us vs s : merge (us ++ vs) s = merge vs (merge us s).
Proof. apply foldl_app. Qed.

(** ** The policy *)

(** What a turn does beyond reading: it runs a tool, it runs an agent, it sends a
    prompt to a run, and it asks a knowledge base as a caller. *)
Inductive GraphAction :=
| ga_tool (a : Action)
| ga_agent (template : AgentRunTemplate) (opts : AgentLaunchOptions)
| ga_prompt (runId text : string)
| ga_search (caller : Caller).

(** The input of a call is its argument, with the token of a continuation
    perhaps before it. *)
Definition carries (input raw : string) : Prop := input = raw \/ exists token, input = prependContinuationToken token raw.

Section Policy.
Context {W : Type}.
(** The caller that the resolver gave for this turn, and the tools and agents
    that the stores give for a set of roles. *)
Variable Resolved : string -> list string -> Prop.
Variable Seen : list string -> Tool -> Prop.
Variable SeenAgent : list string -> AgentDescriptor -> Prop.
Variable deps : AgentGraphDeps W.
Variable inp : TurnInput W.
Variable start : TurnStart.

Definition tool_seen (t : Tool) : Prop := exists subject roles, Resolved subject roles /\ Seen roles t.
Definition agent_seen (a : AgentDescriptor) : Prop := exists subject roles, Resolved subject roles /\ SeenAgent roles a.

(** The session is the resolved caller's own. *)
Definition session_of (subject : string) : Prop := in_sessionSubject inp = Some subject /\ exists roles, Resolved subject roles.

(** The pause that the last turn left, where it is this caller's. *)
Definition paused (p : ApprovalPending) : Prop :=
  ts_approvalPending start = Some p /\ exists subject, session_of subject /\ ap_subject p ?? subject = subject.

(** Where a tool of the turn may come from. *)
Definition given_tool (t : Tool) : Prop :=
  tool_seen t \/ t ∈ in_callerTools inp \/ (exists a, agent_seen a /\ t = agent_as_tool a) \/
  (exists p, paused p /\ (t = ap_tool p \/ t ∈ (ap_skillTools p ?? []))).

Definition approves : Prop := parseApprovalDecision (Some (ts_request start)) = decision_approve.

(** A call that needs no approval, or the one that the caller approved. *)
Definition cleared (t : Tool) (input : string) : Prop :=
  requiresApproval (resolveApproval (tool_approval t) None) = false \/
  exists p, paused p /\ approves /\ t = ap_tool p /\ forall raw, ap_toolArgs p = Some raw -> carries input raw.

Definition own_call (t : Tool) (input : string) : Prop := given_tool t /\ cleared t input.

(** A call of a sub-agent: of a tool that its agent declares, ungated, or the one
    that the caller approved. *)
Definition sub_agent_call (t : Tool) (input : string) : Prop :=
  exists id, catalog_find (gd_toolCatalog deps) id = Some t /\
    ((exists a, agent_seen a /\ id ∈ (agent_toolRefs a ?? []) /\
        requiresApproval (resolveApproval (tool_approval t) (agent_approvalDefault a)) = false) \/
     (exists p, ts_subAgentApprovalPending start = Some p /\ session_of (sap_subject p) /\ approves /\
        id = sap_tool p /\ input = sap_input p)).

Definition may_call (t : Tool) (input : string) : Prop := own_call t input \/ sub_agent_call t input.

Definition turn_allows (a : GraphAction) : Prop :=
  match a with
  | ga_tool (act_launch t opts) =>
      (exists input, la_args opts = [input] /\ may_call t input) /\ la_readOnly opts = in_turnReadOnly inp /\
      (in_turnReadOnly inp = true -> write_capable t = false)
  | ga_tool (act_local t input) => own_call t input \/ (sub_agent_call t input /\ (in_turnReadOnly inp = true -> write_capable t = false))
  | ga_tool (act_mcp t input subject) => may_call t input /\ in_turnReadOnly inp = false /\ exists roles, Resolved subject roles
  | ga_agent template opts =>
      al_readOnly opts = in_turnReadOnly inp /\
      ((exists a, agent_seen a /\ template = agent_agentRunTemplate a) \/
       (exists t, tool_agentRunTemplate t = Some template /\ own_call t (al_goal opts) /\
          (in_turnReadOnly inp = true -> write_capable t = false)))
  | ga_prompt runId _ =>
      ts_activeAgentRunId start = Some runId /\ (exists subject, session_of subject) /\
      (in_turnReadOnly inp = true -> in_activeAgentRunReadOnly inp = true)
  | ga_search caller => Resolved (caller_subject caller) (caller_roles caller)
  end.

(** ** What the ports promise *)

#[local] Set Implicit Arguments.

(** Every operation of a gateway keeps [I]. *)
Record port_quiet (I : W -> Prop) (gw : IdentityLinkPort W) : Prop := {
  pq_start p s f : keeps I (port_start gw p s f);
  pq_poll p s c : keeps I (port_poll gw p s c);
  pq_getToken p s : keeps I (port_getToken gw p s);
  pq_wait f p s ms : port_waitForCompletion gw = Some f -> keeps I (f p s ms);
  pq_invalidate f p s : port_invalidate gw = Some f -> keeps I (f p s);
  pq_rekey f p a b : port_rekey gw = Some f -> keeps I (f p a b);
  pq_login f p s : port_getLinkedLogin gw = Some f -> keeps I (f p s)
}.

(** The ports keep [I], what they do beyond reading only where the turn's policy
    allows it; the resolver, the stores and the selector give what they are
    trusted for. *)
Record graph_lawful (I : W -> Prop) (sleep : Z -> SM W string unit) : Prop := {
  gl_dispatch : dispatch_lawful I (fun a => turn_allows (ga_tool a)) (gd_dispatch deps);
  gl_identity token : ensures I (fun o => forall who, o = Some who -> Resolved (id_subject who) (id_roles who)) (gd_identityResolver deps token);
  gl_forwarded resolve token :
    gd_forwardedUserIdentityResolver deps = Some resolve ->
    ensures I (fun o => forall who, o = Some who -> Resolved (id_subject who) (id_roles who)) (resolve token);
  gl_gateway p gw : gatewayFor (gd_authorization deps) p = Some gw -> port_quiet I gw;
  gl_identityLink gw : gw_identityLink (ad_gateways (gd_authorization deps)) = Some gw -> port_quiet I gw;
  gl_writeback f s n : ad_claudeRemoteWriteback (gd_authorization deps) = Some f -> keeps I (f s n);
  gl_sleep n : keeps I (sleep n);
  gl_skill_query text roles k : keeps I (store_query (gd_skillStore deps) text roles k);
  gl_skill_ids ids roles : keeps I (store_getByIds (gd_skillStore deps) ids roles);
  gl_tool_query text roles k : ensures I (Forall (fun h : ToolSearchResult => Seen roles h.1)) (store_query (gd_vectorStore deps) text roles k);
  gl_tool_ids ids roles : ensures I (Forall (fun h : ToolSearchResult => Seen roles h.1)) (store_getByIds (gd_vectorStore deps) ids roles);
  gl_agent_query store text roles k : gd_agentStore deps = Some store ->
    ensures I (Forall (fun h : AgentSearchResult => SeenAgent roles h.1)) (store_query store text roles k);
  gl_agent_ids store ids roles : gd_agentStore deps = Some store ->
    ensures I (Forall (fun h : AgentSearchResult => SeenAgent roles h.1)) (store_getByIds store ids roles);
  gl_skillSelector text l : keeps I (gd_skillSelector deps text l);
  gl_delegateSelector select text skills agents tools : gd_delegateSelector deps = Some select ->
    ensures I (fun o => forall choice, o = Some choice -> offered skills agents tools choice) (select text skills agents tools);
  gl_skillFit text s : keeps I (gd_skillFitChecker deps text s);
  gl_toolFit text t : keeps I (gd_toolFitChecker deps text t);
  gl_capability text : keeps I (gd_capabilityNeedChecker deps text);
  gl_planner text s l h o : keeps I (gd_actionPlanner deps text s l h o);
  gl_composer text s t r : keeps I (gd_responseComposer deps text s t r);
  gl_responder text tell : (forall f d, tell = Some f -> keeps I (f d)) -> keeps I (gd_bestEffortResponder deps text tell);
  gl_progress f a b : in_progressListener inp = Some f -> keeps I (f a b);
  gl_remote f a : in_remoteControlUrlListener inp = Some f -> keeps I (f a);
  gl_report f a b : in_reportIdentityLinkPending inp = Some f -> keeps I (f a b);
  gl_launch l template runId opts : gd_agentRunLauncher deps = Some l -> turn_allows (ga_agent template opts) ->
    keeps I (arl_launch l template runId opts);
  gl_whenFailed l f runId ns : gd_agentRunLauncher deps = Some l -> arl_whenFailed l = Some f -> keeps I (f runId ns);
  gl_stop l runId : gd_agentRunLauncher deps = Some l -> keeps I (arl_stop l runId);
  gl_awaitReply c runId opts : gd_agentChannel deps = Some c -> keeps I (ac_awaitReply c runId opts);
  gl_reply c runId opts : gd_agentChannel deps = Some c ->
    (forall f a b, ar_onProgress opts = Some f -> keeps I (f a b)) ->
    (forall f a b d, ar_onToolCall opts = Some f -> keeps I (f a b d)) -> keeps I (ac_reply c runId opts);
  gl_prompt c runId text : gd_agentChannel deps = Some c -> turn_allows (ga_prompt runId text) -> keeps I (ac_sendPrompt c runId text);
  gl_resolve c f a b o : gd_agentChannel deps = Some c -> ac_resolveToolCall c = Some f -> keeps I (f a b o);
  gl_recorded c f a : gd_agentChannel deps = Some c -> ac_recordedReply c = Some f -> keeps I (f a);
  gl_forget c f a : gd_agentChannel deps = Some c -> ac_forgetRecordedReply c = Some f -> keeps I (f a);
  gl_checkLinks s t caller : gd_knowledgeBaseSearcher deps = Some s -> turn_allows (ga_search caller) -> keeps I (kbs_checkLinks s t caller);
  gl_search s t q caller n : gd_knowledgeBaseSearcher deps = Some s -> turn_allows (ga_search caller) -> keeps I (kbs_search s t q caller n);
  gl_live port f t q caller n : port ∈ [gd_corpusReader deps; gd_corpusLookup deps; gd_corpusQuery deps] -> port = Some f ->
    turn_allows (ga_search caller) -> keeps I (f t q caller n);
  gl_mark f a b c d e : gd_markAgentRunAwaitingReply deps = Some f -> keeps I (f a b c d e);
  gl_clear f a : gd_clearAgentRunAwaitingReply deps = Some f -> keeps I (f a)
}.
#[local] Unset Implicit Arguments.

(** ** The state of a turn under way *)

(** What a node may put into a channel. *)
Definition good_update (u : Update) : Prop :=
  match u with
  | u_identity (Some who) => Resolved (id_subject who) (id_roles who)
  | u_agentCandidates l => Forall (fun h : AgentSearchResult => agent_seen h.1) l
  | u_toolCandidates l => Forall (fun h : ToolSearchResult => tool_seen h.1) l
  | u_skillTools l => Forall given_tool l
  | u_selectedTool (Some t) => given_tool t
  | u_selectedAgent (Some a) => agent_seen a
  | _ => True
  end.

Record core (s : AgentState) : Prop := mkCore {
  co_identity who : s_identity s = Some who -> Resolved (id_subject who) (id_roles who);
  co_agents : Forall (fun h : AgentSearchResult => agent_seen h.1) (s_agentCandidates s);
  co_tools : Forall (fun h : ToolSearchResult => tool_seen h.1) (s_toolCandidates s);
  co_skillTools : Forall given_tool (s_skillTools s);
  co_tool t : s_selectedTool s = Some t -> given_tool t;
  co_agent a : s_selectedAgent s = Some a -> agent_seen a
}.

Lemma core_update u s : core s -> good_update u -> core (apply_update u s).
Proof.
  intros [H1 H2 H3 H4 H5 H6] Hu. split; destruct u; cbn in *; try done;
    match goal with |- context [?v = Some _] => by intros ? -> end.
Qed.

Lemma core_merge us s : core s -> Forall good_update us -> core (merge us s).
Proof.
  intros Hs Hus. revert s Hs. induction Hus as [|u us Hu _ IH]; intros s Hs; [done|].
  change (merge (u :: us) s) with (merge us (apply_update u s)). apply IH. by apply core_update.
Qed.

(** The granted call is the one that the caller approved. *)
Definition grant_ok (s : AgentState) : Prop :=
  s_approvalGranted s = true ->
  exists p, paused p /\ approves /\ s_selectedTool s = Some (ap_tool p) /\ forall raw, ap_toolArgs p = Some raw -> s_toolArgs s = Some raw.

Definition in_loop (n : Node) : bool :=
  match n with
  | n_planAction | n_runTool | n_composeResponse => true
  | _ => false
  end.

(** The nodes before the approval's decision is read. *)
Definition undecided (n : Node) : bool :=
  match n with
  | n_resolveIdentity | n_checkEventTrigger | n_checkPendingSubAgentApproval | n_checkPendingApproval => true
  | _ => false
  end.

Definition unanswered (n : Node) : bool := undecided n && negb (match n with n_checkPendingApproval => true | _ => false end).

Record turn_inv (n : Node) (s : AgentState) : Prop := mkInv {
  ti_core : core s;
  ti_grant : grant_ok s;
  ti_loop : s_approvalGranted s = true -> in_loop n = true;
  ti_run : s_activeAgentRunAwaitingReply s = false -> s_activeAgentRunId s = ts_activeAgentRunId start;
  ti_undecided : undecided n = true -> s_request s = ts_request start /\ s_approvalPending s = ts_approvalPending start;
  ti_unanswered : unanswered n = true -> s_subAgentApprovalPending s = ts_subAgentApprovalPending start
}.

(** The channels that only a few nodes write. *)
Definition no_grant (u : Update) : bool := match u with u_approvalGranted _ => false | _ => true end.
Definition no_run (u : Update) : bool :=
  match u with
  | u_activeAgentRunId _ | u_activeAgentRunAwaitingReply _ => false
  | _ => true
  end.
Definition no_turn (u : Update) : bool :=
  match u with
  | u_request _ | u_approvalPending _ | u_subAgentApprovalPending _ => false
  | _ => true
  end.
Definition no_call (u : Update) : bool :=
  match u with
  | u_selectedTool _ | u_toolArgs _ => false
  | _ => true
  end.

Definition writes (p : Update -> bool) (us : list Update) : Prop := Forall (fun u => p u = true) us.

Lemma keep_grant us s : writes no_grant us -> s_approvalGranted (merge us s) = s_approvalGranted s.
Proof. apply merge_keeps. by intros []. Qed.

Lemma keep_run us s :
  writes no_run us ->
  s_activeAgentRunAwaitingReply (merge us s) = s_activeAgentRunAwaitingReply s /\
  s_activeAgentRunId (merge us s) = s_activeAgentRunId s.
Proof. intros H. split; eapply (merge_keeps _ no_run); try done; by intros []. Qed.

Lemma keep_turn us s :
  writes no_turn us ->
  s_request (merge us s) = s_request s /\ s_approvalPending (merge us s) = s_approvalPending s /\
  s_subAgentApprovalPending (merge us s) = s_subAgentApprovalPending s.
Proof. intros H. split_and!; eapply (merge_keeps _ no_turn); try done; by intros []. Qed.

Lemma keep_call us s :
  writes no_call us -> s_selectedTool (merge us s) = s_selectedTool s /\ s_toolArgs (merge us s) = s_toolArgs s.
Proof. intros H. split; eapply (merge_keeps _ no_call); try done; by intros []. Qed.

(** A node that writes good values, and none of the guarded channels unless no
    node that relies on them follows. *)
Lemma inv_step n n' us s :
  turn_inv n s -> Forall good_update us -> writes no_grant us -> writes no_run us ->
  (in_loop n = true -> in_loop n' = true /\ writes no_call us) ->
  (undecided n' = true -> undecided n = true /\ writes no_turn us) ->
  (unanswered n' = true -> unanswered n = true) ->
  turn_inv n' (merge us s).
Proof.
  intros [H1 H2 H3 H4 H5 H6] Hgood Hgrant Hrun Hloop Hund Huna.
  pose proof (keep_grant us s Hgrant) as Eg. destruct (keep_run us s Hrun) as [Ea Er]. split.
  - by apply core_merge.
  - unfold grant_ok. rewrite Eg. intros Hg. destruct (Hloop (H3 Hg)) as [_ Hc]. destruct (keep_call us s Hc) as [-> ->]. by apply H2.
  - rewrite Eg. intros Hg. by apply Hloop, H3.
  - by rewrite Ea, Er.
  - intros Hn. destruct (Hund Hn) as [Hn0 Ht]. destruct (keep_turn us s Ht) as (-> & -> & _). auto.
  - intros Hn. assert (undecided n' = true) as Hn' by (by apply andb_true_iff in Hn as [? _]).
    destruct (Hund Hn') as [_ Ht]. destruct (keep_turn us s Ht) as (_ & _ & ->). auto.
Qed.
End Policy.

(** ** Computations that keep an invariant *)

Section Combinators.
Context {W E E' : Type} (I : W -> Prop).

Lemma keeps_shandle {A : Type} (m : SM W E A) (h : E -> SM W E' A) :
  keeps I m -> (forall e, keeps I (h e)) -> keeps I (shandle m h).
Proof. intros Hm Hh w Hw. unfold shandle. specialize (Hm w Hw). destruct (m w) as [[a|e] w1]; [done|by apply Hh]. Qed.

Lemma ensures_shandle {A : Type} (P : A -> Prop) (m : SM W E A) (h : E -> SM W E' A) :
  ensures I P m -> (forall e, ensures I P (h e)) -> ensures I P (shandle m h).
Proof.
  intros Hm Hh w Hw. unfold shandle. destruct (Hm w Hw) as [H1 H2]. destruct (m w) as [[a|e] w1]; [|by apply Hh].
  split; [done|]. intros b [= <-]. by apply H2.
Qed.

Lemma ensures_errors {A : Type} (P : A -> Prop) (f : E -> E') (m : SM W E A) : ensures I P m -> ensures I P (with_errors f m).
Proof.
  intros Hm w Hw. unfold with_errors. destruct (Hm w Hw) as [H1 H2]. destruct (m w) as [[a|e] w1]; [|done].
  split; [done|]. intros b [= <-]. by apply H2.
Qed.

Lemma keeps_pure {A : Type} (g : W -> A) : keeps I (fun w => (Ok (E := E) (g w), w)).
Proof. by intros w Hw. Qed.

Lemma ensures_pure {A : Type} (P : A -> Prop) (g : W -> A) : (forall w, P (g w)) -> ensures I P (fun w => (Ok (E := E) (g w), w)).
Proof. intros Hg w Hw. split; [done|]. by intros a [= <-]. Qed.

Lemma keeps_when_some {A : Type} (o : option A) (f : A -> SM W E unit) :
  (forall a, o = Some a -> keeps I (f a)) -> keeps I (when_some o f).
Proof. intros Hf. destruct o; [by apply Hf|apply keeps_sret]. Qed.

Lemma keeps_ignoring (m : SM W E unit) : keeps I m -> keeps I (ignoring m).
Proof. intros Hm. apply keeps_scatch; [done|]. intros e. apply keeps_sret. Qed.

Lemma keeps_promise_all {A : Type} (ms : list (SM W E A)) : Forall (keeps I) ms -> keeps I (promise_all ms).
Proof. intros Hms. apply keeps_sbind; [by apply keeps_all_settled|]. by intros outcomes w Hw. Qed.

Lemma ensures_promise_pair {A B : Type} (P : A -> Prop) (Q : B -> Prop) (m1 : SM W E A) (m2 : SM W E B) :
  ensures I P m1 -> ensures I Q m2 -> ensures I (fun ab => P ab.1 /\ Q ab.2) (promise_pair m1 m2).
Proof.
  intros H1 H2 w Hw. unfold promise_pair. destruct (H1 w Hw) as [Hw1 Ha]. destruct (m1 w) as [r1 w1].
  destruct (H2 w1 Hw1) as [Hw2 Hb]. destruct (m2 w1) as [r2 w2]. split; [done|]. intros [a b] H. simpl in *.
  destruct r1 as [a1|]; [|done]. destruct r2 as [b1|]; [|done]. injection H as <- <-. auto.
Qed.

Lemma ensures_true {A : Type} (m : SM W E A) : keeps I m -> ensures I (fun _ => True) m.
Proof. apply ensures_keeps. Qed.
End Combinators.

Lemma Forall_u_opt {A : Type} (P : Update -> Prop) (o : option A) f : (forall a, o = Some a -> P (f a)) -> Forall P (u_opt o f).
Proof. destruct o as [a|]; [|by constructor]. intros H. repeat constructor. by apply H. Qed.

Lemma Forall_u_when (P : Update -> Prop) b us : Forall P us -> Forall P (u_when b us).
Proof. by destruct b. Qed.

#[export] Hint Resolve keeps_shandle keeps_pure keeps_when_some keeps_ignoring keeps_promise_all : keeps.
