(* ===== verification/GraphPolicy.v ===== *)
(** * Agent orchestrator: every turn follows its policy

    The proof that the nodes of the graph, and so every turn, keep to the policy
    of GraphSafety.v, node by node. *)

From stdpp Require Import base gmap strings list.
From Stdlib Require Import ZArith Lia.
From S2P Require Import Prelude JsString JsNumber Json JsMap EventValues JsList KnowledgeBase KbCite KbSearcher KbLive.
From S2P Require Import IdentityLink Authorization AuthSafety Session AgentChannel Approval Catalog Planner Dispatch.
From S2P Require Import GraphState GraphNodes GraphTools GraphSafety.

Section Turn.
Context {W Url : Type}.
Variable parse_url : string -> result string Url.
Variable url_pathname : Url -> string.
Variable set_pathname : string -> Url -> Url.
Variable searchParams_set : string -> string -> Url -> Url.
Variable url_toString : Url -> string.
Variable sleep : Z -> SM W string unit.
Variable number_text : Z -> string.
Variable inherited_text : string -> string.
Variable JSON_parse : string -> option json.
Variable JSON_stringify : json -> string.
Variable Resolved : string -> list string -> Prop.
Variable Seen : list string -> Tool -> Prop.
Variable SeenAgent : list string -> AgentDescriptor -> Prop.
Variable deps : AgentGraphDeps W.
Variable inp : TurnInput W.
Variable start : TurnStart.
Variable I : W -> Prop.
Hypothesis Hlaw : graph_lawful Resolved Seen SeenAgent deps inp start I sleep.
Implicit Types state : AgentState.

#[local] Notation good := (good_update Resolved Seen SeenAgent inp start).
#[local] Notation allows := (turn_allows Resolved Seen SeenAgent deps inp start).
#[local] Notation tool_given := (given_tool Resolved Seen SeenAgent inp start).
#[local] Notation inv := (turn_inv Resolved Seen SeenAgent inp start).
#[local] Notation seen_agent := (agent_seen Resolved SeenAgent).
#[local] Notation seen_tool := (tool_seen Resolved Seen).

(** Good updates of the channels that [p] admits. *)
Definition updates (p : Update -> bool) (us : list Update) : Prop := Forall (fun u => good u /\ p u = true) us.

Lemma updates_good p us : updates p us -> Forall good us.
Proof. intros H. eapply Forall_impl; [exact H|]. by intros u [? _]. Qed.

Lemma updates_writes p q us : (forall u, p u = true -> q u = true) -> updates p us -> writes q us.
Proof. intros Hpq H. eapply Forall_impl; [exact H|]. intros u [_ ?]. by apply Hpq. Qed.

Lemma updates_weaken p q us : (forall u, p u = true -> q u = true) -> updates p us -> updates q us.
Proof. intros Hpq H. eapply Forall_impl; [exact H|]. intros u [? ?]. split; auto. Qed.

Lemma updates_app p us vs : updates p us -> updates p vs -> updates p (us ++ vs).
Proof. by apply Forall_app_2. Qed.

Lemma updates_when p b us : updates p us -> updates p (u_when b us).
Proof. apply Forall_u_when. Qed.

Lemma updates_opt {A : Type} p (o : option A) f : (forall a, o = Some a -> good (f a) /\ p (f a) = true) -> updates p (u_opt o f).
Proof. apply (Forall_u_opt (fun u => good u /\ p u = true)). Qed.

(** The lists of updates that a node writes out. *)
Ltac listed := repeat first [apply Forall_nil_2 | apply Forall_cons_2; [split; [first [done | by constructor]|done]|] | apply updates_app | apply updates_when].
Ltac returns := apply ensures_sret; listed.

(** ** The ports *)

Lemma gateway_quiet p gw : identityGatewayFor deps p = Some gw -> port_quiet I gw.
Proof using Hlaw. apply (gl_gateway Hlaw). Qed.

Lemma dispatch_law : dispatch_lawful I (fun a => allows (ga_tool a)) (gd_dispatch deps).
Proof using Hlaw. apply (gl_dispatch Hlaw). Qed.

Lemma keeps_uuid : keeps I (dd_randomUUID (gd_dispatch deps)).
Proof using Hlaw. apply (dl_uuid _ _ _ dispatch_law). Qed.

Lemma keeps_page_start_of subject providers flow :
  keeps I (page_start_of parse_url url_pathname set_pathname searchParams_set url_toString deps subject providers flow).
Proof using. by intros w Hw. Qed.

Lemma keeps_clauses subject providers :
  keeps I (startKnowledgeBaseLinkClauses parse_url url_pathname set_pathname searchParams_set url_toString deps subject providers).
Proof using Hlaw.
  apply keeps_sbind; [apply keeps_page_start_of|]. intros [pageUrl|]; [apply keeps_sret|].
  apply keeps_sfold. intros clauses provider _. unfold start_clause.
  destruct (identityGatewayFor deps provider) as [gw|] eqn:Hgw; [|apply keeps_sret].
  apply keeps_scatch; [|intros; apply keeps_sret]. apply keeps_sbind; [|intros; apply keeps_sret].
  by apply (pq_start (gateway_quiet _ _ Hgw)).
Qed.

Lemma keeps_enrich subject result linkProviders :
  keeps I (enrichKnowledgeBaseResult parse_url url_pathname set_pathname searchParams_set url_toString deps subject result linkProviders).
Proof using Hlaw.
  unfold enrichKnowledgeBaseResult. destruct linkProviders as [[|p ps]|]; [apply keeps_sret| |apply keeps_sret].
  apply keeps_sbind; [apply keeps_clauses|]. intros [|c cs]; apply keeps_sret.
Qed.

Lemma keeps_link_gate subject displayName linked unlinked :
  keeps I (knowledgeBaseLinkGate parse_url url_pathname set_pathname searchParams_set url_toString deps subject displayName linked unlinked).
Proof using Hlaw. apply keeps_sbind; [apply keeps_clauses|]. intros. apply keeps_sret. Qed.

Lemma keeps_resolve_each who providers env : keeps I (resolve_each (gd_authorization deps) who providers env).
Proof using Hlaw.
  revert env. induction providers as [|p ps IH]; intros env; simpl; [apply keeps_sret|].
  destruct (gatewayFor _ p) as [gw|] eqn:Hgw; [|apply keeps_sret].
  apply keeps_sbind; [by apply (pq_getToken (gateway_quiet _ _ Hgw))|].
  intros [t|]; [|apply keeps_sret]. destruct (negb _); [apply keeps_sret|]. apply IH.
Qed.

(** A tool that declares a write-capable provider gets no credentials on a
    read-only turn. *)
Lemma credentials_ok tool identity linkHint readOnly :
  ensures I (fun gate => forall env, gate = inl env -> readOnly = true -> write_capable tool = false)
    (resolveToolIdentitySecretEnv deps tool identity linkHint readOnly).
Proof using Hlaw.
  unfold resolveToolIdentitySecretEnv. destruct identity as [who|]; [|by apply ensures_sret].
  unfold resolveLinkedCredentials. unfold write_capable. destruct readOnly.
  - destruct (List.find _ _) as [p|] eqn:Hf.
    { eapply (ensures_sbind _ (fun credentials => credentials = lc_read_only_refused p)); [by apply ensures_sret|].
      intros credentials ->. by apply ensures_sret. }
    eapply ensures_after; [apply keeps_resolve_each|]. intros credentials. apply ensures_sret. intros env _ _.
    apply not_true_iff_false. intros (p & Hin & Hp)%existsb_exists. by rewrite (find_none _ _ Hf p Hin) in Hp.
  - eapply ensures_after; [apply keeps_resolve_each|]. intros credentials. by apply ensures_sret.
Qed.

(** ** An agent's turn *)

Lemma keeps_agent_authorize req :
  (forall f a b, rq_progressListener req = Some f -> keeps I (f a b)) ->
  (forall f a b, rq_reportIdentityLinkPending req = Some f -> keeps I (f a b)) ->
  keeps I (authorize parse_url url_pathname set_pathname searchParams_set url_toString (now deps) sleep number_text
             (gd_authorization deps) req).
Proof using Hlaw.
  intros Htell Hreport. apply ensures_keeps.
  eapply ensures_weaken; [|intros a _; exact Logic.I].
  eapply (authorize_ensures _ _ _ _ _ _ _ _ _ _ I (fun _ _ _ => True) (fun _ _ => True) (fun _ => True)).
  split; try done.
  - intros p k gw Hgw _. eapply ensures_weaken; [apply ensures_keeps, (pq_getToken (gateway_quiet _ _ Hgw))|done].
  - intros p k gw f ms Hgw _ Hf. eapply ensures_weaken; [apply ensures_keeps; by eapply (pq_wait (gateway_quiet _ _ Hgw))|done].
  - intros p k gw f Hgw _. apply (pq_start (gateway_quiet _ _ Hgw)).
  - intros p k gw f Hgw _ Hf _ _ _. by eapply (pq_rekey (gateway_quiet _ _ Hgw)).
  - intros gw f Hgw Hf. eapply ensures_weaken; [apply ensures_keeps; by eapply (pq_login (gl_identityLink Hlaw Hgw))|done].
  - intros gw Hgw. apply (pq_getToken (gl_identityLink Hlaw Hgw)).
  - intros f k n Hf _ _. eapply ensures_weaken; [apply ensures_keeps; by eapply (gl_writeback Hlaw)|done].
  - apply (gl_sleep Hlaw).
Qed.

Lemma keeps_on_progress f a b : on_progress inp = Some f -> keeps I (f a b).
Proof using Hlaw.
  unfold on_progress. destruct (_ || _); [|done]. intros [= <-]. apply keeps_sbind.
  - apply keeps_when_some. intros tell Ht. by apply (gl_progress Hlaw).
  - intros _. destruct (_ && _); [|apply keeps_sret]. apply keeps_when_some. intros tell Ht. by apply (gl_remote Hlaw).
Qed.

Lemma keeps_awaitAgentReply channel runId namespace opts :
  gd_agentChannel deps = Some channel -> keeps I (awaitAgentReply deps channel runId namespace opts).
Proof using Hlaw.
  intros Hc. apply keeps_sbind; [|intros _; by apply (gl_awaitReply Hlaw)]. apply keeps_when_some. intros watch Hw.
  destruct (gd_agentRunLauncher deps) as [l|] eqn:Hl; [|done]. by eapply (gl_whenFailed Hlaw).
Qed.

Lemma keeps_collect channel runId opts :
  gd_agentChannel deps = Some channel -> ar_onProgress opts = on_progress inp ->
  (forall f a b d, ar_onToolCall opts = Some f -> keeps I (f a b d)) -> keeps I (collect_reply deps channel runId opts).
Proof using Hlaw.
  intros Hc Hp Ht w Hw. unfold collect_reply.
  assert (Hr : keeps I (ac_reply channel runId opts)).
  { eapply (gl_reply Hlaw); [done| |done]. intros f a b. rewrite Hp. apply keeps_on_progress. }
  specialize (Hr w Hw). destruct (ac_reply channel runId opts w) as [outcome w1].
  destruct (gd_agentRunLauncher deps) as [l|] eqn:Hl; [|done]. by apply (gl_stop Hlaw _ Hl).
Qed.

(** The handler of a run's calls runs what its agent may call. *)
Lemma keeps_handler channel state runId agent a b d :
  inv n_checkActiveAgentRun state \/ inv n_delegateToAgent state ->
  gd_agentChannel deps = Some channel -> seen_agent agent -> keeps I (tool_call_handler deps inp channel state runId agent a b d).
Proof using Hlaw.
  intros Hinv Hc Ha. eapply handler_keeps; [apply dispatch_law|..].
  - intros resolve Hr r c o. by eapply (gl_resolve Hlaw).
  - intros found act Hf Hrefs (Hgate & Hro & Hact). destruct Hgate as [[=]|Hgate].
    assert (Hcall : forall input, sub_agent_call Resolved SeenAgent deps inp start found input).
    { intros input. exists b. split; [done|]. left. by exists agent. }
    destruct act as [t opts|t i|t i subject].
    + destruct Hact as (-> & Hargs & Hread & _). split_and!; [eexists; split; [done|by right]|done|done].
    + destruct Hact as [-> _]. right. by split.
    + destruct Hact as (-> & _ & Hs & Hr). split_and!; [by right|done|]. simpl in Hs.
      destruct (s_identity state) as [who|] eqn:Hi; [|done]. injection Hs as <-. exists (id_roles who).
      destruct Hinv as [[Hcore _ _ _ _ _]|[Hcore _ _ _ _ _]]; by eapply co_identity.
Qed.

(** The updates of an agent's turn; none of them is guarded. *)
Definition plain (u : Update) : bool := no_grant u && no_run u && no_turn u && no_call u.
(** Those that a pause for a sub-agent's call adds. *)
Definition late (u : Update) : bool := no_grant u && no_run u.

Lemma pause_updates identity agent runId callId tool input expiresAt :
  updates late (subAgentApprovalPause identity agent runId callId tool input expiresAt).
Proof using. unfold subAgentApprovalPause. listed. Qed.

Lemma resumable_updates runId : updates late (resumableAgentTurnOutcome inp runId).
Proof using. unfold resumableAgentTurnOutcome. listed. Qed.

Lemma reply_updates_ok agent reply : updates late (reply_updates inp agent reply).
Proof using. unfold reply_updates. listed. Qed.

Lemma replacement_ok gateway provider agentId subject state :
  port_quiet I gateway ->
  ensures I (fun o => forall us, o = Some us -> updates late us)
    (startReplacementLink parse_url url_pathname set_pathname searchParams_set url_toString deps inp gateway state provider agentId subject).
Proof using Hlaw.
  intros Hq. unfold startReplacementLink. destruct (s_identity state) as [who|]; [|by apply ensures_sret].
  eapply ensures_after; [apply keeps_page_start_of|]. intros page. eapply ensures_after.
  { destruct page; [apply keeps_sret|]. apply keeps_scatch; [|intros; apply keeps_sret].
    apply keeps_sbind; [apply (pq_start Hq)|intros; apply keeps_sret]. }
  intros [started|]; [|by apply ensures_sret]. eapply ensures_after.
  { apply keeps_when_some. intros f Hf. by apply (gl_report Hlaw). }
  intros _. apply ensures_pure. intros w us [= <-]. listed.
Qed.

Lemma failure_ok err state agent :
  ensures I (updates late)
    (handleAgentTurnFailure parse_url url_pathname set_pathname searchParams_set url_toString inherited_text deps inp err state agent).
Proof using Hlaw.
  assert (Hplain : ensures I (updates late) (sret (E := string) [u_fail (agentTurnErrorMessage err)])) by returns.
  unfold handleAgentTurnFailure. destruct err as [[m|m|code m|c t i e]|m]; try exact Hplain.
  destruct (s_identity state) as [who|]; [|exact Hplain].
  destruct (if str_empty code then _ else _) as [provider|]; [|exact Hplain].
  destruct (identityGatewayFor deps provider) as [gw|] eqn:Hgw; [|exact Hplain]. apply gateway_quiet in Hgw.
  eapply ensures_after.
  { destruct (port_invalidate gw) eqn:Hi; [|apply keeps_sret]. apply keeps_scatch; [|intros; apply keeps_sret].
    apply keeps_sbind; [by eapply (pq_invalidate Hgw)|intros; apply keeps_sret]. }
  intros invalidated. destruct (negb invalidated); [returns|].
  eapply ensures_sbind; [by apply replacement_ok|]. intros [us|] Hus; [by apply ensures_sret, Hus|]. returns.
Qed.

Lemma keeps_clear_anchor : keeps I (clear_anchor deps inp).
Proof using Hlaw.
  unfold clear_anchor. destruct (truthy_str _); [|apply keeps_sret]. apply keeps_when_some. intros f Hf. by apply (gl_clear Hlaw).
Qed.

Lemma continued_ok state agent runId err :
  seen_agent agent ->
  ensures I (updates late)
    (continued_failure parse_url url_pathname set_pathname searchParams_set url_toString inherited_text deps inp state agent runId err).
Proof using Hlaw.
  intros Ha.
  assert (Hfail : ensures I (updates late)
            (do! us <- handleAgentTurnFailure parse_url url_pathname set_pathname searchParams_set url_toString inherited_text deps inp err state agent ;;
             sret (u_agentRunId (Some runId) :: us))).
  { eapply ensures_sbind; [apply failure_ok|]. intros us Hus. apply ensures_sret. by apply Forall_cons_2. }
  unfold continued_failure. destruct err as [[m|m|code m|c t i e]|m]; try exact Hfail.
  - destruct (s_activeAgentRunAwaitingReply state); [|exact Hfail].
    eapply ensures_after; [apply keeps_clear_anchor|]. intros _. returns.
  - apply ensures_sret. apply updates_app; [listed|apply resumable_updates].
  - apply ensures_sret, pause_updates.
Qed.

(** ** The nodes that look up what the turn is about *)

Lemma keeps_fits text l : Forall (keeps I) ((fun c : ToolSearchResult => gd_toolFitChecker deps text c.1) <$> l).
Proof using Hlaw. apply Forall_fmap, Forall_forall. intros c _. apply (gl_toolFit Hlaw). Qed.

Lemma filtered_elem {A : Type} (l : list A) flags x : x ∈ (List.filter snd (zip l flags)).*1 -> x ∈ l.
Proof.
  rewrite list_elem_of_fmap. intros ([y b] & -> & Hin%list_elem_of_In%filter_In). destruct Hin as [Hin _].
  apply list_elem_of_In, elem_of_zip_l in Hin. done.
Qed.

Lemma fitting_ok text l : ensures I (fun fit => forall c, c ∈ fit -> c ∈ l) (fitting deps text l).
Proof using Hlaw.
  eapply ensures_after; [apply keeps_promise_all, keeps_fits|]. intros flags. apply ensures_sret. intros c. apply filtered_elem.
Qed.

Lemma resolved_of n state who : inv n state -> s_identity state = Some who -> Resolved (id_subject who) (id_roles who).
Proof using. intros [Hcore _ _ _ _ _]. by eapply co_identity. Qed.

Lemma query_tools_ok text who :
  Resolved (id_subject who) (id_roles who) ->
  ensures I (Forall (fun h : ToolSearchResult => seen_tool h.1)) (query_tools deps text who).
Proof using Hlaw.
  intros Hr. eapply ensures_weaken; [apply (gl_tool_query Hlaw)|]. intros l Hl. eapply Forall_impl; [exact Hl|].
  intros h Hh. by eexists _, _.
Qed.

Lemma plan_fallback_ok state tools :
  ensures I (fun o => forall t args key, o = Some (t, args, key) -> t ∈ tools) (planFallbackToolCall deps inp state tools).
Proof using Hlaw.
  unfold planFallbackToolCall. destruct tools as [|t0 ts]; [by apply ensures_sret|].
  eapply ensures_after; [apply (gl_planner Hlaw)|]. intros [response|toolId toolArgs key|]; apply ensures_sret; try done.
  intros t args k. destruct (List.find _ (t0 :: ts)) as [t'|] eqn:Hf; [|done]. intros [= <- _ _].
  apply find_some in Hf as [Hin _]. by apply list_elem_of_In.
Qed.

Lemma given_seen t : seen_tool t -> tool_given t.
Proof using. by left. Qed.

Lemma given_caller t : t ∈ in_callerTools inp -> tool_given t.
Proof using. by right; left. Qed.

Lemma select_fallback_ok n state :
  inv n state -> ensures I (fun o => forall t args key, o = Some (t, args, key) -> tool_given t) (selectFallbackTool deps inp state).
Proof using Hlaw.
  intros Hinv. unfold selectFallbackTool. destruct (s_identity state) as [who|] eqn:Hi; [|by apply ensures_sret].
  eapply ensures_sbind; [by eapply query_tools_ok, resolved_of|]. intros candidates Hc.
  assert (Hmore : ensures I (fun o => forall t args key, o = Some (t, args, key) -> tool_given t)
            (do! fit <- fitting deps (s_request state) candidates ;;
             planFallbackToolCall deps inp state (fit.*1 ++ in_callerTools inp))).
  { eapply ensures_sbind; [apply fitting_ok|]. intros fit Hfit. eapply ensures_weaken; [apply plan_fallback_ok|].
    intros o Ho t args key Heq. apply Ho in Heq. apply elem_of_app in Heq as [Hin|Hin]; [|by apply given_caller].
    apply list_elem_of_fmap in Hin as (h & -> & Hin). apply given_seen. rewrite Forall_forall in Hc. by apply Hc, Hfit. }
  destruct candidates; [|exact Hmore]. destruct (in_callerTools inp) eqn:Ect; [by apply ensures_sret|]. by rewrite <-Ect in *.
Qed.

Lemma keeps_best_effort state : keeps I (callBestEffort deps inp state).
Proof using Hlaw.
  apply (gl_responder Hlaw). intros f d Hf. destruct (in_progressListener inp) as [tell|] eqn:Ht; [|done].
  injection Hf as <-. by apply (gl_progress Hlaw).
Qed.

Lemma keeps_best_effort_node state : keeps I (node_bareAnswer deps inp state).
Proof using Hlaw. apply keeps_sbind; [apply keeps_best_effort|intros; apply keeps_sret]. Qed.

(** The channels that the nodes of retrieval and selection write. *)
Definition choosing (u : Update) : bool := no_grant u && no_run u && no_turn u.

Lemma no_match_ok n state : inv n state -> ensures I (updates choosing) (noMatchFallback deps inp state).
Proof using Hlaw.
  intros Hinv. eapply ensures_sbind; [by eapply select_fallback_ok|]. intros [[[t args] key]|] Ht.
  - apply ensures_sret. specialize (Ht t args key eq_refl). listed.
  - eapply ensures_after; [apply keeps_best_effort|]. intros response. returns.
Qed.

Lemma identity_ok state : inv n_resolveIdentity state -> ensures I (updates choosing) (node_resolveIdentity deps inp state).
Proof using Hlaw.
  intros Hinv. unfold node_resolveIdentity.
  eapply (ensures_sbind _ (fun r => forall who, r = Ok who -> Resolved (id_subject who) (id_roles who))).
  - unfold resolveIdentity. eapply (ensures_sbind _ (fun o => forall who, o = Some who -> Resolved (id_subject who) (id_roles who))).
    + destruct (gd_forwardedUserIdentityResolver deps) eqn:Hf; [|apply (gl_identity Hlaw)].
      destruct (truthy_str _); [by apply (gl_forwarded Hlaw)|apply (gl_identity Hlaw)].
    + intros [who|] Hwho; [|by apply ensures_sret]. eapply ensures_after.
      * unfold resolvePrincipal. apply keeps_sbind; [|intros; apply keeps_sret]. apply keeps_resolveActorLogin; intros gw.
        -- intros Hgw. apply (pq_getToken (gl_identityLink Hlaw Hgw)).
        -- intros f Hgw Hf. by eapply (pq_login (gl_identityLink Hlaw Hgw)).
      * intros principal. apply ensures_sret. intros who' [= <-]. exact (Hwho who eq_refl).
  - intros [who|e] Hr; [|returns]. apply ensures_sret. specialize (Hr who eq_refl). listed.
Qed.

(** What a lookup by id gives, of which the first is taken. *)
Lemma agent_ids_ok store ids who :
  gd_agentStore deps = Some store -> Resolved (id_subject who) (id_roles who) ->
  ensures I (Forall (fun h : AgentSearchResult => seen_agent h.1)) (store_getByIds store ids (id_roles who)).
Proof using Hlaw.
  intros Hs Hr. eapply ensures_weaken; [by apply (gl_agent_ids Hlaw)|]. intros l Hl. eapply Forall_impl; [exact Hl|].
  intros h Hh. by eexists _, _.
Qed.

Lemma tool_ids_ok ids who :
  Resolved (id_subject who) (id_roles who) ->
  ensures I (Forall (fun h : ToolSearchResult => seen_tool h.1)) (store_getByIds (gd_vectorStore deps) ids (id_roles who)).
Proof using Hlaw.
  intros Hr. eapply ensures_weaken; [by apply (gl_tool_ids Hlaw)|]. intros l Hl. eapply Forall_impl; [exact Hl|].
  intros h Hh. by eexists _, _.
Qed.

Lemma trigger_ok state : inv n_checkEventTrigger state -> ensures I (updates choosing) (node_checkEventTrigger deps inp state).
Proof using Hlaw.
  intros Hinv. unfold node_checkEventTrigger. destruct (s_identity state) as [who|] eqn:Hi; [|returns].
  pose proof (resolved_of _ _ _ Hinv Hi) as Hr.
  destruct (truthy_str (in_forcedSkillId inp)).
  { eapply ensures_after; [apply (gl_skill_ids Hlaw)|]. intros [|skill l]; returns. }
  destruct (truthy_str (in_forcedAgentId inp)).
  { destruct (gd_agentStore deps) as [store|] eqn:Hs; [|returns].
    eapply ensures_sbind; [by apply agent_ids_ok|]. intros [|[agent n] l] Hl; [returns|].
    apply Forall_cons_1 in Hl as [Ha _]. returns. }
  destruct (truthy_str (in_forcedToolId inp)); [|returns].
  eapply ensures_sbind; [by apply tool_ids_ok|]. intros [|[t n] l] Hl; [returns|].
  apply Forall_cons_1 in Hl as [Ht%given_seen _]. returns.
Qed.

Lemma out_of_scope_keeps n state skill : inv n state -> keeps I (hasOutOfScopeToolMatch deps state skill).
Proof using Hlaw.
  intros Hinv. unfold hasOutOfScopeToolMatch. destruct (s_identity state) as [who|] eqn:Hi; [|apply keeps_sret].
  apply keeps_sbind.
  - apply ensures_keeps. eapply ensures_weaken; [by eapply query_tools_ok, resolved_of|done].
  - intros candidates. destruct (List.filter _ _) as [|c cs]; [apply keeps_sret|].
    apply keeps_sbind; [apply keeps_promise_all, keeps_fits|intros; apply keeps_sret].
Qed.

Lemma active_skill_ok state : inv n_checkActiveSkill state -> ensures I (updates choosing) (node_checkActiveSkill deps inp state).
Proof using Hlaw.
  intros Hinv. unfold node_checkActiveSkill. destruct (s_identity state) as [who|]; [|returns].
  destruct (_ || _); [returns|]. eapply ensures_after; [apply (gl_skill_ids Hlaw)|]. intros [|skill l]; [returns|].
  eapply ensures_after; [apply (gl_skillFit Hlaw)|]. intros fits. destruct (negb fits); [returns|].
  eapply ensures_after; [by eapply out_of_scope_keeps|]. intros out. returns.
Qed.

Lemma own_session_of n state who :
  inv n state -> s_identity state = Some who -> own_session inp who = true -> session_of Resolved inp (id_subject who).
Proof using.
  intros Hinv Hi Hown. apply bool_decide_eq_true in Hown. split; [done|]. exists (id_roles who). by eapply resolved_of.
Qed.

(** The channels that a decision restores the skill by. *)
Definition resuming (u : Update) : bool := no_grant u && no_run u && no_call u.

(** After an approval: the paused call is the granted one. *)
Lemma approved_inv p us state :
  turn_inv Resolved Seen SeenAgent inp start n_checkPendingApproval state -> paused Resolved inp start p -> approves start ->
  updates resuming us ->
  let head := [u_approvalPending None; u_approvalGranted true; u_selectedTool (Some (ap_tool p))] ++
              u_opt (ap_toolArgs p) (fun args => u_toolArgs (Some args)) in
  inv n_runTool (merge (head ++ us) state) /\
  forall n', route_checkPendingApproval (merge (head ++ us) state) = Some n' -> n' = n_runTool.
Proof using.
  intros [Hcore _ _ Hrun _ _] Hp Happ Hus head. rewrite merge_app.
  assert (Hgrant : writes no_grant us) by (eapply updates_writes; [|exact Hus]; by intros []).
  assert (Hruns : writes no_run us) by (eapply updates_writes; [|exact Hus]; by intros []).
  assert (Hcalls : writes no_call us) by (eapply updates_writes; [|exact Hus]; by intros []).
  assert (Hhead : Forall good head).
  { repeat apply Forall_cons_2; [done|done| |by apply Forall_u_opt]. right; right; right. exists p. split; [done|by left]. }
  destruct (keep_run us (merge head state) Hruns) as [Ea Er]. destruct (keep_call us (merge head state) Hcalls) as [Et Eta].
  split; [split; try done|].
  - apply core_merge; [|by eapply updates_good]. by apply core_merge.
  - intros _. exists p. rewrite Et, Eta. subst head. split_and!; [done|done|by destruct (ap_toolArgs p)|].
    intros raw Hraw. by rewrite Hraw.
  - rewrite Ea, Er. subst head. by destruct (ap_toolArgs p).
  - intros n'. unfold route_checkPendingApproval. rewrite (keep_grant us _ Hgrant). destruct (failed _); [done|].
    subst head. destruct (ap_toolArgs p); cbn; congruence.
Qed.

(** Where the turn goes on when nothing is granted. *)
Lemma ungranted_route state n' :
  s_approvalGranted state = false -> route_checkPendingApproval state = Some n' -> undecided n' = false.
Proof using. unfold route_checkPendingApproval. intros ->. repeat case_match; intros; by simplify_eq. Qed.

(** The turn that a decision on a paused call becomes. *)
Lemma approval_ok state :
  inv n_checkPendingApproval state ->
  ensures I (fun us => forall n', route_checkPendingApproval (merge us state) = Some n' -> inv n' (merge us state))
    (node_checkPendingApproval inp state).
Proof using.
  intros Hinv. unfold node_checkPendingApproval.
  assert (Hmiss : forall n', route_checkPendingApproval (merge [] state) = Some n' -> inv n' (merge [] state)).
  { intros n'. unfold route_checkPendingApproval. simpl. destruct Hinv as [H1 H2 H3 H4 H5 H6].
    destruct (s_approvalGranted state) eqn:Hg; [by specialize (H3 eq_refl)|].
    intros Hn. assert (undecided n' = false) as Hu by (repeat case_match; by simplify_eq).
    split; unfold unanswered; rewrite ?Hu; try done. intros Hg'. congruence. }
  destruct (s_identity state) as [who|] eqn:Hi; [|by apply ensures_sret].
  destruct (s_approvalPending state) as [p|] eqn:Hp; [|by apply ensures_sret].
  destruct (negb (own_session inp who) || _) eqn:Hown; [by apply ensures_sret|].
  apply orb_false_iff in Hown as [Hown%negb_false_iff Hsub%negb_false_iff%bool_decide_eq_true].
  pose proof (own_session_of _ _ _ Hinv Hi Hown) as Hsession.
  destruct Hinv as [Hcore Hgrant Hloop Hrun Hund Huna]. destruct (Hund eq_refl) as [Hreq Hpend].
  assert (Hpaused : paused Resolved inp start p) by (split; [congruence|by eexists]).
  set (resumed := u_opt (ap_skill p) (fun skill => u_selectedSkill (Some skill)) ++ u_opt (ap_skillTools p) u_skillTools).
  assert (Hresumed : updates resuming resumed).
  { apply updates_app; apply updates_opt; [done|]. intros l Hl. split; [|done]. apply Forall_forall. intros t Ht. right; right; right.
    exists p. split; [done|]. right. by rewrite Hl. }
  assert (Hgf : s_approvalGranted state = false) by (destruct (s_approvalGranted state); [by specialize (Hloop eq_refl)|done]).
  apply ensures_sret. destruct (parseApprovalDecision (Some (s_request state))) eqn:Hdec; intros n' Hn'.
  - rewrite app_assoc in Hn' |- *. assert (Hkey : updates resuming (u_opt (ap_instanceKey p) (fun key => u_toolInstanceKey (Some key)) ++ resumed)).
    { apply updates_app; [by apply updates_opt|done]. }
    destruct (approved_inv p _ state ltac:(by split) Hpaused ltac:(unfold approves; by rewrite <-Hreq) Hkey) as [Hinv Hroute].
    by rewrite (Hroute n' Hn').
  - assert (Hus : updates resuming ([u_approvalPending None; u_text APPROVAL_DENIED_MESSAGE;
                    u_history state (ap_toolId p) (ap_toolArgs p ?? EmptyString) (Some APPROVAL_DENIED_MESSAGE)] ++ resumed))
      by (apply updates_app; [listed|done]).
    assert (Hwg : writes no_grant _) by (eapply updates_writes; [|exact Hus]; by intros []).
    assert (undecided n' = false) as Hu by (eapply ungranted_route; [|exact Hn']; by rewrite keep_grant).
    apply (inv_step _ _ _ _ _ n_checkPendingApproval); try done.
    + by eapply updates_good.
    + eapply updates_writes; [|exact Hus]; by intros [].
    + by rewrite Hu.
    + unfold unanswered. by rewrite Hu.
  - exfalso. revert Hn'. unfold route_checkPendingApproval. rewrite keep_grant, Hgf by (by repeat constructor). by destruct (failed _).
Qed.

(** The held call of a sub-agent, run once it is approved. *)
Lemma approved_dispatch_keeps who p :
  session_of Resolved inp (id_subject who) -> ts_subAgentApprovalPending start = Some p -> sap_subject p = id_subject who ->
  approves start -> keeps I (approved_dispatch deps inp who p).
Proof using Hlaw.
  intros Hs Hp Hsub Happ. unfold approved_dispatch. destruct (catalog_find _ _) as [t|] eqn:Hf; [|apply keeps_sret].
  apply keeps_scatch; [|intros; apply keeps_sret]. eapply dispatch_keeps; [apply dispatch_law|].
  intros act (_ & Hro & Hact).
  assert (Hcall : sub_agent_call Resolved SeenAgent deps inp start t (sap_input p)).
  { exists (sap_tool p). split; [done|]. right. exists p. split_and!; try done. by rewrite Hsub. }
  destruct act as [t' opts|t' i|t' i subject].
  - destruct Hact as (-> & Hargs & Hread & _). split_and!; [eexists; split; [done|by right]|done|done].
  - destruct Hact as [-> ->]. right. by split.
  - destruct Hact as (-> & -> & [= <-] & Hr). split_and!; [by right|done|]. by destruct Hs as [_ ?].
Qed.

Lemma sub_approval_ok state :
  inv n_checkPendingSubAgentApproval state ->
  ensures I (fun us => forall n', route_checkPendingSubAgentApproval (merge us state) = Some n' -> inv n' (merge us state))
    (node_checkPendingSubAgentApproval deps inp state).
Proof using Hlaw.
  intros Hinv. unfold node_checkPendingSubAgentApproval.
  assert (Hmiss : forall n', route_checkPendingSubAgentApproval (merge [] state) = Some n' -> inv n' (merge [] state)).
  { intros n' _. apply (inv_step _ _ _ _ _ n_checkPendingSubAgentApproval); [done|by constructor..|done| |done]. by split; [|constructor]. }
  destruct (s_identity state) as [who|] eqn:Hi; [|by apply ensures_sret].
  destruct (s_subAgentApprovalPending state) as [p|] eqn:Hp; [|by apply ensures_sret].
  destruct (gd_agentChannel deps) as [channel|] eqn:Hc; [|by apply ensures_sret]. simpl.
  destruct (ac_resolveToolCall channel) as [resolve|] eqn:Hres; [|by apply ensures_sret].
  destruct (negb (own_session inp who) || _) eqn:Hown; [by apply ensures_sret|].
  apply orb_false_iff in Hown as [Hown%negb_false_iff Hsub%negb_false_iff%bool_decide_eq_true].
  pose proof (own_session_of _ _ _ Hinv Hi Hown) as Hsession.
  pose proof (ti_undecided _ _ _ _ _ _ _ Hinv eq_refl) as [Hreq _]. pose proof (ti_unanswered _ _ _ _ _ _ _ Hinv eq_refl) as Hpend.
  assert (Hanswered : forall n', let us := [u_subAgentApprovalPending None; u_activeAgentId (Some (sap_agentId p));
              u_activeAgentRunId (Some (sap_runId p)); u_activeAgentRunAwaitingReply true] in
            route_checkPendingSubAgentApproval (merge us state) = Some n' -> inv n' (merge us state)).
  { intros n' us Hn'. assert (n' = n_checkActiveAgentRun) as ->.
    { revert Hn'. unfold route_checkPendingSubAgentApproval.
      change (s_subAgentApprovalPending (merge us state)) with (@None SubAgentApprovalPending).
      destruct (failed _); [done|]. destruct (s_subAgentApprovalWaiting _); [done|]. by intros [= <-]. }
    destruct Hinv as [Hcore _ Hloop _ _ _].
    assert (Hg : s_approvalGranted (merge us state) = s_approvalGranted state) by (apply keep_grant; by repeat constructor).
    split; try done.
    - apply core_merge; [done|]. by repeat constructor.
    - intros Hgr. rewrite Hg in Hgr. by specialize (Hloop Hgr). }
  destruct (parseApprovalDecision _) eqn:Hdec.
  - eapply ensures_after; [apply approved_dispatch_keeps; try done|]; [congruence|unfold approves; by rewrite <-Hreq|].
    intros outcome. eapply ensures_after; [by eapply (gl_resolve Hlaw)|]. intros _. by apply ensures_sret.
  - eapply ensures_after; [by eapply (gl_resolve Hlaw)|]. intros _. by apply ensures_sret.
  - apply ensures_sret. intros n'. unfold route_checkPendingSubAgentApproval.
    replace (s_subAgentApprovalWaiting _) with true by reflexivity. by destruct (failed _).
Qed.

(** The channels that the link's check writes. *)
Definition relinking (u : Update) : bool := no_grant u && no_run u.

Lemma identity_link_ok state :
  inv n_checkPendingIdentityLink state -> ensures I (updates relinking) (node_checkPendingIdentityLink deps inp state).
Proof using Hlaw.
  intros Hinv. unfold node_checkPendingIdentityLink. destruct (s_identity state) as [who|] eqn:Hi; [|returns].
  pose proof (resolved_of _ _ _ Hinv Hi) as Hr.
  destruct (s_pendingIdentityLink state) as [p|]; [|returns]. destruct (negb _); [returns|].
  destruct (identityGatewayFor deps (pl_provider p)) as [gw|] eqn:Hgw; [|returns]. apply gateway_quiet in Hgw.
  destruct (gd_agentStore deps) as [store|] eqn:Hs; [|returns].
  eapply ensures_after.
  { unfold link_status. case_bool_decide; [apply (pq_poll Hgw)|]. apply keeps_sbind; [apply (pq_getToken Hgw)|]. intros t. apply keeps_pure. }
  intros []; [|..|returns|returns].
  - apply ensures_pure. intros w. destruct (_ <? _)%Z; [unfold still_waiting|]; listed.
  - eapply ensures_sbind; [by apply agent_ids_ok|]. intros [|[agent k] l] Hl; [returns|].
    apply Forall_cons_1 in Hl as [Ha _]. returns.
Qed.

(** *** The run of the conversation *)

Lemma continue_ok state agent runId channel :
  inv n_checkActiveAgentRun state -> gd_agentChannel deps = Some channel -> seen_agent agent ->
  (s_activeAgentRunAwaitingReply state = false -> allows (ga_prompt runId (s_request state))) ->
  ensures I (updates late)
    (continue_run parse_url url_pathname set_pathname searchParams_set url_toString inherited_text deps inp channel state agent runId).
Proof using Hlaw.
  intros Hinv Hc Ha Hprompt. unfold continue_run. set (opts := await_options _ _ _ _ _).
  apply ensures_shandle; [|intros err; by apply continued_ok].
  eapply ensures_after; [by apply keeps_with_errors, keeps_awaitAgentReply|]. intros _. eapply ensures_after.
  { destruct (s_activeAgentRunAwaitingReply state); [apply keeps_sret|]. apply keeps_with_errors, (gl_prompt Hlaw); [done|by apply Hprompt]. }
  intros _. eapply ensures_after.
  { apply keeps_collect; [done|done|]. intros f a b d [= <-]. apply keeps_handler; [by left|done|done]. }
  intros reply. apply ensures_sret. apply updates_app; [listed|apply reply_updates_ok].
Qed.

Lemma active_run_ok state :
  inv n_checkActiveAgentRun state ->
  ensures I (updates late)
    (node_checkActiveAgentRun parse_url url_pathname set_pathname searchParams_set url_toString inherited_text deps inp state).
Proof using Hlaw.
  intros Hinv. unfold node_checkActiveAgentRun. destruct (s_selectedSkill state); [returns|].
  destruct (gd_agentStore deps) as [store|] eqn:Hs; [|returns]. destruct (gd_agentChannel deps) as [channel|] eqn:Hc; [|returns].
  destruct (s_identity state) as [who|] eqn:Hi; [|returns]. destruct (_ || _) eqn:Hids; [returns|].
  apply orb_false_iff in Hids as [[Hrun _]%orb_false_iff Hown%negb_false_iff].
  pose proof (own_session_of _ _ _ Hinv Hi Hown) as Hsession. pose proof (resolved_of _ _ _ Hinv Hi) as Hr.
  eapply ensures_sbind; [by apply agent_ids_ok|]. intros [|[agent k] l] Hl; [returns|]. apply Forall_cons_1 in Hl as [Ha _].
  destruct (in_turnReadOnly inp && _ && _) eqn:Hro; [returns|].
  eapply ensures_after.
  { destruct (s_activeAgentRunAwaitingReply state); [|apply keeps_sret]. unfold recorded_reply.
    destruct (ac_recordedReply channel) eqn:Hrec; [|apply keeps_sret]. apply keeps_scatch; [by eapply (gl_recorded Hlaw)|].
    intros; apply keeps_sret. }
  intros [reply|].
  - eapply ensures_after; [apply keeps_ignoring, keeps_clear_anchor|]. intros _. eapply ensures_after.
    { apply keeps_ignoring, keeps_when_some. intros f Hf. by eapply (gl_forget Hlaw). }
    intros _. apply ensures_sret. apply updates_app; [listed|apply reply_updates_ok].
  - apply continue_ok; [done..|]. intros Haw. split_and!.
    + rewrite <-(ti_run _ _ _ _ _ _ _ Hinv Haw). by destruct (s_activeAgentRunId state).
    + by eexists.
    + intros Hread. rewrite Hread, Haw in Hro. simpl in Hro. by destruct (in_activeAgentRunReadOnly inp).
Qed.

(** ** The nodes of retrieval, selection and delegation *)

Lemma capability_ok state : ensures I (updates choosing) (node_checkNeedsCapability deps state).
Proof using Hlaw. eapply ensures_after; [apply (gl_capability Hlaw)|]. intros b. returns. Qed.

Lemma retrieve_skills_ok state : ensures I (updates choosing) (node_retrieveSkills deps state).
Proof using Hlaw.
  unfold node_retrieveSkills. destruct (s_identity state); [|returns].
  eapply ensures_after; [apply (gl_skill_query Hlaw)|]. intros l. returns.
Qed.

Lemma retrieve_agents_ok state : inv n_retrieveAgents state -> ensures I (updates choosing) (node_retrieveAgents deps state).
Proof using Hlaw.
  intros Hinv. unfold node_retrieveAgents. destruct (gd_agentStore deps) as [store|] eqn:Hs; [|returns].
  destruct (s_identity state) as [who|] eqn:Hi; [|returns].
  eapply ensures_sbind; [by apply (gl_agent_query Hlaw)|]. intros l Hl. apply ensures_sret. repeat constructor.
  eapply Forall_impl; [exact Hl|]. intros h Hh. exists (id_subject who), (id_roles who). split; [by eapply resolved_of|done].
Qed.

Lemma retrieve_tools_ok state : inv n_retrieveTools state -> ensures I (updates choosing) (node_retrieveTools deps state).
Proof using Hlaw.
  intros Hinv. unfold node_retrieveTools. destruct (gd_delegateSelector deps); [|returns].
  destruct (s_identity state) as [who|] eqn:Hi; [|returns].
  eapply ensures_sbind; [by eapply query_tools_ok, resolved_of|]. intros l Hl.
  assert (Hmore : ensures I (updates choosing) (do! fit <- fitting deps (s_request state) l ;; sret (E := string) [u_toolCandidates fit])).
  { eapply ensures_sbind; [apply fitting_ok|]. intros fit Hfit. apply ensures_sret. repeat constructor.
    apply Forall_forall. intros h Hh. rewrite Forall_forall in Hl. by apply Hl, Hfit. }
  destruct l; [returns|exact Hmore].
Qed.

Lemma take_choice_ok state choice :
  inv n_selectDelegate state -> offered (s_skillCandidates state) (s_agentCandidates state) (s_toolCandidates state) choice ->
  ensures I (updates choosing) (take_choice deps inp state choice).
Proof using Hlaw.
  intros Hinv Hoff. pose proof (ti_core _ _ _ _ _ _ _ Hinv) as [_ Hagents Htools _ _ _].
  destruct choice as [skill|agent|tool]; cbn [offered take_choice] in Hoff |- *.
  - returns.
  - apply list_elem_of_fmap in Hoff as (h & -> & Hh). rewrite Forall_forall in Hagents. specialize (Hagents h Hh). returns.
  - apply list_elem_of_fmap in Hoff as (h & -> & Hh). rewrite Forall_forall in Htools. specialize (Htools h Hh).
    eapply ensures_sbind; [apply plan_fallback_ok|]. intros [[[t args] key]|] Ht; [|by eapply no_match_ok].
    specialize (Ht t args key eq_refl). assert (tool_given t) as Hg.
    { apply elem_of_cons in Ht as [->|Ht]; [by apply given_seen|by apply given_caller]. }
    apply ensures_sret. apply updates_app; [listed|by apply updates_opt].
Qed.

Lemma select_ok state : inv n_selectDelegate state -> ensures I (updates choosing) (node_selectDelegate deps inp state).
Proof using Hlaw.
  intros Hinv. unfold node_selectDelegate. destruct (gd_delegateSelector deps) as [select|] eqn:Hd.
  - assert (Hsel : ensures I (updates choosing)
              (do! choice <- select (s_request state) (s_skillCandidates state) (s_agentCandidates state) (s_toolCandidates state) ;;
               match choice with
               | Some c => take_choice deps inp state c
               | None => noMatchFallback deps inp state
               end)).
    { eapply ensures_sbind; [by apply (gl_delegateSelector Hlaw)|]. intros [c|] Hc; [by apply take_choice_ok; [|apply Hc]|by eapply no_match_ok]. }
    repeat case_match; try exact Hsel. by eapply no_match_ok.
  - assert (Hsel : ensures I (updates choosing)
              (do! selected <- gd_skillSelector deps (s_request state) (s_skillCandidates state) ;;
               match selected with
               | Some skill => sret [u_selectedSkill (Some skill)]
               | None => noMatchFallback deps inp state
               end)).
    { eapply ensures_after; [apply (gl_skillSelector Hlaw)|]. intros [skill|]; [returns|by eapply no_match_ok]. }
    destruct (s_skillCandidates state); [by eapply no_match_ok|exact Hsel].
Qed.

Lemma keeps_mark subject agentId runId : keeps I (mark_anchor deps inp subject agentId runId).
Proof using Hlaw.
  unfold mark_anchor. destruct (truthy_str _); [|apply keeps_sret]. apply keeps_when_some. intros f Hf.
  by apply keeps_ignoring, (gl_mark Hlaw).
Qed.

Lemma launch_keeps launcher channel state agent identity runId opts :
  inv n_delegateToAgent state -> gd_agentRunLauncher deps = Some launcher -> gd_agentChannel deps = Some channel ->
  seen_agent agent -> al_readOnly opts = in_turnReadOnly inp ->
  keeps I (launch_and_wait deps inp launcher channel state agent identity runId opts).
Proof using Hlaw.
  intros Hinv Hl Hc Ha Hro. unfold launch_and_wait. apply keeps_sbind; [by apply keeps_with_errors, keeps_awaitAgentReply|].
  intros _. apply keeps_sbind; [apply keeps_with_errors, keeps_mark|]. intros _. apply keeps_sbind.
  - apply keeps_shandle.
    + eapply (gl_launch Hlaw); [done|]. split; [done|]. left. by exists agent.
    + intros e. apply keeps_sbind; [apply keeps_with_errors, keeps_ignoring, keeps_clear_anchor|intros _; apply keeps_sthrow].
  - intros _. apply keeps_sbind; [|intros; apply keeps_sret]. apply keeps_collect; [done|done|].
    intros f a b d [= <-]. apply keeps_handler; [by right|done|done].
Qed.

Lemma keeps_failure err state agent :
  keeps I (handleAgentTurnFailure parse_url url_pathname set_pathname searchParams_set url_toString inherited_text deps inp err state agent).
Proof using Hlaw. apply ensures_keeps. eapply ensures_weaken; [apply failure_ok|done]. Qed.

Lemma delegate_keeps state :
  inv n_delegateToAgent state ->
  keeps I (node_delegateToAgent parse_url url_pathname set_pathname searchParams_set url_toString sleep number_text inherited_text deps inp state).
Proof using Hlaw.
  intros Hinv. unfold node_delegateToAgent. destruct (gd_agentRunLauncher deps) as [launcher|] eqn:Hl; [|apply keeps_sret].
  destruct (gd_agentChannel deps) as [channel|] eqn:Hc; [|apply keeps_sret]. destruct (gd_callbackSecretRef deps); [|apply keeps_sret].
  destruct (s_selectedAgent state) as [agent|] eqn:Ha; [|apply keeps_sret].
  destruct (s_identity state) as [who|] eqn:Hi; [|apply keeps_sret].
  pose proof (co_agent _ _ _ _ _ _ (ti_core _ _ _ _ _ _ _ Hinv) _ Ha) as Hseen.
  apply keeps_sbind.
  { apply keeps_agent_authorize; cbn.
    - intros f a b Hf. destruct (in_progressListener inp) eqn:Hp; [|done]. injection Hf as <-. by apply (gl_progress Hlaw).
    - intros f a b Hf. by apply (gl_report Hlaw). }
  intros [secretEnv actor principal owned|message pending|error]; [|apply keeps_sret..].
  apply keeps_sbind; [apply keeps_uuid|]. intros runId. apply keeps_sbind; [apply keeps_uuid|]. intros jobId.
  apply keeps_shandle; [by apply launch_keeps|]. intros err. unfold launched_failure.
  destruct err as [[m|m|code m|c t i e]|m]; try apply keeps_sret; (apply keeps_sbind; [apply keeps_failure|intros; apply keeps_sret]).
Qed.

(** ** The nodes of the tool loop *)

Lemma load_ok state : inv n_loadSkillTools state -> ensures I (updates choosing) (node_loadSkillTools deps inp state).
Proof using Hlaw.
  intros Hinv. unfold node_loadSkillTools. destruct (s_selectedSkill state) as [skill|]; [|returns].
  destruct (s_identity state) as [who|] eqn:Hi; [|returns]. pose proof (resolved_of _ _ _ Hinv Hi) as Hr.
  assert (Hcaller : Forall tool_given (callerToolsFor (in_callerTools inp) skill)).
  { unfold callerToolsFor. case_bool_decide; [constructor|]. apply Forall_forall. intros t Ht. by apply given_caller. }
  assert (Hload : forall m, ensures I (Forall (fun h : AgentSearchResult => seen_agent h.1)) m ->
            ensures I (updates choosing) (load_catalog deps who skill (callerToolsFor (in_callerTools inp) skill) m)).
  { intros m Hm. eapply ensures_sbind.
    { apply (ensures_promise_pair I (Forall (fun h : ToolSearchResult => seen_tool h.1))); [|exact Hm].
      destruct (skill_toolIds skill); [by apply ensures_sret|by apply tool_ids_ok]. }
    intros [tools agents] [Ht Ha]. simpl in Ht, Ha. cbn zeta. cbn [fst snd].
    set (skillTools := _ ++ _). assert (Hgiven : Forall tool_given skillTools).
    { subst skillTools. repeat apply Forall_app_2; [|done|]; apply Forall_forall; intros t Hin.
      - apply list_elem_of_fmap in Hin as (h & -> & Hin). apply given_seen. rewrite Forall_forall in Ht. by apply Ht.
      - apply list_elem_of_fmap in Hin as (a & -> & Hin). apply list_elem_of_fmap in Hin as (h & -> & Hin).
        right; right; left. exists h.1. split; [|done]. rewrite Forall_forall in Ha. by apply Ha. }
    clearbody skillTools. destruct skillTools; returns. }
  destruct (skill_toolIds skill), (skill_agentIds skill); [returns| | |]; try (by apply Hload, ensures_sret).
  all: destruct (gd_agentStore deps) as [store|] eqn:Hs; [by apply Hload, agent_ids_ok|returns].
Qed.

Definition loops_on n (us : list Update) state : Prop := forall n', route n (merge us state) = Some n' -> inv n' (merge us state).

(** A node of the loop that neither grants nor selects is followed by another. *)
Lemma loop_on n us state :
  inv n state -> in_loop n = true -> (forall n', route n (merge us state) = Some n' -> in_loop n' = true) ->
  updates resuming us -> loops_on n us state.
Proof using.
  intros Hinv Hn Hroute Hus n' Hn'. specialize (Hroute n' Hn').
  assert (undecided n' = false) as Hu by (by destruct n').
  apply (inv_step _ _ _ _ _ n); try done.
  - by eapply updates_good.
  - eapply updates_writes; [|exact Hus]. by intros [].
  - eapply updates_writes; [|exact Hus]. by intros [].
  - intros _. split; [done|]. eapply updates_writes; [|exact Hus]. by intros [].
  - by rewrite Hu.
  - unfold unanswered. by rewrite Hu.
Qed.

Lemma plan_route state n' : route n_planAction state = Some n' -> in_loop n' = true.
Proof using. cbn [route]. unfold route_planAction. repeat case_match; intros; by simplify_eq. Qed.

Lemma run_route state n' : route n_runTool state = Some n' -> in_loop n' = true.
Proof using. cbn [route]. unfold route_runTool. repeat case_match; intros; by simplify_eq. Qed.

Lemma last_result_ok state : updates resuming (lastHistoryResult state).
Proof using. unfold lastHistoryResult. destruct (s_result state), (last_call state); listed. Qed.

Lemma finish_updates state : ensures I (updates resuming) (finishPlanLoop deps state).
Proof using Hlaw.
  unfold finishPlanLoop. assert (Hv : ensures I (updates resuming)
      (sret (E := string) (u_plannedAction (Some planned_finish) :: lastHistoryResult state))).
  { apply ensures_sret. apply Forall_cons_2; [done|apply last_result_ok]. }
  destruct (_ ≫= _) as [exec|]; [|exact Hv]. destruct (s_selectedSkill state); [|exact Hv].
  apply ensures_scatch; [|done]. eapply ensures_after; [apply (gl_planner Hlaw)|].
  intros [response|toolId toolArgs key|]; [|exact Hv..]. destruct (str_empty _); [exact Hv|]. returns.
Qed.

(** Planning a call takes an earlier grant away. *)
Lemma planned_call_inv state tool toolArgs key n' :
  inv n_planAction state -> find_tool (tool_id tool) (s_skillTools state) = Some tool -> in_loop n' = true ->
  inv n' (merge [u_selectedTool (Some tool); u_toolArgs (Some toolArgs); u_toolInstanceKey key;
                 u_plannedAction (Some planned_call_tool); u_approvalGranted false] state).
Proof using.
  intros [Hcore _ _ Hrun _ _] Hf Hn. assert (Hu : undecided n' = false) by (by destruct n').
  split; unfold unanswered; rewrite ?Hu; try done.
  apply core_merge; [done|]. apply find_some in Hf as [Hin%list_elem_of_In _].
  pose proof (co_skillTools _ _ _ _ _ _ Hcore) as Hall. rewrite Forall_forall in Hall. specialize (Hall _ Hin).
  repeat apply Forall_cons_2; try done.
Qed.

Lemma plan_steps state : inv n_planAction state -> ensures I (fun us => loops_on n_planAction us state) (node_planAction deps inp state).
Proof using Hlaw.
  intros Hinv. assert (Hplain : forall us, updates resuming us -> loops_on n_planAction us state).
  { intros us. apply loop_on; [done|done|]. intros n'. apply plan_route. }
  assert (Hfinish : ensures I (fun us => loops_on n_planAction us state) (finishPlanLoop deps state)).
  { eapply ensures_weaken; [apply finish_updates|exact Hplain]. }
  unfold node_planAction. destruct (s_selectedSkill state); [|apply ensures_sret, Hplain; listed].
  destruct (Nat.leb _ _); [exact Hfinish|]. eapply ensures_after; [apply (gl_planner Hlaw)|].
  intros [response|toolId toolArgs key|]; [apply ensures_sret, Hplain; listed| |exact Hfinish].
  destruct (find_tool toolId (s_skillTools state)) as [tool|] eqn:Hf; [|apply ensures_sret, Hplain; listed].
  destruct (repeats _ _ _); [exact Hfinish|]. apply ensures_sret. intros n' Hn'. apply planned_call_inv; [done| |by eapply plan_route].
  pose proof Hf as Hid. apply find_some in Hid as [_ Hid%bool_decide_eq_true]. by rewrite Hid.
Qed.

(** *** runTool *)

Lemma own_call_ok state tool :
  inv n_runTool state -> s_selectedTool state = Some tool -> gated state tool = false -> tool_callerTool tool = None ->
  own_call Resolved Seen SeenAgent inp start tool (call_input (tool_call inp state tool)).
Proof using.
  intros [Hcore Hgrant _ _ _ _] Ht Hg Hc. split; [by eapply co_tool|].
  unfold gated, is_caller_tool in Hg. rewrite Hc in Hg. simpl in Hg.
  apply andb_false_iff in Hg as [Hg%negb_false_iff|Hg]; [right|by left].
  destruct (Hgrant Hg) as (p & Hp & Happ & Hsel & Hargs). exists p. split_and!; [done|done|congruence|].
  intros raw Hraw. unfold tool_call. rewrite (Hargs raw Hraw). cbn. destruct (truthy_str _); [by right; eexists|by left].
Qed.

Lemma surfaced_updates state tool call jobId event : updates resuming (event_updates JSON_stringify state tool call jobId event).
Proof using.
  unfold event_updates. apply Forall_cons_2; [done|]. destruct event as [j c m|j [[| | |body| |]|]|j o]; try listed.
  destruct (extractContinuationToken body). listed.
Qed.

Lemma own_call_may tool input : own_call Resolved Seen SeenAgent inp start tool input -> may_call Resolved Seen SeenAgent deps inp start tool input.
Proof using. by left. Qed.

Lemma agent_turn_keeps launcher channel secretRef tool template call runId jobId secretEnv :
  gd_agentRunLauncher deps = Some launcher -> gd_agentChannel deps = Some channel -> tool_agentRunTemplate tool = Some template ->
  own_call Resolved Seen SeenAgent inp start tool (call_input call) -> (in_turnReadOnly inp = true -> write_capable tool = false) ->
  keeps I (agent_tool_turn deps inp launcher channel secretRef template call runId jobId secretEnv).
Proof using Hlaw.
  intros Hl Hc Ht Hown Hro. unfold agent_tool_turn. apply keeps_sbind; [by apply keeps_with_errors, keeps_awaitAgentReply|]. intros _.
  apply keeps_sbind; [|intros _; by apply keeps_collect].
  apply keeps_with_errors. eapply (gl_launch Hlaw); [done|]. split; [done|]. right. by exists tool.
Qed.

Lemma run_agent_ok state tool template call :
  tool_agentRunTemplate tool = Some template -> own_call Resolved Seen SeenAgent inp start tool (call_input call) ->
  ensures I (updates resuming) (run_agent_tool deps inp state tool template call).
Proof using Hlaw.
  intros Ht Hown. unfold run_agent_tool. destruct (gd_agentRunLauncher deps) as [launcher|] eqn:Hl; [|returns].
  destruct (gd_agentChannel deps) as [channel|] eqn:Hc; [|returns]. destruct (gd_callbackSecretRef deps); [|returns].
  eapply ensures_sbind; [apply credentials_ok|]. intros [secretEnv|error] Hgate; [|returns].
  eapply ensures_after; [apply keeps_uuid|]. intros runId. eapply ensures_after; [apply keeps_uuid|]. intros jobId.
  apply ensures_shandle; [|intros err; returns]. eapply ensures_after; [eapply agent_turn_keeps; try done; by eapply Hgate|].
  intros reply. destruct (negb _); [returns|]. destruct (extractContinuationToken _). returns.
Qed.

Lemma run_live_ok port does state tool input :
  inv n_runTool state -> port ∈ [gd_corpusReader deps; gd_corpusLookup deps; gd_corpusQuery deps] ->
  ensures I (updates resuming)
    (run_live parse_url url_pathname set_pathname searchParams_set url_toString deps port does state tool input).
Proof using Hlaw.
  intros Hinv Hport. unfold run_live. destruct port as [call|] eqn:Hp; [|returns].
  destruct (s_identity state) as [who|] eqn:Hi; [|returns]. pose proof (resolved_of _ _ _ Hinv Hi) as Hr.
  eapply ensures_after; [by eapply (gl_live Hlaw)|]. intros found. eapply ensures_after; [apply keeps_enrich|]. intros text. returns.
Qed.

Lemma run_search_ok state tool exec input :
  inv n_runTool state ->
  ensures I (updates resuming)
    (run_search parse_url url_pathname set_pathname searchParams_set url_toString deps inp state tool exec input).
Proof using Hlaw.
  intros Hinv. unfold run_search. destruct (gd_knowledgeBaseSearcher deps) as [searcher|] eqn:Hs; [|returns].
  destruct (s_identity state) as [who|] eqn:Hi; [|returns]. pose proof (resolved_of _ _ _ Hinv Hi) as Hr.
  eapply ensures_after; [destruct (bool_decide _); [apply keeps_sret|by apply (gl_checkLinks Hlaw)]|].
  intros links. destruct (lc_linkProviders links).
  - eapply ensures_after; [by apply (gl_search Hlaw)|]. intros found. eapply ensures_after; [apply keeps_enrich|]. intros text. returns.
  - eapply ensures_after; [apply keeps_link_gate|]. intros gate. returns.
Qed.

Lemma run_knowledge_base_ok state tool exec input :
  inv n_runTool state ->
  ensures I (updates resuming)
    (run_knowledge_base parse_url url_pathname set_pathname searchParams_set url_toString deps inp state tool exec input).
Proof using Hlaw.
  intros Hinv. unfold run_knowledge_base. destruct (ex_operation exec); try returns; try by apply run_search_ok.
  all: apply run_live_ok; [done|rewrite !elem_of_cons; auto].
Qed.

Lemma run_mcp_ok state tool input :
  inv n_runTool state -> own_call Resolved Seen SeenAgent inp start tool input ->
  ensures I (updates resuming) (run_mcp deps inp state tool input).
Proof using Hlaw.
  intros Hinv Hown. unfold run_mcp. destruct (dd_mcpBrokerClient (gd_dispatch deps)) as [call|] eqn:Hc; [|returns].
  destruct (s_identity state) as [who|] eqn:Hi; [|returns]. destruct (in_turnReadOnly inp) eqn:Hro.
  - destruct (s_selectedSkill state); returns.
  - eapply ensures_after; [|intros called; returns]. eapply (dl_mcp _ _ _ dispatch_law); [done|].
    split_and!; [by apply own_call_may|done|]. eexists. by eapply resolved_of.
Qed.

Lemma run_local_ok state tool call :
  own_call Resolved Seen SeenAgent inp start tool (call_input call) ->
  ensures I (updates resuming) (run_local JSON_stringify deps inp state tool call).
Proof using Hlaw.
  intros Hown. unfold run_local. destruct (dd_localToolExecutor (gd_dispatch deps)) as [run|] eqn:Hr; [|returns].
  eapply ensures_after; [|intros event; apply ensures_sret, surfaced_updates].
  eapply (dl_local _ _ _ dispatch_law); [done|]. by left.
Qed.

Lemma launch_job_keeps tool template opts jobId :
  tool_jobTemplate tool = Some template -> allows (ga_tool (act_launch tool opts)) -> keeps I (launch_job deps tool template opts jobId).
Proof using Hlaw.
  intros Ht Hall. pose proof dispatch_law as Hd. unfold launch_job. apply keeps_shandle; [|intros; apply keeps_sret].
  apply keeps_sbind; [apply keeps_with_errors; by eapply (dl_launch _ _ _ Hd)|]. intros _.
  apply keeps_sbind; [apply (dl_await _ _ _ Hd)|intros; apply keeps_sret].
Qed.

Lemma job_options_args jobId input secretEnv :
  la_args (job_options deps inp jobId input secretEnv) = [input] /\
  la_readOnly (job_options deps inp jobId input secretEnv) = in_turnReadOnly inp.
Proof using. unfold job_options. by destruct (truthy_str _). Qed.

Lemma run_job_ok state tool template call :
  tool_jobTemplate tool = Some template -> own_call Resolved Seen SeenAgent inp start tool (call_input call) ->
  ensures I (updates resuming) (run_job JSON_stringify deps inp state tool template call).
Proof using Hlaw.
  intros Ht Hown. pose proof dispatch_law as Hd. unfold run_job.
  eapply (ensures_sbind _ (fun gate : option (list CredentialEnvEntry) + string =>
    forall env, gate = inl env -> in_turnReadOnly inp = true -> write_capable tool = false)).
  { destruct (tool_identityProviders tool) as [[|p ps]|] eqn:Hp; [|apply credentials_ok|];
      apply ensures_sret; intros env _ _; unfold write_capable; by rewrite Hp. }
  intros [secretEnv|error] Hgate; [|returns].
  eapply ensures_after; [apply keeps_uuid|]. intros jobId. eapply ensures_after; [apply (dl_subscribe _ _ _ Hd)|]. intros _.
  eapply ensures_after.
  { apply keeps_when_some. intros tell Htell. apply (dl_progress _ _ _ Hd). intros stage message. by apply (gl_progress Hlaw). }
  intros _. eapply ensures_after.
  { apply launch_job_keeps; [done|]. destruct (job_options_args jobId (call_input call) secretEnv) as [Hargs Hro].
    split_and!; [|done|by eapply Hgate]. exists (call_input call). split; [done|]. by apply own_call_may. }
  intros outcome. eapply ensures_after; [destruct (live inp); [apply (dl_unsubscribe _ _ _ Hd)|apply keeps_sret]|].
  intros _. apply ensures_sret. destruct outcome; [apply surfaced_updates|listed].
Qed.

Lemma run_tool_ok state :
  inv n_runTool state ->
  ensures I (updates (fun u => no_grant u && no_run u && no_call u))
    (node_runTool parse_url url_pathname set_pathname searchParams_set url_toString JSON_parse JSON_stringify deps inp state).
Proof using Hlaw.
  intros Hinv. change (ensures I (updates resuming) (node_runTool parse_url url_pathname set_pathname searchParams_set url_toString
    JSON_parse JSON_stringify deps inp state)).
  unfold node_runTool. destruct (s_selectedTool state) as [tool|] eqn:Ht; [|returns].
  destruct (gated state tool) eqn:Hg; [unfold approval_pause; returns|].
  destruct (tool_callerTool tool) as [callerTool|] eqn:Hct.
  { unfold run_caller_tool. destruct (callerToolArguments _ _ _); [|returns]. eapply ensures_after.
    { apply keeps_when_some. intros tell Htell. by apply (gl_progress Hlaw). }
    intros _. eapply ensures_after; [apply keeps_uuid|]. intros uuid. returns. }
  pose proof (own_call_ok state tool Hinv Ht Hg Hct) as Hown. unfold run_call.
  destruct (tool_agentRunTemplate tool) eqn:Hart; [by apply run_agent_ok|].
  destruct (tool_knowledgeBaseExec tool); [by apply run_knowledge_base_ok|].
  destruct (tool_mcpExec tool); [by apply run_mcp_ok|].
  destruct (tool_localExec tool); [by apply run_local_ok|].
  destruct (tool_jobTemplate tool) eqn:Hjt; [by apply run_job_ok|returns].
Qed.

Lemma compose_keeps state : keeps I (node_composeResponse deps state).
Proof using Hlaw.
  unfold node_composeResponse. destruct (s_selectedSkill state); [|apply keeps_sret].
  destruct (s_selectedTool state); [|apply keeps_sret]. destruct (s_plannedAction state) as [[]|]; try apply keeps_sret.
  destruct (s_result state) as [[]|]; try apply keeps_sret.
  apply keeps_sbind; [apply (gl_composer Hlaw)|intros; apply keeps_sret].
Qed.

(** ** A turn *)

Definition steps_on n (us : list Update) state : Prop := forall n', route n (merge us state) = Some n' -> inv n' (merge us state).

Lemma decided_route n state n' : undecided n = false -> route n state = Some n' -> undecided n' = false.
Proof using.
  intros Hn. assert (Htarget : forall n0, undecided n0 = false -> undecided (target state n0) = false).
  { intros n0 Hn0. unfold target. by repeat case_match. }
  destruct n; try done; cbn [route]; unfold afterOrEnd, route_checkPendingIdentityLink, route_checkActiveSkill, route_checkActiveAgentRun,
    route_selectDelegate, route_planAction, route_runTool; repeat case_match; intros [= <-]; try done; by apply Htarget.
Qed.

(** The nodes of a decided turn before the loop. *)
Lemma steps_decided n state us : inv n state -> in_loop n = false -> undecided n = false -> updates relinking us -> steps_on n us state.
Proof using.
  intros Hinv Hloop Hn Hus n' Hn'. pose proof (decided_route n _ n' Hn Hn') as Hu. apply (inv_step _ _ _ _ _ n); try done.
  - by eapply updates_good.
  - eapply updates_writes; [|exact Hus]. by intros [].
  - eapply updates_writes; [|exact Hus]. by intros [].
  - by rewrite Hloop.
  - by rewrite Hu.
  - unfold unanswered. by rewrite Hu.
Qed.

(** Those before the decision. *)
Lemma steps_undecided n state us : inv n state -> in_loop n = false -> unanswered n = true -> updates choosing us -> steps_on n us state.
Proof using.
  intros Hinv Hloop Hn Hus n' Hn'. apply (inv_step _ _ _ _ _ n); try done.
  - by eapply updates_good.
  - eapply updates_writes; [|exact Hus]. by intros [].
  - eapply updates_writes; [|exact Hus]. by intros [].
  - by rewrite Hloop.
  - intros _. split; [by apply andb_true_iff in Hn as [? _]|]. eapply updates_writes; [|exact Hus]. by intros [].
Qed.

Lemma choosing_relinking us : updates choosing us -> updates relinking us.
Proof using. apply updates_weaken. by intros []. Qed.

#[local] Notation the_node := (node parse_url url_pathname set_pathname searchParams_set url_toString sleep number_text inherited_text
                                 JSON_parse JSON_stringify deps inp).

(** Every node keeps to the policy, and leaves the state to the next one. *)
Lemma node_ok n state : inv n state -> ensures I (fun us => steps_on n us state) (the_node n state).
Proof using Hlaw.
  intros Hinv. destruct n; cbn [node].
  all: try by (eapply ensures_weaken; [first [by apply approval_ok|by apply sub_approval_ok|by apply plan_steps]|]).
  all: try by (eapply ensures_weaken; [first [by apply identity_ok|by apply trigger_ok]|]; intros us; apply steps_undecided).
  all: try by (eapply ensures_weaken; [first [by apply identity_link_ok|by apply active_run_ok]|]; intros us; apply steps_decided).
  all: try by (eapply ensures_weaken; [first [by apply active_skill_ok|apply capability_ok|apply retrieve_skills_ok|by apply retrieve_agents_ok
                                             |by apply retrieve_tools_ok|by apply select_ok|by apply load_ok]|];
               intros us Hus; apply steps_decided, choosing_relinking).
  - eapply ensures_weaken; [apply ensures_keeps, keeps_best_effort_node|done].
  - eapply ensures_weaken; [apply ensures_keeps; by apply delegate_keeps|done].
  - eapply ensures_weaken; [by apply run_tool_ok|]. intros us Hus. apply loop_on; [done|done|intros n'; apply run_route|done].
  - eapply ensures_weaken; [apply ensures_keeps, compose_keeps|done].
Qed.

Lemma run_follows limit n state :
  inv n state ->
  keeps I (run_from parse_url url_pathname set_pathname searchParams_set url_toString sleep number_text inherited_text
             JSON_parse JSON_stringify deps inp limit n state).
Proof using Hlaw.
  revert n state. induction limit as [|limit IH]; intros n state Hinv; [apply keeps_sthrow|]. cbn [run_from].
  intros w Hw. unfold sbind, with_errors. destruct (node_ok n state Hinv w Hw) as [Hw1 Hus].
  destruct (the_node n state w) as [[us|e] w1]; [|done]. specialize (Hus us eq_refl).
  destruct (route n (merge us state)) as [n'|] eqn:Hr; [|done]. apply IH; [by apply Hus|done].
Qed.

Lemma start_inv : inv n_resolveIdentity (turn_start start).
Proof using. by split. Qed.
End Turn.
