(* ===== verification/GraphTurn.v ===== *)
(** * Agent orchestrator: turns of the graph

    What the nodes of GraphNodes.v and GraphTools.v come to over a turn: it ends
    within the recursion limit, it does only what its policy allows, a paused
    call is taken up by the caller's answer as it was, and a trigger's target is
    run or the turn fails. *)

From stdpp Require Import base gmap strings list.
From Stdlib Require Import ZArith Lia.
From S2P Require Import Prelude JsString JsNumber Json JsMap EventValues JsList KnowledgeBase KbCite KbSearcher KbLive.
From S2P Require Import IdentityLink Authorization AuthSafety Session AgentChannel Approval Catalog Planner Dispatch.
From S2P Require Import GraphState GraphNodes GraphTools GraphRun GraphSafety GraphPolicy.

Section Turn.
Context {W Url : Type}.
Variable parse_url : string -> result string Url.
Variable url_pathname : Url -> string.
Variable set_pathname : string -> Url -> Url.
Variable searchParams_set : string -> string -> Url -> Url.
Variable url_toString : Url -> string.
Variable sleep : Z -> SM W string unit.
Variable number_text : Z -> string.
Variable inherited_text : string -> string.
Variable JSON_parse : string -> option json.
Variable JSON_stringify : json -> string.
Variable deps : AgentGraphDeps W.

#[local] Notation turn := (invoke parse_url url_pathname set_pathname searchParams_set url_toString sleep number_text inherited_text
                             JSON_parse JSON_stringify deps).
#[local] Notation run_tool := (node_runTool parse_url url_pathname set_pathname searchParams_set url_toString
                                 JSON_parse JSON_stringify deps).
#[local] Notation call_tool := (run_call parse_url url_pathname set_pathname searchParams_set url_toString JSON_stringify deps).

(** C2: every turn of the graph ends by itself: of the 36 nodes that the recursion
    limit of the compiled graph admits, a turn from resolveIdentity runs at most
    31, whatever the models, the stores, the agents and the tools answer, so that
    GraphRecursionError is never thrown; the failures of an agent's launch and of
    its wait are assumed to carry a message. *)
Theorem turn_terminates (inp : TurnInput W) (start : TurnStart) (w : W) :
  spoken deps ->
  (turn inp (turn_start start) w).1 <> Err GraphRecursionError /\
  turn inp (turn_start start) w =
    run_from parse_url url_pathname set_pathname searchParams_set url_toString sleep number_text inherited_text
      JSON_parse JSON_stringify deps inp 31 n_resolveIdentity (turn_start start) w.
Proof.
  intros Hsp. assert (Hle : rank n_resolveIdentity (turn_start start) <= GRAPH_RECURSION_LIMIT) by (by apply Nat.leb_le).
  pose proof (run_ends parse_url url_pathname set_pathname searchParams_set url_toString sleep number_text inherited_text
                JSON_parse JSON_stringify deps inp Hsp GRAPH_RECURSION_LIMIT n_resolveIdentity (turn_start start) w Hle) as Hends.
  cbn [rank] in Hends. exact Hends.
Qed.

(** C1: a turn does only what its policy allows. A container, a local tool or an MCP
    tool runs only for a tool that the stores gave for a resolved caller's roles,
    that the caller supplied or that the caller's own paused session holds, and,
    where the tool's approval policy asks for it, only as the very call that this
    turn's text approves; a sub-agent's call only for a tool its agent declares;
    in a read-only turn never an MCP tool, never a container, an agent behind a
    tool or a sub-agent's call for a tool with a write-capable provider, never a
    prompt to a writable run, and every launch says that it is read-only; a
    knowledge base is asked only under the
    resolved caller's own subject and roles. *)
Theorem turn_follows_policy (Resolved : string -> list string -> Prop) (Seen : list string -> Tool -> Prop)
    (SeenAgent : list string -> AgentDescriptor -> Prop) (inp : TurnInput W) (start : TurnStart) (I : W -> Prop) :
  graph_lawful Resolved Seen SeenAgent deps inp start I sleep -> keeps I (turn inp (turn_start start)).
Proof. intros Hlaw. eapply run_follows; [exact Hlaw|]. by apply start_inv. Qed.

(** ** Approvals *)

(** The channels that a resumed skill writes. *)
Lemma resumed_keep p state us :
  us = u_opt (ap_skill p) (fun skill => u_selectedSkill (Some skill)) ++ u_opt (ap_skillTools p) u_skillTools ->
  s_selectedTool (merge us state) = s_selectedTool state /\ s_toolArgs (merge us state) = s_toolArgs state /\
  s_toolInstanceKey (merge us state) = s_toolInstanceKey state /\ s_approvalGranted (merge us state) = s_approvalGranted state /\
  s_approvalPending (merge us state) = s_approvalPending state /\ failed (merge us state) = failed state /\
  s_selectedSkill (merge us state) = (match ap_skill p with Some skill => Some skill | None => s_selectedSkill state end) /\
  s_skillTools (merge us state) = ap_skillTools p ?? s_skillTools state.
Proof. intros ->. unfold failed. by destruct (ap_skill p), (ap_skillTools p). Qed.

(** The caller who answers is the one whose call was paused. *)
Definition answers (inp : TurnInput W) (p : ApprovalPending) (s : AgentState) : Prop :=
  s_approvalPending s = Some p /\ failed s = false /\ s_approvalGranted s = false /\ s_approvalWaiting s = false /\
  exists who, s_identity s = Some who /\ in_sessionSubject inp = Some (id_subject who) /\ ap_subject p ?? id_subject who = id_subject who.

Lemma answered inp p s :
  answers inp p s ->
  node_checkPendingApproval inp s =
    let resumed := u_opt (ap_skill p) (fun skill => u_selectedSkill (Some skill)) ++ u_opt (ap_skillTools p) u_skillTools in
    sret (match parseApprovalDecision (Some (s_request s)) with
          | decision_ambiguous => [u_approvalPending (Some p); u_approvalWaiting true; u_text (approvalPrompt (ap_toolId p))]
          | decision_deny =>
              [u_approvalPending None; u_text APPROVAL_DENIED_MESSAGE;
               u_history s (ap_toolId p) (ap_toolArgs p ?? EmptyString) (Some APPROVAL_DENIED_MESSAGE)] ++ resumed
          | decision_approve =>
              [u_approvalPending None; u_approvalGranted true; u_selectedTool (Some (ap_tool p))] ++
              u_opt (ap_toolArgs p) (fun args => u_toolArgs (Some args)) ++
              u_opt (ap_instanceKey p) (fun key => u_toolInstanceKey (Some key)) ++ resumed
          end).
Proof.
  intros (Hp & _ & _ & _ & who & Hi & Hs & Hsub). unfold node_checkPendingApproval. rewrite Hi, Hp.
  unfold own_session. rewrite Hs, Hsub. by rewrite !bool_decide_eq_true_2.
Qed.

(** The call that was refused, as the planner sees it. *)
Definition denied_call (s : AgentState) (tool : Tool) : ToolCallRecord :=
  mkCallRecord (tool_id tool) (s_toolArgs s ?? EmptyString) (Some APPROVAL_DENIED_MESSAGE).

(** The next thing that [m] does is to ask the planner. *)
Definition asks_planner (inp : TurnInput W) (request : string) (skill : SkillDescriptor) (tools : list Tool) (history : list ToolCallRecord)
    (m : SM W string (list Update)) : Prop :=
  exists after, m = sbind after (gd_actionPlanner deps request skill tools history (mkPlanOptions (in_callerToolChoiceRequired inp) false)).

(** C3: a gated call pauses the turn without running anything, and the caller's next
    turn takes it up as it was: an approval runs the same tool with the same
    arguments and instance and the skill and its tools restored, past the gate;
    a denial runs nothing: with the skill and its tools restored the turn goes on
    to the planner, which is asked with the refused call and the refusal as the
    last of the history, or, where no skill was at work, the turn ends and says
    so; any other answer asks again and keeps the pause. *)
Theorem approval_round_trip (inp inp' : TurnInput W) (s s1 : AgentState) (tool : Tool) (p : ApprovalPending) :
  s_selectedTool s = Some tool -> gated s tool = true ->
  s_approvalPending (merge (approval_pause s tool) s) = Some p -> answers inp' p s1 ->
  run_tool inp s = sret (approval_pause s tool) /\ route_runTool (merge (approval_pause s tool) s) = None /\
  exists us, let s2 := merge us s1 in
    node_checkPendingApproval inp' s1 = sret us /\
    match parseApprovalDecision (Some (s_request s1)) with
    | decision_approve =>
        route_checkPendingApproval s2 = Some n_runTool /\ s_approvalPending s2 = None /\
        s_toolArgs s2 = (match s_toolArgs s with Some args => Some args | None => s_toolArgs s1 end) /\
        s_toolInstanceKey s2 = (match s_toolInstanceKey s with Some key => Some key | None => s_toolInstanceKey s1 end) /\
        s_selectedSkill s2 = (match s_selectedSkill s with Some skill => Some skill | None => s_selectedSkill s1 end) /\
        s_skillTools s2 = s_skillTools s /\
        run_tool inp' s2 = call_tool inp' s2 tool (tool_call inp' s2 tool)
    | decision_deny =>
        s_approvalPending s2 = None /\ s_approvalGranted s2 = false /\ s_result s2 = Some (JStr APPROVAL_DENIED_MESSAGE) /\
        s_actionHistory s2 = s_actionHistory s1 ++ [denied_call s tool] /\ s_skillTools s2 = s_skillTools s /\
        match s_selectedSkill s with
        | Some skill =>
            route_checkPendingApproval s2 = Some n_planAction /\ s_selectedSkill s2 = Some skill /\
            (S (length (s_actionHistory s1)) < MAX_TOOL_STEPS ->
             asks_planner inp' (s_request s1) skill (s_skillTools s) (s_actionHistory s1 ++ [denied_call s tool]) (node_planAction deps inp' s2))
        | None => s_selectedSkill s1 = None -> route_checkPendingApproval s2 = None
        end
    | decision_ambiguous =>
        route_checkPendingApproval s2 = None /\ s_approvalPending s2 = Some p /\
        s_result s2 = Some (JStr (approvalPrompt (tool_id tool)))
    end.
Proof.
  intros Ht Hg Hp Ha. unfold gated in Hg. apply andb_true_iff in Hg as [[Hc%negb_true_iff Hng%negb_true_iff]%andb_true_iff Hreq].
  assert (Hcaller : tool_callerTool tool = None) by (unfold is_caller_tool in Hc; by destruct (tool_callerTool tool)).
  injection Hp as <-. split_and!.
  - unfold node_runTool. rewrite Ht. unfold gated. by rewrite Hc, Hng, Hreq.
  - unfold route_runTool. by destruct (_ || _).
  - pose proof Ha as (_ & Hok & Hungranted & Hwait & _). rewrite (answered _ _ _ Ha). cbn zeta.
    set (p := mkApprovalPending _ _ _ _ _ _ _).
    set (resumed := u_opt (ap_skill p) _ ++ u_opt (ap_skillTools p) _).
    destruct (parseApprovalDecision (Some (s_request s1))); eexists; (split; [reflexivity|]).
    + rewrite 2!app_assoc, (merge_app _ resumed).
      set (mid := merge _ s1). destruct (resumed_keep p mid resumed eq_refl) as (E1 & E2 & E3 & E4 & E5 & E6 & E7 & E8).
      assert (Hmid : failed mid = failed s1 /\ s_approvalGranted mid = true /\ s_approvalPending mid = None /\
                s_selectedTool mid = Some tool /\
                s_toolArgs mid = (match s_toolArgs s with Some args => Some args | None => s_toolArgs s1 end) /\
                s_toolInstanceKey mid = (match s_toolInstanceKey s with Some key => Some key | None => s_toolInstanceKey s1 end) /\
                s_selectedSkill mid = s_selectedSkill s1).
      { subst mid p. unfold failed. cbn [ap_toolArgs ap_instanceKey ap_tool]. by destruct (s_toolArgs s), (s_toolInstanceKey s). }
      destruct Hmid as (M1 & M2 & M3 & M4 & M5 & M6 & M7). clearbody mid. split_and!.
      * unfold route_checkPendingApproval. by rewrite E6, M1, Hok, E4, M2.
      * by rewrite E5.
      * by rewrite E2.
      * by rewrite E3.
      * rewrite E7, M7. by destruct (s_selectedSkill s).
      * by rewrite E8.
      * unfold node_runTool. rewrite E1, M4. unfold gated. rewrite E4, M2, Hc. simpl. by rewrite Hcaller.
    + rewrite (merge_app _ resumed). set (mid := merge _ s1).
      destruct (resumed_keep p mid resumed eq_refl) as (E1 & E2 & E3 & E4 & E5 & E6 & E7 & E8).
      assert (Hother : s_actionHistory (merge resumed mid) = s_actionHistory s1 ++ [denied_call s tool] /\
                s_result (merge resumed mid) = Some (JStr APPROVAL_DENIED_MESSAGE) /\ s_request (merge resumed mid) = s_request s1 /\
                s_approvalWaiting (merge resumed mid) = s_approvalWaiting s1).
      { subst resumed mid. by destruct (ap_skill p). }
      destruct Hother as (O1 & O2 & O3 & O4).
      assert (Hroute : route_checkPendingApproval (merge resumed mid) =
                match s_selectedSkill (merge resumed mid) with Some _ => Some n_planAction | None => None end).
      { unfold route_checkPendingApproval. rewrite E6, E4, O4, O2, Hwait. change (failed mid) with (failed s1).
        change (s_approvalGranted mid) with (s_approvalGranted s1). by rewrite Hok, Hungranted. }
      rewrite Hroute, E7, E8, E5, E4, O1, O2. subst p. cbn [ap_skill ap_skillTools].
      split_and!; [done|exact Hungranted|done..|].
      destruct (s_selectedSkill s) as [skill|] eqn:Esk.
      * split_and!; [done..|]. intros Hlen. unfold asks_planner, node_planAction. rewrite E7, O1, O3, E8. cbn [ap_skill ap_skillTools].
        rewrite length_app, Nat.add_1_r, (proj2 (Nat.leb_gt _ _)) by done. by eexists.
      * change (s_selectedSkill mid) with (s_selectedSkill s1). by intros ->.
    + split_and!; [|done|done]. unfold route_checkPendingApproval. change (failed _) with (failed s1). rewrite Hok.
      change (s_approvalGranted _) with (s_approvalGranted s1). by rewrite Hungranted.
Qed.
End Turn.

(** ** A concrete orchestrator *)

(** The world is the log of the launches; one tool that needs an approval. *)
Definition demo_log : Type := list (JobTemplate * LaunchOptions).
Definition demo_job : JobTemplate := mkJobTemplate "deploy:1" "tools" "runner" None None None None.
Definition demo_tool : Tool :=
  mkTool (mkToolDescriptor "deploy" "deploy" "Deploys a service." [] false None) (Some demo_job) None None None None None None (Some "always").
Definition demo_skill : SkillDescriptor := mkSkillDescriptor (mkSkill "ops" "ops" "Operations." "# Ops" ["deploy"] []) None.
Definition demo_who : Identity := mkIdentity "alice" ["dev"] None true None.

Definition demo_store {A B : Type} (found : list B) : Store demo_log A B := mkStore (fun _ _ _ => sret []) (fun _ _ => sret found).

Definition demo_dispatch : ToolDispatchDeps demo_log :=
  mkDispatchDeps (fun template opts log => (Ok tt, log ++ [(template, opts)]))
    (mkReceiver (fun _ => sret tt) (fun _ => sret (ev_succeeded "job" (Some (JStr "deployed")))) (fun _ _ => sret tt) (fun _ => sret tt))
    None None (Some "nats://broker") None None (sret "0-1") (fun _ => 0%Z).

Definition demo_deps : AgentGraphDeps demo_log :=
  mkGraphDeps (fun _ => sret (Some demo_who)) None None None None None (demo_store [demo_skill]) None (demo_store [(demo_tool, num_of_Z 1)])
    (fun _ _ => sret (Some demo_skill)) None (fun _ _ => sret true) (fun _ _ => sret true) (fun _ => sret true)
    (fun _ _ _ history _ => sret (match history with [] => plan_call_tool "deploy" "api" None | _ => plan_finish end))
    (fun _ _ _ _ => sret (mkNarration None None)) (fun _ _ => sret "I cannot help.") demo_dispatch None None None None None None
    None None None None None
    (mkAuthorizationDeps None (mkGateways None None None) None None None).

Definition demo_input : TurnInput demo_log :=
  mkTurnInput "token" (Some "s1") None (Some "alice") false None None [] false None None None None None None None None None None false None None.

(** The call of the last turn, which waits for this turn's answer. *)
Definition demo_pending : ApprovalPending :=
  mkApprovalPending "deploy" (Some "api") None demo_tool (Some demo_skill) (Some [demo_tool]) (Some "alice").
Definition demo_start (request : string) : TurnStart := mkTurnStart request None None false [] None (Some demo_pending) None.

Definition demo_turn (start : TurnStart) : demo_log -> result GraphError AgentState * demo_log :=
  invoke (fun s => Ok s) (fun s => s) (fun _ s => s) (fun _ _ s => s) (fun s => s) (fun _ => sret tt) (fun _ => "0") (fun s => s)
    (fun _ => None) (fun _ => "{}") demo_deps demo_input (turn_start start).

Definition demo_resolved (subject : string) (roles : list string) : Prop := subject = "alice" /\ roles = ["dev"].
Definition demo_seen (roles : list string) (t : Tool) : Prop := t = demo_tool.

(** Every launch in the log is one that the policy of the turn allows. *)
Definition demo_follows (start : TurnStart) (log : demo_log) : Prop :=
  Forall (fun entry => exists tool, tool_jobTemplate tool = Some entry.1 /\
    turn_allows demo_resolved demo_seen (fun _ _ => False) demo_deps demo_input start (ga_tool (act_launch tool entry.2))) log.

Definition demo_launch : JobTemplate * LaunchOptions :=
  (demo_job, mkLaunchOptions ["api"] None None (Some "callbacks.0-1") (Some "nats://broker") (Some "s1") None false).

Lemma demo_dispatch_lawful start :
  dispatch_lawful (demo_follows start)
    (fun a => turn_allows demo_resolved demo_seen (fun _ _ => False) demo_deps demo_input start (ga_tool a)) demo_dispatch.
Proof.
  split; intros; try done; try apply keeps_sret.
  intros log Hlog. apply Forall_app_2; [done|]. apply Forall_cons_2; [|by apply Forall_nil_2]. by exists tool.
Qed.

Lemma demo_lawful start :
  graph_lawful demo_resolved demo_seen (fun _ _ => False) demo_deps demo_input start (demo_follows start) (fun _ => sret tt).
Proof.
  pose proof (demo_dispatch_lawful start) as Hd.
  split; try exact Hd; intros; try discriminate; try apply keeps_sret.
  - apply ensures_sret. by intros who [= <-].
  - match goal with H : gatewayFor _ _ = Some _ |- _ => revert H end. unfold gatewayFor, resolveIdentityGateway.
    repeat case_match; simpl; congruence.
  - by apply ensures_sret.
  - apply ensures_sret. apply Forall_cons_2; [done|by apply Forall_nil_2].
  - match goal with H : ?port ∈ _, H' : ?port = Some _ |- _ => rewrite H' in H; simpl in H; set_solver end.
Qed.

Lemma turn_follows_policy_witness :
  (demo_turn (demo_start "Approve") []).2 = [demo_launch] /\ (demo_turn (demo_start "no") []).2 = [] /\
  demo_follows (demo_start "Approve") [demo_launch].
Proof.
  assert ((demo_turn (demo_start "Approve") []).2 = [demo_launch]) as H by (vm_compute; reflexivity).
  split; [exact H|]. split; [vm_compute; reflexivity|]. rewrite <-H.
  refine (turn_follows_policy _ _ _ _ _ _ _ _ _ _ _ _ _ _ _ _ _ (demo_lawful (demo_start "Approve")) [] _). constructor.
Defined.

Lemma demo_spoken : spoken demo_deps.
Proof. by split. Qed.

Lemma turn_terminates_witness : (demo_turn (demo_start "Approve") []).1 <> Err GraphRecursionError.
Proof. refine (proj1 (turn_terminates _ _ _ _ _ _ _ _ _ _ demo_deps demo_input (demo_start "Approve") [] demo_spoken)). Defined.

(** The turn that pauses, and the one that takes the answer. *)
Definition demo_paused : AgentState :=
  merge [u_identity (Some demo_who); u_selectedSkill (Some demo_skill); u_skillTools [demo_tool]; u_selectedTool (Some demo_tool);
         u_toolArgs (Some "api")] (turn_start (mkTurnStart "deploy the api" None None false [] None None None)).
Definition demo_answer (request : string) : AgentState := merge [u_identity (Some demo_who)] (turn_start (demo_start request)).

Lemma approval_round_trip_witness :
  exists us, let s2 := merge us (demo_answer "approve") in
    node_checkPendingApproval demo_input (demo_answer "approve") = sret us /\ route_checkPendingApproval s2 = Some n_runTool /\
    s_toolArgs s2 = Some "api" /\
  exists us', let s2 := merge us' (demo_answer "no") in
    node_checkPendingApproval demo_input (demo_answer "no") = sret us' /\ route_checkPendingApproval s2 = Some n_planAction /\
    s_skillTools s2 = [demo_tool].
Proof.
  assert (Ha : forall text, answers demo_input demo_pending (demo_answer text)) by (intros text; split_and!; try done; by exists demo_who).
  pose proof (fun text => approval_round_trip (fun s => Ok s) (fun s => s) (fun _ s => s) (fun _ _ s => s) (fun s => s) (fun _ => None) (fun _ => "{}")
              demo_deps demo_input demo_input demo_paused (demo_answer text) demo_tool demo_pending eq_refl eq_refl eq_refl (Ha text)) as H.
  destruct (H "approve") as (_ & _ & us & Hus & Hyes). destruct (H "no") as (_ & _ & us' & Hus' & Hno).
  change (parseApprovalDecision _) with decision_approve in Hyes. change (parseApprovalDecision _) with decision_deny in Hno.
  exists us. split; [exact Hus|]. destruct Hyes as (Hr & _ & Hargs & _). split; [exact Hr|]. split; [exact Hargs|].
  exists us'. split; [exact Hus'|]. destruct Hno as (_ & _ & _ & _ & Htools & Hr' & _). by split.
Defined.
