(* ===== verification/CatalogStores.v ===== *)
(** * Agent orchestrator: the catalog in the vector store

    The three stores the graph finds its tools, skills and agents in, as the
    deployment has them over Qdrant: vector-store/qdrant-store.ts (with
    qdrant-id.ts), skills/qdrant-skill-store.ts and agents/qdrant-agent-store.ts,
    and the audience of a skill, skills/derive-access.ts
    (apps/agent-orchestrator/src). They implement the [Store]s of Catalog.v.

    A payload is a record with the fields the source's payload type has; a point
    of another shape, which no store writes, is not modelled. *)

From stdpp Require Import base gmap strings list.
From Stdlib Require Import ZArith Lia.
From S2P Require Import Prelude JsString JsNumber Json JsMap EventValues JsList Auth Writer KnowledgeBase.
From S2P Require Import IdentityLink Authorization AuthSafety Session AgentChannel Approval Catalog Planner Dispatch.
From S2P Require Import GraphState GraphNodes GraphTools GraphSafety.

#[local] Open Scope Z_scope.

(** ** Point ids (qdrant-id.ts) *)

Definition NAMESPACE : list N :=
  [0x7b; 0x6f; 0x1e; 0x1a; 0x6e; 0x6a; 0x4f; 0x0e; 0x9b; 0x7a; 0x9f; 0x2e; 0x6b; 0x8a; 0x2f; 0x1a]%N.

Definition toQdrantPointId (sha1 : list N -> list N) (id : string) : string :=
  uuid_string (uuid_bytes (sha1 (NAMESPACE ++ Buffer_from id))).

(** ** The client of a collection *)

(** A condition of a filter: a field holds one of some values, or is true. *)
Inductive Condition :=
| match_any (key : string) (values : list string)
| match_true (key : string).

Record Filter := mkFilter {
  f_must : list Condition;
  f_must_not : list Condition;
  f_should : list Condition
}.

Record CatalogPoint (P : Type) := mkCatalogPoint {
  cp_id : string;
  cp_vector : list number;
  cp_payload : P
}.
Arguments mkCatalogPoint {P}.
Arguments cp_id {P} c.
Arguments cp_vector {P} c.
Arguments cp_payload {P} c.

Record CatalogClient (W P : Type) := mkCatalogClient {
  cc_getCollections : SM W string (list string);
  cc_createCollection : string -> Z -> SM W string unit;
  cc_upsert : string -> list (CatalogPoint P) -> SM W string unit;
  cc_search : string -> list number -> Z -> Filter -> SM W string (list (P * number));
  cc_retrieve : string -> list string -> SM W string (list (option P));
  cc_delete : string -> list string -> SM W string unit
}.
Arguments mkCatalogClient {W P}.
Arguments cc_getCollections {W P} c.
Arguments cc_createCollection {W P} c.
Arguments cc_upsert {W P} c.
Arguments cc_search {W P} c.
Arguments cc_retrieve {W P} c.
Arguments cc_delete {W P} c.

Record CatalogStoreConfig := mkCatalogConfig {
  cs_collection : string;
  cs_vectorSize : Z
}.

(** ** The payloads *)

Record ToolPayload := mkToolPayload {
  tp_id : string;
  tp_name : string;
  tp_description : string;
  tp_allowedRoles : list string;
  tp_hidden : bool;
  tp_jobTemplate : option JobTemplate;
  tp_localExec : option LocalToolSpec;
  tp_agentRunTemplate : option AgentRunTemplate;
  tp_mcpExec : option MCPExecSpec;
  tp_identityProviders : option (list string);
  tp_tier : option string
}.

Definition tool_payload (tool : Tool) : ToolPayload :=
  mkToolPayload (tool_id tool) (td_name (tool_base tool)) (tool_description tool) (td_allowedRoles (tool_base tool))
    (td_hidden (tool_base tool)) (tool_jobTemplate tool) (tool_localExec tool) (tool_agentRunTemplate tool) (tool_mcpExec tool)
    (tool_identityProviders tool) (tool_tier tool).

Definition tool_of_payload (payload : ToolPayload) : Tool :=
  mkTool (mkToolDescriptor (tp_id payload) (tp_name payload) (tp_description payload) (tp_allowedRoles payload)
            (tp_hidden payload) None)
    (tp_jobTemplate payload) (tp_localExec payload) (tp_mcpExec payload) (tp_agentRunTemplate payload) None
    (tp_identityProviders payload) (tp_tier payload) None.

Record SkillPayload := mkSkillPayload {
  sp_id : string;
  sp_name : string;
  sp_description : string;
  sp_markdown : string;
  sp_toolIds : list string;
  sp_agentIds : list string;
  sp_effectiveRoles : list string;
  sp_unrestricted : bool;
  sp_allowCallerTools : option bool
}.

(** A skill and its audience, [None] for a skill that is open to all. *)
Definition SkillEntry : Type := SkillDescriptor * option (list string).

Definition skill_payload (entry : SkillEntry) : SkillPayload :=
  let '(skill, effectiveRoles) := entry in
  mkSkillPayload (skill_id skill) (sk_name (skill_base skill)) (sk_description (skill_base skill)) (skill_markdown skill)
    (skill_toolIds skill) (skill_agentIds skill) (effectiveRoles ?? [])
    (match effectiveRoles with None => true | Some _ => false end) (skill_allowCallerTools skill).

Definition skill_of_payload (payload : SkillPayload) : SkillDescriptor :=
  mkSkillDescriptor (mkSkill (sp_id payload) (sp_name payload) (sp_description payload) (sp_markdown payload)
                       (sp_toolIds payload) (sp_agentIds payload)) (sp_allowCallerTools payload).

Record AgentPayload := mkAgentPayload {
  agp_id : string;
  agp_name : string;
  agp_description : string;
  agp_allowedRoles : list string;
  agp_tier : option string;
  agp_orchestratorPrompt : option string;
  agp_identityProviders : option (list string);
  agp_namespace : string;
  agp_agentRef : string
}.

Definition agent_payload (agent : AgentDescriptor) : AgentPayload :=
  mkAgentPayload (agent_id agent) (agent_name agent) (agent_description agent) (agent_allowedRoles agent) (agent_tier agent)
    (agent_orchestratorPrompt agent) (agent_identityProviders agent) (at_namespace (agent_agentRunTemplate agent))
    (at_agentRef (agent_agentRunTemplate agent)).

Definition toAgentDescriptor (payload : AgentPayload) : AgentDescriptor :=
  mkAgentDescriptor (agp_id payload) (agp_name payload) (agp_description payload) (agp_allowedRoles payload) (agp_tier payload)
    None None (agp_orchestratorPrompt payload) (agp_identityProviders payload) None
    (mkAgentRunTemplate (agp_namespace payload) (agp_agentRef payload)).

(** [roles.some((role) => callerRoles.includes(role))] *)
Definition shares_role (roles callerRoles : list string) : bool := existsb (has callerRoles) roles.

(** ** What the three stores do alike *)

Section Store.
Context {W P : Type}.
Variable sha1 : list N -> list N.
Variable embed : string -> SM W string (list number).
Variable client : CatalogClient W P.
Variable cfg : CatalogStoreConfig.

Definition ensureCollection : SM W string unit :=
  do! collections <- cc_getCollections client ;;
  if has collections (cs_collection cfg) then sret tt
  else cc_createCollection client (cs_collection cfg) (cs_vectorSize cfg).

(** One point per entry, under the id, the text and the payload of each. *)
Definition upsert_entries {A : Type} (id_of text_of : A -> string) (payload_of : A -> P) (entries : list A) : SM W string unit :=
  match entries with
  | [] => sret tt
  | _ =>
      do! points <- promise_all ((fun entry => do! vector <- embed (text_of entry) ;;
                                               sret (mkCatalogPoint (toQdrantPointId sha1 (id_of entry)) vector (payload_of entry)))
                                   <$> entries) ;;
      cc_upsert client (cs_collection cfg) points
  end.

(** A search under a filter: nothing for a caller without roles. *)
Definition query_points (filter : Filter) (text : string) (callerRoles : list string) (k : Z) : SM W string (list (P * number)) :=
  match callerRoles with
  | [] => sret []
  | _ => do! vector <- embed text ;; cc_search client (cs_collection cfg) vector k filter
  end.

(** A lookup by id, of the payloads that a test on the caller's roles admits. *)
Definition points_by_ids (admits : P -> bool) (ids callerRoles : list string) : SM W string (list P) :=
  match callerRoles, ids with
  | [], _ | _, [] => sret []
  | _, _ =>
      do! points <- cc_retrieve client (cs_collection cfg) (toQdrantPointId sha1 <$> ids) ;;
      sret (List.filter admits (omap (fun o => o) points))
  end.

Definition delete_entries (ids : list string) : SM W string unit :=
  cc_delete client (cs_collection cfg) (toQdrantPointId sha1 <$> ids).
End Store.

(** ** The three stores *)

(** A hit by id has score 1. *)
Definition by_id {A : Type} (a : A) : Hit A := (a, num_of_Z 1).

Definition on_hit {A B : Type} (f : A -> B) (h : A * number) : Hit B := (f h.1, h.2).

Section Stores.
Context {W : Type}.
Variable sha1 : list N -> list N.
Variable embed : string -> SM W string (list number).
Variable cfg : CatalogStoreConfig.

Definition tool_filter (callerRoles : list string) : Filter :=
  mkFilter [match_any "allowedRoles" callerRoles] [match_true "hidden"] [].

Definition tool_upsert (client : CatalogClient W ToolPayload) (tools : list Tool) : SM W string unit :=
  upsert_entries sha1 embed client cfg tool_id tool_description tool_payload tools.

Definition tool_query (client : CatalogClient W ToolPayload) (text : string) (callerRoles : list string) (k : Z) :
    SM W string (list ToolSearchResult) :=
  do! results <- query_points embed client cfg (tool_filter callerRoles) text callerRoles k ;;
  sret (on_hit tool_of_payload <$> results).

Definition tool_getByIds (client : CatalogClient W ToolPayload) (ids callerRoles : list string) : SM W string (list ToolSearchResult) :=
  do! found <- points_by_ids sha1 client cfg (fun p => shares_role (tp_allowedRoles p) callerRoles) ids callerRoles ;;
  sret ((fun p => by_id (tool_of_payload p)) <$> found).

Definition QdrantToolStore (client : CatalogClient W ToolPayload) : VectorStore W := mkStore (tool_query client) (tool_getByIds client).

Definition skill_filter (callerRoles : list string) : Filter :=
  mkFilter [] [] [match_true "unrestricted"; match_any "effectiveRoles" callerRoles].

Definition skill_upsert (client : CatalogClient W SkillPayload) (skills : list SkillEntry) : SM W string unit :=
  upsert_entries sha1 embed client cfg (fun e => skill_id e.1) (fun e => sk_description (skill_base e.1)) skill_payload skills.

Definition skill_query (client : CatalogClient W SkillPayload) (text : string) (callerRoles : list string) (k : Z) :
    SM W string (list SkillSearchResult) :=
  do! results <- query_points embed client cfg (skill_filter callerRoles) text callerRoles k ;;
  sret (on_hit skill_of_payload <$> results).

Definition skill_admits (callerRoles : list string) (payload : SkillPayload) : bool :=
  sp_unrestricted payload || shares_role (sp_effectiveRoles payload) callerRoles.

Definition skill_getByIds (client : CatalogClient W SkillPayload) (ids callerRoles : list string) : SM W string (list SkillDescriptor) :=
  do! found <- points_by_ids sha1 client cfg (skill_admits callerRoles) ids callerRoles ;;
  sret (skill_of_payload <$> found).

Definition QdrantSkillStore (client : CatalogClient W SkillPayload) : SkillStore W :=
  mkStore (skill_query client) (skill_getByIds client).

Definition agent_filter (callerRoles : list string) : Filter := mkFilter [match_any "allowedRoles" callerRoles] [] [].

Definition agent_upsert (client : CatalogClient W AgentPayload) (agents : list AgentDescriptor) : SM W string unit :=
  upsert_entries sha1 embed client cfg agent_id agent_description agent_payload agents.

Definition agent_query (client : CatalogClient W AgentPayload) (text : string) (callerRoles : list string) (k : Z) :
    SM W string (list AgentSearchResult) :=
  do! results <- query_points embed client cfg (agent_filter callerRoles) text callerRoles k ;;
  sret (on_hit toAgentDescriptor <$> results).

Definition agent_getByIds (client : CatalogClient W AgentPayload) (ids callerRoles : list string) : SM W string (list AgentSearchResult) :=
  do! found <- points_by_ids sha1 client cfg (fun p => shares_role (agp_allowedRoles p) callerRoles) ids callerRoles ;;
  sret ((fun p => by_id (toAgentDescriptor p)) <$> found).

Definition QdrantAgentStore (client : CatalogClient W AgentPayload) : AgentStore W :=
  mkStore (agent_query client) (agent_getByIds client).
End Stores.

(** ** The audience of a skill (derive-access.ts) *)

(** The roles that can use one more reference, [None] before the first: a
    reference that is not in its catalog closes the skill. *)
Fixpoint narrow (rolesById : jsmap (list string)) (effective : option (list string)) (refs : list string) :
    option (option (list string)) :=
  match refs with
  | [] => Some effective
  | id :: rest =>
      match map_get id rolesById with
      | None => None
      | Some roles =>
          narrow rolesById (Some (match effective with
                                  | None => roles
                                  | Some kept => List.filter (has roles) kept
                                  end)) rest
      end
  end.

Definition derive_one (rolesByToolId rolesByAgentId : jsmap (list string)) (skill : SkillDescriptor) : SkillEntry :=
  match skill_toolIds skill, skill_agentIds skill with
  | [], [] => (skill, None)
  | toolIds, agentIds =>
      (skill, Some (match narrow rolesByToolId None toolIds with
                    | None => []
                    | Some effective =>
                        match narrow rolesByAgentId effective agentIds with
                        | None => []
                        | Some effective => effective ?? []
                        end
                    end))
  end.

Definition deriveSkillAccess (skills : list SkillDescriptor) (tools : list Tool) (agents : list AgentDescriptor) : list SkillEntry :=
  derive_one (map_of ((fun t => (tool_id t, td_allowedRoles (tool_base t))) <$> tools))
    (map_of ((fun a => (agent_id a, agent_allowedRoles a)) <$> agents)) <$> skills.

(** ** What a client is relied on for *)

(** The meaning of a condition on a payload of each store. *)
Definition tool_holds (p : ToolPayload) (c : Condition) : bool :=
  match c with
  | match_any key values => bool_decide (key = "allowedRoles") && existsb (has values) (tp_allowedRoles p)
  | match_true key => bool_decide (key = "hidden") && tp_hidden p
  end.

Definition skill_holds (p : SkillPayload) (c : Condition) : bool :=
  match c with
  | match_any key values => bool_decide (key = "effectiveRoles") && existsb (has values) (sp_effectiveRoles p)
  | match_true key => bool_decide (key = "unrestricted") && sp_unrestricted p
  end.

Definition agent_holds (p : AgentPayload) (c : Condition) : bool :=
  match c with
  | match_any key values => bool_decide (key = "allowedRoles") && existsb (has values) (agp_allowedRoles p)
  | match_true key => false
  end.

Definition passes {P : Type} (holds : P -> Condition -> bool) (filter : Filter) (p : P) : bool :=
  forallb (holds p) (f_must filter) && negb (existsb (holds p) (f_must_not filter)) &&
  match f_should filter with
  | [] => true
  | should => existsb (holds p) should
  end.

(** Qdrant's documented behaviour: a search gives points that pass its filter,
    no more than its limit; a lookup gives points; and both give only what was
    stored. *)
Record client_lawful {W P : Type} (I : W -> Prop) (Stored : P -> Prop) (holds : P -> Condition -> bool)
    (client : CatalogClient W P) (collection : string) : Prop := {
  cl_search vector k filter :
    ensures I (fun hits => Forall (fun h : P * number => Stored h.1 /\ passes holds filter h.1 = true) hits /\
                           Z.of_nat (length hits) <= Z.max 0 k)
      (cc_search client collection vector k filter);
  cl_retrieve ids :
    ensures I (Forall (fun o => forall p : P, o = Some p -> Stored p)) (cc_retrieve client collection ids)
}.

(** ** Lemmas *)

Lemma ensures_then {W E A B : Type} (I : W -> Prop) (P : A -> Prop) (Q : B -> Prop) (f : A -> B) (m : SM W E A) :
  ensures I P m -> (forall a, P a -> Q (f a)) -> ensures I Q (do! a <- m ;; sret (f a)).
Proof. intros Hm Hf. eapply ensures_sbind; [exact Hm|]. intros a Ha. by apply ensures_sret, Hf. Qed.

Section Scoped.
Context {W P : Type} (I : W -> Prop) (Stored : P -> Prop) (holds : P -> Condition -> bool).
Variable sha1 : list N -> list N.
Variable embed : string -> SM W string (list number).
Variable client : CatalogClient W P.
Variable cfg : CatalogStoreConfig.
Hypothesis Hclient : client_lawful I Stored holds client (cs_collection cfg).
Hypothesis Hembed : forall text, keeps I (embed text).

Lemma query_points_scoped filter text roles k :
  ensures I (fun hits => Forall (fun h : P * number => roles <> [] /\ Stored h.1 /\ passes holds filter h.1 = true) hits /\
                         Z.of_nat (length hits) <= Z.max 0 k)
    (query_points embed client cfg filter text roles k).
Proof using Hclient Hembed.
  unfold query_points. destruct roles as [|r roles].
  - apply ensures_sret. split; [constructor|simpl; lia].
  - eapply ensures_sbind; [apply ensures_keeps, Hembed|]. intros vector _.
    eapply ensures_weaken; [apply (cl_search _ _ _ _ _ Hclient)|]. intros hits [Hhits Hk]. split; [|done].
    eapply Forall_impl; [exact Hhits|]. by intros h [Hs Hp].
Qed.

Lemma points_by_ids_scoped admits ids roles :
  ensures I (Forall (fun p => roles <> [] /\ Stored p /\ admits p = true)) (points_by_ids sha1 client cfg admits ids roles).
Proof using Hclient.
  unfold points_by_ids. destruct roles as [|r roles]; [apply ensures_sret; constructor|].
  destruct ids as [|id ids]; [apply ensures_sret; constructor|].
  eapply ensures_then; [apply (cl_retrieve _ _ _ _ _ Hclient)|]. intros points Hp. apply Forall_forall. intros p.
  rewrite list_elem_of_In, filter_In, <- list_elem_of_In. intros [Hin Ha]. split; [done|]. split; [|done].
  apply list_elem_of_omap in Hin as (o & Ho & ->). rewrite Forall_forall in Hp. by eapply Hp.
Qed.
End Scoped.

(** What is left of a descriptor that went through its store. *)
Definition indexed_tool (t : Tool) : Tool := tool_of_payload (tool_payload t).
Definition indexed_agent (a : AgentDescriptor) : AgentDescriptor := toAgentDescriptor (agent_payload a).

(** What the stores may give to a caller with some roles. *)
Definition tool_in_scope (catalog : Tool -> Prop) (roles : list string) (t : Tool) : Prop :=
  exists t0, catalog t0 /\ t = indexed_tool t0 /\ exists role, role ∈ roles /\ role ∈ td_allowedRoles (tool_base t0).

Definition agent_in_scope (catalog : AgentDescriptor -> Prop) (roles : list string) (a : AgentDescriptor) : Prop :=
  exists a0, catalog a0 /\ a = indexed_agent a0 /\ exists role, role ∈ roles /\ role ∈ agent_allowedRoles a0.

Definition skill_in_scope (catalog : SkillEntry -> Prop) (roles : list string) (s : SkillDescriptor) : Prop :=
  exists e, catalog e /\ s = e.1 /\ roles <> [] /\
    match e.2 with
    | None => True
    | Some audience => exists role, role ∈ roles /\ role ∈ audience
    end.

Lemma shares_role_true roles callerRoles :
  shares_role roles callerRoles = true <-> exists role, role ∈ callerRoles /\ role ∈ roles.
Proof.
  unfold shares_role. rewrite existsb_exists. split.
  - intros (r & Hr & Hc%has_true). exists r. split; [exact Hc|]. by apply list_elem_of_In.
  - intros (r & Hc & Hr). exists r. split; [by apply list_elem_of_In|by apply has_true].
Qed.

Lemma skill_admits_entry roles (e : SkillEntry) :
  skill_admits roles (skill_payload e) = true <->
  match e.2 with
  | None => True
  | Some audience => exists role, role ∈ roles /\ role ∈ audience
  end.
Proof. destruct e as [s [audience|]]; unfold skill_admits; simpl; [by rewrite shares_role_true|done]. Qed.

Lemma skill_payload_inv (e : SkillEntry) : skill_of_payload (skill_payload e) = e.1.
Proof. by destruct e as [[[] ?] ?]. Qed.

Lemma tool_filter_passes roles p :
  passes tool_holds (tool_filter roles) p = true -> shares_role (tp_allowedRoles p) roles = true /\ tp_hidden p = false.
Proof. unfold passes. simpl. rewrite !andb_true_r, orb_false_r. by intros [? ?%negb_true_iff]%andb_true_iff. Qed.

Lemma skill_filter_passes roles p : passes skill_holds (skill_filter roles) p = true -> skill_admits roles p = true.
Proof. unfold passes, skill_admits. simpl. by rewrite orb_false_r. Qed.

Lemma agent_filter_passes roles p : passes agent_holds (agent_filter roles) p = true -> shares_role (agp_allowedRoles p) roles = true.
Proof. unfold passes. simpl. by rewrite !andb_true_r. Qed.

(** ** Properties *)

Section Properties.
Context {W : Type}.
Variable sha1 : list N -> list N.
Variable embed : string -> SM W string (list number).
Variable cfg : CatalogStoreConfig.

(** C40: the stores open only what the caller's roles open, and never to a caller
    without roles. Over a client that honours its filters, every tool and agent
    a search or a lookup gives was indexed and lists a role of the caller, every
    skill was indexed for all or for a role of the caller, a hidden tool is
    never found by a search, and a search gives at most what it was asked for.
    This is what the policy of a turn relies on its stores for. *)
Theorem catalog_scoped (I : W -> Prop) (tools : Tool -> Prop) (skills : SkillEntry -> Prop) (agents : AgentDescriptor -> Prop)
    (tool_client : CatalogClient W ToolPayload) (skill_client : CatalogClient W SkillPayload)
    (agent_client : CatalogClient W AgentPayload) :
  client_lawful I (fun p => exists t, tools t /\ p = tool_payload t) tool_holds tool_client (cs_collection cfg) ->
  client_lawful I (fun p => exists e, skills e /\ p = skill_payload e) skill_holds skill_client (cs_collection cfg) ->
  client_lawful I (fun p => exists a, agents a /\ p = agent_payload a) agent_holds agent_client (cs_collection cfg) ->
  (forall text, keeps I (embed text)) ->
  (forall text roles k,
     ensures I (fun hits => Forall (fun h : ToolSearchResult => tool_in_scope tools roles h.1 /\ td_hidden (tool_base h.1) = false) hits /\
                            Z.of_nat (length hits) <= Z.max 0 k)
       (store_query (QdrantToolStore sha1 embed cfg tool_client) text roles k) /\
     ensures I (fun hits => Forall (fun h : SkillSearchResult => skill_in_scope skills roles h.1) hits /\
                            Z.of_nat (length hits) <= Z.max 0 k)
       (store_query (QdrantSkillStore sha1 embed cfg skill_client) text roles k) /\
     ensures I (fun hits => Forall (fun h : AgentSearchResult => agent_in_scope agents roles h.1) hits /\
                            Z.of_nat (length hits) <= Z.max 0 k)
       (store_query (QdrantAgentStore sha1 embed cfg agent_client) text roles k)) /\
  (forall ids roles,
     ensures I (Forall (fun h : ToolSearchResult => tool_in_scope tools roles h.1))
       (store_getByIds (QdrantToolStore sha1 embed cfg tool_client) ids roles) /\
     ensures I (Forall (skill_in_scope skills roles)) (store_getByIds (QdrantSkillStore sha1 embed cfg skill_client) ids roles) /\
     ensures I (Forall (fun h : AgentSearchResult => agent_in_scope agents roles h.1))
       (store_getByIds (QdrantAgentStore sha1 embed cfg agent_client) ids roles)).
Proof.
  intros Ht Hs Ha He. split; [intros text roles k|intros ids roles]; (split; [|split]).
  - eapply ensures_then; [by eapply query_points_scoped|]. intros hits [Hh Hk]. rewrite length_fmap. split; [|done].
    apply Forall_fmap. eapply Forall_impl; [exact Hh|]. intros h (_ & (t & Hin & Hp) & [Hr Hhid]%tool_filter_passes).
    simpl. rewrite Hp in *. split; [|done]. exists t. split; [done|]. split; [done|]. by apply shares_role_true.
  - eapply ensures_then; [by eapply query_points_scoped|]. intros hits [Hh Hk]. rewrite length_fmap. split; [|done].
    apply Forall_fmap. eapply Forall_impl; [exact Hh|]. intros h (Hne & (e & Hin & Hp) & Hr%skill_filter_passes).
    simpl. rewrite Hp in *. exists e. split; [done|]. split; [apply skill_payload_inv|]. split; [done|]. by apply skill_admits_entry.
  - eapply ensures_then; [by eapply query_points_scoped|]. intros hits [Hh Hk]. rewrite length_fmap. split; [|done].
    apply Forall_fmap. eapply Forall_impl; [exact Hh|]. intros h (_ & (a & Hin & Hp) & Hr%agent_filter_passes).
    simpl. rewrite Hp in *. exists a. split; [done|]. split; [done|]. by apply shares_role_true.
  - eapply ensures_then; [by eapply points_by_ids_scoped|]. intros found Hf. apply Forall_fmap.
    eapply Forall_impl; [exact Hf|]. intros p (_ & (t & Hin & ->) & Hr). exists t. split; [done|]. split; [done|].
    by apply shares_role_true.
  - eapply ensures_then; [by eapply points_by_ids_scoped|]. intros found Hf. apply Forall_fmap.
    eapply Forall_impl; [exact Hf|]. intros p (Hne & (e & Hin & ->) & Hr). exists e. split; [done|].
    split; [apply skill_payload_inv|]. split; [done|]. by apply skill_admits_entry.
  - eapply ensures_then; [by eapply points_by_ids_scoped|]. intros found Hf. apply Forall_fmap.
    eapply Forall_impl; [exact Hf|]. intros p (_ & (a & Hin & ->) & Hr). exists a. split; [done|]. split; [done|].
    by apply shares_role_true.
Qed.

(** The stores drop what the catalog says of a tool's approval, of a knowledge
    base's tools and of an agent's tools, so that nothing the graph finds in them
    is ever gated by the graph, no knowledge base tool among them can be run, and
    every tool call of an agent among them is refused. Whatever the client
    answers: a tool from the store is never gated and has no knowledge base, and
    the handler of an agent from the store answers each call with a refusal and
    runs nothing. *)
Theorem catalog_loses_policy (tool_client : CatalogClient W ToolPayload) (agent_client : CatalogClient W AgentPayload)
    (text : string) (ids roles : list string) (k : Z) :
  let no_policy := fun t : Tool =>
    tool_knowledgeBaseExec t = None /\ (forall state, gated state t = false) in
  let refused := fun a : AgentDescriptor =>
    forall (deps : ToolDispatchDeps W) runId resolve catalog opts callId tool input,
      makeSubAgentToolCallHandler deps runId a (Some resolve) catalog opts callId tool input =
      (do! _ <- resolve runId callId (inr ("tool " +:+ qq +:+ tool +:+ qq +:+ " is not declared in this agent's toolRefs")) ;;
       sret None) in
  yields (Forall (fun h : ToolSearchResult => no_policy h.1)) (store_query (QdrantToolStore sha1 embed cfg tool_client) text roles k) /\
  yields (Forall (fun h : ToolSearchResult => no_policy h.1)) (store_getByIds (QdrantToolStore sha1 embed cfg tool_client) ids roles) /\
  yields (Forall (fun h : AgentSearchResult => refused h.1)) (store_query (QdrantAgentStore sha1 embed cfg agent_client) text roles k) /\
  yields (Forall (fun h : AgentSearchResult => refused h.1)) (store_getByIds (QdrantAgentStore sha1 embed cfg agent_client) ids roles).
Proof.
  intros no_policy refused.
  assert (Htool : forall p, no_policy (tool_of_payload p)).
  { intros p. split; [done|]. intros state. unfold gated. simpl. by rewrite !andb_false_r. }
  assert (Hagent : forall p, refused (toAgentDescriptor p)) by (intros p deps runId; done).
  split_and!; intros w hits w' (found & w1 & _ & H)%sbind_Ok; injection H as <- _;
    apply Forall_fmap, Forall_forall; intros p _; first [apply Htool|apply Hagent].
Qed.
End Properties.

(** *** The audience of a skill *)

(** A role that is among the ones kept so far. *)
Definition kept_role (effective : option (list string)) (role : string) : Prop :=
  match effective with
  | None => True
  | Some kept => role ∈ kept
  end.

Lemma narrow_spec rolesById effective refs role :
  (exists kept, narrow rolesById effective refs = Some kept /\ kept_role kept role) <->
  kept_role effective role /\ forall id, id ∈ refs -> exists roles, map_get id rolesById = Some roles /\ role ∈ roles.
Proof.
  revert effective. induction refs as [|id refs IH]; intros effective; simpl.
  - split; [|intros [He _]; by exists effective]. intros (kept & [= <-] & Hk). split; [done|]. by intros id ?%elem_of_nil.
  - destruct (map_get id rolesById) as [roles|] eqn:Hid.
    + rewrite IH. assert (Hkept : kept_role (Some (match effective with None => roles | Some kept => List.filter (has roles) kept end)) role <->
        kept_role effective role /\ role ∈ roles).
      { destruct effective as [kept|]; simpl; [|naive_solver].
        by rewrite list_elem_of_In, filter_In, has_true, <- list_elem_of_In. }
      rewrite Hkept. setoid_rewrite elem_of_cons. naive_solver.
    + split; [by intros (? & [=] & _)|]. intros [_ H]. destruct (H id) as (roles & Hget & _); [by left|]. by rewrite Hid in Hget.
Qed.

Lemma narrow_some rolesById effective refs kept :
  narrow rolesById effective refs = Some kept -> refs <> [] \/ is_Some effective -> is_Some kept.
Proof.
  revert effective. induction refs as [|id refs IH]; intros effective H Hor; simpl in H.
  - injection H as <-. by destruct Hor.
  - destruct (map_get id rolesById); [|done]. eapply IH; [exact H|]. by right.
Qed.

(** One of the caller's roles opens the whole skill. *)
Definition opens_all (tools : list Tool) (agents : list AgentDescriptor) (skill : SkillDescriptor) (role : string) : Prop :=
  (forall id, id ∈ skill_toolIds skill -> exists t, t ∈ tools /\ tool_id t = id /\ role ∈ td_allowedRoles (tool_base t)) /\
  (forall id, id ∈ skill_agentIds skill -> exists a, a ∈ agents /\ agent_id a = id /\ role ∈ agent_allowedRoles a).

Lemma roles_by_id {A : Type} (id_of : A -> string) (roles_of : A -> list string) (l : list A) (refs : list string) role :
  NoDup (id_of <$> l) ->
  (forall id, id ∈ refs -> exists roles, map_get id (map_of ((fun a => (id_of a, roles_of a)) <$> l)) = Some roles /\ role ∈ roles) <->
  (forall id, id ∈ refs -> exists a, a ∈ l /\ id_of a = id /\ role ∈ roles_of a).
Proof.
  intros Hnd. assert (Hkeys : NoDup ((fun a => (id_of a, roles_of a)) <$> l).*1) by by rewrite <- list_fmap_compose.
  rewrite map_of_fresh by done. split; intros H id Hid; destruct (H id Hid) as (x & Hx).
  - destruct Hx as [Hget Hr]. apply map_get_elem, list_elem_of_fmap in Hget as (a & [= -> ->] & Ha); [|done]. by exists a.
  - destruct Hx as (Ha & <- & Hr). exists (roles_of x). split; [|done]. apply map_get_elem; [done|]. apply list_elem_of_fmap. by exists x.
Qed.

(** The audience of a skill that names something. *)
Lemma audience_spec byTool byAgent (toolIds agentIds : list string) role :
  toolIds <> [] \/ agentIds <> [] ->
  role ∈ (match narrow byTool None toolIds with
          | None => []
          | Some effective => match narrow byAgent effective agentIds with
                              | None => []
                              | Some effective => effective ?? []
                              end
          end) <->
  (forall id, id ∈ toolIds -> exists roles, map_get id byTool = Some roles /\ role ∈ roles) /\
  (forall id, id ∈ agentIds -> exists roles, map_get id byAgent = Some roles /\ role ∈ roles).
Proof.
  intros Hrefs. transitivity (exists e1, narrow byTool None toolIds = Some e1 /\
    exists e2, narrow byAgent e1 agentIds = Some e2 /\ kept_role e2 role).
  - destruct (narrow byTool None toolIds) as [e1|] eqn:H1; [|split; [by intros ?%elem_of_nil|by intros (? & [=] & _)]].
    destruct (narrow byAgent e1 agentIds) as [e2|] eqn:H2.
    + assert (is_Some e2) as [kept ->].
      { eapply narrow_some; [exact H2|]. destruct Hrefs as [Ht|Ha]; [right|by left]. eapply narrow_some; [exact H1|by left]. }
      naive_solver.
    + split; [by intros ?%elem_of_nil|]. by intros (? & [= <-] & ? & ? & _); simplify_eq.
  - pose proof (narrow_spec byTool None toolIds role) as Hs. simpl in Hs. split.
    + intros (e1 & H1 & He2). apply narrow_spec in He2 as [Hk Ha]. split; [|done]. apply Hs. by exists e1.
    + intros [Ht Ha]. destruct Hs as [_ Hs]. destruct Hs as (e1 & H1 & Hk); [done|]. exists e1. split; [done|]. by apply narrow_spec.
Qed.

(** Who may see a skill. Over catalogs whose ids are distinct, a caller is
    admitted to a skill exactly when the skill names no tool and no agent, or one
    single role of the caller is listed by every tool and every agent that it
    names; a name that is in no catalog closes the skill to everyone. *)
Theorem skill_audience (tools : list Tool) (agents : list AgentDescriptor) (skills : list SkillDescriptor) (roles : list string) :
  NoDup (tool_id <$> tools) -> NoDup (agent_id <$> agents) ->
  fst <$> deriveSkillAccess skills tools agents = skills /\
  Forall (fun e : SkillEntry =>
            skill_admits roles (skill_payload e) = true <->
            (skill_toolIds e.1 = [] /\ skill_agentIds e.1 = []) \/ exists role, role ∈ roles /\ opens_all tools agents e.1 role)
    (deriveSkillAccess skills tools agents).
Proof.
  intros Ht Ha. assert (Hfst : forall m1 m2 s, (derive_one m1 m2 s).1 = s).
  { intros m1 m2 s. unfold derive_one. by destruct (skill_toolIds s), (skill_agentIds s). }
  unfold deriveSkillAccess. split.
  { rewrite <- list_fmap_compose. erewrite list_fmap_ext; [apply list_fmap_id|]. intros i s _. apply Hfst. }
  apply Forall_fmap, Forall_forall. intros s _. unfold Basics.compose. rewrite skill_admits_entry, Hfst. unfold opens_all, derive_one.
  setoid_rewrite <- (roles_by_id tool_id (fun t => td_allowedRoles (tool_base t))); [|done].
  setoid_rewrite <- (roles_by_id agent_id agent_allowedRoles); [|done].
  destruct (skill_toolIds s) as [|i ids] eqn:Htools, (skill_agentIds s) as [|j js] eqn:Hagents; cbn [snd].
  1: split; [by left|done].
  all: setoid_rewrite audience_spec; [|by (left + right)]; split; [by right|by intros [[? ?]|?]].
Qed.

(** A caller with a role for each of two tools can use both, and not see the
    skill that names both. *)
Example roles_apart :
  let tool := fun id role => mkTool (mkToolDescriptor id id EmptyString [role] false None) None None None None None None None None in
  let skill := mkSkillDescriptor (mkSkill "s" "s" EmptyString EmptyString ["a"; "b"] []) None in
  let callerRoles := ["dev"; "ops"] in
  Forall (fun t => shares_role (td_allowedRoles (tool_base t)) callerRoles = true) [tool "a" "dev"; tool "b" "ops"] /\
  skill_admits callerRoles (skill_payload (derive_one (map_of [("a", ["dev"]); ("b", ["ops"])]) [] skill)) = false /\
  deriveSkillAccess [skill] [tool "a" "dev"; tool "b" "ops"] [] = [(skill, Some [])].
Proof. split_and!; [repeat constructor|reflexivity..]. Qed.

Definition demo_tool (id : string) (roles : list string) : Tool :=
  mkTool (mkToolDescriptor id id "does" roles false None) None None None None None None None (Some "always").

Definition demo_skill (toolIds : list string) : SkillDescriptor :=
  mkSkillDescriptor (mkSkill "s" "s" EmptyString EmptyString toolIds []) None.

Lemma skill_audience_witness :
  Forall (fun e : SkillEntry => skill_admits ["dev"] (skill_payload e) = true <->
            (skill_toolIds e.1 = [] /\ skill_agentIds e.1 = []) \/
            exists role, role ∈ ["dev"] /\ opens_all [demo_tool "a" ["dev"]; demo_tool "b" ["ops"; "dev"]] [] e.1 role)
    (deriveSkillAccess [demo_skill ["a"; "b"]; demo_skill ["a"; "c"]] [demo_tool "a" ["dev"]; demo_tool "b" ["ops"; "dev"]] []).
Proof.
  apply (skill_audience [demo_tool "a" ["dev"]; demo_tool "b" ["ops"; "dev"]] [] [demo_skill ["a"; "b"]; demo_skill ["a"; "c"]] ["dev"]);
    [apply (bool_decide_unpack _); by vm_compute|constructor].
Defined.

(** ** A vector store in memory *)

Module MemCatalog.
Definition Mem (P : Type) : Type := jsmap (jsmap P).

Definition with_collection {P A : Type} (c : string) (f : jsmap P -> A * jsmap P) : SM (Mem P) string A := fun w =>
  match map_get c w with
  | None => (Err "404", w)
  | Some m => let '(a, m') := f m in (Ok a, map_set c m' w)
  end.

Definition put {P : Type} (points : list (CatalogPoint P)) (m : jsmap P) : jsmap P :=
  foldl (fun m p => map_set (cp_id p) (cp_payload p) m) m points.

(** A search gives the first points that pass, with one score. *)
Definition client {P : Type} (holds : P -> Condition -> bool) : CatalogClient (Mem P) P :=
  mkCatalogClient (fun w => (Ok w.*1, w))
    (fun c _ w => (Ok tt, map_set c [] w))
    (fun c points => with_collection c (fun m => (tt, put points m)))
    (fun c _ k filter => with_collection c (fun m =>
       ((fun p => (p, num_of_Z 1)) <$> take (Z.to_nat k) (List.filter (passes holds filter) (map_values m)), m)))
    (fun c ids => with_collection c (fun m => ((fun id => map_get id m) <$> ids, m)))
    (fun c ids => with_collection c (fun m => (tt, foldl (fun m id => map_delete id m) m ids))).

Definition embed {P : Type} (text : string) : SM (Mem P) string (list number) := sret [].

(** Every payload of the collection satisfies [Stored]. *)
Definition holds_only {P : Type} (Stored : P -> Prop) (c : string) (w : Mem P) : Prop :=
  forall m, map_get c w = Some m -> Forall (fun e => Stored e.2) m.

Lemma ensures_with_collection {P A : Type} (Stored : P -> Prop) (Q : A -> Prop) c (f : jsmap P -> A * jsmap P) :
  (forall m, Forall (fun e => Stored e.2) m -> Q (f m).1 /\ (f m).2 = m) ->
  ensures (holds_only Stored c) Q (with_collection c f).
Proof.
  intros Hf w Hw. unfold with_collection. destruct (map_get c w) as [m|] eqn:Hm; [|by split].
  destruct (f m) as [a m'] eqn:Hfm. specialize (Hf m (Hw m Hm)). rewrite Hfm in Hf. simpl in Hf. destruct Hf as [HQ ->]. split.
  - intros m1. simpl. rewrite map_get_set_eq. intros [= <-]. by apply Hw.
  - by intros a' [= <-].
Qed.

Lemma mem_lawful {P : Type} (Stored : P -> Prop) (holds : P -> Condition -> bool) c :
  client_lawful (holds_only Stored c) Stored holds (client holds) c.
Proof.
  constructor.
  - intros vector k filter. apply ensures_with_collection. intros m Hm. split; [|done]. simpl. rewrite length_fmap, length_take.
    split; [|lia]. apply Forall_fmap, Forall_take, Forall_forall. intros p. simpl.
    rewrite list_elem_of_In, filter_In, <- list_elem_of_In. intros [Hp Hpass]. split; [|done].
    unfold map_values in Hp. apply list_elem_of_fmap in Hp as (e & -> & He). rewrite Forall_forall in Hm. by apply Hm.
  - intros ids. apply ensures_with_collection. intros m Hm. split; [|done]. simpl. apply Forall_fmap, Forall_forall.
    intros id _ p Hp. simpl in Hp. apply map_get_elem_weak in Hp. rewrite Forall_forall in Hm. by apply (Hm (id, p)).
Qed.

(** What a write leaves under an id. *)
Lemma put_get {P : Type} (points : list (CatalogPoint P)) (m : jsmap P) (p : CatalogPoint P) :
  p ∈ points -> (forall q, q ∈ points -> cp_id q = cp_id p -> cp_payload q = cp_payload p) ->
  map_get (cp_id p) (put points m) = Some (cp_payload p).
Proof.
  intros Hin Hsame. unfold put. induction points as [|q points IH] using rev_ind; [by apply elem_of_nil in Hin|].
  rewrite foldl_app. cbn [foldl]. destruct (decide (cp_id q = cp_id p)) as [Heq|Hne].
  - rewrite Heq, map_get_set_eq. f_equal. apply Hsame; [set_solver|done].
  - rewrite map_get_set_ne by done. apply IH; [set_solver|]. intros q' Hq'. apply Hsame. set_solver.
Qed.

Lemma promise_all_sret {W E A B : Type} (g : A -> B) (l : list A) (w : W) :
  promise_all (E := E) ((fun a => sret (g a)) <$> l) w = (Ok (g <$> l), w).
Proof.
  unfold promise_all. assert (Hall : all_settled (E' := E) ((fun a => sret (W := W) (E := E) (g a)) <$> l) w = (Ok ((fun a => Ok (g a)) <$> l), w)).
  { induction l as [|a l IH]; [done|]. rewrite !fmap_cons. cbn [all_settled]. unfold sret at 1. unfold sbind. by rewrite IH. }
  unfold sbind. rewrite Hall. f_equal. clear Hall. induction l as [|a l IH]; [done|]. rewrite !fmap_cons. cbn. by rewrite IH.
Qed.
End MemCatalog.

(** What is written is what is read back, less the policy. In a collection that
    exists, a tool upserted under a point id of its own is what a lookup by its
    id gives to a caller with one of its roles; it has kept its name, text, roles
    and the way it runs, and lost its approval policy, its knowledge base and its
    caller. *)
Theorem tool_store_roundtrip (sha1 : list N -> list N) (cfg : CatalogStoreConfig) (tools : list Tool) (t : Tool)
    (roles : list string) (w : MemCatalog.Mem ToolPayload) (m : jsmap ToolPayload) :
  let client := MemCatalog.client tool_holds in
  map_get (cs_collection cfg) w = Some m -> t ∈ tools -> shares_role (td_allowedRoles (tool_base t)) roles = true ->
  (forall t', t' ∈ tools -> toQdrantPointId sha1 (tool_id t') = toQdrantPointId sha1 (tool_id t) -> t' = t) ->
  exists w', tool_upsert sha1 MemCatalog.embed cfg client tools w = (Ok tt, w') /\
    (tool_getByIds sha1 cfg client [tool_id t] roles w').1 = Ok [by_id (indexed_tool t)] /\
    indexed_tool t =
      mkTool (mkToolDescriptor (tool_id t) (td_name (tool_base t)) (tool_description t) (td_allowedRoles (tool_base t))
                (td_hidden (tool_base t)) None)
        (tool_jobTemplate t) (tool_localExec t) (tool_mcpExec t) (tool_agentRunTemplate t) None (tool_identityProviders t)
        (tool_tier t) None.
Proof.
  intros client Hm Hin Hrole Hsame. set (point := fun t => mkCatalogPoint (toQdrantPointId sha1 (tool_id t)) [] (tool_payload t)).
  assert (Hget : map_get (toQdrantPointId sha1 (tool_id t)) (MemCatalog.put (point <$> tools) m) = Some (tool_payload t)).
  { apply (MemCatalog.put_get (point <$> tools) m (point t)); [by apply list_elem_of_fmap_2|].
    intros q (t' & -> & Ht')%list_elem_of_fmap Hq. by rewrite (Hsame t' Ht' Hq). }
  exists (map_set (cs_collection cfg) (MemCatalog.put (point <$> tools) m) w).
  destruct roles as [|r roles]; [apply shares_role_true in Hrole as (r & Hr & _); by apply elem_of_nil in Hr|].
  split_and!; [|..|done].
  - destruct tools as [|t0 tools]; [by apply elem_of_nil in Hin|]. unfold tool_upsert, upsert_entries, sbind at 1.
    pose proof (MemCatalog.promise_all_sret (E := string) point (t0 :: tools) w) as Hall.
    change (promise_all (W := MemCatalog.Mem ToolPayload) (E := string)
      ((fun entry => do! vector <- MemCatalog.embed (tool_description entry) ;;
                     sret (mkCatalogPoint (toQdrantPointId sha1 (tool_id entry)) vector (tool_payload entry))) <$> (t0 :: tools)) w)
      with (promise_all (W := MemCatalog.Mem ToolPayload) (E := string) ((fun a => sret (point a)) <$> (t0 :: tools)) w).
    rewrite Hall. simpl. unfold MemCatalog.with_collection. by rewrite Hm.
  - unfold tool_getByIds, points_by_ids, sbind. simpl. unfold MemCatalog.with_collection. rewrite map_get_set_eq. simpl.
    rewrite Hget. simpl. by rewrite Hrole.
Qed.

Lemma tool_store_roundtrip_witness :
  exists w', tool_upsert (fun bs => bs) MemCatalog.embed (mkCatalogConfig "tools" 3) (MemCatalog.client tool_holds)
               [demo_tool "a" ["dev"]] [("tools", [])] = (Ok tt, w') /\
    (tool_getByIds (fun bs => bs) (mkCatalogConfig "tools" 3) (MemCatalog.client tool_holds) ["a"] ["ops"; "dev"] w').1 =
      Ok [by_id (indexed_tool (demo_tool "a" ["dev"]))].
Proof.
  destruct (tool_store_roundtrip (fun bs => bs) (mkCatalogConfig "tools" 3) [demo_tool "a" ["dev"]] (demo_tool "a" ["dev"])
              ["ops"; "dev"] [("tools", [])] []) as (w' & H1 & H2 & _); [done|by left|done|by intros t' ->%list_elem_of_singleton|].
  by exists w'.
Defined.

(** ** A collection that does not change *)

Definition fixed_client {P : Type} (holds : P -> Condition -> bool) (stored : list P) : CatalogClient unit P :=
  mkCatalogClient (sret []) (fun _ _ => sret tt) (fun _ _ => sret tt)
    (fun _ _ k filter => sret ((fun p => (p, num_of_Z 1)) <$> take (Z.to_nat k) (List.filter (passes holds filter) stored)))
    (fun _ ids => sret (Some <$> stored)) (fun _ _ => sret tt).

Lemma fixed_lawful {A P : Type} (payload_of : A -> P) (holds : P -> Condition -> bool) (entries : list A) c :
  client_lawful (fun _ => True) (fun p => exists a, a ∈ entries /\ p = payload_of a) holds
    (fixed_client holds (payload_of <$> entries)) c.
Proof.
  assert (Hstored : forall p, p ∈ payload_of <$> entries -> exists a, a ∈ entries /\ p = payload_of a).
  { intros p (a & -> & Ha)%list_elem_of_fmap. by exists a. }
  constructor.
  - intros vector k filter. apply ensures_sret. rewrite length_fmap, length_take. split; [|lia].
    apply Forall_fmap, Forall_take, Forall_forall. intros p. simpl. rewrite list_elem_of_In, filter_In, <- list_elem_of_In.
    intros [Hp Hpass]. split; [by apply Hstored|done].
  - intros ids. apply ensures_sret. apply Forall_fmap, Forall_forall. intros p Hp q. simpl. intros [= <-]. by apply Hstored.
Qed.

Definition demo_agent : AgentDescriptor :=
  mkAgentDescriptor "coder" "coder" "codes" ["dev"] None (Some "always") None None None (Some ["search"])
    (mkAgentRunTemplate "agents" "coder").

Lemma catalog_scoped_witness :
  let embed := fun _ : string => sret (W := unit) (E := string) [] in
  let cfg := mkCatalogConfig "catalog" 3 in
  let tool_client := fixed_client tool_holds (tool_payload <$> [demo_tool "a" ["dev"]; demo_tool "b" ["ops"]]) in
  ensures (fun _ => True)
    (fun hits => Forall (fun h : ToolSearchResult => tool_in_scope (fun t => t ∈ [demo_tool "a" ["dev"]; demo_tool "b" ["ops"]]) ["dev"] h.1 /\
                                                     td_hidden (tool_base h.1) = false) hits /\ Z.of_nat (length hits) <= Z.max 0 5)
    (store_query (QdrantToolStore (fun bs => bs) embed cfg tool_client) "request" ["dev"] 5) /\
  (store_query (QdrantToolStore (fun bs => bs) embed cfg tool_client) "request" ["dev"] 5 tt).1 =
    Ok [(indexed_tool (demo_tool "a" ["dev"]), num_of_Z 1)].
Proof.
  intros embed cfg tool_client. split; [|by vm_compute].
  apply (catalog_scoped (fun bs => bs) embed cfg (fun _ => True) (fun t => t ∈ [demo_tool "a" ["dev"]; demo_tool "b" ["ops"]])
           (fun e => e ∈ [(demo_skill [], None)]) (fun a => a ∈ [demo_agent]) tool_client
           (fixed_client skill_holds (skill_payload <$> [(demo_skill [], None)])) (fixed_client agent_holds (agent_payload <$> [demo_agent]))
           (fixed_lawful tool_payload tool_holds _ _) (fixed_lawful skill_payload skill_holds _ _)
           (fixed_lawful agent_payload agent_holds _ _) (fun _ => keeps_sret _ _) ).
Defined.
