(* ===== verification/CatalogSync.v ===== *)
(** * Agent orchestrator: the catalog kept up to date

    The custom resources that the catalog is made of and their decoders
    (registry/crd-tool-registry.ts, crd-local-tool-registry.ts,
    crd-mcp-tool-registry.ts, skills/crd-skill-registry.ts,
    agents/crd-agent-registry.ts), and what a change of one does to the index
    (k8s/crd-watcher.ts and the handlers of index.ts, apps/agent-orchestrator/src).

    A resource has passed its schema: a field is there with its type, or absent.
    A write to the index that was sent and has not landed yet is in flight; what
    is in flight lands in any order. *)

From stdpp Require Import base gmap strings list.
From Stdlib Require Import ZArith Lia.
From S2P Require Import Prelude JsString JsNumber Json JsMap EventValues JsList Auth Writer KnowledgeBase.
From S2P Require Import Approval Catalog CatalogStores.

#[local] Open Scope Z_scope.

(** ** The resources *)

(** Requests and limits. *)
Record ResourceSpec := mkResourceSpec {
  rs_requests : option (jsmap string);
  rs_limits : option (jsmap string)
}.

Record ToolSpec := mkToolSpec {
  ts_description : option string;
  ts_input : option string;
  ts_output : option string;
  ts_allowedRoles : option (list string);
  ts_tier : option string;
  ts_approval : option string;
  ts_agentRef : option string;
  ts_image : option string;
  ts_serviceAccountName : option string;
  ts_args : option (list string);
  ts_env : option (list (string * string));
  ts_resources : option ResourceSpec;
  ts_identityProviders : option (list string)
}.

Record LocalToolResourceSpec := mkLocalToolSpec {
  ls_description : option string;
  ls_input : option string;
  ls_output : option string;
  ls_allowedRoles : option (list string);
  ls_tier : option string;
  ls_approval : option string;
  ls_runtime : option string;
  ls_package : option string;
  ls_version : option string;
  ls_entry : option string;
  ls_sourceURL : option string;
  ls_checksum : option string;
  ls_env : option (list (string * string));
  ls_secretEnv : option (list LocalSecretEnvVar);
  ls_network : option bool;
  ls_timeoutSeconds : option Z;
  ls_resources : option ResourceSpec
}.

Record MCPToolSpec := mkMCPToolSpec {
  ms_serverRef : option string;
  ms_remoteToolName : option string;
  ms_description : option string;
  ms_inputSchema : option string;
  ms_allowedRoles : option (list string);
  ms_hidden : option bool;
  ms_tier : option string;
  ms_approval : option string;
  ms_identityProviders : option (list string)
}.

Record SkillSpec := mkSkillSpec {
  ss_description : option string;
  ss_input : option string;
  ss_output : option string;
  ss_markdown : option string;
  ss_toolRefs : option (list string);
  ss_agentRefs : option (list string);
  ss_allowCallerTools : option bool
}.

Record AgentSpec := mkAgentSpec {
  as_description : option string;
  as_input : option string;
  as_output : option string;
  as_allowedRoles : option (list string);
  as_tier : option string;
  as_approvalDefault : option string;
  as_approvalTimeoutSeconds : option Z;
  as_orchestratorPrompt : option string;
  as_identityProviders : option (list string);
  as_toolRefs : option (list string)
}.

(** A resource: its name and its specification. *)
Record CustomResource (Spec : Type) := mkCustomResource {
  cr_name : option string;
  cr_spec : option Spec
}.
Arguments mkCustomResource {Spec}.
Arguments cr_name {Spec} c.
Arguments cr_spec {Spec} c.

(** ** Decoding *)

(** An absent text spliced into a template. *)
Definition spliced (o : option string) : string := o ?? "undefined".

Definition contract (description input output : option string) : string :=
  spliced description +:+ nl_s +:+ nl_s +:+ "Input: " +:+ spliced input +:+ nl_s +:+ "Output: " +:+ spliced output.

(** The two keys of each side that are kept. *)
Definition quantities (m : option (jsmap string)) : json :=
  let m := m ?? [] in
  JObj (opt_field "cpu" JStr (map_get "cpu" m) ++ opt_field "memory" JStr (map_get "memory" m)).

Definition resources_of (r : ResourceSpec) : json :=
  JObj [("requests", quantities (rs_requests r)); ("limits", quantities (rs_limits r))].

Definition env_of (env : option (list (string * string))) : option (jsmap string) := Some (map_of (env ?? [])).

Definition toToolDescriptor (namespace : string) (cr : CustomResource ToolSpec) : option Tool :=
  if negb (truthy_str (cr_name cr)) then None
  else
    let name := cr_name cr ?? EmptyString in
    spec ← cr_spec cr;
    let base := mkToolDescriptor name name (contract (ts_description spec) (ts_input spec) (ts_output spec))
                  (ts_allowedRoles spec ?? []) false None in
    if truthy_str (ts_agentRef spec) then
      Some (mkTool base None None None (Some (mkAgentRunTemplate namespace (ts_agentRef spec ?? EmptyString))) None None
              (ts_tier spec) (ts_approval spec))
    else if negb (truthy_str (ts_image spec)) || negb (truthy_str (ts_serviceAccountName spec)) then None
    else
      Some (mkTool base
              (Some (mkJobTemplate (ts_image spec ?? EmptyString) namespace (ts_serviceAccountName spec ?? EmptyString)
                       (ts_args spec) (env_of (ts_env spec)) (resources_of <$> ts_resources spec) (Some name)))
              None None None None
              (match ts_identityProviders spec with
               | Some (_ :: _) => ts_identityProviders spec
               | _ => None
               end)
              (ts_tier spec) (ts_approval spec)).

Definition toLocalToolDescriptor (cr : CustomResource LocalToolResourceSpec) : option Tool :=
  if negb (truthy_str (cr_name cr)) then None
  else
    let name := cr_name cr ?? EmptyString in
    spec ← cr_spec cr;
    if negb (truthy_str (ls_runtime spec)) then None
    else
      Some (mkTool (mkToolDescriptor name name (contract (ls_description spec) (ls_input spec) (ls_output spec))
                      (ls_allowedRoles spec ?? []) false None)
              None
              (Some (mkLocalTool (ls_runtime spec ?? EmptyString) (ls_package spec) (ls_version spec) (ls_entry spec)
                       (ls_sourceURL spec) (ls_checksum spec) (env_of (ls_env spec)) (ls_secretEnv spec)
                       (ls_network spec ?? false) (ls_timeoutSeconds spec) (resources_of <$> ls_resources spec)))
              None None None None (ls_tier spec) (ls_approval spec)).

Definition toMCPToolDescriptor (cr : CustomResource MCPToolSpec) : option Tool :=
  if negb (truthy_str (cr_name cr)) then None
  else
    let name := cr_name cr ?? EmptyString in
    spec ← cr_spec cr;
    if negb (truthy_str (ms_serverRef spec)) || negb (truthy_str (ms_remoteToolName spec)) then None
    else
      let description := if truthy_str (ms_inputSchema spec)
                         then spliced (ms_description spec) +:+ nl_s +:+ nl_s +:+ "Input: " +:+ (ms_inputSchema spec ?? EmptyString)
                         else ms_description spec ?? EmptyString in
      Some (mkTool (mkToolDescriptor name name description (ms_allowedRoles spec ?? []) (ms_hidden spec ?? false) None)
              None None
              (Some (mkMCPExec (ms_serverRef spec ?? EmptyString) (ms_remoteToolName spec ?? EmptyString) (ms_inputSchema spec)))
              None None (ms_identityProviders spec) (ms_tier spec) (ms_approval spec)).

(** The text that a skill is found by. An absent description is the empty text. *)
Definition skill_text (spec : SkillSpec) : string :=
  let input := if truthy_str (ss_input spec) then nl_s +:+ nl_s +:+ "Input: " +:+ (ss_input spec ?? EmptyString) else EmptyString in
  let output := if truthy_str (ss_output spec) then nl_s +:+ "Output: " +:+ (ss_output spec ?? EmptyString) else EmptyString in
  if str_empty (input +:+ output) then ss_description spec ?? EmptyString else spliced (ss_description spec) +:+ input +:+ output.

Definition toSkillDescriptor (cr : CustomResource SkillSpec) : option SkillDescriptor :=
  if negb (truthy_str (cr_name cr)) then None
  else
    let name := cr_name cr ?? EmptyString in
    spec ← cr_spec cr;
    if negb (truthy_str (ss_markdown spec)) then None
    else
      Some (mkSkillDescriptor
              (mkSkill name name (skill_text spec) (ss_markdown spec ?? EmptyString) (ss_toolRefs spec ?? []) (ss_agentRefs spec ?? []))
              (ss_allowCallerTools spec)).

Definition agent_of_resource (namespace : string) (cr : CustomResource AgentSpec) : option AgentDescriptor :=
  if negb (truthy_str (cr_name cr)) then None
  else
    let name := cr_name cr ?? EmptyString in
    spec ← cr_spec cr;
    if negb (truthy_str (as_description spec)) then None
    else
      Some (mkAgentDescriptor name name (contract (as_description spec) (as_input spec) (as_output spec))
              (as_allowedRoles spec ?? []) (as_tier spec) (as_approvalDefault spec) (as_approvalTimeoutSeconds spec)
              (as_orchestratorPrompt spec) (as_identityProviders spec) (as_toolRefs spec) (mkAgentRunTemplate namespace name)).

(** [listAll]: the resources that decode. *)
Definition listAll {Spec D : Type} (decode : CustomResource Spec -> option D) (items : list (CustomResource Spec)) : list D :=
  omap decode items.

(** ** Changes *)

Inductive WatchPhase := ADDED | MODIFIED | DELETED.

Inductive CrdChangeEvent (D : Type) :=
| change_upsert (descriptor : D)
| change_delete (id : string).
Arguments change_upsert {D}.
Arguments change_delete {D}.

(** What a registry's [watch] makes of an event. *)
Definition watch_event {Spec D : Type} (decode : CustomResource Spec -> option D) (phase : WatchPhase) (cr : CustomResource Spec) :
    option (CrdChangeEvent D) :=
  if negb (truthy_str (cr_name cr)) then None
  else
    match phase with
    | DELETED => Some (change_delete (cr_name cr ?? EmptyString))
    | ADDED | MODIFIED => change_upsert <$> decode cr
    end.

(** The five registries. *)
Definition CrdToolRegistry_listAll (namespace : string) : list (CustomResource ToolSpec) -> list Tool :=
  listAll (toToolDescriptor namespace).
Definition CrdToolRegistry_watch (namespace : string) : WatchPhase -> CustomResource ToolSpec -> option (CrdChangeEvent Tool) :=
  watch_event (toToolDescriptor namespace).

Definition CrdLocalToolRegistry_listAll : list (CustomResource LocalToolResourceSpec) -> list Tool := listAll toLocalToolDescriptor.
Definition CrdLocalToolRegistry_watch : WatchPhase -> CustomResource LocalToolResourceSpec -> option (CrdChangeEvent Tool) :=
  watch_event toLocalToolDescriptor.

Definition CrdMCPToolRegistry_listAll : list (CustomResource MCPToolSpec) -> list Tool := listAll toMCPToolDescriptor.
Definition CrdMCPToolRegistry_watch : WatchPhase -> CustomResource MCPToolSpec -> option (CrdChangeEvent Tool) :=
  watch_event toMCPToolDescriptor.

Definition CrdSkillRegistry_listAll : list (CustomResource SkillSpec) -> list SkillDescriptor := listAll toSkillDescriptor.
Definition CrdSkillRegistry_watch : WatchPhase -> CustomResource SkillSpec -> option (CrdChangeEvent SkillDescriptor) :=
  watch_event toSkillDescriptor.

Definition CrdAgentRegistry_listAll (namespace : string) : list (CustomResource AgentSpec) -> list AgentDescriptor :=
  listAll (agent_of_resource namespace).
Definition CrdAgentRegistry_watch (namespace : string) : WatchPhase -> CustomResource AgentSpec -> option (CrdChangeEvent AgentDescriptor) :=
  watch_event (agent_of_resource namespace).

(** ** The catalog in memory and its index (index.ts) *)

(** A write to the index that has been sent. *)
Inductive Write (P : Type) :=
| w_put (id : string) (p : P)
| w_delete (id : string).
Arguments w_put {P}.
Arguments w_delete {P}.

Record Synced (D P : Type) := mkSynced {
  sy_byId : jsmap D;
  sy_index : jsmap P;
  sy_flight : list (Write P)
}.
Arguments mkSynced {D P}.
Arguments sy_byId {D P} s.
Arguments sy_index {D P} s.
Arguments sy_flight {D P} s.

Definition apply_write {P : Type} (index : jsmap P) (w : Write P) : jsmap P :=
  match w with
  | w_put id p => map_set id p index
  | w_delete id => map_delete id index
  end.

Definition write_id {P : Type} (w : Write P) : string :=
  match w with
  | w_put id _ | w_delete id => id
  end.

Section Sync.
Context {D P : Type}.
Variable id_of : D -> string.
Variable payload_of : D -> P.
Implicit Types s : Synced D P.

Definition put_of (d : D) : Write P := w_put (id_of d) (payload_of d).

(** The start of the process: the catalog is listed and upserted, into the index
    that the last process left. *)
Definition start (listed : list D) (index : jsmap P) : Synced D P :=
  mkSynced (map_of ((fun d => (id_of d, d)) <$> listed)) (foldl apply_write index (put_of <$> listed)) [].

(** [handleToolChange], and the same handler for agents. *)
Definition handleToolChange (event : CrdChangeEvent D) s : Synced D P :=
  match event with
  | change_delete id => mkSynced (map_delete id (sy_byId s)) (sy_index s) (sy_flight s ++ [w_delete id])
  | change_upsert d => mkSynced (map_set (id_of d) d (sy_byId s)) (sy_index s) (sy_flight s ++ [put_of d])
  end.

(** A step of the process: an event, or a write that lands, or fails. *)
Inductive sync_step : option (CrdChangeEvent D) -> Synced D P -> Synced D P -> Prop :=
| sync_event s event : sync_step (Some event) s (handleToolChange event s)
| sync_land s before w after :
    sy_flight s = before ++ w :: after ->
    sync_step None s (mkSynced (sy_byId s) (apply_write (sy_index s) w) (before ++ after))
| sync_fail s before w after :
    sy_flight s = before ++ w :: after ->
    sync_step None s (mkSynced (sy_byId s) (sy_index s) (before ++ after)).

(** A step in which no write fails, and writes of one id land in the order they
    were sent. *)
Inductive orderly_step : Synced D P -> Synced D P -> Prop :=
| orderly_event s event : orderly_step s (handleToolChange event s)
| orderly_land s before w after :
    sy_flight s = before ++ w :: after -> Forall (fun w' => write_id w' <> write_id w) before ->
    orderly_step s (mkSynced (sy_byId s) (apply_write (sy_index s) w) (before ++ after)).

Definition event_id (event : CrdChangeEvent D) : string :=
  match event with
  | change_upsert d => id_of d
  | change_delete id => id
  end.

(** ** Lemmas *)

(** What a sequence of writes leaves under an id, if one of them is of it. *)
Fixpoint written (k : string) (ws : list (Write P)) : option (option P) :=
  match ws with
  | [] => None
  | w :: ws => match written k ws with
               | Some v => Some v
               | None => if decide (write_id w = k) then Some (match w with w_put _ p => Some p | w_delete _ => None end) else None
               end
  end.

Lemma apply_write_wf (index : jsmap P) w : map_wf index -> map_wf (apply_write index w).
Proof. destruct w; simpl; [apply map_set_wf|apply map_delete_wf]. Qed.

Lemma apply_write_get (index : jsmap P) w k :
  map_wf index -> map_get k (apply_write index w) = written k [w] ?? map_get k index.
Proof.
  intros Hwf. destruct w as [id p|id]; simpl; destruct (decide (id = k)) as [->|Hne]; simpl.
  - apply map_get_set_eq.
  - by apply map_get_set_ne.
  - by apply map_get_delete_eq.
  - by apply map_get_delete_ne.
Qed.

Lemma written_app k ws ws' : written k (ws ++ ws') = written k ws' ??? written k ws.
Proof.
  induction ws as [|w ws IH]; simpl; [by destruct (written k ws')|]. rewrite IH.
  by destruct (written k ws'), (written k ws); simpl.
Qed.

Lemma foldl_written (index : jsmap P) ws k :
  map_wf index -> map_get k (foldl apply_write index ws) = written k ws ?? map_get k index.
Proof.
  revert index. induction ws as [|w ws IH]; intros index Hwf; [done|]. cbn [foldl].
  rewrite IH by (by apply apply_write_wf). change (w :: ws) with ([w] ++ ws). rewrite written_app.
  rewrite apply_write_get by done. by destruct (written k ws).
Qed.

Lemma foldl_write_wf (index : jsmap P) ws : map_wf index -> map_wf (foldl apply_write index ws).
Proof. revert index. induction ws as [|w ws IH]; intros index Hwf; [done|]. by apply IH, apply_write_wf. Qed.

Lemma written_other k ws : Forall (fun w => write_id w <> k) ws -> written k ws = None.
Proof. induction 1 as [|w ws Hw _ IH]; [done|]. cbn. rewrite IH. by rewrite decide_False. Qed.

(** The index, once what is in flight has landed in order, is the catalog. *)
Definition converging s : Prop :=
  map_wf (sy_byId s) /\ map_wf (sy_index s) /\
  forall k, written k (sy_flight s) ?? map_get k (sy_index s) = payload_of <$> map_get k (sy_byId s).

Lemma converging_start listed : converging (start listed []).
Proof.
  unfold converging, start. simpl. split_and!; [apply map_of_wf|by apply foldl_write_wf; constructor|].
  intros k. rewrite foldl_written by constructor. unfold map_of.
  induction listed as [|d listed IH] using rev_ind; [done|]. rewrite !fmap_app, written_app, foldl_app. cbn.
  destruct (decide (id_of d = k)) as [->|Hne]; [by rewrite map_get_set_eq|]. by rewrite map_get_set_ne.
Qed.

Lemma converging_step s s' : converging s -> orderly_step s s' -> converging s'.
Proof.
  intros Hc Hstep. destruct Hstep as [s0 [d|id]|s0 before w after Hf Hother]; destruct Hc as (Hb & Hi & Hk); unfold converging; simpl.
  - split_and!; [by apply map_set_wf|done|]. intros k. rewrite written_app. simpl.
    destruct (decide (id_of d = k)) as [->|Hne]; [by rewrite map_get_set_eq|]. rewrite map_get_set_ne by done. apply Hk.
  - split_and!; [by apply map_delete_wf|done|]. intros k. rewrite written_app. simpl.
    destruct (decide (id = k)) as [->|Hne]; [by rewrite map_get_delete_eq|]. rewrite map_get_delete_ne by done. apply Hk.
  - split_and!; [done|by apply apply_write_wf|]. intros k. rewrite <- Hk, Hf. change (w :: after) with ([w] ++ after).
    rewrite !written_app, apply_write_get by done. destruct (written k after); [done|]. simpl.
    destruct (decide (write_id w = k)) as [<-|Hne]; [by rewrite written_other|]. by destruct (written k before).
Qed.

(** ** Properties *)

(** The index follows the catalog, when it can. A process that starts over an
    empty index, whose writes do not fail and land, for each id, in the order they
    were sent, ends with exactly the catalog that the cluster described: every
    entry of it under its id, and nothing else. *)
Theorem catalog_in_order (listed : list D) s :
  rtc orderly_step (start listed []) s -> sy_flight s = [] ->
  forall id, map_get id (sy_index s) = payload_of <$> map_get id (sy_byId s).
Proof.
  intros Hrun Hf id. assert (converging s) as (_ & _ & Hk); [|by rewrite <- Hk, Hf].
  remember (start listed []) as s0. assert (converging s0) as Hs0 by (subst; apply converging_start). clear Heqs0.
  induction Hrun; [done|]. eauto using converging_step.
Qed.

(** What a restart does not see stays. An entry of the index whose resource is
    not there when the process starts is served as it was for as long as no event
    names it, whatever else happens; and no event names a resource that is gone. *)
Theorem stale_entry_survives (listed : list D) (index : jsmap P) (id : string) s :
  map_wf index -> id ∉ id_of <$> listed ->
  rtc (fun s1 s2 => exists event, sync_step event s1 s2 /\ forall e, event = Some e -> event_id e <> id) (start listed index) s ->
  map_get id (sy_index s) = map_get id index.
Proof.
  intros Hwf Hid Hrun.
  assert (Hinv : map_wf (sy_index s) /\ map_get id (sy_index s) = map_get id index /\ Forall (fun w => write_id w <> id) (sy_flight s));
    [|by destruct Hinv as (_ & ? & _)].
  remember (start listed index) as s0. assert (Hs0 : map_wf (sy_index s0) /\ map_get id (sy_index s0) = map_get id index /\
    Forall (fun w => write_id w <> id) (sy_flight s0)).
  { subst. simpl. split_and!; [by apply foldl_write_wf| |constructor]. rewrite foldl_written by done.
    rewrite written_other; [done|]. apply Forall_fmap, Forall_forall. intros d Hd Heq. apply Hid. simpl in Heq.
    rewrite <- Heq. by apply list_elem_of_fmap_2. }
  clear Heqs0. induction Hrun as [|s0 s1 s2 (event & Hstep & Hev) _ IH]; [done|]. apply IH. clear IH.
  destruct Hs0 as (Hw & Hg & Hfl). destruct Hstep as [s [d|k]|s before w after Hf|s before w after Hf]; simpl.
  - split_and!; [done..|]. apply Forall_app_2; [done|]. constructor; [|constructor]. by apply (Hev _ eq_refl).
  - split_and!; [done..|]. apply Forall_app_2; [done|]. constructor; [|constructor]. by apply (Hev _ eq_refl).
  - rewrite Hf, Forall_app, Forall_cons in Hfl. destruct Hfl as (H1 & H2 & H3). split_and!; [by apply apply_write_wf| |by apply Forall_app_2].
    rewrite apply_write_get by done. rewrite written_other; [done|]. by constructor.
  - rewrite Hf, Forall_app, Forall_cons in Hfl. destruct Hfl as (H1 & H2 & H3). split_and!; [done..|by apply Forall_app_2].
Qed.
End Sync.

(** *** The catalog of tools *)

Definition tool_start : list Tool -> jsmap ToolPayload -> Synced Tool ToolPayload := start tool_id tool_payload.
Definition tool_changed : CrdChangeEvent Tool -> Synced Tool ToolPayload -> Synced Tool ToolPayload :=
  handleToolChange tool_id tool_payload.

Definition demo : Tool := demo_tool "shell" ["dev"].

Lemma catalog_in_order_witness :
  let s := mkSynced [] [] [] in
  rtc (orderly_step tool_id tool_payload) (tool_start [demo] []) s /\
  forall id, map_get id (sy_index s) = tool_payload <$> map_get id (sy_byId s).
Proof.
  intros s. assert (Hrun : rtc (orderly_step tool_id tool_payload) (tool_start [demo] []) s).
  { eapply rtc_l; [apply (orderly_event tool_id tool_payload _ (change_delete "shell"))|].
    eapply rtc_l; [apply (orderly_land tool_id tool_payload _ [] (w_delete "shell") []); [reflexivity|constructor]|reflexivity]. }
  split; [done|]. intros id. by apply (catalog_in_order tool_id tool_payload [demo] s Hrun eq_refl).
Defined.

Lemma stale_entry_survives_witness :
  map_get "shell" (sy_index (tool_start [] [("shell", tool_payload demo)])) = Some (tool_payload demo).
Proof.
  apply (stale_entry_survives tool_id tool_payload [] [("shell", tool_payload demo)] "shell"
           (tool_start [] [("shell", tool_payload demo)])).
  - apply NoDup_singleton.
  - apply not_elem_of_nil.
  - apply rtc_refl.
Defined.

(** A tool that is changed and then deleted comes back when its upsert, which
    waits for an embedding first, lands after the deletion: nothing has failed,
    nothing is in flight, the catalog is without it, and the index serves it. *)
Theorem deleted_tool_returns :
  exists s, rtc (fun s1 s2 => exists event, sync_step tool_id tool_payload event s1 s2) (tool_start [demo] []) s /\
    sy_flight s = [] /\ map_get "shell" (sy_byId s) = None /\ map_get "shell" (sy_index s) = Some (tool_payload demo).
Proof.
  exists (mkSynced [] [("shell", tool_payload demo)] []). split; [|done].
  eapply rtc_l; [exists (Some (change_upsert demo)); apply sync_event|].
  eapply rtc_l; [exists (Some (change_delete "shell")); apply sync_event|].
  eapply rtc_l; [exists None; by apply (sync_land tool_id tool_payload _ [w_put "shell" (tool_payload demo)] (w_delete "shell") [])|].
  eapply rtc_l; [exists None; by apply (sync_land tool_id tool_payload _ [] (w_put "shell" (tool_payload demo)) [])|].
  reflexivity.
Qed.

(** A resource that stops decoding is not an event: its last version stays. *)
Theorem undecodable_is_ignored (Spec D : Type) (decode : CustomResource Spec -> option D) (cr : CustomResource Spec) (phase : WatchPhase) :
  decode cr = None -> phase <> DELETED -> watch_event decode phase cr = None.
Proof. intros Hd Hp. unfold watch_event. destruct (negb _); [done|]. by destruct phase; rewrite ?Hd. Qed.

(** What a decoder gives is under the name of its resource, with the roles and the
    approval policy it was written with; a tool runs in exactly one way. *)
Definition one_way (t : Tool) : bool :=
  match tool_jobTemplate t, tool_localExec t, tool_mcpExec t, tool_agentRunTemplate t, tool_callerTool t, tool_knowledgeBaseExec t with
  | Some _, None, None, None, None, None | None, Some _, None, None, None, None | None, None, Some _, None, None, None
  | None, None, None, Some _, None, None => true
  | _, _, _, _, _, _ => false
  end.

(** The decoders of tools are total and faithful: whatever the resource, what is
    decoded has its name for an id, lists exactly the roles of its specification
    (none, so that nobody may use it, when there are none), keeps its approval
    policy, and runs in exactly one way. *)
Theorem tool_decoders_faithful (namespace : string) (t : Tool) :
  (forall cr, toToolDescriptor namespace cr = Some t ->
     exists spec, cr_spec cr = Some spec /\ cr_name cr = Some (tool_id t) /\ tool_id t <> EmptyString /\ one_way t = true /\
       td_allowedRoles (tool_base t) = ts_allowedRoles spec ?? [] /\ tool_approval t = ts_approval spec) /\
  (forall cr, toLocalToolDescriptor cr = Some t ->
     exists spec, cr_spec cr = Some spec /\ cr_name cr = Some (tool_id t) /\ tool_id t <> EmptyString /\ one_way t = true /\
       td_allowedRoles (tool_base t) = ls_allowedRoles spec ?? [] /\ tool_approval t = ls_approval spec) /\
  (forall cr, toMCPToolDescriptor cr = Some t ->
     exists spec, cr_spec cr = Some spec /\ cr_name cr = Some (tool_id t) /\ tool_id t <> EmptyString /\ one_way t = true /\
       td_allowedRoles (tool_base t) = ms_allowedRoles spec ?? [] /\ tool_approval t = ms_approval spec).
Proof.
  split_and!; intros [[name|] [spec|]]; unfold toToolDescriptor, toLocalToolDescriptor, toMCPToolDescriptor; simpl; intros H;
    try destruct name; simpl in H; try discriminate H; exists spec; repeat (case_match; simplify_eq/=); by split_and!.
Qed.

Lemma tool_decoders_faithful_witness :
  exists spec, cr_spec (mkCustomResource (Some "shell")
      (Some (mkToolSpec (Some "d") None None (Some ["dev"]) None (Some "always") None (Some "img") (Some "sa") None None None None)))
      = Some spec /\ ts_approval spec = Some "always".
Proof.
  destruct (proj1 (tool_decoders_faithful "ns"
    (mkTool (mkToolDescriptor "shell" "shell" (contract (Some "d") None None) ["dev"] false None)
       (Some (mkJobTemplate "img" "ns" "sa" None (Some []) None (Some "shell"))) None None None None None None (Some "always")))
    (mkCustomResource (Some "shell")
      (Some (mkToolSpec (Some "d") None None (Some ["dev"]) None (Some "always") None (Some "img") (Some "sa") None None None None)))
    eq_refl) as (spec & H & _ & _ & _ & _ & Ha). exists spec. by rewrite <- Ha.
Defined.
