(* ===== verification/CallerTools.v ===== *)
(** * Agent orchestrator: the tools a caller brings

    Parsing the [tools] of a request, which of them reach the planner, and the
    index they are ranked in: caller-tools/parse.ts, resolve.ts, types.ts and
    qdrant-caller-tool-store.ts (apps/agent-orchestrator/src).

    SHA-256 (in hexadecimal, of a text) and SHA-1 are arguments. The body of a
    request is parsed JSON: a field that is absent is [None]. *)

From stdpp Require Import base gmap strings list.
From Stdlib Require Import ZArith Lia Ascii Bool.
From S2P Require Import Prelude JsString JsNumber Json JsMap EventValues JsList JsonText KnowledgeBase.
From S2P Require Import Approval Catalog GraphNodes CatalogStores.

#[local] Open Scope Z_scope.

(** ** Data (types.ts) *)

Inductive CallerToolChoice :=
| choice_auto (required : bool)
| choice_none
| choice_function (name : string).

Record PriorCallerToolCall := mkPriorCall {
  pc_id : string;
  pc_name : string;
  pc_arguments : string;
  pc_result : string
}.

Record CallerToolStore (W : Type) := mkCallerToolStore {
  cts_index : list CallerToolDescriptor -> SM W string unit;
  cts_search : string -> list CallerToolDescriptor -> nat -> SM W string (list CallerToolDescriptor)
}.
Arguments mkCallerToolStore {W}.
Arguments cts_index {W} c.
Arguments cts_search {W} c.

(** ** Parsing (parse.ts) *)

Definition MAX_CALLER_TOOLS : nat := 128.
Definition MAX_NAME_LENGTH : nat := 64.
Definition MAX_DESCRIPTION_LENGTH : nat := 4096.
Definition MAX_SCHEMA_LENGTH : nat := 128 * 128.

Definition name_char (c : ascii) : bool := is_alnum c || char_in "_-" c.

(** [/^[a-zA-Z0-9_-]+$/] *)
Definition NAME_PATTERN (s : string) : bool := negb (str_empty s) && str_forall name_char s.

(** An assignment to [__proto__] makes no property. *)
Fixpoint canonicalize (value : json) : json :=
  match value with
  | JArr l => JArr (map canonicalize l)
  | JObj fields =>
      JObj (own_order (List.filter (fun e => negb (bool_decide (e.1 = "__proto__")))
                         (sort_keys (map (fun '(k, v) => (k, canonicalize v)) fields))))
  | _ => value
  end.

Definition unit_separator : ascii := "031"%char.

Definition definition_text (name description parametersJson : string) : string :=
  name +:+ String unit_separator (description +:+ String unit_separator parametersJson).

Section Parse.
Variable sha256_hex : string -> string.

Definition hashDefinition (name description parametersJson : string) : string :=
  sha256_hex (definition_text name description parametersJson).

Definition makeCallerTool (name description : string) (parameters : option json) : CallerToolDescriptor :=
  let schema := match parameters with
                | None | Some JNull => JObj [("type", JStr "object"); ("properties", JObj [])]
                | Some p => p
                end in
  let parametersJson := JSON_text (canonicalize schema) in
  mkCallerTool name description parametersJson (hashDefinition name description parametersJson).

(** [typeof v === "object"] of a value that is not [null]: its own fields. An
    array has none of the fields that are read. *)
Definition as_object (v : option json) : option (list (string * json)) :=
  match v with
  | Some (JObj fields) => Some fields
  | Some (JArr _) => Some []
  | _ => None
  end.

(** [v === s] for a text. *)
Definition is_string (v : option json) (s : string) : bool :=
  match v with
  | Some (JStr t) => bool_decide (t = s)
  | _ => false
  end.

Definition parseToolChoice (raw : option json) : result string CallerToolChoice :=
  match raw with
  | None | Some JNull => Ok (choice_auto false)
  | Some (JStr s) =>
      if bool_decide (s = "auto") then Ok (choice_auto false)
      else if bool_decide (s = "none") then Ok choice_none
      else if bool_decide (s = "required") then Ok (choice_auto true)
      else Err ("tool_choice must be " +:+ qq +:+ "auto" +:+ qq +:+ ", " +:+ qq +:+ "none" +:+ qq +:+ ", " +:+ qq +:+ "required" +:+ qq +:+
                ", or a {type:" +:+ qq +:+ "function" +:+ qq +:+ "} object")
  | Some (JObj _) | Some (JArr _) =>
      let obj := as_object raw ?? [] in
      match (if is_string (jget "type" obj) "function" then as_object (jget "function" obj) else None) with
      | None => Err ("tool_choice object must be of the form {type:" +:+ qq +:+ "function" +:+ qq +:+ ",function:{name}}")
      | Some fn =>
          match jget "name" fn with
          | Some (JStr name) =>
              if str_empty name then Err "tool_choice.function.name must be a non-empty string" else Ok (choice_function name)
          | _ => Err "tool_choice.function.name must be a non-empty string"
          end
      end
  | Some _ => Err "tool_choice must be a string or an object"
  end.

(** The place of an entry in a message. *)
Definition at_index (index : nat) (rest : string) : string := "tools[" +:+ Z_to_string (Z.of_nat index) +:+ "]" +:+ rest.

Definition parse_description (index : nat) (fn : list (string * json)) : result string string :=
  match jget "description" fn with
  | None | Some JNull => Ok EmptyString
  | Some (JStr description) =>
      if Nat.ltb MAX_DESCRIPTION_LENGTH (slen description)
      then Err (at_index index ".function.description exceeds 4096 characters")
      else Ok description
  | Some _ => Err (at_index index ".function.description must be a string")
  end.

Definition parse_name (index : nat) (seen : list string) (fn : list (string * json)) : result string string :=
  match jget "name" fn with
  | Some (JStr name) =>
      if str_empty name then Err (at_index index ".function.name must be a non-empty string")
      else if Nat.ltb MAX_NAME_LENGTH (slen name) || negb (NAME_PATTERN name)
      then Err (at_index index (".function.name must match [a-zA-Z0-9_-]{1,64} (received " +:+ qq +:+ name +:+ qq +:+ ")"))
      else if has seen name then Err ("tools contains duplicate function name " +:+ qq +:+ name +:+ qq)
      else Ok name
  | _ => Err (at_index index ".function.name must be a non-empty string")
  end.

(** One entry, after the names that were seen. *)
Definition parse_entry (index : nat) (seen : list string) (entry : json) : result string CallerToolDescriptor :=
  match as_object (Some entry) with
  | None => Err (at_index index " must be an object")
  | Some fields =>
      if bool_decide (is_Some (jget "type" fields)) && negb (is_string (jget "type" fields) "function")
      then Err (at_index index (".type must be " +:+ qq +:+ "function" +:+ qq))
      else
        match as_object (jget "function" fields) with
        | None => Err (at_index index ".function must be an object")
        | Some fn =>
            let? name := parse_name index seen fn in
            let? description := parse_description index fn in
            let parameters := jget "parameters" fn in
            if negb (is_nullish parameters) && negb (bool_decide (is_Some (as_object parameters)))
            then Err (at_index index ".function.parameters must be a JSON Schema object")
            else
              let tool := makeCallerTool name description parameters in
              if Nat.ltb MAX_SCHEMA_LENGTH (slen (clr_parametersJson tool))
              then Err (at_index index ".function.parameters exceeds 16384 serialized characters")
              else Ok tool
        end
  end.

Fixpoint parse_entries (index : nat) (seen : list string) (entries : list json) : result string (list CallerToolDescriptor) :=
  match entries with
  | [] => Ok []
  | entry :: rest =>
      let? tool := parse_entry index seen entry in
      let? tools := parse_entries (S index) (seen ++ [clr_name tool]) rest in
      Ok (tool :: tools)
  end.

Definition parseCallerTools (rawTools rawToolChoice : option json) : result string (list CallerToolDescriptor * CallerToolChoice) :=
  let? choice := parseToolChoice rawToolChoice in
  match rawTools with
  | None | Some JNull => Ok ([], choice)
  | Some (JArr entries) =>
      if Nat.ltb MAX_CALLER_TOOLS (length entries)
      then Err ("tools may contain at most 128 entries (received " +:+ Z_to_string (Z.of_nat (length entries)) +:+ ")")
      else
        let? tools := parse_entries 0 [] entries in
        match choice with
        | choice_function name =>
            if has (clr_name <$> tools) name then Ok (tools, choice)
            else Err ("tool_choice names " +:+ qq +:+ name +:+ qq +:+ ", which is not present in tools")
        | _ => Ok (tools, choice)
        end
  | Some _ => Err "tools must be an array"
  end.
End Parse.

(** ** Which of them reach the planner (resolve.ts) *)

Definition resolveCallerTools {W : Type} (request : string) (tools : list CallerToolDescriptor) (choice : CallerToolChoice)
    (topK : nat) (store : option (CallerToolStore W)) : SM W string (list CallerToolDescriptor) :=
  match choice, tools with
  | choice_none, _ | _, [] => sret []
  | choice_function name, _ =>
      sret (match List.find (fun tool => bool_decide (clr_name tool = name)) tools with
            | Some named => [named]
            | None => []
            end)
  | choice_auto _, _ =>
      if Nat.leb (length tools) topK then sret tools
      else
        match store with
        | None => sret (take topK tools)
        | Some store =>
            scatch
              (do! _ <- cts_index store tools ;;
               do! ranked <- cts_search store request tools topK ;;
               sret (match ranked with
                     | [] => take topK tools
                     | _ => ranked
                     end))
              (fun _ => sret (take topK tools))
        end
  end.

Definition toCallerToolDescriptor (tool : CallerToolDescriptor) : Tool :=
  mkTool (mkToolDescriptor (callerToolId (clr_name tool)) (clr_name tool) (clr_description tool) [] false None)
    None None None None (Some tool) None None None.

(** ** The index (qdrant-caller-tool-store.ts) *)

Record CallerToolPayload := mkCallerPayload {
  ctp_hash : string;
  ctp_name : string;
  ctp_description : string;
  ctp_parametersJson : string;
  ctp_lastSeenAt : Z
}.

(** The client of the collection: [search] is restricted to ids, and [delete]
    removes what was last seen before a time. *)
Record CallerToolClient (W : Type) := mkCallerToolClient {
  ctc_getCollections : SM W string (list string);
  ctc_createCollection : string -> Z -> SM W string unit;
  ctc_retrieve : string -> list string -> SM W string (list (option CallerToolPayload));
  ctc_upsert : string -> list (CatalogPoint CallerToolPayload) -> SM W string unit;
  ctc_setPayload : string -> Z -> list string -> SM W string unit;
  ctc_search : string -> list number -> nat -> list string -> SM W string (list (option CallerToolPayload));
  ctc_delete : string -> Z -> SM W string bool
}.
Arguments mkCallerToolClient {W}.
Arguments ctc_getCollections {W} c.
Arguments ctc_createCollection {W} c.
Arguments ctc_retrieve {W} c.
Arguments ctc_upsert {W} c.
Arguments ctc_setPayload {W} c.
Arguments ctc_search {W} c.
Arguments ctc_delete {W} c.

Section Index.
Context {W : Type}.
Variable sha1 : list N -> list N.
Variable now : W -> Z.
Variable embed : string -> SM W string (list number).
Variable client : CallerToolClient W.
Variable cfg : CatalogStoreConfig.

Definition embedText (tool : CallerToolDescriptor) : string :=
  if str_empty (clr_description tool) then clr_name tool else clr_name tool +:+ ": " +:+ clr_description tool.

Definition point_id_of (tool : CallerToolDescriptor) : string := toQdrantPointId sha1 (clr_hash tool).

Definition caller_ensureCollection : SM W string unit :=
  do! collections <- ctc_getCollections client ;;
  if has collections (cs_collection cfg) then sret tt
  else ctc_createCollection client (cs_collection cfg) (cs_vectorSize cfg).

Definition retrieveKnown (tools : list CallerToolDescriptor) : SM W string (list string) :=
  do! points <- ctc_retrieve client (cs_collection cfg) (point_id_of <$> tools) ;;
  sret (omap (fun point => payload ← point; if str_empty (ctp_hash payload) then None else Some (ctp_hash payload)) points).

Definition caller_point (timestamp : Z) (tool : CallerToolDescriptor) : SM W string (CatalogPoint CallerToolPayload) :=
  do! vector <- embed (embedText tool) ;;
  sret (mkCatalogPoint (point_id_of tool) vector
          (mkCallerPayload (clr_hash tool) (clr_name tool) (clr_description tool) (clr_parametersJson tool) timestamp)).

Definition caller_index (tools : list CallerToolDescriptor) : SM W string unit :=
  match tools with
  | [] => sret tt
  | _ =>
      do! known <- retrieveKnown tools ;;
      do! timestamp <- (fun w => (Ok (now w), w)) ;;
      do! points <- promise_all (caller_point timestamp <$> List.filter (fun tool => negb (has known (clr_hash tool))) tools) ;;
      do! _ <- (match points with [] => sret tt | _ => ctc_upsert client (cs_collection cfg) points end) ;;
      match List.filter (fun tool => has known (clr_hash tool)) tools with
      | [] => sret tt
      | hits => ctc_setPayload client (cs_collection cfg) timestamp (point_id_of <$> hits)
      end
  end.

Definition caller_search (text : string) (tools : list CallerToolDescriptor) (k : nat) : SM W string (list CallerToolDescriptor) :=
  match tools, k with
  | [], _ | _, O => sret []
  | _, _ =>
      let byHash := map_of ((fun tool => (clr_hash tool, tool)) <$> tools) in
      do! vector <- embed text ;;
      do! results <- ctc_search client (cs_collection cfg) vector (Nat.min k (length tools)) (point_id_of <$> tools) ;;
      sret (omap (fun point => payload ← point; map_get (ctp_hash payload) byHash) results)
  end.

Definition caller_prune (olderThanMs : Z) : SM W string Z :=
  do! cutoff <- (fun w => (Ok (now w - olderThanMs), w)) ;;
  do! completed <- ctc_delete client (cs_collection cfg) cutoff ;;
  sret (if (completed : bool) then 1 else 0).

Definition QdrantCallerToolStore : CallerToolStore W := mkCallerToolStore caller_index caller_search.
End Index.

(** ** Lemmas *)

(** Two values that differ in the order of keys only, at any depth. *)
Inductive same_json : json -> json -> Prop :=
| same_json_refl v : same_json v v
| same_json_arr l l' : Forall2 same_json l l' -> same_json (JArr l) (JArr l')
| same_json_obj fs gs fs' :
    Forall2 (fun e e' => e.1 = e'.1 /\ same_json e.2 e'.2) fs gs -> gs ≡ₚ fs' -> same_json (JObj fs) (JObj fs').

(** Every object has its keys once. *)
Fixpoint unique_keys (v : json) : Prop :=
  match v with
  | JArr l => foldr and True (map unique_keys l)
  | JObj fs => NoDup fs.*1 /\ foldr and True (map (fun e => unique_keys e.2) fs)
  | _ => True
  end.

Fixpoint json_size (v : json) : nat :=
  match v with
  | JArr l => S (foldr Nat.add 0%nat (map json_size l))
  | JObj fs => S (foldr Nat.add 0%nat (map (fun e => json_size e.2) fs))
  | _ => 1%nat
  end.

Lemma canonicalize_same n v v' : (json_size v <= n)%nat -> same_json v v' -> unique_keys v -> canonicalize v = canonicalize v'.
Proof.
  revert v v'. induction n as [|n IH]; intros v v' Hn Hs Hu; [destruct v; simpl in Hn; lia|].
  revert Hn Hu. destruct Hs as [w|l l' Hl|fs gs fs' Hfs Hp]; intros Hn Hu; [done| |].
  - cbn [canonicalize]. f_equal. cbn in Hn, Hu. revert Hn Hu. induction Hl as [|x x' l l' Hx Hl IHl]; [done|].
    intros Hn Hu. cbn [map foldr] in *. destruct Hu as [Hux Hul]. by rewrite (IH x x'), IHl by (done || lia).
  - cbn [canonicalize]. do 3 f_equal. cbn in Hn, Hu. destruct Hu as [Hnd Hu].
    assert (Heq : map (fun '(k, v) => (k, canonicalize v)) fs = map (fun '(k, v) => (k, canonicalize v)) gs).
    { clear Hp Hnd. revert Hn Hu. induction Hfs as [|[k x] [k' x'] l l' [Hk Hx] Hl IHl]; [done|]. intros Hn Hu.
      cbn [map foldr fst snd] in *. destruct Hu as [Hux Hul]. rewrite (IH x x'), IHl by (done || lia). by subst. }
    rewrite Heq. apply sort_keys_perm; [by apply Permutation_map|]. rewrite <- Heq. clear -Hnd. revert Hnd.
    generalize canonicalize. intros f Hnd. replace ((map (fun '(k, v) => (k, f v)) fs).*1) with (fs.*1); [done|].
    clear Hnd. induction fs as [|[k v] fs IH]; csimpl; [done|]. by rewrite <- IH.
Qed.

(** The last separator of a text. *)
Lemma last_sep_inj c d1 d2 j1 j2 :
  includes_char c j1 = false -> includes_char c j2 = false -> d1 +:+ String c j1 = d2 +:+ String c j2 -> d1 = d2 /\ j1 = j2.
Proof.
  intros H1 H2. assert (Hin : forall d j, includes_char c (d +:+ String c j) = true).
  { intros d j. apply not_false_iff_true. intros E%includes_char_false.
    rewrite str_forall_app in E. cbn [str_forall] in E. by rewrite Ascii.eqb_refl, andb_false_r in E. }
  revert d2. induction d1 as [|a d1 IH]; intros [|b d2] H; cbn in H.
  - by injection H as ->.
  - injection H as -> ->. by rewrite Hin in H1.
  - injection H as -> <-. by rewrite Hin in H2.
  - injection H as -> H. by destruct (IH d2 H) as [-> ->].
Qed.

Lemma printing_no_separator s : str_forall printing s = true -> includes_char unit_separator s = false.
Proof.
  intros H. apply includes_char_false. eapply str_forall_impl; [|exact H]. intros c Hc. apply negb_true_iff.
  destruct (Ascii.eqb unit_separator c) eqn:E; [|done]. apply Ascii.eqb_eq in E as <-. done.
Qed.

Lemma name_no_separator s : NAME_PATTERN s = true -> includes_char unit_separator s = false.
Proof.
  intros [_ H]%andb_true_iff. apply includes_char_false. eapply str_forall_impl; [|exact H]. intros c Hc. apply negb_true_iff.
  destruct (Ascii.eqb unit_separator c) eqn:E; [|done]. by apply Ascii.eqb_eq in E as <-.
Qed.

(** A definition is told from its text. *)
Lemma definition_text_inj n1 n2 d1 d2 j1 j2 :
  NAME_PATTERN n1 = true -> NAME_PATTERN n2 = true -> str_forall printing j1 = true -> str_forall printing j2 = true ->
  definition_text n1 d1 j1 = definition_text n2 d2 j2 -> n1 = n2 /\ d1 = d2 /\ j1 = j2.
Proof.
  intros Hn1 Hn2 Hj1 Hj2 H. unfold definition_text in H. apply sep_inj in H as [-> H]; [|by apply name_no_separator..].
  by apply last_sep_inj in H as [-> ->]; [|by apply printing_no_separator..].
Qed.

Lemma map_of_elem {V : Type} (entries : list (string * V)) e : e ∈ map_of entries -> e ∈ entries.
Proof.
  unfold map_of. revert e. apply (foldl_inv (fun m => forall e, e ∈ m -> e ∈ entries)); [|by intros e ?%elem_of_nil].
  intros m [k v] Hin Hm e He. destruct e as [k' v']. by apply map_set_elem in He as [[= -> ->]|He]; [|apply Hm].
Qed.

Section Parsed.
Variable sha256_hex : string -> string.

(** What a tool that was parsed is. *)
Record well_formed (t : CallerToolDescriptor) : Prop := {
  wf_name : NAME_PATTERN (clr_name t) = true;
  wf_name_length : (slen (clr_name t) <= MAX_NAME_LENGTH)%nat;
  wf_description : (slen (clr_description t) <= MAX_DESCRIPTION_LENGTH)%nat;
  wf_schema : (slen (clr_parametersJson t) <= MAX_SCHEMA_LENGTH)%nat;
  wf_printing : str_forall printing (clr_parametersJson t) = true;
  wf_hash : clr_hash t = hashDefinition sha256_hex (clr_name t) (clr_description t) (clr_parametersJson t)
}.

Lemma parse_name_Ok index seen fn name :
  parse_name index seen fn = Ok name -> NAME_PATTERN name = true /\ (slen name <= MAX_NAME_LENGTH)%nat /\ name ∉ seen.
Proof.
  unfold parse_name. destruct (jget "name" fn) as [[| | |s| |]|]; try done. destruct (str_empty s); [done|].
  destruct (_ || _) eqn:Hbad; [done|]. destruct (has seen s) eqn:Hseen; [done|]. intros [= <-].
  apply orb_false_iff in Hbad as [Hlen%Nat.ltb_ge Hpat%negb_false_iff]. split_and!; [done|done|].
  intros Hin%has_true. by rewrite Hin in Hseen.
Qed.

Lemma parse_description_Ok index fn d : parse_description index fn = Ok d -> (slen d <= MAX_DESCRIPTION_LENGTH)%nat.
Proof.
  unfold parse_description. destruct (jget "description" fn) as [[| | |s| |]|]; try done; [| |by intros [= <-]; apply Nat.le_0_l].
  - intros [= <-]. apply Nat.le_0_l.
  - destruct (Nat.ltb _ _) eqn:E; [done|]. intros [= <-]. by apply Nat.ltb_ge.
Qed.

Lemma parse_entry_Ok index seen entry t :
  parse_entry sha256_hex index seen entry = Ok t -> well_formed t /\ clr_name t ∉ seen.
Proof.
  unfold parse_entry. destruct (as_object (Some entry)) as [fields|]; [|done]. destruct (_ && _); [done|].
  destruct (as_object (jget "function" fields)) as [fn|]; [|done]. intros H. inv_result. destruct (_ && _); [done|].
  destruct (Nat.ltb _ _) eqn:Hlen; [done|]. injection H as <-. apply parse_name_Ok in E as (Hp & Hn & Hseen).
  apply parse_description_Ok in E0. split; [|done]. constructor; simpl; try done; [by apply Nat.ltb_ge|apply printing_JSON_text].
Qed.

Lemma parse_entries_Ok index seen entries tools :
  parse_entries sha256_hex index seen entries = Ok tools ->
  length tools = length entries /\ Forall well_formed tools /\ NoDup (clr_name <$> tools) /\
  Forall (fun t => clr_name t ∉ seen) tools.
Proof.
  revert index seen tools. induction entries as [|e entries IH]; intros index seen tools H; simpl in H.
  - injection H as <-. by split_and!; constructor.
  - inv_result. apply parse_entry_Ok in E as [Hwf Hseen]. apply IH in E0 as (Hlen & Hall & Hnd & Hfresh).
    split_and!; [simpl; by rewrite Hlen|by constructor| |].
    + rewrite fmap_cons. constructor; [|done]. intros (t & Ht & Hin)%list_elem_of_fmap.
      rewrite Forall_forall in Hfresh. apply (Hfresh t Hin). rewrite <- Ht. set_solver.
    + constructor; [done|]. eapply Forall_impl; [exact Hfresh|]. intros t Ht Hin. apply Ht. set_solver.
Qed.

Lemma parsed_well_formed rawTools rawToolChoice tools choice :
  parseCallerTools sha256_hex rawTools rawToolChoice = Ok (tools, choice) ->
  (length tools <= MAX_CALLER_TOOLS)%nat /\ NoDup (clr_name <$> tools) /\ Forall well_formed tools.
Proof.
  unfold parseCallerTools. intros H. inv_result. destruct rawTools as [[| | | |entries|]|]; try done; simplify_eq.
  - split_and!; [apply Nat.le_0_l|constructor|constructor].
  - destruct (Nat.ltb _ _) eqn:Hmax; [done|]. apply Nat.ltb_ge in Hmax. inv_result.
    apply parse_entries_Ok in E0 as (Hlen & Hall & Hnd & _).
    assert (a0 = tools) as <- by (destruct a; try case_match; by simplify_eq). by rewrite Hlen.
  - split_and!; [apply Nat.le_0_l|constructor|constructor].
Qed.
End Parsed.

(** ** Properties *)

(** A request's tools are parsed into at most 128 tools with names of their own,
    each matching the pattern of function names, with a name, a description and a
    schema within their limits and the hash of exactly its definition; or
    rejected. A named choice names one of them. *)
Theorem parseCallerTools_bounded (sha256_hex : string -> string) (rawTools rawToolChoice : option json)
    (tools : list CallerToolDescriptor) (choice : CallerToolChoice) :
  parseCallerTools sha256_hex rawTools rawToolChoice = Ok (tools, choice) ->
  (length tools <= MAX_CALLER_TOOLS)%nat /\ NoDup (clr_name <$> tools) /\ Forall (well_formed sha256_hex) tools /\
  (forall name, choice = choice_function name -> is_nullish rawTools = false -> name ∈ clr_name <$> tools).
Proof.
  intros H. destruct (parsed_well_formed _ _ _ _ _ H) as (Hlen & Hnd & Hall). split_and!; [done..|].
  intros name -> Hraw. unfold parseCallerTools in H. inv_result. destruct rawTools as [[| | | |entries|]|]; try done.
  destruct (Nat.ltb _ _); [done|]. inv_result. destruct a as [| |n]; try by simplify_eq.
  destruct (has (clr_name <$> a0) n) eqn:Hn; [|done]. injection H as <- ->. by apply has_true.
Qed.

Definition demo_request : json :=
  JArr [JObj [("type", JStr "function");
              ("function", JObj [("name", JStr "get_weather"); ("parameters", JObj [("type", JStr "object"); ("a", JNull)])])]].

Lemma parseCallerTools_bounded_witness :
  exists tools choice, parseCallerTools (fun s => s) (Some demo_request) (Some (JStr "required")) = Ok (tools, choice) /\
    (length tools <= MAX_CALLER_TOOLS)%nat /\ NoDup (clr_name <$> tools) /\ Forall (well_formed (fun s => s)) tools.
Proof.
  assert (H : exists r, parseCallerTools (fun s => s) (Some demo_request) (Some (JStr "required")) = Ok r) by (eexists; vm_compute; reflexivity).
  destruct H as [[tools choice] H]. exists tools, choice. split; [done|].
  by destruct (parseCallerTools_bounded (fun s => s) (Some demo_request) (Some (JStr "required")) tools choice H) as (? & ? & ? & _).
Defined.

(** The hash of a tool does not depend on the order of the keys of its schema, at
    any depth: a client that writes its schema in another order finds its
    embedding in the index. *)
Theorem hash_key_order (sha256_hex : string -> string) (name description : string) (schema schema' : json) :
  unique_keys schema -> same_json schema schema' ->
  makeCallerTool sha256_hex name description (Some schema) = makeCallerTool sha256_hex name description (Some schema').
Proof.
  intros Hu Hs. assert (Heq : canonicalize schema = canonicalize schema') by (by eapply canonicalize_same).
  unfold makeCallerTool. destruct Hs as [v|l l' _|fs gs fs' _ _]; [done|by rewrite Heq..].
Qed.

Lemma hash_key_order_witness :
  makeCallerTool (fun s => s) "t" EmptyString (Some (JObj [("b", JNull); ("a", JObj [])])) =
  makeCallerTool (fun s => s) "t" EmptyString (Some (JObj [("a", JObj []); ("b", JNull)])).
Proof.
  apply (hash_key_order (fun s => s) "t" EmptyString (JObj [("b", JNull); ("a", JObj [])]) (JObj [("a", JObj []); ("b", JNull)])).
  - split; [apply (bool_decide_unpack _); by vm_compute|]. repeat split; constructor.
  - eapply same_json_obj; [|apply Permutation_swap]. repeat constructor.
Defined.

(** A hash names one definition. Of the tools of any two requests, those with the
    same hash are the same tool, whoever sent them, unless SHA-256 has a
    collision: the name cannot hold the separator, nor can the schema's text, so
    the hashed text tells its three parts. This is what lets the index be shared
    between callers. *)
Theorem hash_names_definition (sha256_hex : string -> string) (raw1 choice1 raw2 choice2 : option json)
    (tools1 tools2 : list CallerToolDescriptor) (c1 c2 : CallerToolChoice) (t1 t2 : CallerToolDescriptor) :
  parseCallerTools sha256_hex raw1 choice1 = Ok (tools1, c1) -> parseCallerTools sha256_hex raw2 choice2 = Ok (tools2, c2) ->
  t1 ∈ tools1 -> t2 ∈ tools2 -> clr_hash t1 = clr_hash t2 ->
  t1 = t2 \/ exists a b, a <> b /\ sha256_hex a = sha256_hex b.
Proof.
  intros H1 H2 Hin1 Hin2 Hh. apply parsed_well_formed in H1 as (_ & _ & H1), H2 as (_ & _ & H2).
  rewrite Forall_forall in H1, H2. destruct (H1 _ Hin1) as [N1 _ _ _ P1 E1], (H2 _ Hin2) as [N2 _ _ _ P2 E2].
  destruct (decide (definition_text (clr_name t1) (clr_description t1) (clr_parametersJson t1) =
                    definition_text (clr_name t2) (clr_description t2) (clr_parametersJson t2))) as [Heq|Hne].
  - left. apply definition_text_inj in Heq as (Hn & Hd & Hj); [|done..]. destruct t1, t2. simpl in *. by subst.
  - right. eexists _, _. split; [exact Hne|]. unfold hashDefinition in *. by rewrite <- E1, <- E2.
Qed.

Lemma hash_names_definition_witness :
  exists tools c t, parseCallerTools (fun s => s) (Some demo_request) None = Ok (tools, c) /\ t ∈ tools /\
    (t = t \/ exists a b : string, a <> b /\ a = b).
Proof.
  assert (H : exists t rest c, parseCallerTools (fun s => s) (Some demo_request) None = Ok (t :: rest, c)) by (do 3 eexists; vm_compute; reflexivity).
  destruct H as (t & rest & c & H). exists (t :: rest), c, t. split_and!; [done|by left|].
  apply (hash_names_definition (fun s => s) (Some demo_request) None (Some demo_request) None (t :: rest) (t :: rest) c c t t H H);
    [by left|by left|done].
Defined.

(** The planner is offered the caller's own tools and no other. Resolution does
    not fail, whatever the index does; a caller who opted out is offered nothing,
    a named tool is offered alone, and tools that fit are all offered. With the
    index of the deployment, whatever its collection answers, every tool that is
    offered is one that this request supplied, as it was supplied. *)
Theorem resolve_offers_own {W : Type} (sha1 : list N -> list N) (now : W -> Z) (embed : string -> SM W string (list number))
    (client : CallerToolClient W) (cfg : CatalogStoreConfig) (request : string) (tools : list CallerToolDescriptor)
    (choice : CallerToolChoice) (topK : nat) (w : W) :
  let run := resolveCallerTools request tools choice topK (Some (QdrantCallerToolStore sha1 now embed client cfg)) w in
  exists offered, run.1 = Ok offered /\ (forall t, t ∈ offered -> t ∈ tools) /\
    match choice with
    | choice_none => offered = []
    | choice_function name => forall t, t ∈ offered -> clr_name t = name
    | choice_auto _ => (length tools <= topK)%nat -> offered = tools
    end.
Proof.
  assert (Htake : forall t, t ∈ take topK tools -> t ∈ tools).
  { intros t Ht. rewrite <- (take_drop topK tools). set_solver. }
  unfold resolveCallerTools. destruct choice as [required| |name].
  - destruct tools as [|t0 tools]; [by exists []|]. set (all := t0 :: tools) in *. destruct (Nat.leb_spec (length all) topK) as [Hle|Hgt].
    { by exists all. }
    assert (Hsearch : forall w1 ranked w2, caller_search sha1 embed client cfg request all topK w1 = (Ok ranked, w2) ->
              forall t, t ∈ ranked -> t ∈ all).
    { intros w1 ranked w2 H t Ht. unfold caller_search in H. simpl in H. destruct topK as [|k]; [by injection H as <- _; apply elem_of_nil in Ht|].
      apply sbind_Ok in H as (vector & w3 & _ & H). apply sbind_Ok in H as (results & w4 & _ & H). injection H as <- _.
      apply list_elem_of_omap in Ht as ([payload|] & _ & Hget); [|done]. simpl in Hget. apply map_get_elem_weak in Hget.
      apply map_of_elem in Hget.
      apply (list_elem_of_fmap (fun tool => (clr_hash tool, tool)) all) in Hget as (t' & [= _ ->] & Hin). done. }
    unfold scatch. destruct (sbind _ _ w) as [[offered|e] w1] eqn:Hrun; simpl.
    + exists offered. split_and!; [done| |intros Hle; exfalso; subst all; simpl in *; lia]. apply sbind_Ok in Hrun as ([] & w2 & _ & Hrun).
      apply sbind_Ok in Hrun as (ranked & w3 & Hranked & Hrun). injection Hrun as <- _. destruct ranked; [done|]. by eapply Hsearch.
    + exists (take topK all). split_and!; [done|done|intros Hle; exfalso; subst all; simpl in *; lia].
  - exists []. split_and!; [done|by intros t ?%elem_of_nil|done].
  - destruct tools as [|t0 tools]; [exists []; split_and!; [done|by intros t ?%elem_of_nil..]|].
    destruct (List.find _ _) as [t|] eqn:Hfind; [|exists []; split_and!; [done|by intros t ?%elem_of_nil..]].
    apply List.find_some in Hfind as [Hin Hname%bool_decide_eq_true]. exists [t]. split_and!; [done|..].
    + intros t' ->%list_elem_of_singleton. by apply list_elem_of_In.
    + by intros t' ->%list_elem_of_singleton.
Qed.
