(* ===== verification/ChatApi.v ===== *)
(** * Agent orchestrator: the chat interface

    The shapes of OpenAI's chat completions, and what is read from and written to
    them (openai/chat-completions.ts and openai/with-heartbeat.ts,
    apps/agent-orchestrator/src), with the lifecycle events of a turn
    (packages/messaging/src/turn-event.ts).

    A request's body is parsed JSON. The object a node returned is its list of
    updates; a key is read off it as the state reads it ([patch]). *)

From stdpp Require Import base gmap strings list.
From Stdlib Require Import ZArith Lia Ascii Bool.
From S2P Require Import Prelude JsString JsNumber Json JsMap EventValues JsList JsonText KnowledgeBase.
From S2P Require Import IdentityLink Session Approval Catalog GraphState GraphNodes GraphTools CallerTools.

#[local] Open Scope Z_scope.

Definition MODEL_ID : string := "agent-orchestrator".

(** ** The request *)

Record AgentRequest := mkAgentRequest {
  ar_request : string;
  ar_priorToolCalls : list PriorCallerToolCall
}.

Definition HISTORY_MAX_MESSAGES : nat := 8.
Definition HISTORY_MAX_CHARS : nat := 24 * 1000.

Definition fields_of (message : json) : list (string * json) := as_object (Some message) ?? [].

(** The content of a message of a role, if it is a text that is not blank. *)
Definition spoken_by (role : string) (message : json) : option string :=
  if is_string (jget "role" (fields_of message)) role then
    match jget "content" (fields_of message) with
    | Some (JStr content) => if str_empty (trim content) then None else Some content
    | _ => None
    end
  else None.

(** [findLastMessageIndex], from the end of the messages. *)
Definition findLastMessageIndex (messages : list json) (role : string) : option nat :=
  (fun '(i, _) => length messages - 1 - i)%nat <$> list_find (fun m => is_Some (spoken_by role m)) (rev messages).

Definition endsWith (suffix s : string) : bool :=
  Nat.leb (slen suffix) (slen s) && bool_decide (str_drop (slen s - slen suffix) s = suffix).

Definition stripSelfImprovementFooter (content : string) : string :=
  if endsWith SELF_IMPROVEMENT_FOOTER content then str_take (slen content - slen SELF_IMPROVEMENT_FOOTER) content else content.

(** A message of the conversation so far: its role and its content. *)
Definition turn_of (message : json) : option (string * string) :=
  match spoken_by "user" message, spoken_by "assistant" message with
  | Some content, _ => Some ("user", content)
  | None, Some content => Some ("assistant", stripSelfImprovementFooter content)
  | None, None => None
  end.

(** The latest turns of some messages, newest first, as many as are asked for. *)
Fixpoint latest (n : nat) (newest_first : list json) : list (string * string) :=
  match n, newest_first with
  | O, _ | _, [] => []
  | S n', message :: rest =>
      match turn_of message with
      | Some turn => turn :: latest n' rest
      | None => latest n rest
      end
  end.

Definition total_chars (turns : list (string * string)) : nat := foldr (fun turn sum => slen turn.2 + sum)%nat 0%nat turns.

(** The oldest are dropped until the rest fits. *)
Fixpoint within_budget (turns : list (string * string)) : list (string * string) :=
  match turns with
  | [] => []
  | _ :: rest => if Nat.ltb HISTORY_MAX_CHARS (total_chars turns) then within_budget rest else turns
  end.

Definition folded (turn : string * string) : string :=
  "<message role=" +:+ qq +:+ turn.1 +:+ qq +:+ ">" +:+ nl_s +:+ turn.2 +:+ nl_s +:+ "</message>".

Definition with_history (window : list (string * string)) (userContent : string) : string :=
  match window with
  | [] => userContent
  | _ => "<conversation_history>" +:+ nl_s +:+ join nl_s (folded <$> window) +:+ nl_s +:+ "</conversation_history>" +:+ nl_s +:+ nl_s +:+
         userContent
  end.

(** A text as it is, another value as its JSON. *)
Definition text_or_json (v : option json) (absent : json) : string :=
  match v with
  | Some (JStr s) => s
  | None | Some JNull => JSON_text absent
  | Some v => JSON_text v
  end.

(** [requested]: the calls an assistant message asks for, set into the map. *)
Definition request_call (requested : jsmap (string * string)) (call : json) : jsmap (string * string) :=
  let fields := fields_of call in
  let fn := as_object (jget "function" fields) ?? [] in
  match jget "id" fields, jget "name" fn with
  | Some (JStr id), Some (JStr name) => map_set id (name, text_or_json (jget "arguments" fn) (JObj [])) requested
  | _, _ => requested
  end.

Definition request_calls (requested : jsmap (string * string)) (message : json) : jsmap (string * string) :=
  let fields := fields_of message in
  match (if is_string (jget "role" fields) "assistant" then jget "tool_calls" fields else None) with
  | Some (JArr calls) => foldl request_call requested calls
  | _ => requested
  end.

Definition answered_call (requested : jsmap (string * string)) (message : json) : option PriorCallerToolCall :=
  let fields := fields_of message in
  match (if is_string (jget "role" fields) "tool" then jget "tool_call_id" fields else None) with
  | Some (JStr id) =>
      (fun request => mkPriorCall id request.1 request.2 (text_or_json (jget "content" fields) JNull)) <$> map_get id requested
  | _ => None
  end.

Definition collectPriorToolCalls (messages : list json) (userIdx : nat) : list PriorCallerToolCall :=
  let after := drop (S userIdx) messages in
  let requested := foldl request_calls [] after in
  match requested with
  | [] => []
  | _ => omap (answered_call requested) after
  end.

Definition buildAgentRequest (messages : option json) : option AgentRequest :=
  match messages with
  | Some (JArr arr) =>
      userIdx ← findLastMessageIndex arr "user";
      message ← arr !! userIdx;
      userContent ← spoken_by "user" message;
      let window := within_budget (rev (latest HISTORY_MAX_MESSAGES (rev (take userIdx arr)))) in
      Some (mkAgentRequest (with_history window userContent) (collectPriorToolCalls arr userIdx))
  | _ => None
  end.

Definition isInternalUiTaskRequest (userContent : string) : bool := startsWith "### Task:" (drop_while is_ws userContent).

(** ** The answer *)

Definition renderResult (result : option json) : string :=
  match result with
  | Some (JStr s) => s
  | Some v => "```json" +:+ nl_s +:+ JSON_pretty v +:+ nl_s +:+ "```"
  | None => "```json" +:+ nl_s +:+ "undefined" +:+ nl_s +:+ "```"
  end.

(** The keys of the object a node returned: those it has not are as at the start
    of a turn. *)
Definition patch (us : list Update) : AgentState := merge us (turn_start (mkTurnStart EmptyString None None false [] None None None)).

Definition count_text (before : string) (n : nat) (after : string) : string := before +:+ Z_to_string (Z.of_nat n) +:+ after.

Definition skill_name (s : SkillDescriptor) : string := sk_name (skill_base s).
Definition tool_name (t : Tool) : string := td_name (tool_base t).

(** A name that is not empty, in a sentence. *)
Definition named (before name : string) : option string := if str_empty name then None else Some (before +:+ name +:+ ".").

Definition nodeStatusText (node : Node) (us : list Update) (skillContinuation : bool) : option string :=
  let update := patch us in
  match node with
  | n_checkActiveSkill => skill ← s_selectedSkill update; named "Continuing with skill: " (skill_name skill)
  | n_checkActiveAgentRun => agent ← s_selectedAgent update; named "Continuing with agent: " (agent_name agent)
  | n_retrieveSkills => Some (count_text "Found " (length (s_skillCandidates update)) " candidate skill(s).")
  | n_retrieveAgents => Some (count_text "Found " (length (s_agentCandidates update)) " candidate agent(s).")
  | n_selectDelegate =>
      match (skill ← s_selectedSkill update; named "Selected skill: " (skill_name skill)) with
      | Some line => Some line
      | None => agent ← s_selectedAgent update; named "Delegating to agent: " (agent_name agent)
      end
  | n_loadSkillTools =>
      if skillContinuation then None else Some (count_text "Loaded " (length (s_skillTools update)) " tool(s) for this skill.")
  | n_planAction => tool ← s_selectedTool update; named "Calling tool: " (tool_name tool)
  | _ => None
  end.

(** ** The payloads *)

Definition num (n : Z) : json := JNum (num_of_Z n).

Definition listModelsResponse (created : Z) : json :=
  JObj [("object", JStr "list");
        ("data", JArr [JObj [("id", JStr MODEL_ID); ("object", JStr "model"); ("created", num created); ("owned_by", JStr "controller-agent")]])].

Definition chatCompletionChunk (id : string) (created : Z) (model : string) (delta : list (string * json)) (finishReason : json) : json :=
  JObj [("id", JStr id); ("object", JStr "chat.completion.chunk"); ("created", num created); ("model", JStr model);
        ("choices", JArr [JObj [("index", num 0); ("delta", JObj delta); ("finish_reason", finishReason)]])].

Definition function_fields (call : PendingToolCall) : list (string * json) :=
  [("id", JStr (ptc_id call)); ("type", JStr "function");
   ("function", JObj [("name", JStr (ptc_name call)); ("arguments", JStr (ptc_arguments call))])].

Definition toolCallsPayload (calls : list PendingToolCall) : list json := (fun call => JObj (function_fields call)) <$> calls.

Definition completion (id : string) (created : Z) (model : string) (message : list (string * json)) (finishReason : string) : json :=
  JObj [("id", JStr id); ("object", JStr "chat.completion"); ("created", num created); ("model", JStr model);
        ("choices", JArr [JObj [("index", num 0); ("message", JObj message); ("finish_reason", JStr finishReason)]]);
        ("usage", JObj [("prompt_tokens", num 0); ("completion_tokens", num 0); ("total_tokens", num 0)])].

Definition chatCompletionToolCallResponse (id : string) (created : Z) (model : string) (calls : list PendingToolCall) : json :=
  completion id created model
    [("role", JStr "assistant"); ("content", JNull); ("tool_calls", JArr (toolCallsPayload calls))] "tool_calls".

Definition toolCallDeltaChunk (id : string) (created : Z) (model : string) (calls : list PendingToolCall) : json :=
  chatCompletionChunk id created model
    [("role", JStr "assistant");
     ("tool_calls", JArr (imap (fun index call => JObj (("index", num (Z.of_nat index)) :: function_fields call)) calls))] JNull.

Definition chatCompletionResponse (id : string) (created : Z) (model content finishReason : string) : json :=
  completion id created model [("role", JStr "assistant"); ("content", JStr content)] finishReason.

Definition openAiError (message code : string) : json :=
  JObj [("error", JObj [("message", JStr message); ("type", JStr "invalid_request_error"); ("code", JStr code)])].

Definition status_event (description : string) (done : bool) : json :=
  JObj [("event", JObj [("type", JStr "status"); ("data", JObj [("description", JStr description); ("done", JBool done)])])].

Definition errorStatusAndCode (error : string) : Z * string :=
  if startsWith "unauthorized" error then (401, "unauthorized")
  else if startsWith "no matching skill" error then (422, "no_skill_available")
  else if startsWith "skill has no usable tools" error then (422, "no_tool_available")
  else if startsWith "planner selected a tool outside" error then (500, "internal_error")
  else if startsWith "tool failed" error then (502, "tool_failed")
  else (500, "internal_error").

(** ** The events of a turn (turn-event.ts) *)

Inductive TurnEventKind :=
| turn_started | skill_selected | tool_started | tool_progress | tool_finished | tool_failed | turn_warning
| approval_required | approval_resolved | turn_completed.

(** The fields that a rendering reads. *)
Record TurnEvent := mkTurnEvent {
  te_kind : TurnEventKind;
  te_skillId : option string;
  te_toolId : option string;
  te_stage : option string;
  te_code : option string;
  te_message : option string
}.

Definition turnEvent (kind : TurnEventKind) : TurnEvent := mkTurnEvent kind None None None None None.

Definition approvalRequiredLine (toolId : string) : string :=
  "Approval required: run tool " +:+ qq +:+ toolId +:+ qq +:+ "? Reply " +:+ qq +:+ "approve" +:+ qq +:+ " or " +:+ qq +:+ "deny" +:+ qq +:+ ".".

(** An ellipsis is one character outside Latin-1; its bytes in UTF-8 stand for
    it. *)
Definition renderTurnEvent (e : TurnEvent) : string :=
  match te_kind e with
  | turn_started => "Starting…"
  | skill_selected => "Selected skill: " +:+ ((te_message e ??? te_skillId e) ?? "unknown") +:+ "."
  | approval_required => approvalRequiredLine (te_toolId e ?? EmptyString)
  | approval_resolved => "Approval " +:+ (te_code e ?? "resolved") +:+ ": tool " +:+ qq +:+ (te_toolId e ?? EmptyString) +:+ qq +:+ "."
  | turn_completed => "Done."
  | _ =>
      if truthy_str (te_message e) then
        (if truthy_str (te_stage e) then (te_stage e ?? EmptyString) +:+ ": " else EmptyString) +:+
        str_take 120 (te_message e ?? EmptyString)
      else if truthy_str (te_stage e) then te_stage e ?? EmptyString else "working…"
  end.

(** ** Heartbeats (with-heartbeat.ts) *)

(** What happens while the source is consumed: its next value, its end, or an
    interval that passes without either. *)
Inductive Tick (A : Type) :=
| tick_value (a : A)
| tick_timeout
| tick_done.
Arguments tick_value {A}.
Arguments tick_timeout {A}.
Arguments tick_done {A}.

Inductive HeartbeatItem (A : Type) :=
| hb_chunk (value : A)
| hb_heartbeat.
Arguments hb_chunk {A}.
Arguments hb_heartbeat {A}.

Fixpoint withHeartbeat {A : Type} (ticks : list (Tick A)) : list (HeartbeatItem A) :=
  match ticks with
  | [] => []
  | tick_value a :: rest => hb_chunk a :: withHeartbeat rest
  | tick_timeout :: rest => hb_heartbeat :: withHeartbeat rest
  | tick_done :: _ => []
  end.

(** ** Lemmas *)

Lemma latest_take n ms : latest n ms = take n (omap turn_of ms).
Proof.
  revert n. induction ms as [|m ms IH]; intros n; [by destruct n|]. destruct n as [|n]; [done|]. cbn [latest].
  rewrite !IH. unfold omap; cbn [list_omap]. by destruct (turn_of m).
Qed.

Lemma omap_rev {A B : Type} (f : A -> option B) l : omap f (rev l) = rev (omap f l).
Proof.
  induction l as [|x l IH]; [done|]. cbn [rev]. rewrite omap_app, IH. unfold omap at 2 3; cbn [list_omap].
  destruct (f x); [done|]. by rewrite app_nil_r.
Qed.

Lemma within_budget_spec turns :
  exists dropped, turns = dropped ++ within_budget turns /\ (total_chars (within_budget turns) <= HISTORY_MAX_CHARS)%nat /\
    forall t, last dropped = Some t -> (HISTORY_MAX_CHARS < total_chars (t :: within_budget turns))%nat.
Proof.
  induction turns as [|t turns (dropped & Heq & Hfit & Hlast)].
  - exists []. split_and!; [done|unfold HISTORY_MAX_CHARS; cbn; lia|done].
  - cbn [within_budget]. destruct (Nat.ltb _ _) eqn:E.
    + apply Nat.ltb_lt in E. exists (t :: dropped). split_and!; [by rewrite Heq at 1|done|].
      intros t'. rewrite last_cons. destruct (last dropped) as [t''|] eqn:El; intros [= <-]; [by apply Hlast|].
      apply last_None in El as ->. by rewrite Heq in E.
    + apply Nat.ltb_ge in E. exists []. by split_and!.
Qed.

Lemma rev_lookup {A : Type} (l : list A) i : (i < length l)%nat -> rev l !! i = l !! (length l - S i)%nat.
Proof. rewrite rev_alt. apply reverse_lookup. Qed.

Lemma find_last_user arr i :
  findLastMessageIndex arr "user" = Some i ->
  exists m c, arr = take i arr ++ m :: drop (S i) arr /\ arr !! i = Some m /\ spoken_by "user" m = Some c /\
    Forall (fun m => spoken_by "user" m = None) (drop (S i) arr).
Proof.
  unfold findLastMessageIndex. intros ([j m] & Hfind & ->)%fmap_Some_1. apply list_find_Some in Hfind as (Hj & [c Hc] & Hmin).
  pose proof (lookup_lt_Some _ _ _ Hj) as Hlt. rewrite length_rev in Hlt.
  rewrite rev_lookup in Hj by done. set (i := (length arr - 1 - j)%nat).
  replace (length arr - S j)%nat with i in Hj by (unfold i; lia).
  exists m, c. split_and!; [by rewrite take_drop_middle|done|done|].
  apply Forall_lookup. intros k x Hk. rewrite lookup_drop in Hk.
  pose proof (lookup_lt_Some _ _ _ Hk) as Hlt'.
  destruct (spoken_by "user" x) as [c'|] eqn:Ec; [|done]. exfalso.
  apply (Hmin (length arr - S (S i + k))%nat x); [|unfold i in *; lia|by rewrite Ec].
  rewrite rev_lookup by (unfold i in *; lia). rewrite <- Hk. f_equal. unfold i in *. lia.
Qed.

Lemma request_call_elem requested call e :
  e ∈ request_call requested call -> e ∈ requested \/
  exists fn, as_object (jget "function" (fields_of call)) = Some fn /\
    jget "id" (fields_of call) = Some (JStr e.1) /\ jget "name" fn = Some (JStr e.2.1) /\
    e.2.2 = text_or_json (jget "arguments" fn) (JObj []).
Proof.
  unfold request_call. destruct (jget "id" _) as [[| | |id| |]|] eqn:?; auto.
  destruct (as_object (jget "function" _)) as [fn|] eqn:?; cbn [nullish]; [|auto].
  destruct (jget "name" fn) as [[| | |name| |]|] eqn:?; auto.
  intros [->|H]%map_set_elem; [|auto]. right. by exists fn.
Qed.

(** An assistant message of the list asked for the call. *)
Definition asked_in (messages : list json) (e : string * (string * string)) : Prop :=
  exists message calls call fn,
    message ∈ messages /\ is_string (jget "role" (fields_of message)) "assistant" = true /\
    jget "tool_calls" (fields_of message) = Some (JArr calls) /\ call ∈ calls /\
    as_object (jget "function" (fields_of call)) = Some fn /\ jget "id" (fields_of call) = Some (JStr e.1) /\
    jget "name" fn = Some (JStr e.2.1) /\ e.2.2 = text_or_json (jget "arguments" fn) (JObj []).

Lemma requested_asked messages e : e ∈ foldl request_calls [] messages -> asked_in messages e.
Proof.
  revert e. apply (foldl_inv (fun requested => forall e, e ∈ requested -> asked_in messages e)).
  2: by intros e ?%elem_of_nil.
  intros requested message Hm IH. unfold request_calls.
  destruct (is_string (jget "role" _) "assistant") eqn:Hr; [|done].
  destruct (jget "tool_calls" _) as [[| | | |calls|]|] eqn:Hc; try done.
  apply (foldl_inv (fun requested => forall e, e ∈ requested -> asked_in messages e)); [|done].
  intros requested' call Hin IH' e [He|(fn & H1 & H2 & H3 & H4)]%request_call_elem; [by apply IH'|].
  by exists message, calls, call, fn.
Qed.

Lemma slen_footer m : slen (appendSelfImprovementSuggestion m) = (slen m + slen SELF_IMPROVEMENT_FOOTER)%nat.
Proof. apply slen_app. Qed.

(** ** Properties *)

(** What the graph is asked with is the last user message that says
    something, whole, after a history that is the longest tail of the turns
    before it within eight messages and 24,000 characters; a call whose result
    it is told of was asked for by an assistant's message, and answered by a
    tool's message, both after that user message; and without any such user
    message there is no request. *)
Theorem agent_request_window (messages : list json) :
  match buildAgentRequest (Some (JArr messages)) with
  | None => Forall (fun m => spoken_by "user" m = None) messages
  | Some r =>
      exists before message after userContent older window,
        messages = before ++ message :: after /\ spoken_by "user" message = Some userContent /\
        Forall (fun m => spoken_by "user" m = None) after /\
        ar_request r = with_history window userContent /\ omap turn_of before = older ++ window /\
        (length window <= 8)%nat /\ (total_chars window <= 24000)%nat /\
        (forall t, last older = Some t -> length window = 8%nat \/ (24000 < total_chars (t :: window))%nat) /\
        forall call, call ∈ ar_priorToolCalls r ->
          asked_in after (pc_id call, (pc_name call, pc_arguments call)) /\
          exists answer, answer ∈ after /\ is_string (jget "role" (fields_of answer)) "tool" = true /\
            jget "tool_call_id" (fields_of answer) = Some (JStr (pc_id call)) /\
            pc_result call = text_or_json (jget "content" (fields_of answer)) JNull
  end.
Proof.
  cbn [buildAgentRequest]. destruct (findLastMessageIndex messages "user") as [i|] eqn:Hi.
  2: { unfold findLastMessageIndex in Hi. apply fmap_None in Hi. apply list_find_None in Hi.
       apply Forall_forall. intros m Hm. rewrite Forall_forall in Hi. apply eq_None_not_Some. apply (Hi m).
       apply list_elem_of_In. apply -> in_rev. by apply list_elem_of_In. }
  destruct (find_last_user _ _ Hi) as (m & c & Heq & Hm & Hc & Hafter). cbn [mbind option_bind]. rewrite Hm. cbn [mbind option_bind].
  rewrite Hc. cbn [mbind option_bind ar_request ar_priorToolCalls].
  set (turns := omap turn_of (take i messages)).
  assert (rev (latest HISTORY_MAX_MESSAGES (rev (take i messages))) = drop (length turns - 8) turns) as ->.
  { rewrite latest_take, omap_rev. fold turns. rewrite !rev_alt. fold (reverse turns). rewrite take_reverse. fold (reverse (reverse (drop (length turns - HISTORY_MAX_MESSAGES) turns))). by rewrite reverse_involutive. }
  destruct (within_budget_spec (drop (length turns - 8) turns)) as (dropped & Hd & Hfit & Hlast).
  set (window := within_budget _) in *.
  exists (take i messages), m, (drop (S i) messages), c, (take (length turns - 8) turns ++ dropped), window.
  assert (length dropped + length window <= 8)%nat as Hlen.
  { apply (f_equal length) in Hd. rewrite length_drop, length_app in Hd. lia. }
  split_and!; [exact Heq|done|done|done| |lia|done| |].
  - rewrite <- app_assoc, <- Hd. symmetry. apply take_drop.
  - intros t. rewrite last_app. destruct (last dropped) as [t'|] eqn:El; [intros [= <-]; right; by apply Hlast|].
    apply last_None in El as ->. intros Ht. left. cbn in Hd. rewrite <- Hd, length_drop.
    destruct (take (length turns - 8) turns) eqn:Et; [done|]. apply (f_equal length) in Et. rewrite length_take in Et. cbn in Et. lia.
  - intros call. unfold collectPriorToolCalls. set (after := drop (S i) messages).
    destruct (foldl request_calls [] after) as [|e requested] eqn:Hr; [by intros ?%elem_of_nil|]. rewrite <- Hr.
    intros (answer & Hin & Hans)%list_elem_of_omap. unfold answered_call in Hans.
    destruct (is_string _ "tool") eqn:Hrole; [|done].
    destruct (jget "tool_call_id" _) as [[| | |id| |]|] eqn:Hid; try done.
    apply fmap_Some_1 in Hans as ([name args] & Hget & ->). cbn [pc_id pc_name pc_arguments pc_result fst snd].
    apply map_get_elem_weak, requested_asked in Hget. split; [exact Hget|]. by exists answer.
Qed.

(** A housekeeping request of the chat UI is recognised by its first words,
    and those are the history's as soon as the conversation has any: such a
    request is never answered directly, and goes to the graph. *)
Theorem housekeeping_needs_no_history (window : list (string * string)) (userContent : string) :
  isInternalUiTaskRequest (with_history window userContent) = (bool_decide (window = []) && isInternalUiTaskRequest userContent)%bool.
Proof. by destruct window. Qed.

(** The footer that a fallback answer carries is taken off when the answer
    comes back as history. *)
Theorem footer_roundtrip (content : string) : stripSelfImprovementFooter (appendSelfImprovementSuggestion content) = content.
Proof.
  unfold stripSelfImprovementFooter, endsWith. rewrite slen_footer.
  assert (slen content + slen SELF_IMPROVEMENT_FOOTER - slen SELF_IMPROVEMENT_FOOTER = slen content)%nat as -> by lia.
  unfold appendSelfImprovementSuggestion. rewrite str_drop_app, str_take_app, bool_decide_eq_true_2 by done.
  assert (Nat.leb (slen SELF_IMPROVEMENT_FOOTER) (slen content + slen SELF_IMPROVEMENT_FOOTER) = true) as -> by (apply Nat.leb_le; lia).
  done.
Qed.

(** The values of a source, whatever the timing of its heartbeats. *)
Lemma heartbeat_transparent {A : Type} (values : list A) (ticks : list (Tick A)) :
  omap (fun t => match t with tick_value a => Some a | _ => None end) ticks = values -> Forall (fun t => t <> tick_done) ticks ->
  omap (fun i => match i with hb_chunk a => Some a | hb_heartbeat => None end) (withHeartbeat ticks) = values.
Proof.
  intros <- H. induction H as [|t ticks Ht _ IH]; [done|]. destruct t as [a| |]; [|exact IH|done].
  unfold omap in *. cbn [withHeartbeat list_omap]. by rewrite IH.
Qed.
