(* ===== verification/ChatServer.v ===== *)
(** * Agent orchestrator: a turn over HTTP

    What the server makes of a request before the graph runs and what it makes
    of the graph's answer (apps/agent-orchestrator/src/server.ts): the input of
    a turn ([buildGraphInput]), the caller's tools ([resolveCallerToolTurn]),
    and the chat completions, answered at once or as a stream.

    The graph is an [AgentGraphLike]. A stream is the list of what its consumer
    sees, in order: the calls of the progress listener, the updates of the
    nodes, the heartbeats, and an error if it ends in one. A handler that
    streams runs in the world and the response so far. *)

From stdpp Require Import base gmap strings list.
From Stdlib Require Import ZArith Lia Ascii Bool.
From S2P Require Import Prelude JsString JsNumber Json JsMap EventValues JsList JsonText KnowledgeBase.
From S2P Require Import IdentityLink Authorization Session Approval Catalog Planner Dispatch GraphState GraphNodes GraphTools.
From S2P Require Import CallerTools ChatApi.

#[local] Open Scope Z_scope.

(** ** The input of a turn *)

Record CallerToolTurn := mkCallerToolTurn {
  ctt_tools : list Tool;
  ctt_required : bool;
  ctt_actionHistory : list ToolCallRecord
}.

Record TriggerTurn := mkTriggerTurn {
  tt_triggerName : string;
  tt_forcedSkillId : option string;
  tt_forcedAgentId : option string;
  tt_forcedToolId : option string;
  tt_toolInput : option string;
  tt_readOnly : bool;
  tt_params : jsmap string
}.

(** The arguments of [buildGraphInput]. *)
Record TurnRequest (W : Type) := mkTurnRequest {
  tq_request : string;
  tq_authToken : string;
  tq_sessionId : option string;
  tq_progressListener : option (Listener W);
  tq_identityLinkFlow : option LinkFlow;
  tq_forwardedUserToken : option string;
  tq_remoteControlUrlListener : option (string -> SM W string unit);
  tq_senderLogin : option string;
  tq_callerTools : option CallerToolTurn;
  tq_trigger : option TriggerTurn
}.
Arguments mkTurnRequest {W}.
Arguments tq_request {W} t.
Arguments tq_authToken {W} t.
Arguments tq_sessionId {W} t.
Arguments tq_progressListener {W} t.
Arguments tq_identityLinkFlow {W} t.
Arguments tq_forwardedUserToken {W} t.
Arguments tq_remoteControlUrlListener {W} t.
Arguments tq_senderLogin {W} t.
Arguments tq_callerTools {W} t.
Arguments tq_trigger {W} t.

Definition is_device (flow : LinkFlow) : bool :=
  match flow with
  | flow_device => true
  | _ => false
  end.

Section Input.
Context {W : Type}.
Variable sessionStore : option (SessionStore W).
Variable defaultIdentityLinkFlow : LinkFlow.
Variable approval_of : json -> option ApprovalPending.
Implicit Types (q : TurnRequest W) (record : option SessionRecord).

Definition resolved_flow q : option LinkFlow :=
  tq_identityLinkFlow q ??? (if is_device defaultIdentityLinkFlow then Some defaultIdentityLinkFlow else None).

(** A key that the trigger sets when its value is not empty. *)
Definition forced q (key : TriggerTurn -> option string) : option string := tq_trigger q ≫= fun t => if_set (key t).

Definition turn_input q record : TurnInput W :=
  mkTurnInput (tq_authToken q) (if_set (tq_sessionId q)) (record ≫= ss_activeSkillId) (ss_subject <$> record)
    (is_true (record ≫= ss_activeAgentRunReadOnly)) (record ≫= ss_toolContinuations) (record ≫= ss_agentContinuations)
    ((ctt_tools <$> tq_callerTools q) ?? []) ((ctt_required <$> tq_callerTools q) ?? false)
    (tq_progressListener q) (tq_remoteControlUrlListener q) None (resolved_flow q) (if_set (tq_forwardedUserToken q))
    (if_set (tq_senderLogin q)) (forced q tt_forcedSkillId) (forced q tt_forcedAgentId) (forced q tt_forcedToolId)
    (match forced q tt_forcedToolId with
     | Some _ => Some ((tq_trigger q ≫= tt_toolInput) ?? EmptyString)
     | None => None
     end)
    (in_readOnly (session_input record (tt_readOnly <$> tq_trigger q)))
    (tq_trigger q ≫= fun t => some_unless_empty (tt_params t)) (tt_triggerName <$> tq_trigger q).

Definition turn_begin q record : TurnStart :=
  mkTurnStart (tq_request q) (record ≫= ss_activeAgentId) (record ≫= ss_activeAgentRunId)
    (is_true (record ≫= ss_activeAgentRunAwaitingReply)) ((ctt_actionHistory <$> tq_callerTools q) ?? [])
    (record ≫= ss_pendingIdentityLink) (record ≫= fun r => ss_approvalPending r ≫= approval_of) (record ≫= ss_subAgentApprovalPending).

(** The record of the turn's session, where it has one. *)
Definition session_record (sessionId : option string) : SM W string (option SessionRecord) :=
  match sessionStore with
  | Some store => if truthy_str sessionId then st_get store (sessionId ?? EmptyString) else sret None
  | None => sret None
  end.

Definition buildGraphInput q : SM W string (TurnInput W * TurnStart) :=
  do! record <- session_record (tq_sessionId q) ;;
  sret (turn_input q record, turn_begin q record).
End Input.

(** ** Headers *)

(** [header.split(" ")], of which the first two parts are read. *)
Definition bearerToken (header : option string) : string :=
  match header with
  | None => EmptyString
  | Some h =>
      match split_char " "%char h with
      | scheme :: token :: _ => if bool_decide (toLowerCase scheme = "bearer") then token else EmptyString
      | _ => EmptyString
      end
  end.

(** A header that is given once or many times. *)
Definition headerValue (raw : list string) : option string :=
  match raw with
  | value :: _ => if str_empty (trim value) then None else Some value
  | [] => None
  end.

(** ** What a turn leaves *)

Section Outcome.
Variable approval_json : ApprovalPending -> json.

(** The outcome that the state holds. *)
Definition outcome_of (readOnly : bool) (state : AgentState) : TurnOutcome :=
  mkOutcome (skill_id <$> s_selectedSkill state) (agent_id <$> s_selectedAgent state) (s_agentRunId state)
    (s_agentAwaitingReply state) (s_agentResumePending state) (s_extractedContinuation state) (s_extractedAgentContinuation state)
    (s_pendingIdentityLink state) (s_identityLinkPending state) (approval_json <$> s_approvalPending state)
    (s_approvalWaiting state) (s_subAgentApprovalPending state) (s_subAgentApprovalWaiting state) readOnly.
End Outcome.

(** ** What the consumer of a stream keeps *)

(** The variables of the loop. *)
Record Seen := mkSeen {
  sn_identity : option Identity;
  sn_selectedSkill : option SkillDescriptor;
  sn_selectedAgent : option AgentDescriptor;
  sn_agentRunId : option string;
  sn_agentAwaitingReply : bool;
  sn_skillContinuation : bool;
  sn_result : option json;
  sn_extractedContinuation : option (string * string);
  sn_extractedAgentContinuation : option (string * string);
  sn_pendingIdentityLink : option PendingIdentityLink;
  sn_identityLinkPending : bool;
  sn_approvalPending : option ApprovalPending;
  sn_approvalWaiting : bool;
  sn_subAgentApprovalPending : option SubAgentApprovalPending;
  sn_subAgentApprovalWaiting : bool
}.

Definition seen_nothing : Seen := mkSeen None None None None false false None None None None false None false None false.

(** [update.k], where the object a node returned has the key. *)
Definition written {A : Type} (key : Update -> option A) (us : list Update) : option A := last (omap key us).

Definition k_identity (u : Update) : option (option Identity) := match u with u_identity v => Some v | _ => None end.
Definition k_selectedSkill (u : Update) : option (option SkillDescriptor) := match u with u_selectedSkill v => Some v | _ => None end.
Definition k_selectedAgent (u : Update) : option (option AgentDescriptor) := match u with u_selectedAgent v => Some v | _ => None end.
Definition k_selectedTool (u : Update) : option (option Tool) := match u with u_selectedTool v => Some v | _ => None end.
Definition k_agentRunId (u : Update) : option (option string) := match u with u_agentRunId v => Some v | _ => None end.
Definition k_agentAwaitingReply (u : Update) : option bool := match u with u_agentAwaitingReply v => Some v | _ => None end.
Definition k_result (u : Update) : option (option json) := match u with u_result v => Some v | _ => None end.
Definition k_error (u : Update) : option (option string) := match u with u_error v => Some v | _ => None end.
Definition k_pendingToolCalls (u : Update) : option (list PendingToolCall) := match u with u_pendingToolCalls v => Some v | _ => None end.
Definition k_extractedContinuation (u : Update) : option (option (string * string)) :=
  match u with u_extractedContinuation v => Some v | _ => None end.
Definition k_extractedAgentContinuation (u : Update) : option (option (string * string)) :=
  match u with u_extractedAgentContinuation v => Some v | _ => None end.
Definition k_pendingIdentityLink (u : Update) : option (option PendingIdentityLink) :=
  match u with u_pendingIdentityLink v => Some v | _ => None end.
Definition k_identityLinkPending (u : Update) : option bool := match u with u_identityLinkPending v => Some v | _ => None end.
Definition k_approvalPending (u : Update) : option (option ApprovalPending) := match u with u_approvalPending v => Some v | _ => None end.
Definition k_approvalWaiting (u : Update) : option bool := match u with u_approvalWaiting v => Some v | _ => None end.
Definition k_approvalGranted (u : Update) : option bool := match u with u_approvalGranted v => Some v | _ => None end.
Definition k_subAgentApprovalPending (u : Update) : option (option SubAgentApprovalPending) :=
  match u with u_subAgentApprovalPending v => Some v | _ => None end.
Definition k_subAgentApprovalWaiting (u : Update) : option bool := match u with u_subAgentApprovalWaiting v => Some v | _ => None end.

#[export] Instance Node_eq_dec : EqDecision Node.
Proof. solve_decision. Defined.

(** [if (update.k) x = update.k] *)
Definition kept {A : Type} (value : option (option A)) (x : option A) : option A :=
  match value with
  | Some (Some v) => Some v
  | _ => x
  end.

Definition see (n : Node) (us : list Update) (s : Seen) : Seen :=
  mkSeen (kept (written k_identity us) (sn_identity s)) (kept (written k_selectedSkill us) (sn_selectedSkill s))
    (kept (written k_selectedAgent us) (sn_selectedAgent s)) (written k_agentRunId us ?? sn_agentRunId s)
    (written k_agentAwaitingReply us ?? sn_agentAwaitingReply s)
    (sn_skillContinuation s || (bool_decide (n = n_checkActiveSkill) && bool_decide (is_Some (kept (written k_selectedSkill us) None))))
    (written k_result us ?? sn_result s) (written k_extractedContinuation us ?? sn_extractedContinuation s)
    (written k_extractedAgentContinuation us ?? sn_extractedAgentContinuation s)
    (written k_pendingIdentityLink us ?? sn_pendingIdentityLink s) (written k_identityLinkPending us ?? sn_identityLinkPending s)
    (written k_approvalPending us ?? sn_approvalPending s) (written k_approvalWaiting us ?? sn_approvalWaiting s)
    (written k_subAgentApprovalPending us ?? sn_subAgentApprovalPending s)
    (written k_subAgentApprovalWaiting us ?? sn_subAgentApprovalWaiting s).

(** How a stream ends on an update: with an error, the caller's tools to run, or
    a text, after a status in the case of a pause. *)
Inductive Ending :=
| end_error (error : string)
| end_tool_calls (calls : list PendingToolCall)
| end_text (status : option string) (content : string).

(** [update.k] is there and not undefined. *)
Definition defined {A : Type} (value : option (option A)) : option A := kept value None.

Definition approval_required_text (toolId : option string) : string :=
  renderTurnEvent (mkTurnEvent approval_required None toolId None None None).

(** The tests of the loop after [see], in their order. *)
Definition ending (n : Node) (us : list Update) (seen : Seen) : option Ending :=
  let text := renderResult (sn_result seen) in
  let update_result := match defined (written k_result us) with
                       | Some r => Some (end_text None (renderResult (Some r)))
                       | None => None
                       end in
  match defined (written k_error us), written k_pendingToolCalls us with
  | Some error, _ => Some (end_error error)
  | None, Some ((_ :: _) as calls) => Some (end_tool_calls calls)
  | None, _ =>
      if (bool_decide (n = n_checkPendingIdentityLink) || bool_decide (n = n_delegateToAgent)) && sn_identityLinkPending seen
      then Some (end_text None text)
      else if (bool_decide (n = n_runTool) || bool_decide (n = n_checkPendingApproval)) && (written k_approvalWaiting us ?? false)
      then Some (end_text (Some (approval_required_text (ap_toolId <$> sn_approvalPending seen))) text)
      else if (bool_decide (n = n_delegateToAgent) || bool_decide (n = n_checkActiveAgentRun)
               || bool_decide (n = n_checkPendingSubAgentApproval)) && (written k_subAgentApprovalWaiting us ?? false)
      then Some (end_text (Some (approval_required_text (sap_tool <$> sn_subAgentApprovalPending seen))) text)
      else
        match n with
        | n_composeResponse => Some (end_text None text)
        | n_planAction | n_selectDelegate | n_bareAnswer => update_result
        | n_delegateToAgent | n_checkActiveAgentRun =>
            if truthy_str (defined (written k_agentRunId us)) then Some (end_text None text) else None
        | _ => None
        end
  end.

(** The statuses of an update that does not end the stream. *)
Definition statuses (n : Node) (us : list Update) (seen : Seen) : list string :=
  (if bool_decide (n = n_checkPendingApproval)
   then match written k_approvalPending us with
        | Some None => [renderTurnEvent (mkTurnEvent approval_resolved None None None
                          (Some (if written k_approvalGranted us ?? false then "approved" else "denied")) None)]
        | _ => []
        end
   else []) ++
  match nodeStatusText n us (sn_skillContinuation seen) with
  | Some text => if str_empty text then [] else [text]
  | None => []
  end.

(** ** The response *)

Inductive SseEvent :=
| sse_chunk (payload : json)
| sse_status (description : string) (done : bool)
| sse_comment (comment : string)
| sse_done.

(** What is sent, newest first, once the headers are; and whether the response
    has ended. *)
Record Sse := mkSse {
  sse_openStatusLabel : option string;
  sse_lastContentEndedWithSpace : bool;
  sse_sent : list SseEvent;
  sse_ended : bool
}.

Definition sse_start : Sse := mkSse None true [] false.

Fixpoint last_char (s : string) : option ascii :=
  match s with
  | EmptyString => None
  | String c EmptyString => Some c
  | String _ rest => last_char rest
  end.

Definition first_char (s : string) : option ascii :=
  match s with
  | EmptyString => None
  | String c _ => Some c
  end.

(** [/^\s/] and [/\s$/] *)
Definition starts_with_space (s : string) : bool := match first_char s with Some c => is_ws c | None => false end.
Definition ends_with_space (s : string) : bool := match last_char s with Some c => is_ws c | None => false end.

Definition REMOTE_CONTROL_LINE (url : string) : string :=
  "🤖 Watch live or take over this session here: " +:+ url +:+ nl_s +:+ nl_s.

Section Stream.
Variable id : string.
Variable created : Z.
Variable model : string.
Implicit Types s : Sse.

(** A write to a response that has ended is lost. *)
Definition write (e : SseEvent) s : Sse :=
  if sse_ended s then s else mkSse (sse_openStatusLabel s) (sse_lastContentEndedWithSpace s) (e :: sse_sent s) false.

Definition writeSseStatus (description : string) (done : bool) s : Sse := write (sse_status description done) s.

Definition set_label (label : option string) s : Sse :=
  mkSse label (sse_lastContentEndedWithSpace s) (sse_sent s) (sse_ended s).

Definition close_status s : Sse :=
  match sse_openStatusLabel s with
  | Some label => set_label None (writeSseStatus label true s)
  | None => s
  end.

Definition withSeparator (content : string) s : string * Sse :=
  let needsSeparator := negb (sse_lastContentEndedWithSpace s) && negb (starts_with_space content) in
  let after := if str_empty content then sse_lastContentEndedWithSpace s else ends_with_space content in
  ((if needsSeparator then nl_s +:+ nl_s +:+ content else content), mkSse (sse_openStatusLabel s) after (sse_sent s) (sse_ended s)).

Definition content_chunk (content : string) : SseEvent :=
  sse_chunk (chatCompletionChunk id created model [("content", JStr content)] JNull).
Definition finish_chunk (reason : string) : SseEvent := sse_chunk (chatCompletionChunk id created model [] (JStr reason)).

Definition write_content (content : string) s : Sse :=
  let '(text, s1) := withSeparator content s in write (content_chunk text) s1.

Definition end_stream s : Sse := mkSse (sse_openStatusLabel s) (sse_lastContentEndedWithSpace s) (sse_sent s) true.

Definition finish (content : string) s : Sse :=
  end_stream (write sse_done (write (finish_chunk "stop") (write_content content (close_status s)))).

Definition finishWithToolCalls (calls : list PendingToolCall) s : Sse :=
  end_stream (write sse_done (write (finish_chunk "tool_calls") (write (sse_chunk (toolCallDeltaChunk id created model calls)) (close_status s)))).

(** The progress listener of a streamed turn. *)
Definition progress (stage : string) (message : option string) s : Sse :=
  let text := message ?? EmptyString in
  if bool_decide (stage = "remote-control-url") && negb (str_empty text) then write_content (REMOTE_CONTROL_LINE text) (close_status s)
  else if (bool_decide (stage = "agent-text") || bool_decide (stage = "identity-link")) && negb (str_empty text)
  then write_content text (close_status s)
  else
    let label := renderTurnEvent (mkTurnEvent tool_progress None None (Some stage) None message) in
    writeSseStatus label false (set_label (Some label) s).

(** One thing that the consumer sees. *)
Inductive StreamItem :=
| it_progress (stage : string) (message : option string)
| it_update (n : Node) (us : list Update)
| it_heartbeat
| it_throw (message : string).

(** ** A streamed completion *)

Section Consumer.
Context {W : Type}.
Variable sessionStore : option (SessionStore W).
Variable defaultIdentityLinkFlow : LinkFlow.
Variable approval_of : json -> option ApprovalPending.
Variable approval_json : ApprovalPending -> json.

(** A step on the response, or on the world beside it. *)
Definition sends {E : Type} (f : Sse -> Sse) : SM (W * Sse) E unit := fun '(w, s) => (Ok tt, (w, f s)).
Definition on_world {E A : Type} (m : SM W E A) : SM (W * Sse) E A := fun '(w, s) => let '(r, w') := m w in (r, (w', s)).

Definition seen_outcome (readOnly : bool) (seen : Seen) : TurnOutcome :=
  mkOutcome (skill_id <$> sn_selectedSkill seen) (agent_id <$> sn_selectedAgent seen) (sn_agentRunId seen)
    (sn_agentAwaitingReply seen) false (sn_extractedContinuation seen) (sn_extractedAgentContinuation seen)
    (sn_pendingIdentityLink seen) (sn_identityLinkPending seen) (approval_json <$> sn_approvalPending seen)
    (sn_approvalWaiting seen) (sn_subAgentApprovalPending seen) (sn_subAgentApprovalWaiting seen) readOnly.

Variable sessionId : option string.

Definition persist (readOnly : bool) (seen : Seen) : SM W string unit :=
  persistSession sessionStore sessionId (sn_identity seen) (seen_outcome readOnly seen).

(** The end of the stream on an update. *)
Definition conclude (readOnly : bool) (seen : Seen) (e : Ending) : SM (W * Sse) string unit :=
  match e with
  | end_error error => sends (finish ("❌ " +:+ error))
  | end_tool_calls calls => do! _ <- on_world (persist readOnly seen) ;; sends (finishWithToolCalls calls)
  | end_text status content =>
      do! _ <- when_some status (fun text => sends (writeSseStatus text true)) ;;
      do! _ <- on_world (persist readOnly seen) ;;
      sends (finish content)
  end.

(** The loop, and what follows it when no update ended the stream. *)
Fixpoint consume (readOnly : bool) (seen : Seen) (items : list StreamItem) : SM (W * Sse) string unit :=
  match items with
  | [] =>
      match sn_result seen with
      | Some r => do! _ <- on_world (persist readOnly seen) ;; sends (finish (renderResult (Some r)))
      | None => sends (finish "❌ agent stream ended unexpectedly")
      end
  | it_heartbeat :: rest => do! _ <- sends (write (sse_comment "keep-alive")) ;; consume readOnly seen rest
  | it_progress stage message :: rest => do! _ <- sends (progress stage message) ;; consume readOnly seen rest
  | it_throw message :: _ => sthrow message
  | it_update n us :: rest =>
      let seen' := see n us seen in
      match ending n us seen' with
      | Some e => conclude readOnly seen' e
      | None =>
          do! _ <- sends (fun s => foldl (fun s text => writeSseStatus text true s) s (statuses n us seen')) ;;
          consume readOnly seen' rest
      end
  end.

Record AgentGraphLike := mkGraphLike {
  ag_invoke : TurnInput W -> TurnStart -> SM W string AgentState;
  ag_stream : TurnInput W -> TurnStart -> SM W string (list StreamItem)
}.
Variable graph : AgentGraphLike.

(** The request of a chat completion's turn. *)
Definition chat_request (request authToken : string) (listener : option (Listener W)) (identityLinkFlow : option LinkFlow)
    (forwardedUserToken : option string) (callerTools : CallerToolTurn) : TurnRequest W :=
  mkTurnRequest request authToken sessionId listener identityLinkFlow forwardedUserToken None None (Some callerTools) None.

(** [emit] is the listener: what it is told is in the items of the stream. *)
Definition handleChatCompletionsStreaming (request authToken : string) (forwardedUserToken : option string)
    (callerTools : CallerToolTurn) (identityLinkFlow : option LinkFlow) (emit : Listener W) : SM (W * Sse) string unit :=
  scatch
    (do! input <- on_world (buildGraphInput sessionStore defaultIdentityLinkFlow approval_of
                              (chat_request request authToken (Some emit) identityLinkFlow forwardedUserToken callerTools)) ;;
     do! items <- on_world (ag_stream graph input.1 input.2) ;;
     consume (in_turnReadOnly input.1) seen_nothing items)
    (fun message => sends (finish ("❌ " +:+ message))).

(** ** A completion at once *)

(** A response that is not a stream: its status, headers and body. *)
Record HttpReply := mkReply {
  hr_status : Z;
  hr_headers : list (string * string);
  hr_body : option json
}.

Definition reply_json (status : Z) (body : json) : HttpReply := mkReply status [("content-type", "application/json")] (Some body).
Definition reply_empty (status : Z) : HttpReply := mkReply status [] None.

(** What a turn's state is answered with. *)
Inductive Answer :=
| answer_error (error : string)
| answer_tool_calls (calls : list PendingToolCall)
| answer_text (content : string).

Definition answer (state : AgentState) : Answer :=
  if truthy_str (s_error state) then answer_error (s_error state ?? EmptyString)
  else match s_pendingToolCalls state with
       | (_ :: _) as calls => answer_tool_calls calls
       | [] => answer_text (renderResult (s_result state))
       end.

Definition answer_reply (a : Answer) : HttpReply :=
  match a with
  | answer_error error => let '(status, code) := errorStatusAndCode error in reply_json status (openAiError error code)
  | answer_tool_calls calls => reply_json 200 (chatCompletionToolCallResponse id created model calls)
  | answer_text content => reply_json 200 (chatCompletionResponse id created model content "stop")
  end.

Definition handleChatCompletionsBlocking (request authToken : string) (forwardedUserToken : option string)
    (callerTools : CallerToolTurn) (identityLinkFlow : option LinkFlow) : SM W string HttpReply :=
  do! input <- buildGraphInput sessionStore defaultIdentityLinkFlow approval_of
                 (chat_request request authToken None identityLinkFlow forwardedUserToken callerTools) ;;
  do! state <- ag_invoke graph input.1 input.2 ;;
  if truthy_str (s_error state) then sret (answer_reply (answer state))
  else
    do! _ <- persistSession sessionStore sessionId (s_identity state)
               (outcome_of approval_json (in_turnReadOnly input.1) state) ;;
    sret (answer_reply (answer state)).
End Consumer.
End Stream.

(** ** POST /v1/chat/completions *)

(** [parsed.k] of a parsed body: a [null] has no properties to read. *)
Definition body_field (body : json) (k : string) : result string (option json) :=
  match body with
  | JNull => Err ("Cannot read properties of null (reading '" +:+ k +:+ "')")
  | JObj fields => Ok (jget k fields)
  | _ => Ok None
  end.

Definition invalid_request (message : string) : HttpReply := reply_json 400 (openAiError message "invalid_request").

Definition flow_field (v : option json) : option LinkFlow :=
  if is_string v "device" then Some flow_device else if is_string v "authcode" then Some flow_authcode else None.

(** What is read of a request. *)
Record HttpRequest := mkHttpRequest {
  hq_method : string;
  hq_pathname : string;
  hq_query : list (string * string);
  hq_authorization : option string;
  hq_chatId : list string;
  hq_forwardedUserJwt : list string;
  hq_senderAssertion : list string;
  hq_body : string
}.

Section Completions.
Context {W : Type}.
Variable sha256_hex : string -> string.
Variable JSON_parse : string -> option json.
Variable created : Z.
Variable chatCompletionId : SM W string string.
Variable sessionStore : option (SessionStore W).
Variable defaultIdentityLinkFlow : LinkFlow.
Variable approval_of : json -> option ApprovalPending.
Variable approval_json : ApprovalPending -> json.
Variable graph : AgentGraphLike (W := W).
Variable taskCompleter : option (option json -> string -> SM W string string).
Variable callerToolStore : option (CallerToolStore W).
Variable callerToolTopK : nat.
Variable emit : Listener W.

(** A call that the client ran, as the planner's history has it. *)
Definition prior_record (call : PriorCallerToolCall) : ToolCallRecord :=
  mkCallRecord (callerToolId (pc_name call)) (pc_arguments call) (Some (pc_result call)).

Definition resolveCallerToolTurn (request : string) (rawTools rawToolChoice : option json) (priorToolCalls : list PriorCallerToolCall) :
    SM W string (result string CallerToolTurn) :=
  let actionHistory := prior_record <$> priorToolCalls in
  match parseCallerTools sha256_hex rawTools rawToolChoice with
  | Err error => sret (Err error)
  | Ok ([], _) => sret (Ok (mkCallerToolTurn [] false actionHistory))
  | Ok (tools, choice) =>
      do! resolved <- resolveCallerTools request tools choice callerToolTopK callerToolStore ;;
      sret (Ok (mkCallerToolTurn (toCallerToolDescriptor <$> resolved)
                  (match choice with
                   | choice_auto required => required
                   | _ => false
                   end) actionHistory))
  end.

(** [None] for a reply that was streamed. *)
Definition handleInternalUiTask (messages : option json) (model : string) (stream : bool) : SM (W * Sse) string (option HttpReply) :=
  do! content <- on_world (match taskCompleter with
                           | Some complete => scatch (complete messages model) (fun _ => sret EmptyString)
                           | None => sret EmptyString
                           end) ;;
  do! id <- on_world chatCompletionId ;;
  if stream then
    do! _ <- sends (fun s => end_stream (write sse_done (write (finish_chunk id created model "stop")
                                                          (write (content_chunk id created model content) s)))) ;;
    sret None
  else sret (Some (reply_json 200 (chatCompletionResponse id created model content "stop"))).

(** An error of a reading is thrown. *)
Definition reads {A : Type} (r : result string A) : SM (W * Sse) string A := fun w => (r, w).

Definition handleChatCompletions (req : HttpRequest) : SM (W * Sse) string (option HttpReply) :=
  match (if str_empty (hq_body req) then Some (JObj []) else JSON_parse (hq_body req)) with
  | None => sret (Some (invalid_request "body must be valid JSON"))
  | Some body =>
      do! messages <- reads (body_field body "messages") ;;
      match buildAgentRequest messages with
      | None => sret (Some (invalid_request ("messages must include a non-empty " +:+ qq +:+ "user" +:+ qq +:+ " message")))
      | Some built =>
          do! rawModel <- reads (body_field body "model") ;;
          do! rawStream <- reads (body_field body "stream") ;;
          do! rawFlow <- reads (body_field body "identity_link_flow") ;;
          do! rawTools <- reads (body_field body "tools") ;;
          do! rawToolChoice <- reads (body_field body "tool_choice") ;;
          let model := match rawModel with
                       | Some (JStr m) => if str_empty m then MODEL_ID else m
                       | _ => MODEL_ID
                       end in
          let stream := match rawStream with
                        | Some (JBool true) => true
                        | _ => false
                        end in
          if isInternalUiTaskRequest (ar_request built) then handleInternalUiTask messages model stream
          else
            do! callerTools <- on_world (resolveCallerToolTurn (ar_request built) rawTools rawToolChoice (ar_priorToolCalls built)) ;;
            match callerTools with
            | Err error => sret (Some (invalid_request error))
            | Ok turn =>
                do! id <- on_world chatCompletionId ;;
                let authToken := bearerToken (hq_authorization req) in
                let sessionId := headerValue (hq_chatId req) in
                let forwardedUserToken := headerValue (hq_forwardedUserJwt req) in
                let flow := flow_field rawFlow in
                if stream then
                  do! _ <- handleChatCompletionsStreaming id created model sessionStore defaultIdentityLinkFlow approval_of approval_json
                             sessionId graph (ar_request built) authToken forwardedUserToken turn flow emit ;;
                  sret None
                else
                  do! reply <- on_world (handleChatCompletionsBlocking id created model sessionStore defaultIdentityLinkFlow approval_of
                                           approval_json sessionId graph (ar_request built) authToken forwardedUserToken turn flow) ;;
                  sret (Some reply)
            end
      end
  end.
End Completions.
