(* ===== verification/ChatTurn.v ===== *)
(** * Agent orchestrator: a streamed turn and a turn answered at once

    The consumer of a stream (ChatServer.v) reads a turn off the updates of its
    nodes; the other handler reads it off the state the graph ends in. Here the
    two are related, for the graph of GraphTools.v: the stream ends where the
    turn does, with the same answer, and what it persists is the same but for
    two keys. And whatever the graph, the stream is well formed. *)

From stdpp Require Import base gmap strings list.
From Stdlib Require Import ZArith Lia Ascii Bool.
From S2P Require Import Prelude JsString JsNumber Json JsMap EventValues JsList JsonText KnowledgeBase KbCite KbSearcher KbLive.
From S2P Require Import IdentityLink Authorization Session AgentChannel Approval Catalog Planner Dispatch GraphState GraphNodes GraphTools.
From S2P Require Import GraphRun GraphTurn CallerTools ChatApi ChatServer.

(** ** Keys *)

Lemma written_snoc {A : Type} (k : Update -> option A) us u : written k (us ++ [u]) = k u ??? written k us.
Proof.
  unfold written. rewrite omap_app. unfold omap at 2; cbn [list_omap]. destruct (k u) as [a|]; [by rewrite last_snoc|].
  by rewrite app_nil_r.
Qed.

(** A key of the merged state is the one written, or the old one. *)
Lemma merge_written {A : Type} (k : Update -> option A) (f : AgentState -> A) :
  (forall u s, f (apply_update u s) = k u ?? f s) -> forall us s, f (merge us s) = written k us ?? f s.
Proof.
  intros Hk us s. induction us as [|u us IH] using rev_ind; [done|].
  unfold merge. rewrite foldl_app. cbn [foldl]. fold (merge us s). rewrite Hk, written_snoc, IH. by destruct (k u).
Qed.

Ltac by_key := apply merge_written; by intros [] ?.

Section Keys.
Variables (us : list Update) (s : AgentState).

Lemma m_identity : s_identity (merge us s) = written k_identity us ?? s_identity s. Proof. by_key. Qed.
Lemma m_selectedSkill : s_selectedSkill (merge us s) = written k_selectedSkill us ?? s_selectedSkill s. Proof. by_key. Qed.
Lemma m_selectedAgent : s_selectedAgent (merge us s) = written k_selectedAgent us ?? s_selectedAgent s. Proof. by_key. Qed.
Lemma m_selectedTool : s_selectedTool (merge us s) = written k_selectedTool us ?? s_selectedTool s. Proof. by_key. Qed.
Lemma m_agentRunId : s_agentRunId (merge us s) = written k_agentRunId us ?? s_agentRunId s. Proof. by_key. Qed.
Lemma m_agentAwaitingReply : s_agentAwaitingReply (merge us s) = written k_agentAwaitingReply us ?? s_agentAwaitingReply s. Proof. by_key. Qed.
Lemma m_result : s_result (merge us s) = written k_result us ?? s_result s. Proof. by_key. Qed.
Lemma m_error : s_error (merge us s) = written k_error us ?? s_error s. Proof. by_key. Qed.
Lemma m_pendingToolCalls : s_pendingToolCalls (merge us s) = written k_pendingToolCalls us ?? s_pendingToolCalls s. Proof. by_key. Qed.
Lemma m_extractedContinuation : s_extractedContinuation (merge us s) = written k_extractedContinuation us ?? s_extractedContinuation s.
Proof. by_key. Qed.
Lemma m_extractedAgentContinuation :
  s_extractedAgentContinuation (merge us s) = written k_extractedAgentContinuation us ?? s_extractedAgentContinuation s.
Proof. by_key. Qed.
Lemma m_pendingIdentityLink : s_pendingIdentityLink (merge us s) = written k_pendingIdentityLink us ?? s_pendingIdentityLink s.
Proof. by_key. Qed.
Lemma m_identityLinkPending : s_identityLinkPending (merge us s) = written k_identityLinkPending us ?? s_identityLinkPending s.
Proof. by_key. Qed.
Lemma m_approvalPending : s_approvalPending (merge us s) = written k_approvalPending us ?? s_approvalPending s. Proof. by_key. Qed.
Lemma m_approvalWaiting : s_approvalWaiting (merge us s) = written k_approvalWaiting us ?? s_approvalWaiting s. Proof. by_key. Qed.
Lemma m_approvalGranted : s_approvalGranted (merge us s) = written k_approvalGranted us ?? s_approvalGranted s. Proof. by_key. Qed.
Lemma m_subAgentApprovalPending :
  s_subAgentApprovalPending (merge us s) = written k_subAgentApprovalPending us ?? s_subAgentApprovalPending s.
Proof. by_key. Qed.
Lemma m_subAgentApprovalWaiting :
  s_subAgentApprovalWaiting (merge us s) = written k_subAgentApprovalWaiting us ?? s_subAgentApprovalWaiting s.
Proof. by_key. Qed.
End Keys.

(** ** What a node writes *)

(** The keys that are written by some nodes only, and never emptied. *)
Definition allowed (n : Node) (u : Update) : bool :=
  match u with
  | u_identity None | u_selectedSkill None | u_selectedAgent None => false
  | u_pendingToolCalls _ => bool_decide (n = n_runTool)
  | u_selectedTool _ => bool_decide (n ∈ [n_checkPendingApproval; n_selectDelegate; n_planAction])
  | u_selectedAgent _ => bool_decide (n ∈ [n_checkPendingIdentityLink; n_checkActiveAgentRun; n_selectDelegate; n_delegateToAgent])
  | u_identityLinkPending _ => bool_decide (n ∈ [n_checkPendingIdentityLink; n_checkActiveAgentRun; n_delegateToAgent])
  | u_approvalGranted _ => bool_decide (n ∈ [n_checkPendingApproval; n_planAction])
  | u_approvalWaiting _ => bool_decide (n ∈ [n_runTool; n_checkPendingApproval])
  | u_subAgentApprovalWaiting _ => bool_decide (n ∈ [n_checkPendingSubAgentApproval; n_checkActiveAgentRun; n_delegateToAgent])
  | _ => true
  end.

(** What the keys of one object have to do with each other. *)
Record chunk_ok (n : Node) (s : AgentState) (us : list Update) : Prop := {
  co_allowed : forallb (allowed n) us = true;
  co_approval : is_Some (written k_approvalWaiting us) ->
    exists p, written k_approvalPending us = Some (Some p) /\ written k_approvalGranted us = None;
  co_subApproval : is_Some (written k_subAgentApprovalWaiting us) -> is_Some (written k_subAgentApprovalPending us);
  co_link : is_Some (written k_identityLinkPending us) ->
    (n = n_checkPendingIdentityLink /\ written k_selectedAgent us = None) \/
    (n <> n_checkPendingIdentityLink /\ is_Some (written k_pendingIdentityLink us));
  co_activeRun : n = n_checkActiveAgentRun ->
    is_Some (written k_subAgentApprovalWaiting us) \/ is_Some (written k_selectedAgent us) ->
    truthy_str (defined (written k_agentRunId us)) = true;
  co_delegate : n = n_selectDelegate -> is_Some (written k_result us) ->
    written k_selectedAgent us = None /\ written k_selectedTool us = None;
  co_plan : n = n_planAction -> is_Some (defined (written k_result us)) ->
    s_plannedAction (merge us s) <> Some planned_call_tool /\
    (s_plannedAction (merge us s) = Some planned_finish -> s_result s = None /\ written k_selectedTool us = None);
  co_granted : n = n_checkPendingApproval -> is_Some (written k_selectedTool us) -> written k_approvalGranted us = Some true
}.

(** A list of updates that is written out. *)
Ltac chunk := constructor;
  [ by vm_compute
  | try (by intros [? [=]]); try (by eexists)
  | try (by intros [? [=]]); try done
  | try (by intros [? [=]]); try (by left); try (by right)
  | try done; try (intros _ [[? [=]]|[? [=]]])
  | try done; try (intros _ [? [=]])
  | try done; try (intros _ [? [=]])
  | try done; try (intros _ [? [=]]) ].

Lemma yields_bind {W E A B : Type} (P : A -> Prop) (Q : B -> Prop) (f : A -> SM W E B) (m : SM W E A) :
  yields P m -> (forall a, P a -> yields Q (f a)) -> yields Q (sbind f m).
Proof. intros Hm Hf w b w' (a & w1 & Ha & Hb)%sbind_Ok. eapply Hf; [by eapply Hm|exact Hb]. Qed.

Lemma yields_handle {W E E' A : Type} (P : A -> Prop) (m : SM W E A) (h : E -> SM W E' A) :
  yields P m -> (forall e, yields P (h e)) -> yields P (shandle m h).
Proof. intros Hm Hh. apply (yields_shandle (fun _ => True)); [done|done|]. intros e _. apply Hh. Qed.

Section Nodes.
Context {W Url : Type}.
Variable parse_url : string -> result string Url.
Variable url_pathname : Url -> string.
Variable set_pathname : string -> Url -> Url.
Variable searchParams_set : string -> string -> Url -> Url.
Variable url_toString : Url -> string.
Variable sleep : Z -> SM W string unit.
Variable number_text : Z -> string.
Variable inherited_text : string -> string.
Variable JSON_parse : string -> option json.
Variable JSON_stringify : json -> string.
Variable deps : AgentGraphDeps W.
Variable inp : TurnInput W.
Implicit Types state : AgentState.

#[local] Notation the_node := (node parse_url url_pathname set_pathname searchParams_set url_toString sleep number_text
                                 inherited_text JSON_parse JSON_stringify deps inp).

(** A turn that no trigger produced. *)
Definition unforced : Prop := in_forcedSkillId inp = None /\ in_forcedAgentId inp = None /\ in_forcedToolId inp = None.

Ltac peel := repeat first
  [ apply yields_sret | apply yields_sthrow | apply yields_pure; intros ? | apply yields_sbind; intros ?
  | apply yields_scatch; [|intros ?] | apply yields_handle; [|intros ?] | case_match ].

Lemma resolveIdentity_ok state : yields (chunk_ok n_resolveIdentity state) (node_resolveIdentity deps inp state).
Proof. unfold node_resolveIdentity. peel; chunk. Qed.

Lemma checkEventTrigger_ok state : unforced -> yields (chunk_ok n_checkEventTrigger state) (node_checkEventTrigger deps inp state).
Proof.
  intros (H1 & H2 & H3). unfold node_checkEventTrigger. rewrite H1, H2, H3. cbn [truthy_str]. destruct (s_identity state); peel; chunk.
Qed.

Lemma checkPendingSubAgentApproval_ok state :
  yields (chunk_ok n_checkPendingSubAgentApproval state) (node_checkPendingSubAgentApproval deps inp state).
Proof. unfold node_checkPendingSubAgentApproval. peel; chunk. Qed.

Lemma checkPendingApproval_ok state : yields (chunk_ok n_checkPendingApproval state) (node_checkPendingApproval inp state).
Proof.
  unfold node_checkPendingApproval. destruct (s_identity state); [|peel; chunk]. destruct (s_approvalPending state) as [p|]; [|peel; chunk].
  case_match; [peel; chunk|]. apply yields_sret.
  destruct (parseApprovalDecision _); destruct (ap_skill p), (ap_skillTools p), (ap_toolArgs p), (ap_instanceKey p); cbn [u_opt app]; chunk.
Qed.

Lemma checkPendingIdentityLink_ok state :
  yields (chunk_ok n_checkPendingIdentityLink state) (node_checkPendingIdentityLink deps inp state).
Proof. unfold node_checkPendingIdentityLink, still_waiting. peel; chunk. Qed.

Lemma checkActiveSkill_ok state : yields (chunk_ok n_checkActiveSkill state) (node_checkActiveSkill deps inp state).
Proof. unfold node_checkActiveSkill, u_when. peel; chunk. Qed.

(** The updates of a turn of an agent that failed. *)
Definition failure_shape (us : list Update) : Prop :=
  (exists m, us = [u_fail m]) \/ (exists m, us = [u_text m]) \/
  (exists m p, us = [u_text m; u_pendingIdentityLink (Some p); u_identityLinkPending true]).

Lemma failure_chunk err state agent : yields failure_shape (handleAgentTurnFailure parse_url url_pathname set_pathname searchParams_set
  url_toString inherited_text deps inp err state agent).
Proof.
  assert (Hfail : yields failure_shape (sret (W := W) (E := string) [u_fail (agentTurnErrorMessage err)])).
  { apply yields_sret. left. by eexists. }
  unfold handleAgentTurnFailure. destruct err as [e|m]; [|exact Hfail]. destruct e; try exact Hfail.
  destruct (s_identity state) as [who|]; [|exact Hfail].
  destruct (if str_empty code then None else _) as [provider|]; [|exact Hfail].
  destruct (identityGatewayFor deps provider) as [gateway|]; [|exact Hfail].
  apply yields_sbind. intros invalidated. destruct (negb invalidated); [apply yields_sret; right; left; by eexists|].
  apply (yields_bind (fun o => forall us, o = Some us -> failure_shape us)).
  - unfold startReplacementLink. destruct (s_identity state); [|by apply yields_sret].
    do 2 (apply yields_sbind; intros ?). case_match; [|by apply yields_sret].
    apply yields_sbind; intros _. apply yields_pure. intros w us [= <-]. right. right. by eexists _, _.
  - intros [us|] Hus; apply yields_sret; [by apply Hus|right; left; by eexists].
Qed.

Ltac chunk_of_run Hrun := chunk; cbn; by rewrite Hrun.

(** A run's turn, continued or launched: the reply, a pause, or a failure. *)
Lemma continued_chunk state agent runId err :
  str_empty runId = false ->
  yields (chunk_ok n_checkActiveAgentRun state)
    (continued_failure parse_url url_pathname set_pathname searchParams_set url_toString inherited_text deps inp state agent runId err).
Proof.
  intros Hrun. assert (Hsilent : yields (chunk_ok n_checkActiveAgentRun state)
    (do! us <- handleAgentTurnFailure parse_url url_pathname set_pathname searchParams_set url_toString inherited_text deps inp err state agent ;;
     sret (u_agentRunId (Some runId) :: us))).
  { eapply yields_bind; [apply failure_chunk|]. intros us Hus. apply yields_sret.
    destruct Hus as [[m ->]|[[m ->]|(m & p & ->)]]; chunk_of_run Hrun. }
  unfold continued_failure. destruct err as [e|m]; [destruct e|]; try exact Hsilent.
  - destruct (s_activeAgentRunAwaitingReply state); [|exact Hsilent]. apply yields_sbind; intros _. apply yields_sret. chunk_of_run Hrun.
  - apply yields_sret. unfold resumableAgentTurnOutcome. chunk_of_run Hrun.
  - apply yields_sret. unfold subAgentApprovalPause. chunk_of_run Hrun.
Qed.

Lemma reply_ok state agent runId reply :
  str_empty runId = false -> chunk_ok n_checkActiveAgentRun state (run_ids agent runId ++ reply_updates inp agent reply).
Proof. intros Hrun. unfold run_ids, reply_updates, u_when. destruct (tr_final reply); cbn [app]; chunk_of_run Hrun. Qed.

Lemma checkActiveAgentRun_ok state :
  yields (chunk_ok n_checkActiveAgentRun state)
    (node_checkActiveAgentRun parse_url url_pathname set_pathname searchParams_set url_toString inherited_text deps inp state).
Proof.
  assert (Hnil : yields (chunk_ok n_checkActiveAgentRun state) (sret (W := W) (E := string) [])) by (apply yields_sret; chunk).
  unfold node_checkActiveAgentRun. destruct (s_selectedSkill state); [exact Hnil|]. destruct (gd_agentStore deps) as [store|]; [|exact Hnil].
  destruct (gd_agentChannel deps) as [channel|]; [|exact Hnil]. destruct (s_identity state) as [who|]; [|exact Hnil].
  set (runId := s_activeAgentRunId state ?? EmptyString). destruct (str_empty runId) eqn:Hrun; [exact Hnil|]. cbn [orb].
  destruct (_ || _); [exact Hnil|]. apply yields_sbind. intros [|[agent ?] found]; [exact Hnil|].
  destruct (_ && _); [apply yields_sret; chunk|]. apply yields_sbind. intros [reply|].
  - do 2 (apply yields_sbind; intros _). apply yields_sret. by apply reply_ok.
  - unfold continue_run. apply yields_handle; [|intros e; by apply continued_chunk].
    do 3 (apply yields_sbind; intros ?). apply yields_sret. by apply reply_ok.
Qed.

Lemma launched_ok state agent identity runId err :
  yields (chunk_ok n_delegateToAgent state)
    (launched_failure parse_url url_pathname set_pathname searchParams_set url_toString inherited_text deps inp state agent identity runId err).
Proof.
  unfold launched_failure. set (other := sbind _ _).
  assert (Hother : yields (chunk_ok n_delegateToAgent state) other).
  { eapply yields_bind; [apply failure_chunk|]. intros us Hus. apply yields_sret.
    destruct Hus as [[m ->]|[[m ->]|(m & p & ->)]]; chunk. }
  destruct err as [e|m]; [destruct e|]; try exact Hother; apply yields_sret;
    unfold resumableAgentTurnOutcome, subAgentApprovalPause; cbn [app]; chunk.
Qed.

Lemma delegateToAgent_ok state :
  yields (chunk_ok n_delegateToAgent state)
    (node_delegateToAgent parse_url url_pathname set_pathname searchParams_set url_toString sleep number_text inherited_text deps inp state).
Proof.
  unfold node_delegateToAgent. destruct (gd_agentRunLauncher deps), (gd_agentChannel deps), (gd_callbackSecretRef deps);
    try (apply yields_sret; chunk).
  destruct (s_selectedAgent state) as [agent|], (s_identity state) as [who|]; try (apply yields_sret; chunk).
  apply yields_sbind. intros verdict. destruct verdict as [secretEnv x principal owned|message pending|error].
  - do 2 (apply yields_sbind; intros ?). apply yields_handle; [|intros e; apply launched_ok].
    unfold launch_and_wait. do 4 (apply yields_sbind; intros ?). apply yields_sret. unfold reply_updates, u_when.
    destruct (tr_final _); cbn [app]; chunk.
  - apply yields_sret. destruct pending; cbn [u_opt app]; chunk.
  - apply yields_sret; chunk.
Qed.

Lemma simple_ok n state us :
  forallb (allowed n) us = true -> omap k_approvalWaiting us = [] -> omap k_subAgentApprovalWaiting us = [] ->
  omap k_identityLinkPending us = [] -> omap k_selectedTool us = [] -> n <> n_checkActiveAgentRun -> n <> n_selectDelegate ->
  n <> n_planAction -> chunk_ok n state us.
Proof.
  intros Ha H1 H2 H3 H4 N1 N2 N3. unfold written in *.
  constructor; unfold written; rewrite ?H1, ?H2, ?H3, ?H4; try done; try (by intros [? [=]]);
    try (by intros ?). by intros _ [? [=]].
Qed.

Lemma noMatchFallback_ok state : yields (chunk_ok n_selectDelegate state) (noMatchFallback deps inp state).
Proof. unfold noMatchFallback. peel; chunk. Qed.

Lemma selectDelegate_ok state : yields (chunk_ok n_selectDelegate state) (node_selectDelegate deps inp state).
Proof.
  assert (Hchoice : forall choice, yields (chunk_ok n_selectDelegate state) (take_choice deps inp state choice)).
  { intros choice. destruct choice; cbn [take_choice]; try (apply yields_sret; chunk).
    apply yields_sbind. intros [[[called args] key]|]; [|apply noMatchFallback_ok].
    apply yields_sret. destruct key; cbn [u_opt app]; chunk. }
  unfold node_selectDelegate. repeat case_match; try apply noMatchFallback_ok;
    apply yields_sbind; intros [c|]; try apply noMatchFallback_ok; try apply Hchoice; apply yields_sret; chunk.
Qed.

Lemma finishPlanLoop_ok state : yields (chunk_ok n_planAction state) (finishPlanLoop deps state).
Proof.
  assert (Hverbatim : yields (chunk_ok n_planAction state)
            (sret (W := W) (E := string) (u_plannedAction (Some planned_finish) :: lastHistoryResult state))).
  { apply yields_sret. unfold lastHistoryResult. destruct (s_result state) eqn:Hr; [chunk|]. destruct (last_call state); chunk. }
  unfold finishPlanLoop. case_match; [|exact Hverbatim]. case_match; [|exact Hverbatim].
  apply yields_scatch; [|intros _; exact Hverbatim]. apply yields_sbind. intros [response| |]; [|exact Hverbatim..].
  case_match; [exact Hverbatim|]. apply yields_sret; chunk.
Qed.

Lemma planAction_ok state : yields (chunk_ok n_planAction state) (node_planAction deps inp state).
Proof.
  unfold node_planAction. destruct (s_selectedSkill state); [|apply yields_sret; chunk].
  case_match; [apply finishPlanLoop_ok|]. apply yields_sbind. intros [response|toolId toolArgs key|]; [apply yields_sret; chunk| |apply finishPlanLoop_ok].
  destruct (find_tool _ _); [|apply yields_sret; chunk]. case_match; [apply finishPlanLoop_ok|apply yields_sret; chunk].
Qed.

(** The tool loop's other nodes write none of the keys of a pause, but runTool's
    own. *)
Ltac plain := apply simple_ok; done.
Ltac plainly := apply yields_sret; plain.

Lemma event_chunk state tool call jobId event : chunk_ok n_runTool state (event_updates JSON_stringify state tool call jobId event).
Proof.
  unfold event_updates. destruct event as [j c message|j value|j type]; [plain| |plain].
  destruct value as [v|]; [|plain]. destruct v; try plain. destruct (extractContinuationToken _). plain.
Qed.

Lemma runTool_knowledge_base_ok state tool exec input :
  yields (chunk_ok n_runTool state)
    (run_knowledge_base parse_url url_pathname set_pathname searchParams_set url_toString deps inp state tool exec input).
Proof.
  assert (Hlive : forall port does, yields (chunk_ok n_runTool state)
            (run_live parse_url url_pathname set_pathname searchParams_set url_toString deps port does state tool input)).
  { intros port does. unfold run_live. destruct port; [|plainly]. destruct (s_identity state); [|plainly].
    do 2 (apply yields_sbind; intros ?). plainly. }
  unfold run_knowledge_base. destruct (ex_operation exec); try apply Hlive; try plainly.
  unfold run_search. destruct (gd_knowledgeBaseSearcher deps); [|plainly]. destruct (s_identity state); [|plainly].
  apply yields_sbind; intros links. destruct (lc_linkProviders links).
  - do 2 (apply yields_sbind; intros ?). plainly.
  - apply yields_sbind; intros gate. plainly.
Qed.

Lemma runTool_call_ok state tool call :
  yields (chunk_ok n_runTool state)
    (run_call parse_url url_pathname set_pathname searchParams_set url_toString JSON_stringify deps inp state tool call).
Proof.
  unfold run_call. destruct (tool_agentRunTemplate tool) as [template|].
  { unfold run_agent_tool. destruct (gd_agentRunLauncher deps), (gd_agentChannel deps), (gd_callbackSecretRef deps); try plainly.
    apply yields_sbind. intros [secretEnv|error]; [|plainly]. do 2 (apply yields_sbind; intros ?).
    apply yields_handle; [|intros e; plainly]. apply yields_sbind. intros reply. destruct (negb _); [plainly|].
    destruct (extractContinuationToken _). plainly. }
  destruct (tool_knowledgeBaseExec tool); [apply runTool_knowledge_base_ok|]. destruct (tool_mcpExec tool).
  { unfold run_mcp. destruct (dd_mcpBrokerClient (gd_dispatch deps)); [|plainly]. destruct (s_identity state); [|plainly].
    destruct (in_turnReadOnly inp); [|apply yields_sbind; intros ?; plainly]. apply yields_sret. destruct (s_selectedSkill state); plain. }
  destruct (tool_localExec tool).
  { unfold run_local. destruct (dd_localToolExecutor _); [|plainly]. apply yields_sbind. intros event. apply yields_sret, event_chunk. }
  destruct (tool_jobTemplate tool); [|plainly]. unfold run_job. apply yields_sbind. intros [secretEnv|error]; [|plainly].
  do 5 (apply yields_sbind; intros ?). apply yields_sret. case_match; [apply event_chunk|plain].
Qed.

Lemma runTool_ok state :
  yields (chunk_ok n_runTool state)
    (node_runTool parse_url url_pathname set_pathname searchParams_set url_toString JSON_parse JSON_stringify deps inp state).
Proof.
  unfold node_runTool. destruct (s_selectedTool state) as [tool|]; [|plainly].
  destruct (gated state tool); [unfold approval_pause; apply yields_sret; chunk|].
  destruct (tool_callerTool tool) as [callerTool|]; [|apply runTool_call_ok].
  unfold run_caller_tool. destruct (callerToolArguments _ _ _); [|plainly]. do 2 (apply yields_sbind; intros ?). plainly.
Qed.

(** Every node keeps to it. *)
Lemma node_chunk n state : unforced -> yields (chunk_ok n state) (the_node n state).
Proof.
  intros Hun. destruct n; cbn [node].
  - apply resolveIdentity_ok.
  - by apply checkEventTrigger_ok.
  - apply checkPendingSubAgentApproval_ok.
  - apply checkPendingApproval_ok.
  - apply checkPendingIdentityLink_ok.
  - apply checkActiveSkill_ok.
  - apply checkActiveAgentRun_ok.
  - unfold node_checkNeedsCapability. peel; plain.
  - unfold node_bareAnswer. peel; plain.
  - unfold node_retrieveSkills. peel; plain.
  - unfold node_retrieveAgents. peel; plain.
  - unfold node_retrieveTools. peel; plain.
  - apply selectDelegate_ok.
  - apply delegateToAgent_ok.
  - unfold node_loadSkillTools, load_catalog. peel; plain.
  - apply planAction_ok.
  - apply runTool_ok.
  - unfold node_composeResponse. peel; plain.
Qed.
End Nodes.

(** ** The run of the graph, update by update *)

Section Trace.
Context {W Url : Type}.
Variable parse_url : string -> result string Url.
Variable url_pathname : Url -> string.
Variable set_pathname : string -> Url -> Url.
Variable searchParams_set : string -> string -> Url -> Url.
Variable url_toString : Url -> string.
Variable sleep : Z -> SM W string unit.
Variable number_text : Z -> string.
Variable inherited_text : string -> string.
Variable JSON_parse : string -> option json.
Variable JSON_stringify : json -> string.
Variable deps : AgentGraphDeps W.
Variable inp : TurnInput W.

#[local] Notation the_node := (node parse_url url_pathname set_pathname searchParams_set url_toString sleep number_text
                                 inherited_text JSON_parse JSON_stringify deps inp).
#[local] Notation run := (run_from parse_url url_pathname set_pathname searchParams_set url_toString sleep number_text
                            inherited_text JSON_parse JSON_stringify deps inp).

Definition Chunk : Type := Node * list Update.

(** [run_from], with the object each node returned. *)
Fixpoint run_trace (limit : nat) (n : Node) (state : AgentState) (w : W) : list Chunk * result GraphError AgentState * W :=
  match limit with
  | O => ([], Err GraphRecursionError, w)
  | S rest =>
      match the_node n state w with
      | (Err e, w') => ([], Err (NodeError e), w')
      | (Ok us, w') =>
          let state' := merge us state in
          match route n state' with
          | None => ([(n, us)], Ok state', w')
          | Some n' => let '(chunks, r, w'') := run_trace rest n' state' w' in ((n, us) :: chunks, r, w'')
          end
      end
  end.

Lemma run_trace_run limit n state w : run limit n state w = ((run_trace limit n state w).1.2, (run_trace limit n state w).2).
Proof.
  revert n state w. induction limit as [|limit IH]; intros n state w; [done|]. cbn [run_from run_trace].
  unfold sbind, with_errors. destruct (the_node n state w) as [[us|e] w1]; [|done].
  destruct (route n (merge us state)) as [n'|]; [|done]. rewrite IH.
  by destruct (run_trace limit n' (merge us state) w1) as [[chunks r] w2].
Qed.

(** The first update that ends the stream. *)
Fixpoint stream_end (seen : Seen) (chunks : list Chunk) : Seen * option Ending :=
  match chunks with
  | [] => (seen, None)
  | (n, us) :: rest =>
      let seen' := see n us seen in
      match ending n us seen' with
      | Some e => (seen', Some e)
      | None => stream_end seen' rest
      end
  end.

(** *** What the consumer has seen is what the state holds *)

(** [still]: the turn waits on a link that an earlier one started. *)
Record agree (still : Prop) (seen : Seen) (s : AgentState) : Prop := {
  ag_identity : sn_identity seen = s_identity s;
  ag_skill : sn_selectedSkill seen = s_selectedSkill s;
  ag_agent : sn_selectedAgent seen = s_selectedAgent s;
  ag_runId : sn_agentRunId seen = s_agentRunId s;
  ag_awaiting : sn_agentAwaitingReply seen = s_agentAwaitingReply s;
  ag_result : sn_result seen = s_result s;
  ag_continuation : sn_extractedContinuation seen = s_extractedContinuation s;
  ag_agentContinuation : sn_extractedAgentContinuation seen = s_extractedAgentContinuation s;
  ag_linkPending : sn_identityLinkPending seen = s_identityLinkPending s;
  ag_link : sn_identityLinkPending seen = true -> sn_pendingIdentityLink seen = s_pendingIdentityLink s \/ still;
  ag_waiting : sn_approvalWaiting seen = s_approvalWaiting s;
  ag_approval : sn_approvalWaiting seen = true -> sn_approvalPending seen = s_approvalPending s;
  ag_subWaiting : sn_subAgentApprovalWaiting seen = s_subAgentApprovalWaiting s;
  ag_subApproval : sn_subAgentApprovalWaiting seen = true -> sn_subAgentApprovalPending seen = s_subAgentApprovalPending s
}.

Lemma written_elem {A : Type} (k : Update -> option A) us v : written k us = Some v -> exists u, u ∈ us /\ k u = Some v.
Proof. intros H%last_Some_elem_of. by apply list_elem_of_omap in H. Qed.

Lemma not_written {A : Type} (k : Update -> option A) (P : A -> Prop) (ok : Update -> bool) us v :
  forallb ok us = true -> (forall u v, k u = Some v -> P v -> ok u = false) -> written k us = Some v -> P v -> False.
Proof.
  intros Hok Hk (u & Hin & Hu)%written_elem Hv. rewrite forallb_elem_of in Hok. specialize (Hok u Hin). by rewrite (Hk u v) in Hok.
Qed.

Lemma none_written {A : Type} (k : Update -> option A) (ok : Update -> bool) us :
  forallb ok us = true -> (forall u v, k u = Some v -> ok u = false) -> written k us = None.
Proof.
  intros Hok Hk. destruct (written k us) as [v|] eqn:Hw; [|done]. exfalso.
  eapply (not_written k (fun _ => True)); [exact Hok| |exact Hw|done]. intros; by eapply Hk.
Qed.

(** A key that is never emptied. *)
Lemma kept_written {A : Type} (k : Update -> option (option A)) (ok : Update -> bool) us (x : option A) :
  forallb ok us = true -> (forall u, k u = Some None -> ok u = false) -> kept (written k us) x = written k us ?? x.
Proof.
  intros Hok Hk. destruct (written k us) as [[v|]|] eqn:Hw; try done. exfalso.
  eapply (not_written k (fun v => v = None)); [exact Hok| |exact Hw|done]. intros u v Hu ->. by apply Hk.
Qed.

Lemma agree_step still n us seen s :
  agree still seen s -> chunk_ok n s us -> (n = n_checkPendingIdentityLink -> is_Some (written k_identityLinkPending us) -> still) ->
  agree still (see n us seen) (merge us s).
Proof.
  intros Hag Hok Hstill. pose proof (co_allowed _ _ _ Hok) as Hall. split.
  - rewrite m_identity, <- (ag_identity _ _ _ Hag). eapply kept_written; [exact Hall|]. by intros [] [= ->].
  - rewrite m_selectedSkill, <- (ag_skill _ _ _ Hag). eapply kept_written; [exact Hall|]. by intros [] [= ->].
  - rewrite m_selectedAgent, <- (ag_agent _ _ _ Hag). eapply kept_written; [exact Hall|]. by intros [] [= ->].
  - by rewrite m_agentRunId, <- (ag_runId _ _ _ Hag).
  - by rewrite m_agentAwaitingReply, <- (ag_awaiting _ _ _ Hag).
  - by rewrite m_result, <- (ag_result _ _ _ Hag).
  - by rewrite m_extractedContinuation, <- (ag_continuation _ _ _ Hag).
  - by rewrite m_extractedAgentContinuation, <- (ag_agentContinuation _ _ _ Hag).
  - by rewrite m_identityLinkPending, <- (ag_linkPending _ _ _ Hag).
  - rewrite m_pendingIdentityLink. cbn [see sn_identityLinkPending sn_pendingIdentityLink].
    destruct (written k_identityLinkPending us) as [b|] eqn:Hw; cbn [nullish].
    + intros _. destruct (co_link _ _ _ Hok) as [[Hn _]|[_ [p Hp]]]; [by rewrite Hw; eexists|right; apply Hstill; [done|by eexists]|].
      left. by rewrite Hp.
    + intros Hl. destruct (written k_pendingIdentityLink us); [by left|]. by apply (ag_link _ _ _ Hag).
  - by rewrite m_approvalWaiting, <- (ag_waiting _ _ _ Hag).
  - rewrite m_approvalPending. cbn [see sn_approvalWaiting sn_approvalPending].
    destruct (written k_approvalWaiting us) as [b|] eqn:Hw; cbn [nullish].
    + intros _. destruct (co_approval _ _ _ Hok) as (p & Hp & _); [by rewrite Hw; eexists|]. by rewrite Hp.
    + intros Hl. destruct (written k_approvalPending us); [done|]. by apply (ag_approval _ _ _ Hag).
  - by rewrite m_subAgentApprovalWaiting, <- (ag_subWaiting _ _ _ Hag).
  - rewrite m_subAgentApprovalPending. cbn [see sn_subAgentApprovalWaiting sn_subAgentApprovalPending].
    destruct (written k_subAgentApprovalWaiting us) as [b|] eqn:Hw; cbn [nullish].
    + intros _. destruct (co_subApproval _ _ _ Hok) as [p Hp]; [by rewrite Hw; eexists|]. by rewrite Hp.
    + intros Hl. destruct (written k_subAgentApprovalPending us); [done|]. by apply (ag_subApproval _ _ _ Hag).
Qed.

(** *** Where a turn is at a node *)

(** The nodes before a tool or an agent can be selected. *)
Definition early (n : Node) : bool := bool_decide (n ∉ [n_delegateToAgent; n_planAction; n_runTool; n_composeResponse]).
Definition before_link (n : Node) : bool :=
  bool_decide (n ∈ [n_resolveIdentity; n_checkEventTrigger; n_checkPendingSubAgentApproval; n_checkPendingApproval; n_checkPendingIdentityLink]).

Record at_node (n : Node) (s : AgentState) : Prop := {
  an_error : s_error s = None;
  an_calls : s_pendingToolCalls s = [];
  an_early : early n = true -> s_selectedTool s = None /\ s_selectedAgent s = None;
  an_link : before_link n = true -> s_identityLinkPending s = false /\ s_approvalGranted s = false;
  an_plan : n = n_planAction -> s_result s = None -> s_selectedTool s = None
}.

(** The tests of the loop that come first, against the merged state. *)
Lemma no_ending n us seen s :
  at_node n s -> ending n us seen = None -> s_error (merge us s) = None /\ s_pendingToolCalls (merge us s) = [].
Proof.
  intros [He Hc _ _ _] Hend. rewrite m_error, m_pendingToolCalls, He, Hc. unfold ending in Hend.
  destruct (written k_error us) as [[e|]|]; cbn [defined kept] in Hend; [done|..];
    (destruct (written k_pendingToolCalls us) as [[|c cs]|]; [done|done|done]).
Qed.

Ltac unwritten Hall k := let H := fresh in assert (written k _ = None) as H by (eapply none_written; [exact Hall|by intros [] ? [= ->]]).

Lemma not_in_keys n us :
  forallb (allowed n) us = true ->
  (n ∉ [n_checkPendingApproval; n_selectDelegate; n_planAction] -> written k_selectedTool us = None) /\
  (n ∉ [n_checkPendingIdentityLink; n_checkActiveAgentRun; n_selectDelegate; n_delegateToAgent] -> written k_selectedAgent us = None) /\
  (n ∉ [n_checkPendingIdentityLink; n_checkActiveAgentRun; n_delegateToAgent] -> written k_identityLinkPending us = None) /\
  (n ∉ [n_checkPendingApproval; n_planAction] -> written k_approvalGranted us = None).
Proof.
  intros Hall. split_and!; intros Hn; (eapply none_written; [exact Hall|]); intros [] ? [= ->]; cbn [allowed];
    try (by apply bool_decide_eq_false_2). case_match; [by apply bool_decide_eq_false_2|done].
Qed.

Ltac by_list := apply (bool_decide_unpack _); vm_compute; exact I.

Lemma at_node_next n n' us s :
  at_node n s -> chunk_ok n s us -> s_error (merge us s) = None -> s_pendingToolCalls (merge us s) = [] ->
  route n (merge us s) = Some n' -> at_node n' (merge us s).
Proof.
  intros Hat Hok He Hc Hr. destruct (not_in_keys n us (co_allowed _ _ _ Hok)) as (Kt & Ka & Kl & Kg).
  assert (Hf : failed (merge us s) = false) by (unfold failed; by rewrite He).
  assert (Hnext : n' = n_delegateToAgent \/ n' = n_runTool \/ n' = n_composeResponse -> at_node n' (merge us s)).
  { intros Hn'. split; [done|done|..]; destruct Hn' as [->|[->| ->]]; done. }
  destruct n; cbn [route] in Hr; try discriminate Hr; unfold afterOrEnd in Hr; try rewrite Hf in Hr.
  all: try (injection Hr as <-).
  all: try (destruct (an_early _ _ Hat eq_refl) as [Et Ea]).
  all: try (destruct (an_link _ _ Hat eq_refl) as [El Eg]).
  all: try (assert (Wt : s_selectedTool (merge us s) = None) by (rewrite m_selectedTool, (Kt ltac:(by_list)); exact Et)).
  all: try (assert (Wa : s_selectedAgent (merge us s) = None) by (rewrite m_selectedAgent, (Ka ltac:(by_list)); exact Ea)).
  all: try (assert (Wl : s_identityLinkPending (merge us s) = false) by (rewrite m_identityLinkPending, (Kl ltac:(by_list)); exact El)).
  all: try (assert (Wg : s_approvalGranted (merge us s) = false) by (rewrite m_approvalGranted, (Kg ltac:(by_list)); exact Eg)).
  all: try (by split).
  - (* checkPendingApproval *)
    unfold route_checkPendingApproval in Hr. rewrite Hf in Hr. destruct (s_approvalGranted _) eqn:Hg; [injection Hr as <-; auto|].
    assert (Hwt : s_selectedTool (merge us s) = None).
    { rewrite m_selectedTool. destruct (written k_selectedTool us) eqn:Hw; [|exact Et].
      rewrite m_approvalGranted, (co_granted _ _ _ Hok) in Hg; [done|done|by rewrite Hw; eexists]. }
    destruct (s_approvalWaiting _); [done|].
    destruct (s_result (merge us s)) eqn:Hres; [destruct (s_selectedSkill _); [|done]|]; injection Hr as <-; by split.
  - (* checkPendingIdentityLink *)
    unfold route_checkPendingIdentityLink in Hr. rewrite Hf in Hr. destruct (s_selectedAgent _) eqn:Hsa; [injection Hr as <-; auto|].
    destruct (s_identityLinkPending _); [done|]. injection Hr as <-. by split.
  - (* checkActiveSkill *)
    unfold route_checkActiveSkill in Hr. rewrite Hf in Hr. destruct (s_selectedSkill _); injection Hr as <-; by split.
  - (* checkActiveAgentRun *)
    unfold route_checkActiveAgentRun, target in Hr. rewrite Hf in Hr. cbn [orb] in Hr.
    destruct (truthy_str (s_agentRunId _)) eqn:Hrun; [done|].
    assert (Hwa : s_selectedAgent (merge us s) = None).
    { rewrite m_selectedAgent. destruct (written k_selectedAgent us) eqn:Hw; [|exact Ea]. exfalso.
      pose proof (co_activeRun _ _ _ Hok eq_refl ltac:(right; rewrite Hw; by eexists)) as Ht.
      rewrite m_agentRunId in Hrun. destruct (written k_agentRunId us) as [[r|]|]; [|done..]. cbn in Ht, Hrun. by rewrite Ht in Hrun. }
    rewrite Hwa, Wt in Hr. destruct (s_selectedSkill _); injection Hr as <-; by split.
  - (* checkNeedsCapability *) destruct (s_needsCapability _); by split.
  - (* selectDelegate *)
    unfold route_selectDelegate in Hr. rewrite Hf in Hr. destruct (s_selectedAgent _) eqn:H1; [injection Hr as <-; auto|].
    destruct (s_selectedTool _) eqn:H2; [injection Hr as <-; auto|]. destruct (s_result _); [done|]. injection Hr as <-. by split.
  - (* planAction *)
    unfold route_planAction in Hr. rewrite Hf in Hr. destruct (s_plannedAction _) as [[]|]; try done; injection Hr as <-; auto.
  - (* runTool *)
    unfold route_runTool in Hr. rewrite Hf in Hr. destruct (_ || _); [done|]. destruct (s_approvalPending _); [done|].
    destruct (s_linkGatePending _); [done|]. destruct (s_result (merge us s)) eqn:Hres; [|done].
    destruct (s_selectedSkill _); injection Hr as <-; [split; try done; intros _ ?; congruence|auto].
Qed.

Lemma failed_ends n s : failed s = true -> route n s = None.
Proof.
  intros Hf. destruct n; cbn [route]; unfold afterOrEnd, route_checkEventTrigger, route_checkPendingSubAgentApproval,
    route_checkPendingApproval, route_checkPendingIdentityLink, route_checkActiveSkill, route_checkActiveAgentRun,
    route_selectDelegate, route_planAction, route_runTool; by rewrite ?Hf.
Qed.

(** An error with a message. *)
Definition told (us : list Update) : Prop := forall m, written k_error us = Some (Some m) -> m <> EmptyString.

(** Where a node's edge leads on, its tests of the loop are false. *)
Section Continues.
Variables (us : list Update) (s : AgentState) (n' : Node).

Lemma sub_approval_goes_on :
  route_checkPendingSubAgentApproval (merge us s) = Some n' -> written k_subAgentApprovalWaiting us ?? false = false.
Proof.
  unfold route_checkPendingSubAgentApproval. destruct (failed _); [done|]. rewrite m_subAgentApprovalWaiting.
  by destruct (written k_subAgentApprovalWaiting us) as [[]|].
Qed.

Lemma approval_goes_on :
  at_node n_checkPendingApproval s -> chunk_ok n_checkPendingApproval s us ->
  route_checkPendingApproval (merge us s) = Some n' -> written k_approvalWaiting us ?? false = false.
Proof.
  intros Hat Hok. unfold route_checkPendingApproval. destruct (failed _); [done|].
  rewrite m_approvalGranted, m_approvalWaiting. destruct (written k_approvalWaiting us) as [[]|] eqn:Hw; [|done..].
  destruct (co_approval _ _ _ Hok) as (p & _ & ->); [by rewrite Hw; eexists|]. cbn [nullish].
  by rewrite (proj2 (an_link _ _ Hat eq_refl)).
Qed.

Lemma link_goes_on :
  at_node n_checkPendingIdentityLink s -> chunk_ok n_checkPendingIdentityLink s us ->
  route_checkPendingIdentityLink (merge us s) = Some n' -> s_identityLinkPending (merge us s) = false.
Proof.
  intros Hat Hok. unfold route_checkPendingIdentityLink. destruct (failed _); [done|].
  rewrite m_identityLinkPending, m_selectedAgent. destruct (written k_identityLinkPending us) as [b|] eqn:Hw; cbn [nullish].
  - destruct (co_link _ _ _ Hok) as [[_ ->]|[Hne _]]; [by rewrite Hw; eexists| |done]. cbn [nullish].
    rewrite (proj2 (an_early _ _ Hat eq_refl)). by destruct b.
  - by rewrite (proj1 (an_link _ _ Hat eq_refl)).
Qed.

Lemma run_goes_on :
  chunk_ok n_checkActiveAgentRun s us -> route_checkActiveAgentRun (merge us s) = Some n' ->
  written k_subAgentApprovalWaiting us ?? false = false /\ truthy_str (defined (written k_agentRunId us)) = false.
Proof.
  intros Hok. unfold route_checkActiveAgentRun. destruct (failed _); [done|]. cbn [orb]. rewrite m_agentRunId.
  destruct (truthy_str (defined (written k_agentRunId us))) eqn:Ht.
  - destruct (written k_agentRunId us) as [[r|]|]; [|discriminate Ht..]. cbn in Ht |- *. by rewrite Ht.
  - intros _. split; [|done]. destruct (written k_subAgentApprovalWaiting us) as [[]|] eqn:Hw; [|done..].
    by rewrite (co_activeRun _ _ _ Hok eq_refl) in Ht by (left; rewrite Hw; by eexists).
Qed.

Lemma delegate_goes_on :
  at_node n_selectDelegate s -> chunk_ok n_selectDelegate s us ->
  route_selectDelegate (merge us s) = Some n' -> defined (written k_result us) = None.
Proof.
  intros Hat Hok. unfold route_selectDelegate. destruct (failed _); [done|]. rewrite m_selectedAgent, m_selectedTool, m_result.
  destruct (written k_result us) as [[r|]|] eqn:Hw; [|done..].
  destruct (co_delegate _ _ _ Hok eq_refl) as [-> ->]; [by rewrite Hw; eexists|]. cbn [nullish].
  by destruct (an_early _ _ Hat eq_refl) as [-> ->].
Qed.

Lemma tool_goes_on :
  chunk_ok n_runTool s us -> route_runTool (merge us s) = Some n' ->
  written k_approvalWaiting us ?? false = false /\ written k_pendingToolCalls us ?? [] = [].
Proof.
  intros Hok. unfold route_runTool. rewrite m_pendingToolCalls, m_approvalPending.
  destruct (written k_pendingToolCalls us) as [[|c cs]|]; cbn [nullish].
  2: { rewrite bool_decide_eq_false_2 by done. by rewrite orb_true_r. }
  all: destruct (_ || _); [done|]; destruct (written k_approvalWaiting us) as [b|] eqn:Hw; [|done].
  all: destruct (co_approval _ _ _ Hok) as (p & -> & _); [by rewrite Hw; eexists|done].
Qed.

Lemma plan_goes_on :
  at_node n_planAction s -> chunk_ok n_planAction s us -> route_planAction (merge us s) = Some n' ->
  is_Some (defined (written k_result us)) -> n' = n_composeResponse /\ s_selectedTool (merge us s) = None.
Proof.
  intros Hat Hok Hr Hw. destruct (co_plan _ _ _ Hok eq_refl Hw) as [Hcall Hfin].
  unfold route_planAction in Hr. destruct (failed _); [done|]. destruct (s_plannedAction _) as [[]|]; try done.
  injection Hr as <-. destruct (Hfin eq_refl) as [Hres Ht]. split; [done|]. rewrite m_selectedTool, Ht. by apply (an_plan _ _ Hat).
Qed.

Lemma no_calls n :
  chunk_ok n s us -> route n (merge us s) = Some n' -> written k_pendingToolCalls us ?? [] = [].
Proof.
  intros Hok Hr. destruct (decide (n = n_runTool)) as [->|Hn]; [by apply tool_goes_on|].
  destruct (written k_pendingToolCalls us) as [calls|] eqn:Hw; [|done]. exfalso.
  eapply (not_written k_pendingToolCalls (fun _ => True)); [exact (co_allowed _ _ _ Hok)| |exact Hw|done].
  intros [] ? [= ->] _. cbn. by apply bool_decide_eq_false_2.
Qed.
End Continues.

(** The stream ends before the turn does only on a planner that finishes with a
    result of the caller's client; nothing then follows that changes it. *)
Lemma ends_early still n n' us s seen e :
  at_node n s -> chunk_ok n s us -> agree still seen (merge us s) -> told us -> ending n us seen = Some e ->
  route n (merge us s) = Some n' -> n' = n_composeResponse /\ s_selectedTool (merge us s) = None.
Proof.
  intros Hat Hok Hag Htold Hend Hr. unfold ending in Hend.
  destruct (defined (written k_error us)) as [m|] eqn:Hm.
  { exfalso. destruct (written k_error us) as [[m'|]|] eqn:Hw; [|done..]. pose proof (Htold m' Hw) as Hne.
    rewrite (failed_ends n) in Hr; [done|]. unfold failed. rewrite m_error, Hw. cbn. by destruct m'. }
  pose proof (no_calls us s n' n Hok Hr) as Hc.
  assert (Hend' : written k_pendingToolCalls us = None \/ written k_pendingToolCalls us = Some []).
  { destruct (written k_pendingToolCalls us) as [[]|]; [by right|done|by left]. }
  rewrite (ag_linkPending _ _ _ Hag) in Hend.
  destruct n; cbn [route] in Hr; try discriminate Hr; destruct Hend' as [Hp|Hp]; rewrite Hp in Hend; cbn in Hend; try discriminate Hend.
  all: try (by rewrite (sub_approval_goes_on _ _ _ Hr) in Hend).
  all: try (by rewrite (approval_goes_on _ _ _ Hat Hok Hr) in Hend).
  all: try (by rewrite (link_goes_on _ _ _ Hat Hok Hr) in Hend).
  all: try (destruct (run_goes_on _ _ _ Hok Hr) as [H1 H2]; rewrite H1, H2 in Hend; discriminate Hend).
  all: try (by rewrite (delegate_goes_on _ _ _ Hat Hok Hr) in Hend).
  all: try (by rewrite (proj1 (tool_goes_on _ _ _ Hok Hr)) in Hend).
  all: eapply plan_goes_on; [done..|]; by destruct (defined (written k_result us)).
Qed.

(** *** The end of the stream *)

(** The end of a stream, and what it has seen, against the state of the turn. *)
Definition ends_as (still : Prop) (seen : Seen) (e : option Ending) (s : AgentState) : Prop :=
  match e with
  | Some (end_error m) => s_error s = Some m /\ m <> EmptyString
  | Some (end_tool_calls calls) => s_error s = None /\ s_pendingToolCalls s = calls /\ calls <> [] /\ agree still seen s
  | Some (end_text _ t) =>
      s_error s = None /\ s_pendingToolCalls s = [] /\ t = renderResult (s_result s) /\ agree still seen s
  | None => s_error s = None /\ s_pendingToolCalls s = [] /\ agree still seen s
  end.

Lemma ending_as still n us s seen e :
  at_node n s -> agree still seen (merge us s) -> told us -> ending n us seen = Some e -> ends_as still seen (Some e) (merge us s).
Proof.
  intros Hat Hag Htold Hend. unfold ending in Hend. rewrite (ag_result _ _ _ Hag) in Hend.
  destruct (defined (written k_error us)) as [m|] eqn:Hm.
  { injection Hend as <-. cbn. rewrite m_error. destruct (written k_error us) as [[m'|]|] eqn:Hw; [|done..].
    injection Hm as ->. split; [done|]. by apply Htold. }
  assert (He : s_error (merge us s) = None).
  { rewrite m_error, (an_error _ _ Hat). by destruct (written k_error us) as [[]|]. }
  assert (Hc : s_pendingToolCalls (merge us s) = written k_pendingToolCalls us ?? []) by (by rewrite m_pendingToolCalls, (an_calls _ _ Hat)).
  assert (Hr : forall r, defined (written k_result us) = Some r -> s_result (merge us s) = Some r).
  { intros r. rewrite m_result. by destruct (written k_result us) as [[]|]. }
  destruct (written k_pendingToolCalls us) as [[|c cs]|].
  2: { injection Hend as <-. by split_and!. }
  all: repeat match type of Hend with (if ?b then _ else _) = _ => destruct b; [injection Hend as <-; by split_and!|] end.
  all: destruct n; try discriminate Hend; try (injection Hend as <-; by split_and!).
  all: try (destruct (truthy_str _); [|discriminate Hend]; injection Hend as <-; by split_and!).
  all: destruct (defined (written k_result us)) as [r|]; [|discriminate Hend]; injection Hend as <-; cbn [ends_as];
       rewrite (Hr r eq_refl); by split_and!.
Qed.

(** Without a tool of the turn, the answer is left as it is. *)
Lemma compose_nothing s w : s_selectedTool s = None -> the_node n_composeResponse s w = (Ok [], w).
Proof. intros Ht. cbn [node]. unfold node_composeResponse. rewrite Ht. by destruct (s_selectedSkill s). Qed.

Lemma stream_follows still limit : forall n s w seen chunks s' w',
  unforced inp -> at_node n s -> agree still seen s -> run_trace limit n s w = (chunks, Ok s', w') ->
  Forall (fun c => told c.2) chunks ->
  (forall us, (n_checkPendingIdentityLink, us) ∈ chunks -> is_Some (written k_identityLinkPending us) -> still) ->
  ends_as still (stream_end seen chunks).1 (stream_end seen chunks).2 s'.
Proof.
  induction limit as [|limit IH]; intros n s w seen chunks s' w' Hun Hat Hag Hrun Htold Hstill; [done|].
  cbn [run_trace] in Hrun. destruct (the_node n s w) as [[us|] w1] eqn:Hn; [|done].
  pose proof (node_chunk parse_url url_pathname set_pathname searchParams_set url_toString sleep number_text inherited_text
                JSON_parse JSON_stringify deps inp n s Hun w us w1 Hn) as Hok.
  assert (Hin : exists rest, chunks = (n, us) :: rest).
  { destruct (route n (merge us s)) as [n'|]; [|injection Hrun as <- _ _; by eexists].
    destruct (run_trace _ _ _ _) as [[? ?] ?]. injection Hrun as <- _ _. by eexists. }
  destruct Hin as [rest ->]. apply Forall_cons in Htold as [Ht Htold]. cbn [snd] in Ht.
  assert (Hag1 : agree still (see n us seen) (merge us s)).
  { apply agree_step; [done|done|]. intros -> Hw. by apply (Hstill us); [left|]. }
  cbn [stream_end]. destruct (route n (merge us s)) as [n'|] eqn:Hr.
  - destruct (run_trace limit n' (merge us s) w1) as [[chunks' r] w2] eqn:Hrest. injection Hrun as <- -> ->.
    destruct (ending n us (see n us seen)) as [e|] eqn:Hend; cbn [fst snd].
    + destruct (ends_early _ _ _ _ _ _ _ Hat Hok Hag1 Ht Hend Hr) as [-> Htool].
      destruct limit as [|limit]; [done|]. cbn [run_trace] in Hrest. rewrite (compose_nothing _ _ Htool) in Hrest.
      cbn [route] in Hrest. injection Hrest as _ <- _. by apply (ending_as still n us s).
    + destruct (no_ending _ _ _ _ Hat Hend) as [He Hc].
      eapply (IH n'); [done|by eapply at_node_next|done|exact Hrest|done|].
      intros us' Hin. apply (Hstill us'). by right.
  - injection Hrun as <- <- _. destruct (ending n us (see n us seen)) as [e|] eqn:Hend; cbn [fst snd stream_end].
    + by apply (ending_as still n us s).
    + destruct (no_ending _ _ _ _ Hat Hend) as [He Hc]. by split_and!.
Qed.

Lemma at_start (start : TurnStart) : at_node n_resolveIdentity (turn_start start).
Proof. by split. Qed.

Lemma agree_start (start : TurnStart) still : agree still seen_nothing (turn_start start).
Proof. by split. Qed.
End Trace.

(** ** The handlers *)

Definition item_update (item : StreamItem) : option Chunk :=
  match item with
  | it_update n us => Some (n, us)
  | _ => None
  end.

Definition no_throw (item : StreamItem) : bool :=
  match item with
  | it_throw _ => false
  | _ => true
  end.

Section Handlers.
Variable id : string.
Variable created : Z.
Variable model : string.
Context {W : Type}.
Variable sessionStore : option (SessionStore W).
Variable approval_json : ApprovalPending -> json.
Variable sessionId : option string.

#[local] Notation consume_items := (consume id created model sessionStore approval_json sessionId).
#[local] Notation persist_seen := (persist sessionStore approval_json sessionId).
#[local] Notation fin := (finish id created model).

(** What is left of a response keeps it open. *)
Lemma write_open e s : sse_ended s = false -> sse_ended (write e s) = false.
Proof. unfold write. by intros ->. Qed.

Lemma close_open s : sse_ended s = false -> sse_ended (close_status s) = false.
Proof. intros H. unfold close_status. destruct (sse_openStatusLabel s); [|done]. cbn. by apply write_open. Qed.

Lemma content_open c s : sse_ended s = false -> sse_ended (write_content id created model c s) = false.
Proof. intros H. unfold write_content, withSeparator. by apply write_open. Qed.

Lemma progress_open stage message s : sse_ended s = false -> sse_ended (progress id created model stage message s) = false.
Proof.
  intros H. unfold progress. repeat case_match; [by apply content_open, close_open..|]. by apply write_open.
Qed.

Lemma statuses_open texts s : sse_ended s = false -> sse_ended (foldl (fun s text => writeSseStatus text true s) s texts) = false.
Proof. intros H. apply (foldl_inv (fun s => sse_ended s = false)); [|done]. intros s' x _ H'. by apply write_open. Qed.

(** How a stream that is not thrown out of ends. *)
Definition wind_up (readOnly : bool) (last : Seen * option Ending) : SM (W * Sse) string unit :=
  match last.2 with
  | Some e => conclude id created model sessionStore approval_json sessionId readOnly last.1 e
  | None => consume_items readOnly last.1 []
  end.

Lemma consume_ends readOnly items : forall seen w s,
  forallb no_throw items = true -> sse_ended s = false ->
  exists s', sse_ended s' = false /\
    consume_items readOnly seen items (w, s) = wind_up readOnly (stream_end seen (omap item_update items)) (w, s').
Proof.
  induction items as [|item items IH]; intros seen w s Hitems Hs; [by exists s|].
  cbn [forallb] in Hitems. apply andb_true_iff in Hitems as [Hi Hitems].
  destruct item as [stage message|n us| |message]; [| | |discriminate Hi]; cbn [consume].
  - apply (IH seen w (progress id created model stage message s)); [done|by apply progress_open].
  - unfold omap; cbn [list_omap item_update stream_end]. destruct (ending n us (see n us seen)) as [e|] eqn:He; [by exists s|].
    apply (IH (see n us seen) w); [done|by apply statuses_open].
  - apply (IH seen w (write (sse_comment "keep-alive") s)); [done|by apply write_open].
Qed.

(** What the record is made of. *)
Lemma persisted_agree readOnly seen s existing subject :
  agree False seen s -> s_agentResumePending s = false ->
  persisted existing subject (seen_outcome approval_json readOnly seen) = persisted existing subject (outcome_of approval_json readOnly s).
Proof.
  intros Hag Hres. destruct Hag as [H1 H2 H3 H4 H5 H6 H7 H8 H9 H10 H11 H12 H13 H14].
  unfold seen_outcome, outcome_of. rewrite H2, H3, H4, H5, H7, H8, Hres. rewrite H9 in H10 |- *. rewrite H11 in H12 |- *. rewrite H13 in H14 |- *.
  destruct (s_approvalWaiting s); [rewrite (H12 eq_refl)|]; (destruct (s_subAgentApprovalWaiting s); [rewrite (H14 eq_refl)|]);
    (destruct (s_identityLinkPending s); [destruct (H10 eq_refl) as [->|[]]|]); unfold persisted; cbn;
    by destruct (approval_json <$> s_approvalPending s).
Qed.

Lemma persist_agree readOnly seen s w :
  agree False seen s -> s_agentResumePending s = false ->
  persist_seen readOnly seen w = persistSession sessionStore sessionId (s_identity s) (outcome_of approval_json readOnly s) w.
Proof.
  intros Hag Hres. unfold persist, persistSession. rewrite (ag_identity _ _ _ Hag).
  destruct sessionId as [sid|], sessionStore as [store|], (s_identity s) as [who|]; try done.
  destruct (str_empty sid); [done|]. unfold sbind. destruct (st_get store sid w) as [[existing|] w1]; [|done].
  by rewrite (persisted_agree _ _ _ _ _ Hag Hres).
Qed.

(** *** The shape of a stream *)

(** The in-progress status that is shown last, unless it was closed; newest
    events first. *)
Fixpoint spinner (sent : list SseEvent) : option string :=
  match sent with
  | [] => None
  | sse_status label false :: _ => Some label
  | sse_status label true :: rest => if bool_decide (spinner rest = Some label) then None else spinner rest
  | _ :: rest => spinner rest
  end.

(** The text of an event. *)
Definition event_text (e : SseEvent) : option string :=
  match e with
  | sse_chunk (JObj [_; _; _; _; (_, JArr [JObj [_; (_, JObj [("content", JStr text)]); _]])]) => Some text
  | _ => None
  end.

(** Whether what was shown so far ends in white space, and whether no text was
    fused with the one before it. *)
Fixpoint shown_space (sent : list SseEvent) : bool :=
  match sent with
  | [] => true
  | e :: rest =>
      match event_text e with
      | Some text => if str_empty text then shown_space rest else ends_with_space text
      | None => shown_space rest
      end
  end.

Fixpoint separated (sent : list SseEvent) : bool :=
  match sent with
  | [] => true
  | e :: rest =>
      match event_text e with
      | Some text => str_empty text || shown_space rest || starts_with_space text
      | None => true
      end && separated rest
  end.

Record well_formed (s : Sse) : Prop := {
  wf_open : sse_ended s = false;
  wf_done : sse_done ∉ sse_sent s;
  wf_spinner : is_Some (spinner (sse_sent s)) -> sse_openStatusLabel s = spinner (sse_sent s);
  wf_space : sse_lastContentEndedWithSpace s = true -> shown_space (sse_sent s) = true;
  wf_separated : separated (sse_sent s) = true
}.

Lemma well_formed_start : well_formed sse_start.
Proof. split; try done. by intros ?%elem_of_nil. Qed.

(** An event that is not a content, and is not in progress. *)
Lemma write_well_formed e s :
  well_formed s -> e <> sse_done -> event_text e = None -> (forall label, e <> sse_status label false) -> well_formed (write e s).
Proof.
  intros [Ho Hd Hs Hsp Hsep] Hne Ht Hpr. unfold write. rewrite Ho. split; cbn [sse_ended sse_sent sse_openStatusLabel sse_lastContentEndedWithSpace].
  - done.
  - by intros [?|?]%elem_of_cons.
  - destruct e as [payload|label [|]|comment|]; cbn [spinner]; try done; [|by destruct (Hpr label)].
    case_bool_decide; [by intros [? [=]]|done].
  - cbn [shown_space]. by rewrite Ht.
  - cbn [separated]. by rewrite Ht.
Qed.

Lemma close_well_formed s : well_formed s -> well_formed (close_status s) /\ spinner (sse_sent (close_status s)) = None.
Proof.
  intros Hwf. unfold close_status. destruct (sse_openStatusLabel s) as [label|] eqn:Hl.
  - destruct (write_well_formed (sse_status label true) s Hwf) as [Ho Hd Hs Hsp Hsep]; [done..|].
    assert (Hnone : spinner (sse_sent (write (sse_status label true) s)) = None).
    { unfold write. rewrite (wf_open _ Hwf). cbn [sse_sent spinner]. case_bool_decide as Hb; [done|].
      destruct (spinner (sse_sent s)) as [l|] eqn:Hsp'; [|done]. exfalso. apply Hb.
      rewrite <- Hl. pose proof (wf_spinner _ Hwf) as H. rewrite Hsp' in H. symmetry. by apply H. }
    split; [|done]. unfold set_label, writeSseStatus. by split.
  - split; [done|]. destruct (spinner (sse_sent s)) eqn:Hsp; [|done]. pose proof (wf_spinner _ Hwf) as H.
    rewrite Hsp, Hl in H. by discriminate (H ltac:(by eexists)).
Qed.

Lemma ends_with_space_sep c : c <> EmptyString -> ends_with_space (nl_s +:+ nl_s +:+ c) = ends_with_space c.
Proof. destruct c; [done|]. reflexivity. Qed.

Lemma content_well_formed c s : well_formed s -> well_formed (write_content id created model c s).
Proof.
  intros [Ho Hd Hs Hsp Hsep]. unfold write_content, withSeparator, write. cbn [sse_ended]. rewrite Ho.
  split; cbn [sse_ended sse_sent sse_openStatusLabel sse_lastContentEndedWithSpace]; [done| |exact Hs|..].
  - by intros [?|?]%elem_of_cons.
  - unfold content_chunk. cbn [shown_space event_text chatCompletionChunk]. destruct (str_empty c) eqn:Hc.
    + apply str_empty_true in Hc as ->. intros Hl. rewrite Hl. by apply Hsp.
    + intros He. destruct (negb _ && negb _); [|by rewrite Hc].
      rewrite <- He. apply ends_with_space_sep. by intros ->.
  - unfold content_chunk. cbn [separated event_text chatCompletionChunk]. rewrite Hsep, !andb_true_r.
    destruct (sse_lastContentEndedWithSpace s) eqn:Hl; cbn [negb andb]; [rewrite (Hsp eq_refl); by rewrite orb_true_r|].
    destruct (starts_with_space c) eqn:Hst; cbn [negb]; [rewrite Hst; by rewrite orb_true_r|by rewrite orb_true_r].
Qed.

Lemma progress_well_formed stage message s : well_formed s -> well_formed (progress id created model stage message s).
Proof.
  intros Hwf. unfold progress. repeat case_match; [by apply content_well_formed, close_well_formed..|].
  destruct Hwf as [Ho Hd Hs Hsp Hsep]. unfold writeSseStatus, set_label, write. cbn [sse_ended]. rewrite Ho. split; try done.
  by intros [?|?]%elem_of_cons.
Qed.

(** A stream that has ended. *)
Definition complete (s : Sse) : Prop :=
  sse_ended s = true /\ exists rest, sse_sent s = sse_done :: rest /\ sse_done ∉ rest /\ spinner rest = None /\ separated rest = true.

Lemma end_complete reason s :
  well_formed s -> spinner (sse_sent s) = None -> complete (end_stream (write sse_done (write (finish_chunk id created model reason) s))).
Proof.
  intros Hwf Hsp. destruct (write_well_formed (finish_chunk id created model reason) s Hwf) as [Ho Hd _ _ Hsep]; [done..|].
  split; [done|]. exists (sse_sent (write (finish_chunk id created model reason) s)). split_and!; [|done| |done].
  - unfold end_stream. set (s1 := write (finish_chunk _ _ _ _) s) in *. unfold write. by rewrite Ho.
  - unfold write. by rewrite (wf_open _ Hwf).
Qed.

Lemma finish_complete c s : well_formed s -> complete (fin c s).
Proof.
  intros Hwf. destruct (close_well_formed s Hwf) as [Hc Hs]. unfold finish. apply end_complete; [by apply content_well_formed|].
  unfold write_content, withSeparator, write. cbn [sse_ended]. by rewrite (wf_open _ Hc).
Qed.

Lemma finish_calls_complete calls s : well_formed s -> complete (finishWithToolCalls id created model calls s).
Proof.
  intros Hwf. destruct (close_well_formed s Hwf) as [Hc Hs]. unfold finishWithToolCalls. apply end_complete.
  - by apply write_well_formed.
  - unfold write. by rewrite (wf_open _ Hc).
Qed.

(** A handler that answers: a complete stream when it returns, an open one when
    it throws. *)
Definition answers_stream {A : Type} (m : SM (W * Sse) string A) : Prop :=
  forall w s, well_formed s -> match (m (w, s)).1 with
                               | Ok _ => complete (m (w, s)).2.2
                               | Err _ => well_formed (m (w, s)).2.2
                               end.

(** What comes before the end leaves the stream open. *)
Lemma answers_after {A B : Type} (m : SM (W * Sse) string A) (k : A -> SM (W * Sse) string B) :
  (forall w s, well_formed s -> well_formed (m (w, s)).2.2) -> (forall a, answers_stream (k a)) -> answers_stream (sbind k m).
Proof.
  intros Hm Hk w s Hs. unfold sbind. specialize (Hm w s Hs). destruct (m (w, s)) as [[a|e] [w1 s1]]; [|done]. by apply Hk.
Qed.

Lemma on_world_keeps {A : Type} (m : SM W string A) w s : well_formed s -> well_formed (on_world m (w, s)).2.2.
Proof. intros Hs. unfold on_world. by destruct (m w). Qed.

Lemma sends_answers f : (forall s, well_formed s -> complete (f s)) -> answers_stream (sends f).
Proof. intros Hf w s Hs. by apply Hf. Qed.

Lemma statuses_well_formed texts s : well_formed s -> well_formed (foldl (fun s text => writeSseStatus text true s) s texts).
Proof. intros H. apply (foldl_inv well_formed); [|done]. intros s' x _ H'. by apply write_well_formed. Qed.

Lemma conclude_answers readOnly seen e :
  answers_stream (conclude id created model sessionStore approval_json sessionId readOnly seen e).
Proof.
  destruct e as [m|calls|status content]; cbn [conclude].
  - apply sends_answers. intros; by apply finish_complete.
  - apply answers_after; [intros; by apply on_world_keeps|]. intros _. apply sends_answers. intros; by apply finish_calls_complete.
  - apply answers_after.
    { intros w s Hs. destruct status; [|done]. by apply write_well_formed. }
    intros _. apply answers_after; [intros; by apply on_world_keeps|]. intros _. apply sends_answers. intros; by apply finish_complete.
Qed.

Lemma consume_answers readOnly items : forall seen, answers_stream (consume_items readOnly seen items).
Proof.
  induction items as [|item items IH]; intros seen; cbn [consume].
  - destruct (sn_result seen).
    + apply answers_after; [intros; by apply on_world_keeps|]. intros _. apply sends_answers. intros; by apply finish_complete.
    + apply sends_answers. intros; by apply finish_complete.
  - destruct item as [stage message|n us| |message].
    + apply answers_after; [|intros _; apply IH]. intros w s Hs. by apply progress_well_formed.
    + destruct (ending _ _ _); [apply conclude_answers|]. apply answers_after; [|intros _; apply IH].
      intros w s Hs. by apply statuses_well_formed.
    + apply answers_after; [|intros _; apply IH]. intros w s Hs. by apply write_well_formed.
    + by intros w s Hs.
Qed.
End Handlers.

(** ** Properties *)

Section Properties.
Context {W Url : Type}.
Variable parse_url : string -> result string Url.
Variable url_pathname : Url -> string.
Variable set_pathname : string -> Url -> Url.
Variable searchParams_set : string -> string -> Url -> Url.
Variable url_toString : Url -> string.
Variable sleep : Z -> SM W string unit.
Variable number_text : Z -> string.
Variable inherited_text : string -> string.
Variable JSON_parse : string -> option json.
Variable JSON_stringify : json -> string.
Variable deps : AgentGraphDeps W.
Variable id : string.
Variable created : Z.
Variable model : string.
Variable sessionStore : option (SessionStore W).
Variable approval_of : json -> option ApprovalPending.
Variable approval_json : ApprovalPending -> json.
Variable sessionId : option string.

#[local] Notation trace inp := (run_trace parse_url url_pathname set_pathname searchParams_set url_toString sleep number_text
                                  inherited_text JSON_parse JSON_stringify deps inp).

(** An answer, as the end of a stream. *)
Definition deliver (a : Answer) : Sse -> Sse :=
  match a with
  | answer_error error => finish id created model ("❌ " +:+ error)
  | answer_tool_calls calls => finishWithToolCalls id created model calls
  | answer_text content => finish id created model content
  end.

(** What the turn's state persists: nothing after an error. *)
Definition settle (readOnly : bool) (s : AgentState) : SM W string unit :=
  match answer s with
  | answer_error _ => sret tt
  | _ => persistSession sessionStore sessionId (s_identity s) (outcome_of approval_json readOnly s)
  end.

(** C36: a streamed chat turn ends as the one answered at once does. Whatever is
    interleaved with the updates of the graph's nodes (narration, heartbeats),
    and though the consumer reads single updates and may stop before the graph
    does, it persists what the state that the graph ends in persists and then
    delivers that state's answer, the error, the caller's tools to run or the
    text. Only a turn without a result may end in an error of the stream
    instead. Not in question: a turn that waits on a link of an earlier one, or
    that lost its channel to a run, whose records differ. *)
Theorem stream_answers_as_state (inp : TurnInput W) (start : TurnStart) (w w' : W) (chunks : list Chunk) (s : AgentState)
    (items : list StreamItem) (readOnly : bool) :
  unforced inp -> trace inp GRAPH_RECURSION_LIMIT n_resolveIdentity (turn_start start) w = (chunks, Ok s, w') ->
  Forall (fun c => told c.2) chunks ->
  (forall us, (n_checkPendingIdentityLink, us) ∈ chunks -> written k_identityLinkPending us = None) ->
  s_agentResumePending s = false -> omap item_update items = chunks -> forallb no_throw items = true ->
  exists before, sse_ended before = false /\
    let streamed := consume id created model sessionStore approval_json sessionId readOnly seen_nothing items (w', sse_start) in
    streamed = (do! _ <- on_world (settle readOnly s) ;; sends (deliver (answer s))) (w', before) \/
    (s_result s = None /\ answer s = answer_text (renderResult None) /\
     streamed = sends (finish id created model "❌ agent stream ended unexpectedly") (w', before)).
Proof.
  intros Hun Hrun Htold Hlink Hres Hitems Hthrow.
  assert (Hends : ends_as False (stream_end seen_nothing chunks).1 (stream_end seen_nothing chunks).2 s).
  { eapply stream_follows; [exact Hun|apply at_start|apply agree_start|exact Hrun|exact Htold|].
    intros us Hin [b Hb]. by rewrite (Hlink us Hin) in Hb. }
  destruct (consume_ends id created model sessionStore approval_json sessionId readOnly items seen_nothing w' sse_start Hthrow eq_refl)
    as (before & Hopen & Hcon). rewrite Hitems in Hcon.
  destruct (stream_end seen_nothing chunks) as [seen e] eqn:Hse. cbn [fst snd] in Hends.
  assert (Hpersist : agree False seen s -> forall w, persist sessionStore approval_json sessionId readOnly seen w =
    persistSession sessionStore sessionId (s_identity s) (outcome_of approval_json readOnly s) w).
  { intros Hag w1. by apply persist_agree. }
  destruct e as [[m|calls|status t]|]; cbn [ends_as] in Hends; cbn [wind_up fst snd conclude consume] in Hcon.
  - exists before. split; [done|]. left. rewrite Hcon. unfold settle, answer. destruct Hends as [-> Hne]. by destruct m.
  - exists before. split; [done|]. left. rewrite Hcon. destruct Hends as (He & Hc & Hne & Hag). unfold settle, answer. rewrite He, Hc.
    destruct calls; [done|]. unfold sbind, on_world. by rewrite (Hpersist Hag).
  - destruct Hends as (He & Hc & -> & Hag). exists (match status with Some text => writeSseStatus text true before | None => before end).
    split; [destruct status; [by apply write_open|done]|]. left. rewrite Hcon. unfold settle, answer. rewrite He, Hc.
    destruct status; cbn; unfold sbind, on_world; by rewrite (Hpersist Hag).
  - destruct Hends as (He & Hc & Hag). exists before. split; [done|]. rewrite Hcon. unfold settle, answer.
    rewrite He, Hc, <- (ag_result _ _ _ Hag). destruct (sn_result seen) as [r|]; [|by right].
    left. cbn [truthy_str]. unfold sbind, on_world. by rewrite (Hpersist Hag).
Qed.

(** C37: a stream is well formed, whatever the graph, the stores and the narration
    do: it ends with one terminator, its last in-progress status was closed,
    and no text is fused with the one before it. *)
Theorem stream_is_well_formed (defaultIdentityLinkFlow : LinkFlow) (graph : AgentGraphLike (W := W)) (request authToken : string)
    (forwardedUserToken : option string) (callerTools : CallerToolTurn) (flow : option LinkFlow) (emit : Listener W) (w : W) :
  let '(r, (_, s)) :=
    handleChatCompletionsStreaming id created model sessionStore defaultIdentityLinkFlow approval_of approval_json sessionId graph
      request authToken forwardedUserToken callerTools flow emit (w, sse_start) in
  r = Ok tt /\ complete s.
Proof.
  unfold handleChatCompletionsStreaming, scatch. set (body := sbind _ _).
  assert (Hbody : answers_stream body).
  { apply answers_after; [intros; by apply on_world_keeps|]. intros input.
    apply answers_after; [intros; by apply on_world_keeps|]. intros items. apply consume_answers. }
  specialize (Hbody w sse_start well_formed_start). destruct (body (w, sse_start)) as [[[]|e] [w1 s1]]; [done|].
  cbn in Hbody |- *. split; [done|]. by apply finish_complete.
Qed.

(** A turn that still waits for the link an earlier turn started keeps the
    pending link when it is answered at once, and loses it when it is streamed:
    the record it writes has none, so the next turn cannot take the link up. *)
Theorem stream_forgets_link (seen : Seen) (s : AgentState) (pending : PendingIdentityLink) (existing : option SessionRecord)
    (subject : string) (readOnly : bool) :
  s_pendingIdentityLink s = Some pending -> s_approvalWaiting s = false -> s_subAgentApprovalWaiting s = false ->
  sn_pendingIdentityLink seen = None -> sn_approvalWaiting seen = false -> sn_subAgentApprovalWaiting seen = false ->
  let us := still_waiting deps pending in
  let seen' := see n_checkPendingIdentityLink us seen in
  (exists r, persisted existing subject (outcome_of approval_json readOnly (merge us s)) = Some r /\ ss_pendingIdentityLink r = Some pending) /\
  (exists text, ending n_checkPendingIdentityLink us seen' = Some (end_text None text)) /\
  exists r, persisted existing subject (seen_outcome approval_json readOnly seen') = Some r /\ ss_pendingIdentityLink r = None.
Proof.
  intros H1 H2 H3 H4 H5 H6. cbn zeta. split_and!; [|by eexists|].
  - unfold outcome_of. rewrite m_approvalWaiting, m_subAgentApprovalWaiting, m_identityLinkPending, m_pendingIdentityLink.
    cbn [written still_waiting omap list_omap last]. change (written k_approvalWaiting _) with (@None bool).
    change (written k_subAgentApprovalWaiting _) with (@None bool). change (written k_identityLinkPending _) with (Some true).
    change (written k_pendingIdentityLink _) with (@None (option PendingIdentityLink)). cbn [nullish]. rewrite H1, H2, H3. by eexists.
  - unfold persisted, seen_outcome, still_waiting. cbn. rewrite H4, H5, H6. by eexists.
Qed.
End Properties.

(** ** A concrete turn *)

(** The approved call of GraphTurn.v, streamed. *)
Definition demo_trace : list Chunk * result GraphError AgentState * demo_log :=
  run_trace (fun s => Ok s) (fun s => s) (fun _ s => s) (fun _ _ s => s) (fun s => s) (fun _ => sret tt) (fun _ => "0") (fun s => s)
    (fun _ => None) (fun _ => "{}") demo_deps demo_input GRAPH_RECURSION_LIMIT n_resolveIdentity (turn_start (demo_start "Approve")) [].

Definition demo_end : AgentState := match demo_trace.1.2 with Ok s => s | Err _ => turn_start (demo_start "Approve") end.
Definition demo_items : list StreamItem := it_heartbeat :: ((fun c => it_update c.1 c.2) <$> demo_trace.1.1).

Definition told_b (us : list Update) : bool := match written k_error us with Some (Some m) => negb (str_empty m) | _ => true end.

Lemma told_b_told us : told_b us = true -> told us.
Proof. unfold told_b. intros H m Hm. rewrite Hm in H. by intros ->. Qed.

Lemma stream_answers_as_state_witness :
  answer demo_end = answer_text "deployed" /\
  exists before, sse_ended before = false /\
    (consume "c1" 0 "m" None (fun _ => JNull) (Some "s1") false seen_nothing demo_items (demo_trace.2, sse_start) =
       (do! _ <- on_world (settle None (fun _ => JNull) (Some "s1") false demo_end) ;; sends (deliver "c1" 0 "m" (answer demo_end)))
         (demo_trace.2, before) \/ s_result demo_end = None).
Proof.
  split; [by vm_compute|].
  destruct (stream_answers_as_state (fun s => Ok s) (fun s => s) (fun _ s => s) (fun _ _ s => s) (fun s => s) (fun _ => sret tt)
    (fun _ => "0") (fun s => s) (fun _ => None) (fun _ => "{}") demo_deps "c1" 0 "m" None (fun _ => JNull) (Some "s1")
    demo_input (demo_start "Approve") [] demo_trace.2 demo_trace.1.1 demo_end demo_items false) as (before & Hopen & Hcon).
  - by split_and!.
  - vm_compute. reflexivity.
  - apply Forall_forall. intros c Hc. apply told_b_told. revert c Hc. apply Forall_forall. vm_compute. repeat constructor.
  - intros us Hin. cut (bool_decide (written k_identityLinkPending us = None) = true); [by intros ?%bool_decide_eq_true|].
    revert Hin. cut (Forall (fun c : Chunk => bool_decide (written k_identityLinkPending c.2 = None) = true) demo_trace.1.1).
    { intros H Hin. rewrite Forall_forall in H. exact (H _ Hin). }
    vm_compute. repeat constructor.
  - by vm_compute.
  - by vm_compute.
  - by vm_compute.
  - exists before. split; [done|]. destruct Hcon as [Hcon|[Hcon _]]; [by left|by right].
Defined.

(** Alice is asked to finish the link that she was given last turn. *)
Definition alice_link : PendingIdentityLink := mkPending "swe" "github" "authcode" None 600000 "alice" "fix the bug".

Lemma stream_forgets_link_witness :
  exists r, persisted None "alice"
    (seen_outcome (fun _ => JNull) false (see n_checkPendingIdentityLink (still_waiting demo_deps alice_link) seen_nothing)) = Some r /\
    ss_pendingIdentityLink r = None.
Proof.
  exact (proj2 (proj2 (stream_forgets_link demo_deps (fun _ => JNull) seen_nothing
    (turn_start (mkTurnStart "done" None None false [] (Some alice_link) None None)) alice_link None "alice" false
    eq_refl eq_refl eq_refl eq_refl eq_refl eq_refl))).
Defined.
