(* ===== verification/TriggerRegistry.v ===== *)
(** * Agent orchestrator: the event triggers of a cluster

    The envelope that /invoke accepts, and the table of triggers kept from
    EventTrigger resources
    (apps/agent-orchestrator/src/routing/crd-event-trigger-registry.ts), over
    the compilation and the selection of EventTrigger.v.

    A resource that the cluster delivers has its name, if it has one, its
    generation and its conditions beside what is compiled of it. *)

From stdpp Require Import base gmap strings list sorting.
From Stdlib Require Import ZArith Lia Ascii Bool.
From S2P Require Import Prelude JsString JsNumber Json JsMap EventValues JsList JsonText KnowledgeBase.
From S2P Require Import EventTrigger Approval CatalogSync.

#[local] Open Scope Z_scope.

(** ** The envelope *)

(** The fields of a plain object. *)
Definition plain_object (v : option json) : option (list (string * json)) :=
  match v with
  | Some (JObj fields) => Some fields
  | _ => None
  end.

Definition non_empty (v : option json) : option string :=
  match v with
  | Some (JStr s) => if str_empty s then None else Some s
  | _ => None
  end.

(** A header, by its name: setting [__proto__] to a text does nothing. *)
Definition header_entry (h : string * json) : result string (list (string * string)) :=
  match h.2 with
  | JStr value => Ok (if bool_decide (h.1 = "__proto__") then [] else [(h.1, value)])
  | _ => Err ("event.headers[" +:+ json_quote h.1 +:+ "] must be a string")
  end.

Definition parse_kind (v : option json) : option EnvelopeKind :=
  match v with
  | Some (JStr s) => if bool_decide (s = "webhook") then Some webhook else if bool_decide (s = "cron") then Some cron else None
  | _ => None
  end.

(** A field that may be left out: [None] where it is there with another type. *)
Definition optional {A : Type} (v : option json) (absent : A) (read : json -> option A) : option A :=
  match v with
  | None => Some absent
  | Some v => read v
  end.

Definition or_error {A : Type} (o : option A) (e : string) : result string A :=
  match o with
  | Some a => Ok a
  | None => Err e
  end.

Definition must_be_text (field : string) : string := "event." +:+ field +:+ " must be a non-empty string".

Definition parseEnvelope (raw : json) : result string Envelope :=
  let? fields := or_error (plain_object (Some raw)) "event must be an object" in
  let? source := or_error (non_empty (jget "source" fields)) (must_be_text "source") in
  let? kind := or_error (parse_kind (jget "kind" fields))
                 ("event.kind must be " +:+ qq +:+ "webhook" +:+ qq +:+ " or " +:+ qq +:+ "cron" +:+ qq) in
  let? id := or_error (non_empty (jget "id" fields)) (must_be_text "id") in
  let? time := or_error (non_empty (jget "time" fields)) (must_be_text "time") in
  let? headers := or_error (optional (jget "headers" fields) [] (fun v => plain_object (Some v))) "event.headers must be an object" in
  let? normalized := mapM_result header_entry headers in
  let? sender := or_error (optional (jget "sender" fields) [] (fun v => plain_object (Some v))) "event.sender must be an object" in
  let? repository := or_error (optional (jget "repository" fields) EmptyString (fun v => match v with JStr s => Some s | _ => None end))
                       "event.repository must be a string" in
  Ok (mkEnvelope source kind id time (concat normalized) (jget "body" fields ?? JObj []) sender repository).

(** ** The table *)

Record Condition := mkCondition {
  cond_type : string;
  cond_status : string;
  cond_observedGeneration : option Z
}.

Record TriggerCR := mkTriggerCR {
  tcr_name : option string;
  tcr_generation : option Z;
  tcr_conditions : list Condition;
  tcr_resource : EventTriggerResource
}.

Definition isControllerReady (resource : TriggerCR) : bool :=
  existsb (fun c => bool_decide (cond_type c = "Ready") && bool_decide (cond_status c = "True") &&
                    bool_decide (cond_observedGeneration c = tcr_generation resource)) (tcr_conditions resource).

Section Table.
Context {program : Type}.
Variable cel_compile : string -> result string (string * program).
Variable cel_run : program -> list (string * cel) -> result string cel.

(** A compiled trigger, with the resource it was compiled from. *)
Record Entry := mkEntry {
  en_resource : TriggerCR;
  en_trigger : CompiledTrigger program
}.

Definition Table : Type := jsmap Entry.

Definition tcr_named (cr : TriggerCR) : option string := if truthy_str (tcr_name cr) then tcr_name cr else None.

Definition upsert (cr : TriggerCR) (triggers : Table) : Table :=
  match tcr_named cr with
  | None => triggers
  | Some _ =>
      let compiled := compileTrigger program cel_compile (tcr_resource cr) in
      map_set (ct_name program compiled) (mkEntry cr compiled) triggers
  end.

(** [listAll]: the table after the resources of the response. *)
Definition listAll (items : list TriggerCR) : Table := foldl (fun triggers cr => upsert cr triggers) [] items.

(** The handler of [watch]. *)
Definition on_event (phase : WatchPhase) (cr : TriggerCR) (triggers : Table) : Table :=
  match tcr_named cr with
  | None => triggers
  | Some name =>
      match phase with
      | DELETED => map_delete name triggers
      | _ => upsert cr triggers
      end
  end.

Definition offered (triggers : Table) : list (CompiledTrigger program) :=
  en_trigger <$> List.filter (fun e => isControllerReady (en_resource e)) triggers.*2.

(** An error is one that [selectTrigger_never_throws] excludes. *)
Definition select (triggers : Table) (envelope : Envelope) (callerSessionId : option string) : result ValueError SelectResult :=
  let? r := selectTrigger program cel_run (offered triggers) envelope (if truthy_str callerSessionId then callerSessionId else None) in
  Ok r.1.

(** ** Lemmas *)

(** The resources of a cluster carry their own name. *)
Definition tcr_wf (cr : TriggerCR) : Prop := forall name, tcr_named cr = Some name -> res_name (tcr_resource cr) = name.

Lemma compile_name resource : ct_name program (compileTrigger program cel_compile resource) = res_name resource.
Proof. unfold compileTrigger. by repeat case_match. Qed.

(** The last word of the watch on a name. *)
Definition latest_of (name : string) (events : list (WatchPhase * TriggerCR)) : option (option TriggerCR) :=
  last (omap (fun '(phase, cr) =>
                if bool_decide (tcr_named cr = Some name)
                then Some (match phase with DELETED => None | _ => Some cr end) else None) events).

Definition entry_of (cr : TriggerCR) : Entry := mkEntry cr (compileTrigger program cel_compile (tcr_resource cr)).

Lemma upsert_get cr name triggers :
  tcr_wf cr -> map_get name (upsert cr triggers) =
    if bool_decide (tcr_named cr = Some name) then Some (entry_of cr) else map_get name triggers.
Proof.
  intros Hwf. unfold upsert. destruct (tcr_named cr) as [n|] eqn:Hn; [|done].
  rewrite compile_name, (Hwf n Hn). case_bool_decide as Hb; [injection Hb as ->; apply map_get_set_eq|].
  apply map_get_set_ne. by intros ->.
Qed.

Lemma upsert_wf cr triggers : map_wf triggers -> map_wf (upsert cr triggers).
Proof. intros H. unfold upsert. destruct (tcr_named cr); [by apply map_set_wf|done]. Qed.

Lemma on_event_wf phase cr triggers : map_wf triggers -> map_wf (on_event phase cr triggers).
Proof.
  intros H. unfold on_event. destruct (tcr_named cr); [|done]. destruct phase; by first [apply map_delete_wf|apply upsert_wf].
Qed.

(** The table after a list and the events of a watch holds, by name, the last
    word on each. *)
Lemma events_get name events : forall triggers,
  Forall (fun e => tcr_wf e.2) events -> map_wf triggers ->
  map_get name (foldl (fun t e => on_event e.1 e.2 t) triggers events) =
    match latest_of name events with
    | Some last => entry_of <$> last
    | None => map_get name triggers
    end.
Proof.
  induction events as [|[phase cr] events IH] using rev_ind; intros triggers Hall Hwf; [done|].
  apply Forall_app in Hall as [Hall Hcr]. apply Forall_cons in Hcr as [Hcr _]. cbn [snd] in Hcr.
  rewrite foldl_app. cbn [foldl fst snd]. unfold latest_of in *. rewrite omap_app. unfold omap at 2; cbn [list_omap].
  assert (Hwf' : map_wf (foldl (fun t e => on_event e.1 e.2 t) triggers events)).
  { apply (foldl_inv map_wf); [|done]. intros t e _ Ht. by apply on_event_wf. }
  fold (latest_of name events) in IH. specialize (IH triggers Hall Hwf). revert IH Hwf'.
  generalize (foldl (fun t e => on_event e.1 e.2 t) triggers events) as before. intros before IH Hwf'. unfold on_event. destruct (tcr_named cr) as [n|] eqn:Hn.
  2: { rewrite bool_decide_eq_false_2 by done. by rewrite app_nil_r. }
  case_bool_decide as Hb.
  - injection Hb as ->. rewrite last_snoc. destruct phase; cbn [fmap option_fmap option_map].
    1, 2: rewrite upsert_get by done; by rewrite Hn, bool_decide_eq_true_2.
    by apply map_get_delete_eq.
  - rewrite app_nil_r. fold (latest_of name events). rewrite <- IH. destruct phase.
    1, 2: rewrite upsert_get by done; by rewrite Hn, bool_decide_eq_false_2.
    apply map_get_delete_ne. by intros ->.
Qed.

Lemma listAll_events items : listAll items = foldl (fun t e => on_event e.1 e.2 t) [] (pair ADDED <$> items).
Proof.
  unfold listAll. generalize (@nil (string * Entry)). induction items as [|cr items IH]; intros triggers; [done|].
  cbn. rewrite IH. f_equal. unfold on_event, upsert. by destruct (tcr_named cr).
Qed.

(** The trigger of a result was offered, and won. *)
Lemma winner_offered triggers envelope session r errors name :
  selectTrigger program cel_run triggers envelope session = Ok (r, errors) -> result_trigger r = Some name ->
  exists t, t ∈ triggers /\ ct_name program t = name /\ is_candidate program envelope t = true /\
    match_outcome program cel_run (envelopeActivation envelope) t = Wins.
Proof.
  unfold selectTrigger. destruct (pick _ _ _ _) as [[w|] es] eqn:Hp; [|by intros [= <- _]].
  apply pick_Some in Hp as (l1 & l2 & Hl & Hw & _).
  assert (w ∈ candidates_of program triggers envelope) as Hin by (rewrite Hl; set_solver).
  apply candidates_elem in Hin as [Hin Hc].
  destruct (ct_target _ w); [|by intros [= <- _]].
  intros (r' & Hd & [= <- _])%result_bind_Ok. rewrite (dispatch_names _ _ _ _ _ _ _ Hd). intros [= <-]. by exists w.
Qed.

(** ** Properties *)

(** What an event starts is a trigger as the cluster last described it. After
    the list at startup and any events of the watch, a trigger that an envelope
    selects (whether its dispatch succeeds or fails) is the last resource
    delivered under its name, that was not deleted since; the controller has
    marked that very generation of it ready, it compiles, and its own match
    holds. *)
Theorem selected_is_current (items : list TriggerCR) (events : list (WatchPhase * TriggerCR)) (envelope : Envelope)
    (session : option string) (r : SelectResult) (name : string) :
  let delivered := (pair ADDED <$> items) ++ events in
  Forall (fun e => tcr_wf e.2) delivered ->
  select (foldl (fun t e => on_event e.1 e.2 t) (listAll items) events) envelope session = Ok r -> result_trigger r = Some name ->
  exists cr, latest_of name delivered = Some (Some cr) /\ isControllerReady cr = true /\
    let t := compileTrigger program cel_compile (tcr_resource cr) in
    ct_ready program t = true /\ is_candidate program envelope t = true /\
    match_outcome program cel_run (envelopeActivation envelope) t = Wins.
Proof.
  intros delivered Hwf Hsel Hname. set (table := foldl _ _ events) in Hsel.
  assert (Htable : table = foldl (fun t e => on_event e.1 e.2 t) [] delivered).
  { unfold table, delivered. by rewrite listAll_events, foldl_app. }
  assert (Hmap : map_wf table).
  { rewrite Htable. apply (foldl_inv map_wf); [|apply NoDup_nil_2]. intros t e _ Ht. by apply on_event_wf. }
  unfold select in Hsel. apply result_bind_Ok in Hsel as ([r' errors] & Hsel & [= <-]). cbn [fst] in Hname.
  destruct (winner_offered _ _ _ _ _ _ Hsel Hname) as (t & Hin & Hn & Hc & Hw).
  apply list_elem_of_fmap in Hin as (e & -> & He). rewrite list_elem_of_In, List.filter_In, <- list_elem_of_In in He.
  destruct He as [He Hready]. apply list_elem_of_fmap in He as ([n e'] & -> & He). cbn [snd] in *.
  assert (Hkey : forall k en, (k, en) ∈ table -> exists cr, en = entry_of cr /\ latest_of k delivered = Some (Some cr)).
  { intros k en Hk. apply map_get_elem in Hk; [|done]. rewrite Htable, events_get in Hk by (done || apply NoDup_nil_2).
    destruct (latest_of k delivered) as [[cr|]|]; [|done..]. injection Hk as <-. by exists cr. }
  destruct (Hkey n e' He) as (cr & -> & Hlast). exists cr.
  assert (n = name) as ->.
  { rewrite <- Hn. cbn [entry_of en_trigger]. rewrite compile_name. unfold latest_of in Hlast.
    apply last_Some_elem_of, list_elem_of_omap in Hlast as ([phase cr'] & Hd & Heq). case_bool_decide as Hb; [|done].
    destruct phase; try discriminate Heq; injection Heq as ->; rewrite Forall_forall in Hwf; symmetry; exact (Hwf _ Hd n Hb). }
  split_and!; [done|done|by apply is_candidate_bound in Hc as [? _]|done|done].
Qed.
End Table.

(** An envelope, as it is sent. *)
Definition kind_text (k : EnvelopeKind) : string := match k with webhook => "webhook" | cron => "cron" end.

Definition envelope_json (e : Envelope) : json :=
  JObj [("source", JStr (env_source e)); ("kind", JStr (kind_text (env_kind e))); ("id", JStr (env_id e)); ("time", JStr (env_time e));
        ("headers", JObj ((fun h => (h.1, JStr h.2)) <$> env_headers e)); ("body", env_body e); ("sender", JObj (env_sender e));
        ("repository", JStr (env_repository e))].

Lemma headers_roundtrip (headers : list (string * string)) :
  Forall (fun h => h.1 <> "__proto__") headers ->
  exists normalized, mapM_result header_entry ((fun h => (h.1, JStr h.2)) <$> headers) = Ok normalized /\ concat normalized = headers.
Proof.
  induction 1 as [|[k v] headers Hk _ (normalized & Hn & Hc)]; [by exists []|]. cbn [fmap list_fmap mapM_result fst snd] in *.
  assert (header_entry (k, JStr v) = Ok [(k, v)]) as -> by (unfold header_entry; cbn; by rewrite bool_decide_eq_false_2).
  cbn [result_bind]. rewrite Hn. cbn [result_bind].
  exists ([(k, v)] :: normalized). split; [done|]. cbn. by rewrite Hc.
Qed.

(** What the gateway posts is what the orchestrator reads: an envelope with a
    source, an id and a time comes back whole. *)
Theorem envelope_roundtrip (e : Envelope) :
  env_source e <> EmptyString -> env_id e <> EmptyString -> env_time e <> EmptyString ->
  Forall (fun h => h.1 <> "__proto__") (env_headers e) -> parseEnvelope (envelope_json e) = Ok e.
Proof.
  intros Hs Hi Ht Hh. destruct (headers_roundtrip _ Hh) as (normalized & Hn & Hc).
  assert (Hne : forall s, s <> EmptyString -> non_empty (Some (JStr s)) = Some s) by (by intros []).
  unfold parseEnvelope, envelope_json. cbn [plain_object or_error result_bind].
  change (jget "source" _) with (Some (JStr (env_source e))). rewrite (Hne _ Hs). cbn [or_error result_bind].
  change (jget "kind" _) with (Some (JStr (kind_text (env_kind e)))).
  assert (parse_kind (Some (JStr (kind_text (env_kind e)))) = Some (env_kind e)) as -> by (by destruct (env_kind e)). cbn [or_error result_bind].
  change (jget "id" _) with (Some (JStr (env_id e))). rewrite (Hne _ Hi). cbn [or_error result_bind].
  change (jget "time" _) with (Some (JStr (env_time e))). rewrite (Hne _ Ht). cbn [or_error result_bind].
  change (jget "headers" _) with (Some (JObj ((fun h => (h.1, JStr h.2)) <$> env_headers e))). cbn [optional plain_object or_error result_bind].
  rewrite Hn. cbn [result_bind]. change (jget "sender" _) with (Some (JObj (env_sender e))). cbn [optional plain_object or_error result_bind].
  change (jget "repository" _) with (Some (JStr (env_repository e))). cbn [optional or_error result_bind].
  change (jget "body" _) with (Some (env_body e)). cbn [nullish]. rewrite Hc. by destruct e.
Qed.

(** ** Samples *)

Definition sample_resource : EventTriggerResource :=
  mkResource "triage" (Some "github") None None [] None
    (Some (mkTargetSpec false None (Some "swe") None (Some "Look at the issue.") false)) None.

(** The resource at a generation, that the controller marked ready at another. *)
Definition sample_cr (generation observed : Z) : TriggerCR :=
  mkTriggerCR (Some "triage") (Some generation) [mkCondition "Ready" "True" (Some observed)] sample_resource.

Lemma sample_cr_wf g o : tcr_wf (sample_cr g o).
Proof. by intros name [= <-]. Qed.

(** An edit that nobody has checked is not dispatched; once it is checked, it is. *)
Definition sample_run (last_observed : Z) : result ValueError SelectResult :=
  select lookup_run (foldl (fun t e => on_event (fun s => Ok ("bool", s)) e.1 e.2 t) (listAll (fun s => Ok ("bool", s)) [sample_cr 1 1])
    [(MODIFIED, sample_cr 2 last_observed)]) sample_envelope None.

Example stale_ready_ignored : sample_run 1 = Ok Ignored.
Proof. vm_compute. reflexivity. Qed.

Lemma selected_is_current_witness :
  exists r, sample_run 2 = Ok r /\ result_trigger r = Some "triage" /\
    exists cr, latest_of "triage" [(ADDED, sample_cr 1 1); (MODIFIED, sample_cr 2 2)] = Some (Some cr) /\ isControllerReady cr = true.
Proof.
  eexists. split; [vm_compute; reflexivity|]. split; [reflexivity|].
  destruct (selected_is_current (fun s => Ok ("bool", s)) lookup_run [sample_cr 1 1] [(MODIFIED, sample_cr 2 2)] sample_envelope None
    _ "triage" ltac:(repeat apply Forall_cons_2; try apply Forall_nil_2; apply sample_cr_wf)
    ltac:(vm_compute; reflexivity) ltac:(reflexivity)) as (cr & H1 & H2 & _).
  exists cr. split; [exact H1|exact H2].
Defined.

Lemma envelope_roundtrip_witness : parseEnvelope (envelope_json sample_envelope) = Ok sample_envelope.
Proof. apply envelope_roundtrip; [done..|apply Forall_nil_2; exact I]. Defined.
