(* ===== verification/InvokeServer.v ===== *)
(** * Agent orchestrator: accept-then-poll, and the routes of the server

    POST /invoke accepts a turn and answers at once; the turn then runs on its
    own and leaves its end in the record that GET /invoke/:id answers with
    (apps/agent-orchestrator/src/server.ts, with invocation/types.ts and
    invocation/redis-invocation-store.ts). Here too are the routes to a live
    agent run and the dispatch of a request.

    The acceptance of a turn and its run are two computations: the first returns
    what the second needs ([Accepted]). A promise that is rejected and that
    nobody handles is [unhandled]. *)

From stdpp Require Import base gmap strings list.
From Stdlib Require Import ZArith Lia Ascii Bool.
From S2P Require Import Prelude JsString JsNumber Json JsMap EventValues JsList JsonText KnowledgeBase.
From S2P Require Import IdentityLink Authorization Session Approval Catalog Planner Dispatch GraphState GraphNodes.
From S2P Require Import AgentRuntime EventTrigger TriggerRegistry Rbac CallerTools ChatApi ChatServer.

#[local] Open Scope Z_scope.

(** ** The records *)

Inductive InvocationStatus := pending | succeeded | failed.

#[export] Instance InvocationStatus_eq_dec : EqDecision InvocationStatus.
Proof. solve_decision. Defined.

Record InvocationRecord := mkInvocation {
  iv_id : string;
  iv_status : InvocationStatus;
  iv_result : option json;
  iv_error : option string;
  iv_identityLink : option (string * string);
  iv_remoteControlUrl : option string;
  iv_pendingToolCalls : list PendingToolCall
}.

Definition is_pending (r : InvocationRecord) : bool := bool_decide (iv_status r = pending).

Definition new_record (id : string) : InvocationRecord := mkInvocation id pending None None None None [].

Definition with_url (url : string) (r : InvocationRecord) : InvocationRecord :=
  mkInvocation (iv_id r) (iv_status r) (iv_result r) (iv_error r) (iv_identityLink r) (Some url) (iv_pendingToolCalls r).

(** [identityLinkPending] is set with the link, and only with it. *)
Definition with_link (provider subject : string) (r : InvocationRecord) : InvocationRecord :=
  mkInvocation (iv_id r) (iv_status r) (iv_result r) (iv_error r) (Some (provider, subject)) (iv_remoteControlUrl r)
    (iv_pendingToolCalls r).

Definition status_text (s : InvocationStatus) : string :=
  match s with
  | pending => "pending"
  | succeeded => "succeeded"
  | failed => "failed"
  end.

Definition field (k : string) (v : option json) : list (string * json) :=
  match v with
  | Some v => [(k, v)]
  | None => []
  end.

(** [JSON.stringify] of a record leaves out what is undefined. *)
Definition record_json (r : InvocationRecord) : json :=
  JObj ([("id", JStr (iv_id r)); ("status", JStr (status_text (iv_status r)))] ++
        field "result" (iv_result r) ++ field "error" (JStr <$> iv_error r) ++
        field "remoteControlUrl" (JStr <$> iv_remoteControlUrl r) ++
        field "pendingToolCalls" (match iv_pendingToolCalls r with
                                  | [] => None
                                  | calls => Some (JArr ((fun c => JObj [("id", JStr (ptc_id c)); ("name", JStr (ptc_name c));
                                                                      ("arguments", JStr (ptc_arguments c))]) <$> calls))
                                  end) ++
        match iv_identityLink r with
        | Some (provider, subject) =>
            [("identityLinkPending", JBool true); ("identityLink", JObj [("provider", JStr provider); ("subject", JStr subject)])]
        | None => []
        end).

Record InvocationStore (W : Type) := mkInvocationStore {
  is_get : string -> SM W string (option InvocationRecord);
  is_set : string -> InvocationRecord -> SM W string unit
}.
Arguments mkInvocationStore {W}.
Arguments is_get {W} i.
Arguments is_set {W} i.

(** [InMemoryInvocationStore] *)
Definition InMemoryInvocationStore : InvocationStore (jsmap InvocationRecord) :=
  mkInvocationStore (fun id records => (Ok (map_get id records), records)) (fun id r records => (Ok tt, map_set id r records)).

(** [RedisInvocationStore], over the commands of its client: an error of a read,
    or a text that does not parse, is a miss. *)
Definition RedisInvocationStore {W : Type} (prefix : string) (ttlSeconds : Z) (redis_get : string -> SM W string (option string))
    (redis_set : string -> string -> Z -> SM W string unit) (parse_record : string -> option InvocationRecord) : InvocationStore W :=
  mkInvocationStore
    (fun id => scatch (do! raw <- redis_get (prefix +:+ id) ;;
                       sret (match raw with
                             | Some text => if str_empty text then None else parse_record text
                             | None => None
                             end)) (fun _ => sret None))
    (fun id r => redis_set (prefix +:+ id) (JSON_text (record_json r)) ttlSeconds).

(** ** The turn that was accepted *)

Record Accepted := mkAccepted {
  acc_id : string;
  acc_request : string;
  acc_authToken : string;
  acc_sessionId : option string;
  acc_identityLinkFlow : option LinkFlow;
  acc_senderLogin : option string;
  acc_callerTools : CallerToolTurn;
  acc_trigger : option TriggerTurn;
  acc_targetRepository : option string
}.

Definition with_report {W : Type} (report : string -> string -> SM W string unit) (t : TurnInput W) : TurnInput W :=
  mkTurnInput (in_authToken t) (in_sessionId t) (in_activeSkillId t) (in_sessionSubject t) (in_activeAgentRunReadOnly t)
    (in_toolContinuations t) (in_agentContinuations t) (in_callerTools t) (in_callerToolChoiceRequired t) (in_progressListener t)
    (in_remoteControlUrlListener t) (Some report) (in_identityLinkFlow t) (in_forwardedUserToken t) (in_senderLogin t)
    (in_forcedSkillId t) (in_forcedAgentId t) (in_forcedToolId t) (in_toolInput t) (in_turnReadOnly t) (in_params t) (in_triggerName t).

(** The record of a turn that ended in a state. *)
Definition terminal_record (id : string) (state : AgentState) (remoteControlUrl : option string) : InvocationRecord :=
  mkInvocation id (if truthy_str (s_error state) then failed else succeeded) (s_result state) (s_error state)
    (match s_pendingIdentityLink state, s_identity state with
     | Some link, Some _ => if s_identityLinkPending state then Some (pl_provider link, pl_subject link) else None
     | _, _ => None
     end) (if_set remoteControlUrl) (s_pendingToolCalls state).

Definition failed_record (id error : string) (remoteControlUrl : option string) : InvocationRecord :=
  mkInvocation id failed None (Some error) None (if_set remoteControlUrl) [].

(** *** Reports that nobody awaits

    The listeners of a turn are async functions: the graph calls one and goes
    on, and its read and its write of the record happen later, whenever the
    process awaits something, or after the turn has ended. *)

(** A report under way: before its read, with its news, or before its write. *)
Inductive Report :=
| reading (news : InvocationRecord -> InvocationRecord)
| writing (record : InvocationRecord).

(** The process that runs a turn: the world, the turn's reports under way, and
    which of them (by position) go a step further at each await to come. *)
Record Loop (W : Type) := mkLoop {
  lp_world : W;
  lp_reports : list Report;
  lp_order : list (list nat)
}.
Arguments mkLoop {W}.
Arguments lp_world {W} l.
Arguments lp_reports {W} l.
Arguments lp_order {W} l.

Section Run.
Context {W : Type}.
Variable invocations : InvocationStore W.
Variable sessionStore : option (SessionStore W).
Variable defaultIdentityLinkFlow : LinkFlow.
Variable approval_of : json -> option ApprovalPending.
Variable approval_json : ApprovalPending -> json.
Variable graph_invoke : TurnInput (Loop W) -> TurnStart -> option string -> SM (Loop W) string AgentState.
(** What an unhandled rejection does to the process. *)
Variable unhandled : string -> W -> W.

(** One report goes a step further: it reads the record, and has a write to do
    if the record is pending; or it writes. *)
Definition step_report (id : string) (s : Loop W) (i : nat) : Loop W :=
  let rest := delete i (lp_reports s) in
  match lp_reports s !! i with
  | None => s
  | Some (reading news) =>
      match is_get invocations id (lp_world s) with
      | (Ok (Some r), w) =>
          if is_pending r then mkLoop w (<[i := writing (news r)]> (lp_reports s)) (lp_order s) else mkLoop w rest (lp_order s)
      | (Ok None, w) => mkLoop w rest (lp_order s)
      | (Err e, w) => mkLoop (unhandled e w) rest (lp_order s)
      end
  | Some (writing r) =>
      match is_set invocations id r (lp_world s) with
      | (Ok _, w) => mkLoop w rest (lp_order s)
      | (Err e, w) => mkLoop (unhandled e w) rest (lp_order s)
      end
  end.

(** The reports that go on at this await. *)
Definition background (id : string) (s : Loop W) : Loop W :=
  match lp_order s with
  | [] => s
  | now :: later => foldl (step_report id) (mkLoop (lp_world s) (lp_reports s) later) now
  end.

(** [await m]: the reports go on, and then [m] happens. *)
Definition awaiting {A : Type} (id : string) (m : SM W string A) : SM (Loop W) string A := fun s =>
  let s := background id s in
  let '(r, w) := m (lp_world s) in
  (r, mkLoop w (lp_reports s) (lp_order s)).

(** A listener is called: its report is under way. *)
Definition report (id : string) (news : InvocationRecord -> InvocationRecord) : SM (Loop W) string unit := fun s =>
  (Ok tt, background id (mkLoop (lp_world s) (lp_reports s ++ [reading news]) (lp_order s))).

Definition awaited_sessions (id : string) : option (SessionStore (Loop W)) :=
  (fun store => mkSessionStore (fun key => awaiting id (st_get store key)) (fun key r => awaiting id (st_set store key r))
                  (awaiting id <$> st_list store)) <$> sessionStore.

Definition persistTerminalInvocation (id : string) (record : InvocationRecord) : SM (Loop W) string unit :=
  scatch (awaiting id (is_set invocations id record)) (fun _ => sret tt).

(** The turn's request; a live channel is left out on purpose. *)
Definition invoke_request (a : Accepted) : TurnRequest (Loop W) :=
  mkTurnRequest (acc_request a) (acc_authToken a) (acc_sessionId a) None (acc_identityLinkFlow a) None
    (Some (fun url => report (acc_id a) (with_url url))) (acc_senderLogin a) (Some (acc_callerTools a)) (acc_trigger a).

(** The turn's mode, recorded before anything is launched. *)
Definition record_mode (a : Accepted) (readOnly : bool) : SM (Loop W) string unit :=
  if truthy_str (acc_sessionId a) && (readOnly || bool_decide (is_Some (tt_triggerName <$> acc_trigger a)))
  then setSessionReadOnly (awaited_sessions (acc_id a)) (acc_sessionId a ?? EmptyString) readOnly else sret tt.

Definition current_url (id : string) : SM (Loop W) string (option string) :=
  do! current <- awaiting id (is_get invocations id) ;; sret (current ≫= iv_remoteControlUrl).

(** The chain that nobody awaits. *)
Definition run_invocation (a : Accepted) : SM (Loop W) string unit :=
  let id := acc_id a in
  scatch
    (do! input <- buildGraphInput (awaited_sessions id) defaultIdentityLinkFlow approval_of (invoke_request a) ;;
     let readOnly := in_turnReadOnly input.1 in
     do! _ <- record_mode a readOnly ;;
     let reporting := with_report (fun provider subject => report id (with_link provider subject)) input.1 in
     scatch
       (do! state <- graph_invoke reporting input.2 (acc_targetRepository a) ;;
        do! _ <- persistSession (awaited_sessions id) (acc_sessionId a) (s_identity state)
                   (invoke_outcome (outcome_of approval_json readOnly state)) ;;
        do! url <- current_url id ;;
        persistTerminalInvocation id (terminal_record id state url))
       (fun message =>
          do! url <- current_url id ;;
          persistTerminalInvocation id (failed_record id message url)))
    (fun message => persistTerminalInvocation id (failed_record id message None)).
End Run.

(** ** POST /invoke *)

(** What the body of a request says. *)
Record InvokeBody := mkInvokeBody {
  ib_request : string;
  ib_sessionId : option string;
  ib_identityLinkFlow : option LinkFlow;
  ib_senderLogin : option string;
  ib_envelope : option Envelope;
  ib_tools : option json;
  ib_toolChoice : option json
}.

Definition error_json (message : string) : json := JObj [("error", JStr message)].

Definition INVALID_INVOKE : string :=
  "body must be JSON: { " +:+ qq +:+ "request" +:+ qq +:+ ": " +:+ qq +:+ "<non-empty string>" +:+ qq +:+ " } or { " +:+ qq +:+ "event" +:+ qq
  +:+ ": <envelope> }".

(** A text that is not blank. *)
Definition spoken_text (v : option json) : option string :=
  match v with
  | Some (JStr s) => if str_empty (trim s) then None else Some s
  | _ => None
  end.

Definition body_text (v : option json) : string :=
  match v with
  | Some (JStr s) => s
  | _ => EmptyString
  end.

Section Parse.
Variable JSON_parse : string -> option json.
(** [verifySenderAssertion] of a secret and an assertion, or the envelope's
    login ([Rbac.invoke_sender] at the present time). *)
Variable sender_of : option string -> option (option json) -> option string.

Definition parse_event (v : option json) : result string (option Envelope) :=
  match v with
  | None => Ok None
  | Some raw => let? envelope := parseEnvelope raw in Ok (Some envelope)
  end.

Definition parse_invoke (rawBody : string) (assertion : option string) : result string InvokeBody :=
  match (if str_empty rawBody then Some (JObj []) else JSON_parse rawBody) with
  | Some (JObj body) =>
      let? envelope := parse_event (jget "event" body) in
      match envelope, spoken_text (jget "request" body) with
      | None, None => Err INVALID_INVOKE
      | _, _ =>
          Ok (mkInvokeBody (body_text (jget "request" body)) (spoken_text (jget "session_id" body))
                (flow_field (jget "identity_link_flow" body))
                (sender_of assertion ((fun e => jget "login" (env_sender e)) <$> envelope)) envelope
                (jget "tools" body) (jget "tool_choice" body))
      end
  | _ => Err INVALID_INVOKE
  end.
End Parse.

(** The turn that a trigger resolved. *)
Definition trigger_turn (m : Matched) : TriggerTurn :=
  let target := m_target m in
  let ref_when k := if bool_decide (target_kind target = k) then target_ref target else None in
  mkTriggerTurn (m_trigger m) (ref_when tk_skill) (ref_when tk_agent) (ref_when tk_tool)
    (if bool_decide (target_kind target = tk_tool) then Some (m_toolInput m) else None) (target_readOnly target) (m_stringParams m).

Definition trigger_request (m : Matched) : string :=
  if str_empty (m_prompt m) then trim ("Run tool " +:+ (target_ref (m_target m) ?? EmptyString)) else m_prompt m.

Definition github_json (g : RenderedGitHub) : json :=
  JObj ([("repository", JStr (rg_repository g)); ("issueNumber", num (rg_issueNumber g))] ++ field "ack" (JStr <$> rg_ack g) ++
        [("sessionPage", JBool (rg_sessionPage g)); ("result", JBool (rg_result g))] ++ field "removeLabel" (JStr <$> rg_removeLabel g)).

Definition http_json (h : HttpReplySpec) : json :=
  JObj (("url", JStr (http_url h)) ::
        match http_secretRef h with
        | Some (name, key) => [("secretRef", JObj [("name", JStr name); ("key", JStr key)])]
        | None => []
        end).

Definition reply_field (reply : option RenderedReply) : json :=
  match reply with
  | None => JNull
  | Some r => JObj (field "github" (github_json <$> rr_github r) ++ field "http" (http_json <$> rr_http r))
  end.

Definition trigger_json (m : Matched) : json :=
  JObj [("name", JStr (m_trigger m)); ("sessionId", JStr (m_sessionId m)); ("reply", reply_field (m_reply m))].

Section Invoke.
Context {W : Type}.
Variable sha256_hex : string -> string.
Variable JSON_parse : string -> option json.
Variable sender_of : option string -> option (option json) -> option string.
Variable randomUUID : SM W string string.
Variable invocations : InvocationStore W.
(** [eventTriggerRegistry.select] *)
Variable select_trigger : option (Envelope -> option string -> SelectResult).
Variable callerToolStore : option (CallerToolStore W).
Variable callerToolTopK : nat.
Variable draining : bool.

(** What the request becomes: the text and the session of the turn, and its
    trigger; or a reply at once. *)
Definition select_turn (body : InvokeBody) : (string * option string * option Matched) + HttpReply :=
  match ib_envelope body with
  | None => inl (ib_request body, ib_sessionId body, None)
  | Some envelope =>
      match (match select_trigger with
             | Some select => select envelope (ib_sessionId body)
             | None => Ignored
             end) with
      | Ignored => inr (reply_json 200 (JObj [("status", JStr "ignored")]))
      | Failed trigger error =>
          inr (reply_json 422 (JObj [("status", JStr "failed"); ("error", JStr ("event trigger " +:+ trigger +:+ ": " +:+ error))]))
      | Selected m => inl (trigger_request m, Some (m_sessionId m), Some m)
      end
  end.

(** The repository of the event, for the engine. *)
Definition target_repository (body : InvokeBody) : option string :=
  ib_envelope body ≫= fun envelope => if str_empty (env_repository envelope) then None else Some (env_repository envelope).

Definition shutting_down : HttpReply :=
  mkReply 503 [("content-type", "application/json"); ("retry-after", "1")] (Some (error_json "orchestrator is shutting down; retry")).

Definition accepted_reply (id : string) (m : option Matched) : HttpReply :=
  mkReply 202 [("content-type", "application/json"); ("location", "/invoke/" +:+ id)]
    (Some (JObj ([("id", JStr id); ("status", JStr "pending")] ++ field "trigger" (trigger_json <$> m)))).

(** The reply, and the turn that was accepted, which is then run. *)
Definition handleInvoke (req : HttpRequest) : SM W string (HttpReply * option Accepted) :=
  match parse_invoke JSON_parse sender_of (hq_body req) (headerValue (hq_senderAssertion req)) with
  | Err error => sret (reply_json 400 (error_json error), None)
  | Ok body =>
      match select_turn body with
      | inr reply => sret (reply, None)
      | inl (request, sessionId, m) =>
          do! callerTools <- resolveCallerToolTurn sha256_hex callerToolStore callerToolTopK request (ib_tools body) (ib_toolChoice body) [] ;;
          match callerTools with
          | Err error => sret (reply_json 400 (error_json error), None)
          | Ok turn =>
              if draining then sret (shutting_down, None)
              else
                do! id <- randomUUID ;;
                do! _ <- is_set invocations id (new_record id) ;;
                sret (accepted_reply id m,
                      Some (mkAccepted id request (bearerToken (hq_authorization req)) sessionId (ib_identityLinkFlow body)
                              (ib_senderLogin body) turn (trigger_turn <$> m) (target_repository body)))
          end
      end
  end.

Definition handleGetInvocation (id : string) : SM W string HttpReply :=
  do! record <- is_get invocations id ;;
  sret (match record with
        | None => reply_empty 404
        | Some r => reply_json 200 (record_json r)
        end).
End Invoke.

(** ** The routes to a live run *)

Record OpencodeProxyResult := mkOpencodeResult {
  op_status : Z;
  op_body : option json
}.

(** The two optional methods of the channel; a request's deadline is optional. *)
Record LiveChannel (W : Type) := mkLiveChannel {
  lv_forward : option (string -> string -> string -> option json -> option Z -> SM W string OpencodeProxyResult);
  lv_subscribes : bool
}.
Arguments mkLiveChannel {W}.
Arguments lv_forward {W} l.
Arguments lv_subscribes {W} l.

(** What a route answers: a reply, a stream that was sent, or a subscription to
    a run whose messages are sent as they come. *)
Inductive ServerReply :=
| sr_reply (r : HttpReply)
| sr_streamed
| sr_live (runId : string).

(** What a message of the run writes, and whether it ends the response. *)
Definition live_message (m : UpBody) : option (string * bool) :=
  match m with
  | OpencodeEvent event => Some ("data: " +:+ JSON_text (event ?? JNull) +:+ nl_s +:+ nl_s, false)
  | SessionEnded reason =>
      Some ("event: session_ended" +:+ nl_s +:+ "data: " +:+ JSON_text (JObj [("reason", JStr reason)]) +:+ nl_s +:+ nl_s, true)
  | _ => None
  end.

Section Live.
Context {W : Type}.
Variable JSON_parse : string -> option json.
Variable sessionStore : option (SessionStore W).
Variable agentChannel : option (LiveChannel W).

(** [url.searchParams.get] *)
Definition query_param (k : string) (req : HttpRequest) : option string := own_get k (hq_query req).

Definition not_live : HttpReply := reply_json 200 (JObj [("live", JBool false)]).

Definition handleSessionLive (req : HttpRequest) : SM W string ServerReply :=
  match agentChannel ≫= lv_forward, sessionStore with
  | Some forward, Some store =>
      if str_empty (bearerToken (hq_authorization req)) then sret (sr_reply (reply_empty 401))
      else
        let sessionId := query_param "sessionId" req in
        if negb (truthy_str sessionId) then sret (sr_reply (reply_json 400 (error_json "sessionId query param is required")))
        else
          do! record <- st_get store (sessionId ?? EmptyString) ;;
          let agentRunId := record ≫= ss_lastAgentRunId in
          if negb (truthy_str agentRunId) then sret (sr_reply not_live)
          else
            scatch
              (do! probe <- forward (agentRunId ?? EmptyString) "GET" "/global/health" None (Some 2000) ;;
               sret (sr_reply (if (200 <=? op_status probe) && (op_status probe <? 300)
                               then reply_json 200 (JObj [("live", JBool true); ("agentRunId", JStr (agentRunId ?? EmptyString))])
                               else not_live)))
              (fun _ => sret (sr_reply not_live))
  | _, _ => sret (sr_reply (reply_empty 404))
  end.

(** The check of the two routes below: the run is the session's own last one. *)
Definition own_run (store : SessionStore W) (req : HttpRequest) (runId : string) : SM W string bool :=
  let sessionId := query_param "sessionId" req in
  if negb (truthy_str sessionId) then sret false
  else
    do! record <- st_get store (sessionId ?? EmptyString) ;;
    sret (bool_decide (record ≫= ss_lastAgentRunId = Some runId)).

Definition handleAgentRunEvents (req : HttpRequest) (runId : string) : SM W string ServerReply :=
  match agentChannel, sessionStore with
  | Some channel, Some store =>
      if negb (lv_subscribes channel) then sret (sr_reply (reply_empty 404))
      else if str_empty (bearerToken (hq_authorization req)) then sret (sr_reply (reply_empty 401))
      else
        do! own <- own_run store req runId ;;
        sret (if (own : bool) then sr_live runId else sr_reply (reply_empty 404))
  | _, _ => sret (sr_reply (reply_empty 404))
  end.

Definition opencode_json (r : OpencodeProxyResult) : json := JObj (("status", num (op_status r)) :: field "body" (op_body r)).

Definition OPENCODE_FIELDS : string := qq +:+ "method" +:+ qq +:+ " and " +:+ qq +:+ "path" +:+ qq +:+ " are required strings".

Definition handleAgentRunOpencode (req : HttpRequest) (runId : string) : SM W string ServerReply :=
  match agentChannel ≫= lv_forward, sessionStore with
  | Some forward, Some store =>
      if str_empty (bearerToken (hq_authorization req)) then sret (sr_reply (reply_empty 401))
      else
        do! own <- own_run store req runId ;;
        if negb own then sret (sr_reply (reply_empty 404))
        else
          match (if str_empty (hq_body req) then Some (JObj []) else JSON_parse (hq_body req)) with
          | None => sret (sr_reply (reply_json 400 (error_json "body must be JSON")))
          | Some body =>
              do! method <- (fun w => (body_field body "method", w)) ;;
              do! path <- (fun w => (body_field body "path", w)) ;;
              match method, path with
              | Some (JStr m), Some (JStr p) =>
                  do! payload <- (fun w => (body_field body "body", w)) ;;
                  scatch
                    (do! result <- forward runId m p payload None ;; sret (sr_reply (reply_json 200 (opencode_json result))))
                    (fun message => sret (sr_reply (reply_json 502 (error_json message))))
              | _, _ => sret (sr_reply (reply_json 400 (error_json OPENCODE_FIELDS)))
              end
          end
  | _, _ => sret (sr_reply (reply_empty 404))
  end.
End Live.

(** ** The dispatch of a request *)

(** [/^<before>([^/]+)<after>$/] of a path. *)
Definition segment (before after path : string) : option string :=
  if startsWith before path then
    let rest := str_drop (slen before) path in
    if endsWith after rest then
      let name := str_take (slen rest - slen after) rest in
      if str_empty name || includes_char "/"%char name then None else Some name
    else None
  else None.

Inductive Route :=
| route_invoke
| route_invocation (id : string)
| route_models
| route_completions
| route_session_live
| route_run_events (runId : string)
| route_run_opencode (runId : string)
| route_none.

Definition is_method (m : string) (req : HttpRequest) : bool := bool_decide (hq_method req = m).
Definition is_path (p : string) (req : HttpRequest) : bool := bool_decide (hq_pathname req = p).

Definition route_of (req : HttpRequest) : Route :=
  if is_method "POST" req && is_path "/invoke" req then route_invoke
  else match (if is_method "GET" req then segment "/invoke/" EmptyString (hq_pathname req) else None) with
  | Some id => route_invocation id
  | None =>
      if is_method "GET" req && is_path "/v1/models" req then route_models
      else if is_method "POST" req && is_path "/v1/chat/completions" req then route_completions
      else if is_method "GET" req && is_path "/sessions/live" req then route_session_live
      else match (if is_method "GET" req then segment "/agent-runs/" "/events" (hq_pathname req) else None) with
      | Some runId => route_run_events runId
      | None =>
          match (if is_method "POST" req then segment "/agent-runs/" "/opencode" (hq_pathname req) else None) with
          | Some runId => route_run_opencode runId
          | None => route_none
          end
      end
  end.

Section Server.
Context {W : Type}.
Variable sha256_hex : string -> string.
Variable JSON_parse : string -> option json.
Variable sender_of : option string -> option (option json) -> option string.
Variable randomUUID : SM W string string.
Variable created : Z.
Variable chatCompletionId : SM W string string.
Variable invocations : InvocationStore W.
Variable sessionStore : option (SessionStore W).
Variable select_trigger : option (Envelope -> option string -> SelectResult).
Variable agentChannel : option (LiveChannel W).
Variable callerToolStore : option (CallerToolStore W).
Variable callerToolTopK : nat.
Variable defaultIdentityLinkFlow : LinkFlow.
Variable approval_of : json -> option ApprovalPending.
Variable approval_json : ApprovalPending -> json.
Variable graph : AgentGraphLike (W := W).
Variable taskCompleter : option (option json -> string -> SM W string string).
Variable emit : Listener W.
Variable draining : bool.

(** The reply of a request, and the turn it started. A handler that throws is
    answered with 500 by [listen]. *)
Definition handleRequest (req : HttpRequest) : SM (W * Sse) string (ServerReply * option Accepted) :=
  let plain r := (sr_reply r, None) in
  match route_of req with
  | route_invoke =>
      on_world (do! r <- handleInvoke sha256_hex JSON_parse sender_of randomUUID invocations select_trigger callerToolStore callerToolTopK
                           draining req ;;
                sret (sr_reply r.1, r.2))
  | route_invocation id => on_world (do! r <- handleGetInvocation invocations id ;; sret (plain r))
  | route_models => sret (plain (reply_json 200 (listModelsResponse created)))
  | route_completions =>
      do! r <- handleChatCompletions sha256_hex JSON_parse created chatCompletionId sessionStore defaultIdentityLinkFlow approval_of
                 approval_json graph taskCompleter callerToolStore callerToolTopK emit req ;;
      sret (match r with
            | Some reply => plain reply
            | None => (sr_streamed, None)
            end)
  | route_session_live => on_world (do! r <- handleSessionLive sessionStore agentChannel req ;; sret (r, None))
  | route_run_events runId => on_world (do! r <- handleAgentRunEvents sessionStore agentChannel req runId ;; sret (r, None))
  | route_run_opencode runId =>
      on_world (do! r <- handleAgentRunOpencode JSON_parse sessionStore agentChannel req runId ;; sret (r, None))
  | route_none => sret (plain (reply_empty 404))
  end.

Definition serve (req : HttpRequest) : SM (W * Sse) string (ServerReply * option Accepted) :=
  scatch (handleRequest req) (fun _ => sret (sr_reply (reply_empty 500), None)).
End Server.

(** ** The end of an accepted turn *)

Section Ends.
Context {W : Type}.
Variable invocations : InvocationStore W.
Variable sessionStore : option (SessionStore W).
Variable defaultIdentityLinkFlow : LinkFlow.
Variable approval_of : json -> option ApprovalPending.
Variable approval_json : ApprovalPending -> json.
Variable graph_invoke : TurnInput (Loop W) -> TurnStart -> option string -> SM (Loop W) string AgentState.
Variable unhandled : string -> W -> W.

#[local] Notation run := (run_invocation invocations sessionStore defaultIdentityLinkFlow approval_of approval_json graph_invoke unhandled).

(** [s] is the process just after the write of a terminal record of the turn
    was tried, with what came of it. *)
Definition ended_with (id : string) (terminal : InvocationRecord) (stored : result string unit) (s : Loop W) : Prop :=
  iv_id terminal = id /\ is_pending terminal = false /\ exists w, is_set invocations id terminal w = (stored, lp_world s).

(** What the turn came to: the state its graph returned, or what was thrown. *)
Definition of_state (a : Accepted) (terminal : InvocationRecord) : Prop :=
  exists inp st s1 s2 state, graph_invoke inp st (acc_targetRepository a) s1 = (Ok state, s2) /\
    iv_status terminal = (if truthy_str (s_error state) then failed else succeeded) /\ iv_result terminal = s_result state /\
    iv_error terminal = s_error state /\ iv_pendingToolCalls terminal = s_pendingToolCalls state.

Definition threw {A : Type} (m : SM (Loop W) string A) (e : string) : Prop := exists s1 s2, m s1 = (Err e, s2).

Definition of_throw (a : Accepted) (terminal : InvocationRecord) : Prop :=
  exists e, iv_status terminal = failed /\ iv_result terminal = None /\ iv_error terminal = Some e /\
    (threw (buildGraphInput (awaited_sessions invocations sessionStore unhandled (acc_id a)) defaultIdentityLinkFlow approval_of
              (invoke_request invocations unhandled a)) e \/
     (exists readOnly, threw (record_mode invocations sessionStore unhandled a readOnly) e) \/
     (exists inp st, threw (graph_invoke inp st (acc_targetRepository a)) e) \/
     (exists identity outcome, threw (persistSession (awaited_sessions invocations sessionStore unhandled (acc_id a)) (acc_sessionId a)
                                        identity outcome) e) \/
     threw (current_url invocations unhandled (acc_id a)) e).

(** [m] returns, and its last act is such a write of a record in [Q]. *)
Definition settles (Q : InvocationRecord -> Prop) (id : string) (m : SM (Loop W) string unit) : Prop :=
  forall s, (m s).1 = Ok tt /\ exists terminal stored, ended_with id terminal stored (m s).2 /\ Q terminal.

Lemma persist_settles (Q : InvocationRecord -> Prop) id r :
  iv_id r = id -> is_pending r = false -> Q r -> settles Q id (persistTerminalInvocation invocations unhandled id r).
Proof.
  intros Hid Hr HQ s. unfold persistTerminalInvocation, awaiting, scatch.
  destruct (is_set invocations id r (lp_world (background invocations unhandled id s))) as [stored w] eqn:E.
  destruct stored as [[]|e]; (split; [done|]); exists r; eexists; (split; [split_and!; [done|done|]|exact HQ]); eexists; exact E.
Qed.

Lemma terminal_not_pending id state url : is_pending (terminal_record id state url) = false.
Proof. unfold is_pending, terminal_record. cbn. by destruct (truthy_str _). Qed.

#[local] Notation turn_end a := (fun terminal => of_state a terminal \/ of_throw a terminal).

(** The graph's call and what follows it, from a body that throws what one of
    its calls threw. *)
Lemma body_ends (a : Accepted) reporting st readOnly s :
  let body :=
    do! state <- graph_invoke reporting st (acc_targetRepository a) ;;
    do! _ <- persistSession (awaited_sessions invocations sessionStore unhandled (acc_id a)) (acc_sessionId a) (s_identity state)
               (invoke_outcome (outcome_of approval_json readOnly state)) ;;
    do! url <- current_url invocations unhandled (acc_id a) ;;
    persistTerminalInvocation invocations unhandled (acc_id a) (terminal_record (acc_id a) state url) in
  match body s with
  | (Ok _, s') => exists terminal stored, ended_with (acc_id a) terminal stored s' /\ turn_end a terminal
  | (Err e, _) => forall url, of_throw a (failed_record (acc_id a) e url)
  end.
Proof.
  cbn zeta. unfold sbind at 1. destruct (graph_invoke reporting st (acc_targetRepository a) s) as [[state|e] s1] eqn:Eg.
  2:{ intros url. exists e. split_and!; try done. do 2 right. left. by exists reporting, st, s, s1. }
  unfold sbind at 1. destruct (persistSession _ _ _ _ s1) as [[[]|e] s2] eqn:Ep.
  2:{ intros url. exists e. split_and!; try done. do 3 right. left. by eexists _, _, s1, s2. }
  unfold sbind at 1. destruct (current_url _ _ _ s2) as [[url|e] s3] eqn:Eu.
  2:{ intros url. exists e. split_and!; try done. do 4 right. by exists s2, s3. }
  destruct (persist_settles (turn_end a) (acc_id a) (terminal_record (acc_id a) state url) eq_refl (terminal_not_pending _ _ _)
    ltac:(left; by exists reporting, st, s, s1, state) s3) as [Hr Ht].
  by destruct (persistTerminalInvocation _ _ _ _ s3) as [[[]|] s4].
Qed.

(** A handler's write settles the run that ends in it. *)
Lemma persist_ends (Q : InvocationRecord -> Prop) id r s x :
  iv_id r = id -> is_pending r = false -> Q r -> persistTerminalInvocation invocations unhandled id r s = x ->
  x.1 = Ok tt /\ exists terminal stored, ended_with id terminal stored x.2 /\ Q terminal.
Proof. intros Hid Hr HQ <-. by apply persist_settles. Qed.

Lemma run_settles (a : Accepted) : settles (turn_end a) (acc_id a) (run a).
Proof.
  intros s. destruct (run a s) as [r s'] eqn:Hrun. revert Hrun. unfold run_invocation. unfold scatch at 1. unfold sbind at 1.
  destruct (buildGraphInput _ _ _ _ s) as [[input|e] s1] eqn:Eb.
  2:{ apply persist_ends; [done..|]. right. exists e. split_and!; try done. left. by exists s, s1. }
  unfold sbind at 1. destruct (record_mode _ _ _ _ _ s1) as [[[]|e] s2] eqn:Em.
  2:{ apply persist_ends; [done..|]. right. exists e. split_and!; try done. right. left. by eexists _, s1, s2. }
  pose proof (body_ends a (with_report (fun provider subject => report invocations unhandled (acc_id a) (with_link provider subject)) input.1)
    input.2 (in_turnReadOnly input.1) s2) as Hbody. cbn zeta in Hbody. unfold scatch at 1.
  destruct (sbind _ _ s2) as [[[]|e] s3] eqn:E; [intros [= <- <-]; by split|].
  unfold sbind at 1. destruct (current_url _ _ _ s3) as [[url|e'] s4] eqn:Eu.
  - pose proof (persist_settles (turn_end a) (acc_id a) (failed_record (acc_id a) e url) eq_refl eq_refl (or_intror (Hbody url)) s4) as [Hr Ht].
    destruct (persistTerminalInvocation _ _ _ _ s4) as [[[]|] s5]; [|done]. intros [= <- <-]. by split.
  - apply persist_ends; [done..|]. right. exists e'. split_and!; try done. do 4 right. by exists s3, s4.
Qed.

(** What a caller polls. *)
Variable view : W -> string -> option InvocationRecord.

(** A read finds what a caller polls, or misses, and changes nothing of it; it
    is never refused. *)
Definition reads_view : Prop := forall id w, exists r w',
  is_get invocations id w = (Ok r, w') /\ view w' id = view w id /\ forall record, r = Some record -> view w id = Some record.

(** With a terminal record in its place and no write under way, a report can
    only read it and give up. *)
Lemma terminal_stays id terminal steps s :
  reads_view -> is_pending terminal = false -> (forall r, writing r ∉ lp_reports s) -> view (lp_world s) id = Some terminal ->
  view (lp_world (foldl (step_report invocations unhandled id) s steps)) id = Some terminal.
Proof.
  intros Hget Ht. revert s. induction steps as [|i steps IH]; intros s Hno Hv; [done|]. cbn [foldl].
  apply IH; unfold step_report; destruct (lp_reports s !! i) as [[news|r]|] eqn:Ei; try done;
    try (by apply list_elem_of_lookup_2, Hno in Ei);
    destruct (Hget id (lp_world s)) as (found & w' & -> & Hsame & Hfound).
  - assert (forall r, writing r ∉ delete i (lp_reports s)) as Hrest.
    { intros r Hin. apply (Hno r). eapply elem_of_submseteq; [exact Hin|]. apply sublist_submseteq, sublist_delete. }
    destruct found as [record|]; [|done]. assert (record = terminal) as -> by (specialize (Hfound record eq_refl); congruence).
    by rewrite Ht.
  - destruct found as [record|]; [|by rewrite <- Hv, <- Hsame]. destruct (is_pending record); by rewrite <- Hv, <- Hsame.
Qed.
End Ends.

(** ** What the body of a request is read as *)

Lemma parse_invoke_body JSON_parse sender_of rawBody assertion body :
  parse_invoke JSON_parse sender_of rawBody assertion = Ok body ->
  exists fields, (if str_empty rawBody then fields = [] else JSON_parse rawBody = Some (JObj fields)) /\
    match jget "event" fields with
    | Some event => exists envelope, parseEnvelope event = Ok envelope /\ ib_envelope body = Some envelope /\
        ib_sessionId body = spoken_text (jget "session_id" fields) /\
        ib_senderLogin body = sender_of assertion (Some (jget "login" (env_sender envelope)))
    | None => exists text, jget "request" fields = Some (JStr text) /\ trim text <> EmptyString /\ ib_envelope body = None /\
        ib_request body = text /\ ib_sessionId body = spoken_text (jget "session_id" fields) /\ ib_senderLogin body = sender_of assertion None
    end.
Proof.
  unfold parse_invoke.
  destruct (if str_empty rawBody then Some (JObj []) else JSON_parse rawBody) as [[| | | | |fields]|] eqn:Ej; try done.
  intros (envelope & He & H)%result_bind_Ok. exists fields. split.
  { destruct (str_empty rawBody); [by injection Ej as <-|done]. }
  unfold parse_event in He. destruct (jget "event" fields) as [event|].
  - apply result_bind_Ok in He as (e & He & [= <-]). injection H as <-. by exists e.
  - injection He as <-. unfold spoken_text in H. destruct (jget "request" fields) as [[| | |text| |]|] eqn:Er; try done.
    destruct (str_empty (trim text)) eqn:Et; [done|]. injection H as <-. exists text. split_and!; try done.
    intros Hn. by rewrite Hn in Et.
Qed.

(** ** Properties *)

(** C38: an accepted turn always ends, whatever the session store and the graph
    do and however the reports that nobody awaits interleave with it: the chain
    that nobody awaits is never rejected, and the last thing it does is to write
    a terminal record under the turn's id: the result, the error and the calls of
    the state that the graph returned, failed if there is an error; or failed
    with what the graph, the session store or the store of records threw. If the
    store takes that write, the
    caller polls that record; and it stays, whatever reports are still under
    way, unless one of them read the record before the end and has yet to write
    it back (which [late_report_reopens] shows to happen). All of this as long
    as the process lives: a report whose own write is refused is an unhandled
    rejection. *)
Theorem accepted_turn_ends {W : Type} (invocations : InvocationStore W) (sessionStore : option (SessionStore W)) (flow : LinkFlow)
    (approval_of : json -> option ApprovalPending) (approval_json : ApprovalPending -> json)
    (graph_invoke : TurnInput (Loop W) -> TurnStart -> option string -> SM (Loop W) string AgentState) (unhandled : string -> W -> W)
    (view : W -> string -> option InvocationRecord) (a : Accepted) (s : Loop W) :
  (forall id r w w', is_set invocations id r w = (Ok tt, w') -> view w' id = Some r) -> reads_view invocations view ->
  let '(r, s') := run_invocation invocations sessionStore flow approval_of approval_json graph_invoke unhandled a s in
  r = Ok tt /\
  exists terminal stored, ended_with invocations (acc_id a) terminal stored s' /\
    (of_state graph_invoke a terminal \/
     of_throw invocations sessionStore flow approval_of graph_invoke unhandled a terminal) /\
    (stored = Ok tt ->
     view (lp_world s') (acc_id a) = Some terminal /\
     ((forall record, writing record ∉ lp_reports s') ->
      forall steps, view (lp_world (foldl (step_report invocations unhandled (acc_id a)) s' steps)) (acc_id a) = Some terminal)).
Proof.
  intros Hset Hget. destruct (run_settles invocations sessionStore flow approval_of approval_json graph_invoke unhandled a s)
    as [H1 (terminal & stored & Hend & Hof)].
  destruct (run_invocation _ _ _ _ _ _ _ a s) as [r s']. split; [exact H1|]. exists terminal, stored. split; [exact Hend|].
  split; [exact Hof|].
  intros ->. destruct Hend as (_ & Ht & w & Hw). pose proof (Hset _ _ _ _ Hw) as Hv. split; [exact Hv|].
  intros Hno steps. by apply (terminal_stays invocations unhandled view).
Qed.

(** A turn whose graph reports the address of its run and then fails. *)
Definition reporting_graph {W : Type} (url : string) (inp : TurnInput (Loop W)) (st : TurnStart) (repository : option string) :
    SM (Loop W) string AgentState :=
  match in_remoteControlUrlListener inp with
  | Some tell => do! _ <- tell url ;; sthrow "the run failed"
  | None => sthrow "the run failed"
  end.

Definition plain_turn : Accepted := mkAccepted "i-1" "hello" "token" None None None (mkCallerToolTurn [] false []) None None.

(** The chain over the store in memory, from the record that was accepted. *)
Definition reported_turn (url : string) (order : list (list nat)) : result string unit * Loop (jsmap InvocationRecord) :=
  run_invocation InMemoryInvocationStore None flow_authcode (fun _ => None) (fun _ => JNull) (reporting_graph url) (fun _ w => w)
    plain_turn (mkLoop [("i-1", new_record "i-1")] [] order).

(** A report that read the record before the turn ended may write it back
    after: when the chain has ended the record is terminal, and one step later
    it is pending again, for good, for a caller that polls it. *)
Theorem late_report_reopens (url : string) :
  let '(r, s) := reported_turn url [[0%nat]] in
  r = Ok tt /\ map_get "i-1" (lp_world s) = Some (failed_record "i-1" "the run failed" None) /\
  let s' := step_report InMemoryInvocationStore (fun _ w => w) "i-1" s 0 in
  lp_reports s' = [] /\ map_get "i-1" (lp_world s') = Some (with_url url (new_record "i-1")).
Proof. by vm_compute. Qed.


(** A live run is reached only through its own session: unless the record of
    the session that the request names has this run as its last one, the
    request is refused and the channel is not used. *)
Theorem live_run_is_the_sessions {W : Type} (JSON_parse : string -> option json) (store : SessionStore W) (channel : LiveChannel W)
    (req : HttpRequest) (runId : string) (w : W) (own : bool) (w1 : W) :
  own_run store req runId w = (Ok own, w1) ->
  (own = true <-> exists sessionId record, query_param "sessionId" req = Some sessionId /\ sessionId <> EmptyString /\
                    st_get store sessionId w = (Ok record, w1) /\ record ≫= ss_lastAgentRunId = Some runId) /\
  (own = false ->
   (exists r w2, handleAgentRunEvents (Some store) (Some channel) req runId w = (Ok (sr_reply r), w2) /\ w2 ∈ [w; w1] /\ hr_status r ∈ [401; 404]) /\
   exists r w2, handleAgentRunOpencode JSON_parse (Some store) (Some channel) req runId w = (Ok (sr_reply r), w2) /\ w2 ∈ [w; w1] /\
     hr_status r ∈ [401; 404]).
Proof.
  intros Hown. split.
  - unfold own_run in Hown. destruct (query_param "sessionId" req) as [sid|]; [|injection Hown as <- <-; split; [done|by intros (? & ? & ? & _)]].
    cbn in Hown. destruct (str_empty sid) eqn:Hs; cbn in Hown.
    { apply str_empty_true in Hs as ->. injection Hown as <- <-. split; [done|]. by intros (? & ? & [= <-] & ? & _). }
    apply sbind_Ok in Hown as (record & w2 & Hget & H). injection H as <- <-. rewrite bool_decide_eq_true. split.
    + intros Hr. exists sid, record. split_and!; [done|by intros ->|done|done].
    + intros (sid' & record' & [= <-] & _ & Hget' & Hr). by rewrite Hget in Hget'; simplify_eq.
  - intros ->. unfold handleAgentRunEvents, handleAgentRunOpencode. cbn [mbind option_bind]. split.
    + destruct (negb (lv_subscribes channel)); [eexists _, w; split_and!; [done|set_solver..]|].
      destruct (str_empty _); [eexists _, w; split_and!; [done|set_solver..]|].
      unfold sbind. rewrite Hown. eexists _, w1. split_and!; [done|set_solver..].
    + destruct (lv_forward channel); [|eexists _, w; split_and!; [done|set_solver..]].
      destruct (str_empty _); [eexists _, w; split_and!; [done|set_solver..]|].
      unfold sbind. rewrite Hown. eexists _, w1. split_and!; [done|set_solver..].
Qed.

(** The same request with another token. *)
Definition with_token (token : string) (req : HttpRequest) : HttpRequest :=
  mkHttpRequest (hq_method req) (hq_pathname req) (hq_query req) (Some ("Bearer " +:+ token)) (hq_chatId req) (hq_forwardedUserJwt req)
    (hq_senderAssertion req) (hq_body req).

Lemma split_char_whole c s : includes_char c s = false -> split_char c s = [s].
Proof.
  intros H%includes_char_false. induction s as [|d s IH]; [done|]. cbn in H |- *. apply andb_true_iff in H as [Hd%negb_true_iff Hs].
  by rewrite Hd, (IH Hs).
Qed.

Lemma bearer_of_token token :
  token <> EmptyString -> includes_char " "%char token = false -> bearerToken (Some ("Bearer " +:+ token)) = token.
Proof.
  intros Hne Hs. unfold bearerToken. change ("Bearer " +:+ token) with ("Bearer" +:+ String " "%char token).
  assert (split_char " "%char ("Bearer" +:+ String " "%char token) = ["Bearer"; token]) as ->; [|done].
  cbn. by rewrite split_char_whole.
Qed.

(** The routes to a live run ask for a token, and take any: what they do does
    not depend on it, so who knows a session's id and its run's may watch the
    run and send requests into it. *)
Theorem live_routes_take_any_token {W : Type} (JSON_parse : string -> option json) (sessionStore : option (SessionStore W))
    (agentChannel : option (LiveChannel W)) (req : HttpRequest) (runId t1 t2 : string) (w : W) :
  t1 <> EmptyString -> t2 <> EmptyString -> includes_char " "%char t1 = false -> includes_char " "%char t2 = false ->
  handleAgentRunOpencode JSON_parse sessionStore agentChannel (with_token t1 req) runId w =
    handleAgentRunOpencode JSON_parse sessionStore agentChannel (with_token t2 req) runId w /\
  handleAgentRunEvents sessionStore agentChannel (with_token t1 req) runId w =
    handleAgentRunEvents sessionStore agentChannel (with_token t2 req) runId w.
Proof.
  intros H1 H2 S1 S2. unfold handleAgentRunOpencode, handleAgentRunEvents. cbn [hq_authorization with_token].
  rewrite !bearer_of_token by done. assert (str_empty t1 = false /\ str_empty t2 = false) as [-> ->] by (by destruct t1, t2). done.
Qed.

(** ** Samples *)

(** A report that is read only after the end leaves the record as it is. *)
Lemma accepted_turn_ends_witness :
  let '(r, s) := reported_turn "https://claude.ai/code/session_1" [] in
  r = Ok tt /\ exists terminal, iv_id terminal = "i-1" /\ is_pending terminal = false /\
  forall steps, map_get "i-1" (lp_world (foldl (step_report InMemoryInvocationStore (fun _ w => w) "i-1") s steps)) = Some terminal.
Proof.
  pose proof (accepted_turn_ends InMemoryInvocationStore None flow_authcode (fun _ => None) (fun _ => JNull)
    (reporting_graph "https://claude.ai/code/session_1") (fun _ w => w) (fun w id => map_get id w) plain_turn
    (mkLoop [("i-1", new_record "i-1")] [] [])
    ltac:(intros id r w w' H; injection H as <-; apply map_get_set_eq)
    ltac:(intros id w; exists (map_get id w), w; split_and!; [reflexivity|reflexivity|by intros record Hr])) as H.
  fold (reported_turn "https://claude.ai/code/session_1" []) in H. destruct (reported_turn _ _) as [r s] eqn:E.
  destruct H as (Hr & terminal & stored & (Hid & Ht & w & Hw) & _ & Hstays). split; [exact Hr|]. exists terminal.
  split; [exact Hid|]. split; [exact Ht|]. apply Hstays; [by injection Hw as <- _|].
  intros record Hin. vm_compute in E. injection E as _ <-. cbn in Hin. apply list_elem_of_singleton in Hin. discriminate Hin.
Defined.

(** The registry of TriggerRegistry.v, with its trigger checked. *)
Definition sample_select (envelope : Envelope) (session : option string) : SelectResult :=
  match select lookup_run (listAll (fun s => Ok ("bool", s)) [sample_cr 1 1]) envelope session with
  | Ok r => r
  | Err _ => Ignored
  end.

Definition post (path body : string) : HttpRequest := mkHttpRequest "POST" path [("sessionId", "s1")] (Some "Bearer t") [] [] [] body.

Definition sample_invoke : result string (HttpReply * option Accepted) * jsmap InvocationRecord :=
  handleInvoke (fun s => s) (fun _ => Some (JObj [("event", envelope_json sample_envelope); ("request", JStr "drop the tables")]))
    (fun _ _ => None) (sret "i-1") InMemoryInvocationStore (Some sample_select) None 5 false (post "/invoke" "{..}") [].


Definition run_store : SessionStore unit :=
  mkSessionStore (fun _ => sret (Some (mkSession "alice" None None None None None (Some "run-1") None None None None None None)))
    (fun _ _ => sret tt) None.
Definition run_channel : LiveChannel unit := mkLiveChannel (Some (fun _ _ _ _ _ => sret (mkOpencodeResult 200 None))) true.

Lemma live_run_is_the_sessions_witness :
  exists r w2, handleAgentRunOpencode (fun _ => None) (Some run_store) (Some run_channel) (post "/agent-runs/run-2/opencode" EmptyString)
    "run-2" tt = (Ok (sr_reply r), w2) /\ hr_status r ∈ [401; 404].
Proof.
  destruct (proj2 (proj2 (live_run_is_the_sessions (fun _ => None) run_store run_channel (post "/agent-runs/run-2/opencode" EmptyString)
    "run-2" tt false tt eq_refl) eq_refl)) as (r & w2 & H1 & _ & H2).
  exists r, w2. split; [exact H1|exact H2].
Defined.

Lemma live_routes_take_any_token_witness :
  handleAgentRunEvents (Some run_store) (Some run_channel) (with_token "stranger" (post "/agent-runs/run-1/events" EmptyString)) "run-1" tt =
  (Ok (sr_live "run-1"), tt).
Proof.
  destruct (live_routes_take_any_token (fun _ => None) (Some run_store) (Some run_channel) (post "/agent-runs/run-1/events" EmptyString)
    "run-1" "stranger" "alice" tt ltac:(discriminate) ltac:(discriminate) eq_refl eq_refl) as [_ ->]. vm_compute. reflexivity.
Defined.
