(* ===== verification/RecordStore.v ===== *)
(** * Integration gateway: credentials in Secrets

    The record store that every credential of the gateway is kept in
    (apps/integration-gateway/src/credential-store/secret-record-store.ts), the
    encryption of its fields (field-encryption.ts), the store of identity links
    over it (identity-link/k8s-secret-store.ts, store.ts), and the directory of
    principals (connections/principal-directory.ts).

    The API of Secrets is that of one namespace. The data of a Secret is a list
    of fields; the values travel in base64. The wait for a record is a step
    function over the events that it reacts to. *)

From stdpp Require Import base gmap strings list.
From Stdlib Require Import ZArith Lia Ascii Bool.
From S2P Require Import Prelude JsString JsNumber Json JsMap JsList Rbac.

#[local] Open Scope Z_scope.

(** ** Errors of the API *)

(** What is looked at in a value that was thrown: its status in any of the
    places where the client has had it, and its message if it is an [Error]. *)
Record ApiError := mkApiError {
  ae_code : option json;
  ae_statusCode : option json;
  ae_responseStatus : option json;
  ae_message : option string
}.

(** [new Error(message)] *)
Definition plain_error (message : string) : ApiError := mkApiError None None None (Some message).

Definition has_status (status : Z) (v : option json) : bool :=
  match v with
  | Some (JNum x) => num_eqb x (num_of_Z status)
  | _ => false
  end.

(** [\w] *)
Definition word_char (c : ascii) : bool := is_alnum c || Ascii.eqb "_"%char c.

Definition starts_with_word (s : string) : bool :=
  match s with
  | String c _ => word_char c
  | EmptyString => false
  end.

(** [/\bw\b/.test(s)] for a word [w], after a character that is one of a word or
    is not. *)
Fixpoint contains_word (w : string) (in_word : bool) (s : string) : bool :=
  (negb in_word && startsWith w s && negb (starts_with_word (str_drop (slen w) s))) ||
  match s with
  | EmptyString => false
  | String c s' => contains_word w (word_char c) s'
  end.

Definition error_matches (status : Z) (word phrase : string) (err : ApiError) : bool :=
  has_status status (ae_code err) || has_status status (ae_statusCode err) || has_status status (ae_responseStatus err) ||
  match ae_message err with
  | Some message => contains_word word false message || str_includes phrase (toLowerCase message)
  | None => false
  end.

Definition isNotFoundError : ApiError -> bool := error_matches 404 "404" "not found".
Definition isConflictError : ApiError -> bool := error_matches 409 "409" "already exists".

(** ** Names and labels *)

Definition RECORD_KEY_FIELD : string := "_recordKey".

Definition sanitizeLabelValue (raw : string) : string :=
  let cleaned := drop_while (fun c => negb (is_alnum c)) (str_map (fun c => if is_alnum c || char_in "._-" c then c else "-"%char) raw) in
  let value := drop_while_end (fun c => negb (is_alnum c)) (str_take 63 cleaned) in
  if str_empty value then "unknown" else value.

Record SecretBody := mkSecretBody {
  sb_name : string;
  sb_labels : jsmap string;
  sb_stringData : jsmap string
}.

(** [SecretApiLike]: the data of a Secret, [[]] where it has none. *)
Record SecretApi (W : Type) := mkSecretApi {
  sa_read : string -> SM W ApiError (jsmap string);
  sa_list : option (option string -> SM W ApiError (list (jsmap string)));
  sa_create : SecretBody -> SM W ApiError unit;
  sa_replace : string -> SecretBody -> SM W ApiError unit;
  sa_delete : string -> SM W ApiError unit
}.
Arguments mkSecretApi {W}.
Arguments sa_read {W} s.
Arguments sa_list {W} s.
Arguments sa_create {W} s.
Arguments sa_replace {W} s.
Arguments sa_delete {W} s.

(** [SecretRecordStoreOptions], without the API and the watch. *)
Record RecordStoreOptions := mkRecordStore {
  ro_namePrefix : string;
  ro_keyLabel : string;
  ro_commonLabels : jsmap string
}.

(** A handler of the errors that it recognizes; the others go on. *)
Definition recover {W A : Type} (recognized : ApiError -> bool) (m : SM W ApiError A) (h : SM W ApiError A) : SM W ApiError A :=
  scatch m (fun err => if recognized err then h else sthrow err).

(** ** The record store *)

Section Store.
Context {W : Type}.
Variable sha256_hex : string -> string.
Variables b64 unb64 : string -> string.
Variable api : SecretApi W.
Variable opts : RecordStoreOptions.

Definition nameFor (key : string) : string := ro_namePrefix opts +:+ "-" +:+ str_take 16 (sha256_hex key).

Definition decoded (data : jsmap string) : jsmap string := (fun f => (f.1, unb64 f.2)) <$> data.

(** The fields of a record, without its bookkeeping. *)
Definition own_fields (fields : jsmap string) : jsmap string :=
  List.filter (fun f => negb (bool_decide (f.1 = RECORD_KEY_FIELD))) fields.

Definition selector : option string :=
  if_set (Some (join "," ((fun l => l.1 +:+ "=" +:+ l.2) <$> ro_commonLabels opts))).

Definition listed_record (data : jsmap string) : option (string * jsmap string) :=
  let fields := own_fields (decoded data) in
  key ← if_set (map_get RECORD_KEY_FIELD (decoded data));
  match fields with
  | [] => None
  | _ => Some (key, fields)
  end.

Definition listRecords : SM W ApiError (list (string * jsmap string)) :=
  match sa_list api with
  | None => sret []
  | Some list_secrets => do! items <- list_secrets selector ;; sret (omap listed_record items)
  end.

Definition record_of (data : jsmap string) : option (jsmap string) :=
  match own_fields (decoded data) with
  | [] => None
  | fields => Some fields
  end.

Definition record_get (key : string) : SM W ApiError (option (jsmap string)) :=
  recover isNotFoundError (do! data <- sa_read api (nameFor key) ;; sret (record_of data)) (sret None).

Definition record_body (key : string) (fields : jsmap string) : SecretBody :=
  mkSecretBody (nameFor key) (map_set (ro_keyLabel opts) (sanitizeLabelValue key) (ro_commonLabels opts))
    (map_set RECORD_KEY_FIELD key fields).

Definition record_put (key : string) (fields : jsmap string) : SM W ApiError unit :=
  recover isConflictError (sa_create api (record_body key fields)) (sa_replace api (nameFor key) (record_body key fields)).

Definition record_delete (key : string) : SM W ApiError unit :=
  recover isNotFoundError (sa_delete api (nameFor key)) (sret tt).
End Store.

(** ** Waiting for a record *)

(** The watch that a wait opens: none, a connection being made, one that is
    open, one that failed, one that was aborted. *)
Inductive WatchRequest := wr_none | wr_connecting | wr_open | wr_failed | wr_aborted.

#[export] Instance WatchRequest_eq_dec : EqDecision WatchRequest.
Proof. solve_decision. Defined.

Record Waiting := mkWaiting {
  wa_settled : option (option (jsmap string));
  wa_returned : bool;
  wa_timer : bool;
  wa_poller : bool;
  wa_watch : WatchRequest;
  wa_checks : nat
}.

(** What happens to a wait: its deadline, a tick of the poll, the end of a read
    that it started, the progress of its watch, an event of the watch, and the
    continuation of the function that awaits the promise. *)
Inductive WaitEvent :=
| we_deadline
| we_poll
| we_checked (r : result ApiError (option (jsmap string)))
| we_connected
| we_connect_failed
| we_changed (phase : string)
| we_return.

(** [waitForRecord] after its first read, which is the answer when it finds a
    record. *)
Definition wait_begin (watched : bool) (immediate : result ApiError (option (jsmap string))) : Waiting :=
  match immediate with
  | Ok (Some found) => mkWaiting (Some (Some found)) true false false wr_none 0
  | _ =>
      if watched then mkWaiting None false true true wr_connecting 1
      else mkWaiting None false true true wr_none 0
  end.

Definition settle_wait (value : option (jsmap string)) (s : Waiting) : Waiting :=
  match wa_settled s with
  | Some _ => s
  | None => mkWaiting (Some value) (wa_returned s) (wa_timer s) (wa_poller s) (wa_watch s) (wa_checks s)
  end.

Definition start_check (s : Waiting) : Waiting :=
  mkWaiting (wa_settled s) (wa_returned s) (wa_timer s) (wa_poller s) (wa_watch s) (S (wa_checks s)).

Definition set_watch (watch : WatchRequest) (s : Waiting) : Waiting :=
  mkWaiting (wa_settled s) (wa_returned s) (wa_timer s) (wa_poller s) watch (wa_checks s).

(** What the deadline leaves of its timer. *)
Definition timer_fired (s : Waiting) : Waiting :=
  mkWaiting (wa_settled s) (wa_returned s) false (wa_poller s) (wa_watch s) (wa_checks s).

Definition check_ended (s : Waiting) : Waiting :=
  mkWaiting (wa_settled s) (wa_returned s) (wa_timer s) (wa_poller s) (wa_watch s) (pred (wa_checks s)).

(** [finally]: an open request is aborted; one that connects later finds that
    the wait is over. *)
Definition wait_cleanup (s : Waiting) : Waiting :=
  mkWaiting (wa_settled s) true false false (if bool_decide (wa_watch s = wr_open) then wr_aborted else wa_watch s) (wa_checks s).

Definition wait_enabled (e : WaitEvent) (s : Waiting) : bool :=
  match e with
  | we_deadline => wa_timer s
  | we_poll => wa_poller s
  | we_checked _ => Nat.ltb 0 (wa_checks s)
  | we_connected | we_connect_failed => bool_decide (wa_watch s = wr_connecting)
  | we_changed _ => bool_decide (wa_watch s = wr_connecting) || bool_decide (wa_watch s = wr_open)
  | we_return => bool_decide (is_Some (wa_settled s)) && negb (wa_returned s)
  end.

Definition wait_on (e : WaitEvent) (s : Waiting) : Waiting :=
  match e with
  | we_deadline => settle_wait None (timer_fired s)
  | we_poll => start_check s
  | we_checked (Ok (Some found)) => settle_wait (Some found) (check_ended s)
  | we_checked _ => check_ended s
  | we_connected => set_watch (if bool_decide (is_Some (wa_settled s)) then wr_aborted else wr_open) s
  | we_connect_failed => set_watch wr_failed s
  | we_changed phase => if has ["ADDED"; "MODIFIED"] phase then start_check s else s
  | we_return => wait_cleanup s
  end.

Inductive wait_step (e : WaitEvent) (s : Waiting) : Waiting -> Prop :=
| wait_steps : wait_enabled e s = true -> wait_step e s (wait_on e s).

Inductive wait_run : Waiting -> list WaitEvent -> Waiting -> Prop :=
| wait_stop s : wait_run s [] s
| wait_next s e s1 es s' : wait_step e s s1 -> wait_run s1 es s' -> wait_run s (e :: es) s'.

(** ** Encrypted fields (field-encryption.ts) *)

Definition ENCRYPTION_KEY_BYTES : nat := 32.
Definition GCM_IV_BYTES : nat := 12.

Definition hex_value (c : ascii) : option N :=
  if in_range 48 57 c then Some (code c - 48)%N
  else if in_range 97 102 c then Some (code c - 87)%N
  else if in_range 65 70 c then Some (code c - 55)%N
  else None.

Definition HEX_PATTERN (s : string) : bool := negb (str_empty s) && str_forall (fun c => bool_decide (is_Some (hex_value c))) s.

(** [Buffer.from(raw, "hex")] of hexadecimal digits: an odd last one is left out. *)
Fixpoint unhex (s : string) : string :=
  match s with
  | String a (String b rest) => String (ascii_of_N ((hex_value a ?? 0) * 16 + (hex_value b ?? 0))%N) (unhex rest)
  | _ => EmptyString
  end.

Section Fields.
Context {W : Type}.
Variables b64 unb64 : string -> string.
(** AES-256-GCM: the tag and the ciphertext under a key and an initialization
    vector, and the plaintext when the tag is the right one. *)
Variable gcm_seal : string -> string -> string -> string * string.
Variable gcm_open : string -> string -> string -> string -> result ApiError string.
(** [randomBytes(GCM_IV_BYTES)] *)
Variable random_iv : SM W ApiError string.

Definition decodeEncryptionKey (raw : string) : result ApiError string :=
  if Nat.eqb (slen (unb64 raw)) ENCRYPTION_KEY_BYTES then Ok (unb64 raw)
  else
    let hex := if HEX_PATTERN raw then unhex raw else EmptyString in
    if Nat.eqb (slen hex) ENCRYPTION_KEY_BYTES then Ok hex
    else Err (plain_error "IDENTITY_LINK_ENCRYPTION_KEY must decode (base64 or hex) to exactly 32 bytes for AES-256-GCM").

Definition packed (iv authTag ciphertext : string) : string := b64 iv +:+ ":" +:+ b64 authTag +:+ ":" +:+ b64 ciphertext.

Definition encryptField (key plaintext : string) : SM W ApiError string :=
  do! iv <- random_iv ;;
  let sealed := gcm_seal key iv plaintext in
  sret (packed iv sealed.1 sealed.2).

Definition decryptField (key packed : string) : result ApiError string :=
  match split_char ":"%char packed with
  | [ivB64; authTagB64; ciphertextB64] => gcm_open key (unb64 ivB64) (unb64 authTagB64) (unb64 ciphertextB64)
  | _ => Err (plain_error "Malformed encrypted credential field")
  end.

Definition assertEncryptionKey (key label : string) : result ApiError unit :=
  if Nat.eqb (slen key) ENCRYPTION_KEY_BYTES then Ok tt
  else Err (plain_error (label +:+ " encryption key must be exactly 32 bytes")).
End Fields.

(** ** Identity links (identity-link/store.ts, k8s-secret-store.ts) *)

Record LinkedCredential := mkLinked {
  lc_githubLogin : string;
  lc_token : string;
  lc_expiresAt : string;
  lc_refreshToken : option string;
  lc_refreshExpiresAt : option string;
  lc_accountId : option string
}.

(** [IdentityLinkStore], without the wait, which is the record's. *)
Record IdentityLinkStore (W : Type) := mkLinkStore {
  ls_get : string -> string -> SM W ApiError (option LinkedCredential);
  ls_set : string -> string -> LinkedCredential -> SM W ApiError unit;
  ls_waitForCompletion : string -> string -> number -> SM W ApiError (option LinkedCredential);
  ls_delete : string -> string -> SM W ApiError unit
}.
Arguments mkLinkStore {W}.
Arguments ls_get {W} i.
Arguments ls_set {W} i.
Arguments ls_waitForCompletion {W} i.
Arguments ls_delete {W} i.

(** A run of characters outside [a-z0-9] becomes one dash, none at the ends. *)
Definition slug_char (c : ascii) : bool := is_digit c || is_lower c.

Definition slug_of (provider : string) : string :=
  let pieces := split_char "-"%char (str_map (fun c => if slug_char c then c else "-"%char) (toLowerCase provider)) in
  let slug := join "-" (List.filter (fun p => negb (str_empty p)) pieces) in
  if str_empty slug then "provider" else slug.

Definition store_options (provider : string) : RecordStoreOptions :=
  mkRecordStore ("identity-link-" +:+ slug_of provider) "controller-agent.io/subject"
    [("controller-agent.io/credential", "identity-link"); ("controller-agent.io/provider", slug_of provider)].

Section Links.
Context {W : Type}.
Variable sha256_hex : string -> string.
Variables b64 unb64 : string -> string.
Variable gcm_seal : string -> string -> string -> string * string.
Variable gcm_open : string -> string -> string -> string -> result ApiError string.
Variable random_iv : SM W ApiError string.
Variable api : SecretApi W.
(** [waitForRecord] of a store, for a key and a deadline. *)
Variable wait_for : RecordStoreOptions -> string -> number -> SM W ApiError (option (jsmap string)).
Variable key : string.

Definition link_credential (fields : jsmap string) : result ApiError LinkedCredential :=
  let? token := decryptField unb64 gcm_open key (map_get "token" fields ?? EmptyString) in
  let? refreshToken := match if_set (map_get "refreshToken" fields) with
                       | None => Ok None
                       | Some packed => let? plain := decryptField unb64 gcm_open key packed in Ok (Some plain)
                       end in
  Ok (mkLinked (map_get "githubLogin" fields ?? EmptyString) token (map_get "expiresAt" fields ?? EmptyString) refreshToken
        (if_set (map_get "refreshExpiresAt" fields)) (if_set (map_get "accountId" fields))).

(** What was read, decoded. *)
Definition read_credential (found : option (jsmap string)) : SM W ApiError (option LinkedCredential) :=
  match found with
  | None => sret None
  | Some fields => fun w => ((let? cred := link_credential fields in Ok (Some cred)), w)
  end.

Definition link_get (provider subject : string) : SM W ApiError (option LinkedCredential) :=
  scatch (do! found <- record_get sha256_hex unb64 api (store_options provider) subject ;; read_credential found)
    (fun _ => sret None).

Definition optional_field (name : string) (value : option string) : jsmap string :=
  match if_set value with
  | Some v => [(name, v)]
  | None => []
  end.

Definition link_fields (cred : LinkedCredential) : SM W ApiError (jsmap string) :=
  do! token <- encryptField b64 gcm_seal random_iv key (lc_token cred) ;;
  do! refreshToken <- match if_set (lc_refreshToken cred) with
                      | None => sret None
                      | Some plain => do! packed <- encryptField b64 gcm_seal random_iv key plain ;; sret (Some packed)
                      end ;;
  sret ([("githubLogin", lc_githubLogin cred); ("expiresAt", lc_expiresAt cred); ("token", token)] ++
        optional_field "refreshExpiresAt" (lc_refreshExpiresAt cred) ++ optional_field "refreshToken" refreshToken ++
        optional_field "accountId" (lc_accountId cred)).

(** A failure is logged and ignored. *)
Definition link_set (provider subject : string) (cred : LinkedCredential) : SM W ApiError unit :=
  scatch (do! fields <- link_fields cred ;; record_put sha256_hex api (store_options provider) subject fields) (fun _ => sret tt).

Definition link_waitForCompletion (provider subject : string) (timeoutMs : number) : SM W ApiError (option LinkedCredential) :=
  scatch (do! found <- wait_for (store_options provider) subject timeoutMs ;; read_credential found) (fun _ => sret None).

Definition link_delete (provider subject : string) : SM W ApiError unit :=
  record_delete sha256_hex api (store_options provider) subject.

Definition K8sSecretIdentityLinkStore : IdentityLinkStore W := mkLinkStore link_get link_set link_waitForCompletion link_delete.

(** ** The directory of principals (connections/principal-directory.ts) *)

Definition directory_options : RecordStoreOptions :=
  mkRecordStore "connections-principal" "controller-agent.io/email" [("controller-agent.io/credential", "connections-principal")].

Definition normalizeEmail (email : string) : string := toLowerCase (trim email).

(** The time is that of the write, as a text. *)
Definition directory_record (now_text : string) (email subject : string) : SM W ApiError unit :=
  do! existing <- record_get sha256_hex unb64 api directory_options (normalizeEmail email) ;;
  if bool_decide ((existing ≫= map_get "subject") = Some subject) then sret tt
  else record_put sha256_hex api directory_options (normalizeEmail email) [("subject", subject); ("updatedAt", now_text)].

Definition directory_lookup (email : string) : SM W ApiError (option string) :=
  do! found <- record_get sha256_hex unb64 api directory_options (normalizeEmail email) ;;
  sret (found ≫= map_get "subject").
End Links.

(** ** What the API is relied on for *)

Definition encoded (b64 : string -> string) (data : jsmap string) : jsmap string := (fun f => (f.1, b64 f.2)) <$> data.

(** The API of a cluster that answers: [view] is what is stored under a name.
    What is written as text is read back in base64; a name that is taken, or
    one that is not there, is reported as such. *)
Class SecretApiLaws {W : Type} (b64 : string -> string) (api : SecretApi W) (view : W -> string -> option (jsmap string)) : Prop := {
  api_read name w :
    match view w name with
    | Some data => sa_read api name w = (Ok (encoded b64 data), w)
    | None => exists err, sa_read api name w = (Err err, w) /\ isNotFoundError err = true
    end;
  api_create body w :
    match view w (sb_name body) with
    | Some _ => exists err, sa_create api body w = (Err err, w) /\ isConflictError err = true
    | None => exists w', sa_create api body w = (Ok tt, w') /\
                forall name, view w' name = if decide (name = sb_name body) then Some (sb_stringData body) else view w name
    end;
  api_replace name body w :
    view w name <> None -> sb_name body = name ->
    exists w', sa_replace api name body w = (Ok tt, w') /\
      forall name', view w' name' = if decide (name' = name) then Some (sb_stringData body) else view w name';
  api_delete name w :
    match view w name with
    | Some _ => exists w', sa_delete api name w = (Ok tt, w') /\
                  forall name', view w' name' = if decide (name' = name) then None else view w name'
    | None => exists err, sa_delete api name w = (Err err, w) /\ isNotFoundError err = true
    end
}.

(** What the codec of a field is relied on for. *)
Class FieldCodec (b64 unb64 : string -> string) (gcm_seal : string -> string -> string -> string * string)
    (gcm_open : string -> string -> string -> string -> result ApiError string) : Prop := {
  b64_no_colon s : includes_char ":"%char (b64 s) = false;
  b64_read s : unb64 (b64 s) = s;
  gcm_opens key iv plaintext : gcm_open key iv (gcm_seal key iv plaintext).1 (gcm_seal key iv plaintext).2 = Ok plaintext
}.

(** ** Lemmas *)

Lemma decoded_written {unb64 b64 : string -> string} (data : jsmap string) :
  (forall s, unb64 (b64 s) = s) -> decoded unb64 (encoded b64 data) = data.
Proof. intros H. unfold decoded, encoded. induction data as [|[k v] data IH]; [done|]. csimpl. by rewrite H, IH. Qed.

Lemma own_fields_key (key : string) (fields : jsmap string) :
  map_get RECORD_KEY_FIELD fields = None -> own_fields (map_set RECORD_KEY_FIELD key fields) = fields.
Proof.
  unfold own_fields. induction fields as [|[k v] fields IH]; [done|]. rewrite map_get_cons. destruct (decide _) as [|Hk]; [done|].
  intros H. cbn [map_set]. destruct (decide (k = RECORD_KEY_FIELD)); [congruence|].
  cbn [List.filter fst]. rewrite bool_decide_eq_false_2 by done. cbn [negb]. by rewrite IH.
Qed.

Section RoundTrip.
Context {W : Type}.
Variable sha256_hex : string -> string.
Variables b64 unb64 : string -> string.
Variable api : SecretApi W.
Variable view : W -> string -> option (jsmap string).
Context `{!SecretApiLaws b64 api view}.
Hypothesis Hb64 : forall s, unb64 (b64 s) = s.
Implicit Types (opts : RecordStoreOptions) (key : string) (w : W).

#[local] Notation get opts key := (record_get sha256_hex unb64 api opts key).
#[local] Notation name opts key := (nameFor sha256_hex opts key).

Lemma record_get_view opts key w :
  get opts key w = (Ok (view w (name opts key) ≫= fun data => match own_fields data with [] => None | fields => Some fields end), w).
Proof using Type*.
  pose proof (api_read (name opts key) w) as H. unfold record_get, recover, scatch, sbind.
  destruct (view w _) as [data|].
  - rewrite H. unfold sret, record_of. cbn [mbind option_bind]. by rewrite decoded_written.
  - destruct H as (err & -> & Herr). by rewrite Herr.
Qed.

Lemma record_put_view opts key fields w :
  exists w', record_put sha256_hex api opts key fields w = (Ok tt, w') /\
    forall n, view w' n = if decide (n = name opts key) then Some (map_set RECORD_KEY_FIELD key fields) else view w n.
Proof using Type*.
  pose proof (api_create (record_body sha256_hex opts key fields) w) as H. unfold record_put, recover, scatch.
  change (sb_name _) with (name opts key) in H. destruct (view w (name opts key)) as [data|] eqn:E.
  - destruct H as (err & -> & ->).
    destruct (api_replace (name opts key) (record_body sha256_hex opts key fields) w) as (w' & -> & Hview); [by rewrite E|done|].
    by exists w'.
  - destruct H as (w' & -> & Hview). by exists w'.
Qed.

Lemma record_delete_view opts key w :
  exists w', record_delete sha256_hex api opts key w = (Ok tt, w') /\
    forall n, view w' n = if decide (n = name opts key) then None else view w n.
Proof using Type*.
  pose proof (api_delete (name opts key) w) as H. unfold record_delete, recover, scatch.
  destruct (view w (name opts key)) as [data|] eqn:E.
  - destruct H as (w' & -> & Hview). by exists w'.
  - destruct H as (err & -> & ->). exists w. split; [done|]. intros n. by destruct (decide _) as [->|].
Qed.

(** What is put under a key is what is read under it until it is put again or
    deleted, and nothing else changes: with its bookkeeping out of the way, a
    record is exactly its fields, and every other record, of this store or of
    another, is read as before. *)
Theorem record_roundtrip opts key (fields : jsmap string) w :
  fields <> [] -> map_get RECORD_KEY_FIELD fields = None ->
  exists w', record_put sha256_hex api opts key fields w = (Ok tt, w') /\ get opts key w' = (Ok (Some fields), w') /\
    (forall opts' key', name opts' key' <> name opts key -> (get opts' key' w').1 = (get opts' key' w).1) /\
    exists w'', record_delete sha256_hex api opts key w' = (Ok tt, w'') /\ get opts key w'' = (Ok None, w'') /\
      forall opts' key', name opts' key' <> name opts key -> (get opts' key' w'').1 = (get opts' key' w).1.
Proof using Type*.
  intros Hne Hkey. destruct (record_put_view opts key fields w) as (w' & Hput & Hview).
  destruct (record_delete_view opts key w') as (w'' & Hdel & Hview'').
  assert (forall opts' key', name opts' key' <> name opts key -> (get opts' key' w').1 = (get opts' key' w).1) as Hother.
  { intros opts' key' Hn. rewrite !record_get_view, Hview. by rewrite decide_False. }
  exists w'. split_and!; [done| |done|].
  - rewrite record_get_view, Hview, decide_True by done. cbn [mbind option_bind]. rewrite own_fields_key by done. by destruct fields.
  - exists w''. split_and!; [done| |].
    + by rewrite record_get_view, Hview'', decide_True.
    + intros opts' key' Hn. rewrite <- Hother by done. rewrite !record_get_view, Hview''. by rewrite decide_False.
Qed.
End RoundTrip.

(** ** A Kubernetes API in memory *)

Module MemSecrets.
Definition Cluster : Type := jsmap (jsmap string).

Definition not_found : ApiError := mkApiError (Some (JNum (num_of_Z 404))) None None None.
Definition conflict : ApiError := mkApiError None None None (Some "secrets already exists").

Definition api (b64 : string -> string) : SecretApi Cluster :=
  mkSecretApi (W := Cluster)
    (fun name w => match map_get name w with
                   | Some data => (Ok (encoded b64 data), w)
                   | None => (Err not_found, w)
                   end)
    (Some (fun _ w => (Ok (encoded b64 <$> w.*2), w)))
    (fun body w => match map_get (sb_name body) w with
                   | Some _ => (Err conflict, w)
                   | None => (Ok tt, map_set (sb_name body) (sb_stringData body) w)
                   end)
    (fun name body w => match map_get name w with
                        | Some _ => (Ok tt, map_set name (sb_stringData body) w)
                        | None => (Err not_found, w)
                        end)
    (fun name w => match map_get name w with
                   | Some _ => (Ok tt, List.filter (fun e => negb (bool_decide (e.1 = name))) w)
                   | None => (Err not_found, w)
                   end).

Lemma get_filter (name name' : string) (w : Cluster) :
  map_get name' (List.filter (fun e => negb (bool_decide (e.1 = name))) w) = if decide (name' = name) then None else map_get name' w.
Proof.
  induction w as [|[n d] w IH]; [by case_decide|]. cbn [List.filter fst]. rewrite map_get_cons.
  destruct (decide (n = name)) as [->|Hn].
  - rewrite bool_decide_eq_true_2 by done. cbn [negb]. rewrite IH. case_decide; [done|]. by rewrite decide_False.
  - rewrite bool_decide_eq_false_2 by done. cbn [negb]. rewrite map_get_cons, IH. repeat case_decide; congruence.
Qed.

#[global] Instance laws (b64 : string -> string) : SecretApiLaws b64 (api b64) (fun w name => map_get name w).
Proof.
  split.
  - intros name w. cbn. destruct (map_get name w); [done|]. by exists not_found.
  - intros body w. cbn. destruct (map_get _ w); [by exists conflict|]. eexists. split; [done|].
    intros name. case_decide as H; [subst; apply map_get_set_eq|]. by rewrite map_get_set_ne by done.
  - intros name body w Hw Hb. cbn. destruct (map_get name w); [|done]. eexists. split; [done|].
    intros name'. case_decide as H; [subst; apply map_get_set_eq|]. by rewrite map_get_set_ne by done.
  - intros name w. cbn. destruct (map_get name w); [|by exists not_found]. eexists. split; [done|].
    intros name'. apply get_filter.
Qed.
End MemSecrets.

(** ** Links *)

Section LinkRoundTrip.
Context {W : Type}.
Variable sha256_hex : string -> string.
Variables b64 unb64 : string -> string.
Variable gcm_seal : string -> string -> string -> string * string.
Variable gcm_open : string -> string -> string -> string -> result ApiError string.
Variable random_iv : SM W ApiError string.
Variable api : SecretApi W.
Variable wait_for : RecordStoreOptions -> string -> number -> SM W ApiError (option (jsmap string)).
Variable key : string.
Variable view : W -> string -> option (jsmap string).
Context `{!SecretApiLaws b64 api view, !FieldCodec b64 unb64 gcm_seal gcm_open}.
Hypothesis Hiv : forall w, exists iv w', random_iv w = (Ok iv, w') /\ forall name, view w' name = view w name.

#[local] Notation link_set := (link_set sha256_hex b64 gcm_seal random_iv api key).
#[local] Notation link_get := (link_get sha256_hex unb64 gcm_open api key).
#[local] Notation record_name provider subject := (nameFor sha256_hex (store_options provider) subject).

Lemma decrypt_packed iv plaintext :
  decryptField unb64 gcm_open key (packed b64 iv (gcm_seal key iv plaintext).1 (gcm_seal key iv plaintext).2) = Ok plaintext.
Proof using Type*.
  unfold decryptField, packed.
  change (split_char _ _) with
    (split_char ":"%char (b64 iv +:+ String ":"%char (b64 (gcm_seal key iv plaintext).1 +:+ String ":"%char (b64 (gcm_seal key iv plaintext).2)))).
  rewrite !split_char_app_sep, split_char_nosep by apply includes_char_false, b64_no_colon. rewrite !b64_read. apply gcm_opens.
Qed.

Lemma encrypt_view plaintext w :
  exists iv w', encryptField b64 gcm_seal random_iv key plaintext w =
    (Ok (packed b64 iv (gcm_seal key iv plaintext).1 (gcm_seal key iv plaintext).2), w') /\ forall name, view w' name = view w name.
Proof using Type*.
  destruct (Hiv w) as (iv & w' & E & Hview). exists iv, w'. split; [|done]. unfold encryptField, sbind. by rewrite E.
Qed.

(** What a credential is after a round trip: an empty optional field is absent. *)
Definition stored_credential (cred : LinkedCredential) : LinkedCredential :=
  mkLinked (lc_githubLogin cred) (lc_token cred) (lc_expiresAt cred) (if_set (lc_refreshToken cred)) (if_set (lc_refreshExpiresAt cred))
    (if_set (lc_accountId cred)).

Lemma if_set_idemp o : if_set (if_set o) = if_set o.
Proof. unfold if_set. destruct (truthy_str o) eqn:E; [by rewrite E|done]. Qed.

Lemma packed_set iv tag ct : if_set (Some (packed b64 iv tag ct)) = Some (packed b64 iv tag ct).
Proof. unfold if_set, packed. by destruct (b64 iv). Qed.

(** The fields of a credential: none is the bookkeeping, and they decode. *)
Lemma fields_get (githubLogin expiresAt token : string) (re rt ac : option string) :
  let fields := [("githubLogin", githubLogin); ("expiresAt", expiresAt); ("token", token)] ++
                optional_field "refreshExpiresAt" re ++ optional_field "refreshToken" rt ++ optional_field "accountId" ac in
  map_get RECORD_KEY_FIELD fields = None /\ map_get "githubLogin" fields = Some githubLogin /\
  map_get "expiresAt" fields = Some expiresAt /\ map_get "token" fields = Some token /\
  map_get "refreshExpiresAt" fields = if_set re /\ map_get "refreshToken" fields = if_set rt /\
  map_get "accountId" fields = if_set ac.
Proof. unfold optional_field. by destruct (if_set re), (if_set rt), (if_set ac). Qed.

Lemma link_fields_view cred w :
  exists fields w', link_fields b64 gcm_seal random_iv key cred w = (Ok fields, w') /\ (forall name, view w' name = view w name) /\
    fields <> [] /\ map_get RECORD_KEY_FIELD fields = None /\
    link_credential unb64 gcm_open key fields = Ok (stored_credential cred).
Proof using Type*.
  destruct (encrypt_view (lc_token cred) w) as (iv & w1 & E1 & H1).
  unfold link_fields, sbind. rewrite E1. cbv beta iota.
  destruct (if_set (lc_refreshToken cred)) as [plain|] eqn:Er.
  - destruct (encrypt_view plain w1) as (iv2 & w2 & E2 & H2). rewrite E2. unfold sret. cbv beta iota.
    eexists _, w2. split; [done|]. split; [intros; by rewrite H2|]. split; [done|].
    edestruct fields_get as (H & Hl & He & Ht & Hre & Hrt & Hac). split; [exact H|].
    unfold link_credential, stored_credential. rewrite Hl, He, Ht, Hre, Hrt, Hac, packed_set. cbn [nullish].
    rewrite packed_set, !decrypt_packed, !if_set_idemp, Er. done.
  - unfold sret. cbv beta iota. eexists _, w1. split; [done|]. split; [done|]. split; [done|].
    edestruct fields_get as (H & Hl & He & Ht & Hre & Hrt & Hac). split; [exact H|].
    unfold link_credential, stored_credential. rewrite Hl, He, Ht, Hre, Hrt, Hac. cbn [nullish].
    rewrite !decrypt_packed, !if_set_idemp, Er. done.
Qed.

(** A provider's name of lower-case letters and digits, as all of the gateway's
    are: such a name is its own slug. *)
Definition plain_provider (provider : string) : bool := negb (str_empty provider) && str_forall slug_char provider.

Lemma slug_plain provider : plain_provider provider = true -> slug_of provider = provider.
Proof using.
  intros [Hne Hp]%andb_true_iff. unfold slug_of.
  assert (str_map (fun c => if slug_char c then c else "-"%char) (toLowerCase provider) = provider) as ->.
  { clear Hne. unfold toLowerCase. induction provider as [|c s IH]; [done|]. cbn in *. apply andb_true_iff in Hp as [Hc Hs]. rewrite IH by done.
    f_equal. revert Hc. clear. by destruct c as [[] [] [] [] [] [] [] []]. }
  rewrite split_char_nosep.
  - cbn [List.filter]. rewrite Hne. cbn [join]. apply negb_true_iff in Hne. by rewrite Hne.
  - revert Hp. clear. induction provider as [|c s IH]; [done|]. cbn. intros [Hc Hs]%andb_true_iff. rewrite IH, andb_true_r by done.
    revert Hc. clear. by destruct c as [[] [] [] [] [] [] [] []].
Qed.

Lemma app_cancel_l s t u : s +:+ t = s +:+ u -> t = u.
Proof using. induction s as [|c s IH]; [done|]. cbn. by intros [= ?%IH]. Qed.

Lemma app_same_tail s s' t t' : s +:+ t = s' +:+ t' -> slen t = slen t' -> s = s' /\ t = t'.
Proof using.
  revert s'. induction s as [|c s IH]; intros [|c' s'] He Hl; cbn in He; [done|..].
  - exfalso. subst t. cbn in Hl. rewrite slen_app in Hl. lia.
  - exfalso. subst t'. cbn in Hl. rewrite slen_app in Hl. lia.
  - injection He as -> He. by destruct (IH s' He Hl) as [-> ->].
Qed.

(** The digits of a subject's SHA-256 that name its Secret. *)
Definition digest16 (subject : string) : string := str_take 16 (sha256_hex subject).

(** Links that are kept apart: of subjects whose digests differ in those digits,
    or of two plainly named providers. *)
Definition apart (provider' subject' provider subject : string) : Prop :=
  digest16 subject' <> digest16 subject \/
  (provider' <> provider /\ plain_provider provider' = true /\ plain_provider provider = true).

Lemma apart_names provider' subject' provider subject :
  (forall s, (16 <= slen (sha256_hex s))%nat) -> apart provider' subject' provider subject ->
  record_name provider' subject' <> record_name provider subject.
Proof using.
  intros Hlen Ha He. unfold nameFor, store_options in He. cbn [ro_namePrefix] in He.
  rewrite !app_assoc_s in He. apply app_cancel_l in He.
  apply app_same_tail in He as [Hp Hd]; [|rewrite !slen_app, !slen_take; pose proof (Hlen subject); pose proof (Hlen subject'); lia].
  injection Hd as Hd. destruct Ha as [Hn|(Hn & H1 & H2)]; [by apply Hn|]. rewrite !slug_plain in Hp by done. done.
Qed.

(** C23: A link that is stored is the link that is found: it is read back whole,
    decrypted. No other link reads differently: neither that of a subject whose
    digest differs in the sixteen digits that name the Secret, of any provider,
    nor, of any subject, that of another provider, where both are named by
    lower-case letters and digits. *)
Theorem link_roundtrip provider subject cred w :
  (forall s, (16 <= slen (sha256_hex s))%nat) ->
  exists w', link_set provider subject cred w = (Ok tt, w') /\
    link_get provider subject w' = (Ok (Some (stored_credential cred)), w') /\
    forall provider' subject', apart provider' subject' provider subject ->
      (link_get provider' subject' w').1 = (link_get provider' subject' w).1.
Proof using Type*.
  intros Hlen. destruct (link_fields_view cred w) as (fields & w1 & Ef & H1 & Hne & Hkey & Hcred).
  destruct (record_put_view sha256_hex b64 unb64 api view b64_read (store_options provider) subject fields w1) as (w2 & Ep & H2).
  assert (forall opts' key', (nameFor sha256_hex opts' key') <> record_name provider subject ->
            view w2 (nameFor sha256_hex opts' key') = view w (nameFor sha256_hex opts' key')) as Hother.
  { intros opts' key' Hn. by rewrite H2, decide_False. }
  exists w2. split_and!.
  - unfold RecordStore.link_set, scatch, sbind. rewrite Ef. by rewrite Ep.
  - unfold RecordStore.link_get, scatch, sbind. rewrite (record_get_view sha256_hex b64 unb64 api view b64_read).
    rewrite H2, decide_True by done. cbn [mbind option_bind]. rewrite own_fields_key by done.
    destruct fields as [|f fields]; [done|]. unfold read_credential. by rewrite Hcred.
  - intros provider' subject' Hn%apart_names; [|done]. unfold RecordStore.link_get, scatch, sbind.
    rewrite !(record_get_view sha256_hex b64 unb64 api view b64_read). rewrite Hother by done.
    destruct (view w _ ≫= _) as [fs|]; [|done]. unfold read_credential. by destruct (link_credential _ _ _ fs).
Qed.

(** A wait for a link is answered at once by whatever is stored: the record of a
    link that has expired ends the wait that its renewal was to end, and the old
    credential is what the wait gives. *)
Theorem wait_takes_any_record watched provider subject cred w :
  exists w' fields, link_set provider subject cred w = (Ok tt, w') /\
    record_get sha256_hex unb64 api (store_options provider) subject w' = (Ok (Some fields), w') /\
    wa_returned (wait_begin watched (Ok (Some fields))) = true /\
    wa_settled (wait_begin watched (Ok (Some fields))) = Some (Some fields) /\
    link_credential unb64 gcm_open key fields = Ok (stored_credential cred).
Proof using Type*.
  destruct (link_fields_view cred w) as (fields & w1 & Ef & H1 & Hne & Hkey & Hcred).
  destruct (record_put_view sha256_hex b64 unb64 api view b64_read (store_options provider) subject fields w1) as (w2 & Ep & H2).
  exists w2, fields. split_and!; try done.
  - unfold RecordStore.link_set, scatch, sbind. rewrite Ef. by rewrite Ep.
  - rewrite (record_get_view sha256_hex b64 unb64 api view b64_read).
    rewrite H2, decide_True by done. cbn [mbind option_bind]. rewrite own_fields_key by done. by destruct fields.
Qed.
End LinkRoundTrip.

(** A link that could not be written is reported as written: where the API
    refuses every new Secret, setting a link succeeds and changes nothing. *)
Theorem link_set_swallows {W : Type} (sha256_hex b64 unb64 : string -> string) (gcm_seal : string -> string -> string -> string * string)
    (gcm_open : string -> string -> string -> string -> result ApiError string) (iv : string) (api : SecretApi W) (key : string)
    (provider subject : string) (cred : LinkedCredential) (w : W) :
  (forall body w, exists err, sa_create api body w = (Err err, w) /\ isConflictError err = false) ->
  link_set sha256_hex b64 gcm_seal (sret iv) api key provider subject cred w = (Ok tt, w).
Proof.
  intros Hfail. unfold link_set, scatch, sbind, link_fields, encryptField, sbind, sret.
  destruct (if_set (lc_refreshToken cred)); unfold record_put, recover, scatch;
    (edestruct Hfail as (err & -> & Herr); rewrite Herr; reflexivity).
Qed.

(** ** The wait *)

(** What a wait keeps: until it is settled, its deadline and its poll are armed;
    once it has returned it holds none of them. *)
Record wait_inv (immediate : result ApiError (option (jsmap string))) (es : list WaitEvent) (s : Waiting) : Prop := {
  wi_armed : wa_settled s = None -> wa_timer s = true /\ wa_poller s = true /\ wa_returned s = false;
  wi_quiet : wa_returned s = true -> wa_timer s = false /\ wa_poller s = false /\ wa_watch s <> wr_open /\ is_Some (wa_settled s);
  wi_found v : wa_settled s = Some (Some v) -> immediate = Ok (Some v) \/ we_checked (Ok (Some v)) ∈ es;
  wi_late : wa_settled s = Some None -> we_deadline ∈ es
}.

Lemma wait_begin_inv watched immediate : wait_inv immediate [] (wait_begin watched immediate).
Proof.
  destruct immediate as [[found|]|err]; [|destruct watched..]; split; cbn; intros; simplify_eq; try done; by left.
Qed.

(** The cases of an event that is enabled. *)
Ltac wait_cases s e :=
  destruct s as [[[?|]|] [] [] [] watch checks]; destruct e as [| |[[?|]|?]| | |phase|]; cbn in *; try done;
  unfold settle_wait in *; cbn in *.

Lemma wait_step_inv immediate es e s s' : wait_step e s s' -> wait_inv immediate es s -> wait_inv immediate (es ++ [e]) s'.
Proof.
  intros [Hen] [Ha Hq Hf Hl].
  assert (forall e', e' ∈ es -> e' ∈ es ++ [e]) as Hin by (intros; apply elem_of_app; by left).
  assert (e ∈ es ++ [e]) as Hlast by (apply elem_of_app; right; by apply list_elem_of_singleton).
  split.
  - wait_cases s e; repeat case_match; cbn; try done; by destruct (Ha eq_refl) as (? & ? & ?).
  - wait_cases s e; repeat case_match; cbn in *; try (destruct (Hq eq_refl) as (? & ? & ? & ?)); intros; try done; repeat case_bool_decide; split_and?; try done; eauto.
  - intros v. wait_cases s e; repeat case_match; cbn; intros; simplify_eq; try (right; done); (destruct (Hf v eq_refl); [by left|right; auto]).
  - wait_cases s e; repeat case_match; cbn; intros; simplify_eq; auto.
Qed.

Lemma wait_run_inv immediate es0 s es s' : wait_run s es s' -> wait_inv immediate es0 s -> wait_inv immediate (es0 ++ es) s'.
Proof.
  intros Hrun. revert es0. induction Hrun as [s|s e s1 es s' Hstep Hrun IH]; intros es0 Hi; [by rewrite app_nil_r|].
  rewrite cons_middle, (assoc (++)). apply IH. by apply (wait_step_inv immediate es0 e s).
Qed.

(** A wait for a record ends as it promises and leaves nothing behind. Whatever
    its watch does, what it gives is a record that one of its reads found, or
    nothing because its deadline passed; while it is undecided the deadline and
    the poll stay armed, and a read that finds the record decides it; and once
    it has returned it holds no timer and no open watch, also when the watch
    connects after that. *)
Theorem wait_ends_clean (watched : bool) (immediate : result ApiError (option (jsmap string))) (es : list WaitEvent) (s : Waiting) :
  wait_run (wait_begin watched immediate) es s ->
  (forall v, wa_settled s = Some (Some v) -> immediate = Ok (Some v) \/ we_checked (Ok (Some v)) ∈ es) /\
  (wa_settled s = Some None -> we_deadline ∈ es) /\
  (wa_settled s = None -> wait_enabled we_deadline s = true /\ wait_enabled we_poll s = true /\
     forall found, wa_settled (wait_on (we_checked (Ok (Some found))) s) = Some (Some found)) /\
  (wa_returned s = true -> wa_timer s = false /\ wa_poller s = false /\ wa_watch s <> wr_open /\
     wa_watch (wait_on we_connected s) = wr_aborted).
Proof.
  intros Hrun. pose proof (wait_run_inv immediate [] _ es s Hrun (wait_begin_inv watched immediate)) as Hi. cbn [app] in Hi.
  split_and!.
  - apply Hi.
  - apply Hi.
  - intros H. destruct (wi_armed _ _ _ Hi H) as (H1 & H2 & _). split_and!; [done..|]. intros found. cbn. unfold settle_wait. cbn. by rewrite H.
  - intros H. destruct (wi_quiet _ _ _ Hi H) as (H1 & H2 & H3 & Hs). split_and!; [done..|]. cbn. by rewrite bool_decide_eq_true_2.
Qed.

(** ** Labels and names *)

(** What Kubernetes accepts for a label's value: at most 63 characters of its
    set, the first and the last a letter or a digit. *)
Definition label_value (s : string) : Prop :=
  s <> EmptyString /\ (slen s <= 63)%nat /\ str_forall (fun c => is_alnum c || char_in "._-" c) s = true /\
  drop_while (fun c => negb (is_alnum c)) s = s /\ drop_while_end (fun c => negb (is_alnum c)) s = s.

Lemma forall_drop_while p q s : str_forall p s = true -> str_forall p (drop_while q s) = true.
Proof. induction s as [|c s IH]; [done|]. cbn. intros H. destruct (q c); [|done]. apply andb_true_iff in H as [_ H]. auto. Qed.

Lemma forall_drop_while_end p q s : str_forall p s = true -> str_forall p (drop_while_end q s) = true.
Proof.
  induction s as [|c s IH]; [done|]. cbn. intros [Hc Hs]%andb_true_iff. specialize (IH Hs).
  destruct (drop_while_end q s) as [|d t]; [|cbn in *; by rewrite Hc]. destruct (q c); [done|]. cbn. by rewrite Hc.
Qed.

Lemma forall_take p n s : str_forall p s = true -> str_forall p (str_take n s) = true.
Proof. revert n. induction s as [|c s IH]; intros [|n]; [done..|]. cbn. intros [-> Hs]%andb_true_iff. by apply IH. Qed.

Lemma forall_str_map p f s : (forall c, p (f c) = true) -> str_forall p (str_map f s) = true.
Proof. intros H. induction s as [|c s IH]; [done|]. cbn. by rewrite H, IH. Qed.

(** The label of a record is one that the API accepts, whatever the subject. *)
Theorem label_accepted (raw : string) : label_value (sanitizeLabelValue raw).
Proof.
  unfold sanitizeLabelValue. set (p := fun c => is_alnum c || char_in "._-" c). set (q := fun c => negb (is_alnum c)).
  set (cleaned := drop_while q _). assert (str_forall p cleaned = true) as Hc.
  { apply forall_drop_while, forall_str_map. intros c. unfold p. by destruct (is_alnum c || char_in "._-" c) eqn:E. }
  set (value := drop_while_end q (str_take 63 cleaned)).
  destruct (str_empty value) eqn:Ev; [split_and!; [done|cbn; lia|done..]|]. split_and!.
  - by intros H; rewrite H in Ev.
  - unfold value. etransitivity; [apply slen_drop_while_end|]. rewrite slen_take. lia.
  - by apply forall_drop_while_end, forall_take.
  - apply drop_while_id. unfold value in *. destruct (str_take 63 cleaned) as [|c s] eqn:Et; [done|].
    destruct (drop_while_end_head q c s _ eq_refl) as [H|[s' ->]]; [by rewrite H in Ev|].
    destruct cleaned as [|d cl] eqn:Ecl; [done|]. cbn in Et. injection Et as -> _. by apply drop_while_head in Ecl.
  - apply drop_while_end_idem.
Qed.

(** Two providers whose names differ in their punctuation share their records. *)
Example slugs_collide : store_options "a.b" = store_options "A-b".
Proof. reflexivity. Qed.

(** ** Samples *)

Definition sample_seal (key iv plaintext : string) : string * string := (key +:+ iv, plaintext).
Definition sample_open (key iv tag ciphertext : string) : result ApiError string :=
  if String.eqb tag (key +:+ iv) then Ok ciphertext else Err (plain_error "bad tag").

Lemma nibbles_no_colon s : includes_char ":"%char (nibbles s) = false.
Proof.
  induction s as [|c s IH]; [done|].
  change (nibbles (String c s)) with (String (letter (N_of_ascii c / 16)) (String (letter (N_of_ascii c mod 16)) (nibbles s))).
  revert IH. unfold includes_char, indexOf. cbn [str_search]. destruct (str_search _ (nibbles s)); [done|]. intros _.
  by destruct c as [[] [] [] [] [] [] [] []].
Qed.

#[export] Instance sample_codec : FieldCodec nibbles unnibbles sample_seal sample_open.
Proof.
  split; [apply nibbles_no_colon|apply b64_decode|]. intros key iv plaintext. unfold sample_open, sample_seal.
  cbn [fst snd]. by rewrite String.eqb_refl.
Qed.

Definition sample_sha (key : string) : string := nibbles key +:+ "0000000000000000".
Definition sample_iv : SM MemSecrets.Cluster ApiError string := sret "iv".
Lemma sample_iv_ok (w : MemSecrets.Cluster) : exists iv w', sample_iv w = (Ok iv, w') /\ forall name : string, map_get name w' = map_get name w.
Proof. by exists "iv", w. Qed.

Definition sample_link : LinkedCredential := mkLinked "octo" "gho_1" "2030" (Some "ghr_1") None (Some EmptyString).

Lemma record_roundtrip_witness :
  exists w', record_put sample_sha (MemSecrets.api nibbles) directory_options "a@b" [("subject", "s")] [] = (Ok tt, w') /\
    record_get sample_sha unnibbles (MemSecrets.api nibbles) directory_options "a@b" w' = (Ok (Some [("subject", "s")]), w').
Proof.
  destruct (record_roundtrip sample_sha nibbles unnibbles (MemSecrets.api nibbles) (fun w name => map_get name w) b64_decode
              directory_options "a@b" [("subject", "s")] []) as (w' & Hput & Hget & _); [done|reflexivity|].
  by exists w'.
Defined.

Lemma link_roundtrip_witness :
  exists w', link_set sample_sha nibbles sample_seal sample_iv (MemSecrets.api nibbles) "k" "github" "u1" sample_link [] = (Ok tt, w') /\
    link_get sample_sha unnibbles sample_open (MemSecrets.api nibbles) "k" "github" "u1" w' =
    (Ok (Some (mkLinked "octo" "gho_1" "2030" (Some "ghr_1") None None)), w') /\
    (link_get sample_sha unnibbles sample_open (MemSecrets.api nibbles) "k" "github" "u2" w').1 = Ok None.
Proof.
  destruct (link_roundtrip sample_sha nibbles unnibbles sample_seal sample_open sample_iv (MemSecrets.api nibbles)
              (fun _ _ _ => sret None) "k" (fun w name => map_get name w) sample_iv_ok "github" "u1" sample_link []) as (w' & Hset & Hget & Hothers).
  - intros s. unfold sample_sha. rewrite slen_app. change (slen "0000000000000000") with 16%nat. lia.
  - exists w'. split; [exact Hset|]. split; [exact Hget|]. rewrite Hothers; [by vm_compute|]. left. by vm_compute.
Defined.

Lemma wait_ends_clean_witness :
  exists s, wait_run (wait_begin true (Ok None)) [we_poll; we_checked (Ok (Some [("token", "t")])); we_return] s /\
    wa_settled s = Some (Some [("token", "t")]) /\ wa_watch (wait_on we_connected s) = wr_aborted.
Proof.
  eexists. assert (wait_run (wait_begin true (Ok None)) [we_poll; we_checked (Ok (Some [("token", "t")])); we_return]
                     (wait_cleanup (wait_on (we_checked (Ok (Some [("token", "t")]))) (wait_on we_poll (wait_begin true (Ok None)))))) as Hrun.
  { repeat (econstructor; [by constructor|]). constructor. }
  split; [exact Hrun|]. split; [reflexivity|]. by apply (wait_ends_clean true (Ok None) _ _ Hrun).
Defined.

(** A cluster where the gateway may read Secrets but not create them. *)
Definition read_only_api : SecretApi MemSecrets.Cluster :=
  mkSecretApi (sa_read (MemSecrets.api nibbles)) None (fun _ w => (Err (mkApiError (Some (JNum (num_of_Z 403))) None None None), w))
    (fun _ _ w => (Err (mkApiError (Some (JNum (num_of_Z 403))) None None None), w))
    (fun _ w => (Err (mkApiError (Some (JNum (num_of_Z 403))) None None None), w)).

Lemma link_set_swallows_witness :
  link_set sample_sha nibbles sample_seal (sret "iv") read_only_api "k" "github" "u1" sample_link [] = (Ok tt, []) /\
  link_get sample_sha unnibbles sample_open read_only_api "k" "github" "u1" [] = (Ok None, []).
Proof.
  split; [|vm_compute; reflexivity]. apply (link_set_swallows sample_sha nibbles unnibbles sample_seal sample_open). intros body w.
  by exists (mkApiError (Some (JNum (num_of_Z 403))) None None None).
Defined.

Lemma wait_takes_any_record_witness :
  exists w' fields, link_set sample_sha nibbles sample_seal sample_iv (MemSecrets.api nibbles) "k" "github" "u1" sample_link [] = (Ok tt, w') /\
    wa_settled (wait_begin true (Ok (Some fields))) = Some (Some fields) /\
    lc_token <$> (match link_credential unnibbles sample_open "k" fields with Ok c => Some c | Err _ => None end) = Some "gho_1".
Proof.
  destruct (wait_takes_any_record sample_sha nibbles unnibbles sample_seal sample_open sample_iv (MemSecrets.api nibbles)
              (fun _ _ _ => sret None) "k" (fun w name => map_get name w) sample_iv_ok true "github" "u1" sample_link [])
    as (w' & fields & Hset & _ & _ & Hs & Hc).
  exists w', fields. split_and!; [done..|]. by rewrite Hc.
Defined.
