(* ===== verification/OAuthLink.v ===== *)
(** * Integration gateway: linking an account

    The OAuth flows that fill the store of identity links: the signed state
    (packages/github-app-auth/src/oauthState.ts), GitHub's device and
    authorization-code endpoints (deviceFlow.ts, authCodeFlow.ts and the account
    lookup of delegatedWrite.ts), the two linkers of the gateway
    (apps/integration-gateway/src/identity-link/device-flow-linker.ts,
    oauth-authcode-linker.ts), and the providers that are configured
    (providers.ts).

    A field of a response that has another type than the declared one reads as
    absent. The clock is read from the world. *)

From stdpp Require Import base gmap strings list.
From Stdlib Require Import ZArith Lia Ascii Bool.
From S2P Require Import Prelude JsString JsNumber Json JsMap JsList JsonText Fetch Rbac RecordStore.

#[local] Open Scope Z_scope.

(** ** The state of a flow (oauthState.ts) *)

Definition CLOCK_SKEW_SECONDS : Z := 60.

Section State.
Variable hmac : string -> string -> string.
Variables b64url unb64url : string -> string.
Variable JSON_parse : string -> option json.

(** [sign(payloadB64, secret)] *)
Definition sign_state (payloadB64 secret : string) : string := b64url (hmac secret payloadB64).

Definition state_payload (provider subject : string) (now : Z) : json :=
  JObj [("provider", JStr provider); ("subject", JStr subject); ("iat", JNum (num_of_Z (now / 1000)))].

Definition signState (provider subject secret : string) (now : Z) : string :=
  let payloadB64 := b64url (JSON_text (state_payload provider subject now)) in
  payloadB64 +:+ "." +:+ sign_state payloadB64 secret.

(** The payload of a state, while it may be used. *)
Definition state_claims (parsed : json) (maxAgeSeconds now : Z) : option (string * string) :=
  match parsed with
  | JObj fields =>
      match jget "provider" fields, jget "subject" fields, jget "iat" fields with
      | Some (JStr provider), Some (JStr subject), Some (JNum iat) =>
          if num_gtb iat (num_of_Z (now / 1000 + CLOCK_SKEW_SECONDS)) then None
          else if num_gtb (num_sub (num_of_Z (now / 1000)) iat) (num_of_Z maxAgeSeconds) then None
          else Some (provider, subject)
      | _, _, _ => None
      end
  | _ => None
  end.

Definition verifyState (token secret : string) (maxAgeSeconds now : Z) : option (string * string) :=
  match split_char "."%char token with
  | [payloadB64; signatureB64] =>
      if str_empty payloadB64 || str_empty signatureB64 then None
      else if negb (String.eqb (unb64url (sign_state payloadB64 secret)) (unb64url signatureB64)) then None
      else parsed ← JSON_parse (unb64url payloadB64); state_claims parsed maxAgeSeconds now
  | _ => None
  end.
End State.

(** ** Requests *)

Inductive RequestBody :=
| no_body
| json_body (fields : list (string * string))
| form_body (fields : list (string * string)).

Record OAuthRequest := mkOAuthRequest {
  or_url : string;
  or_method : string;
  or_headers : list (string * string);
  or_body : RequestBody
}.

(** A property of a body: of [null] it throws. *)
Definition body_prop (k : string) (body : json) : result ApiError (option json) :=
  match body with
  | JNull => Err (plain_error "TypeError")
  | JObj fields => Ok (jget k fields)
  | _ => Ok None
  end.

Definition text_prop (k : string) (body : json) : result ApiError (option string) :=
  let? v := body_prop k body in
  Ok (match v with Some (JStr s) => Some s | _ => None end).

Definition number_prop (k : string) (body : json) : result ApiError (option number) :=
  let? v := body_prop k body in
  Ok (match v with Some (JNum x) => Some x | _ => None end).

Definition json_of (res : FetchResponse) : result ApiError json :=
  match fp_json res with
  | Ok body => Ok body
  | Err e => Err (plain_error e)
  end.

(** [throw new Error(`... ${res.status} ${await res.text()}`)] *)
Definition refused {A : Type} (what : string) (res : FetchResponse) : result ApiError A :=
  match fp_text res with
  | Ok text => Err (plain_error (what +:+ ": " +:+ Z_to_string (fp_status res) +:+ " " +:+ text))
  | Err e => Err (plain_error e)
  end.

(** [x && x > 0] of a duration; [!x] of a number. *)
Definition positive (x : number) : bool := num_gtb x (num_of_Z 0).
Definition falsy_number (x : option number) : bool :=
  match x with
  | None | Some NaN => true
  | Some x => num_eqb x (num_of_Z 0)
  end.

(** What a token endpoint gives. *)
Record TokenSet := mkTokenSet {
  tk_token : string;
  tk_refreshToken : option string;
  tk_expiresAt : string;
  tk_refreshExpiresAt : option string
}.

Inductive DevicePollResult :=
| dp_complete (tokens : TokenSet)
| dp_pending
| dp_slow_down (retryAfterSeconds : number)
| dp_expired
| dp_denied.

Record DeviceFlowStart := mkDeviceFlowStart {
  df_deviceCode : string;
  df_userCode : string;
  df_verificationUri : string;
  df_expiresInSeconds : number;
  df_pollIntervalSeconds : number
}.

(** ** GitHub's endpoints (deviceFlow.ts, authCodeFlow.ts) *)

Definition form_headers : list (string * string) :=
  [("Accept", "application/json"); ("Content-Type", "application/x-www-form-urlencoded")].

Definition AUTH_CODE_STATE_TTL_SECONDS : Z := 600.

Section GitHub.
Context {W : Type}.
(** [fetch], the clock, [new Date(ms).toISOString()], and
    [new URLSearchParams(entries).toString()]. *)
Variable http : OAuthRequest -> SM W ApiError FetchResponse.
Variable clock : W -> Z.
Variable toISOString : number -> result ApiError string.
Variable query_string : list (string * string) -> string.
Variable githubBaseUrl : string.

Definition read_response {A : Type} (r : result ApiError A) : SM W ApiError A := fun w => (r, w).
Definition date_now : SM W ApiError Z := fun w => (Ok (clock w), w).

Definition form_request (path : string) (fields : list (string * string)) : OAuthRequest :=
  mkOAuthRequest (githubBaseUrl +:+ path) "POST" form_headers (form_body fields).

Definition scope_field (scope : option string) : list (string * string) :=
  match if_set scope with
  | Some s => [("scope", s)]
  | None => []
  end.

Definition buildAuthorizeUrl (clientId redirectUri state : string) (scope : option string) : string :=
  githubBaseUrl +:+ "/login/oauth/authorize?" +:+
  query_string ([("client_id", clientId); ("redirect_uri", redirectUri); ("state", state)] ++ scope_field scope).

Definition read_device_start (data : json) : result ApiError DeviceFlowStart :=
  let? device_code := text_prop "device_code" data in
  let? user_code := text_prop "user_code" data in
  let? verification_uri := text_prop "verification_uri" data in
  let? expires_in := number_prop "expires_in" data in
  let? interval := number_prop "interval" data in
  match if_set device_code, if_set user_code, if_set verification_uri, expires_in, interval with
  | Some d, Some u, Some v, Some e, Some i =>
      if falsy_number (Some e) || falsy_number (Some i) then Err (plain_error "GitHub device-code response was missing required fields")
      else Ok (mkDeviceFlowStart d u v e i)
  | _, _, _, _, _ => Err (plain_error "GitHub device-code response was missing required fields")
  end.

Definition startDeviceFlow (clientId : string) (scope : option string) : SM W ApiError DeviceFlowStart :=
  do! res <- http (form_request "/login/device/code" (("client_id", clientId) :: scope_field scope)) ;;
  read_response (if negb (fetch_ok res) then refused "Failed to start GitHub device flow" res
                 else let? data := json_of res in read_device_start data).

(** [new Date(now + seconds * 1000).toISOString()] *)
Definition expires_at (now : Z) (seconds : number) : result ApiError string :=
  toISOString (num_add (num_of_Z now) (num_mul seconds (num_of_Z 1000))).

(** [toComplete] *)
Definition token_set (data : json) (now : Z) : result ApiError TokenSet :=
  let? access_token := text_prop "access_token" data in
  let? expires_in := number_prop "expires_in" data in
  let? refresh_token := text_prop "refresh_token" data in
  let? refresh_in := number_prop "refresh_token_expires_in" data in
  match if_set access_token, expires_in with
  | Some token, Some seconds =>
      if falsy_number (Some seconds) then Err (plain_error "GitHub access-token response was missing required fields")
      else
        let? expiresAt := expires_at now seconds in
        let? refreshExpiresAt := match refresh_in with
                                 | None => Ok None
                                 | Some s => let? at_ := expires_at now s in Ok (Some at_)
                                 end in
        Ok (mkTokenSet token refresh_token expiresAt refreshExpiresAt)
  | _, _ => Err (plain_error "GitHub access-token response was missing required fields")
  end.

Definition exchange_request (clientId clientSecret code redirectUri : string) : OAuthRequest :=
  form_request "/login/oauth/access_token"
    [("client_id", clientId); ("client_secret", clientSecret); ("code", code); ("redirect_uri", redirectUri)].

Definition read_exchange (now : Z) (res : FetchResponse) : result ApiError TokenSet :=
  if negb (fetch_ok res) then refused "Failed to exchange GitHub authorization code" res
  else
    let? data := json_of res in
    let? error := text_prop "error" data in
    match if_set error with
    | Some e =>
        let? description := text_prop "error_description" data in
        Err (plain_error (trim ("Failed to exchange GitHub authorization code: " +:+ e +:+ " " +:+ (description ?? EmptyString))))
    | None => token_set data now
    end.

(** The time is that of the call. *)
Definition exchangeCodeForToken (clientId clientSecret code redirectUri : string) : SM W ApiError TokenSet :=
  do! now <- date_now ;;
  do! res <- http (exchange_request clientId clientSecret code redirectUri) ;; read_response (read_exchange now res).

Definition poll_request (clientId deviceCode : string) : OAuthRequest :=
  form_request "/login/oauth/access_token"
    [("client_id", clientId); ("device_code", deviceCode); ("grant_type", "urn:ietf:params:oauth:grant-type:device_code")].

Definition read_poll (now : Z) (res : FetchResponse) : result ApiError DevicePollResult :=
  if negb (fetch_ok res) then refused "Failed to poll GitHub device flow" res
  else
    let? data := json_of res in
    let? error := text_prop "error" data in
    match error with
    | None => let? tokens := token_set data now in Ok (dp_complete tokens)
    | Some e =>
        if bool_decide (e = "authorization_pending") then Ok dp_pending
        else if bool_decide (e = "slow_down") then
          let? interval := number_prop "interval" data in
          match interval with
          | Some i => if falsy_number (Some i) then Err (plain_error "GitHub slow_down response was missing the interval field")
                      else Ok (dp_slow_down i)
          | None => Err (plain_error "GitHub slow_down response was missing the interval field")
          end
        else if bool_decide (e = "expired_token") then Ok dp_expired
        else if bool_decide (e = "access_denied") then Ok dp_denied
        else Err (plain_error ("Unexpected GitHub device-flow error: " +:+ e))
    end.

Definition pollDeviceFlow (clientId deviceCode : string) : SM W ApiError DevicePollResult :=
  do! now <- date_now ;; do! res <- http (poll_request clientId deviceCode) ;; read_response (read_poll now res).

Definition refresh_request (clientId clientSecret refreshToken : string) : OAuthRequest :=
  form_request "/login/oauth/access_token"
    [("client_id", clientId); ("client_secret", clientSecret); ("grant_type", "refresh_token"); ("refresh_token", refreshToken)].

Definition read_refresh (now : Z) (res : FetchResponse) : result ApiError TokenSet :=
  if negb (fetch_ok res) then refused "Failed to refresh GitHub user token" res
  else
    let? data := json_of res in
    let? error := text_prop "error" data in
    match if_set error with
    | Some e => Err (plain_error ("Failed to refresh GitHub user token: " +:+ e))
    | None => token_set data now
    end.

Definition refreshUserToken (clientId clientSecret refreshToken : string) : SM W ApiError TokenSet :=
  do! now <- date_now ;;
  do! res <- http (refresh_request clientId clientSecret refreshToken) ;; read_response (read_refresh now res).
End GitHub.

(** ** Providers (providers.ts) *)

Inductive OAuthFlowKind := kind_device | kind_authcode.

#[export] Instance OAuthFlowKind_eq_dec : EqDecision OAuthFlowKind.
Proof. solve_decision. Defined.

Record OAuthProviderConfig := mkOAuthProvider {
  oc_name : string;
  oc_kind : OAuthFlowKind;
  oc_clientId : string;
  oc_clientSecret : option string;
  oc_authorizeUrl : string;
  oc_tokenUrl : string;
  oc_scopes : list string;
  oc_authorizeParams : list (string * string);
  oc_rotatesRefreshToken : bool;
  oc_identity : option (string * string);
  oc_scopeParam : string;
  oc_form : bool;
  oc_userTokenFromAuthedUser : bool;
  oc_resultOkInBody : bool;
  oc_tokensDoNotExpire : bool
}.

(** [s.split(/[\s,]+/).filter(Boolean)] *)
Definition scope_list (s : string) : list string :=
  List.filter (fun p => negb (str_empty p))
    (split_char ","%char (str_map (fun c => if is_ws c then ","%char else c) s)).

Definition env_var (env : jsmap string) (name : string) : option string := map_get name env.

Definition githubConfig (env : jsmap string) : option OAuthProviderConfig :=
  clientId ← if_set (env_var env "GITHUB_OAUTH_CLIENT_ID");
  Some (mkOAuthProvider "github" kind_device clientId None "https://github.com/login/device/code"
          "https://github.com/login/oauth/access_token"
          (trim <$> split_char ","%char (env_var env "GITHUB_OAUTH_SCOPES" ?? "repo,read:org")) [] false None "scope" false false false false).

(** The client of a provider that needs both its id and its secret. *)
Definition env_client (env : jsmap string) (idVar secretVar : string) : option (string * string) :=
  clientId ← if_set (env_var env idVar);
  clientSecret ← if_set (env_var env secretVar);
  Some (clientId, clientSecret).

Definition atlassianConfig (env : jsmap string) : option OAuthProviderConfig :=
  '(clientId, clientSecret) ← env_client env "ATLASSIAN_CLIENT_ID" "ATLASSIAN_CLIENT_SECRET";
  let scopes := scope_list (env_var env "ATLASSIAN_SCOPES" ??
    "read:page:confluence read:space:confluence read:content-details:confluence search:confluence offline_access") in
  Some (mkOAuthProvider "atlassian" kind_authcode clientId (Some clientSecret) "https://auth.atlassian.com/authorize"
          "https://auth.atlassian.com/oauth/token" (if has scopes "offline_access" then scopes else scopes ++ ["offline_access"])
          [("audience", "api.atlassian.com")] true (Some ("https://api.atlassian.com/me", "account_id")) "scope" false false false false).

Definition googleConfig (env : jsmap string) : option OAuthProviderConfig :=
  '(clientId, clientSecret) ← env_client env "GOOGLE_CLIENT_ID" "GOOGLE_CLIENT_SECRET";
  Some (mkOAuthProvider "google" kind_authcode clientId (Some clientSecret) "https://accounts.google.com/o/oauth2/v2/auth"
          "https://oauth2.googleapis.com/token"
          (scope_list (env_var env "GOOGLE_SCOPES" ?? "https://www.googleapis.com/auth/drive.readonly"))
          [("access_type", "offline"); ("prompt", "consent")] false (Some ("https://www.googleapis.com/oauth2/v3/userinfo", "sub"))
          "scope" false false false false).

Definition slackConfig (env : jsmap string) : option OAuthProviderConfig :=
  '(clientId, clientSecret) ← env_client env "SLACK_CLIENT_ID" "SLACK_CLIENT_SECRET";
  Some (mkOAuthProvider "slack" kind_authcode clientId (Some clientSecret) "https://slack.com/oauth/v2/authorize"
          "https://slack.com/api/oauth.v2.access" (scope_list (env_var env "SLACK_SCOPES" ?? "search:read")) [] false
          (Some ("https://slack.com/api/auth.test", "user_id")) "user_scope" true true true true).

Definition loadOAuthProviders (env : jsmap string) : jsmap OAuthProviderConfig :=
  map_of ((fun c => (oc_name c, c)) <$> omap (fun build => build env) [githubConfig; atlassianConfig; googleConfig; slackConfig]).

(** ** The linkers *)

Record DeviceFlowOptions := mkDeviceOptions {
  do_clientId : string;
  do_scope : option string;
  do_githubBaseUrl : string;
  do_apiBaseUrl : string;
  do_clientSecret : option string;
  do_stateSecret : option string;
  do_redirectUri : option string
}.

Inductive PollStatus := ps_pending | ps_complete | ps_expired | ps_denied.

Section Linkers.
Context {W : Type}.
Variable hmac : string -> string -> string.
Variables b64url unb64url : string -> string.
Variable JSON_parse : string -> option json.
Variable http : OAuthRequest -> SM W ApiError FetchResponse.
Variable clock : W -> Z.
Variable toISOString : number -> result ApiError string.
Variable Date_parse : string -> number.
Variable query_string : list (string * string) -> string.
(** [new URL(url)] with these parameters set one after the other, as a text. *)
Variable url_with : string -> list (string * string) -> string.
Variable store : IdentityLinkStore W.

(** A token is used until a minute before it expires. *)
Definition still_fresh (expiresAt : string) (now : Z) : bool :=
  isFinite (Date_parse expiresAt) && num_gtb (num_sub (Date_parse expiresAt) (num_of_Z now)) (num_of_Z (60 * 1000)).

(** *** GitHub (device-flow-linker.ts) *)

Section GithubLinker.
Variable options : DeviceFlowOptions.

Definition user_request (token : string) : OAuthRequest :=
  mkOAuthRequest (do_apiBaseUrl options +:+ "/user") "GET"
    [("Authorization", bearer token); ("Accept", "application/vnd.github+json")] no_body.

Definition read_user (res : FetchResponse) : result ApiError (string * number) :=
  if negb (fetch_ok res) then refused "Failed to look up GitHub user" res
  else
    let? body := json_of res in
    let? login := text_prop "login" body in
    let? id := number_prop "id" body in
    match if_set login, id with
    | Some login, Some id => Ok (login, id)
    | _, _ => Err (plain_error "GitHub /user response was missing login/id")
    end.

Definition fetchGithubLogin (token : string) : SM W ApiError string :=
  do! res <- http (user_request token) ;; read_response (let? user := read_user res in Ok user.1).

Definition device_start (subject : string) : SM W ApiError DeviceFlowStart :=
  startDeviceFlow http (do_githubBaseUrl options) (do_clientId options) (do_scope options).

Definition credential_of (login : string) (t : TokenSet) : LinkedCredential :=
  mkLinked login (tk_token t) (tk_expiresAt t) (tk_refreshToken t) (tk_refreshExpiresAt t) None.

Definition device_poll (subject deviceCode : string) : SM W ApiError PollStatus :=
  do! polled <- pollDeviceFlow http clock toISOString (do_githubBaseUrl options) (do_clientId options) deviceCode ;;
  match polled with
  | dp_pending | dp_slow_down _ => sret ps_pending
  | dp_expired => sret ps_expired
  | dp_denied => sret ps_denied
  | dp_complete tokens =>
      do! login <- fetchGithubLogin (tk_token tokens) ;;
      do! _ <- ls_set store "github" subject (credential_of login tokens) ;; sret ps_complete
  end.

(** An option that a flow needs. *)
Definition required {A : Type} (value : option string) (method name : string) (k : string -> SM W ApiError A) : SM W ApiError A :=
  match if_set value with
  | Some v => k v
  | None => sthrow (plain_error ("GithubDeviceFlowLinker." +:+ method +:+ " requires options." +:+ name +:+ " to be configured"))
  end.

(** The URL to authorize at. *)
Definition github_startAuthCode (subject : string) : SM W ApiError string :=
  required (do_stateSecret options) "startAuthCode" "stateSecret" (fun stateSecret =>
  required (do_redirectUri options) "startAuthCode" "redirectUri" (fun redirectUri =>
    do! now <- date_now clock ;;
    sret (buildAuthorizeUrl query_string (do_githubBaseUrl options) (do_clientId options) redirectUri
            (signState hmac b64url "github" subject stateSecret now) (do_scope options)))).

(** The subject of the state that was completed. *)
Definition github_completeAuthCode (state code : string) : SM W ApiError (option string) :=
  required (do_clientSecret options) "completeAuthCode" "clientSecret" (fun clientSecret =>
  required (do_stateSecret options) "completeAuthCode" "stateSecret" (fun stateSecret =>
  required (do_redirectUri options) "completeAuthCode" "redirectUri" (fun redirectUri =>
    do! now <- date_now clock ;;
    match verifyState hmac b64url unb64url JSON_parse state stateSecret AUTH_CODE_STATE_TTL_SECONDS now with
    | None => sret None
    | Some (_, subject) =>
        do! exchanged <- scatch (do! t <- exchangeCodeForToken http clock toISOString (do_githubBaseUrl options)
                                           (do_clientId options) clientSecret code redirectUri ;; sret (Some t))
                           (fun _ => sret None) ;;
        match exchanged with
        | None => sret None
        | Some tokens =>
            do! login <- fetchGithubLogin (tk_token tokens) ;;
            do! _ <- ls_set store "github" subject (credential_of login tokens) ;; sret (Some subject)
        end
    end))).

(** The token and the login. *)
Definition github_waitForCompletion (subject : string) (timeoutMs : number) : SM W ApiError (option (string * string)) :=
  do! cred <- ls_waitForCompletion store "github" subject timeoutMs ;;
  sret ((fun c => (lc_token c, lc_githubLogin c)) <$> cred).

Definition github_getValidToken (subject : string) : SM W ApiError (option (string * string)) :=
  do! found <- ls_get store "github" subject ;;
  match found with
  | None => sret None
  | Some cred =>
      do! now <- date_now clock ;;
      if still_fresh (lc_expiresAt cred) now then sret (Some (lc_token cred, lc_githubLogin cred))
      else
        match if_set (lc_refreshToken cred), if_set (do_clientSecret options) with
        | Some refreshToken, Some clientSecret =>
            scatch
              (do! refreshed <- refreshUserToken http clock toISOString (do_githubBaseUrl options) (do_clientId options) clientSecret
                                  refreshToken ;;
               do! _ <- ls_set store "github" subject (credential_of (lc_githubLogin cred) refreshed) ;;
               sret (Some (tk_token refreshed, lc_githubLogin cred)))
              (fun _ => sret None)
        | _, _ => sret None
        end
  end.

Definition getLinkedLogin (subject : string) : SM W ApiError (option string) :=
  do! cred <- ls_get store "github" subject ;; sret (lc_githubLogin <$> cred).
End GithubLinker.

(** *** The other providers (oauth-authcode-linker.ts) *)

Section AuthCodeLinker.
Variable config : OAuthProviderConfig.
Variables stateSecret redirectUri : string.

(** The parameters in the order they are set. *)
Definition authorize_params (state : string) : list (string * string) :=
  [("client_id", oc_clientId config); ("redirect_uri", redirectUri); ("state", state);
   (oc_scopeParam config, join " " (oc_scopes config)); ("response_type", "code"); ("prompt", "consent")] ++ oc_authorizeParams config.

Definition startAuthCode (subject : string) : SM W ApiError string :=
  do! now <- date_now clock ;;
  sret (url_with (oc_authorizeUrl config) (authorize_params (signState hmac b64url (oc_name config) subject stateSecret now))).

Record TokenResponse := mkTokenResponse {
  tr_access_token : option string;
  tr_refresh_token : option string;
  tr_expires_in : option number
}.

Definition token_request (params : list (string * string)) : OAuthRequest :=
  let fields := [("client_id", oc_clientId config); ("client_secret", oc_clientSecret config ?? EmptyString);
                 ("redirect_uri", redirectUri)] in
  let fields := foldl (fun m f => map_set f.1 f.2 m) fields params in
  mkOAuthRequest (oc_tokenUrl config) "POST"
    [("content-type", if oc_form config then "application/x-www-form-urlencoded" else "application/json");
     ("accept", "application/json")] (if oc_form config then form_body fields else json_body fields).

Definition says_not_ok (raw : json) : result ApiError bool :=
  let? ok := body_prop "ok" raw in
  Ok (match ok with Some (JBool false) => true | _ => false end).

Definition read_tokens (res : FetchResponse) : result ApiError TokenResponse :=
  if negb (fetch_ok res) then Err (plain_error (oc_name config +:+ " token endpoint returned " +:+ Z_to_string (fp_status res)))
  else
    let? raw := json_of res in
    let? failed := if oc_resultOkInBody config then says_not_ok raw else Ok false in
    throw_if failed with plain_error (oc_name config +:+ " token endpoint error") ;;
    let? source := if oc_userTokenFromAuthedUser config
                   then let? user := body_prop "authed_user" raw in
                        Ok (match user with None | Some JNull => JObj [] | Some v => v end)
                   else Ok raw in
    let? access_token := text_prop "access_token" source in
    let? refresh_token := text_prop "refresh_token" source in
    let? expires_in := number_prop "expires_in" source in
    Ok (mkTokenResponse access_token refresh_token expires_in).

Definition exchange (params : list (string * string)) : SM W ApiError TokenResponse :=
  do! res <- http (token_request params) ;; read_response (read_tokens res).

(** An exchange that fails, or that gives no token, is [None]. *)
Definition try_exchange (params : list (string * string)) : SM W ApiError (option (string * TokenResponse)) :=
  do! tokens <- scatch (do! t <- exchange params ;; sret (Some t)) (fun _ => sret None) ;;
  sret (t ← tokens; token ← if_set (tr_access_token t); Some (token, t)).

Definition fetchAccountId (token : string) : SM W ApiError (option string) :=
  match oc_identity config with
  | None => sret None
  | Some (url, field) =>
      scatch
        (do! res <- http (mkOAuthRequest url "GET" [("authorization", bearer token); ("accept", "application/json")] no_body) ;;
         read_response (if negb (fetch_ok res) then Ok None else let? body := json_of res in text_prop field body))
        (fun _ => sret None)
  end.

Definition HUNDRED_YEARS_MS : Z := 100 * 365 * 24 * 60 * 60 * 1000.

Definition expiryFrom (expiresIn : option number) : SM W ApiError string :=
  do! now <- date_now clock ;;
  read_response
    (if negb (match expiresIn with Some x => negb (num_le x 0) | None => false end) && oc_tokensDoNotExpire config
     then toISOString (num_of_Z (now + HUNDRED_YEARS_MS))
     else expires_at toISOString now (match expiresIn with Some x => if positive x then x else num_of_Z 0 | None => num_of_Z 0 end)).

Definition completeAuthCode (state code : string) : SM W ApiError (option string) :=
  do! now <- date_now clock ;;
  match verifyState hmac b64url unb64url JSON_parse state stateSecret AUTH_CODE_STATE_TTL_SECONDS now with
  | None => sret None
  | Some (provider, subject) =>
      if negb (bool_decide (provider = oc_name config)) then sret None
      else
        do! exchanged <- try_exchange [("grant_type", "authorization_code"); ("code", code); ("redirect_uri", redirectUri)] ;;
        match exchanged with
        | None => sret None
        | Some (token, tokens) =>
            do! accountId <- fetchAccountId token ;;
            do! expiresAt <- expiryFrom (tr_expires_in tokens) ;;
            do! _ <- ls_set store (oc_name config) subject
                       (mkLinked EmptyString token expiresAt (tr_refresh_token tokens) None accountId) ;;
            sret (Some subject)
        end
  end.

(** The refresh token to keep: a provider that rotates has spent the old one. *)
Definition next_refresh_token (tokens : TokenResponse) (refreshToken : string) : option string :=
  match tr_refresh_token tokens with
  | Some t => Some t
  | None => if oc_rotatesRefreshToken config then None else Some refreshToken
  end.

Definition refresh (subject refreshToken : string) : SM W ApiError (option string) :=
  do! exchanged <- try_exchange [("grant_type", "refresh_token"); ("refresh_token", refreshToken)] ;;
  match exchanged with
  | None => sret None
  | Some (token, tokens) =>
      do! before <- ls_get store (oc_name config) subject ;;
      do! accountId <- match before ≫= lc_accountId with
                       | Some id => sret (Some id)
                       | None => fetchAccountId token
                       end ;;
      do! expiresAt <- expiryFrom (tr_expires_in tokens) ;;
      do! _ <- scatch (ls_set store (oc_name config) subject
                         (mkLinked EmptyString token expiresAt (next_refresh_token tokens refreshToken) None accountId))
                 (fun _ => sret tt) ;;
      sret (Some token)
  end.

Definition getValidToken (subject : string) : SM W ApiError (option string) :=
  do! stored <- ls_get store (oc_name config) subject ;;
  match stored with
  | None => sret None
  | Some cred =>
      do! now <- date_now clock ;;
      if still_fresh (lc_expiresAt cred) now then sret (Some (lc_token cred))
      else
        match if_set (lc_refreshToken cred) with
        | None => sret None
        | Some refreshToken => refresh subject refreshToken
        end
  end.

Definition waitForCompletion (subject : string) (timeoutMs : number) : SM W ApiError (option string) :=
  do! landed <- ls_waitForCompletion store (oc_name config) subject timeoutMs ;; sret (lc_token <$> landed).

Definition getLinkedAccountId (subject : string) : SM W ApiError (option string) :=
  do! cred <- ls_get store (oc_name config) subject ;; sret (cred ≫= lc_accountId).
End AuthCodeLinker.
End Linkers.

(** ** Lemmas *)

Lemma ensures_read {W A : Type} (I : W -> Prop) (r : result ApiError A) : ensures I (fun a => r = Ok a) (read_response r).
Proof. intros w Hw. by destruct r. Qed.

Lemma ensures_now {W : Type} (I : W -> Prop) (clock : W -> Z) : ensures I (fun _ => True) (date_now clock).
Proof. intros w Hw. done. Qed.

#[export] Hint Resolve ensures_sret ensures_sthrow ensures_read ensures_now : agentdb.

(** ** What a flow may store *)

Section Policy.
Context {W : Type}.
Variable hmac : string -> string -> string.
Variables b64url unb64url : string -> string.
Variable JSON_parse : string -> option json.
Variable http : OAuthRequest -> SM W ApiError FetchResponse.
Variable clock : W -> Z.
Variable toISOString : number -> result ApiError string.
Variable Date_parse : string -> number.
Variable query_string : list (string * string) -> string.
Variable store : IdentityLinkStore W.
Variable I : W -> Prop.
Hypothesis http_keeps : forall req, keeps I (http req).
Hypothesis get_keeps : forall provider subject, keeps I (ls_get store provider subject).

(** The token endpoint answered a request with these tokens. *)
Definition endpoint_gave (config : OAuthProviderConfig) (redirectUri : string) (params : list (string * string)) (token : string)
    (tokens : TokenResponse) : Prop :=
  exists res, gave (http (token_request config redirectUri params)) res /\ read_tokens config res = Ok tokens /\
    if_set (tr_access_token tokens) = Some token.

Lemma ensures_try_exchange config redirectUri params :
  ensures I (fun r => match r with Some (token, tokens) => endpoint_gave config redirectUri params token tokens | None => True end)
    (try_exchange http config redirectUri params).
Proof using http_keeps.
  unfold try_exchange.
  eapply (ensures_sbind _ (fun r => match r with Some tokens => exists res, gave (http (token_request config redirectUri params)) res /\
                                                   read_tokens config res = Ok tokens | None => True end)).
  - apply ensures_scatch; [|intros; by apply ensures_sret]. eapply ensures_sbind; [|intros t Ht; apply ensures_sret, Ht].
    unfold exchange. eapply ensures_sbind; [by apply ensures_gave|]. intros res Hres.
    eapply ensures_weaken; [apply ensures_read|]. intros t Ht. by exists res.
  - intros [tokens|] H; [|by apply ensures_sret]. apply ensures_sret. cbn. destruct H as (res & Hg & Hr).
    destruct (if_set (tr_access_token tokens)) as [token|] eqn:E; [|done]. by exists res.
Qed.

Lemma keeps_fetchAccountId config token : keeps I (fetchAccountId http config token).
Proof using http_keeps.
  unfold fetchAccountId. destruct (oc_identity config) as [[url field]|]; [|apply keeps_sret].
  apply keeps_scatch; [|intros; apply keeps_sret]. apply keeps_sbind; [apply http_keeps|]. intros res w Hw. done.
Qed.

Lemma keeps_expiryFrom config expiresIn : keeps I (expiryFrom clock toISOString config expiresIn).
Proof. intros w Hw. done. Qed.

(** What a stored credential may become when it is used: one with a token that
    the endpoint gave for its own refresh token, the same account, and the
    refresh token to go on with. *)
Definition renewed (config : OAuthProviderConfig) (redirectUri refreshToken : string) (before : option LinkedCredential)
    (cred : LinkedCredential) : Prop :=
  exists tokens,
    endpoint_gave config redirectUri [("grant_type", "refresh_token"); ("refresh_token", refreshToken)] (lc_token cred) tokens /\
    lc_refreshToken cred = next_refresh_token config tokens refreshToken /\
    (forall account, before ≫= lc_accountId = Some account -> lc_accountId cred = Some account).

(** A token that is handed out is one that can be used. It is the stored one,
    with more than a minute to go, or one that the provider gave for the stored
    refresh token; nothing is stored but that renewal, under the same subject;
    and a refresh that fails leaves the link as it was. *)
Theorem valid_token_usable (config : OAuthProviderConfig) (redirectUri subject : string) :
  (forall stored before refreshToken cred, gave (ls_get store (oc_name config) subject) (Some stored) ->
     gave (ls_get store (oc_name config) subject) before -> if_set (lc_refreshToken stored) = Some refreshToken ->
     renewed config redirectUri refreshToken before cred -> keeps I (ls_set store (oc_name config) subject cred)) ->
  ensures I
    (fun r => forall token, r = Some token -> exists stored, gave (ls_get store (oc_name config) subject) (Some stored) /\
       ((lc_token stored = token /\ exists now, still_fresh Date_parse (lc_expiresAt stored) now = true) \/
        exists refreshToken tokens, lc_refreshToken stored = Some refreshToken /\
          endpoint_gave config redirectUri [("grant_type", "refresh_token"); ("refresh_token", refreshToken)] token tokens))
    (getValidToken http clock toISOString Date_parse store config redirectUri subject).
Proof using http_keeps get_keeps.
  intros Hset. unfold getValidToken. eapply ensures_sbind; [by apply ensures_gave|]. intros [stored|] Hstored; [|by apply ensures_sret].
  apply ensures_after; [intros w Hw; done|]. intros now. destruct (still_fresh _ _ now) eqn:Ef.
  { apply ensures_sret. intros token [= <-]. exists stored. split; [done|]. left. split; [done|]. by exists now. }
  destruct (if_set (lc_refreshToken stored)) as [refreshToken|] eqn:Er; [|by apply ensures_sret].
  unfold refresh. eapply ensures_sbind; [apply ensures_try_exchange|]. intros [[token tokens]|] Hgave; [|by apply ensures_sret].
  eapply ensures_sbind; [by apply ensures_gave|]. intros before Hbefore.
  apply (ensures_sbind _ (fun account => forall a, before ≫= lc_accountId = Some a -> account = Some a)).
  { destruct (before ≫= lc_accountId) as [a|]; [apply ensures_sret; by intros ? [= ->]|].
    eapply ensures_weaken; [apply ensures_keeps, keeps_fetchAccountId|]. intros ? _ ? ?. done. }
  intros accountId Hacc. apply ensures_after; [apply keeps_expiryFrom|]. intros expiresAt.
  apply ensures_after.
  { apply keeps_scatch; [|intros; apply keeps_sret]. eapply Hset; [done..|]. by exists tokens. }
  intros _. apply ensures_sret. intros ? [= <-]. exists stored. split; [done|]. right. exists refreshToken, tokens. split; [|done].
  unfold if_set in Er. by destruct (truthy_str (lc_refreshToken stored)).
Qed.
End Policy.

(** ** The life of a state *)

Lemma num_gtb_Z a b : num_gtb (num_of_Z a) (num_of_Z b) = (b <? a).
Proof.
  unfold num_gtb, num_ltb, num_compare, num_of_Z, at_scale. change (Z.min 0 0 - 0) with 0. change (0 - Z.min 0 0) with 0.
  change (2 ^ 0) with 1. rewrite !Z.mul_1_r. unfold Z.ltb. by destruct (b ?= a).
Qed.

Lemma num_gtb_le m e z : num_gtb (Finite m e) (num_of_Z z) = negb (num_le (Finite m e) z).
Proof.
  unfold num_gtb, num_ltb, num_compare, num_of_Z, at_scale, num_le.
  destruct (Z.leb_spec 0 e); rewrite Z.leb_antisym, negb_involutive.
  - replace (Z.min 0 e) with 0 by lia. rewrite !Z.sub_0_r. change (2 ^ 0) with 1. rewrite Z.mul_1_r. unfold Z.ltb. by destruct (_ ?= _).
  - replace (Z.min 0 e) with e by lia. rewrite Z.sub_diag. change (2 ^ 0) with 1. rewrite Z.mul_1_r. unfold Z.ltb. by destruct (_ ?= _).
Qed.

Lemma num_sub_gtb a b z : 0 <= a - b < 2 ^ 53 -> num_gtb (num_sub (num_of_Z a) (num_of_Z b)) (num_of_Z z) = (z <? a - b).
Proof.
  intros Hr. assert (num_sub (num_of_Z a) (num_of_Z b) = round_signed (a - b) 1) as ->.
  { unfold num_sub, num_neg, num_add, num_of_Z, round_dyadic, at_scale. change (Z.min 0 0) with 0. change (0 <=? 0) with true. cbv iota beta.
    change (2 ^ (0 - 0)) with 1. change (2 ^ 0) with 1. f_equal. lia. }
  unfold round_signed. rewrite (proj2 (Z.ltb_ge _ _)) by lia.
  destruct (decide (a - b = 0)) as [->|].
  - change (round_ratio 0 1) with (num_of_Z 0). apply num_gtb_Z.
  - destruct (round_ratio_int (a - b) ltac:(lia)) as (m & e & -> & H). rewrite num_gtb_le, H, Z.leb_antisym. apply negb_involutive.
Qed.

(** A state is good for its ten minutes. What was signed for a provider and a
    subject is verified as just that, from the moment it was signed until its
    age in whole seconds exceeds the limit, and never after. *)
Theorem state_roundtrip (hmac : string -> string -> string) (b64url unb64url : string -> string)
    (JSON_parse : string -> option json) `{!Base64Laws b64url unb64url} (provider subject secret : string) (maxAge now now' : Z) :
  (forall a b, hmac a b <> EmptyString) ->
  JSON_parse (JSON_text (state_payload provider subject now)) = Some (state_payload provider subject now) ->
  0 <= now <= now' -> now' < 2 ^ 53 ->
  verifyState hmac b64url unb64url JSON_parse (signState hmac b64url provider subject secret now) secret maxAge now' =
  if now' / 1000 - now / 1000 <=? maxAge then Some (provider, subject) else None.
Proof.
  intros Hmac Hjson Hnow Hbig. unfold verifyState, signState. set (body := b64url (JSON_text _)).
  change (split_char _ _) with (split_char "."%char (body +:+ String "."%char (sign_state hmac b64url body secret))).
  rewrite (split_char_app_sep "."%char body) by apply includes_char_false, b64_no_dot.
  rewrite (split_char_nosep _ (sign_state _ _ _ _)) by (unfold sign_state; apply includes_char_false, b64_no_dot).
  assert (str_empty body = false) as ->.
  { destruct body eqn:E; [|done]. exfalso. by apply (b64_nonempty (JSON_text (state_payload provider subject now))). }
  assert (str_empty (sign_state hmac b64url body secret) = false) as ->.
  { destruct (sign_state hmac b64url body secret) eqn:E; [|done]. exfalso. by apply (b64_nonempty (hmac secret body)). }
  rewrite String.eqb_refl. cbn [orb negb]. unfold body at 1. rewrite b64_decode, Hjson. cbn [mbind option_bind].
  unfold state_claims, state_payload. change (jget "provider" _) with (Some (JStr provider)).
  change (jget "subject" _) with (Some (JStr subject)). change (jget "iat" _) with (Some (JNum (num_of_Z (now / 1000)))). cbv iota beta.
  assert (now / 1000 <= now' / 1000) by (apply Z.div_le_mono; lia). pose proof (Z.div_pos now 1000 ltac:(lia) ltac:(lia)).
  assert (now' / 1000 <= now') by (apply Z.div_le_upper_bound; lia).
  unfold CLOCK_SKEW_SECONDS. rewrite num_gtb_Z, (proj2 (Z.ltb_ge _ _)) by lia. rewrite num_sub_gtb by lia. rewrite Z.ltb_antisym.
  by destruct (_ <=? maxAge).
Qed.

(** ** Which callback links an account *)

Lemma fetchAccountId_ok {W : Type} (http : OAuthRequest -> SM W ApiError FetchResponse) config token w :
  exists account w', fetchAccountId http config token w = (Ok account, w').
Proof.
  unfold fetchAccountId, scatch. destruct (oc_identity config) as [[url field]|]; [|by exists None, w].
  destruct (sbind _ _ w) as [[account|e] w']; [by exists account, w'|by exists None, w'].
Qed.

(** When tokens of this lifetime, given at [now], end: the argument of the Date. *)
Definition expiry_ms (config : OAuthProviderConfig) (expiresIn : option number) (now : Z) : number :=
  let positive_life := match expiresIn with Some x => negb (num_le x 0) | None => false end in
  if negb positive_life && oc_tokensDoNotExpire config then num_of_Z (now + HUNDRED_YEARS_MS)
  else num_add (num_of_Z now) (num_mul (match expiresIn with Some x => if positive x then x else num_of_Z 0 | None => num_of_Z 0 end) (num_of_Z 1000)).

Lemma expiryFrom_ms {W : Type} (clock : W -> Z) toISOString config expiresIn w :
  expiryFrom clock toISOString config expiresIn w = (toISOString (expiry_ms config expiresIn (clock w)), w).
Proof. unfold expiryFrom, sbind, date_now, read_response, expires_at, expiry_ms. by destruct (negb _ && _). Qed.

Section Callback.
Context {W : Type}.
Context (hmac : string -> string -> string) (b64url unb64url : string -> string) `{!Base64Laws b64url unb64url}.
Context (JSON_parse : string -> option json) (http : OAuthRequest -> SM W ApiError FetchResponse) (clock : W -> Z).
Context (toISOString : number -> result ApiError string) (store : IdentityLinkStore W).

(** [state] is a payload and the signature of that very payload under the secret
    of this gateway, and the payload names the provider and the subject and an
    issue that at [now] is at most ten minutes old, and not in the future by
    more than the tolerated skew. *)
Definition signed_for (state stateSecret provider subject : string) (now : Z) : Prop :=
  exists payloadB64 signatureB64 fields iat,
    state = payloadB64 +:+ "." +:+ signatureB64 /\ includes_char "."%char payloadB64 = false /\ includes_char "."%char signatureB64 = false /\
    payloadB64 <> EmptyString /\ signatureB64 <> EmptyString /\ unb64url signatureB64 = hmac stateSecret payloadB64 /\
    JSON_parse (unb64url payloadB64) = Some (JObj fields) /\ jget "provider" fields = Some (JStr provider) /\
    jget "subject" fields = Some (JStr subject) /\ jget "iat" fields = Some (JNum iat) /\
    num_gtb iat (num_of_Z (now / 1000 + 60)) = false /\ num_gtb (num_sub (num_of_Z (now / 1000)) iat) (num_of_Z 600) = false.

Lemma verifyState_signed state secret provider subject now :
  verifyState hmac b64url unb64url JSON_parse state secret AUTH_CODE_STATE_TTL_SECONDS now = Some (provider, subject) <->
  signed_for state secret provider subject now.
Proof using Type*.
  unfold verifyState, signed_for, sign_state. split.
  - destruct (split_char "."%char state) as [|p [|s [|]]] eqn:Es; try done.
    assert (Hp : includes_char "."%char p = false /\ includes_char "."%char s = false) by (split; eapply split_char_elem_no_sep; rewrite Es; set_solver).
    destruct (str_empty p) eqn:Ep; [done|]. destruct (str_empty s) eqn:Ess; [done|]. cbn [orb]. rewrite b64_decode.
    destruct (String.eqb_spec (hmac secret p) (unb64url s)) as [Hsig|]; [|done]. cbn [negb].
    intros (parsed & Hj & Hc)%bind_Some. unfold state_claims in Hc. destruct parsed as [| | | | |fields]; try done.
    destruct (jget "provider" fields) as [[| | |pr| |]|] eqn:E1; try done. destruct (jget "subject" fields) as [[| | |su| |]|] eqn:E2; try done.
    destruct (jget "iat" fields) as [[| |iat| | |]|] eqn:E3; try done.
    destruct (num_gtb iat _) eqn:E4; [done|]. destruct (num_gtb (num_sub _ _) _) eqn:E5; [done|]. injection Hc as -> ->.
    exists p, s, fields, iat. split_and!; try done; try apply Hp; [|by intros ->..].
    by rewrite <- (join_split_char "."%char state), Es.
  - intros (p & s & fields & iat & -> & Hp & Hs & Hpe & Hse & Hsig & Hj & E1 & E2 & E3 & E4 & E5).
    change (p +:+ "." +:+ s) with (p +:+ String "."%char s). rewrite split_char_app_sep by by apply includes_char_false.
    rewrite split_char_nosep by by apply includes_char_false.
    destruct (str_empty p) eqn:Ep; [by apply str_empty_true in Ep|]. destruct (str_empty s) eqn:Ess; [by apply str_empty_true in Ess|].
    cbn [orb]. rewrite b64_decode, Hsig, String.eqb_refl. cbn [negb]. rewrite Hj. cbn [mbind option_bind].
    unfold state_claims. rewrite E1, E2, E3. unfold CLOCK_SKEW_SECONDS, AUTH_CODE_STATE_TTL_SECONDS. by rewrite E4, E5.
Qed.

(** What the fields of a token endpoint's answer say. *)
Definition text_at (k : string) (fields : list (string * json)) : option string :=
  match jget k fields with Some (JStr s) => Some s | _ => None end.
Definition number_at (k : string) (fields : list (string * json)) : option number :=
  match jget k fields with Some (JNum x) => Some x | _ => None end.

(** The part of the answer that holds the user's token. *)
Definition token_fields (config : OAuthProviderConfig) (fields : list (string * json)) : list (string * json) :=
  if oc_userTokenFromAuthedUser config
  then match jget "authed_user" fields with Some (JObj user) => user | _ => [] end
  else fields.

(** The token endpoint honoured the code: a success, not called a failure in its
    body where the provider does so, that holds a token. *)
Definition honoured (config : OAuthProviderConfig) (res : FetchResponse) (tokens : TokenResponse) (token : string) : Prop :=
  fetch_ok res = true /\ exists fields, fp_json res = Ok (JObj fields) /\
    (oc_resultOkInBody config = true -> jget "ok" fields <> Some (JBool false)) /\
    token <> EmptyString /\ text_at "access_token" (token_fields config fields) = Some token /\
    tokens = mkTokenResponse (Some token) (text_at "refresh_token" (token_fields config fields)) (number_at "expires_in" (token_fields config fields)).

Lemma read_props fields :
  (let? access_token := text_prop "access_token" (JObj fields) in
   let? refresh_token := text_prop "refresh_token" (JObj fields) in
   let? expires_in := number_prop "expires_in" (JObj fields) in
   Ok (mkTokenResponse access_token refresh_token expires_in)) =
  Ok (mkTokenResponse (text_at "access_token" fields) (text_at "refresh_token" fields) (number_at "expires_in" fields)).
Proof. reflexivity. Qed.

(** An answer with no fields has no token. *)
Definition no_token (r : result ApiError TokenResponse) : Prop := forall tokens, r = Ok tokens -> tr_access_token tokens = None.

Lemma read_tokens_honoured config res tokens token :
  read_tokens config res = Ok tokens /\ if_set (tr_access_token tokens) = Some token <-> honoured config res tokens token.
Proof.
  assert (Hset : forall o, if_set o = Some token <-> o = Some token /\ token <> EmptyString).
  { intros [[|c s]|]; cbn; [split; [done|by intros [[= <-] ?]]|split; [by intros [= <-]|by intros [[= <-] ?]]|split; [done|by intros []]]. }
  rewrite Hset. unfold honoured. split.
  - intros [Hr [Ht Hne]]. unfold read_tokens in Hr. destruct (fetch_ok res); [|done]. cbn [negb] in Hr. split; [done|].
    unfold json_of in Hr. destruct (fp_json res) as [raw|]; [|done]. cbn [result_bind] in Hr.
    destruct raw as [| | | | |fields].
    6: { exists fields. split; [done|]. cbn [says_not_ok body_prop result_bind] in Hr.
      destruct (oc_resultOkInBody config) eqn:Eb; cbn in Hr.
      - destruct (jget "ok" fields) as [[|[]| | | |]|] eqn:Ej; try done; unfold token_fields;
          (destruct (oc_userTokenFromAuthedUser config); [|injection Hr as <-; cbn in Ht; unfold text_at, number_at; split_and!; try done; by rewrite <-Ht]);
          (destruct (jget "authed_user" fields) as [[| | | | |]|]; cbn in Hr; try done; injection Hr as <-; cbn in Ht; try done;
            unfold text_at, number_at; split_and!; try done; by rewrite <-Ht).
      - unfold token_fields.
          (destruct (oc_userTokenFromAuthedUser config); [|injection Hr as <-; cbn in Ht; unfold text_at, number_at; split_and!; try done; by rewrite <-Ht]);
          (destruct (jget "authed_user" fields) as [[| | | | |]|]; cbn in Hr; try done; injection Hr as <-; cbn in Ht; try done;
            unfold text_at, number_at; split_and!; try done; by rewrite <-Ht). }
    all: exfalso; revert Hr; destruct (oc_resultOkInBody config), (oc_userTokenFromAuthedUser config); cbn; intros; simplify_eq/=.
  - intros (Hok & fields & Hj & Hb & Hne & Ht & ->). split; [|done]. unfold read_tokens, json_of. rewrite Hok, Hj. cbn [negb result_bind].
    assert (Hf : (if oc_resultOkInBody config then says_not_ok (JObj fields) else Ok false) = Ok false).
    { destruct (oc_resultOkInBody config); [|done]. specialize (Hb eq_refl). cbn. by destruct (jget "ok" fields) as [[|[]| | | |]|]. }
    rewrite Hf. cbn. unfold token_fields in *. destruct (oc_userTokenFromAuthedUser config); cbn; [|by rewrite <- Ht].
    destruct (jget "authed_user" fields) as [[| | | | |user]|]; cbn in *; try done. by rewrite <- Ht.
Qed.

(** C21: A link is only ever made for the one who started it. A callback of a
    provider whose state is not one that this gateway signed for that provider,
    ten minutes old at most, asks nothing, stores nothing and completes nothing.
    With such a state the provider's endpoint is asked with the code that came;
    unless it honours it, nothing is stored; if it does, the one credential that
    is stored is its token, under the subject that the state names, with its
    refresh token, its lifetime and the account that it says the token is of. *)
Theorem link_needs_signed_state (config : OAuthProviderConfig) (stateSecret redirectUri state code : string) (w : W) :
  let complete := completeAuthCode hmac b64url unb64url JSON_parse http clock toISOString store config stateSecret redirectUri state code w in
  let '(answer, w1) := http (token_request config redirectUri
                               [("grant_type", "authorization_code"); ("code", code); ("redirect_uri", redirectUri)]) w in
  ((forall subject, ~ signed_for state stateSecret (oc_name config) subject (clock w)) -> complete = (Ok None, w)) /\
  (forall subject, signed_for state stateSecret (oc_name config) subject (clock w) ->
     ((forall res tokens token, answer = Ok res -> ~ honoured config res tokens token) -> complete = (Ok None, w1)) /\
     (forall res tokens token, answer = Ok res -> honoured config res tokens token ->
        exists account w2, fetchAccountId http config token w1 = (Ok account, w2) /\
        match toISOString (expiry_ms config (tr_expires_in tokens) (clock w2)) with
        | Err e => complete = (Err e, w2)
        | Ok expiresAt =>
            complete =
            (do! _ <- ls_set store (oc_name config) subject (mkLinked EmptyString token expiresAt (tr_refresh_token tokens) None account) ;;
             sret (Some subject)) w2
        end)).
Proof using Type*.
  intros complete. subst complete. destruct (http _ w) as [answer w1] eqn:Eh.
  split.
  - intros Hno. unfold completeAuthCode, sbind, date_now.
    destruct (verifyState _ _ _ _ _ _ _ _) as [[provider subject]|] eqn:Ev; [|done].
    destruct (bool_decide_reflect (provider = oc_name config)) as [->|]; [|done]. by apply verifyState_signed, Hno in Ev.
  - intros subject Hs%verifyState_signed.
    assert (Htry : try_exchange http config redirectUri [("grant_type", "authorization_code"); ("code", code); ("redirect_uri", redirectUri)] w =
      (Ok (match answer with
           | Ok res => match read_tokens config res with
                       | Ok t => token ← if_set (tr_access_token t); Some (token, t)
                       | Err _ => None
                       end
           | Err _ => None
           end), w1)).
    { unfold try_exchange, exchange, scatch, sbind, read_response, sret. rewrite Eh. destruct answer as [res|]; [|done].
      by destruct (read_tokens config res) as [t|]. }
    assert (Hrun : completeAuthCode hmac b64url unb64url JSON_parse http clock toISOString store config stateSecret redirectUri state code w =
      (do! exchanged <- try_exchange http config redirectUri [("grant_type", "authorization_code"); ("code", code); ("redirect_uri", redirectUri)] ;;
       match exchanged with
       | None => sret None
       | Some (token, tokens) =>
           do! account <- fetchAccountId http config token ;;
           do! expiresAt <- expiryFrom clock toISOString config (tr_expires_in tokens) ;;
           do! _ <- ls_set store (oc_name config) subject (mkLinked EmptyString token expiresAt (tr_refresh_token tokens) None account) ;;
           sret (Some subject)
       end) w).
    { unfold completeAuthCode. unfold sbind at 1, date_now at 1. rewrite Hs. by rewrite bool_decide_eq_true_2. }
    rewrite Hrun. clear Hrun. split.
    + intros Hno. unfold sbind at 1. rewrite Htry. destruct answer as [res|]; [|done]. destruct (read_tokens config res) as [t|] eqn:Er; [|done].
      destruct (if_set (tr_access_token t)) as [token|] eqn:Et; [|done]. exfalso. eapply (Hno res t token); [done|].
      by apply read_tokens_honoured.
    + intros res tokens token -> [Hr Ht]%read_tokens_honoured. rewrite Hr, Ht in Htry. cbn [mbind option_bind] in Htry.
      destruct (fetchAccountId_ok http config token w1) as (account & w2 & Ha). exists account, w2. split; [done|].
      unfold sbind. rewrite Htry, Ha, expiryFrom_ms. by destruct (toISOString _).
Qed.
End Callback.

(** ** A flow from its start to its token *)

(** A store that keeps what it is given. *)
Class LinkStoreLaws {W : Type} (store : IdentityLinkStore W) : Prop := {
  link_set_get provider subject cred w :
    exists w', ls_set store provider subject cred w = (Ok tt, w') /\
      ls_get store provider subject w' = (Ok (Some (stored_credential cred)), w')
}.

#[export] Instance k8s_link_store {W : Type} sha256_hex b64 unb64 gcm_seal gcm_open random_iv (api : SecretApi W) wait_for key view
    `{!SecretApiLaws b64 api view, !FieldCodec b64 unb64 gcm_seal gcm_open} :
  (forall w, exists iv w', random_iv w = (Ok iv, w') /\ forall name, view w' name = view w name) ->
  LinkStoreLaws (K8sSecretIdentityLinkStore sha256_hex b64 unb64 gcm_seal gcm_open random_iv api wait_for key).
Proof.
  intros Hiv. split. intros provider subject cred w. cbn [ls_set ls_get K8sSecretIdentityLinkStore].
  destruct (link_fields_view b64 unb64 gcm_seal gcm_open random_iv api wait_for key view Hiv cred w)
    as (fields & w1 & Ef & H1 & Hne & Hkey & Hcred).
  destruct (record_put_view sha256_hex b64 unb64 api view b64_read (store_options provider) subject fields w1) as (w2 & Ep & H2).
  exists w2. split.
  - unfold link_set, scatch, sbind. by rewrite Ef, Ep.
  - unfold link_get, scatch, sbind. rewrite (record_get_view sha256_hex b64 unb64 api view b64_read).
    rewrite H2, decide_True by done. cbn [mbind option_bind]. rewrite own_fields_key by done.
    destruct fields; [done|]. unfold read_credential. by rewrite Hcred.
Qed.

(** A user who follows the link has linked. The state that a start puts in its
    URL, coming back within ten minutes with a code that the provider honours,
    leaves the token under the user's subject, and that token is what the
    subject is then given, as long as it is fresh. *)
Theorem flow_links_account {W : Type} (hmac : string -> string -> string) (b64url unb64url : string -> string)
    (JSON_parse : string -> option json) (http : OAuthRequest -> SM W ApiError FetchResponse) (clock : W -> Z)
    (toISOString : number -> result ApiError string) (Date_parse : string -> number) (store : IdentityLinkStore W)
    `{!Base64Laws b64url unb64url, !LinkStoreLaws store} (config : OAuthProviderConfig) (stateSecret redirectUri subject code : string)
    (started : Z) (w w1 w2 : W) (res : FetchResponse) (tokens : TokenResponse) (token : string) (account : option string) :
  let state := signState hmac b64url (oc_name config) subject stateSecret started in
  (forall a b, hmac a b <> EmptyString) ->
  JSON_parse (JSON_text (state_payload (oc_name config) subject started)) = Some (state_payload (oc_name config) subject started) ->
  0 <= started <= clock w -> clock w < 2 ^ 53 -> clock w / 1000 - started / 1000 <= AUTH_CODE_STATE_TTL_SECONDS ->
  http (token_request config redirectUri [("grant_type", "authorization_code"); ("code", code); ("redirect_uri", redirectUri)]) w = (Ok res, w1) ->
  read_tokens config res = Ok tokens -> if_set (tr_access_token tokens) = Some token ->
  fetchAccountId http config token w1 = (Ok account, w2) ->
  is_ok (toISOString (expiry_ms config (tr_expires_in tokens) (clock w2))) = true ->
  exists w' cred,
    completeAuthCode hmac b64url unb64url JSON_parse http clock toISOString store config stateSecret redirectUri state code w =
      (Ok (Some subject), w') /\
    ls_get store (oc_name config) subject w' = (Ok (Some cred), w') /\ lc_token cred = token /\
    lc_refreshToken cred = if_set (tr_refresh_token tokens) /\
    forall w3, ls_get store (oc_name config) subject w3 = (Ok (Some cred), w3) -> still_fresh Date_parse (lc_expiresAt cred) (clock w3) = true ->
      getValidToken http clock toISOString Date_parse store config redirectUri subject w3 = (Ok (Some token), w3).
Proof.
  intros state Hmac Hjson Hnow Hbig Hage Hhttp Hread Htoken Ha [expiresAt He]%is_ok_true.
  assert (expiryFrom clock toISOString config (tr_expires_in tokens) w2 = (Ok expiresAt, w2)) as He' by by rewrite expiryFrom_ms, He.
  destruct (link_set_get (oc_name config) subject (mkLinked EmptyString token expiresAt (tr_refresh_token tokens) None account) w2)
    as (w' & Hset & Hget).
  eexists w', _. split_and!; [|exact Hget|done|done|].
  - unfold completeAuthCode, sbind, date_now, state. rewrite state_roundtrip by done. rewrite (proj2 (Z.leb_le _ _)) by done.
    rewrite bool_decide_eq_true_2 by done. cbn [negb]. unfold try_exchange, exchange, scatch, sbind, read_response. rewrite Hhttp, Hread.
    unfold sret. cbn [mbind option_bind]. rewrite Htoken. cbn [mbind option_bind]. by rewrite Ha, He', Hset.
  - intros w3 Hget3 Hfresh. unfold getValidToken, sbind, date_now. rewrite Hget3. by rewrite Hfresh.
Qed.

(** ** Samples *)

Definition sample_config : OAuthProviderConfig :=
  mkOAuthProvider "atlassian" kind_authcode "id" (Some "secret") "https://a/authorize" "https://a/token" ["read"] [] true None "scope"
    false false false false.

(** A provider that gives a token for any code. *)
Definition sample_response : FetchResponse :=
  mkFetchResponse 200 (Ok (JObj [("access_token", JStr "at-1"); ("refresh_token", JStr "rt-1"); ("expires_in", JNum (num_of_Z 3600))])) (Ok "").
Definition sample_http (req : OAuthRequest) : SM MemSecrets.Cluster ApiError FetchResponse := sret sample_response.
Definition sample_clock (w : MemSecrets.Cluster) : Z := 60500.
Definition sample_iso (x : number) : result ApiError string := Ok (number_toString x).
Definition sample_date (s : string) : number := if bool_decide (s = "3660500") then num_of_Z 3660500 else NaN.
Definition sample_store : IdentityLinkStore MemSecrets.Cluster :=
  K8sSecretIdentityLinkStore sample_sha nibbles unnibbles sample_seal sample_open sample_iv (MemSecrets.api nibbles)
    (fun _ _ _ => sret None) "k".
Definition sample_state_text : string :=
  Eval vm_compute in JSON_text (state_payload "atlassian" "u1" 500).
Definition sample_state_json (s : string) : option json :=
  if String.eqb s sample_state_text then Some (state_payload "atlassian" "u1" 500) else None.
Definition sample_state : string := signState sample_hmac nibbles "atlassian" "u1" "sec" 500.

#[export] Instance sample_store_laws : LinkStoreLaws sample_store.
Proof. apply (k8s_link_store _ _ _ _ _ _ _ _ _ (fun w name => map_get name w)), sample_iv_ok. Qed.

Lemma state_roundtrip_witness :
  verifyState sample_hmac nibbles unnibbles sample_state_json sample_state "sec" 600 60500 = Some ("atlassian", "u1").
Proof.
  unfold sample_state.
  rewrite (state_roundtrip sample_hmac nibbles unnibbles sample_state_json "atlassian" "u1" "sec" 600 500 60500);
    [reflexivity|done|by vm_compute|lia..].
Defined.

Lemma flow_links_account_witness :
  exists w' cred,
    completeAuthCode sample_hmac nibbles unnibbles sample_state_json sample_http sample_clock sample_iso sample_store sample_config "sec" "https://g/cb"
      sample_state "c0de" [] = (Ok (Some "u1"), w') /\
    ls_get sample_store "atlassian" "u1" w' = (Ok (Some cred), w') /\ lc_token cred = "at-1".
Proof.
  destruct (flow_links_account sample_hmac nibbles unnibbles sample_state_json sample_http sample_clock sample_iso sample_date sample_store
              sample_config "sec" "https://g/cb" "u1" "c0de" 500 [] [] [] sample_response
              (mkTokenResponse (Some "at-1") (Some "rt-1") (Some (num_of_Z 3600))) "at-1" None)
    as (w' & cred & H1 & H2 & H3 & _); try done; try (by vm_compute); try (unfold sample_clock, AUTH_CODE_STATE_TTL_SECONDS; vm_compute; split; congruence).
  by exists w', cred.
Defined.

Lemma sample_state_signed : signed_for sample_hmac unnibbles sample_state_json sample_state "sec" "atlassian" "u1" 60500.
Proof. apply (verifyState_signed sample_hmac nibbles unnibbles sample_state_json). vm_compute. reflexivity. Qed.

(** A forged state links nothing, and the one that was signed links its subject. *)
Lemma link_needs_signed_state_witness :
  completeAuthCode sample_hmac nibbles unnibbles sample_state_json sample_http sample_clock sample_iso sample_store sample_config "sec" "https://g/cb"
    "forged.state" "c0de" [] = (Ok None, []) /\
  exists w', completeAuthCode sample_hmac nibbles unnibbles sample_state_json sample_http sample_clock sample_iso sample_store sample_config "sec"
    "https://g/cb" sample_state "c0de" [] = (Ok (Some "u1"), w').
Proof.
  split.
  - apply (link_needs_signed_state sample_hmac nibbles unnibbles sample_state_json sample_http sample_clock sample_iso sample_store).
    intros subject H%(verifyState_signed sample_hmac nibbles unnibbles sample_state_json). revert H.
    unfold verifyState. change (split_char "."%char "forged.state") with ["forged"; "state"]. cbn [str_empty orb].
    assert (String.eqb (unnibbles (sign_state sample_hmac nibbles "forged" "sec")) (unnibbles "state") = false) as -> by by vm_compute.
    done.
  - pose proof (proj2 (link_needs_signed_state sample_hmac nibbles unnibbles sample_state_json sample_http sample_clock sample_iso sample_store
      sample_config "sec" "https://g/cb" sample_state "c0de" []) "u1" sample_state_signed) as [_ H].
    destruct (H sample_response (mkTokenResponse (Some "at-1") (Some "rt-1") (Some (num_of_Z 3600))) "at-1" eq_refl) as (account & w2 & Ha & Hc).
    { apply read_tokens_honoured. by vm_compute. }
    injection Ha as <- <-. eexists. etransitivity; [exact Hc|]. vm_compute. reflexivity.
Defined.

(** A link that expired: its refresh token is used. *)
Definition sample_linked : MemSecrets.Cluster :=
  Eval vm_compute in (ls_set sample_store "atlassian" "u1" (mkLinked EmptyString "at-0" "long ago" (Some "rt-0") None None) []).2.

Lemma valid_token_usable_witness :
  (getValidToken sample_http sample_clock sample_iso sample_date sample_store sample_config "https://g/cb" "u1" sample_linked).1 = Ok (Some "at-1") /\
  exists stored, gave (ls_get sample_store "atlassian" "u1") (Some stored).
Proof.
  assert ((getValidToken sample_http sample_clock sample_iso sample_date sample_store sample_config "https://g/cb" "u1" sample_linked).1 =
          Ok (Some "at-1")) as Hrun by (vm_compute; reflexivity).
  split; [done|].
  destruct (valid_token_usable sample_http sample_clock sample_iso sample_date sample_store (fun _ => True)
              ltac:(by intros ? ? ?) ltac:(by intros ? ? ? ?) sample_config "https://g/cb" "u1" ltac:(by intros) sample_linked I) as [_ H].
  destruct (H _ Hrun "at-1" eq_refl) as (stored & Hs & _). by exists stored.
Defined.
