(* ===== verification/LinkApi.v ===== *)
(** * Integration gateway: the API of identity links

    The routes under /identity-link: the browser's callback, and the internal
    ones that the orchestrator calls with its token
    (apps/integration-gateway/src/identity-link/api.ts, in the order in which
    server.ts tries them), over the linkers of OAuthLink.

    A linker is the record of its operations, as the API sees it. *)

From stdpp Require Import base gmap strings list.
From Stdlib Require Import ZArith Lia Ascii Bool.
From S2P Require Import Prelude JsString JsNumber Json JsMap JsList JsonText Fetch Rbac RecordStore OAuthLink.

#[local] Open Scope Z_scope.

(** ** Requests and replies *)

Record ApiRequest := mkApiRequest {
  aq_method : string;
  aq_path : string;
  aq_query : list (string * string);
  aq_authorization : option string;
  aq_body : string
}.

Inductive ApiReply :=
| ar_empty (status : Z)
| ar_json (status : Z) (body : json)
| ar_text (status : Z) (text : string)
| ar_html (status : Z) (page : string)
| ar_redirect (location : string).

Definition reply_status (r : ApiReply) : Z :=
  match r with
  | ar_empty status | ar_json status _ | ar_text status _ | ar_html status _ => status
  | ar_redirect _ => 303
  end.

(** [/^Bearer (.+)$/] *)
Definition bearer_of (header : string) : option string :=
  if startsWith "Bearer " header
  then
    let rest := str_drop 7 header in
    if str_empty rest || negb (str_forall (fun c => negb (Ascii.eqb nl c) && negb (Ascii.eqb "013"%char c)) rest) then None else Some rest
  else None.

Definition checkBearer (req : ApiRequest) (expectedToken : string) : bool :=
  match if_set (aq_authorization req) with
  | None => false
  | Some header => negb (str_empty expectedToken) && bool_decide (bearer_of header = Some expectedToken)
  end.

Definition html_char (c : ascii) : string :=
  if Ascii.eqb c "&"%char then "&amp;"
  else if Ascii.eqb c "<"%char then "&lt;"
  else if Ascii.eqb c ">"%char then "&gt;"
  else if Ascii.eqb c dquote then "&quot;"
  else String c EmptyString.

(** The replacements one after the other: the first makes no other character
    that is replaced. *)
Definition escapeHtml (raw : string) : string := str_concat (html_char <$> String.list_ascii_of_string raw).

Definition dq : string := String dquote EmptyString.

Definition htmlPage (title message : string) : string :=
  join nl_s
    ["<!doctype html>"; "<html>"; "<head>"; "<meta charset=" +:+ dq +:+ "utf-8" +:+ dq +:+ ">";
     "<meta name=" +:+ dq +:+ "viewport" +:+ dq +:+ " content=" +:+ dq +:+ "width=device-width, initial-scale=1" +:+ dq +:+ ">";
     "<title>" +:+ escapeHtml title +:+ "</title>"; "<style>";
     "  body { font-family: system-ui, sans-serif; max-width: 32rem; margin: 4rem auto; padding: 0 1rem; color: #1a1a1a; }";
     "  h1 { font-size: 1.25rem; }"; "</style>"; "</head>"; "<body>"; "<h1>" +:+ escapeHtml title +:+ "</h1>";
     "<p>" +:+ escapeHtml message +:+ "</p>"; "</body>"; "</html>"].

Definition upper_first (s : string) : string :=
  match s with
  | String c rest => String (if is_lower c then ascii_of_N (code c - 32) else c) rest
  | EmptyString => EmptyString
  end.

Definition providerDisplayName (provider : string) : string :=
  if bool_decide (provider = "github") then "GitHub" else upper_first provider.

Definition MAX_WAIT_MS : Z := 10 * 60 * 1000.

Definition path_segments (path : string) : list string := List.filter (fun p => negb (str_empty p)) (split_char "/"%char path).

(** The provider and the action of a path under /identity-link. *)
Definition api_route (req : ApiRequest) : option (string * string) :=
  match path_segments (aq_path req) with
  | [root; provider; action] => if bool_decide (root = "identity-link") then Some (provider, action) else None
  | _ => None
  end.

Definition callback_provider (req : ApiRequest) : option string :=
  if bool_decide (aq_method req = "GET")
  then match api_route req with
       | Some (provider, action) => if bool_decide (action = "callback") then Some provider else None
       | None => None
       end
  else None.

(** ** The linkers *)

Record GithubLinker (W : Type) := mkGithubLinker {
  gl_start : string -> SM W ApiError DeviceFlowStart;
  gl_poll : string -> string -> SM W ApiError PollStatus;
  gl_startAuthCode : string -> SM W ApiError string;
  gl_completeAuthCode : string -> string -> SM W ApiError (option string);
  gl_waitForCompletion : string -> number -> SM W ApiError (option (string * string));
  gl_getValidToken : string -> SM W ApiError (option (string * string));
  gl_getLinkedLogin : string -> SM W ApiError (option string)
}.
Arguments mkGithubLinker {W}.
Arguments gl_start {W} g.
Arguments gl_poll {W} g.
Arguments gl_startAuthCode {W} g.
Arguments gl_completeAuthCode {W} g.
Arguments gl_waitForCompletion {W} g.
Arguments gl_getValidToken {W} g.
Arguments gl_getLinkedLogin {W} g.

Record AuthCodeLinker (W : Type) := mkAuthCodeLinker {
  al_startAuthCode : string -> SM W ApiError string;
  al_completeAuthCode : string -> string -> SM W ApiError (option string);
  al_waitForCompletion : string -> number -> SM W ApiError (option string);
  al_getValidToken : string -> SM W ApiError (option string);
  al_getLinkedAccountId : string -> SM W ApiError (option string)
}.
Arguments mkAuthCodeLinker {W}.
Arguments al_startAuthCode {W} a.
Arguments al_completeAuthCode {W} a.
Arguments al_waitForCompletion {W} a.
Arguments al_getValidToken {W} a.
Arguments al_getLinkedAccountId {W} a.

(** ** The API *)

Section Api.
Context {W : Type}.
Variable JSON_parse : string -> option json.
Variable linker : GithubLinker W.
Variable identityLinkToken : string.
Variable authCodeLinkers : jsmap (AuthCodeLinker W).
(** The hooks of the Connections page: where to send the browser. *)
Variables completionRedirect cancelRedirect : option (ApiRequest -> string -> SM W ApiError (option string)).

Definition supports (provider : string) : bool :=
  bool_decide (provider = "github") || bool_decide (is_Some (map_get provider authCodeLinkers)).

Definition api_error (message : string) : ApiReply := ar_json 400 (JObj [("error", JStr message)]).

Definition unsupported (provider : string) : ApiReply := api_error ("Unsupported identity provider: " +:+ provider).

Definition redirect_for (hook : option (ApiRequest -> string -> SM W ApiError (option string))) (req : ApiRequest) (provider : string) :
    SM W ApiError (option string) :=
  match hook with
  | Some hook => do! back <- hook req provider ;; sret (if_set back)
  | None => sret None
  end.

Definition malformed : ApiReply :=
  ar_html 400 (htmlPage "Link request malformed" "This link is missing required information. Please try again from chat.").

Definition complete_link (provider state code : string) : SM W ApiError (option string) :=
  match map_get provider authCodeLinkers with
  | Some authCode => al_completeAuthCode authCode state code
  | None => gl_completeAuthCode linker state code
  end.

(** [None]: the path is not this route's. *)
Definition handleCallback (req : ApiRequest) : SM W ApiError (option ApiReply) :=
  match callback_provider req with
  | Some provider =>
      if negb (supports provider) then sret (Some (ar_text 400 ("Unsupported identity provider: " +:+ provider)))
      else
        let displayName := providerDisplayName provider in
        match if_set (own_get "state" (aq_query req)) with
        | None => sret (Some malformed)
        | Some state =>
            if truthy_str (own_get "error" (aq_query req)) then
              do! back <- redirect_for cancelRedirect req provider ;;
              sret (Some (match back with
                          | Some location => ar_redirect location
                          | None => ar_html 200 (htmlPage (displayName +:+ " link cancelled")
                                                   "You declined the request. You can try again whenever you're ready.")
                          end))
            else
              match if_set (own_get "code" (aq_query req)) with
              | None => sret (Some malformed)
              | Some code =>
                  do! completed <- complete_link provider state code ;;
                  match completed with
                  | None =>
                      sret (Some (ar_html 400 (htmlPage "Link expired"
                                    "This link may have expired or already been used -- please try again from chat.")))
                  | Some _ =>
                      do! back <- redirect_for completionRedirect req provider ;;
                      sret (Some (match back with
                                  | Some location => ar_redirect location
                                  | None => ar_html 200 (htmlPage (displayName +:+ " account linked")
                                                           "You can close this tab and return to your chat.")
                                  end))
                  end
              end
        end
  | None => sret None
  end.

(** A text field of a body that may not have parsed. *)
Definition text_field (k : string) (body : option json) : option string :=
  match body with
  | Some (JObj fields) => match jget k fields with Some (JStr s) => Some s | _ => None end
  | _ => None
  end.

Definition field_of (k : string) (body : option json) : option json :=
  match body with
  | Some (JObj fields) => jget k fields
  | _ => None
  end.

Definition authcode_started (url : string) : ApiReply :=
  ar_json 200 (JObj [("flow", JStr "authcode"); ("authorizeUrl", JStr url);
                     ("expiresInSeconds", JNum (num_of_Z AUTH_CODE_STATE_TTL_SECONDS))]).

Definition device_started (d : DeviceFlowStart) : ApiReply :=
  ar_json 200 (JObj [("flow", JStr "device"); ("verificationUri", JStr (df_verificationUri d)); ("userCode", JStr (df_userCode d));
                     ("deviceCode", JStr (df_deviceCode d)); ("expiresInSeconds", JNum (df_expiresInSeconds d));
                     ("pollIntervalSeconds", JNum (df_pollIntervalSeconds d))]).

(** [None] is a flow that is neither; [Some None] none at all. *)
Definition raw_flow (v : option json) : option (option OAuthFlowKind) :=
  match v with
  | None => Some None
  | Some (JStr s) => if bool_decide (s = "device") then Some (Some kind_device)
                     else if bool_decide (s = "authcode") then Some (Some kind_authcode) else None
  | Some _ => None
  end.

Definition handleStart (req : ApiRequest) (provider : string) : SM W ApiError ApiReply :=
  if negb (supports provider) then sret (unsupported provider)
  else
    let body := JSON_parse (aq_body req) in
    match text_field "subject" body with
    | None => sret (api_error "Request body must be JSON with a string `subject` field")
    | Some subject =>
        match raw_flow (field_of "flow" body) with
        | None => sret (api_error ("`flow` must be " +:+ dq +:+ "device" +:+ dq +:+ " or " +:+ dq +:+ "authcode" +:+ dq +:+ " if present"))
        | Some rawFlow =>
            match map_get provider authCodeLinkers with
            | Some authCode =>
                if bool_decide (rawFlow = Some kind_device) then sret (api_error (provider +:+ " supports the authcode flow only"))
                else do! url <- al_startAuthCode authCode subject ;; sret (authcode_started url)
            | None =>
                if bool_decide (rawFlow = Some kind_authcode)
                then do! url <- gl_startAuthCode linker subject ;; sret (authcode_started url)
                else do! started <- gl_start linker subject ;; sret (device_started started)
            end
        end
    end.

Definition poll_status_text (s : PollStatus) : string :=
  match s with
  | ps_pending => "pending"
  | ps_complete => "complete"
  | ps_expired => "expired"
  | ps_denied => "denied"
  end.

Definition handlePoll (req : ApiRequest) (provider : string) : SM W ApiError ApiReply :=
  if negb (supports provider) then sret (unsupported provider)
  else
    let body := JSON_parse (aq_body req) in
    match text_field "subject" body, text_field "deviceCode" body with
    | Some subject, Some deviceCode =>
        if bool_decide (is_Some (map_get provider authCodeLinkers))
        then sret (api_error (provider +:+ " does not use the device flow; poll does not apply"))
        else do! polled <- gl_poll linker subject deviceCode ;; sret (ar_json 200 (JObj [("status", JStr (poll_status_text polled))]))
    | _, _ => sret (api_error "Request body must be JSON with string `subject` and `deviceCode` fields")
    end.

Definition wait_timeout (v : option json) : number :=
  match v with
  | Some (JNum x) => if positive x then num_min x MAX_WAIT_MS else num_of_Z MAX_WAIT_MS
  | _ => num_of_Z MAX_WAIT_MS
  end.

(** What a wait answers, and the token inside it. *)
Definition wait_reply (token : option (list (string * json))) : ApiReply :=
  ar_json 200 (JObj (match token with
                     | Some fields => [("status", JStr "complete"); ("token", JObj fields)]
                     | None => [("status", JStr "timeout")]
                     end)).

Definition token_fields (t : string * string) : list (string * json) := [("token", JStr t.1); ("githubLogin", JStr t.2)].

Definition handleWait (req : ApiRequest) (provider : string) : SM W ApiError ApiReply :=
  if negb (supports provider) then sret (unsupported provider)
  else
    let body := JSON_parse (aq_body req) in
    match text_field "subject" body with
    | None => sret (api_error "Request body must be JSON with a string `subject` field")
    | Some subject =>
        let timeoutMs := wait_timeout (field_of "timeoutMs" body) in
        match map_get provider authCodeLinkers with
        | Some authCode =>
            do! landed <- al_waitForCompletion authCode subject timeoutMs ;;
            sret (wait_reply ((fun t => [("token", JStr t)]) <$> landed))
        | None => do! token <- gl_waitForCompletion linker subject timeoutMs ;; sret (wait_reply (token_fields <$> token))
        end
    end.

(** The routes that name a subject in their query. *)
Definition with_subject (req : ApiRequest) (provider : string) (k : string -> SM W ApiError ApiReply) : SM W ApiError ApiReply :=
  if negb (supports provider) then sret (unsupported provider)
  else
    match if_set (own_get "subject" (aq_query req)) with
    | None => sret (api_error "Query parameter `subject` is required")
    | Some subject => k subject
    end.

Definition handleIdentity (req : ApiRequest) (provider : string) : SM W ApiError ApiReply :=
  with_subject req provider (fun subject =>
    match map_get provider authCodeLinkers with
    | Some authCode =>
        do! accountId <- al_getLinkedAccountId authCode subject ;;
        sret (match if_set accountId with
              | None => ar_empty 404
              | Some id => ar_json 200 (JObj [("accountId", JStr id)])
              end)
    | None =>
        do! githubLogin <- gl_getLinkedLogin linker subject ;;
        sret (match if_set githubLogin with
              | None => ar_empty 404
              | Some login => ar_json 200 (JObj [("githubLogin", JStr login)])
              end)
    end).

Definition handleToken (req : ApiRequest) (provider : string) : SM W ApiError ApiReply :=
  with_subject req provider (fun subject =>
    do! token <- match map_get provider authCodeLinkers with
                 | Some authCode => do! t <- al_getValidToken authCode subject ;; sret ((fun t => [("token", JStr t)]) <$> t)
                 | None => do! t <- gl_getValidToken linker subject ;; sret (token_fields <$> t)
                 end ;;
    sret (match token with
          | None => ar_empty 404
          | Some fields => ar_json 200 (JObj fields)
          end)).

Definition handle (req : ApiRequest) : SM W ApiError (option ApiReply) :=
  match api_route req with
  | Some (provider, action) =>
      if negb (checkBearer req identityLinkToken) then sret (Some (ar_empty 401))
      else
        do! reply <-
          (if bool_decide (aq_method req = "POST") && bool_decide (action = "start") then handleStart req provider
           else if bool_decide (aq_method req = "POST") && bool_decide (action = "poll") then handlePoll req provider
           else if bool_decide (aq_method req = "GET") && bool_decide (action = "identity") then handleIdentity req provider
           else if bool_decide (aq_method req = "GET") && bool_decide (action = "token") then handleToken req provider
           else if bool_decide (aq_method req = "POST") && bool_decide (action = "wait") then handleWait req provider
           else sret (ar_empty 404)) ;;
        sret (Some reply)
  | None => sret None
  end.

(** The two in the order of the server: the callback before the gate. *)
Definition identity_link_routes (req : ApiRequest) : SM W ApiError (option ApiReply) :=
  do! callback <- handleCallback req ;;
  match callback with
  | Some reply => sret (Some reply)
  | None => handle req
  end.
End Api.

(** *** The linkers of OAuthLink *)

Section Linkers.
Context {W : Type}.
Variable hmac : string -> string -> string.
Variables b64url unb64url : string -> string.
Variable JSON_parse : string -> option json.
Variable http : OAuthRequest -> SM W ApiError FetchResponse.
Variable clock : W -> Z.
Variable toISOString : number -> result ApiError string.
Variable Date_parse : string -> number.
Variable query_string : list (string * string) -> string.
Variable url_with : string -> list (string * string) -> string.
Variable store : IdentityLinkStore W.

Definition GithubDeviceFlowLinker (options : DeviceFlowOptions) : GithubLinker W :=
  mkGithubLinker (device_start http options) (device_poll http clock toISOString store options)
    (github_startAuthCode hmac b64url clock query_string options)
    (github_completeAuthCode hmac b64url unb64url JSON_parse http clock toISOString store options)
    (github_waitForCompletion store) (github_getValidToken http clock toISOString Date_parse store options) (getLinkedLogin store).

Definition OAuthAuthCodeLinker (stateSecret redirectUri : string) (config : OAuthProviderConfig) : AuthCodeLinker W :=
  mkAuthCodeLinker (startAuthCode hmac b64url clock url_with config stateSecret redirectUri)
    (completeAuthCode hmac b64url unb64url JSON_parse http clock toISOString store config stateSecret redirectUri)
    (waitForCompletion store config) (getValidToken http clock toISOString Date_parse store config redirectUri)
    (getLinkedAccountId store config).
End Linkers.

(** ** Properties *)

Lemma html_char_inert c :
  str_forall (fun d => negb (Ascii.eqb d "<"%char) && negb (Ascii.eqb d ">"%char) && negb (Ascii.eqb d dquote)) (html_char c) = true.
Proof. destruct c as [[] [] [] [] [] [] [] []]; vm_compute; reflexivity. Qed.

(** What a page says is text: nothing that is put into a page opens or closes a
    tag or a quoted attribute. *)
Theorem escaped_inert (raw : string) :
  str_forall (fun d => negb (Ascii.eqb d "<"%char) && negb (Ascii.eqb d ">"%char) && negb (Ascii.eqb d dquote)) (escapeHtml raw) = true.
Proof.
  unfold escapeHtml. induction (String.list_ascii_of_string raw) as [|c cs IH]; [done|]. csimpl.
  by rewrite str_forall_app, html_char_inert, IH.
Qed.

(** A page or a redirect: no credential is in it. *)
Definition browser_reply (r : ApiReply) : bool :=
  match r with
  | ar_text _ _ | ar_html _ _ | ar_redirect _ => true
  | _ => false
  end.

Lemma handleCallback_reply {W : Type} (linker : GithubLinker W) (authCodeLinkers : jsmap (AuthCodeLinker W)) completionRedirect cancelRedirect
    (req : ApiRequest) (w w' : W) (r : option ApiReply) :
  handleCallback linker authCodeLinkers completionRedirect cancelRedirect req w = (Ok r, w') ->
  (callback_provider req = None /\ r = None /\ w' = w) \/
  (is_Some (callback_provider req) /\ exists reply, r = Some reply /\ browser_reply reply = true).
Proof.
  unfold handleCallback. destruct (callback_provider req) as [provider|]; [|intros [= <- <-]; by left].
  intros H. right. split; [done|]. revert H. unfold sbind, sret, redirect_for.
  repeat case_match; intros; simplify_eq; try done; eexists; split; try reflexivity; done.
Qed.

(** No credential leaves the gateway without its token. To a request that does
    not carry the token of the API, the routes say 401 without having called
    anything, or that the path is not theirs; all but the browser's callback,
    whose answer is a page or a redirect and never a credential. *)
Theorem routes_guarded {W : Type} (JSON_parse : string -> option json) (linker : GithubLinker W) (identityLinkToken : string)
    (authCodeLinkers : jsmap (AuthCodeLinker W)) completionRedirect cancelRedirect (req : ApiRequest) (w w' : W) (r : option ApiReply) :
  checkBearer req identityLinkToken = false ->
  identity_link_routes JSON_parse linker identityLinkToken authCodeLinkers completionRedirect cancelRedirect req w = (Ok r, w') ->
  ((r = None \/ r = Some (ar_empty 401)) /\ w' = w) \/
  (is_Some (callback_provider req) /\ exists reply, r = Some reply /\ browser_reply reply = true).
Proof.
  intros Hbearer. unfold identity_link_routes, sbind at 1.
  destruct (handleCallback _ _ _ _ req w) as [[r1|e] w1] eqn:Ec; [|done].
  destruct (handleCallback_reply _ _ _ _ _ _ _ _ Ec) as [(_ & -> & ->)|[Hp (reply & -> & Hreply)]].
  - unfold handle. destruct (api_route req) as [[provider action]|]; [|intros [= <- <-]; left; split; [by left|done]].
    rewrite Hbearer. intros [= <- <-]. left. split; [by right|done].
  - intros [= <- <-]. right. split; [done|]. by exists reply.
Qed.

Lemma routes_guarded_witness :
  identity_link_routes (fun _ => None) (mkGithubLinker (W := unit) (fun _ => sthrow (plain_error "")) (fun _ _ => sthrow (plain_error ""))
      (fun _ => sthrow (plain_error "")) (fun _ _ => sthrow (plain_error "")) (fun _ _ => sthrow (plain_error ""))
      (fun _ => sret (Some ("tok", "octo"))) (fun _ => sthrow (plain_error ""))) "s3cret" [] None None
    (mkApiRequest "GET" "/identity-link/github/token" [("subject", "u1")] (Some "Bearer guess") "") tt = (Ok (Some (ar_empty 401)), tt).
Proof.
  match goal with |- ?m tt = _ => destruct (m tt) as [r w'] eqn:E; assert (exists a, r = Ok a) as [a ->] by (vm_compute in E; injection E as <- _; eauto) end.
  destruct (routes_guarded _ _ _ _ _ _ _ _ _ _ (eq_refl : checkBearer
              (mkApiRequest "GET" "/identity-link/github/token" [("subject", "u1")] (Some "Bearer guess") "") "s3cret" = false) E)
    as [[[->| ->] ->]|[[p Hp] _]]; [by vm_compute in E|done|by vm_compute in Hp].
Defined.

(** C22: From the chat to the token, over the routes. The URL that an authorized
    start gives carries a state; the browser that comes back with that state
    within ten minutes, and with a code that the provider honours with tokens
    whose end is a date, finds the account linked and is told so, or is sent
    where the hook of the Connections page says, if there is one; and an
    authorized request for the token of that subject is then given the token,
    as long as the link is stored and fresh. *)
Theorem link_journey {W : Type} (hmac : string -> string -> string) (b64url unb64url : string -> string)
    (JSON_parse : string -> option json) (http : OAuthRequest -> SM W ApiError FetchResponse) (clock : W -> Z)
    (toISOString : number -> result ApiError string) (Date_parse : string -> number) (url_with : string -> list (string * string) -> string)
    (store : IdentityLinkStore W) `{!Base64Laws b64url unb64url, !LinkStoreLaws store} (linker : GithubLinker W)
    (authCodeLinkers : jsmap (AuthCodeLinker W)) (config : OAuthProviderConfig) (apiToken stateSecret redirectUri subject code : string)
    (completionRedirect cancelRedirect : option (ApiRequest -> string -> SM W ApiError (option string)))
    (w0 w w1 w2 : W) (res : FetchResponse) (tokens : TokenResponse) (token : string) (account : option string)
    (start_req callback_req token_req : ApiRequest) :
  let routes := identity_link_routes JSON_parse linker apiToken authCodeLinkers completionRedirect cancelRedirect in
  let state := signState hmac b64url (oc_name config) subject stateSecret (clock w0) in
  map_get (oc_name config) authCodeLinkers =
    Some (OAuthAuthCodeLinker hmac b64url unb64url JSON_parse http clock toISOString Date_parse url_with store stateSecret redirectUri config) ->
  (* the start *)
  aq_method start_req = "POST" -> api_route start_req = Some (oc_name config, "start") -> checkBearer start_req apiToken = true ->
  text_field "subject" (JSON_parse (aq_body start_req)) = Some subject -> field_of "flow" (JSON_parse (aq_body start_req)) = None ->
  (* the browser *)
  callback_provider callback_req = Some (oc_name config) -> own_get "state" (aq_query callback_req) = Some state ->
  own_get "error" (aq_query callback_req) = None -> own_get "code" (aq_query callback_req) = Some code -> code <> EmptyString ->
  state <> EmptyString -> (forall a b, hmac a b <> EmptyString) ->
  JSON_parse (JSON_text (state_payload (oc_name config) subject (clock w0))) = Some (state_payload (oc_name config) subject (clock w0)) ->
  0 <= clock w0 <= clock w -> clock w < 2 ^ 53 -> clock w / 1000 - clock w0 / 1000 <= AUTH_CODE_STATE_TTL_SECONDS ->
  http (token_request config redirectUri [("grant_type", "authorization_code"); ("code", code); ("redirect_uri", redirectUri)]) w = (Ok res, w1) ->
  read_tokens config res = Ok tokens -> if_set (tr_access_token tokens) = Some token ->
  fetchAccountId http config token w1 = (Ok account, w2) ->
  is_ok (toISOString (expiry_ms config (tr_expires_in tokens) (clock w2))) = true ->
  (* the token *)
  aq_method token_req = "GET" -> api_route token_req = Some (oc_name config, "token") -> checkBearer token_req apiToken = true ->
  own_get "subject" (aq_query token_req) = Some subject -> subject <> EmptyString ->
  routes start_req w0 = (Ok (Some (authcode_started (url_with (oc_authorizeUrl config) (authorize_params config redirectUri state)))), w0) /\
  let linked := ar_html 200 (htmlPage (providerDisplayName (oc_name config) +:+ " account linked") "You can close this tab and return to your chat.") in
  exists w' cred,
    ls_get store (oc_name config) subject w' = (Ok (Some cred), w') /\ lc_token cred = token /\
    routes callback_req w =
      (match completionRedirect with
       | None => (Ok (Some linked), w')
       | Some hook =>
           (do! back <- hook callback_req (oc_name config) ;;
            sret (Some (match if_set back with Some location => ar_redirect location | None => linked end))) w'
       end) /\
    forall w3, ls_get store (oc_name config) subject w3 = (Ok (Some cred), w3) -> still_fresh Date_parse (lc_expiresAt cred) (clock w3) = true ->
      routes token_req w3 = (Ok (Some (ar_json 200 (JObj [("token", JStr token)]))), w3).
Proof.
  intros routes state Hlinker Hsm Hsr Hsb Hss Hsf Hcp Hcs Hce Hcc Hcode Hstate Hmac Hjson Hnow Hbig Hage Hhttp Hread Htoken Haccount Hiso
    Htm Htr Htb Hts Hsubject.
  assert (supports authCodeLinkers (oc_name config) = true) as Hsup.
  { unfold supports. rewrite Hlinker. by rewrite orb_true_r. }
  assert (callback_provider start_req = None) as Hs0 by (unfold callback_provider; by rewrite Hsm).
  assert (callback_provider token_req = None) as Ht0 by (unfold callback_provider; by rewrite Htm, Htr).
  split.
  - unfold routes, identity_link_routes, handleCallback. rewrite Hs0. unfold sbind, sret, handle. rewrite Hsr, Hsb, Hsm. cbn [negb].
    unfold sbind, handleStart, sret. cbn [bool_decide andb]. change (bool_decide ("POST" = "POST") && bool_decide ("start" = "start")) with true.
    cbv iota. rewrite Hsup, Hss, Hsf, Hlinker. cbn [negb raw_flow]. reflexivity.
  - destruct (flow_links_account hmac b64url unb64url JSON_parse http clock toISOString Date_parse store config stateSecret redirectUri
                subject code (clock w0) w w1 w2 res tokens token account) as (w' & cred & Hcomplete & Hget & Htok & _ & Hvalid); [done..|].
    fold state in Hcomplete. exists w', cred. split_and!; [done|done| |].
    + unfold routes, identity_link_routes, handleCallback. rewrite Hcp. unfold sbind. rewrite Hsup, Hcs, Hce, Hcc. cbn [negb].
      assert (forall s, s <> EmptyString -> if_set (Some s) = Some s) as Hset by by intros [].
      rewrite !Hset by done. change (truthy_str None) with false. cbv iota. unfold complete_link. rewrite Hlinker.
      cbn [al_completeAuthCode OAuthAuthCodeLinker]. rewrite Hcomplete. unfold redirect_for. destruct completionRedirect as [hook|]; [|done].
      unfold sbind. destruct (hook _ _ w') as [[back|e] w4]; [|done]. cbn. by destruct (if_set back).
    + intros w3 Hget3 Hfresh. specialize (Hvalid w3 Hget3 Hfresh). unfold routes, identity_link_routes, handleCallback. rewrite Ht0. unfold sbind, sret, handle.
      rewrite Htr, Htb, Htm. cbn [negb].
      change (bool_decide ("GET" = "POST")) with false. change (bool_decide ("GET" = "GET")) with true.
      change (bool_decide ("token" = "identity")) with false. change (bool_decide ("token" = "token")) with true. cbn [andb]. cbv iota.
      unfold handleToken, with_subject, sbind, sret. rewrite Hsup, Hts. cbn [negb].
      assert (if_set (Some subject) = Some subject) as -> by by destruct subject.
      rewrite Hlinker. cbn [al_getValidToken OAuthAuthCodeLinker]. rewrite Hvalid. reflexivity.
Qed.

(** ** Samples *)

Definition journey_state_text : string := Eval vm_compute in JSON_text (state_payload "atlassian" "u1" 60500).
Definition journey_json (s : string) : option json :=
  if String.eqb s journey_state_text then Some (state_payload "atlassian" "u1" 60500)
  else if String.eqb s "u1 please" then Some (JObj [("subject", JStr "u1")]) else None.
Definition journey_url (url : string) (params : list (string * string)) : string := url +:+ "?state=" +:+ (own_get "state" params ?? EmptyString).
Definition journey_linker : AuthCodeLinker MemSecrets.Cluster :=
  OAuthAuthCodeLinker sample_hmac nibbles unnibbles journey_json sample_http sample_clock sample_iso sample_date journey_url sample_store "sec"
    "https://g/cb" sample_config.
Definition no_github : GithubLinker MemSecrets.Cluster :=
  mkGithubLinker (fun _ => sthrow (plain_error "")) (fun _ _ => sthrow (plain_error "")) (fun _ => sthrow (plain_error ""))
    (fun _ _ => sret None) (fun _ _ => sret None) (fun _ => sret None) (fun _ => sret None).
Definition journey_state : string := signState sample_hmac nibbles "atlassian" "u1" "sec" 60500.

Lemma link_journey_witness :
  exists w' cred,
    identity_link_routes journey_json no_github "tok" [("atlassian", journey_linker)] None None
      (mkApiRequest "GET" "/identity-link/atlassian/callback" [("state", journey_state); ("code", "c0de")] None "") [] =
      (Ok (Some (ar_html 200 (htmlPage (providerDisplayName "atlassian" +:+ " account linked") "You can close this tab and return to your chat."))), w') /\
    ls_get sample_store "atlassian" "u1" w' = (Ok (Some cred), w').
Proof.
  destruct (link_journey sample_hmac nibbles unnibbles journey_json sample_http sample_clock sample_iso sample_date journey_url sample_store
              no_github [("atlassian", journey_linker)] sample_config "tok" "sec" "https://g/cb" "u1" "c0de" None None [] [] [] [] sample_response
              (mkTokenResponse (Some "at-1") (Some "rt-1") (Some (num_of_Z 3600))) "at-1" None
              (mkApiRequest "POST" "/identity-link/atlassian/start" [] (Some "Bearer tok") "u1 please")
              (mkApiRequest "GET" "/identity-link/atlassian/callback" [("state", journey_state); ("code", "c0de")] None "")
              (mkApiRequest "GET" "/identity-link/atlassian/token" [("subject", "u1")] (Some "Bearer tok") ""))
    as (_ & w' & cred & Hget & _ & Hcallback & _);
    [first [discriminate|reflexivity|vm_compute; first [reflexivity|discriminate|split; discriminate]]..|].
  exists w', cred. split; [exact Hcallback|exact Hget].
Defined.
