(* ===== verification/McpTool.v ===== *)
(** * MCP broker: discovery and the tools it materializes

    The resources of the MCP broker (apps/mcp-broker/src/mcp-server-resource.ts),
    the pass of discovery over a server (discovery.ts), the writer of the
    derived MCPTool objects (mcptool-writer.ts) and the writer of a server's
    status (mcpserver-status.ts).

    The cluster is a world with an API for its MCPTool objects; what that API
    does to them is the class [ToolApiLaws]. *)

From stdpp Require Import base gmap strings list.
From Stdlib Require Import ZArith Lia Ascii Bool.
From S2P Require Import Prelude JsString JsNumber Json JsMap JsList JsonText.

#[local] Open Scope Z_scope.

(** ** Resources *)

Record MCPToolExposure := mkExposure {
  ex_remoteToolName : string;
  ex_expose : option bool;
  ex_allowedRoles : option (list string);
  ex_toolID : option string;
  ex_hidden : option bool;
  ex_tier : option string;
  ex_approval : option string
}.

(** [MCPServerCustomResource]: its metadata and the fields of its spec that the
    broker reads. An entry of [secretEnv] is the reference to a Secret: its
    name and the key. *)
Record MCPServerCR := mkServerCR {
  ms_apiVersion : option string;
  ms_name : string;
  ms_namespace : option string;
  ms_uid : option string;
  ms_generation : option Z;
  ms_url : string;
  ms_secretEnv : option (list (string * string));
  ms_identityProviders : option (list string);
  ms_exposure : option (list MCPToolExposure)
}.

Record MCPServerBinding := mkServerBinding {
  mb_name : string;
  mb_cr : MCPServerCR;
  mb_serviceToken : option string
}.

Record MCPDiscoveredTool := mkDiscovered {
  dt_name : string;
  dt_description : option string;
  dt_inputSchema : option string;
  dt_exposed : bool
}.

Record MCPToolSpec := mkToolSpec {
  ts_serverRef : string;
  ts_remoteToolName : string;
  ts_description : string;
  ts_inputSchema : option string;
  ts_allowedRoles : list string;
  ts_hidden : option bool;
  ts_tier : option string;
  ts_approval : option string;
  ts_identityProviders : option (list string)
}.

Record OwnerReference := mkOwner {
  or_apiVersion : string;
  or_kind : string;
  or_name : string;
  or_uid : string
}.

(** [MCPToolCustomResource] as the API has it: its spec is a JSON object. *)
Record ToolObject := mkToolObject {
  to_name : string;
  to_labels : jsmap string;
  to_owners : list OwnerReference;
  to_spec : jsmap json
}.

Definition GROUP : string := "core.controller-agent.dev".
Definition VERSION : string := "v1alpha1".
Definition MCPSERVER_KIND : string := "MCPServer".
Definition SERVER_LABEL : string := "mcpserver.core.controller-agent.dev/name".

(** ** Exposure *)

Definition isExposed (entry : MCPToolExposure) : bool := negb (bool_decide (ex_expose entry = Some false)).

Definition add_exposure (m : jsmap MCPToolExposure) (entry : MCPToolExposure) : jsmap MCPToolExposure :=
  if str_empty (ex_remoteToolName entry) then m else map_set (ex_remoteToolName entry) entry m.

Definition exposureByRemoteName (server : MCPServerCR) : jsmap MCPToolExposure :=
  foldl add_exposure [] (ms_exposure server ?? []).

(** ** Names *)

Definition MAX_K8S_NAME : nat := 253.

Definition dash (c : ascii) : bool := Ascii.eqb "-"%char c.
(** [[a-z0-9-]] *)
Definition name_char (c : ascii) : bool := is_lower c || is_digit c || dash c.

(** Every run of characters that satisfy [p] becomes one dash; [run] tells
    whether the previous character was in one. *)
Fixpoint collapse (p : ascii -> bool) (run : bool) (s : string) : string :=
  match s with
  | EmptyString => EmptyString
  | String c s' =>
      if p c then if run then collapse p true s' else String "-"%char (collapse p true s')
      else String c (collapse p false s')
  end.

Definition squeezed (raw : string) : string := collapse dash false (collapse (fun c => negb (name_char c)) false (toLowerCase raw)).

Definition cleaned (raw : string) : string := drop_while_end dash (drop_while dash (squeezed raw)).

Section Names.
(** The SHA-1 of a string, in hexadecimal. *)
Variable sha1_hex : string -> string.

Definition hash_suffix (raw : string) : string := "-" +:+ str_take 8 (sha1_hex raw).

Definition suffixed (base raw : string) : string :=
  drop_while_end dash (str_take (MAX_K8S_NAME - slen (hash_suffix raw)) base) +:+ hash_suffix raw.

Definition sanitizeName (raw : string) : string :=
  if negb (str_empty (cleaned raw)) && Nat.leb (slen (cleaned raw)) MAX_K8S_NAME then cleaned raw
  else suffixed (if str_empty (cleaned raw) then "mcp" else cleaned raw) raw.

Definition catalogIdFor (server : string) (entry : MCPToolExposure) : string :=
  match if_set (trim <$> ex_toolID entry) with
  | Some id => id
  | None =>
      let base := sanitizeName ("mcp-" +:+ server +:+ "-" +:+ ex_remoteToolName entry) in
      if negb (bool_decide (sanitizeName (ex_remoteToolName entry) = ex_remoteToolName entry))
      then suffixed base (ex_remoteToolName entry)
      else base
  end.
End Names.

(** ** The API of the cluster *)

(** A tool as its server lists it. *)
Record DiscoveredTool := mkLiveTool {
  lt_name : string;
  lt_description : option string;
  lt_inputSchema : option json
}.

(** [McpTransportError], or anything else that was thrown, as [String] gives
    it. *)
Inductive McpError := McpTransportError (message : string) | OtherMcpError (text : string).

Record DesiredTool := mkDesired {
  dd_catalogId : string;
  dd_spec : MCPToolSpec
}.

Record K8sCondition := mkCondition {
  kc_type : string;
  kc_status : string;
  kc_reason : string;
  kc_message : string;
  kc_lastTransitionTime : string;
  kc_observedGeneration : option Z
}.

(** The status of a merge patch: a field that is [None] is not in it. *)
Record StatusPatch := mkStatusPatch {
  sp_discoveredTools : option (list MCPDiscoveredTool);
  sp_exposedTools : option nat;
  sp_observedGeneration : option Z;
  sp_conditions : list K8sCondition
}.

(** [McpClient.listTools], [CustomObjectsWriterApi] and [StatusPatcherApi] over
    one namespace. *)
Record Cluster (W : Type) := mkCluster {
  cl_listTools : string -> option string -> SM W McpError (list DiscoveredTool);
  cl_list : SM W McpError (list ToolObject);
  cl_create : ToolObject -> SM W McpError unit;
  cl_patch : string -> ToolObject -> SM W McpError unit;
  cl_delete : string -> SM W McpError unit;
  cl_status : string -> StatusPatch -> SM W McpError unit
}.
Arguments mkCluster {W}.
Arguments cl_listTools {W} c.
Arguments cl_list {W} c.
Arguments cl_create {W} c.
Arguments cl_patch {W} c.
Arguments cl_delete {W} c.
Arguments cl_status {W} c.

Definition strings_json (l : list string) : json := JArr (JStr <$> l).

(** The JSON of an [MCPToolSpec]. *)
Definition spec_json (spec : MCPToolSpec) : jsmap json :=
  [("serverRef", JStr (ts_serverRef spec)); ("remoteToolName", JStr (ts_remoteToolName spec)); ("description", JStr (ts_description spec))] ++
  opt_field "inputSchema" JStr (ts_inputSchema spec) ++
  [("allowedRoles", strings_json (ts_allowedRoles spec))] ++
  opt_field "hidden" JBool (ts_hidden spec) ++
  opt_field "tier" JStr (ts_tier spec) ++
  opt_field "approval" JStr (ts_approval spec) ++
  opt_field "identityProviders" strings_json (ts_identityProviders spec).

(** ** The writer of tools *)

Section ToolWriter.
Context {W : Type}.
Variable cluster : Cluster W.

(** A [catch] that reports the error and goes on. *)
Definition reported (m : SM W McpError unit) : SM W McpError unit := scatch m (fun _ => sret tt).

Definition listOwned (server : string) : SM W McpError (list ToolObject) :=
  do! items <- cl_list cluster ;;
  sret (List.filter (fun tool => bool_decide (map_get SERVER_LABEL (to_labels tool) = Some server)) items).

Definition toolObject (server : MCPServerCR) (want : DesiredTool) : ToolObject :=
  mkToolObject (dd_catalogId want) [(SERVER_LABEL, ms_name server)]
    [mkOwner (ms_apiVersion server ?? GROUP +:+ "/" +:+ VERSION) MCPSERVER_KIND (ms_name server) (ms_uid server ?? EmptyString)]
    (spec_json (dd_spec want)).

Definition delete_undesired (desired : list DesiredTool) (_ : unit) (tool : ToolObject) : SM W McpError unit :=
  if has (dd_catalogId <$> desired) (to_name tool) then sret tt else reported (cl_delete cluster (to_name tool)).

Definition upsert_tool (server : MCPServerCR) (owned : list ToolObject) (_ : unit) (want : DesiredTool) : SM W McpError unit :=
  if has (to_name <$> owned) (dd_catalogId want)
  then reported (cl_patch cluster (dd_catalogId want) (toolObject server want))
  else reported (cl_create cluster (toolObject server want)).

Definition reconcile (server : MCPServerCR) (desired : list DesiredTool) : SM W McpError unit :=
  do! owned <- listOwned (ms_name server) ;;
  do! _ <- sfold (delete_undesired desired) tt owned ;;
  sfold (upsert_tool server owned) tt desired.

(** ** The writer of statuses *)

(** [toISOString] of the current time. *)
Variable now : string.

Definition condition (server : MCPServerCR) (status reason message : string) : K8sCondition :=
  mkCondition "Ready" status reason message now (ms_generation server).

Definition patch_status (server : MCPServerCR) (status : StatusPatch) : SM W McpError unit :=
  reported (cl_status cluster (ms_name server) status).

Definition recordReady (server : MCPServerCR) (discoveredTools : list MCPDiscoveredTool) (exposedTools : nat) : SM W McpError unit :=
  patch_status server
    (mkStatusPatch (Some discoveredTools) (Some exposedTools) (ms_generation server)
       [condition server "True" "DiscoverySucceeded" "Listed tools from the server"]).

Definition recordDegraded (server : MCPServerCR) (message : string) : SM W McpError unit :=
  patch_status server (mkStatusPatch None None (ms_generation server) [condition server "False" "DiscoveryFailed" message]).

(** ** Discovery *)

Variable sha1_hex : string -> string.

(** Every value of JSON can be serialized. *)
Definition serializeSchema (schema : option json) : option string :=
  match schema with
  | None | Some JNull => None
  | Some v => Some (JSON_text v)
  end.

Definition discovered (exposure : jsmap MCPToolExposure) (tool : DiscoveredTool) : MCPDiscoveredTool :=
  mkDiscovered (lt_name tool) (lt_description tool) (serializeSchema (lt_inputSchema tool))
    (match map_get (lt_name tool) exposure with
     | Some entry => isExposed entry
     | None => false
     end).

Definition desired_spec (server : MCPServerCR) (entry : MCPToolExposure) (remoteToolName : string) (live : DiscoveredTool) : MCPToolSpec :=
  mkToolSpec (ms_name server) remoteToolName (lt_description live ?? remoteToolName) (serializeSchema (lt_inputSchema live))
    (ex_allowedRoles entry ?? []) (ex_hidden entry) (ex_tier entry) (ex_approval entry)
    (match ms_identityProviders server with
     | Some (p :: ps) => Some (p :: ps)
     | _ => None
     end).

(** [new Map(tools.map((tool) => [tool.name, tool]))], whose keys are
    [liveNames]. *)
Definition byName (tools : list DiscoveredTool) : jsmap DiscoveredTool := map_of ((fun tool => (lt_name tool, tool)) <$> tools).

Definition desired_entry (server : MCPServerCR) (tools : list DiscoveredTool) (e : string * MCPToolExposure) : option DesiredTool :=
  if isExposed e.2
  then live ← map_get e.1 (byName tools);
       Some (mkDesired (catalogIdFor sha1_hex (ms_name server) e.2) (desired_spec server e.2 e.1 live))
  else None.

Definition desiredTools (server : MCPServerCR) (tools : list DiscoveredTool) : list DesiredTool :=
  omap (desired_entry server tools) (exposureByRemoteName server).

Definition failure_message (err : McpError) : string :=
  match err with
  | McpTransportError message => message
  | OtherMcpError text => "discovery failed: " +:+ text
  end.

(** The answer of [listTools], with what was thrown as a value. *)
Definition listed_tools (binding : MCPServerBinding) : SM W McpError (result McpError (list DiscoveredTool)) :=
  scatch (do! tools <- cl_listTools cluster (ms_url (mb_cr binding)) (mb_serviceToken binding) ;; sret (Ok tools)) (fun err => sret (Err err)).

Definition runServer (binding : MCPServerBinding) : SM W McpError unit :=
  let server := mb_cr binding in
  do! answer <- listed_tools binding ;;
  match answer with
  | Err err => recordDegraded server (failure_message err)
  | Ok tools =>
      do! _ <- reconcile server (desiredTools server tools) ;;
      recordReady server (discovered (exposureByRemoteName server) <$> tools) (length (desiredTools server tools))
  end.

Definition runAll (bindings : list MCPServerBinding) : SM W McpError unit := sfold (fun _ binding => runServer binding) tt bindings.
End ToolWriter.

(** ** What the API does *)

(** A merge patch of the labels and the spec, which are objects; the list of
    owners is replaced. *)
Definition merge {A : Type} (old patch : jsmap A) : jsmap A := foldl (fun m f => map_set f.1 f.2 m) old patch.

Definition merged (old body : ToolObject) : ToolObject :=
  mkToolObject (to_name old) (merge (to_labels old) (to_labels body)) (to_owners body) (merge (to_spec old) (to_spec body)).

(** Whether a request fails or not, it has its effect or none. *)
Class ToolApiLaws {W : Type} (cluster : Cluster W) (objects : W -> gmap string ToolObject) := {
  listTools_quiet url token w : objects (cl_listTools cluster url token w).2 = objects w;
  status_quiet name patch w : objects (cl_status cluster name patch w).2 = objects w;
  list_quiet w : objects (cl_list cluster w).2 = objects w;
  list_current w l w' : cl_list cluster w = (Ok l, w') -> forall n t, objects w !! n = Some t <-> t ∈ l /\ to_name t = n;
  create_effect body w :
    let w' := (cl_create cluster body w).2 in
    objects w' = objects w \/ (objects w !! to_name body = None /\ objects w' = <[to_name body := body]> (objects w));
  patch_effect name body w :
    let w' := (cl_patch cluster name body w).2 in
    objects w' = objects w \/ exists t, objects w !! name = Some t /\ objects w' = <[name := merged t body]> (objects w);
  delete_effect name w :
    let w' := (cl_delete cluster name w).2 in objects w' = objects w \/ objects w' = delete name (objects w)
}.

(** No request fails that could have succeeded. *)
Class ToolApiWorks {W : Type} (cluster : Cluster W) (objects : W -> gmap string ToolObject) := {
  list_works w : is_ok (cl_list cluster w).1 = true;
  create_works body w :
    objects w !! to_name body = None -> objects (cl_create cluster body w).2 = <[to_name body := body]> (objects w);
  patch_works name body w t :
    objects w !! name = Some t -> objects (cl_patch cluster name body w).2 = <[name := merged t body]> (objects w);
  delete_works name w : objects (cl_delete cluster name w).2 = delete name (objects w)
}.

Definition owned_by (server : string) (tool : ToolObject) : bool := bool_decide (map_get SERVER_LABEL (to_labels tool) = Some server).

Definition find_desired (n : string) (desired : list DesiredTool) : option DesiredTool :=
  find (fun d => bool_decide (dd_catalogId d = n)) desired.

(** What a pass should leave of the objects: the desired tools, and those of
    other servers as they were. *)
Definition reconciled (server : MCPServerCR) (desired : list DesiredTool) (before : gmap string ToolObject) (n : string) : option ToolObject :=
  match find_desired n desired, before !! n with
  | Some d, Some t => Some (merged t (toolObject server d))
  | Some d, None => Some (toolObject server d)
  | None, Some t => if owned_by (ms_name server) t then None else Some t
  | None, None => None
  end.

(** A name of lower-case words and digits joined by single dashes; [run] tells
    whether the previous character was a dash. *)
Fixpoint plain_from (run : bool) (s : string) : bool :=
  match s with
  | EmptyString => negb run
  | String c s' => if dash c then negb run && plain_from true s' else name_char c && plain_from false s'
  end.

Definition plain_name (s : string) : bool := plain_from true s.

(** What Kubernetes takes as the name of an object, without dots. *)
Definition legal_name (s : string) : Prop :=
  s <> EmptyString /\ (slen s <= MAX_K8S_NAME)%nat /\ str_forall name_char s = true /\
  drop_while dash s = s /\ drop_while_end dash s = s.

(** ** Lemmas: names *)

Lemma collapse_new p q run s :
  q "-"%char = true -> (forall c, p c = false -> q c = true) -> str_forall q (collapse p run s) = true.
Proof.
  intros Hd Hq. revert run. induction s as [|c s IH]; intros run; [done|]. cbn [collapse].
  destruct (p c) eqn:E; [destruct run|]; cbn [str_forall]; rewrite ?IH, ?Hd, ?(Hq _ E); done.
Qed.

Lemma collapse_old p q run s : q "-"%char = true -> str_forall q s = true -> str_forall q (collapse p run s) = true.
Proof.
  intros Hd. revert run. induction s as [|c s IH]; intros run; [done|]. cbn [collapse str_forall].
  intros [Hc Hs]%andb_true_iff. destruct (p c); [destruct run|]; cbn [str_forall]; rewrite ?IH, ?Hd, ?Hc by done; done.
Qed.

Lemma collapse_slen p run s : (slen (collapse p run s) <= slen s)%nat.
Proof.
  revert run. induction s as [|c s IH]; intros run; [done|]. cbn [collapse].
  destruct (p c); [destruct run|]; cbn [slen]; specialize (IH true) as H1; specialize (IH false) as H2; lia.
Qed.

Lemma drop_while_end_cons p c s :
  drop_while_end p (String c s) =
  match drop_while_end p s with
  | EmptyString => if p c then EmptyString else String c EmptyString
  | t => String c t
  end.
Proof. reflexivity. Qed.

Lemma str_forall_drop_while_end q p s : str_forall q s = true -> str_forall q (drop_while_end p s) = true.
Proof.
  induction s as [|c s IH]; [done|]. rewrite drop_while_end_cons. cbn [str_forall]. intros [Hc Hs]%andb_true_iff. specialize (IH Hs).
  destruct (drop_while_end p s) as [|d t]; [destruct (p c)|]; cbn [str_forall] in *; by rewrite ?Hc.
Qed.

Lemma drop_while_end_tail p s t : t <> EmptyString -> drop_while_end p t = t -> drop_while_end p (s +:+ t) = s +:+ t.
Proof.
  intros Hne Ht. induction s as [|c s IH]; [done|]. change (String c s +:+ t) with (String c (s +:+ t)).
  rewrite drop_while_end_cons, IH. destruct (s +:+ t) eqn:E; [|done]. destruct s; [by simpl in E; subst|done].
Qed.

Lemma drop_while_tail p s t : drop_while p t = t -> drop_while p (s +:+ t) = drop_while p s +:+ t.
Proof. intros Ht. induction s as [|c s IH]; [done|]. cbn [drop_while String.append]. by destruct (p c). Qed.

(** Stripping the end keeps a first character that is not stripped. *)
Lemma drop_while_end_keeps p s : s <> EmptyString -> drop_while p s = s -> drop_while_end p s <> EmptyString /\ drop_while p (drop_while_end p s) = drop_while_end p s.
Proof.
  destruct s as [|c s]; [done|]. intros _ Hd. assert (Hc : p c = false).
  { destruct (p c) eqn:E; [|done]. cbn in Hd. rewrite E in Hd. pose proof (slen_drop_while p s) as Hl. rewrite Hd in Hl. cbn in Hl. lia. }
  rewrite drop_while_end_cons. destruct (drop_while_end p s); rewrite ?Hc; (split; [done|]); cbn; by rewrite Hc.
Qed.

Lemma cleaned_slen raw : (slen (cleaned raw) <= slen raw)%nat.
Proof.
  unfold cleaned, squeezed. etransitivity; [apply slen_drop_while_end|]. etransitivity; [apply slen_drop_while|].
  etransitivity; [apply collapse_slen|]. etransitivity; [apply collapse_slen|].
  unfold toLowerCase. induction raw; cbn [str_map slen]; lia.
Qed.

Lemma cleaned_chars raw : str_forall name_char (cleaned raw) = true.
Proof.
  unfold cleaned, squeezed. apply str_forall_drop_while_end, str_forall_drop_while, collapse_old; [done|].
  apply collapse_new; [done|]. intros c. apply negb_false_iff.
Qed.

Lemma drop_while_idem p s : drop_while p (drop_while p s) = drop_while p s.
Proof. induction s as [|c s IH]; [done|]. cbn. destruct (p c) eqn:E; [done|]. cbn. by rewrite E. Qed.

Lemma cleaned_ends raw : drop_while dash (cleaned raw) = cleaned raw /\ drop_while_end dash (cleaned raw) = cleaned raw.
Proof.
  unfold cleaned. split; [|apply drop_while_end_idem].
  destruct (decide (drop_while dash (squeezed raw) = EmptyString)) as [->|Hne]; [done|].
  by apply drop_while_end_keeps; [|apply drop_while_idem].
Qed.

Lemma str_take_head p n s : (0 < n)%nat -> s <> EmptyString -> drop_while p s = s ->
  str_take n s <> EmptyString /\ drop_while p (str_take n s) = str_take n s.
Proof.
  intros Hn Hne Hd. destruct n as [|n]; [lia|]. destruct s as [|c s]; [done|]. split; [done|]. apply drop_while_id.
  cbn. by eapply drop_while_head.
Qed.

Lemma str_forall_take q n s : str_forall q s = true -> str_forall q (str_take n s) = true.
Proof.
  intros Hs. rewrite <- (str_take_drop n s), str_forall_app in Hs. by apply andb_true_iff in Hs as [Hs _].
Qed.

Section NameLemmas.
Variable sha1_hex : string -> string.
(** A digest is forty hexadecimal digits. *)
Hypothesis digest_length : forall s, slen (sha1_hex s) = 40%nat.
Hypothesis digest_digits : forall s, str_forall (fun c => is_digit c || in_range 97 102 c) (sha1_hex s) = true.

Lemma hash_suffix_slen raw : slen (hash_suffix sha1_hex raw) = 9%nat.
Proof using digest_length. unfold hash_suffix. rewrite slen_app, slen_take, digest_length. done. Qed.

Lemma hex_name c : is_digit c || in_range 97 102 c = true -> name_char c = true /\ dash c = false.
Proof using. destruct c as [[] [] [] [] [] [] [] []]; vm_compute; intuition congruence. Qed.

Lemma suffixed_legal base raw :
  base <> EmptyString -> str_forall name_char base = true -> drop_while dash base = base -> legal_name (suffixed sha1_hex base raw).
Proof using Type*.
  intros Hne Hchars Hd. unfold suffixed. rewrite hash_suffix_slen.
  destruct (str_take_head dash (MAX_K8S_NAME - 9) base ltac:(vm_compute; lia) Hne Hd) as [Ht Htd].
  destruct (drop_while_end_keeps dash _ Ht Htd) as [Hne' Hd'].
  set (b := drop_while_end dash (str_take (MAX_K8S_NAME - 9) base)) in *.
  assert (Hb : (slen b <= MAX_K8S_NAME - 9)%nat) by (unfold b; etransitivity; [apply slen_drop_while_end|rewrite slen_take; lia]).
  assert (Hh : str_forall (fun c => is_digit c || in_range 97 102 c) (str_take 8 (sha1_hex raw)) = true) by by apply str_forall_take.
  assert (Hl : slen (str_take 8 (sha1_hex raw)) = 8%nat) by by rewrite slen_take, digest_length.
  unfold hash_suffix. split_and!.
  - by destruct b.
  - rewrite slen_app, slen_app, Hl. change (slen "-") with 1%nat. unfold MAX_K8S_NAME in *. lia.
  - rewrite !str_forall_app. unfold b. rewrite str_forall_drop_while_end by by apply str_forall_take.
    cbn [andb]. change (str_forall name_char "-") with true. cbn [andb]. eapply str_forall_impl; [|done]. intros c Hc. by apply hex_name.
  - destruct b as [|c b']; [done|]. apply drop_while_id. cbn [String.append]. by eapply drop_while_head.
  - rewrite <- app_assoc_s. destruct (str_take 8 (sha1_hex raw)) as [|c h] eqn:E; [done|]. apply drop_while_end_tail; [done|].
    clear -Hh. revert c Hh. induction h as [|d h IH]; intros c [Hc Hh]%andb_true_iff; rewrite drop_while_end_cons.
    + cbn. by rewrite (proj2 (hex_name c Hc)).
    + by rewrite (IH d Hh).
Qed.

Lemma sanitizeName_legal raw : legal_name (sanitizeName sha1_hex raw).
Proof using Type*.
  unfold sanitizeName. destruct (cleaned_ends raw) as [Hd He]. pose proof (cleaned_chars raw) as Hc.
  destruct (str_empty (cleaned raw)) eqn:E; cbn [negb andb]; [by apply suffixed_legal|].
  assert (Hne : cleaned raw <> EmptyString) by (intros H; rewrite <- str_empty_true, E in H; done).
  destruct (Nat.leb_spec (slen (cleaned raw)) MAX_K8S_NAME); [done|]. by apply suffixed_legal.
Qed.

(** A tool whose exposure entry gives no id of its own gets one that
    Kubernetes accepts, whatever the names of the server and of the tool:
    1 to 253 characters, lower-case letters, digits and dashes, with no dash
    at either end. *)
Theorem catalogId_legal (server : string) (entry : MCPToolExposure) :
  if_set (trim <$> ex_toolID entry) = None -> legal_name (catalogIdFor sha1_hex server entry).
Proof using Type*.
  intros Hid. unfold catalogIdFor. rewrite Hid. case_match; [|apply sanitizeName_legal].
  destruct (sanitizeName_legal ("mcp-" +:+ server +:+ "-" +:+ ex_remoteToolName entry)) as (Hne & _ & Hc & Hd & _). by apply suffixed_legal.
Qed.

Lemma collapse_app p run s t : exists run', collapse p run (s +:+ t) = collapse p run s +:+ collapse p run' t.
Proof using.
  revert run. induction s as [|c s IH]; intros run; [by exists run|]. cbn [collapse String.append].
  destruct (p c); [destruct run|]; edestruct IH as [run' ->]; by exists run'.
Qed.

Lemma collapse_id p run s : str_forall (fun c => negb (p c)) s = true -> collapse p run s = s.
Proof using.
  revert run. induction s as [|c s IH]; intros run; [done|]. cbn [collapse str_forall].
  intros [Hc%negb_true_iff Hs]%andb_true_iff. rewrite Hc, IH; done.
Qed.

Lemma plain_weaken run s : s <> EmptyString -> plain_from true s = true -> plain_from run s = true.
Proof using. destruct run; [done|]. destruct s as [|c s]; [done|]. cbn [plain_from]. by destruct (dash c). Qed.

Lemma plain_chars run s : plain_from run s = true -> str_forall name_char s = true.
Proof using.
  revert run. induction s as [|c s IH]; intros run; [done|]. cbn [plain_from str_forall]. destruct (dash c) eqn:E.
  - intros [_ Hs]%andb_true_iff. unfold name_char at 1. rewrite E, orb_true_r, (IH true); done.
  - intros [-> Hs]%andb_true_iff. eauto.
Qed.

Lemma plain_collapse run s : plain_from run s = true -> collapse dash run s = s.
Proof using.
  revert run. induction s as [|c s IH]; intros run; [done|]. cbn [plain_from collapse]. destruct (dash c) eqn:E.
  - intros [->%negb_true_iff Hs]%andb_true_iff. unfold dash in E. apply Ascii.eqb_eq in E as <-. by rewrite IH.
  - intros [_ Hs]%andb_true_iff. by rewrite IH.
Qed.

Lemma plain_end run s : plain_from run s = true -> drop_while_end dash s = s.
Proof using.
  revert run. induction s as [|c s IH]; intros run; [done|]. cbn [plain_from]. rewrite drop_while_end_cons. destruct (dash c) eqn:E.
  - intros [_ Hs]%andb_true_iff. rewrite (IH true) by done. by destruct s.
  - intros [_ Hs]%andb_true_iff. rewrite (IH false) by done. by destruct s.
Qed.

Lemma name_char_lower c : name_char c = true -> lower_char c = c.
Proof using. destruct c as [[] [] [] [] [] [] [] []]; vm_compute; congruence. Qed.

Lemma plain_start s : plain_name s = true -> s <> EmptyString /\ drop_while dash s = s.
Proof using.
  unfold plain_name. destruct s as [|c s]; [done|]. cbn [plain_from]. intros Hp. split; [done|]. apply drop_while_id.
  by destruct (dash c).
Qed.

Lemma toLowerCase_app s t : toLowerCase (s +:+ t) = toLowerCase s +:+ toLowerCase t.
Proof using. unfold toLowerCase. induction s as [|c s IH]; [done|]. cbn [str_map String.append]. by rewrite IH. Qed.

Lemma toLowerCase_id s : str_forall name_char s = true -> toLowerCase s = s.
Proof using.
  unfold toLowerCase. induction s as [|c s IH]; [done|]. cbn [str_map str_forall]. intros [Hc Hs]%andb_true_iff.
  by rewrite name_char_lower, IH.
Qed.

(** Cleaning a prefix and a plain name cleans the prefix. *)
Lemma cleaned_prefix s : exists prefix, forall t, plain_name t = true -> cleaned (s +:+ t) = prefix +:+ t.
Proof using.
  exists (drop_while dash (squeezed s)). intros t Ht. destruct (plain_start t Ht) as [Hne Hd]. unfold cleaned, squeezed.
  pose proof (plain_chars true t Ht) as Hc. rewrite toLowerCase_app, (toLowerCase_id t) by done.
  destruct (collapse_app (fun c => negb (name_char c)) false (toLowerCase s) t) as [run1 ->].
  rewrite (collapse_id _ run1 t) by (eapply str_forall_impl; [|done]; intros c ->; done).
  destruct (collapse_app dash false (collapse (fun c => negb (name_char c)) false (toLowerCase s)) t) as [run2 ->].
  rewrite (plain_collapse run2 t) by by apply plain_weaken. rewrite drop_while_tail by done.
  apply drop_while_end_tail; [done|]. exact (plain_end true t Ht).
Qed.

Lemma sanitize_fits raw : cleaned raw <> EmptyString -> (slen raw <= MAX_K8S_NAME)%nat -> sanitizeName sha1_hex raw = cleaned raw.
Proof using.
  intros Hne Hl. unfold sanitizeName. pose proof (cleaned_slen raw).
  rewrite (proj2 (Nat.leb_le _ _)) by lia. destruct (cleaned raw); [done|]. done.
Qed.

Lemma plain_sanitize t : plain_name t = true -> (slen t <= MAX_K8S_NAME)%nat -> sanitizeName sha1_hex t = t.
Proof using.
  intros Ht Hl. assert (Hc : cleaned t = t).
  { destruct (plain_start t Ht) as [Hne Hd]. unfold cleaned, squeezed. pose proof (plain_chars true t Ht) as Hc.
    rewrite (toLowerCase_id t) by done.
    rewrite (collapse_id _ false t) by (eapply str_forall_impl; [|exact Hc]; intros c ->; done).
    rewrite (plain_collapse false t) by by apply plain_weaken. rewrite Hd. exact (plain_end true t Ht). }
  rewrite sanitize_fits; rewrite ?Hc; [done| |done]. by destruct (plain_start t Ht).
Qed.

Definition mcp_prefix (server : string) : string := "mcp-" +:+ server +:+ "-".

(** Two names on a server that the ids keep apart: both plain and short enough,
    or both changed by [sanitizeName] and with different hashes. *)
Definition told_apart (server r1 r2 : string) : Prop :=
  (Forall (fun r => plain_name r = true /\ (slen (mcp_prefix server +:+ r) <= MAX_K8S_NAME)%nat) [r1; r2]) \/
  (Forall (fun r => sanitizeName sha1_hex r <> r) [r1; r2] /\ str_take 8 (sha1_hex r1) <> str_take 8 (sha1_hex r2)).

Lemma app_same_length_r s1 t1 s2 t2 : slen t1 = slen t2 -> s1 +:+ t1 = s2 +:+ t2 -> t1 = t2.
Proof using.
  intros Hl He. assert (Hs : slen s1 = slen s2).
  { apply (f_equal String.length) in He. rewrite !slen_app in He. lia. }
  rewrite <- (str_drop_app s1 t1), He, Hs. by apply str_drop_app.
Qed.

(** On one server, the generated ids of two tools differ when the names
    differ and are both plain, or are both changed by the sanitization and have
    different hashes. *)
Theorem catalogId_distinct (server : string) (e1 e2 : MCPToolExposure) :
  if_set (trim <$> ex_toolID e1) = None -> if_set (trim <$> ex_toolID e2) = None ->
  ex_remoteToolName e1 <> ex_remoteToolName e2 -> told_apart server (ex_remoteToolName e1) (ex_remoteToolName e2) ->
  catalogIdFor sha1_hex server e1 <> catalogIdFor sha1_hex server e2.
Proof using digest_length.
  intros H1 H2 Hne [Hp|[Hl Hh]]; unfold catalogIdFor; rewrite H1, H2.
  - apply Forall_cons in Hp as [[Hp1 Hf1] [[Hp2 Hf2] _]%Forall_cons].
    destruct (cleaned_prefix (mcp_prefix server)) as [prefix Hpre].
    assert (Hs : forall r, plain_name r = true -> (slen (mcp_prefix server +:+ r) <= MAX_K8S_NAME)%nat ->
                   sanitizeName sha1_hex r = r /\ sanitizeName sha1_hex ("mcp-" +:+ server +:+ "-" +:+ r) = prefix +:+ r).
    { intros r Hp Hf. split.
      - apply plain_sanitize; [done|]. rewrite slen_app in Hf. lia.
      - change ("mcp-" +:+ server +:+ "-" +:+ r) with ("mcp-" +:+ (server +:+ ("-" +:+ r))).
        replace ("mcp-" +:+ (server +:+ ("-" +:+ r))) with (mcp_prefix server +:+ r) by (unfold mcp_prefix; by rewrite !app_assoc_s).
        rewrite sanitize_fits; [by apply Hpre| |done]. rewrite Hpre by done. destruct (plain_start r Hp). by destruct prefix. }
    destruct (Hs _ Hp1 Hf1) as [E1 ->]. destruct (Hs _ Hp2 Hf2) as [E2 ->]. rewrite E1, E2, !bool_decide_true by done. cbn [negb].
    intros He. apply Hne. by apply (f_equal (str_drop (slen prefix))) in He; rewrite !str_drop_app in He.
  - apply Forall_cons in Hl as [Hl1 [Hl2 _]%Forall_cons]. rewrite !bool_decide_false by done. cbn [negb]. unfold suffixed.
    intros He. apply app_same_length_r in He; [|by rewrite !hash_suffix_slen]. apply Hh. unfold hash_suffix in He. by injection He.
Qed.
End NameLemmas.

(** ** Lemmas: reconciling *)

Lemma find_desired_Some n desired d : find_desired n desired = Some d -> d ∈ desired /\ dd_catalogId d = n.
Proof. unfold find_desired. intros [Hin Hn]%find_some. split; [by apply list_elem_of_In|by apply bool_decide_eq_true in Hn]. Qed.

Lemma find_desired_None n desired : find_desired n desired = None -> n ∉ dd_catalogId <$> desired.
Proof.
  intros Hf [d [-> Hd]]%list_elem_of_fmap. apply list_elem_of_In in Hd. eapply find_none in Hf; [|done]. by apply bool_decide_eq_false in Hf.
Qed.

Section Reconciling.
Context {W : Type} (cluster : Cluster W) (objects : W -> gmap string ToolObject).
Context `{!ToolApiLaws cluster objects}.

Lemma reported_run (m : SM W McpError unit) w : reported m w = (Ok tt, (m w).2).
Proof using. unfold reported, scatch. by destruct (m w) as [[[]|e] w']. Qed.

Lemma listOwned_run server w owned w' :
  listOwned cluster server w = (Ok owned, w') ->
  objects w' = objects w /\ (forall tool, tool ∈ owned <-> objects w !! to_name tool = Some tool /\ owned_by server tool = true).
Proof using Type*.
  unfold listOwned. intros [l [w1 [Hl Hr]]]%sbind_Ok. injection Hr as <- <-. split.
  - pose proof (list_quiet w) as Hq. by rewrite Hl in Hq.
  - intros tool. rewrite list_elem_of_In, filter_In, <- list_elem_of_In. split.
    + intros [Hin Ho]. split; [|done]. by apply (list_current _ _ _ Hl).
    + intros [Hg Ho]. split; [|done]. by apply (list_current _ _ _ Hl) in Hg as [Hin _].
Qed.

Section Confined.
Variables (server : MCPServerCR) (n : string) (t : ToolObject).
Hypothesis foreign : owned_by (ms_name server) t = false.

Definition holds_t (w : W) : Prop := objects w !! n = Some t.

Lemma keeps_reported (m : SM W McpError unit) : (forall w, holds_t w -> holds_t (m w).2) -> keeps holds_t (reported m).
Proof using. intros Hm w Hw. rewrite reported_run. by apply Hm. Qed.

Lemma keeps_delete name : name <> n -> keeps holds_t (reported (cl_delete cluster name)).
Proof using Type*.
  intros Hne. apply keeps_reported. intros w Hw. unfold holds_t in *.
  destruct (delete_effect name w) as [-> | ->]; [done|]. by rewrite lookup_delete_ne.
Qed.

Lemma keeps_create body : keeps holds_t (reported (cl_create cluster body)).
Proof using Type*.
  apply keeps_reported. intros w Hw. unfold holds_t in *. destruct (create_effect body w) as [-> | [Hnone ->]]; [done|].
  rewrite lookup_insert_ne; [done|]. intros He. by rewrite He, Hw in Hnone.
Qed.

Lemma keeps_patch name body : name <> n -> keeps holds_t (reported (cl_patch cluster name body)).
Proof using Type*.
  intros Hne. apply keeps_reported. intros w Hw. unfold holds_t in *.
  destruct (patch_effect name body w) as [-> | [t' [_ ->]]]; [done|]. by rewrite lookup_insert_ne.
Qed.

Lemma keeps_reconcile desired : keeps holds_t (reconcile cluster server desired).
Proof using Type*.
  intros w Hw. unfold reconcile, sbind at 1. destruct (listOwned cluster (ms_name server) w) as [[owned|e] w1] eqn:E.
  - destruct (listOwned_run _ _ _ _ E) as [Hq Ho]. assert (Hw1 : holds_t w1) by (unfold holds_t in *; by rewrite Hq).
    assert (Hnot : forall tool, tool ∈ owned -> to_name tool <> n).
    { intros tool [Hg Hown]%Ho Hn. unfold holds_t in Hw. rewrite Hn, Hw in Hg. injection Hg as ->. congruence. }
    refine (keeps_sbind holds_t _ _ _ _ w1 Hw1).
    + apply keeps_sfold. intros [] tool Hin. unfold delete_undesired. case_match; [apply keeps_sret|]. by apply keeps_delete, Hnot.
    + intros _. apply keeps_sfold. intros [] want _. unfold upsert_tool. destruct (has _ _) eqn:Eh; [|apply keeps_create].
      apply keeps_patch. apply has_true, list_elem_of_fmap in Eh as [tool [-> Hin]]. by apply Hnot.
  - unfold listOwned in E. apply sbind_Err in E as [E|[l [w2 [_ E]]]]; [|done].
    pose proof (list_quiet w) as Hq. rewrite E in Hq. unfold holds_t in *. cbn in *. by rewrite Hq.
Qed.
End Confined.

Context `{!ToolApiWorks cluster objects}.

Lemma delete_pass desired owned w :
  exists w', sfold (delete_undesired cluster desired) tt owned w = (Ok tt, w') /\
  forall n, objects w' !! n = if decide (n ∈ to_name <$> owned /\ n ∉ dd_catalogId <$> desired) then None else objects w !! n.
Proof using Type*.
  revert w. induction owned as [|tool owned IH]; intros w.
  - exists w. split; [done|]. intros n. rewrite decide_False; [done|]. intros [[]%elem_of_nil _].
  - cbn [sfold]. unfold sbind, delete_undesired at 1. destruct (has _ (to_name tool)) eqn:Eh.
    + destruct (IH w) as [w' [Hr Ho]]. exists w'. split; [done|]. intros n. rewrite Ho. apply has_true in Eh.
      apply decide_ext. rewrite fmap_cons, elem_of_cons. naive_solver.
    + rewrite reported_run. destruct (IH (cl_delete cluster (to_name tool) w).2) as [w' [Hr Ho]]. exists w'. split; [done|].
      intros n. rewrite Ho, delete_works. assert (Hh : to_name tool ∉ dd_catalogId <$> desired) by (rewrite <- has_true, Eh; done).
      destruct (decide (n = to_name tool)) as [->|Hne].
      * rewrite lookup_delete_eq, (decide_True (P := to_name tool ∈ to_name <$> tool :: owned /\ _)); [by case_decide|].
        split; [by left|done].
      * rewrite lookup_delete_ne by done. apply decide_ext. rewrite fmap_cons, elem_of_cons. naive_solver.
Qed.

(** What an upsert leaves under a name. *)
Definition upserted (server : MCPServerCR) (desired : list DesiredTool) (before : option ToolObject) (n : string) : option ToolObject :=
  match find_desired n desired, before with
  | Some d, Some t => Some (merged t (toolObject server d))
  | Some d, None => Some (toolObject server d)
  | None, _ => before
  end.

Lemma upsert_pass server owned desired w :
  NoDup (dd_catalogId <$> desired) ->
  (forall d, d ∈ desired -> has (to_name <$> owned) (dd_catalogId d) = bool_decide (is_Some (objects w !! dd_catalogId d))) ->
  exists w', sfold (upsert_tool cluster server owned) tt desired w = (Ok tt, w') /\
  forall n, objects w' !! n = upserted server desired (objects w !! n) n.
Proof using Type*.
  revert w. induction desired as [|d desired IH]; intros w Hnd Hown; [by exists w|].
  rewrite fmap_cons in Hnd. apply NoDup_cons in Hnd as [Hd Hnd]. cbn [sfold].
  assert (Hstep : exists w1, upsert_tool cluster server owned tt d w = (Ok tt, w1) /\
            objects w1 = <[dd_catalogId d := match objects w !! dd_catalogId d with
                                             | Some t => merged t (toolObject server d)
                                             | None => toolObject server d end]> (objects w)).
  { unfold upsert_tool. rewrite (Hown d) by by left. destruct (objects w !! dd_catalogId d) as [t|] eqn:Et.
    - rewrite bool_decide_true by done. eexists. split; [apply reported_run|]. by apply patch_works.
    - rewrite bool_decide_false by by intros []. eexists. split; [apply reported_run|]. by apply (create_works (toolObject server d)). }
  destruct Hstep as [w1 [Hs Ho]]. destruct (IH w1) as [w' [Hr Hn]]; [done| |].
  { intros d' Hin. rewrite (Hown d') by by right. rewrite Ho, lookup_insert_ne; [done|]. intros He. apply Hd. rewrite He. by apply list_elem_of_fmap_2. }
  exists w'. split; [unfold sbind; by rewrite Hs|]. intros n. rewrite Hn, Ho. unfold upserted, find_desired. cbn [find].
  destruct (decide (dd_catalogId d = n)) as [<-|Hne].
  - rewrite (bool_decide_true (dd_catalogId d = _)), lookup_insert_eq by done.
    destruct (find _ desired) as [d'|] eqn:Ef; [|by case_match].
    apply find_desired_Some in Ef as [Hin He]. exfalso. apply Hd. rewrite <- He. by apply list_elem_of_fmap_2.
  - rewrite bool_decide_false, lookup_insert_ne by done. done.
Qed.

(** No desired name is that of a tool of another server. *)
Definition free_names (server : string) (desired : list DesiredTool) (w : W) : Prop :=
  forall d t, d ∈ desired -> objects w !! dd_catalogId d = Some t -> owned_by server t = true.

Lemma reconcile_spec server desired w :
  NoDup (dd_catalogId <$> desired) -> free_names (ms_name server) desired w ->
  exists w', reconcile cluster server desired w = (Ok tt, w') /\ forall n, objects w' !! n = reconciled server desired (objects w) n.
Proof using Type*.
  intros Hnd Hfree. unfold reconcile, sbind at 1.
  destruct (listOwned cluster (ms_name server) w) as [[owned|e] w1] eqn:E.
  - destruct (listOwned_run _ _ _ _ E) as [Hq Ho].
    assert (Hnames : forall n, n ∈ to_name <$> owned <-> exists t, objects w !! n = Some t /\ owned_by (ms_name server) t = true).
    { intros n. rewrite list_elem_of_fmap. split.
      - intros [t [-> [Hg Hw]%Ho]]. eauto.
      - intros [t [Hg Hw]]. unfold listOwned in E. apply sbind_Ok in E as [l [w2 [Hl Hr]]]. 
        destruct (proj1 (list_current _ _ _ Hl n t) Hg) as [_ Hn]. exists t. split; [done|]. apply Ho. by rewrite Hn. }
    destruct (delete_pass desired owned w1) as [w2 [Hd Hdn]]. unfold sbind. rewrite Hd.
    destruct (upsert_pass server owned desired w2 Hnd) as [w3 [Hu Hun]].
    { intros d Hin. unfold has. apply bool_decide_ext. rewrite Hnames, Hdn, decide_False, Hq.
      - split; [intros [t [-> _]]; by eexists|]. intros [t Ht]. exists t. split; [done|]. by eapply Hfree.
      - intros [_ Hn]. apply Hn. by apply list_elem_of_fmap_2. }
    exists w3. split; [done|]. intros n. rewrite Hun, Hdn, Hq. unfold upserted, reconciled.
    destruct (find_desired n desired) as [d|] eqn:Ef.
    + apply find_desired_Some in Ef as [Hin <-]. rewrite decide_False; [done|]. intros [_ Hn]. apply Hn. by apply list_elem_of_fmap_2.
    + apply find_desired_None in Ef. case_decide as Hc.
      * destruct Hc as [[t [-> ->]]%Hnames _]. done.
      * destruct (objects w !! n) as [t|] eqn:Et; [|done]. destruct (owned_by (ms_name server) t) eqn:Eo; [|done].
        exfalso. apply Hc. split; [|done]. apply Hnames. eauto.
  - pose proof (list_works (objects := objects) w) as Hl. unfold listOwned in E. apply sbind_Err in E as [E|[l [w2 [_ E]]]]; [|done].
    rewrite E in Hl. done.
Qed.
End Reconciling.

(** ** Lemmas: discovery *)

Lemma add_exposure_elem server r e : map_get r (exposureByRemoteName server) = Some e -> ex_remoteToolName e = r /\ r <> EmptyString.
Proof.
  unfold exposureByRemoteName. intros Hg.
  assert (Hinv : forall k v, (k, v) ∈ foldl add_exposure [] (ms_exposure server ?? []) -> ex_remoteToolName v = k /\ k <> EmptyString).
  { apply (foldl_inv (fun m => forall k v, (k, v) ∈ m -> ex_remoteToolName v = k /\ k <> EmptyString)); [|by intros k v []%elem_of_nil].
    intros m entry _ IH k v. unfold add_exposure. destruct (str_empty (ex_remoteToolName entry)) eqn:Ee; [apply IH|].
    intros [[= -> ->]|Hin]%map_set_elem; [|by apply IH]. split; [done|]. intros H. rewrite H in Ee. done. }
  apply Hinv. by apply map_get_elem_weak.
Qed.

Lemma exposure_wf server : map_wf (exposureByRemoteName server).
Proof.
  unfold exposureByRemoteName. apply (foldl_inv map_wf); [|constructor]. intros m entry _ Hm. unfold add_exposure.
  case_match; [done|]. by apply map_set_wf.
Qed.

Lemma byName_names tools r : is_Some (map_get r (byName tools)) <-> r ∈ lt_name <$> tools.
Proof.
  assert (Hk : forall k, k ∈ (byName tools).*1 <-> k ∈ lt_name <$> tools).
  { unfold byName, map_of. assert (Hg : forall (es : list (string * DiscoveredTool)) m k, k ∈ (foldl (fun m e => map_set e.1 e.2 m) m es).*1 <-> k ∈ m.*1 \/ k ∈ es.*1).
    { intros es. induction es as [|e es IH]; intros m k; cbn [foldl].
      - rewrite elem_of_nil. tauto.
      - rewrite IH, map_set_keys, fmap_cons, elem_of_cons. tauto. }
    intros k. rewrite Hg, elem_of_nil, <- list_fmap_compose. change (fst ∘ (fun tool => (lt_name tool, tool))) with lt_name. tauto. }
  rewrite <- Hk. destruct (map_get r (byName tools)) as [live|] eqn:Eg.
  - split; [|done]. intros _. apply map_get_elem_weak in Eg. by apply (list_elem_of_fmap_2 fst) in Eg.
  - apply map_get_None in Eg. split; [by intros []|done].
Qed.

(** A tool is to be materialized exactly when the live server lists it and
    an exposure entry that is not withdrawn names it; its roles are the
    entry's, its description and schema the live tool's, its identity providers
    the server's. *)
Lemma desired_exactly (sha1_hex : string -> string) (server : MCPServerCR) (tools : list DiscoveredTool) (d : DesiredTool) :
  d ∈ desiredTools sha1_hex server tools <->
  exists r entry live,
    map_get r (exposureByRemoteName server) = Some entry /\ isExposed entry = true /\ map_get r (byName tools) = Some live /\
    d = mkDesired (catalogIdFor sha1_hex (ms_name server) entry) (desired_spec server entry r live).
Proof.
  unfold desiredTools. rewrite list_elem_of_omap. split.
  - intros [[r entry] [Hin Hd]]. unfold desired_entry in Hd. cbn [fst snd] in Hd. destruct (isExposed entry) eqn:Ee; [|done].
    apply bind_Some in Hd as [live [Hl [= <-]]]. exists r, entry, live. split; [|done]. by apply map_get_elem; [apply exposure_wf|].
  - intros (r & entry & live & Hg & He & Hl & ->). exists (r, entry). split; [by apply map_get_elem_weak|].
    unfold desired_entry. cbn [fst snd]. by rewrite He, Hl.
Qed.

(** The names under which a server's exposed and live tools go. *)
Definition exposed_live (sha1_hex : string -> string) (server : MCPServerCR) (tools : list DiscoveredTool) (n : string) : Prop :=
  exists r entry, map_get r (exposureByRemoteName server) = Some entry /\ isExposed entry = true /\ r ∈ lt_name <$> tools /\
    catalogIdFor sha1_hex (ms_name server) entry = n.

Lemma desired_names sha1_hex server tools n : n ∈ dd_catalogId <$> desiredTools sha1_hex server tools <-> exposed_live sha1_hex server tools n.
Proof.
  rewrite list_elem_of_fmap. unfold exposed_live. setoid_rewrite <- byName_names. split.
  - intros (d & -> & (r & entry & live & Hg & He & Hl & ->)%desired_exactly). exists r, entry. rewrite Hl. eauto.
  - intros (r & entry & Hg & He & [live Hl] & <-).
    exists (mkDesired (catalogIdFor sha1_hex (ms_name server) entry) (desired_spec server entry r live)). split; [done|].
    apply desired_exactly. by exists r, entry, live.
Qed.

Lemma owned_merged server d t : owned_by (ms_name server) (merged t (toolObject server d)) = true.
Proof. apply bool_decide_true. apply map_get_set_eq. Qed.

Lemma owned_fresh server d : owned_by (ms_name server) (toolObject server d) = true.
Proof. by apply bool_decide_true. Qed.

Lemma reconciled_owned server desired before n :
  (exists t, reconciled server desired before n = Some t /\ owned_by (ms_name server) t = true) <-> n ∈ dd_catalogId <$> desired.
Proof.
  unfold reconciled. destruct (find_desired n desired) as [d|] eqn:Ef.
  - apply find_desired_Some in Ef as [Hin <-]. split; [intros _; by apply list_elem_of_fmap_2|]. intros _.
    destruct (before !! dd_catalogId d); eexists; (split; [done|]); [apply owned_merged|apply owned_fresh].
  - apply find_desired_None in Ef. split; [|done]. intros [t [Ht Ho]].
    destruct (before !! n) as [t'|]; [|done]. destruct (owned_by (ms_name server) t') eqn:Eo; [done|]. congruence.
Qed.

(** [t] is the tool [d], brought to the desired state from [before]: its owner and
    its label are restamped, and every field that the desired spec has is as
    desired; a field that it has not is as it was before, since the patch is a
    merge. *)
Definition brought_to (server : MCPServerCR) (d : DesiredTool) (before : option ToolObject) (t : ToolObject) : Prop :=
  to_owners t = to_owners (toolObject server d) /\ map_get SERVER_LABEL (to_labels t) = Some (ms_name server) /\
  forall k, map_get k (to_spec t) =
    match map_get k (spec_json (dd_spec d)) with
    | Some v => Some v
    | None => old ← before; map_get k (to_spec old)
    end.

Lemma spec_json_wf spec : map_wf (spec_json spec).
Proof.
  destruct spec as [s r d [i|] a [h|] [t|] [p|] [l|]]; unfold map_wf; cbn; repeat (apply NoDup_cons; split; [set_solver|]); constructor.
Qed.

Lemma map_get_merge {A : Type} k (old patch : jsmap A) :
  map_wf patch -> map_get k (merge old patch) = match map_get k patch with Some v => Some v | None => map_get k old end.
Proof.
  unfold merge, map_wf. revert old. induction patch as [|[k' v] patch IH]; intros old Hwf; [done|].
  csimpl in Hwf. apply NoDup_cons in Hwf as [Hk Hwf]. cbn [foldl]. rewrite IH, map_get_cons by done. cbn [fst snd].
  destruct (decide (k' = k)) as [<-|Hne].
  - apply map_get_None in Hk. by rewrite Hk, map_get_set_eq.
  - by rewrite map_get_set_ne.
Qed.

Lemma reconciled_brought server desired before d :
  NoDup (dd_catalogId <$> desired) -> d ∈ desired ->
  exists t, reconciled server desired before (dd_catalogId d) = Some t /\ brought_to server d (before !! dd_catalogId d) t.
Proof.
  intros Hnd Hd. unfold reconciled. destruct (find_desired (dd_catalogId d) desired) as [d'|] eqn:Ef.
  - apply find_desired_Some in Ef as [Hin He]. assert (d' = d) as ->.
    { apply list_elem_of_lookup in Hin as [i Hi], Hd as [j Hj].
      assert (i = j) as ->; [|congruence].
      eapply (NoDup_lookup _ i j); [exact Hnd|rewrite list_lookup_fmap, Hi; reflexivity|rewrite list_lookup_fmap, Hj; cbn; by rewrite He]. }
    destruct (before !! dd_catalogId d) as [old|]; eexists; (split; [done|]); (split; [done|]).
    + split; [apply map_get_set_eq|]. intros k. cbn [merged to_spec toolObject]. by rewrite map_get_merge by apply spec_json_wf.
    + split; [done|]. intros k. cbn. by destruct (map_get k _).
  - apply find_desired_None in Ef. destruct Ef. by apply list_elem_of_fmap_2.
Qed.

Lemma reconciled_others server desired before n t :
  before !! n = Some t -> owned_by (ms_name server) t = false -> (forall d, d ∈ desired -> dd_catalogId d <> n) ->
  reconciled server desired before n = Some t.
Proof.
  intros Hn Ho Hd. unfold reconciled. destruct (find_desired n desired) as [d|] eqn:Ef.
  - apply find_desired_Some in Ef as [Hin He]. by destruct (Hd d Hin).
  - by rewrite Hn, Ho.
Qed.

Section Discovering.
Context {W : Type} (cluster : Cluster W) (objects : W -> gmap string ToolObject) (now : string) (sha1_hex : string -> string).
Context `{!ToolApiLaws cluster objects}.

Lemma status_same server patch w : exists w', patch_status cluster server patch w = (Ok tt, w') /\ objects w' = objects w.
Proof using Type*. unfold patch_status. eexists. split; [apply reported_run|]. apply status_quiet. Qed.

Lemma listed_run binding w :
  exists w1, listed_tools cluster binding w = (Ok (cl_listTools cluster (ms_url (mb_cr binding)) (mb_serviceToken binding) w).1, w1) /\
  objects w1 = objects w.
Proof using Type*.
  unfold listed_tools, scatch, sbind. pose proof (listTools_quiet (ms_url (mb_cr binding)) (mb_serviceToken binding) w) as Hq.
  destruct (cl_listTools _ _ _ w) as [[tools|e] w1]; by exists w1.
Qed.

(** A pass of discovery over a server, with requests failing or not,
    leaves every tool of another server as it was; and when the server cannot
    be listed it leaves every tool as it was. *)
Theorem discovery_confined (binding : MCPServerBinding) (w : W) (n : string) (t : ToolObject) :
  objects w !! n = Some t ->
  owned_by (ms_name (mb_cr binding)) t = false \/
    is_ok (cl_listTools cluster (ms_url (mb_cr binding)) (mb_serviceToken binding) w).1 = false ->
  objects (runServer cluster now sha1_hex binding w).2 !! n = Some t.
Proof using Type*.
  intros Hg Hc. unfold runServer, sbind at 1. destruct (listed_run binding w) as [w1 [-> Hq]]. rewrite <- Hq in Hg.
  destruct (cl_listTools _ _ _ w).1 as [tools|e].
  - destruct Hc as [Hf|]; [|done].
    refine (keeps_sbind (holds_t objects n t) _ _ (keeps_reconcile cluster objects _ n t Hf _) _ w1 Hg).
    intros _ w2 Hw2. unfold recordReady. destruct (status_same (mb_cr binding)
      (mkStatusPatch (Some (discovered (exposureByRemoteName (mb_cr binding)) <$> tools)) (Some (length (desiredTools sha1_hex (mb_cr binding) tools)))
         (ms_generation (mb_cr binding)) [condition now (mb_cr binding) "True" "DiscoverySucceeded" "Listed tools from the server"]) w2)
      as [w3 [-> Hw3]]. unfold holds_t in *. cbn. by rewrite Hw3.
  - unfold recordDegraded. edestruct status_same as [w3 [-> Hw3]]. cbn. by rewrite Hw3.
Qed.

Context `{!ToolApiWorks cluster objects}.

(** C18: When the server answers and no request of the writer fails, a pass of
    discovery leaves as the server's tools exactly the names of its exposed and
    live ones, and leaves the tools of the others as they were. Each of the
    server's tools is brought to the desired state field by field: owner and
    label restamped and every desired field as desired, on a new tool nothing
    else; on a tool that was there, a field that is no longer desired keeps its
    old value, which is where the code stops short of its own comment. It needs
    ids that are distinct and not those of another server's tools. *)
Theorem discovery_reconciles (binding : MCPServerBinding) (tools : list DiscoveredTool) (w : W) :
  let server := mb_cr binding in
  let desired := desiredTools sha1_hex server tools in
  (cl_listTools cluster (ms_url server) (mb_serviceToken binding) w).1 = Ok tools ->
  NoDup (dd_catalogId <$> desired) -> free_names objects (ms_name server) desired w ->
  exists w', runServer cluster now sha1_hex binding w = (Ok tt, w') /\
    (forall n, (exists t, objects w' !! n = Some t /\ owned_by (ms_name server) t = true) <-> exposed_live sha1_hex server tools n) /\
    (forall n t, objects w !! n = Some t -> owned_by (ms_name server) t = false -> objects w' !! n = Some t) /\
    (forall d, d ∈ desired ->
       exists t, objects w' !! dd_catalogId d = Some t /\ brought_to server d (objects w !! dd_catalogId d) t).
Proof using Type*.
  intros server desired Hl Hnd Hfree. unfold runServer, sbind at 1. destruct (listed_run binding w) as [w1 [-> Hq]].
  unfold server in Hl. rewrite Hl. fold server desired.
  destruct (reconcile_spec cluster objects server desired w1 Hnd) as [w2 [Hr Hn]]; [intros d t Hd; rewrite Hq; by apply Hfree|].
  unfold sbind. rewrite Hr. unfold recordReady. edestruct status_same as [w3 [-> Hw3]]. exists w3. split; [done|].
  assert (Hn' : forall n, objects w3 !! n = reconciled server desired (objects w) n) by (intros n; rewrite Hw3, Hn, Hq; done).
  split_and!.
  - intros n. rewrite <- desired_names. fold desired. rewrite <- (reconciled_owned server desired (objects w) n).
    by setoid_rewrite Hn'.
  - intros n t Ht Ho. rewrite Hn'. apply reconciled_others; [done|done|]. intros d Hd <-. by rewrite (Hfree d t Hd Ht) in Ho.
  - intros d Hd. rewrite Hn'. by apply reconciled_brought.
Qed.
End Discovering.

(** ** A cluster in memory *)

Record MemCluster := mkMemCluster {
  mc_objects : gmap string ToolObject;
  mc_status : list (string * StatusPatch)
}.

Definition mem_write (f : gmap string ToolObject -> gmap string ToolObject) (w : MemCluster) : MemCluster :=
  mkMemCluster (f (mc_objects w)) (mc_status w).

(** The objects that are under their own names. *)
Definition mem_objects (w : MemCluster) : gmap string ToolObject := filter (fun e => to_name e.2 = e.1) (mc_objects w).

(** An API that lists its tools when [up], and a server that offers [answer]. *)
Definition mem_cluster (up : bool) (answer : result McpError (list DiscoveredTool)) : Cluster MemCluster :=
  mkCluster
    (fun _ _ w => (answer, w))
    (fun w => (if up then Ok (map_to_list (mem_objects w)).*2 else Err (OtherMcpError "Error: HTTP-Code: 500"), w))
    (fun body w =>
       match mem_objects w !! to_name body with
       | Some _ => (Err (OtherMcpError "Error: HTTP-Code: 409"), w)
       | None => (Ok tt, mem_write (insert (to_name body) body) w)
       end)
    (fun name body w =>
       match mem_objects w !! name with
       | Some t => (Ok tt, mem_write (insert name (merged t body)) w)
       | None => (Err (OtherMcpError "Error: HTTP-Code: 404"), w)
       end)
    (fun name w => (Ok tt, mem_write (delete name) w))
    (fun name patch w => (Ok tt, mkMemCluster (mc_objects w) (mc_status w ++ [(name, patch)]))).

Lemma mem_objects_name w n t : mem_objects w !! n = Some t -> to_name t = n.
Proof. unfold mem_objects. by intros [_ Hn]%map_lookup_filter_Some. Qed.

Lemma mem_insert n t w : to_name t = n -> mem_objects (mem_write (insert n t) w) = <[n := t]> (mem_objects w).
Proof. intros Hn. unfold mem_objects, mem_write. cbn. by rewrite map_filter_insert_True. Qed.

#[global] Instance mem_laws up answer : ToolApiLaws (mem_cluster up answer) mem_objects.
Proof.
  split; cbn; try done.
  - intros w l w' [= Hl <-] n t. destruct up; [|done]. injection Hl as <-. rewrite list_elem_of_fmap. split.
    + intros Hg. split; [|by eapply mem_objects_name]. exists (n, t). split; [done|]. by apply elem_of_map_to_list.
    + intros [[[k v] [-> Hin%elem_of_map_to_list]] Hn]. cbn in *. pose proof (mem_objects_name _ _ _ Hin). congruence.
  - intros body w. destruct (mem_objects w !! to_name body) eqn:E; [by left|]. right. split; [done|]. by apply mem_insert.
  - intros name body w. destruct (mem_objects w !! name) as [t|] eqn:E; [|by left]. right. exists t. split; [done|].
    apply mem_insert. by apply mem_objects_name in E.
  - intros name w. right. unfold mem_objects, mem_write. cbn. by rewrite map_filter_delete.
Qed.

#[global] Instance mem_works answer : ToolApiWorks (mem_cluster true answer) mem_objects.
Proof.
  split; cbn; try done.
  - intros body w Hn. rewrite Hn. by apply mem_insert.
  - intros name body w t Ht. rewrite Ht. apply mem_insert. by apply mem_objects_name in Ht.
  - intros name w. unfold mem_objects, mem_write. cbn. by rewrite map_filter_delete.
Qed.

(** ** Examples and witnesses *)

Definition digit_of (c : ascii) : ascii := ascii_of_N (48 + code c mod 10)%N.

(** Forty digits that depend on the string. *)
Definition toy_digest (s : string) : string := str_take 40 (str_map digit_of s +:+ "0000000000000000000000000000000000000000").

Lemma toy_digest_length s : slen (toy_digest s) = 40%nat.
Proof.
  unfold toy_digest. rewrite slen_take, slen_app. change (slen "0000000000000000000000000000000000000000") with 40%nat. lia.
Qed.

Lemma toy_digest_digits s : str_forall (fun c => is_digit c || in_range 97 102 c) (toy_digest s) = true.
Proof.
  unfold toy_digest. apply str_forall_take. rewrite str_forall_app. apply andb_true_iff. split; [|done].
  induction s as [|c s IH]; [done|]. cbn [str_map str_forall]. rewrite IH, andb_true_r.
  destruct c as [[] [] [] [] [] [] [] []]; vm_compute; reflexivity.
Qed.

Definition exposed_as (name : string) (approval : option string) : MCPToolExposure :=
  mkExposure name None (Some ["reader"]) None None None approval.

Definition github_server (approval : option string) : MCPServerCR :=
  mkServerCR None "github" None (Some "uid-1") (Some 3) "https://mcp.example" (Some [("github-mcp", "token")]) (Some ["github"])
    (Some [exposed_as "search_issues" approval; exposed_as "list-repos" None; mkExposure "delete-repo" (Some false) None None None None None]).

Definition github_binding (approval : option string) : MCPServerBinding := mkServerBinding "github" (github_server approval) (Some "svc").

Definition github_tools : list DiscoveredTool := [mkLiveTool "search_issues" (Some "Searches") None; mkLiveTool "delete-repo" None None].

Definition tool_of (server id : string) : ToolObject := mkToolObject id [(SERVER_LABEL, server)] [] [].

Definition cluster_before : MemCluster :=
  mkMemCluster (list_to_map ((fun t => (to_name t, t)) <$> [tool_of "github" "mcp-github-list-repos"; tool_of "gitlab" "mcp-gitlab-search"])) [].

Definition search_id : string := "mcp-github-search-issues-51749455".

Lemma catalogId_legal_witness :
  legal_name (catalogIdFor toy_digest "github" (exposed_as "search_issues" None)) /\
  catalogIdFor toy_digest "github" (exposed_as "search_issues" None) = search_id.
Proof.
  split; [|vm_compute; reflexivity].
  apply (catalogId_legal toy_digest toy_digest_length toy_digest_digits "github" (exposed_as "search_issues" None)). reflexivity.
Defined.

Lemma catalogId_distinct_witness :
  catalogIdFor toy_digest "github" (exposed_as "get_user" None) <> catalogIdFor toy_digest "github" (exposed_as "getUser" None).
Proof.
  apply (catalogId_distinct toy_digest toy_digest_length "github" (exposed_as "get_user" None) (exposed_as "getUser" None)).
  - reflexivity.
  - reflexivity.
  - discriminate.
  - right. split; [repeat constructor; vm_compute; discriminate|]. vm_compute. discriminate.
Defined.

(** Tools of two servers that get one id: the second is never created. *)
Example catalogIds_collide :
  catalogIdFor toy_digest "git" (exposed_as "hub-search" None) = catalogIdFor toy_digest "git-hub" (exposed_as "search" None).
Proof. vm_compute. reflexivity. Qed.

Lemma discovery_confined_witness :
  mem_objects (runServer (mem_cluster true (Ok github_tools)) "now" toy_digest (github_binding None) cluster_before).2
    !! "mcp-gitlab-search" = Some (tool_of "gitlab" "mcp-gitlab-search") /\
  mem_objects (runServer (mem_cluster true (Err (McpTransportError "unreachable"))) "now" toy_digest (github_binding None) cluster_before).2
    !! "mcp-github-list-repos" = Some (tool_of "github" "mcp-github-list-repos").
Proof.
  split.
  - apply (discovery_confined (mem_cluster true (Ok github_tools)) mem_objects "now" toy_digest (github_binding None) cluster_before).
    + vm_compute. reflexivity.
    + left. vm_compute. reflexivity.
  - apply (discovery_confined (mem_cluster true (Err (McpTransportError "unreachable"))) mem_objects "now" toy_digest (github_binding None) cluster_before).
    + vm_compute. reflexivity.
    + right. reflexivity.
Defined.

Definition search_tool : DesiredTool :=
  mkDesired search_id (desired_spec (github_server None) (exposed_as "search_issues" None) "search_issues" (mkLiveTool "search_issues" (Some "Searches") None)).

Lemma discovery_reconciles_witness :
  exists w', runServer (mem_cluster true (Ok github_tools)) "now" toy_digest (github_binding None) cluster_before = (Ok tt, w') /\
    ~ (exists t, mem_objects w' !! "mcp-github-list-repos" = Some t /\ owned_by "github" t = true) /\
    mem_objects w' !! "mcp-gitlab-search" = Some (tool_of "gitlab" "mcp-gitlab-search") /\
    exists t, mem_objects w' !! search_id = Some t /\ map_get "description" (to_spec t) = Some (JStr "Searches").
Proof.
  destruct (discovery_reconciles (mem_cluster true (Ok github_tools)) mem_objects "now" toy_digest (github_binding None) github_tools cluster_before)
    as [w' (Hr & Hown & Hothers & Hbrought)].
  - reflexivity.
  - apply (bool_decide_unpack _). vm_compute. exact I.
  - intros d t Hd Ht. exfalso. revert Ht. replace (dd_catalogId d) with search_id; [vm_compute; discriminate|].
    vm_compute in Hd. apply list_elem_of_singleton in Hd as ->. reflexivity.
  - exists w'. split; [exact Hr|]. split_and!.
    + intros (r & entry & Hg & _ & Hl & Hid)%Hown. vm_compute in Hl.
      apply elem_of_cons in Hl as [->|Hl]; [|apply list_elem_of_singleton in Hl as ->];
        vm_compute in Hg; injection Hg as <-; vm_compute in Hid; discriminate.
    + apply Hothers; vm_compute; reflexivity.
    + destruct (Hbrought search_tool) as (t & Ht & _ & _ & Hf); [vm_compute; left|]. exists t. split; [exact Ht|].
      rewrite Hf. vm_compute. reflexivity.
Defined.

(** The approval of a tool once its entry has none any more: the patch keeps it. *)
Definition stored_approval (w : MemCluster) : option json := t ← mem_objects w !! search_id; map_get "approval" (to_spec t).

Definition two_passes : MemCluster :=
  let cluster := mem_cluster true (Ok github_tools) in
  let first := (runServer cluster "now" toy_digest (github_binding (Some "never")) cluster_before).2 in
  (runServer cluster "later" toy_digest (github_binding None) first).2.

Example withdrawn_approval_stays :
  (fun d => ts_approval (dd_spec d)) <$> desiredTools toy_digest (github_server None) github_tools = [None] /\
  stored_approval two_passes = Some (JStr "never").
Proof. vm_compute. split; reflexivity. Qed.

(** One list of the tools that fails ends the pass over every server. *)
Example one_failure_stops_all :
  runAll (mem_cluster false (Ok github_tools)) "now" toy_digest [github_binding None; github_binding None] cluster_before =
  (Err (OtherMcpError "Error: HTTP-Code: 500"), cluster_before).
Proof. vm_compute. reflexivity. Qed.
