(* ===== verification/McpServer.v ===== *)
(** * MCP broker: the registry of servers and the proxied call

    The registry that follows the MCPServer objects of the cluster
    (apps/mcp-broker/src/crd-mcpserver-registry.ts, mcpserver-registry.ts), the
    authentication of the caller (auth.ts) and the HTTP surface (server.ts)
    over the client of mcp-client.ts.

    The registry is a transition system: a watch event runs up to the read of
    the Secret, and the rest of [bind] is a later step. *)

From stdpp Require Import base gmap strings list.
From Stdlib Require Import ZArith Lia Ascii Bool.
From S2P Require Import Prelude JsString JsNumber Json JsMap Driver CorpusResource CrdRegistry Auth Broker HttpSource McpTool.

#[local] Open Scope Z_scope.

(** ** The registry *)

(** The bindings, the calls of [bind] that wait for a Secret, and the bindings
    that [onChange] was called with. *)
Record RegistryState := mkRegistryState {
  rg_bindings : jsmap MCPServerBinding;
  rg_pending : list MCPServerCR;
  rg_changes : list MCPServerBinding
}.

Inductive RegistryEvent :=
| re_watch (phase : WatchPhase) (server : MCPServerCR)
| re_bound (i : nat).

Section Registry.
(** [readNamespacedSecret], and the decoding of one of its values. *)
Variable read_secret : string -> string -> result ConfigError (list (string * string)).
Variable base64_decode : string -> string.
Variable default_namespace : string.

Definition mcp_secretReader (server : MCPServerCR) (secretName key : string) : result ConfigError (option string) :=
  let? data := read_secret (ms_namespace server ?? default_namespace) secretName in
  Ok (base64_decode <$> own_get key data).

(** [None] for a server without a Secret; an error is reported and leaves no
    token either. *)
Definition resolveServiceToken (server : MCPServerCR) : option string :=
  match head (ms_secretEnv server ?? []) with
  | None => None
  | Some (secretName, key) =>
      match mcp_secretReader server secretName key with
      | Ok value => if_set value
      | Err _ => None
      end
  end.

Definition binding_for (server : MCPServerCR) : MCPServerBinding := mkServerBinding (ms_name server) server (resolveServiceToken server).

(** The rest of [bind], once the Secret has been read. *)
Definition bind_finish (fireChange : bool) (server : MCPServerCR) (s : RegistryState) : RegistryState :=
  mkRegistryState (map_set (ms_name server) (binding_for server) (rg_bindings s)) (rg_pending s)
    (if fireChange then rg_changes s ++ [binding_for server] else rg_changes s).

Definition on_server (phase : WatchPhase) (server : MCPServerCR) (s : RegistryState) : RegistryState :=
  if str_empty (ms_name server) then s
  else if decide (phase = DELETED)
  then mkRegistryState (map_delete (ms_name server) (rg_bindings s)) (rg_pending s) (rg_changes s)
  else mkRegistryState (rg_bindings s) (rg_pending s ++ [server]) (rg_changes s).

Definition registry_step (s : RegistryState) (e : RegistryEvent) : RegistryState :=
  match e with
  | re_watch phase server => on_server phase server s
  | re_bound i =>
      match rg_pending s !! i with
      | Some server => bind_finish true server (mkRegistryState (rg_bindings s) (delete i (rg_pending s)) (rg_changes s))
      | None => s
      end
  end.

Definition load_server (s : RegistryState) (server : MCPServerCR) : RegistryState :=
  if str_empty (ms_name server) then s else bind_finish false server s.

Definition mcp_loadAll (items : list MCPServerCR) : RegistryState := foldl load_server (mkRegistryState [] [] []) items.

Definition mcp_get (s : RegistryState) (name : string) : option MCPServerBinding := map_get name (rg_bindings s).
Definition mcp_list (s : RegistryState) : list MCPServerBinding := map_values (rg_bindings s).
End Registry.

(** [new StaticMCPServerRegistry(bindings)] *)
Definition static_bindings (bindings : list MCPServerBinding) : jsmap MCPServerBinding := map_of ((fun b => (mb_name b, b)) <$> bindings).

(** ** The proxied call *)

Record CallRequest := mkCall {
  ca_url : string;
  ca_token : option string;
  ca_name : string;
  ca_arguments : list (string * json)
}.

Record ContentPart := mkPart {
  pt_type : string;
  pt_text : option string
}.

Record ToolCallResult := mkToolCallResult {
  tr_content : option (list ContentPart);
  tr_isError : option bool
}.

Record BrokerReply := mkBrokerReply {
  br_status : Z;
  br_body : json
}.

Record CallRoute := mkCallRoute {
  cr_server : string;
  cr_remoteTool : string
}.

Definition MAX_CALL_BODY : nat := Z.to_nat (1024 * 1024).

Definition part_text (part : ContentPart) : string :=
  if bool_decide (pt_type part = "text") then pt_text part ?? EmptyString else "[" +:+ pt_type part +:+ "]".

Definition flattenToolResult (result : ToolCallResult) : string * bool :=
  (str_concat (part_text <$> (tr_content result ?? [])), tr_isError result ?? false).

(** [authenticate] of auth.ts: there is one caller. *)
Definition authenticate_engine (orchestratorToken : string) (authorization : option string) : result string unit :=
  let token := bearer_token authorization in
  if str_empty token then Err "missing bearer token"
  else if negb (str_empty orchestratorToken) && secretsMatch token orchestratorToken then Ok tt
  else Err "unrecognized bearer token".

Definition refusal (status : Z) (message : string) : BrokerReply := mkBrokerReply status (JObj [("message", JStr message)]).

Definition needs_user (server : MCPServerCR) : bool :=
  match ms_identityProviders server with
  | Some (_ :: _) => true
  | _ => false
  end.

Section Surface.
Context {W : Type}.
(** [new URL], [decodeURIComponent], [JSON.parse] and the decoding of bytes. *)
Variable parse_url : string -> result string ParsedUrl.
Variable decodeURIComponent : string -> result string string.
Variable JSON_parse : string -> option json.
Variable utf8_toString : string -> string.
Variable orchestratorToken : string.
Variable registry : string -> option MCPServerBinding.
Variable callTool : CallRequest -> SM W McpError ToolCallResult.

Definition parse_call_route (path : string) : result string (option CallRoute) :=
  match path_parts path with
  | [root; server; tools; remoteTool; call] =>
      if bool_decide (root = "servers") && bool_decide (tools = "tools") && bool_decide (call = "call")
      then
        let? server := decodeURIComponent server in
        let? remoteTool := decodeURIComponent remoteTool in
        Ok (Some (mkCallRoute server remoteTool))
      else Ok None
  | _ => Ok None
  end.

(** The arguments of a call: an object, or none at all. *)
Definition call_arguments (body : string) : list (string * json) :=
  match JSON_parse (utf8_toString body) with
  | Some (JObj fields) => match jget "arguments" fields with Some (JObj args) => args | _ => [] end
  | _ => []
  end.

Definition delegated_token (req : IncomingMessage) : option string := trim <$> header req DELEGATED_TOKEN_HEADER.

Definition no_user (server : string) : string :=
  "server " +:+ server +:+ " runs tools as the calling user, but no " +:+ DELEGATED_TOKEN_HEADER +:+
  " was provided; refusing to fall back to the discovery credential".

(** Steps 2 to 4: the address of the server and the credential to spend there. *)
Definition grant (route : CallRoute) (req : IncomingMessage) : result BrokerReply (string * option string) :=
  match registry (cr_server route) with
  | None => Err (refusal 404 ("no such server: " +:+ cr_server route))
  | Some binding =>
      let server := mb_cr binding in
      match map_get (cr_remoteTool route) (exposureByRemoteName server) with
      | Some entry =>
          if isExposed entry then
            if needs_user server && negb (truthy_str (delegated_token req)) then Err (refusal 403 (no_user (cr_server route)))
            else Ok (ms_url server, if needs_user server then delegated_token req else mb_serviceToken binding)
          else Err (refusal 404 ("no such tool on " +:+ cr_server route +:+ ": " +:+ cr_remoteTool route))
      | None => Err (refusal 404 ("no such tool on " +:+ cr_server route +:+ ": " +:+ cr_remoteTool route))
      end
  end.

Definition answered (result : ToolCallResult) : BrokerReply :=
  let flattened := flattenToolResult result in
  mkBrokerReply 200 (JObj [("result", JStr flattened.1); ("isError", JBool flattened.2)]).

Definition proxy (call : CallRequest) : SM W McpError BrokerReply :=
  scatch (do! result <- callTool call ;; sret (answered result))
    (fun err => match err with
                | McpTransportError message => sret (refusal 502 message)
                | OtherMcpError _ => sthrow err
                end).

Definition read_call (req : IncomingMessage) : result McpError (list (string * json)) :=
  match read_chunks MAX_CALL_BODY "request body too large" 0 EmptyString (req_chunks req) with
  | Ok body => Ok (call_arguments body)
  | Err _ => Err (OtherMcpError "request body too large")
  end.

Definition handle_call (route : CallRoute) (req : IncomingMessage) : SM W McpError BrokerReply :=
  match authenticate_engine orchestratorToken (header req "authorization") with
  | Err message => sret (refusal 401 message)
  | Ok _ =>
      match grant route req with
      | Err reply => sret reply
      | Ok (url, token) =>
          match read_call req with
          | Err err => sthrow err
          | Ok args => proxy (mkCall url token (cr_remoteTool route) args)
          end
      end
  end.

Definition mcp_handle (req : IncomingMessage) : SM W McpError BrokerReply :=
  match parse_url (req_url req ?? "/") with
  | Err text => sthrow (OtherMcpError text)
  | Ok url =>
      if bool_decide (pathname url = "/healthz") then sret (mkBrokerReply 200 (JObj [("ok", JBool true)]))
      else
        match parse_call_route (pathname url) with
        | Err text => sthrow (OtherMcpError text)
        | Ok None => sret (refusal 404 "not found")
        | Ok (Some route) =>
            if bool_decide (req_method req = Some "POST") then handle_call route req else sret (refusal 404 "not found")
        end
  end.

(** [createMcpBrokerServer]: what was thrown is a reply too. *)
Definition mcp_serve (req : IncomingMessage) : SM W McpError BrokerReply :=
  scatch (mcp_handle req) (fun _ => sret (refusal 500 "internal error")).
End Surface.

(** ** Orderly traces *)

(** The objects of the cluster after the events. *)
Definition seen_step (seen : jsmap MCPServerCR) (e : RegistryEvent) : jsmap MCPServerCR :=
  match e with
  | re_watch phase server =>
      if str_empty (ms_name server) then seen
      else if decide (phase = DELETED) then map_delete (ms_name server) seen else map_set (ms_name server) server seen
  | re_bound _ => seen
  end.

Definition load_seen (seen : jsmap MCPServerCR) (server : MCPServerCR) : jsmap MCPServerCR :=
  seen_step seen (re_watch ADDED server).

(** No server changes while one of its bindings waits for its Secret. *)
Definition orderly (s : RegistryState) (e : RegistryEvent) : bool :=
  match e with
  | re_watch _ server => negb (has (ms_name <$> rg_pending s) (ms_name server))
  | re_bound _ => true
  end.

Section Traces.
Variable read_secret : string -> string -> result ConfigError (list (string * string)).
Variable base64_decode : string -> string.
Variable default_namespace : string.

#[local] Abbreviation step := (registry_step read_secret base64_decode default_namespace).
#[local] Abbreviation load := (mcp_loadAll read_secret base64_decode default_namespace).
#[local] Abbreviation built := (binding_for read_secret base64_decode default_namespace).

Inductive orderly_run : RegistryState -> list RegistryEvent -> RegistryState -> Prop :=
| orderly_stop s : orderly_run s [] s
| orderly_next s e es s' : orderly s e = true -> orderly_run (step s e) es s' -> orderly_run s (e :: es) s'.

(** A server that waits is the one last seen; the others are bound as seen. *)
Record follows (seen : jsmap MCPServerCR) (s : RegistryState) : Prop := mkFollows {
  fo_seen : map_wf seen;
  fo_bindings : map_wf (rg_bindings s);
  fo_pending : NoDup (ms_name <$> rg_pending s);
  fo_latest : forall server, server ∈ rg_pending s -> map_get (ms_name server) seen = Some server;
  fo_bound : forall name, name ∉ ms_name <$> rg_pending s -> map_get name (rg_bindings s) = built <$> map_get name seen;
  fo_named : forall name server, map_get name seen = Some server -> ms_name server = name
}.

Lemma get_set {A : Type} k n (v : A) m : map_get n (map_set k v m) = if decide (n = k) then Some v else map_get n m.
Proof using. case_decide as H; [subst; apply map_get_set_eq|]. by rewrite map_get_set_ne. Qed.

Lemma get_delete {A : Type} k n (m : jsmap A) : map_wf m -> map_get n (map_delete k m) = if decide (n = k) then None else map_get n m.
Proof using. intros Hm. case_decide as H; [subst; by apply map_get_delete_eq|]. by rewrite map_get_delete_ne. Qed.

Lemma follows_load items : follows (foldl load_seen [] items) (load items) /\ rg_pending (load items) = [].
Proof using.
  unfold mcp_loadAll. assert (H0 : follows [] (mkRegistryState [] [] []) /\ rg_pending (mkRegistryState [] [] []) = []).
  { split; [|done]. split; cbn; try done; try constructor. intros ? []%elem_of_nil. }
  revert H0. generalize (mkRegistryState [] [] []). generalize (@nil (string * MCPServerCR)). 
  induction items as [|x items IH]; intros seen s [H Hp]; [done|]. cbn [foldl]. apply IH.
  unfold load_seen, seen_step, load_server. destruct (str_empty (ms_name x)) eqn:E; [done|]. rewrite decide_False by done.
  split; [|done]. destruct H as [H1 H2 H3 H4 H5 H6]. split; cbn; rewrite ?Hp; try (by apply map_set_wf); try constructor.
  - intros server []%elem_of_nil.
  - intros name _. rewrite !get_set. case_decide; [done|]. apply H5. rewrite Hp. apply not_elem_of_nil.
  - intros name server. rewrite get_set. case_decide; [by intros [= ->]|apply H6].
Qed.

Lemma follows_watch seen s phase server :
  follows seen s -> ms_name server ∉ ms_name <$> rg_pending s ->
  follows (seen_step seen (re_watch phase server)) (on_server phase server s).
Proof using.
  intros [H1 H2 H3 H4 H5 H6] Hn. unfold seen_step, on_server. destruct (str_empty (ms_name server)); [done|].
  case_decide as Hd; split; cbn; try done; try (by apply map_set_wf); try (by apply map_delete_wf).
  - intros x Hx. rewrite get_delete by done. rewrite decide_False; [by apply H4|]. intros He. apply Hn. rewrite <- He.
    by apply list_elem_of_fmap_2.
  - intros name Hx. rewrite !get_delete by done. case_decide; [done|]. by apply H5.
  - intros name x. rewrite get_delete by done. case_decide; [done|apply H6].
  - rewrite fmap_app. apply NoDup_app. split; [done|]. split; [|apply NoDup_singleton].
    intros n Hin Hs. apply list_elem_of_singleton in Hs as ->. done.
  - intros x [Hx|Hx%list_elem_of_singleton]%elem_of_app; rewrite get_set.
    + rewrite decide_False; [by apply H4|]. intros He. apply Hn. rewrite <- He. by apply list_elem_of_fmap_2.
    + subst x. by rewrite decide_True.
  - intros name Hx. rewrite fmap_app, not_elem_of_app in Hx. destruct Hx as [Hx Hx']. rewrite get_set, decide_False; [by apply H5|].
    intros ->. apply Hx'. by left.
  - intros name x. rewrite get_set. case_decide; [by intros [= <-]|apply H6].
Qed.

Lemma follows_bound seen s i : follows seen s -> follows seen (step s (re_bound i)).
Proof using.
  intros [H1 H2 H3 H4 H5 H6]. cbn. destruct (rg_pending s !! i) as [server|] eqn:Ei; [|done].
  pose proof (delete_Permutation _ _ _ Ei) as Hp. split; cbn; try done; try (by apply map_set_wf).
  - rewrite Hp in H3. cbn in H3. by apply NoDup_cons in H3 as [_ H3].
  - intros x Hx. apply H4. rewrite Hp. by right.
  - intros name Hx. rewrite get_set. case_decide as Hd.
    + subst name. rewrite (H4 server); [done|]. by eapply list_elem_of_lookup_2.
    + apply H5. rewrite Hp. cbn. rewrite elem_of_cons. tauto.
Qed.

Lemma follows_run s es s' : orderly_run s es s' -> forall seen, follows seen s -> follows (foldl seen_step seen es) s'.
Proof using.
  induction 1 as [s|s e es s' Ho _ IH]; intros seen Hf; [done|]. cbn [foldl]. apply IH. destruct e as [phase server|i].
  - apply follows_watch; [done|]. cbn in Ho. apply negb_true_iff in Ho. rewrite <- has_true, Ho. done.
  - by apply follows_bound.
Qed.

(** If no server changes while its Secret is being read, then once every
    read has ended the registry holds exactly the servers of the cluster, each
    with the token that its Secret gives. *)
Theorem registry_follows (items : list MCPServerCR) (es : list RegistryEvent) (s : RegistryState) :
  orderly_run (load items) es s -> rg_pending s = [] ->
  forall name, mcp_get s name = built <$> map_get name (foldl seen_step (foldl load_seen [] items) es).
Proof using.
  intros Hr Hp name. destruct (follows_load items) as [Hf _]. apply (follows_run _ _ _ Hr) in Hf. apply fo_bound; [done|].
  rewrite Hp. apply not_elem_of_nil.
Qed.
End Traces.

Definition no_secrets (_ _ : string) : result ConfigError (list (string * string)) := Err (SecretUnreadable "no such secret").

Definition shared_server : MCPServerCR := mkServerCR None "docs" None None None "https://docs.example" None None (Some [exposed_as "search" None]).

(** A server that is deleted while its Secret is read is bound again. *)
Example deleted_server_returns :
  let step := registry_step no_secrets (fun s => s) "default" in
  let s := foldl step (mkRegistryState [] [] []) [re_watch ADDED shared_server; re_watch DELETED shared_server; re_bound 0] in
  mcp_get s "docs" = Some (mkServerBinding "docs" shared_server None).
Proof. vm_compute. reflexivity. Qed.

(** A registry that loaded one server, saw it change and bound it again. *)
Definition docs_events : list RegistryEvent := [re_watch MODIFIED shared_server; re_bound 0; re_watch DELETED (github_server None)].

Lemma registry_follows_witness :
  exists s, orderly_run no_secrets (fun s => s) "default" (mcp_loadAll no_secrets (fun s => s) "default" [shared_server; github_server None]) docs_events s /\
    mcp_get s "docs" = Some (mkServerBinding "docs" shared_server None) /\ mcp_get s "github" = None.
Proof.
  eexists. split; [repeat (eapply orderly_next; [vm_compute; reflexivity|]); apply orderly_stop|].
  split; (rewrite (registry_follows no_secrets (fun s => s) "default" [shared_server; github_server None] docs_events);
    [vm_compute; reflexivity|repeat (eapply orderly_next; [vm_compute; reflexivity|]); apply orderly_stop|vm_compute; reflexivity]).
Defined.

(** ** Which calls are made *)

Section Calls.
Context {W : Type}.
Variable parse_url : string -> result string ParsedUrl.
Variable decodeURIComponent : string -> result string string.
Variable JSON_parse : string -> option json.
Variable utf8_toString : string -> string.
Variable orchestratorToken : string.
Variable registry : string -> option MCPServerBinding.
Variable callTool : CallRequest -> SM W McpError ToolCallResult.

#[local] Abbreviation serve := (mcp_serve parse_url decodeURIComponent JSON_parse utf8_toString orchestratorToken registry callTool).
#[local] Abbreviation handled := (mcp_handle parse_url decodeURIComponent JSON_parse utf8_toString orchestratorToken registry callTool).

Definition routed (req : IncomingMessage) (route : CallRoute) : Prop :=
  exists url, parse_url (req_url req ?? "/") = Ok url /\ parse_call_route decodeURIComponent (pathname url) = Ok (Some route) /\
    pathname url <> "/healthz" /\ req_method req = Some "POST".

Definition from_engine (req : IncomingMessage) : Prop :=
  orchestratorToken <> EmptyString /\ bearer_token (header req "authorization") = orchestratorToken.

(** What the operator and the user have granted for a call. *)
Record granted (req : IncomingMessage) (route : CallRoute) (call : CallRequest) : Prop := mkGranted {
  gr_tool : exists binding entry, registry (cr_server route) = Some binding /\
    map_get (cr_remoteTool route) (exposureByRemoteName (mb_cr binding)) = Some entry /\ isExposed entry = true /\
    ca_url call = ms_url (mb_cr binding) /\
    if needs_user (mb_cr binding)
    then exists token, token <> EmptyString /\ delegated_token req = Some token /\ ca_token call = Some token
    else ca_token call = mb_serviceToken binding;
  gr_name : ca_name call = cr_remoteTool route
}.

Lemma authenticate_engine_Ok authorization :
  authenticate_engine orchestratorToken authorization = Ok tt <->
  orchestratorToken <> EmptyString /\ bearer_token authorization = orchestratorToken.
Proof using.
  unfold authenticate_engine. destruct (str_empty (bearer_token authorization)) eqn:E1.
  - apply str_empty_true in E1. rewrite E1. split; [done|]. by intros [Hne He].
  - destruct (str_empty orchestratorToken) eqn:E2; cbn [negb andb].
    + apply str_empty_true in E2. rewrite E2. split; [done|]. by intros [].
    + destruct (secretsMatch (bearer_token authorization) orchestratorToken) eqn:E3.
      * apply secretsMatch_true in E3. split; [|done]. intros _. split; [|done]. intros H. by rewrite H in E2.
      * split; [done|]. intros [_ H%secretsMatch_true]. congruence.
Qed.

Lemma grant_Ok route req url token :
  grant registry route req = Ok (url, token) -> forall args, granted req route (mkCall url token (cr_remoteTool route) args).
Proof using.
  unfold grant. destruct (registry (cr_server route)) as [binding|] eqn:Eb; [|done].
  destruct (map_get (cr_remoteTool route) (exposureByRemoteName (mb_cr binding))) as [entry|] eqn:Ee; [|done].
  destruct (isExposed entry) eqn:Ex; [|done]. intros H args. split; [|done]. exists binding, entry. split; [done|]. split; [done|]. split; [done|].
  destruct (needs_user (mb_cr binding)) eqn:En; cbn [andb] in H; [|by injection H as <- <-].
  destruct (negb (truthy_str (delegated_token req))) eqn:Et; [done|]. injection H as <- <-. split; [done|].
  apply negb_false_iff in Et. destruct (delegated_token req) as [token|] eqn:Ed; [|done]. exists token. split; [|done].
  intros ->. done.
Qed.

Lemma proxy_world call w : (proxy callTool call w).2 = (callTool call w).2.
Proof using. unfold proxy, scatch, sbind. by destruct (callTool call w) as [[r|[m|m]] w']. Qed.

(** C19: The broker does nothing but proxy a call, and only for the engine,
    to a server of the registry and a tool that its exposure map grants, with the
    user's token exactly when the server runs as the user: then it is never the
    service credential. *)
Theorem call_guarded (req : IncomingMessage) (w : W) :
  (serve req w).2 = w \/
  exists route call, routed req route /\ from_engine req /\ granted req route call /\ (serve req w).2 = (callTool call w).2.
Proof using Type*.
  assert (Hs : (serve req w).2 = (handled req w).2) by (unfold mcp_serve, scatch; by destruct (handled req w) as [[r|e] w']).
  rewrite Hs. unfold mcp_handle. destruct (parse_url (req_url req ?? "/")) as [url|] eqn:Eu; [|by left].
  case_bool_decide as Hz; [by left|]. destruct (parse_call_route decodeURIComponent (pathname url)) as [[route|]|] eqn:Er; [|by left|by left].
  case_bool_decide as Hm; [|by left]. unfold handle_call.
  destruct (authenticate_engine _ _) as [[]|] eqn:Ea; [|by left]. destruct (grant registry route req) as [[u token]|] eqn:Eg; [|by left].
  destruct (read_call JSON_parse utf8_toString req) as [args|]; [|by left].
  right. exists route, (mkCall u token (cr_remoteTool route) args). split; [by exists url|].
  split; [by apply authenticate_engine_Ok|]. split; [by apply grant_Ok|]. apply proxy_world.
Qed.

(** The path that the orchestrator's client calls a tool at. *)
Definition call_path (server remoteTool : string) : string :=
  "/servers/" +:+ encodeURIComponent server +:+ "/tools/" +:+ encodeURIComponent remoteTool +:+ "/call".

Lemma call_path_route server remoteTool :
  server <> EmptyString -> remoteTool <> EmptyString ->
  decodeURIComponent (encodeURIComponent server) = Ok server -> decodeURIComponent (encodeURIComponent remoteTool) = Ok remoteTool ->
  parse_call_route decodeURIComponent (call_path server remoteTool) = Ok (Some (mkCallRoute server remoteTool)).
Proof using.
  intros Hs Ht Ds Dt. unfold parse_call_route, call_path.
  change ("/servers/" +:+ encodeURIComponent server +:+ "/tools/" +:+ encodeURIComponent remoteTool +:+ "/call")
    with ("/" +:+ "servers" +:+ "/" +:+ (encodeURIComponent server +:+ "/" +:+ "tools" +:+ "/" +:+ encodeURIComponent remoteTool +:+ "/" +:+ "call")).
  rewrite path_parts_cons by done. rewrite path_parts_cons by auto using encode_no_slash, encode_nonempty.
  rewrite path_parts_cons by done. rewrite path_parts_cons by auto using encode_no_slash, encode_nonempty.
  rewrite path_parts_last by done. cbn. by rewrite Ds, Dt.
Qed.

Lemma read_chunks_whole limit message size acc chunks :
  (size + slen (str_concat chunks) <= limit)%nat -> read_chunks limit message size acc chunks = Ok (acc +:+ str_concat chunks).
Proof using.
  revert size acc. induction chunks as [|chunk chunks IH]; intros size acc Hs; cbn [read_chunks str_concat] in *; [by rewrite app_empty_r|].
  rewrite slen_app in Hs. rewrite (proj2 (Nat.ltb_ge _ _)) by lia. rewrite IH by lia. by rewrite app_assoc_s.
Qed.

(** What a call's result is told as: the texts of its parts in order, a part of
    another type by its type in brackets, and whether the server calls it an
    error. *)
Definition told (result : ToolCallResult) : json :=
  JObj [("result", JStr (str_concat ((fun part => if bool_decide (pt_type part = "text") then pt_text part ?? EmptyString
                                                  else "[" +:+ pt_type part +:+ "]") <$> (tr_content result ?? []))));
        ("isError", JBool (bool_decide (tr_isError result = Some true)))].

(** C20: What discovery materializes can be called: a POST of the engine to the
    path of a materialized tool's server and remote name, with a user's token if
    the tool names identity providers, calls that tool at the server's address
    once, with the arguments of the body, as the user if the tool names identity
    providers and else with the service's credential. The reply is the server's:
    its text and whether it is an error; a server that cannot be reached is 502
    with the reason, and any other error is 500 without it. *)
Theorem materialized_callable (sha1_hex : string -> string) (tools : list DiscoveredTool) (d : DesiredTool)
    (binding : MCPServerBinding) (req : IncomingMessage) (url : ParsedUrl) (fields args : list (string * json)) (w : W) :
  let spec := dd_spec d in
  d ∈ desiredTools sha1_hex (mb_cr binding) tools -> registry (ts_serverRef spec) = Some binding -> ts_serverRef spec <> EmptyString ->
  (forall s, s ∈ [ts_serverRef spec; ts_remoteToolName spec] -> decodeURIComponent (encodeURIComponent s) = Ok s) ->
  req_method req = Some "POST" -> parse_url (req_url req ?? "/") = Ok url ->
  pathname url = call_path (ts_serverRef spec) (ts_remoteToolName spec) -> from_engine req ->
  (ts_identityProviders spec = None \/ truthy_str (trim <$> header req DELEGATED_TOKEN_HEADER) = true) ->
  (slen (str_concat (req_chunks req)) <= MAX_CALL_BODY)%nat ->
  JSON_parse (utf8_toString (str_concat (req_chunks req))) = Some (JObj fields) -> jget "arguments" fields = Some (JObj args) ->
  let token := match ts_identityProviders spec with
               | Some _ => trim <$> header req DELEGATED_TOKEN_HEADER
               | None => mb_serviceToken binding
               end in
  let '(answer, w') := callTool (mkCall (ms_url (mb_cr binding)) token (ts_remoteToolName spec) args) w in
  serve req w =
    (Ok (match answer with
         | Ok result => mkBrokerReply 200 (told result)
         | Err (McpTransportError message) => mkBrokerReply 502 (JObj [("message", JStr message)])
         | Err (OtherMcpError _) => mkBrokerReply 500 (JObj [("message", JStr "internal error")])
         end), w').
Proof using Type*.
  intros spec Hd Hreg Hs Hdec Hm Hu Hpath Hauth Huser Hsize Hparse Hargs token. subst spec token.
  apply desired_exactly in Hd as (r & entry & live & Hg & He & _ & ->). cbn [dd_spec desired_spec ts_serverRef ts_remoteToolName ts_identityProviders] in *.
  destruct (add_exposure_elem _ _ _ Hg) as [_ Hr].
  unfold mcp_serve, mcp_handle. unfold scatch at 1. rewrite Hu, Hpath, bool_decide_false by (unfold call_path; discriminate).
  rewrite call_path_route, bool_decide_true by (try done; apply Hdec; set_solver).
  unfold handle_call. rewrite (proj2 (authenticate_engine_Ok _) Hauth). unfold grant. cbn [cr_server cr_remoteTool].
  rewrite Hreg, Hg, He. unfold read_call. rewrite read_chunks_whole by done. change (EmptyString +:+ ?s) with s.
  unfold call_arguments. rewrite Hparse, Hargs. unfold needs_user, delegated_token.
  assert (Ht : forall result, answered result = mkBrokerReply 200 (told result)).
  { intros result. unfold answered, told, flattenToolResult. cbn. by destruct (tr_isError result) as [[]|]. }
  destruct (ms_identityProviders (mb_cr binding)) as [[|p ps]|]; [|destruct Huser as [?| ->]; [done|]|]; cbn [negb andb];
    unfold proxy, scatch, sbind, sret; destruct (callTool _ w) as [[result|[m|m]] w']; by rewrite ?Ht.
Qed.
End Calls.

(** ** Witnesses *)

(** A client that keeps the calls it is asked for. *)
Definition recording_call (call : CallRequest) : SM (list CallRequest) McpError ToolCallResult :=
  fun calls => (Ok (mkToolCallResult (Some [mkPart "text" (Some "2 hits"); mkPart "image" None]) None), calls ++ [call]).

Definition search_request (delegated : list (string * HeaderValue)) : IncomingMessage :=
  mkIncomingMessage (Some "/servers/github/tools/search_issues/call") (Some "POST") (("authorization", OneValue "Bearer engine") :: delegated) [].

Definition github_registry (name : string) : option MCPServerBinding := if bool_decide (name = "github") then Some (github_binding None) else None.

Definition mcp_url (raw : string) : result string ParsedUrl := Ok (mkParsedUrl raw []).

Definition served (req : IncomingMessage) : result McpError BrokerReply * list CallRequest :=
  mcp_serve mcp_url Ok (fun _ => None) (fun s => s) "engine" github_registry recording_call req [].

(** Without the user's token the call is refused, although the service has one. *)
Example no_service_fallback : br_status <$> (match (served (search_request [])).1 with Ok r => Some r | Err _ => None end) = Some 403 /\ (served (search_request [])).2 = [].
Proof. vm_compute. split; reflexivity. Qed.

(** A body with arguments, as it is parsed. *)
Definition search_body : list (string * json) := [("arguments", JObj [("q", JStr "rocq")])].

Definition called (req : IncomingMessage) : result McpError BrokerReply * list CallRequest :=
  mcp_serve mcp_url Ok (fun _ => Some (JObj search_body)) (fun s => s) "engine" github_registry recording_call req [].

Definition materialized_search : DesiredTool :=
  mkDesired search_id (desired_spec (github_server None) (exposed_as "search_issues" None) "search_issues" (mkLiveTool "search_issues" (Some "Searches") None)).

Lemma materialized_callable_witness :
  called (search_request [("x-delegated-token", OneValue " user ")]) =
  (Ok (mkBrokerReply 200 (JObj [("result", JStr "2 hits[image]"); ("isError", JBool false)])),
   [mkCall "https://mcp.example" (Some "user") "search_issues" [("q", JStr "rocq")]]).
Proof.
  refine (materialized_callable mcp_url Ok (fun _ => Some (JObj search_body)) (fun s => s) "engine" github_registry recording_call
    toy_digest github_tools materialized_search (github_binding None) (search_request [("x-delegated-token", OneValue " user ")])
    (mkParsedUrl "/servers/github/tools/search_issues/call" []) search_body [("q", JStr "rocq")] [] _ _ _ _ _ _ _ _ _ _ _ _).
  - apply desired_exactly. exists "search_issues", (exposed_as "search_issues" None), (mkLiveTool "search_issues" (Some "Searches") None).
    repeat split; vm_compute; reflexivity.
  - vm_compute. reflexivity.
  - discriminate.
  - intros s [->|[->|[]%elem_of_nil]%elem_of_cons]%elem_of_cons; vm_compute; reflexivity.
  - reflexivity.
  - reflexivity.
  - vm_compute. reflexivity.
  - split; [discriminate|vm_compute; reflexivity].
  - right. vm_compute. reflexivity.
  - apply Nat.le_0_l.
  - reflexivity.
  - reflexivity.
Defined.
