(* ===== verification/GatewayAuth.v ===== *)
(** * Integration gateway: who may send an event

    The verification of a webhook's request (apps/integration-gateway/src/
    webhooks/verify.ts), the signed tokens of the Connections page
    (connections/signed-token.ts), and the authentication of a cron source's
    tick (tick-auth.ts).

    A buffer is a string of its bytes. The authenticator of ticks is a
    transition system: a step is the code between two awaits. *)

From stdpp Require Import base gmap strings list.
From Stdlib Require Import ZArith Lia Ascii Bool.
From S2P Require Import Prelude JsString JsNumber Json JsMap JsList JsonText Driver Writer Rbac RecordStore.

#[local] Open Scope Z_scope.

(** ** Webhooks *)

(** The schemes of an EventSource, or the JSON text of another value. *)
Inductive VerifyScheme := sv_hmacSha256 | sv_slackV0 | sv_bearer | sv_other (text : string).

#[export] Instance VerifyScheme_eq_dec : EqDecision VerifyScheme.
Proof. solve_decision. Defined.

Record WebhookVerify := mkWebhookVerify {
  wv_scheme : VerifyScheme;
  wv_header : option string;
  wv_prefix : option string;
  wv_secretRef : string * string
}.

Definition SLACK_MAX_SKEW_SECONDS : Z := 300.
Definition SLACK_SIGNATURE_HEADER : string := "x-slack-signature".
Definition SLACK_TIMESTAMP_HEADER : string := "x-slack-request-timestamp".
Definition DEFAULT_BEARER_HEADER : string := "authorization".

(** [/^[0-9a-fA-F]{64}$/] *)
Definition HEX_SHA256 (s : string) : bool := Nat.eqb (slen s) 64 && HEX_PATTERN s.

Definition verifyHeaderName (verify : WebhookVerify) : string :=
  toLowerCase (match wv_scheme verify with
               | sv_slackV0 => if_set (wv_header verify) ?? SLACK_SIGNATURE_HEADER
               | sv_bearer => if_set (wv_header verify) ?? DEFAULT_BEARER_HEADER
               | sv_hmacSha256 | sv_other _ => wv_header verify ?? EmptyString
               end).

(** A header that came once. *)
Definition singleHeader (headers : list (string * HeaderValue)) (name : string) : option string :=
  if str_empty name then None
  else match own_get (toLowerCase name) headers with
       | Some (OneValue s) | Some (ManyValues [s]) => Some s
       | _ => None
       end.

(** [/^\d{1,12}$/] *)
Definition slack_timestamp (s : string) : bool := negb (str_empty s) && Nat.leb (slen s) 12 && all_digits s.

Definition strip_prefix (prefix s : string) : option string := if startsWith prefix s then Some (str_drop (slen prefix) s) else None.

Section Webhooks.
(** The HMAC-SHA256 of some data under a secret, and the SHA-256 of a text. *)
Variable hmac : string -> string -> string.
Variable sha256 : string -> string.

Definition hmacHexMatches (secret data providedHex : string) : bool := HEX_SHA256 providedHex && String.eqb (hmac secret data) (unhex providedHex).

Definition constantTimeEquals (a b : string) : bool := String.eqb (sha256 a) (sha256 b).

Definition verify_hmac (verify : WebhookVerify) (secret : string) (headers : list (string * HeaderValue)) (rawBody : string) : result string unit :=
  let header := verifyHeaderName verify in
  if str_empty header then Err "hmacSha256 source has no signature header configured"
  else
    match if_set (singleHeader headers header) with
    | None => Err ("missing " +:+ header)
    | Some provided =>
        match strip_prefix (wv_prefix verify ?? EmptyString) provided with
        | None => Err (header +:+ " lacks the expected prefix")
        | Some hex => if hmacHexMatches secret rawBody hex then Ok tt else Err (header +:+ " mismatch")
        end
    end.

Definition slack_base (timestamp rawBody : string) : string := "v0:" +:+ timestamp +:+ ":" +:+ rawBody.

Definition verify_slack (verify : WebhookVerify) (secret : string) (headers : list (string * HeaderValue)) (rawBody : string) (now : Z) :
    result string unit :=
  let header := verifyHeaderName verify in
  match if_set (singleHeader headers header) with
  | None => Err ("missing " +:+ header)
  | Some provided =>
      match singleHeader headers SLACK_TIMESTAMP_HEADER with
      | Some timestamp =>
          if slack_timestamp timestamp then
            if Z.abs (now / 1000 - digits_value timestamp) <=? SLACK_MAX_SKEW_SECONDS then
              match strip_prefix "v0=" provided with
              | None => Err (header +:+ " is not a v0 signature")
              | Some hex => if hmacHexMatches secret (slack_base timestamp rawBody) hex then Ok tt else Err (header +:+ " mismatch")
              end
            else Err (SLACK_TIMESTAMP_HEADER +:+ " outside the 300s window")
          else Err ("missing or malformed " +:+ SLACK_TIMESTAMP_HEADER)
      | None => Err ("missing or malformed " +:+ SLACK_TIMESTAMP_HEADER)
      end
  end.

Definition verify_bearer (verify : WebhookVerify) (secret : string) (headers : list (string * HeaderValue)) : result string unit :=
  let header := verifyHeaderName verify in
  match if_set (singleHeader headers header) with
  | None => Err ("missing " +:+ header)
  | Some provided =>
      let expected := if bool_decide (header = DEFAULT_BEARER_HEADER) then "Bearer " +:+ secret else secret in
      if constantTimeEquals provided expected then Ok tt else Err (header +:+ " mismatch")
  end.

Definition verifyWebhookRequest (verify : WebhookVerify) (secret : option string) (headers : list (string * HeaderValue)) (rawBody : string)
    (now : Z) : result string unit :=
  match if_set secret with
  | None => Err "verification secret unavailable"
  | Some secret =>
      match wv_scheme verify with
      | sv_hmacSha256 => verify_hmac verify secret headers rawBody
      | sv_slackV0 => verify_slack verify secret headers rawBody now
      | sv_bearer => verify_bearer verify secret headers
      | sv_other text => Err ("unsupported verify scheme " +:+ text)
      end
  end.
End Webhooks.

Definition slackUrlVerificationChallenge (body : json) : option string :=
  match body with
  | JObj fields =>
      match jget "type" fields, jget "challenge" fields with
      | Some (JStr kind), Some (JStr challenge) => if bool_decide (kind = "url_verification") then Some challenge else None
      | _, _ => None
      end
  | _ => None
  end.

(** ** Signed tokens *)

Section Tokens.
Variable hmac : string -> string -> string.
Variables b64url unb64url : string -> string.
Variable JSON_parse : string -> option json.

Definition token_mac (body purpose key : string) : string := b64url (hmac key (purpose +:+ "." +:+ body)).

Definition token_payload (payload : jsmap json) (expiresAt : Z) : json := JObj (map_set "exp" (JNum (num_of_Z (expiresAt / 1000))) payload).

Definition signToken (payload : jsmap json) (purpose key : string) (expiresAt : Z) : string :=
  let body := b64url (JSON_text (token_payload payload expiresAt)) in
  body +:+ "." +:+ token_mac body purpose key.

Definition token_fields (parsed : json) (now : Z) : option (jsmap json) :=
  match parsed with
  | JObj fields =>
      match jget "exp" fields with
      | Some (JNum exp) => if num_le (num_mul exp (num_of_Z 1000)) now then None else Some fields
      | _ => None
      end
  | _ => None
  end.

Definition verifyToken (token purpose key : string) (now : Z) : option (jsmap json) :=
  match split_char "."%char token with
  | [body; sig] =>
      if str_empty body || str_empty sig then None
      else if negb (String.eqb (unb64url (token_mac body purpose key)) (unb64url sig)) then None
      else parsed ← JSON_parse (unb64url body); token_fields parsed now
  | _ => None
  end.

Definition deriveKey (secret label : string) : string := hmac secret ("controller-agent/" +:+ label).
End Tokens.

(** ** Ticks *)

Definition TICK_TOKEN_AUDIENCE : string := "integration-gateway.events".
Definition TICK_TOKEN_MAX_LIFETIME_SECONDS : Z := 3600.
Definition KEY_REFRESH_MIN_INTERVAL_MS : Z := 30000.
Definition SIGNING_ALGORITHMS : list string := ["RS256"; "ES256"].

Definition tickServiceAccountName (source : string) : string := "eventsource-" +:+ source.

Definition tickUsername (namespace source : string) : string :=
  "system:serviceaccount:" +:+ namespace +:+ ":" +:+ tickServiceAccountName source.

Record JwtVerifyOptions := mkJwtVerifyOptions {
  jo_issuer : string;
  jo_audience : string;
  jo_algorithms : list string;
  jo_requiredClaims : list string;
  jo_currentDate : Z
}.

Record JwtPayload := mkJwtPayload {
  jp_exp : option number;
  jp_iat : option number;
  jp_sub : option string
}.

(** [jwtVerify]: a payload, the error of a key that is not in the set, or
    another error. *)
Inductive JwtOutcome := jwt_verified (payload : JwtPayload) | jwt_no_matching_key | jwt_invalid.

(** What [verify] says of a token: its user, nobody, or that its key is not held. *)
Inductive TickVerdict := tv_user (user : option string) | tv_unknown_key.

(** A call of [authenticate]: it awaits [refresh] before its first or its
    second try, or has ended. [fetching] tells whether a fetch must end first. *)
Inductive TickCall :=
| tc_loading (token : string) (fetching : bool)
| tc_reloading (token : string) (fetching : bool)
| tc_done (token : string) (user : option string).

Section Ticks.
Context {Jwks : Type}.
Variable jwtVerify : JwtVerifyOptions -> Jwks -> string -> JwtOutcome.

Record IssuerKeys := mkIssuerKeys {
  ik_issuer : string;
  ik_jwks : Jwks
}.

(** [ta_fetched] keeps when the keys were asked for, the last time first. *)
Record TickAuthenticator := mkTickAuthenticator {
  ta_keys : option IssuerKeys;
  ta_lastFetchAt : option Z;
  ta_inflight : bool;
  ta_calls : list TickCall;
  ta_fetched : list Z
}.

Definition tick_init : TickAuthenticator := mkTickAuthenticator None None false [] [].

Definition tick_options (keys : IssuerKeys) (now : Z) : JwtVerifyOptions :=
  mkJwtVerifyOptions (ik_issuer keys) TICK_TOKEN_AUDIENCE SIGNING_ALGORITHMS ["exp"; "iat"; "sub"] now.

Definition verify_tick (s : TickAuthenticator) (token : string) (now : Z) : TickVerdict :=
  match ta_keys s with
  | None => tv_user None
  | Some keys =>
      match jwtVerify (tick_options keys now) (ik_jwks keys) token with
      | jwt_verified payload =>
          if num_gtb (num_sub (jp_exp payload ?? num_of_Z 0) (jp_iat payload ?? num_of_Z 0)) (num_of_Z TICK_TOKEN_MAX_LIFETIME_SECONDS)
          then tv_user None else tv_user (if_set (jp_sub payload))
      | jwt_no_matching_key => tv_unknown_key
      | jwt_invalid => tv_user None
      end
  end.

(** [refresh] up to its await: whether the caller has a fetch to wait for. *)
Definition tick_refresh (now : Z) (s : TickAuthenticator) : TickAuthenticator * bool :=
  if ta_inflight s then (s, true)
  else
    match ta_lastFetchAt s with
    | Some last =>
        if now - last <? KEY_REFRESH_MIN_INTERVAL_MS then (s, false)
        else (mkTickAuthenticator (ta_keys s) (Some now) true (ta_calls s) (now :: ta_fetched s), true)
    | None => (mkTickAuthenticator (ta_keys s) (Some now) true (ta_calls s) (now :: ta_fetched s), true)
    end.

Definition set_calls (calls : list TickCall) (s : TickAuthenticator) : TickAuthenticator :=
  mkTickAuthenticator (ta_keys s) (ta_lastFetchAt s) (ta_inflight s) calls (ta_fetched s).

(** The first try, and the refresh after it when the key is not held. *)
Definition first_try (token : string) (now : Z) (s : TickAuthenticator) : TickAuthenticator * TickCall :=
  match verify_tick s token now with
  | tv_user user => (s, tc_done token user)
  | tv_unknown_key => let '(s', fetching) := tick_refresh now s in (s', tc_reloading token fetching)
  end.

Definition second_try (token : string) (now : Z) (s : TickAuthenticator) : TickCall :=
  match verify_tick s token now with
  | tv_user user => tc_done token user
  | tv_unknown_key => tc_done token None
  end.

Definition fetch_ended (c : TickCall) : TickCall :=
  match c with
  | tc_loading token _ => tc_loading token false
  | tc_reloading token _ => tc_reloading token false
  | tc_done token user => tc_done token user
  end.

Inductive TickEvent :=
| te_authenticate (token : string) (now : Z)
| te_resume (i : nat) (now : Z)
| te_fetched (keys : result string IssuerKeys).

Definition tick_step (s : TickAuthenticator) (e : TickEvent) : TickAuthenticator :=
  match e with
  | te_authenticate token now =>
      match ta_keys s with
      | None => let '(s', fetching) := tick_refresh now s in set_calls (ta_calls s' ++ [tc_loading token fetching]) s'
      | Some _ => let '(s', call) := first_try token now s in set_calls (ta_calls s' ++ [call]) s'
      end
  | te_resume i now =>
      match ta_calls s !! i with
      | Some (tc_loading token false) => let '(s', call) := first_try token now s in set_calls (<[i := call]> (ta_calls s')) s'
      | Some (tc_reloading token false) => set_calls (<[i := second_try token now s]> (ta_calls s)) s
      | _ => s
      end
  | te_fetched keys =>
      if ta_inflight s
      then mkTickAuthenticator (match keys with Ok k => Some k | Err _ => ta_keys s end) (ta_lastFetchAt s) false
             (fetch_ended <$> ta_calls s) (ta_fetched s)
      else s
  end.

Definition tick_run (events : list TickEvent) : TickAuthenticator := foldl tick_step tick_init events.
End Ticks.
Arguments IssuerKeys : clear implicits.
Arguments TickAuthenticator : clear implicits.
Arguments TickEvent : clear implicits.

(** ** Lemmas: hexadecimal *)

(** The hexadecimal digits of a buffer. *)
Definition hex_of (bytes : string) : string := bytes_hex (code <$> String.list_ascii_of_string bytes).

Definition below (n : nat) : list N := N.of_nat <$> seq 0 n.

Lemma below_elem n k : k ∈ below n <-> (k < N.of_nat n)%N.
Proof.
  unfold below. rewrite list_elem_of_fmap. setoid_rewrite elem_of_seq. split; [intros [m [-> H]]; lia|].
  intros H. exists (N.to_nat k). lia.
Qed.

Lemma hex_digits_checked :
  forallb (fun n => forallb (fun k => Bool.eqb (bool_decide (lower_char (ascii_of_N n) = hex_lower k)) (bool_decide (hex_value (ascii_of_N n) = Some k)))
                      (below 16)) (below 256) = true.
Proof. vm_compute. reflexivity. Qed.

Lemma hex_digit a k : (k < 16)%N -> lower_char a = hex_lower k <-> hex_value a = Some k.
Proof.
  intros Hk. pose proof hex_digits_checked as H. rewrite forallb_elem_of in H. specialize (H (code a)).
  rewrite below_elem in H. specialize (H (N_ascii_bounded a)). rewrite forallb_elem_of in H. specialize (H k (proj2 (below_elem 16 k) Hk)).
  unfold code in H. rewrite ascii_N_embedding in H. apply Bool.eqb_prop in H. split; intros He.
  - rewrite bool_decide_true in H by done. symmetry in H. by apply bool_decide_eq_true in H.
  - rewrite (bool_decide_true (hex_value a = Some k)) in H by done. by apply bool_decide_eq_true in H.
Qed.

Lemma hex_value_small a k : hex_value a = Some k -> (k < 16)%N.
Proof. destruct a as [[] [] [] [] [] [] [] []]; vm_compute; intros [= <-]; reflexivity. Qed.

Lemma hex_of_cons c d : hex_of (String c d) = String (hex_lower (code c / 16)) (String (hex_lower (code c mod 16)) (hex_of d)).
Proof. reflexivity. Qed.

Lemma code_ascii_of_N n : (n < 256)%N -> code (ascii_of_N n) = n.
Proof. intros Hn. unfold code. by apply N_ascii_embedding. Qed.

Lemma HEX_cons a b s : str_forall (fun c => bool_decide (is_Some (hex_value c))) (String a (String b s)) = true <->
  is_Some (hex_value a) /\ is_Some (hex_value b) /\ str_forall (fun c => bool_decide (is_Some (hex_value c))) s = true.
Proof. cbn [str_forall]. rewrite !andb_true_iff, !bool_decide_eq_true. tauto. Qed.

Lemma unhex_hex d s :
  (str_forall (fun c => bool_decide (is_Some (hex_value c))) s = true /\ slen s = (2 * slen d)%nat /\ unhex s = d) <-> toLowerCase s = hex_of d.
Proof.
  revert s. induction d as [|c d IH]; intros s.
  - split; [intros (_ & Hl & _); by apply slen_zero in Hl as ->|]. destruct s; [done|]. unfold toLowerCase. cbn [str_map]. discriminate.
  - rewrite hex_of_cons. assert (Hq : (code c / 16 < 16)%N) by (apply N.Div0.div_lt_upper_bound; apply (N_ascii_bounded c)).
    pose proof (N.mod_lt (code c) 16 ltac:(lia)) as Hm. destruct s as [|a [|b s]].
    + cbn. split; [intros (_ & Hl & _); lia|discriminate].
    + cbn. split; [intros (_ & Hl & _); lia|discriminate].
    + rewrite HEX_cons. change (toLowerCase (String a (String b s))) with (String (lower_char a) (String (lower_char b) (toLowerCase s))). split.
      * intros (([x Hx] & [y Hy] & Hs) & Hl & Hu). cbn [unhex] in Hu. rewrite Hx, Hy in Hu. cbn [nullish] in Hu.
        injection Hu as Hc Hd. pose proof (hex_value_small _ _ Hx). pose proof (hex_value_small _ _ Hy).
        assert (Hcode : code c = (x * 16 + y)%N) by (rewrite <- Hc; apply code_ascii_of_N; lia).
        rewrite Hcode, N.div_add_l, N.div_small, N.add_0_r by lia. rewrite (N.add_comm _ y), N.Div0.mod_add, N.mod_small by lia.
        apply hex_digit in Hx as ->; [|done]. apply hex_digit in Hy as ->; [|done]. f_equal. f_equal. apply IH.
        split; [done|]. split; [cbn in Hl; lia|done].
      * intros [= Ha Hb Hs]. apply hex_digit in Ha; [|done]. apply hex_digit in Hb; [|done]. apply IH in Hs as (Hs & Hl & Hu).
        rewrite Ha, Hb. split; [split_and!; [by eexists|by eexists|done]|]. split; [cbn; lia|]. cbn [unhex]. rewrite Ha, Hb. cbn [nullish].
        f_equal; [|done]. rewrite N.mul_comm, <- N.div_mod by lia. apply ascii_N_embedding.
Qed.

Lemma strip_prefix_Some prefix s rest : strip_prefix prefix s = Some rest <-> s = prefix +:+ rest.
Proof.
  unfold strip_prefix, startsWith. split.
  - destruct (String.prefix prefix s) eqn:E; [|done]. intros [= <-]. revert s E.
    induction prefix as [|c p IH]; intros s; [done|]. destruct s as [|d s]; [done|]. cbn. destruct (ascii_dec c d) as [->|]; [|done].
    intros Hp. f_equal. by apply IH.
  - intros ->. rewrite str_drop_app. replace (String.prefix prefix (prefix +:+ rest)) with true; [done|].
    induction prefix as [|c p IH]; [by destruct rest|]. cbn. destruct (ascii_dec c c); [done|congruence].
Qed.

(** ** Webhooks: what is accepted *)

Section Accepted.
Variable hmac : string -> string -> string.
Variable sha256 : string -> string.

(** The signature of some data: the digits of its HMAC, in either case. *)
Definition signed_as (signature data secret : string) : Prop := toLowerCase signature = hex_of (hmac secret data).

(** A request whose header proves that its sender has the secret. *)
Inductive authentic (verify : WebhookVerify) (secret : string) (headers : list (string * HeaderValue)) (rawBody : string) (now : Z) : Prop :=
| authentic_hmac signature :
    wv_scheme verify = sv_hmacSha256 -> verifyHeaderName verify <> EmptyString ->
    singleHeader headers (verifyHeaderName verify) = Some ((wv_prefix verify ?? EmptyString) +:+ signature) ->
    signed_as signature rawBody secret -> authentic verify secret headers rawBody now
| authentic_slack timestamp signature :
    wv_scheme verify = sv_slackV0 -> singleHeader headers (verifyHeaderName verify) = Some ("v0=" +:+ signature) ->
    singleHeader headers SLACK_TIMESTAMP_HEADER = Some timestamp -> slack_timestamp timestamp = true ->
    Z.abs (now / 1000 - digits_value timestamp) <= 300 ->
    signed_as signature ("v0:" +:+ timestamp +:+ ":" +:+ rawBody) secret -> authentic verify secret headers rawBody now
| authentic_bearer provided :
    wv_scheme verify = sv_bearer -> provided <> EmptyString -> singleHeader headers (verifyHeaderName verify) = Some provided ->
    sha256 provided = sha256 (if bool_decide (verifyHeaderName verify = "authorization") then "Bearer " +:+ secret else secret) ->
    authentic verify secret headers rawBody now.

Hypothesis digest : forall key data, slen (hmac key data) = 32%nat.

Lemma hmacHexMatches_spec secret data signature : hmacHexMatches hmac secret data signature = true <-> signed_as signature data secret.
Proof using Type*.
  unfold hmacHexMatches, HEX_SHA256, HEX_PATTERN, signed_as. rewrite <- unhex_hex, digest, !andb_true_iff, Nat.eqb_eq, String.eqb_eq. split.
  - intros [[Hl [_ Hh]] Hu]. split_and!; [done|lia|done].
  - intros (Hh & Hl & Hu). split_and!; [lia| |done|done]. destruct signature; [discriminate|done].
Qed.

Lemma signed_nonempty signature data secret : signed_as signature data secret -> signature <> EmptyString.
Proof using digest. intros H ->. apply hmacHexMatches_spec in H. done. Qed.

Lemma if_set_Some o s : if_set o = Some s <-> o = Some s /\ s <> EmptyString.
Proof using.
  unfold if_set, truthy_str. destruct o as [[|c t]|]; cbn; (split; [try discriminate|]).
  - intros [[= <-] Hne]. done.
  - by intros [= <-].
  - by intros [-> _].
  - by intros [].
Qed.

Lemma set_text s : s <> EmptyString -> if_set (Some s) = Some s.
Proof using. intros Hne. by apply if_set_Some. Qed.

Lemma verify_hmac_spec verify secret headers rawBody now :
  wv_scheme verify = sv_hmacSha256 ->
  verify_hmac hmac verify secret headers rawBody = Ok tt <-> authentic verify secret headers rawBody now.
Proof using Type*.
  intros Hs. unfold verify_hmac. split.
  - destruct (str_empty (verifyHeaderName verify)) eqn:En; [done|]. destruct (if_set _) as [provided|] eqn:Eh; [|done].
    destruct (strip_prefix _ provided) as [hex|] eqn:Ep; [|done]. destruct (hmacHexMatches _ _ _ _) eqn:Em; [|done]. intros _.
    apply if_set_Some in Eh as [Eh _]. apply strip_prefix_Some in Ep as ->. apply hmacHexMatches_spec in Em.
    eapply authentic_hmac; [done| |done|done]. intros H. by rewrite H in En.
  - intros [signature _ Hn Hh Hsig|? ? H|? H]; [|congruence..].
    destruct (str_empty (verifyHeaderName verify)) eqn:En; [by apply str_empty_true in En|]. rewrite Hh.
    rewrite set_text.
    + rewrite (proj2 (strip_prefix_Some _ _ _) eq_refl). by rewrite (proj2 (hmacHexMatches_spec _ _ _) Hsig).
    + apply signed_nonempty in Hsig. by destruct (wv_prefix verify ?? EmptyString).
Qed.

Lemma verify_slack_spec verify secret headers rawBody now :
  wv_scheme verify = sv_slackV0 ->
  verify_slack hmac verify secret headers rawBody now = Ok tt <-> authentic verify secret headers rawBody now.
Proof using Type*.
  intros Hs. unfold verify_slack. split.
  - destruct (if_set _) as [provided|] eqn:Eh; [|done]. destruct (singleHeader headers SLACK_TIMESTAMP_HEADER) as [timestamp|] eqn:Et; [|done].
    destruct (slack_timestamp timestamp) eqn:Ed; [|done]. destruct (Z.leb_spec (Z.abs (now / 1000 - digits_value timestamp)) SLACK_MAX_SKEW_SECONDS); [|done].
    destruct (strip_prefix _ provided) as [hex|] eqn:Ep; [|done]. destruct (hmacHexMatches _ _ _ _) eqn:Em; [|done]. intros _.
    apply if_set_Some in Eh as [Eh _]. apply strip_prefix_Some in Ep as ->. apply hmacHexMatches_spec in Em. by eapply authentic_slack.
  - intros [? H|timestamp signature _ Hh Ht Hd Hw Hsig|? H]; [congruence| |congruence].
    rewrite Hh, Ht, Hd. rewrite set_text by done. unfold SLACK_MAX_SKEW_SECONDS. rewrite (proj2 (Z.leb_le _ _)) by done.
    rewrite (proj2 (strip_prefix_Some _ _ _) eq_refl). unfold slack_base. by rewrite (proj2 (hmacHexMatches_spec _ _ _) Hsig).
Qed.

Lemma verify_bearer_spec verify secret headers rawBody now :
  wv_scheme verify = sv_bearer -> verify_bearer sha256 verify secret headers = Ok tt <-> authentic verify secret headers rawBody now.
Proof using.
  intros Hs. unfold verify_bearer, constantTimeEquals. split.
  - destruct (if_set _) as [provided|] eqn:Eh; [|done]. destruct (String.eqb_spec (sha256 provided)
      (sha256 (if bool_decide (verifyHeaderName verify = DEFAULT_BEARER_HEADER) then "Bearer " +:+ secret else secret))); [|done].
    intros _. apply if_set_Some in Eh as [Eh Hne]. by eapply authentic_bearer.
  - intros [? H|? ? H|provided _ Hne Hh Hsig]; [congruence..|]. rewrite Hh, set_text by done.
    unfold DEFAULT_BEARER_HEADER. by rewrite Hsig, String.eqb_refl.
Qed.

(** A webhook's request is accepted exactly when the source's secret can be
    read and is not empty and the request proves that its sender has it: by the
    HMAC of its body, or for Slack of its body and a time within five minutes, or
    by the secret itself; in one header that came once. *)
Theorem webhook_exact (verify : WebhookVerify) (secret : option string) (headers : list (string * HeaderValue)) (rawBody : string) (now : Z) :
  verifyWebhookRequest hmac sha256 verify secret headers rawBody now = Ok tt <->
  exists key, secret = Some key /\ key <> EmptyString /\ authentic verify key headers rawBody now.
Proof using Type*.
  unfold verifyWebhookRequest. destruct (if_set secret) as [key|] eqn:E.
  - apply if_set_Some in E as [-> Hne]. transitivity (authentic verify key headers rawBody now).
    + destruct (wv_scheme verify) eqn:Es; [by apply verify_hmac_spec|by apply verify_slack_spec|by apply verify_bearer_spec|].
      split; [done|]. intros [? H|? ? H|? H]; congruence.
    + split; [intros H; by exists key|]. intros (? & [= <-] & _ & H). done.
  - split; [done|]. intros (key & -> & Hne & _). by rewrite set_text in E.
Qed.
End Accepted.

(** ** Signed tokens *)

Section TokenLaws.
Variable hmac : string -> string -> string.
Variables b64url unb64url : string -> string.
Variable JSON_parse : string -> option json.
Context `{!Base64Laws b64url unb64url}.
Hypothesis mac_nonempty : forall key data, hmac key data <> EmptyString.

Lemma verify_signed payload purpose key expiresAt purpose' key' now :
  verifyToken hmac b64url unb64url JSON_parse (signToken hmac b64url payload purpose key expiresAt) purpose' key' now =
  let body := b64url (JSON_text (token_payload payload expiresAt)) in
  if String.eqb (hmac key' (purpose' +:+ "." +:+ body)) (hmac key (purpose +:+ "." +:+ body))
  then parsed ← JSON_parse (JSON_text (token_payload payload expiresAt)); token_fields parsed now
  else None.
Proof using Type*.
  unfold verifyToken, signToken. set (body := b64url (JSON_text _)).
  change (split_char _ _) with (split_char "."%char (body +:+ String "."%char (token_mac hmac b64url body purpose key))).
  rewrite (split_char_app_sep "."%char body) by apply includes_char_false, b64_no_dot.
  rewrite (split_char_nosep _ (token_mac _ _ _ _ _)) by (unfold token_mac; apply includes_char_false, b64_no_dot).
  assert (str_empty body = false) as ->.
  { destruct body eqn:E; [|done]. exfalso. apply (b64_nonempty (JSON_text (token_payload payload expiresAt))); [discriminate|exact E]. }
  assert (str_empty (token_mac hmac b64url body purpose key) = false) as ->.
  { destruct (token_mac hmac b64url body purpose key) eqn:E; [|done]. exfalso. by apply (b64_nonempty (hmac key (purpose +:+ "." +:+ body))). }
  cbn [orb]. unfold token_mac. rewrite (b64_decode (hmac key' _)), (b64_decode (hmac key _)). destruct (String.eqb _ _); cbn [negb]; [|done]. unfold body. by rewrite b64_decode.
Qed.

(** A token is good for its purpose until its second of expiry, and then
    never: what is verified are the fields that were signed. *)
Theorem token_roundtrip (payload : jsmap json) (purpose key : string) (expiresAt now : Z) :
  JSON_parse (JSON_text (token_payload payload expiresAt)) = Some (token_payload payload expiresAt) ->
  1000 <= expiresAt < 2 ^ 53 ->
  verifyToken hmac b64url unb64url JSON_parse (signToken hmac b64url payload purpose key expiresAt) purpose key now =
  if expiresAt / 1000 * 1000 <=? now then None else Some (map_set "exp" (JNum (num_of_Z (expiresAt / 1000))) payload).
Proof using Type*.
  intros Hjson Hb. rewrite verify_signed. cbv zeta. rewrite String.eqb_refl, Hjson. cbn [mbind option_bind]. unfold token_fields, token_payload.
  unfold jget. rewrite (map_get_set_eq "exp"). pose proof (Z.div_le_mono 1000 expiresAt 1000 ltac:(lia) ltac:(lia)) as Hd. rewrite Z.div_same in Hd by lia.
  pose proof (Z.mul_div_le expiresAt 1000 ltac:(lia)). rewrite seconds_passed by lia. done.
Qed.

(** A token that was signed for one purpose is good for another only where
    two different messages have one MAC under the key. *)
Theorem token_purpose (payload : jsmap json) (purpose purpose' key : string) (expiresAt now : Z) (fields : jsmap json) :
  purpose <> purpose' ->
  verifyToken hmac b64url unb64url JSON_parse (signToken hmac b64url payload purpose key expiresAt) purpose' key now = Some fields ->
  exists m m', m <> m' /\ hmac key m = hmac key m'.
Proof using Type*.
  intros Hne. rewrite verify_signed. cbv zeta. set (body := b64url _). destruct (String.eqb_spec (hmac key (purpose' +:+ "." +:+ body)) (hmac key (purpose +:+ "." +:+ body))) as [He|]; [|done].
  intros _. exists (purpose' +:+ "." +:+ body), (purpose +:+ "." +:+ body). split; [|done]. intros Hm. apply Hne.
  assert (Hl : slen purpose = slen purpose') by (apply (f_equal String.length) in Hm; rewrite !slen_app in Hm; lia).
  apply (f_equal (str_take (slen purpose'))) in Hm. rewrite str_take_app in Hm. rewrite <- Hl in Hm. by rewrite str_take_app in Hm.
Qed.
End TokenLaws.

(** ** Ticks: the keys and the users *)

Section TickLaws.
Context {Jwks : Type}.
Variable jwtVerify : JwtVerifyOptions -> Jwks -> string -> JwtOutcome.

(** Times of which each is at least half a minute after the one that follows. *)
Fixpoint spaced (times : list Z) : Prop :=
  match times with
  | later :: (earlier :: _) as rest => earlier + KEY_REFRESH_MIN_INTERVAL_MS <= later /\ spaced rest
  | _ => True
  end.

(** The keys that the API gave during the events. *)
Definition given (events : list (TickEvent Jwks)) (keys : IssuerKeys Jwks) : Prop := te_fetched (Ok keys) ∈ events.

(** A token whose holder some given keys vouched for, with a life of an hour
    at most. *)
Definition vouched (events : list (TickEvent Jwks)) (token user : string) : Prop :=
  exists keys now payload, given events keys /\ user <> EmptyString /\
    jwtVerify (tick_options keys now) (ik_jwks keys) token = jwt_verified payload /\ jp_sub payload = Some user /\
    num_gtb (num_sub (jp_exp payload ?? num_of_Z 0) (jp_iat payload ?? num_of_Z 0)) (num_of_Z 3600) = false.

Record tick_wf (events : list (TickEvent Jwks)) (s : TickAuthenticator Jwks) : Prop := mkTickWf {
  tw_last : head (ta_fetched s) = ta_lastFetchAt s;
  tw_spaced : spaced (ta_fetched s);
  tw_keys : forall keys, ta_keys s = Some keys -> given events keys;
  tw_done : forall token user, tc_done token (Some user) ∈ ta_calls s -> vouched events token user
}.

Lemma vouched_more events e token user : vouched events token user -> vouched (events ++ [e]) token user.
Proof using.
  intros (keys & now & payload & Hg & H). exists keys, now, payload. split; [|done]. unfold given in *. rewrite elem_of_app. by left.
Qed.

Lemma verify_vouched events s token now user :
  tick_wf events s -> verify_tick jwtVerify s token now = tv_user (Some user) -> vouched events token user.
Proof using.
  intros Hs. unfold verify_tick. destruct (ta_keys s) as [keys|] eqn:Ek; [|done].
  destruct (jwtVerify _ _ _) as [payload| |] eqn:Ev; [|done..]. destruct (num_gtb _ _) eqn:El; [done|]. intros [= Hu].
  assert (Hsub : jp_sub payload = Some user /\ user <> EmptyString).
  { unfold if_set, truthy_str in Hu. destruct (jp_sub payload) as [[|c t]|]; cbn in Hu; [done| |done]. injection Hu as <-. done. }
  exists keys, now, payload. destruct Hsub. split_and!; try done. by apply (tw_keys events s).
Qed.

Lemma refresh_wf events s now s' b : tick_wf events s -> tick_refresh now s = (s', b) -> tick_wf events s' /\ ta_calls s' = ta_calls s.
Proof using.
  intros [H1 H2 H3 H4]. unfold tick_refresh. destruct (ta_inflight s); [by intros [= <- <-]|].
  destruct (ta_lastFetchAt s) as [last|] eqn:El.
  - destruct (Z.ltb_spec (now - last) KEY_REFRESH_MIN_INTERVAL_MS); intros [= <- <-]; [by split; [split|]; rewrite ?El|].
    split; [|done]. split; cbn; try done. destruct (ta_fetched s) as [|t ts]; [done|]. injection H1 as ->. split; [lia|done].
  - intros [= <- <-]. split; [|done]. split; cbn; try done. by destruct (ta_fetched s).
Qed.

Lemma set_calls_wf events s calls :
  tick_wf events s -> (forall token user, tc_done token (Some user) ∈ calls -> vouched events token user) -> tick_wf events (set_calls calls s).
Proof using. intros [H1 H2 H3 H4] Hc. by split. Qed.

Lemma first_try_wf events s token now s' call :
  tick_wf events s -> first_try jwtVerify token now s = (s', call) ->
  tick_wf events s' /\ ta_calls s' = ta_calls s /\ (forall token user, call = tc_done token (Some user) -> vouched events token user).
Proof using.
  intros Hs. unfold first_try. destruct (verify_tick jwtVerify s token now) as [user|] eqn:Ev.
  - intros [= <- <-]. split; [done|]. split; [done|]. intros token' user' [= <- ->]. by eapply verify_vouched.
  - destruct (tick_refresh now s) as [s1 b] eqn:Er. intros [= <- <-]. destruct (refresh_wf _ _ _ _ _ Hs Er) as [Hw Hc].
    split; [done|]. split; [done|]. done.
Qed.

Lemma insert_calls_wf events s i call :
  tick_wf events s -> (forall token user, call = tc_done token (Some user) -> vouched events token user) ->
  tick_wf events (set_calls (<[i := call]> (ta_calls s)) s).
Proof using.
  intros Hs Hc. apply set_calls_wf; [done|]. intros token user [j Hj]%list_elem_of_lookup_1.
  destruct (decide (i = j)) as [<-|Hne].
  - apply list_lookup_insert_Some in Hj as [(_ & Hcall & _)|[Hne _]]; [by apply Hc|done].
  - rewrite list_lookup_insert_ne in Hj by done. eapply (tw_done events s); [done|]. by eapply list_elem_of_lookup_2.
Qed.

Lemma tick_step_wf events s e : tick_wf events s -> tick_wf (events ++ [e]) (tick_step jwtVerify s e).
Proof using.
  intros Hs0. assert (Hs : tick_wf (events ++ [e]) s).
  { destruct Hs0 as [H1 H2 H3 H4]. split; try done.
    - intros keys Hk. unfold given. rewrite elem_of_app. left. by apply H3.
    - intros token user Hd. by apply vouched_more, H4. }
  clear Hs0. destruct e as [token now|i now|keys]; cbn [tick_step].
  - destruct (ta_keys s) as [k|] eqn:Ek.
    + destruct (first_try jwtVerify token now s) as [s1 call] eqn:Ef. destruct (first_try_wf _ _ _ _ _ _ Hs Ef) as (Hw & Hc & Hd).
      apply set_calls_wf; [done|]. intros t u [Hin|Hin%list_elem_of_singleton]%elem_of_app; [by eapply tw_done|by apply Hd].
    + destruct (tick_refresh now s) as [s1 b] eqn:Er. destruct (refresh_wf _ _ _ _ _ Hs Er) as [Hw Hc].
      apply set_calls_wf; [done|]. intros t u [Hin|Hin%list_elem_of_singleton]%elem_of_app; [by eapply tw_done|done].
  - destruct (ta_calls s !! i) as [[token []|token []|]|] eqn:Ei; try done.
    + destruct (first_try jwtVerify token now s) as [s1 call] eqn:Ef. destruct (first_try_wf _ _ _ _ _ _ Hs Ef) as (Hw & Hc & Hd).
      by apply insert_calls_wf.
    + apply insert_calls_wf; [done|]. intros t u. unfold second_try. destruct (verify_tick jwtVerify s token now) as [user|] eqn:Ev; [|done].
      intros [= <- ->]. by eapply verify_vouched.
  - destruct (ta_inflight s); [|done]. destruct Hs as [H1 H2 H3 H4]. split; cbn; try done.
    + intros k Hk. destruct keys as [k'|]; [injection Hk as ->|by apply H3]. unfold given. rewrite elem_of_app. right. by left.
    + intros token user [c [Hc Hin]]%list_elem_of_fmap. destruct c; cbn in Hc; try done. injection Hc as <- <-. by apply H4.
Qed.

Lemma tick_run_wf events : tick_wf events (tick_run jwtVerify events).
Proof using.
  unfold tick_run. assert (H : forall es done s, tick_wf done s -> tick_wf (done ++ es) (foldl (tick_step jwtVerify) s es)).
  { induction es as [|e es IH]; intros pre s Hs; [by rewrite app_nil_r|]. cbn [foldl]. rewrite cons_middle, app_assoc. apply IH. by apply tick_step_wf. }
  apply (H events [] tick_init). split; cbn; try done. intros ? ? []%elem_of_nil.
Qed.

(** C24: However the calls and the fetches interleave, a tick's token names a
    user only where keys that the API gave vouch for it, with the audience of the
    gateway, a subject, and at most an hour between its issue and its expiry; and
    the keys are asked for at most once in half a minute. *)
Theorem ticks_vouched (events : list (TickEvent Jwks)) :
  spaced (ta_fetched (tick_run jwtVerify events)) /\
  forall token user, tc_done token (Some user) ∈ ta_calls (tick_run jwtVerify events) -> vouched events token user.
Proof using. pose proof (tick_run_wf events) as [H1 H2 H3 H4]. done. Qed.
End TickLaws.

(** ** Witnesses *)

(** Thirty-two bytes that depend on the key and the data. *)
Definition toy_mac (key data : string) : string := str_take 32 (data +:+ key +:+ "................................").

Lemma toy_mac_length key data : slen (toy_mac key data) = 32%nat.
Proof.
  unfold toy_mac. rewrite slen_take, !slen_app. change (slen "................................") with 32%nat. lia.
Qed.

Lemma toy_mac_nonempty key data : toy_mac key data <> EmptyString.
Proof. intros H. pose proof (toy_mac_length key data) as Hl. rewrite H in Hl. done. Qed.

Definition github_hook : WebhookVerify := mkWebhookVerify sv_hmacSha256 (Some "X-Hub-Signature-256") (Some "sha256=") ("hook", "secret").

Lemma webhook_exact_witness :
  let headers := [("x-hub-signature-256", OneValue ("sha256=" +:+ hex_of (toy_mac "s3" "{}")))] in
  verifyWebhookRequest toy_mac (fun s => s) github_hook (Some "s3") headers "{}" 0 = Ok tt /\
  verifyWebhookRequest toy_mac (fun s => s) github_hook (Some "s3") headers "{ }" 0 <> Ok tt.
Proof.
  split.
  - apply (webhook_exact toy_mac (fun s => s) toy_mac_length). exists "s3". split; [reflexivity|]. split; [discriminate|].
    eapply authentic_hmac; [reflexivity|discriminate|reflexivity|vm_compute; reflexivity].
  - vm_compute. discriminate.
Defined.

Definition session_payload : jsmap json := [("sub", JStr "alice")].

(** A parser that knows the one token of the witness. *)
Definition session_parse (s : string) : option json :=
  if bool_decide (s = JSON_text (token_payload session_payload 7000)) then Some (token_payload session_payload 7000) else None.

Definition session_token : string := signToken toy_mac nibbles session_payload "session" "k" 7000.

Lemma token_roundtrip_witness :
  verifyToken toy_mac nibbles unnibbles session_parse session_token "session" "k" 6999 = Some [("sub", JStr "alice"); ("exp", JNum (num_of_Z 7))] /\
  verifyToken toy_mac nibbles unnibbles session_parse session_token "session" "k" 7000 = None.
Proof.
  split.
  - etransitivity; [apply (token_roundtrip toy_mac nibbles unnibbles session_parse toy_mac_nonempty session_payload "session" "k" 7000 6999)|];
      [vm_compute; reflexivity|lia|reflexivity].
  - etransitivity; [apply (token_roundtrip toy_mac nibbles unnibbles session_parse toy_mac_nonempty session_payload "session" "k" 7000 7000)|];
      [vm_compute; reflexivity|lia|reflexivity].
Defined.

(** A MAC that does not look at its message keeps no purposes apart. *)
Definition blind_mac (key data : string) : string := key +:+ "!".

Lemma blind_mac_nonempty key data : blind_mac key data <> EmptyString.
Proof. unfold blind_mac. by destruct key. Qed.

Lemma token_purpose_witness :
  exists m m', m <> m' /\ blind_mac "k" m = blind_mac "k" m'.
Proof.
  apply (token_purpose blind_mac nibbles unnibbles session_parse blind_mac_nonempty session_payload "session" "login" "k" 7000 0
           [("sub", JStr "alice"); ("exp", JNum (num_of_Z 7))]); [discriminate|vm_compute; reflexivity].
Defined.

(** Two ticks at once on a fresh pod: one fetch, and both are authenticated. *)
Definition toy_jwt (options : JwtVerifyOptions) (keys : list string) (token : string) : JwtOutcome :=
  if negb (has keys token) then jwt_no_matching_key
  else jwt_verified (mkJwtPayload (Some (num_of_Z 1600)) (Some (num_of_Z 1000)) (Some (tickUsername "agents" "nightly"))).

Example two_ticks :
  let s := tick_run toy_jwt
    [te_authenticate "a.b.c" 0; te_authenticate "x.y.z" 5; te_fetched (Ok (mkIssuerKeys "issuer" ["a.b.c"])); te_resume 0 10; te_resume 1 11; te_resume 1 12] in
  ta_calls s = [tc_done "a.b.c" (Some "system:serviceaccount:agents:eventsource-nightly"); tc_done "x.y.z" None] /\ ta_fetched s = [0].
Proof. vm_compute. split; reflexivity. Qed.
