(* ===== verification/GatewaySource.v ===== *)
(** * Integration gateway: sources of events

    The compilation of an EventSource and the reader of Secrets
    (apps/integration-gateway/src/event-sources.ts), the filter of deliveries
    that no trigger could match (event-triggers.ts), and the building of an
    envelope (packages/event-triggers/src/envelope.ts).

    An expression of CEL is compiled and run by the arguments that EventTrigger
    takes too. *)

From stdpp Require Import base gmap strings list.
From Stdlib Require Import ZArith Lia Ascii Bool.
From S2P Require Import Prelude JsString JsNumber Json JsMap EventValues EventTrigger Driver GatewayAuth.

#[local] Open Scope Z_scope.

(** ** Resources *)

Record WebhookSource := mkWebhookSource {
  ws_verify : option WebhookVerify;
  ws_deliveryIdHeader : option string
}.

Record CronSource := mkCronSource {
  cs_schedule : string;
  cs_payload : option json
}.

Record EventSender := mkEventSender {
  sn_provider : string;
  sn_loginFrom : option string;
  sn_isBotFrom : option string;
  sn_repositoryFrom : option string;
  sn_dropBots : option bool
}.

(** [EventSourceResource]: its name and its spec. *)
Record EventSourceResource := mkSourceResource {
  sr_name : option string;
  sr_webhook : option WebhookSource;
  sr_cron : option CronSource;
  sr_sender : option EventSender
}.

Section Sources.
Variable program : Type.
Variable cel_compile : string -> result string (string * program).

Record CompiledSender := mkCompiledSender {
  cn_loginFrom : CompiledExpression program;
  cn_isBotFrom : option (CompiledExpression program);
  cn_repositoryFrom : option (CompiledExpression program);
  cn_dropBots : bool
}.

Inductive CompiledEventSource :=
| webhook_source (name : string) (verify : WebhookVerify) (deliveryIdHeader : option string) (sender : option CompiledSender)
| cron_source (name : string) (cron : CronSource).

Definition source_name (s : CompiledEventSource) : string :=
  match s with
  | webhook_source name _ _ _ | cron_source name _ => name
  end.

Definition compileField (field : string) (expr : option string) : result string (CompiledExpression program) :=
  match if_set (trim <$> expr) with
  | None => Err (field +:+ " is empty")
  | Some _ =>
      match compileExpression program cel_compile (expr ?? EmptyString) with
      | Ok c => Ok c
      | Err e => Err (field +:+ ": " +:+ e)
      end
  end.

Definition compile_optional (field : string) (expr : option string) : result string (option (CompiledExpression program)) :=
  match expr with
  | None => Ok None
  | Some _ => let? c := compileField field expr in Ok (Some c)
  end.

Definition compile_sender (sender : EventSender) : result string CompiledSender :=
  throw_if negb (bool_decide (sn_provider sender = "github")) with
    ("spec.sender.provider " +:+ json_quote (sn_provider sender) +:+ " is not supported (only " +:+ json_quote "github" +:+ ")") ;;
  let? login := compileField "spec.sender.loginFrom" (sn_loginFrom sender) in
  let? isBot := compile_optional "spec.sender.isBotFrom" (sn_isBotFrom sender) in
  let? repository := compile_optional "spec.sender.repositoryFrom" (sn_repositoryFrom sender) in
  Ok (mkCompiledSender login isBot repository (sn_dropBots sender ?? true)).

Definition known_scheme (verify : WebhookVerify) : bool :=
  match wv_scheme verify with
  | sv_other _ => false
  | _ => true
  end.

Definition compile_webhook (name : string) (w : WebhookSource) (sender : option EventSender) : result string CompiledEventSource :=
  match ws_verify w with
  | None => Err "spec.webhook.verify.scheme must be one of hmacSha256, slackV0, bearer"
  | Some verify =>
      throw_if negb (known_scheme verify) with "spec.webhook.verify.scheme must be one of hmacSha256, slackV0, bearer" ;;
      throw_if str_empty (wv_secretRef verify).1 || str_empty (wv_secretRef verify).2 with
        "spec.webhook.verify.secretRef.name and .key are required" ;;
      throw_if bool_decide (wv_scheme verify = sv_hmacSha256) && negb (truthy_str (wv_header verify)) with
        "spec.webhook.verify.header is required for hmacSha256" ;;
      match sender with
      | None => Ok (webhook_source name verify (ws_deliveryIdHeader w) None)
      | Some sender => let? c := compile_sender sender in Ok (webhook_source name verify (ws_deliveryIdHeader w) (Some c))
      end
  end.

Definition compileEventSource (resource : EventSourceResource) : result string CompiledEventSource :=
  match if_set (sr_name resource) with
  | None => Err "missing metadata.name"
  | Some name =>
      match sr_webhook resource, sr_cron resource with
      | Some w, None => compile_webhook name w (sr_sender resource)
      | None, Some c =>
          match sr_sender resource with
          | Some _ => Err "spec.sender is only valid with spec.webhook"
          | None => Ok (cron_source name c)
          end
      | _, _ => Err "exactly one of spec.webhook / spec.cron must be set"
      end
  end.

(** [StaticEventSourceRegistry] *)
Definition static_sources (resources : list EventSourceResource) : jsmap CompiledEventSource :=
  foldl (fun m r => match compileEventSource r with Ok s => map_set (source_name s) s m | Err _ => m end) [] resources.
End Sources.
Arguments CompiledEventSource : clear implicits.
Arguments webhook_source {program}.
Arguments cron_source {program}.
Arguments mkCompiledSender {program}.
Arguments cn_loginFrom {program} c.
Arguments cn_isBotFrom {program} c.
Arguments cn_repositoryFrom {program} c.
Arguments cn_dropBots {program} c.
Arguments source_name {program} s.

(** ** What a match expression reads (readsResolvedFields) *)

Definition squote : ascii := "'"%char.
Definition is_quote (c : ascii) : bool := Ascii.eqb c dquote || Ascii.eqb c squote.
Definition ident_start (c : ascii) : bool := is_upper c || is_lower c || Ascii.eqb c "_"%char.
Definition ident_char (c : ascii) : bool := ident_start c || is_digit c.

Definition char_is (p : ascii -> bool) (expr : string) (i : nat) : bool :=
  match String.get i expr with
  | Some c => p c
  | None => false
  end.

Definition is_r (c : ascii) : bool := Ascii.eqb c "r"%char || Ascii.eqb c "R"%char.

(** The index of the next newline, or the end. *)
Definition end_of_line (expr : string) (i : nat) : nat :=
  match str_search (Ascii.eqb nl) (str_drop i expr) with
  | Some k => (i + k)%nat
  | None => slen expr
  end.

(** The loop of [skipString], with [fuel] characters left. *)
Fixpoint string_end (fuel : nat) (expr close : string) (triple raw : bool) (i : nat) : nat :=
  match fuel with
  | O => i
  | S fuel =>
      if Nat.leb (slen expr) i then i
      else if negb raw && char_is (Ascii.eqb "\"%char) expr i then string_end fuel expr close triple raw (i + 2)
      else if startsWith close (str_drop i expr) then (i + slen close)%nat
      else if negb triple && char_is (Ascii.eqb nl) expr i then i
      else string_end fuel expr close triple raw (i + 1)
  end.

Definition skipString (expr : string) (start : nat) (q : ascii) (raw : bool) : nat :=
  let one := String q EmptyString in
  let triple := startsWith (one +:+ one +:+ one) (str_drop start expr) in
  let close := if triple then one +:+ one +:+ one else one in
  string_end (slen expr) expr close triple raw (start + slen close).

Definition RESOLVED_VARIABLES : list string := ["sender"; "repository"].

(** [/^[rRbB]{1,2}$/] *)
Definition string_marker (s : string) : bool := Nat.leb 1 (slen s) && Nat.leb (slen s) 2 && str_forall (char_in "rRbB") s.

(** The expressions [expr[i - 1]] and [expr[i - 2]]. *)
Definition char_before (k : nat) (p : ascii -> bool) (expr : string) (i : nat) : bool := Nat.leb k i && char_is p expr (i - k).

(** The loop of [readsResolvedFields]; every round moves [i] on. *)
Fixpoint scan_fields (fuel : nat) (expr : string) (i : nat) (previous : string) : bool :=
  match fuel, String.get i expr with
  | O, _ | _, None => false
  | S fuel, Some c =>
      if Ascii.eqb c "/"%char && char_is (Ascii.eqb "/"%char) expr (i + 1) then scan_fields fuel expr (end_of_line expr i) previous
      else if is_ws c then scan_fields fuel expr (i + 1) previous
      else if is_quote c then
        let raw := char_before 1 is_r expr i || char_before 2 is_r expr i in
        scan_fields fuel expr (skipString expr i c raw) (String c EmptyString)
      else if ident_start c then
        let ident := take_while ident_char (str_drop i expr) in
        let j := (i + slen ident)%nat in
        if string_marker ident && char_is is_quote expr j then scan_fields fuel expr j previous
        else if has RESOLVED_VARIABLES ident && negb (bool_decide (previous = ".")) then true
        else scan_fields fuel expr j ident
      else scan_fields fuel expr (i + 1) (String c EmptyString)
  end.

Definition readsResolvedFields (expr : string) : bool := scan_fields (S (slen expr)) expr 0 EmptyString.

(** ** The filter of deliveries *)

Section Prefilter.
Variable program : Type.
Variable cel_run : program -> list (string * cel) -> result string cel.

Definition could_win (preliminary : Envelope) (t : CompiledTrigger program) : bool :=
  is_candidate program preliminary t &&
  match ct_match program t with
  | None => true
  | Some m =>
      readsResolvedFields (ce_source program m) ||
      match evaluate program cel_run m (envelopeActivation preliminary) with
      | Ok (CBool b) => b
      | _ => false
      end
  end.

Definition couldMatchBeforeSender (triggers : list (CompiledTrigger program)) (preliminary : Envelope) : bool :=
  existsb (could_win preliminary) triggers.
End Prefilter.

(** ** Envelopes *)

Definition mediaType (contentType : option string) : string := toLowerCase (trim (take_while (fun c => negb (Ascii.eqb ";"%char c)) (contentType ?? EmptyString))).

Section Envelopes.
Variable JSON_parse : string -> option json.
Variable form_fields : string -> list (string * string).
Variable utf8_toString : string -> string.
Variable toISOString : Z -> string.

Definition add_form_field (out : jsmap json) (f : string * string) : jsmap json :=
  match map_get f.1 out with
  | Some _ => out
  | None => map_set f.1 (JStr f.2) out
  end.

Definition parseBody (rawBody : string) (contentType : option string) : json :=
  let text := utf8_toString rawBody in
  let raw := JObj [("text", JStr text)] in
  if bool_decide (mediaType contentType = "application/json") then JSON_parse text ?? raw
  else if bool_decide (mediaType contentType = "application/x-www-form-urlencoded") then JObj (foldl add_form_field [] (form_fields text))
  else raw.

(** [s.replace(/\.\d{3}Z$/, "Z")] *)
Definition strip_millis (s : string) : string :=
  let n := (slen s - 5)%nat in
  let tail := str_drop n s in
  if Nat.leb 5 (slen s) && startsWith "." tail && all_digits (str_take 3 (str_drop 1 tail)) && bool_decide (str_drop 4 tail = "Z")
  then str_take n s +:+ "Z" else s.

Definition formatEventTime (now : Z) : string := strip_millis (toISOString now).

Definition buildWebhookEnvelope (source id : string) (headers : jsmap string) (body : json) (sender : option (list (string * json)))
    (repository : option string) (now : Z) : Envelope :=
  mkEnvelope source webhook id (formatEventTime now) headers body (sender ?? []) (repository ?? EmptyString).

Definition buildCronEnvelope (source uuid : string) (payload : option json) (now : Z) : Envelope :=
  mkEnvelope source cron (source +:+ "-" +:+ Z_to_string (now / 1000) +:+ "-" +:+ str_take 8 uuid) (formatEventTime now) [] (or_empty payload)
    [] EmptyString.
End Envelopes.

(** ** The reader of Secrets *)

Record SecretEntry := mkSecretEntry {
  se_value : option string;
  se_readAt : Z;
  se_expiresAt : Z
}.

Record SecretReaderOptions := mkSecretReaderOptions {
  so_ttlMs : Z;
  so_negativeTtlMs : Z;
  so_minRefreshIntervalMs : Z
}.

Definition default_reader : SecretReaderOptions := mkSecretReaderOptions 30000 5000 2000.

(** A read that failed: whether with the status 404. *)
Record ReadError := mkReadError { re_notFound : bool }.

Section Secrets.
Context {W : Type}.
Variable readNamespacedSecret : string -> SM W ReadError (jsmap string).
Variable base64_decode : string -> string.
Variable clock : W -> Z.
Variable opts : SecretReaderOptions.

(** A world with the reader's cache. *)
Definition SW : Type := W * jsmap SecretEntry.

Definition secret_key (name key : string) : string := name +:+ String "000"%char key.

Definition cached_secret (name key : string) (refresh : bool) (w : SW) : option SecretEntry :=
  match map_get (secret_key name key) w.2 with
  | Some hit =>
      let now := clock w.1 in
      if now <? se_expiresAt hit then
        let recentlyRead := now - se_readAt hit <? so_minRefreshIntervalMs opts in
        if negb refresh || recentlyRead then Some hit else None
      else None
  | None => None
  end.

Definition keep_secret (name key : string) (value : option string) (w : SW) : SW :=
  let readAt := clock w.1 in
  let ttl := match value with None => so_negativeTtlMs opts | Some _ => so_ttlMs opts end in
  (w.1, map_set (secret_key name key) (mkSecretEntry value readAt (readAt + ttl)) w.2).

Definition secret_get (name key : string) (refresh : bool) : SM SW ReadError (option string) := fun w =>
  match cached_secret name key refresh w with
  | Some hit => (Ok (se_value hit), w)
  | None =>
      match readNamespacedSecret name w.1 with
      | (Ok data, w1) =>
          let value := if_set (base64_decode <$> map_get key data) in
          (Ok value, keep_secret name key value (w1, w.2))
      | (Err e, w1) => if re_notFound e then (Ok None, keep_secret name key None (w1, w.2)) else (Ok None, (w1, w.2))
      end
  end.
End Secrets.

(** ** Lemmas: the scan *)

Lemma string_end_ge fuel expr close triple raw i : (i <= string_end fuel expr close triple raw i)%nat.
Proof.
  revert i. induction fuel as [|fuel IH]; intros i; cbn [string_end]; [lia|].
  repeat case_match; try lia; etransitivity; [|apply IH| |apply IH]; lia.
Qed.

Lemma skipString_gt expr start q raw : (start < skipString expr start q raw)%nat.
Proof.
  unfold skipString. eapply Nat.lt_le_trans; [|apply string_end_ge]. case_match; cbn; lia.
Qed.

Lemma str_drop_get i expr c : String.get i expr = Some c -> exists rest, str_drop i expr = String c rest.
Proof.
  revert i. induction expr as [|d expr IH]; intros i; [by destruct i|]. destruct i as [|i]; cbn; [intros [= ->]; eauto|apply IH].
Qed.

Lemma get_lt i expr c : String.get i expr = Some c -> (i < slen expr)%nat.
Proof.
  revert i. induction expr as [|d expr IH]; intros i; [by destruct i|]. destruct i as [|i]; cbn; [lia|]. intros H%IH. lia.
Qed.

Lemma end_of_line_gt expr i c : String.get i expr = Some c -> Ascii.eqb nl c = false -> (i < end_of_line expr i)%nat.
Proof.
  intros Hg Hc. unfold end_of_line. destruct (str_drop_get _ _ _ Hg) as [rest ->]. pose proof (get_lt _ _ _ Hg).
  destruct (str_search _ _) as [k|] eqn:E; [|done]. destruct k as [|k]; [|lia]. cbn in E. rewrite Hc in E. by destruct (str_search _ rest).
Qed.

(** The scan never runs out of its fuel. *)
Lemma scan_fuel fuel fuel' expr i previous :
  (slen expr < i + fuel)%nat -> (fuel <= fuel')%nat -> scan_fields fuel' expr i previous = scan_fields fuel expr i previous.
Proof.
  revert fuel' i previous. induction fuel as [|fuel IH]; intros fuel' i previous Hf Hle.
  - destruct fuel' as [|fuel']; [done|]. cbn [scan_fields]. destruct (String.get i expr) eqn:Eg; [|done]. apply get_lt in Eg. lia.
  - destruct fuel' as [|fuel']; [lia|]. cbn [scan_fields]. destruct (String.get i expr) as [c|] eqn:Eg; [|done].
    destruct (Ascii.eqb c "/"%char && char_is (Ascii.eqb "/"%char) expr (i + 1)) eqn:E1.
    { apply andb_true_iff in E1 as [E1%Ascii.eqb_eq _]. pose proof (end_of_line_gt expr i c Eg ltac:(by rewrite E1)). apply IH; lia. }
    destruct (is_ws c); [apply IH; lia|]. destruct (is_quote c).
    { pose proof (skipString_gt expr i c (char_before 1 is_r expr i || char_before 2 is_r expr i)). apply IH; lia. }
    destruct (ident_start c) eqn:Ei; [|apply IH; lia].
    assert (Hj : (0 < slen (take_while ident_char (str_drop i expr)))%nat).
    { destruct (str_drop_get _ _ _ Eg) as [rest ->]. cbn [take_while]. unfold ident_char at 1. rewrite Ei. cbn. lia. }
    repeat case_match; try done; apply IH; lia.
Qed.

(** ** Properties *)

Section PrefilterSafe.
Context {program : Type}.
Variable cel_run : program -> list (string * cel) -> result string cel.

(** The envelope once the sender is known. *)
Definition with_sender (e : Envelope) (sender : list (string * json)) (repository : string) : Envelope :=
  mkEnvelope (env_source e) (env_kind e) (env_id e) (env_time e) (env_headers e) (env_body e) sender repository.

(** An expression that the scan clears has the same value before the sender
    and the repository are known. *)
Definition scan_right (e : Envelope) (t : CompiledTrigger program) : Prop :=
  forall m sender repository, ct_match program t = Some m -> readsResolvedFields (ce_source program m) = false ->
    evaluate program cel_run m (envelopeActivation (with_sender e sender repository)) = evaluate program cel_run m (envelopeActivation e).

Lemma candidate_sender e sender repository t : is_candidate program (with_sender e sender repository) t = is_candidate program e t.
Proof using. reflexivity. Qed.

Lemma could_win_wins e sender repository t :
  scan_right e t -> is_candidate program (with_sender e sender repository) t = true ->
  match_outcome program cel_run (envelopeActivation (with_sender e sender repository)) t = Wins -> could_win program cel_run e t = true.
Proof using.
  intros Hs Hc Hm. rewrite candidate_sender in Hc. unfold could_win. rewrite Hc. cbn [andb]. unfold match_outcome in Hm.
  destruct (ct_match program t) as [m|] eqn:Em; [|done]. destruct (readsResolvedFields (ce_source program m)) eqn:Er; [done|]. cbn [orb].
  rewrite (Hs m sender repository Em Er) in Hm. destruct (evaluate program cel_run m (envelopeActivation e)) as [[]|]; try done. by destruct b.
Qed.

Lemma pick_wins activation candidates t errors :
  pick program cel_run activation candidates = (Some t, errors) -> t ∈ candidates /\ match_outcome program cel_run activation t = Wins.
Proof using.
  revert errors. induction candidates as [|t' rest IH]; intros errors; [done|]. cbn [pick].
  destruct (match_outcome program cel_run activation t') as [| |e] eqn:Eo.
  - intros [= -> _]. split; [by left|done].
  - intros [Hin Hm]%IH. split; [by right|done].
  - destruct (pick program cel_run activation rest) as [w es]. intros [= -> _]. destruct (IH es eq_refl) as [Hin Hm]. split; [by right|done].
Qed.

(** The filter before the sender lookup drops no event that a trigger would
    match: if, of the same triggers, one wins for the event once its sender and
    repository are known, the filter lets the event through, whatever they are. *)
Theorem prefilter_keeps_matches (triggers : list (CompiledTrigger program)) (e : Envelope) (sender : list (string * json)) (repository : string)
    (t : CompiledTrigger program) (errors : list (string * string)) :
  Forall (scan_right e) triggers ->
  pick program cel_run (envelopeActivation (with_sender e sender repository)) (candidates_of program triggers (with_sender e sender repository)) =
    (Some t, errors) ->
  couldMatchBeforeSender program cel_run triggers e = true.
Proof using.
  intros Hs [Hin Hm]%pick_wins. unfold candidates_of in Hin. rewrite sort_triggers_elem in Hin.
  apply list_elem_of_In, filter_In in Hin as [Hin Hc]. apply existsb_exists. exists t. split; [done|].
  eapply could_win_wins; [|done|done]. rewrite Forall_forall in Hs. by apply Hs, list_elem_of_In.
Qed.
End PrefilterSafe.

Section SecretReads.
Context {W : Type}.
Variable readNamespacedSecret : string -> SM W ReadError (jsmap string).
Variable base64_decode : string -> string.
Variable clock : W -> Z.
Variable opts : SecretReaderOptions.

#[local] Abbreviation get := (secret_get readNamespacedSecret base64_decode clock opts).

(** The world after a read of a key that came to an end, with a value or
    without one: the time of the read is in the cache. *)
Definition just_read (name key : string) (w : SW (W := W)) : Prop :=
  exists e, map_get (secret_key name key) w.2 = Some e /\ se_readAt e = clock w.1 /\
    (se_expiresAt e = clock w.1 + so_ttlMs opts \/ se_expiresAt e = clock w.1 + so_negativeTtlMs opts).

Lemma read_is_cached name key refresh w w' r :
  cached_secret clock opts name key refresh w = None -> get name key refresh w = (r, w') ->
  just_read name key w' \/ exists e, (readNamespacedSecret name w.1).1 = Err e /\ re_notFound e = false.
Proof using.
  intros Hc. unfold secret_get. rewrite Hc. assert (Hk : forall value v, just_read name key (keep_secret clock opts name key value v)).
  { intros value v. unfold just_read, keep_secret. cbn. eexists. split; [apply map_get_set_eq|]. split; [done|]. destruct value; auto. }
  destruct (readNamespacedSecret name w.1) as [[data|e] w1]; [intros [= _ <-]; by left|].
  destruct (re_notFound e) eqn:En; intros [= _ <-]; [by left|]. right. by exists e.
Qed.

(** However often a value is asked for, forced or not, the API is read
    for a key at most once in the shortest of the reader's times: after a read
    that found a value or found that there is none, the answer comes from the
    cache, and is the one that was read. *)
Theorem secret_reads_spaced (name key : string) (refresh : bool) (w : SW (W := W)) (later : W) :
  just_read name key w ->
  clock w.1 <= clock later ->
  clock later < clock w.1 + Z.min (so_minRefreshIntervalMs opts) (Z.min (so_ttlMs opts) (so_negativeTtlMs opts)) ->
  exists e, map_get (secret_key name key) w.2 = Some e /\ get name key refresh (later, w.2) = (Ok (se_value e), (later, w.2)).
Proof using.
  intros (e & Hg & Hr & He) Hle Hlt. exists e. split; [done|]. unfold secret_get, cached_secret. cbn [fst snd]. rewrite Hg.
  rewrite (proj2 (Z.ltb_lt _ _)) by lia. rewrite (proj2 (Z.ltb_lt (clock later - _) _)) by lia. by rewrite orb_true_r.
Qed.
End SecretReads.

(** ** Witnesses *)

Definition sample_delivery : Envelope := mkEnvelope "github" webhook "d-1" "2026-10-13T12:00:00Z" [] (JBool true) [] "".

Lemma prefilter_keeps_matches_witness :
  couldMatchBeforeSender string lookup_run [sample_trigger "low" 1 "body"; sample_trigger "top" 9 "repository"] sample_delivery = true.
Proof.
  eapply (prefilter_keeps_matches lookup_run [sample_trigger "low" 1 "body"; sample_trigger "top" 9 "repository"] sample_delivery
            [("login", JStr "alice")] "o/r" (sample_trigger "low" 1 "body") [("top", "match.cel yielded a non-bool value")]).
  - apply Forall_cons. split; [|apply Forall_cons; split; [|apply Forall_nil; exact I]].
    + intros m sender repository Hm Hr. injection Hm as <-. reflexivity.
    + intros m sender repository Hm Hr. injection Hm as <-. vm_compute in Hr. discriminate.
  - vm_compute. reflexivity.
Defined.

(** An expression that reads [sender], after a string with an escaped quote
    that the scan takes for a raw one. *)
Definition quoted (s : string) : string := String dquote s +:+ String dquote EmptyString.

Definition hidden_sender : string :=
  "body.user+" +:+ quoted ("\" +:+ String dquote EmptyString) +:+ " == " +:+ quoted "x" +:+ " && sender.login == " +:+ quoted "y".

Example scan_misses_sender : readsResolvedFields hidden_sender = false.
Proof. vm_compute. reflexivity. Qed.

Example scan_finds_sender :
  readsResolvedFields "kind == 'webhook' && sender.login == 'y'" = true /\ readsResolvedFields "body.sender.login == 'sender'" = false.
Proof. vm_compute. split; reflexivity. Qed.

Lemma secret_reads_spaced_witness :
  let api := fun _ w => (Ok [("token", "s3")], w + 1) in
  let w1 := (secret_get api (fun s => s) (fun w => w) default_reader "hook" "token" false (1000, [])).2 in
  secret_get api (fun s => s) (fun w => w) default_reader "hook" "token" true (2500, w1.2) = (Ok (Some "s3"), (2500, w1.2)).
Proof.
  destruct (secret_reads_spaced (fun _ w => (Ok [("token", "s3")], w + 1)) (fun s => s) (fun w => w) default_reader "hook" "token" true
    (1001, [(secret_key "hook" "token", mkSecretEntry (Some "s3") 1001 31001)]) 2500) as (e & He & Hget).
  - exists (mkSecretEntry (Some "s3") 1001 31001). split; [reflexivity|]. split; [reflexivity|left; reflexivity].
  - cbn. lia.
  - cbn. lia.
  - vm_compute in He. injection He as <-. exact Hget.
Defined.
