(* ===== verification/GatewayIdentity.v ===== *)
(** * Integration gateway: the identity of a sender

    The resolvers of apps/integration-gateway/src/identity.ts: the static map,
    the membership of GitHub teams, the permission on the repository of the
    event, and their composition, over [fetch], a clock and the caches of the
    world. *)

From stdpp Require Import base gmap strings list.
From Stdlib Require Import ZArith Lia Ascii Bool.
From S2P Require Import Prelude JsString JsNumber Json JsMap JsList Fetch.

#[local] Open Scope Z_scope.

(** ** Data *)

Record SenderIdentity := mkSenderIdentity {
  si_subject : string;
  si_roles : list string
}.

Record RepoContext := mkRepoContext {
  rc_owner : string;
  rc_repo : string
}.

Record IdentityEntry := mkIdentityEntry {
  ie_identity : option SenderIdentity;
  ie_expiresAt : Z
}.

Definition DEFAULT_CACHE_TTL_MS : Z := 5 * 60 * 1000.
Definition DEFAULT_NEGATIVE_CACHE_TTL_MS : Z := 60 * 1000.

(** The options the two resolvers of GitHub share; [go_roles] is keyed by team
    or by permission. *)
Record GithubResolverOptions := mkGithubResolver {
  go_roles : jsmap (list string);
  go_apiUrl : string;
  go_botLogin : string;
  go_cacheTtlMs : option Z;
  go_negativeCacheTtlMs : option Z
}.

(** ** The environment *)

Section Load.
Variable JSON_parse : string -> option json.

Definition json_texts (l : list json) : list string := omap (fun v => match v with JStr s => Some s | _ => None end) l.

Definition parsed_entries (raw : option string) : list (string * json) :=
  match if_set raw with
  | Some raw => match JSON_parse raw with Some (JObj fields) => fields | _ => [] end
  | None => []
  end.

Definition identity_entry (e : string * json) : option (string * SenderIdentity) :=
  match e.2 with
  | JObj fields =>
      match jget "subject" fields, jget "roles" fields with
      | Some (JStr subject), Some (JArr roles) => Some (e.1, mkSenderIdentity subject (json_texts roles))
      | _, _ => None
      end
  | _ => None
  end.

Definition loadGithubIdentitiesFromEnv (raw : option string) : jsmap SenderIdentity := map_of (omap identity_entry (parsed_entries raw)).

(** An entry with a list of roles that names some. *)
Definition roles_entry (wanted : string -> bool) (e : string * json) : option (string * list string) :=
  match e.2 with
  | JArr roles =>
      if wanted e.1 then
        match json_texts roles with
        | [] => None
        | texts => Some (e.1, texts)
        end
      else None
  | _ => None
  end.

Definition loadTeamRolesFromEnv (raw : option string) : jsmap (list string) := map_of (omap (roles_entry (includes_char "/"%char)) (parsed_entries raw)).

Definition loadPermissionRolesFromEnv (raw : option string) : jsmap (list string) :=
  map_of (omap (roles_entry (fun permission => negb (str_empty permission))) (parsed_entries raw)).
End Load.

(** ** The resolvers *)

(** [botLogin && login === botLogin] *)
Definition is_self (botLogin login : string) : bool := negb (str_empty botLogin) && bool_decide (login = botLogin).

Definition GithubIdentityResolver (identities : jsmap SenderIdentity) (botLogin login : string) (isBot : bool) : option SenderIdentity :=
  if isBot || is_self botLogin login then None else map_get login identities.

(** A cache that the world keeps for a resolver. *)
Record CacheLens (W : Type) := mkCacheLens {
  cache_of : W -> jsmap IdentityEntry;
  set_cache : jsmap IdentityEntry -> W -> W
}.
Arguments mkCacheLens {W}.
Arguments cache_of {W} c.
Arguments set_cache {W} c.

Section Resolvers.
Context {W : Type}.
(** [resolveGithubToken] and [fetch]. *)
Variable github_token : SM W string string.
Variable fetch : FetchRequest -> SM W string FetchResponse.
Variable clock : W -> Z.

Definition github_headers (token : string) : list (string * string) :=
  [("authorization", bearer token); ("accept", "application/vnd.github+json"); ("x-github-api-version", "2022-11-28")].

Definition github_get (url token : string) : FetchRequest := mkFetchRequest url "GET" (github_headers token) None.

Definition membership_url (opts : GithubResolverOptions) (org team login : string) : string :=
  go_apiUrl opts +:+ "/orgs/" +:+ org +:+ "/teams/" +:+ team +:+ "/memberships/" +:+ login.

Definition permission_url (opts : GithubResolverOptions) (repo : RepoContext) (login : string) : string :=
  go_apiUrl opts +:+ "/repos/" +:+ rc_owner repo +:+ "/" +:+ rc_repo repo +:+ "/collaborators/" +:+ login +:+ "/permission".

(** A text field of a body; an error where the body is not JSON. *)
Definition body_text (field : string) (res : FetchResponse) : option string :=
  match fp_json res with
  | Ok (JObj fields) => match jget field fields with Some (JStr s) => Some s | _ => None end
  | _ => None
  end.

(** A [catch] that answers [undefined] or [false]. *)
Definition otherwise {A : Type} (a : A) (m : SM W string A) : SM W string A := scatch m (fun _ => sret a).

Definition isActiveMember (opts : GithubResolverOptions) (token org team login : string) : SM W string bool :=
  otherwise false
    (do! res <- fetch (github_get (membership_url opts org team login) token) ;;
     sret (fetch_ok res && bool_decide (body_text "state" res = Some "active"))).

Definition team_of (orgTeam : string) : option (string * string) :=
  match split_char "/"%char orgTeam with
  | org :: team :: _ => if str_empty org || str_empty team then None else Some (org, team)
  | _ => None
  end.

Definition add_team_roles (opts : GithubResolverOptions) (token login : string) (roles : list string) (e : string * list string) :
    SM W string (list string) :=
  match team_of e.1 with
  | None => sret roles
  | Some (org, team) =>
      do! member <- isActiveMember opts token org team login ;;
      sret (if (member : bool) then foldl set_add roles e.2 else roles)
  end.

Definition team_lookup (opts : GithubResolverOptions) (login : string) : SM W string (option SenderIdentity) :=
  do! token <- otherwise None (do! token <- github_token ;; sret (Some token)) ;;
  match token with
  | None => sret None
  | Some token =>
      do! roles <- sfold (add_team_roles opts token login) [] (go_roles opts) ;;
      sret (match roles with [] => None | _ => Some (mkSenderIdentity login roles) end)
  end.

Definition permission_lookup (opts : GithubResolverOptions) (login : string) (repo : RepoContext) : SM W string (option SenderIdentity) :=
  do! token <- otherwise None (do! token <- github_token ;; sret (Some token)) ;;
  match token with
  | None => sret None
  | Some token =>
      otherwise None
        (do! res <- fetch (github_get (permission_url opts repo login) token) ;;
         sret (if fetch_ok res then
                 permission ← if_set (body_text "permission" res);
                 roles ← map_get permission (go_roles opts);
                 match roles with [] => None | _ => Some (mkSenderIdentity login roles) end
               else None))
  end.

Definition entry_ttl (opts : GithubResolverOptions) (identity : option SenderIdentity) : Z :=
  match identity with
  | Some _ => go_cacheTtlMs opts ?? DEFAULT_CACHE_TTL_MS
  | None => go_negativeCacheTtlMs opts ?? DEFAULT_NEGATIVE_CACHE_TTL_MS
  end.

Definition remember (lens : CacheLens W) (opts : GithubResolverOptions) (key : string) (now : Z) (identity : option SenderIdentity) :
    SM W string (option SenderIdentity) := fun w =>
  (Ok identity, set_cache lens (map_set key (mkIdentityEntry identity (now + entry_ttl opts identity)) (cache_of lens w)) w).

(** An entry of the cache that has not expired. *)
Definition fresh_entry (lens : CacheLens W) (key : string) (w : W) : option IdentityEntry :=
  cached ← map_get key (cache_of lens w); if clock w <? ie_expiresAt cached then Some cached else None.

(** What a resolver does around its lookup. *)
Definition cached_resolve (lens : CacheLens W) (opts : GithubResolverOptions) (key : string) (lookup : SM W string (option SenderIdentity)) :
    SM W string (option SenderIdentity) := fun w =>
  match fresh_entry lens key w with
  | Some cached => (Ok (ie_identity cached), w)
  | None => (do! identity <- lookup ;; remember lens opts key (clock w) identity) w
  end.

Definition TeamMembershipResolver (lens : CacheLens W) (opts : GithubResolverOptions) (login : string) (isBot : bool) :
    SM W string (option SenderIdentity) :=
  if isBot || is_self (go_botLogin opts) login then sret None
  else match go_roles opts with
       | [] => sret None
       | _ => cached_resolve lens opts login (team_lookup opts login)
       end.

Definition repo_key (repo : RepoContext) (login : string) : string := rc_owner repo +:+ "/" +:+ rc_repo repo +:+ "#" +:+ login.

Definition CollaboratorPermissionResolver (lens : CacheLens W) (opts : GithubResolverOptions) (login : string) (isBot : bool)
    (repo : option RepoContext) : SM W string (option SenderIdentity) :=
  if isBot || is_self (go_botLogin opts) login then sret None
  else match repo, go_roles opts with
       | Some repo, _ :: _ => cached_resolve lens opts (repo_key repo login) (permission_lookup opts login repo)
       | _, _ => sret None
       end.

(** [CompositeGithubIdentityResolver]: the first primary that grants
    something, or the static map. *)
Fixpoint composite_resolve (primaries : list (SM W string (option SenderIdentity))) (fallback : option SenderIdentity) :
    SM W string (option SenderIdentity) :=
  match primaries with
  | [] => sret fallback
  | primary :: rest =>
      do! identity <- primary ;;
      match identity with
      | Some identity => sret (Some identity)
      | None => composite_resolve rest fallback
      end
  end.

(** The composition of the gateway: teams, permissions, then the static map. *)
Definition resolve_sender (teams permissions : CacheLens W) (team_opts permission_opts : GithubResolverOptions) (identities : jsmap SenderIdentity)
    (botLogin login : string) (isBot : bool) (repo : option RepoContext) : SM W string (option SenderIdentity) :=
  composite_resolve
    [TeamMembershipResolver teams team_opts login isBot; CollaboratorPermissionResolver permissions permission_opts login isBot repo]
    (GithubIdentityResolver identities botLogin login isBot).
End Resolvers.

(** ** Whom a sender is *)

Section Vouched.
Context {W : Type}.
Variable github_token : SM W string string.
Variable fetch : FetchRequest -> SM W string FetchResponse.
Variable clock : W -> Z.
Variables teams permissions : CacheLens W.
Variables team_opts permission_opts : GithubResolverOptions.
Variable identities : jsmap SenderIdentity.
Variable botLogin : string.

(** What GitHub answered about a login. *)
Definition team_says (org team login : string) : Prop :=
  exists token res, gave (fetch (github_get (membership_url team_opts org team login) token)) res /\ fetch_ok res = true /\
    body_text "state" res = Some "active".

Definition permission_says (repo : RepoContext) (login permission : string) : Prop :=
  exists token res, gave (fetch (github_get (permission_url permission_opts repo login) token)) res /\ fetch_ok res = true /\
    body_text "permission" res = Some permission.

Definition team_member (login : string) (id : SenderIdentity) : Prop :=
  si_subject id = login /\
  forall role, role ∈ si_roles id -> exists orgTeam org team roles, (orgTeam, roles) ∈ go_roles team_opts /\ team_of orgTeam = Some (org, team) /\
    role ∈ roles /\ team_says org team login.

Definition collaborator (repo : RepoContext) (login : string) (id : SenderIdentity) : Prop :=
  si_subject id = login /\ exists permission, permission_says repo login permission /\ map_get permission (go_roles permission_opts) = Some (si_roles id).

(** An owner and a repository of GitHub have neither of the separators. *)
Definition repo_plain (repo : RepoContext) : Prop :=
  includes_char "/"%char (rc_owner repo) = false /\ includes_char "#"%char (rc_repo repo) = false.

(** The caches hold only what GitHub once answered. *)
Record caches_true (w : W) : Prop := mkCachesTrue {
  ct_teams : forall login entry id, map_get login (cache_of teams w) = Some entry -> ie_identity entry = Some id -> team_member login id;
  ct_permissions : forall key entry id, map_get key (cache_of permissions w) = Some entry -> ie_identity entry = Some id ->
    exists repo login, repo_plain repo /\ key = repo_key repo login /\ collaborator repo login id
}.

(** The caches are fields of their own. *)
Class CacheLaws : Prop := {
  teams_set m w : cache_of teams (set_cache teams m w) = m;
  teams_apart m w : cache_of permissions (set_cache teams m w) = cache_of permissions w;
  permissions_set m w : cache_of permissions (set_cache permissions m w) = m;
  permissions_apart m w : cache_of teams (set_cache permissions m w) = cache_of teams w;
  token_quiet w : cache_of teams (github_token w).2 = cache_of teams w /\ cache_of permissions (github_token w).2 = cache_of permissions w;
  fetch_quiet req w : cache_of teams (fetch req w).2 = cache_of teams w /\ cache_of permissions (fetch req w).2 = cache_of permissions w
}.
Context `{!CacheLaws}.

Lemma caches_ext w w' :
  cache_of teams w' = cache_of teams w /\ cache_of permissions w' = cache_of permissions w -> caches_true w -> caches_true w'.
Proof using. intros [H1 H2] [Ht Hp]. split; rewrite ?H1, ?H2; done. Qed.

Lemma keeps_fetch req : keeps caches_true (fetch req).
Proof using Type*. intros w. apply caches_ext, fetch_quiet. Qed.

Lemma keeps_token : keeps caches_true github_token.
Proof using Type*. intros w. apply caches_ext, token_quiet. Qed.

Lemma ensures_otherwise {A : Type} (P : A -> Prop) a (m : SM W string A) : P a -> ensures caches_true P m -> ensures caches_true P (otherwise a m).
Proof using. intros Ha Hm. apply ensures_scatch; [done|]. intros _. by apply ensures_sret. Qed.

Lemma member_ok token org team login : ensures caches_true (fun b => b = true -> team_says org team login) (isActiveMember fetch team_opts token org team login).
Proof using Type*.
  apply ensures_otherwise; [done|]. eapply ensures_sbind; [apply ensures_gave, keeps_fetch|]. intros res Hres. apply ensures_sret.
  intros [Hok Hs%bool_decide_eq_true]%andb_true_iff. by exists token, res.
Qed.

Definition roles_true (login : string) (roles : list string) : Prop := team_member login (mkSenderIdentity login roles).

Lemma team_roles_ok token login l roles :
  (forall e, e ∈ l -> e ∈ go_roles team_opts) -> roles_true login roles ->
  ensures caches_true (roles_true login) (sfold (add_team_roles fetch team_opts token login) roles l).
Proof using Type*.
  revert roles. induction l as [|e l IH]; intros roles Hl Hr; [by apply ensures_sret|]. cbn [sfold].
  eapply (ensures_sbind _ (roles_true login)); [|intros roles' Hr'; apply IH; [intros; apply Hl; by right|done]].
  unfold add_team_roles. destruct (team_of e.1) as [[org team]|] eqn:Et; [|by apply ensures_sret].
  eapply ensures_sbind; [apply member_ok|]. intros member Hm. apply ensures_sret. destruct member; [|done].
  split; [done|]. intros role [Hin|Hin]%foldl_set_add_elem; [by apply Hr|].
  exists e.1, org, team, e.2. split; [|by split_and!; auto]. rewrite <- surjective_pairing. apply Hl. by left.
Qed.

Lemma team_lookup_ok login :
  ensures caches_true (fun r => forall id, r = Some id -> team_member login id) (team_lookup github_token fetch team_opts login).
Proof using Type*.
  unfold team_lookup. apply ensures_after.
  { apply ensures_keeps, ensures_otherwise; [done|]. apply ensures_keeps, keeps_sbind; [apply keeps_token|intros; apply keeps_sret]. }
  intros [token|]; [|by apply ensures_sret]. eapply ensures_sbind; [apply (team_roles_ok token login _ []); [done|]|].
  { split; [done|]. intros ? []%elem_of_nil. }
  intros roles Hr. apply ensures_sret. intros id Hid. destruct roles; [done|]. injection Hid as <-. exact Hr.
Qed.

Lemma permission_lookup_ok login repo :
  ensures caches_true (fun r => forall id, r = Some id -> collaborator repo login id) (permission_lookup github_token fetch permission_opts login repo).
Proof using Type*.
  unfold permission_lookup. apply ensures_after.
  { apply ensures_keeps, ensures_otherwise; [done|]. apply ensures_keeps, keeps_sbind; [apply keeps_token|intros; apply keeps_sret]. }
  intros [token|]; [|by apply ensures_sret]. apply ensures_otherwise; [done|].
  eapply ensures_sbind; [apply ensures_gave, keeps_fetch|]. intros res Hres. apply ensures_sret. intros id Hid.
  destruct (fetch_ok res) eqn:Eok; [|done]. apply bind_Some in Hid as [permission [Hp Hid]]. apply bind_Some in Hid as [roles [Hr Hid]].
  assert (Hb : body_text "permission" res = Some permission).
  { unfold if_set in Hp. by destruct (truthy_str (body_text "permission" res)). }
  destruct roles as [|role roles]; [done|]. injection Hid as <-. split; [done|]. exists permission. split; [by exists token, res|done].
Qed.

Lemma cached_ok lens opts key lookup (P : SenderIdentity -> Prop) :
  ensures caches_true (fun r => forall id, r = Some id -> P id) lookup ->
  (forall w entry id, caches_true w -> map_get key (cache_of lens w) = Some entry -> ie_identity entry = Some id -> P id) ->
  (forall w entry, caches_true w -> (forall id, ie_identity entry = Some id -> P id) -> caches_true (set_cache lens (map_set key entry (cache_of lens w)) w)) ->
  ensures caches_true (fun r => forall id, r = Some id -> P id) (cached_resolve clock lens opts key lookup).
Proof using.
  intros Hl Hhit Hset w Hw. unfold cached_resolve. destruct (fresh_entry clock lens key w) as [cached|] eqn:Ef.
  - split; [done|]. intros a [= <-] id Hid. unfold fresh_entry in Ef. apply bind_Some in Ef as [entry [Hg Hf]].
    destruct (clock w <? ie_expiresAt entry); [|done]. injection Hf as ->. by eapply Hhit.
  - refine (ensures_sbind _ _ _ _ _ Hl _ w Hw). intros r Hr w' Hw'. cbn. split; [apply Hset; [done|exact Hr]|]. by intros a [= <-].
Qed.

Lemma resolve_team_ok login isBot :
  ensures caches_true (fun r => forall id, r = Some id -> isBot = false /\ is_self (go_botLogin team_opts) login = false /\ team_member login id)
    (TeamMembershipResolver github_token fetch clock teams team_opts login isBot).
Proof using Type*.
  unfold TeamMembershipResolver. destruct isBot; [by apply ensures_sret|]. destruct (is_self _ login); [by apply ensures_sret|]. cbn [orb].
  destruct (go_roles team_opts); [by apply ensures_sret|]. eapply ensures_weaken; [|intros r Hr id Hid; split_and!; [done|done|exact (Hr id Hid)]].
  apply cached_ok; [apply team_lookup_ok| |].
  - intros w entry id [Ht _]. apply Ht.
  - intros w entry [Ht Hp] He. split.
    + intros l e id. rewrite teams_set. destruct (decide (l = login)) as [->|Hne].
      * rewrite map_get_set_eq. intros [= <-]. apply He.
      * rewrite map_get_set_ne by done. apply Ht.
    + rewrite teams_apart. apply Hp.
Qed.

Lemma repo_key_inj r1 l1 r2 l2 : repo_plain r1 -> repo_plain r2 -> repo_key r1 l1 = repo_key r2 l2 -> r1 = r2 /\ l1 = l2.
Proof using.
  intros [Ho1 Hr1] [Ho2 Hr2] He. unfold repo_key in He. destruct r1 as [o1 n1], r2 as [o2 n2]. cbn in *.
  apply (sep_inj "/"%char) in He as [-> He]; [|done..]. by apply (sep_inj "#"%char) in He as [-> ->].
Qed.

Lemma resolve_permission_ok login isBot repo :
  (forall r, repo = Some r -> repo_plain r) ->
  ensures caches_true (fun r => forall id, r = Some id -> isBot = false /\ is_self (go_botLogin permission_opts) login = false /\
      exists r, repo = Some r /\ collaborator r login id)
    (CollaboratorPermissionResolver github_token fetch clock permissions permission_opts login isBot repo).
Proof using Type*.
  intros Hplain. unfold CollaboratorPermissionResolver. destruct isBot; [by apply ensures_sret|]. destruct (is_self _ login); [by apply ensures_sret|]. cbn [orb].
  destruct repo as [r|]; [|by apply ensures_sret]. specialize (Hplain r eq_refl). destruct (go_roles permission_opts) as [|e0 l0]; [by apply ensures_sret|].
  eapply ensures_weaken; [|intros a Ha id Hid; split_and!; [done|done|exists r; split; [done|exact (Ha id Hid)]]].
  apply cached_ok; [apply permission_lookup_ok| |].
  - intros w entry id [_ Hp] Hg Hid. destruct (Hp _ _ _ Hg Hid) as (r' & l' & Hpl & Hk & Hc). by destruct (repo_key_inj _ _ _ _ Hplain Hpl Hk) as [-> ->].
  - intros w entry [Ht Hp] He. split.
    + rewrite permissions_apart. apply Ht.
    + intros key e id. rewrite permissions_set. destruct (decide (key = repo_key r login)) as [->|Hne].
      * rewrite map_get_set_eq. intros [= <-] Hid. exists r, login. split_and!; [done|done|by apply He].
      * rewrite map_get_set_ne by done. apply Hp.
Qed.

(** C8: A sender that is resolved is not a bot, and what it may do was granted:
    its roles are those of teams of which GitHub said that it is an active member,
    or those of the permission that GitHub said it has on the event's own
    repository, or it is in the static map. The caches keep to that too. *)
Theorem sender_vouched (login : string) (isBot : bool) (repo : option RepoContext) :
  (forall r, repo = Some r -> repo_plain r) ->
  ensures caches_true
    (fun r => forall id, r = Some id -> isBot = false /\
       (team_member login id \/ (exists r, repo = Some r /\ collaborator r login id) \/
        (map_get login identities = Some id /\ is_self botLogin login = false)))
    (resolve_sender github_token fetch clock teams permissions team_opts permission_opts identities botLogin login isBot repo).
Proof using Type*.
  intros Hplain. unfold resolve_sender. cbn [composite_resolve].
  eapply ensures_sbind; [apply resolve_team_ok|]. intros [id|] H1.
  { apply ensures_sret. intros id' [= <-]. destruct (H1 id eq_refl) as (Hb & _ & Ht). split; [done|by left]. }
  eapply ensures_sbind; [by apply resolve_permission_ok|]. intros [id|] H2.
  { apply ensures_sret. intros id' [= <-]. destruct (H2 id eq_refl) as (Hb & _ & Ht). split; [done|right; by left]. }
  apply ensures_sret. intros id Hid. unfold GithubIdentityResolver in Hid. destruct isBot; [done|]. cbn [orb] in Hid.
  destruct (is_self botLogin login) eqn:Eself; [done|]. split; [done|]. right. right. done.
Qed.
End Vouched.

(** ** Witness *)

Definition TwoCaches : Type := jsmap IdentityEntry * jsmap IdentityEntry.

Definition first_cache : CacheLens TwoCaches := mkCacheLens fst (fun m w => (m, w.2)).
Definition second_cache : CacheLens TwoCaches := mkCacheLens snd (fun m w => (w.1, m)).

Definition no_teams : GithubResolverOptions := mkGithubResolver [] "https://api" "gateway[bot]" None None.
Definition writers : GithubResolverOptions := mkGithubResolver [("write", ["developer"])] "https://api" "gateway[bot]" None None.

(** GitHub, where alice may write to o/r. *)
Definition sample_github (req : FetchRequest) : SM TwoCaches string FetchResponse := fun w =>
  if bool_decide (fq_url req = "https://api/repos/o/r/collaborators/alice/permission")
  then (Ok (mkFetchResponse 200 (Ok (JObj [("permission", JStr "write")])) (Ok "")), w)
  else (Ok (mkFetchResponse 404 (Err "not JSON") (Ok "")), w).

#[global] Instance sample_caches : CacheLaws (sret "token") sample_github first_cache second_cache.
Proof. split; try done. intros req w. unfold sample_github. by case_bool_decide. Qed.

Definition resolve_alice : SM TwoCaches string (option SenderIdentity) :=
  resolve_sender (sret "token") sample_github (fun _ => 0) first_cache second_cache no_teams writers [] "gateway[bot]" "alice" false
    (Some (mkRepoContext "o" "r")).

Lemma sender_vouched_witness :
  (resolve_alice ([], [])).1 = Ok (Some (mkSenderIdentity "alice" ["developer"])) /\
  collaborator sample_github writers (mkRepoContext "o" "r") "alice" (mkSenderIdentity "alice" ["developer"]).
Proof.
  split; [vm_compute; reflexivity|].
  destruct (sender_vouched (sret "token") sample_github (fun _ => 0) first_cache second_cache no_teams writers [] "gateway[bot]" "alice" false
    (Some (mkRepoContext "o" "r"))) with (w := (@nil (string * IdentityEntry), @nil (string * IdentityEntry))) as [_ H].
  - intros r [= <-]. split; reflexivity.
  - split; intros; discriminate.
  - destruct (H (Some (mkSenderIdentity "alice" ["developer"])) ltac:(vm_compute; reflexivity) _ eq_refl) as [_ [Ht|[Hp|[Hm _]]]].
    + destruct Ht as [_ Ht]. destruct (Ht "developer" ltac:(left)) as (? & ? & ? & ? & Hin & _). apply elem_of_nil in Hin as [].
    + destruct Hp as (r & Hr & Hc). injection Hr as <-. exact Hc.
    + discriminate.
Defined.
