(* ===== verification/SessionPage.v ===== *)
(** * Integration gateway: the pages of sessions

    The turns that a session's page shows, the store in memory and the one in
    Redis (apps/integration-gateway/src/session-page-store.ts), and the page
    itself (session-page.ts).

    A token and a time are drawn by arguments of the stores, and the renderer
    of Markdown is a parameter. *)

From stdpp Require Import base gmap strings list.
From Stdlib Require Import ZArith Lia Ascii Bool.
From S2P Require Import Prelude JsString JsNumber Json JsMap JsList EventValues LinkApi.

#[local] Open Scope Z_scope.

(** ** Entries *)

Inductive TurnState := turn_pending | turn_done | turn_broken.

#[export] Instance TurnState_eq_dec : EqDecision TurnState.
Proof. solve_decision. Defined.

Definition state_name (s : TurnState) : string :=
  match s with turn_pending => "pending" | turn_done => "succeeded" | turn_broken => "failed" end.

Record SessionTurn := mkTurn {
  tn_request : string;
  tn_status : TurnState;
  tn_result : option string;
  tn_error : option string;
  tn_startedAt : string;
  tn_completedAt : option string
}.

Record SessionLive := mkLive {
  lv_agentRunId : string;
  lv_opencodeSessionId : option string
}.

Record SessionPageEntry := mkPage {
  sp_token : string;
  sp_sessionId : string;
  sp_owner : string;
  sp_repo : string;
  sp_issueNumber : Z;
  sp_turns : list SessionTurn;
  sp_live : option SessionLive
}.

(** [SessionPageStore]; an outcome is a result or the text of an error. *)
Record SessionPageStore (W : Type) := mkPageStore {
  pg_getOrCreate : string -> string -> string -> Z -> SM W string SessionPageEntry;
  pg_getByToken : string -> SM W string (option SessionPageEntry);
  pg_addTurn : string -> string -> SM W string (option nat);
  pg_completeTurn : string -> nat -> result string string -> SM W string unit;
  pg_setLive : string -> option SessionLive -> SM W string unit
}.
Arguments mkPageStore {W}.
Arguments pg_getOrCreate {W} s.
Arguments pg_getByToken {W} s.
Arguments pg_addTurn {W} s.
Arguments pg_completeTurn {W} s.
Arguments pg_setLive {W} s.

Definition new_page (token sessionId owner repo : string) (n : Z) : SessionPageEntry := mkPage token sessionId owner repo n [] None.

Definition with_turns (turns : list SessionTurn) (e : SessionPageEntry) : SessionPageEntry :=
  mkPage (sp_token e) (sp_sessionId e) (sp_owner e) (sp_repo e) (sp_issueNumber e) turns (sp_live e).

Definition with_live (live : option SessionLive) (e : SessionPageEntry) : SessionPageEntry :=
  mkPage (sp_token e) (sp_sessionId e) (sp_owner e) (sp_repo e) (sp_issueNumber e) (sp_turns e) live.

Definition push_turn (request now : string) (e : SessionPageEntry) : SessionPageEntry :=
  with_turns (sp_turns e ++ [mkTurn request turn_pending None None now None]) e.

(** [Object.assign(turn, outcome, ...)] *)
Definition finish_turn (outcome : result string string) (now : string) (t : SessionTurn) : SessionTurn :=
  match outcome with
  | Ok r => mkTurn (tn_request t) turn_done (Some r) (tn_error t) (tn_startedAt t) (Some now)
  | Err e => mkTurn (tn_request t) turn_broken (tn_result t) (Some e) (tn_startedAt t) (Some now)
  end.

Definition finish_at (i : nat) (outcome : result string string) (now : string) (e : SessionPageEntry) : option SessionPageEntry :=
  (fun t => with_turns (<[i := finish_turn outcome now t]> (sp_turns e)) e) <$> sp_turns e !! i.

(** ** The store in memory *)

(** The second map holds the same objects as the first: it is a map to the
    session that an object is of. *)
Record MemPages := mkMemPages {
  mp_bySessionId : jsmap SessionPageEntry;
  mp_byToken : jsmap string
}.

Section Memory.
Context {W : Type}.
Variable pages : W -> MemPages.
Variable set_pages : MemPages -> W -> W.
Variable generateToken : SM W string string.
Variable now : W -> string.

(** A change of the object of a session, if there is one. *)
Definition mem_update (sessionId : string) (f : W -> SessionPageEntry -> option SessionPageEntry) (w : W) : W :=
  match map_get sessionId (mp_bySessionId (pages w)) with
  | None => w
  | Some e =>
      match f w e with
      | None => w
      | Some e' => set_pages (mkMemPages (map_set sessionId e' (mp_bySessionId (pages w))) (mp_byToken (pages w))) w
      end
  end.

Definition mem_getOrCreate (sessionId owner repo : string) (n : Z) : SM W string SessionPageEntry := fun w =>
  match map_get sessionId (mp_bySessionId (pages w)) with
  | Some e => (Ok e, w)
  | None =>
      (do! token <- generateToken ;;
       fun w1 =>
         let e := new_page token sessionId owner repo n in
         (Ok e, set_pages (mkMemPages (map_set sessionId e (mp_bySessionId (pages w1))) (map_set token sessionId (mp_byToken (pages w1)))) w1)) w
  end.

Definition mem_getByToken (token : string) : SM W string (option SessionPageEntry) := fun w =>
  (Ok (sessionId ← map_get token (mp_byToken (pages w)); map_get sessionId (mp_bySessionId (pages w))), w).

Definition mem_addTurn (sessionId request : string) : SM W string (option nat) := fun w =>
  (Ok ((fun e => length (sp_turns e)) <$> map_get sessionId (mp_bySessionId (pages w))),
   mem_update sessionId (fun w e => Some (push_turn request (now w) e)) w).

Definition mem_completeTurn (sessionId : string) (i : nat) (outcome : result string string) : SM W string unit := fun w =>
  (Ok tt, mem_update sessionId (fun w e => finish_at i outcome (now w) e) w).

Definition mem_setLive (sessionId : string) (live : option SessionLive) : SM W string unit := fun w =>
  (Ok tt, mem_update sessionId (fun _ e => Some (with_live live e)) w).

Definition InMemorySessionPageStore : SessionPageStore W :=
  mkPageStore mem_getOrCreate mem_getByToken mem_addTurn mem_completeTurn mem_setLive.
End Memory.

(** ** The store in Redis *)

Definition TTL_SECONDS : Z := 30 * 24 * 60 * 60.

Section Redis.
Context {W : Type}.
(** The commands GET and SET with an expiry, and [JSON.stringify] and
    [JSON.parse] of an entry. *)
Variable redis_get : string -> SM W string (option string).
Variable redis_set : string -> string -> Z -> SM W string unit.
Variable stringify_page : SessionPageEntry -> string.
Variable parse_page : string -> option SessionPageEntry.
Variable prefix : string.
Variable generateToken : SM W string string.
Variable now : W -> string.

Definition sessionKey (sessionId : string) : string := prefix +:+ "session:" +:+ sessionId.
Definition tokenKey (token : string) : string := prefix +:+ "token:" +:+ token.

Definition readSession (sessionId : string) : SM W string (option SessionPageEntry) :=
  scatch (do! raw <- redis_get (sessionKey sessionId) ;;
          match if_set raw with
          | None => sret None
          | Some raw => match parse_page raw with Some e => sret (Some e) | None => sthrow "Unexpected token in JSON" end
          end)
         (fun _ => sret None).

Definition write_page (e : SessionPageEntry) : SM W string unit :=
  scatch (do! _ <- redis_set (sessionKey (sp_sessionId e)) (stringify_page e) TTL_SECONDS ;;
          redis_set (tokenKey (sp_token e)) (sp_sessionId e) TTL_SECONDS)
         (fun _ => sret tt).

Definition redis_getOrCreate (sessionId owner repo : string) (n : Z) : SM W string SessionPageEntry :=
  do! existing <- readSession sessionId ;;
  match existing with
  | Some e => sret e
  | None =>
      do! token <- generateToken ;;
      let e := new_page token sessionId owner repo n in
      do! _ <- write_page e ;; sret e
  end.

Definition redis_getByToken (token : string) : SM W string (option SessionPageEntry) :=
  scatch (do! sessionId <- redis_get (tokenKey token) ;;
          match if_set sessionId with
          | None => sret None
          | Some sessionId => readSession sessionId
          end)
         (fun _ => sret None).

Definition redis_addTurn (sessionId request : string) : SM W string (option nat) :=
  do! e <- readSession sessionId ;;
  match e with
  | None => sret None
  | Some e => fun w => (do! _ <- write_page (push_turn request (now w) e) ;; sret (Some (length (sp_turns e)))) w
  end.

Definition redis_completeTurn (sessionId : string) (i : nat) (outcome : result string string) : SM W string unit :=
  do! e <- readSession sessionId ;;
  match e with
  | None => sret tt
  | Some e => fun w => match finish_at i outcome (now w) e with Some e' => write_page e' w | None => (Ok tt, w) end
  end.

Definition redis_setLive (sessionId : string) (live : option SessionLive) : SM W string unit :=
  do! e <- readSession sessionId ;;
  match e with
  | None => sret tt
  | Some e => write_page (with_live live e)
  end.

Definition RedisSessionPageStore : SessionPageStore W :=
  mkPageStore redis_getOrCreate redis_getByToken redis_addTurn redis_completeTurn redis_setLive.
End Redis.

(** ** The page *)

Definition page_char (c : ascii) : string :=
  if Ascii.eqb c "'"%char then "&#39;" else html_char c.

(** The replacements one after the other: the first makes no other character
    that is replaced. *)
Definition escape_page (raw : string) : string := str_concat (page_char <$> String.list_ascii_of_string raw).

(** A text of the template, with back quotes for its double quotes. *)
Definition tpl (s : string) : string := str_map (fun c => if Ascii.eqb c "`"%char then dquote else c) s.

Section Page.
(** [marked.parse], and the sign of an ellipsis. *)
Variable marked : string -> string.
Variable ellipsis : string.

Definition renderMarkdown (raw : string) : string := marked (escape_page raw).

Definition turnHtml (turn : SessionTurn) (index : nat) : string :=
  let pending := bool_decide (tn_status turn = turn_pending) in
  let statusLabel := if pending then "working" +:+ ellipsis else state_name (tn_status turn) in
  let body := if pending then EmptyString else renderMarkdown (tn_result turn ?? (tn_error turn ?? EmptyString)) in
  join nl_s
    [tpl "<article class=`turn`>"; tpl "  <p class=`turn-index`>#" +:+ Z_to_string (Z.of_nat index + 1) +:+ "</p>";
     tpl "  <div class=`request`>" +:+ renderMarkdown (tn_request turn) +:+ "</div>";
     tpl "  <p class=`status status-" +:+ state_name (tn_status turn) +:+ tpl "`>" +:+ statusLabel +:+ "</p>";
     "  " +:+ (if str_empty body then EmptyString else tpl "<div class=`response`>" +:+ body +:+ "</div>"); "</article>"].

Definition page_style : list string :=
  ["<style>";
   "  body { font-family: system-ui, sans-serif; max-width: 48rem; margin: 2rem auto; padding: 0 1rem; color: #1a1a1a; }";
   "  .turn { border: 1px solid #ddd; border-radius: 8px; padding: 0.75rem 1rem; margin-bottom: 1rem; }";
   "  .status { text-transform: uppercase; font-size: 0.75rem; letter-spacing: 0.04em; color: #666; }";
   "  .status-failed { color: #b00020; }";
   "  .turn-index { font-weight: 600; margin: 0 0 0.25rem; }";
   "  .request, .response { word-break: break-word; }";
   "  .response { background: #f6f6f6; padding: 0.75rem; border-radius: 6px; }";
   "  .request > :first-child, .response > :first-child { margin-top: 0; }";
   "  .request > :last-child, .response > :last-child { margin-bottom: 0; }";
   "  .request pre, .response pre { white-space: pre-wrap; }";
   "  .live-badge { display: inline-block; background: #0a7a2f; color: #fff; font-size: 0.75rem; font-weight: 600; padding: 0.15rem 0.5rem; border-radius: 999px; vertical-align: middle; }";
   "  #live-log { white-space: pre-wrap; word-break: break-word; background: #0d1117; color: #c9d1d9; padding: 0.75rem; border-radius: 6px; max-height: 24rem; overflow-y: auto; font-family: ui-monospace, monospace; font-size: 0.85rem; }";
   "  textarea { width: 100%; box-sizing: border-box; font: inherit; padding: 0.5rem; }";
   "  button { margin-top: 0.5rem; padding: 0.5rem 1.25rem; }";
   "</style>"].

Definition live_section (token : string) : string :=
  join nl_s
    ["<h2>Live session</h2>"; tpl "<pre id=`live-log`></pre>"; "<script>"; "  (function () {";
     tpl "    var log = document.getElementById(`live-log`);";
     "    var source = new EventSource(" +:+ json_quote ("/sessions/" +:+ token +:+ "/live-events") +:+ ");";
     "    source.onmessage = function (e) {"; tpl "      log.textContent += e.data + `\n`;"; "      log.scrollTop = log.scrollHeight;"; "    };";
     tpl "    source.addEventListener(`session_ended`, function (e) {";
     tpl "      log.textContent += `-- session ended: ` + e.data + ` --\n`;"; "      source.close();"; "    });"; "  })();"; "</script>"].

Definition renderSessionPage (e : SessionPageEntry) (live : bool) : string :=
  let pending := existsb (fun t => bool_decide (tn_status t = turn_pending)) (sp_turns e) in
  let issueUrl := "https://github.com/" +:+ sp_owner e +:+ "/" +:+ sp_repo e +:+ "/issues/" +:+ Z_to_string (sp_issueNumber e) in
  let promptAction := "/sessions/" +:+ sp_token e +:+ (if live then "/live-prompt" else "/prompts") in
  let name := escape_page (sp_owner e) +:+ "/" +:+ escape_page (sp_repo e) +:+ " #" +:+ Z_to_string (sp_issueNumber e) in
  let turns := join nl_s (imap (fun i t => turnHtml t i) (sp_turns e)) in
  join nl_s
    (["<!doctype html>"; tpl "<html lang=`en`>"; "<head>"; tpl "<meta charset=`utf-8`>";
      tpl "<meta name=`viewport` content=`width=device-width, initial-scale=1`>";
      if pending && negb live then tpl "<meta http-equiv=`refresh` content=`5`>" else EmptyString;
      "<title>" +:+ name +:+ " -- agent session</title>"] ++ page_style ++
     ["</head>"; "<body>"; "<h1>" +:+ name +:+ " " +:+ (if live then tpl "<span class=`live-badge`>LIVE</span>" else EmptyString) +:+ "</h1>";
      tpl "<p><a href=`" +:+ issueUrl +:+ tpl "`>View issue on GitHub</a></p>";
      if str_empty turns then "<p>No turns yet.</p>" else turns;
      if live then live_section (sp_token e) else EmptyString;
      tpl "<form method=`post` action=`" +:+ promptAction +:+ tpl "`>";
      tpl "  <label for=`prompt`>Send another prompt into this session</label>";
      tpl "  <textarea id=`prompt` name=`prompt` rows=`4` required></textarea>";
      tpl "  <button type=`submit`>Send</button>"; "</form>"; "</body>"; "</html>"]).
End Page.

(** ** The two stores agree *)

(** An operation on a store, with the token and the time that it draws. *)
Inductive PageOp :=
| po_create (token sessionId owner repo : string) (n : Z)
| po_read (token : string)
| po_turn (now sessionId request : string)
| po_end (now sessionId : string) (i : nat) (outcome : result string string)
| po_live (sessionId : string) (live : option SessionLive).

Inductive PageAnswer :=
| pa_page (e : SessionPageEntry)
| pa_found (e : option SessionPageEntry)
| pa_turn (i : option nat)
| pa_done.

Section Ops.
Context {W : Type}.
Variable store : SM W string string -> (W -> string) -> SessionPageStore W.

Definition page_op (op : PageOp) : SM W string PageAnswer :=
  let at_time (now : string) := store (sret EmptyString) (fun _ => now) in
  match op with
  | po_create token sessionId owner repo n =>
      do! e <- pg_getOrCreate (store (sret token) (fun _ => EmptyString)) sessionId owner repo n ;; sret (pa_page e)
  | po_read token => do! e <- pg_getByToken (at_time EmptyString) token ;; sret (pa_found e)
  | po_turn now sessionId request => do! i <- pg_addTurn (at_time now) sessionId request ;; sret (pa_turn i)
  | po_end now sessionId i outcome => do! _ <- pg_completeTurn (at_time now) sessionId i outcome ;; sret pa_done
  | po_live sessionId live => do! _ <- pg_setLive (at_time EmptyString) sessionId live ;; sret pa_done
  end.

Fixpoint page_ops (ops : list PageOp) : SM W string (list PageAnswer) :=
  match ops with
  | [] => sret []
  | op :: ops => do! a <- page_op op ;; do! l <- page_ops ops ;; sret (a :: l)
  end.
End Ops.

Definition no_pages : MemPages := mkMemPages [] [].
Definition memory_pages : SM MemPages string string -> (MemPages -> string) -> SessionPageStore MemPages :=
  InMemorySessionPageStore (fun m => m) (fun m _ => m).

(** The tokens that the operations draw, and the sessions that they name. *)
Definition drawn (ops : list PageOp) : list string := omap (fun op => match op with po_create token _ _ _ _ => Some token | _ => None end) ops.
Definition session_of (op : PageOp) : option string :=
  match op with po_create _ sessionId _ _ _ => Some sessionId | _ => None end.

(** Redis as it is documented, while no key expires; and a page that was
    written is read back. *)
Class RedisPages {W : Type} (redis_get : string -> SM W string (option string)) (redis_set : string -> string -> Z -> SM W string unit)
    (stringify_page : SessionPageEntry -> string) (parse_page : string -> option SessionPageEntry) (kv : W -> string -> option string) : Prop := {
  rp_get : forall k w, exists w', redis_get k w = (Ok (kv w k), w') /\ forall k', kv w' k' = kv w k';
  rp_set : forall k v ttl w, exists w', redis_set k v ttl w = (Ok tt, w') /\ kv w' k = Some v /\ forall k', k' <> k -> kv w' k' = kv w k';
  rp_parse : forall e, stringify_page e <> EmptyString /\ parse_page (stringify_page e) = Some e
}.

Section Agree.
Context {W : Type}.
Context (redis_get : string -> SM W string (option string)) (redis_set : string -> string -> Z -> SM W string unit).
Context (stringify_page : SessionPageEntry -> string) (parse_page : string -> option SessionPageEntry) (kv : W -> string -> option string) (prefix : string).
Context {laws : RedisPages redis_get redis_set stringify_page parse_page kv}.

#[local] Abbreviation redis_pages := (RedisSessionPageStore redis_get redis_set stringify_page parse_page prefix).

(** The keys of Redis hold what the maps hold; a page's token leads to it, and
    was drawn. *)
Record same_pages (used : list string) (m : MemPages) (w : W) : Prop := mkSame {
  same_session : forall sid, kv w (sessionKey prefix sid) = (fun e => stringify_page e) <$> map_get sid (mp_bySessionId m);
  same_token : forall token, kv w (tokenKey prefix token) = map_get token (mp_byToken m);
  same_entry : forall sid e, map_get sid (mp_bySessionId m) = Some e -> sid <> EmptyString /\ sp_sessionId e = sid /\ map_get (sp_token e) (mp_byToken m) = Some sid;
  same_index : forall token sid, map_get token (mp_byToken m) = Some sid -> token ∈ used /\ sid <> EmptyString
}.

Lemma sessionKey_inj a b : sessionKey prefix a = sessionKey prefix b -> a = b.
Proof using. unfold sessionKey. intros H%(inj (String.app prefix)). cbn in H. by injection H. Qed.

Lemma tokenKey_inj a b : tokenKey prefix a = tokenKey prefix b -> a = b.
Proof using. unfold tokenKey. intros H%(inj (String.app prefix)). cbn in H. by injection H. Qed.

Lemma keys_apart a b : sessionKey prefix a <> tokenKey prefix b.
Proof using. unfold sessionKey, tokenKey. intros H%(inj (String.app prefix)). discriminate. Qed.

Lemma same_ext used m w w' : (forall k, kv w' k = kv w k) -> same_pages used m w -> same_pages used m w'.
Proof using. intros Hk [H1 H2 H3 H4]. split; [intros; rewrite Hk; apply H1|intros; rewrite Hk; apply H2|done|done]. Qed.

Lemma page_text_set e : if_set (Some (stringify_page e)) = Some (stringify_page e).
Proof using laws. destruct (rp_parse e) as [H1 _]. by destruct (stringify_page e). Qed.

Lemma readSession_same used m w sid : same_pages used m w ->
  exists w', readSession redis_get parse_page prefix sid w = (Ok (map_get sid (mp_bySessionId m)), w') /\ same_pages used m w'.
Proof using laws.
  intros Hs. destruct (rp_get (sessionKey prefix sid) w) as (w' & Hg & Hk). exists w'. split; [|by eapply same_ext].
  unfold readSession, scatch, sbind. rewrite Hg, (same_session _ _ _ Hs).
  destruct (map_get sid (mp_bySessionId m)) as [e|]; [|done]. cbn [fmap option_fmap option_map]. rewrite page_text_set. by rewrite (proj2 (rp_parse e)).
Qed.

(** The keys after a page is written. *)
Lemma write_page_kv e w : exists w', write_page redis_set stringify_page prefix e w = (Ok tt, w') /\
  (forall sid, kv w' (sessionKey prefix sid) = if decide (sid = sp_sessionId e) then Some (stringify_page e) else kv w (sessionKey prefix sid)) /\
  (forall token, kv w' (tokenKey prefix token) = if decide (token = sp_token e) then Some (sp_sessionId e) else kv w (tokenKey prefix token)).
Proof using laws.
  destruct (rp_set (sessionKey prefix (sp_sessionId e)) (stringify_page e) TTL_SECONDS w) as (w1 & H1 & Hv1 & Hk1).
  destruct (rp_set (tokenKey prefix (sp_token e)) (sp_sessionId e) TTL_SECONDS w1) as (w2 & H2 & Hv2 & Hk2).
  exists w2. split; [unfold write_page, scatch, sbind; by rewrite H1, H2|]. split.
  - intros sid. rewrite Hk2 by apply keys_apart. case_decide; subst; [done|]. apply Hk1. intros ?%sessionKey_inj. done.
  - intros token. case_decide; subst; [done|]. rewrite Hk2 by (by intros ?%tokenKey_inj). apply Hk1. intros Hkey. by apply (keys_apart (sp_sessionId e) token).
Qed.

(** A page that is written on both sides. *)
Lemma same_write used used' m w e :
  same_pages used m w -> sp_sessionId e <> EmptyString -> (forall t, t ∈ used -> t ∈ used') -> sp_token e ∈ used' ->
  (forall sid e', map_get sid (mp_bySessionId m) = Some e' -> sp_token e' = sp_token e -> sid = sp_sessionId e) ->
  exists w', write_page redis_set stringify_page prefix e w = (Ok tt, w') /\
    same_pages used' (mkMemPages (map_set (sp_sessionId e) e (mp_bySessionId m)) (map_set (sp_token e) (sp_sessionId e) (mp_byToken m))) w'.
Proof using laws.
  intros [H1 H2 H3 H4] Hne Hsub Hin Hown. destruct (write_page_kv e w) as (w' & Hw & Hs & Ht). exists w'. split; [done|]. split; cbn.
  - intros sid. rewrite Hs. destruct (decide (sid = sp_sessionId e)) as [->|Hn]; [by rewrite map_get_set_eq|]. by rewrite map_get_set_ne.
  - intros token. rewrite Ht. destruct (decide (token = sp_token e)) as [->|Hn]; [by rewrite map_get_set_eq|]. by rewrite map_get_set_ne.
  - intros sid e'. destruct (decide (sid = sp_sessionId e)) as [->|Hn].
    + rewrite map_get_set_eq. intros [= <-]. by rewrite map_get_set_eq.
    + rewrite map_get_set_ne by done. intros He. destruct (H3 sid e' He) as (? & ? & ?). rewrite map_get_set_ne; [done|].
      intros Heq. apply Hn. by apply (Hown sid e').
  - intros token sid. destruct (decide (token = sp_token e)) as [->|Hn]; [rewrite map_get_set_eq; by intros [= <-]|].
    rewrite map_get_set_ne by done. intros Hg. destruct (H4 _ _ Hg). auto.
Qed.

(** A page that changes, but for its session and its token. *)
Lemma same_update used m w sid e e' :
  same_pages used m w -> map_get sid (mp_bySessionId m) = Some e -> sp_sessionId e' = sp_sessionId e -> sp_token e' = sp_token e ->
  exists w', write_page redis_set stringify_page prefix e' w = (Ok tt, w') /\ same_pages used (mkMemPages (map_set sid e' (mp_bySessionId m)) (mp_byToken m)) w'.
Proof using laws.
  intros Hs He Hsid Htok. destruct (same_entry _ _ _ Hs _ _ He) as (Hne & Heq & Hto).
  destruct (same_write used used m w e' Hs) as (w' & Hw & Hs').
  - congruence.
  - done.
  - rewrite Htok. by apply (same_index _ _ _ Hs _ _ Hto).
  - intros sid' e0 He0 Ht0. destruct (same_entry _ _ _ Hs _ _ He0) as (_ & _ & Hto0). rewrite Ht0, Htok, Hto in Hto0. injection Hto0 as <-. congruence.
  - exists w'. split; [done|]. rewrite Hsid, Heq, Htok in Hs'. by rewrite (map_set_same _ _ _ Hto) in Hs'.
Qed.

(** One operation: the same answer, and the stores stay the same. *)
Lemma op_agrees used used' m w op :
  same_pages used m w -> (forall sid, session_of op = Some sid -> sid <> EmptyString) ->
  (forall t, t ∈ used -> t ∈ used') -> (forall t, t ∈ drawn [op] -> t ∈ used' /\ t ∉ used) ->
  exists a m' w', page_op memory_pages op m = (Ok a, m') /\ page_op redis_pages op w = (Ok a, w') /\ same_pages used' m' w'.
Proof using laws.
  intros Hs Hsid Hsub Hdrawn.
  assert (Hweak : forall m' w', same_pages used m' w' -> same_pages used' m' w').
  { intros m' w' [H1 H2 H3 H4]. split; [done|done|done|]. intros t s Ht. destruct (H4 _ _ Ht). auto. }
  destruct op as [token sid owner repo n|token|now sid request|now sid i outcome|sid live]; cbn [page_op]; unfold sbind; cbn.
  - destruct (readSession_same used m w sid Hs) as (w1 & Hr & Hs1). unfold mem_getOrCreate, redis_getOrCreate, sbind. rewrite Hr.
    destruct (map_get sid (mp_bySessionId m)) as [e|] eqn:Em; [by eexists _, m, w1; split_and!; [| |apply Hweak]|]. cbn.
    destruct (Hdrawn token) as [Hin Hnew]; [by left|].
    destruct (same_write used used' m w1 (new_page token sid owner repo n) Hs1) as (w2 & Hw & Hs2); [by apply Hsid|done|done| |].
    { intros sid' e' He' Ht. destruct (same_entry _ _ _ Hs1 _ _ He') as (_ & _ & Hto). rewrite Ht in Hto.
      destruct (same_index _ _ _ Hs1 _ _ Hto) as [Hu _]. by destruct Hnew. }
    rewrite Hw. by eexists _, _, w2.
  - unfold mem_getByToken, redis_getByToken, scatch, sbind. destruct (rp_get (tokenKey prefix token) w) as (w1 & Hg & Hk). rewrite Hg, (same_token _ _ _ Hs).
    pose proof (same_ext _ _ _ _ Hk Hs) as Hs1. destruct (map_get token (mp_byToken m)) as [sid|] eqn:Et; cbn; [|by eexists _, m, w1; split_and!; [| |apply Hweak]].
    destruct (same_index _ _ _ Hs _ _ Et) as [_ Hne]. replace (if_set (Some sid)) with (Some sid) by (by destruct sid).
    destruct (readSession_same used m w1 sid Hs1) as (w2 & Hr & Hs2). rewrite Hr. by eexists _, m, w2; split_and!; [| |apply Hweak].
  - destruct (readSession_same used m w sid Hs) as (w1 & Hr & Hs1). unfold mem_addTurn, redis_addTurn, mem_update, sbind. rewrite Hr.
    destruct (map_get sid (mp_bySessionId m)) as [e|] eqn:Em; cbn; [|by eexists _, m, w1; split_and!; [| |apply Hweak]].
    destruct (same_update used m w1 sid e (push_turn request now e) Hs1 Em eq_refl eq_refl) as (w2 & Hw & Hs2). rewrite Hw.
    by eexists _, _, w2; split_and!; [| |apply Hweak].
  - destruct (readSession_same used m w sid Hs) as (w1 & Hr & Hs1). unfold mem_completeTurn, redis_completeTurn, mem_update, sbind. rewrite Hr.
    destruct (map_get sid (mp_bySessionId m)) as [e|] eqn:Em; cbn; [|by eexists _, m, w1; split_and!; [| |apply Hweak]].
    destruct (finish_at i outcome now e) as [e'|] eqn:Ef; [|by eexists _, m, w1; split_and!; [| |apply Hweak]].
    destruct (same_update used m w1 sid e e' Hs1 Em) as (w2 & Hw & Hs2).
    1, 2: unfold finish_at in Ef; destruct (sp_turns e !! i); [|done]; by injection Ef as <-.
    rewrite Hw. by eexists _, _, w2; split_and!; [| |apply Hweak].
  - destruct (readSession_same used m w sid Hs) as (w1 & Hr & Hs1). unfold mem_setLive, redis_setLive, mem_update, sbind. rewrite Hr.
    destruct (map_get sid (mp_bySessionId m)) as [e|] eqn:Em; cbn; [|by eexists _, m, w1; split_and!; [| |apply Hweak]].
    destruct (same_update used m w1 sid e (with_live live e) Hs1 Em eq_refl eq_refl) as (w2 & Hw & Hs2). rewrite Hw.
    by eexists _, _, w2; split_and!; [| |apply Hweak].
Qed.

Lemma ops_agree ops : forall used m w,
  same_pages used m w -> (forall op sid, op ∈ ops -> session_of op = Some sid -> sid <> EmptyString) ->
  NoDup (drawn ops) -> (forall t, t ∈ drawn ops -> t ∉ used) ->
  exists answers m' w', page_ops memory_pages ops m = (Ok answers, m') /\ page_ops redis_pages ops w = (Ok answers, w').
Proof using laws.
  induction ops as [|op ops IH]; intros used m w Hs Hsid Hnd Hnew; [by exists [], m, w|].
  change (op :: ops) with ([op] ++ ops) in Hnd, Hnew. unfold drawn in Hnd, Hnew. rewrite omap_app in Hnd, Hnew.
  change (NoDup (drawn [op] ++ drawn ops)) in Hnd. change (forall t, t ∈ drawn [op] ++ drawn ops -> t ∉ used) in Hnew.
  apply NoDup_app in Hnd as (_ & Hdis & Hnd).
  destruct (op_agrees used (drawn [op] ++ used) m w op Hs) as (a & m1 & w1 & Hm & Hr & Hs1).
  - intros sid Hop. apply (Hsid op); [by left|done].
  - intros t Ht. apply elem_of_app. by right.
  - intros t Ht. split; [apply elem_of_app; by left|]. apply Hnew, elem_of_app. by left.
  - destruct (IH (drawn [op] ++ used) m1 w1 Hs1) as (l & m2 & w2 & Hm2 & Hr2).
    + intros op' sid Hin. apply Hsid. by right.
    + done.
    + intros t Ht [Hu|Hu]%elem_of_app; [by apply (Hdis t)|]. apply (Hnew t); [apply elem_of_app; by right|done].
    + exists (a :: l), m2, w2. cbn [page_ops]. unfold sbind. by rewrite Hm, Hm2, Hr, Hr2.
Qed.

(** C25: the store in Redis is the store in memory: from empty stores, any
    sequence of pages created, found, extended, completed and gone live gets
    the same answers from both, and neither fails, if no two pages draw the same
    token and no page is of the session without a name. *)
Theorem page_stores_agree (ops : list PageOp) (w : W) :
  (forall k, kv w k = None) -> NoDup (drawn ops) -> (forall op sid, op ∈ ops -> session_of op = Some sid -> sid <> EmptyString) ->
  exists answers, (page_ops memory_pages ops no_pages).1 = Ok answers /\ (page_ops redis_pages ops w).1 = Ok answers.
Proof using laws.
  intros Hempty Hnd Hsid. destruct (ops_agree ops [] no_pages w) as (l & m' & w' & Hm & Hr); [|done|done|intros t _; apply not_elem_of_nil|].
  - split; cbn; try done; intros; by rewrite Hempty.
  - exists l. by rewrite Hm, Hr.
Qed.
End Agree.

(** ** Witness *)

(** A text form of pages: the bits of the number that encodes one. *)
#[local] Instance TurnState_countable : Countable TurnState.
Proof.
  refine (inj_countable' (fun s => match s with turn_pending => 0%nat | turn_done => 1%nat | turn_broken => 2%nat end)
            (fun n => match n with 0%nat => turn_pending | 1%nat => turn_done | _ => turn_broken end) _). by intros [].
Defined.

Definition page_tuple (e : SessionPageEntry) :=
  (sp_token e, sp_sessionId e, sp_owner e, sp_repo e, sp_issueNumber e,
   (fun t => (tn_request t, tn_status t, tn_result t, tn_error t, tn_startedAt t, tn_completedAt t)) <$> sp_turns e,
   (fun l => (lv_agentRunId l, lv_opencodeSessionId l)) <$> sp_live e).

Fixpoint pos_bits (p : positive) : string :=
  match p with
  | xH => "1"
  | xO p => String "0"%char (pos_bits p)
  | xI p => String "1"%char (pos_bits p)
  end.

Fixpoint bits_pos (s : string) : positive :=
  match s with
  | String c EmptyString => xH
  | String c s => if Ascii.eqb c "0"%char then xO (bits_pos s) else xI (bits_pos s)
  | EmptyString => xH
  end.

Lemma bits_pos_bits p : bits_pos (pos_bits p) = p.
Proof.
  assert (Hne : forall p, exists c s, pos_bits p = String c s) by (intros []; cbn; eauto).
  induction p as [p IH|p IH|]; cbn; [| |done]; destruct (Hne p) as (c & s & Hp); rewrite Hp in IH |- *; by rewrite IH.
Qed.

Definition bits_of_page (e : SessionPageEntry) : string := pos_bits (encode (page_tuple e)).

Definition page_of_bits (s : string) : option SessionPageEntry :=
  match decode (A := string * string * string * string * Z *
      list (string * TurnState * option string * option string * string * option string) * option (string * option string)) (bits_pos s) with
  | Some (token, sid, owner, repo, n, turns, live) =>
      Some (mkPage token sid owner repo n
              ((fun '(request, status, result, error, started, completed) => mkTurn request status result error started completed) <$> turns)
              ((fun l => mkLive l.1 l.2) <$> live))
  | None => None
  end.

Lemma page_of_bits_of e : page_of_bits (bits_of_page e) = Some e.
Proof.
  unfold page_of_bits, bits_of_page. rewrite bits_pos_bits, decode_encode. unfold page_tuple. destruct e as [token sid owner repo n turns live].
  cbn. f_equal. f_equal.
  - induction turns as [|[] turns IH]; [done|]. cbn. by rewrite IH.
  - by destruct live as [[]|].
Qed.

(** Redis without expiry: a map. *)
Definition kv_get (k : string) : SM (jsmap string) string (option string) := fun w => (Ok (map_get k w), w).
Definition kv_set (k v : string) (ttl : Z) : SM (jsmap string) string unit := fun w => (Ok tt, map_set k v w).

#[global] Instance kv_laws : RedisPages kv_get kv_set bits_of_page page_of_bits (fun w k => map_get k w).
Proof.
  split.
  - intros k w. by exists w.
  - intros k v ttl w. exists (map_set k v w). split_and!; [done|apply map_get_set_eq|]. intros k' Hk. apply map_get_set_ne. congruence.
  - intros e. split; [|apply page_of_bits_of]. unfold bits_of_page. by destruct (encode (page_tuple e)).
Qed.

Definition sample_ops : list PageOp :=
  [po_create "t1" "s-1" "acme" "widgets" 7; po_turn "noon" "s-1" "fix it"; po_live "s-1" (Some (mkLive "run-1" None));
   po_create "t2" "s-2" "acme" "tools" 8; po_end "one" "s-1" 0 (Ok "done"); po_read "t1"; po_read "t3"].

Lemma page_stores_agree_witness :
  exists answers, (page_ops memory_pages sample_ops no_pages).1 = Ok answers /\
    (page_ops (RedisSessionPageStore kv_get kv_set bits_of_page page_of_bits "sessionPage:") sample_ops []).1 = Ok answers.
Proof.
  apply (page_stores_agree kv_get kv_set bits_of_page page_of_bits (fun w k => map_get k w) "sessionPage:" sample_ops []).
  - intros k. reflexivity.
  - vm_compute. repeat constructor; set_solver.
  - intros op sid Hin. apply list_elem_of_In in Hin. cbn in Hin. intros Hs ->.
    repeat (destruct Hin as [<-|Hin]; [discriminate Hs|]). done.
Defined.

(** A page of the session without a name cannot be found again in Redis. *)
Example nameless_page_lost :
  let ops := [po_create "t1" "" "acme" "widgets" 7; po_read "t1"] in
  (page_ops memory_pages ops no_pages).1 = Ok [pa_page (new_page "t1" "" "acme" "widgets" 7); pa_found (Some (new_page "t1" "" "acme" "widgets" 7))] /\
  (page_ops (RedisSessionPageStore kv_get kv_set bits_of_page page_of_bits "sessionPage:") ops []).1 =
    Ok [pa_page (new_page "t1" "" "acme" "widgets" 7); pa_found None].
Proof. vm_compute. done. Qed.
