(* ===== verification/GatewayRelay.v ===== *)
(** * Integration gateway: the clients of its relay

    The client of the orchestrator (apps/integration-gateway/src/
    orchestrator-client.ts), the client of GitHub (github-client.ts), and the
    outbox of owed labels with its reconciler (label-reconciler.ts), over
    [fetch], a clock and a timer of the world.

    The loop of [poll] takes fuel; what it needs is proved. *)

From stdpp Require Import base gmap strings list.
From Stdlib Require Import ZArith Lia Ascii Bool.
From S2P Require Import Prelude JsString JsNumber Json JsMap JsList JsonText EventValues EventTrigger TriggerRegistry Fetch HttpSource Rbac.

#[local] Open Scope Z_scope.

(** ** Data *)

Inductive TurnStatus := turn_succeeded | turn_failed | turn_timed_out.

#[export] Instance TurnStatus_eq_dec : EqDecision TurnStatus.
Proof. solve_decision. Defined.

Record IdentityLinkRef := mkLinkRef {
  ir_provider : string;
  ir_subject : string
}.

Record OrchestratorInvokeResult := mkInvokeResult {
  oi_status : TurnStatus;
  oi_result : option string;
  oi_error : option string;
  oi_identityLinkPending : bool;
  oi_identityLink : option IdentityLinkRef
}.

Definition failed_turn (error : string) : OrchestratorInvokeResult := mkInvokeResult turn_failed None (Some error) false None.

Record AcceptedTrigger := mkAccepted {
  at_name : string;
  at_sessionId : string;
  at_reply : option RenderedReply
}.

Inductive EventSubmitResult :=
| es_ignored
| es_rejected (error : string)
| es_accepted (id : string) (trigger : AcceptedTrigger)
| es_failed (error : string).

Inductive LiveProbe := lp_live (agentRunId : option string) | lp_not_live | lp_unknown.

Record OrchestratorClientOptions := mkOrchestratorClient {
  oo_baseUrl : string;
  oo_senderAssertionSecret : option string;
  oo_pollIntervalMs : Z;
  oo_pollTimeoutMs : Z
}.

Definition ACCEPT_RETRY_ATTEMPTS : nat := 3.
Definition ACCEPT_RETRY_DELAY_MS : Z := 1000.
Definition POLL_NETWORK_RETRY_LIMIT : nat := 3.
Definition SENDER_ASSERTION_HEADER : string := "x-gateway-user-assertion".
Definition SENDER_ASSERTION_TTL_SECONDS : Z := 300.

(** ** What comes back *)

Definition fields_of (v : option json) : list (string * json) :=
  match v with
  | Some (JObj fields) => fields
  | _ => []
  end.

Definition text_at (k : string) (fields : list (string * json)) : option string :=
  match jget k fields with
  | Some (JStr s) => Some s
  | _ => None
  end.

Definition truthy_json (v : option json) : bool :=
  match v with
  | None | Some JNull | Some (JBool false) | Some (JNum NaN) => false
  | Some (JNum x) => negb (num_eqb x (num_of_Z 0))
  | Some (JStr s) => negb (str_empty s)
  | Some _ => true
  end.

(** A whole number; 0 for anything else, which no issue has. *)
Definition whole_number (v : option json) : Z :=
  match v with
  | Some (JNum (Finite m e)) => if isInteger (Finite m e) then to_bigint m e else 0
  | _ => 0
  end.

(** [reply.github] as the gateway reads it, with "" for a repository that is
    not a text: it is refused like one. *)
Definition rendered_github (fields : list (string * json)) : RenderedGitHub :=
  mkRenderedGitHub (text_at "repository" fields ?? EmptyString) (whole_number (jget "issueNumber" fields)) (text_at "ack" fields)
    (truthy_json (jget "sessionPage" fields)) (truthy_json (jget "result" fields)) (text_at "removeLabel" fields).

Definition rendered_http (fields : list (string * json)) : HttpReplySpec :=
  mkHttpReply (text_at "url" fields ?? EmptyString)
    (match jget "secretRef" fields with
     | Some (JObj ref) => Some (text_at "name" ref ?? EmptyString, text_at "key" ref ?? EmptyString)
     | _ => None
     end).

Definition rendered_reply (fields : list (string * json)) : RenderedReply :=
  mkRenderedReply
    (match jget "github" fields with Some (JObj gh) => Some (rendered_github gh) | _ => None end)
    (match jget "http" fields with Some (JObj http) => Some (rendered_http http) | _ => None end).

Definition parseAcceptedTrigger (raw : option json) : AcceptedTrigger :=
  let t := fields_of raw in
  mkAccepted (text_at "name" t ?? EmptyString) (text_at "sessionId" t ?? EmptyString)
    (match jget "reply" t with Some (JObj reply) => Some (rendered_reply reply) | _ => None end).

(** ** The client of the orchestrator *)

Section Client.
Context {W : Type}.
Variable hmac : string -> string -> string.
Variable b64url : string -> string.
Variable JSON_parse : string -> option json.
(** [fetch], the bearer token, the timer and the clock. *)
Variable fetch : FetchRequest -> SM W string FetchResponse.
Variable resolveToken : SM W string string.
Variable sleep : Z -> SM W string unit.
Variable clock : W -> Z.
Variable opts : OrchestratorClientOptions.

(** [s.replace(/\/$/, "")] *)
Definition drop_slash (s : string) : string :=
  let n := (slen s - 1)%nat in if bool_decide (str_drop n s = "/") then str_take n s else s.

Definition base_url : string := drop_slash (oo_baseUrl opts).

Definition assertion_header (senderLogin : option string) (now : Z) : list (string * string) :=
  match if_set (oo_senderAssertionSecret opts), if_set senderLogin with
  | Some secret, Some login =>
      [(SENDER_ASSERTION_HEADER, mintSenderAssertion hmac b64url JSON_text secret login SENDER_ASSERTION_TTL_SECONDS now)]
  | _, _ => []
  end.

Definition post_accept (body : json) (senderLogin : option string) : SM W string FetchResponse :=
  do! token <- resolveToken ;;
  fun w => fetch (mkFetchRequest (base_url +:+ "/invoke") "POST"
             (("content-type", "application/json") :: ("authorization", bearer token) :: assertion_header senderLogin (clock w)) (Some body)) w.

(** The attempts of [postInvoke]: [more] of them after this one. *)
Fixpoint post_attempts (more : nat) (body : json) (senderLogin : option string) : SM W string (result string FetchResponse) :=
  scatch (do! res <- post_accept body senderLogin ;; sret (Ok res))
    (fun err =>
       match more with
       | O => sret (Err err)
       | S more => do! _ <- sleep ACCEPT_RETRY_DELAY_MS ;; post_attempts more body senderLogin
       end).

Definition postInvoke (body : json) (senderLogin : option string) : SM W string (result string FetchResponse) :=
  post_attempts (ACCEPT_RETRY_ATTEMPTS - 1) body senderLogin.

Definition event_body (event : Envelope) : json := JObj [("event", envelope_json event); ("identity_link_flow", JStr "device")].

Definition submit_outcome (status : Z) (text : string) : EventSubmitResult :=
  let body := fields_of (if str_empty text then None else JSON_parse text) in
  if (status =? 200) && bool_decide (text_at "status" body = Some "ignored") then es_ignored
  else if status =? 422 then es_rejected (text_at "error" body ?? (if str_empty text then "unprocessable event" else text))
  else match (if status =? 202 then if_set (text_at "id" body) else None) with
       | Some id => es_accepted id (parseAcceptedTrigger (jget "trigger" body))
       | None => es_failed ("/invoke answered " +:+ Z_to_string status +:+ ": " +:+ text)
       end.

Definition of_result {A : Type} (r : result string A) : SM W string A := fun w => (r, w).

Definition submitEvent (event : Envelope) (senderLogin : option string) : SM W string EventSubmitResult :=
  do! sent <- postInvoke (event_body event) senderLogin ;;
  match sent with
  | Err err => sret (es_failed ("/invoke unreachable: " +:+ err))
  | Ok res => do! text <- of_result (fp_text res) ;; sret (submit_outcome (fp_status res) text)
  end.

(** [PollHooks] *)
Record PollHooks := mkPollHooks {
  on_running : SM W string unit;
  on_remoteControlUrl : string -> SM W string unit
}.

Definition no_hooks : PollHooks := mkPollHooks (sret tt) (fun _ => sret tt).

(** What the loop of [poll] keeps. *)
Record PollState := mkPollState {
  pl_running : bool;
  pl_url : bool;
  pl_error : option string;
  pl_failures : nat
}.

Definition poll_start : PollState := mkPollState false false None 0.

Definition get_request (path token : string) : FetchRequest :=
  mkFetchRequest (base_url +:+ path) "GET" [("authorization", bearer token)] None.

Definition poll_once (id : string) : SM W string FetchResponse :=
  do! token <- resolveToken ;; fetch (get_request ("/invoke/" +:+ encodeURIComponent id) token).

(** The answer of a turn that has ended. *)
Definition terminal_result (polled : list (string * json)) : option OrchestratorInvokeResult :=
  let status := text_at "status" polled in
  if bool_decide (status = Some "succeeded") then
    Some (mkInvokeResult turn_succeeded
            (match jget "result" polled with Some (JStr s) => Some s | Some v => Some (JSON_text v) | None => None end) None
            (truthy_json (jget "identityLinkPending" polled))
            (match jget "identityLink" polled with
             | Some (JObj link) => Some (mkLinkRef (text_at "provider" link ?? EmptyString) (text_at "subject" link ?? EmptyString))
             | _ => None
             end))
  else if bool_decide (status = Some "failed") then Some (failed_turn (text_at "error" polled ?? "orchestrator turn failed"))
  else None.

(** What a body that was read does: the hooks that it fires, and the state
    or the answer. *)
Definition polled_step (hooks : PollHooks) (st : PollState) (polled : list (string * json)) :
    SM W string (PollState + OrchestratorInvokeResult) :=
  let url := if pl_url st then None else if_set (text_at "remoteControlUrl" polled) in
  do! _ <- match url with Some url => on_remoteControlUrl hooks url | None => sret tt end ;;
  let announced := pl_url st || match url with Some _ => true | None => false end in
  match terminal_result polled with
  | Some outcome => sret (inr outcome)
  | None =>
      if negb (pl_running st) && negb (truthy_json (jget "identityLinkPending" polled))
      then do! _ <- on_running hooks ;; sret (inl (mkPollState true announced None 0))
      else sret (inl (mkPollState (pl_running st) announced None 0))
  end.

(** The body of a response, which is read as an object. *)
Definition polled_body (res : FetchResponse) : SM W string (list (string * json)) :=
  do! body <- of_result (fp_json res) ;;
  match body with
  | JNull => sthrow "Cannot read properties of null"
  | v => sret (fields_of (Some v))
  end.

Definition poll_ended (id : string) (st : PollState) : OrchestratorInvokeResult :=
  match pl_error st with
  | Some err => failed_turn ("/invoke/" +:+ id +:+ " unreachable after 3 consecutive poll failures: " +:+ err)
  | None =>
      mkInvokeResult turn_timed_out None (Some ("no terminal result within " +:+ Z_to_string (oo_pollTimeoutMs opts) +:+ "ms")) false None
  end.

(** One round of the loop. *)
Definition poll_round (id : string) (hooks : PollHooks) (st : PollState) : SM W string (PollState + OrchestratorInvokeResult) :=
  do! _ <- sleep (oo_pollIntervalMs opts) ;;
  do! answer <- scatch (do! res <- poll_once id ;; sret (Ok res)) (fun err => sret (Err err)) ;;
  match answer with
  | Err err =>
      let st' := mkPollState (pl_running st) (pl_url st) (Some err) (S (pl_failures st)) in
      sret (if Nat.ltb POLL_NETWORK_RETRY_LIMIT (S (pl_failures st)) then inr (poll_ended id st') else inl st')
  | Ok res =>
      if fetch_ok res then do! polled <- polled_body res ;; polled_step hooks st polled
      else sret (inr (failed_turn ("/invoke/" +:+ id +:+ " poll failed: " +:+ Z_to_string (fp_status res))))
  end.

(** The loop, with [fuel] rounds; [None] when they are used up. *)
Fixpoint poll_loop (fuel : nat) (deadline : Z) (id : string) (hooks : PollHooks) (st : PollState) : SM W string (option OrchestratorInvokeResult) := fun w =>
  if clock w <? deadline then
    match fuel with
    | O => (Ok None, w)
    | S fuel =>
        (do! next <- poll_round id hooks st ;;
         match next with
         | inl st' => poll_loop fuel deadline id hooks st'
         | inr outcome => sret (Some outcome)
         end) w
    end
  else (Ok (Some (poll_ended id st)), w).

(** A round for every interval of the budget. *)
Definition poll_fuel : nat := Z.to_nat (oo_pollTimeoutMs opts / oo_pollIntervalMs opts + 1).

Definition poll (id : string) (hooks : PollHooks) : SM W string OrchestratorInvokeResult := fun w =>
  (do! r <- poll_loop poll_fuel (clock w + oo_pollTimeoutMs opts) id hooks poll_start ;;
   match r with
   | Some outcome => sret outcome
   | None => sthrow "out of fuel"
   end) w.

Definition request_body (request sessionId : string) (flow : option string) : json :=
  JObj ([("request", JStr request); ("session_id", JStr sessionId)] ++ opt_field "identity_link_flow" JStr flow).

Definition invoke (request sessionId : string) (flow : option string) (hooks : PollHooks) : SM W string OrchestratorInvokeResult :=
  do! sent <- postInvoke (request_body request sessionId flow) None ;;
  match sent with
  | Err err => sret (failed_turn ("/invoke unreachable: " +:+ err))
  | Ok res =>
      if fetch_ok res then
        do! accepted <- polled_body res ;;
        poll (text_at "id" accepted ?? EmptyString) hooks
      else do! text <- of_result (fp_text res) ;;
           sret (failed_turn ("/invoke rejected the request: " +:+ Z_to_string (fp_status res) +:+ " " +:+ text))
  end.

Definition probeLive (sessionId : string) : SM W string LiveProbe :=
  scatch
    (do! token <- resolveToken ;;
     do! res <- fetch (get_request ("/sessions/live?sessionId=" +:+ encodeURIComponent sessionId) token) ;;
     if fetch_ok res then
       do! body <- polled_body res ;;
       sret (if truthy_json (jget "live" body) then lp_live (text_at "agentRunId" body) else lp_not_live)
     else sret lp_unknown)
    (fun _ => sret lp_unknown).

(** [LiveStatus]: the run that is live, if one is. *)
Definition checkLive (sessionId : string) : SM W string (option (option string)) :=
  do! probe <- probeLive sessionId ;;
  sret (match probe with lp_live agentRunId => Some agentRunId | _ => None end).

Definition forwardOpencode (runId sessionId method path : string) (body : option json) : SM W string json :=
  do! token <- resolveToken ;;
  do! res <- fetch (mkFetchRequest (base_url +:+ "/agent-runs/" +:+ encodeURIComponent runId +:+ "/opencode?sessionId=" +:+ encodeURIComponent sessionId)
                      "POST" [("content-type", "application/json"); ("authorization", bearer token)]
                      (Some (JObj ([("method", JStr method); ("path", JStr path)] ++ opt_field "body" (fun b => b) body)))) ;;
  do! text <- of_result (fp_text res) ;;
  if fetch_ok res
  then match JSON_parse text with
       | Some parsed => sret parsed
       | None => sthrow ("forwardOpencode returned non-JSON: " +:+ text)
       end
  else sthrow ("forwardOpencode failed: " +:+ Z_to_string (fp_status res) +:+ " " +:+ text).
End Client.
Arguments PollHooks : clear implicits.

(** ** The client of GitHub *)

Definition REPLY_MARKER : string := "<!-- agent-controller:reply -->".

Record GithubReplyOptions := mkGithubReplyOptions {
  gr_apiUrl : string;
  gr_removeLabelRetryAttempts : nat;
  gr_removeLabelRetryDelayMs : Z
}.

Definition default_retries (apiUrl : string) : GithubReplyOptions := mkGithubReplyOptions apiUrl 3 500.

Section Github.
Context {W : Type}.
Variable fetch : FetchRequest -> SM W string FetchResponse.
Variable resolveGithubToken : SM W string string.
Variable sleep : Z -> SM W string unit.
Variable opts : GithubReplyOptions.

Definition reply_headers (token : string) : list (string * string) :=
  [("authorization", bearer token); ("accept", "application/vnd.github+json"); ("x-github-api-version", "2022-11-28")].

Definition issue_url (owner repo : string) (issueNumber : Z) : string :=
  gr_apiUrl opts +:+ "/repos/" +:+ owner +:+ "/" +:+ repo +:+ "/issues/" +:+ Z_to_string issueNumber.

Definition postIssueComment (owner repo : string) (issueNumber : Z) (body : string) : SM W string unit :=
  do! token <- resolveGithubToken ;;
  do! res <- fetch (mkFetchRequest (issue_url owner repo issueNumber +:+ "/comments") "POST" (reply_headers token ++ [("content-type", "application/json")])
                      (Some (JObj [("body", JStr (REPLY_MARKER +:+ nl_s +:+ body))]))) ;;
  if fetch_ok res then sret tt
  else do! text <- of_result (fp_text res) ;; sthrow ("Failed to post issue comment: " +:+ Z_to_string (fp_status res) +:+ " " +:+ text).

Definition remove_request (owner repo : string) (issueNumber : Z) (label token : string) : FetchRequest :=
  mkFetchRequest (issue_url owner repo issueNumber +:+ "/labels/" +:+ encodeURIComponent label) "DELETE" (reply_headers token) None.

(** Whether the label is gone after a response. *)
Definition label_gone (res : FetchResponse) : bool := fetch_ok res || (fp_status res =? 404).

(** One attempt: the error it leaves, or none. *)
Definition try_remove (req : FetchRequest) (label : string) : SM W string (option string) :=
  scatch
    (do! res <- fetch req ;;
     if label_gone res then sret None
     else do! text <- of_result (fp_text res) ;;
          sret (Some ("Failed to remove label " +:+ json_quote label +:+ ": " +:+ Z_to_string (fp_status res) +:+ " " +:+ text)))
    (fun err => sret (Some err)).

(** The attempts from the given one on, [more] of them after it. *)
Fixpoint remove_attempts (attempt : Z) (more : nat) (req : FetchRequest) (label : string) : SM W string unit :=
  do! left <- try_remove req label ;;
  match left, more with
  | None, _ => sret tt
  | Some err, O => sthrow err
  | Some _, S more => do! _ <- sleep (gr_removeLabelRetryDelayMs opts * attempt) ;; remove_attempts (attempt + 1) more req label
  end.

Definition removeIssueLabel (owner repo : string) (issueNumber : Z) (label : string) : SM W string unit :=
  do! token <- resolveGithubToken ;;
  match gr_removeLabelRetryAttempts opts with
  | O => sthrow ("Failed to remove label " +:+ json_quote label +:+ ": undefined")
  | S more => remove_attempts 1 more (remove_request owner repo issueNumber label token) label
  end.
End Github.

(** ** Owed labels *)

Record PendingLabelRemoval := mkPendingLabel {
  pe_owner : string;
  pe_repo : string;
  pe_issueNumber : Z;
  pe_label : string;
  pe_sessionId : string;
  pe_recordedAt : Z
}.

Record PendingLabelStore (W : Type) := mkPendingStore {
  ps_record : PendingLabelRemoval -> SM W string unit;
  ps_clear : string -> string -> SM W string unit;
  ps_list : SM W string (list PendingLabelRemoval)
}.
Arguments mkPendingStore {W}.
Arguments ps_record {W} p.
Arguments ps_clear {W} p.
Arguments ps_list {W} p.

Definition label_key (sessionId label : string) : string := sessionId +:+ String "000"%char label.

(** [InMemoryPendingLabelStore] *)
Definition memory_store : PendingLabelStore (jsmap PendingLabelRemoval) :=
  mkPendingStore
    (fun entry w => (Ok tt, map_set (label_key (pe_sessionId entry) (pe_label entry)) entry w))
    (fun sessionId label w => (Ok tt, map_delete (label_key sessionId label) w))
    (fun w => (Ok (map_values w), w)).

Definition DEFAULT_GRACE_MS : Z := 10 * 60 * 1000.

Section Reconciler.
Context {W : Type}.
Variable store : PendingLabelStore W.
Variable isRunTerminal : string -> SM W string bool.
Variable removeLabel : string -> string -> Z -> string -> SM W string unit.
Variable clock : W -> Z.
Variable graceMs : Z.

Definition sweep_entry (cutoff : Z) (_ : unit) (entry : PendingLabelRemoval) : SM W string unit :=
  if cutoff <? pe_recordedAt entry then sret tt
  else
    scatch
      (do! terminal <- isRunTerminal (pe_sessionId entry) ;;
       if (terminal : bool) then
         do! _ <- removeLabel (pe_owner entry) (pe_repo entry) (pe_issueNumber entry) (pe_label entry) ;;
         ps_clear store (pe_sessionId entry) (pe_label entry)
       else sret tt)
      (fun _ => sret tt).

Definition sweepOnce : SM W string unit :=
  do! entries <- scatch (do! l <- ps_list store ;; sret (Some l)) (fun _ => sret None) ;;
  match entries with
  | None => sret tt
  | Some l => fun w => sfold (sweep_entry (clock w - graceMs)) tt l w
  end.
End Reconciler.

(** The wiring of the gateway: only a run that the orchestrator says is not
    live has ended. *)
Definition run_terminal {W : Type} (probe : string -> SM W string LiveProbe) (sessionId : string) : SM W string bool :=
  do! p <- probe sessionId ;; sret (match p with lp_not_live => true | _ => false end).

(** ** Lemmas *)

Section PollLaws.
Context {W : Type}.
Variable fetch : FetchRequest -> SM W string FetchResponse.
Variable resolveToken : SM W string string.
Variable sleep : Z -> SM W string unit.
Variable clock : W -> Z.
Variable opts : OrchestratorClientOptions.

(** The timer waits, and nothing turns the clock back. *)
Class TimeLaws : Prop := {
  sleep_waits ms w : 0 <= ms -> clock w + ms <= clock (sleep ms w).2;
  sleep_returns ms w : (sleep ms w).1 = Ok tt;
  fetch_forward req w : clock w <= clock (fetch req w).2;
  token_forward w : clock w <= clock (resolveToken w).2
}.
Context `{!TimeLaws}.

(** A computation that does not turn the clock back. *)
Definition forward {A : Type} (m : SM W string A) : Prop := forall w, clock w <= clock (m w).2.

Lemma forward_bind {A B : Type} (m : SM W string A) (f : A -> SM W string B) : forward m -> (forall a, forward (f a)) -> forward (sbind f m).
Proof using.
  intros Hm Hf w. unfold sbind. specialize (Hm w). destruct (m w) as [[a|e] w1]; cbn in *; [|done]. specialize (Hf a w1). lia.
Qed.

Lemma forward_ret {A : Type} (a : A) : forward (sret a).
Proof using. intros w. cbn. lia. Qed.

Lemma forward_of_result {A : Type} (r : result string A) : forward (of_result r).
Proof using. intros w. cbn. lia. Qed.

Lemma forward_catch {A : Type} (m : SM W string A) (h : string -> SM W string A) : forward m -> (forall e, forward (h e)) -> forward (scatch m h).
Proof using.
  intros Hm Hh w. unfold scatch. specialize (Hm w). destruct (m w) as [[a|e] w1]; cbn in *; [done|]. specialize (Hh e w1). lia.
Qed.

Variable hooks : PollHooks W.
Hypothesis running_forward : forward (on_running hooks).
Hypothesis url_forward : forall url, forward (on_remoteControlUrl hooks url).

Lemma round_advances id st w : 0 <= oo_pollIntervalMs opts ->
  clock w + oo_pollIntervalMs opts <= clock (poll_round fetch resolveToken sleep opts id hooks st w).2.
Proof using Type*.
  intros Hi. unfold poll_round, sbind at 1. pose proof (sleep_waits (oo_pollIntervalMs opts) w Hi) as Hs.
  pose proof (sleep_returns (oo_pollIntervalMs opts) w) as Hr. destruct (sleep (oo_pollIntervalMs opts) w) as [[[]|e] w1]; cbn in Hr, Hs; [|done].
  etransitivity; [exact Hs|]. match goal with |- _ <= clock (?m w1).2 => assert (Hf : forward m); [|apply Hf] end.
  apply forward_bind.
  - apply forward_catch; [|intros; apply forward_ret]. apply forward_bind; [|intros; apply forward_ret].
    apply forward_bind; [intros w'; apply token_forward|intros; intros w'; apply fetch_forward].
  - intros [res|err]; [|apply forward_ret]. destruct (fetch_ok res); [|apply forward_ret].
    apply forward_bind; [|intros polled].
    + apply forward_bind; [apply forward_of_result|]. intros []; try apply forward_ret. intros w'. cbn. lia.
    + unfold polled_step. apply forward_bind; [destruct (if pl_url st then None else _); [apply url_forward|apply forward_ret]|].
      intros _. destruct (terminal_result polled); [apply forward_ret|]. destruct (_ && _); [|apply forward_ret].
      apply forward_bind; [done|intros; apply forward_ret].
Qed.

Lemma loop_ends fuel deadline id st w :
  0 < oo_pollIntervalMs opts -> deadline <= clock w + Z.of_nat fuel * oo_pollIntervalMs opts ->
  (poll_loop fetch resolveToken sleep clock opts fuel deadline id hooks st w).1 <> Ok None.
Proof using Type*.
  intros Hi. revert st w. induction fuel as [|fuel IH]; intros st w Hd; cbn [poll_loop]; destruct (Z.ltb_spec (clock w) deadline); try done; [lia|].
  unfold sbind. pose proof (round_advances id st w ltac:(lia)) as Ha.
  destruct (poll_round fetch resolveToken sleep opts id hooks st w) as [[[st'|outcome]|e] w1]; cbn in Ha; [|done..]. apply IH. lia.
Qed.

(** C27: A poll comes to an end: a timer that waits makes its rounds at most
    one for every interval of the budget, and one more. *)
Theorem poll_ends (id : string) (w : W) :
  0 < oo_pollIntervalMs opts -> 0 <= oo_pollTimeoutMs opts ->
  let loop := poll_loop fetch resolveToken sleep clock opts (poll_fuel opts) (clock w + oo_pollTimeoutMs opts) id hooks poll_start w in
  loop.1 <> Ok None /\
  poll fetch resolveToken sleep clock opts id hooks w = (let? r := loop.1 in match r with Some outcome => Ok outcome | None => Err "out of fuel" end, loop.2).
Proof using Type*.
  intros Hi Ht loop. split.
  - apply loop_ends; [done|]. unfold poll_fuel. rewrite Z2Nat.id by (pose proof (Z.div_pos (oo_pollTimeoutMs opts) (oo_pollIntervalMs opts) Ht Hi); lia).
    pose proof (Z.mul_succ_div_gt (oo_pollTimeoutMs opts) (oo_pollIntervalMs opts) Hi). lia.
  - unfold poll, sbind. fold loop. by destruct loop as [[[r|]|e] w1].
Qed.
End PollLaws.

Section SweepLaws.
Context {W : Type}.
Variable store : PendingLabelStore W.
Variable isRunTerminal : string -> SM W string bool.
Variable removeLabel : string -> string -> Z -> string -> SM W string unit.
Variable clock : W -> Z.
Variable graceMs : Z.

(** An owed label that a sweep may take off: it was listed, it is older than
    the grace, and its run was said to have ended. *)
Definition sweepable (entry : PendingLabelRemoval) : Prop :=
  (exists l, gave (ps_list store) l /\ entry ∈ l) /\ (exists w, pe_recordedAt entry <= clock w - graceMs) /\
  gave (isRunTerminal (pe_sessionId entry)) true.

Definition removal (entry : PendingLabelRemoval) : SM W string unit :=
  removeLabel (pe_owner entry) (pe_repo entry) (pe_issueNumber entry) (pe_label entry).

(** C28: A sweep changes nothing but by taking off the label of a run that has
    ended, older than the grace, and by dropping its record once it is off: what
    these keep, and asking keeps, the whole sweep keeps; and it never throws. *)
Theorem sweep_justified (I : W -> Prop) :
  keeps I (ps_list store) -> (forall sessionId, keeps I (isRunTerminal sessionId)) ->
  (forall entry, sweepable entry -> keeps I (removal entry)) ->
  (forall entry, sweepable entry -> gave (removal entry) tt -> keeps I (ps_clear store (pe_sessionId entry) (pe_label entry))) ->
  ensures I (fun _ => True) (sweepOnce store isRunTerminal removeLabel clock graceMs) /\
  forall w, is_ok (sweepOnce store isRunTerminal removeLabel clock graceMs w).1 = true.
Proof using.
  intros Hlist Hprobe Hremove Hclear. split.
  - unfold sweepOnce. eapply (ensures_sbind _ (fun r => forall l, r = Some l -> gave (ps_list store) l)).
    + apply ensures_scatch; [|intros; by apply ensures_sret]. eapply ensures_sbind; [by apply ensures_gave|].
      intros l Hl. apply ensures_sret. by intros l' [= <-].
    + intros [l|] Hl; [|by apply ensures_sret]. specialize (Hl l eq_refl). intros w Hw. apply (ensures_keeps I); [|done].
      apply keeps_sfold. intros [] entry Hin. unfold sweep_entry. destruct (Z.ltb_spec (clock w - graceMs) (pe_recordedAt entry)); [apply keeps_sret|].
      apply keeps_scatch; [|intros; apply keeps_sret]. apply ensures_keeps. eapply ensures_sbind; [by apply ensures_gave|].
      intros [] Ht; [|by apply ensures_sret]. assert (Hs : sweepable entry) by (split_and!; [by exists l|by exists w|done]).
      eapply ensures_sbind; [apply (ensures_gave I), (Hremove entry Hs)|]. intros [] Hr. by apply ensures_keeps, Hclear.
  - intros w. unfold sweepOnce, sbind, scatch. destruct (ps_list store w) as [[l|e] w1]; [|done]. cbn.
    generalize (clock w1 - graceMs). intros cutoff. clear Hlist Hprobe Hremove Hclear. revert w1. induction l as [|entry l IH]; intros w1; [done|].
    cbn [sfold]. unfold sbind at 1. assert (He : exists w2, sweep_entry store isRunTerminal removeLabel cutoff tt entry w1 = (Ok tt, w2)).
    { unfold sweep_entry. destruct (_ <? _); [by eexists|]. unfold scatch. destruct (sbind _ _ w1) as [[[]|e] w2]; by eexists. }
    destruct He as [w2 ->]. apply IH.
Qed.
End SweepLaws.

(** ** Witnesses *)

(** A world that is a clock, and an orchestrator that never answers. *)
Definition ticking (ms : Z) : SM Z string unit := fun t => (Ok tt, t + ms).
Definition unreachable (req : FetchRequest) : SM Z string FetchResponse := sthrow "ECONNREFUSED".
Definition relay_options : OrchestratorClientOptions := mkOrchestratorClient "http://orchestrator/" None 1000 60000.

#[global] Instance ticking_laws : TimeLaws unreachable (sret "token") ticking (fun t => t).
Proof. split; cbn; intros; try done; lia. Qed.

Lemma poll_ends_witness :
  poll unreachable (sret "token") ticking (fun t => t) relay_options "t-1" no_hooks 0 =
  (Ok (failed_turn "/invoke/t-1 unreachable after 3 consecutive poll failures: ECONNREFUSED"), 4000).
Proof.
  destruct (poll_ends unreachable (sret "token") ticking (fun t => t) relay_options no_hooks
    (forward_ret (fun t => t) tt) (fun _ => forward_ret (fun t => t) tt) "t-1" 0 ltac:(cbn; lia) ltac:(cbn; lia)) as [_ H].
  etransitivity; [exact H|]. vm_compute. reflexivity.
Defined.

(** A budget that runs out after one failure is reported as three. *)
Example one_failure_reported_as_three :
  poll unreachable (sret "token") ticking (fun t => t) (mkOrchestratorClient "http://orchestrator" None 1000 1000) "t-1" no_hooks 0 =
  (Ok (failed_turn "/invoke/t-1 unreachable after 3 consecutive poll failures: ECONNREFUSED"), 1000).
Proof. vm_compute. reflexivity. Qed.

Definition owed : PendingLabelRemoval := mkPendingLabel "o" "r" 7 "triage" "s-1" 0.

(** A run of which nothing is known keeps its label and its record. *)
Definition unknown_run (_ : string) : SM (jsmap PendingLabelRemoval) string LiveProbe := sret lp_unknown.
Definition forget_all (_ _ : string) (_ : Z) (_ : string) : SM (jsmap PendingLabelRemoval) string unit := fun _ => (Ok tt, []).
Definition one_owed : jsmap PendingLabelRemoval := [(label_key "s-1" "triage", owed)].

Lemma sweep_justified_witness :
  (sweepOnce memory_store (run_terminal unknown_run) forget_all (fun _ => 10000000) DEFAULT_GRACE_MS one_owed).2 = one_owed.
Proof.
  destruct (sweep_justified memory_store (run_terminal unknown_run) forget_all (fun _ => 10000000) DEFAULT_GRACE_MS (fun w => w = one_owed)) as [H _].
  - intros w' Hw'. exact Hw'.
  - intros sid w' Hw'. exact Hw'.
  - intros entry (_ & _ & (w1 & w2 & Hg)). discriminate.
  - intros entry (_ & _ & (w1 & w2 & Hg)) _. discriminate.
  - exact (proj1 (H one_owed eq_refl)).
Defined.
