(* ===== verification/GatewayEvents.v ===== *)
(** * Integration gateway: an accepted event

    What the gateway does with an event that the orchestrator accepted, from
    the acknowledgement to the removal of the label (the event half of
    apps/integration-gateway/src/server.ts), over the clients of GatewayRelay.

    The variables that the code shares between its callbacks and its handlers
    of errors are part of the world while an event runs. *)

From stdpp Require Import base gmap strings list.
From Stdlib Require Import ZArith Lia Ascii Bool.
From S2P Require Import Prelude JsString JsNumber Json JsMap JsList JsonText EventTrigger Fetch GatewayAuth SessionPage GatewayRelay.

#[local] Open Scope Z_scope.

(** ** The stores and the clients *)

Record HttpReplyRequest := mkReplyRequest {
  hr_url : string;
  hr_headers : list (string * string);
  hr_body : string
}.

(** What the events use of [GatewayServerOptions]. *)
Record GatewayDeps (W : Type) := mkGatewayDeps {
  gd_secrets : option (string -> string -> bool -> SM W string (option string));
  gd_submitEvent : Envelope -> option string -> SM W string EventSubmitResult;
  gd_comment : string -> string -> Z -> string -> SM W string unit;
  gd_removeLabel : string -> string -> Z -> string -> SM W string unit;
  gd_pending : option (PendingLabelStore W);
  gd_pages : option (SessionPageStore W);
  gd_publicBaseUrl : option string;
  gd_waitForCompletion : option (string -> Z -> string -> SM W string bool);
  gd_resumeWaitMs : option Z;
  gd_replyFetch : HttpReplyRequest -> SM W string FetchResponse
}.
Arguments mkGatewayDeps {W}.
Arguments gd_secrets {W} g.
Arguments gd_submitEvent {W} g.
Arguments gd_comment {W} g.
Arguments gd_removeLabel {W} g.
Arguments gd_pending {W} g.
Arguments gd_pages {W} g.
Arguments gd_publicBaseUrl {W} g.
Arguments gd_waitForCompletion {W} g.
Arguments gd_resumeWaitMs {W} g.
Arguments gd_replyFetch {W} g.

Record GithubReplyTarget := mkReplyTarget {
  gt_owner : string;
  gt_repo : string;
  gt_issueNumber : Z;
  gt_ack : option string;
  gt_sessionPage : bool;
  gt_result : bool;
  gt_removeLabel : option string
}.

(** The variables of a run: whether its HTTP reply was sent, and whether its
    Remote Control link was posted. *)
Record RunLocals := mkRunLocals {
  lo_httpSent : bool;
  lo_posted : bool
}.

Definition EVENT_SIGNATURE_HEADER : string := "x-event-signature".
Definition DEFAULT_RESUME_WAIT_MS : Z := 10 * 60 * 1000.

(** [/^([A-Za-z0-9_.-]+)\/([A-Za-z0-9_.-]+)$/] *)
Definition repository_char (c : ascii) : bool := is_alnum c || char_in "_.-" c.

Definition parse_repository (repository : string) : option (string * string) :=
  match split_char "/"%char repository with
  | [owner; repo] =>
      if str_empty owner || str_empty repo || negb (str_forall repository_char owner) || negb (str_forall repository_char repo) then None
      else Some (owner, repo)
  | _ => None
  end.

Definition githubReplyTarget (trigger : AcceptedTrigger) : option GithubReplyTarget :=
  reply ← at_reply trigger;
  gh ← rr_github reply;
  repository ← parse_repository (rg_repository gh);
  if (0 <? rg_issueNumber gh) && (rg_issueNumber gh <=? MAX_SAFE_INTEGER)
  then Some (mkReplyTarget repository.1 repository.2 (rg_issueNumber gh) (if_set (rg_ack gh)) (rg_sessionPage gh) (rg_result gh)
               (if_set (rg_removeLabel gh)))
  else None.

Definition httpReply (trigger : AcceptedTrigger) : option HttpReplySpec := reply ← at_reply trigger; rr_http reply.

(** [try { m } finally { f }] *)
Definition sfinally {W A : Type} (m : SM W string A) (f : SM W string unit) : SM W string A := fun w =>
  let '(r, w1) := m w in
  match f w1 with
  | (Ok _, w2) => (r, w2)
  | (Err e, w2) => (Err e, w2)
  end.

Section Run.
Context {W : Type}.
Variable hmac : string -> string -> string.
(** The protocol of a URL that parses. *)
Variable url_protocol : string -> option string.
(** Texts outside of Latin-1: an arrow, and the sign of a robot. *)
Variables arrow robot : string.
(** The transport of the polls. *)
Variable fetch : FetchRequest -> SM W string FetchResponse.
Variable resolveToken : SM W string string.
Variable sleep : Z -> SM W string unit.
Variable clock : W -> Z.
Variable opts : OrchestratorClientOptions.
Variable deps : GatewayDeps W.

(** An operation of the world, beside the variables of a run. *)
Definition lift {A : Type} (m : SM W string A) : SM (W * RunLocals) string A := fun w =>
  let '(r, w') := m w.1 in (r, (w', w.2)).

Definition http_sent : SM (W * RunLocals) string unit := fun w => (Ok tt, (w.1, mkRunLocals true (lo_posted w.2))).

(** [best]: an error is reported, and that is all. *)
Definition best {S : Type} (m : SM S string unit) : SM S string unit := scatch m (fun _ => sret tt).

Definition readSecret (name key : string) (refresh : bool) : SM W string (option string) :=
  match gd_secrets deps with
  | None => sret None
  | Some get => scatch (get name key refresh) (fun _ => sret None)
  end.

Definition comment (gh : GithubReplyTarget) (text : string) : SM W string unit := gd_comment deps (gt_owner gh) (gt_repo gh) (gt_issueNumber gh) text.

Definition went_wrong (message : string) : string := "Something went wrong processing this: " +:+ message.

(** ** The HTTP reply *)

Definition is_success (outcome : OrchestratorInvokeResult) : bool := bool_decide (oi_status outcome = turn_succeeded).

Definition reply_body (trigger : AcceptedTrigger) (outcome : OrchestratorInvokeResult) : string :=
  JSON_text (JObj ([("trigger", JStr (at_name trigger)); ("sessionId", JStr (at_sessionId trigger));
                    ("status", JStr (if is_success outcome then "succeeded" else "failed"))] ++
                   [if is_success outcome then ("result", JStr (oi_result outcome ?? EmptyString))
                    else ("error", JStr (oi_error outcome ?? "unknown error"))])).

(** The headers of a reply: [None] when its secret cannot be read. *)
Definition reply_headers (http : HttpReplySpec) (body : string) : SM W string (option (list (string * string))) :=
  match http_secretRef http with
  | None => sret (Some [("content-type", "application/json")])
  | Some (name, key) =>
      do! secret <- readSecret name key false ;;
      sret (match if_set secret with
            | None => None
            | Some secret =>
                Some [("content-type", "application/json"); (EVENT_SIGNATURE_HEADER, "sha256=" +:+ hex_of (hmac secret body))]
            end)
  end.

Definition postHttpReply (http : HttpReplySpec) (trigger : AcceptedTrigger) (outcome : OrchestratorInvokeResult) : SM W string unit :=
  match url_protocol (http_url http) with
  | Some protocol =>
      if bool_decide (protocol = "http:") || bool_decide (protocol = "https:") then
        let body := reply_body trigger outcome in
        do! headers <- reply_headers http body ;;
        match headers with
        | None => sret tt
        | Some headers => do! _ <- gd_replyFetch deps (mkReplyRequest (http_url http) headers body) ;; sret tt
        end
      else sret tt
  | None => sret tt
  end.

(** ** The page of the session *)

Definition trackTurn (sessionId request : string) : SM W string (option nat) :=
  match gd_pages deps with
  | None => sret None
  | Some pages => scatch (pg_addTurn pages sessionId request) (fun _ => sret None)
  end.

Definition turn_text (outcome : OrchestratorInvokeResult) : result string string :=
  if is_success outcome then Ok (oi_result outcome ?? EmptyString) else Err (oi_error outcome ?? "unknown error").

Definition completeTurn (sessionId : string) (tracked : option nat) (outcome : OrchestratorInvokeResult) : SM W string unit :=
  match tracked, gd_pages deps with
  | Some turnIndex, Some pages => best (pg_completeTurn pages sessionId turnIndex (turn_text outcome))
  | _, _ => sret tt
  end.

Definition page_url (gh : GithubReplyTarget) (sessionId : string) : SM W string (option string) :=
  match gd_pages deps, if_set (gd_publicBaseUrl deps) with
  | Some pages, Some base =>
      if gt_sessionPage gh then
        scatch (do! entry <- pg_getOrCreate pages sessionId (gt_owner gh) (gt_repo gh) (gt_issueNumber gh) ;;
                sret (Some (drop_while_end (Ascii.eqb "/"%char) base +:+ "/sessions/" +:+ sp_token entry)))
               (fun _ => sret None)
      else sret None
  | _, _ => sret None
  end.

(** ** The run *)

Definition record_owed (gh : GithubReplyTarget) (sessionId : string) : SM W string unit :=
  match gt_removeLabel gh, gd_pending deps with
  | Some label, Some store => fun w =>
      best (ps_record store (mkPendingLabel (gt_owner gh) (gt_repo gh) (gt_issueNumber gh) label sessionId (clock w))) w
  | _, _ => sret tt
  end.

Definition acknowledge (gh : GithubReplyTarget) (sessionId : string) : SM W string unit :=
  do! pageUrl <- page_url gh sessionId ;;
  let follow := (fun url => "Follow along or send follow-ups: " +:+ url) <$> pageUrl in
  match omap (fun o => if_set o) [gt_ack gh; follow] with
  | [] => sret tt
  | parts => best (comment gh (join (nl_s +:+ nl_s) parts))
  end.

Definition remoteControlHooks (gh : GithubReplyTarget) : PollHooks (W * RunLocals) :=
  mkPollHooks (sret tt) (fun url w =>
    if lo_posted w.2 then (Ok tt, w)
    else best (lift (comment gh (robot +:+ " Watch live or take over the session here: " +:+ url))) (w.1, mkRunLocals (lo_httpSent w.2) true)).

Definition hooks_of (gh : option GithubReplyTarget) : PollHooks (W * RunLocals) :=
  match gh with
  | Some gh => remoteControlHooks gh
  | None => no_hooks
  end.

Definition poll_run (gh : option GithubReplyTarget) (id : string) : SM (W * RunLocals) string OrchestratorInvokeResult :=
  poll (fun req => lift (fetch req)) (lift resolveToken) (fun ms => lift (sleep ms)) (fun w => clock w.1) opts id (hooks_of gh).

Definition kind_of_provider (provider : string) : option string :=
  if bool_decide (provider = "claude") then Some "setup-token"
  else if bool_decide (provider = "claude-remote") then Some "login" else None.

(** The wait for a link: whether it is there. *)
Definition wait_linked (link : IdentityLinkRef) : SM W string bool :=
  match kind_of_provider (ir_provider link), gd_waitForCompletion deps with
  | Some kind, Some wait => wait (ir_subject link) (gd_resumeWaitMs deps ?? DEFAULT_RESUME_WAIT_MS) kind
  | _, _ => sret false
  end.

Definition waitAndResume {S : Type} (wait : SM S string bool) (reinvoke : SM S string OrchestratorInvokeResult) :
    SM S string (option OrchestratorInvokeResult) :=
  do! linked <- wait ;;
  if (linked : bool) then do! outcome <- reinvoke ;; sret (Some outcome) else sret None.

Definition resubmit (gh : option GithubReplyTarget) (envelope : Envelope) (senderLogin : option string) :
    SM (W * RunLocals) string OrchestratorInvokeResult :=
  do! again <- lift (gd_submitEvent deps envelope senderLogin) ;;
  match again with
  | es_accepted id _ => poll_run gh id
  | es_ignored => sret (failed_turn "re-submitting the event after linking: no trigger matched")
  | es_rejected error | es_failed error => sret (failed_turn ("re-submitting the event after linking: " +:+ error))
  end.

Definition send_reply (http : option HttpReplySpec) (trigger : AcceptedTrigger) (outcome : OrchestratorInvokeResult) :
    SM (W * RunLocals) string unit :=
  match http with
  | None => sret tt
  | Some http => do! _ <- http_sent ;; best (lift (postHttpReply http trigger outcome))
  end.

Definition on_target (gh : option GithubReplyTarget) (m : GithubReplyTarget -> SM W string unit) : SM (W * RunLocals) string unit :=
  match gh with
  | Some gh => lift (m gh)
  | None => sret tt
  end.

Definition result_text (outcome : OrchestratorInvokeResult) : string :=
  match turn_text outcome with
  | Ok text => text
  | Err error => went_wrong error
  end.

(** The end of a run that has an outcome. *)
Definition finish_run (gh : option GithubReplyTarget) (trigger : AcceptedTrigger) (tracked : option nat) (outcome : OrchestratorInvokeResult) :
    SM (W * RunLocals) string unit :=
  do! _ <- lift (completeTurn (at_sessionId trigger) tracked outcome) ;;
  do! _ <- on_target gh (fun gh => if gt_result gh then best (comment gh (result_text outcome)) else sret tt) ;;
  send_reply (httpReply trigger) trigger outcome.

(** The turn asks for an account to be linked, and can wait for it. *)
Definition link_asked (outcome : OrchestratorInvokeResult) : option IdentityLinkRef :=
  if is_success outcome && oi_identityLinkPending outcome then oi_identityLink outcome else None.

Definition not_linked : OrchestratorInvokeResult := failed_turn "identity link was not completed; the run did not start".

Definition run_try (gh : option GithubReplyTarget) (envelope : Envelope) (senderLogin : option string) (id : string) (trigger : AcceptedTrigger) :
    SM (W * RunLocals) string unit :=
  let sessionId := at_sessionId trigger in
  let label := env_source envelope +:+ " event " +:+ env_id envelope +:+ " " +:+ arrow +:+ " " +:+
               (if str_empty (at_name trigger) then "trigger" else at_name trigger) in
  do! _ <- on_target gh (fun gh => record_owed gh sessionId) ;;
  do! _ <- on_target gh (fun gh => acknowledge gh sessionId) ;;
  do! tracked <- lift (trackTurn sessionId label) ;;
  do! outcome <- poll_run gh id ;;
  match link_asked outcome with
  | None => finish_run gh trigger tracked outcome
  | Some link =>
      do! _ <- lift (completeTurn sessionId tracked outcome) ;;
      do! _ <- on_target gh (fun gh => best (comment gh (oi_result outcome ?? EmptyString))) ;;
      do! resumed <- waitAndResume (lift (wait_linked link)) (resubmit gh envelope senderLogin) ;;
      match resumed with
      | None => send_reply (httpReply trigger) trigger not_linked
      | Some outcome => do! tracked <- lift (trackTurn sessionId label) ;; finish_run gh trigger tracked outcome
      end
  end.

Definition run_catch (gh : option GithubReplyTarget) (trigger : AcceptedTrigger) (message : string) : SM (W * RunLocals) string unit :=
  do! _ <- on_target gh (fun gh => if gt_result gh then best (comment gh (went_wrong message)) else sret tt) ;;
  match httpReply trigger with
  | None => sret tt
  | Some http => fun w => if lo_httpSent w.2 then (Ok tt, w) else best (lift (postHttpReply http trigger (failed_turn message))) w
  end.

Definition take_label_off (gh : GithubReplyTarget) (sessionId : string) : SM W string unit :=
  match gt_removeLabel gh with
  | None => sret tt
  | Some label =>
      best (do! _ <- gd_removeLabel deps (gt_owner gh) (gt_repo gh) (gt_issueNumber gh) label ;;
            best (match gd_pending deps with Some store => ps_clear store sessionId label | None => sret tt end))
  end.

Definition runAcceptedEvent (envelope : Envelope) (senderLogin : option string) (id : string) (trigger : AcceptedTrigger) : SM W string unit := fun w =>
  let gh := githubReplyTarget trigger in
  let '(r, w') :=
    sfinally (scatch (run_try gh envelope senderLogin id trigger) (run_catch gh trigger))
      (on_target gh (fun gh => take_label_off gh (at_sessionId trigger))) (w, mkRunLocals false false) in
  (r, w'.1).

(** [relayEvent]: what is not accepted is only logged. *)
Definition relayEvent (envelope : Envelope) (senderLogin : option string) : SM W string unit :=
  do! submitted <- gd_submitEvent deps envelope senderLogin ;;
  match submitted with
  | es_accepted id trigger => runAcceptedEvent envelope senderLogin id trigger
  | _ => sret tt
  end.
End Run.

(** ** Replied to once, released once *)

(** [settles I Q m]: from [I], [m] returns, in [Q]. *)
Definition settles {W : Type} (I Q : W -> Prop) (m : SM W string unit) : Prop := forall w, I w -> exists w', m w = (Ok tt, w') /\ Q w'.

Section Lands.
Context {W : Type}.
Implicit Types I Q : W -> Prop.

Lemma settles_after I Q R (m n : SM W string unit) : settles I R m -> settles R Q n -> settles I Q (sbind (fun _ => n) m).
Proof. intros Hm Hn w Hw. destruct (Hm w Hw) as (w1 & E & H1). unfold sbind. rewrite E. by apply Hn. Qed.

(** [m] comes out as [spec] does: it throws where that does, still in [I], and
    otherwise returns, in [Q] of what that gives. *)
Definition comes_out {C : Type} I (Q : C -> W -> Prop) (spec : SM W string C) (m : SM W string unit) : Prop := forall w, I w ->
  match spec w with
  | (Ok c, _) => exists w', m w = (Ok tt, w') /\ Q c w'
  | (Err e, w') => m w = (Err e, w') /\ I w'
  end.

Lemma comes_out_after {A C : Type} I (Q : C -> W -> Prop) (m : SM W string A) f g :
  keeps I m -> (forall a, comes_out I Q (f a) (g a)) -> comes_out I Q (sbind f m) (sbind g m).
Proof. intros Hm H w Hw. specialize (Hm w Hw). unfold sbind. destruct (m w) as [[a|e] w1]; [by apply H|by split]. Qed.

Lemma comes_out_ret {C : Type} I (Q : C -> W -> Prop) c m : settles I (Q c) m -> comes_out I Q (sret c) m.
Proof. intros Hm w Hw. by apply Hm. Qed.

Lemma comes_out_last {C : Type} I (Q : C -> W -> Prop) (m : SM W string C) g :
  keeps I m -> (forall c, settles I (Q c) (g c)) -> comes_out I Q m (sbind g m).
Proof. intros Hm H w Hw. specialize (Hm w Hw). unfold sbind. destruct (m w) as [[a|e] w1]; [by apply H|by split]. Qed.

Lemma comes_out_ext {C : Type} I (Q : C -> W -> Prop) (spec : SM W string C) m m' :
  (forall w, m w = m' w) -> comes_out I Q spec m' -> comes_out I Q spec m.
Proof. intros He H w Hw. rewrite He. by apply H. Qed.

Lemma sbind_nested {A B C : Type} (k : B -> SM W string C) (h : A -> SM W string B) m w :
  sbind k (sbind h m) w = sbind (fun a => sbind k (h a)) m w.
Proof. unfold sbind. by destruct (m w) as [[a|e] w1]. Qed.

Lemma best_returns (m : SM W string unit) w : exists w', best m w = (Ok tt, w').
Proof. unfold best, scatch, sret. destruct (m w) as [[[]|e] w1]; eauto. Qed.

Lemma best_world (m : SM W string unit) w : (best m w).2 = (m w).2.
Proof. unfold best, scatch, sret. by destruct (m w) as [[[]|e] w1]. Qed.

Lemma keeps_best I (m : SM W string unit) : keeps I m -> keeps I (best m).
Proof. intros Hm w Hw. rewrite best_world. by apply Hm. Qed.

Lemma keeps_of_result {A : Type} I (r : result string A) : keeps I (of_result r).
Proof. by intros w Hw. Qed.

Lemma keeps_poll (fetch : FetchRequest -> SM W string FetchResponse) token sleep clock opts id hooks I :
  (forall req, keeps I (fetch req)) -> keeps I token -> (forall ms, keeps I (sleep ms)) ->
  keeps I (on_running hooks) -> (forall url, keeps I (on_remoteControlUrl hooks url)) ->
  keeps I (poll fetch token sleep clock opts id hooks).
Proof.
  intros Hf Ht Hs Hr Hu.
  assert (Hround : forall st, keeps I (poll_round fetch token sleep opts id hooks st)).
  { intros st. apply keeps_sbind; [apply Hs|]. intros _. apply keeps_sbind.
    - apply keeps_scatch; [|intros; apply keeps_sret].
      apply keeps_sbind; [apply keeps_sbind; [done|intros; apply Hf]|intros; apply keeps_sret].
    - intros [res|err]; [|apply keeps_sret]. destruct (fetch_ok res); [|apply keeps_sret]. apply keeps_sbind.
      + apply keeps_sbind; [apply keeps_of_result|]. intros []; try apply keeps_sret. apply keeps_sthrow.
      + intros polled. unfold polled_step. apply keeps_sbind; [destruct (if pl_url st then _ else _); [apply Hu|apply keeps_sret]|].
        intros _. destruct (terminal_result polled); [apply keeps_sret|]. destruct (_ && _); [|apply keeps_sret].
        apply keeps_sbind; [done|intros; apply keeps_sret]. }
  intros w. unfold poll. revert w. change (fun x => ?f x) with f.
  assert (Hloop : forall fuel deadline st, keeps I (poll_loop fetch token sleep clock opts fuel deadline id hooks st)).
  { induction fuel as [|fuel IH]; intros deadline st w Hw; cbn; destruct (_ <? _); try done.
    refine (keeps_sbind I _ _ (Hround st) _ w Hw). intros [st'|outcome]; [apply IH|apply keeps_sret]. }
  intros w Hw. refine (keeps_sbind I _ _ (Hloop _ _ _) _ w Hw). intros [outcome|]; [apply keeps_sret|apply keeps_sthrow].
Qed.
End Lands.

Section Once.
Context {W : Type}.
Context (hmac : string -> string -> string) (url_protocol : string -> option string) (arrow robot : string).
Context (fetch : FetchRequest -> SM W string FetchResponse) (resolveToken : SM W string string) (sleep : Z -> SM W string unit) (clock : W -> Z).
Context (opts : OrchestratorClientOptions) (deps : GatewayDeps W).
(** What was sent to the URLs of triggers, and which labels were to be removed. *)
Context (sent : W -> list HttpReplyRequest) (removals : W -> list (string * string * Z * string)).

Definition logs (s : list HttpReplyRequest) (r : list (string * string * Z * string)) (w : W) : Prop := sent w = s /\ removals w = r.

(** An operation that sends nothing to a trigger's URL and removes no label. *)
Definition still {A : Type} (m : SM W string A) : Prop := forall s r, keeps (logs s r) m.

(** The two logs see what their own port does, also when it fails, and no
    other operation of the clients. *)
Class EventLaws : Prop := {
  el_fetch : forall req, still (fetch req);
  el_token : still resolveToken;
  el_sleep : forall ms, still (sleep ms);
  el_submit : forall envelope login, still (gd_submitEvent deps envelope login);
  el_comment : forall owner repo n text, still (gd_comment deps owner repo n text);
  el_secrets : forall get name key refresh, gd_secrets deps = Some get -> still (get name key refresh);
  el_wait : forall wait subject ms kind, gd_waitForCompletion deps = Some wait -> still (wait subject ms kind);
  el_record : forall store entry, gd_pending deps = Some store -> still (ps_record store entry);
  el_clear : forall store sessionId label, gd_pending deps = Some store -> still (ps_clear store sessionId label);
  el_entry : forall pages sessionId owner repo n, gd_pages deps = Some pages -> still (pg_getOrCreate pages sessionId owner repo n);
  el_turn : forall pages sessionId text, gd_pages deps = Some pages -> still (pg_addTurn pages sessionId text);
  el_turnEnd : forall pages sessionId i r, gd_pages deps = Some pages -> still (pg_completeTurn pages sessionId i r);
  el_removed : forall owner repo n label w s r, logs s r w -> logs s (r ++ [(owner, repo, n, label)]) (gd_removeLabel deps owner repo n label w).2;
  el_sent : forall req w s r, logs s r w -> logs (s ++ [req]) r (gd_replyFetch deps req w).2
}.
Context {laws : EventLaws}.

Lemma still_readSecret name key refresh : still (readSecret deps name key refresh).
Proof using laws.
  intros s r. unfold readSecret. destruct (gd_secrets deps) as [get|] eqn:E; [|apply keeps_sret].
  apply keeps_scatch; [by apply el_secrets|intros; apply keeps_sret].
Qed.

Lemma still_trackTurn sessionId text : still (trackTurn deps sessionId text).
Proof using laws.
  intros s r. unfold trackTurn. destruct (gd_pages deps) as [pages|] eqn:E; [|apply keeps_sret].
  apply keeps_scatch; [by apply el_turn|intros; apply keeps_sret].
Qed.

Lemma still_completeTurn sessionId tracked outcome : still (completeTurn deps sessionId tracked outcome).
Proof using laws.
  intros s r. unfold completeTurn. destruct tracked; [|apply keeps_sret]. destruct (gd_pages deps) as [pages|] eqn:E; [|apply keeps_sret].
  apply keeps_best. by apply el_turnEnd.
Qed.

Lemma still_record_owed gh sessionId : still (record_owed clock deps gh sessionId).
Proof using laws.
  intros s r. unfold record_owed. destruct (gt_removeLabel gh); [|apply keeps_sret]. destruct (gd_pending deps) as [store|] eqn:E; [|apply keeps_sret].
  intros w. apply (keeps_best (logs s r)). by apply el_record.
Qed.

Lemma still_wait link : still (wait_linked deps link).
Proof using laws.
  intros s r. unfold wait_linked. destruct (kind_of_provider _); [|apply keeps_sret]. destruct (gd_waitForCompletion deps) as [wait|] eqn:E; [|apply keeps_sret].
  by apply el_wait.
Qed.

Lemma still_comment gh text : still (best (comment deps gh text)).
Proof using laws. intros s r. apply keeps_best. apply el_comment. Qed.

Lemma still_acknowledge gh sessionId : still (acknowledge deps gh sessionId).
Proof using laws.
  intros s r. unfold acknowledge. apply keeps_sbind.
  - unfold page_url. destruct (gd_pages deps) as [pages|] eqn:E; [|apply keeps_sret]. destruct (if_set _); [|apply keeps_sret].
    destruct (gt_sessionPage gh); [|apply keeps_sret]. apply keeps_scatch; [|intros; apply keeps_sret].
    apply keeps_sbind; [by apply el_entry|intros; apply keeps_sret].
  - intros pageUrl. cbn zeta. destruct (omap _ _); [apply keeps_sret|apply still_comment].
Qed.

(** ** What is owed to the trigger's URL *)

(** The key that a reply is signed with can be read, if it is to be signed. *)
Definition signable (http : HttpReplySpec) : Prop :=
  match http_secretRef http with
  | None => True
  | Some (name, key) => exists get secret, gd_secrets deps = Some get /\ secret <> EmptyString /\ forall w, (get name key false w).1 = Ok (Some secret)
  end.

Definition deliverable (http : HttpReplySpec) : Prop :=
  (url_protocol (http_url http) = Some "http:" \/ url_protocol (http_url http) = Some "https:") /\ signable http.

(** [req] reports [outcome] to the URL of [http], signed if [http] says so. *)
Definition reports (http : HttpReplySpec) (trigger : AcceptedTrigger) (outcome : OrchestratorInvokeResult) (req : HttpReplyRequest) : Prop :=
  hr_url req = http_url http /\ hr_body req = reply_body trigger outcome /\
  match http_secretRef http with
  | None => True
  | Some (name, key) => exists get secret w, gd_secrets deps = Some get /\ (get name key false w).1 = Ok (Some secret) /\
      (EVENT_SIGNATURE_HEADER, "sha256=" +:+ hex_of (hmac secret (hr_body req))) ∈ hr_headers req
  end.

Definition reply_owed (http : option HttpReplySpec) (trigger : AcceptedTrigger) (outcome : OrchestratorInvokeResult)
    (s s' : list HttpReplyRequest) : Prop :=
  match http with
  | None => s' = s
  | Some http => exists req, s' = s ++ [req] /\ reports http trigger outcome req
  end.

(** How a run comes out, its replies left aside: as its poll does, unless that
    asks for an account to be linked; then as the poll of the event's second
    submission, once the account is linked. *)
Definition run_outcome (gh : option GithubReplyTarget) (envelope : Envelope) (senderLogin : option string) (id : string) (trigger : AcceptedTrigger) :
    SM (W * RunLocals) string OrchestratorInvokeResult :=
  let label := env_source envelope +:+ " event " +:+ env_id envelope +:+ " " +:+ arrow +:+ " " +:+
               (if str_empty (at_name trigger) then "trigger" else at_name trigger) in
  do! _ <- on_target gh (fun gh => record_owed clock deps gh (at_sessionId trigger)) ;;
  do! _ <- on_target gh (fun gh => acknowledge deps gh (at_sessionId trigger)) ;;
  do! tracked <- lift (trackTurn deps (at_sessionId trigger) label) ;;
  do! outcome <- poll_run robot fetch resolveToken sleep clock opts deps gh id ;;
  match link_asked outcome with
  | None => sret outcome
  | Some link =>
      do! _ <- lift (completeTurn deps (at_sessionId trigger) tracked outcome) ;;
      do! _ <- on_target gh (fun gh => best (comment deps gh (oi_result outcome ?? EmptyString))) ;;
      do! linked <- lift (wait_linked deps link) ;;
      if negb linked then sret not_linked
      else
        do! again <- lift (gd_submitEvent deps envelope senderLogin) ;;
        match again with
        | es_accepted id' _ => poll_run robot fetch resolveToken sleep clock opts deps gh id'
        | es_ignored => sret (failed_turn "re-submitting the event after linking: no trigger matched")
        | es_rejected error | es_failed error => sret (failed_turn ("re-submitting the event after linking: " +:+ error))
        end
  end.

(** The outcome that is told of a run: of one that throws, that it failed. *)
Definition told_outcome (r : result string OrchestratorInvokeResult) : OrchestratorInvokeResult :=
  match r with
  | Ok outcome => outcome
  | Err message => failed_turn message
  end.

Lemma reply_headers_signed http body w s r : signable http -> logs s r w ->
  exists headers w1, reply_headers hmac deps http body w = (Ok (Some headers), w1) /\ logs s r w1 /\
    match http_secretRef http with
    | None => True
    | Some (name, key) => exists get secret w0, gd_secrets deps = Some get /\ (get name key false w0).1 = Ok (Some secret) /\
        (EVENT_SIGNATURE_HEADER, "sha256=" +:+ hex_of (hmac secret body)) ∈ headers
    end.
Proof using laws.
  intros Hs Hw. unfold signable, reply_headers in *. destruct (http_secretRef http) as [[name key]|]; [|by eexists _, w].
  destruct Hs as (get & secret & Hget & Hne & Hread). unfold sbind. pose proof (still_readSecret name key false s r w Hw) as Hk.
  unfold readSecret, scatch in *. rewrite Hget in *. specialize (Hread w) as Hr. destruct (get name key false w) as [[o|e] w1] eqn:Eg; [|done].
  cbn in Hr. injection Hr as ->. cbn in Hk. unfold sret. replace (if_set (Some secret)) with (Some secret) by (unfold if_set; by destruct secret).
  eexists _, w1. split_and!; [done|done|]. exists get, secret, w. rewrite Eg. split_and!; [done|done|]. right. left.
Qed.

Lemma postHttpReply_sends http trigger outcome w s r : deliverable http -> logs s r w ->
  exists req, logs (s ++ [req]) r (postHttpReply hmac url_protocol deps http trigger outcome w).2 /\ reports http trigger outcome req.
Proof using laws.
  intros [Hp Hs] Hw. unfold postHttpReply.
  destruct (reply_headers_signed http (reply_body trigger outcome) w s r Hs Hw) as (headers & w1 & Hh & Hw1 & Hsig).
  exists (mkReplyRequest (http_url http) headers (reply_body trigger outcome)). split; [|by split_and!].
  assert (Hif : exists p, url_protocol (http_url http) = Some p /\ bool_decide (p = "http:") || bool_decide (p = "https:") = true)
    by (destruct Hp as [-> | ->]; eauto).
  destruct Hif as (p & -> & ->). unfold sbind. rewrite Hh. pose proof (el_sent (mkReplyRequest (http_url http) headers (reply_body trigger outcome)) w1 s r Hw1) as Hl.
  destruct (gd_replyFetch deps _ w1) as [[?|?] w2]; exact Hl.
Qed.

(** ** A run *)

(** Nothing was replied yet, and the run knows it. *)
Definition unsent (s : list HttpReplyRequest) (r : list (string * string * Z * string)) (x : W * RunLocals) : Prop :=
  logs s r x.1 /\ lo_httpSent x.2 = false.

Definition replied (http : option HttpReplySpec) (trigger : AcceptedTrigger) (outcome : OrchestratorInvokeResult) (s : list HttpReplyRequest)
    (r : list (string * string * Z * string)) (x : W * RunLocals) : Prop :=
  exists s', reply_owed http trigger outcome s s' /\ logs s' r x.1.

Lemma unsent_lift {A : Type} (m : SM W string A) s r : still m -> keeps (unsent s r) (lift m).
Proof using. intros Hm [w lo] [Hw Hlo]. unfold lift. specialize (Hm s r w Hw). cbn in *. by destruct (m w). Qed.

Lemma unsent_target gh m s r : (forall g, still (m g)) -> keeps (unsent s r) (on_target gh m).
Proof using. intros Hm. destruct gh as [g|]; [by apply unsent_lift|apply keeps_sret]. Qed.

Lemma unsent_poll gh id s r : keeps (unsent s r) (poll_run robot fetch resolveToken sleep clock opts deps gh id).
Proof using laws.
  apply keeps_poll.
  - intros req. by apply unsent_lift, el_fetch.
  - by apply unsent_lift, el_token.
  - intros ms. by apply unsent_lift, el_sleep.
  - destruct gh; apply keeps_sret.
  - intros url. destruct gh as [gh|]; [|apply keeps_sret]. intros [w lo] Hw. cbn. destruct (lo_posted lo); [exact Hw|].
    refine (keeps_best _ _ (unsent_lift _ s r _) _ _); [apply el_comment|exact Hw].
Qed.

Lemma send_reply_settles http trigger outcome s r : (forall h, http = Some h -> deliverable h) ->
  settles (unsent s r) (replied http trigger outcome s r) (send_reply hmac url_protocol deps http trigger outcome).
Proof using laws.
  intros Hd [w lo] [Hw Hlo]. destruct http as [h|]; cbn; [|eexists; split; [done|by exists s]].
  destruct (postHttpReply_sends h trigger outcome w s r (Hd h eq_refl) Hw) as (req & Hl & Hr).
  cbn in *. unfold sbind, http_sent. cbn. unfold best, scatch, lift. cbn in *.
  destruct (postHttpReply _ _ _ _ _ _ w) as [[[]|e] w1]; (eexists; split; [done|]); exists (s ++ [req]); (split; [by exists req|exact Hl]).
Qed.

Lemma comment_settles gh (b : GithubReplyTarget -> bool) (text : GithubReplyTarget -> string) s r :
  settles (unsent s r) (unsent s r) (on_target gh (fun gh => if b gh then best (comment deps gh (text gh)) else sret tt)).
Proof using laws.
  intros [w lo] Hx. destruct gh as [gh|]; [|by eexists]. unfold on_target, lift. cbn. destruct (b gh); [|by eexists].
  pose proof (still_comment gh (text gh) s r w (proj1 Hx)) as Hk. destruct (best_returns (comment deps gh (text gh)) w) as [w' Hw'].
  rewrite Hw' in Hk |- *. eexists. split; [done|]. by destruct Hx.
Qed.

Lemma completeTurn_settles sessionId tracked outcome s r :
  settles (unsent s r) (unsent s r) (lift (completeTurn deps sessionId tracked outcome)).
Proof using laws.
  intros [w lo] Hx. pose proof (still_completeTurn sessionId tracked outcome s r w (proj1 Hx)) as Hk. unfold lift.
  assert (Hok : exists w', completeTurn deps sessionId tracked outcome w = (Ok tt, w')).
  { unfold completeTurn. destruct tracked; [|by eexists]. destruct (gd_pages deps); [apply best_returns|by eexists]. }
  destruct Hok as [w' Hw']. cbn. rewrite Hw' in Hk |- *. eexists. split; [done|]. by destruct Hx.
Qed.

Lemma finish_run_settles gh trigger tracked outcome s r : (forall h, httpReply trigger = Some h -> deliverable h) ->
  settles (unsent s r) (replied (httpReply trigger) trigger outcome s r) (finish_run hmac url_protocol deps gh trigger tracked outcome).
Proof using laws.
  intros Hd. unfold finish_run. eapply settles_after; [apply completeTurn_settles|]. eapply settles_after; [apply comment_settles|].
  by apply send_reply_settles.
Qed.

(** The wait for a link, step by step. *)
Lemma resumed_steps {C : Type} (wait : SM (W * RunLocals) string bool) reinvoke (k : option OrchestratorInvokeResult -> SM (W * RunLocals) string C) x :
  sbind k (waitAndResume wait reinvoke) x =
  sbind (fun linked => if (linked : bool) then sbind (fun o => k (Some o)) reinvoke else k None) wait x.
Proof.
  unfold waitAndResume. rewrite sbind_nested. unfold sbind. destruct (wait x) as [[[|]|e] x1]; [|done..].
  by destruct (reinvoke x1) as [[o|e] x2].
Qed.

(** The run after its second submission. *)
Lemma tracked_finish_settles gh trigger text outcome s r : (forall h, httpReply trigger = Some h -> deliverable h) ->
  settles (unsent s r) (replied (httpReply trigger) trigger outcome s r)
    (do! tracked <- lift (trackTurn deps (at_sessionId trigger) text) ;; finish_run hmac url_protocol deps gh trigger tracked outcome).
Proof using laws.
  intros Hd x Hx. pose proof (unsent_lift _ s r (still_trackTurn (at_sessionId trigger) text) x Hx) as Hk.
  assert (Hok : exists tracked x', lift (trackTurn deps (at_sessionId trigger) text) x = (Ok tracked, x')).
  { unfold trackTurn, lift. destruct (gd_pages deps) as [pages|]; [|by exists None, x; destruct x]. unfold scatch.
    destruct (pg_addTurn _ _ _ _) as [[o|e] w']; by do 2 eexists. }
  destruct Hok as (tracked & x' & E). unfold sbind. rewrite E in Hk |- *. by apply finish_run_settles.
Qed.

(** The run, its replies included, comes out as [run_outcome] says: where that
    throws, before any reply. *)
Lemma run_try_comes_out gh envelope login id trigger s r : (forall h, httpReply trigger = Some h -> deliverable h) ->
  comes_out (unsent s r) (fun outcome => replied (httpReply trigger) trigger outcome s r)
    (run_outcome gh envelope login id trigger)
    (run_try hmac url_protocol arrow robot fetch resolveToken sleep clock opts deps gh envelope login id trigger).
Proof using laws.
  intros Hd. unfold run_outcome, run_try. cbn zeta.
  apply comes_out_after; [apply unsent_target; intros; apply still_record_owed|]. intros _.
  apply comes_out_after; [apply unsent_target; intros; apply still_acknowledge|]. intros _.
  apply comes_out_after; [apply unsent_lift, still_trackTurn|]. intros tracked.
  apply comes_out_after; [apply unsent_poll|]. intros outcome.
  destruct (link_asked outcome) as [link|]; [|by apply comes_out_ret, finish_run_settles].
  apply comes_out_after; [apply unsent_lift, still_completeTurn|]. intros _.
  apply comes_out_after; [apply unsent_target; intros; apply still_comment|]. intros _.
  eapply comes_out_ext; [intros x; apply resumed_steps|].
  apply comes_out_after; [by apply unsent_lift, still_wait|]. intros [|]; cbn [negb]; [|by apply comes_out_ret, send_reply_settles].
  unfold resubmit. eapply comes_out_ext; [intros x; apply sbind_nested|].
  apply comes_out_after; [apply unsent_lift, el_submit|]. intros [|error|id' trigger'|error];
    [by apply comes_out_ret, tracked_finish_settles..| |by apply comes_out_ret, tracked_finish_settles].
  apply comes_out_last; [apply unsent_poll|]. intros. by apply tracked_finish_settles.
Qed.

Lemma run_catch_replies gh trigger message s r x : (forall h, httpReply trigger = Some h -> deliverable h) -> unsent s r x ->
  exists x', run_catch hmac url_protocol deps gh trigger message x = (Ok tt, x') /\
    replied (httpReply trigger) trigger (failed_turn message) s r x'.
Proof using laws.
  intros Hd Hx. unfold run_catch, sbind.
  assert (Hfirst : exists x1, on_target gh (fun gh => if gt_result gh then best (comment deps gh (went_wrong message)) else sret tt) x = (Ok tt, x1) /\ unsent s r x1).
  { assert (Hk : keeps (unsent s r) (on_target gh (fun gh => if gt_result gh then best (comment deps gh (went_wrong message)) else sret tt))).
    { apply unsent_target. intros g. destruct (gt_result g); [apply still_comment|]. intros ? ?. apply keeps_sret. }
    specialize (Hk x Hx). destruct gh as [g|]; [|by exists x]. unfold on_target, lift in *.
    destruct (gt_result g); [|by eexists]. destruct (best_returns (comment deps g (went_wrong message)) x.1) as [w' Hw'].
    rewrite Hw' in Hk |- *. by eexists. }
  destruct Hfirst as ([w lo] & -> & Hx1 & Hlo). destruct (httpReply trigger) as [h|]; [|eexists; split; [done|by exists s]].
  cbn in Hlo, Hx1 |- *. rewrite Hlo.
  destruct (postHttpReply_sends h trigger (failed_turn message) w s r (Hd h eq_refl) Hx1) as (req & Hl & Hr).
  destruct (best_returns (lift (postHttpReply hmac url_protocol deps h trigger (failed_turn message))) (w, lo)) as [x' Hx'].
  exists x'. split; [done|]. exists (s ++ [req]). split; [by exists req|].
  pose proof (best_world (lift (postHttpReply hmac url_protocol deps h trigger (failed_turn message))) (w, lo)) as Hw. rewrite Hx' in Hw. cbn in Hw. subst x'.
  unfold lift. cbn. by destruct (postHttpReply _ _ _ _ _ _ w).
Qed.

Lemma take_label_off_removes gh sessionId w s r : logs s r w ->
  exists w', take_label_off deps gh sessionId w = (Ok tt, w') /\
    logs s (r ++ match gt_removeLabel gh with Some label => [(gt_owner gh, gt_repo gh, gt_issueNumber gh, label)] | None => [] end) w'.
Proof using laws.
  intros Hw. unfold take_label_off. destruct (gt_removeLabel gh) as [label|]; [|exists w; by rewrite app_nil_r].
  match goal with |- context [best ?m w] => destruct (best_returns m w) as [w' Hw']; pose proof (best_world m w) as Hb end.
  rewrite Hw' in *. exists w'. split; [done|]. cbn in Hb. subst w'.
  pose proof (el_removed (gt_owner gh) (gt_repo gh) (gt_issueNumber gh) label w s r Hw) as Hl. unfold sbind.
  destruct (gd_removeLabel deps _ _ _ _ w) as [[[]|e] w1]; [|exact Hl]. refine (keeps_best _ _ _ w1 Hl).
  destruct (gd_pending deps) as [store|] eqn:E; [by apply el_clear|apply keeps_sret].
Qed.

(** The removals that a trigger asks for. *)
Definition owed_removals (trigger : AcceptedTrigger) : list (string * string * Z * string) :=
  match githubReplyTarget trigger with
  | Some gh => match gt_removeLabel gh with Some label => [(gt_owner gh, gt_repo gh, gt_issueNumber gh, label)] | None => [] end
  | None => []
  end.

End Once.
Arguments EventLaws {W} fetch resolveToken sleep deps sent removals.

(** ** A sample run *)

(** A world in which everything fails but the reader of secrets: what was
    sent and removed, and the time. *)
Record FailingWorld := mkFailing {
  fw_sent : list HttpReplyRequest;
  fw_removals : list (string * string * Z * string);
  fw_now : Z
}.

Definition failing_fetch (req : FetchRequest) : SM FailingWorld string FetchResponse := sthrow "ECONNREFUSED".
Definition failing_sleep (ms : Z) : SM FailingWorld string unit := fun w => (Ok tt, mkFailing (fw_sent w) (fw_removals w) (fw_now w + ms)).

Definition failing_deps : GatewayDeps FailingWorld :=
  mkGatewayDeps (Some (fun _ _ _ => sret (Some "s3cret"))) (fun _ _ => sthrow "no") (fun _ _ _ _ => sthrow "no")
    (fun owner repo n label w => (Err "gone", mkFailing (fw_sent w) (fw_removals w ++ [(owner, repo, n, label)]) (fw_now w)))
    None None None None None
    (fun req w => (Err "timeout", mkFailing (fw_sent w ++ [req]) (fw_removals w) (fw_now w))).

#[global] Instance failing_laws : EventLaws failing_fetch (sret "token") failing_sleep failing_deps fw_sent fw_removals.
Proof. split; cbn; intros; try discriminate; try (by intros s r w [<- <-]); try (by destruct H as [<- <-]). injection H as <-. by intros s r w [<- <-]. Qed.

Definition callback : AcceptedTrigger :=
  mkAccepted "triage" "s-1" (Some (mkRenderedReply (Some (mkRenderedGitHub "acme/widgets" 7 (Some "on it") false true (Some "agent")))
                                     (Some (mkHttpReply "https://hooks.example/done" (Some ("hook", "key")))))).

Definition plain_protocol (url : string) : option string := if startsWith "https:" url then Some "https:" else None.
Definition sample_event : Envelope := mkEnvelope "github" webhook "d-1" "2026-10-13T12:00:00Z" [] JNull [] "acme/widgets".


(** That run sends the failure of its polls, and takes one label off. *)
Example failing_run_settled :
  let w := (runAcceptedEvent (fun key _ => key) plain_protocol "->" "o" failing_fetch (sret "token") failing_sleep fw_now
      (mkOrchestratorClient "http://orchestrator" None 1000 60000) failing_deps sample_event None "t-1" callback (mkFailing [] [] 0)).2 in
  length (fw_sent w) = 1%nat /\ fw_removals w = [("acme", "widgets", 7, "agent")] /\ fw_now w = 4000.
Proof. vm_compute. by split_and!. Qed.
