(* ===== verification/GatewayServer.v ===== *)
(** * Integration gateway: the server

    The routes of events and of session pages (apps/integration-gateway/src/
    server.ts), over the verification of GatewayAuth, the sources of
    GatewaySource, the pages of SessionPage and the runs of GatewayEvents.

    A handler gives its reply and the work that goes on after it; the work runs
    on its own. The APIs of credentials behind these routes are LinkApi and
    code that is not modelled. *)

From stdpp Require Import base gmap strings list.
From Stdlib Require Import ZArith Lia Ascii Bool.
From S2P Require Import Prelude JsString JsNumber Json JsMap JsList JsonText EventValues EventTrigger Driver Fetch GatewayAuth GatewaySource GatewayIdentity SessionPage GatewayRelay GatewayEvents.

#[local] Open Scope Z_scope.

(** ** Bodies (readBodyBuffer) *)

Inductive BodyEvent := be_data (chunk : string) | be_end | be_error (err : string).
Inductive BodyError := too_large | body_failed (err : string).

Record BodyState := mkBodyState {
  bs_chunks : list string;
  bs_size : Z;
  bs_done : bool;
  bs_settled : option (result BodyError string)
}.

Definition body_start : BodyState := mkBodyState [] 0 false None.

(** A promise keeps the first of its settlements. *)
Definition settle (r : result BodyError string) (s : BodyState) : option (result BodyError string) :=
  match bs_settled s with
  | Some first => Some first
  | None => Some r
  end.

Definition body_step (limit : Z) (s : BodyState) (e : BodyEvent) : BodyState :=
  if bs_done s then s
  else
    match e with
    | be_data chunk =>
        let size := bs_size s + Z.of_nat (slen chunk) in
        if limit <? size then mkBodyState (bs_chunks s) size true (settle (Err too_large) s)
        else mkBodyState (bs_chunks s ++ [chunk]) size false (bs_settled s)
    | be_end => mkBodyState (bs_chunks s) (bs_size s) false (settle (Ok (str_concat (bs_chunks s))) s)
    | be_error err => mkBodyState (bs_chunks s) (bs_size s) false (settle (Err (body_failed err)) s)
    end.

Definition readBodyBuffer (limit : Z) (events : list BodyEvent) : option (result BodyError string) :=
  bs_settled (foldl (body_step limit) body_start events).

(** The headers of a request, as an envelope takes them. *)
Definition raw_headers (headers : list (string * HeaderValue)) : list (string * RawHeader) :=
  (fun h => (h.1, match h.2 with OneValue s => HeaderText s | ManyValues l => HeaderTexts l end)) <$> headers.

(** ** Names and paths *)

Definition MAX_WEBHOOK_BODY_BYTES : Z := 25 * 1024 * 1024.

Definition lower_alnum (c : ascii) : bool := is_lower c || is_digit c.
Definition last_char (s : string) : option ascii := String.get (slen s - 1) s.
Definition is_first (p : ascii -> bool) (s : string) : bool := match String.get 0 s with Some c => p c | None => false end.
Definition is_last (p : ascii -> bool) (s : string) : bool := match last_char s with Some c => p c | None => false end.

(** [/^[a-z0-9]([-a-z0-9.]{0,251}[a-z0-9])?$/] *)
Definition SOURCE_NAME (s : string) : bool :=
  is_first lower_alnum s && is_last lower_alnum s && str_forall (fun c => lower_alnum c || char_in "-." c) s && Nat.leb (slen s) 253.

Definition jwt_char (c : ascii) : bool := is_alnum c || char_in "_-" c.

(** [/^Bearer ([A-Za-z0-9_-]+\.[A-Za-z0-9_-]+\.[A-Za-z0-9_-]+)$/] *)
Definition BEARER_JWT (authorization : string) : option string :=
  match strip_prefix "Bearer " authorization with
  | Some token =>
      match split_char "."%char token with
      | [a; b; c] => if forallb (fun p => negb (str_empty p) && str_forall jwt_char p) [a; b; c] then Some token else None
      | _ => None
      end
  | None => None
  end.

Inductive Route :=
| rt_health
| rt_webhook (name : string)
| rt_tick (name : string)
| rt_liveEvents (token : string)
| rt_livePrompt (token : string)
| rt_page (token : string)
| rt_prompt (token : string)
| rt_other.

(** The dispatch of [handleRequest], with a store of pages or without one. *)
Definition route_of (pages : bool) (method path : string) : Route :=
  let get := bool_decide (method = "GET") in
  let post := bool_decide (method = "POST") in
  match split_char "/"%char path with
  | [root; a] => if str_empty root && get && bool_decide (a = "healthz") then rt_health else rt_other
  | [root; a; b] =>
      if negb (str_empty root) || str_empty b then rt_other
      else if post && bool_decide (a = "webhooks") then rt_webhook b
      else if pages && get && bool_decide (a = "sessions") then rt_page b
      else rt_other
  | [root; a; b; c] =>
      if negb (str_empty root) || str_empty b then rt_other
      else if post && bool_decide (a = "events") && bool_decide (c = "tick") then rt_tick b
      else if pages && bool_decide (a = "sessions") then
        if get && bool_decide (c = "live-events") then rt_liveEvents b
        else if post && bool_decide (c = "live-prompt") then rt_livePrompt b
        else if post && bool_decide (c = "prompts") then rt_prompt b
        else rt_other
      else rt_other
  | _ => rt_other
  end.

(** ** The handlers *)

Record GatewayReply := mkReply {
  gy_status : Z;
  gy_headers : list (string * string);
  gy_body : string
}.

Definition empty_reply (status : Z) : GatewayReply := mkReply status [] EmptyString.

Record Delivery := mkDelivery {
  dl_id : string;
  dl_headers : jsmap string;
  dl_body : json;
  dl_receivedAt : Z
}.

Record Resolved := mkResolved {
  rs_login : string;
  rs_isBot : bool;
  rs_repository : string
}.

Section Server.
Context {W : Type}.
Variable hmac : string -> string -> string.
Variable sha256 : string -> string.
Variable program : Type.
Variable cel_run : program -> list (string * cel) -> result string cel.
Variable JSON_parse : string -> option json.
Variable form_fields : string -> list (string * string).
Variables utf8_toString : string -> string.
Variable toISOString : Z -> string.
Variable decodeURIComponent : string -> result string string.
Variable randomUUID : SM W string string.
Variable clock : W -> Z.
(** The tables of sources and triggers as they are at a time. *)
Variable sources : W -> string -> option (CompiledEventSource program).
Variable triggers : W -> option (list (CompiledTrigger program)).
Variable resolve : string -> bool -> option RepoContext -> SM W string (option SenderIdentity).
Variable tickAuthenticate : option (string -> SM W string (option string)).
Variable tickNamespace : option string.
Variable deps : GatewayDeps W.
(** [relayEvent] of GatewayEvents, with its arguments. *)
Variable relay : Envelope -> option string -> SM W string unit.

(** What goes on after a reply. *)
Inductive Job :=
| jb_ingest (name : string) (sender : option (CompiledSender program)) (input : Delivery)
| jb_tick (envelope : Envelope).

Definition lookupSource (rawName : string) (w : W) : option (CompiledEventSource program) :=
  match decodeURIComponent rawName with
  | Err _ => None
  | Ok name => if SOURCE_NAME name then sources w name else None
  end.

(** The verification, with one forced read of the secret. *)
Definition verify_delivery (verify : WebhookVerify) (headers : list (string * HeaderValue)) (rawBody : string) (receivedAt : Z) :
    SM W string (result string unit) :=
  do! secret <- readSecret deps (wv_secretRef verify).1 (wv_secretRef verify).2 false ;;
  match verifyWebhookRequest hmac sha256 verify secret headers rawBody receivedAt with
  | Ok tt => sret (Ok tt)
  | Err _ =>
      do! fresh <- readSecret deps (wv_secretRef verify).1 (wv_secretRef verify).2 true ;;
      sret (verifyWebhookRequest hmac sha256 verify fresh headers rawBody receivedAt)
  end.

Definition content_type (headers : list (string * HeaderValue)) : option string :=
  match own_get "content-type" headers with
  | Some (OneValue s) => Some s
  | _ => None
  end.

Definition delivery_id (deliveryIdHeader : option string) (headers : jsmap string) : SM W string string :=
  match (name ← if_set (toLowerCase <$> deliveryIdHeader); if_set (map_get name headers)) with
  | Some id => sret id
  | None => randomUUID
  end.

(** A delivery that is verified. *)
Definition accept_delivery (name : string) (verify : WebhookVerify) (deliveryIdHeader : option string) (sender : option (CompiledSender program))
    (rawHeaders : list (string * HeaderValue)) (rawBody : string) (receivedAt : Z) : SM W string (GatewayReply * option Job) :=
  let body := parseBody JSON_parse form_fields utf8_toString rawBody (content_type rawHeaders) in
  match (if bool_decide (wv_scheme verify = sv_slackV0) then slackUrlVerificationChallenge body else None) with
  | Some challenge => sret (mkReply 200 [("content-type", "application/json")] (JSON_text (JObj [("challenge", JStr challenge)])), None)
  | None =>
      let headers := normalizeHeaders (raw_headers rawHeaders) [verifyHeaderName verify] in
      do! id <- delivery_id deliveryIdHeader headers ;;
      sret (empty_reply 202, Some (jb_ingest name sender (mkDelivery id headers body receivedAt)))
  end.

Definition handleWebhook (rawHeaders : list (string * HeaderValue)) (rawBody : result BodyError string) (rawName : string) :
    SM W string (GatewayReply * option Job) := fun w =>
  match lookupSource rawName w with
  | Some (webhook_source name verify deliveryIdHeader sender) =>
      match rawBody with
      | Err too_large => (Ok (mkReply 413 [("connection", "close")] EmptyString, None), w)
      | Err (body_failed err) => (Err err, w)
      | Ok rawBody =>
          let receivedAt := clock w in
          (do! verdict <- verify_delivery verify rawHeaders rawBody receivedAt ;;
           match verdict with
           | Ok _ => accept_delivery name verify deliveryIdHeader sender rawHeaders rawBody receivedAt
           | Err _ => sret (empty_reply 401, None)
           end) w
      end
  | _ => (Ok (empty_reply 404, None), w)
  end.

(** ** The sender of a delivery *)

Definition evaluated (field : string) (c : CompiledExpression program) (e : Envelope) : result string cel :=
  match evaluate program cel_run c (envelopeActivation e) with
  | Ok v => Ok v
  | Err err => Err (field +:+ " failed: " +:+ err)
  end.

Definition sender_login (s : CompiledSender program) (e : Envelope) : result string string :=
  let? v := evaluated "sender.loginFrom" (cn_loginFrom s) e in
  match v with
  | CString login => if str_empty login then Err "sender.loginFrom is not a non-empty string" else Ok login
  | _ => Err "sender.loginFrom is not a non-empty string"
  end.

Definition sender_isBot (s : CompiledSender program) (e : Envelope) : result string bool :=
  match cn_isBotFrom s with
  | None => Ok false
  | Some c =>
      let? v := evaluated "sender.isBotFrom" c e in
      match v with CBool b => Ok b | _ => Err "sender.isBotFrom is not a bool" end
  end.

Definition sender_repository (s : CompiledSender program) (e : Envelope) : result string string :=
  match cn_repositoryFrom s with
  | None => Ok EmptyString
  | Some c =>
      let? v := evaluated "sender.repositoryFrom" c e in
      match v with CString r => Ok r | _ => Err "sender.repositoryFrom is not a string" end
  end.

(** What the source's expressions say of the sender. *)
Definition read_sender (s : CompiledSender program) (e : Envelope) : result string Resolved :=
  let? login := sender_login s e in
  let? isBot := sender_isBot s e in
  let? repository := sender_repository s e in
  if isBot && cn_dropBots s then Err ("sender " +:+ login +:+ " is a bot") else Ok (mkResolved login isBot repository).

Definition repo_context (repository : string) : option RepoContext := (fun p => mkRepoContext p.1 p.2) <$> parse_repository repository.

Definition resolveSender (s : CompiledSender program) (e : Envelope) : SM W string (result string Resolved) :=
  match read_sender s e with
  | Err reason => sret (Err reason)
  | Ok r =>
      do! identity <- resolve (rs_login r) (rs_isBot r) (repo_context (rs_repository r)) ;;
      sret (match identity with
            | Some _ => Ok r
            | None => Err ("sender " +:+ rs_login r +:+ " not verified by provider github")
            end)
  end.

Definition envelope_of (name : string) (input : Delivery) (sender : option Resolved) : Envelope :=
  buildWebhookEnvelope toISOString name (dl_id input) (dl_headers input) (dl_body input)
    ((fun r => [("login", JStr (rs_login r)); ("isBot", JBool (rs_isBot r))]) <$> sender)
    (r ← sender; if_set (Some (rs_repository r))) (dl_receivedAt input).

Definition ingestWebhook (name : string) (sender : option (CompiledSender program)) (input : Delivery) : SM W string unit :=
  match sender with
  | None => relay (envelope_of name input None) None
  | Some s => fun w =>
      let preliminary := envelope_of name input None in
      if match triggers w with Some l => couldMatchBeforeSender program cel_run l preliminary | None => true end
      then (do! resolved <- resolveSender s preliminary ;;
            match resolved with
            | Ok r => relay (envelope_of name input (Some r)) (Some (rs_login r))
            | Err _ => sret tt
            end) w
      else (Ok tt, w)
  end.

(** ** Ticks *)

Definition tickAuthorized (authorization : option string) (rawName : string) : SM W string bool :=
  match tickAuthenticate, if_set tickNamespace, authorization with
  | Some authenticate, Some namespace, Some authorization =>
      match decodeURIComponent rawName with
      | Err _ => sret false
      | Ok name =>
          match BEARER_JWT authorization with
          | Some token =>
              if SOURCE_NAME name then
                do! username <- authenticate token ;; sret (bool_decide (username = Some (tickUsername namespace name)))
              else sret false
          | None => sret false
          end
      end
  | _, _, _ => sret false
  end.

Definition authorization_of (headers : list (string * HeaderValue)) : option string :=
  match own_get "authorization" headers with
  | Some (OneValue s) => Some s
  | _ => None
  end.

Definition handleTick (rawHeaders : list (string * HeaderValue)) (rawName : string) : SM W string (GatewayReply * option Job) :=
  do! authorized <- tickAuthorized (authorization_of rawHeaders) rawName ;;
  if (authorized : bool) then fun w =>
    match lookupSource rawName w with
    | Some (cron_source name c) =>
        let now := clock w in
        (do! uuid <- randomUUID ;;
         sret (empty_reply 202, Some (jb_tick (buildCronEnvelope toISOString name uuid (cs_payload c) now)))) w
    | _ => (Ok (empty_reply 404, None), w)
    end
  else sret (empty_reply 401, None).

(** A job, whose errors are reported. *)
Definition run_job (j : Job) : SM W string unit :=
  best (match j with
        | jb_ingest name sender input => ingestWebhook name sender input
        | jb_tick envelope => relay envelope None
        end).
End Server.

(** ** The pages of sessions *)

(** What goes on after a reply to a page. *)
Inductive PageJob :=
| pj_turn (owner repo : string) (issueNumber : Z) (sessionId prompt : string)
| pj_live (sessionId agentRunId : string) (opencodeSessionId : option string) (prompt : string).

Section Pages.
Context {W : Type}.
Variable form_fields : string -> list (string * string).
Variable utf8_toString : string -> string.
Variable render : SessionPageEntry -> bool -> string.
(** The orchestrator's client, as the pages use it. *)
Variable checkLive : string -> SM W string (option (option string)).
Variable invoke : string -> string -> SM W string OrchestratorInvokeResult.
Variable forward : string -> string -> string -> string -> option json -> SM W string json.
Variable deps : GatewayDeps W.
Variable pages : SessionPageStore W.

Definition not_found : GatewayReply := mkReply 404 [] "Not found".

(** The page with the run that is live now. *)
Definition refresh_live (e : SessionPageEntry) (live : option (option string)) : SM W string SessionPageEntry :=
  match (agentRunId ← live; if_set agentRunId) with
  | Some agentRunId =>
      if bool_decide (lv_agentRunId <$> sp_live e = Some agentRunId) then sret e
      else
        let now_live := Some (mkLive agentRunId None) in
        do! _ <- pg_setLive pages (sp_sessionId e) now_live ;; sret (with_live now_live e)
  | None =>
      match sp_live e with
      | Some _ => do! _ <- pg_setLive pages (sp_sessionId e) None ;; sret (with_live None e)
      | None => sret e
      end
  end.

Definition handleSessionPage (token : string) : SM W string GatewayReply :=
  do! found <- pg_getByToken pages token ;;
  match found with
  | None => sret not_found
  | Some e =>
      do! live <- checkLive (sp_sessionId e) ;;
      do! e <- refresh_live e live ;;
      sret (mkReply 200 [("content-type", "text/html; charset=utf-8")] (render e (bool_decide (live <> None))))
  end.

(** The field "prompt" of a form. *)
Definition prompt_of (rawBody : string) : string := trim (own_get "prompt" (form_fields (utf8_toString rawBody)) ?? EmptyString).

Definition back_to (token : string) : GatewayReply := mkReply 303 [("location", "/sessions/" +:+ token)] EmptyString.

(** The body of a request, whose failure ends it. *)
Definition read_body (body : result BodyError string) : SM W string string :=
  match body with
  | Ok raw => sret raw
  | Err too_large => sthrow ("request body exceeds " +:+ Z_to_string MAX_WEBHOOK_BODY_BYTES +:+ " bytes")
  | Err (body_failed err) => sthrow err
  end.

Definition live_run (e : SessionPageEntry) : option SessionLive :=
  match sp_live e with
  | Some l => if str_empty (lv_agentRunId l) then None else Some l
  | None => None
  end.

Definition handleSessionLivePrompt (body : result BodyError string) (token : string) : SM W string (GatewayReply * option PageJob) :=
  do! found <- pg_getByToken pages token ;;
  match (e ← found; l ← live_run e; Some (e, l)) with
  | None => sret (not_found, None)
  | Some (e, l) =>
      do! raw <- read_body body ;;
      let prompt := prompt_of raw in
      sret (back_to token, if str_empty prompt then None else Some (pj_live (sp_sessionId e) (lv_agentRunId l) (lv_opencodeSessionId l) prompt))
  end.

Definition handleSessionPrompt (body : result BodyError string) (token : string) : SM W string (GatewayReply * option PageJob) :=
  do! found <- pg_getByToken pages token ;;
  match found with
  | None => sret (not_found, None)
  | Some e =>
      do! raw <- read_body body ;;
      let prompt := prompt_of raw in
      sret (back_to token, if str_empty prompt then None else Some (pj_turn (sp_owner e) (sp_repo e) (sp_issueNumber e) (sp_sessionId e) prompt))
  end.

(** The id of the first session of a list that has one; a null has no fields. *)
Fixpoint first_id (sessions : list json) : result string (option string) :=
  match sessions with
  | [] => Ok None
  | JNull :: _ => Err "Cannot read properties of null"
  | s :: rest =>
      match text_at "id" (fields_of (Some s)) with
      | Some id => Ok (Some id)
      | None => first_id rest
      end
  end.

Definition discovered (listed : json) : result string (option string) :=
  match listed with
  | JNull => Err "Cannot read properties of null"
  | v => match jget "body" (fields_of (Some v)) with
         | Some (JArr sessions) => first_id sessions
         | _ => Ok None
         end
  end.

Definition submitLivePrompt (sessionId agentRunId : string) (opencodeSessionId : option string) (prompt : string) : SM W string unit :=
  do! opencode <- match if_set opencodeSessionId with
                  | Some id => sret id
                  | None =>
                      do! listed <- forward agentRunId sessionId "GET" "/session" None ;;
                      do! id <- of_result (discovered listed) ;;
                      match if_set id with
                      | None => sthrow "could not discover the live opencode session id"
                      | Some id => do! _ <- pg_setLive pages sessionId (Some (mkLive agentRunId (Some id))) ;; sret id
                      end
                  end ;;
  do! _ <- forward agentRunId sessionId "POST" ("/session/" +:+ opencode +:+ "/prompt_async")
             (Some (JObj [("parts", JArr [JObj [("type", JStr "text"); ("text", JStr prompt)]])])) ;;
  sret tt.

Definition finish_turn (owner repo : string) (issueNumber : Z) (sessionId : string) (tracked : option nat) (outcome : OrchestratorInvokeResult) :
    SM W string unit :=
  do! _ <- completeTurn deps sessionId tracked outcome ;;
  gd_comment deps owner repo issueNumber (result_text outcome).

Definition runSessionTurn (owner repo : string) (issueNumber : Z) (sessionId request : string) : SM W string unit :=
  do! tracked <- trackTurn deps sessionId request ;;
  do! outcome <- invoke request sessionId ;;
  do! _ <- finish_turn owner repo issueNumber sessionId tracked outcome ;;
  match link_asked outcome with
  | None => sret tt
  | Some link =>
      do! resumed <- waitAndResume (wait_linked deps link) (invoke request sessionId) ;;
      match resumed with
      | None => sret tt
      | Some outcome =>
          do! tracked <- trackTurn deps sessionId request ;;
          finish_turn owner repo issueNumber sessionId tracked outcome
      end
  end.

Definition run_page_job (j : PageJob) : SM W string unit :=
  best (match j with
        | pj_turn owner repo n sessionId prompt => runSessionTurn owner repo n sessionId prompt
        | pj_live sessionId agentRunId opencode prompt => submitLivePrompt sessionId agentRunId opencode prompt
        end).
End Pages.

(** ** What a body may hold *)

Definition size_of (chunks : list string) : Z := Z.of_nat (slen (str_concat chunks)).

Lemma size_of_app a b : size_of (a ++ b) = size_of a + size_of b.
Proof. unfold size_of. rewrite str_concat_app, slen_app. lia. Qed.

Lemma size_of_one c : size_of [c] = Z.of_nat (slen c).
Proof. unfold size_of. cbn [str_concat]. rewrite slen_app. cbn. lia. Qed.

Definition body_ok (limit : Z) (s : BodyState) : Prop := size_of (bs_chunks s) <= limit /\ (bs_done s = false -> bs_size s = size_of (bs_chunks s)).

Lemma body_step_ok limit s e : body_ok limit s -> body_ok limit (body_step limit s e).
Proof.
  intros [Hle Hs]. unfold body_step. destruct (bs_done s) eqn:Ed; [by split; [|rewrite Ed]|]. specialize (Hs eq_refl).
  destruct e as [c| |err]; [|by split..]. destruct (Z.ltb_spec limit (bs_size s + Z.of_nat (slen c))); [by split|].
  split; cbn; rewrite size_of_app, size_of_one; lia.
Qed.

Lemma refused_stays limit chunks s : bs_done s = true -> foldl (body_step limit) s (be_data <$> chunks) = s.
Proof. intros Hd. induction chunks as [|c l IH]; [done|]. cbn. unfold body_step at 2. by rewrite Hd, IH. Qed.

Lemma body_pieces limit chunks s : bs_done s = false -> bs_settled s = None -> bs_size s = size_of (bs_chunks s) -> bs_size s <= limit ->
  let s' := foldl (body_step limit) s (be_data <$> chunks) in
  if size_of (bs_chunks s ++ chunks) <=? limit
  then bs_done s' = false /\ bs_settled s' = None /\ bs_chunks s' = bs_chunks s ++ chunks
  else bs_done s' = true /\ bs_settled s' = Some (Err too_large).
Proof.
  revert s. induction chunks as [|c chunks IH]; intros s Hd Hs Hz Hl; cbn [fmap list_fmap foldl].
  - rewrite app_nil_r. by rewrite (proj2 (Z.leb_le _ _)) by lia.
  - rewrite (cons_middle c (bs_chunks s) chunks), app_assoc.
    assert (Hb : body_step limit s (be_data c) = let size := bs_size s + Z.of_nat (slen c) in
      if limit <? size then mkBodyState (bs_chunks s) size true (Some (Err too_large)) else mkBodyState (bs_chunks s ++ [c]) size false None)
      by (unfold body_step, settle; by rewrite Hd, Hs). rewrite Hb. cbn zeta.
    destruct (Z.ltb_spec limit (bs_size s + Z.of_nat (slen c))) as [Hlt|Hle].
    + rewrite refused_stays by done. rewrite !size_of_app, size_of_one. destruct (Z.leb_spec (size_of (bs_chunks s) + Z.of_nat (slen c) + size_of chunks) limit).
      * unfold size_of in *. lia.
      * done.
    + apply (IH (mkBodyState (bs_chunks s ++ [c]) (bs_size s + Z.of_nat (slen c)) false None)); cbn; try done.
      rewrite size_of_app, size_of_one. lia.
Qed.

(** C26: however a client sends its body, the server never buffers more of it
    than the limit; a body that comes in pieces and ends is read whole if it is
    within the limit, and refused if not. *)
Theorem body_bounded (limit : Z) (events : list BodyEvent) (chunks : list string) :
  0 <= limit ->
  size_of (bs_chunks (foldl (body_step limit) body_start events)) <= limit /\
  readBodyBuffer limit ((be_data <$> chunks) ++ [be_end]) =
    Some (if size_of chunks <=? limit then Ok (str_concat chunks) else Err too_large).
Proof.
  intros Hl. split.
  - apply (foldl_inv (body_ok limit)); [intros; by apply body_step_ok|]. split; [exact Hl|done].
  - unfold readBodyBuffer. rewrite foldl_app. pose proof (body_pieces limit chunks body_start eq_refl eq_refl eq_refl Hl) as H. cbn [bs_chunks body_start app] in H.
    destruct (size_of chunks <=? limit); cbn [foldl]; unfold body_step at 1; [destruct H as (-> & Hs & ->)|destruct H as (-> & ->)]; [|done].
    cbn. unfold settle. by rewrite Hs.
Qed.

Lemma body_bounded_witness :
  size_of (bs_chunks (foldl (body_step 5) body_start [be_data "abc"; be_error "reset"; be_data "def"; be_data "x"])) <= 5 /\
  readBodyBuffer 5 ((be_data <$> ["abc"; "de"]) ++ [be_end]) = Some (if size_of ["abc"; "de"] <=? 5 then Ok "abcde" else Err too_large).
Proof. apply (body_bounded 5 [be_data "abc"; be_error "reset"; be_data "def"; be_data "x"] ["abc"; "de"]). lia. Defined.

(** ** What gets in *)

Lemma toLowerCase_idem s : toLowerCase (toLowerCase s) = toLowerCase s.
Proof.
  unfold toLowerCase. induction s as [|c s IH]; [done|]. cbn [str_map]. rewrite IH. f_equal.
  by destruct c as [[] [] [] [] [] [] [] []].
Qed.

Section Entry.
Context {W : Type}.
Variable hmac : string -> string -> string.
Variable sha256 : string -> string.
Variable program : Type.
Variable cel_run : program -> list (string * cel) -> result string cel.
Variable JSON_parse : string -> option json.
Variable form_fields : string -> list (string * string).
Variable utf8_toString : string -> string.
Variable toISOString : Z -> string.
Variable decodeURIComponent : string -> result string string.
Variable randomUUID : SM W string string.
Variable clock : W -> Z.
Variable sources : W -> string -> option (CompiledEventSource program).
Variable triggers : W -> option (list (CompiledTrigger program)).
Variable resolve : string -> bool -> option RepoContext -> SM W string (option SenderIdentity).
Variable tickAuthenticate : option (string -> SM W string (option string)).
Variable tickNamespace : option string.
Variable deps : GatewayDeps W.
Variable relay : Envelope -> option string -> SM W string unit.
Hypothesis digest : forall key data, slen (hmac key data) = 32%nat.

(** The reader gave a secret, and the request proves that its sender has it. *)
Definition proven (verify : WebhookVerify) (headers : list (string * HeaderValue)) (rawBody : string) (receivedAt : Z) : Prop :=
  exists refresh key, gave (readSecret deps (wv_secretRef verify).1 (wv_secretRef verify).2 refresh) (Some key) /\ key <> EmptyString /\
    authentic hmac sha256 verify key headers rawBody receivedAt.

Lemma verified_proven verify headers rawBody receivedAt w w' :
  verify_delivery hmac sha256 deps verify headers rawBody receivedAt w = (Ok (Ok tt), w') -> proven verify headers rawBody receivedAt.
Proof using digest.
  unfold verify_delivery. intros (first & w1 & H1 & H2)%sbind_Ok. destruct (verifyWebhookRequest _ _ _ _ _ _ _) as [[]|e] eqn:Ev.
  - apply webhook_exact in Ev as (key & -> & Hne & Ha); [|done]. exists false, key. split_and!; [by exists w, w1|done..].
  - apply sbind_Ok in H2 as (fresh & w2 & H2 & [= Hv _]). apply webhook_exact in Hv as (key & -> & Hne & Ha); [|done].
    exists true, key. split_and!; [by exists w1, w2|done..].
Qed.

Lemma delivery_id_returns idHeader headers w : (forall w1, exists id w2, randomUUID w1 = (Ok id, w2)) ->
  exists id w', delivery_id randomUUID idHeader headers w = (Ok id, w').
Proof using. intros Hu. unfold delivery_id. destruct (mbind _ _) as [id|]; [by exists id, w|]. by apply Hu. Qed.

Lemma verify_header_named verify key headers rawBody now :
  authentic hmac sha256 verify key headers rawBody now -> verifyHeaderName verify <> EmptyString.
Proof using.
  assert (Hd : forall o d, d <> EmptyString -> toLowerCase (if_set o ?? d) <> EmptyString).
  { intros [[|c s]|] d Hd; cbn; try done; by destruct d. }
  intros [? Hs Hn|? ? Hs|? Hs]; [done|..]; unfold verifyHeaderName; rewrite Hs; by apply Hd.
Qed.

(** C5: nothing that a webhook sends goes any further unless it is proven: the
    server answers 202 and has work to do only for a source of that name, a
    body within the limit, and a request that proves, under a secret that the
    reader gave for this source, that its sender has it; and the work takes no
    header that is to be dropped, the one that proved it among them. *)
Theorem delivery_proven rawHeaders rawBody rawName w reply job w' :
  handleWebhook hmac sha256 program JSON_parse form_fields utf8_toString decodeURIComponent randomUUID clock sources deps rawHeaders rawBody rawName w =
    (Ok (reply, Some job), w') ->
  gy_status reply = 202 /\
  exists name verify idHeader sender raw input,
    lookupSource program decodeURIComponent sources rawName w = Some (webhook_source name verify idHeader sender) /\ rawBody = Ok raw /\
    proven verify rawHeaders raw (clock w) /\ job = jb_ingest program name sender input /\ dl_receivedAt input = clock w /\
    Forall (fun h => map_get h (dl_headers input) = None) ["authorization"; "cookie"; verifyHeaderName verify].
Proof using digest.
  unfold handleWebhook. destruct (lookupSource _ _ _ _ _) as [[name verify idHeader sender|]|] eqn:El; [|done..].
  destruct rawBody as [raw|[]]; [|done..]. intros (verdict & w1 & Hv & H)%sbind_Ok. destruct verdict as [[]|e]; [|done].
  apply verified_proven in Hv. unfold accept_delivery in H. destruct (if bool_decide _ then _ else _); [done|].
  apply sbind_Ok in H as (id & w2 & _ & H). injection H as <- <- _. split; [done|].
  eexists name, verify, idHeader, sender, raw, _. split_and!; [done|done|done|done|done|]. cbn [dl_headers].
  rewrite !Forall_cons. split_and!; [..|done]; unfold normalizeHeaders; rewrite (header_fold_get _ _ _ []) by (by case_match).
  all: rewrite (proj2 (dropped_headers_spec _ _)); [done|]; auto. right. right. exists (verifyHeaderName verify). split; [by left|].
  destruct Hv as (_ & key & _ & _ & Ha). split; [by eapply verify_header_named|]. unfold verifyHeaderName. by rewrite toLowerCase_idem.
Qed.

Lemma readSecret_returns name key refresh w : exists s w', readSecret deps name key refresh w = (Ok s, w').
Proof using.
  unfold readSecret. destruct (gd_secrets deps) as [get|]; [|by eexists _, _]. unfold scatch, sret. destruct (get name key refresh w) as [[s|e] w']; eauto.
Qed.

(** A secret that was just rotated is honoured at once: whatever the
    reader still has cached, a request signed with the secret that a forced read
    gives is taken in (or is Slack's handshake and answered), never refused. *)
Theorem rotation_honoured rawHeaders raw rawName w name verify idHeader sender key :
  lookupSource program decodeURIComponent sources rawName w = Some (webhook_source name verify idHeader sender) ->
  (forall w1, exists w2, readSecret deps (wv_secretRef verify).1 (wv_secretRef verify).2 true w1 = (Ok (Some key), w2)) ->
  (forall w1, exists id w2, randomUUID w1 = (Ok id, w2)) ->
  key <> EmptyString -> authentic hmac sha256 verify key rawHeaders raw (clock w) ->
  exists reply job w',
    handleWebhook hmac sha256 program JSON_parse form_fields utf8_toString decodeURIComponent randomUUID clock sources deps rawHeaders (Ok raw) rawName w =
      (Ok (reply, job), w') /\
    (gy_status reply = 202 /\ is_Some job \/ wv_scheme verify = sv_slackV0 /\ gy_status reply = 200 /\ job = None).
Proof using digest.
  intros Hl Hread Huuid Hne Ha. unfold handleWebhook. rewrite Hl.
  assert (Hv : exists w2, verify_delivery hmac sha256 deps verify rawHeaders raw (clock w) w = (Ok (Ok tt), w2)).
  { unfold verify_delivery, sbind. destruct (readSecret_returns (wv_secretRef verify).1 (wv_secretRef verify).2 false w) as (first & w1 & ->).
    destruct (verifyWebhookRequest _ _ _ first _ _ _) as [[]|e]; [by exists w1|]. destruct (Hread w1) as [w2 ->]. exists w2. unfold sret. do 2 f_equal.
    apply webhook_exact; [done|]. by exists key. }
  destruct Hv as [w2 Hv]. unfold sbind at 1. rewrite Hv. unfold accept_delivery.
  destruct (bool_decide_reflect (wv_scheme verify = sv_slackV0)) as [Hs|Hs].
  2: cbn; destruct (delivery_id_returns idHeader (normalizeHeaders (raw_headers rawHeaders) [verifyHeaderName verify]) w2 Huuid) as (id & w3 & Hid).
  1: destruct (slackUrlVerificationChallenge _) as [challenge|]; [by eexists _, _, w2; split; [|right]|];
     destruct (delivery_id_returns idHeader (normalizeHeaders (raw_headers rawHeaders) [verifyHeaderName verify]) w2 Huuid) as (id & w3 & Hid).
  all: unfold sbind; rewrite Hid; by eexists _, _, w3; split; [|left; split; [|eexists]].
Qed.

(** C9: only its own ServiceAccount ticks a source: the server answers 202 and
    has work to do only if the cluster's authenticator said of the request's token
    that it is the account of the source of that name, and that source is cron's;
    and the event has the payload of the source, and no sender. *)
Theorem tick_by_account rawHeaders rawName w reply job w' :
  handleTick program toISOString decodeURIComponent randomUUID clock sources tickAuthenticate tickNamespace rawHeaders rawName w =
    (Ok (reply, Some job), w') ->
  gy_status reply = 202 /\
  exists authenticate namespace name token c own e,
    tickAuthenticate = Some authenticate /\ tickNamespace = Some namespace /\ decodeURIComponent rawName = Ok name /\
    authorization_of rawHeaders = Some ("Bearer " +:+ token) /\
    gave (authenticate token) (Some ("system:serviceaccount:" +:+ namespace +:+ ":eventsource-" +:+ name)) /\
    (exists w1, sources w1 name = Some (cron_source own c)) /\ job = jb_tick program e /\
    env_source e = own /\ env_body e = or_empty (cs_payload c) /\ env_sender e = [].
Proof using.
  unfold handleTick. intros (authorized & w1 & Ha & H)%sbind_Ok. destruct authorized; [|done].
  unfold tickAuthorized in Ha. destruct tickAuthenticate as [authenticate|]; [|done]. destruct (if_set tickNamespace) as [namespace|] eqn:En; [|done].
  destruct (authorization_of rawHeaders) as [authorization|] eqn:Eh; [|done]. destruct (decodeURIComponent rawName) as [name|e] eqn:Ed; [|done].
  destruct (BEARER_JWT authorization) as [token|] eqn:Eb; [|done]. destruct (SOURCE_NAME name) eqn:Es; [|done].
  apply sbind_Ok in Ha as (username & w2 & Hauth & [= Hu _]). apply bool_decide_eq_true in Hu as ->.
  unfold lookupSource in H. rewrite Ed, Es in H. destruct (sources w1 name) as [[|own c]|] eqn:Ec; [done| |done].
  apply sbind_Ok in H as (uuid & w3 & _ & H). injection H as <- <- _. split; [done|].
  apply if_set_Some in En as [En _]. eexists authenticate, namespace, name, token, c, own, _. split_and!; try done.
  - unfold BEARER_JWT in Eb. destruct (strip_prefix _ _) as [t|] eqn:Ep; [|done]. apply strip_prefix_Some in Ep as ->. by repeat case_match; simplify_eq.
  - by exists w, w2.
  - by exists w1.
Qed.

(** An identity that the provider gave for what the sender's expressions say. *)
Definition known_sender (s : CompiledSender program) (preliminary : Envelope) (r : Resolved) : Prop :=
  read_sender program cel_run s preliminary = Ok r /\
  exists id, gave (resolve (rs_login r) (rs_isBot r) (repo_context (rs_repository r))) (Some id).

(** C7: a login reaches the orchestrator only if the provider knows it. Whatever
    holds before, and is kept by asking the provider, by relaying the event of a
    source without senders, and by relaying an event with the login that the
    source's own expressions read from it and for which the provider gave an
    identity, holds when the work on a delivery ends; nothing else is relayed, and
    the work never throws. *)
Theorem login_known (I : W -> Prop) name sender input :
  (forall login isBot repo, keeps I (resolve login isBot repo)) ->
  (sender = None -> keeps I (relay (envelope_of toISOString name input None) None)) ->
  (forall s r, sender = Some s -> known_sender s (envelope_of toISOString name input None) r ->
     keeps I (relay (envelope_of toISOString name input (Some r)) (Some (rs_login r)))) ->
  keeps I (run_job program cel_run toISOString triggers resolve relay (jb_ingest program name sender input)) /\
  forall w, (run_job program cel_run toISOString triggers resolve relay (jb_ingest program name sender input) w).1 = Ok tt.
Proof using.
  intros Hresolve Hplain Hknown. split; [|intros w; unfold run_job; by destruct (best_returns (ingestWebhook program cel_run toISOString triggers resolve relay name sender input) w) as [w' ->]].
  apply keeps_best. unfold ingestWebhook. destruct sender as [s|]; [|by apply Hplain].
  intros w Hw. cbn zeta. destruct (match triggers w with Some l => _ | None => true end); [|done]. revert w Hw.
  change (keeps I (do! resolved <- resolveSender program cel_run resolve s (envelope_of toISOString name input None) ;;
    match resolved with Ok r => relay (envelope_of toISOString name input (Some r)) (Some (rs_login r)) | Err _ => sret tt end)).
  apply ensures_keeps. eapply (ensures_sbind I (fun v => forall r, v = Ok r -> known_sender s (envelope_of toISOString name input None) r)).
  - unfold resolveSender, known_sender. destruct (read_sender _ _ _ _) as [r|e]; [|by apply ensures_sret].
    eapply ensures_sbind; [apply ensures_gave, Hresolve|]. intros id Hid. apply ensures_sret. intros r' Hr. destruct id as [id|]; [|done].
    injection Hr as <-. split; [done|by exists id].
  - intros [r|e] Hr; [|by apply ensures_sret]. apply ensures_keeps. apply (Hknown s r eq_refl). by apply Hr.
Qed.
End Entry.

(** ** Witnesses *)

Definition demo_source (w : FailingWorld) (name : string) : option (CompiledEventSource unit) :=
  if bool_decide (name = "github") then Some (webhook_source "github" github_hook (Some "X-GitHub-Delivery") None)
  else if bool_decide (name = "nightly") then Some (cron_source "nightly" (mkCronSource "0 3 * * *" None)) else None.

Definition demo_headers (secret : string) : list (string * HeaderValue) :=
  [("x-hub-signature-256", OneValue ("sha256=" +:+ hex_of (toy_mac secret "{}"))); ("Cookie", OneValue "a=b")].

Definition demo_parse (s : string) : option json := Some JNull.
Definition demo_uuid : SM FailingWorld string string := sret "00000000-0000-4000-8000-000000000000".
Definition as_is (s : string) : result string string := Ok s.

Definition demo_webhook (deps : GatewayDeps FailingWorld) (headers : list (string * HeaderValue)) : SM FailingWorld string (GatewayReply * option (Job unit)) :=
  handleWebhook toy_mac (fun s => s) unit demo_parse (fun _ => []) (fun s => s) as_is demo_uuid fw_now demo_source deps headers (Ok "{}") "github".

Lemma delivery_proven_witness :
  (exists reply job w', demo_webhook failing_deps (demo_headers "s3cret") (mkFailing [] [] 0) = (Ok (reply, Some job), w')) /\
  proven toy_mac (fun s => s) failing_deps github_hook (demo_headers "s3cret") "{}" 0.
Proof.
  destruct (demo_webhook failing_deps (demo_headers "s3cret") (mkFailing [] [] 0)) as [[[reply [job|]]|e] w'] eqn:E;
    [|vm_compute in E; discriminate..]. split; [by exists reply, job, w'|].
  destruct (delivery_proven toy_mac (fun s => s) unit demo_parse (fun _ => []) (fun s => s) as_is demo_uuid fw_now demo_source failing_deps toy_mac_length
    (demo_headers "s3cret") (Ok "{}") "github" (mkFailing [] [] 0) reply job w' E)
    as (_ & name & verify & idHeader & sender & raw & input & Hl & [= <-] & Hp & _). injection Hl as _ <- _ _. exact Hp.
Defined.

(** A reader that has the old secret cached. *)
Definition rotating_deps : GatewayDeps FailingWorld :=
  mkGatewayDeps (Some (fun (_ _ : string) (refresh : bool) => sret (Some (if refresh then "new" else "old")))) (gd_submitEvent failing_deps) (gd_comment failing_deps)
    (gd_removeLabel failing_deps) None None None None None (gd_replyFetch failing_deps).

Lemma rotation_honoured_witness :
  exists reply job w', demo_webhook rotating_deps (demo_headers "new") (mkFailing [] [] 0) = (Ok (reply, job), w') /\
    (gy_status reply = 202 /\ is_Some job \/ wv_scheme github_hook = sv_slackV0 /\ gy_status reply = 200 /\ job = None).
Proof.
  apply (rotation_honoured toy_mac (fun s => s) unit demo_parse (fun _ => []) (fun s => s) as_is demo_uuid fw_now demo_source rotating_deps toy_mac_length
    (demo_headers "new") "{}" "github" (mkFailing [] [] 0) "github" github_hook (Some "X-GitHub-Delivery") None "new").
  - vm_compute. reflexivity.
  - intros w1. exists w1. reflexivity.
  - intros w1. by eexists _, w1.
  - discriminate.
  - eapply authentic_hmac; [reflexivity|discriminate|reflexivity|vm_compute; reflexivity].
Defined.

Definition demo_tick : SM FailingWorld string (GatewayReply * option (Job unit)) :=
  handleTick unit (fun _ => "2026-10-13T03:00:00.000Z") as_is demo_uuid fw_now demo_source
    (Some (fun token => sret (if bool_decide (token = "h.p.s") then Some "system:serviceaccount:agents:eventsource-nightly" else None)))
    (Some "agents") [("authorization", OneValue "Bearer h.p.s")] "nightly".

Lemma tick_by_account_witness :
  exists reply job w', demo_tick (mkFailing [] [] 0) = (Ok (reply, Some job), w') /\ gy_status reply = 202.
Proof.
  destruct (demo_tick (mkFailing [] [] 0)) as [[[reply [job|]]|e] w'] eqn:E; [|vm_compute in E; discriminate..].
  exists reply, job, w'. split; [done|].
  exact (proj1 (tick_by_account unit (fun _ => "2026-10-13T03:00:00.000Z") as_is demo_uuid fw_now demo_source
    (Some (fun token => sret (if bool_decide (token = "h.p.s") then Some "system:serviceaccount:agents:eventsource-nightly" else None)))
    (Some "agents") [("authorization", OneValue "Bearer h.p.s")] "nightly" (mkFailing [] [] 0) reply job w' E)).
Defined.

(** A provider that knows "alice" only, and an orchestrator that records the
    logins that it is given. *)
Definition knows_alice (login : string) (isBot : bool) (repo : option RepoContext) : SM (list (option string)) string (option SenderIdentity) :=
  sret (if bool_decide (login = "alice") then Some (mkSenderIdentity "alice" ["developer"]) else None).
Definition record_login (e : Envelope) (login : option string) : SM (list (option string)) string unit := fun w => (Ok tt, w ++ [login]).
Definition says (login : string) (c : unit) (activation : list (string * cel)) : result string cel := Ok (CString login).
Definition plain_sender : CompiledSender unit := mkCompiledSender (mkCompiled unit "body.sender.login" "string" tt) None None true.

Lemma login_known_witness :
  Forall (fun l => l = Some "alice")
    (run_job unit (says "mallory") (fun _ => EmptyString) (fun _ => None) knows_alice record_login
       (jb_ingest unit "github" (Some plain_sender) (mkDelivery "d-1" [] JNull 0)) []).2.
Proof.
  apply (login_known unit (says "mallory") (fun _ => EmptyString) (fun _ => None) knows_alice record_login (fun w => Forall (fun l => l = Some "alice") w)
    "github" (Some plain_sender) (mkDelivery "d-1" [] JNull 0)).
  - intros login isBot repo w Hw. exact Hw.
  - discriminate.
  - intros s r _ [_ [id (w1 & w2 & Hg)]] w Hw. cbn. apply Forall_app. split; [exact Hw|]. constructor; [|constructor].
    unfold knows_alice, sret in Hg. destruct (bool_decide_reflect (rs_login r = "alice")) as [->|]; [done|discriminate].
  - constructor.
Defined.
